(* ===== verification/_CoqProject ===== *)
-Q . S2P
Prelude.v
GoStrings.v
GoFloat.v
GoHeap.v
FSTypes.v
Instances.v
FSPeer.v
FSTransfer.v
FSTransferFacts.v
FSService.v
FSServiceFacts.v
FSNodeFacts.v
FSEndToEnd.v
WalletServer.v
WalletHandlers.v
WalletFacts.v
Proxy.v
ProxyFacts.v
ServerWitness.v
ScriptNum.v
ScriptNumFacts.v
WireBase.v
WireTx.v
WireTxFacts.v
ScriptStack.v
ScriptToken.v
ScriptTokenFacts.v
Sighash.v
SighashFacts.v
GoHash.v
WireMsg.v
WireFrame.v
WireFrameFacts.v
Taproot.v
TaprootFacts.v
Treap.v
TreapFacts.v
TreapPersist.v
ScriptEngine.v
ScriptExec.v
ScriptExecFacts.v
ScriptLimits.v
ScriptMultisig.v
ScriptP2PKH.v
ScriptStandard.v
ScriptWitness.v
ChainCompress.v
ChainCompressFacts.v
ChainUtxo.v
ChainStore.v
ChainStoreFacts.v
ChainError.v
Merkle.v
MerkleFacts.v
ChainNode.v
ChainNodeFacts.v
ChainParams.v
ChainWork.v
ChainWorkFacts.v
ChainGenesis.v
ChainThreshold.v
ChainThresholdFacts.v
ChainCache.v
ChainCacheFacts.v
ChainRules.v
ChainConnect.v
ChainSupply.v
ChainUndoFacts.v
ChainState.v
ChainOrphanFacts.v
ChainStateFacts.v
Mempool.v
MempoolFacts.v
MempoolGraph.v
Mining.v
MiningFacts.v
MiningLimits.v
ChainWitness.v
MempoolWitness.v
NodeWitness.v
