(* ===== verification/Prelude.v ===== *)
(** * OrcaNet: a verification development

    OrcaNet-Tuna is a peer-to-peer file-sharing network whose files are paid
    for in a bitcoin-like currency.  The repository holds four Go programs and
    a desktop front end that talks to the first three over HTTP:

    - fileshare: a libp2p node that publishes, finds, buys and downloads
      files.  Nodes exchange messages on streams, through a relay; provider
      lists are records of a DHT; a JSON-RPC service drives the node; prices
      are paid by calls to the wallet server.
    - server: an HTTP server that starts and stops the currency's daemons
      btcd and btcwallet, keeps login sessions, edits btcd's configuration
      and forwards commands to the btcctl program.
    - proxy: a libp2p node that relays HTTP traffic and advertises itself in
      the DHT.
    - btcd: an in-tree copy of the full node, with parameters of its own.
      Peers exchange messages (wire); blocks are checked against the chain
      and change the set of unspent outputs (blockchain, chaincfg); scripts
      decide which payments are valid (txscript).

    ** How code becomes definitions

    A Go function of the first three programs that changes state is a
    function in the monad [GoM] of this file, from a world to a value and a
    world, or to a panic.  Go errors are values of type [option string].  A
    world holds the variables of the program, the log of what it did to the
    outside (bytes on streams, files written, payments, DHT records,
    processes started) and a counter of external calls, by which the
    outcomes of those calls are indexed: every theorem quantifies over all
    behaviours of the network, the operating system and the other programs.
    btcd is written with plain state passing: [Res], [WRes], [ChainRes] and
    [VRes] are results with the errors of their package and a panic, [Reader]
    is a decoder over the bytes that are left, [ChainM] and [CM] thread the
    state of the block chain, in memory and in the database.  Strings are sequences of bytes; floats are IEEE-754
    numbers of their width (GoFloat); counters, amounts and heights are
    integers with the wrap-around of their width.  Code outside the
    repository is reached through classes with the documented laws the code
    relies on; Instances.v, ScriptWitness.v and ChainWitness.v implement all
    of them, so no law is contradictory.

    ** Files

    Common:
    - Prelude: the monad, its program logic, tactics, hints, list lemmas.
    - GoStrings, GoFloat, GoHash, GoHeap: the parts of strings, strconv, fmt,
      path, time, of float arithmetic, of crypto/sha256 and of container/heap
      the programs use.

    File share (src/fileshare):
    - FSTypes: structs, package variables ([State]), messages and their JSON,
      events, and the interfaces [JsonCodec], [GobCodec], [Libp2p], [Env],
      [HttpHost], [DHT], [StateCodec], [MapRange].
    - FSPeer: bitshare.go, every stream handler and sender but the two loops.
    - FSTransfer: the two loops.  [transfer_step] is one step of the sending
      loop of [sendFileToPeer], and [sys_step] interleaves any number of them
      with the handlers that share [downloadStatus]; [receiveFileData]
      receives in arbitrary reads.
    - FSService: rpcserver.go, the DHT and wallet helpers of utils.go, and
      main.go (start, state file, relay reservation, peer exchange, console).
    - FSTransferFacts, FSServiceFacts (with a small program logic: [emits],
      [keeps], [preserves]), FSNodeFacts, FSEndToEnd: the theorems.

    Wallet server (src/server): WalletServer (manager.go), WalletHandlers
    (handlers.go and main.go), WalletFacts.
    Proxy (src/proxy/main.go): Proxy, ProxyFacts.  ServerWitness holds the
    instances of the three programs.

    Script engine (src/btcd/txscript): ScriptNum (scriptnum.go, error.go),
    ScriptStack (stack.go), ScriptToken (tokenizer.go, script.go,
    scriptbuilder.go, templates of standard.go), Sighash (sighash.go,
    hashcache.go), Taproot (taproot.go), ScriptEngine (opcode.go,
    sigvalidate.go, encoding checks of engine.go), ScriptExec (execution in
    engine.go), ScriptStandard (standard.go), and the theorems in ScriptNumFacts, ScriptStack,
    ScriptTokenFacts, SighashFacts, TaprootFacts, ScriptExecFacts,
    ScriptLimits, ScriptMultisig and ScriptP2PKH, with
    instances in ScriptWitness and NodeWitness.

    Messages (src/btcd/wire): WireBase (common.go; the class [Codec] of
    encodings that are read back and have no second form), WireTx (msgtx.go),
    WireMsg (blocks, headers, inventory, addresses and the other messages),
    WireFrame (message.go: frames on a stream), and WireTxFacts,
    WireFrameFacts, with instances in NodeWitness.

    Block chain (src/btcd/blockchain, src/btcd/chaincfg):
    - ChainError: error.go and results.
    - ChainCompress, ChainStore: compress.go and the records of chainio.go.
    - ChainUtxo, ChainCache: utxoviewpoint.go and utxocache.go; the ledger
      that both implement is in ChainStoreFacts.
    - Merkle: merkle.go, rolling_merkle.go.
    - ChainNode, ChainWork, ChainThreshold: blockindex.go, chainview.go,
      workmath, difficulty.go, thresholdstate.go, versionbits.go.
    - ChainParams, ChainGenesis: params.go, genesis.go.
    - ChainRules, ChainConnect: validate.go, weight.go, scriptval.go,
      checkpoints.go, sequence locks of chain.go.
    - ChainState: chain.go, process.go, accept.go and the recovery of
      utxocache.go: how the best chain changes, orphans, crashes.
    - The theorems are in the files named after these with Facts, in
      ChainSupply, ChainUndoFacts (disconnecting blocks from what is
      stored, and what the check of a block establishes of a view),
      ChainOrphanFacts (with what each operation leaves alone);
      NodeWitness and ChainWitness hold their instances.

    Memory pool (src/btcd/mempool, src/btcd/mining/policy.go): Mempool
    (mempool.go, policy.go, error.go: the pool and its index of spent outputs,
    orphans, replacement, the policy of relaying; what the chain answers, the
    clock and the order of map iterations are parameters), MempoolFacts (the
    invariant and acceptance), MempoolGraph (searches, removal, replacement),
    MempoolWitness.

    Mining (src/btcd/mining/mining.go): Mining (the queue of prioritized
    transactions, the two passes of [NewBlockTemplate], the coinbase and its
    commitment, [UpdateBlockTime], [UpdateExtraNonce]).  The transactions come
    through the interface [TxSource]; its contract [TxSourceOk], against which
    the theorems are proved, is kept by the memory pool ([pool_source_ok]).
    MiningFacts (the queue, the selection), MiningLimits (templates), with
    instances in MempoolWitness: a pool feeds a template.

    Database (src/btcd/database/internal/treap): Treap (nodes in a store with
    pointers; the mutable and the immutable treap, the stack of parents,
    iterators), TreapFacts (trees in the store, ways as lists of frames, the
    mutable treap), TreapPersist (the immutable treap and iterators).

    ** What is proved

    - Transfers: what is sent is a prefix of the file under every
      interleaving, and the whole file when a transfer finishes; pausing
      stops it after at most one buffer; it terminates, however short the
      reads are; what the receiver
      stores, and the content it loses when the header decoder reads ahead.
    - Service: when and what [GetFile] pays, its reply on every branch, the
      provider records, and what survives a restart.
    - Nodes: the invariant of a node's variables over every handler, two
      nodes exchanging requests and metadata, the remaining-time report.
    - Wallet server: which payments are sent, the amounts that slip through
      the check, the mining address in the configuration file; at most one
      instance of each daemon for requests that are served one after the
      other (beside the wallet daemon that creates a wallet), the state an unclean stop leads to, and what a
      session token allows.
    - Proxy: complete relaying, sound tunnels and logs under every
      interleaving, plain HTTP forwarding, the advertising commands.
    - Scripts: numbers and their encodings in bijection, the stack
      operations, tokenizing and building as inverses, removal of signatures
      as a filter, bounds of signature-operation counts; a multisignature
      check succeeds exactly when the signatures match a subsequence of the
      keys; the accepted encodings are exactly strict DER; execution
      terminates, keeps the size limits (but for the items that a version 0
      witness brings), decides pay-to-public-key-hash
      spends, lock times and arithmetic.
    - Digests and trees: equal witness digests commit to equal data; every
      leaf of a script tree has a proof that verifies, and what verifies is a
      leaf.  Such statements assume of SHA-256 that it does not collide on
      the finite list of messages that the two computations hash ([apart]),
      since over all messages it must; the witnesses check that of SHA-256
      itself on their messages.
    - Messages: transactions, blocks and messages have one encoding, which is
      read back with the bytes that follow; the declared sizes; what a reader
      leaves of a stream after bad messages; two inputs that panic.
    - Unspent outputs: views and the cache refine one ledger; undoing a block
      restores it; stored records are read back; a block that passes its
      checks makes no value beyond its subsidy.
    - The state of the chain: after every block, on the best chain or after a
      reorganization, the unspent outputs are those of the blocks up to the
      tip, and the check has established that these blocks spend only unspent
      outputs (with pruning off, for well-formed blocks that make no output a
      second time: [recreated_output_returns] shows what happens otherwise);
      they can be rebuilt after a crash at any time; the pool of orphans
      stays well formed and is emptied of what descends from a block.
    - Standard scripts: what is built is recognized, and taken apart again, but
      for one null-data script.
    - Memory pool: the indexes agree in every state that is reached, so no
      output is spent twice and orphans are bounded; what an accepted
      transaction spends and pays; searches are reachability; removal takes
      exactly the descendants; what a replacement pays and evicts.
    - Mining: the queue gives out an item that no other sorts before; the
      selection ends with an empty queue; the transactions of a template
      spend what is unspent, in an order that respects their dependencies,
      within the limits of weight and signature operations, and the coinbase
      pays the subsidy and the fees; the height is read back from the
      coinbase, and extra nonces make different blocks.
    - Treaps: any operations on a mutable treap, which changes its nodes in
      place, leave a treap that answers and iterates like a finite map (without a
      first key the least entry is visited whatever the last key is); every
      version of an immutable one keeps answering like its map, although the
      versions share nodes.  Three errors of the code are shown on examples.
    - Chains: skip pointers find the ancestors, the best-chain view and fork
      points, the bounds of difficulty changes, the states of deployments
      with their caches, merkle roots in two computations and what they
      commit to, the genesis blocks.

    ** Fuel

    - [for_next], the loop over the tokens of a script, has the length of the
      script plus one as fuel; every token consumes at least one byte, so it
      is not exhausted (lemmas of ScriptTokenFacts).
    - [Execute] takes its fuel as an argument; [Execute_terminates] shows
      that for every engine some fuel is enough, and that more changes
      nothing.  The checks of a block take the fuel for their scripts.
    - The copying loop of the proxy, [transfer], takes its fuel as an
      argument; [transfer_complete] gives the amount that is enough for a
      stream that ends.
    - [Split], [Fields], trimming and digit printing use the length of their
      argument (or the number of digits), and each round consumes a byte.
    - Variable-length integers of the block chain have 10 digits at most; the
      loops over bits of 64-bit counters have 64 rounds; walks along the
      chain have the height of the node plus one.
    - [processOrphans] has two rounds for each orphan and one more, which
      [orphans_processed] shows to be enough; [GetOrphanRoot] has as many
      rounds as there are orphans ([orphan_root_ok]).
    - In the memory pool, [remove_tx], [signals_fuel] and the searches have
      one round more than the pool has transactions, enough when spending
      has no cycle ([ranked]: a cycle needs a hash collision);
      [remove_orphan] and [process_list] have two more than there are orphans
      ([process_list_ends]), and the invariant holds for any fuel.
    - The selection of a template has as many rounds as there are items in
      the queue and dependencies, and two more, which [selection_terminates]
      shows to be enough; moving an element of a heap up has its index plus
      one as fuel, moving it down the length of the heap plus one.
    - Walks in a treap have the number of nodes in the store plus one as fuel,
      and running out of it is a failure, which the theorems exclude.

    ** What is not modelled

    - Third-party packages (libp2p, the DHT, JSON and gob text, HTTP, uuid)
      and the operating system: parameters, as said above.
    - The RPC and HTTP listeners, printing to the log, the front end.
    - Data races: an access to a Go map is one atomic step, and the requests
      of the wallet server are served one after the other.  A nil map is not
      told from an empty one where the code makes its maps at the start.
    - In txscript: RIPEMD-160, SHA-1 and elliptic curves are parameters; the
      signature cache is nil; step callbacks and disassembly are left out.
      Scripts are shorter than 2^31 bytes.
    - In blockchain: timestamps are whole seconds; the memory estimates of
      sizehelper.go, the block files that pruning deletes and the optional
      indexes are parameters; locks are not modelled, since every exported
      method holds the lock of the chain.
    - In mempool: the fee estimator, the optional address index and the
      verbose listing; in standard.go, addresses and atomic swaps.  In
      mining: the script that pays to an address is a parameter.
    - The rest of btcd (the block files and the log of the database,
      connections to peers, the RPC server, addresses) and btcwallet, which the programs only start and call. *)

From stdpp Require Import base gmap strings list fin_maps.
From Stdlib Require Import ZArith Lia.

(** ** Go programs

    A Go function that reads and writes program state is a function from the
    world to an outcome: a value with the world it leaves, or a run-time panic
    with the world at the moment of the panic.  Go errors are ordinary values:
    [error] is [option string], and [None] is Go's [nil]. *)

Declare Scope go_scope.
Delimit Scope go_scope with go.

Abbreviation error := (option string).

Inductive outcome (W A : Type) : Type :=
| Done (a : A) (w : W)
| Panic (w : W).
Arguments Done {W A} a w.
Arguments Panic {W A} w.

Definition GoM (W A : Type) : Type := W → outcome W A.

Section GoMonad.
Context {W : Type}.

Definition go_ret {A} (a : A) : GoM W A := λ w, Done a w.
Definition go_bind {A B} (f : A → GoM W B) (m : GoM W A) : GoM W B :=
  λ w, match m w with Done a w' => f a w' | Panic w' => Panic w' end.
Definition go_panic {A} : GoM W A := λ w, Panic w.
Definition go_get : GoM W W := λ w, Done w w.
Definition go_modify (f : W → W) : GoM W () := λ w, Done () (f w).
End GoMonad.

#[export] Instance GoM_ret {W} : MRet (GoM W) := @go_ret W.
#[export] Instance GoM_bind {W} : MBind (GoM W) := @go_bind W.

(** The world in which a run ends, with or without a panic. *)
Definition final {W A} (o : outcome W A) : W :=
  match o with Done _ w => w | Panic w => w end.

Section GoMonadFacts.
Context {W : Type}.

Lemma bind_done {A B} (f : A → GoM W B) (m : GoM W A) w a w' :
  m w = Done a w' → (m ≫= f) w = f a w'.
Proof. intros H. unfold mbind, GoM_bind, go_bind. by rewrite H. Qed.

Lemma bind_panic {A B} (f : A → GoM W B) (m : GoM W A) w w' :
  m w = Panic w' → (m ≫= f) w = Panic w'.
Proof. intros H. unfold mbind, GoM_bind, go_bind. by rewrite H. Qed.

(** A relation between the world before and the world after that holds of
    every primitive step holds of a composed run. *)
Lemma final_bind {A B} (R : relation W) `{!Transitive R}
      (f : A → GoM W B) (m : GoM W A) w :
  R w (final (m w)) →
  (∀ a w', R w' (final (f a w'))) →
  R w (final ((m ≫= f) w)).
Proof.
  intros Hm Hf. unfold mbind, GoM_bind, go_bind.
  destruct (m w) as [a w'|w']; simpl in *; [by etrans|done].
Qed.
End GoMonadFacts.

(** [maintains I m]: a run of [m] from a world that satisfies [I] ends in one
    that does. *)
Definition maintains {W A} (I : W → Prop) (m : GoM W A) : Prop :=
  ∀ w, I w → I (final (m w)).

Section Maintains.
Context {W : Type} (I : W → Prop).

Lemma maintains_ret {A} (a : A) : maintains I (mret a : GoM W A).
Proof. by intros w. Qed.
Lemma maintains_panic {A} : maintains I (go_panic : GoM W A).
Proof. by intros w. Qed.
Lemma maintains_bind {A B} (f : A → GoM W B) (m : GoM W A) :
  maintains I m → (∀ a, maintains I (f a)) → maintains I (m ≫= f).
Proof.
  intros Hm Hf w Hw. specialize (Hm w Hw). unfold mbind, GoM_bind, go_bind.
  destruct (m w) as [a w'|w']; simpl in *; [by apply Hf|done].
Qed.
End Maintains.

Lemma go_bind_inv {W A B} (m : GoM W A) (f : A → GoM W B) w b w' :
  (m ≫= f) w = Done b w' → ∃ a w1, m w = Done a w1 ∧ f a w1 = Done b w'.
Proof. unfold mbind, GoM_bind, go_bind. destruct (m w); naive_solver. Qed.

(** ** Fixed-width integers *)

(** [wrap_s w z] is [z] reduced to a signed [w]-bit integer, as Go's
    conversions and arithmetic do. *)
Definition wrap_s (w z : Z) : Z :=
  ((z + 2 ^ (w - 1)) mod 2 ^ w - 2 ^ (w - 1))%Z.
Definition wrap_u (w z : Z) : Z := (z mod 2 ^ w)%Z.

Abbreviation int64 := (wrap_s 64).
Abbreviation int32 := (wrap_s 32).
Abbreviation uint64 := (wrap_u 64).
Abbreviation uint32 := (wrap_u 32).

Lemma wrap_s_id w z :
  (0 < w)%Z → (- 2 ^ (w - 1) ≤ z < 2 ^ (w - 1))%Z → wrap_s w z = z.
Proof.
  intros Hw Hz. unfold wrap_s.
  assert (2 ^ w = 2 * 2 ^ (w - 1))%Z as E.
  { rewrite <- Z.pow_succ_r by lia. f_equal; lia. }
  rewrite Z.mod_small; lia.
Qed.

Lemma wrap_s_range w z :
  (0 < w)%Z → (- 2 ^ (w - 1) ≤ wrap_s w z < 2 ^ (w - 1))%Z.
Proof.
  intros Hw. unfold wrap_s.
  assert (2 ^ w = 2 * 2 ^ (w - 1))%Z as E.
  { rewrite <- Z.pow_succ_r by lia. f_equal; lia. }
  assert (0 < 2 ^ (w - 1))%Z by (apply Z.pow_pos_nonneg; lia).
  pose proof (Z.mod_pos_bound (z + 2 ^ (w - 1)) (2 ^ w)); lia.
Qed.

Lemma wrap_u_id w z : (0 ≤ z < 2 ^ w)%Z → wrap_u w z = z.
Proof. apply Z.mod_small. Qed.

Create HintDb orca.
#[export] Hint Resolve maintains_ret maintains_panic maintains_bind : orca.
