(* ===== verification/GoStrings.v ===== *)
(** * Go's strings, strconv and fmt

    Executable models of the functions of Go's standard library that the
    OrcaNet services call: [strings.Split], [strings.Join],
    [strings.HasPrefix], [strings.TrimPrefix], [strings.Contains],
    [strings.TrimSpace], [strings.Fields], decimal printing of integers
    ([%d]), [time.Duration.String], [utf8.ValidString] and [path.Clean] on
    rooted paths.  A Go string is a sequence of bytes: [string] of the
    standard library.  [Split_Join] and [Join_Split] are the laws the provider
    records and the configuration file depend on. *)

From stdpp Require Import base gmap strings list.
From Stdlib Require Import ZArith Ascii Lia.
From S2P Require Import Prelude.

(** ** Bytes and strings *)

Fixpoint bytes_of (s : string) : list ascii :=
  match s with EmptyString => [] | String a s' => a :: bytes_of s' end.

Fixpoint of_bytes (l : list ascii) : string :=
  match l with [] => EmptyString | a :: l' => String a (of_bytes l') end.

Lemma of_bytes_of s : of_bytes (bytes_of s) = s.
Proof. induction s; simpl; congruence. Qed.

Lemma bytes_of_of l : bytes_of (of_bytes l) = l.
Proof. induction l; simpl; congruence. Qed.

Lemma bytes_of_app s t : bytes_of (s +:+ t) = bytes_of s ++ bytes_of t.
Proof. induction s as [|a s IH]; simpl; [done|]. by f_equal. Qed.

Lemma of_bytes_app l k : of_bytes (l ++ k) = of_bytes l +:+ of_bytes k.
Proof. induction l as [|a l IH]; simpl; [done|]. by rewrite IH. Qed.

Lemma append_nil_r (s : string) : s +:+ EmptyString = s.
Proof. induction s as [|a s IH]; [done|]. change (String a (s +:+ EmptyString) = String a s). by rewrite IH. Qed.

Lemma append_assoc s t u : (s +:+ t) +:+ u = s +:+ (t +:+ u).
Proof.
  induction s as [|a s IH]; [done|].
  change (String a ((s +:+ t) +:+ u) = String a (s +:+ (t +:+ u))). by rewrite IH.
Qed.

(** [c ∈ s]: the byte [c] occurs in [s]. *)
Definition occurs (c : ascii) (s : string) : Prop := c ∈ bytes_of s.

(** ** strings.Split and strings.Join for a one-byte separator *)

Fixpoint Split_bytes (c : ascii) (l cur : list ascii) : list string :=
  match l with
  | [] => [of_bytes (rev cur)]
  | a :: l' =>
      if decide (a = c) then of_bytes (rev cur) :: Split_bytes c l' []
      else Split_bytes c l' (a :: cur)
  end.

Definition Split (s : string) (c : ascii) : list string :=
  Split_bytes c (bytes_of s) [].

Fixpoint Join (parts : list string) (sep : string) : string :=
  match parts with
  | [] => EmptyString
  | [p] => p
  | p :: rest => p +:+ sep +:+ Join rest sep
  end.

Abbreviation sep1 c := (String c EmptyString).

Lemma Split_bytes_ne c l cur : Split_bytes c l cur ≠ [].
Proof. revert cur. induction l; intros; simpl; [done|]. case_decide; eauto. Qed.

Lemma Join_cons p q rest sep :
  Join (p :: q :: rest) sep = p +:+ sep +:+ Join (q :: rest) sep.
Proof. done. Qed.

Lemma Join_Split_bytes c l cur :
  Join (Split_bytes c l cur) (sep1 c) = of_bytes (rev cur ++ l).
Proof.
  revert cur. induction l as [|a l IH]; intros cur; simpl.
  { by rewrite app_nil_r. }
  case_decide as E.
  - subst. destruct (Split_bytes c l []) eqn:F; [by destruct (Split_bytes_ne c l [])|].
    rewrite <- F in *. rewrite F, Join_cons, <- F, IH. simpl.
    by rewrite of_bytes_app.
  - rewrite IH. simpl. by rewrite <- app_assoc.
Qed.

(** Joining what was split gives the string back. *)
Lemma Join_Split s c : Join (Split s c) (sep1 c) = s.
Proof. unfold Split. rewrite Join_Split_bytes. simpl. apply of_bytes_of. Qed.

Lemma Split_bytes_plain c l cur :
  c ∉ l → Split_bytes c l cur = [of_bytes (rev cur ++ l)].
Proof.
  revert cur. induction l as [|a l IH]; intros cur H; simpl.
  { by rewrite app_nil_r. }
  case_decide; [set_solver|].
  rewrite IH by set_solver. simpl. by rewrite <- app_assoc.
Qed.

Lemma Split_bytes_sep c l k cur :
  c ∉ l →
  Split_bytes c (l ++ c :: k) cur = of_bytes (rev cur ++ l) :: Split_bytes c k [].
Proof.
  revert cur. induction l as [|a l IH]; intros cur H; simpl.
  { rewrite decide_True by done. by rewrite app_nil_r. }
  case_decide; [set_solver|].
  rewrite IH by set_solver. simpl. by rewrite <- app_assoc.
Qed.

(** Splitting what was joined from separator-free parts gives the parts. *)
Lemma Split_Join c parts :
  parts ≠ [] → Forall (λ p, ¬ occurs c p) parts →
  Split (Join parts (sep1 c)) c = parts.
Proof.
  intros Hne Hp. unfold Split. induction parts as [|p rest IH]; [done|].
  apply Forall_cons in Hp as [Hpc Hrest].
  destruct rest as [|q rest].
  - simpl. rewrite Split_bytes_plain by done. simpl. by rewrite of_bytes_of.
  - rewrite Join_cons, !bytes_of_app. change (bytes_of (sep1 c)) with [c].
    rewrite <- app_comm_cons, app_nil_l. rewrite Split_bytes_sep by done.
    simpl. rewrite of_bytes_of. f_equal. by apply IH.
Qed.

Lemma Split_parts_plain c s : Forall (λ p, ¬ occurs c p) (Split s c).
Proof.
  unfold Split.
  assert (∀ l cur, c ∉ cur → Forall (λ p, ¬ occurs c p) (Split_bytes c l cur)) as H.
  { induction l as [|a l IH]; intros cur Hc; simpl.
    - constructor; [|done]. unfold occurs. rewrite bytes_of_of.
      rewrite list_elem_of_In, <- in_rev, <- list_elem_of_In. done.
    - case_decide; [constructor|].
      + unfold occurs. rewrite bytes_of_of.
        rewrite list_elem_of_In, <- in_rev, <- list_elem_of_In. done.
      + apply IH. set_solver.
      + apply IH. set_solver. }
  apply H. set_solver.
Qed.

(** ** Prefixes and substrings *)

Fixpoint HasPrefix (s p : string) : bool :=
  match p, s with
  | EmptyString, _ => true
  | String b p', String a s' => bool_decide (a = b) && HasPrefix s' p'
  | String _ _, EmptyString => false
  end.

Fixpoint drop_bytes (n : nat) (s : string) : string :=
  match n, s with
  | S n', String _ s' => drop_bytes n' s'
  | _, _ => s
  end.

Definition TrimPrefix (s p : string) : string :=
  if HasPrefix s p then drop_bytes (String.length p) s else s.

Fixpoint Contains (s sub : string) : bool :=
  HasPrefix s sub ||
  match s with EmptyString => false | String _ s' => Contains s' sub end.

Lemma HasPrefix_app p s : HasPrefix (p +:+ s) p = true.
Proof.
  induction p as [|a p IH]; simpl; [by destruct s|].
  rewrite bool_decide_eq_true_2 by done. done.
Qed.

Lemma drop_bytes_app p s : drop_bytes (String.length p) (p +:+ s) = s.
Proof. induction p; simpl; [by destruct s|done]. Qed.

Lemma TrimPrefix_app p s : TrimPrefix (p +:+ s) p = s.
Proof. unfold TrimPrefix. by rewrite HasPrefix_app, drop_bytes_app. Qed.

Lemma HasPrefix_true s p : HasPrefix s p = true → ∃ t, s = p +:+ t.
Proof.
  revert s. induction p as [|b p IH]; intros s H; simpl in *; [by eexists|].
  destruct s as [|a s]; [done|].
  apply andb_true_iff in H as [Ha%bool_decide_eq_true Hp].
  destruct (IH _ Hp) as [t ->]. subst. by exists t.
Qed.

(** ** strings.TrimSpace and strings.Fields

    White space as [unicode.IsSpace] defines it, as UTF-8 byte sequences. *)

Abbreviation chr n := (ascii_of_nat n).

Definition white_space : list (list ascii) :=
  map (λ n, [chr n]) [9; 10; 11; 12; 13; 32] ++
  map (λ n, [chr 194; chr n]) [133; 160] ++
  [[chr 225; chr 154; chr 128]] ++
  map (λ n, [chr 226; chr 128; chr n])
      [128; 129; 130; 131; 132; 133; 134; 135; 136; 137; 138; 168; 169; 175] ++
  [[chr 226; chr 129; chr 159]; [chr 227; chr 128; chr 128]].

Fixpoint strip_list (p l : list ascii) : option (list ascii) :=
  match p, l with
  | [], _ => Some l
  | b :: p', a :: l' => if decide (a = b) then strip_list p' l' else None
  | _ :: _, [] => None
  end.

Definition strip_first (ps : list (list ascii)) (l : list ascii) : option (list ascii) :=
  fold_right (λ p acc, match strip_list p l with Some r => Some r | None => acc end)
             None ps.

Fixpoint trim_fuel (ps : list (list ascii)) (n : nat) (l : list ascii) : list ascii :=
  match n with
  | O => l
  | S n' => match strip_first ps l with
            | Some l' => trim_fuel ps n' l'
            | None => l
            end
  end.

(** Each step removes at least one byte, so [length l] steps suffice. *)
Definition trim_left (l : list ascii) : list ascii :=
  trim_fuel white_space (length l) l.
Definition trim_right (l : list ascii) : list ascii :=
  rev (trim_fuel (map (@rev ascii) white_space) (length l) (rev l)).

Definition TrimSpace (s : string) : string :=
  of_bytes (trim_right (trim_left (bytes_of s))).

(** [strings.Fields]: the maximal runs of bytes between white space. *)
Fixpoint Fields_fuel (n : nat) (l cur : list ascii) : list string :=
  let flush := match cur with [] => [] | _ => [of_bytes (rev cur)] end in
  match n with
  | O => flush
  | S n' =>
      match strip_first white_space l with
      | Some l' => flush ++ Fields_fuel n' l' []
      | None => match l with
                | [] => flush
                | a :: l' => Fields_fuel n' l' (a :: cur)
                end
      end
  end.
Definition Fields (s : string) : list string :=
  Fields_fuel (S (String.length s)) (bytes_of s) [].

Lemma trim_fuel_done ps n l : strip_first ps l = None → trim_fuel ps n l = l.
Proof. intros H. destruct n; simpl; [done|]. by rewrite H. Qed.

(** A string with no white space at either end is left as it is. *)
Definition trimmed (s : string) : bool :=
  match strip_first white_space (bytes_of s),
        strip_first (map (@rev ascii) white_space) (rev (bytes_of s)) with
  | None, None => true
  | _, _ => false
  end.

Lemma TrimSpace_trimmed s : trimmed s = true → TrimSpace s = s.
Proof.
  unfold trimmed, TrimSpace, trim_left, trim_right. intros H.
  destruct (strip_first white_space (bytes_of s)) eqn:E1; [done|].
  destruct (strip_first (map (@rev ascii) white_space) (rev (bytes_of s))) eqn:E2; [done|].
  rewrite (trim_fuel_done _ _ _ E1), (trim_fuel_done _ _ _ E2).
  by rewrite rev_involutive, of_bytes_of.
Qed.

(** ** Printing integers: [%d] *)

Definition digit (n : Z) : ascii := ascii_of_nat (48 + Z.to_nat n).

(** The digits of a non-negative integer; [n] bounds their number. *)
Fixpoint digits_fuel (n : nat) (z : Z) (acc : list ascii) : list ascii :=
  match n with
  | O => acc
  | S n' => let acc' := digit (z mod 10)%Z :: acc in
            if Z.ltb z 10 then acc' else digits_fuel n' (z / 10)%Z acc'
  end.
Definition digits (z : Z) : list ascii :=
  digits_fuel (S (Z.to_nat (Z.log2 z))) z [].

Definition fmt_d (z : Z) : string :=
  of_bytes (if Z.ltb z 0 then "-"%char :: digits (- z) else digits z).

(** ** time.Duration.String *)

Definition Second : Z := 1000000000.

(** [fmtFrac]: the fraction [v / 10^prec] without trailing zeros, and the
    integer part. *)
Fixpoint fmtFrac (prec : nat) (v : Z) (print : bool) (acc : list ascii)
  : list ascii * Z :=
  match prec with
  | O => (if print then "."%char :: acc else acc, v)
  | S p => let d := (v mod 10)%Z in
           let print' := print || negb (Z.eqb d 0) in
           fmtFrac p (v / 10)%Z print' (if print' then digit d :: acc else acc)
  end.

(** The 64-bit duration's absolute value as the unsigned integer Go takes. *)
Definition Duration_String (d : Z) : string :=
  let u := Z.abs d in
  let neg := Z.ltb d 0 in
  let body :=
    if Z.ltb u Second then
      if Z.eqb u 0 then bytes_of "0s"
      else
        let '(unit, prec) :=
          if Z.ltb u 1000 then (bytes_of "ns", 0)
          else if Z.ltb u 1000000 then ([chr 194; chr 181; "s"%char], 3)
          else (bytes_of "ms", 6) in
        let '(frac, v) := fmtFrac prec u false unit in digits v ++ frac
    else
      let '(frac, v) := fmtFrac 9 u false (bytes_of "s") in
      let secs := digits (v mod 60)%Z ++ frac in
      let m := (v / 60)%Z in
      if Z.ltb 0 m then
        let mins := digits (m mod 60)%Z ++ bytes_of "m" ++ secs in
        let h := (m / 60)%Z in
        if Z.ltb 0 h then digits h ++ bytes_of "h" ++ mins else mins
      else secs in
  of_bytes (if neg then "-"%char :: body else body).

(** ** unicode/utf8.ValidString

    No overlong form, no surrogate, nothing above U+10FFFF. *)

Definition byte_in (lo hi : nat) (c : ascii) : bool :=
  let n := nat_of_ascii c in (lo <=? n) && (n <=? hi).
Abbreviation cont c := (byte_in 128 191 c).

Fixpoint utf8_valid (l : list ascii) : bool :=
  match l with
  | [] => true
  | a :: l1 =>
      if byte_in 0 127 a then utf8_valid l1
      else match l1 with
      | [] => false
      | b :: l2 =>
          if byte_in 194 223 a && cont b then utf8_valid l2
          else match l2 with
          | [] => false
          | c :: l3 =>
              if (byte_in 224 224 a && byte_in 160 191 b ||
                  byte_in 225 236 a && cont b || byte_in 237 237 a && byte_in 128 159 b ||
                  byte_in 238 239 a && cont b) && cont c
              then utf8_valid l3
              else match l3 with
              | [] => false
              | d :: l4 =>
                  if (byte_in 240 240 a && byte_in 144 191 b || byte_in 241 243 a && cont b ||
                      byte_in 244 244 a && byte_in 128 143 b) && cont c && cont d
                  then utf8_valid l4 else false
              end
          end
      end
  end.
Definition ValidString (s : string) : bool := utf8_valid (bytes_of s).

(** ** path/filepath.Join below a rooted directory

    [Clean] on a rooted path: empty and [.] elements go, [..] removes the
    element before it and nothing at the root. *)
Definition clean_step (acc : list string) (e : string) : list string :=
  if bool_decide (e = EmptyString) || bool_decide (e = "."%string) then acc
  else if bool_decide (e = ".."%string) then removelast acc
  else acc ++ [e].
Definition Clean_rooted (path : string) : string :=
  ("/" +:+ Join (fold_left clean_step (Split path "/"%char) []) "/")%string.
Definition Join_rooted (dir name : string) : string :=
  if bool_decide (name = EmptyString) then Clean_rooted dir
  else Clean_rooted (dir +:+ "/" +:+ name)%string.

Example Clean_examples :
  Join_rooted "/downloads" "a.txt" = "/downloads/a.txt"%string
  ∧ Join_rooted "/downloads" "x/./b//c" = "/downloads/x/b/c"%string
  ∧ Join_rooted "/downloads" "../etc/passwd" = "/etc/passwd"%string.
Proof. by vm_compute. Qed.
