(* ===== verification/GoFloat.v ===== *)
(** * Go's float32 and float64

    IEEE-754 binary32 and binary64 as the standard library's [spec_float],
    with the operations the OrcaNet services use: conversions between
    integers and the two formats, the arithmetic operators, comparison,
    [strconv.ParseFloat] and the [%.2f] format. *)

From stdpp Require Import base strings list.
From Stdlib Require Import ZArith Ascii Lia.
From Stdlib Require Import SpecFloat.
From S2P Require Import Prelude GoStrings.

Abbreviation f32 := spec_float (only parsing).
Abbreviation f64 := spec_float (only parsing).

Definition f32_of_Z (z : Z) : f32 := binary_normalize 24 128 z 0 false.
Definition f64_of_Z (z : Z) : f64 := binary_normalize 53 1024 z 0 false.
Definition f32_div : f32 → f32 → f32 := SFdiv 24 128.
Definition f64_div : f64 → f64 → f64 := SFdiv 53 1024.
Definition f64_add : f64 → f64 → f64 := SFadd 53 1024.
Definition f64_sub : f64 → f64 → f64 := SFsub 53 1024.
Definition f64_mul : f64 → f64 → f64 := SFmul 53 1024.

(** Go's [x < y], [x <= y], [x >= y] and [x > y]: false when an operand is NaN. *)
Definition f_lt (x y : spec_float) : bool := SFltb x y.
Definition f_le (x y : spec_float) : bool := SFleb x y.
Definition f_ge (x y : spec_float) : bool := SFleb y x.
Definition f_gt (x y : spec_float) : bool := SFltb y x.

Definition float32 (x : f64) : f32 :=
  match x with
  | S754_finite s m e =>
      binary_normalize 24 128 (if s then Zneg m else Zpos m) e s
  | _ => x
  end.

(** [int64(x)]: truncation; out of range (and for NaN) the conversion gives
    the smallest integer, which is what the amd64 instruction returns. *)
Definition int64_of_float (x : spec_float) : Z :=
  match x with
  | S754_zero _ => 0
  | S754_finite s m e =>
      let a := if Z.leb 0 e then (Zpos m * 2 ^ e)%Z else (Zpos m / 2 ^ (- e))%Z in
      let v := if s then (- a)%Z else a in
      if (- 2 ^ 63 <=? v)%Z && (v <? 2 ^ 63)%Z then v else (- 2 ^ 63)%Z
  | _ => (- 2 ^ 63)%Z
  end.

(** [time.Duration.Seconds] *)
Definition Duration_Seconds (d : Z) : f64 :=
  f64_add (f64_of_Z (Z.quot d Second))
          (f64_div (f64_of_Z (Z.rem d Second)) (f64_of_Z Second)).

(** ** strconv.ParseFloat(s, 64) *)

Definition lower (c : ascii) : ascii :=
  let n := nat_of_ascii c in
  if (65 <=? n) && (n <=? 90) then ascii_of_nat (n + 32) else c.
Definition is_digit (c : ascii) : bool :=
  let n := nat_of_ascii c in (48 <=? n) && (n <=? 57).
Definition is_hexletter (c : ascii) : bool :=
  let n := nat_of_ascii (lower c) in (97 <=? n) && (n <=? 102).
Definition digit_val (c : ascii) : Z :=
  if is_digit c then Z.of_nat (nat_of_ascii c - 48)
  else Z.of_nat (nat_of_ascii (lower c) - 87).

(** [underscoreOK]: every underscore stands between digits, or between the
    base prefix and a digit. *)
Inductive uclass := UStart | UDigit | UUnder | UOther.
Fixpoint underscore_loop (hex : bool) (i : uclass) (l : list ascii) : bool :=
  match l with
  | [] => match i with UUnder => false | _ => true end
  | c :: l' =>
      if is_digit c || (hex && is_hexletter c) then underscore_loop hex UDigit l'
      else if bool_decide (c = "_"%char) then
        match i with UDigit => underscore_loop hex UUnder l' | _ => false end
      else match i with UUnder => false | _ => underscore_loop hex UOther l' end
  end.
Definition skip_sign (l : list ascii) : list ascii :=
  match l with
  | c :: l' => if bool_decide (c = "+"%char) || bool_decide (c = "-"%char) then l' else l
  | [] => []
  end.
Definition underscoreOK (l : list ascii) : bool :=
  match skip_sign l with
  | z :: x :: l' =>
      if bool_decide (z = "0"%char) &&
         (bool_decide (lower x = "b"%char) || bool_decide (lower x = "o"%char)
          || bool_decide (lower x = "x"%char))
      then underscore_loop (bool_decide (lower x = "x"%char)) UDigit l'
      else underscore_loop false UStart (z :: x :: l')
  | l' => underscore_loop false UStart l'
  end.

(** The mantissa loop of [readFloat]: the digits as one integer, the number
    of digits after the point, whether a digit was seen, and the rest. *)
Fixpoint read_mant (base : Z) (l : list ascii) (mant : Z) (frac : Z)
         (dot digits : bool) : Z * Z * bool * list ascii :=
  match l with
  | [] => (mant, frac, digits, [])
  | c :: l' =>
      if bool_decide (c = "_"%char) then read_mant base l' mant frac dot digits
      else if bool_decide (c = "."%char) then
        if dot then (mant, frac, digits, l) else read_mant base l' mant frac true digits
      else if is_digit c || ((base =? 16)%Z && is_hexletter c) then
        read_mant base l' (mant * base + digit_val c)%Z
                  (if dot then frac + 1 else frac)%Z dot true
      else (mant, frac, digits, l)
  end.

Fixpoint read_exp (l : list ascii) (e : Z) : Z * list ascii :=
  match l with
  | [] => (e, [])
  | c :: l' =>
      if bool_decide (c = "_"%char) then read_exp l' e
      else if is_digit c then
        read_exp l' (if (e <? 10000)%Z then (e * 10 + digit_val c)%Z else e)
      else (e, l)
  end.

(** [m * 10^k] (or, for hexadecimal, [m * 2^k]) rounded to binary64. *)
Definition scale10 (neg : bool) (m : Z) (k : Z) : f64 :=
  match m with
  | Zpos p =>
      if (0 <=? k)%Z then
        binary_normalize 53 1024 (if neg then - (m * 10 ^ k) else m * 10 ^ k)%Z 0 neg
      else
        match (10 ^ (- k))%Z with
        | Zpos q =>
            let '(mz, ez, lz) := SFdiv_core_binary 53 1024 (Zpos p) 0 (Zpos q) 0 in
            binary_round_aux 53 1024 neg mz ez lz
        | _ => S754_nan
        end
  | _ => S754_zero neg
  end.
Definition scale2 (neg : bool) (m : Z) (k : Z) : f64 :=
  binary_normalize 53 1024 (if neg then (- m)%Z else m) k neg.

(** [strconv.Quote], for the text of the errors; a byte outside ASCII is
    printed in hexadecimal. *)
Definition hex_digit (n : nat) : ascii := ascii_of_nat (if n <? 10 then 48 + n else 87 + n).
Definition quote_byte (c : ascii) : list ascii :=
  let n := nat_of_ascii c in
  let esc (e : ascii) := [chr 92; e] in
  if (n =? 34) || (n =? 92) then [chr 92; c]
  else if n =? 7 then esc "a"%char else if n =? 8 then esc "b"%char
  else if n =? 9 then esc "t"%char else if n =? 10 then esc "n"%char
  else if n =? 11 then esc "v"%char else if n =? 12 then esc "f"%char
  else if n =? 13 then esc "r"%char
  else if (32 <=? n) && (n <=? 126) then [c]
  else [chr 92; "x"%char; hex_digit (n / 16); hex_digit (n mod 16)].
Definition Quote (s : string) : string :=
  of_bytes (chr 34 :: concat (map quote_byte (bytes_of s)) ++ [chr 34]).

Definition syntax_error (s : string) : string :=
  "strconv.ParseFloat: parsing " +:+ Quote s +:+ ": invalid syntax".
Definition range_error (s : string) : string :=
  "strconv.ParseFloat: parsing " +:+ Quote s +:+ ": value out of range".

(** [special]: infinities and NaN, any case. *)
Definition special (l : list ascii) : option f64 :=
  let body := map lower (skip_sign l) in
  let neg := match l with c :: _ => bool_decide (c = "-"%char) | [] => false end in
  if bool_decide (body = bytes_of "inf") || bool_decide (body = bytes_of "infinity")
  then Some (S754_infinity neg)
  else if bool_decide (map lower l = bytes_of "nan") then Some S754_nan
  else None.

Definition read_float (l : list ascii) : option f64 :=
  let neg := match l with c :: _ => bool_decide (c = "-"%char) | [] => false end in
  let l1 := skip_sign l in
  let '(base, l2) :=
    match l1 with
    | z :: x :: _ :: _ =>
        if bool_decide (z = "0"%char) && bool_decide (lower x = "x"%char)
        then (16%Z, drop 2 l1) else (10%Z, l1)
    | _ => (10%Z, l1)
    end in
  let '(mant, frac, digits, l3) := read_mant base l2 0 0 false false in
  if negb digits then None else
  let finish (e : Z) (rest : list ascii) : option f64 :=
    match rest with
    | _ :: _ => None
    | [] =>
        if bool_decide ("_"%char ∈ l) && negb (underscoreOK l) then None
        else Some (if (base =? 16)%Z then scale2 neg mant (e - 4 * frac)%Z
                   else scale10 neg mant (e - frac)%Z)
    end in
  match l3 with
  | c :: l4 =>
      if bool_decide (lower c = (if (base =? 16)%Z then "p" else "e")%char) then
        let neg_e := match l4 with d :: _ => bool_decide (d = "-"%char) | [] => false end in
        match skip_sign l4 with
        | (d :: _) as l5 =>
            if is_digit d then
              let '(e, l6) := read_exp l5 0 in
              finish (if neg_e then (- e)%Z else e) l6
            else None
        | [] => None
        end
      else None
  | [] => if (base =? 16)%Z then None else finish 0%Z []
  end.

(** The value and the error: 0 with a syntax error, an infinity with a range
    error. *)
Definition ParseFloat (s : string) : f64 * error :=
  let l := bytes_of s in
  match special l with
  | Some v => (v, None)
  | None =>
      match read_float l with
      | None => (S754_zero false, Some (syntax_error s))
      | Some (S754_infinity b) => (S754_infinity b, Some (range_error s))
      | Some v => (v, None)
      end
  end.

(** ** fmt's [%.2f]: the exact value rounded half-even to two decimals *)

Definition round_half_even (num den : Z) : Z :=
  let q := (num / den)%Z in
  let r := (num mod den)%Z in
  match (2 * r ?= den)%Z with
  | Lt => q
  | Gt => (q + 1)%Z
  | Eq => if Z.even q then q else (q + 1)%Z
  end.

Definition fmt_2f (x : spec_float) : string :=
  let put (neg : bool) (cents : Z) :=
    of_bytes ((if neg then ["-"%char] else []) ++ digits (cents / 100) ++
              ["."%char; digit ((cents / 10) mod 10); digit (cents mod 10)])%Z in
  match x with
  | S754_zero s => put s 0%Z
  | S754_finite s m e =>
      put s (if (0 <=? e)%Z then (Zpos m * 2 ^ e * 100)%Z
             else round_half_even (Zpos m * 100) (2 ^ (- e)))
  | S754_infinity s => if s then "-Inf" else "+Inf"
  | S754_nan => "NaN"
  end.
