(* ===== verification/GoHeap.v ===== *)
(** * Go: heaps in slices

    The package container/heap over a slice: [Init], [Push] and [Pop], which
    exchange elements of the slice until no element sorts before its parent.
    The theorem is that a heap is a priority queue: its elements are a
    multiset, and what is popped sorts after none of them. *)

From Stdlib Require Import Lia.
From stdpp Require Import base numbers list.
From S2P Require Import Prelude.

(** ** The package *)

Section Package.
Context {A : Type} (less : A → A → bool).

(** [Less(i, j)]; the indices are always in range. *)
Definition less_at (l : list A) (i j : nat) : bool :=
  match l !! i, l !! j with Some x, Some y => less x y | _, _ => false end.
Definition swap (i j : nat) (l : list A) : list A :=
  match l !! i, l !! j with Some x, Some y => <[i := y]> (<[j := x]> l) | _, _ => l end.

Fixpoint up_loop (fuel j : nat) (l : list A) : list A :=
  match fuel with
  | O => l
  | S fuel =>
      let i := ((j - 1) / 2)%nat in
      if (i =? j)%nat || negb (less_at l j i) then l else up_loop fuel i (swap i j l)
  end.
Definition up (j : nat) (l : list A) : list A := up_loop (S j) j l.

(** The child of [i] that sorts first, of those below [n]. *)
Definition child_of (n i : nat) (l : list A) : nat :=
  let j1 := (2 * i + 1)%nat in
  if (j1 + 1 <? n)%nat && less_at l (j1 + 1) j1 then j1 + 1 else j1.
Fixpoint down_loop (fuel i n : nat) (l : list A) : list A :=
  match fuel with
  | O => l
  | S fuel =>
      if (n <=? 2 * i + 1)%nat then l else
      let j := child_of n i l in
      if negb (less_at l j i) then l else down_loop fuel j n (swap i j l)
  end.
Definition down (i n : nat) (l : list A) : list A := down_loop (S n) i n l.

Fixpoint init_loop (i n : nat) (l : list A) : list A :=
  match i with O => l | S i => init_loop i n (down i n l) end.
Definition heap_Init (l : list A) : list A := init_loop (length l / 2) (length l) l.
Definition heap_Push (x : A) (l : list A) : list A := up (length l) (l ++ [x]).
(** The element that is taken off, or nothing for a slice without elements,
    where the code panics. *)
Definition heap_Pop (l : list A) : option (A * list A) :=
  match length l with
  | O => None
  | S n =>
      let l := down 0 n (swap 0 n l) in
      (λ x, (x, take n l)) <$> l !! n
  end.
End Package.

(** ** Elements are neither lost nor added *)

Section Elements.
Context {A : Type} (less : A → A → bool).
Implicit Types l : list A.

Lemma length_swap i j l : length (swap i j l) = length l.
Proof. unfold swap. destruct (l !! i), (l !! j); by rewrite ?length_insert. Qed.
Lemma lookup_swap i j k l : i < length l → j < length l →
  swap i j l !! k = if decide (k = i) then l !! j else if decide (k = j) then l !! i else l !! k.
Proof.
  intros Hi Hj. unfold swap. destruct (lookup_lt_is_Some_2 l i Hi) as [x Hx], (lookup_lt_is_Some_2 l j Hj) as [y Hy].
  rewrite Hx, Hy. destruct (decide (k = i)) as [->|Hki].
  - by rewrite list_lookup_insert_eq by by rewrite length_insert.
  - rewrite list_lookup_insert_ne by done. destruct (decide (k = j)) as [->|Hkj].
    + by rewrite list_lookup_insert_eq.
    + by rewrite list_lookup_insert_ne.
Qed.
Lemma swap_perm i j l : swap i j l ≡ₚ l.
Proof.
  unfold swap. destruct (l !! i) eqn:Hx; [|done]. destruct (l !! j) eqn:Hy; [|done]. by apply Permutation_insert_swap.
Qed.

Lemma up_loop_perm fuel j l : up_loop less fuel j l ≡ₚ l.
Proof.
  revert j l. induction fuel as [|fuel IH]; intros j l; cbn; [done|]. destruct (_ || _); [done|].
  by rewrite IH, swap_perm.
Qed.
Lemma down_loop_perm fuel i n l : down_loop less fuel i n l ≡ₚ l.
Proof.
  revert i l. induction fuel as [|fuel IH]; intros i l; cbn [down_loop]; [done|]. destruct (_ <=? _); [done|].
  destruct (negb _); [done|]. by rewrite IH, swap_perm.
Qed.
Lemma init_loop_perm i n l : init_loop less i n l ≡ₚ l.
Proof. revert l. induction i as [|i IH]; intros l; cbn [init_loop]; [done|]. rewrite IH. apply down_loop_perm. Qed.
Lemma heap_Init_perm l : heap_Init less l ≡ₚ l.
Proof. apply init_loop_perm. Qed.
Lemma heap_Push_perm x l : heap_Push less x l ≡ₚ x :: l.
Proof. unfold heap_Push, up. by rewrite up_loop_perm, Permutation_app_comm. Qed.
Lemma heap_Pop_perm l x l' : heap_Pop less l = Some (x, l') → l ≡ₚ x :: l'.
Proof.
  unfold heap_Pop. destruct (length l) as [|n] eqn:Hl; [done|]. cbv zeta.
  set (l1 := down less 0 n (swap 0 n l)). destruct (l1 !! n) as [y|] eqn:Hy; [|done]. intros [= -> <-].
  assert (l1 ≡ₚ l) as Hp by (unfold l1, down; by rewrite down_loop_perm, swap_perm).
  rewrite <- Hp. apply take_S_r in Hy as Ht. rewrite take_ge in Ht by (rewrite Hp; lia).
  rewrite Ht at 1. by rewrite Permutation_app_comm.
Qed.
Lemma heap_Pop_some l : l ≠ [] → is_Some (heap_Pop less l).
Proof.
  unfold heap_Pop. intros Hl. destruct (length l) as [|n] eqn:Hn; [by apply nil_length_inv in Hn|]. cbv zeta.
  apply fmap_is_Some, lookup_lt_is_Some_2. unfold down. rewrite down_loop_perm, swap_perm. lia.
Qed.
Lemma heap_Pop_none l : heap_Pop less l = None ↔ l = [].
Proof.
  split; [|by intros ->]. intros Hn. destruct l as [|x l]; [done|].
  destruct (heap_Pop_some (x :: l)) as [r Hr]; [done|congruence].
Qed.
End Elements.

(** ** The order *)

Section Order.
Context {A : Type} (P : A → Prop) (less : A → A → bool).
(** A weak order of the elements with [P]: not to sort before is transitive. *)
Class WeakOrder : Prop := {
  less_asym x y : P x → P y → less x y = true → less y x = false;
  not_less_trans x y z : P x → P y → P z → less y x = false → less z y = false → less z x = false }.
Context `{WeakOrder}.
Implicit Types l : list A.

Definition is_child (i j : nat) : Prop := j = 2 * i + 1 ∨ j = 2 * i + 2.
Definition heap_from (lo n : nat) l : Prop :=
  ∀ i j, lo ≤ i → is_child i j → j < n → less_at less l j i = false.
Definition is_heap l : Prop := heap_from 0 (length l) l.

Lemma less_at_asym l i j : Forall P l → less_at less l i j = true → less_at less l j i = false.
Proof.
  unfold less_at. rewrite Forall_lookup. intros HP. destruct (l !! i) eqn:?, (l !! j) eqn:?; try done. apply less_asym; eauto.
Qed.
Lemma less_at_irr l i : Forall P l → less_at less l i i = false.
Proof. intros HP. destruct (less_at less l i i) eqn:E; [|done]. by rewrite (less_at_asym _ _ _ HP E) in E. Qed.
Lemma less_at_trans l i j k :
  Forall P l → j < length l → less_at less l j i = false → less_at less l k j = false → less_at less l k i = false.
Proof.
  unfold less_at. rewrite Forall_lookup. intros HP [y Hy]%lookup_lt_is_Some_2. rewrite Hy.
  destruct (l !! i) eqn:?, (l !! k) eqn:?; try done. apply not_less_trans; eauto.
Qed.
Definition exchanged (i j k : nat) : nat := if decide (k = i) then j else if decide (k = j) then i else k.
Lemma less_at_swap l i j a b :
  i < length l → j < length l → less_at less (swap i j l) a b = less_at less l (exchanged i j a) (exchanged i j b).
Proof.
  intros Hi Hj. unfold less_at, exchanged. rewrite !lookup_swap by done. by repeat case_decide.
Qed.
Ltac swapped := rewrite less_at_swap by lia; unfold exchanged; repeat case_decide; try lia.

(** Only [i] may sort after its children. *)
Definition sinking (lo i n : nat) l : Prop :=
  (∀ p c, lo ≤ p → p ≠ i → is_child p c → c < n → less_at less l c p = false) ∧
  (∀ p c, lo ≤ p → is_child p i → is_child i c → c < n → less_at less l c p = false).

Lemma child_of_least l n i :
  Forall P l → 2 * i + 1 < n → is_child i (child_of less n i l) ∧ child_of less n i l < n ∧
  ∀ c, is_child i c → c < n → less_at less l c (child_of less n i l) = false.
Proof.
  intros HP Hn. unfold child_of, is_child. pose proof (λ k, less_at_irr l k HP) as Hirr.
  destruct (2 * i + 1 + 1 <? n) eqn:E; cbn [andb].
  - apply Nat.ltb_lt in E. destruct (less_at less l (2 * i + 1 + 1) (2 * i + 1)) eqn:Hl.
    + split_and!; [lia|lia|]. intros c [->| ->] _; [by apply less_at_asym|]. replace (2 * i + 2) with (2 * i + 1 + 1) by lia. apply Hirr.
    + split_and!; [lia|lia|]. intros c [->| ->] _; [apply Hirr|]. by replace (2 * i + 2) with (2 * i + 1 + 1) by lia.
  - apply Nat.ltb_ge in E. split_and!; [lia|lia|]. intros c [->| ->] ?; [apply Hirr|lia].
Qed.

Lemma down_loop_ok fuel lo i n l :
  Forall P l → n ≤ length l → n < fuel + i → lo ≤ i → sinking lo i n l → heap_from lo n (down_loop less fuel i n l).
Proof.
  revert i l. induction fuel as [|fuel IH]; intros i l HP Hn Hf Hlo [Ha Hb]; cbn [down_loop].
  { intros p c Hp [->| ->] Hc; (apply Ha; [done|lia|unfold is_child; lia|done]). }
  destruct (n <=? 2 * i + 1) eqn:E; [apply Nat.leb_le in E|apply Nat.leb_gt in E].
  { intros p c Hp Hpc Hc. apply Ha; try done. intros ->. unfold is_child in Hpc. lia. }
  destruct (child_of_least l n i HP E) as (Hj & Hjn & Hmin). set (j := child_of less n i l) in *.
  destruct (less_at less l j i) eqn:Hl; cbn [negb].
  2: { intros p c Hp Hpc Hc. destruct (decide (p = i)) as [->|]; [|by apply Ha].
       apply (less_at_trans _ _ j); [done|lia|done|by apply Hmin]. }
  assert (i < j) by (unfold is_child in Hj; lia).
  apply IH; [by rewrite swap_perm|by rewrite length_swap|lia|lia|]. unfold sinking, is_child in *. split.
  - intros p c Hp Hpj Hpc Hc. swapped; subst;
      first [by apply less_at_asym|by apply Hmin|apply Ha; lia|apply Hb; lia].
  - intros p c Hp Hpj Hjc Hc. assert (p = i) as -> by lia. swapped. apply Ha; lia.
Qed.

(** Only [j] may sort before its parent. *)
Definition rising (j n : nat) l : Prop :=
  (∀ p c, c ≠ j → is_child p c → c < n → less_at less l c p = false) ∧
  (∀ p c, is_child p j → is_child j c → c < n → less_at less l c p = false).
Lemma up_loop_ok fuel j l :
  Forall P l → j < fuel → j < length l → rising j (length l) l → heap_from 0 (length l) (up_loop less fuel j l).
Proof.
  revert j l. induction fuel as [|fuel IH]; intros j l HP Hf Hj [Ha Hb]; [lia|]. cbn [up_loop].
  pose proof (Nat.div_mod_eq (j - 1) 2). pose proof (Nat.mod_upper_bound (j - 1) 2 ltac:(lia)).
  set (i := (j - 1) / 2) in *. destruct ((i =? j) || _) eqn:E.
  - intros p c _ Hpc Hc. destruct (decide (c = j)) as [->|]; [|by apply Ha]. unfold is_child in Hpc.
    apply orb_true_iff in E as [E%Nat.eqb_eq|E%negb_true_iff]; [lia|]. assert (p = i) as -> by lia. done.
  - apply orb_false_iff in E as [Eij%Nat.eqb_neq Hl%negb_false_iff].
    rewrite <- (length_swap i j l). unfold is_child in *. apply IH; [by rewrite swap_perm|lia|rewrite length_swap; lia|].
    rewrite length_swap. unfold rising, is_child. split.
    + intros p c Hc Hpc Hcn. swapped; subst;
        first [by apply less_at_asym|apply Ha; lia|apply Hb; lia
              |apply (less_at_trans _ _ i); [done|lia|by apply less_at_asym|apply Ha; lia]].
    + intros p c Hpi Hic Hcn. swapped; subst;
        first [apply Ha; lia|apply (less_at_trans _ _ i); [done|lia|apply Ha; lia|apply Ha; lia]].
Qed.

Lemma init_loop_ok i n l : Forall P l → n ≤ length l → heap_from i n l → heap_from 0 n (init_loop less i n l).
Proof.
  revert l. induction i as [|i IH]; intros l HP Hn Hl; cbn [init_loop]; [done|]. apply IH.
  - unfold down. by rewrite down_loop_perm.
  - unfold down. by rewrite down_loop_perm.
  - apply down_loop_ok; [done|done|lia|done|]. split.
    + intros p c Hp Hpi. apply Hl. lia.
    + intros p c Hp Hpi. unfold is_child in Hpi. lia.
Qed.
Lemma heap_root l k : Forall P l → is_heap l → k < length l → less_at less l k 0 = false.
Proof.
  intros HP Hh. induction (lt_wf k) as [k _ IH]. intros Hk. destruct (decide (k = 0)) as [->|Hne]; [by apply less_at_irr|].
  pose proof (Nat.div_mod_eq (k - 1) 2). pose proof (Nat.mod_upper_bound (k - 1) 2 ltac:(lia)).
  apply (less_at_trans _ _ ((k - 1) / 2)); [done|lia|apply IH; lia|]. apply Hh; unfold is_child; lia.
Qed.

Lemma heap_Init_heap l : Forall P l → is_heap (heap_Init less l).
Proof.
  intros HP. unfold is_heap. replace (length (heap_Init less l)) with (length l) by by rewrite heap_Init_perm. apply init_loop_ok; [done|done|]. intros i j Hi Hij Hj. unfold is_child in Hij.
  pose proof (Nat.div_mod_eq (length l) 2). pose proof (Nat.mod_upper_bound (length l) 2 ltac:(lia)). lia.
Qed.
Lemma less_at_app l x i j : i < length l → j < length l → less_at less (l ++ [x]) i j = less_at less l i j.
Proof. intros. unfold less_at. by rewrite !lookup_app_l. Qed.
Lemma heap_Push_heap x l : P x → Forall P l → is_heap l → is_heap (heap_Push less x l).
Proof.
  intros Hx HP Hl. unfold is_heap.
  replace (length (heap_Push less x l)) with (length (l ++ [x])) by (by rewrite heap_Push_perm, Permutation_app_comm).
  apply up_loop_ok; [apply Forall_app; auto|lia|rewrite length_app; cbn; lia|]. rewrite length_app. cbn [length]. unfold rising, is_child. split.
  - intros p c Hc Hpc Hcn. rewrite less_at_app by lia. apply Hl; unfold is_child; lia.
  - lia.
Qed.
Lemma down_loop_above fuel i n l k : Forall P l → n ≤ length l → n ≤ k → down_loop less fuel i n l !! k = l !! k.
Proof.
  revert i l. induction fuel as [|fuel IH]; intros i l HP Hn Hk; cbn [down_loop]; [done|].
  destruct (n <=? 2 * i + 1) eqn:E; [done|]. apply Nat.leb_gt in E. destruct (child_of_least l n i HP E) as (Hj & Hjn & _).
  destruct (negb _); [done|]. rewrite IH by (rewrite ?length_swap, ?swap_perm; done). unfold is_child in Hj.
  rewrite lookup_swap by lia. by rewrite !decide_False by lia.
Qed.
Lemma heap_Pop_heap l x l' :
  Forall P l → is_heap l → heap_Pop less l = Some (x, l') → is_heap l' ∧ ∀ y, y ∈ l' → less y x = false.
Proof.
  intros HP Hl. unfold heap_Pop. destruct (length l) as [|n] eqn:Hn; [done|]. cbv zeta.
  assert (length (swap 0 n l) = S n) as Hs by by rewrite length_swap.
  assert (Forall P (swap 0 n l)) as HPs by by rewrite swap_perm.
  destruct (down less 0 n (swap 0 n l) !! n) as [z|] eqn:Hz; [|done]. intros [= -> <-].
  unfold down in Hz. rewrite down_loop_above, lookup_swap in Hz by (done || lia).
  assert (l !! 0 = Some x) as H0 by (destruct (decide (n = 0)) as [->|]; [by repeat case_decide|by rewrite decide_True in Hz by done]).
  assert (length (take n (down less 0 n (swap 0 n l))) = n) as Ht.
  { rewrite length_take. unfold down. rewrite down_loop_perm, Hs. lia. }
  split.
  - unfold is_heap. rewrite Ht. intros i j _ Hij Hj. unfold less_at. rewrite !lookup_take_lt by (unfold is_child in Hij; lia).
    apply (down_loop_ok (S n) 0 0 n (swap 0 n l)); [done|lia|lia|lia| |lia|done|done]. unfold sinking, is_child in *. split.
    + intros p c _ Hp Hpc Hc. rewrite less_at_swap by lia. unfold exchanged. rewrite !decide_False by lia. apply Hl; unfold is_child; lia.
    + lia.
  - intros y Hy. assert (y ∈ l) as Hyl.
    { rewrite <- (swap_perm 0 n l), <- (down_loop_perm less (S n) 0 n). by eapply elem_of_take in Hy as (i & Hy & _); apply list_elem_of_lookup_2 in Hy. }
    apply list_elem_of_lookup in Hyl as [k Hk]. pose proof (heap_root l k HP Hl (lookup_lt_Some _ _ _ Hk)) as Hr.
    unfold less_at in Hr. by rewrite Hk, H0 in Hr.
Qed.
End Order.
Arguments WeakOrder {A} P less.
