(* ===== verification/FSTypes.v ===== *)
(** * File share: data, state and external interfaces

    The structs of fileshare/bitshare_structs.go and
    fileshare/rpc_server_structs.go, the package variables of
    fileshare/main.go that hold the node's state, the events by which a node
    acts on the outside world, and the interfaces to the third-party packages
    the service calls (go-libp2p and its DHT, jsoniter, uuid) and to the
    operating system. *)

From stdpp Require Import base gmap strings list fin_maps.
From Stdlib Require Import ZArith Ascii.
From Stdlib Require Import SpecFloat.
From S2P Require Import Prelude GoStrings GoFloat.

(** A point in time, in nanoseconds since the zero [time.Time]. *)
Abbreviation Time := Z (only parsing).
Abbreviation bytes := (list ascii).

(** ** Structs *)

Module FileDataHeader.
Record t := mk {
  FileName : string; FileSize : Z; FileHash : string; FileExtension : string;
  Multiaddress : string; PeerID : string; Price : f32; MiningAddress : string;
  RequestID : string; Provided : bool }.
Definition zero : t :=
  mk EmptyString 0 EmptyString EmptyString EmptyString EmptyString
     (S754_zero false) EmptyString EmptyString false.
Definition set_RequestID (r : string) (h : t) : t :=
  mk (FileName h) (FileSize h) (FileHash h) (FileExtension h) (Multiaddress h)
     (PeerID h) (Price h) (MiningAddress h) r (Provided h).
Definition set_Provided (b : bool) (h : t) : t :=
  mk (FileName h) (FileSize h) (FileHash h) (FileExtension h) (Multiaddress h)
     (PeerID h) (Price h) (MiningAddress h) (RequestID h) b.
End FileDataHeader.

Module FileTransaction.
Record t := mk {
  RequestID : string; FileHash : string; FileMetaData : FileDataHeader.t;
  DownloadProgress : f32; DownloadSpeed : f32; DownloadStart : Time;
  RemainingTime : string; BytesDownloaded : Z }.
Definition zero : t :=
  mk EmptyString EmptyString FileDataHeader.zero (S754_zero false)
     (S754_zero false) 0 EmptyString 0.
Definition set_progress (bytes : Z) (speed progress : f32) (x : t) : t :=
  mk (RequestID x) (FileHash x) (FileMetaData x) progress speed
     (DownloadStart x) (RemainingTime x) bytes.
Definition set_RemainingTime (s : string) (x : t) : t :=
  mk (RequestID x) (FileHash x) (FileMetaData x) (DownloadProgress x)
     (DownloadSpeed x) (DownloadStart x) s (BytesDownloaded x).
Definition set_DownloadSpeed (v : f32) (x : t) : t :=
  mk (RequestID x) (FileHash x) (FileMetaData x) (DownloadProgress x) v
     (DownloadStart x) (RemainingTime x) (BytesDownloaded x).
End FileTransaction.

Module FileRequest.
Record t := mk {
  RequestID : string; FileHash : string; RequesterID : string;
  RequesterMultiAddress : string; TimeSent : Time; Complete : bool }.
Definition set_Complete (b : bool) (x : t) : t :=
  mk (RequestID x) (FileHash x) (RequesterID x) (RequesterMultiAddress x)
     (TimeSent x) b.
End FileRequest.

Module MetaDataRequest.
Record t := mk {
  FileHash : string; RequesterID : string; RequesterMultiAddress : string;
  TimeSent : Time }.
End MetaDataRequest.

Module PauseDownloadRequest.
Record t := mk { RequestID : string; Status : bool; TimeSent : Time }.
End PauseDownloadRequest.

Module ErrorMsg.
Record t := mk { ErrorMessage : string; RequestID : string }.
End ErrorMsg.

(** ** JSON

    jsoniter turns a struct into an object whose members carry the field
    names, and fills a struct from the members of an object whose keys match
    its field names, leaving the others at their zero values.  A number is
    kept as its literal. *)

Inductive json :=
| JNull
| JStr (s : string)
| JBool (b : bool)
| JNum (literal : string)
| JArr (items : list json)
| JObj (members : list (string * json)).

(** The text of JSON values and of instants, as the third-party encoder and
    decoder produce and read them.  An instant is a string of RFC 3339 with
    nanoseconds, for the years 1 to 9999.  A string that is not valid UTF-8
    is not kept, so the round trip is documented for documents of valid
    strings; documents with numbers are written, never read back. *)

Fixpoint json_valid (j : json) : bool :=
  match j with
  | JNull | JBool _ => true
  | JStr s => ValidString s
  | JNum _ => false
  | JArr l => forallb json_valid l
  | JObj l => forallb (λ kv, ValidString kv.1 && json_valid kv.2) l
  end.

(** [t.Sub(u)] saturates at the bounds of a 64-bit duration. *)
Definition Time_Sub (t u : Time) : Z := Z.max (- 2 ^ 63) (Z.min (2 ^ 63 - 1) (t - u)).

Definition year_10000 : Time := 315537897600 * Second.
Definition time_ok (t : Time) : bool := (0 <=? t)%Z && (t <? year_10000)%Z.

Class JsonCodec := {
  json_text : json → bytes;
  json_parse : bytes → option json;
  json_float : f32 → string;                   (* the literal of a number *)
  json_float64 : f64 → string;
  time_text : Time → string;
  time_parse : string → option Time;
  json_parse_text : ∀ j, json_valid j = true → json_parse (json_text j) = Some j;
  time_parse_text : ∀ t, time_ok t = true → time_parse (time_text t) = Some t;
  time_text_valid : ∀ t, time_ok t = true → ValidString (time_text t) = true
}.

(** Reading a field: a member matches when its key is the field name up to
    letter case; [null] leaves the field as it is, a value of another kind
    makes [Unmarshal] fail, and of several matching members the last one
    counts. *)
Definition EqualFold (a b : string) : bool :=
  bool_decide (map lower (bytes_of a) = map lower (bytes_of b)).
Definition field {A} (kind : json → option A) (zero : A) (k : string)
    (l : list (string * json)) : option A :=
  fold_left (λ acc kv, x ← acc;
      if EqualFold kv.1 k
      then match kv.2 with JNull => Some x | v => kind v end
      else Some x)
    l (Some zero).

Definition kind_str (j : json) : option string :=
  match j with JStr s => Some s | _ => None end.
Definition kind_bool (j : json) : option bool :=
  match j with JBool b => Some b | _ => None end.
Definition kind_time `{JsonCodec} (j : json) : option Time :=
  match j with JStr s => time_parse s | _ => None end.

Abbreviation field_str := (field kind_str EmptyString).
Abbreviation field_bool := (field kind_bool false).
Abbreviation field_time := (field kind_time 0%Z).

(** The members [Unmarshal] reads: those of an object, none for [null]. *)
Definition members (j : json) : option (list (string * json)) :=
  match j with JObj l => Some l | JNull => Some [] | _ => None end.

(** A member of a decoded [map[string]interface{}]: of several members with
    one key the last one counts. *)
Fixpoint assoc (k : string) (l : list (string * json)) : option json :=
  match l with
  | [] => None
  | (k', v) :: l' =>
      match assoc k l' with
      | Some v' => Some v'
      | None => if decide (k = k') then Some v else None
      end
  end.

(** The peer ids of a relay's message, in both services: entries that are not
    objects, or whose id is not a string, are skipped. *)
Definition known_peers (message : option json) : list string :=
  match message with
  | Some (JObj members) =>
      match assoc "known_peers" members with
      | Some (JArr peers) =>
          omap (λ p, match p with
                     | JObj m => match assoc "peer_id" m with
                                 | Some (JStr id) => Some id
                                 | _ => None
                                 end
                     | _ => None
                     end) peers
      | _ => []
      end
  | _ => []
  end.

Section Messages.
Context `{JsonCodec}.

Definition json_of_FileRequest (r : FileRequest.t) : json :=
  JObj [("RequestID", JStr (FileRequest.RequestID r));
        ("FileHash", JStr (FileRequest.FileHash r));
        ("RequesterID", JStr (FileRequest.RequesterID r));
        ("RequesterMultiAddress", JStr (FileRequest.RequesterMultiAddress r));
        ("TimeSent", JStr (time_text (FileRequest.TimeSent r)));
        ("Complete", JBool (FileRequest.Complete r))]%string.

Definition FileRequest_of_json (j : json) : option FileRequest.t :=
  l ← members j;
  id ← field_str "RequestID" l; h ← field_str "FileHash" l;
  rid ← field_str "RequesterID" l; ma ← field_str "RequesterMultiAddress" l;
  ts ← field_time "TimeSent" l; c ← field_bool "Complete" l;
  Some (FileRequest.mk id h rid ma ts c).

Definition json_of_MetaDataRequest (r : MetaDataRequest.t) : json :=
  JObj [("FileHash", JStr (MetaDataRequest.FileHash r));
        ("RequesterID", JStr (MetaDataRequest.RequesterID r));
        ("RequesterMultiAddress", JStr (MetaDataRequest.RequesterMultiAddress r));
        ("TimeSent", JStr (time_text (MetaDataRequest.TimeSent r)))]%string.

Definition json_of_PauseDownloadRequest (r : PauseDownloadRequest.t) : json :=
  JObj [("RequestID", JStr (PauseDownloadRequest.RequestID r));
        ("Status", JBool (PauseDownloadRequest.Status r));
        ("TimeSent", JStr (time_text (PauseDownloadRequest.TimeSent r)))]%string.

Definition PauseDownloadRequest_of_json (j : json) : option PauseDownloadRequest.t :=
  l ← members j;
  id ← field_str "RequestID" l; s ← field_bool "Status" l;
  ts ← field_time "TimeSent" l;
  Some (PauseDownloadRequest.mk id s ts).

Definition json_of_Error (e : ErrorMsg.t) : json :=
  JObj [("ErrorMessage", JStr (ErrorMsg.ErrorMessage e));
        ("RequestID", JStr (ErrorMsg.RequestID e))]%string.

Definition Error_of_json (j : json) : option ErrorMsg.t :=
  l ← members j;
  m ← field_str "ErrorMessage" l; id ← field_str "RequestID" l;
  Some (ErrorMsg.mk m id).

Definition json_of_FileDataHeader (h : FileDataHeader.t) : json :=
  JObj [("FileName", JStr (FileDataHeader.FileName h));
        ("FileSize", JNum (fmt_d (FileDataHeader.FileSize h)));
        ("FileHash", JStr (FileDataHeader.FileHash h));
        ("FileExtension", JStr (FileDataHeader.FileExtension h));
        ("Multiaddress", JStr (FileDataHeader.Multiaddress h));
        ("PeerID", JStr (FileDataHeader.PeerID h));
        ("Price", JNum (json_float (FileDataHeader.Price h)));
        ("MiningAddress", JStr (FileDataHeader.MiningAddress h));
        ("RequestID", JStr (FileDataHeader.RequestID h));
        ("Provided", JBool (FileDataHeader.Provided h))]%string.

End Messages.

(** encoding/gob: a self-delimiting binary encoding of one value.  [gob_decode]
    reads one value from the front of a stream and returns what follows it;
    a proper prefix of an encoding is not enough to decode.  A field that
    equals zero is not sent, so that a negative zero comes back positive. *)
Definition int64_ok (z : Z) : bool := (- 2 ^ 63 <=? z)%Z && (z <? 2 ^ 63)%Z.
Definition f32_ok (x : f32) : bool :=
  match x with
  | S754_finite _ m e => bounded 24 128 m e
  | _ => true
  end.
Definition gob_ok (h : FileDataHeader.t) : bool :=
  int64_ok (FileDataHeader.FileSize h) && f32_ok (FileDataHeader.Price h)
  && match FileDataHeader.Price h with S754_zero s => negb s | _ => true end.

Class GobCodec := {
  gob_encode : FileDataHeader.t → bytes;
  gob_decode : bytes → option (FileDataHeader.t * bytes);
  gob_decode_encode : ∀ h rest, gob_ok h = true →
    gob_decode (gob_encode h ++ rest) = Some (h, rest);
  gob_decode_short : ∀ h n, (n < length (gob_encode h))%nat →
                            gob_decode (take n (gob_encode h)) = None
}.

(** ** State: the package variables of main.go *)

Record State := mkState {
  SBU_ID : string;
  DOWNLOAD_DIRECTORY : string;
  fileHashToPath : gmap string string;
  isFileHashProvided : gmap string bool;
  downloadStatus : gmap string bool;
  lastDownloadStatus : Time;
  metadataResponse : gmap string FileDataHeader.t;
  downloadHistory : gmap string FileTransaction.t;
  fileRequests : list FileRequest.t;
  providedFiles : list FileDataHeader.t
}.

Definition set_fileHashToPath (f : gmap string string → gmap string string) (s : State) :=
  mkState (SBU_ID s) (DOWNLOAD_DIRECTORY s) (f (fileHashToPath s)) (isFileHashProvided s)
    (downloadStatus s) (lastDownloadStatus s) (metadataResponse s) (downloadHistory s)
    (fileRequests s) (providedFiles s).
Definition set_isFileHashProvided (f : gmap string bool → gmap string bool) (s : State) :=
  mkState (SBU_ID s) (DOWNLOAD_DIRECTORY s) (fileHashToPath s) (f (isFileHashProvided s))
    (downloadStatus s) (lastDownloadStatus s) (metadataResponse s) (downloadHistory s)
    (fileRequests s) (providedFiles s).
Definition set_downloadStatus (f : gmap string bool → gmap string bool) (s : State) :=
  mkState (SBU_ID s) (DOWNLOAD_DIRECTORY s) (fileHashToPath s) (isFileHashProvided s)
    (f (downloadStatus s)) (lastDownloadStatus s) (metadataResponse s) (downloadHistory s)
    (fileRequests s) (providedFiles s).
Definition set_metadataResponse
    (f : gmap string FileDataHeader.t → gmap string FileDataHeader.t) (s : State) :=
  mkState (SBU_ID s) (DOWNLOAD_DIRECTORY s) (fileHashToPath s) (isFileHashProvided s)
    (downloadStatus s) (lastDownloadStatus s) (f (metadataResponse s)) (downloadHistory s)
    (fileRequests s) (providedFiles s).
Definition set_downloadHistory
    (f : gmap string FileTransaction.t → gmap string FileTransaction.t) (s : State) :=
  mkState (SBU_ID s) (DOWNLOAD_DIRECTORY s) (fileHashToPath s) (isFileHashProvided s)
    (downloadStatus s) (lastDownloadStatus s) (metadataResponse s) (f (downloadHistory s))
    (fileRequests s) (providedFiles s).
Definition set_fileRequests (f : list FileRequest.t → list FileRequest.t) (s : State) :=
  mkState (SBU_ID s) (DOWNLOAD_DIRECTORY s) (fileHashToPath s) (isFileHashProvided s)
    (downloadStatus s) (lastDownloadStatus s) (metadataResponse s) (downloadHistory s)
    (f (fileRequests s)) (providedFiles s).
Definition set_providedFiles (f : list FileDataHeader.t → list FileDataHeader.t) (s : State) :=
  mkState (SBU_ID s) (DOWNLOAD_DIRECTORY s) (fileHashToPath s) (isFileHashProvided s)
    (downloadStatus s) (lastDownloadStatus s) (metadataResponse s) (downloadHistory s)
    (fileRequests s) (f (providedFiles s)).

(** A Go map read gives the zero value for a missing key. *)
Definition map_bool (m : gmap string bool) (k : string) : bool := default false (m !! k).

(** ** Events *)

Inductive Event :=
| EvConnect (peer : string)                    (* connected to a peer *)
| EvPeerstore (peer : string)                  (* Peerstore().AddAddrs *)
| EvStream (protocol peer : string) (data : bytes)  (* bytes written on a stream *)
| EvFileCreate (path : string)                 (* os.Create *)
| EvFileWrite (path : string) (data : bytes)
| EvPay (address amount : string)              (* POST to /sendToAddress *)
| EvDHTPut (key : string) (value : string)
| EvProvide (key : string)
| EvSave (file : string) (data : bytes).       (* the state file was written *)

(** The world of a node: its variables, what it has done, and the number of
    external calls so far, which indexes the outcomes of those calls. *)
Record World := mkWorld { app : State; log : list Event; clock : nat }.

Definition emit (e : Event) : GoM World () :=
  go_modify (λ w, mkWorld (app w) (log w ++ [e]) (clock w)).
Definition update (f : State → State) : GoM World () :=
  go_modify (λ w, mkWorld (f (app w)) (log w) (clock w)).
Definition read {A} (f : State → A) : GoM World A := λ w, Done (f (app w)) w.
Definition tick : GoM World nat :=
  λ w, Done (clock w) (mkWorld (app w) (log w) (S (clock w))).

(** ** go-libp2p, go-multiaddr

    [StringCast] panics on text that is not a multiaddress.  The outcomes of
    [Connect], [NewStream] and [Write] are the network's. *)

Class Libp2p := {
  Multiaddr : Type;
  AddrInfo : Type;
  NewMultiaddr : string → Multiaddr + string;
  StringCast : string → option Multiaddr;
  Encapsulate : Multiaddr → Multiaddr → Multiaddr;
  AddrInfoFromP2pAddr : Multiaddr → AddrInfo + string;
  AddrInfo_ID : AddrInfo → string;             (* ID.String() *)
  AddrInfo_raw : AddrInfo → string;            (* string(ID): its bytes *)
  node_ID : string;
  node_Addrs : list string;                    (* node.Addrs() *)
  Connect : nat → AddrInfo → error;            (* outcome of a call *)
  NewStream : nat → string → string → error;   (* peer, protocol *)
  StreamWrite : nat → string → bytes → error;  (* protocol, data *)
  StreamClose : nat → string → error;
  Reserve : nat → AddrInfo → error;            (* client.Reserve *)
  (* the constructors of createNode: GenerateEd25519Key, libp2p.New,
     relay.New, dht.New, Bootstrap *)
  GenerateKey : nat → string → error;
  NewHost : nat → error;
  NewRelay : nat → error;
  NewDHT : nat → error;
  Bootstrap : nat → error
}.

(** [node.Addrs()[0].String()]: a panic when the host has no address. *)
Definition Addrs0 `{Libp2p} : GoM World string :=
  match node_Addrs with [] => go_panic | a :: _ => mret a end.

(** The operating system and the clock as the node sees them. *)
Class Env := {
  Now : nat → Time;
  Now_ok : ∀ n, time_ok (Now n) = true;
  UUID : nat → string;
  OpenFile : nat → string → bytes + string;    (* the content of a file *)
  CreateFile : nat → string → error;
  WriteFile : nat → string → bytes → error     (* a write to a created file *)
}.

(** The HTTP server on the host (the wallet service), reached with
    [http.Client.Do]: a transport error, or the status code, the status line
    and the body, or the error of reading it. *)
Record HttpResponse := mkHttp { http_status : Z; http_Status : string; http_body : bytes + string }.
Class HttpHost := {
  HttpDo : nat → string → bytes → HttpResponse + string    (* url, payload *)
}.

(** The Kademlia DHT of go-libp2p, the multihash encoder, and SHA-256. *)
Class DHT := {
  dht_GetValue : nat → string → string + string;
  dht_PutValue : nat → string → string → error;
  dht_Provide : nat → string → error;
  dht_RoutingTable_Size : nat;
  multihash_EncodeName : bytes → string + string;
  Sum256 : bytes → bytes
}.

(** jsoniter's encoding of the whole application state (it fails on a float
    that is not a number, for instance).  What is decoded is what was encoded
    when the strings are valid UTF-8, the times in range, and the numbers of
    their Go types. *)
Definition header_text (h : FileDataHeader.t) : bool :=
  forallb ValidString
    [FileDataHeader.FileName h; FileDataHeader.FileHash h; FileDataHeader.FileExtension h;
     FileDataHeader.Multiaddress h; FileDataHeader.PeerID h; FileDataHeader.MiningAddress h;
     FileDataHeader.RequestID h]
  && int64_ok (FileDataHeader.FileSize h) && f32_ok (FileDataHeader.Price h).
Definition transaction_text (x : FileTransaction.t) : bool :=
  forallb ValidString [FileTransaction.RequestID x; FileTransaction.FileHash x;
                       FileTransaction.RemainingTime x]
  && header_text (FileTransaction.FileMetaData x)
  && f32_ok (FileTransaction.DownloadProgress x) && f32_ok (FileTransaction.DownloadSpeed x)
  && time_ok (FileTransaction.DownloadStart x) && int64_ok (FileTransaction.BytesDownloaded x).
Definition request_text (r : FileRequest.t) : bool :=
  forallb ValidString [FileRequest.RequestID r; FileRequest.FileHash r;
                       FileRequest.RequesterID r; FileRequest.RequesterMultiAddress r]
  && time_ok (FileRequest.TimeSent r).
Definition map_text {A} (ok : A → bool) (m : gmap string A) : bool :=
  forallb (λ kv, ValidString kv.1 && ok kv.2) (map_to_list m).
Definition state_text (s : State) : bool :=
  ValidString (SBU_ID s) && ValidString (DOWNLOAD_DIRECTORY s)
  && map_text ValidString (fileHashToPath s)
  && map_text (λ _, true) (isFileHashProvided s) && map_text (λ _, true) (downloadStatus s)
  && time_ok (lastDownloadStatus s)
  && map_text header_text (metadataResponse s)
  && map_text transaction_text (downloadHistory s)
  && forallb request_text (fileRequests s) && forallb header_text (providedFiles s).

Class StateCodec := {
  encode_state : State → bytes + string;
  decode_state : bytes → State + string;
  decode_encode_state : ∀ s d, state_text s = true →
    encode_state s = inl d → decode_state d = inl s
}.

(** Go iterates over a map in an unspecified order. *)
Class MapRange := {
  map_range : ∀ {A}, gmap string A → list (string * A);
  map_range_perm : ∀ A (m : gmap string A), map_range m ≡ₚ map_to_list m
}.
