(* ===== verification/Instances.v ===== *)
(** * Concrete instances of the interfaces

    One implementation of each interface to code outside the repository:
    codecs that satisfy their laws, a network and an operating system on which
    every call succeeds, a DHT and a name service backed by finite maps, and
    hash and signature functions that compute.  The theorems are stated for
    every implementation; these show that the laws can hold, and the witnesses
    evaluate the model on them. *)

From stdpp Require Import base gmap strings list fin_maps countable.
From Stdlib Require Import ZArith Lia Ascii SpecFloat.
From S2P Require Import Prelude GoStrings GoFloat FSTypes.

Open Scope string_scope.
Open Scope list_scope.
Open Scope nat_scope.

(** ** A self-delimiting text of positive numbers *)

Fixpoint put_pos (p : positive) : bytes :=
  match p with
  | xH => ["H"%char]
  | xO q => "O"%char :: put_pos q
  | xI q => "I"%char :: put_pos q
  end.

Fixpoint get_pos (d : bytes) : option (positive * bytes) :=
  match d with
  | [] => None
  | c :: rest =>
      if decide (c = "H"%char) then Some (xH, rest)
      else if decide (c = "O"%char) then '(q, r) ← get_pos rest; Some (xO q, r)
      else '(q, r) ← get_pos rest; Some (xI q, r)
  end.

Lemma get_put_pos p rest : get_pos (put_pos p ++ rest) = Some (p, rest).
Proof. induction p as [p IH|p IH|]; simpl; by rewrite ?IH. Qed.

Lemma get_pos_short p n : n < length (put_pos p) → get_pos (take n (put_pos p)) = None.
Proof.
  revert n. induction p as [p IH|p IH|]; intros [|n] Hn; simpl in *; try done; try lia;
    rewrite IH by lia; done.
Qed.

Lemma put_pos_nonempty p : put_pos p ≠ [].
Proof. by destruct p. Qed.

(** A codec for every countable type. *)
Definition put {A} `{Countable A} (x : A) : bytes := put_pos (encode x).
Definition get {A} `{Countable A} (d : bytes) : option (A * bytes) :=
  '(p, rest) ← get_pos d; x ← decode p; Some (x, rest).

Lemma get_put {A} `{Countable A} (x : A) rest : get (put x ++ rest) = Some (x, rest).
Proof. unfold get, put. rewrite get_put_pos. simpl. by rewrite decode_encode. Qed.
Lemma get_short {A} `{Countable A} (x : A) n : n < length (put x) → get (A := A) (take n (put x)) = None.
Proof. intros Hn. unfold get, put in *. by rewrite get_pos_short. Qed.

(** ** Countable data *)

#[export] Instance spec_float_eq_dec : EqDecision spec_float.
Proof. solve_decision. Defined.
#[export] Instance spec_float_countable : Countable spec_float.
Proof.
  refine (inj_countable'
    (λ x, match x with
          | S754_zero s => (0, s, xH, 0%Z) | S754_infinity s => (1, s, xH, 0%Z)
          | S754_nan => (2, false, xH, 0%Z) | S754_finite s m e => (3, s, m, e) end)
    (λ p, match p with
          | (0, s, _, _) => S754_zero s | (1, s, _, _) => S754_infinity s
          | (2, _, _, _) => S754_nan | (_, s, m, e) => S754_finite s m e end) _).
  by intros [].
Defined.

(** ** JSON as a tree *)

Section JsonInd.
Context (P : json → Prop).
Hypothesis Hnull : P JNull.
Hypothesis Hstr : ∀ s, P (JStr s).
Hypothesis Hbool : ∀ b, P (JBool b).
Hypothesis Hnum : ∀ z, P (JNum z).
Hypothesis Harr : ∀ l, Forall P l → P (JArr l).
Hypothesis Hobj : ∀ l, Forall (λ p, P (snd p)) l → P (JObj l).

Fixpoint json_ind' (j : json) : P j :=
  match j with
  | JNull => Hnull | JStr s => Hstr s | JBool b => Hbool b | JNum z => Hnum z
  | JArr l => Harr l ((fix go l := match l return Forall P l with
                                   | [] => Forall_nil_2 _
                                   | x :: r => Forall_cons_2 _ _ _ (json_ind' x) (go r) end) l)
  | JObj l => Hobj l ((fix go l := match l return Forall (λ p, P (snd p)) l with
                                   | [] => Forall_nil_2 _
                                   | x :: r => Forall_cons_2 _ _ _ (json_ind' (snd x)) (go r) end) l)
  end.
End JsonInd.

Definition json_leaf : Type := (() + string) + (bool + string).

Fixpoint tree_of_json (j : json) : gen_tree json_leaf :=
  match j with
  | JNull => GenLeaf (inl (inl ()))
  | JStr s => GenLeaf (inl (inr s))
  | JBool b => GenLeaf (inr (inl b))
  | JNum z => GenLeaf (inr (inr z))
  | JArr l => GenNode 0 (map tree_of_json l)
  | JObj l => GenNode 1 (map (λ p, GenNode 2 [GenLeaf (inl (inr (fst p))); tree_of_json (snd p)]) l)
  end.

Fixpoint json_of_tree (t : gen_tree json_leaf) : json :=
  match t with
  | GenLeaf (inl (inl _)) => JNull
  | GenLeaf (inl (inr s)) => JStr s
  | GenLeaf (inr (inl b)) => JBool b
  | GenLeaf (inr (inr z)) => JNum z
  | GenNode 1 ts =>
      JObj (map (λ t, match t with
                      | GenNode _ [GenLeaf (inl (inr k)); v] => (k, json_of_tree v)
                      | _ => (EmptyString, JNull)
                      end) ts)
  | GenNode _ ts => JArr (map json_of_tree ts)
  end.

Lemma json_of_tree_of_json j : json_of_tree (tree_of_json j) = j.
Proof.
  induction j as [| | | |l IH|l IH] using json_ind'; try done; simpl; f_equal; rewrite map_map;
    induction IH as [|x l Hx _ IHl]; try done; simpl.
  - by rewrite Hx, IHl.
  - destruct x as [k v]. simpl in *. by rewrite Hx, IHl.
Qed.

#[export] Instance json_eq_dec : EqDecision json.
Proof.
  refine (λ x y, cast_if (decide (tree_of_json x = tree_of_json y))).
  - abstract (by rewrite <- (json_of_tree_of_json x), <- (json_of_tree_of_json y); f_equal).
  - abstract (by intros ->).
Defined.
#[export] Instance json_countable : Countable json :=
  inj_countable' tree_of_json json_of_tree json_of_tree_of_json.

(** ** The node's data as trees *)

Definition leaf : Type := string + Z + bool + spec_float.
Abbreviation tree := (gen_tree leaf).
Abbreviation TStr s := (GenLeaf (inl (inl (inl s)))).
Abbreviation TInt z := (GenLeaf (inl (inl (inr z)))).
Abbreviation TBool b := (GenLeaf (inl (inr b))).
Abbreviation TFloat x := (GenLeaf (inr x)).
Abbreviation TNode l := (GenNode 0 l).

Definition header_tree (h : FileDataHeader.t) : tree :=
  TNode [TStr (FileDataHeader.FileName h); TInt (FileDataHeader.FileSize h);
         TStr (FileDataHeader.FileHash h); TStr (FileDataHeader.FileExtension h);
         TStr (FileDataHeader.Multiaddress h); TStr (FileDataHeader.PeerID h);
         TFloat (FileDataHeader.Price h); TStr (FileDataHeader.MiningAddress h);
         TStr (FileDataHeader.RequestID h); TBool (FileDataHeader.Provided h)].
Definition tree_header (t : tree) : option FileDataHeader.t :=
  match t with
  | TNode [TStr a; TInt b; TStr c; TStr d; TStr e; TStr f; TFloat g; TStr h; TStr i; TBool k] =>
      Some (FileDataHeader.mk a b c d e f g h i k)
  | _ => None
  end.
Lemma tree_header_tree h : tree_header (header_tree h) = Some h.
Proof. by destruct h. Qed.

Definition transaction_tree (x : FileTransaction.t) : tree :=
  TNode [TStr (FileTransaction.RequestID x); TStr (FileTransaction.FileHash x);
         header_tree (FileTransaction.FileMetaData x); TFloat (FileTransaction.DownloadProgress x);
         TFloat (FileTransaction.DownloadSpeed x); TInt (FileTransaction.DownloadStart x);
         TStr (FileTransaction.RemainingTime x); TInt (FileTransaction.BytesDownloaded x)].
Definition tree_transaction (t : tree) : option FileTransaction.t :=
  match t with
  | TNode [TStr a; TStr b; m; TFloat c; TFloat d; TInt e; TStr f; TInt g] =>
      h ← tree_header m; Some (FileTransaction.mk a b h c d e f g)
  | _ => None
  end.
Lemma tree_transaction_tree x : tree_transaction (transaction_tree x) = Some x.
Proof. destruct x. cbn -[tree_header header_tree]. by rewrite tree_header_tree. Qed.

Definition request_tree (x : FileRequest.t) : tree :=
  TNode [TStr (FileRequest.RequestID x); TStr (FileRequest.FileHash x);
         TStr (FileRequest.RequesterID x); TStr (FileRequest.RequesterMultiAddress x);
         TInt (FileRequest.TimeSent x); TBool (FileRequest.Complete x)].
Definition tree_request (t : tree) : option FileRequest.t :=
  match t with
  | TNode [TStr a; TStr b; TStr c; TStr d; TInt e; TBool f] => Some (FileRequest.mk a b c d e f)
  | _ => None
  end.

Section Containers.
Context {A : Type} (f : A → tree) (g : tree → option A).
Hypothesis gf : ∀ x, g (f x) = Some x.

Definition list_tree (l : list A) : tree := TNode (map f l).
Definition tree_list (t : tree) : option (list A) :=
  match t with TNode l => mapM g l | _ => None end.
Lemma tree_list_tree l : tree_list (list_tree l) = Some l.
Proof. simpl. induction l as [|x l IH]; [done|]. simpl. rewrite gf. simpl. by rewrite IH. Qed.

Definition entry_tree (p : string * A) : tree := TNode [TStr (fst p); f (snd p)].
Definition tree_entry (t : tree) : option (string * A) :=
  match t with TNode [TStr k; v] => x ← g v; Some (k, x) | _ => None end.
Definition map_tree (m : gmap string A) : tree := TNode (map entry_tree (map_to_list m)).
Definition tree_map (t : tree) : option (gmap string A) :=
  match t with TNode l => list_to_map <$> mapM tree_entry l | _ => None end.
Lemma tree_map_tree m : tree_map (map_tree m) = Some m.
Proof.
  simpl. assert (∀ l, mapM tree_entry (map entry_tree l) = Some l) as ->.
  { induction l as [|[k x] l IH]; [done|]. simpl. rewrite gf. simpl. by rewrite IH. }
  simpl. by rewrite list_to_map_to_list.
Qed.
End Containers.

Definition tree_str (t : tree) : option string := match t with TStr s => Some s | _ => None end.
Definition tree_bool (t : tree) : option bool := match t with TBool b => Some b | _ => None end.
Definition str_tree (s : string) : tree := TStr s.
Definition bool_tree (b : bool) : tree := TBool b.

Definition state_tree (s : State) : tree :=
  TNode [TStr (SBU_ID s); TStr (DOWNLOAD_DIRECTORY s); map_tree str_tree (fileHashToPath s);
         map_tree bool_tree (isFileHashProvided s); map_tree bool_tree (downloadStatus s);
         TInt (lastDownloadStatus s); map_tree header_tree (metadataResponse s);
         map_tree transaction_tree (downloadHistory s); list_tree request_tree (fileRequests s);
         list_tree header_tree (providedFiles s)].
Definition tree_state (t : tree) : option State :=
  match t with
  | TNode [TStr a; TStr b; c; d; e; TInt f; g; h; i; k] =>
      c' ← tree_map tree_str c; d' ← tree_map tree_bool d; e' ← tree_map tree_bool e;
      g' ← tree_map tree_header g; h' ← tree_map tree_transaction h;
      i' ← tree_list tree_request i; k' ← tree_list tree_header k;
      Some (mkState a b c' d' e' f g' h' i' k')
  | _ => None
  end.
Lemma tree_state_tree s : tree_state (state_tree s) = Some s.
Proof.
  destruct s. unfold tree_state, state_tree. cbn -[tree_map tree_list map_tree list_tree].
  rewrite !tree_map_tree, !tree_list_tree; try done; eauto using tree_header_tree, tree_transaction_tree.
  by intros [].
Qed.

(** ** Codecs *)

Lemma put_pos_valid p : utf8_valid (put_pos p) = true.
Proof. induction p as [p IH|p IH|]; simpl; done. Qed.

#[export] Instance ex_JsonCodec : JsonCodec.
Proof.
  refine {| json_text := λ j, put j; json_parse := λ d, fst <$> get d;
            json_float := λ x, of_bytes (put x);
            json_float64 := λ x, of_bytes (put x);
            time_text := λ t, of_bytes (put t);
            time_parse := λ s, fst <$> get (bytes_of s) |}.
  - intros j _. rewrite <- (app_nil_r (put j)), get_put. done.
  - intros t _. rewrite bytes_of_of, <- (app_nil_r (put t)), get_put. done.
  - intros t _. unfold ValidString. rewrite bytes_of_of. apply put_pos_valid.
Defined.

#[export] Instance ex_GobCodec : GobCodec.
Proof.
  refine {| gob_encode := λ h, put (header_tree h);
            gob_decode := λ d, '(t, rest) ← get d; h ← tree_header t; Some (h, rest) |}.
  - intros h rest _. rewrite get_put. cbv beta iota delta [mbind option_bind]. by rewrite tree_header_tree.
  - intros h n Hn. by rewrite get_short.
Defined.

#[export] Instance ex_StateCodec : StateCodec.
Proof.
  refine {| encode_state := λ s, inl (put (state_tree s));
            decode_state := λ d, match '(t, _) ← get d; tree_state t with
                                 | Some s => inl s | None => inr "bad state" end |}.
  intros s d _ [= <-]. rewrite <- (app_nil_r (put (state_tree s))), get_put.
  cbv beta iota delta [mbind option_bind]. by rewrite tree_state_tree.
Defined.

#[export] Instance ex_MapRange : MapRange.
Proof.
  refine {| map_range := λ A m, map_to_list m |}. done.
Defined.

(** ** A network, an operating system and a wallet on which calls succeed *)

#[export] Instance ex_Libp2p : Libp2p := {|
  Multiaddr := string;
  AddrInfo := string;
  NewMultiaddr := inl;
  StringCast := Some;
  Encapsulate := λ a b, a +:+ b;
  AddrInfoFromP2pAddr := inl;
  AddrInfo_ID := id;
  AddrInfo_raw := id;
  node_ID := "me";
  node_Addrs := ["/ip4/127.0.0.1"];
  Connect := λ _ _, None;
  NewStream := λ _ _ _, None;
  StreamWrite := λ _ _ _, None;
  StreamClose := λ _ _, None;
  Reserve := λ _ _, None;
  GenerateKey := λ _ _, None;
  NewHost := λ _, None;
  NewRelay := λ _, None;
  NewDHT := λ _, None;
  Bootstrap := λ _, None
|}.

(** A clock of the year 1, on which every file reads as [content]. *)
Definition Env_with (content : bytes) : Env.
Proof.
  refine {| Now := λ n, (Z.of_nat n mod year_10000)%Z;
            UUID := λ _, "request";
            OpenFile := λ _ _, inl content;
            CreateFile := λ _ _, None;
            WriteFile := λ _ _ _, None |}.
  intros n. unfold time_ok. pose proof (Z.mod_pos_bound (Z.of_nat n) year_10000 eq_refl).
  rewrite andb_true_iff, Z.leb_le, Z.ltb_lt. done.
Defined.
#[export] Instance ex_Env : Env := Env_with ["f"; "i"; "l"; "e"]%char.

(** The wallet answers with a balance of 100. *)
#[export] Instance ex_HttpHost : HttpHost := {|
  HttpDo := λ _ _ _, inl (mkHttp 200 "200 OK" (inl (json_text (JObj [("balance", JStr "100")]))))
|}.

(** Every key has the providers [a], [b] and [a] again. *)
#[export] Instance ex_DHT : DHT := {|
  dht_GetValue := λ _ _, inl "a,b,a";
  dht_PutValue := λ _ _ _, None;
  dht_Provide := λ _ _, None;
  dht_RoutingTable_Size := 1;
  multihash_EncodeName := λ d, inl (String.string_of_list_ascii d);
  Sum256 := λ d, d
|}.
