(* ===== verification/FSPeer.v ===== *)
(** * File share: peer-to-peer messages

    fileshare/bitshare.go (stream creation, the senders and the stream
    handlers other than the two transfer loops, which are in FSTransfer) and
    the connection helpers of fileshare/main.go and fileshare/utils.go. *)

From stdpp Require Import base gmap strings list fin_maps.
From Stdlib Require Import ZArith Ascii.
From S2P Require Import Prelude GoStrings GoFloat FSTypes.

Open Scope string_scope.
Open Scope list_scope.
Open Scope nat_scope.

Definition RELAY_NODE_MULTIADDR : string :=
  "/ip4/130.245.173.221/tcp/4001/p2p/12D3KooWDpJ7As7BWAwRMfu1VU2WCqNjvq387JEYKDBj4kx6nXTN".

Section Peer.
Context `{Libp2p} `{JsonCodec} `{GobCodec} `{Env}.

(** The multiaddress of a peer behind the relay: the parse error of the
    relay's own address, or the encapsulated address; [None] when
    [ma.StringCast] panics. *)
Definition relay_circuit (targetPeerID : string) : option (Multiaddr + string) :=
  match NewMultiaddr RELAY_NODE_MULTIADDR with
  | inr e => Some (inr e)
  | inl relayAddr =>
      circuit ← StringCast ("/p2p-circuit/p2p/" +:+ targetPeerID);
      Some (inl (Encapsulate relayAddr circuit))
  end.

Definition connectToNodeUsingRelay (target : string) : GoM World error :=
  let targetPeerID := TrimSpace target in
  match relay_circuit targetPeerID with
  | None => go_panic
  | Some (inr e) => mret (Some ("failed to create relay multiaddr: " +:+ e))
  | Some (inl peerMultiaddr) =>
      match AddrInfoFromP2pAddr peerMultiaddr with
      | inr e => mret (Some ("failed to get relayed AddrInfo: " +:+ e))
      | inl info =>
          n ← tick;
          match Connect n info with
          | Some e => mret (Some ("failed to connect to peer through relay: " +:+ e))
          | None => emit (EvConnect targetPeerID);; mret None
          end
      end
  end.

(** [createStream]: the peer the stream reaches, or an error. *)
Definition createStream (targetNodeId protocol : string) : GoM World (string + string) :=
  let targetPeerID := TrimSpace targetNodeId in
  match relay_circuit targetPeerID with
  | None => go_panic
  | Some (inr e) => mret (inr ("failed to create relay multiaddr: " +:+ e))
  | Some (inl peerMultiaddr) =>
      match AddrInfoFromP2pAddr peerMultiaddr with
      | inr e => mret (inr ("failed to parse peer address: " +:+ e))
      | inl peerinfo =>
          let id := AddrInfo_ID peerinfo in
          n ← tick;
          match Connect n peerinfo with
          | Some e => mret (inr ("failed to connect to peer " +:+ id +:+ " via relay: " +:+ e))
          | None =>
              m ← tick;
              match NewStream m id protocol with
              | Some e => mret (inr ("failed to open stream to " +:+ id +:+ ": " +:+ e))
              | None => mret (inl id)
              end
          end
      end
  end.

(** ** Senders *)

Definition sender_error (fn : string) (e : string) : error := Some (fn +:+ ": " +:+ e).

(** Open a stream, write one JSON document, close: the shape of every
    message sender. *)
Definition sendJSON (fn target protocol : string) (body : GoM World json)
  : GoM World error :=
  s ← createStream target protocol;
  match s with
  | inr e => mret (sender_error fn e)
  | inl peer =>
      j ← body;
      n ← tick;
      match StreamWrite n protocol (json_text j) with
      | Some e => mret (sender_error fn e)
      | None => emit (EvStream protocol peer (json_text j));; mret None
      end
  end.

Definition sendFileNotFoundToPeer (target requestID : string) : GoM World error :=
  sendJSON "sendFileNotFoundToPeer" target "/error/p2p"
    (mret (json_of_Error (ErrorMsg.mk "File not found" requestID))).

Definition sendFileNotCurrentlyProvidedToPeer (target requestID : string)
  : GoM World error :=
  sendJSON "sendFileNotCurrentlyProvided" target "/senddata/p2p"
    (mret (json_of_FileDataHeader
             (FileDataHeader.mk EmptyString 0 "FILE NOT CURRENTLY PROVIDED"
                EmptyString EmptyString EmptyString
                (FileDataHeader.Price FileDataHeader.zero)
                EmptyString requestID false))).

Definition sendInsufficientFundsToPeer (target : string) : GoM World error :=
  sendJSON "sendInsufficientFundsToPeer" target "/sendmessage/p2p"
    (mret (json_of_Error (ErrorMsg.mk "Insufficient funds" EmptyString))).

Definition sendNodeStoppedProvidingFileToPeer (target : string) : GoM World error :=
  s ← createStream target "/sendmessage/p2p";
  match s with
  | inr e => mret (sender_error "sendNodeStoppedProvidingFileToPeer" e)
  | inl peer =>
      let j := json_of_Error (ErrorMsg.mk "Node stopped providing file" EmptyString) in
      n ← tick;
      match StreamWrite n "/sendmessage/p2p" (json_text j) with
      | Some e => mret (sender_error "sendUserStoppedProvidingFileToPeer" e)
      | None => emit (EvStream "/sendmessage/p2p" peer (json_text j));; mret None
      end
  end.

Definition sendTransactionErrorToPeer (target : string) : GoM World error :=
  sendJSON "sendTransactionErrorToPeer" target "/sendmessage/p2p"
    (mret (json_of_Error (ErrorMsg.mk "Transaction error" EmptyString))).

Definition sendFileRequestToPeer (target fileHash requestID : string)
  : GoM World error :=
  sendJSON "sendFileRequestToPeer" target "/sendmessage/p2p"
    (addr ← Addrs0;
     n ← tick;
     mret (json_of_FileRequest
             (FileRequest.mk requestID fileHash node_ID addr (Now n) false))).

Definition sendFileMetaDataRequestToPeer (target fileHash : string) : GoM World error :=
  sendJSON "sendFileMetadataRequestToPeer" target "/sendmetadatarequest/p2p"
    (addr ← Addrs0;
     n ← tick;
     mret (json_of_MetaDataRequest
             (MetaDataRequest.mk fileHash node_ID addr (Now n)))).

Definition sendPauseRequestToPeer (target requestID : string) (status : bool)
  : GoM World error :=
  sendJSON "sendPauseRequestToPeer" target "/sendpause/p2p"
    (n ← tick;
     mret (json_of_PauseDownloadRequest
             (PauseDownloadRequest.mk requestID status (Now n)))).

(** The search loop of the two metadata senders: the loop has no [break],
    so the last entry with the hash is taken; the zero header if none. *)
Definition find_provided (fileHash : string) (l : list FileDataHeader.t)
  : FileDataHeader.t :=
  fold_left (λ acc h, if decide (FileDataHeader.FileHash h = fileHash) then h else acc)
            l FileDataHeader.zero.

Definition sendFileMetaDataToPeer (target filepath fileHash : string)
  : GoM World error :=
  s ← createStream target "/sendmetadata/p2p";
  match s with
  | inr e => mret (sender_error "sendFileMetaDataToPeer" e)
  | inl peer =>
      provided ← read providedFiles;
      flags ← read isFileHashProvided;
      let fileMetaData :=
        FileDataHeader.set_Provided (map_bool flags fileHash)
          (find_provided fileHash provided) in
      n ← tick;
      match StreamWrite n "/sendmetadata/p2p" (gob_encode fileMetaData) with
      | Some e => mret (sender_error "sendFileMetaDataToPeer" e)
      | None =>
          emit (EvStream "/sendmetadata/p2p" peer (gob_encode fileMetaData));;
          m ← tick;
          match StreamClose m "/sendmetadata/p2p" with
          | Some e => mret (sender_error "sendFileMetaDataToPeer" e)
          | None => mret None
          end
      end
  end.

(** The transfer loop of [sendFileToPeer] as data; its steps are in
    FSTransfer.  The phases are the places where the loop blocks: the wait
    for [downloadStatus], [file.Read], [stream.Write] and, after the end of
    the file, [stream.Close]. *)
Inductive Phase :=
| Waiting
| Reading
| Writing (buffer : bytes)
| Closing
| Finished
| Failed (e : string).

Record Transfer := mkTransfer {
  tr_request : string;        (* requestID *)
  tr_rest : bytes;            (* what file.Read has not returned yet *)
  tr_sent : list bytes;       (* the buffers written to the stream, in order *)
  tr_phase : Phase
}.

Definition transfer_init (requestID : string) (content : bytes) : Transfer :=
  mkTransfer requestID content [] Waiting.

(** [sendFileToPeer] up to its transfer loop: open the stream and the file,
    send the header of the file.  The result is the content to transfer. *)
Definition sendFileToPeer_start (target filepath filehash requestID : string)
  : GoM World (bytes + string) :=
  s ← createStream target "/senddata/p2p";
  match s with
  | inr e => mret (inr ("sendFileToPeer: " +:+ e))
  | inl peer =>
      n ← tick;
      match OpenFile n filepath with
      | inr e => mret (inr ("sendFileToPeer: " +:+ e))
      | inl content =>
          provided ← read providedFiles;
          let fileMetaData :=
            FileDataHeader.set_RequestID requestID (find_provided filehash provided) in
          m ← tick;
          match StreamWrite m "/senddata/p2p" (gob_encode fileMetaData) with
          | Some e => mret (inr ("sendFileToPeer: " +:+ e))
          | None =>
              emit (EvStream "/senddata/p2p" peer (gob_encode fileMetaData));;
              mret (inl content)
          end
      end
  end.

(** ** Stream handlers

    [data] is what [io.ReadAll] returned: the bytes of the stream, or an
    error, on which the handler returns. *)

(** The result is the transfer the handler goes on to run, if any. *)
Definition receiveFileRequests (data : bytes + string) : GoM World (option Transfer) :=
  match data with
  | inr _ => mret None
  | inl d =>
      match json_parse d ≫= FileRequest_of_json with
      | None => mret None
      | Some r =>
          let hash := FileRequest.FileHash r in
          paths ← read fileHashToPath;
          match paths !! hash with
          | None =>
              sendFileNotFoundToPeer (FileRequest.RequesterID r) (FileRequest.RequestID r);;
              mret None
          | Some filePath =>
              flags ← read isFileHashProvided;
              if negb (map_bool flags hash) then
                sendFileNotCurrentlyProvidedToPeer
                  (FileRequest.RequesterID r) (FileRequest.RequestID r);;
                mret None
              else
                last ← read lastDownloadStatus;
                (if (last =? 0)%Z || (last <? FileRequest.TimeSent r)%Z
                 then update (set_downloadStatus <[FileRequest.RequestID r := true]>)
                 else mret ());;
                c ← sendFileToPeer_start (FileRequest.RequesterID r) filePath hash
                      (FileRequest.RequestID r);
                match c with
                | inr _ => mret None
                | inl content => mret (Some (transfer_init (FileRequest.RequestID r) content))
                end
          end
      end
  end.

Definition receiveFileMetaDataRequests (data : bytes + string) : GoM World () :=
  match data with
  | inr _ => mret ()
  | inl d =>
      match json_parse d ≫= FileRequest_of_json with
      | None => mret ()
      | Some r =>
          let hash := FileRequest.FileHash r in
          paths ← read fileHashToPath;
          match paths !! hash with
          | None =>
              sendFileNotFoundToPeer (FileRequest.RequesterID r) (FileRequest.RequestID r);;
              mret ()
          | Some filePath =>
              sendFileMetaDataToPeer (FileRequest.RequesterID r) filePath hash;; mret ()
          end
      end
  end.

Definition receivePauseDownload (data : bytes + string) : GoM World () :=
  match data with
  | inr _ => mret ()
  | inl d =>
      match json_parse d ≫= PauseDownloadRequest_of_json with
      | None => mret ()
      | Some r =>
          update (set_downloadStatus
            <[PauseDownloadRequest.RequestID r := PauseDownloadRequest.Status r]>)
      end
  end.

(** [stream]: the bytes of the stream; the handler returns when decoding
    fails. *)
Definition receiveFileMetaData (stream : bytes) : GoM World () :=
  match gob_decode stream with
  | None => mret ()
  | Some (h, _) =>
      update (set_metadataResponse
        <[FileDataHeader.FileHash h +:+ FileDataHeader.PeerID h := h]>)
  end.

(** The message is only logged: the result is the line it prints. *)
Definition receiveErrorMessages (data : bytes + string) : GoM World (option string) :=
  match data with
  | inr _ => mret None
  | inl d =>
      match json_parse d ≫= Error_of_json with
      | None => mret None
      | Some e => mret (Some ("ERROR: " +:+ ErrorMsg.RequestID e +:+ " " +:+ ErrorMsg.ErrorMessage e))
      end
  end.

(** ** Requests of the client side: utils.go *)

Definition connectAndRequestFileFromPeer (fileHash requestID peerID : string)
  : GoM World error :=
  e ← connectToNodeUsingRelay peerID;
  match e with
  | Some _ => mret e
  | None => sendFileRequestToPeer peerID fileHash requestID
  end.

Definition connectAndRequestFileMetaDataFromPeer (fileHash peerID : string)
  : GoM World error :=
  e ← connectToNodeUsingRelay peerID;
  match e with
  | Some _ => mret e
  | None => sendFileMetaDataRequestToPeer peerID fileHash
  end.

Definition connectAndPauseRequestFromPeer (requestID : string) (status : bool)
  : GoM World error :=
  hist ← read downloadHistory;
  match hist !! requestID with
  | None => mret (Some ("transaction does not exist for requestID " +:+ requestID))
  | Some transaction =>
      let peer := FileDataHeader.PeerID (FileTransaction.FileMetaData transaction) in
      e ← connectToNodeUsingRelay peer;
      match e with
      | Some _ => mret e
      | None => sendPauseRequestToPeer peer requestID status
      end
  end.
End Peer.
