(* ===== verification/FSTransfer.v ===== *)
(** * File share: the transfer of a file

    The two loops of fileshare/bitshare.go: the sending loop of
    [sendFileToPeer], which other handlers pause and resume through the
    shared [downloadStatus] map while it runs, as a step function and a step
    relation; and [receiveFileData], which decodes the header and writes the
    rest of the stream to the download directory. *)

From stdpp Require Import base gmap strings list fin_maps relations.
From Stdlib Require Import ZArith Ascii Lia SpecFloat.
From S2P Require Import Prelude GoStrings GoFloat FSTypes FSPeer.

Open Scope string_scope.
Open Scope list_scope.
Open Scope nat_scope.

(** ** The sending loop *)

(** What the operating system and the network do in one step: how many
    bytes [file.Read] returns, or its error; the errors of [stream.Write] and
    of [stream.Close]. *)
Record Io := mkIo {
  io_avail : nat; io_read_err : error; io_write_err : error; io_close_err : error }.

Definition buffer_size : nat := 1024.

(** [file.Read] fills at most the buffer and returns at least one byte before
    the end of the file. *)
Definition read_len (io : Io) (rest : bytes) : nat :=
  Nat.max 1 (Nat.min (io_avail io) (Nat.min buffer_size (length rest))).

(** One step of the loop: look at the flag and sleep or go on; read a
    buffer, or find the end of the file; write the buffer; close. *)
Definition transfer_step (io : Io) (st : State) (t : Transfer) : Transfer :=
  match tr_phase t with
  | Waiting =>
      if map_bool (downloadStatus st) (tr_request t)
      then mkTransfer (tr_request t) (tr_rest t) (tr_sent t) Reading else t
  | Reading =>
      match io_read_err io, tr_rest t with
      | Some e, _ => mkTransfer (tr_request t) (tr_rest t) (tr_sent t)
                       (Failed ("sendFileToPeer: failed to read file: " +:+ e))
      | None, [] => mkTransfer (tr_request t) [] (tr_sent t) Closing
      | None, rest =>
          let n := read_len io rest in
          mkTransfer (tr_request t) (drop n rest) (tr_sent t) (Writing (take n rest))
      end
  | Writing buffer =>
      match io_write_err io with
      | Some e => mkTransfer (tr_request t) (tr_rest t) (tr_sent t)
                    (Failed ("sendFileToPeer: failed to write buffer to stream: " +:+ e))
      | None => mkTransfer (tr_request t) (tr_rest t) (tr_sent t ++ [buffer]) Waiting
      end
  | Closing =>
      match io_close_err io with
      | Some e => mkTransfer (tr_request t) (tr_rest t) (tr_sent t)
                    (Failed ("sendFileToPeer: " +:+ e))
      | None => mkTransfer (tr_request t) (tr_rest t) (tr_sent t) Finished
      end
  | Finished | Failed _ => t
  end.

Section System.
Context `{Libp2p} `{JsonCodec} `{GobCodec} `{Env}.

(** The node with the transfers it runs: one of the loops, the two handlers
    that write [downloadStatus], one of which starts a loop, and any other
    activity, which does not write it. *)
Inductive sys_step : World * list Transfer → World * list Transfer → Prop :=
| step_loop io w ts i t :
    ts !! i = Some t →
    sys_step (w, ts) (w, <[i := transfer_step io (app w) t]> ts)
| step_pause data w ts :
    sys_step (w, ts) (final (receivePauseDownload data w), ts)
| step_request data w ts o w' :
    receiveFileRequests data w = Done o w' →
    sys_step (w, ts) (w', ts ++ option_list o)
| step_other w w' ts :
    downloadStatus (app w') = downloadStatus (app w) → sys_step (w, ts) (w', ts).

(** Steps that do not set the flag of request [rid]. *)
Definition quiet_step (rid : string) (c c' : World * list Transfer) : Prop :=
  sys_step c c' ∧
  downloadStatus (app c'.1) !! rid = downloadStatus (app c.1) !! rid.
End System.

(** ** Receiving *)

(** The result of one iteration of the receiving loop: the bytes [stream.Read]
    returned, the error of [file.Write], and [time.Now]. *)
Record Rx := mkRx { rx_data : bytes; rx_write_err : error; rx_now : Time }.

(** How the stream ends: [None] is [io.EOF]. *)
Abbreviation StreamEnd := (option string) (only parsing).

Section Receive.
Context `{GobCodec} `{Env}.

(** The gob decoder wraps the stream in a buffered reader, so what a [Read]
    returned beyond the header stays in the decoder's buffer: it is given
    back as the second component and the handler never sees it. *)
Fixpoint decode_header (acc : bytes) (reads : list Rx)
  : option (FileDataHeader.t * bytes * list Rx) :=
  match gob_decode acc with
  | Some (h, rest) => Some (h, rest, reads)
  | None =>
      match reads with
      | [] => None
      | r :: rs => decode_header (acc ++ rx_data r) rs
      end
  end.

Definition progress_update (rid : string) (size total now last lastBytes : Z)
  (st : State) : State :=
  let duration := Time_Sub now last in
  let ft := default FileTransaction.zero (downloadHistory st !! rid) in
  let speed :=
    f32_div (f32_div (f32_of_Z (int64 (total - lastBytes)))
                     (float32 (Duration_Seconds duration)))
            (f32_of_Z (1024 * 1024)) in
  let progress := f32_div (f32_of_Z total) (f32_of_Z size) in
  set_downloadHistory <[rid := FileTransaction.set_progress total speed progress ft]> st.

(** The loop: [None] when it returned early on an error, else the number of
    bytes read. *)
Fixpoint receive_loop (path rid : string) (size : Z) (reads : list Rx) (fin : StreamEnd)
         (total last lastBytes : Z) : GoM World (option Z) :=
  match reads with
  | [] => match fin with None => mret (Some total) | Some _ => mret None end
  | r :: rs =>
      match rx_write_err r with
      | Some _ => mret None
      | None =>
          emit (EvFileWrite path (rx_data r));;
          let total' := int64 (total + Z.of_nat (length (rx_data r))) in
          if (Second <=? Time_Sub (rx_now r) last)%Z then
            update (progress_update rid size total' (rx_now r) last lastBytes);;
            receive_loop path rid size rs fin total' (rx_now r) total'
          else receive_loop path rid size rs fin total' last lastBytes
      end
  end.

(** Mark the first request with this ID as complete. *)
Fixpoint mark_complete (rid : string) (l : list FileRequest.t) : list FileRequest.t :=
  match l with
  | [] => []
  | r :: l' => if decide (FileRequest.RequestID r = rid)
               then FileRequest.set_Complete true r :: l'
               else r :: mark_complete rid l'
  end.

Definition finish_download (rid : string) (total : Z) (st : State) : State :=
  let ft := default FileTransaction.zero (downloadHistory st !! rid) in
  set_fileRequests (mark_complete rid)
    (set_downloadHistory
       <[rid := FileTransaction.set_progress total
                  (FileTransaction.DownloadSpeed ft) (f32_of_Z 1) ft]> st).

(** [copyFromContainer]: to the download directory of the host. *)
Definition copyFromContainer (sourcePath filename : string) : GoM World error :=
  n ← tick;
  match OpenFile n sourcePath with
  | inr e => mret (Some e)
  | inl content =>
      let destPath := Join_rooted "/downloads" filename in
      m ← tick;
      match CreateFile m destPath with
      | Some e => mret (Some e)
      | None =>
          emit (EvFileCreate destPath);;
          k ← tick;
          match WriteFile k destPath content with
          | Some e => mret (Some e)
          | None => emit (EvFileWrite destPath content);; mret None
          end
      end
  end.

Definition receiveFileData (reads : list Rx) (fin : StreamEnd) : GoM World () :=
  match decode_header [] reads with
  | None => mret ()
  | Some (h, _, rest) =>
      let rid := FileDataHeader.RequestID h in
      let hash := FileDataHeader.FileHash h in
      if decide (hash = "FILE NOT CURRENTLY PROVIDED") then
        update (set_downloadHistory
          <[rid := FileTransaction.mk rid hash FileDataHeader.zero (S754_zero false)
                     (S754_zero false) 0 EmptyString 0]>)
      else
        n ← tick;
        update (set_downloadHistory
          <[rid := FileTransaction.mk rid hash h (S754_zero false) (S754_zero false)
                     (Now n) EmptyString 0]>);;
        dir ← read DOWNLOAD_DIRECTORY;
        let name := FileDataHeader.FileName h in
        let path := dir +:+ "/" +:+ name in
        m ← tick;
        match CreateFile m path with
        | Some _ => mret ()
        | None =>
            emit (EvFileCreate path);;
            k ← tick;
            r ← receive_loop path rid (FileDataHeader.FileSize h) rest fin 0 (Now k) 0;
            match r with
            | None => mret ()
            | Some total =>
                update (finish_download rid total);;
                copyFromContainer ("/" +:+ path) name;;
                mret ()
            end
        end
  end.
End Receive.
