(* ===== verification/FSTransferFacts.v ===== *)
(** * File share: what a transfer delivers

    Invariants of the sending loop under every interleaving with the other
    handlers, pausing and resuming, termination, and the integrity of what
    the receiving handler writes. *)

From stdpp Require Import base gmap strings list fin_maps relations.
From Stdlib Require Import ZArith Ascii Lia SpecFloat.
From S2P Require Import Prelude GoStrings GoFloat FSTypes FSPeer FSTransfer.

Open Scope string_scope.
Open Scope list_scope.
Open Scope nat_scope.

(** ** The sending loop *)

Lemma read_len_pos io rest : 0 < read_len io rest.
Proof. unfold read_len. lia. Qed.

Lemma read_len_le io rest : rest ≠ [] → read_len io rest ≤ buffer_size ∧ read_len io rest ≤ length rest.
Proof.
  intros Hne. assert (0 < length rest) by (destruct rest; simpl; [done|lia]).
  unfold read_len, buffer_size. lia.
Qed.

(** The buffer read and not yet written. *)
Definition in_flight (t : Transfer) : bytes :=
  match tr_phase t with Writing b => b | _ => [] end.

Definition good_buffer (b : bytes) : Prop := b ≠ [] ∧ length b ≤ buffer_size.

(** What holds of a transfer of [content] at every moment. *)
Record transfer_ok (rid : string) (content : bytes) (t : Transfer) : Prop := {
  ok_request : tr_request t = rid;
  ok_chunks : Forall good_buffer (tr_sent t);
  ok_flight : ∀ b, tr_phase t = Writing b → good_buffer b;
  ok_prefix : concat (tr_sent t) `prefix_of` content;
  ok_split : (∀ e, tr_phase t ≠ Failed e) →
             concat (tr_sent t) ++ in_flight t ++ tr_rest t = content;
  ok_done : tr_phase t = Closing ∨ tr_phase t = Finished → tr_rest t = []
}.

Lemma transfer_init_ok rid content : transfer_ok rid content (transfer_init rid content).
Proof. split; simpl; try done; [by exists content|naive_solver]. Qed.

(** The read step: what is read is a good buffer, and nothing is lost. *)
Lemma read_step_ok io rest :
  rest ≠ [] → let n := read_len io rest in good_buffer (take n rest).
Proof.
  intros Hne n. destruct (read_len_le io rest Hne) as [H1 H2].
  pose proof (read_len_pos io rest). unfold good_buffer. rewrite length_take. fold n in H1, H2, H.
  split; [|lia]. destruct rest; [done|]. destruct n; [lia|done].
Qed.

Lemma transfer_step_ok rid content io st t :
  transfer_ok rid content t → transfer_ok rid content (transfer_step io st t).
Proof.
  intros Hok. pose proof Hok as [Hr Hc Hw Hp Hs Hd]. unfold transfer_step.
  destruct (tr_phase t) as [| |b| | |e] eqn:Eph; [..|done|done];
    unfold in_flight in Hs; rewrite Eph in Hs; specialize (Hs ltac:(done)); simpl in Hs.
  - destruct (map_bool _ _); [|done]. split; simpl; naive_solver.
  - destruct (io_read_err io); [split; simpl; naive_solver|].
    destruct (tr_rest t) as [|a rest] eqn:Er; [split; simpl; naive_solver|].
    pose proof (read_step_ok io (a :: rest) ltac:(done)) as Hgood.
    revert Hgood. generalize (read_len io (a :: rest)) as n. intros n Hgood.
    split; simpl; try done; [naive_solver| |naive_solver].
    intros _. unfold in_flight. simpl tr_phase. cbv iota. by rewrite take_drop.
  - destruct (io_write_err io); [split; simpl; naive_solver|]. split; simpl; try done.
    + apply Forall_app. split; [done|]. apply Forall_singleton. by apply Hw.
    + rewrite concat_app. simpl. rewrite app_nil_r. exists (tr_rest t). by rewrite <- app_assoc.
    + intros _. rewrite concat_app. simpl. by rewrite app_nil_r, <- app_assoc.
    + naive_solver.
  - destruct (io_close_err io); split; simpl; naive_solver.
Qed.

Section Interleaving.
Context `{Libp2p} `{JsonCodec} `{GobCodec} `{Env}.

(** A relation of one transfer to its later self that the loop respects is
    respected by every step of the node. *)
Lemma sys_step_transfer (R : Transfer → Transfer → Prop) c c' i t :
  (∀ t, R t t) →
  (∀ io w, c.1 = w → R t (transfer_step io (app w) t)) →
  sys_step c c' → c.2 !! i = Some t →
  ∃ t', c'.2 !! i = Some t' ∧ R t t'.
Proof.
  intros Hrefl Hloop Hstep Hi. destruct Hstep as [io w ts j tj Hj| |data w ts o w' Hrun|]; simpl in *.
  - destruct (decide (i = j)) as [->|Hne].
    + simplify_eq. exists (transfer_step io (app w) tj). split; [|by apply Hloop].
      apply list_lookup_insert_eq. by eapply lookup_lt_Some.
    + exists t. by rewrite list_lookup_insert_ne.
  - by eauto.
  - exists t. split; [|done]. by apply lookup_app_l_Some.
  - by eauto.
Qed.

(** C1. However the sending loops of a node are interleaved with each other,
    with pause, resume and file requests and with any other activity, and
    whatever the operating system and the network do, the bytes a loop has
    written to its stream are a prefix of its file, in buffers of 1 to 1024
    bytes; while no error occurs they continue with the buffer in flight and
    the unread rest to the whole file; and a finished transfer has written
    the whole file. *)
Theorem transfer_interleaved_sound rid content i w ts w' ts' :
  ts !! i = Some (transfer_init rid content) →
  rtc sys_step (w, ts) (w', ts') →
  ∃ t, ts' !! i = Some t ∧ tr_request t = rid ∧
    concat (tr_sent t) `prefix_of` content ∧ Forall good_buffer (tr_sent t) ∧
    ((∀ e, tr_phase t ≠ Failed e) →
     concat (tr_sent t) ++ in_flight t ++ tr_rest t = content) ∧
    (tr_phase t = Finished → concat (tr_sent t) = content).
Proof.
  intros Hi Hsteps.
  assert (∀ c c', rtc sys_step c c' → ∀ t, c.2 !! i = Some t → transfer_ok rid content t →
          ∃ t', c'.2 !! i = Some t' ∧ transfer_ok rid content t') as Hinv.
  { induction 1 as [c|c d c' Hstep _ IH]; intros t Ht Hok; [by eauto|].
    destruct (sys_step_transfer (λ t t', transfer_ok rid content t → transfer_ok rid content t')
                c d i t) as (td & Htd & Hokd); eauto using transfer_step_ok. }
  destruct (Hinv _ _ Hsteps _ Hi (transfer_init_ok rid content)) as (t & Ht & [Hr Hc _ Hp Hs Hd]).
  exists t. repeat split; try done. intros Hf.
  specialize (Hs ltac:(by rewrite Hf)). unfold in_flight in Hs.
  rewrite Hf, (Hd (or_intror Hf)), !app_nil_r in Hs. done.
Qed.

(** *** Pausing *)

(** Buffers that may still be written when the flag is false. *)
Definition lag (t : Transfer) : nat :=
  match tr_phase t with Reading | Writing _ => 1 | _ => 0 end.

(** [t'] is [t] later, with the flag false all the time. *)
Definition settles (t t' : Transfer) : Prop :=
  tr_request t' = tr_request t ∧
  (∃ bs, tr_sent t' = tr_sent t ++ bs ∧ length bs + lag t' ≤ lag t) ∧
  (tr_phase t = Waiting → t' = t).

Lemma settles_refl t : settles t t.
Proof. split; [done|]. split; [|done]. exists []. by rewrite app_nil_r. Qed.
Lemma settles_trans t1 t2 t3 : settles t1 t2 → settles t2 t3 → settles t1 t3.
Proof.
  intros (R1 & (b1 & E1 & L1) & W1) (R2 & (b2 & E2 & L2) & W2). split; [congruence|]. split.
  - exists (b1 ++ b2). rewrite E2, E1, app_assoc, length_app. split; [done|lia].
  - intros Hw. specialize (W1 Hw). subst t2. by apply W2.
Qed.
Lemma settles_step io st t :
  map_bool (downloadStatus st) (tr_request t) = false → settles t (transfer_step io st t).
Proof.
  intros Hf. unfold transfer_step. destruct (tr_phase t) eqn:Eph;
    [rewrite Hf; apply settles_refl| | | |apply settles_refl..].
  all: unfold settles, lag; rewrite Eph.
  - destruct (io_read_err io); [|destruct (tr_rest t)];
      (split; [done|split; [|done]]); exists []; simpl; rewrite app_nil_r; auto with lia.
  - destruct (io_write_err io); (split; [done|split; [|done]]); simpl.
    + exists []. rewrite app_nil_r. auto with lia.
    + by eexists.
  - destruct (io_close_err io); (split; [done|split; [|done]]); exists []; by rewrite app_nil_r.
Qed.

(** While the flag of a request stays false, whatever else the node does, a
    transfer of that request settles: at most the buffer it was about to
    send is written, and a loop that waits does not move. *)
Lemma paused_transfer_settles rid i w ts t w' ts' :
  ts !! i = Some t → tr_request t = rid →
  downloadStatus (app w) !! rid = Some false →
  rtc (quiet_step rid) (w, ts) (w', ts') →
  ∃ t', ts' !! i = Some t' ∧ settles t t'.
Proof.
  intros Hi Hr Hf Hsteps.
  assert (∀ c c', rtc (quiet_step rid) c c' → downloadStatus (app c.1) !! rid = Some false →
    ∀ t, c.2 !! i = Some t → tr_request t = rid →
    ∃ t', c'.2 !! i = Some t' ∧ settles t t') as Hinv.
  { clear. induction 1 as [c|c d c' [Hstep Hq] _ IH]; intros Hf t Hi Hr; [eauto using settles_refl|].
    destruct (sys_step_transfer settles c d i t) as (td & Htd & Hs); eauto using settles_refl.
    { intros io w <-. apply settles_step. unfold map_bool. by rewrite Hr, Hf. }
    destruct (IH ltac:(congruence) td Htd) as (t' & Ht' & Hs'); [destruct Hs; congruence|].
    eauto using settles_trans. }
  by eapply (Hinv (w, ts) (w', ts')).
Qed.

(** A pause or resume request that reached the provider sets the flag. *)
Lemma PauseDownloadRequest_json r :
  ValidString (PauseDownloadRequest.RequestID r) = true →
  time_ok (PauseDownloadRequest.TimeSent r) = true →
  json_parse (json_text (json_of_PauseDownloadRequest r)) ≫= PauseDownloadRequest_of_json = Some r.
Proof.
  intros Hid Ht. rewrite json_parse_text.
  - destruct r as [id b t]. simpl in Hid, Ht. cbv -[time_parse time_text]. by rewrite time_parse_text.
  - simpl. by rewrite Hid, time_text_valid.
Qed.

Lemma receivePauseDownload_sets r w :
  ValidString (PauseDownloadRequest.RequestID r) = true →
  time_ok (PauseDownloadRequest.TimeSent r) = true →
  receivePauseDownload (inl (json_text (json_of_PauseDownloadRequest r))) w =
  Done () (mkWorld (set_downloadStatus
    <[PauseDownloadRequest.RequestID r := PauseDownloadRequest.Status r]> (app w))
    (log w) (clock w)).
Proof. intros Hid Ht. unfold receivePauseDownload. by rewrite PauseDownloadRequest_json. Qed.
End Interleaving.

(** *** Termination *)

(** Steps of the loop with the download enabled. *)
Definition transfer_run (st : State) (ios : list Io) (t : Transfer) : Transfer :=
  fold_left (λ t io, transfer_step io st t) ios t.

Lemma transfer_run_ok rid content st ios t :
  transfer_ok rid content t → transfer_ok rid content (transfer_run st ios t).
Proof. revert t. induction ios; simpl; auto using transfer_step_ok. Qed.

(** No call of the loop fails. *)
Definition io_ok (io : Io) : Prop :=
  io_read_err io = None ∧ io_write_err io = None ∧ io_close_err io = None.

(** The read returns at least [m] bytes, or all that is left. *)
Definition reads_at_least (m : nat) (io : Io) : Prop := m ≤ Nat.max 1 (io_avail io).

Lemma read_len_least m io rest :
  m ≤ buffer_size → reads_at_least m io → Nat.min m (length rest) ≤ read_len io rest.
Proof. unfold reads_at_least, read_len. lia. Qed.

(** One iteration is three steps: it sends what one read returned, or closes. *)
Lemma iteration st a b c t :
  tr_phase t = Waiting → map_bool (downloadStatus st) (tr_request t) = true →
  io_ok b → io_ok c →
  let t' := transfer_run st [a; b; c] t in
  tr_request t' = tr_request t ∧
  tr_rest t' = drop (read_len b (tr_rest t)) (tr_rest t) ∧
  tr_phase t' = match tr_rest t with [] => Finished | _ => Waiting end.
Proof.
  intros Hp Hf (Hre & _ & _) (_ & Hwe & Hce).
  destruct t as [rid rest sent ph]. simpl in Hp, Hf. subst ph. cbn [transfer_run fold_left].
  assert (transfer_step a st (mkTransfer rid rest sent Waiting) =
          mkTransfer rid rest sent Reading) as -> by (unfold transfer_step; simpl; by rewrite Hf).
  destruct rest as [|x rest].
  { assert (transfer_step b st (mkTransfer rid [] sent Reading) = mkTransfer rid [] sent Closing)
      as -> by (unfold transfer_step; simpl; by rewrite Hre).
    unfold transfer_step. cbn [tr_phase tr_rest tr_request tr_sent]. rewrite Hce.
    cbn [tr_phase tr_rest tr_request]. by rewrite drop_nil. }
  set (n := read_len b (x :: rest)).
  assert (transfer_step b st (mkTransfer rid (x :: rest) sent Reading) =
          mkTransfer rid (drop n (x :: rest)) sent (Writing (take n (x :: rest))))
    as -> by (unfold transfer_step; cbn [tr_phase tr_rest]; by rewrite Hre).
  unfold transfer_step. cbn [tr_phase tr_rest tr_request tr_sent]. by rewrite Hwe.
Qed.

Lemma transfer_run_finished st ios t :
  tr_phase t = Finished → transfer_run st ios t = t.
Proof.
  intros Hp. unfold transfer_run. induction ios as [|io ios IH]; [done|]. simpl.
  replace (transfer_step io st t) with t; [done|]. unfold transfer_step. by rewrite Hp.
Qed.

(** [k] reads of at least [m] bytes reach the end of the file. *)
Lemma transfer_run_done m st k ios t :
  m ≤ buffer_size →
  tr_phase t = Waiting → map_bool (downloadStatus st) (tr_request t) = true →
  Forall io_ok ios → Forall (reads_at_least m) ios → 3 * S k ≤ length ios →
  length (tr_rest t) ≤ k * m →
  tr_phase (transfer_run st ios t) = Finished.
Proof.
  intros Hm. revert ios t. induction k as [|k IH]; intros ios t Hp Hf Hok Hrd Hlen Hhi.
  all: destruct ios as [|a [|b [|c ios]]]; simpl in Hlen; try lia.
  all: rewrite !Forall_cons in Hok, Hrd.
  all: destruct Hok as (Ha & Hb & Hc & Hok), Hrd as (_ & Hrb & _ & Hrd).
  all: destruct (iteration st a b c t Hp Hf Hb Hc) as (Hr & Hd & Hph).
  all: change (transfer_run st (a :: b :: c :: ios) t)
         with (transfer_run st ios (transfer_run st [a; b; c] t)).
  all: pose proof (read_len_least m b (tr_rest t) Hm Hrb) as Hle.
  all: destruct (tr_rest t) as [|x rest] eqn:E; [by rewrite transfer_run_finished|].
  - simpl in Hhi. lia.
  - apply IH; try done; [by rewrite Hr|lia|]. rewrite Hd, length_drop. lia.
Qed.

(** C3. The sending loop terminates: with the download enabled and no error
    from the file or the stream, the file has been sent whole and the loop has
    closed the stream after at most one iteration (three steps) per byte and
    one more that finds the end of the file, however short the reads are; and
    after at most one iteration per started kilobyte and one more when every
    read fills the buffer or returns all that is left. *)
Theorem transfer_terminates st ios rid content :
  map_bool (downloadStatus st) rid = true →
  Forall io_ok ios →
  3 * S (length content) ≤ length ios ∨
  Forall (reads_at_least buffer_size) ios ∧
    3 * S ((length content + 1023) / 1024) ≤ length ios →
  let t := transfer_run st ios (transfer_init rid content) in
  tr_phase t = Finished ∧ concat (tr_sent t) = content.
Proof.
  intros Hf Hok Hlen t.
  assert (tr_phase t = Finished) as Hfin.
  { destruct Hlen as [Hlen|[Hfull Hlen]].
    - eapply (transfer_run_done 1); [|reflexivity|exact Hf|exact Hok| |exact Hlen|simpl; lia].
      + unfold buffer_size. lia.
      + apply Forall_forall. intros io _. unfold reads_at_least. lia.
    - eapply (transfer_run_done buffer_size); [done|reflexivity|exact Hf|exact Hok|exact Hfull|exact Hlen|].
      unfold transfer_init, tr_rest, buffer_size.
      pose proof (Nat.div_mod_eq (length content + 1023) 1024).
      pose proof (Nat.mod_upper_bound (length content + 1023) 1024). lia. }
  split; [done|].
  destruct (transfer_run_ok rid content st ios _ (transfer_init_ok rid content)) as [_ _ _ _ Hs Hd].
  fold t in Hs, Hd. specialize (Hs ltac:(by rewrite Hfin)). unfold in_flight in Hs.
  rewrite Hfin, (Hd (or_intror Hfin)), !app_nil_r in Hs. done.
Qed.

(** ** File share: what the receiver of a file stores

    The header decoder's read-ahead, the receiving loop and the bookkeeping of
    [receiveFileData]. *)

Open Scope string_scope.
Open Scope list_scope.
Open Scope nat_scope.

Abbreviation payload reads := (concat (map rx_data reads)).

(** The state differs only in the progress of the download [rid]. *)
Record progress_only (rid : string) (s s' : State) : Prop := {
  po_rest : s' = set_downloadHistory (λ _, downloadHistory s') s;
  po_others : ∀ k, k ≠ rid → downloadHistory s' !! k = downloadHistory s !! k;
  po_entry : ∀ f, downloadHistory s !! rid = Some f →
    ∃ f', downloadHistory s' !! rid = Some f' ∧
          FileTransaction.RequestID f' = FileTransaction.RequestID f ∧
          FileTransaction.FileHash f' = FileTransaction.FileHash f ∧
          FileTransaction.FileMetaData f' = FileTransaction.FileMetaData f
}.

Lemma progress_only_refl rid s : progress_only rid s s.
Proof. split; [by destruct s|done|eauto 10]. Qed.

Lemma progress_only_trans rid s1 s2 s3 :
  progress_only rid s1 s2 → progress_only rid s2 s3 → progress_only rid s1 s3.
Proof.
  intros [E1 O1 P1] [E2 O2 P2]. split.
  - rewrite E2, E1. done.
  - intros k Hk. by rewrite O2, O1.
  - intros f Hf. destruct (P1 f Hf) as (f2 & Hf2 & ? & ? & ?).
    destruct (P2 f2 Hf2) as (f3 & Hf3 & ? & ? & ?). exists f3. repeat split; congruence.
Qed.

Lemma progress_only_update rid size total now last lb s :
  progress_only rid s (progress_update rid size total now last lb s).
Proof.
  unfold progress_update. split; [done| |]; simpl.
  - intros k Hk. by rewrite lookup_insert_ne.
  - intros f Hf. rewrite lookup_insert_eq, Hf. eexists; eauto.
Qed.

Section Receive.
Context `{GobCodec} `{Env}.

(** *** Header *)

Lemma decode_header_spec h content acc reads :
  gob_ok h = true → acc ++ payload reads = gob_encode h ++ content →
  ∃ lost rest,
    decode_header acc reads = Some (h, lost, rest) ∧
    lost ++ payload rest = content ∧
    (∃ used, reads = used ++ rest) ∧
    (length acc ≤ length (gob_encode h) →
     (∃ k, acc ++ payload (take k reads) = gob_encode h) → lost = []).
Proof.
  intros Hok. revert acc. induction reads as [|r reads IH]; intros acc E.
  - simpl in *. rewrite app_nil_r in E. subst acc. exists content, [].
    rewrite gob_decode_encode by done. simpl. rewrite app_nil_r.
    repeat split; [by exists []|]. intros Hle _. rewrite length_app in Hle.
    destruct content; simpl in *; [done|lia].
  - destruct (decide (length acc < length (gob_encode h))) as [Hlt|Hge].
    + assert (acc = take (length acc) (gob_encode h)) as Hacc.
      { apply (f_equal (take (length acc))) in E.
        rewrite take_app_length in E. rewrite take_app_le in E by lia. done. }
      destruct (IH (acc ++ rx_data r)) as (lost & rest & Hd & Hl & [used Hu] & Ha).
      { simpl in E. by rewrite <- app_assoc. }
      exists lost, rest. split; [|split; [done|split]].
      * simpl. rewrite Hacc at 1. rewrite gob_decode_short; [done|lia].
      * exists (r :: used). by rewrite Hu.
      * intros _ [k Hk]. destruct k as [|k].
        { simpl in Hk. rewrite app_nil_r in Hk. subst acc. lia. }
        simpl in Hk. rewrite app_assoc in Hk. apply Ha; [|by exists k].
        rewrite <- Hk, !length_app. lia.
    + assert (acc = gob_encode h ++ drop (length (gob_encode h)) acc) as Hacc.
      { rewrite <- (take_drop (length (gob_encode h)) acc) at 1. f_equal.
        apply (f_equal (take (length (gob_encode h)))) in E.
        rewrite take_app_length in E. rewrite take_app_le in E by lia. done. }
      set (lost := drop (length (gob_encode h)) acc) in *.
      exists lost, (r :: reads). rewrite Hacc in E |- *. rewrite <- app_assoc in E.
      apply app_inv_head in E. split; [|split; [done|split]].
      * simpl. by rewrite gob_decode_encode.
      * by exists [].
      * intros Hle _. rewrite length_app in Hle. destruct lost; simpl in *; [done|lia].
Qed.

(** *** Loop *)

Lemma receive_loop_spec path rid size reads total last lb w :
  Forall (λ r, rx_write_err r = None) reads →
  (0 ≤ total)%Z → (total + Z.of_nat (length (payload reads)) < 2 ^ 63)%Z →
  ∃ s', receive_loop path rid size reads None total last lb w =
        Done (Some (total + Z.of_nat (length (payload reads)))%Z)
             (mkWorld s' (log w ++ map (λ r, EvFileWrite path (rx_data r)) reads) (clock w)) ∧
        progress_only rid (app w) s'.
Proof.
  revert total last lb w. induction reads as [|r reads IH]; intros total last lb w Hw Ht Hb.
  - exists (app w). split; [|apply progress_only_refl]. simpl.
    rewrite Z.add_0_r, app_nil_r. by destruct w.
  - apply Forall_cons in Hw as [Hr Hw].
    assert (payload (r :: reads) = rx_data r ++ payload reads) as Epl by done.
    rewrite Epl, length_app, Nat2Z.inj_add in Hb |- *. cbn [receive_loop]. rewrite Hr.
    rewrite (wrap_s_id 64 (total + _)) by lia.
    unfold mbind at 1, GoM_bind at 1, go_bind at 1, emit, go_modify.
    destruct (Second <=? _)%Z.
    + unfold mbind, GoM_bind, go_bind, update, go_modify. cbn [app log clock].
      match goal with |- context [receive_loop _ _ _ _ _ ?t ?l ?b ?w'] =>
        destruct (IH t l b w') as (s' & Hs & Hp); [done|lia|simpl; lia|] end.
      cbn [app log clock] in *. exists s'. split.
      * rewrite Hs. rewrite <- app_assoc, <- Z.add_assoc. done.
      * eapply progress_only_trans; [apply progress_only_update|exact Hp].
    + match goal with |- context [receive_loop _ _ _ _ _ ?t ?l ?b ?w'] =>
        destruct (IH t l b w') as (s' & Hs & Hp); [done|lia|simpl; lia|] end.
      cbn [app log clock] in *. exists s'. split; [|done].
      rewrite Hs. rewrite <- app_assoc, <- Z.add_assoc. done.
Qed.

(** *** The handler *)

Definition download_path (w : World) (h : FileDataHeader.t) : string :=
  DOWNLOAD_DIRECTORY (app w) +:+ "/" +:+ FileDataHeader.FileName h.

(** The events of a file. *)
Definition on_file (p : string) (e : Event) : Prop :=
  match e with EvFileCreate q | EvFileWrite q _ => q = p | _ => False end.

Lemma copyFromContainer_run source name w :
  ∃ e copied k, copyFromContainer source name w = Done e (mkWorld (app w) (log w ++ copied) k) ∧
    Forall (on_file (Join_rooted "/downloads" name)) copied.
Proof.
  unfold copyFromContainer, mbind, GoM_bind, go_bind, tick, emit, go_modify. simpl.
  destruct (OpenFile _ _); [|eexists _, [], _; by rewrite app_nil_r].
  destruct (CreateFile _ _); [eexists _, [], _; by rewrite app_nil_r|]. simpl.
  destruct (WriteFile _ _ _).
  - by eexists _, [_], _; split; [|repeat constructor].
  - eexists _, [_; _], _. simpl. rewrite <- app_assoc. by split; [|repeat constructor].
Qed.

(** What a completed download leaves behind: the file was created, written
    with [chunks] in order and then possibly copied to the host's download
    directory; the history entry carries the
    header, the number of bytes and progress 1; the first request with the
    ID is complete; nothing else changed but the clock. *)
Record downloaded (h : FileDataHeader.t) (chunks : list bytes) (w w' : World) : Prop := {
  dl_log : ∃ copied, Forall (on_file (Join_rooted "/downloads" (FileDataHeader.FileName h))) copied ∧
    log w' = log w ++ EvFileCreate (download_path w h) ::
             map (EvFileWrite (download_path w h)) chunks ++ copied;
  dl_entry : ∃ f, downloadHistory (app w') !! FileDataHeader.RequestID h = Some f ∧
                  FileTransaction.FileMetaData f = h ∧
                  FileTransaction.FileHash f = FileDataHeader.FileHash h ∧
                  FileTransaction.BytesDownloaded f = Z.of_nat (length (concat chunks)) ∧
                  FileTransaction.DownloadProgress f = f32_of_Z 1;
  dl_others : ∀ k, k ≠ FileDataHeader.RequestID h →
                   downloadHistory (app w') !! k = downloadHistory (app w) !! k;
  dl_requests : fileRequests (app w') =
                mark_complete (FileDataHeader.RequestID h) (fileRequests (app w));
  dl_files : fileHashToPath (app w') = fileHashToPath (app w) ∧
             isFileHashProvided (app w') = isFileHashProvided (app w) ∧
             metadataResponse (app w') = metadataResponse (app w) ∧
             providedFiles (app w') = providedFiles (app w)
}.

Lemma receiveFileData_spec h lost rest reads w :
  decode_header [] reads = Some (h, lost, rest) →
  FileDataHeader.FileHash h ≠ "FILE NOT CURRENTLY PROVIDED" →
  (∀ n p, CreateFile n p = None) →
  Forall (λ r, rx_write_err r = None) rest →
  (Z.of_nat (length (payload rest)) < 2 ^ 63)%Z →
  ∃ w', receiveFileData reads None w = Done () w' ∧
        downloaded h (map rx_data rest) w w'.
Proof.
  intros Hd Hh Hc Hw Hb. unfold receiveFileData. rewrite Hd, decide_False by done.
  unfold mbind, GoM_bind, go_bind, tick, update, read, emit, go_modify.
  cbn [app log clock]. rewrite Hc. cbn [app log clock].
  match goal with |- context [receive_loop ?p ?r ?sz ?rs ?f ?t ?l ?b ?w'] =>
    destruct (receive_loop_spec p r sz rs t l b w') as (s' & Hs & [E O P]); [done..|] end.
  cbn [app log clock] in *. rewrite Hs. cbn [app log clock].
  match goal with |- context [copyFromContainer ?p ?n ?w0] =>
    destruct (copyFromContainer_run p n w0) as (e & copied & c & Hcp & Hon) end.
  cbn [app log clock] in *. rewrite Hcp. eexists; split; [done|].
  destruct (P _ (lookup_insert_eq _ _ _)) as (f & Hf & _ & Hfh & Hfm).
  split; cbn [app log].
  - exists copied. split; [done|]. rewrite <- !app_assoc. simpl. by rewrite map_map.
  - unfold finish_download. simpl. rewrite lookup_insert_eq, Hf. eexists; split; [done|].
    simpl. repeat split; try done.
  - intros k Hk. unfold finish_download. simpl. rewrite lookup_insert_ne by done.
    rewrite O by done. simpl. by rewrite lookup_insert_ne.
  - unfold finish_download. simpl. by rewrite E.
  - unfold finish_download. simpl. by rewrite E.
Qed.

(** Integrity of a received file.  When the stream carries the header
    of a file and then its content, however the network cuts the stream
    into reads, what the handler writes is the content without the bytes
    that arrived in the same read as the end of the header; when the header
    arrives in reads of its own, the whole content, with the download
    recorded as complete. *)
Theorem receive_integrity h content reads w :
  payload reads = gob_encode h ++ content → gob_ok h = true →
  FileDataHeader.FileHash h ≠ "FILE NOT CURRENTLY PROVIDED" →
  (∀ n p, CreateFile n p = None) →
  Forall (λ r, rx_write_err r = None) reads →
  (Z.of_nat (length content) < 2 ^ 63)%Z →
  ∃ lost chunks w',
    receiveFileData reads None w = Done () w' ∧
    downloaded h chunks w w' ∧
    lost ++ concat chunks = content ∧
    ((∃ k, payload (take k reads) = gob_encode h) → concat chunks = content).
Proof.
  intros E Hg Hh Hc Hw Hb.
  destruct (decode_header_spec h content [] reads Hg E)
    as (lost & rest & Hd & Hl & [used Hu] & Ha).
  destruct (receiveFileData_spec h lost rest reads w) as (w' & Hr & Hdl); try done.
  - rewrite Hu in Hw. by apply Forall_app in Hw as [_ ?].
  - rewrite <- Hl, length_app in Hb. lia.
  - exists lost, (map rx_data rest), w'. split; [done|]. split; [done|]. split; [done|].
    intros Hk. rewrite <- Hl, (Ha (Nat.le_0_l _) Hk). done.
Qed.

(** The read-ahead of the header decoder loses data: when the whole
    stream arrives in one read, nothing is written to the file, and the
    download is still recorded as complete with progress 1. *)
Theorem receive_coalesced_loses_content h content now w :
  gob_encode h ≠ [] → gob_ok h = true →
  FileDataHeader.FileHash h ≠ "FILE NOT CURRENTLY PROVIDED" →
  (∀ n p, CreateFile n p = None) →
  ∃ w', receiveFileData [mkRx (gob_encode h ++ content) None now] None w = Done () w' ∧
        downloaded h [] w w'.
Proof.
  intros Hne Hg Hh Hc.
  apply (receiveFileData_spec h content []); try done.
  cbn [decode_header]. change (rx_data _) with (gob_encode h ++ content).
  assert (gob_decode [] = None) as ->.
  { apply (gob_decode_short h 0). destruct (gob_encode h); [done|simpl; lia]. }
  simpl. by rewrite gob_decode_encode.
Qed.
End Receive.
