(* ===== verification/FSService.v ===== *)
(** * File share: the RPC service

    fileshare/rpcserver.go, with the DHT, wallet and state-file functions of
    fileshare/utils.go and fileshare/main.go that it calls.  A method returns
    its reply and its Go error.  A wait for another node is an interleaving
    point: [meanwhile] is what the other handlers of the node do to its state
    during the wait. *)

From stdpp Require Import base gmap strings list fin_maps.
From Stdlib Require Import ZArith Ascii SpecFloat.
From S2P Require Import Prelude GoStrings GoFloat FSTypes FSPeer.

Open Scope string_scope.
Open Scope list_scope.
Open Scope nat_scope.

(** Replies; a field the code does not set is at its zero value. *)
Record GetFileReply := mkGetFileReply {
  gf_Success : bool; gf_Message : string; gf_RequestID : string;
  gf_FileHash : string; gf_Txid : string }.
Record GetFileMetaDataReply := mkGetFileMetaDataReply {
  gm_Success : bool; gm_FileMetaData : FileDataHeader.t }.
Record GetProvidersReply := mkGetProvidersReply {
  gp_Success : bool; gp_Providers : list string }.
Record GetHistoryReply := mkGetHistoryReply {
  gh_Success : bool; gh_RequestedFiles : list FileRequest.t;
  gh_DownloadHistory : list FileTransaction.t }.
Record GetNodeInfoReply := mkGetNodeInfoReply {
  gn_Success : bool; gn_PeerID : string; gn_MultiAddr : string; gn_Status : string;
  gn_Providing : list FileDataHeader.t }.
Record GetUpdatesReply := mkGetUpdatesReply {
  gu_Success : bool; gu_PeerID : string; gu_MultiAddr : string; gu_Status : string;
  gu_PrivateIP : bool; gu_Providing : list FileDataHeader.t;
  gu_IsFileProvided : gmap string bool; gu_RequestedFiles : list FileRequest.t;
  gu_Downloads : list FileTransaction.t }.
Record ProvideFileReply := mkProvideFileReply {
  pf_Success : bool; pf_Message : string; pf_FileHash : string }.
Record StopProvidingFileReply := mkStopProvidingFileReply {
  sp_Success : bool; sp_Message : string }.
Record PauseDownloadReply := mkPauseDownloadReply {
  pd_Success : bool; pd_Progress : string }.

Definition comma : ascii := ",".

(** [fmt.Sprintf("%x", b)] *)
Definition hex (b : bytes) : string :=
  of_bytes (concat (map (λ c, [hex_digit (nat_of_ascii c / 16);
                               hex_digit (nat_of_ascii c mod 16)]) b)).

(** [path/filepath.Ext]: the suffix from the last dot of the last element. *)
Fixpoint ext_rev (l acc : bytes) : bytes :=
  match l with
  | [] => []
  | c :: l' => if bool_decide (c = "/"%char) then []
               else if bool_decide (c = "."%char) then c :: acc
               else ext_rev l' (c :: acc)
  end.
Definition Ext (path : string) : string := of_bytes (ext_rev (rev (bytes_of path)) []).

(** The name [os.FileInfo.Name] reports: the last element of the path, for a
    path that does not end in a slash. *)
Fixpoint base_rev (l acc : bytes) : bytes :=
  match l with
  | [] => acc
  | c :: l' => if bool_decide (c = "/"%char) then acc else base_rev l' (c :: acc)
  end.
Definition Base (path : string) : string := of_bytes (base_rev (rev (bytes_of path)) []).

(** A JSON object of strings, as [map[string]string]. *)
Fixpoint string_members (l : list (string * json)) : option (gmap string string) :=
  match l with
  | [] => Some ∅
  | (k, JStr s) :: l' => m ← string_members l'; Some (<[k := default s (m !! k)]> m)
  | (k, JNull) :: l' => m ← string_members l'; Some (<[k := default EmptyString (m !! k)]> m)
  | _ :: _ => None
  end.
Definition string_map_of_json (j : json) : option (gmap string string) :=
  l ← members j; string_members l.
Definition map_str (m : gmap string string) (k : string) : string := default EmptyString (m !! k).

Section Service.
Context `{Libp2p} `{JsonCodec} `{GobCodec} `{Env} `{HttpHost} `{DHT} `{StateCodec} `{MapRange}.

(** ** The wallet service over HTTP: utils.go *)

(** One request: the decoded body, or the error the three callers return. *)
Definition wallet_call (url : string) (payload : bytes) (what : string)
  : GoM World (gmap string string + string) :=
  n ← tick;
  match HttpDo n url payload with
  | inr e => mret (inr e)
  | inl res =>
      if negb (http_status res =? 200)%Z then mret (inr (what +:+ http_Status res))
      else match http_body res with
           | inr e => mret (inr e)
           | inl body =>
               match json_parse body ≫= string_map_of_json with
               | None => mret (inr "invalid JSON")
               | Some m => mret (inl m)
               end
           end
  end.

Definition checkBalance : GoM World (string * error) :=
  r ← wallet_call "http://host.docker.internal:8080/getBalance" [] "failed to get balance: ";
  match r with
  | inr e => mret (EmptyString, Some e)
  | inl m => mret (map_str m "balance", None)
  end.

Definition getMiningAddress : GoM World (string * error) :=
  r ← wallet_call "http://host.docker.internal:8080/getMiningAddress" []
        "failed to get mining address: ";
  match r with
  | inr e => mret (EmptyString, Some e)
  | inl m => mret (map_str m "miningAddress", None)
  end.

(** The payment request carries the amount with two decimals; [EvPay]
    records that it was sent, whatever the answer. *)
Definition sendCoinToAddress (miningAddress : string) (amount : f32)
  : GoM World (string * error) :=
  let amountStr := fmt_2f amount in
  let q := sep1 (chr 34) in
  let nl := sep1 (chr 10) +:+ sep1 (chr 9) +:+ sep1 (chr 9) in
  let payload :=
    "{" +:+ nl +:+ q +:+ "address" +:+ q +:+ ": " +:+ q +:+ miningAddress +:+ q +:+ "," +:+
    nl +:+ q +:+ "amount" +:+ q +:+ ": " +:+ q +:+ amountStr +:+ q +:+
    sep1 (chr 10) +:+ sep1 (chr 9) +:+ "}" in
  emit (EvPay miningAddress amountStr);;
  r ← wallet_call "http://host.docker.internal:8080/sendToAddress" (bytes_of payload)
        "failed to send coin: ";
  match r with
  | inr e => mret (EmptyString, Some e)
  | inl m => mret (map_str m "txid", None)
  end.

(** ** State file: main.go *)

Definition state_file (sbu : string) : string := "state" +:+ sbu +:+ ".json".

(** The file is truncated before the state is encoded. *)
Definition saveState : GoM World error :=
  st ← read id;
  n ← tick;
  match CreateFile n (state_file (SBU_ID st)) with
  | Some e => mret (Some ("error occured while creating state file: " +:+ e))
  | None =>
      emit (EvFileCreate (state_file (SBU_ID st)));;
      match encode_state st with
      | inr e => mret (Some ("error occured while encoding state: " +:+ e))
      | inl d =>
          m ← tick;
          match WriteFile m (state_file (SBU_ID st)) d with
          | Some e => mret (Some ("error occured while encoding state: " +:+ e))
          | None => emit (EvSave (state_file (SBU_ID st)) d);; mret None
          end
      end
  end.

(** [loadState] restores the identity, the metadata received, the download
    history and the requests; the other assignments are commented out. *)
Definition restore (saved st : State) : State :=
  mkState (SBU_ID saved) (DOWNLOAD_DIRECTORY st) (fileHashToPath st)
    (isFileHashProvided st) (downloadStatus st) (lastDownloadStatus st)
    (metadataResponse saved) (downloadHistory saved) (fileRequests saved)
    (providedFiles st).

Definition loadState : GoM World error :=
  st ← read id;
  n ← tick;
  match OpenFile n (state_file (SBU_ID st)) with
  | inr e => mret (Some ("error occured while opening state file: " +:+ e))
  | inl d =>
      match decode_state d with
      | inr e => mret (Some ("error occured while decoding state: " +:+ e))
      | inl saved => update (restore saved);; mret None
      end
  end.

(** The state [main] starts from. *)
Definition initial_state (sbu : string) : State :=
  mkState sbu "downloadstation" ∅ ∅ ∅ 0 ∅ ∅ [] [].

(** [main] up to [createNode], for the SBU ID of the command line. *)
Definition main_init (sbu : string) : GoM World () :=
  update (λ _, initial_state sbu);;
  n ← tick;
  match OpenFile n (state_file sbu) with
  | inr _ => mret ()
  | inl _ => loadState;; mret ()
  end.

(** ** Starting the node: main.go *)

Definition BOOTSTRAP_NODE_MULTIADDR : string :=
  "/ip4/130.245.173.222/tcp/61020/p2p/12D3KooWM8uovScE5NPihSCKhXe8sbgdJAi88i2aXT2MmwjGWoSX".

(** Run [m]; on an error return it with a prefix, else go on. *)
Definition check (prefix : string) (outcome : error) (k : GoM World error) : GoM World error :=
  match outcome with Some e => mret (Some (prefix +:+ e)) | None => k end.
Definition call (f : nat → error) : GoM World error := n ← tick; mret (f n).

Definition createNode : GoM World error :=
  seed ← read SBU_ID;
  k ← call (λ n, GenerateKey n seed);
  check "error occured while generating private key: " k (
  match NewMultiaddr "/ip4/0.0.0.0/tcp/0", NewMultiaddr RELAY_NODE_MULTIADDR with
  | inr e, _ | inl _, inr e => mret (Some e)
  | inl _, inl relayAddress =>
      match AddrInfoFromP2pAddr relayAddress with
      | inr e => mret (Some e)
      | inl _ =>
          h ← call NewHost; check "error occured while creating node: " h (
          r ← call NewRelay; check "error occured while creating relay: " r (
          d ← call NewDHT; check "error occured while creating DHT: " d (
          b ← call Bootstrap; check "error occured while bootstrapping DHT: " b (mret None))))
      end
  end).

Definition connectToNode (targetNodeAddress : string) : GoM World error :=
  match NewMultiaddr targetNodeAddress with
  | inr e => mret (Some ("error occured while creating multi address: " +:+ e))
  | inl addr =>
      match AddrInfoFromP2pAddr addr with
      | inr e => mret (Some ("error occured while creating peer address info: " +:+ e))
      | inl info =>
          emit (EvPeerstore (AddrInfo_ID info));;
          e ← call (λ n, Connect n info);
          check "error occured while connecting to target node: " e (
          emit (EvConnect (AddrInfo_ID info));; mret None)
      end
  end.

Definition makeReservation : GoM World error :=
  match NewMultiaddr RELAY_NODE_MULTIADDR with
  | inr e => mret (Some ("failed to create relay multiaddr: " +:+ e))
  | inl addr =>
      match AddrInfoFromP2pAddr addr with
      | inr e => mret (Some ("failed to create relay address: " +:+ e))
      | inl info =>
          e ← call (λ n, Reserve n info);
          check "failed to make reservation on relay: " e (mret None)
      end
  end.

(** One tick of [refreshReservation]; [log.Fatalf] ends the program. *)
Definition refreshReservation_tick : GoM World () :=
  e ← makeReservation;
  match e with Some _ => go_panic | None => mret () end.

(** [main]: whether the program reaches its handlers and waits there. *)
Definition main (args : list string) : GoM World bool :=
  match args with
  | _ :: sbu :: rest =>
      let bootstrap := match rest with [b] => b | _ => BOOTSTRAP_NODE_MULTIADDR end in
      main_init sbu;;
      e1 ← createNode;
      match e1 with Some _ => mret false | None =>
      e2 ← connectToNode RELAY_NODE_MULTIADDR;
      match e2 with Some _ => mret false | None =>
      e3 ← makeReservation;
      match e3 with Some _ => mret false | None =>
      e4 ← connectToNode bootstrap;
      match e4 with Some _ => mret false | None => mret true end end end end
  | _ => mret false
  end.

(** The handler [handlePeerExhangeWithRelay] installs, on the line it read.
    The id of a message is compared with the bytes of the relay's id, not
    with its text. *)
Fixpoint connect_known (relayID : string) (peers : list string) : GoM World () :=
  match peers with
  | [] => mret ()
  | p :: rest =>
      (if decide (p = relayID) then mret () else connectToNodeUsingRelay p;; mret ());;
      connect_known relayID rest
  end.
Definition handlePeerExhangeWithRelay (line : bytes) : GoM World error :=
  match NewMultiaddr RELAY_NODE_MULTIADDR with
  | inr e => mret (Some ("failed to create relay multiaddr: " +:+ e))
  | inl addr =>
      match AddrInfoFromP2pAddr addr with
      | inr e => mret (Some ("failed to get relay AddrInfo: " +:+ e))
      | inl info =>
          connect_known (AddrInfo_raw info)
            (known_peers (json_parse (bytes_of (TrimSpace (of_bytes line)))));;
          mret None
      end
  end.

(** ** Files and the DHT *)

Definition generateFileHash (filepath : string) : GoM World (string * error) :=
  n ← tick;
  match OpenFile n filepath with
  | inr e => mret (EmptyString, Some e)
  | inl content => mret (hex (Sum256 content), None)
  end.

Definition provideKey (key : string) : GoM World error :=
  match multihash_EncodeName (Sum256 (bytes_of key)) with
  | inr e => mret (Some ("error encoding multihash: " +:+ e))
  | inl c =>
      n ← tick;
      match dht_Provide n c with
      | Some e => mret (Some ("failed to start providing key: " +:+ e))
      | None => emit (EvProvide key);; mret None
      end
  end.

Definition dht_key (fileHash : string) : string := "/orcanet/" +:+ fileHash.

(** The providers without duplicates, in the order of a map iteration. *)
Definition unique_providers (res : string) : list string :=
  map fst (map_range (fold_left (λ m p, <[p := true]> m) (Split res comma) (∅ : gmap string bool))).

(** A failed lookup is reported as the empty provider string. *)
Definition searchFileOnDHT (fileHash : string) : GoM World (string * error) :=
  n ← tick;
  match dht_GetValue n (dht_key fileHash) with
  | inr _ => mret (EmptyString, None)
  | inl res => mret (Join (unique_providers res) (sep1 comma), None)
  end.

Definition provideFileOnDHT (fileHash peerID : string) : GoM World error :=
  r ← searchFileOnDHT fileHash;
  match r with
  | (_, Some e) => mret (Some e)
  | (res, None) =>
      let providersStr := Join (Split res comma ++ [peerID]) (sep1 comma) in
      n ← tick;
      match dht_PutValue n (dht_key fileHash) providersStr with
      | Some e => mret (Some e)
      | None =>
          emit (EvDHTPut (dht_key fileHash) providersStr);;
          provideKey fileHash
      end
  end.

(** ** FileShareService *)

Definition meta_key (fileHash peerID : string) : string := fileHash +:+ peerID.

Definition GetFile (fileHash peerID : string) (meanwhile : State → State)
  : GoM World (GetFileReply * error) :=
  let fail msg := mkGetFileReply false msg EmptyString EmptyString EmptyString in
  b ← checkBalance;
  let balanceFloat32 := float32 (ParseFloat b.1).1 in
  meta ← read metadataResponse;
  match meta !! meta_key fileHash peerID with
  | None =>
      mret (fail "File price metadata does not exist. Request file metadata first",
            Some "file price metadata does not exist. Request file metadata first")
  | Some fileMetaData =>
      if f_lt balanceFloat32 (FileDataHeader.Price fileMetaData) then
        mret (fail "Insufficient balance to download file", None)
      else
        n ← tick;
        let requestID := UUID n in
        addr ← Addrs0;
        m ← tick;
        update (set_fileRequests (λ l, l ++
          [FileRequest.mk requestID fileHash node_ID addr (Now m) false]));;
        e ← connectAndRequestFileFromPeer fileHash requestID peerID;
        match e with
        | Some err => mret (fail "Failed to get file. No response from peer", Some err)
        | None =>
            update meanwhile;;
            meta' ← read metadataResponse;
            let price := FileDataHeader.Price
              (default FileDataHeader.zero (meta' !! meta_key fileHash peerID)) in
            tx ← sendCoinToAddress (FileDataHeader.MiningAddress fileMetaData) price;
            saveState;;
            mret (mkGetFileReply true "File dowloaded successfully" requestID fileHash tx.1,
                  None)
        end
  end.

(** The channel that fires first: the ten-second timeout or the two-second
    ticker. *)
Inductive Select := OnTimeout | OnTick.

Definition GetFileMetaData (fileHash peerID : string) (meanwhile : State → State)
  (sel : Select) : GoM World (GetFileMetaDataReply * error) :=
  let fail := mkGetFileMetaDataReply false FileDataHeader.zero in
  e ← connectAndRequestFileMetaDataFromPeer fileHash peerID;
  match e with
  | Some err => mret (fail, Some err)
  | None =>
      update meanwhile;;
      match sel with
      | OnTimeout =>
          saveState;;
          mret (fail, Some "timeout while waiting for file meta data")
      | OnTick =>
          meta ← read metadataResponse;
          match meta !! meta_key fileHash peerID with
          | None => mret (fail, e)
          | Some metaData =>
              saveState;; mret (mkGetFileMetaDataReply true metaData, None)
          end
      end
  end.

Definition GetProviders (fileHash : string) : GoM World (GetProvidersReply * error) :=
  r ← searchFileOnDHT fileHash;
  match r with
  | (_, Some e) => mret (mkGetProvidersReply false [], Some e)
  | (res, None) =>
      saveState;; mret (mkGetProvidersReply true (Split res comma), None)
  end.

Definition GetHistory : GoM World (GetHistoryReply * error) :=
  hist ← read downloadHistory;
  reqs ← read fileRequests;
  saveState;;
  mret (mkGetHistoryReply true reqs (map snd (map_range hist)), None).

Definition GetNodeInfo : GoM World (GetNodeInfoReply * error) :=
  addr0 ← Addrs0;
  saveState;;
  mret (mkGetNodeInfoReply true node_ID addr0 "Online" [], None).

(** One transaction of the update list. *)
Definition update_transaction (x : FileTransaction.t) : FileTransaction.t :=
  let remaining := int64 (FileDataHeader.FileSize (FileTransaction.FileMetaData x)
                          - FileTransaction.BytesDownloaded x) in
  let rate := int64 (int64 (int64_of_float (FileTransaction.DownloadSpeed x) * 1024) * 1024) in
  let x1 :=
    if (0 <? rate)%Z && f_lt (FileTransaction.DownloadProgress x) (f32_of_Z 1)
       && (0 <? remaining)%Z
    then FileTransaction.set_RemainingTime
           (Duration_String (int64 (Z.quot remaining rate * Second))) x
    else x in
  let x2 :=
    if (remaining <? 0)%Z
    then FileTransaction.set_RemainingTime "Finishing Download..."
           (FileTransaction.set_DownloadSpeed (f32_of_Z 0) x1)
    else x1 in
  if f_ge (FileTransaction.DownloadProgress x2) (f32_of_Z 1)
  then FileTransaction.set_RemainingTime "Download Completed" x2 else x2.

Definition private_prefix (addr : string) : bool :=
  HasPrefix addr "172.16." || HasPrefix addr "10." || HasPrefix addr "192.168.".

Definition GetUpdates : GoM World (GetUpdatesReply * error) :=
  hist ← read downloadHistory;
  let downloads := map (λ kv, update_transaction kv.2) (map_range hist) in
  addr0 ← Addrs0;
  st ← read id;
  saveState;;
  mret (mkGetUpdatesReply true node_ID addr0
          (if 0 <? dht_RoutingTable_Size then "Online" else "Offline")
          (existsb private_prefix node_Addrs)
          (providedFiles st) (isFileHashProvided st) (fileRequests st) downloads,
        None).

Definition ProvideFile (filepath : string) (price : f64)
  : GoM World (ProvideFileReply * error) :=
  let fail msg := mkProvideFileReply false msg EmptyString in
  h ← generateFileHash filepath;
  match h with
  | (_, Some e) => mret (fail "Failed to generate file hash", Some e)
  | (fileHash, None) =>
      e ← provideFileOnDHT fileHash node_ID;
      match e with
      | Some err => mret (fail "Failed to provide file", Some err)
      | None =>
          update (λ s, set_isFileHashProvided <[fileHash := true]>
                         (set_fileHashToPath <[fileHash := filepath]> s));;
          n ← tick;
          match OpenFile n filepath with
          | inr err => mret (fail EmptyString, Some ("sendFileToPeer: " +:+ err))
          | inl content =>
              a ← getMiningAddress;
              addr ← Addrs0;
              update (set_providedFiles (λ l, l ++
                [FileDataHeader.mk (Base filepath) (Z.of_nat (length content)) fileHash
                   (Ext filepath) addr node_ID (float32 price) a.1 EmptyString false]));;
              saveState;;
              mret (mkProvideFileReply true "File is now available on OrcaNet" fileHash, None)
          end
      end
  end.

(** [StopProvidingFile] and [ResumeProvidingFile]. *)
Definition set_providing (b : bool) (msg fileHash : string)
  : GoM World (StopProvidingFileReply * error) :=
  flags ← read isFileHashProvided;
  match flags !! fileHash with
  | None =>
      mret (mkStopProvidingFileReply false
              "File hash not provided by node. Check file hash.", None)
  | Some _ =>
      update (set_isFileHashProvided <[fileHash := b]>);;
      saveState;;
      mret (mkStopProvidingFileReply true msg, None)
  end.
Definition StopProvidingFile : string → GoM World (StopProvidingFileReply * error) :=
  set_providing false "File is no longer available on OrcaNet".
Definition ResumeProvidingFile : string → GoM World (StopProvidingFileReply * error) :=
  set_providing true "File is now available on OrcaNet".

Definition PauseDownload (requestID : string) : GoM World (PauseDownloadReply * error) :=
  e ← connectAndPauseRequestFromPeer requestID false;
  match e with
  | Some _ => mret (mkPauseDownloadReply false EmptyString, e)
  | None => saveState;; mret (mkPauseDownloadReply true EmptyString, None)
  end.

Definition ResumeDownload (requestID : string) : GoM World (PauseDownloadReply * error) :=
  e ← connectAndPauseRequestFromPeer requestID true;
  match e with
  | Some _ => mret (mkPauseDownloadReply false EmptyString, e)
  | None => saveState;; mret (mkPauseDownloadReply true EmptyString, None)
  end.

(** ** Commands typed at the terminal: [handleInput]

    The upper-case form of a command word.  Apart from the ASCII letters,
    only two letters (dotless i, long s) have an ASCII capital; the other
    bytes do not matter, since no command contains them. *)
Fixpoint to_upper (l : bytes) : bytes :=
  match l with
  | [] => []
  | c :: l' =>
      let n := nat_of_ascii c in
      match l' with
      | d :: l'' =>
          if (n =? 196) && (nat_of_ascii d =? 177) then "I"%char :: to_upper l''
          else if (n =? 197) && (nat_of_ascii d =? 191) then "S"%char :: to_upper l''
          else (if (97 <=? n) && (n <=? 122) then ascii_of_nat (n - 32) else c) :: to_upper l'
      | [] => [if (97 <=? n) && (n <=? 122) then ascii_of_nat (n - 32) else c]
      end
  end.

(** One line of input.  The commands that only print have no effect. *)
Definition handleInput_line (line : string) : GoM World () :=
  match Split (TrimSpace line) " "%char with
  | [] => mret ()
  | word :: args =>
      let command := of_bytes (to_upper (bytes_of word)) in
      if decide (command = "PUT") then
        match args with
        | key :: value :: _ =>
            n ← tick;
            match dht_PutValue n (dht_key key) value with
            | Some _ => mret ()
            | None => emit (EvDHTPut (dht_key key) value);; provideKey key;; mret ()
            end
        | _ => mret ()
        end
      else if decide (command = "PUT_PROVIDER") then
        match args with key :: _ => provideKey key;; mret () | [] => mret () end
      else if decide (command = "PROVIDE_FILE") then
        match args with
        | filepath :: _ =>
            n ← tick;
            let content := match OpenFile n filepath with inl c => c | inr _ => [] end in
            let fileHash := hex (Sum256 content) in
            m ← tick;
            (match dht_PutValue m (dht_key fileHash) node_ID with
             | Some _ => mret ()
             | None => emit (EvDHTPut (dht_key fileHash) node_ID)
             end);;
            provideKey fileHash;;
            update (set_fileHashToPath <[fileHash := filepath]>)
        | [] => mret ()
        end
      else if decide (command = "GET_FILE") then
        match args with
        | fileHash :: _ =>
            n ← tick;
            let res := match dht_GetValue n (dht_key fileHash) with
                       | inl r => r | inr _ => EmptyString end in
            connectToNodeUsingRelay res;;
            m ← tick;
            sendFileRequestToPeer res fileHash (UUID m);;
            mret ()
        | [] => mret ()
        end
      else mret ()   (* GET, GET_PROVIDERS, *_META and unknown words print only *)
  end.
End Service.
