(* ===== verification/FSServiceFacts.v ===== *)
(** * File share: reasoning about runs

    [emits P m]: whatever the world, the run of [m] appends to the log only
    events that satisfy [P]; [keeps m]: the run leaves the variables alone.
    Both are closed under the monad, and the database [orca] proves them for
    the message senders. *)

From stdpp Require Import base gmap strings list fin_maps.
From Stdlib Require Import ZArith Ascii Lia SpecFloat.
From S2P Require Import Prelude GoStrings GoFloat FSTypes FSPeer FSTransfer FSService.

Open Scope string_scope.
Open Scope list_scope.
Open Scope nat_scope.

Definition emits {A} (P : Event → Prop) (m : GoM World A) : Prop :=
  ∀ w, ∃ evs, log (final (m w)) = log w ++ evs ∧ Forall P evs.
Definition keeps {A} (m : GoM World A) : Prop := ∀ w, app (final (m w)) = app w.

(** [preserves I m]: the run keeps the invariant [I] of the variables. *)
Definition preserves {A} (I : State → Prop) (m : GoM World A) : Prop :=
  ∀ w, I (app w) → I (app (final (m w))).

Section Rules.
Context (P : Event → Prop) (I : State → Prop).

Lemma emits_ret {A} (a : A) : emits P (mret a).
Proof. intros w. exists []. by rewrite app_nil_r. Qed.
Lemma emits_panic {A} : emits P (@go_panic World A).
Proof. intros w. exists []. by rewrite app_nil_r. Qed.
Lemma emits_read {A} (f : State → A) : emits P (read f).
Proof. intros w. exists []. by rewrite app_nil_r. Qed.
Lemma emits_tick : emits P tick.
Proof. intros w. exists []. by rewrite app_nil_r. Qed.
Lemma emits_update f : emits P (update f).
Proof. intros w. exists []. by rewrite app_nil_r. Qed.
Lemma emits_emit e : P e → emits P (emit e).
Proof. intros He w. exists [e]. by repeat constructor. Qed.
Lemma emits_bind {A B} (m : GoM World A) (f : A → GoM World B) :
  emits P m → (∀ a, emits P (f a)) → emits P (m ≫= f).
Proof.
  intros Hm Hf w. destruct (Hm w) as (e1 & H1 & F1).
  unfold mbind, GoM_bind, go_bind. destruct (m w) as [a w'|w']; simpl in *; [|eauto].
  destruct (Hf a w') as (e2 & H2 & F2). exists (e1 ++ e2).
  rewrite H2, H1, app_assoc. split; [done|]. by apply Forall_app.
Qed.

Lemma keeps_ret {A} (a : A) : keeps (mret a).
Proof. done. Qed.
Lemma keeps_panic {A} : keeps (@go_panic World A).
Proof. done. Qed.
Lemma keeps_read {A} (f : State → A) : keeps (read f).
Proof. done. Qed.
Lemma keeps_tick : keeps tick.
Proof. done. Qed.
Lemma keeps_emit e : keeps (emit e).
Proof. done. Qed.
Lemma keeps_bind {A B} (m : GoM World A) (f : A → GoM World B) :
  keeps m → (∀ a, keeps (f a)) → keeps (m ≫= f).
Proof.
  intros Hm Hf w. specialize (Hm w). unfold mbind, GoM_bind, go_bind.
  destruct (m w) as [a w'|w']; simpl in *; [|done]. by rewrite Hf.
Qed.

Lemma preserves_keeps {A} (m : GoM World A) : keeps m → preserves I m.
Proof. intros Hm w. by rewrite Hm. Qed.
Lemma preserves_update f : (∀ s, I s → I (f s)) → preserves I (update f).
Proof. intros Hf w. apply Hf. Qed.
Lemma preserves_bind {A B} (m : GoM World A) (f : A → GoM World B) :
  preserves I m → (∀ a, preserves I (f a)) → preserves I (m ≫= f).
Proof.
  intros Hm Hf w Hw. specialize (Hm w Hw). unfold mbind, GoM_bind, go_bind.
  destruct (m w) as [a w'|w']; simpl in *; [|done]. by apply Hf.
Qed.

(** A value read is the value of the variables the continuation starts in. *)
Lemma preserves_read {A B} (g : State → A) (f : A → GoM World B) :
  (∀ w, I (app w) → I (app (final (f (g (app w)) w)))) → preserves I (read g ≫= f).
Proof. intros Hf w Hw. apply Hf, Hw. Qed.
End Rules.

Lemma emits_weaken {A} (P Q : Event → Prop) (m : GoM World A) :
  (∀ e, P e → Q e) → emits P m → emits Q m.
Proof. intros HPQ Hm w. destruct (Hm w) as (l & ? & ?). eauto using Forall_impl. Qed.

Lemma emits_all {A} (m : GoM World A) (P : Event → Prop) w e :
  emits P m → e ∈ log (final (m w)) → e ∈ log w ∨ P e.
Proof.
  intros Hm He. destruct (Hm w) as (l & Hl & Hf). rewrite Hl in He.
  apply elem_of_app in He as [?|He]; [by left|right].
  rewrite Forall_forall in Hf. by apply Hf.
Qed.

#[export] Hint Resolve emits_ret emits_panic emits_read emits_tick emits_update
  emits_bind keeps_ret keeps_panic keeps_read keeps_tick keeps_emit keeps_bind : orca.

(** Split a run into its branches and close each with the database. *)
Ltac run_split :=
  repeat first
    [ progress intros
    | match goal with
      | |- emits _ (_ ≫= _) => apply emits_bind
      | |- keeps (_ ≫= _) => apply keeps_bind
      | |- preserves _ (_ ≫= _) => apply preserves_bind
      | |- emits _ (emit _) => apply emits_emit
      | |- context [match ?x with _ => _ end] => destruct x
      end ];
  eauto with orca.

(** ** Executing the primitive steps *)

Section Exec.
Context {A B : Type}.
Lemma bind_tick (f : nat → GoM World B) w :
  (tick ≫= f) w = f (clock w) (mkWorld (app w) (log w) (S (clock w))).
Proof. done. Qed.
Lemma bind_read (g : State → A) (f : A → GoM World B) w : (read g ≫= f) w = f (g (app w)) w.
Proof. done. Qed.
Lemma bind_update g (f : () → GoM World B) w :
  (update g ≫= f) w = f () (mkWorld (g (app w)) (log w) (clock w)).
Proof. done. Qed.
Lemma bind_emit e (f : () → GoM World B) w :
  (emit e ≫= f) w = f () (mkWorld (app w) (log w ++ [e]) (clock w)).
Proof. done. Qed.
Lemma bind_ret (a : A) (f : A → GoM World B) w : (mret a ≫= f) w = f a w.
Proof. done. Qed.
End Exec.

(** Run the primitive steps at the head of a computation, in the goal or in a
    hypothesis. *)
Ltac run_steps :=
  repeat first [rewrite bind_tick | rewrite bind_read | rewrite bind_update
               | rewrite bind_emit | rewrite bind_ret]; cbn [app log clock].
Ltac run_steps_in H :=
  repeat first [rewrite bind_tick in H | rewrite bind_read in H | rewrite bind_update in H
               | rewrite bind_emit in H | rewrite bind_ret in H]; cbn [app log clock] in H.

(** ** Classes of events *)

Definition is_pay (e : Event) : Prop := match e with EvPay _ _ => True | _ => False end.
Definition is_message (e : Event) : Prop :=
  match e with EvConnect _ | EvStream _ _ _ => True | _ => False end.
Definition is_save (e : Event) : Prop :=
  match e with EvSave _ _ | EvFileCreate _ => True | _ => False end.

Section Runs.
Context `{Libp2p} `{JsonCodec} `{GobCodec} `{Env} `{HttpHost} `{DHT} `{StateCodec} `{MapRange}.

Lemma Addrs0_emits P : emits P Addrs0.
Proof. unfold Addrs0. run_split. Qed.
Lemma Addrs0_keeps : keeps Addrs0.
Proof. unfold Addrs0. run_split. Qed.
Lemma connectToNodeUsingRelay_emits p : emits is_message (connectToNodeUsingRelay p).
Proof. unfold connectToNodeUsingRelay. run_split; done. Qed.
Lemma createStream_emits P t p : emits P (createStream t p).
Proof. unfold createStream. run_split. Qed.
Lemma createStream_keeps t p : keeps (createStream t p).
Proof. unfold createStream. run_split. Qed.
Lemma connectToNodeUsingRelay_keeps p : keeps (connectToNodeUsingRelay p).
Proof. unfold connectToNodeUsingRelay. run_split. Qed.

(** A message sender writes on its own protocol only. *)
Definition on_protocol (p : string) (e : Event) : Prop :=
  match e with EvStream q _ _ => q = p | _ => False end.

Lemma sendJSON_emits fn t p body :
  (∀ P, emits P body) → emits (on_protocol p) (sendJSON fn t p body).
Proof.
  intros Hb. unfold sendJSON. apply emits_bind; [apply createStream_emits|].
  intros [peer|e]; run_split; done.
Qed.
Lemma sendJSON_keeps fn t p body : keeps body → keeps (sendJSON fn t p body).
Proof.
  intros Hb. unfold sendJSON. apply keeps_bind; [apply createStream_keeps|].
  intros [peer|e]; run_split; done.
Qed.
Lemma on_protocol_message p e : on_protocol p e → is_message e.
Proof. by destruct e. Qed.

Lemma wallet_call_emits P u b s : emits P (wallet_call u b s).
Proof. unfold wallet_call. run_split. Qed.
Lemma wallet_call_keeps u b s : keeps (wallet_call u b s).
Proof. unfold wallet_call. run_split. Qed.
Lemma checkBalance_emits P : emits P checkBalance.
Proof. unfold checkBalance. apply emits_bind; [apply wallet_call_emits|]. run_split. Qed.
Lemma checkBalance_keeps : keeps checkBalance.
Proof. unfold checkBalance. apply keeps_bind; [apply wallet_call_keeps|]. run_split. Qed.
Lemma getMiningAddress_keeps : keeps getMiningAddress.
Proof. unfold getMiningAddress. apply keeps_bind; [apply wallet_call_keeps|]. run_split. Qed.
Lemma saveState_emits : emits is_save saveState.
Proof. unfold saveState. run_split; done. Qed.
Lemma saveState_keeps : keeps saveState.
Proof. unfold saveState. run_split. Qed.
Lemma sendCoinToAddress_keeps a x : keeps (sendCoinToAddress a x).
Proof.
  unfold sendCoinToAddress. apply keeps_bind; [apply keeps_emit|intros _].
  apply keeps_bind; [apply wallet_call_keeps|]. run_split.
Qed.
Lemma provideKey_keeps k : keeps (provideKey k).
Proof. unfold provideKey. run_split. Qed.
Lemma searchFileOnDHT_keeps h : keeps (searchFileOnDHT h).
Proof. unfold searchFileOnDHT. run_split. Qed.
End Runs.

#[export] Hint Resolve Addrs0_emits Addrs0_keeps connectToNodeUsingRelay_emits createStream_emits createStream_keeps
  connectToNodeUsingRelay_keeps wallet_call_emits wallet_call_keeps checkBalance_emits
  checkBalance_keeps getMiningAddress_keeps saveState_emits saveState_keeps
  sendCoinToAddress_keeps provideKey_keeps searchFileOnDHT_keeps sendJSON_keeps : orca.

(** ** File share: payments, provider records and the state file

    What the RPC methods do on every branch. *)

Open Scope string_scope.
Open Scope list_scope.
Open Scope nat_scope.

Ltac run_inv :=
  repeat match goal with
  | H : (_ ≫= _) _ = Done _ _ |- _ => apply go_bind_inv in H as (? & ? & ? & ?)
  | H : mret _ _ = Done _ _ |- _ =>
      unfold mret, GoM_ret, go_ret, sender_error in H; simplify_eq
  | H : go_panic _ = Done _ _ |- _ => discriminate H
  | H : tick _ = Done _ _ |- _ => unfold tick in H; simplify_eq
  | H : emit _ _ = Done _ _ |- _ => unfold emit, go_modify in H; simplify_eq
  | H : read _ _ = Done _ _ |- _ => unfold read in H; simplify_eq
  | H : update _ _ = Done _ _ |- _ => unfold update, go_modify in H; simplify_eq
  end.

Section Requests.
Context `{Libp2p} `{JsonCodec} `{GobCodec} `{Env} `{HttpHost} `{DHT} `{StateCodec} `{MapRange}.

(** A run that emits nothing leaves the log alone. *)
Lemma emits_nothing {A} (m : GoM World A) w :
  (∀ P, emits P m) → log (final (m w)) = log w.
Proof.
  intros Hm. destruct (Hm (λ _, False) w) as (evs & -> & Hf).
  destruct evs; [by rewrite app_nil_r|by inversion Hf].
Qed.

(** A sender that reports no error wrote its message, and that only. *)
Lemma sendJSON_ok fn t p body w w' :
  (∀ P, emits P body) →
  sendJSON fn t p body w = Done None w' →
  ∃ peer j w1 w2, body w1 = Done j w2 ∧ log w' = log w ++ [EvStream p peer (json_text j)].
Proof.
  intros Hb. unfold sendJSON. intros (s & w1 & Hc & Hs)%go_bind_inv.
  pose proof (emits_nothing (createStream t p) w (λ P, createStream_emits P t p)) as Hl.
  rewrite Hc in Hl. simpl in Hl. destruct s as [peer|e]; [|by run_inv].
  apply go_bind_inv in Hs as (j & w2 & Hj & Hs).
  pose proof (emits_nothing body w1 Hb) as Hl2. rewrite Hj in Hl2. simpl in Hl2. run_inv.
  destruct (StreamWrite _ _ _); run_inv. exists peer, j, w1, w2. split; [done|].
  simpl. by rewrite Hl2, Hl.
Qed.

Lemma sendFileRequestToPeer_ok t hash rid w w' :
  sendFileRequestToPeer t hash rid w = Done None w' →
  ∃ peer r, FileRequest.FileHash r = hash ∧ FileRequest.RequestID r = rid ∧
    log w' = log w ++ [EvStream "/sendmessage/p2p" peer (json_text (json_of_FileRequest r))].
Proof.
  intros Hs. apply sendJSON_ok in Hs as (peer & j & w1 & w2 & Hb & Hl); [|intros; run_split].
  run_inv. exists peer. eexists. split; [|split; [|exact Hl]]; done.
Qed.

Lemma connectAndRequestFileFromPeer_emits h r p :
  emits is_message (connectAndRequestFileFromPeer h r p).
Proof.
  unfold connectAndRequestFileFromPeer. apply emits_bind; [apply connectToNodeUsingRelay_emits|].
  intros [e|]; [apply emits_ret|].
  eapply emits_weaken; [apply on_protocol_message|]. apply sendJSON_emits. intros. run_split.
Qed.

Lemma connectAndRequestFileFromPeer_keeps h r p :
  keeps (connectAndRequestFileFromPeer h r p).
Proof.
  unfold connectAndRequestFileFromPeer, sendFileRequestToPeer.
  apply keeps_bind; [apply connectToNodeUsingRelay_keeps|].
  intros [e|]; [apply keeps_ret|]. apply sendJSON_keeps. run_split.
Qed.

Lemma connectAndRequestFileFromPeer_ok hash rid p w w' :
  connectAndRequestFileFromPeer hash rid p w = Done None w' →
  ∃ evs peer r, FileRequest.FileHash r = hash ∧ FileRequest.RequestID r = rid ∧
    log w' = log w ++ evs ++ [EvStream "/sendmessage/p2p" peer (json_text (json_of_FileRequest r))].
Proof.
  unfold connectAndRequestFileFromPeer. intros (e & w1 & Hc & Hs)%go_bind_inv.
  destruct (connectToNodeUsingRelay_emits p w) as (evs & Hl & _). rewrite Hc in Hl.
  destruct e; [by run_inv|].
  apply sendFileRequestToPeer_ok in Hs as (peer & r & Hr & Hid & Hl').
  exists evs, peer, r. rewrite Hl', app_assoc. by simpl in Hl; rewrite Hl.
Qed.
End Requests.

(** ** Payments *)

Section Payment.
Context `{Libp2p} `{JsonCodec} `{GobCodec} `{Env} `{HttpHost} `{DHT} `{StateCodec} `{MapRange}.

(** A call to the wallet service always returns. *)
Lemma wallet_call_run u b s w :
  ∃ r, wallet_call u b s w = Done r (mkWorld (app w) (log w) (S (clock w))).
Proof.
  unfold wallet_call. run_steps.
  destruct (HttpDo _ _ _) as [res|e]; [|by eexists].
  destruct (negb _); [by eexists|]. destruct (http_body res) as [body|e]; [|by eexists].
  destruct (json_parse body ≫= string_map_of_json); by eexists.
Qed.

Lemma sendCoinToAddress_run a x w :
  ∃ r w', sendCoinToAddress a x w = Done r w' ∧ log w' = log w ++ [EvPay a (fmt_2f x)] ∧
          app w' = app w.
Proof.
  unfold sendCoinToAddress. run_steps.
  match goal with |- context [(wallet_call ?u ?b ?s ≫= _) ?w0] =>
    destruct (wallet_call_run u b s w0) as [r Hr] end.
  setoid_rewrite (bind_done _ _ _ _ _ Hr). destruct r; by eexists _, _.
Qed.

Lemma saveState_run w : ∃ e w', saveState w = Done e w' ∧ app w' = app w.
Proof.
  unfold saveState. run_steps.
  destruct (CreateFile _ _); [by eexists _, _|]. run_steps.
  destruct (encode_state _); [|by eexists _, _]. run_steps.
  destruct (WriteFile _ _ _); by eexists _, _.
Qed.

(** The balance the node compares with the price: 0 when the wallet cannot
    be asked or its answer does not parse. *)
Definition balance_seen (w : World) : f32 :=
  match checkBalance w with
  | Done b _ => float32 (ParseFloat b.1).1
  | Panic _ => S754_zero false
  end.

Lemma checkBalance_run w :
  ∃ b w', checkBalance w = Done b w' ∧ app w' = app w ∧ log w' = log w.
Proof.
  unfold checkBalance.
  match goal with |- context [(wallet_call ?u ?b ?s ≫= _) ?w0] =>
    destruct (wallet_call_run u b s w0) as [r Hr] end.
  setoid_rewrite (bind_done _ _ _ _ _ Hr). destruct r; by eexists _, _.
Qed.


Definition request_of (rid hash addr : string) (ts : Time) : FileRequest.t :=
  FileRequest.mk rid hash node_ID addr ts false.

(** The reply of [GetFile] and the state it leaves on every branch:
    unknown price, price above the balance, provider not reached (the
    request stays recorded), and success, which does not depend on the
    outcome of the payment. *)
Theorem GetFile_branches hash peer mw w reply e w' :
  GetFile hash peer mw w = Done (reply, e) w' →
  match metadataResponse (app w) !! meta_key hash peer with
  | None => gf_Success reply = false ∧ is_Some e ∧ app w' = app w
  | Some md =>
      if f_lt (balance_seen w) (FileDataHeader.Price md)
      then gf_Success reply = false ∧
           gf_Message reply = "Insufficient balance to download file" ∧
           e = None ∧ app w' = app w
      else ∃ rid addr ts, head node_Addrs = Some addr ∧
        let s := set_fileRequests (λ l, l ++ [request_of rid hash addr ts]) (app w) in
        match e with
        | Some _ => gf_Success reply = false ∧ app w' = s
        | None => gf_Success reply = true ∧ gf_RequestID reply = rid ∧
                  gf_FileHash reply = hash ∧ app w' = mw s
        end
  end.
Proof.
  unfold GetFile, balance_seen. intros Hrun.
  destruct (checkBalance_run w) as (b & w1 & Hb & Ha & Hl). rewrite Hb.
  rewrite (bind_done _ _ _ _ _ Hb) in Hrun.
  rewrite bind_read, Ha in Hrun.
  destruct (metadataResponse (app w) !! meta_key hash peer) as [md|];
    [|run_inv; rewrite Ha; by eauto].
  destruct (f_lt _ _); [run_inv; rewrite Ha; by eauto|].
  run_steps_in Hrun. unfold Addrs0 in Hrun. destruct node_Addrs as [|addr addrs]; [done|].
  run_steps_in Hrun.
  apply go_bind_inv in Hrun as (ec & w2 & Econn & Hrun).
  pose proof (connectAndRequestFileFromPeer_keeps hash (UUID (clock w1)) peer) as Hkeep.
  match type of Econn with _ ?w0 = _ => specialize (Hkeep w0) end.
  rewrite Econn in Hkeep. cbn [final app] in Hkeep. rewrite Ha in Hkeep.
  eexists _, addr, _. split; [done|]. destruct ec as [err|]; [run_inv; split; [done|exact Hkeep]|].
  run_steps_in Hrun.
  apply go_bind_inv in Hrun as (tx & w3 & Hpay & Hrun).
  apply go_bind_inv in Hrun as (es & w4 & Hsave & Hrun). run_inv.
  pose proof (sendCoinToAddress_keeps (FileDataHeader.MiningAddress md)
    (FileDataHeader.Price (default FileDataHeader.zero
       (metadataResponse (mw (app w2)) !! meta_key hash peer)))
    (mkWorld (mw (app w2)) (log w2) (clock w2))) as Hk3.
  rewrite Hpay in Hk3. pose proof (saveState_keeps w3) as Hk4. rewrite Hsave in Hk4.
  cbn [final app] in Hk3, Hk4. repeat split. rewrite Hk4, Hk3, Hkeep. reflexivity.
Qed.
End Payment.

(** ** Provider records on the DHT *)

Section Providers.
Context `{Libp2p} `{JsonCodec} `{GobCodec} `{Env} `{HttpHost} `{DHT} `{StateCodec} `{MapRange}.

Lemma fold_insert_lookup (l : list string) (m : gmap string bool) p :
  is_Some (fold_left (λ m p, <[p := true]> m) l m !! p) ↔ p ∈ l ∨ is_Some (m !! p).
Proof.
  revert m. induction l as [|q l IH]; intros m; simpl.
  - set_solver.
  - rewrite IH, lookup_insert_is_Some'. set_solver.
Qed.

Lemma unique_providers_spec res :
  NoDup (unique_providers res) ∧ ∀ p, p ∈ unique_providers res ↔ p ∈ Split res comma.
Proof.
  unfold unique_providers. set (m := fold_left _ _ _).
  assert (map fst (map_range m) ≡ₚ (map_to_list m).*1) as Hp
    by (apply Permutation_map, map_range_perm).
  split; [rewrite Hp; apply NoDup_fst_map_to_list|].
  intros p. rewrite Hp. rewrite list_elem_of_fmap. split.
  - intros ([q b] & -> & Hin). simpl. apply elem_of_map_to_list in Hin.
    assert (is_Some (m !! q)) as Hs by (by eexists).
    apply fold_insert_lookup in Hs as [?|Hs]; [done|].
    rewrite lookup_empty in Hs. by destruct Hs.
  - intros Hin. assert (is_Some (m !! p)) as [b Hb] by (apply fold_insert_lookup; by left).
    exists (p, b). split; [done|]. by apply elem_of_map_to_list.
Qed.

Lemma unique_providers_ne res : unique_providers res ≠ [].
Proof.
  intros E. destruct (unique_providers_spec res) as [_ Hu]. rewrite E in Hu.
  destruct (Split res comma) as [|p l] eqn:F; [by destruct (Split_bytes_ne comma (bytes_of res) [])|].
  specialize (Hu p). set_solver.
Qed.

Lemma Split_unique res :
  Split (Join (unique_providers res) (sep1 comma)) comma = unique_providers res.
Proof.
  apply Split_Join; [apply unique_providers_ne|].
  apply Forall_forall. intros p Hp. apply unique_providers_spec in Hp.
  pose proof (Split_parts_plain comma res) as Hf. rewrite Forall_forall in Hf. by apply Hf.
Qed.

(** The record a provider writes: it keeps every provider of the record
    found on the DHT exactly once and adds the node at the end; when no
    record is found, an empty provider is recorded before the node. *)
Theorem provideFileOnDHT_record hash peer w w' :
  ¬ occurs comma peer →
  provideFileOnDHT hash peer w = Done None w' →
  ∃ value l, EvDHTPut (dht_key hash) value ∈ log w' ∧ Split value comma = l ++ [peer] ∧
    match dht_GetValue (clock w) (dht_key hash) with
    | inl v => NoDup l ∧ ∀ p, p ∈ l ↔ p ∈ Split v comma
    | inr _ => l = [EmptyString]
    end.
Proof.
  intros Hp Hrun. unfold provideFileOnDHT, searchFileOnDHT in Hrun.
  apply go_bind_inv in Hrun as ([res e] & w1 & Hs & Hrun). run_steps_in Hs.
  assert (∃ l, Split res comma = l ∧ e = None ∧ log w1 = log w ∧
          match dht_GetValue (clock w) (dht_key hash) with
          | inl v => NoDup l ∧ ∀ p, p ∈ l ↔ p ∈ Split v comma
          | inr _ => l = [EmptyString]
          end) as (l & El & -> & Hlog & Hl).
  { destruct (dht_GetValue _ _) as [v|err]; run_inv.
    - exists (unique_providers v). rewrite Split_unique. split; [done|].
      split; [done|]. split; [done|]. apply unique_providers_spec.
    - by exists [EmptyString]. }
  run_steps_in Hrun. set (value := Join _ _) in Hrun.
  destruct (dht_PutValue _ _ _); [by run_inv|]. run_steps_in Hrun.
  exists value, l. split; [|split; [|exact Hl]].
  - assert (emits (λ _, True) (provideKey hash)) as Hk by (unfold provideKey; run_split; done).
    match type of Hrun with provideKey _ ?w0 = _ => destruct (Hk w0) as (evs & Hevs & _) end.
    rewrite Hrun in Hevs. cbn [final log] in Hevs. rewrite Hevs. set_solver.
  - unfold value. rewrite El. apply Split_Join; [by destruct l|].
    apply Forall_app. split; [|by apply Forall_singleton]. rewrite <- El.
    apply Split_parts_plain.
Qed.

(** [GetProviders] lists the providers of the record, each once. *)
Theorem GetProviders_lists hash v w :
  dht_GetValue (clock w) (dht_key hash) = inl v →
  ∃ reply w', GetProviders hash w = Done (reply, None) w' ∧ gp_Success reply = true ∧
    NoDup (gp_Providers reply) ∧ ∀ p, p ∈ gp_Providers reply ↔ p ∈ Split v comma.
Proof.
  intros Hv. unfold GetProviders, searchFileOnDHT.
  erewrite bind_done; [|run_steps; rewrite Hv; reflexivity]. cbv beta iota.
  match goal with |- context [(saveState ≫= _) ?w0] =>
    destruct (saveState_run w0) as (e & w1 & Hs & _) end.
  setoid_rewrite (bind_done _ _ _ _ _ Hs). eexists _, _. split; [done|]. simpl.
  split; [done|]. rewrite Split_unique. apply unique_providers_spec.
Qed.
End Providers.

(** ** The state file *)

Section StateFile.
Context `{Libp2p} `{JsonCodec} `{GobCodec} `{Env} `{HttpHost} `{DHT} `{StateCodec} `{MapRange}.

(** C5. Saving and restarting: what a node saved is what it restores when it
    is started again under the same SBU ID, except that the files it
    provides, their paths, the transfer flags and the download directory
    start afresh. *)
Theorem save_restart w w1 d w2 :
  saveState w = Done None w1 →
  state_text (app w) = true →
  List.last (log w1) (EvProvide EmptyString) = EvSave (state_file (SBU_ID (app w))) d →
  (∀ n, OpenFile n (state_file (SBU_ID (app w))) = inl d) →
  ∃ w3, main_init (SBU_ID (app w)) w2 = Done () w3 ∧
    app w3 = mkState (SBU_ID (app w)) "downloadstation" ∅ ∅ ∅ 0
               (metadataResponse (app w)) (downloadHistory (app w))
               (fileRequests (app w)) [].
Proof.
  intros Hsave Htext Hlast Hopen. unfold saveState in Hsave. run_steps_in Hsave.
  destruct (CreateFile _ _); [by run_inv|]. run_steps_in Hsave.
  destruct (encode_state (id (app w))) as [d'|] eqn:Henc; [|by run_inv].
  run_steps_in Hsave. destruct (WriteFile _ _ _); [by run_inv|].
  run_steps_in Hsave. run_inv. cbn [log] in Hlast. rewrite last_last in Hlast. simplify_eq.
  apply decode_encode_state in Henc; [|exact Htext].
  unfold main_init. run_steps. rewrite Hopen. unfold loadState.
  eexists. split.
  - erewrite bind_done; [reflexivity|]. run_steps. cbn [id]. unfold initial_state, SBU_ID at 1.
    rewrite Hopen, Henc. run_steps. reflexivity.
  - reflexivity.
Qed.
End StateFile.
