(* ===== verification/FSNodeFacts.v ===== *)
(** * File share: the node as a whole

    The invariant of a node's variables over every handler, what a node
    serves, and the messages two nodes exchange end to end. *)

From stdpp Require Import base gmap strings list fin_maps relations.
From Stdlib Require Import ZArith Ascii Lia SpecFloat.
From S2P Require Import Prelude GoStrings GoFloat FSTypes FSPeer FSTransfer FSTransferFacts FSService FSServiceFacts.

Open Scope string_scope.
Open Scope list_scope.
Open Scope nat_scope.

(** ** Invariant *)

Record node_ok (s : State) : Prop := {
  (* a hash that is or was provided has a path *)
  ok_paths : ∀ h b, isFileHashProvided s !! h = Some b → is_Some (fileHashToPath s !! h);
  (* a published header belongs to a hash that is or was provided *)
  ok_provided : ∀ hd, hd ∈ providedFiles s →
    is_Some (isFileHashProvided s !! FileDataHeader.FileHash hd);
  (* metadata is filed under its own hash and provider *)
  ok_meta : ∀ k hd, metadataResponse s !! k = Some hd →
    k = meta_key (FileDataHeader.FileHash hd) (FileDataHeader.PeerID hd);
  (* a download is filed under its own request *)
  ok_hist : ∀ k ft, downloadHistory s !! k = Some ft → FileTransaction.RequestID ft = k
}.

Lemma node_ok_initial sbu : node_ok (initial_state sbu).
Proof. split; simpl; [intros ??; by rewrite lookup_empty|set_solver|intros ??; by rewrite lookup_empty..]. Qed.

Lemma node_ok_downloadStatus f s : node_ok s → node_ok (set_downloadStatus f s).
Proof. by intros []. Qed.
Lemma node_ok_fileRequests f s : node_ok s → node_ok (set_fileRequests f s).
Proof. by intros []. Qed.

Lemma node_ok_metadata h s :
  node_ok s →
  node_ok (set_metadataResponse
    <[FileDataHeader.FileHash h +:+ FileDataHeader.PeerID h := h]> s).
Proof.
  intros [? ? Hm ?]. split; simpl; try done.
  intros k hd. rewrite lookup_insert_Some. intros [[<- <-]|[_ ?]]; [done|by apply Hm].
Qed.

Lemma node_ok_history rid ft s :
  FileTransaction.RequestID ft = rid → node_ok s →
  node_ok (set_downloadHistory <[rid := ft]> s).
Proof.
  intros Hr [? ? ? Hh]. split; simpl; try done.
  intros k x. rewrite lookup_insert_Some. intros [[<- <-]|[_ ?]]; [done|by apply Hh].
Qed.

Lemma node_ok_path h p s : node_ok s → node_ok (set_fileHashToPath <[h := p]> s).
Proof.
  intros [Hp ? ? ?]. split; simpl; try done.
  intros k b Hk. rewrite lookup_insert_is_Some'. right. by eapply Hp.
Qed.

Lemma node_ok_flag h b s :
  is_Some (fileHashToPath s !! h) → node_ok s →
  node_ok (set_isFileHashProvided <[h := b]> s).
Proof.
  intros Hs [Hp Hf ? ?]. split; simpl; try done.
  - intros k c. rewrite lookup_insert_Some. intros [[<- <-]|[_ ?]]; [done|by eapply Hp].
  - intros hd Hin. rewrite lookup_insert_is_Some'. right. by apply Hf.
Qed.

#[export] Hint Resolve node_ok_downloadStatus node_ok_fileRequests node_ok_metadata
  node_ok_history node_ok_path node_ok_flag : orca.

Section Node.
Context `{Libp2p} `{JsonCodec} `{GobCodec} `{Env} `{HttpHost} `{DHT} `{StateCodec} `{MapRange}.

(** What may happen to a node: a message from a peer, a call of a method, a
    line of input.  [mw] stands for the handlers that run during a wait. *)
Inductive node_step : World → World → Prop :=
| ns_file_request d w : node_step w (final (receiveFileRequests d w))
| ns_metadata_request d w : node_step w (final (receiveFileMetaDataRequests d w))
| ns_pause d w : node_step w (final (receivePauseDownload d w))
| ns_metadata d w : node_step w (final (receiveFileMetaData d w))
| ns_file_data rs fin w : node_step w (final (receiveFileData rs fin w))
| ns_GetFile h p mw w :
    (∀ s, node_ok s → node_ok (mw s)) → node_step w (final (GetFile h p mw w))
| ns_GetFileMetaData h p mw sel w :
    (∀ s, node_ok s → node_ok (mw s)) →
    node_step w (final (GetFileMetaData h p mw sel w))
| ns_GetProviders h w : node_step w (final (GetProviders h w))
| ns_GetHistory w : node_step w (final (GetHistory w))
| ns_GetUpdates w : node_step w (final (GetUpdates w))
| ns_ProvideFile f p w : node_step w (final (ProvideFile f p w))
| ns_StopProvidingFile h w : node_step w (final (StopProvidingFile h w))
| ns_ResumeProvidingFile h w : node_step w (final (ResumeProvidingFile h w))
| ns_PauseDownload r w : node_step w (final (PauseDownload r w))
| ns_ResumeDownload r w : node_step w (final (ResumeDownload r w))
| ns_error d w : node_step w (final (receiveErrorMessages d w))
| ns_GetNodeInfo w : node_step w (final (GetNodeInfo w))
| ns_input l w : node_step w (final (handleInput_line l w))
| ns_peers l w : node_step w (final (handlePeerExhangeWithRelay l w))
| ns_refresh w : node_step w (final (refreshReservation_tick w)).

Lemma sendFileToPeer_start_keeps t f h r : keeps (sendFileToPeer_start t f h r).
Proof. unfold sendFileToPeer_start. run_split. Qed.
Lemma sendFileMetaDataToPeer_keeps t f h : keeps (sendFileMetaDataToPeer t f h).
Proof. unfold sendFileMetaDataToPeer. run_split. Qed.
Lemma sendFileNotFoundToPeer_keeps t r : keeps (sendFileNotFoundToPeer t r).
Proof. apply sendJSON_keeps. run_split. Qed.
Lemma sendFileNotCurrentlyProvidedToPeer_keeps t r :
  keeps (sendFileNotCurrentlyProvidedToPeer t r).
Proof. apply sendJSON_keeps. run_split. Qed.
Lemma sendFileRequestToPeer_keeps t h r : keeps (sendFileRequestToPeer t h r).
Proof. apply sendJSON_keeps. run_split. Qed.
Lemma connectAndRequestFileMetaDataFromPeer_keeps h p :
  keeps (connectAndRequestFileMetaDataFromPeer h p).
Proof.
  unfold connectAndRequestFileMetaDataFromPeer, sendFileMetaDataRequestToPeer.
  apply keeps_bind; [eauto with orca|]. intros [e|]; [apply keeps_ret|].
  apply sendJSON_keeps. run_split.
Qed.
Lemma connectAndPauseRequestFromPeer_keeps r b : keeps (connectAndPauseRequestFromPeer r b).
Proof.
  unfold connectAndPauseRequestFromPeer, sendPauseRequestToPeer.
  apply keeps_bind; [eauto with orca|]. intros hist. destruct (hist !! r); [|apply keeps_ret].
  apply keeps_bind; [eauto with orca|]. intros [e|]; [apply keeps_ret|].
  apply sendJSON_keeps. run_split.
Qed.
Lemma connect_known_keeps r l : keeps (connect_known r l).
Proof. induction l; simpl; run_split. Qed.
Lemma handlePeerExhangeWithRelay_keeps l : keeps (handlePeerExhangeWithRelay l).
Proof.
  unfold handlePeerExhangeWithRelay. destruct (NewMultiaddr _); [|apply keeps_ret].
  destruct (AddrInfoFromP2pAddr _); [|apply keeps_ret].
  apply keeps_bind; [apply connect_known_keeps|]. run_split.
Qed.
Lemma refreshReservation_tick_keeps : keeps refreshReservation_tick.
Proof. unfold refreshReservation_tick, makeReservation, call, check. run_split. Qed.
Lemma provideFileOnDHT_keeps h p : keeps (provideFileOnDHT h p).
Proof. unfold provideFileOnDHT. run_split. Qed.
Lemma generateFileHash_keeps f : keeps (generateFileHash f).
Proof. unfold generateFileHash. run_split. Qed.
End Node.

#[export] Hint Resolve sendFileToPeer_start_keeps sendFileMetaDataToPeer_keeps
  sendFileNotFoundToPeer_keeps sendFileNotCurrentlyProvidedToPeer_keeps
  sendFileRequestToPeer_keeps connectAndRequestFileMetaDataFromPeer_keeps
  connectAndPauseRequestFromPeer_keeps provideFileOnDHT_keeps generateFileHash_keeps
  connectAndRequestFileFromPeer_keeps handlePeerExhangeWithRelay_keeps
  refreshReservation_tick_keeps : orca.
#[export] Hint Resolve preserves_keeps preserves_update : orca.

Section Invariant.
Context `{Libp2p} `{JsonCodec} `{GobCodec} `{Env} `{HttpHost} `{DHT} `{StateCodec} `{MapRange}.

Ltac inv_split := run_split; eauto with orca.

Lemma receiveFileRequests_ok d : preserves node_ok (receiveFileRequests d).
Proof. unfold receiveFileRequests. inv_split. Qed.
Lemma receiveFileMetaDataRequests_ok d : preserves node_ok (receiveFileMetaDataRequests d).
Proof. unfold receiveFileMetaDataRequests. inv_split. Qed.
Lemma receivePauseDownload_ok d : preserves node_ok (receivePauseDownload d).
Proof. unfold receivePauseDownload. inv_split. Qed.
Lemma receiveFileMetaData_ok d : preserves node_ok (receiveFileMetaData d).
Proof. unfold receiveFileMetaData. inv_split. Qed.
Lemma GetProviders_ok h : preserves node_ok (GetProviders h).
Proof. unfold GetProviders. inv_split. Qed.
Lemma GetHistory_ok : preserves node_ok GetHistory.
Proof. unfold GetHistory. inv_split. Qed.
Lemma GetUpdates_ok : preserves node_ok GetUpdates.
Proof. unfold GetUpdates. inv_split. Qed.
Lemma GetNodeInfo_ok : preserves node_ok GetNodeInfo.
Proof. unfold GetNodeInfo. inv_split. Qed.
Lemma receiveErrorMessages_ok d : preserves node_ok (receiveErrorMessages d).
Proof. unfold receiveErrorMessages. inv_split. Qed.
Lemma PauseDownload_ok r : preserves node_ok (PauseDownload r).
Proof. unfold PauseDownload. inv_split. Qed.
Lemma ResumeDownload_ok r : preserves node_ok (ResumeDownload r).
Proof. unfold ResumeDownload. inv_split. Qed.
Lemma handleInput_line_ok l : preserves node_ok (handleInput_line l).
Proof. unfold handleInput_line. inv_split. Qed.

Lemma GetFile_ok h p mw :
  (∀ s, node_ok s → node_ok (mw s)) → preserves node_ok (GetFile h p mw).
Proof. intros Hmw. unfold GetFile. inv_split. Qed.
Lemma GetFileMetaData_ok h p mw sel :
  (∀ s, node_ok s → node_ok (mw s)) → preserves node_ok (GetFileMetaData h p mw sel).
Proof. intros Hmw. unfold GetFileMetaData. inv_split. Qed.

Lemma set_providing_ok b msg h : preserves node_ok (set_providing b msg h).
Proof.
  unfold set_providing. apply preserves_read. intros w Hw.
  destruct (isFileHashProvided (app w) !! h) eqn:E; [|done]. run_steps.
  assert (keeps (saveState ≫= λ _, mret (mkStopProvidingFileReply true msg, None : error)))
    as Hk by (run_split).
  rewrite Hk. simpl. apply node_ok_flag; [|done]. by eapply ok_paths.
Qed.

Lemma ProvideFile_ok f p : preserves node_ok (ProvideFile f p).
Proof.
  unfold ProvideFile. apply preserves_bind; [eauto with orca|].
  intros [h [e|]]; [inv_split|].
  apply preserves_bind; [eauto with orca|]. intros [e|]; [inv_split|].
  intros w Hw. run_steps.
  set (s1 := set_isFileHashProvided _ _).
  assert (node_ok s1 ∧ is_Some (isFileHashProvided s1 !! h)) as [Hs1 Hf].
  { split; [|simpl; rewrite lookup_insert_eq; by eexists].
    apply node_ok_flag; [|by apply node_ok_path]. simpl. rewrite lookup_insert_eq. by eexists. }
  destruct (OpenFile _ _) as [content|e]; [|done].
  match goal with |- context [(getMiningAddress ≫= _) ?w0] =>
    pose proof (getMiningAddress_keeps w0) as Hk; destruct (getMiningAddress w0) as [a w1|w1] eqn:E;
    [rewrite (bind_done _ _ _ _ _ E)|rewrite (bind_panic _ _ _ _ E)] end.
  all: cbn [final app] in Hk |- *.
  2: by rewrite Hk.
  unfold Addrs0. destruct node_Addrs as [|addr addrs]; [simpl; by rewrite Hk|]. run_steps.
  match goal with |- context [(saveState ≫= ?k) ?w0] =>
    assert (keeps (saveState ≫= k)) as Hk2 by (run_split); rewrite (Hk2 w0) end.
  cbn [app]. rewrite Hk. destruct Hs1 as [? Hp ? ?]. split; simpl; try done.
  intros hd [Hin|Hin]%elem_of_app; [by apply Hp|].
  apply list_elem_of_singleton in Hin as ->. done.
Qed.

Lemma progress_only_node_ok rid s s' :
  progress_only rid s s' → is_Some (downloadHistory s !! rid) → node_ok s → node_ok s'.
Proof.
  intros [E O P] [f Hf] [? ? ? Hh]. rewrite E. split; simpl; try done.
  intros k ft Hk. destruct (decide (k = rid)) as [->|Hne].
  - destruct (P f Hf) as (f' & Hf' & Hr & _). simplify_eq. rewrite Hr. by apply Hh.
  - rewrite O in Hk by done. by apply Hh.
Qed.

Lemma receive_loop_progress path rid size reads fin total last lb w :
  progress_only rid (app w) (app (final (receive_loop path rid size reads fin total last lb w))).
Proof.
  revert total last lb w. induction reads as [|r reads IH]; intros total last lb w; simpl.
  - destruct fin; apply progress_only_refl.
  - destruct (rx_write_err r); [apply progress_only_refl|]. run_steps.
    destruct (_ <=? _)%Z; run_steps;
      match goal with |- context [receive_loop _ _ _ _ _ ?t ?l ?b ?w0] =>
        pose proof (IH t l b w0) as Hrec end; cbn [app] in Hrec; [|exact Hrec].
    eapply progress_only_trans; [apply progress_only_update|exact Hrec].
Qed.

Lemma finish_download_ok rid total s :
  is_Some (downloadHistory s !! rid) → node_ok s → node_ok (finish_download rid total s).
Proof.
  intros [f Hf] Hs. unfold finish_download. rewrite Hf. apply node_ok_fileRequests.
  apply node_ok_history; [|done]. simpl. by apply (ok_hist _ Hs).
Qed.

Lemma receiveFileData_ok reads fin : preserves node_ok (receiveFileData reads fin).
Proof.
  unfold receiveFileData. destruct (decode_header [] reads) as [[[h lost] rest]|]; [|inv_split].
  case_decide; [inv_split|]. intros w Hw. run_steps.
  set (s1 := set_downloadHistory _ _).
  assert (node_ok s1 ∧ is_Some (downloadHistory s1 !! FileDataHeader.RequestID h)) as [Hs1 Hsome].
  { split; [by apply node_ok_history|]. simpl. rewrite lookup_insert_eq. by eexists. }
  destruct (CreateFile _ _); [done|]. run_steps.
  match goal with |- context [(receive_loop ?p ?r ?sz ?rs ?f ?t ?l ?b ≫= _) ?w0] =>
    pose proof (receive_loop_progress p r sz rs f t l b w0) as Hp;
    destruct (receive_loop p r sz rs f t l b w0) as [o w1|w1] eqn:E;
    [rewrite (bind_done _ _ _ _ _ E)|rewrite (bind_panic _ _ _ _ E)] end.
  all: cbn [final app] in Hp |- *.
  2: by eapply progress_only_node_ok.
  destruct o as [total|]; [|by eapply progress_only_node_ok]. run_steps.
  match goal with |- context [final (?m ?w0)] =>
    assert (keeps m) as Hk by (unfold copyFromContainer; run_split); rewrite (Hk w0) end.
  simpl. apply finish_download_ok; [|by eapply progress_only_node_ok].
  destruct Hsome as [f Hf]. destruct (po_entry _ _ _ Hp f Hf) as (f' & ? & _). by eexists.
Qed.

Lemma node_step_ok w w' : node_step w w' → node_ok (app w) → node_ok (app w').
Proof.
  destruct 1.
  - apply receiveFileRequests_ok.
  - apply receiveFileMetaDataRequests_ok.
  - apply receivePauseDownload_ok.
  - apply receiveFileMetaData_ok.
  - apply receiveFileData_ok.
  - by apply GetFile_ok.
  - by apply GetFileMetaData_ok.
  - apply GetProviders_ok.
  - apply GetHistory_ok.
  - apply GetUpdates_ok.
  - apply ProvideFile_ok.
  - apply set_providing_ok.
  - apply set_providing_ok.
  - apply PauseDownload_ok.
  - apply ResumeDownload_ok.
  - apply receiveErrorMessages_ok.
  - apply GetNodeInfo_ok.
  - apply handleInput_line_ok.
  - apply preserves_keeps, handlePeerExhangeWithRelay_keeps.
  - apply preserves_keeps, refreshReservation_tick_keeps.
Qed.

(** A restart restores only what satisfied the invariant when it was saved. *)
Lemma main_init_ok sbu w0 :
  (∀ n d s, OpenFile n (state_file sbu) = inl d → decode_state d = inl s → node_ok s) →
  node_ok (app (final (main_init sbu w0))).
Proof.
  intros Hsaved.
  assert (∀ w, app w = initial_state sbu → node_ok (app (final (loadState w)))) as Hload.
  { intros w Hw. pose proof (node_ok_initial sbu) as Hi. unfold loadState. run_steps. rewrite Hw.
    unfold id, initial_state, SBU_ID. destruct (OpenFile _ _) as [d|] eqn:Eopen; [|exact Hi].
    destruct (decode_state d) as [s|] eqn:Edec; [|exact Hi]. run_steps. simpl.
    destruct (Hsaved _ _ _ Eopen Edec) as [_ _ Hm Hh].
    split; simpl; [intros ??; by rewrite lookup_empty|set_solver|done..]. }
  unfold main_init. run_steps. destruct (OpenFile _ _); [|apply node_ok_initial].
  match goal with |- context [(loadState ≫= ?k) ?w1] => specialize (Hload w1 eq_refl);
    unfold mbind, GoM_bind, go_bind; destruct (loadState w1) end; exact Hload.
Qed.

(** C6. The invariant of a node: in every state a node reaches from its
    start, by messages, method calls and terminal input in any order, a
    hash that is or was provided has a path, every published header belongs
    to such a hash, price metadata is filed under its own hash and
    provider, and a download under its own request.  The state file, if
    there is one, holds a state that satisfied the invariant. *)
Theorem node_invariant sbu w0 w w' :
  (∀ n d s, OpenFile n (state_file sbu) = inl d → decode_state d = inl s → node_ok s) →
  main_init sbu w0 = Done () w → rtc node_step w w' → node_ok (app w').
Proof.
  intros Hsaved Hi Hsteps. pose proof (main_init_ok sbu w0 Hsaved) as Hok.
  rewrite Hi in Hok. simpl in Hok. clear Hi. induction Hsteps; eauto using node_step_ok.
Qed.
End Invariant.
