(* ===== verification/FSEndToEnd.v ===== *)
(** * File share: two nodes end to end

    What a provider answers to a request, and the messages of one node as the
    other node receives them: file requests, price metadata, pause and
    resume; and the progress report of [GetUpdates]. *)

From stdpp Require Import base gmap strings list fin_maps relations.
From Stdlib Require Import ZArith Ascii Lia SpecFloat.
From S2P Require Import Prelude GoStrings GoFloat FSTypes FSPeer FSTransfer FSTransferFacts FSService FSServiceFacts FSNodeFacts.

Open Scope string_scope.
Open Scope list_scope.
Open Scope nat_scope.

Lemma FileRequest_json `{JsonCodec} r :
  request_text r = true →
  json_parse (json_text (json_of_FileRequest r)) ≫= FileRequest_of_json = Some r.
Proof.
  destruct r as [id h rid ma t c]. unfold request_text. simpl.
  rewrite !andb_true_iff. intros ((H1 & H2 & H3 & H4 & _) & Ht). rewrite json_parse_text.
  - cbv -[time_parse time_text]. by rewrite time_parse_text.
  - simpl. by rewrite H1, H2, H3, H4, time_text_valid.
Qed.

(** The headers a search can return. *)
Lemma find_provided_spec h l :
  (∃ hd, hd ∈ l ∧ FileDataHeader.FileHash hd = h) →
  FileDataHeader.FileHash (find_provided h l) = h ∧ find_provided h l ∈ l.
Proof.
  unfold find_provided.
  assert (∀ l acc, (∃ hd, hd ∈ l ∧ FileDataHeader.FileHash hd = h) ∨
                   (FileDataHeader.FileHash acc = h) →
    let r := fold_left (λ acc x, if decide (FileDataHeader.FileHash x = h) then x else acc) l acc in
    FileDataHeader.FileHash r = h ∧ (r ∈ l ∨ r = acc)) as Hgen.
  { clear l. induction l as [|x l IH]; intros acc Hex; simpl.
    - destruct Hex as [(? & Hin & _)|?]; [set_solver|]. by split; [|right].
    - case_decide as E.
      + destruct (IH x) as [? Hr]; [by right|]. split; [done|]. set_solver.
      + destruct (IH acc) as [? Hr]; [set_solver|]. split; [done|]. set_solver. }
  intros Hex. destruct Hex as (hd & Hin & Hh).
  revert Hin. induction l as [|x l IH] using rev_ind; intros Hin; [set_solver|].
  rewrite !fold_left_app. simpl. case_decide as E; [set_solver|].
  destruct IH as [? ?]; set_solver.
Qed.

Section Serving.
Context `{Libp2p} `{JsonCodec} `{GobCodec} `{Env} `{HttpHost} `{DHT} `{StateCodec} `{MapRange}.

(** The events of [m] satisfy [P] when started in [w]. *)
Definition emits_from {A} (P : Event → Prop) (m : GoM World A) (w : World) : Prop :=
  ∃ evs, log (final (m w)) = log w ++ evs ∧ Forall P evs.

Lemma createStream_log t p w : log (final (createStream t p w)) = log w.
Proof.
  destruct (createStream_emits (λ _, False) t p w) as (evs & -> & Hf).
  destruct evs; [by rewrite app_nil_r|by inversion Hf].
Qed.

(** The header a provider sends before a file. *)
Definition file_header (s : State) (hash rid : string) : FileDataHeader.t :=
  FileDataHeader.set_RequestID rid (find_provided hash (providedFiles s)).

Lemma sendFileToPeer_start_emits t f hash rid w :
  emits_from (λ e, ∃ peer, e = EvStream "/senddata/p2p" peer
                            (gob_encode (file_header (app w) hash rid)))
             (sendFileToPeer_start t f hash rid) w.
Proof.
  unfold sendFileToPeer_start, emits_from.
  pose proof (createStream_log t "/senddata/p2p" w) as Hl.
  pose proof (createStream_keeps t "/senddata/p2p" w) as Hk.
  destruct (createStream t "/senddata/p2p" w) as [[peer|e] w1|w1] eqn:E;
    [rewrite (bind_done _ _ _ _ _ E)..|rewrite (bind_panic _ _ _ _ E)];
    cbn [final app log] in *.
  2,3: exists []; rewrite app_nil_r; done.
  run_steps. destruct (OpenFile _ _) as [content|e].
  2: { exists []. rewrite app_nil_r. done. }
  run_steps. destruct (StreamWrite _ _ _).
  { exists []. rewrite app_nil_r. done. }
  eexists. rewrite <- Hl, <- Hk. split; [reflexivity|]. apply Forall_singleton. by eexists.
Qed.

(** A refusal: one message on a protocol, and nothing else. *)
Lemma refused p (m : GoM World error) w :
  emits (on_protocol p) m → keeps m →
  let run := (m ≫= λ _, mret (None : option Transfer)) w in
  ∃ evs, log (final run) = log w ++ evs ∧ app (final run) = app w ∧
    Forall (on_protocol p) evs ∧ ¬ (∃ t, run = Done (Some t) (final run)).
Proof.
  intros He Hk run. destruct (He w) as (evs & Hl & Hf). specialize (Hk w). exists evs.
  subst run. unfold mbind, GoM_bind, go_bind. destruct (m w) as [e w1|w1]; simpl in *;
    split_and!; try done; by intros [t Ht].
Qed.

Lemma sendFileToPeer_start_content t f hash rid w content w' :
  sendFileToPeer_start t f hash rid w = Done (inl content) w' →
  ∃ n, OpenFile n f = inl content.
Proof.
  unfold sendFileToPeer_start. intros (s & w1 & _ & Hs)%go_bind_inv.
  destruct s as [peer|e]; [|by run_inv]. run_steps_in Hs.
  destruct (OpenFile _ _) as [c|e] eqn:E; [|by run_inv]. run_steps_in Hs.
  destruct (StreamWrite _ _ _); run_inv. by eexists.
Qed.

(** What a provider does with a file request: an unknown hash is
    answered on the error protocol only; a hash that is known but not
    provided, on the data protocol only; in both cases the state is
    untouched and no transfer starts.  Only for a provided hash is the file's
    own header sent, under the request's ID, and the download enabled; the
    transfer that starts is that of the file the hash stands for. *)
Theorem file_request_served r w :
  request_text r = true →
  let run := receiveFileRequests (inl (json_text (json_of_FileRequest r))) w in
  let w' := final run in
  let hash := FileRequest.FileHash r in
  let rid := FileRequest.RequestID r in
  ∃ evs, log w' = log w ++ evs ∧
  match fileHashToPath (app w) !! hash with
  | None => app w' = app w ∧ Forall (on_protocol "/error/p2p") evs ∧ ¬ (∃ t, run = Done (Some t) w')
  | Some path =>
      if map_bool (isFileHashProvided (app w)) hash then
        Forall (λ e, ∃ peer, e = EvStream "/senddata/p2p" peer
                               (gob_encode (file_header (app w) hash rid))) evs ∧
        app w' =
          (if (lastDownloadStatus (app w) =? 0)%Z
              || (lastDownloadStatus (app w) <? FileRequest.TimeSent r)%Z
           then set_downloadStatus <[rid := true]> (app w) else app w) ∧
        ∀ t, run = Done (Some t) w' →
          ∃ n content, OpenFile n path = inl content ∧ t = transfer_init rid content
      else app w' = app w ∧ Forall (on_protocol "/senddata/p2p") evs ∧
           ¬ (∃ t, run = Done (Some t) w')
  end.
Proof.
  intros Htext. cbv zeta. unfold receiveFileRequests. rewrite (FileRequest_json r Htext).
  set (hash := FileRequest.FileHash r). set (rid := FileRequest.RequestID r). run_steps.
  destruct (fileHashToPath (app w) !! hash) as [path|] eqn:Epath.
  - run_steps. destruct (map_bool (isFileHashProvided (app w)) hash) eqn:Eflag; cbn [negb].
    + run_steps.
      match goal with |- context [((if ?c then _ else _) ≫= _) _] => destruct c eqn:Ec end;
      run_steps; match goal with |- context [(sendFileToPeer_start ?t ?f ?h ?r ≫= _) ?w0] =>
        destruct (sendFileToPeer_start_emits t f h r w0) as (evs & Hevs & Hf);
        pose proof (sendFileToPeer_start_keeps t f h r w0) as Hk;
        pose proof (sendFileToPeer_start_content t f h r w0) as Hc;
        destruct (sendFileToPeer_start t f h r w0) as [[content|e] w1|w1] eqn:E;
        [rewrite (bind_done _ _ _ _ _ E)..|rewrite (bind_panic _ _ _ _ E)] end;
      cbn [final app log] in *; exists evs; split_and!; try done;
      intros t Ht; simplify_eq; destruct (Hc content w1 eq_refl) as [n Hn];
      unfold mret, GoM_ret, go_ret in Ht; simplify_eq; by exists n, content.
    + apply (refused "/senddata/p2p"); [apply sendJSON_emits; run_split|run_split].
  - apply (refused "/error/p2p"); [apply sendJSON_emits; run_split|run_split].
Qed.
End Serving.

(** ** Pause and resume *)

Section Pause.
(* the provider's network and system, then the requester's *)
Context (LB : Libp2p) (EB : Env).
Context `{Libp2p} `{JsonCodec} `{GobCodec} `{Env} `{HttpHost} `{DHT} `{StateCodec} `{MapRange}.

Lemma connectAndPauseRequestFromPeer_ok rid b w w' :
  connectAndPauseRequestFromPeer rid b w = Done None w' →
  ∃ evs peer r, PauseDownloadRequest.RequestID r = rid ∧ PauseDownloadRequest.Status r = b ∧
    time_ok (PauseDownloadRequest.TimeSent r) = true ∧
    log w' = log w ++ evs ++
      [EvStream "/sendpause/p2p" peer (json_text (json_of_PauseDownloadRequest r))].
Proof.
  unfold connectAndPauseRequestFromPeer. intros Hrun. run_steps_in Hrun.
  destruct (downloadHistory (app w) !! rid) as [x|]; [|by run_inv].
  apply go_bind_inv in Hrun as ([e|] & w1 & Hc & Hrun); [by run_inv|].
  destruct (connectToNodeUsingRelay_emits
              (FileDataHeader.PeerID (FileTransaction.FileMetaData x)) w) as (evs & Hl & _).
  rewrite Hc in Hl. simpl in Hl.
  apply sendJSON_ok in Hrun as (peer & j & w2 & w3 & Hb & Hl'); [|intros; run_split]. run_inv.
  exists evs, peer. eexists. split; [|split; [|split; [|rewrite Hl', Hl, app_assoc; reflexivity]]];
    try done. simpl. apply Now_ok.
Qed.

(** What [PauseDownload] and [ResumeDownload] wrote when they succeed. *)
Lemma pause_message rid b reply w w' :
  (e ← connectAndPauseRequestFromPeer rid b;
   match e with
   | Some _ => mret (mkPauseDownloadReply false EmptyString, e)
   | None => saveState;; mret (mkPauseDownloadReply true EmptyString, None)
   end) w = Done (reply, None) w' →
  ∃ evs peer r, PauseDownloadRequest.RequestID r = rid ∧ PauseDownloadRequest.Status r = b ∧
    time_ok (PauseDownloadRequest.TimeSent r) = true ∧ log w' = log w ++ evs ∧
    EvStream "/sendpause/p2p" peer (json_text (json_of_PauseDownloadRequest r)) ∈ evs.
Proof.
  intros ([e|] & w1 & Hc & Hrun)%go_bind_inv; [by run_inv|].
  destruct (connectAndPauseRequestFromPeer_ok _ _ _ _ Hc) as (evs & peer & r & Hr & Hb & Ht & Hl).
  apply go_bind_inv in Hrun as (e & w2 & Hs & Hrun). run_inv.
  destruct (saveState_emits w1) as (evs2 & Hl2 & _). rewrite Hs in Hl2. simpl in Hl2.
  eexists (_ ++ evs2), peer, r. rewrite Hl2, Hl, <- app_assoc. split_and!; try done. set_solver.
Qed.

(** C2. Pausing and resuming a download end to end: when the requester's
    [PauseDownload] succeeds, a message was written to the provider which,
    received there in any state, stops every transfer of this request: in
    any run in which the flag is not set again, a transfer writes at most
    the one buffer it was already about to send, and none when it was
    waiting.  The message of a successful [ResumeDownload] enables the
    transfers again. *)
Theorem pause_resume_end_to_end rid wA wA' reply wB :
  ValidString rid = true →
  (PauseDownload rid wA = Done (reply, None) wA' →
   ∃ evs peer d, log wA' = log wA ++ evs ∧ EvStream "/sendpause/p2p" peer d ∈ evs ∧
     ∀ i ts t wC tsC, ts !! i = Some t → tr_request t = rid →
       rtc (@quiet_step LB _ _ EB rid) (final (receivePauseDownload (inl d) wB), ts) (wC, tsC) →
       ∃ tC bs, tsC !! i = Some tC ∧ tr_sent tC = tr_sent t ++ bs ∧ length bs ≤ 1 ∧
         (tr_phase t = Waiting → tC = t)) ∧
  (ResumeDownload rid wA = Done (reply, None) wA' →
   ∃ evs peer d, log wA' = log wA ++ evs ∧ EvStream "/sendpause/p2p" peer d ∈ evs ∧
     map_bool (downloadStatus (app (final (receivePauseDownload (inl d) wB)))) rid = true).
Proof.
  intros Hid. split; intros (evs & peer & r & Hr & Hb & Ht & Hl & Hin)%pause_message;
    exists evs, peer; eexists; split_and!; try done.
  - intros i ts t wC tsC Hi Hreq Hsteps.
    rewrite receivePauseDownload_sets, Hr, Hb in Hsteps by congruence.
    eapply (paused_transfer_settles rid i _ ts t) in Hsteps
      as (tC & HC & _ & (bs & Hbs & Hlag) & Hwait); try done.
    + exists tC, bs. split_and!; try done. unfold lag in Hlag at 2. destruct (tr_phase t); lia.
    + simpl. by rewrite lookup_insert_eq.
  - rewrite receivePauseDownload_sets, Hr, Hb by congruence. unfold map_bool. simpl.
    by rewrite lookup_insert_eq.
Qed.
End Pause.

(** ** Price metadata *)

(** A metadata request is read as a file request without an ID. *)
Definition metadata_text (m : MetaDataRequest.t) : bool :=
  forallb ValidString [MetaDataRequest.FileHash m; MetaDataRequest.RequesterID m;
                       MetaDataRequest.RequesterMultiAddress m]
  && time_ok (MetaDataRequest.TimeSent m).

Lemma MetaDataRequest_json `{JsonCodec} m :
  metadata_text m = true →
  json_parse (json_text (json_of_MetaDataRequest m)) ≫= FileRequest_of_json =
  Some (FileRequest.mk EmptyString (MetaDataRequest.FileHash m)
          (MetaDataRequest.RequesterID m) (MetaDataRequest.RequesterMultiAddress m)
          (MetaDataRequest.TimeSent m) false).
Proof.
  destruct m as [h rid ma t]. unfold metadata_text. simpl.
  rewrite !andb_true_iff. intros ((H1 & H2 & H3 & _) & Ht). rewrite json_parse_text.
  - cbv -[time_parse time_text]. by rewrite time_parse_text.
  - simpl. by rewrite H1, H2, H3, time_text_valid.
Qed.

Section MetaData.
Context `{Libp2p} `{JsonCodec} `{GobCodec} `{Env}.

(** The header a provider publishes for a hash. *)
Definition published_header (s : State) (hash : string) : FileDataHeader.t :=
  FileDataHeader.set_Provided (map_bool (isFileHashProvided s) hash)
    (find_provided hash (providedFiles s)).

Lemma sendFileMetaDataToPeer_emits t f hash w :
  emits_from (λ e, ∃ peer, e = EvStream "/sendmetadata/p2p" peer
                            (gob_encode (published_header (app w) hash)))
             (sendFileMetaDataToPeer t f hash) w.
Proof.
  unfold sendFileMetaDataToPeer, emits_from.
  pose proof (createStream_log t "/sendmetadata/p2p" w) as Hl.
  pose proof (createStream_keeps t "/sendmetadata/p2p" w) as Hk.
  destruct (createStream t "/sendmetadata/p2p" w) as [[peer|e] w1|w1] eqn:E;
    [rewrite (bind_done _ _ _ _ _ E)..|rewrite (bind_panic _ _ _ _ E)];
    cbn [final app log] in *.
  2,3: exists []; rewrite app_nil_r; done.
  run_steps. destruct (StreamWrite _ _ _).
  { exists []. rewrite app_nil_r. done. }
  run_steps. eexists [_]. rewrite <- Hl, <- Hk.
  destruct (StreamClose _ _); (split; [reflexivity|]); apply Forall_singleton; by eexists.
Qed.

(** Price metadata end to end: whatever a provider writes on the
    metadata protocol in answer to a metadata request is the header it
    published last for that hash, with its current provided flag; a buyer
    that receives it files it where [GetFile] looks up the price of that
    hash at that provider. *)
Theorem metadata_end_to_end m wB wA peer d :
  let hash := MetaDataRequest.FileHash m in
  let hd := published_header (app wB) hash in
  metadata_text m = true →
  (∃ h, h ∈ providedFiles (app wB) ∧ FileDataHeader.FileHash h = hash) →
  Forall (λ h, gob_ok h = true) (providedFiles (app wB)) →
  let wB' := final (receiveFileMetaDataRequests
                      (inl (json_text (json_of_MetaDataRequest m))) wB) in
  EvStream "/sendmetadata/p2p" peer d ∈ log wB' →
  EvStream "/sendmetadata/p2p" peer d ∉ log wB →
  app wB' = app wB ∧
  metadataResponse (app (final (receiveFileMetaData d wA)))
    !! meta_key hash (FileDataHeader.PeerID hd) = Some hd.
Proof.
  intros hash hd Htext Hpub Hgob wB' Hin Hnew. subst wB'.
  destruct (find_provided_spec hash (providedFiles (app wB)) Hpub) as [Hh Hprov].
  assert (gob_ok hd = true) as Hok.
  { rewrite Forall_forall in Hgob. exact (Hgob _ Hprov). }
  change (FileDataHeader.FileHash hd = hash) in Hh.
  revert Hin. unfold receiveFileMetaDataRequests. rewrite (MetaDataRequest_json m Htext). run_steps.
  cbn [FileRequest.FileHash FileRequest.RequesterID FileRequest.RequestID]. fold hash.
  destruct (fileHashToPath (app wB) !! hash) as [path|] eqn:Ep.
  - match goal with |- context [(sendFileMetaDataToPeer ?t ?f ?h ≫= _) ?w0] =>
      destruct (sendFileMetaDataToPeer_emits t f h w0) as (evs & Hevs & Hf);
      pose proof (sendFileMetaDataToPeer_keeps t f h w0) as Hk;
      destruct (sendFileMetaDataToPeer t f h w0) as [a w1|w1] eqn:E;
      [rewrite (bind_done _ _ _ _ _ E)|rewrite (bind_panic _ _ _ _ E)] end.
    all: cbn [final app log] in *; simpl; intros Hin; rewrite Hevs in Hin;
      apply elem_of_app in Hin as [?|Hin]; [done|]; split; [done|].
    all: rewrite Forall_forall in Hf; destruct (Hf _ Hin) as [p Heq]; simplify_eq.
    all: unfold receiveFileMetaData; rewrite <- (app_nil_r (gob_encode _)), gob_decode_encode by exact Hok.
    all: unfold update, go_modify; cbn [final app set_metadataResponse metadataResponse].
    all: fold hd; unfold meta_key; rewrite Hh; apply lookup_insert_eq.
  - intros Hin. exfalso.
    assert (emits (on_protocol "/error/p2p")
      (sendFileNotFoundToPeer (MetaDataRequest.RequesterID m) EmptyString ≫= λ _, mret ())) as He.
    { apply emits_bind; [apply sendJSON_emits|]; run_split. }
    eapply emits_all in Hin as [?|Hp]; [done| |exact He]. done.
Qed.
End MetaData.

(** ** The progress report *)

Lemma SFcompare_antisym x y :
  SFcompare x y = Some Lt → SFcompare y x = Some Gt.
Proof.
  destruct x as [s|s| |s m e], y as [s'|s'| |s' m' e']; try destruct s; try destruct s';
    simpl; try discriminate; try done.
  all: rewrite (Z.compare_antisym e' e); destruct (e' ?= e)%Z; simpl; try discriminate; try done.
  all: pose proof (Pos.compare_cont_antisym m' m Eq) as Hc; simpl in Hc; rewrite <- Hc;
    destruct (Pos.compare_cont Eq m' m); simpl; try discriminate; done.
Qed.

Lemma f_lt_not_ge x y : f_lt x y = true → f_ge x y = false.
Proof.
  unfold f_lt, f_ge, SFltb, SFleb. intros Hlt.
  destruct (SFcompare x y) as [[]|] eqn:E; try discriminate.
  by rewrite (SFcompare_antisym _ _ E).
Qed.

(** The remaining time [GetUpdates] reports for a download in progress:
    the whole seconds that the remaining bytes take at the speed, which is
    first truncated to whole megabytes per second; below one megabyte per
    second no estimate is made and the entry is reported as it is. *)
Theorem remaining_time_estimate x :
  let size := FileDataHeader.FileSize (FileTransaction.FileMetaData x) in
  let got := FileTransaction.BytesDownloaded x in
  let mbps := int64_of_float (FileTransaction.DownloadSpeed x) in
  (0 ≤ got < size ∧ size < 2 ^ 63)%Z →
  f_lt (FileTransaction.DownloadProgress x) (f32_of_Z 1) = true →
  ((1 ≤ mbps < 2 ^ 43)%Z → ((size - got) / (mbps * 2 ^ 20) * Second < 2 ^ 63)%Z →
     update_transaction x =
     FileTransaction.set_RemainingTime
       (Duration_String ((size - got) / (mbps * 2 ^ 20) * Second)) x) ∧
  (mbps = 0%Z → update_transaction x = x).
Proof.
  intros size got mbps Hb Hlt. unfold update_transaction. fold size got mbps.
  rewrite (wrap_s_id 64 (size - got)) by lia. rewrite Hlt.
  assert ((size - got <? 0)%Z = false) as -> by lia.
  assert ((0 <? size - got)%Z = true) as -> by lia. split.
  - intros Hm Hs. rewrite (wrap_s_id 64 (mbps * 1024)), (wrap_s_id 64 (mbps * 1024 * 1024)) by lia.
    assert ((0 <? mbps * 1024 * 1024)%Z = true) as -> by lia. cbn [andb].
    replace (mbps * 1024 * 1024)%Z with (mbps * 2 ^ 20)%Z by lia.
    rewrite Z.quot_div_nonneg by lia. rewrite wrap_s_id; [|lia|].
    + change (FileTransaction.DownloadProgress (FileTransaction.set_RemainingTime _ x))
        with (FileTransaction.DownloadProgress x).
      by rewrite (f_lt_not_ge _ _ Hlt).
    + split; [|lia]. assert (0 ≤ (size - got) / (mbps * 2 ^ 20))%Z by (apply Z.div_pos; lia).
      unfold Second in *. lia.
  - intros ->. cbn [andb]. change (int64 (int64 (0 * 1024) * 1024)) with 0%Z.
    cbn [Z.ltb Z.compare andb]. by rewrite (f_lt_not_ge _ _ Hlt).
Qed.
