(* ===== verification/WalletServer.v ===== *)
(** * Wallet server: processes, configuration, sessions and HTTP handlers

    server/manager/manager.go (the btcd and btcwallet processes, the mining
    address in btcd's configuration file, the btcctl command line) and
    server/handlers/handlers.go (the HTTP API).  The operating system, the
    btcctl program, the random source and encoding/json's text layer are
    parameters. *)

From stdpp Require Import base gmap strings list fin_maps.
From Stdlib Require Import ZArith Ascii SpecFloat.
From S2P Require Import Prelude GoStrings GoFloat FSTypes.

Open Scope string_scope.
Open Scope list_scope.
Open Scope nat_scope.

(** ** State *)

(** An [*exec.Cmd] variable: nil; created but not started ([Process] nil);
    started; started and gone although the variable was not reset. *)
Inductive Cmd := CmdNil | CmdCreated | CmdRunning | CmdExited.

(** [cmd != nil && cmd.Process != nil] *)
Definition has_process (c : Cmd) : bool :=
  match c with CmdRunning | CmdExited => true | _ => false end.

Record Session := mkSession { Password : string; ExpiresAt : Time }.

Record Server := mkServer {
  orcaNetCmd : Cmd;
  walletCmd : Cmd;
  sessionDB : gmap string Session;
  files : gmap string string              (* the file system *)
}.

Inductive SEvent :=
| SvStart (program : string) (args : list string)   (* a process was started *)
| SvExit (program : string)                         (* it was waited for *)
| SvBtcctl (params : list string)                   (* btcctl was run *)
| SvKill (program : string)
| SvRemove (path : string).

Record SWorld := mkSWorld { srv : Server; trace : list SEvent; sclock : nat }.

Definition s_emit (e : SEvent) : GoM SWorld () :=
  go_modify (λ w, mkSWorld (srv w) (trace w ++ [e]) (sclock w)).
Definition s_update (f : Server → Server) : GoM SWorld () :=
  go_modify (λ w, mkSWorld (f (srv w)) (trace w) (sclock w)).
Definition s_read {A} (f : Server → A) : GoM SWorld A := λ w, Done (f (srv w)) w.
Definition s_tick : GoM SWorld nat :=
  λ w, Done (sclock w) (mkSWorld (srv w) (trace w) (S (sclock w))).

Definition set_orcaNetCmd (c : Cmd) (s : Server) : Server :=
  mkServer c (walletCmd s) (sessionDB s) (files s).
Definition set_walletCmd (c : Cmd) (s : Server) : Server :=
  mkServer (orcaNetCmd s) c (sessionDB s) (files s).
Definition set_sessionDB (f : gmap string Session → gmap string Session) (s : Server) : Server :=
  mkServer (orcaNetCmd s) (walletCmd s) (f (sessionDB s)) (files s).
Definition set_files (f : gmap string string → gmap string string) (s : Server) : Server :=
  mkServer (orcaNetCmd s) (walletCmd s) (sessionDB s) (f (files s)).

(** The operating system: outcomes of the calls, indexed by the number of
    calls so far. *)
Class Os := {
  Getwd : nat → string + string;
  path_Dir : string → string;                       (* filepath.Dir *)
  path_Join : list string → string;                 (* filepath.Join *)
  StatMissing : nat → string → bool;                (* os.IsNotExist(os.Stat) *)
  Pipe : nat → error;                               (* StdoutPipe, StderrPipe *)
  StartProcess : nat → string → error;              (* Cmd.Start *)
  SignalProcess : nat → string → error;
  WaitProcess : nat → string → error;
  KillProcess : nat → string → error;
  PtyStart : nat → error;
  ReadFileErr : nat → string → error;               (* errors beside a missing file *)
  (* os.WriteFile: nil, or the error with what the file holds then, if it
     could be opened *)
  WriteFileErr : nat → string → option (string * option string);
  RemoveFile : nat → string → error;
  RunBtcctl : nat → list string → string + string;  (* output, or error and output *)
  HomeDir : nat → string + string;
  GOOS : string;
  RandInt : nat → Z → Z + string;                   (* crypto/rand.Int *)
  STime : nat → Time;
  SUUID : nat → string
}.

Section Manager.
Context `{Os}.

(** ** manager.go *)

Definition getExePath : GoM SWorld (string + string) :=
  n ← s_tick;
  match Getwd n with
  | inr e => mret (inr ("could not get working directory: " +:+ e))
  | inl wd => mret (inl (path_Dir wd))
  end.

(** The common part of starting btcd and btcwallet: [set] assigns the
    variable, [program] is the name in the messages. *)
Definition start_process (program : string) (path args : list string) (get : Server → Cmd)
  (set : Cmd → Server → Server) : GoM SWorld error :=
  c ← s_read get;
  if has_process c then mret None else
  r ← getExePath;
  match r with
  | inr e => mret (Some ("failed to get executable path: " +:+ e))
  | inl root =>
      let bin := path_Join (root :: path) in
      n ← s_tick;
      if StatMissing n bin then mret (Some (program +:+ " binary not found at " +:+ bin)) else
      s_update (set CmdCreated);;
      p1 ← s_tick;
      match Pipe p1 with
      | Some e => mret (Some ("failed to create stdout pipe: " +:+ e))
      | None =>
          p2 ← s_tick;
          match Pipe p2 with
          | Some e => mret (Some ("failed to create stderr pipe: " +:+ e))
          | None =>
              s ← s_tick;
              match StartProcess s program with
              | Some e => mret (Some ("failed to start " +:+ program +:+ ": " +:+ e))
              | None =>
                  s_update (set CmdRunning);;
                  s_emit (SvStart program args);;
                  mret None
              end
          end
      end
  end.

Definition StartOrcaNet (miningAddr : string) : GoM SWorld error :=
  let args := ["--rpcuser=user"; "--rpcpass=password"; "--notls"; "--txindex";
               "--addpeer=130.245.173.221:8333"] ++
              (if decide (miningAddr = EmptyString) then []
               else ["--miningaddr=" +:+ miningAddr]) in
  start_process "btcd" ["btcd"; "btcd"] args orcaNetCmd set_orcaNetCmd.

Definition StartWallet : GoM SWorld error :=
  start_process "btcwallet" ["btcwallet"; "btcwallet"]
    ["--btcdusername=user"; "--btcdpassword=password"; "--rpcconnect=127.0.0.1:8334"]
    walletCmd set_walletCmd.

(** [Process.Signal] and [Process.Kill] on a process that was waited for
    return this error. *)
Definition ErrProcessDone : string := "os: process already finished".
Definition signal (outcome : error) (c : Cmd) : error :=
  match c with CmdExited => Some ErrProcessDone | _ => outcome end.

(** Stopping: interrupt, wait, and only then forget the process. *)
Definition stop_process (program : string) (get : Server → Cmd)
  (set : Cmd → Server → Server) : GoM SWorld error :=
  c ← s_read get;
  if has_process c then
    n ← s_tick;
    match signal (SignalProcess n program) c with
    | Some e => mret (Some ("failed to stop " +:+ program +:+ ": " +:+ e))
    | None =>
        m ← s_tick;
        s_emit (SvExit program);;
        match WaitProcess m program with
        | Some e =>
            s_update (set CmdExited);;
            mret (Some (program +:+ " did not shut down cleanly: " +:+ e))
        | None => s_update (set CmdNil);; mret None
        end
    end
  else mret (Some (program +:+ " is not running.")).

(** *** Killing *)

Definition kill_process (program : string) (get : Server → Cmd) : GoM SWorld error :=
  c ← s_read get;
  if has_process c then
    n ← s_tick;
    match signal (KillProcess n program) c with
    | Some e => mret (Some ("failed to kill " +:+ program +:+ " process: " +:+ e))
    | None => s_emit (SvKill program);; mret None
    end
  else mret None.

Definition KillProcesses : GoM SWorld error :=
  e ← kill_process "btcd" orcaNetCmd;
  match e with
  | Some _ => mret e
  | None => kill_process "btcwallet" walletCmd
  end.

Definition StopOrcaNet : GoM SWorld error := stop_process "btcd" orcaNetCmd set_orcaNetCmd.
Definition StopWallet : GoM SWorld error := stop_process "btcwallet" walletCmd set_walletCmd.

(** *** The mining address in the configuration file *)

Definition nl : ascii := chr 10.

Definition config_path (root : string) : string := path_Join [root; "btcd"; "sample-btcd.conf"].

Definition mining_line (address : string) : string := "miningaddr=" +:+ address.

(** The first line that sets the address is replaced; without one, a line is
    added at the end. *)
Fixpoint replace_mining (address : string) (lines : list string) : option (list string) :=
  match lines with
  | [] => None
  | line :: rest =>
      if HasPrefix line "miningaddr=" then Some (mining_line address :: rest)
      else (cons line) <$> replace_mining address rest
  end.
Definition update_lines (address : string) (lines : list string) : list string :=
  default (lines ++ [mining_line address]) (replace_mining address lines).

Definition UpdateBtcdConfigWithMiningAddr (address : string) : GoM SWorld error :=
  r ← getExePath;
  match r with
  | inr e => mret (Some ("failed to get project root path: " +:+ e))
  | inl root =>
      let configPath := config_path root in
      n ← s_tick;
      fs ← s_read files;
      match ReadFileErr n configPath, fs !! configPath with
      | Some e, _ => mret (Some ("failed to read btcd.conf: " +:+ e))
      | None, None => mret (Some "failed to read btcd.conf: no such file or directory")
      | None, Some content =>
          let updated := Join (update_lines address (Split content nl)) (sep1 nl) in
          m ← s_tick;
          match WriteFileErr m configPath with
          | Some (e, kept) =>
              (match kept with
               | Some partial => s_update (set_files <[configPath := partial]>)
               | None => mret ()
               end);;
              mret (Some ("failed to write to btcd.conf: " +:+ e))
          | None => s_update (set_files <[configPath := updated]>);; mret None
          end
      end
  end.

Fixpoint find_mining (lines : list string) : string :=
  match lines with
  | [] => EmptyString
  | line :: rest =>
      if HasPrefix line "miningaddr=" then TrimSpace (TrimPrefix line "miningaddr=")
      else find_mining rest
  end.

Definition GetMiningAddressFromConfig : GoM SWorld (string + string) :=
  r ← getExePath;
  match r with
  | inr e => mret (inr ("failed to get project root path: " +:+ e))
  | inl root =>
      let configPath := config_path root in
      n ← s_tick;
      fs ← s_read files;
      match ReadFileErr n configPath, fs !! configPath with
      | Some e, _ => mret (inr ("failed to read btcd.conf: " +:+ e))
      | None, None => mret (inr "failed to read btcd.conf: no such file or directory")
      | None, Some data => mret (inl (find_mining (Split data nl)))
      end
  end.

Definition ConfigureMiningAddress (address : string) : GoM SWorld error :=
  e1 ← StopOrcaNet;
  match e1 with
  | Some e => mret (Some ("failed to stop btcd: " +:+ e))
  | None =>
      e2 ← UpdateBtcdConfigWithMiningAddr address;
      match e2 with
      | Some e => mret (Some ("failed to update btcd config: " +:+ e))
      | None =>
          e3 ← StartOrcaNet address;
          match e3 with
          | Some e => mret (Some ("failed to restart btcd with mining address: " +:+ e))
          | None => mret None
          end
      end
  end.

(** *** Wallet creation and deletion *)

(** A local variable shadows [walletCmd]: the process of [--create] is not
    recorded in the package variable. *)
Definition CreateWallet_manager (password : string) : GoM SWorld error :=
  r ← getExePath;
  match r with
  | inr e => mret (Some ("failed to get root path: " +:+ e))
  | inl root =>
      let walletPath := path_Join [root; "btcwallet"; "btcwallet"] in
      n ← s_tick;
      if StatMissing n walletPath
      then mret (Some ("btcwallet binary not found at " +:+ walletPath)) else
      p ← s_tick;
      match PtyStart p with
      | Some e => mret (Some ("failed to start wallet creation with pty: " +:+ e))
      | None =>
          s_emit (SvStart "btcwallet" ["--create"]);;
          m ← s_tick;
          s_emit (SvExit "btcwallet");;
          match WaitProcess m "btcwallet" with
          | Some e => mret (Some ("wallet creation failed: " +:+ e))
          | None => mret None
          end
      end
  end.

Definition wallet_db_path (home : string) : option string :=
  if decide (GOOS = "darwin") then
    Some (path_Join [home; "Library"; "Application Support"; "Btcwallet"; "mainnet"; "wallet.db"])
  else if decide (GOOS = "linux") then
    Some (path_Join [home; ".btcwallet"; "mainnet"; "wallet.db"])
  else if decide (GOOS = "windows") then
    Some (path_Join [home; "AppData"; "Roaming"; "Btcwallet"; "mainnet"; "wallet.db"])
  else None.

Definition DeleteWallet_manager : GoM SWorld error :=
  h ← s_tick;
  match HomeDir h with
  | inr e => mret (Some ("failed to get current user: " +:+ e))
  | inl home =>
      match wallet_db_path home with
      | None => mret (Some ("unsupported OS: " +:+ GOOS))
      | Some walletPath =>
          n ← s_tick;
          if StatMissing n walletPath
          then mret (Some ("wallet file does not exist at path: " +:+ walletPath)) else
          m ← s_tick;
          match RemoveFile m walletPath with
          | Some e => mret (Some ("failed to delete wallet at path " +:+ walletPath +:+ ": " +:+ e))
          | None => s_emit (SvRemove walletPath);; mret None
          end
      end
  end.

(** *** btcctl *)

Definition btcctl_flags : list string :=
  ["--wallet"; "--rpcuser=user"; "--rpcpass=password"; "--rpcserver=127.0.0.1:8332"; "--notls"].

Definition btcctl_params (cmdStr : string) : list string :=
  btcctl_flags ++ Split cmdStr " "%char.

Definition CallBtcctlCmd (cmdStr : string) : GoM SWorld (string + string) :=
  r ← getExePath;
  match r with
  | inr e => mret (inr ("failed to get executable path: " +:+ e))
  | inl root =>
      let btcctlPath := path_Join [root; "btcd"; "cmd"; "btcctl"; "btcctl"] in
      n ← s_tick;
      if StatMissing n btcctlPath
      then mret (inr ("btcctl binary not found at " +:+ btcctlPath)) else
      m ← s_tick;
      s_emit (SvBtcctl (btcctl_params cmdStr));;
      match RunBtcctl m (btcctl_params cmdStr) with
      | inr e => mret (inr ("failed to execute btcctl command: " +:+ e))
      | inl output => mret (inl (TrimSpace output))
      end
  end.

(** The text [ "isvalid": true ]. *)
Definition isvalid_text : string :=
  sep1 (chr 34) +:+ "isvalid" +:+ sep1 (chr 34) +:+ ": true".

Definition ValidateAddress (address : string) : GoM SWorld (bool * error) :=
  r ← CallBtcctlCmd ("validateaddress " +:+ address);
  match r with
  | inr e => mret (false, Some ("failed to validate address: " +:+ e))
  | inl output => mret (Contains output isvalid_text, None)
  end.

Definition ParseBalanceAndAmount (balanceStr amountStr : string) : (f64 * f64) + string :=
  match ParseFloat balanceStr with
  | (_, Some e) => inr ("invalid balance format: " +:+ e)
  | (balance, None) =>
      match ParseFloat amountStr with
      | (_, Some e) => inr ("invalid amount format: " +:+ e)
      | (amount, None) => inl (balance, amount)
      end
  end.
End Manager.
