(* ===== verification/WalletHandlers.v ===== *)
(** * Wallet server: HTTP handlers

    server/handlers/handlers.go.  A handler takes the decoded request and
    gives the response it writes: the status, the cookies and the body.  The
    panic of a nil dereference is a panic of the run. *)

From stdpp Require Import base gmap strings list fin_maps.
From Stdlib Require Import ZArith Ascii SpecFloat.
From S2P Require Import Prelude GoStrings GoFloat FSTypes WalletServer.

Open Scope string_scope.
Open Scope list_scope.
Open Scope nat_scope.

Record Cookie := mkCookie { c_Name : string; c_Value : string; c_Expires : Time }.

Inductive Body := Text (s : string) | Json (j : json).

Record Response := mkResponse { status : Z; cookies : list Cookie; body : Body }.

(** [http.Error] ends the message with a newline. *)
Definition http_Error (msg : string) (code : Z) : Response :=
  mkResponse code [] (Text (msg +:+ sep1 nl)).
Definition with_cookie (c : Cookie) (r : Response) : Response :=
  mkResponse (status r) (c :: cookies r) (body r).
Definition StatusOK : Z := 200.
Definition StatusCreated : Z := 201.
Definition StatusBadRequest : Z := 400.
Definition StatusUnauthorized : Z := 401.
Definition StatusNotFound : Z := 404.
Definition StatusInternalServerError : Z := 500.

(** The seconds from the zero time to 1970. *)
Definition unix_epoch : Z := 62135596800.

Definition Hour : Z := 3600 * Second.

Definition charset : string := "abcdefghijklmnopqrstuvwxyzABCDEFGHIJKLMNOPQRSTUVWXYZ0123456789".

Section Handlers.
Context `{Os} `{JsonCodec}.
(* time.Unix(sec, 0).Format(time.RFC3339), in the local time zone *)
Context (rfc3339 : Z → string).
(* the text of encoding/json's error for an input it cannot decode *)
Context (json_error : string → string).

Definition err_text {A} (r : A + string) : option string :=
  match r with inr e => Some e | inl _ => None end.

(** ** Passwords *)

Fixpoint GenerateRandomPassword (length : nat) : GoM SWorld (string + string) :=
  match length with
  | O => mret (inl EmptyString)
  | S k =>
      n ← s_tick;
      match RandInt n (Z.of_nat (String.length charset)) with
      | inr e => mret (inr ("failed to generate random index: " +:+ e))
      | inl i =>
          r ← GenerateRandomPassword k;
          match r with
          | inr e => mret (inr e)
          | inl rest =>
              match String.get (Z.to_nat i) charset with
              | Some c => mret (inl (String c rest))
              | None => go_panic
              end
          end
      end
  end.

Definition unlock_command (password : string) (seconds : Z) : string :=
  "walletpassphrase " +:+ password +:+ " " +:+ fmt_d seconds.

(** Decoding into [interface{}]: every number becomes a float64, which fails
    when it is out of range, and of several members with one key the last
    one counts.  [reencode] is the text of the decoded value. *)
Fixpoint numbers_ok (j : json) : bool :=
  match j with
  | JNum lit => match ParseFloat lit with (_, None) => true | _ => false end
  | JArr l => forallb numbers_ok l
  | JObj l => forallb (λ kv, numbers_ok kv.2) l
  | _ => true
  end.
Fixpoint last_members (l : list (string * json)) : list (string * json) :=
  match l with
  | [] => []
  | kv :: l' => if existsb (λ kv', bool_decide (kv'.1 = kv.1)) l' then last_members l'
                else kv :: last_members l'
  end.
Fixpoint reencode (j : json) : json :=
  match j with
  | JNum lit => JNum (json_float64 (ParseFloat lit).1)
  | JArr l => JArr (map reencode l)
  | JObj l => JObj (last_members (map (λ kv, (kv.1, reencode kv.2)) l))
  | _ => j
  end.

(** Decoding into [[]map[string]interface{}]: null, or an array of objects
    and nulls. *)
Definition transactions_of (output : string) : option json :=
  match json_parse (bytes_of output) with
  | Some JNull => Some JNull
  | Some (JArr l) =>
      if forallb (λ j, match j with JObj _ | JNull => numbers_ok j | _ => false end) l
      then Some (JArr l) else None
  | _ => None
  end.

(** ** Wallet life cycle *)

Definition CreateWallet : GoM SWorld Response :=
  let fail msg e := mret (http_Error (msg +:+ e) StatusInternalServerError) in
  p ← GenerateRandomPassword 12;
  match p with
  | inr e => fail "Failed to generate password: " e
  | inl password =>
      e1 ← CreateWallet_manager password;
      match e1 with
      | Some e => fail "Failed to create wallet: " e
      | None =>
          e2 ← StartWallet;
          match e2 with
          | Some e => fail "Failed to start btcwallet after wallet creation: " e
          | None =>
              a ← CallBtcctlCmd "getnewaddress";
              match a with
              | inr e => fail "Failed to generate mining address: " e
              | inl newAddress =>
                  e3 ← ConfigureMiningAddress newAddress;
                  match e3 with
                  | Some e => fail "Failed to configure mining address: " e
                  | None =>
                      u ← CallBtcctlCmd (unlock_command password (24 * 60 * 60));
                      match u with
                      | inr e => fail "Failed to unlock wallet: " e
                      | inl _ =>
                          mret (mkResponse StatusCreated []
                            (Json (JObj [("message", JStr
                               "Wallet created and mining address configured successfully!");
                              ("password", JStr password);
                              ("miningAddress", JStr newAddress)])))
                      end
                  end
              end
          end
      end
  end.

(** Steps 3 to 7 of [Login], which [RetriveInfo] repeats: find the mining
    address, restart btcd, read the history and the balance.  [remember] is
    what happens between the restart and the queries. *)
Definition restart_and_report (remember : GoM SWorld (list Cookie)) : GoM SWorld Response :=
  m ← GetMiningAddressFromConfig;
  let miningAddr := match m with inl a => a | inr _ => EmptyString end in
  if decide (miningAddr = EmptyString) then
    mret (http_Error "Mining address not configured. Please create a wallet first."
            StatusUnauthorized)
  else
  e1 ← StopOrcaNet;
  match e1 with
  | Some e => mret (http_Error ("Failed to stop btcd: " +:+ e) StatusInternalServerError)
  | None =>
      e2 ← StartOrcaNet miningAddr;
      match e2 with
      | Some e => mret (http_Error ("Failed to start btcd with mining address: " +:+ e)
                          StatusInternalServerError)
      | None =>
          cs ← remember;
          let finish r := mret (foldr with_cookie r cs) in
          t ← CallBtcctlCmd "listtransactions";
          match t with
          | inr e => finish (http_Error ("Failed to retrieve transaction history: " +:+ e)
                               StatusInternalServerError)
          | inl out =>
              match transactions_of out with
              | Some transactions =>
                  b ← CallBtcctlCmd "getbalance";
                  match b with
                  | inr e => finish (http_Error ("Failed to retrieve balance: " +:+ e)
                                       StatusInternalServerError)
                  | inl balance =>
                      finish (mkResponse StatusOK []
                        (Json (JObj [("message", JStr "Logged in successfully, services are running.");
                                     ("miningAddress", JStr miningAddr);
                                     ("balance", JStr balance);
                                     ("transactions", reencode transactions)])))
                  end
              | None => finish (http_Error
                  ("Failed to parse transaction history: " +:+ json_error out)
                  StatusInternalServerError)
              end
          end
      end
  end.

(** [request]: the decoded payload (password, rememberMe), or a decoding
    error. *)
Definition Login (request : option (string * bool)) : GoM SWorld Response :=
  match request with
  | None => mret (http_Error "Invalid request payload" StatusBadRequest)
  | Some (password, rememberMe) =>
      e ← StartWallet;
      match e with
      | Some _ => mret (http_Error "Failed to start wallet. Please create a wallet first."
                          StatusUnauthorized)
      | None =>
          n ← s_tick;
          let token := SUUID n in
          t ← s_tick;
          exp ← (if rememberMe : bool then t2 ← s_tick; mret (STime t2 + 24 * Hour)%Z
                 else mret (STime t + Hour)%Z);
          u ← CallBtcctlCmd (unlock_command password (24 * 60 * 60));
          match u with
          | inr err => mret (http_Error ("Failed to unlock wallet: " +:+ err) StatusUnauthorized)
          | inl _ =>
              restart_and_report
                ((if rememberMe then s_update (set_sessionDB <[token := mkSession password exp]>)
                  else mret ());;
                 mret [mkCookie "session_token" token exp])
          end
      end
  end.

(** [cookie]: the value of the session cookie, if the request carries it.
    The remaining time is printed with [%d]: a number of nanoseconds. *)
Definition RetriveInfo (cookie : option string) : GoM SWorld Response :=
  match cookie with
  | None => mret (http_Error "Error getting cookie" StatusBadRequest)
  | Some token =>
      db ← s_read sessionDB;
      n ← s_tick;
      match db !! token with
      | None => mret (http_Error "Expired session token" StatusUnauthorized)
      | Some session =>
          if (ExpiresAt session <? STime n)%Z
          then mret (http_Error "Expired session token" StatusUnauthorized) else
          e ← StartWallet;
          match e with
          | Some _ => mret (http_Error "Failed to start wallet. Please create a wallet first."
                              StatusUnauthorized)
          | None =>
              m ← s_tick;
              let duration := Time_Sub (ExpiresAt session) (STime m) in
              u ← CallBtcctlCmd (unlock_command (Password session) duration);
              match u with
              | inr err => mret (http_Error ("Failed to unlock wallet: " +:+ err) StatusUnauthorized)
              | inl _ => restart_and_report (mret [])
              end
          end
      end
  end.

Definition Logout : GoM SWorld Response :=
  n ← s_tick;
  let clear := mkCookie "session_token" EmptyString (STime n - Hour)%Z in
  r ← CallBtcctlCmd "walletlock";
  match r with
  | inr e => mret (with_cookie clear
                     (http_Error ("Failed to lock wallet: " +:+ e) StatusInternalServerError))
  | inl _ =>
      e ← StopWallet;
      match e with
      | Some err => mret (with_cookie clear
          (http_Error ("Failed to stop btcwallet: " +:+ err) StatusInternalServerError))
      | None => mret (with_cookie clear (mkResponse StatusOK []
          (Json (JObj [("message", JStr "Wallet locked and btcwallet stopped successfully!")]))))
      end
  end.

Definition DeleteWallet : GoM SWorld Response :=
  e ← DeleteWallet_manager;
  match e with
  | Some err => mret (http_Error ("Failed to delete wallet: " +:+ err) StatusInternalServerError)
  | None => mret (mkResponse StatusOK [] (Text ("Wallet deleted successfully." +:+ sep1 nl)))
  end.

(** [None]: the program exits; its goroutines do not get to run. *)
Definition Shutdown : GoM SWorld (option Response) :=
  e ← StopWallet;
  match e with
  | Some err => mret (Some (http_Error ("Failed to stop btcwallet: " +:+ err)
                              StatusInternalServerError))
  | None =>
      e' ← StopOrcaNet;
      match e' with
      | Some err => mret (Some (http_Error ("Failed to stop OrcaNet (btcd): " +:+ err)
                                  StatusInternalServerError))
      | None => mret None
      end
  end.

(** ** Queries and payments *)

(** A query that returns the output of one btcctl command. *)
Definition query (cmd key msg : string) : GoM SWorld Response :=
  r ← CallBtcctlCmd cmd;
  match r with
  | inr e => mret (http_Error (msg +:+ e) StatusInternalServerError)
  | inl out => mret (mkResponse StatusOK [] (Json (JObj [(key, JStr out)])))
  end.
Definition GetNewAddress : GoM SWorld Response :=
  query "getnewaddress" "newAddress" "Failed to generate new address: ".
Definition GetBalance : GoM SWorld Response :=
  query "getbalance" "balance" "Failed to retrieve balance: ".

Definition Mine (numBlocks : option Z) : GoM SWorld Response :=
  match numBlocks with
  | Some k =>
      if (k <=? 0)%Z then mret (http_Error "Invalid request payload" StatusBadRequest) else
      r ← CallBtcctlCmd ("generate " +:+ fmt_d k);
      match r with
      | inr e => mret (http_Error ("Failed to start mining: " +:+ e) StatusInternalServerError)
      | inl output =>
          mret (mkResponse StatusOK []
            (Json (JObj [("message", JStr "Mining started successfully");
                         ("block_hash", JArr (map JStr (Split (TrimSpace output) nl)))])))
      end
  | None => mret (http_Error "Invalid request payload" StatusBadRequest)
  end.

Definition GetMiningAddress : GoM SWorld Response :=
  m ← GetMiningAddressFromConfig;
  match m with
  | inl addr =>
      if decide (addr = EmptyString)
      then mret (http_Error "Mining address not configured or unavailable." StatusNotFound)
      else mret (mkResponse StatusOK [] (Json (JObj [("miningAddress", JStr addr)])))
  | inr _ => mret (http_Error "Mining address not configured or unavailable." StatusNotFound)
  end.

Definition send_command (address amount : string) : string :=
  "sendtoaddress " +:+ address +:+ " " +:+ amount.

(** [err.Error()] on a nil error panics: an address that btcctl reports as
    invalid reaches it. *)
Definition SendToAddress (request : option (string * string)) : GoM SWorld Response :=
  match request with
  | None => mret (http_Error "Invalid request payload" StatusBadRequest)
  | Some (address, amountStr) =>
      v ← ValidateAddress address;
      match v with
      | (_, Some e) => mret (http_Error ("Invalid recipient address: " +:+ e) StatusBadRequest)
      | (false, None) => go_panic
      | (true, None) =>
          b ← CallBtcctlCmd "getbalance";
          match b with
          | inr e => mret (http_Error ("Failed to retrieve wallet balance: " +:+ e)
                             StatusInternalServerError)
          | inl balanceStr =>
              match ParseBalanceAndAmount balanceStr amountStr with
              | inr e => mret (http_Error ("Failed to parse balance or amount: " +:+ e)
                                 StatusInternalServerError)
              | inl (balance, amount) =>
                  if f_gt amount balance
                  then mret (http_Error "Insufficient funds to complete the transaction"
                               StatusBadRequest) else
                  r ← CallBtcctlCmd (send_command address amountStr);
                  match r with
                  | inr e => mret (http_Error ("Failed to send funds: " +:+ e)
                                     StatusInternalServerError)
                  | inl txid =>
                      mret (mkResponse StatusOK []
                        (Json (JObj [("message", JStr "Funds sent successfully!");
                                     ("txid", JStr txid)])))
                  end
              end
          end
      end
  end.

(** One entry of the history: the type assertion on the time panics when
    the member is missing or not a number. *)
Definition history_entry (tx : list (string * json)) : option json :=
  let field k := reencode (default JNull (assoc k tx)) in
  match assoc "time" tx with
  | Some (JNum lit) =>
      Some (JObj [("txid", field "txid");
                  ("time", JStr (rfc3339 (int64_of_float (ParseFloat lit).1)));
                  ("amount", field "amount"); ("category", field "category");
                  ("confirmations", field "confirmations");
                  ("address", reencode (default (JStr "N/A") (assoc "address" tx)))])
  | _ => None
  end.
Fixpoint history_entries (l : list json) : option (list json) :=
  match l with
  | [] => Some []
  | JObj tx :: rest => e ← history_entry tx; es ← history_entries rest; Some (e :: es)
  | _ :: _ => None
  end.
Definition GetTransactionHistory : GoM SWorld Response :=
  r ← CallBtcctlCmd "listtransactions";
  match r with
  | inr e => mret (http_Error ("Failed to retrieve transaction history: " +:+ e)
                     StatusInternalServerError)
  | inl output =>
      match transactions_of output with
      | Some (JArr l) =>
          match history_entries l with
          | None => go_panic
          | Some [] => mret (mkResponse StatusOK [] (Json (JObj [("transactions", JNull)])))
          | Some es => mret (mkResponse StatusOK [] (Json (JObj [("transactions", JArr es)])))
          end
      | Some _ => mret (mkResponse StatusOK [] (Json (JObj [("transactions", JNull)])))
      | None => mret (http_Error ("Failed to parse transaction history: " +:+ json_error output)
                        StatusInternalServerError)
      end
  end.

(** [getTransactionAddresses]: the addresses of the outputs of a transaction;
    a type assertion on an entry of another kind panics. *)
Fixpoint vout_addresses (l : list json) : option (list string) :=
  match l with
  | [] => Some []
  | JObj vout :: rest =>
      here ← match assoc "scriptPubKey" vout with
             | Some (JObj script) =>
                 match assoc "addresses" script with
                 | Some (JArr addrs) => mapM kind_str addrs
                 | _ => Some []
                 end
             | _ => Some []
             end;
      others ← vout_addresses rest;
      Some (here ++ others)
  | _ :: _ => None
  end.
Definition getTransactionAddresses (txid : string) : GoM SWorld (list string + string) :=
  r ← CallBtcctlCmd ("getrawtransaction " +:+ txid +:+ " 1");
  match r with
  | inr e => mret (inr ("failed to get transaction details for txid " +:+ txid +:+ ": " +:+ e))
  | inl output =>
      match json_parse (bytes_of output) ≫= members with
      | Some l =>
          if forallb (λ kv, numbers_ok kv.2) l then
            match assoc "vout" l with
            | Some (JArr vouts) =>
                match vout_addresses vouts with
                | Some addresses => mret (inl addresses)
                | None => go_panic
                end
            | _ => mret (inl [])
            end
          else mret (inr ("failed to parse transaction details for txid " +:+ txid +:+ ": "
                          +:+ json_error output))
      | None => mret (inr ("failed to parse transaction details for txid " +:+ txid +:+ ": "
                           +:+ json_error output))
      end
  end.

(** ** CPU usage: [ps aux | grep btcd | grep -v grep] *)

Definition cpu_of_line (line : string) : option f64 :=
  if Contains line "btcd" then
    match Fields line with
    | _ :: _ :: c :: _ => match ParseFloat c with (v, None) => Some v | _ => None end
    | _ => None
    end
  else None.
Definition getUsage (output : string + string) : string + string :=
  match output with
  | inr e => inr e
  | inl out =>
      let total :=
        fold_left (λ acc line, match cpu_of_line line with
                               | Some v => f64_add acc v | None => acc end)
                  (Split out nl) (S754_zero false) in
      if SFeqb total (S754_zero false) then inr "processes found"
      else inl (fmt_2f total +:+ "%")
  end.
Definition TrackCPU (output : string + string) : Response :=
  match getUsage output with
  | inr _ => http_Error "Can't get CPU Usage" StatusInternalServerError
  | inl usage => mkResponse StatusOK [] (Json (JObj [("usage", JStr usage)]))
  end.

(** ** Routes (server/main.go)

    One request at a time: the handlers share the variables without a lock,
    and the model runs each to its end before the next. *)

Definition GetRoot : Response :=
  mkResponse StatusOK [] (Json (JObj [("message", JStr "Welcome to OrcaNet API from testcrypto!")])).

Definition GetHello : GoM SWorld Response :=
  n ← s_tick;
  mret (mkResponse StatusOK []
          (Json (JObj [("message", JStr "Hello World!");
                       ("timestamp", JStr (rfc3339 (STime n / Second - unix_epoch)%Z))]))).

Inductive Request :=
| RqRoot
| RqHello
| RqCreateWallet
| RqLogin (payload : option (string * bool))
| RqRetrieveInfo (cookie : option string)
| RqGetMiningAddress
| RqGetNewAddress
| RqGetBalance
| RqMine (numBlocks : option Z)
| RqSendToAddress (payload : option (string * string))
| RqGetTransactionHistory
| RqLogout
| RqShutdown
| RqDeleteWallet
| RqTrack (ps : string + string).

Definition responds (m : GoM SWorld Response) : GoM SWorld (option Response) :=
  r ← m; mret (Some r).

Definition setupRoutes (r : Request) : GoM SWorld (option Response) :=
  match r with
  | RqRoot => mret (Some GetRoot)
  | RqHello => responds GetHello
  | RqCreateWallet => responds CreateWallet
  | RqLogin p => responds (Login p)
  | RqRetrieveInfo c => responds (RetriveInfo c)
  | RqGetMiningAddress => responds GetMiningAddress
  | RqGetNewAddress => responds GetNewAddress
  | RqGetBalance => responds GetBalance
  | RqMine n => responds (Mine n)
  | RqSendToAddress p => responds (SendToAddress p)
  | RqGetTransactionHistory => responds GetTransactionHistory
  | RqLogout => responds Logout
  | RqShutdown => Shutdown
  | RqDeleteWallet => responds DeleteWallet
  | RqTrack ps => mret (Some (TrackCPU ps))
  end.

(** [main] before it serves: whether it gets that far. *)
Definition server_main : GoM SWorld bool :=
  e ← StartOrcaNet EmptyString;
  match e with Some _ => mret false | None => mret true end.

(** [handleGracefulShutdown] on a signal: the exit status of the program.
    btcwallet is left running. *)
Definition graceful_shutdown : GoM SWorld Z :=
  e ← StopOrcaNet;
  match e with Some _ => mret 1%Z | None => mret 0%Z end.
End Handlers.
