(* ===== verification/WalletFacts.v ===== *)
(** * Wallet server: properties

    What the payment handler checks before it sends, the round trip of the
    mining address through btcd's configuration file, the number of processes
    at every moment, and the state that an unclean stop leads to. *)

From stdpp Require Import base gmap strings list fin_maps relations.
From Stdlib Require Import ZArith Ascii Lia SpecFloat.
From S2P Require Import Prelude GoStrings GoFloat FSTypes WalletServer WalletHandlers.

Open Scope string_scope.
Open Scope list_scope.
Open Scope nat_scope.

Section Exec.
Context {A B : Type}.
Lemma s_bind_tick (f : nat → GoM SWorld B) w :
  (s_tick ≫= f) w = f (sclock w) (mkSWorld (srv w) (trace w) (S (sclock w))).
Proof. done. Qed.
Lemma s_bind_read (g : Server → A) (f : A → GoM SWorld B) w :
  (s_read g ≫= f) w = f (g (srv w)) w.
Proof. done. Qed.
Lemma s_bind_update g (f : () → GoM SWorld B) w :
  (s_update g ≫= f) w = f () (mkSWorld (g (srv w)) (trace w) (sclock w)).
Proof. done. Qed.
Lemma s_bind_emit e (f : () → GoM SWorld B) w :
  (s_emit e ≫= f) w = f () (mkSWorld (srv w) (trace w ++ [e]) (sclock w)).
Proof. done. Qed.
Lemma s_bind_ret (a : A) (f : A → GoM SWorld B) w : (mret a ≫= f) w = f a w.
Proof. done. Qed.
End Exec.

Ltac s_run :=
  repeat first [rewrite s_bind_tick | rewrite s_bind_read | rewrite s_bind_update
               | rewrite s_bind_emit | rewrite s_bind_ret]; cbn [srv trace sclock].
Ltac s_run_in H :=
  repeat first [rewrite s_bind_tick in H | rewrite s_bind_read in H | rewrite s_bind_update in H
               | rewrite s_bind_emit in H | rewrite s_bind_ret in H]; cbn [srv trace sclock] in H.

(** ** btcctl *)

Section Btcctl.
Context `{Os}.

Lemma getExePath_run w :
  ∃ r, getExePath w = Done r (mkSWorld (srv w) (trace w) (S (sclock w))) ∧
       match Getwd (sclock w) with inl wd => r = inl (path_Dir wd) | inr _ => ∃ e, r = inr e end.
Proof.
  unfold getExePath. s_run. destruct (Getwd (sclock w)); eexists; (split; [reflexivity|]); eauto.
Qed.

(** A btcctl call always returns, leaves the variables alone, and runs the
    program at most once, with the flags and the words of the command; it
    runs it whenever it has an output. *)
Lemma CallBtcctlCmd_run c w :
  ∃ r w', CallBtcctlCmd c w = Done r w' ∧ srv w' = srv w ∧
    (trace w' = trace w ++ [SvBtcctl (btcctl_params c)] ∧
       (∀ out, r = inl out → ∃ n raw, RunBtcctl n (btcctl_params c) = inl raw ∧
                                      out = TrimSpace raw) ∨
     trace w' = trace w ∧ ∃ e, r = inr e).
Proof.
  unfold CallBtcctlCmd. destruct (getExePath_run w) as (r & Hr & _).
  rewrite (bind_done _ _ _ _ _ Hr).
  destruct r as [root|e].
  2: { eexists _, _. split; [reflexivity|]. split; [done|]. right. eauto. }
  s_run. destruct (StatMissing _ _).
  { eexists _, _. split; [reflexivity|]. split; [done|]. right. eauto. }
  s_run. destruct (RunBtcctl _ _) as [raw|e] eqn:E; eexists _, _;
    (split; [reflexivity|]); (split; [done|]); left; (split; [done|]).
  - intros out [= <-]. eauto.
  - done.
Qed.

Lemma ValidateAddress_run a w :
  ∃ b e w', ValidateAddress a w = Done (b, e) w' ∧ srv w' = srv w ∧
    (trace w' = trace w ∧ e ≠ None ∨
     trace w' = trace w ++ [SvBtcctl (btcctl_params ("validateaddress " +:+ a))] ∧
     (e = None → ∃ n raw, RunBtcctl n (btcctl_params ("validateaddress " +:+ a)) = inl raw ∧
                          b = Contains (TrimSpace raw) isvalid_text)).
Proof.
  unfold ValidateAddress.
  destruct (CallBtcctlCmd_run ("validateaddress " +:+ a) w) as (r & w' & Hr & Hs & Ht).
  rewrite (bind_done _ _ _ _ _ Hr). destruct r as [out|e].
  - destruct Ht as [[Ht Hout]|[_ [e ?]]]; [|done].
    destruct (Hout out eq_refl) as (n & raw & Hraw & ->). eexists _, _, _. split; [reflexivity|].
    split; [done|]. right. eauto.
  - eexists _, _, _. split; [reflexivity|]. split; [done|].
    destruct Ht as [[Ht _]|[Ht _]]; [right|left]; split; done.
Qed.
End Btcctl.

(** ** Payments *)

Section Payments.
Context `{Os}.

Definition validate_call (address : string) : SEvent :=
  SvBtcctl (btcctl_params ("validateaddress " +:+ address)).
Definition balance_call : SEvent := SvBtcctl (btcctl_params "getbalance").
Definition send_call (address amount : string) : SEvent :=
  SvBtcctl (btcctl_params (send_command address amount)).

(** What holds when the transfer command has been run. *)
Definition payment_checked (address amountStr : string) : Prop :=
  ∃ n raw m bal balance amount,
    RunBtcctl n (btcctl_params ("validateaddress " +:+ address)) = inl raw ∧
    Contains (TrimSpace raw) isvalid_text = true ∧
    RunBtcctl m (btcctl_params "getbalance") = inl bal ∧
    ParseFloat (TrimSpace bal) = (balance, None) ∧
    ParseFloat amountStr = (amount, None) ∧
    f_gt amount balance = false.

(** C31. The commands [SendToAddress] runs, in order: validate, balance,
    send, each at most once and none out of turn.  The transfer is run only
    when btcctl reported the address valid, the balance and the amount
    parsed, and the amount does not exceed the balance. *)
Theorem SendToAddress_checked address amountStr w :
  ∃ evs, trace (final (SendToAddress (Some (address, amountStr)) w)) = trace w ++ evs ∧
    evs `prefix_of` [validate_call address; balance_call; send_call address amountStr] ∧
    (length evs = 3 → payment_checked address amountStr) ∧
    srv (final (SendToAddress (Some (address, amountStr)) w)) = srv w.
Proof.
  unfold SendToAddress.
  destruct (ValidateAddress_run address w) as (b & e & w1 & Hv & Hs1 & Ht1).
  rewrite (bind_done _ _ _ _ _ Hv).
  destruct e as [e|].
  { destruct Ht1 as [[Ht1 _]|[Ht1 _]]; [exists []|exists [validate_call address]].
    all: destruct b; simpl; rewrite ?app_nil_r; split_and!; try done; by eexists. }
  destruct Ht1 as [[_ ?]|[Ht1 Hok]]; [done|]. destruct (Hok eq_refl) as (n & raw & Hraw & Hb).
  destruct b.
  2: { exists [validate_call address]. simpl. split_and!; try done. by eexists. }
  destruct (CallBtcctlCmd_run "getbalance" w1) as (r2 & w2 & Hr2 & Hs2 & Ht2).
  rewrite (bind_done _ _ _ _ _ Hr2).
  destruct r2 as [balanceStr|e].
  2: { destruct Ht2 as [[Ht2 _]|[Ht2 _]];
         [exists [validate_call address; balance_call]|exists [validate_call address]];
       simpl; rewrite Ht2, Ht1, <- ?app_assoc; (split_and!; [done| |done|congruence]);
       by eexists. }
  destruct Ht2 as [[Ht2 Hout2]|[_ [? ?]]]; [|done].
  destruct (Hout2 _ eq_refl) as (m & bal & Hbal & ->).
  assert (trace w2 = trace w ++ [validate_call address; balance_call]) as Ht12
    by (rewrite Ht2, Ht1, <- app_assoc; done).
  assert (srv w2 = srv w) as Hs12 by congruence. clear Ht2 Hs2 Hr2.
  unfold ParseBalanceAndAmount.
  destruct (ParseFloat (TrimSpace bal)) as [balance [e|]] eqn:Eb.
  { eexists [_; _]. simpl. split_and!; try done. by eexists. }
  destruct (ParseFloat amountStr) as [amount [e|]] eqn:Ea.
  { eexists [_; _]. simpl. split_and!; try done. by eexists. }
  destruct (f_gt amount balance) eqn:Eg.
  { eexists [_; _]. simpl. split_and!; try done. by eexists. }
  destruct (CallBtcctlCmd_run (send_command address amountStr) w2) as (r3 & w3 & Hr3 & Hs3 & Ht3).
  rewrite (bind_done _ _ _ _ _ Hr3).
  assert (payment_checked address amountStr) as Hc
    by (exists n, raw, m, bal, balance, amount; split_and!; done).
  assert (∀ T (x : T), final (Done x w3) = w3) as Hfin by done.
  destruct Ht3 as [[Ht3 _]|[Ht3 _]];
    [exists [validate_call address; balance_call; send_call address amountStr]
    |exists [validate_call address; balance_call]].
  all: rewrite Ht12 in Ht3; try rewrite <- app_assoc in Ht3.
  all: destruct r3; simpl; split_and!; try done; try congruence.
  all: by eexists.
Qed.

(** An address that btcctl reports as not valid crashes the handler: it
    calls [Error] on the nil error. *)
Theorem SendToAddress_invalid_panics address amountStr wd raw w :
  (∀ n, Getwd n = inl wd) → (∀ n p, StatMissing n p = false) →
  (∀ n, RunBtcctl n (btcctl_params ("validateaddress " +:+ address)) = inl raw) →
  Contains (TrimSpace raw) isvalid_text = false →
  ∃ w', SendToAddress (Some (address, amountStr)) w = Panic w'.
Proof.
  intros Hwd Hst Hraw Hc. unfold SendToAddress, ValidateAddress, CallBtcctlCmd, getExePath.
  eexists. erewrite bind_done; cycle 1.
  - erewrite bind_done; cycle 1.
    + erewrite bind_done; cycle 1.
      { s_run. rewrite Hwd. reflexivity. }
      cbv beta iota. s_run. rewrite Hst. s_run. rewrite Hraw. reflexivity.
    + cbv beta iota. reflexivity.
  - cbv beta iota. rewrite Hc. reflexivity.
Qed.
End Payments.

(** The funds check is no upper bound on odd amounts: "NaN" is accepted
    whatever the balance, and so is every amount that parses to a negative
    number when the balance is not negative. *)
Theorem funds_check_gaps balanceStr balance :
  ParseFloat balanceStr = (balance, None) →
  (∃ x, ParseBalanceAndAmount balanceStr "NaN" = inl (balance, x) ∧ f_gt x balance = false) ∧
  (∀ amountStr m e, ParseFloat amountStr = (S754_finite true m e, None) →
     SFleb (S754_zero false) balance = true →
     ∃ x, ParseBalanceAndAmount balanceStr amountStr = inl (balance, x) ∧
          f_gt x balance = false).
Proof.
  intros Hb. unfold ParseBalanceAndAmount. rewrite Hb. split.
  - exists S754_nan. split; [reflexivity|]. unfold f_gt, SFltb. by destruct balance.
  - intros amountStr m e Ha Hle. rewrite Ha. eexists; split; [done|].
    unfold f_gt, SFltb. destruct balance as [s|s| |s m' e']; try done; destruct s; done.
Qed.

(** ** The configuration file *)

Definition is_mining_line (line : string) : bool := HasPrefix line "miningaddr=".

Lemma is_mining_mining_line a : is_mining_line (mining_line a) = true.
Proof. apply HasPrefix_app. Qed.

Lemma find_mining_update a lines :
  find_mining (update_lines a lines) = TrimSpace a.
Proof.
  unfold update_lines.
  assert (∀ l, find_mining (mining_line a :: l) = TrimSpace a) as Hhd.
  { intros l. simpl. unfold mining_line. by rewrite HasPrefix_app, TrimPrefix_app. }
  induction lines as [|line rest IH]; [apply Hhd|].
  simpl. destruct (HasPrefix line "miningaddr=") eqn:E; [apply Hhd|].
  destruct (replace_mining a rest) as [rest'|]; simpl in *; rewrite E; exact IH.
Qed.

Lemma update_lines_others a lines :
  List.filter (negb ∘ is_mining_line) (update_lines a lines) =
  List.filter (negb ∘ is_mining_line) lines.
Proof.
  unfold update_lines.
  assert (∀ l, List.filter (negb ∘ is_mining_line) (mining_line a :: l) =
               List.filter (negb ∘ is_mining_line) l) as Hhd.
  { intros l. simpl. by rewrite is_mining_mining_line. }
  induction lines as [|line rest IH]; [apply Hhd|].
  simpl replace_mining. fold (is_mining_line line).
  destruct (is_mining_line line) eqn:E.
  - transitivity (List.filter (negb ∘ is_mining_line) (mining_line a :: rest)); [done|].
    rewrite Hhd. simpl. by rewrite E.
  - destruct (replace_mining a rest) as [rest'|]; simpl in *; rewrite E; simpl; by rewrite IH.
Qed.

Lemma update_lines_plain a lines :
  ¬ occurs nl a → Forall (λ p, ¬ occurs nl p) lines →
  Forall (λ p, ¬ occurs nl p) (update_lines a lines).
Proof.
  intros Ha. assert (¬ occurs nl (mining_line a)) as Hm.
  { unfold occurs, mining_line. rewrite bytes_of_app, elem_of_app. intros [Hin|Hin]; [|done].
    revert Hin. vm_compute. intros Hin. repeat (apply elem_of_cons in Hin as [?|Hin]; [done|]).
    by apply elem_of_nil in Hin. }
  unfold update_lines. induction lines as [|line rest IH]; intros Hl; [by apply Forall_singleton|].
  apply Forall_cons in Hl as [Hline Hrest]. specialize (IH Hrest). simpl.
  destruct (HasPrefix line _); [by constructor|].
  destruct (replace_mining a rest); simpl in *; by constructor.
Qed.

Section Config.
Context `{Os}.

(** The mining address survives the configuration file: after an
    update, reading the file gives the new address without surrounding
    white space; every line that does not set the address is kept, in
    order, and no other file changes. *)
Theorem mining_address_roundtrip address wd content w w' :
  (∀ n, Getwd n = inl wd) → (∀ n p, ReadFileErr n p = None) →
  ¬ occurs nl address →
  files (srv w) !! config_path (path_Dir wd) = Some content →
  UpdateBtcdConfigWithMiningAddr address w = Done None w' →
  (∃ w2, GetMiningAddressFromConfig w' = Done (inl (TrimSpace address)) w2) ∧
  (∃ content', files (srv w') = <[config_path (path_Dir wd) := content']> (files (srv w)) ∧
     List.filter (negb ∘ is_mining_line) (Split content' nl) =
     List.filter (negb ∘ is_mining_line) (Split content nl)).
Proof.
  intros Hwd Hrd Ha Hc Hrun. unfold UpdateBtcdConfigWithMiningAddr in Hrun.
  destruct (getExePath_run w) as (r & Hr & Er). rewrite Hwd in Er. subst r.
  rewrite (bind_done _ _ _ _ _ Hr) in Hrun. cbv beta iota in Hrun. s_run_in Hrun.
  rewrite Hrd, Hc in Hrun. s_run_in Hrun.
  destruct (WriteFileErr _ _) as [[e [partial|]]|]; [done..|]. s_run_in Hrun.
  unfold mret, GoM_ret, go_ret in Hrun. injection Hrun as <-.
  set (content' := Join _ _).
  assert (Split content' nl = update_lines address (Split content nl)) as Hsplit.
  { apply Split_Join; [|by apply update_lines_plain, Split_parts_plain].
    unfold update_lines. destruct (Split content nl) as [|l ls] eqn:F;
      [by destruct (Split_bytes_ne nl (bytes_of content) [])|].
    simpl. destruct (HasPrefix l _); [done|]. by destruct (replace_mining address ls). }
  split.
  - unfold GetMiningAddressFromConfig.
    match goal with |- context [(getExePath ≫= _) ?w0] =>
      destruct (getExePath_run w0) as (r & Hr2 & Er) end.
    rewrite Hwd in Er. subst r. setoid_rewrite (bind_done _ _ _ _ _ Hr2). cbv beta iota.
    s_run. rewrite Hrd. unfold set_files. cbn [files]. rewrite lookup_insert_eq. eexists.
    rewrite Hsplit, find_mining_update. reflexivity.
  - exists content'. split; [done|]. by rewrite Hsplit, update_lines_others.
Qed.
End Config.

(** ** Wallet server: processes and sessions

    The package variables [orcaNetCmd] and [walletCmd] against the processes
    that were started, over any sequence of requests; the state an unclean
    stop leads to; and what a session token allows. *)

Open Scope string_scope.
Open Scope list_scope.
Open Scope nat_scope.

(** The processes of a program that were started and not yet waited for. *)
Definition event_delta (program : string) (e : SEvent) : Z :=
  match e with
  | SvStart p _ => if decide (p = program) then 1 else 0
  | SvExit p => if decide (p = program) then -1 else 0
  | _ => 0
  end%Z.
Fixpoint alive (program : string) (t : list SEvent) : Z :=
  match t with [] => 0 | e :: t' => event_delta program e + alive program t' end%Z.

Fixpoint starts (program : string) (t : list SEvent) : nat :=
  match t with
  | [] => 0
  | SvStart p _ :: t' => (if decide (p = program) then 1 else 0) + starts program t'
  | _ :: t' => starts program t'
  end.

Lemma alive_app program t u : alive program (t ++ u) = (alive program t + alive program u)%Z.
Proof. induction t as [|e t IH]; simpl; [done|]. rewrite IH. lia. Qed.
Lemma starts_app program t u : starts program (t ++ u) = starts program t + starts program u.
Proof. induction t as [|e t IH]; simpl; [done|]. destruct e; rewrite IH; lia. Qed.

Definition running (c : Cmd) : Z := match c with CmdRunning => 1 | _ => 0 end%Z.

(** What a world says about the processes. *)
Definition procs (w : SWorld) : (Cmd * Cmd) * (Z * Z) * nat :=
  (orcaNetCmd (srv w), walletCmd (srv w), (alive "btcd" (trace w), alive "btcwallet" (trace w)),
   starts "btcd" (trace w)).

Lemma procs_trace w u k :
  alive "btcd" u = 0%Z → alive "btcwallet" u = 0%Z → starts "btcd" u = 0 →
  procs (mkSWorld (srv w) (trace w ++ u) k) = procs w.
Proof.
  intros H1 H2 H3. unfold procs. simpl. rewrite !alive_app, starts_app, H1, H2, H3.
  by rewrite !Z.add_0_r, Nat.add_0_r.
Qed.

(** The operations that leave the processes alone. *)
Definition quiet {A} (m : GoM SWorld A) : Prop := ∀ w, procs (final (m w)) = procs w.

Section Quiet.
Context `{Os}.

Lemma s_tick_quiet : quiet s_tick.
Proof. by intros w. Qed.
Lemma s_read_quiet {A} (f : Server → A) : quiet (s_read f).
Proof. by intros w. Qed.
Lemma s_session_quiet f : quiet (s_update (set_sessionDB f)).
Proof. by intros w. Qed.

Lemma UpdateBtcdConfig_quiet a : quiet (UpdateBtcdConfigWithMiningAddr a).
Proof.
  intros w. unfold UpdateBtcdConfigWithMiningAddr.
  destruct (getExePath_run w) as (r & Hr & _). rewrite (bind_done _ _ _ _ _ Hr).
  destruct r; [|done]. s_run. destruct (ReadFileErr _ _); [done|].
  destruct (files (srv w) !! _); [|done]. s_run. by destruct (WriteFileErr _ _) as [[? []]|].
Qed.
Lemma GetMiningAddressFromConfig_quiet : quiet GetMiningAddressFromConfig.
Proof.
  intros w. unfold GetMiningAddressFromConfig.
  destruct (getExePath_run w) as (r & Hr & _). rewrite (bind_done _ _ _ _ _ Hr).
  destruct r; [|done]. s_run. destruct (ReadFileErr _ _); [done|].
  by destruct (files (srv w) !! _).
Qed.
Lemma CallBtcctlCmd_quiet c : quiet (CallBtcctlCmd c).
Proof.
  intros w. destruct (CallBtcctlCmd_run c w) as (r & w' & -> & Hs & Ht). simpl.
  destruct w' as [s' t' k']; simpl in *; subst s'.
  destruct Ht as [[-> _]|[-> _]]; [by apply procs_trace|done].
Qed.
Lemma CreateWallet_manager_quiet p : quiet (CreateWallet_manager p).
Proof.
  intros w. unfold CreateWallet_manager.
  destruct (getExePath_run w) as (r & Hr & _). rewrite (bind_done _ _ _ _ _ Hr).
  destruct r; [|done]. s_run. destruct (StatMissing _ _); [done|]. s_run.
  destruct (PtyStart _); [done|]. s_run.
  destruct (WaitProcess _ _); unfold final, mret, GoM_ret, go_ret;
    rewrite <- app_assoc; by apply (procs_trace w).
Qed.
Lemma DeleteWallet_manager_quiet : quiet DeleteWallet_manager.
Proof.
  intros w. unfold DeleteWallet_manager. s_run. destruct (HomeDir _); [|done].
  destruct (wallet_db_path _); [|done]. s_run. destruct (StatMissing _ _); [done|]. s_run.
  destruct (RemoveFile _ _); [done|]. by apply (procs_trace w).
Qed.
End Quiet.

(** ** Any request

    An invariant that the operations of the manager maintain is maintained by
    every request: the handlers only compose them. *)

Ltac handler_split :=
  repeat first
    [ progress intros
    | progress cbv zeta
    | match goal with
      | |- maintains _ (_ ≫= _) => apply maintains_bind
      | |- maintains _ (mret _) => apply maintains_ret
      | |- maintains _ go_panic => apply maintains_panic
      | |- context [match ?x with _ => _ end] => destruct x
      end ];
  auto with orca.

Section AnyRequest.
Context `{Os} `{JsonCodec} (rfc3339 : Z → string) (json_error : string → string).
Context (I : SWorld → Prop) (r : Request).
Hypothesis I_tick : maintains I s_tick.
Hypothesis I_config : ∀ a, maintains I (UpdateBtcdConfigWithMiningAddr a).
Hypothesis I_address : maintains I GetMiningAddressFromConfig.
Hypothesis I_btcctl : ∀ c, maintains I (CallBtcctlCmd c).
Hypothesis I_create : ∀ p, maintains I (CreateWallet_manager p).
Hypothesis I_delete : maintains I DeleteWallet_manager.
Hypothesis I_startO : ∀ a, maintains I (StartOrcaNet a).
Hypothesis I_startW : maintains I StartWallet.
Hypothesis I_stopO : maintains I StopOrcaNet.
Hypothesis I_stopW : maintains I StopWallet.
Hypothesis I_remember : ∀ p k n, r = RqLogin (Some (p, true)) →
  maintains I (s_update (set_sessionDB <[SUUID k := mkSession p (STime n + 24 * Hour)%Z]>)).

Lemma I_read {A} (f : Server → A) : maintains I (s_read f).
Proof. by intros w. Qed.
Local Hint Resolve I_tick I_config I_address I_btcctl I_create I_delete I_startO I_startW
  I_stopO I_stopW I_read : orca.

Lemma password_maintains n : maintains I (GenerateRandomPassword n).
Proof. induction n; simpl; handler_split. Qed.
Lemma configure_maintains a : maintains I (ConfigureMiningAddress a).
Proof. unfold ConfigureMiningAddress. handler_split. Qed.
Local Hint Resolve password_maintains configure_maintains : orca.

Lemma report_maintains remember :
  maintains I remember → maintains I (restart_and_report json_error remember).
Proof. intros Hrem. unfold restart_and_report. handler_split. Qed.

Lemma Login_maintains p : r = RqLogin p → maintains I (Login json_error p).
Proof.
  intros Hr. unfold Login. destruct p as [[p rem]|]; [|apply maintains_ret].
  apply maintains_bind; [auto|]. intros [e|]; [apply maintains_ret|].
  apply maintains_bind; [auto|]. intros k. apply maintains_bind; [auto|]. intros t.
  destruct rem.
  - intros w Hw. erewrite bind_done by (rewrite s_bind_tick; reflexivity). eapply maintains_bind; [apply I_btcctl| |apply (I_tick _ Hw)].
    intros [out|err]; [|apply maintains_ret]. apply report_maintains.
    apply maintains_bind; [by apply I_remember|]. intros _. apply maintains_ret.
  - apply maintains_bind; [apply maintains_ret|]. intros exp.
    apply maintains_bind; [auto|]. intros [out|err]; [|apply maintains_ret].
    apply report_maintains. apply maintains_bind; [|intros _]; apply maintains_ret.
Qed.

Lemma request_maintains q : r = q → maintains I (setupRoutes rfc3339 json_error q).
Proof.
  intros Hq. destruct q; simpl; unfold responds;
    try (apply maintains_bind; [|intros; apply maintains_ret]).
  4: by apply Login_maintains.
  all: unfold GetHello, CreateWallet, RetriveInfo, GetMiningAddress, GetNewAddress, GetBalance,
    query, Mine, SendToAddress, ValidateAddress, GetTransactionHistory, Logout, Shutdown,
    DeleteWallet; handler_split.
  all: by apply report_maintains, maintains_ret.
Qed.
End AnyRequest.

(** ** Processes *)

Section Processes.
Context `{Os} `{JsonCodec} (rfc3339 : Z → string) (json_error : string → string).

(** The server after any number of requests. *)
Definition served (w w' : SWorld) : Prop :=
  ∃ r, w' = final (setupRoutes rfc3339 json_error r w).

Lemma served_maintains I w w' :
  (∀ r, maintains I (setupRoutes rfc3339 json_error r)) → rtc served w w' → I w → I w'.
Proof. intros HI. induction 1 as [|? ? ? [r ->] _ IH]; [done|]. intros Hw. by apply IH, HI. Qed.

(** Invariants on [procs]: only starting and stopping matter. *)
Lemma procs_request (P : _ → Prop) r :
  (∀ a, maintains (P ∘ procs) (StartOrcaNet a)) → maintains (P ∘ procs) StartWallet →
  maintains (P ∘ procs) StopOrcaNet → maintains (P ∘ procs) StopWallet →
  maintains (P ∘ procs) (setupRoutes rfc3339 json_error r).
Proof.
  intros H1 H2 H3 H4.
  assert (∀ A (m : GoM SWorld A), quiet m → maintains (P ∘ procs) m) as Hq.
  { intros A m Hm w Hw. unfold compose in *. by rewrite Hm. }
  eapply request_maintains; [..|reflexivity]; try done; intros; apply Hq.
  - apply s_tick_quiet.
  - apply UpdateBtcdConfig_quiet.
  - apply GetMiningAddressFromConfig_quiet.
  - apply CallBtcctlCmd_quiet.
  - apply CreateWallet_manager_quiet.
  - apply DeleteWallet_manager_quiet.
  - apply s_session_quiet.
Qed.

(** The variables agree with the processes. *)
Definition agree (p : (Cmd * Cmd) * (Z * Z) * nat) : Prop :=
  p.1.2.1 = running p.1.1.1 ∧ p.1.2.2 = running p.1.1.2.

Lemma start_process_agree program path args get set :
  (program = "btcd" ∧ get = orcaNetCmd ∧ set = set_orcaNetCmd) ∨
  (program = "btcwallet" ∧ get = walletCmd ∧ set = set_walletCmd) →
  maintains (agree ∘ procs) (start_process program path args get set).
Proof.
  intros Hcase w [Hb Hw]. unfold start_process. s_run.
  destruct (has_process (get (srv w))) eqn:Eh; [done|].
  assert (running (get (srv w)) = 0%Z) as H0' by (destruct (get (srv w)); done).
  destruct (getExePath_run w) as (r & Hr & _). rewrite (bind_done _ _ _ _ _ Hr).
  destruct r as [root|e]; [|done]. s_run. destruct (StatMissing _ _); [done|]. s_run.
  assert (∀ k, (agree ∘ procs) (mkSWorld (set CmdCreated (srv w)) (trace w) k)) as Hcr.
  { intros k. unfold agree, procs in *. simpl in *.
    destruct Hcase as [(-> & -> & ->)|(-> & -> & ->)]; simpl; split; congruence. }
  destruct (Pipe _); [apply Hcr|]. s_run. destruct (Pipe _); [apply Hcr|]. s_run.
  destruct (StartProcess _ _); [apply Hcr|]. s_run.
  unfold agree, procs in *. simpl in *. rewrite !alive_app. simpl.
  destruct Hcase as [(-> & -> & ->)|(-> & -> & ->)]; simpl; lia.
Qed.

Lemma stop_process_agree program get set :
  (program = "btcd" ∧ get = orcaNetCmd ∧ set = set_orcaNetCmd) ∨
  (program = "btcwallet" ∧ get = walletCmd ∧ set = set_walletCmd) →
  maintains (agree ∘ procs) (stop_process program get set).
Proof.
  intros Hcase w [Hb Hw]. unfold stop_process. s_run.
  destruct (has_process (get (srv w))) eqn:Eh; [|done]. s_run.
  destruct (signal _ _) eqn:Es; [done|]. s_run.
  assert (get (srv w) = CmdRunning) as Hrun by (by destruct (get (srv w))).
  unfold agree, procs in *. simpl in *.
  destruct (WaitProcess _ _); s_run; simpl; rewrite !alive_app; simpl;
    destruct Hcase as [(-> & -> & ->)|(-> & -> & ->)]; rewrite Hrun in *; simpl in *; lia.
Qed.

(** *** Every moment of a request *)

(** The process of [--create], which lasts for the call that starts it. *)
Definition creation : SEvent := SvStart "btcwallet" ["--create"].
(** After the events [t]: at most one btcd, and at most one btcwallet beside
    the one that creates a wallet. *)
Definition moment_ok (t : list SEvent) : Prop :=
  (0 ≤ alive "btcd" t ≤ 1)%Z ∧
  ((0 ≤ alive "btcwallet" t ≤ 1)%Z ∨ alive "btcwallet" t = 2%Z ∧ last t = Some creation).
Definition moments_ok (t : list SEvent) : Prop := ∀ t', t' `prefix_of` t → moment_ok t'.

Lemma moments_snoc t e : moments_ok t → moment_ok (t ++ [e]) → moments_ok (t ++ [e]).
Proof.
  intros Ht He t' [k Hk]. destruct k as [|x k _] using rev_ind.
  - rewrite app_nil_r in Hk. by subst.
  - rewrite app_assoc in Hk. apply app_inj_tail in Hk as [-> _]. apply Ht. by exists k.
Qed.

(** The variables agree with the processes, and every moment was right. *)
Definition right (w : SWorld) : Prop := agree (procs w) ∧ moments_ok (trace w).

Lemma right_now w : right w → (0 ≤ alive "btcd" (trace w) ≤ 1)%Z ∧ (0 ≤ alive "btcwallet" (trace w) ≤ 1)%Z.
Proof.
  intros [[Ho Hw] _]. unfold procs in *. simpl in *. rewrite Ho, Hw.
  by destruct (orcaNetCmd (srv w)), (walletCmd (srv w)).
Qed.
(** A state that a step reaches with one event, the variables agreeing. *)
Lemma right_event w w' e :
  right w → agree (procs w') → trace w' = trace w ++ [e] → right w'.
Proof.
  intros [_ Hm] Ha He. split; [done|]. rewrite He. apply moments_snoc; [done|].
  destruct Ha as [Ho Hw]. unfold procs in *. simpl in *. rewrite He in Ho, Hw. unfold moment_ok. rewrite Ho, Hw.
  split; [by destruct (orcaNetCmd (srv w'))|left]. by destruct (walletCmd (srv w')).
Qed.
Lemma right_other w k e :
  right w → (∀ p, event_delta p e = 0%Z) → right (mkSWorld (srv w) (trace w ++ [e]) k).
Proof.
  intros Hr He. eapply (right_event w _ e); [done| |done]. destruct Hr as [[Ho Hw] _].
  unfold agree, procs in *. simpl in *. rewrite !alive_app. simpl. by rewrite !He, Ho, Hw, !Z.add_0_r.
Qed.
(** What leaves the variables and the events alone. *)
Lemma right_still w w' : trace w' = trace w → procs w' = procs w → right w → right w'.
Proof. intros Ht Hp [Ha Hm]. split; [by rewrite Hp|by rewrite Ht]. Qed.

Lemma UpdateBtcdConfig_right a : maintains right (UpdateBtcdConfigWithMiningAddr a).
Proof.
  intros w. apply right_still; [|apply UpdateBtcdConfig_quiet]. unfold UpdateBtcdConfigWithMiningAddr.
  destruct (getExePath_run w) as (r & Hr & _). rewrite (bind_done _ _ _ _ _ Hr).
  destruct r; [|done]. s_run. destruct (ReadFileErr _ _); [done|].
  destruct (files (srv w) !! _); [|done]. s_run. by destruct (WriteFileErr _ _) as [[? []]|].
Qed.
Lemma GetMiningAddress_right : maintains right GetMiningAddressFromConfig.
Proof.
  intros w. apply right_still; [|apply GetMiningAddressFromConfig_quiet]. unfold GetMiningAddressFromConfig.
  destruct (getExePath_run w) as (r & Hr & _). rewrite (bind_done _ _ _ _ _ Hr).
  destruct r; [|done]. s_run. destruct (ReadFileErr _ _); [done|]. by destruct (files (srv w) !! _).
Qed.
Lemma CallBtcctlCmd_right c : maintains right (CallBtcctlCmd c).
Proof.
  intros w Hw. destruct (CallBtcctlCmd_run c w) as (r & w' & -> & Hs & Ht). simpl.
  destruct w' as [s' t' k']; simpl in *; subst s'. destruct Ht as [[-> _]|[-> _]]; [by apply right_other|].
  by apply (right_still w).
Qed.
Lemma DeleteWallet_right : maintains right DeleteWallet_manager.
Proof.
  intros w Hw. unfold DeleteWallet_manager. s_run. destruct (HomeDir _); [|done].
  destruct (wallet_db_path _); [|done]. s_run. destruct (StatMissing _ _); [done|]. s_run.
  destruct (RemoveFile _ _); [done|]. by apply (right_other w).
Qed.
(** The only moment with two btcwallet processes. *)
Lemma CreateWallet_right p : maintains right (CreateWallet_manager p).
Proof.
  intros w Hw. split; [rewrite CreateWallet_manager_quiet; apply Hw|]. destruct (right_now w Hw) as [Ho Hwa], Hw as [_ Hm].
  unfold CreateWallet_manager. destruct (getExePath_run w) as (r & Hr & _). rewrite (bind_done _ _ _ _ _ Hr).
  destruct r; [|done]. s_run. destruct (StatMissing _ _); [done|]. s_run. destruct (PtyStart _); [done|]. s_run.
  assert (moments_ok ((trace w ++ [creation]) ++ [SvExit "btcwallet"])) as Hmm; [|by destruct (WaitProcess _ _)].
  apply moments_snoc; [apply moments_snoc; [done|]|]; unfold moment_ok; rewrite !alive_app; simpl; rewrite ?last_snoc.
  - split; [lia|]. destruct (decide (alive "btcwallet" (trace w) = 0%Z)); [left; lia|right; split; [lia|done]].
  - split; [lia|left; lia].
Qed.

Lemma start_process_right program path args get set :
  (program = "btcd" ∧ get = orcaNetCmd ∧ set = set_orcaNetCmd) ∨
  (program = "btcwallet" ∧ get = walletCmd ∧ set = set_walletCmd) →
  maintains right (start_process program path args get set).
Proof.
  intros Hcase w Hw. pose proof (start_process_agree program path args get set Hcase w (proj1 Hw)) as Ha.
  revert Ha. unfold start_process. s_run.
  destruct (has_process (get (srv w))); [done|].
  destruct (getExePath_run w) as (r & Hr & _). rewrite (bind_done _ _ _ _ _ Hr).
  destruct r as [root|e]; [|done]. s_run. destruct (StatMissing _ _); [done|]. s_run.
  assert (∀ w', trace w' = trace w → (agree ∘ procs) w' → right w') as Hstay
    by (intros w' Ht Ha; split; [done|]; rewrite Ht; apply Hw).
  destruct (Pipe _); [by apply Hstay|]. s_run. destruct (Pipe _); [by apply Hstay|]. s_run.
  destruct (StartProcess _ _); [by apply Hstay|]. s_run. intros Ha. by eapply right_event.
Qed.
Lemma stop_process_right program get set :
  (program = "btcd" ∧ get = orcaNetCmd ∧ set = set_orcaNetCmd) ∨
  (program = "btcwallet" ∧ get = walletCmd ∧ set = set_walletCmd) →
  maintains right (stop_process program get set).
Proof.
  intros Hcase w Hw. pose proof (stop_process_agree program get set Hcase w (proj1 Hw)) as Ha.
  revert Ha. unfold stop_process. s_run.
  destruct (has_process (get (srv w))); [|done]. s_run. destruct (signal _ _); [done|]. s_run.
  destruct (WaitProcess _ _); s_run; intros Ha; by eapply right_event.
Qed.
Lemma right_request r : maintains right (setupRoutes rfc3339 json_error r).
Proof.
  eapply request_maintains; [..|reflexivity]; intros.
  - by intros w.
  - apply UpdateBtcdConfig_right.
  - apply GetMiningAddress_right.
  - apply CallBtcctlCmd_right.
  - apply CreateWallet_right.
  - apply DeleteWallet_right.
  - apply start_process_right. naive_solver.
  - apply start_process_right. naive_solver.
  - apply stop_process_right. naive_solver.
  - apply stop_process_right. naive_solver.
  - by intros w.
Qed.

(** C32. Single instance, for requests that are served one after the other (the
    variables have no lock) and with processes counted from their start until
    the server has waited for them.  From the start of the program (no
    process, then btcd started), whatever requests arrive and whatever the
    operating system answers: after every single event at most one btcd is
    running, and at most one btcwallet beside the one of [--create], which
    [CreateWallet] starts without a look at the variable and waits for; and
    between requests at most one of each is running and each of the two
    variables says exactly whether its process is. *)
Theorem single_instance w0 w :
  procs w0 = (CmdNil, CmdNil, (0%Z, 0%Z), 0) → trace w0 = [] →
  rtc served (final (StartOrcaNet EmptyString w0)) w →
  moments_ok (trace w) ∧
  (0 ≤ alive "btcd" (trace w) ≤ 1)%Z ∧ (0 ≤ alive "btcwallet" (trace w) ≤ 1)%Z ∧
  (orcaNetCmd (srv w) = CmdRunning ↔ alive "btcd" (trace w) = 1%Z) ∧
  (walletCmd (srv w) = CmdRunning ↔ alive "btcwallet" (trace w) = 1%Z).
Proof.
  intros Hw0 Ht0 Hrun.
  assert (right w) as Hr.
  { eapply served_maintains; [apply right_request|exact Hrun|]. apply start_process_right; [naive_solver|].
    split; [by rewrite Hw0|]. rewrite Ht0. intros t ->%prefix_nil_inv. split; [done|by left]. }
  split; [apply Hr|]. destruct Hr as [[Ho Hw] _]. unfold procs in *. simpl in *. rewrite Ho, Hw.
  by destruct (orcaNetCmd (srv w)), (walletCmd (srv w)).
Qed.

(** ** An unclean stop *)

Definition stuck (n : nat) (p : (Cmd * Cmd) * (Z * Z) * nat) : Prop :=
  p.1.1.1 = CmdExited ∧ p.2 = n.

Lemma StartOrcaNet_exited a w :
  orcaNetCmd (srv w) = CmdExited → StartOrcaNet a w = Done None w.
Proof. intros Hw. unfold StartOrcaNet, start_process. s_run. by rewrite Hw. Qed.
Lemma StopOrcaNet_exited w :
  orcaNetCmd (srv w) = CmdExited →
  StopOrcaNet w = Done (Some ("failed to stop btcd: " +:+ ErrProcessDone))
                       (mkSWorld (srv w) (trace w) (S (sclock w))).
Proof. intros Hw. unfold StopOrcaNet, stop_process. s_run. by rewrite Hw. Qed.

Lemma StartWallet_stuck n : maintains (stuck n ∘ procs) StartWallet.
Proof.
  intros w [Hw Hn]. unfold StartWallet, start_process. s_run.
  destruct (has_process _); [done|].
  destruct (getExePath_run w) as (r & Hr & _). rewrite (bind_done _ _ _ _ _ Hr).
  destruct r; [|done]. s_run. destruct (StatMissing _ _); [done|]. s_run.
  destruct (Pipe _); [done|]. s_run. destruct (Pipe _); [done|]. s_run.
  destruct (StartProcess _ _); [done|]. s_run. unfold stuck, procs in *. simpl in *.
  rewrite starts_app. simpl. split; [done|]. lia.
Qed.
Lemma StopWallet_stuck n : maintains (stuck n ∘ procs) StopWallet.
Proof.
  intros w [Hw Hn]. unfold StopWallet, stop_process. s_run.
  destruct (has_process _); [|done]. s_run. destruct (signal _ _); [done|]. s_run.
  unfold stuck, procs in *. simpl in *.
  destruct (WaitProcess _ _); simpl; rewrite starts_app; simpl; (split; [done|]); lia.
Qed.
Lemma stuck_request n r : maintains (stuck n ∘ procs) (setupRoutes rfc3339 json_error r).
Proof.
  apply procs_request; auto using StartWallet_stuck, StopWallet_stuck.
  - intros a w [Hw Hn]. rewrite StartOrcaNet_exited; done.
  - intros w [Hw Hn]. rewrite StopOrcaNet_exited; done.
Qed.

Lemma report_exited remember w :
  orcaNetCmd (srv w) = CmdExited →
  ∃ resp w', restart_and_report json_error remember w = Done resp w' ∧ (400 ≤ status resp)%Z.
Proof.
  intros Hw. unfold restart_and_report.
  destruct (GetMiningAddressFromConfig w) as [m w1|w1] eqn:E.
  2: { unfold GetMiningAddressFromConfig in E. destruct (getExePath_run w) as (r & Hr & _).
       rewrite (bind_done _ _ _ _ _ Hr) in E. destruct r; [|done]. s_run_in E.
       destruct (ReadFileErr _ _); [done|]. by destruct (files _ !! _). }
  rewrite (bind_done _ _ _ _ _ E). case_decide; [by eexists _, _|].
  pose proof (GetMiningAddressFromConfig_quiet w) as Hq. rewrite E in Hq. simpl in Hq.
  rewrite (bind_done _ _ _ _ _ (StopOrcaNet_exited w1 ltac:(by injection Hq; congruence))).
  by eexists _, _.
Qed.

Lemma StartWallet_done w : ∃ e w', StartWallet w = Done e w'.
Proof.
  unfold StartWallet, start_process. s_run. destruct (has_process _); [by eexists _, _|].
  destruct (getExePath_run w) as (r & Hr & _). rewrite (bind_done _ _ _ _ _ Hr).
  destruct r; [|by eexists _, _]. s_run. destruct (StatMissing _ _); [by eexists _, _|]. s_run.
  destruct (Pipe _); [by eexists _, _|]. s_run. destruct (Pipe _); [by eexists _, _|]. s_run.
  destruct (StartProcess _ _); by eexists _, _.
Qed.

Lemma unlock_report_exited remember cmd w :
  orcaNetCmd (srv w) = CmdExited →
  ∃ resp w', (u ← CallBtcctlCmd cmd;
              match u with
              | inr err => mret (http_Error ("Failed to unlock wallet: " +:+ err) StatusUnauthorized)
              | inl _ => restart_and_report json_error remember
              end) w = Done resp w' ∧ (400 ≤ status resp)%Z.
Proof.
  intros Hw. destruct (CallBtcctlCmd_run cmd w) as (u & w1 & Hu & Hs & _).
  rewrite (bind_done _ _ _ _ _ Hu). destruct u; [|by eexists _, _].
  apply report_exited. by rewrite Hs.
Qed.

Lemma Login_exited p w :
  orcaNetCmd (srv w) = CmdExited →
  ∃ resp w', Login json_error p w = Done resp w' ∧ (400 ≤ status resp)%Z.
Proof.
  intros Hw. unfold Login. destruct p as [[password rem]|]; [|by eexists _, _].
  destruct (StartWallet_done w) as (e & w1 & He). rewrite (bind_done _ _ _ _ _ He).
  destruct e; [by eexists _, _|]. s_run.
  assert (orcaNetCmd (srv w1) = CmdExited) as Hw1.
  { destruct (StartWallet_stuck (starts "btcd" (trace w)) w) as [? _]; [done|].
    by rewrite He in *. }
  destruct rem; (erewrite bind_done by (s_run; reflexivity)); by apply unlock_report_exited.
Qed.

Lemma RetriveInfo_exited c w :
  orcaNetCmd (srv w) = CmdExited →
  ∃ resp w', RetriveInfo json_error c w = Done resp w' ∧ (400 ≤ status resp)%Z.
Proof.
  intros Hw. unfold RetriveInfo. destruct c as [token|]; [|by eexists _, _]. s_run.
  destruct (sessionDB (srv w) !! token) as [s|]; [|by eexists _, _].
  destruct (_ <? _)%Z; [by eexists _, _|].
  match goal with |- context [(StartWallet ≫= _) ?w0] =>
    destruct (StartWallet_done w0) as (e & w1 & He);
    assert (orcaNetCmd (srv w1) = CmdExited) as Hw1
      by (destruct (StartWallet_stuck (starts "btcd" (trace w)) w0) as [? _]; [done|];
          by rewrite He in *)
  end.
  rewrite (bind_done _ _ _ _ _ He). destruct e; [by eexists _, _|]. s_run.
  by apply unlock_report_exited.
Qed.

(** C33. An unclean stop is permanent.  When waiting for the stopped btcd
    reports an error, the variable keeps the dead process: whatever requests
    follow, no btcd is ever started again although starting it reports
    success, and every login and session request fails. *)
Theorem unclean_stop_permanent w0 w e :
  orcaNetCmd (srv w0) = CmdRunning →
  SignalProcess (sclock w0) "btcd" = None →
  WaitProcess (S (sclock w0)) "btcd" = Some e →
  rtc served (final (StopOrcaNet w0)) w →
  orcaNetCmd (srv w) = CmdExited ∧ starts "btcd" (trace w) = starts "btcd" (trace w0) ∧
  (∀ a, StartOrcaNet a w = Done None w) ∧
  (∀ p, ∃ resp w', Login json_error p w = Done resp w' ∧ (400 ≤ status resp)%Z) ∧
  (∀ c, ∃ resp w', RetriveInfo json_error c w = Done resp w' ∧ (400 ≤ status resp)%Z).
Proof.
  intros Hr Hs Hw Hrun.
  assert ((stuck (starts "btcd" (trace w0)) ∘ procs) w) as [He Hn].
  { eapply served_maintains; [apply stuck_request|exact Hrun|].
    unfold StopOrcaNet, stop_process. s_run. rewrite Hr.
    change (has_process CmdRunning) with true. cbv iota. s_run. unfold signal. rewrite Hs. s_run. rewrite Hw. s_run. split; [done|].
    unfold procs. simpl. rewrite starts_app. simpl. lia. }
  unfold procs in *. simpl in *.
  split_and!; auto using StartOrcaNet_exited, Login_exited, RetriveInfo_exited.
Qed.

(** ** Sessions *)

Lemma start_process_sessions program path args get set :
  (∀ c s, sessionDB (set c s) = sessionDB s) →
  ∀ w, sessionDB (srv (final (start_process program path args get set w))) = sessionDB (srv w).
Proof.
  intros Hset w. unfold start_process. s_run. destruct (has_process _); [done|].
  destruct (getExePath_run w) as (r & Hr & _). rewrite (bind_done _ _ _ _ _ Hr).
  destruct r; [|done]. s_run. destruct (StatMissing _ _); [done|]. s_run.
  destruct (Pipe _); [by apply Hset|]. s_run. destruct (Pipe _); [by apply Hset|]. s_run.
  destruct (StartProcess _ _); s_run; simpl; by rewrite ?Hset.
Qed.
Lemma stop_process_sessions program get set :
  (∀ c s, sessionDB (set c s) = sessionDB s) →
  ∀ w, sessionDB (srv (final (stop_process program get set w))) = sessionDB (srv w).
Proof.
  intros Hset w. unfold stop_process. s_run. destruct (has_process _); [|done]. s_run.
  destruct (signal _ _); [done|]. s_run. destruct (WaitProcess _ _); s_run; simpl; by rewrite Hset.
Qed.

(** Invariants on the sessions: only a login that is remembered matters. *)
Lemma sessions_request (P : gmap string Session → Prop) r :
  (∀ p k n db, r = RqLogin (Some (p, true)) → P db →
     P (<[SUUID k := mkSession p (STime n + 24 * Hour)%Z]> db)) →
  maintains (λ w, P (sessionDB (srv w))) (setupRoutes rfc3339 json_error r).
Proof.
  intros HP. eapply request_maintains; [..|reflexivity].
  - by intros w Hw.
  - intros a w Hw. unfold UpdateBtcdConfigWithMiningAddr.
    destruct (getExePath_run w) as (q & Hq & _). rewrite (bind_done _ _ _ _ _ Hq).
    destruct q; [|done]. s_run. destruct (ReadFileErr _ _); [done|].
    destruct (files (srv w) !! _); [|done]. s_run. by destruct (WriteFileErr _ _) as [[? []]|].
  - intros w Hw. unfold GetMiningAddressFromConfig.
    destruct (getExePath_run w) as (q & Hq & _). rewrite (bind_done _ _ _ _ _ Hq).
    destruct q; [|done]. s_run. destruct (ReadFileErr _ _); [done|].
    by destruct (files (srv w) !! _).
  - intros c w Hw. destruct (CallBtcctlCmd_run c w) as (q & w' & -> & Hs & _). simpl. by rewrite Hs.
  - intros p w Hw. unfold CreateWallet_manager.
    destruct (getExePath_run w) as (q & Hq & _). rewrite (bind_done _ _ _ _ _ Hq).
    destruct q; [|done]. s_run. destruct (StatMissing _ _); [done|]. s_run.
    destruct (PtyStart _); [done|]. s_run. by destruct (WaitProcess _ _).
  - intros w Hw. unfold DeleteWallet_manager. s_run. destruct (HomeDir _); [|done].
    destruct (wallet_db_path _); [|done]. s_run. destruct (StatMissing _ _); [done|]. s_run.
    by destruct (RemoveFile _ _).
  - intros a w Hw. unfold StartOrcaNet. by rewrite start_process_sessions.
  - intros w Hw. unfold StartWallet. by rewrite start_process_sessions.
  - intros w Hw. unfold StopOrcaNet. by rewrite stop_process_sessions.
  - intros w Hw. unfold StopWallet. by rewrite stop_process_sessions.
  - intros p k n Hr w Hw. by apply HP.
Qed.

(** Who may use the stored password.  [RetriveInfo] refuses a token
    that is not stored or has expired, running and changing nothing.  After
    any requests, a stored session was there at the start, or was stored by
    a login with [rememberMe] and carries that login's password and an
    expiry 24 hours after a reading of the clock. *)
Theorem session_provenance w :
  (∀ c, (∀ token s, c = Some token → sessionDB (srv w) !! token = Some s →
           (ExpiresAt s < STime (sclock w))%Z) →
     ∃ resp, RetriveInfo json_error c w =
               Done resp (mkSWorld (srv w) (trace w) (sclock w + length (option_list c))) ∧
             (400 ≤ status resp)%Z) ∧
  (∀ r token s, sessionDB (srv (final (setupRoutes rfc3339 json_error r w))) !! token = Some s →
     sessionDB (srv w) !! token = Some s ∨
     ∃ k n, r = RqLogin (Some (Password s, true)) ∧ token = SUUID k ∧
            ExpiresAt s = (STime n + 24 * Hour)%Z).
Proof.
  split.
  - intros c Hc. unfold RetriveInfo. destruct c as [token|]; simpl option_list; simpl length.
    2: { rewrite Nat.add_0_r. destruct w. by eexists. }
    s_run. rewrite Nat.add_1_r. destruct (sessionDB (srv w) !! token) as [s|] eqn:E.
    + specialize (Hc _ _ eq_refl E). rewrite (proj2 (Z.ltb_lt _ _) Hc). by eexists.
    + by eexists.
  - intros r. apply (sessions_request (λ db, ∀ token s, db !! token = Some s →
      sessionDB (srv w) !! token = Some s ∨
      ∃ k n, r = RqLogin (Some (Password s, true)) ∧ token = SUUID k ∧
             ExpiresAt s = (STime n + 24 * Hour)%Z)); [|by left].
    intros p k n db -> Hdb token s.
    destruct (decide (token = SUUID k)) as [->|Hne].
    + rewrite lookup_insert_eq. intros [= <-]. right. by eexists _, _.
    + rewrite lookup_insert_ne by done. apply Hdb.
Qed.

(** What has happened stays in the trace. *)
Lemma start_process_trace e program path args get set :
  maintains (λ w, e ∈ trace w) (start_process program path args get set).
Proof.
  intros w Hw. unfold start_process. s_run. destruct (has_process _); [done|].
  destruct (getExePath_run w) as (r & Hr & _). rewrite (bind_done _ _ _ _ _ Hr).
  destruct r; [|done]. s_run. destruct (StatMissing _ _); [done|]. s_run.
  destruct (Pipe _); [done|]. s_run. destruct (Pipe _); [done|]. s_run.
  destruct (StartProcess _ _); [done|]. simpl. set_solver.
Qed.
Lemma report_trace e : maintains (λ w, e ∈ trace w) (restart_and_report json_error (mret [])).
Proof.
  apply report_maintains; [..|apply maintains_ret].
  - intros w Hw. unfold GetMiningAddressFromConfig.
    destruct (getExePath_run w) as (q & Hq & _). rewrite (bind_done _ _ _ _ _ Hq).
    destruct q; [|done]. s_run. destruct (ReadFileErr _ _); [done|].
    by destruct (files (srv w) !! _).
  - intros c w Hw. destruct (CallBtcctlCmd_run c w) as (q & w' & -> & _ & Ht). simpl.
    destruct Ht as [[-> _]|[-> _]]; set_solver.
  - intros a. apply start_process_trace.
  - intros w Hw. unfold StopOrcaNet, stop_process. s_run. destruct (has_process _); [|done]. s_run.
    destruct (signal _ _); [done|]. s_run. destruct (WaitProcess _ _); simpl; set_solver.
Qed.

Lemma Logout_sessions w : sessionDB (srv (final (Logout w))) = sessionDB (srv w).
Proof.
  pose proof (sessions_request (λ db, db = sessionDB (srv w)) RqLogout ltac:(done) w eq_refl) as Hl.
  simpl in Hl. unfold responds, mbind, GoM_bind, go_bind in Hl. by destruct (Logout w).
Qed.

Section Healthy.
Context (wd : string).
Hypothesis wd_ok : ∀ n, Getwd n = inl wd.
Hypothesis stat_ok : ∀ n p, StatMissing n p = false.
Hypothesis pipe_ok : ∀ n, Pipe n = None.
Hypothesis start_ok : ∀ n p, StartProcess n p = None.

Lemma getExePath_healthy w :
  getExePath w = Done (inl (path_Dir wd)) (mkSWorld (srv w) (trace w) (S (sclock w))).
Proof. destruct (getExePath_run w) as (r & -> & Hr). rewrite wd_ok in Hr. by subst r. Qed.
Lemma StartWallet_healthy w : ∃ w', StartWallet w = Done None w'.
Proof.
  unfold StartWallet, start_process. s_run. destruct (has_process _); [by eexists|].
  rewrite (bind_done _ _ _ _ _ (getExePath_healthy w)). s_run. rewrite stat_ok. s_run.
  rewrite pipe_ok. s_run. rewrite pipe_ok. s_run. rewrite start_ok. by eexists.
Qed.
Lemma CallBtcctlCmd_healthy c w :
  SvBtcctl (btcctl_params c) ∈ trace (final (CallBtcctlCmd c w)).
Proof.
  unfold CallBtcctlCmd. rewrite (bind_done _ _ _ _ _ (getExePath_healthy w)). s_run.
  rewrite stat_ok. s_run. destruct (RunBtcctl _ _); simpl; set_solver.
Qed.

(** Logging out revokes nothing: on a healthy system, after a logout,
    a request with the token of a stored session that has not expired
    starts the wallet if need be and unlocks it with the stored password;
    the time to stay unlocked, which the command takes in seconds, is the
    remaining number of nanoseconds. *)
Theorem logout_keeps_session w token s :
  sessionDB (srv w) !! token = Some s → (∀ n, STime n ≤ ExpiresAt s)%Z →
  ∃ m, SvBtcctl (btcctl_params (unlock_command (Password s) (Time_Sub (ExpiresAt s) (STime m))))
       ∈ trace (final (RetriveInfo json_error (Some token) (final (Logout w)))).
Proof.
  intros Hs Hexp. pose proof (Logout_sessions w) as Hl. rewrite <- Hl in Hs.
  revert Hs. generalize (final (Logout w)). clear w Hl. intros w Hs.
  unfold RetriveInfo. s_run. rewrite Hs.
  rewrite (proj2 (Z.ltb_ge _ _) (Hexp _)).
  match goal with |- context [(StartWallet ≫= _) ?w0] =>
    destruct (StartWallet_healthy w0) as (w1 & He) end.
  rewrite (bind_done _ _ _ _ _ He). s_run. exists (sclock w1).
  unfold mbind, GoM_bind, go_bind.
  match goal with |- context [CallBtcctlCmd ?c ?w0] =>
    pose proof (CallBtcctlCmd_healthy c w0) as Hc; destruct (CallBtcctlCmd c w0) as [u w2|w2] end;
    [|done].
  simpl in Hc. destruct u; [|done]. by apply report_trace.
Qed.
End Healthy.
End Processes.
