(* ===== verification/Proxy.v ===== *)
(** * Proxy node

    proxy/main.go: the table of proxies, the DHT record validator, the HTTP
    and CONNECT handlers with their shared request log, and the commands that
    advertise proxies.  The DHT, the network and the HTTP client are
    parameters. *)

From stdpp Require Import base gmap strings list fin_maps relations.
From Stdlib Require Import ZArith Ascii.
From S2P Require Import Prelude GoStrings GoFloat FSTypes FSPeer FSService.

Open Scope string_scope.
Open Scope list_scope.
Open Scope nat_scope.

(** ** The table of proxies *)

Module ProxyClient.
Record t := mk {
  Name : string;
  IP : string;
  Port : string;
  PricePerMB : Z;
  IsMine : bool;
  PeerId : string
}.
End ProxyClient.
Import ProxyClient (Name, IP, Port, IsMine, PeerId).

Definition ProxyClientsTable := list ProxyClient.t.

Definition NewProxyClientsTable : ProxyClientsTable := [].

Definition AddProxyClient (p : ProxyClientsTable) (name ip port : string) (isMine : bool)
    (peerid : string) : ProxyClientsTable :=
  p ++ [ProxyClient.mk name ip port 0 isMine peerid].

Fixpoint GetProxyClient (p : ProxyClientsTable) (proxyID : string) : option ProxyClient.t :=
  match p with
  | [] => None
  | client :: rest =>
      if decide (Name client = proxyID) then Some client else GetProxyClient rest proxyID
  end.

(** The proxy with the given number, counting from 1. *)
Definition chooseProxy (p : ProxyClientsTable) (choice : Z) : option ProxyClient.t :=
  if ((choice <? 1) || (Z.of_nat (length p) <? choice))%Z then None
  else p !! Z.to_nat (choice - 1).

(** ** Records of the DHT *)

(** [CustomValidator] *)
Definition Validate (key : string) (value : bytes) : error :=
  if length value =? 0 then Some ("value for key " +:+ key +:+ " is empty") else None.
Definition Select (key : string) (vals : list bytes) : nat * error := (0, None).

(** The DHT as the node uses it, with the validator above configured for the
    namespace: [kad_put] refuses a value that does not validate, and a put
    under one key does not change what is found under another. *)
Class KadDht := {
  Records : Type;
  kad_get : nat → Records → string → option bytes + string;
  kad_put : nat → Records → string → bytes → error * Records;
  kad_put_invalid : ∀ n s k v, Validate k v ≠ None →
    ∃ e, kad_put n s k v = (Some e, s);
  kad_put_frame : ∀ n m s k k' v, k ≠ k' →
    kad_get n (snd (kad_put m s k v)) k' = kad_get n s k'
}.

(** ** Relaying bytes *)

(** A connection: the outcome of the [k]-th read (the bytes and an error, the
    end of the stream included) and of the [k]-th write. *)
Record Conn := mkConn { Conn_Read : nat → bytes * error; Conn_Write : nat → error }.

(** The loop of [transfer]: [pos] counts the iterations. *)
Record Copier := mkCopier {
  pos : nat;
  sent : bytes;
  bytesTransferred : Z;
  stopped : bool
}.
Definition copier_new : Copier := mkCopier 0 [] 0 false.

Definition copy_step (dst src : Conn) (c : Copier) : Copier :=
  let '(data, err) := Conn_Read src (pos c) in
  let failed := match err with Some _ => true | None => false end in
  if 0 <? length data then
    match Conn_Write dst (pos c) with
    | Some _ => mkCopier (S (pos c)) (sent c) (bytesTransferred c) true
    | None => mkCopier (S (pos c)) (sent c ++ data)
                (int64 (bytesTransferred c + Z.of_nat (length data))) failed
    end
  else mkCopier (S (pos c)) (sent c) (bytesTransferred c) failed.

Fixpoint transfer_loop (fuel : nat) (dst src : Conn) (c : Copier) : option Copier :=
  match fuel with
  | O => None
  | S k =>
      let c' := copy_step dst src c in
      if stopped c' then Some c' else transfer_loop k dst src c'
  end.

(** The number of bytes the function returns; [None]: still running. *)
Definition transfer (fuel : nat) (dst src : Conn) : option Z :=
  bytesTransferred <$> transfer_loop fuel dst src copier_new.

(** ** The request log *)

Abbreviation Header := (gmap string (list string)).

Record LogEntry := mkLogEntry {
  l_method : string;
  l_url : string;
  l_headers : Header;
  l_timestamp : Time;
  l_bytes : option (Z * Z)        (* client_to_server, server_to_client *)
}.

Definition logRequest (reqDetails : LogEntry) (requests : list LogEntry) : list LogEntry :=
  if decide (l_url reqDetails = "/favicon.ico") then requests else requests ++ [reqDetails].

(** ** CONNECT: [handleTunnel]

    The two goroutines and the final log entry are steps of a machine, so
    that several tunnels can run interleaved over the shared log. *)

Record TunnelRequest := mkTunnelRequest {
  t_Method : string;
  t_Path : string;               (* r.URL.Path *)
  t_URL : string;                (* r.URL.String() *)
  t_Header : Header;
  t_dial : Conn + string;        (* the connection to the destination *)
  t_hijack : option (Conn + string)   (* None: not an http.Hijacker *)
}.

Inductive Tunnel :=
| TNew
| TRelay (dest src : Conn) (up down : Copier)   (* client to server, server to client *)
| TClosed (status : Z).

(** Up to the start of the two goroutines.  Once the 200 header is written, a
    later [http.Error] cannot change the status. *)
Definition tunnel_open (r : TunnelRequest) (now : Time) (requests : list LogEntry)
  : Tunnel * list LogEntry :=
  let requests := logRequest (mkLogEntry (t_Method r) (t_Path r) (t_Header r) now None) requests in
  if decide (t_Path r = "/favicon.ico") then (TClosed 204, requests) else
  match t_dial r with
  | inr _ => (TClosed 503, requests)
  | inl dest =>
      match t_hijack r with
      | None | Some (inr _) => (TClosed 200, requests)
      | Some (inl src) => (TRelay dest src copier_new copier_new, requests)
      end
  end.

(** One step of a tunnel and of the log. *)
Inductive tunnel_step (r : TunnelRequest) :
  Tunnel * list LogEntry → Tunnel * list LogEntry → Prop :=
| tunnel_start now requests :
    tunnel_step r (TNew, requests) (tunnel_open r now requests)
| tunnel_up dest src up down requests :
    stopped up = false →
    tunnel_step r (TRelay dest src up down, requests)
                  (TRelay dest src (copy_step dest src up) down, requests)
| tunnel_down dest src up down requests :
    stopped down = false →
    tunnel_step r (TRelay dest src up down, requests)
                  (TRelay dest src up (copy_step src dest down), requests)
| tunnel_end dest src up down now requests :
    stopped up = true → stopped down = true →
    tunnel_step r (TRelay dest src up down, requests)
      (TClosed 200,
       logRequest (mkLogEntry (t_Method r) (t_URL r) (t_Header r) now
                     (Some (bytesTransferred up, bytesTransferred down))) requests).

(** Several tunnels over one log. *)
Record Tunnels := mkTunnels {
  tunnels : list (TunnelRequest * Tunnel);
  requests : list LogEntry
}.

Inductive tunnels_step : Tunnels → Tunnels → Prop :=
| tunnels_one s i r t t' requests' :
    tunnels s !! i = Some (r, t) →
    tunnel_step r (t, requests s) (t', requests') →
    tunnels_step s (mkTunnels (<[i := (r, t')]> (tunnels s)) requests')
| tunnels_other s e :                        (* a request logged by [handleHTTP] *)
    l_bytes e = None →
    tunnels_step s (mkTunnels (tunnels s) (logRequest e (requests s))).

(** ** [getLoggedRequests]

    The log as JSON, in the order of the requests; [null] before the first
    one.  The members of an object come in an order of their own. *)

Definition entry_json `{JsonCodec} (e : LogEntry) : json :=
  let counts := match l_bytes e with
                | Some (up, down) => [("client_to_server", JNum (fmt_d up));
                                      ("server_to_client", JNum (fmt_d down))]
                | None => []
                end in
  JObj (counts ++
        [("headers", JObj (map (λ kv, (kv.1, JArr (map JStr kv.2))) (map_to_list (l_headers e))));
         ("method", JStr (l_method e));
         ("timestamp", JStr (time_text (l_timestamp e)));
         ("url", JStr (l_url e))]).

Definition getLoggedRequests `{JsonCodec} (requests : list LogEntry) : bytes :=
  json_text (match requests with [] => JNull | _ => JArr (map entry_json requests) end).

(** The handler of the server [ADVERTISE_ME] starts: which function gets a
    request. *)
Inductive Route := ToTunnel | ToLogs | ToHTTP.
Definition route (method path : string) : Route :=
  if decide (method = "CONNECT") then ToTunnel
  else if decide (path = "/logs") then ToLogs else ToHTTP.

(** ** Plain HTTP: [handleHTTP] *)

Record HttpRequest := mkHttpRequest {
  h_Method : string;
  h_URL : string;
  h_Header : Header;
  h_Body : bytes
}.

(** What the client gets: the status and the body. *)
Record HttpReply := mkHttpReply { r_status : Z; r_body : bytes }.

Section Http.
Context `{MapRange}.
(* net/textproto.CanonicalMIMEHeaderKey *)
Context (canonical : string → string).
(* http.NewRequest: the error for a method or URL it does not accept *)
Context (NewRequestErr : HttpRequest → error).
(* http.Client.Do: a transport error, or the status, the body read, and the
   error of reading it *)
Context (Do : HttpRequest → Z * bytes * error + string).

(** [Header.Add] *)
Definition Header_Add (h : Header) (key value : string) : Header :=
  let k := canonical key in <[k := default [] (h !! k) ++ [value]]> h.

Definition copy_headers (h : Header) : Header :=
  fold_left (λ acc kv, fold_left (λ acc v, Header_Add acc (fst kv) v) (snd kv) acc)
            (map_range h) ∅.

(** The copy writes the body with the implicit status 200. *)
Definition handleHTTP (r : HttpRequest) (now : Time) (requests : list LogEntry)
  : HttpReply * list LogEntry * list HttpRequest :=
  match NewRequestErr r with
  | Some _ => (mkHttpReply 500 [], requests, [])
  | None =>
      let requests := logRequest (mkLogEntry (h_Method r) (h_URL r) (h_Header r) now None) requests in
      let req := mkHttpRequest (h_Method r) (h_URL r) (copy_headers (h_Header r)) (h_Body r) in
      match Do req with
      | inr _ => (mkHttpReply 500 [], requests, [req])
      | inl (_, body, None) => (mkHttpReply 200 body, requests, [req])
      | inl (_, body, Some _) =>
          (mkHttpReply (if length body =? 0 then 500 else 200) body, requests, [req])
      end
  end.
End Http.

(** ** Commands: [handleInput] *)

Inductive PEvent :=
| PvPut (key : string) (value : bytes)      (* the DHT accepted the record *)
| PvProvide (key : string)
| PvServe (address : string)                (* http.ListenAndServe *)
| PvConnect (peer : string)
| PvPrint (line : string).

Section Commands.
Context `{KadDht} `{JsonCodec} `{Libp2p} `{DHT} `{Env}.

Record PWorld := mkPWorld {
  table : ProxyClientsTable;
  records : Records;
  events : list PEvent;
  pclock : nat
}.

Definition p_emit (e : PEvent) : GoM PWorld () :=
  go_modify (λ w, mkPWorld (table w) (records w) (events w ++ [e]) (pclock w)).
Definition p_tick : GoM PWorld nat :=
  λ w, Done (pclock w) (mkPWorld (table w) (records w) (events w) (S (pclock w))).
Definition print (s : string) : GoM PWorld () := p_emit (PvPrint s).

Definition GetValue (key : string) : GoM PWorld (option bytes + string) :=
  n ← p_tick; w ← go_get; mret (kad_get n (records w) key).

Definition PutValue (key : string) (value : bytes) : GoM PWorld error :=
  n ← p_tick;
  w ← go_get;
  let '(e, rs) := kad_put n (records w) key value in
  go_modify (λ w, mkPWorld (table w) rs (events w) (pclock w));;
  match e with
  | Some _ => mret e
  | None => p_emit (PvPut key value);; mret None
  end.

(** Whether a command goes on to the next line of input: the HTTP server of
    [ADVERTISE_ME] never returns to it. *)
Inductive Next := NextLine | Serving.

Definition not_found_text : string := "routing: not found".

Definition proxy_key (suffix : string) : string := "/orcanet/proxies/" +:+ suffix.

(** Members in the order [json.Marshal] gives the keys of a map. *)
Definition provider_record (peer ip port : string) : bytes :=
  json_text (JObj [("ip", JStr ip); ("peerID", JStr peer); ("port", JStr port)]).

Definition advertise_me : GoM PWorld Next :=
  w ← go_get;
  match GetProxyClient (table w) "mine" with
  | None => print "No proxy with the name 'mine' found";; mret NextLine
  | Some myProxy =>
      let dhtKey := proxy_key (IP myProxy) in
      existing ← GetValue dhtKey;
      let go_on :=
        match existing with
        | inl _ => true
        | inr e => Contains e not_found_text
        end in
      if negb go_on then mret NextLine else
      e ← PutValue dhtKey (provider_record node_ID (IP myProxy) (Port myProxy));
      match e with
      | Some err =>
          print ("Failed to advertise proxy '" +:+ dhtKey +:+ "' in the DHT: " +:+ err);;
          mret NextLine
      | None =>
          updated ← GetValue dhtKey;
          match updated with
          | inr err =>
              print ("Error retrieving value for key " +:+ dhtKey +:+
                     " after putting it in DHT: " +:+ err);;
              mret NextLine
          | inl v =>
              if length (default [] v) =? 0 then
                print ("The DHT key " +:+ dhtKey +:+ " was overwritten with an empty value.");;
                mret NextLine
              else
                print ("Successfully advertised your proxy 'mine' in the DHT with key: " +:+ dhtKey);;
                p_emit (PvServe ":8081");;
                mret Serving
          end
      end
  end.

Definition remove_proxy : GoM PWorld Next :=
  w ← go_get;
  match GetProxyClient (table w) "mine" with
  | None => print "No proxy with the name 'mine' found";; mret NextLine
  | Some myProxy =>
      let dhtKey := proxy_key (IP myProxy +:+ ":" +:+ Port myProxy) in
      e ← PutValue dhtKey [];
      match e with
      | Some err =>
          print ("Failed to remove proxy '" +:+ dhtKey +:+ "' from the DHT: " +:+ err);;
          mret NextLine
      | None =>
          print ("Successfully removed proxy 'mine' from the DHT with key: " +:+ dhtKey);;
          mret NextLine
      end
  end.

Definition proxy_record (p : ProxyClient.t) : bytes :=
  json_text (JObj [("ip", JStr (IP p)); ("name", JStr (Name p)); ("port", JStr (Port p))]).

Definition advertise_key (p : ProxyClient.t) : string := proxy_key (IP p +:+ Port p).

(** One proxy of [ADVERTISE_PROXY]. *)
Definition advertise_one (p : ProxyClient.t) : GoM PWorld () :=
  if IsMine p then mret () else
  let dhtKey := advertise_key p in
  existing ← GetValue dhtKey;
  match existing with
  | inl (Some _) =>
      print ("Proxy " +:+ Name p +:+ " is already in the DHT with key: " +:+ dhtKey)
  | inr e =>
      if negb (Contains e not_found_text) then mret () else
      r ← PutValue dhtKey (proxy_record p);
      match r with
      | Some _ => mret ()
      | None => print ("Proxy " +:+ Name p +:+ " advertised successfully with key: " +:+ dhtKey)
      end
  | inl None =>
      r ← PutValue dhtKey (proxy_record p);
      match r with
      | Some _ => mret ()
      | None => print ("Proxy " +:+ Name p +:+ " advertised successfully with key: " +:+ dhtKey)
      end
  end.

Fixpoint advertise_all (l : list ProxyClient.t) : GoM PWorld () :=
  match l with [] => mret () | p :: rest => advertise_one p;; advertise_all rest end.

Definition advertise_proxy : GoM PWorld Next :=
  w ← go_get; advertise_all (table w);; mret NextLine.

Definition p_provideKey (key : string) : GoM PWorld error :=
  match multihash_EncodeName (Sum256 (bytes_of key)) with
  | inr e => mret (Some ("error encoding multihash: " +:+ e))
  | inl c =>
      n ← p_tick;
      match dht_Provide n c with
      | Some e => mret (Some ("failed to start providing key: " +:+ e))
      | None => p_emit (PvProvide key);; mret None
      end
  end.

Definition hashFile (filePath : string) : GoM PWorld (string + string) :=
  n ← p_tick;
  match OpenFile n filePath with
  | inr e => mret (inr ("failed to open file: " +:+ e))
  | inl content => mret (inl (hex (Sum256 content)))
  end.

Definition put_file (filePath : string) : GoM PWorld Next :=
  h ← hashFile filePath;
  match h with
  | inr e => print ("Error calculating file hash: " +:+ e);; mret NextLine
  | inl hash =>
      let dhtKey := "/orcanet/" +:+ hash in
      let addrs := match node_Addrs with [] => JNull | l => JArr (map JStr l) end in
      e ← PutValue dhtKey (json_text (JObj [("addrs", addrs); ("peerID", JStr node_ID)]));
      match e with
      | Some _ => mret NextLine
      | None =>
          r ← p_provideKey hash;
          match r with
          | Some err => print ("Failed to provide key: " +:+ err);; mret NextLine
          | None =>
              print ("Record stored successfully with key: " +:+ dhtKey +:+ " and value : " +:+ node_ID);;
              mret NextLine
          end
      end
  end.

(** One line of input.  The lines that show what was found (providers, the
    node's own id and addresses) are left out. *)
Definition handleInput (line : string) : GoM PWorld Next :=
  match Split (TrimSpace line) " "%char with
  | [] => print "No command provided";; mret NextLine
  | word :: args =>
      let command := of_bytes (to_upper (bytes_of word)) in
      if decide (command = "GET") then
        match args with
        | [] => print "Expected key";; mret NextLine
        | key :: _ =>
            r ← GetValue ("/orcanet/" +:+ key);
            match r with
            | inr e => print ("Failed to get record: " +:+ e);; mret NextLine
            | inl v =>
                print ("Response: " +:+ of_bytes (default [] v));;
                print "File received successfully.";;
                mret NextLine
            end
        end
      else if decide (command = "ADVERTISE_ME") then advertise_me
      else if decide (command = "REMOVE_PROXY") then remove_proxy
      else if decide (command = "ADVERTISE_PROXY") then advertise_proxy
      else if decide (command = "PUT") then
        match args with
        | [] => print "Expected file path";; mret NextLine
        | filePath :: _ => put_file filePath
        end
      else if decide (command = "PUT_PROVIDER") then
        match args with
        | [] => print "Expected key";; mret NextLine
        | key :: _ => p_provideKey key;; mret NextLine
        end
      else if decide (command = "GET_PROVIDERS") then
        match args with
        | [] => print "Expected key";; mret NextLine
        | key :: _ =>
            match multihash_EncodeName (Sum256 (bytes_of key)) with
            | inr e => print ("Error encoding multihash: " +:+ e);; mret NextLine
            | inl _ => print "Searching for providers...";; mret NextLine
            end
        end
      else print "Expected GET, GET_PROVIDERS, PUT or PUT_PROVIDER";; mret NextLine
  end.

(** *** Peer exchange *)

(** The relay's own address that does not parse is a nil interface, whose
    method call panics. *)
Definition connectToPeerUsingRelay (target : string) : GoM PWorld () :=
  let targetPeerID := TrimSpace target in
  match relay_circuit targetPeerID with
  | None | Some (inr _) => go_panic
  | Some (inl peerMultiaddr) =>
      match AddrInfoFromP2pAddr peerMultiaddr with
      | inr _ => mret ()
      | inl info =>
          n ← p_tick;
          match Connect n info with
          | Some _ => mret ()
          | None => p_emit (PvConnect targetPeerID);;
                    print ("Connected to peer via relay: " +:+ targetPeerID)
          end
      end
  end.

(** [connectToPeer]: every failure is logged, and nothing else. *)
Definition connectToPeer (peerAddr : string) : GoM PWorld () :=
  match NewMultiaddr peerAddr with
  | inr _ => mret ()
  | inl addr =>
      match AddrInfoFromP2pAddr addr with
      | inr _ => mret ()
      | inl info =>
          n ← p_tick;
          match Connect n info with
          | Some _ => mret ()
          | None => p_emit (PvConnect (AddrInfo_ID info));;
                    print ("Connected to: " +:+ AddrInfo_ID info)
          end
      end
  end.

(** [log.Fatalf] ends the program. *)
Definition makeReservation : GoM PWorld () :=
  match NewMultiaddr RELAY_NODE_MULTIADDR with
  | inr _ => go_panic
  | inl addr =>
      match AddrInfoFromP2pAddr addr with
      | inr _ => go_panic
      | inl info =>
          n ← p_tick;
          match Reserve n info with
          | Some _ => go_panic
          | None => print "Reservation successfull "
          end
      end
  end.

(** [relayID]: the raw bytes of the relay's peer id, which the handler
    compares with the textual id of the message. *)
Fixpoint connect_peers (relayID : string) (peers : list string) : GoM PWorld () :=
  match peers with
  | [] => mret ()
  | p :: rest =>
      (if decide (p = relayID) then mret () else connectToPeerUsingRelay p);;
      connect_peers relayID rest
  end.
Definition handlePeerExchange (relayID : string) (line : bytes) : GoM PWorld () :=
  connect_peers relayID
    (known_peers (json_parse (bytes_of (TrimSpace (of_bytes line))))).
End Commands.

(** The table [main] builds; the arguments are the ids of the three nodes. *)
Definition main_table (node node2 node3 : string) : ProxyClientsTable :=
  let t := AddProxyClient NewProxyClientsTable "proxy1" "127.0.0.1" "8085" false node2 in
  let t := AddProxyClient t "proxy2" "127.0.0.1" "8084" false node3 in
  AddProxyClient t "mine" "127.0.0.1" "8081" true node.
