(* ===== verification/ProxyFacts.v ===== *)
(** * Proxy node: properties

    What a tunnel delivers and logs under any interleaving, what [handleHTTP]
    passes on, and what the advertising commands do to the DHT. *)

From stdpp Require Import base gmap strings list fin_maps relations.
From Stdlib Require Import ZArith Ascii Lia.
From S2P Require Import Prelude GoStrings GoFloat FSTypes FSPeer FSService Proxy.
Import ProxyClient (Name, IP, Port, IsMine, PeerId).

Open Scope string_scope.
Open Scope list_scope.
Open Scope nat_scope.

(** ** Relaying *)

(** The bytes of the first [k] reads. *)
Fixpoint stream (src : Conn) (k : nat) : bytes :=
  match k with O => [] | S j => stream src j ++ fst (Conn_Read src j) end.

(** What a copier has delivered: everything read so far, in order; once it
    has stopped, it was ended by the source, or by a failed write of the last
    piece.  The count is the number of bytes delivered. *)
Definition copier_ok (dst src : Conn) (c : Copier) : Prop :=
  bytesTransferred c = int64 (Z.of_nat (length (sent c))) ∧
  if stopped c then
    ∃ k, pos c = S k ∧
      (sent c = stream src (S k) ∧ snd (Conn_Read src k) ≠ None ∨
       sent c = stream src k ∧ fst (Conn_Read src k) ≠ [] ∧ Conn_Write dst k ≠ None)
  else sent c = stream src (pos c).

Lemma copier_new_ok dst src : copier_ok dst src copier_new.
Proof. done. Qed.

Lemma int64_add_wrap a b : int64 (int64 a + b) = int64 (a + b).
Proof.
  unfold wrap_s. f_equal.
  replace ((a + 2 ^ (64 - 1)) mod 2 ^ 64 - 2 ^ (64 - 1) + b + 2 ^ (64 - 1))%Z
    with ((a + 2 ^ (64 - 1)) mod 2 ^ 64 + b)%Z by lia.
  rewrite Zplus_mod_idemp_l. f_equal. lia.
Qed.

Lemma copy_step_ok dst src c :
  stopped c = false → copier_ok dst src c → copier_ok dst src (copy_step dst src c).
Proof.
  intros Hs [Hn Hc]. rewrite Hs in Hc. unfold copy_step.
  destruct (Conn_Read src (pos c)) as [data err] eqn:E.
  destruct (0 <? length data) eqn:El.
  - apply Nat.ltb_lt in El. destruct (Conn_Write dst (pos c)) as [e|] eqn:Ew.
    + split; [done|]. simpl. exists (pos c). split; [done|]. right.
      rewrite E, Ew. split_and!; [done| |done]. by destruct data; [simpl in El; lia|].
    + split; simpl.
      { rewrite Hn, int64_add_wrap, length_app. f_equal. lia. }
      destruct err as [e|].
      * exists (pos c). split; [done|]. left. by rewrite E, Hc.
      * by rewrite E, Hc.
  - apply Nat.ltb_ge in El. destruct data; [|simpl in El; lia]. split; [done|].
    destruct err as [e|]; simpl.
    + exists (pos c). split; [done|]. left. by rewrite E, Hc, app_nil_r.
    + by rewrite E, Hc, app_nil_r.
Qed.

Lemma copy_step_pos dst src c : pos (copy_step dst src c) = S (pos c).
Proof.
  unfold copy_step. destruct (Conn_Read src (pos c)) as [data err].
  destruct (0 <? length data); [destruct (Conn_Write dst (pos c))|]; done.
Qed.

Lemma transfer_loop_ok fuel dst src c c' :
  stopped c = false → copier_ok dst src c →
  transfer_loop fuel dst src c = Some c' → stopped c' = true ∧ copier_ok dst src c' ∧ pos c' ≤ pos c + fuel.
Proof.
  revert c. induction fuel as [|k IH]; [done|]. intros c Hs Hc. simpl.
  pose proof (copy_step_ok dst src c Hs Hc) as Hok. pose proof (copy_step_pos dst src c) as Hp.
  destruct (stopped (copy_step dst src c)) eqn:E; [intros [= <-]; split_and!; [done..|lia]|].
  intros Hl. destruct (IH _ E Hok Hl) as (? & ? & ?). split_and!; [done..|lia].
Qed.

Lemma transfer_loop_ends dst src k c :
  stopped c = false → pos c ≤ k → snd (Conn_Read src k) ≠ None →
  ∃ c', transfer_loop (S k - pos c) dst src c = Some c'.
Proof.
  intros Hs Hle Hk. remember (k - pos c) as n eqn:En. revert c Hs Hle En.
  induction n as [|n IH]; intros c Hs Hle En.
  - replace k with (pos c) in * by lia. replace (S (pos c) - pos c) with 1 by lia. simpl.
    unfold copy_step. destruct (Conn_Read src (pos c)) as [data [e|]]; [|done]. simpl.
    destruct (0 <? length data); [destruct (Conn_Write dst (pos c))|]; simpl; by eexists.
  - replace (S k - pos c) with (S (S k - S (pos c))) by lia. simpl.
    pose proof (copy_step_pos dst src c) as Hp.
    destruct (stopped (copy_step dst src c)) eqn:E; [by eexists|].
    destruct (IH (copy_step dst src c)) as [c' Hc']; [done|lia|lia|].
    exists c'. rewrite Hp in Hc'. exact Hc'.
Qed.

(** [transfer] ends once the source reports an error or the end, within
    that many iterations, and returns the number of bytes it delivered: when
    no write fails, all the bytes read. *)
Theorem transfer_complete dst src k :
  (∀ j, j < k → snd (Conn_Read src j) = None) → snd (Conn_Read src k) ≠ None →
  (∀ j, Conn_Write dst j = None) →
  transfer (S k) dst src = Some (int64 (Z.of_nat (length (stream src (S k))))).
Proof.
  intros Hbefore Hk Hw.
  destruct (transfer_loop_ends dst src k copier_new) as [c Hc]; [done|simpl; lia|done|].
  unfold transfer. change (S k - pos copier_new) with (S k) in Hc. rewrite Hc.
  destruct (transfer_loop_ok _ _ _ copier_new _ eq_refl (copier_new_ok dst src) Hc) as (Hs & [Hn Hok] & Hp).
  rewrite Hs in Hok. destruct Hok as (j & Hj & [[Hsent Hread]|(_ & _ & Hwr)]); [|by rewrite Hw in Hwr].
  assert (j = k) as ->.
  { simpl in Hp. destruct (decide (j < k)) as [Hlt|]; [by specialize (Hbefore _ Hlt)|lia]. }
  simpl fmap. rewrite Hn, Hsent. done.
Qed.

(** ** Tunnels *)

(** A tunnel talks to the connections of its request and keeps the counts. *)
Definition relay_ok (r : TunnelRequest) (dest src : Conn) (up down : Copier) : Prop :=
  t_dial r = inl dest ∧ t_hijack r = Some (inl src) ∧
  copier_ok dest src up ∧ copier_ok src dest down.

Definition tunnel_ok (rt : TunnelRequest * Tunnel) : Prop :=
  match snd rt with TRelay dest src up down => relay_ok (fst rt) dest src up down | _ => True end.

(** A log entry with counts: both directions of some tunnel have stopped, and
    the entry has what they delivered. *)
Definition entry_ok (ts : list (TunnelRequest * Tunnel)) (e : LogEntry) : Prop :=
  ∀ a b, l_bytes e = Some (a, b) →
    ∃ i r dest src up down, ts !! i = Some (r, TClosed 200) ∧ relay_ok r dest src up down ∧
      stopped up = true ∧ stopped down = true ∧
      a = bytesTransferred up ∧ b = bytesTransferred down ∧
      l_method e = t_Method r ∧ l_url e = t_URL r ∧ l_headers e = t_Header r.

Definition tunnels_ok (s : Tunnels) : Prop :=
  Forall tunnel_ok (tunnels s) ∧ Forall (entry_ok (tunnels s)) (requests s).

Lemma logRequest_Forall (P : LogEntry → Prop) e l : P e → Forall P l → Forall P (logRequest e l).
Proof. intros He Hl. unfold logRequest. case_decide; [done|]. by apply Forall_app_2, Forall_singleton. Qed.

(** A tunnel that is closed never changes again. *)
Lemma entry_ok_insert ts i r t t' e :
  ts !! i = Some (r, t) → (∀ c, t ≠ TClosed c) → entry_ok ts e → entry_ok (<[i := (r, t')]> ts) e.
Proof.
  intros Hi Ht He a b Hab. destruct (He a b Hab) as (j & r' & dest & src & up & down & Hj & Hrest).
  exists j, r', dest, src, up, down. split; [|done].
  rewrite list_lookup_insert_ne; [done|]. intros ->. rewrite Hi in Hj. injection Hj as -> ->.
  by eapply Ht.
Qed.

Lemma tunnels_step_ok s s' : tunnels_step s s' → tunnels_ok s → tunnels_ok s'.
Proof.
  intros Hstep [Ht He]. destruct Hstep as [s i r t t' requests' Hi Hstep|s e Hn].
  2: { split; [done|]. apply logRequest_Forall; [|done]. intros a b Hab. congruence. }
  assert (tunnel_ok (r, t)) as Hok by (by eapply Forall_lookup_1).
  assert ((∀ c, t ≠ TClosed c)) as Hopen by (by inversion Hstep).
  assert (Forall (entry_ok (<[i := (r, t')]> (tunnels s))) (requests s)) as He'
    by (eapply Forall_impl; [exact He|]; intros; by eapply entry_ok_insert).
  assert (tunnel_ok (r, t') → Forall tunnel_ok (<[i := (r, t')]> (tunnels s))) as Hins
    by (intros; by apply Forall_insert).
  inversion Hstep; subst; split; simpl; try apply Hins; try done.
  - unfold tunnel_open in *. case_decide; simplify_eq; [done|].
    destruct (t_dial r) eqn:Ed; simplify_eq; [|done].
    destruct (t_hijack r) as [[]|] eqn:Eh; simplify_eq; try done.
  - unfold tunnel_open in *.
    assert (requests' = logRequest (mkLogEntry (t_Method r) (t_Path r) (t_Header r) now None)
                          (requests s)) as ->.
    { case_decide; [by simplify_eq|]. destruct (t_dial r); [|by simplify_eq].
      destruct (t_hijack r) as [[]|]; by simplify_eq. }
    by apply logRequest_Forall.
  - destruct Hok as (? & ? & ? & ?). split_and!; auto using copy_step_ok.
  - destruct Hok as (? & ? & ? & ?). split_and!; auto using copy_step_ok.
  - apply logRequest_Forall; [|done]. intros a b [= <- <-].
    exists i, r, dest, src, up, down. rewrite list_lookup_insert_eq by (by eapply lookup_lt_Some).
    done.
Qed.


(** ** Plain HTTP *)

Section Forwarding.
Context `{MapRange} (canonical : string → string).

Lemma Header_Add_values acc k vs pre :
  canonical k = k → acc !! k = Some pre →
  fold_left (λ acc v, Header_Add canonical acc k v) vs acc = <[k := pre ++ vs]> acc.
Proof.
  intros Hk. revert acc pre. induction vs as [|v vs IH]; intros acc pre Hpre; simpl.
  - by rewrite app_nil_r, insert_id.
  - rewrite (IH _ (pre ++ [v])).
    + unfold Header_Add. rewrite Hk, Hpre. simpl. by rewrite insert_insert_eq, <- app_assoc.
    + unfold Header_Add. rewrite Hk, Hpre. by rewrite lookup_insert_eq.
Qed.

Lemma Header_Add_fresh acc k vs :
  canonical k = k → acc !! k = None → vs ≠ [] →
  fold_left (λ acc v, Header_Add canonical acc k v) vs acc = <[k := vs]> acc.
Proof.
  intros Hk Hn Hv. destruct vs as [|v vs]; [done|]. simpl.
  rewrite (Header_Add_values _ _ _ [v]); [|done|].
  - unfold Header_Add. rewrite Hk, Hn. simpl. by rewrite insert_insert_eq.
  - unfold Header_Add. rewrite Hk, Hn. by rewrite lookup_insert_eq.
Qed.

(** The keys as the server delivers them. *)
Definition server_header (h : Header) : Prop :=
  ∀ k vs, h !! k = Some vs → canonical k = k ∧ vs ≠ [].

Lemma copy_headers_list l acc :
  NoDup l.*1 → (∀ k vs, (k, vs) ∈ l → acc !! k = None ∧ canonical k = k ∧ vs ≠ []) →
  fold_left (λ acc kv, fold_left (λ acc v, Header_Add canonical acc (fst kv) v) (snd kv) acc) l acc
  = list_to_map l ∪ acc.
Proof.
  revert acc. induction l as [|[k vs] l IH]; intros acc Hnd Hl; simpl.
  - by rewrite (left_id_L ∅ (∪)).
  - apply NoDup_cons in Hnd as [Hk Hnd].
    destruct (Hl k vs) as (Hacc & Hc & Hv); [left|].
    rewrite Header_Add_fresh by done. rewrite IH; [|done|].
    + rewrite <- insert_union_l, insert_union_r; [done|]. by apply not_elem_of_list_to_map.
    + intros k' vs' Hin. destruct (Hl k' vs') as (? & ? & ?); [by right|].
      rewrite lookup_insert_ne; [done|]. intros ->. apply Hk.
      by apply (list_elem_of_fmap_2 fst _ (k', vs')).
Qed.

Lemma copy_headers_id h : server_header h → copy_headers canonical h = h.
Proof.
  intros Hh. unfold copy_headers.
  assert (NoDup (map_range h).*1) as Hnd
    by (rewrite map_range_perm; apply NoDup_fst_map_to_list).
  rewrite copy_headers_list; [|done|].
  - rewrite (right_id_L ∅ (∪)).
    rewrite (list_to_map_proper (map_range h) (map_to_list h));
      [apply list_to_map_to_list|done|apply map_range_perm].
  - intros k vs Hin. rewrite map_range_perm in Hin. apply elem_of_map_to_list in Hin.
    split; [done|]. by apply Hh.
Qed.

(** [handleHTTP] forwards the request it got, once: same method, URL,
    body and headers.  The client gets the upstream's body, but always
    under status 200, whatever the upstream's status was; when the upstream
    cannot be reached it gets 500. *)
Theorem handleHTTP_forwards NewRequestErr Do r now requests :
  NewRequestErr r = None → server_header (h_Header r) →
  let '(reply, _, forwarded) := handleHTTP canonical NewRequestErr Do r now requests in
  forwarded = [r] ∧
  match Do r with
  | inl (st, body, None) => reply = mkHttpReply 200 body
  | inl (st, body, Some _) => r_body reply = body
  | inr _ => reply = mkHttpReply 500 []
  end.
Proof.
  intros Hn Hh. unfold handleHTTP. rewrite Hn, copy_headers_id by done.
  destruct r as [m u h b]. simpl. destruct (Do _) as [[[st body] [e|]]|e]; done.
Qed.
End Forwarding.

(** ** Advertising *)

Section Advertising.
Context `{KadDht} `{JsonCodec} `{Libp2p} `{DHT} `{Env}.

(** [REMOVE_PROXY] removes nothing.  It writes an empty value, which
    the node's own validator refuses, so the DHT is unchanged; and its key
    is not the one under which [ADVERTISE_ME] stores the record. *)
Theorem remove_proxy_removes_nothing w :
  (∃ w', remove_proxy w = Done NextLine w' ∧ records w' = records w ∧
     (∀ k v, PvPut k v ∈ events w' → PvPut k v ∈ events w)) ∧
  (∀ p, proxy_key (IP p +:+ ":" +:+ Port p) ≠ proxy_key (IP p)).
Proof.
  split.
  - unfold remove_proxy, PutValue. 
    destruct (GetProxyClient (table w) "mine") as [p|] eqn:E.
    2: { eexists. rewrite (bind_done _ _ _ _ _ (eq_refl (go_get w))). rewrite E.
         split; [reflexivity|]. split; [done|]. simpl. set_solver. }
    destruct (kad_put_invalid (pclock w) (records w)
                (proxy_key (IP p +:+ ":" +:+ Port p)) []) as [e He]; [done|].
    eexists. rewrite (bind_done _ _ _ _ _ (eq_refl (go_get w))). rewrite E.
    erewrite bind_done; cycle 1.
    { unfold mbind, GoM_bind, go_bind, p_tick, go_get. simpl. rewrite He. reflexivity. }
    split; [reflexivity|]. split; [done|]. simpl. set_solver.
  - intros p Heq. unfold proxy_key in Heq. apply (f_equal (λ s, length (bytes_of s))) in Heq.
    rewrite !bytes_of_app, !length_app in Heq. simpl in Heq. lia.
Qed.

(** ** A DHT that works *)

Section Reliable.
(** Lookups depend on the records only, and either find a value or report
    that there is none; a put of a valid value succeeds and can be found. *)
Hypothesis get_stable : ∀ n m s k, kad_get n s k = kad_get m s k.
Hypothesis get_answer : ∀ n s k,
  (∃ v, kad_get n s k = inl (Some v)) ∨
  (∃ e, kad_get n s k = inr e ∧ Contains e not_found_text = true).
Hypothesis put_works : ∀ n s k v, Validate k v = None →
  fst (kad_put n s k v) = None ∧ ∀ m, kad_get m (snd (kad_put n s k v)) k = inl (Some v).
Hypothesis text_nonempty : ∀ j, json_text j ≠ [].

Definition found (rs : Records) (k : string) : option bytes :=
  match kad_get 0 rs k with inl v => v | inr _ => None end.

(** What one proxy does to the DHT: nothing when it is the node's own or
    its key is taken, and otherwise its record appears there. *)
Lemma advertise_one_run p w :
  ∃ w', advertise_one p w = Done () w' ∧ table w' = table w ∧
    (∀ k, found (records w') k =
          if decide (IsMine p = false ∧ k = advertise_key p ∧ found (records w) k = None)
          then Some (proxy_record p) else found (records w) k) ∧
    (IsMine p = true ∨ found (records w) (advertise_key p) ≠ None → records w' = records w).
Proof.
  unfold advertise_one. destruct (IsMine p) eqn:Em.
  { eexists. split; [reflexivity|]. split_and!; [done| |done].
    intros k. rewrite decide_False by naive_solver. done. }
  unfold GetValue. set (key := advertise_key p).
  destruct (get_answer (pclock w) (records w) key) as [[v Hv]|(e & He & Hc)].
  - eexists. erewrite bind_done; cycle 1.
    { unfold mbind, GoM_bind, go_bind, p_tick, go_get. simpl. rewrite Hv. reflexivity. }
    split; [reflexivity|]. split_and!; [done| |done]. simpl. intros k.
    rewrite decide_False; [done|]. intros (_ & -> & Hf). unfold found in Hf.
    by rewrite (get_stable 0 (pclock w)), Hv in Hf.
  - assert (found (records w) key = None) as Hnone
      by (unfold found; by rewrite (get_stable 0 (pclock w)), He).
    assert (Validate key (proxy_record p) = None) as Hval.
    { unfold Validate. destruct (length (proxy_record p)) eqn:El; [|done].
      apply nil_length_inv in El. by destruct (text_nonempty _ El). }
    destruct (put_works (S (pclock w)) (records w) key _ Hval) as [Hput Hget].
    destruct (kad_put (S (pclock w)) (records w) key (proxy_record p)) as [pe rs] eqn:Ep.
    simpl in Hput, Hget. subst pe.
    eexists. erewrite bind_done; cycle 1.
    { unfold mbind, GoM_bind, go_bind, p_tick, go_get. simpl. rewrite He. reflexivity. }
    cbv beta iota. rewrite Hc.
    change (negb true) with false. cbv iota. unfold PutValue.
    erewrite bind_done; cycle 1.
    { unfold mbind, GoM_bind, go_bind, p_tick, go_get. simpl. fold key. rewrite Ep. reflexivity. }
    split; [reflexivity|]. simpl. split_and!; [done| |intros [?|?]; congruence].
    intros k. case_decide as Hk.
    + destruct Hk as (_ & -> & _). unfold found. fold key. by rewrite Hget.
    + assert (k ≠ key) by naive_solver. unfold found.
      pose proof (kad_put_frame 0 (S (pclock w)) (records w) key k (proxy_record p)) as Hfr.
      rewrite Ep in Hfr. simpl in Hfr. by rewrite Hfr.
Qed.

(** The first proxy of the list that wants a key. *)
Fixpoint claims (l : list ProxyClient.t) (k : string) : option bytes :=
  match l with
  | [] => None
  | p :: rest =>
      if decide (IsMine p = false ∧ k = advertise_key p) then Some (proxy_record p)
      else claims rest k
  end.

Lemma advertise_all_run l w :
  ∃ w', advertise_all l w = Done () w' ∧ table w' = table w ∧
    (∀ k, found (records w') k =
          match found (records w) k with Some v => Some v | None => claims l k end) ∧
    ((∀ p, p ∈ l → IsMine p = false → found (records w) (advertise_key p) ≠ None) →
     records w' = records w).
Proof.
  revert w. induction l as [|p l IH]; intros w; simpl.
  { eexists. split; [reflexivity|]. split_and!; [done| |done].
    intros k. by destruct (found _ k). }
  destruct (advertise_one_run p w) as (w1 & Hr1 & Ht1 & Hf1 & Hk1).
  destruct (IH w1) as (w2 & Hr2 & Ht2 & Hf2 & Hk2). exists w2.
  rewrite (bind_done _ _ _ _ _ Hr1). split_and!; [done|congruence| |].
  - intros k. rewrite Hf2, Hf1.
    destruct (found (records w) k) as [v|].
    + rewrite decide_False; [done|]. by intros (_ & _ & ?).
    + clear Hf1 Hf2 Hk1 Hk2. case_decide as Hd.
      * destruct Hd as (? & ? & _). by rewrite decide_True.
      * rewrite decide_False; [done|]. intros [? ?]. by apply Hd.
  - intros Hall. assert (records w1 = records w) as Hr.
    { apply Hk1. destruct (IsMine p) eqn:Em; [by left|right]. apply Hall; [left|done]. }
    rewrite Hk2; [done|]. intros q Hq Hm. rewrite Hr. apply Hall; [by right|done].
Qed.

(** [ADVERTISE_PROXY] on a DHT that works: afterwards a key holds what
    it held before, or else the record of the first proxy of the table,
    other than the node's own, with that key; so every such proxy's key
    is taken, and a second run changes nothing. *)
Theorem advertise_proxy_spec w :
  ∃ w', advertise_proxy w = Done NextLine w' ∧
    (∀ k, found (records w') k =
          match found (records w) k with Some v => Some v | None => claims (table w) k end) ∧
    ∃ w'', advertise_proxy w' = Done NextLine w'' ∧ records w'' = records w'.
Proof.
  destruct (advertise_all_run (table w) w) as (w1 & Hr1 & Ht1 & Hf1 & _).
  destruct (advertise_all_run (table w1) w1) as (w2 & Hr2 & Ht2 & Hf2 & Hk2).
  assert (∀ l p, p ∈ l → IsMine p = false → claims l (advertise_key p) ≠ None) as Hclaims.
  { induction l as [|q l IH]; intros p Hp Hm; [by apply elem_of_nil in Hp|]. simpl.
    case_decide as Hd; [done|]. apply elem_of_cons in Hp as [->|Hp]; [by destruct Hd|by apply IH]. }
  exists w1. split_and!.
  - unfold advertise_proxy. rewrite (bind_done _ _ _ _ _ (eq_refl (go_get w))).
    by rewrite (bind_done _ _ _ _ _ Hr1).
  - done.
  - exists w2. split.
    + unfold advertise_proxy. rewrite (bind_done _ _ _ _ _ (eq_refl (go_get w1))).
      by rewrite (bind_done _ _ _ _ _ Hr2).
    + apply Hk2. intros p Hp Hm. rewrite Hf1. destruct (found (records w) _); [done|].
      rewrite Ht1 in Hp. by apply Hclaims.
Qed.
End Reliable.
End Advertising.
