(* ===== verification/ServerWitness.v ===== *)
(** * File share: the theorems on concrete nodes

    Each lemma applies one theorem at a concrete input, with the interfaces
    instantiated by the implementations of Instances.v. *)

From stdpp Require Import base gmap strings list fin_maps relations.
From Stdlib Require Import ZArith Lia Ascii SpecFloat.
From S2P Require Import Prelude GoStrings GoFloat FSTypes Instances FSPeer FSTransfer FSTransferFacts FSService FSServiceFacts FSNodeFacts FSEndToEnd WalletServer WalletHandlers WalletFacts Proxy ProxyFacts.

Open Scope string_scope.
Open Scope list_scope.
Open Scope nat_scope.

(** A node, a file it provides for 2, and a transaction. *)
Definition ex_header : FileDataHeader.t :=
  FileDataHeader.mk "a.txt" 4 "hash" ".txt" "/ip4/127.0.0.1" "peer" (f32_of_Z 2) "addr" "request" true.
Definition ex_state : State :=
  set_downloadStatus <["request" := true]>
    (set_metadataResponse <[meta_key "hash" "peer" := ex_header]>
      (set_providedFiles (cons ex_header)
        (set_isFileHashProvided <["hash" := true]>
          (set_fileHashToPath <["hash" := "a.txt"]> (initial_state "node"))))).
Definition ex_world : World := mkWorld ex_state [] 0.
Definition ex_content : bytes := ["f"; "i"; "l"; "e"]%char.
Definition ex_io : Io := mkIo 1024 None None None.

(** The loop looks at the flag, reads and writes one buffer. *)
Definition ex_sent : Transfer :=
  transfer_step ex_io ex_state (transfer_step ex_io ex_state
    (transfer_step ex_io ex_state (transfer_init "request" ex_content))).
Lemma transfer_interleaved_sound_witness :
  concat (tr_sent ex_sent) = ex_content ∧
  ∃ t, [ex_sent] !! 0 = Some t ∧ concat (tr_sent t) `prefix_of` ex_content.
Proof.
  split; [reflexivity|].
  destruct (transfer_interleaved_sound "request" ex_content 0 ex_world
    [transfer_init "request" ex_content] ex_world [ex_sent]) as (t & Ht & _ & Hp & _).
  - reflexivity.
  - eapply rtc_l; [eapply (step_loop ex_io ex_world _ 0); reflexivity|].
    eapply rtc_l; [eapply (step_loop ex_io ex_world _ 0); reflexivity|].
    apply rtc_once.
    exact (step_loop ex_io ex_world [transfer_step ex_io ex_state (transfer_step ex_io ex_state
             (transfer_init "request" ex_content))] 0 _ eq_refl).
  - exists t. split; [exact Ht|exact Hp].
Defined.

(** With reads that fill the buffer, and with reads of one byte each. *)
Lemma transfer_terminates_witness :
  (let t := transfer_run ex_state (replicate 6 ex_io) (transfer_init "request" ex_content) in
   tr_phase t = Finished ∧ concat (tr_sent t) = ex_content) ∧
  (let t := transfer_run ex_state (replicate (3 * S (length ex_content)) (mkIo 1 None None None))
              (transfer_init "request" ex_content) in
   tr_phase t = Finished ∧ concat (tr_sent t) = ex_content).
Proof.
  split.
  - apply (transfer_terminates ex_state (replicate 6 ex_io) "request" ex_content).
    + reflexivity.
    + repeat constructor.
    + right. split; [|apply Nat.le_refl].
      apply Forall_replicate. unfold reads_at_least, buffer_size. simpl. lia.
  - apply (transfer_terminates ex_state (replicate (3 * S (length ex_content)) (mkIo 1 None None None))
             "request" ex_content).
    + reflexivity.
    + apply Forall_replicate. repeat constructor.
    + left. rewrite length_replicate. apply Nat.le_refl.
Defined.

(** The header and the content arrive in two reads. *)
Lemma receive_integrity_witness :
  ∃ lost chunks w',
    receiveFileData [mkRx (gob_encode ex_header) None 1; mkRx ex_content None 2] None ex_world = Done tt w' ∧
    downloaded ex_header chunks ex_world w' ∧ lost ++ concat chunks = ex_content ∧
    concat chunks = ex_content.
Proof.
  destruct (receive_integrity ex_header ex_content
    [mkRx (gob_encode ex_header) None 1; mkRx ex_content None 2] ex_world) as (lost & chunks & w' & H1 & H2 & H3 & H4).
  - reflexivity.
  - reflexivity.
  - vm_compute. discriminate.
  - reflexivity.
  - repeat constructor.
  - reflexivity.
  - exists lost, chunks, w'. split; [exact H1|]. split; [exact H2|]. split; [exact H3|].
    apply H4. exists 1. apply app_nil_r.
Defined.

Lemma receive_coalesced_witness :
  ∃ w', receiveFileData [mkRx (gob_encode ex_header ++ ex_content) None 1] None ex_world = Done tt w' ∧
        downloaded ex_header [] ex_world w'.
Proof.
  apply (receive_coalesced_loses_content ex_header ex_content 1 ex_world).
  - apply put_pos_nonempty.
  - reflexivity.
  - vm_compute. discriminate.
  - reflexivity.
Defined.

(** The node pauses its download; the message reaches the provider. *)
Definition ex_downloading : World :=
  mkWorld (set_downloadHistory
    <["request" := FileTransaction.mk "request" "hash" ex_header (S754_zero false) (S754_zero false) 0 EmptyString 0]>
    ex_state) [] 0.
Lemma pause_resume_witness :
  ∃ reply w' evs peer d, PauseDownload "request" ex_downloading = Done (reply, None) w' ∧
    log w' = log ex_downloading ++ evs ∧ EvStream "/sendpause/p2p" peer d ∈ evs ∧
    ∀ i ts t wC tsC, ts !! i = Some t → tr_request t = "request" →
      rtc (quiet_step "request") (final (receivePauseDownload (inl d) ex_world), ts) (wC, tsC) →
      ∃ tC bs, tsC !! i = Some tC ∧ tr_sent tC = tr_sent t ++ bs ∧ length bs ≤ 1 ∧
        (tr_phase t = Waiting → tC = t).
Proof.
  assert (match PauseDownload "request" ex_downloading with Done (_, None) _ => True | _ => False end) as Hok
    by (vm_compute; exact I).
  destruct (PauseDownload "request" ex_downloading) as [[reply [e|]] w'|w'] eqn:E; [destruct Hok| |destruct Hok].
  destruct (pause_resume_end_to_end ex_Libp2p ex_Env "request" ex_downloading w' reply ex_world) as [Hp _].
  - reflexivity.
  - destruct (Hp E) as (evs & peer & d & Hl & Hin & Hsettles). exists reply, w', evs, peer, d.
    split; [reflexivity|]. split; [exact Hl|]. split; [exact Hin|exact Hsettles].
Defined.


(** The price is unknown; the price is 2 and the balance 100. *)
Lemma GetFile_branches_witness :
  (∃ reply e w', GetFile "other" "peer" id ex_world = Done (reply, e) w' ∧
     gf_Success reply = false ∧ is_Some e ∧ app w' = ex_state) ∧
  (∃ reply e w' rid, GetFile "hash" "peer" id ex_world = Done (reply, e) w' ∧
     match e with Some _ => gf_Success reply = false | None => gf_Success reply = true ∧ gf_RequestID reply = rid end).
Proof.
  split.
  - destruct (GetFile "other" "peer" id ex_world) as [[r e] w'|w'] eqn:E; [|by vm_compute in E].
    exists r, e, w'. split; [reflexivity|]. exact (GetFile_branches "other" "peer" id ex_world r e w' E).
  - destruct (GetFile "hash" "peer" id ex_world) as [[r e] w'|w'] eqn:E; [|by vm_compute in E].
    pose proof (GetFile_branches "hash" "peer" id ex_world r e w' E) as Hb.
    assert (metadataResponse (app ex_world) !! meta_key "hash" "peer" = Some ex_header) as Hm by reflexivity.
    assert (f_lt (balance_seen ex_world) (FileDataHeader.Price ex_header) = false) as Hp by (vm_compute; reflexivity).
    rewrite Hm, Hp in Hb. destruct Hb as (rid & addr & ts & _ & Hb). exists r, e, w', rid. split; [reflexivity|].
    destruct e; [exact (proj1 Hb)|]. destruct Hb as (H1 & H2 & _). split; [exact H1|exact H2].
Defined.

Lemma provideFileOnDHT_witness :
  ∃ value l, EvDHTPut (dht_key "hash") value ∈ log (final (provideFileOnDHT "hash" "me" ex_world)) ∧
    Split value comma = l ++ ["me"] ∧ NoDup l ∧ ∀ p, p ∈ l ↔ p ∈ Split "a,b,a" comma.
Proof.
  destruct (provideFileOnDHT_record "hash" "me" ex_world (final (provideFileOnDHT "hash" "me" ex_world)))
    as (value & l & H1 & H2 & H3).
  - apply (bool_decide_eq_false_1 (comma ∈ bytes_of "me")). vm_compute. reflexivity.
  - reflexivity.
  - exists value, l. split; [exact H1|]. split; [exact H2|exact H3].
Defined.

Lemma GetProviders_witness :
  ∃ reply w', GetProviders "hash" ex_world = Done (reply, None) w' ∧ gp_Success reply = true ∧
    NoDup (gp_Providers reply) ∧ ∀ p, p ∈ gp_Providers reply ↔ p ∈ Split "a,b,a" comma.
Proof. apply (GetProviders_lists "hash" "a,b,a" ex_world). reflexivity. Defined.

(** The files of the node hold the saved state. *)
Definition ex_Env_saved : Env := Env_with (put (state_tree ex_state)).
Lemma save_restart_witness :
  ∃ w3, @main_init ex_Env_saved _ "node" (mkWorld (initial_state EmptyString) [] 0) = Done tt w3 ∧
    metadataResponse (app w3) = metadataResponse ex_state ∧
    fileHashToPath (app w3) = ∅.
Proof.
  destruct (@save_restart ex_Env_saved _ ex_world
    (mkWorld ex_state [EvFileCreate (state_file "node"); EvSave (state_file "node") (put (state_tree ex_state))] 2)
    (put (state_tree ex_state)) (mkWorld (initial_state EmptyString) [] 0)) as (w3 & H1 & H2).
  - reflexivity.
  - vm_compute. reflexivity.
  - reflexivity.
  - reflexivity.
  - exists w3. rewrite H2. split; [exact H1|]. split; reflexivity.
Defined.

(** A node that starts, provides a file and serves a request; its state
    file does not decode. *)
Lemma node_invariant_witness :
  let w := final (main_init "node" (mkWorld (initial_state EmptyString) [] 0)) in
  let w1 := final (ProvideFile "a.txt" (f32_of_Z 2) w) in
  providedFiles (app w1) ≠ [] ∧ node_ok (app (final (GetHistory w1))).
Proof.
  intros w w1. split; [vm_compute; discriminate|].
  apply (node_invariant "node" (mkWorld (initial_state EmptyString) [] 0) w).
  - intros n d s Hd Hs. assert (d = ex_content) as -> by (injection Hd as <-; reflexivity).
    vm_compute in Hs. discriminate.
  - vm_compute. reflexivity.
  - eapply rtc_l; [apply ns_ProvideFile|]. apply rtc_once, ns_GetHistory.
Defined.

Lemma file_request_witness :
  let r := FileRequest.mk "request" "hash" "peer" "/ip4/127.0.0.1" 5 false in
  let run := receiveFileRequests (inl (json_text (json_of_FileRequest r))) ex_world in
  log (final run) ≠ [] ∧ (∃ evs, log (final run) = log ex_world ++ evs) ∧
  ∃ w', run = Done (Some (transfer_init "request" ex_content)) w'.
Proof.
  intros r run. split; [vm_compute; discriminate|]. split.
  - destruct (file_request_served r ex_world) as (evs & Hevs & _); [reflexivity|].
    exists evs. exact Hevs.
  - exists (final run). vm_compute. reflexivity.
Defined.

Lemma metadata_witness :
  let m := MetaDataRequest.mk "hash" "peer" "/ip4/127.0.0.1" 5 in
  let hd := published_header ex_state "hash" in
  metadataResponse (app (final (receiveFileMetaData (gob_encode hd) ex_world)))
    !! meta_key "hash" (FileDataHeader.PeerID hd) = Some hd.
Proof.
  intros m hd.
  apply (metadata_end_to_end m ex_world ex_world
    "/ip4/130.245.173.221/tcp/4001/p2p/12D3KooWDpJ7As7BWAwRMfu1VU2WCqNjvq387JEYKDBj4kx6nXTN/p2p-circuit/p2p/peer"
    (gob_encode hd)).
  - reflexivity.
  - exists ex_header. split; [apply list_elem_of_here|reflexivity].
  - repeat constructor.
  - vm_compute. repeat first [apply list_elem_of_here | apply list_elem_of_further].
  - apply not_elem_of_nil.
Defined.

(** 5 MB left at 2 MB/s. *)
Lemma remaining_time_witness :
  let x := FileTransaction.mk "request" "hash"
    (FileDataHeader.mk "a.txt" 5242880 "hash" ".txt" EmptyString "peer" (f32_of_Z 2) "addr" "request" true)
    (S754_zero false) (f32_of_Z 2) 0 EmptyString 0 in
  update_transaction x = FileTransaction.set_RemainingTime "2s" x.
Proof.
  intros x. destruct (remaining_time_estimate x) as [H1 _].
  - vm_compute. split; [split; [discriminate|reflexivity]|reflexivity].
  - reflexivity.
  - rewrite H1.
    + reflexivity.
    + vm_compute. split; [discriminate|reflexivity].
    + reflexivity.
Defined.

(** ** Wallet server and proxy: the theorems on concrete inputs *)

Open Scope string_scope.
Open Scope list_scope.
Open Scope nat_scope.

(** ** A machine *)

(** [btcctl] answers every command with [reply]; [btcd] ends with [wait]. *)
Definition ex_Os (reply : string) (wait : error) : Os := {|
  Getwd := λ _, inl "/srv/server";
  path_Dir := λ _, "/srv";
  path_Join := λ l, Join l "/";
  StatMissing := λ _ _, false;
  Pipe := λ _, None;
  StartProcess := λ _ _, None;
  SignalProcess := λ _ _, None;
  WaitProcess := λ _ _, wait;
  KillProcess := λ _ _, None;
  PtyStart := λ _, None;
  ReadFileErr := λ _ _, None;
  WriteFileErr := λ _ _, None;
  RemoveFile := λ _ _, None;
  RunBtcctl := λ _ _, inl reply;
  HomeDir := λ _, inl "/root";
  GOOS := "linux";
  RandInt := λ _ _, inl 0%Z;
  STime := λ _, 0%Z;
  SUUID := λ _, "token"
|}.

Definition ex_config : string := "rpcuser=user" +:+ sep1 nl +:+ "miningaddr=old".
Definition ex_server (btcd : Cmd) : Server :=
  mkServer btcd CmdNil {["token" := mkSession "secret" (2 ^ 62)]} {["/srv/btcd/sample-btcd.conf" := ex_config]}.
Definition ex_sworld (btcd : Cmd) : SWorld := mkSWorld (ex_server btcd) [] 0.

Definition ex_rfc3339 (_ : Z) : string := "1970-01-01".
Definition ex_json_error (e : string) : string := e.

(** ** Wallet server *)

(** Btcctl says the address is not valid. *)
Lemma SendToAddress_invalid_witness :
  ∃ w', @SendToAddress (ex_Os "{}" None) (Some ("nowhere", "1.0")) (ex_sworld CmdRunning) = Panic w'.
Proof.
  apply (@SendToAddress_invalid_panics (ex_Os "{}" None) "nowhere" "1.0" "/srv/server" "{}").
  - reflexivity.
  - reflexivity.
  - reflexivity.
  - vm_compute. reflexivity.
Defined.

(** A balance of 5, and amounts that are not numbers or are negative. *)
Lemma funds_check_gaps_witness :
  ParseFloat "5" = (f64_of_Z 5, None) ∧
  ∃ x, ParseBalanceAndAmount "5" "NaN" = inl (f64_of_Z 5, x) ∧ f_gt x (f64_of_Z 5) = false.
Proof.
  split; [vm_compute; reflexivity|].
  apply (funds_check_gaps "5" (f64_of_Z 5)). vm_compute. reflexivity.
Defined.

Lemma mining_address_witness :
  let O := ex_Os EmptyString None in
  let w' := final (@UpdateBtcdConfigWithMiningAddr O "new" (ex_sworld CmdNil)) in
  ∃ w2, @GetMiningAddressFromConfig O w' = Done (inl "new") w2.
Proof.
  intros O w'.
  apply (@mining_address_roundtrip O "new" "/srv/server" ex_config (ex_sworld CmdNil) w').
  - reflexivity.
  - reflexivity.
  - apply (bool_decide_eq_false_1 (nl ∈ bytes_of "new")). vm_compute. reflexivity.
  - vm_compute. reflexivity.
  - vm_compute. reflexivity.
Defined.

(** The node is started, a login follows, and a wallet is created while
    btcwallet is running. *)
Lemma single_instance_witness :
  let w0 := mkSWorld (mkServer CmdNil CmdNil ∅ ∅) [] 0 in
  let O := ex_Os EmptyString None in
  let w1 := final (@setupRoutes O _ ex_rfc3339 ex_json_error (RqLogin (Some ("secret", true)))
              (final (@StartOrcaNet O EmptyString w0))) in
  let w := final (@setupRoutes O _ ex_rfc3339 ex_json_error RqCreateWallet w1) in
  moments_ok (trace w) ∧ (0 ≤ alive "btcd" (trace w) ≤ 1)%Z ∧ (0 ≤ alive "btcwallet" (trace w) ≤ 1)%Z.
Proof.
  intros w0 O w1 w.
  destruct (@single_instance O _ ex_rfc3339 ex_json_error w0 w) as (H0 & H1 & H2 & _).
  - reflexivity.
  - reflexivity.
  - eapply rtc_l; [eexists; reflexivity|]. apply rtc_once. eexists. reflexivity.
  - split; [exact H0|split; [exact H1|exact H2]].
Defined.

(** Btcd is interrupted and ends with an error status. *)
Lemma unclean_stop_witness :
  let O := ex_Os EmptyString (Some "exit status 1") in
  let w := final (@StopOrcaNet O (ex_sworld CmdRunning)) in
  orcaNetCmd (srv w) = CmdExited ∧ ∀ a, @StartOrcaNet O a w = Done None w.
Proof.
  intros O w.
  destruct (@unclean_stop_permanent O _ ex_rfc3339 ex_json_error (ex_sworld CmdRunning) w "exit status 1")
    as (H1 & _ & H3 & _).
  - reflexivity.
  - reflexivity.
  - reflexivity.
  - apply rtc_refl.
  - split; [exact H1|exact H3].
Defined.

(** After a logout the stored session still unlocks the wallet. *)
Lemma logout_keeps_session_witness :
  let O := ex_Os EmptyString None in
  ∃ m : nat, SvBtcctl (@btcctl_params (unlock_command "secret" (2 ^ 62 - 0)))
    ∈ trace (final (@RetriveInfo O _ ex_json_error (Some "token") (final (@Logout O (ex_sworld CmdRunning))))).
Proof.
  intros O.
  apply (@logout_keeps_session O _ ex_rfc3339 ex_json_error "/srv/server" (λ _, eq_refl) (λ _ _, eq_refl)
    (λ _, eq_refl) (λ _ _, eq_refl) (ex_sworld CmdRunning) "token" (mkSession "secret" (2 ^ 62))).
  - vm_compute. reflexivity.
  - vm_compute. discriminate.
Defined.

(** ** Proxy *)

(** A peer that sends one message and closes. *)
Definition ex_conn (msg : bytes) : Conn :=
  mkConn (λ k, match k with O => (msg, None) | _ => ([], Some "EOF") end) (λ _, None).

Lemma transfer_complete_witness :
  transfer 2 (ex_conn []) (ex_conn ["h"; "i"]%char) = Some 2%Z.
Proof.
  apply (transfer_complete (ex_conn []) (ex_conn ["h"; "i"]%char) 1).
  - intros j Hj. replace j with 0 by lia. reflexivity.
  - discriminate.
  - reflexivity.
Defined.

(** A tunnel is opened and relays one message. *)
Definition ex_tunnel : TunnelRequest :=
  mkTunnelRequest "CONNECT" EmptyString "host:443" ∅ (inl (ex_conn ["y"]%char)) (Some (inl (ex_conn ["h"; "i"]%char))).

(** The server answers 404, the client gets 200. *)
Lemma handleHTTP_witness :
  let r := mkHttpRequest "GET" "http://host/" {["Accept" := ["text/html"]]} [] in
  let '(reply, _, forwarded) := handleHTTP id (λ _, None) (λ _, inl (404%Z, ["x"]%char, None)) r 0 [] in
  forwarded = [r] ∧ reply = mkHttpReply 200 ["x"]%char.
Proof.
  intros r.
  apply (handleHTTP_forwards id (λ _, None) (λ _, inl (404%Z, ["x"]%char, None)) r 0 []).
  - reflexivity.
  - intros k vs Hk. split; [reflexivity|]. intros ->.
    unfold r in Hk. cbn [h_Header] in Hk. apply lookup_singleton_Some in Hk as [_ Hk]. discriminate.
Defined.

(** A DHT kept in a finite map. *)
#[export] Instance ex_KadDht : KadDht.
Proof.
  refine {| Records := gmap string bytes;
            kad_get := λ _ s k, match s !! k with Some v => inl (Some v) | None => inr not_found_text end;
            kad_put := λ _ s k v, match Validate k v with Some e => (Some e, s) | None => (None, <[k := v]> s) end |}.
  - intros n s k v Hv. destruct (Validate k v) as [e|]; [by exists e|done].
  - intros n m s k k' v Hk. destruct (Validate k v); [done|]. simpl. by rewrite lookup_insert_ne.
Defined.

(** *)
Definition ex_proxy : ProxyClient.t := ProxyClient.mk "me" "10.0.0.1" "8080" 1 true "peer".
Lemma remove_proxy_witness :
  proxy_key "10.0.0.1:8080" ≠ proxy_key "10.0.0.1" ∧
  ∃ w', remove_proxy (mkPWorld [ex_proxy] {[proxy_key "10.0.0.1" := ["x"]%char]} [] 0) = Done NextLine w'.
Proof.
  destruct (remove_proxy_removes_nothing (mkPWorld [ex_proxy] {[proxy_key "10.0.0.1" := ["x"]%char]} [] 0))
    as [(w' & H1 & _) H2].
  split; [exact (H2 ex_proxy)|]. exists w'. exact H1.
Defined.

Lemma advertise_proxy_witness :
  ∃ w', advertise_proxy (mkPWorld [ex_proxy] ∅ [] 0) = Done NextLine w' ∧
    ∀ k, found (records w') k = match found (∅ : gmap string bytes) k with
                                | Some v => Some v | None => claims [ex_proxy] k end.
Proof.
  destruct (advertise_proxy_spec (H := ex_KadDht)) with (w := mkPWorld (H := ex_KadDht) [ex_proxy] ∅ [] 0)
    as (w' & H1 & H2 & _).
  - reflexivity.
  - intros n s k. simpl. destruct ((s : gmap string bytes) !! k) as [v|]; [left; by exists v|right].
    exists not_found_text. split; [reflexivity|vm_compute; reflexivity].
  - intros n s k v Hv. simpl. rewrite Hv. split; [reflexivity|]. intros m. simpl. by rewrite lookup_insert_eq.
  - intros j. apply put_pos_nonempty.
  - exists w'. split; [exact H1|exact H2].
Defined.
