(* ===== verification/ScriptNum.v ===== *)
(** * Bitcoin script: errors and numbers

    btcd/txscript/scriptnum.go, the boolean conversions of stack.go, and the
    error codes of error.go that the script engine uses.  A byte is an integer
    between 0 and 255; a panic of the code is the result [Crash]. *)

From Stdlib Require Import ZArith Lia.
From stdpp Require Import base numbers list.
From S2P Require Import Prelude.

Open Scope Z_scope.

(** ** Errors *)

Inductive ErrorCode :=
| ErrInternal | ErrInvalidFlags | ErrInvalidIndex | ErrUnsupportedAddress
| ErrNotMultisigScript | ErrTooManyRequiredSigs | ErrTooMuchNullData | ErrUnsupportedScriptVersion
| ErrEarlyReturn | ErrEmptyStack | ErrEvalFalse | ErrScriptUnfinished | ErrInvalidProgramCounter
| ErrScriptTooBig | ErrElementTooBig | ErrTooManyOperations | ErrStackOverflow
| ErrInvalidPubKeyCount | ErrInvalidSignatureCount | ErrNumberTooBig
| ErrVerify | ErrEqualVerify | ErrNumEqualVerify | ErrCheckSigVerify | ErrCheckMultiSigVerify
| ErrDisabledOpcode | ErrReservedOpcode | ErrMalformedPush | ErrInvalidStackOperation
| ErrUnbalancedConditional | ErrMinimalData | ErrInvalidSigHashType
| ErrSigTooShort | ErrSigTooLong | ErrSigInvalidSeqID | ErrSigInvalidDataLen
| ErrSigMissingSTypeID | ErrSigMissingSLen | ErrSigInvalidSLen | ErrSigInvalidRIntID
| ErrSigZeroRLen | ErrSigNegativeR | ErrSigTooMuchRPadding | ErrSigInvalidSIntID
| ErrSigZeroSLen | ErrSigNegativeS | ErrSigTooMuchSPadding | ErrSigHighS
| ErrNotPushOnly | ErrSigNullDummy | ErrPubKeyType | ErrCleanStack | ErrNullFail
| ErrWitnessMalleated | ErrWitnessMalleatedP2SH | ErrDiscourageUpgradableNOPs
| ErrNegativeLockTime | ErrUnsatisfiedLockTime | ErrMinimalIf
| ErrDiscourageUpgradableWitnessProgram | ErrWitnessProgramEmpty
| ErrWitnessProgramMismatch | ErrWitnessProgramWrongLength | ErrWitnessUnexpected
| ErrWitnessPubKeyType | ErrCodeSeparator | ErrNonConstScriptCode | ErrNotCanonical
| ErrTaprootMaxSigOps | ErrTaprootPubkeyIsEmpty | ErrInvalidTaprootSigLen
| ErrDiscourageUpgradeableTaprootVersion | ErrDiscourageOpSuccess | ErrTapscriptCheckMultisig
| ErrDiscourageUpgradeablePubKeyType | ErrTaprootSigInvalid | ErrTaprootMerkleProofInvalid
| ErrTaprootOutputKeyParityMismatch | ErrControlBlockTooSmall | ErrControlBlockTooLarge
| ErrControlBlockInvalidLength
| ErrOther.                      (* an error that is not a script error *)

#[export] Instance ErrorCode_eq_dec : EqDecision ErrorCode.
Proof. solve_decision. Defined.

Inductive Res (A : Type) := Ok (a : A) | Err (e : ErrorCode) | Crash.
Arguments Ok {A} _.
Arguments Err {A} _.
Arguments Crash {A}.

#[export] Instance Res_ret : MRet Res := @Ok.
#[export] Instance Res_bind : MBind Res := λ A B f m,
  match m with Ok a => f a | Err e => Err e | Crash => Crash end.

Lemma Res_bind_ok {A B} (m : Res A) (f : A → Res B) b :
  m ≫= f = Ok b ↔ ∃ a, m = Ok a ∧ f a = Ok b.
Proof. destruct m; simpl; naive_solver. Qed.

(** An error value of the code: nil is [None]. *)
Definition check (e : option ErrorCode) : Res () :=
  match e with Some c => Err c | None => Ok () end.

(** ** Bytes *)

Abbreviation byte := Z.
Definition is_byte (b : byte) : Prop := 0 ≤ b < 256.
Abbreviation zlen v := (Z.of_nat (length v)).

(** encoding/binary.LittleEndian *)
Fixpoint le_val (v : list byte) : Z :=
  match v with [] => 0 | b :: rest => b + 256 * le_val rest end.
Fixpoint le_put (width : nat) (n : Z) : list byte :=
  match width with O => [] | S k => n mod 256 :: le_put k (n / 256) end.

(** ** Script numbers *)

Definition maxInt32 : Z := 2 ^ 31 - 1.
Definition minInt32 : Z := - 2 ^ 31.
Definition maxScriptNumLen : nat := 4.
Definition cltvMaxScriptNumLen : nat := 5.

(** The last byte. *)
Definition last_byte (v : list byte) : byte := List.last v 0.

Definition checkMinimalDataEncoding (v : list byte) : option ErrorCode :=
  match rev v with
  | [] => None
  | b :: rest =>
      if Z.land b 0x7f =? 0 then
        match rest with
        | [] => Some ErrMinimalData
        | c :: _ => if Z.land c 0x80 =? 0 then Some ErrMinimalData else None
        end
      else None
  end.

(** The loop of [Bytes]; eight rounds consume any positive int64. *)
Fixpoint le_bytes (fuel : nat) (n : Z) : list byte :=
  match fuel with
  | O => []
  | S k => if 0 <? n then Z.land n 0xff :: le_bytes k (Z.shiftr n 8) else []
  end.

(** [Bytes]: the index of the last byte is out of range when the magnitude of
    the number is not an int64. *)
Definition Bytes (n : Z) : Res (list byte) :=
  if n =? 0 then Ok [] else
  let isNegative := n <? 0 in
  let m := if isNegative then int64 (- n) else n in
  match rev (le_bytes 8 m) with
  | [] => Crash
  | b :: rest =>
      if negb (Z.land b 0x80 =? 0) then
        Ok (le_bytes 8 m ++ [if isNegative then 0x80 else 0x00])
      else if isNegative then Ok (rev rest ++ [Z.lor b 0x80])
      else Ok (le_bytes 8 m)
  end.

Definition Int32 (n : Z) : Z :=
  if maxInt32 <? n then maxInt32 else if n <? minInt32 then minInt32 else int32 n.

(** The little-endian loop: [i] is the index of the next byte. *)
Fixpoint decode_le (i : Z) (v : list byte) (result : Z) : Z :=
  match v with
  | [] => result
  | val :: rest => decode_le (i + 1) rest (Z.lor result (int64 (Z.shiftl val (wrap_u 8 (8 * i)))))
  end.

Definition MakeScriptNum (v : list byte) (requireMinimal : bool) (scriptNumLen : nat) : Res Z :=
  if (scriptNumLen <? length v)%nat then Err ErrNumberTooBig else
  check (if requireMinimal then checkMinimalDataEncoding v else None);;
  match v with
  | [] => Ok 0
  | _ =>
      let result := decode_le 0 v 0 in
      if negb (Z.land (last_byte v) 0x80 =? 0) then
        let result' := Z.land result
          (Z.lnot (int64 (Z.shiftl 0x80 (wrap_u 8 (8 * (Z.of_nat (length v) - 1)))))) in
        Ok (int64 (- result'))
      else Ok result
  end.

(** ** Booleans *)

Fixpoint asBool (t : list byte) : bool :=
  match t with
  | [] => false
  | [b] => negb (b =? 0) && negb (b =? 0x80)
  | b :: rest => if b =? 0 then asBool rest else true
  end.

Definition fromBool (v : bool) : list byte := if v then [1] else [].

(** ** Examples from the documentation of [Bytes] *)

Example Bytes_examples :
  map Bytes [127; -127; 128; -128; 129; -129; 256; -256; 32767; -32767; 32768; -32768] =
  map Ok [[0x7f]; [0xff]; [0x80; 0x00]; [0x80; 0x80]; [0x81; 0x00]; [0x81; 0x80];
          [0x00; 0x01]; [0x00; 0x81]; [0xff; 0x7f]; [0xff; 0xff]; [0x00; 0x80; 0x00];
          [0x00; 0x80; 0x80]].
Proof. reflexivity. Qed.
