(* ===== verification/ScriptNumFacts.v ===== *)
(** * Bitcoin script: numbers are encoded uniquely

    The minimal encodings and the integers correspond one to one, and the
    length limits bound the values. *)

From Stdlib Require Import ZArith Lia.
From stdpp Require Import base numbers list.
From S2P Require Import Prelude ScriptNum.

Open Scope Z_scope.

(** ** Bytes and bits *)

(** A boolean fact about all bytes, by computation. *)
Lemma byte_all (P : Z → bool) :
  forallb (λ n, P (Z.of_nat n)) (seq 0 256) = true → ∀ b, is_byte b → P b = true.
Proof.
  intros Hall b Hb. rewrite forallb_forall in Hall.
  specialize (Hall (Z.to_nat b)). rewrite Z2Nat.id in Hall by (unfold is_byte in Hb; lia).
  apply Hall. apply in_seq. unfold is_byte in Hb. lia.
Qed.

Lemma land_7f b : is_byte b → Z.land b 0x7f = b mod 128.
Proof. intros Hb. apply Z.eqb_eq. revert b Hb. apply byte_all. vm_compute. done. Qed.
Lemma land_80 b : is_byte b → Z.land b 0x80 = if b <? 128 then 0 else 128.
Proof. intros Hb. apply Z.eqb_eq. revert b Hb. apply byte_all. vm_compute. done. Qed.
Lemma lor_80 b : is_byte b → b < 128 → Z.lor b 0x80 = b + 128.
Proof.
  intros Hb Hlt. apply Z.eqb_eq.
  assert ((128 <=? b) || (Z.lor b 0x80 =? b + 128) = true) as Hor.
  { clear Hlt. revert b Hb. apply (byte_all (λ b, (128 <=? b) || (Z.lor b 0x80 =? b + 128))). vm_compute. done. }
  apply orb_true_iff in Hor as [Hge|]; [apply Z.leb_le in Hge; lia|done].
Qed.

Lemma lor_shiftl_add a b k : 0 ≤ k → 0 ≤ a < 2 ^ k → Z.lor a (Z.shiftl b k) = a + b * 2 ^ k.
Proof.
  intros Hk Ha. rewrite <- Z.shiftl_mul_pow2, <- Z.add_lor_land by done.
  replace (Z.land a (Z.shiftl b k)) with 0; [lia|]. symmetry. apply Z.bits_inj'. intros i Hi.
  rewrite Z.land_spec, Z.bits_0. destruct (Z.lt_ge_cases i k) as [Hlt|Hge].
  - rewrite (Z.shiftl_spec_low b) by done. apply andb_false_r.
  - rewrite <- (Z.mod_small a (2 ^ k)) by done. by rewrite Z.mod_pow2_bits_high by lia.
Qed.

Lemma clear_bit m p : 0 ≤ p → 0 ≤ m < 2 ^ p → Z.land (m + 2 ^ p) (Z.lnot (2 ^ p)) = m.
Proof.
  intros Hp Hm. replace (m + 2 ^ p) with (Z.lor m (Z.shiftl 1 p))
    by (rewrite lor_shiftl_add by done; lia).
  rewrite Z.shiftl_1_l. apply Z.bits_inj'. intros i Hi.
  rewrite Z.land_spec, Z.lor_spec, Z.lnot_spec, Z.pow2_bits_eqb by done.
  destruct (p =? i) eqn:E; [|by rewrite orb_false_r, andb_true_r].
  apply Z.eqb_eq in E as <-. rewrite andb_false_r.
  rewrite <- (Z.mod_small m (2 ^ p)) by done. by rewrite Z.mod_pow2_bits_high by lia.
Qed.

Lemma pow_256 k : 0 ≤ k → 2 ^ (8 * k) = 256 ^ k.
Proof. intros Hk. by rewrite Z.pow_mul_r. Qed.

(** ** Little-endian values *)

Abbreviation len v := (Z.of_nat (length v)).

Lemma le_val_app u v : le_val (u ++ v) = le_val u + 256 ^ len u * le_val v.
Proof.
  induction u as [|b u IH]; [simpl; lia|]. simpl app. cbn [le_val]. rewrite IH.
  simpl length. rewrite Nat2Z.inj_succ, Z.pow_succ_r by lia. lia.
Qed.

Lemma le_val_range v : Forall is_byte v → 0 ≤ le_val v < 256 ^ len v.
Proof.
  induction 1 as [|b v Hb _ IH]; [simpl; lia|]. cbn [le_val]. simpl length.
  rewrite Nat2Z.inj_succ, Z.pow_succ_r by lia. unfold is_byte in Hb. lia.
Qed.

Lemma le_val_inj u v :
  Forall is_byte u → Forall is_byte v → length u = length v → le_val u = le_val v → u = v.
Proof.
  intros Hu. revert v. induction Hu as [|b u Hb _ IH]; intros [|c v] Hv Hl; try done.
  apply Forall_cons in Hv as [Hc Hv]. cbn [le_val]. intros Heq. unfold is_byte in *.
  assert (b = c) as -> by lia. f_equal. apply IH; [done|by injection Hl|lia].
Qed.

(** *** Fixed width *)

Lemma le_put_length w n : length (le_put w n) = w.
Proof. revert n. induction w; intros n; simpl; [done|]. by rewrite IHw. Qed.

Lemma le_put_bytes w n : Forall is_byte (le_put w n).
Proof.
  revert n. induction w as [|w IH]; intros n; simpl; constructor; [|done].
  apply Z.mod_pos_bound. lia.
Qed.

Lemma le_val_put w n : 0 ≤ n < 256 ^ Z.of_nat w → le_val (le_put w n) = n.
Proof.
  revert n. induction w as [|w IH]; intros n Hn; simpl; [simpl in Hn; lia|].
  rewrite Nat2Z.inj_succ, Z.pow_succ_r in Hn by lia.
  rewrite IH by (split; [apply Z.div_pos; lia|apply Z.div_lt_upper_bound; lia]).
  pose proof (Z.div_mod n 256). lia.
Qed.

Lemma le_put_val l : Forall is_byte l → le_put (length l) (le_val l) = l.
Proof.
  induction 1 as [|b l Hb _ IH]; [done|]. simpl. unfold is_byte in Hb.
  rewrite (Z.mul_comm 256), Z.mod_add, Z.mod_small, Z.div_add, Z.div_small by lia.
  by rewrite Z.add_0_l, IH.
Qed.

Lemma le_bytes_spec k n :
  0 ≤ n < 256 ^ Z.of_nat k →
  Forall is_byte (le_bytes k n) ∧ le_val (le_bytes k n) = n ∧
  (0 < n → le_bytes k n ≠ [] ∧ last_byte (le_bytes k n) ≠ 0).
Proof.
  revert n. induction k as [|k IH]; intros n Hn.
  { simpl in *. split_and!; [done|lia|lia]. }
  simpl. destruct (0 <? n) eqn:E.
  2: { apply Z.ltb_ge in E. split_and!; [done|simpl; lia|lia]. }
  apply Z.ltb_lt in E. rewrite Nat2Z.inj_succ, Z.pow_succ_r in Hn by lia.
  change 0xff with (Z.ones 8). rewrite Z.land_ones, Z.shiftr_div_pow2 by lia.
  change (2 ^ 8) with 256.
  pose proof (Z.div_mod n 256 ltac:(lia)) as Hdm.
  pose proof (Z.mod_pos_bound n 256 ltac:(lia)) as Hm.
  assert (0 ≤ n / 256 < 256 ^ Z.of_nat k) as Hd
    by (split; [apply Z.div_pos; lia|apply Z.div_lt_upper_bound; lia]).
  destruct (IH _ Hd) as (Hb & Hv & Hl). split_and!.
  - constructor; [unfold is_byte; lia|done].
  - cbn [le_val]. rewrite Hv. lia.
  - intros _. split; [done|]. destruct (Z.lt_ge_cases 0 (n / 256)) as [Hpos|Hz].
    + destruct (Hl Hpos) as [Hne Hlast]. unfold last_byte in *.
      by destruct (le_bytes k (n / 256)).
    + assert (n / 256 = 0) as -> by lia. destruct k; unfold last_byte; simpl; lia.
Qed.

Lemma decode_le_spec v i result :
  0 ≤ i → i + len v ≤ 7 → Forall is_byte v → 0 ≤ result < 256 ^ i →
  decode_le i v result = result + 256 ^ i * le_val v.
Proof.
  revert i result. induction v as [|b v IH]; intros i result Hi Hl Hv Hr; [simpl; lia|].
  apply Forall_cons in Hv as [Hb Hv]. simpl length in Hl. cbn [decode_le le_val].
  assert (256 ^ i ≤ 256 ^ 6) as Hpow by (apply Z.pow_le_mono_r; lia).
  rewrite (wrap_u_id 8) by lia. unfold is_byte in Hb.
  assert (Z.shiftl b (8 * i) = b * 256 ^ i) as Hsh
    by (rewrite Z.shiftl_mul_pow2 by lia; by rewrite pow_256).
  rewrite wrap_s_id; [|lia|rewrite Hsh; split; [nia|]].
  2: { apply (Z.le_lt_trans _ (255 * 256 ^ 6)); [nia|]. vm_compute. done. }
  rewrite lor_shiftl_add by (rewrite ?pow_256 by lia; lia). rewrite pow_256 by lia.
  rewrite IH; [|lia|lia|done|].
  - rewrite Z.pow_add_r by lia. lia.
  - rewrite Z.pow_add_r by lia. nia.
Qed.

(** ** Sign and magnitude *)

Definition negative (v : list byte) : bool := 128 <=? last_byte v.

(** The number an encoding stands for: the top bit is the sign. *)
Definition magnitude (v : list byte) : Z :=
  le_val v - (if negative v then 128 * 256 ^ (len v - 1) else 0).
Definition snum (v : list byte) : Z := if negative v then - magnitude v else magnitude v.

Lemma mod_128 b : 128 ≤ b < 256 → b mod 128 = b - 128.
Proof. intros Hb. symmetry. apply (Z.mod_unique _ _ 1); lia. Qed.

Lemma last_byte_snoc l b : last_byte (l ++ [b]) = b.
Proof. apply List.last_last. Qed.

Lemma Forall_snoc (P : byte → Prop) l b : Forall P (l ++ [b]) ↔ Forall P l ∧ P b.
Proof. by rewrite Forall_app, Forall_singleton. Qed.

Lemma snoc_cases (v : list byte) : v = [] ∨ ∃ l b, v = l ++ [b].
Proof. destruct v as [|b l] using rev_ind; eauto. Qed.

Lemma magnitude_snoc l b :
  is_byte b → magnitude (l ++ [b]) = le_val l + 256 ^ len l * (b mod 128).
Proof.
  intros Hb. unfold magnitude, negative. rewrite last_byte_snoc, le_val_app, length_app.
  cbn [le_val]. simpl length. replace (Z.of_nat (length l + 1) - 1) with (len l) by lia.
  unfold is_byte in Hb. destruct (128 <=? b) eqn:E.
  - apply Z.leb_le in E. rewrite mod_128 by lia. lia.
  - apply Z.leb_gt in E. rewrite Z.mod_small by lia. lia.
Qed.

Lemma magnitude_nonneg v : Forall is_byte v → 0 ≤ magnitude v.
Proof.
  intros Hv. destruct (snoc_cases v) as [->|(l & b & ->)]; [by vm_compute|].
  apply Forall_snoc in Hv as [Hl Hb]. rewrite magnitude_snoc by done.
  pose proof (le_val_range l Hl). pose proof (Z.mod_pos_bound b 128). nia.
Qed.

Lemma minimal_snoc l b :
  is_byte b →
  checkMinimalDataEncoding (l ++ [b]) =
  if b mod 128 =? 0 then
    match rev l with
    | [] => Some ErrMinimalData
    | c :: _ => if Z.land c 0x80 =? 0 then Some ErrMinimalData else None
    end
  else None.
Proof.
  intros Hb. unfold checkMinimalDataEncoding. rewrite rev_app_distr. simpl. by rewrite land_7f.
Qed.

(** A minimal encoding uses its top byte. *)
Lemma minimal_bounds v :
  Forall is_byte v → v ≠ [] → checkMinimalDataEncoding v = None →
  256 ^ (len v - 1) ≤ 2 * magnitude v < 256 ^ len v.
Proof.
  intros Hv Hne Hmin. destruct (snoc_cases v) as [->|(l & b & ->)]; [done|].
  apply Forall_snoc in Hv as [Hl Hb].
  rewrite magnitude_snoc by done. rewrite minimal_snoc in Hmin by done.
  rewrite length_app. simpl length.
  replace (Z.of_nat (length l + 1)) with (Z.succ (len l)) by lia.
  rewrite Z.pow_succ_r by lia. replace (Z.succ (len l) - 1) with (len l) by lia.
  pose proof (le_val_range l Hl) as Hr. pose proof (Z.mod_pos_bound b 128 ltac:(lia)) as Hmb.
  split; [|nia]. destruct (b mod 128 =? 0) eqn:E; [|apply Z.eqb_neq in E; nia].
  destruct (snoc_cases l) as [->|(l' & c & ->)]; [done|].
  rewrite rev_app_distr in Hmin. simpl in Hmin.
  apply Forall_snoc in Hl as [Hl' Hc]. rewrite land_80 in Hmin by done.
  destruct (c <? 128) eqn:Ec; [done|]. apply Z.ltb_ge in Ec.
  rewrite le_val_app, length_app. cbn [le_val]. simpl length.
  replace (Z.of_nat (length l' + 1)) with (Z.succ (len l')) by lia.
  rewrite Z.pow_succ_r by lia. pose proof (le_val_range l' Hl'). nia.
Qed.

Lemma minimal_inj u v :
  Forall is_byte u → Forall is_byte v →
  checkMinimalDataEncoding u = None → checkMinimalDataEncoding v = None →
  snum u = snum v → u = v.
Proof.
  intros Hu Hv Mu Mv Heq.
  assert (∀ w, Forall is_byte w → checkMinimalDataEncoding w = None → w ≠ [] → snum w ≠ 0) as Hnz.
  { intros w Hw Mw Hne Hz. pose proof (minimal_bounds w Hw Hne Mw) as Hb.
    pose proof (Z.pow_pos_nonneg 256 (len w - 1)) as Hp. unfold snum in Hz.
    assert (0 < len w) by (destruct w; [done|simpl; lia]). destruct (negative w); lia. }
  destruct (decide (u = [])) as [->|Nu].
  { destruct (decide (v = [])) as [->|Nv]; [done|]. by destruct (Hnz v Hv Mv Nv). }
  destruct (decide (v = [])) as [->|Nv]; [by destruct (Hnz u Hu Mu Nu)|].
  pose proof (minimal_bounds u Hu Nu Mu) as Bu. pose proof (minimal_bounds v Hv Nv Mv) as Bv.
  pose proof (magnitude_nonneg u Hu). pose proof (magnitude_nonneg v Hv).
  specialize (Hnz u Hu Mu Nu). unfold snum in *.
  assert (negative u = negative v ∧ magnitude u = magnitude v) as [Hneg Hmag]
    by (destruct (negative u), (negative v); split; lia).
  assert (length u = length v) as Hlen.
  { destruct (Nat.lt_trichotomy (length u) (length v)) as [Hlt|[|Hlt]]; [exfalso| |exfalso]; [|done|].
    - pose proof (Z.pow_le_mono_r 256 (len u) (len v - 1) ltac:(lia) ltac:(lia)). lia.
    - pose proof (Z.pow_le_mono_r 256 (len v) (len u - 1) ltac:(lia) ltac:(lia)). lia. }
  apply le_val_inj; [done..|]. unfold magnitude in Hmag. rewrite Hneg, Hlen in Hmag. lia.
Qed.

(** ** [Bytes] and [MakeScriptNum] *)

Lemma Bytes_spec n :
  - 2 ^ 63 < n < 2 ^ 63 →
  ∃ v, Bytes n = Ok v ∧ Forall is_byte v ∧ checkMinimalDataEncoding v = None ∧ snum v = n.
Proof.
  intros Hn. unfold Bytes. destruct (n =? 0) eqn:E0.
  { apply Z.eqb_eq in E0. exists []. by subst. }
  apply Z.eqb_neq in E0.
  assert ((if n <? 0 then int64 (- n) else n) = Z.abs n) as ->.
  { destruct (n <? 0) eqn:E; [apply Z.ltb_lt in E; rewrite wrap_s_id by lia; lia|].
    apply Z.ltb_ge in E. lia. }
  destruct (le_bytes_spec 8 (Z.abs n)) as (Hb & Hv & Hl).
  { split; [lia|]. apply (Z.lt_trans _ (2 ^ 63)); [lia|by vm_compute]. }
  destruct Hl as [Hne Hlast]; [lia|].
  destruct (snoc_cases (le_bytes 8 (Z.abs n))) as [?|(l & b & El)]; [done|].
  rewrite El in *. rewrite rev_app_distr. simpl. rewrite last_byte_snoc in Hlast.
  pose proof Hb as Hb'. apply Forall_snoc in Hb' as [Hbl Hbb].
  rewrite le_val_app in Hv. cbn [le_val] in Hv. rewrite land_80 by done. unfold is_byte in Hbb.
  assert (is_byte 128 ∧ is_byte 0) as [H128 Hzero] by (unfold is_byte; lia).
  destruct (b <? 128) eqn:Eb; simpl.
  - apply Z.ltb_lt in Eb. destruct (n <? 0) eqn:En.
    + apply Z.ltb_lt in En. rewrite rev_involutive, lor_80 by (done || lia).
      assert (is_byte (b + 128)) as Hb2 by (unfold is_byte; lia).
      assert ((b + 128) mod 128 = b) as Hmod by (rewrite mod_128; lia).
      eexists. split_and!; [done|apply Forall_snoc; auto| |].
      * rewrite minimal_snoc, Hmod by done. by rewrite (proj2 (Z.eqb_neq _ _)).
      * unfold snum, negative. rewrite last_byte_snoc, (proj2 (Z.leb_le _ _)) by lia.
        rewrite magnitude_snoc, Hmod by done. lia.
    + apply Z.ltb_ge in En. eexists. split_and!; [done|done| |].
      * rewrite minimal_snoc, Z.mod_small by (done || lia). by rewrite (proj2 (Z.eqb_neq _ _)).
      * unfold snum, negative. rewrite last_byte_snoc, (proj2 (Z.leb_gt _ _)) by lia.
        rewrite magnitude_snoc, Z.mod_small by (done || lia). lia.
  - apply Z.ltb_ge in Eb.
    assert (∀ s, is_byte s → s mod 128 = 0 →
              Forall is_byte ((l ++ [b]) ++ [s]) ∧ checkMinimalDataEncoding ((l ++ [b]) ++ [s]) = None ∧
              magnitude ((l ++ [b]) ++ [s]) = Z.abs n) as Hs.
    { intros s Hs Hm. split_and!; [apply Forall_snoc; auto| |].
      - rewrite minimal_snoc, Hm by done. rewrite rev_app_distr. simpl.
        rewrite land_80 by done. by rewrite (proj2 (Z.ltb_ge _ _)) by lia.
      - rewrite magnitude_snoc, Hm by done. rewrite le_val_app. cbn [le_val]. lia. }
    destruct (n <? 0) eqn:En.
    + destruct (Hs 128 H128 eq_refl) as (? & ? & Hmag). eexists. split_and!; [done..|].
      unfold snum, negative. rewrite last_byte_snoc, Hmag. apply Z.ltb_lt in En. simpl. lia.
    + destruct (Hs 0 Hzero eq_refl) as (? & ? & Hmag). eexists. split_and!; [done..|].
      unfold snum, negative. rewrite last_byte_snoc, Hmag. apply Z.ltb_ge in En. simpl. lia.
Qed.

Lemma match_ne {A B} (v : list A) (x y : B) :
  v ≠ [] → match v with [] => x | _ :: _ => y end = y.
Proof. by destruct v. Qed.

Lemma MakeScriptNum_spec v rm L :
  Forall is_byte v → (L ≤ 7)%nat → (length v ≤ L)%nat →
  (rm = true → checkMinimalDataEncoding v = None) → MakeScriptNum v rm L = Ok (snum v).
Proof.
  intros Hv HL Hlen Hrm. unfold MakeScriptNum. rewrite (proj2 (Nat.ltb_ge _ _)) by lia.
  replace (check _) with (Ok ()) by (destruct rm; [by rewrite Hrm|done]).
  cbn [mbind Res_bind]. destruct (snoc_cases v) as [->|(l & b & ->)]; [done|].
  pose proof Hv as Hv'. apply Forall_snoc in Hv' as [Hl Hb].
  rewrite length_app in Hlen. simpl in Hlen.
  rewrite match_ne by (by destruct l).
  assert (decode_le 0 (l ++ [b]) 0 = le_val (l ++ [b])) as ->.
  { rewrite decode_le_spec; [by rewrite Z.mul_1_l|lia| |done|by vm_compute].
    rewrite length_app. simpl. lia. }
  rewrite last_byte_snoc, land_80 by done. unfold snum, negative. rewrite last_byte_snoc.
  replace (128 <=? b) with (negb (b <? 128)) by (rewrite Z.leb_antisym; done).
  destruct (b <? 128) eqn:Eb; simpl negb; cbv iota.
  { unfold magnitude, negative. rewrite last_byte_snoc, Z.leb_antisym, Eb. simpl. f_equal. lia. }
  apply Z.ltb_ge in Eb. unfold is_byte in Hb. simpl negb. cbv iota.
  rewrite length_app. simpl length. replace (Z.of_nat (length l + 1) - 1) with (len l) by lia.
  assert (256 ^ len l ≤ 256 ^ 6) as Hpow by (apply Z.pow_le_mono_r; lia).
  pose proof (Z.pow_pos_nonneg 256 (len l)) as Hpos.
  assert (Z.shiftl 0x80 (8 * len l) = 2 ^ (8 * len l + 7)) as Hsh
    by (rewrite Z.shiftl_mul_pow2, Z.pow_add_r by lia; lia).
  assert (2 ^ (8 * len l + 7) ≤ 2 ^ 55) as Hbound by (apply Z.pow_le_mono_r; lia).
  rewrite (wrap_u_id 8), Hsh, (wrap_s_id 64 (2 ^ _)) by (split; lia || lia).
  assert (le_val (l ++ [b]) = magnitude (l ++ [b]) + 2 ^ (8 * len l + 7)) as ->.
  { rewrite magnitude_snoc, mod_128, le_val_app by (done || lia). cbn [le_val].
    rewrite Z.pow_add_r, pow_256 by lia. lia. }
  assert (0 ≤ magnitude (l ++ [b]) < 2 ^ (8 * len l + 7)) as Hm.
  { split; [by apply magnitude_nonneg|]. rewrite magnitude_snoc, mod_128 by (done || lia).
    rewrite Z.pow_add_r, pow_256 by lia. pose proof (le_val_range l Hl). nia. }
  rewrite clear_bit by lia. rewrite wrap_s_id by lia. done.
Qed.

Lemma snum_bounds v L :
  Forall is_byte v → (1 ≤ L)%nat → (length v ≤ L)%nat →
  - 2 ^ (8 * Z.of_nat L - 1) < snum v < 2 ^ (8 * Z.of_nat L - 1).
Proof.
  intros Hv HL Hlen. pose proof (magnitude_nonneg v Hv).
  assert (magnitude v < 2 ^ (8 * Z.of_nat L - 1)); [|unfold snum; destruct (negative v); lia].
  destruct (snoc_cases v) as [->|(l & b & ->)].
  { apply (Z.lt_le_trans _ 1); [by vm_compute|].
    pose proof (Z.pow_pos_nonneg 2 (8 * Z.of_nat L - 1)). lia. }
  apply Forall_snoc in Hv as [Hl Hb]. rewrite magnitude_snoc by done.
  rewrite length_app in Hlen. simpl in Hlen.
  apply (Z.lt_le_trans _ (2 ^ (8 * len l + 7))); [|apply Z.pow_le_mono_r; lia].
  rewrite Z.pow_add_r, pow_256 by lia. pose proof (le_val_range l Hl).
  pose proof (Z.mod_pos_bound b 128 ltac:(lia)). nia.
Qed.

Lemma minimal_length v L :
  Forall is_byte v → checkMinimalDataEncoding v = None →
  - 2 ^ (8 * Z.of_nat L - 1) < snum v < 2 ^ (8 * Z.of_nat L - 1) → (length v ≤ L)%nat.
Proof.
  intros Hv Hm Hn. destruct (decide (v = [])) as [->|Hne]; [simpl; lia|].
  pose proof (minimal_bounds v Hv Hne Hm) as Hb.
  assert (magnitude v < 2 ^ (8 * Z.of_nat L - 1)) as Hlt by (unfold snum in Hn; destruct (negative v); lia).
  destruct (Nat.le_gt_cases (length v) L) as [|Hgt]; [done|exfalso].
  assert (256 ^ Z.of_nat L ≤ 256 ^ (len v - 1)) as Hp by (apply Z.pow_le_mono_r; lia).
  destruct L as [|L]; [by simpl in Hlt; pose proof (magnitude_nonneg v Hv); lia|].
  rewrite <- pow_256 in Hp by lia.
  replace (8 * Z.of_nat (S L)) with (Z.succ (8 * Z.of_nat (S L) - 1)) in Hp by lia.
  rewrite Z.pow_succ_r in Hp by lia. lia.
Qed.

Lemma MakeScriptNum_ok v rm L n :
  Forall is_byte v → (L ≤ 7)%nat → MakeScriptNum v rm L = Ok n →
  (length v ≤ L)%nat ∧ n = snum v ∧ (rm = true → checkMinimalDataEncoding v = None).
Proof.
  intros Hv HL Hok. assert (length v ≤ L)%nat as Hlen.
  { unfold MakeScriptNum in Hok. destruct (L <? length v)%nat eqn:E; [done|].
    by apply Nat.ltb_ge in E. }
  assert (rm = true → checkMinimalDataEncoding v = None) as Hm.
  { intros ->. unfold MakeScriptNum in Hok. rewrite (proj2 (Nat.ltb_ge _ _)) in Hok by done.
    by destruct (checkMinimalDataEncoding v). }
  rewrite MakeScriptNum_spec in Hok by done. injection Hok as <-. done.
Qed.

Lemma asBool_snum v : Forall is_byte v → asBool v = negb (snum v =? 0).
Proof.
  intros Hv. assert (asBool v = false ↔ magnitude v = 0) as Hz.
  { induction Hv as [|b v Hb Hv IH]; [done|]. destruct v as [|c v].
    { change [b] with ([] ++ [b]) at 2. rewrite (magnitude_snoc [] b) by done.
      cbn [le_val app length asBool]. rewrite Z.mul_1_l, Z.add_0_l. rewrite andb_false_iff, !negb_false_iff, !Z.eqb_eq.
      unfold is_byte in Hb. destruct (Z.lt_ge_cases b 128);
        [rewrite Z.mod_small by lia|rewrite mod_128 by lia]; lia. }
    destruct (snoc_cases (c :: v)) as [?|(l & d & El)]; [done|].
    assert (Forall is_byte (l ++ [d])) as Hld by (by rewrite <- El). pose proof Hld as Hld'.
    apply Forall_snoc in Hld' as [Hl Hd].
    change (asBool (b :: c :: v)) with (if b =? 0 then asBool (c :: v) else true).
    rewrite El in *. change (b :: l ++ [d]) with ((b :: l) ++ [d]).
    rewrite magnitude_snoc in * by done. cbn [le_val]. simpl length.
    rewrite Nat2Z.inj_succ, Z.pow_succ_r by lia. unfold is_byte in Hb.
    pose proof (le_val_range l Hl). pose proof (Z.mod_pos_bound d 128 ltac:(lia)).
    pose proof (Z.pow_pos_nonneg 256 (len l)). destruct (b =? 0) eqn:Eb.
    - apply Z.eqb_eq in Eb as ->. rewrite IH. nia.
    - apply Z.eqb_neq in Eb. split; [done|nia]. }
  assert (snum v = 0 ↔ magnitude v = 0) as Hs by (unfold snum; destruct (negative v); lia).
  destruct (asBool v), (snum v =? 0) eqn:E; try done; simpl.
  - apply Z.eqb_eq in E. naive_solver.
  - apply Z.eqb_neq in E. naive_solver.
Qed.

(** C35. Script numbers.  For lengths up to 7 (the engine uses 4 and 5): every
    integer that fits is encoded in at most that many bytes, and reading the
    encoding gives it back; conversely whatever is read with the minimality
    check is the encoding of its number, so encodings are unique; the length
    limit bounds the value (4 bytes: below 2^31 in magnitude); and a byte
    string is true as a boolean exactly when its number is not zero. *)
Theorem scriptnum_bijection L :
  (1 ≤ L ≤ 7)%nat →
  (∀ n, - 2 ^ (8 * Z.of_nat L - 1) < n < 2 ^ (8 * Z.of_nat L - 1) →
     ∃ v, Bytes n = Ok v ∧ MakeScriptNum v true L = Ok n) ∧
  (∀ v n, Forall is_byte v → MakeScriptNum v true L = Ok n → Bytes n = Ok v) ∧
  (∀ v rm n, Forall is_byte v → MakeScriptNum v rm L = Ok n →
     - 2 ^ (8 * Z.of_nat L - 1) < n < 2 ^ (8 * Z.of_nat L - 1) ∧
     asBool v = negb (n =? 0)).
Proof.
  intros HL.
  assert (2 ^ (8 * Z.of_nat L - 1) ≤ 2 ^ 63) as Hmax by (apply Z.pow_le_mono_r; lia).
  split_and!.
  - intros n Hn. destruct (Bytes_spec n ltac:(lia)) as (v & Hv & Hb & Hm & Hs).
    exists v. split; [done|]. subst n. apply MakeScriptNum_spec; [done|lia| |done].
    by apply minimal_length.
  - intros v n Hv Hok. destruct (MakeScriptNum_ok v true L n Hv ltac:(lia) Hok) as (Hl & -> & Hm).
    pose proof (snum_bounds v L Hv ltac:(lia) Hl) as Hb.
    destruct (Bytes_spec (snum v) ltac:(lia)) as (u & Hu & Hbu & Hmu & Hsu).
    rewrite Hu. f_equal. apply minimal_inj; auto.
  - intros v rm n Hv Hok. destruct (MakeScriptNum_ok v rm L n Hv ltac:(lia) Hok) as (Hl & -> & _).
    split; [by apply snum_bounds; [|lia|]|by apply asBool_snum].
Qed.
