(* ===== verification/WireBase.v ===== *)
(** * Wire protocol: readers, integers and variable-length fields

    btcd/wire/common.go.  A reader takes the bytes that are left and gives a
    value with the rest, an error, or a run-time panic.  Writers give the
    bytes they write to a buffer.  [Codec] states that a writer and a reader
    are inverse in both directions; it is the interface between the encodings
    of this file and those of the messages built from them. *)

From Stdlib Require Import ZArith Lia.
From stdpp Require Import base numbers list strings.
From S2P Require Import Prelude ScriptNum ScriptNumFacts.

Open Scope Z_scope.

(** ** Results *)

(** [MessageError] keeps the name of the function that made it. *)
Inductive WireError :=
| EOF | UnexpectedEOF
| MessageError (func : string)
| ErrSuperfluousWitness | ErrUnknownMessage | ErrInvalidAddressSize | ErrSkippedNetworkID.

Inductive WRes (A : Type) := WOk (a : A) | WErr (e : WireError) | WPanic.
Arguments WOk {A} _.
Arguments WErr {A} _.
Arguments WPanic {A}.

#[export] Instance WRes_ret : MRet WRes := @WOk.
#[export] Instance WRes_bind : MBind WRes := λ A B f m,
  match m with WOk a => f a | WErr e => WErr e | WPanic => WPanic end.

Definition Reader (A : Type) : Type := list byte → WRes (A * list byte).

#[export] Instance Reader_ret : MRet Reader := λ A a r, WOk (a, r).
#[export] Instance Reader_bind : MBind Reader := λ A B f m r,
  match m r with WOk (a, r') => f a r' | WErr e => WErr e | WPanic => WPanic end.

Definition rd_err {A} (e : WireError) : Reader A := λ _, WErr e.
Definition rd_panic {A} : Reader A := λ _, WPanic.
Definition guard_rd (b : bool) (e : WireError) : Reader () := if b then rd_err e else mret ().

(** ** Fixed-width fields *)

(** [io.ReadFull] on a buffer of [n] bytes. *)
Definition ReadFull (n : nat) : Reader (list byte) := λ r,
  if (n =? 0)%nat then WOk ([], r)
  else match r with
       | [] => WErr EOF
       | _ => if (length r <? n)%nat then WErr UnexpectedEOF else WOk (take n r, drop n r)
       end.

(** [w.Write] on a buffer. *)
Definition Write (b : list byte) : list byte := b.

(** binaryFreeList: Uint8, Uint16, Uint32 and Uint64, little endian. *)
Definition ReadUint (w : nat) : Reader Z := b ← ReadFull w; mret (le_val b).
Abbreviation Uint8 := (ReadUint 1).
Abbreviation Uint16 := (ReadUint 2).
Abbreviation Uint32 := (ReadUint 4).
Abbreviation Uint64 := (ReadUint 8).
Abbreviation PutUint8 := (le_put 1).
Abbreviation PutUint16 := (le_put 2).
Abbreviation PutUint32 := (le_put 4).
Abbreviation PutUint64 := (le_put 8).
(** [Uint16] and [PutUint16] with [bigEndian]. *)
Definition Uint16BE : Reader Z := b ← ReadFull 2; mret (le_val (rev b)).
Definition PutUint16BE (n : Z) : list byte := rev (le_put 2 n).

(** The cases int32, int64 and bool of [readElement] and [writeElement]. *)
Definition ReadInt (w : nat) : Reader Z := n ← ReadUint w; mret (wrap_s (8 * Z.of_nat w) n).
Definition PutInt (w : nat) (n : Z) : list byte := le_put w (wrap_u (8 * Z.of_nat w) n).
Definition ReadBool : Reader bool := n ← Uint8; mret (negb (n =? 0)).
Definition PutBool (b : bool) : list byte := [if b then 1 else 0].

(** ** Variable-length integers *)

Definition ReadVarInt : Reader Z :=
  discriminant ← Uint8;
  let field w min := n ← ReadUint w; guard_rd (n <? min) (MessageError "ReadVarInt");; mret n in
  if discriminant =? 0xff then field 8%nat 0x100000000
  else if discriminant =? 0xfe then field 4%nat 0x10000
  else if discriminant =? 0xfd then field 2%nat 0xfd
  else mret discriminant.

Definition WriteVarInt (val : Z) : list byte :=
  if val <? 0xfd then [val]
  else if val <=? 0xffff then 0xfd :: le_put 2 val
  else if val <=? 0xffffffff then 0xfe :: le_put 4 val
  else 0xff :: le_put 8 val.

Definition VarIntSerializeSize (val : Z) : Z :=
  if val <? 0xfd then 1 else if val <=? 0xffff then 3 else if val <=? 0xffffffff then 5 else 9.

(** ** Variable-length bytes, strings and sequences *)

Definition MaxMessagePayload : Z := 1024 * 1024 * 32.

Definition ReadVarBytes (maxAllowed : Z) : Reader (list byte) :=
  count ← ReadVarInt;
  guard_rd (maxAllowed <? count) (MessageError "ReadVarBytes");;
  ReadFull (Z.to_nat count).
Definition ReadVarString : Reader (list byte) :=
  count ← ReadVarInt;
  guard_rd (MaxMessagePayload <? count) (MessageError "ReadVarString");;
  ReadFull (Z.to_nat count).
Definition WriteVarBytes (b : list byte) : list byte := WriteVarInt (zlen b) ++ b.

(** The loops that read [n] values one after the other. *)
Fixpoint read_list {A} (n : nat) (rd : Reader A) : Reader (list A) :=
  match n with
  | O => mret []
  | S k => x ← rd; l ← read_list k rd; mret (x :: l)
  end.
Definition write_list {A} (wr : A → list byte) (l : list A) : list byte := concat (map wr l).

(** A count, checked against [max], and that many values. *)
Definition read_counted {A} (max : Z) (e : WireError) (rd : Reader A) : Reader (list A) :=
  count ← ReadVarInt;
  guard_rd (max <? count) e;;
  read_list (Z.to_nat count) rd.
Definition write_counted {A} (wr : A → list byte) (l : list A) : list byte :=
  WriteVarInt (zlen l) ++ write_list wr l.

(** ** Writers and readers that are inverse *)

Class Codec {A} (valid : A → Prop) (enc : A → list byte) (dec : Reader A) : Prop := {
  codec_decode x rest : valid x → dec (enc x ++ rest) = WOk (x, rest);
  codec_canonical r x rest :
    Forall is_byte r → dec r = WOk (x, rest) → valid x ∧ r = enc x ++ rest
}.

Lemma rd_bind_ok {A B} (m : Reader A) (f : A → Reader B) r y rest :
  (m ≫= f) r = WOk (y, rest) ↔ ∃ x r', m r = WOk (x, r') ∧ f x r' = WOk (y, rest).
Proof. unfold mbind, Reader_bind. destruct (m r) as [[x r']| |]; naive_solver. Qed.

Lemma guard_ok {B} b e (f : () → Reader B) r y rest :
  (guard_rd b e ≫= f) r = WOk (y, rest) ↔ b = false ∧ f () r = WOk (y, rest).
Proof. destruct b; simpl; unfold mbind, Reader_bind; simpl; naive_solver. Qed.

Lemma mret_ok {A} (x y : A) (r rest : list byte) :
  (mret x : Reader A) r = WOk (y, rest) ↔ x = y ∧ r = rest.
Proof. unfold mret, Reader_ret. naive_solver. Qed.

Section CodecBind.
Context {A B : Type} {valid : A → Prop} {enc : A → list byte} {dec : Reader A}.
Context `{!Codec valid enc dec}.

Lemma codec_step (f : A → Reader B) x rest :
  valid x → (dec ≫= f) (enc x ++ rest) = f x rest.
Proof. intros Hx. unfold mbind, Reader_bind. by rewrite codec_decode. Qed.

Lemma codec_inv (f : A → Reader B) r y rest :
  (dec ≫= f) r = WOk (y, rest) → Forall is_byte r →
  ∃ x r', valid x ∧ r = enc x ++ r' ∧ Forall is_byte r' ∧ f x r' = WOk (y, rest).
Proof.
  intros (x & r' & Hd & Hf)%rd_bind_ok Hr.
  destruct (codec_canonical r x r' Hr Hd) as [Hx ->]. apply Forall_app in Hr as [_ Hr]. eauto 6.
Qed.
End CodecBind.

Lemma guard_step {B} b e (f : () → Reader B) r : b = false → (guard_rd b e ≫= f) r = f () r.
Proof. by intros ->. Qed.

Lemma mret_step {A B} (x : A) (f : A → Reader B) r : ((mret x : Reader A) ≫= f) r = f x r.
Proof. done. Qed.

(** One field of a reader that runs on what the writers gave. *)
Ltac rd_step :=
  first
    [ rewrite guard_step by (repeat case_match; simplify_eq/=; lia)
    | erewrite codec_step by (eauto with wire || lia) ].
Ltac rd_run := repeat rd_step.

(** One field of a reader that succeeded. *)
Ltac rd_inv1 H :=
  let x := fresh "x" in let r := fresh "r" in let Hv := fresh "Hv" in let Hb := fresh "Hb" in
  first
    [ apply guard_ok in H as [Hv H]
    | apply mret_ok in H as [? ?]; subst
    | destruct (codec_inv _ _ _ _ H ltac:(assumption)) as (x & r & Hv & -> & Hb & ?H'); clear H;
      rename H' into H; cbv beta in H ].
Ltac rd_inv H := repeat rd_inv1 H.

Create HintDb wire.
#[export] Hint Extern 1 (Codec _ _ _) => typeclasses eauto : wire.

(** ** The basic fields *)

Definition bytes_of_len (n : nat) (b : list byte) : Prop := length b = n ∧ Forall is_byte b.
Definition unsigned (w : nat) (n : Z) : Prop := 0 ≤ n < 256 ^ Z.of_nat w.
Definition signed (w : nat) (n : Z) : Prop :=
  - 2 ^ (8 * Z.of_nat w - 1) ≤ n < 2 ^ (8 * Z.of_nat w - 1).

Lemma ReadFull_ok n r b rest :
  ReadFull n r = WOk (b, rest) ↔ length b = n ∧ r = b ++ rest.
Proof.
  unfold ReadFull. destruct (Nat.eqb_spec n 0) as [->|Hn].
  { split; [intros [= <- <-]; done|]. intros [->%nil_length_inv ->]. done. }
  destruct r as [|c r].
  { split; [done|]. intros [Hl Hr]. symmetry in Hr. apply app_eq_nil in Hr as [-> _]. simpl in Hl; lia. }
  destruct (Nat.ltb_spec (length (c :: r)) n) as [Hlt|Hge].
  - split; [done|]. intros [Hl Hr]. rewrite Hr, length_app in Hlt. lia.
  - split.
    + intros [= <- <-]. rewrite length_take_le by lia. by rewrite take_drop.
    + intros [Hl Hr]. rewrite Hr, <- Hl, take_app_length, drop_app_length. done.
Qed.

#[export] Instance codec_bytes n : Codec (bytes_of_len n) Write (ReadFull n).
Proof.
  split.
  - intros x rest [Hl _]. by apply ReadFull_ok.
  - intros r x rest Hr [Hl ->]%ReadFull_ok. apply Forall_app in Hr as [Hx _]. by repeat split.
Qed.

#[export] Instance codec_uint w : Codec (unsigned w) (le_put w) (ReadUint w).
Proof.
  split.
  - intros n rest Hn. unfold ReadUint. change (le_put w n) with (Write (le_put w n)) at 1.
    rewrite codec_step.
    + unfold mret, Reader_ret. by rewrite le_val_put.
    + split; [apply le_put_length|apply le_put_bytes].
  - intros r n rest Hr Hd. unfold ReadUint in Hd. rd_inv Hd. destruct Hv as [Hl Hx].
    split; [|by rewrite <- Hl, le_put_val]. unfold unsigned. rewrite <- Hl. by apply le_val_range.
Qed.


Lemma signed_wrap w n : (0 < w)%nat → signed w n →
  unsigned w (wrap_u (8 * Z.of_nat w) n) ∧ wrap_s (8 * Z.of_nat w) (wrap_u (8 * Z.of_nat w) n) = n.
Proof.
  intros Hw Hn. unfold signed, unsigned, wrap_u, wrap_s in *.
  rewrite <- pow_256 by lia. set (k := 8 * Z.of_nat w) in *.
  assert (0 < 2 ^ k) by (apply Z.pow_pos_nonneg; lia).
  split; [apply Z.mod_pos_bound; lia|]. rewrite Zplus_mod_idemp_l.
  assert (2 ^ k = 2 * 2 ^ (k - 1)) by (rewrite <- Z.pow_succ_r by lia; f_equal; lia).
  rewrite Z.mod_small; lia.
Qed.

Lemma wrap_signed w n : (0 < w)%nat → unsigned w n →
  signed w (wrap_s (8 * Z.of_nat w) n) ∧ wrap_u (8 * Z.of_nat w) (wrap_s (8 * Z.of_nat w) n) = n.
Proof.
  intros Hw Hn. unfold unsigned in Hn. rewrite <- pow_256 in Hn by lia. split.
  - apply wrap_s_range. lia.
  - unfold wrap_u, wrap_s. set (k := 8 * Z.of_nat w) in *.
    rewrite Zminus_mod_idemp_l. replace (n + 2 ^ (k - 1) - 2 ^ (k - 1)) with n by lia.
    by apply Z.mod_small.
Qed.

#[export] Instance codec_int w : Codec (signed (S w)) (PutInt (S w)) (ReadInt (S w)).
Proof.
  split.
  - intros n rest Hn. destruct (signed_wrap (S w) n) as [Hu He]; [lia|done|].
    unfold ReadInt, PutInt. rewrite codec_step by done. unfold mret, Reader_ret. by rewrite He.
  - intros r n rest Hr Hd. unfold ReadInt in Hd. rd_inv Hd.
    destruct (wrap_signed (S w) x) as [Hs He]; [lia|done|]. unfold PutInt. by rewrite He.
Qed.

(** ** Variable-length fields *)

Lemma PutUint8_byte d : is_byte d → PutUint8 d = [d].
Proof. intros Hd. simpl. by rewrite Z.mod_small. Qed.

(** A discriminant and a field of [w] bytes. *)
Lemma codec_tagged {B} d w n (f : Z → Reader B) rest :
  is_byte d → (Uint8 ≫= f) ((d :: le_put w n) ++ rest) = f d (le_put w n ++ rest).
Proof.
  intros Hd. change (d :: le_put w n) with ([d] ++ le_put w n).
  rewrite <- (PutUint8_byte d Hd), <- app_assoc. by rewrite codec_step.
Qed.

#[export] Instance codec_varint : Codec (unsigned 8) WriteVarInt ReadVarInt.
Proof.
  split.
  - intros n rest Hn. unfold ReadVarInt, WriteVarInt, unsigned in *.
    destruct (Z.ltb_spec n 0xfd).
    { change [n] with (n :: le_put 0 0). rewrite codec_tagged by (unfold is_byte; lia).
      repeat (case_match; [lia|]). done. }
    destruct (Z.leb_spec n 0xffff); [|destruct (Z.leb_spec n 0xffffffff)];
      rewrite codec_tagged by (unfold is_byte; lia); cbv beta zeta; repeat (case_match; try lia);
      rewrite codec_step by (unfold unsigned; simpl; lia); rewrite guard_step by lia; done.
  - intros r n rest Hr Hd. unfold ReadVarInt in Hd. rd_inv1 Hd. unfold unsigned in Hv. simpl in Hv.
    assert (PutUint8 x = [x]) as -> by (by apply PutUint8_byte).
    unfold WriteVarInt, unsigned.
    destruct (Z.eqb_spec x 0xff) as [->|]; [|destruct (Z.eqb_spec x 0xfe) as [->|];
      [|destruct (Z.eqb_spec x 0xfd) as [->|]]]; rd_inv Hd; unfold unsigned in *; simpl in *;
      repeat (case_match; try lia); split; try lia; done.
Qed.

Lemma WriteVarInt_size n : zlen (WriteVarInt n) = VarIntSerializeSize n.
Proof. unfold WriteVarInt, VarIntSerializeSize. by repeat case_match. Qed.

(** Bytes with a length in front, at most [max]. *)
Definition short_bytes (max : Z) (b : list byte) : Prop :=
  zlen b ≤ max ∧ Forall is_byte b ∧ zlen b < 2 ^ 64.

Lemma codec_var_bytes max e :
  Codec (short_bytes max) WriteVarBytes
    (count ← ReadVarInt; guard_rd (max <? count) e;; ReadFull (Z.to_nat count)).
Proof.
  split.
  - intros b rest (Hl & Hb & Hm). unfold WriteVarBytes. rewrite <- app_assoc.
    rewrite codec_step by (unfold unsigned; simpl; lia). rewrite guard_step by lia.
    apply (codec_decode (enc := Write) b). split; [by rewrite Nat2Z.id|done].
  - intros r b rest Hr Hd. rd_inv Hd. unfold unsigned in Hv. simpl in Hv.
    apply (codec_canonical (dec := ReadFull _)) in Hd as [[Hl Hx] ->]; [|done].
    unfold WriteVarBytes, Write, short_bytes. replace (zlen b) with x by lia.
    rewrite <- app_assoc. split_and!; [lia|done|lia|done].
Qed.
#[export] Instance codec_varbytes max : Codec (short_bytes max) WriteVarBytes (ReadVarBytes max).
Proof. apply codec_var_bytes. Qed.
#[export] Instance codec_varstring :
  Codec (short_bytes MaxMessagePayload) WriteVarBytes ReadVarString.
Proof. apply codec_var_bytes. Qed.

Lemma WriteVarBytes_size b : zlen (WriteVarBytes b) = VarIntSerializeSize (zlen b) + zlen b.
Proof. unfold WriteVarBytes. rewrite length_app, Nat2Z.inj_add, WriteVarInt_size. done. Qed.

(** Sequences. *)
Definition list_of_len {A} (valid : A → Prop) (n : nat) (l : list A) : Prop :=
  length l = n ∧ Forall valid l.
Definition counted {A} (valid : A → Prop) (max : Z) (l : list A) : Prop :=
  zlen l ≤ max ∧ Forall valid l ∧ zlen l < 2 ^ 64.

#[export] Instance codec_list {A} (valid : A → Prop) enc dec n :
  Codec valid enc dec → Codec (list_of_len valid n) (write_list enc) (read_list n dec).
Proof.
  intros HC. induction n as [|n IH]; split.
  - intros l rest [->%nil_length_inv _]. done.
  - intros r l rest Hr Hd. simpl in Hd. rd_inv Hd. repeat split; auto.
  - intros [|x l] rest [Hl Hv]; [done|]. apply Forall_cons in Hv as [Hx Hv].
    injection Hl as Hl. unfold write_list. simpl. rewrite <- app_assoc.
    rewrite codec_step by done. change (concat (map enc l)) with (write_list enc l).
    by rewrite codec_step by done.
  - intros r l rest Hr Hd. simpl in Hd. rd_inv Hd. destruct Hv0 as [Hl Hx].
    unfold write_list. simpl. rewrite <- app_assoc. repeat split; [simpl; lia|by constructor].
Qed.

#[export] Instance codec_counted {A} (valid : A → Prop) enc dec max e :
  Codec valid enc dec → Codec (counted valid max) (write_counted enc) (read_counted max e dec).
Proof.
  intros HC. split.
  - intros l rest (Hl & Hv & Hm). unfold read_counted, write_counted. rewrite <- app_assoc.
    rewrite codec_step by (unfold unsigned; simpl; lia). rewrite guard_step by lia.
    apply codec_decode. split; [by rewrite Nat2Z.id|done].
  - intros r l rest Hr Hd. unfold read_counted in Hd. rd_inv Hd. unfold unsigned in Hv. simpl in Hv.
    apply (codec_canonical (dec := read_list _ dec)) in Hd as [[Hl Hx] ->]; [|done].
    unfold write_counted, counted. replace (zlen l) with x by lia.
    rewrite <- app_assoc. split_and!; [lia|done|lia|done].
Qed.

(** Encodings are compared field by field, never byte by byte. *)
#[global] Arguments le_put : simpl never.
#[global] Arguments ReadUint : simpl never.
#[global] Arguments ReadInt : simpl never.
#[global] Arguments PutInt : simpl never.
#[global] Arguments ReadFull : simpl never.
#[global] Arguments WriteVarInt : simpl never.
#[global] Arguments write_list : simpl never.
#[global] Arguments write_counted : simpl never.
#[global] Arguments WriteVarBytes : simpl never.
