(* ===== verification/WireTx.v ===== *)
(** * Wire protocol: transactions

    btcd/wire/msgtx.go.  Scripts are read into one buffer of 2^22 bytes, of
    which every script uses up a part; [avail] is what is left of it.  Taking
    more than is left is a slice out of range, which panics. *)

From Stdlib Require Import ZArith Lia.
From stdpp Require Import base numbers list strings.
From S2P Require Import Prelude ScriptNum ScriptNumFacts WireBase.

Open Scope Z_scope.

(** ** Data *)

Abbreviation Hash := (list byte).                 (* chainhash.Hash: 32 bytes *)
Definition HashSize : nat := 32.

Record OutPoint := mkOutPoint { op_Hash : Hash; op_Index : Z (* uint32 *) }.
Record TxIn := mkTxIn {
  PreviousOutPoint : OutPoint;
  SignatureScript : list byte;
  Witness : list (list byte);
  Sequence : Z                                    (* uint32 *)
}.
Record TxOut := mkTxOut { Value : Z (* int64 *); PkScript : list byte }.
Record MsgTx := mkMsgTx {
  Version : Z;                                    (* int32 *)
  TxIns : list TxIn;
  TxOuts : list TxOut;
  LockTime : Z                                    (* uint32 *)
}.

#[export] Instance OutPoint_eq_dec : EqDecision OutPoint.
Proof. solve_decision. Defined.
#[export] Instance TxIn_eq_dec : EqDecision TxIn.
Proof. solve_decision. Defined.
#[export] Instance TxOut_eq_dec : EqDecision TxOut.
Proof. solve_decision. Defined.
#[export] Instance MsgTx_eq_dec : EqDecision MsgTx.
Proof. solve_decision. Defined.

Inductive MessageEncoding := BaseEncoding | WitnessEncoding.
Definition is_WitnessEncoding (enc : MessageEncoding) : bool :=
  match enc with WitnessEncoding => true | BaseEncoding => false end.

Definition MaxTxInSequenceNum : Z := 0xffffffff.
Definition MaxPrevOutIndex : Z := 0xffffffff.
Definition minTxInPayload : Z := 9 + 32.
Definition maxTxInPerMessage : Z := MaxMessagePayload / minTxInPayload + 1.
Definition MinTxOutPayload : Z := 9.
Definition maxTxOutPerMessage : Z := MaxMessagePayload / MinTxOutPayload + 1.
Definition maxWitnessItemsPerInput : Z := 4000000.
Definition maxWitnessItemSize : Z := 4000000.
Definition scriptSlabSize : Z := 4194304.         (* 1 << 22 *)

(** ** Writing *)

Definition HasWitness (msg : MsgTx) : bool :=
  existsb (λ ti, negb (length (Witness ti) =? 0)%nat) (TxIns msg).

Definition writeOutPoint (op : OutPoint) : list byte :=
  Write (op_Hash op) ++ PutUint32 (op_Index op).
Definition writeTxIn (ti : TxIn) : list byte :=
  writeOutPoint (PreviousOutPoint ti) ++ WriteVarBytes (SignatureScript ti) ++
  PutUint32 (Sequence ti).
Definition WriteTxOut (to : TxOut) : list byte :=
  PutInt 8 (Value to) ++ WriteVarBytes (PkScript to).
Definition writeTxWitness (wit : list (list byte)) : list byte :=
  write_counted WriteVarBytes wit.

Definition btcEncode (enc : MessageEncoding) (msg : MsgTx) : list byte :=
  let doWitness := is_WitnessEncoding enc && HasWitness msg in
  PutInt 4 (Version msg) ++
  (if doWitness then Write [0; 1] else []) ++
  write_counted writeTxIn (TxIns msg) ++
  write_counted WriteTxOut (TxOuts msg) ++
  (if doWitness then write_list (λ ti, writeTxWitness (Witness ti)) (TxIns msg) else []) ++
  PutUint32 (LockTime msg).
Definition Serialize (msg : MsgTx) : list byte := btcEncode WitnessEncoding msg.
Definition SerializeNoWitness (msg : MsgTx) : list byte := btcEncode BaseEncoding msg.

(** ** Reading *)

Definition readOutPoint : Reader OutPoint :=
  hash ← ReadFull HashSize; index ← Uint32; mret (mkOutPoint hash index).

Definition readScript (avail : Z) : Reader (list byte) :=
  count ← ReadVarInt;
  guard_rd (maxWitnessItemSize <? count) (MessageError "readScript");;
  if avail <? count then rd_panic else ReadFull (Z.to_nat count).

Definition readTxIn (avail : Z) : Reader TxIn :=
  op ← readOutPoint;
  script ← readScript avail;
  sequence ← Uint32;
  mret (mkTxIn op script [] sequence).

Definition readTxOut (avail : Z) : Reader TxOut :=
  value ← ReadInt 8;
  script ← readScript avail;
  mret (mkTxOut value script).
Definition ReadTxOut : Reader TxOut := readTxOut scriptSlabSize.

(** [n] values one after the other, each with what the ones before left of
    the buffer. *)
Fixpoint read_slab {A} (rd : Z → Reader A) (used : A → Z) (n : nat) (avail : Z)
  : Reader (list A * Z) :=
  match n with
  | O => mret ([], avail)
  | S k =>
      x ← rd avail;
      p ← read_slab rd used k (avail - used x);
      mret (x :: fst p, snd p)
  end.

Fixpoint total {A} (used : A → Z) (l : list A) : Z :=
  match l with [] => 0 | x :: l' => used x + total used l' end.

Definition read_witness (avail : Z) : Reader (list (list byte)) :=
  witCount ← ReadVarInt;
  guard_rd (maxWitnessItemsPerInput <? witCount) (MessageError "MsgTx.BtcDecode");;
  p ← read_slab readScript (λ b, zlen b) (Z.to_nat witCount) avail;
  mret (fst p).

Definition set_Witness (ti : TxIn) (w : list (list byte)) : TxIn :=
  mkTxIn (PreviousOutPoint ti) (SignatureScript ti) w (Sequence ti).

(** [btcDecode] after the version, the mark and the number of inputs. *)
Definition decode_body (version : Z) (flag : bool) (count : Z) : Reader MsgTx :=
  let fail := MessageError "MsgTx.BtcDecode" in
  guard_rd (maxTxInPerMessage <? count) fail;;
  ins ← read_slab readTxIn (λ ti, zlen (SignatureScript ti)) (Z.to_nat count) scriptSlabSize;
  count ← ReadVarInt;
  guard_rd (maxTxOutPerMessage <? count) fail;;
  outs ← read_slab readTxOut (λ to, zlen (PkScript to)) (Z.to_nat count) (snd ins);
  txIns ← (if flag then
             wits ← read_slab read_witness (total (λ b, zlen b)) (length (fst ins)) (snd outs);
             mret (zip_with set_Witness (fst ins) (fst wits))
           else mret (fst ins));
  guard_rd (flag && forallb (λ ti, (length (Witness ti) =? 0)%nat) txIns) ErrSuperfluousWitness;;
  lockTime ← Uint32;
  mret (mkMsgTx version txIns (fst outs) lockTime).

Definition btcDecode (enc : MessageEncoding) : Reader MsgTx :=
  version ← ReadInt 4;
  count ← ReadVarInt;
  if (count =? 0) && is_WitnessEncoding enc then
    flag ← Uint8;
    guard_rd (negb (flag =? 1)) (MessageError "MsgTx.BtcDecode");;
    count ← ReadVarInt;
    decode_body version true count
  else decode_body version false count.
Definition Deserialize : Reader MsgTx := btcDecode WitnessEncoding.
Definition DeserializeNoWitness : Reader MsgTx := btcDecode BaseEncoding.

(** ** Sizes *)

Definition TxIn_SerializeSize (t : TxIn) : Z :=
  40 + VarIntSerializeSize (zlen (SignatureScript t)) + zlen (SignatureScript t).
Definition TxOut_SerializeSize (t : TxOut) : Z :=
  8 + VarIntSerializeSize (zlen (PkScript t)) + zlen (PkScript t).
Definition witness_SerializeSize (w : list (list byte)) : Z :=
  VarIntSerializeSize (zlen w) + total (λ item, VarIntSerializeSize (zlen item) + zlen item) w.
Definition baseSize (msg : MsgTx) : Z :=
  8 + VarIntSerializeSize (zlen (TxIns msg)) + VarIntSerializeSize (zlen (TxOuts msg)) +
  total TxIn_SerializeSize (TxIns msg) + total TxOut_SerializeSize (TxOuts msg).
Definition SerializeSize (msg : MsgTx) : Z :=
  baseSize msg +
  (if HasWitness msg then 2 + total (λ ti, witness_SerializeSize (Witness ti)) (TxIns msg) else 0).
Definition SerializeSizeStripped (msg : MsgTx) : Z := baseSize msg.

(** ** Building *)

Definition NewTxIn (prevOut : OutPoint) (signatureScript : list byte) (witness : list (list byte))
  : TxIn := mkTxIn prevOut signatureScript witness MaxTxInSequenceNum.
Definition NewMsgTx (version : Z) : MsgTx := mkMsgTx version [] [] 0.
Definition AddTxIn (ti : TxIn) (msg : MsgTx) : MsgTx :=
  mkMsgTx (Version msg) (TxIns msg ++ [ti]) (TxOuts msg) (LockTime msg).
Definition AddTxOut (to : TxOut) (msg : MsgTx) : MsgTx :=
  mkMsgTx (Version msg) (TxIns msg) (TxOuts msg ++ [to]) (LockTime msg).
