(* ===== verification/WireTxFacts.v ===== *)
(** * Wire protocol: transactions are encoded uniquely

    Decoding inverts encoding in both directions for both encodings, the
    declared sizes are the lengths of the encodings, and the script buffer
    bounds what can be decoded. *)

From Stdlib Require Import ZArith Lia.
From stdpp Require Import base numbers list strings.
From S2P Require Import Prelude ScriptNum ScriptNumFacts WireBase WireTx.

Open Scope Z_scope.

(** ** Well-formed transactions *)

Definition outpoint_ok (op : OutPoint) : Prop :=
  bytes_of_len HashSize (op_Hash op) ∧ unsigned 4 (op_Index op).
Definition script_ok : list byte → Prop := short_bytes maxWitnessItemSize.
Definition txin_ok (ti : TxIn) : Prop :=
  outpoint_ok (PreviousOutPoint ti) ∧ script_ok (SignatureScript ti) ∧ unsigned 4 (Sequence ti).
Definition txout_ok (to : TxOut) : Prop := signed 8 (Value to) ∧ script_ok (PkScript to).
Definition witness_ok (w : list (list byte)) : Prop :=
  zlen w ≤ maxWitnessItemsPerInput ∧ Forall script_ok w.

Definition in_size (ti : TxIn) : Z := zlen (SignatureScript ti).
Definition out_size (to : TxOut) : Z := zlen (PkScript to).
Definition wit_size (w : list (list byte)) : Z := total (λ b, zlen b) w.
(** The part of the script buffer a transaction takes. *)
Definition slab_used (tx : MsgTx) : Z :=
  total in_size (TxIns tx) + total out_size (TxOuts tx) +
  total (λ ti, wit_size (Witness ti)) (TxIns tx).

(** A transaction without witnesses has an input in the witness encoding: a
    count of zero is the mark of that encoding. *)
Definition tx_ok (enc : MessageEncoding) (tx : MsgTx) : Prop :=
  signed 4 (Version tx) ∧ Forall txin_ok (TxIns tx) ∧ Forall txout_ok (TxOuts tx) ∧
  unsigned 4 (LockTime tx) ∧
  zlen (TxIns tx) ≤ maxTxInPerMessage ∧ zlen (TxOuts tx) ≤ maxTxOutPerMessage ∧
  Forall (λ ti, witness_ok (Witness ti)) (TxIns tx) ∧
  slab_used tx ≤ scriptSlabSize ∧
  match enc with
  | BaseEncoding => Forall (λ ti, Witness ti = []) (TxIns tx)
  | WitnessEncoding => TxIns tx ≠ []
  end.

(** ** Fields *)

#[export] Instance codec_outpoint : Codec outpoint_ok writeOutPoint readOutPoint.
Proof.
  split.
  - intros op rest [Hh Hi]. unfold readOutPoint, writeOutPoint.
    rewrite <- app_assoc, codec_step by done. rewrite codec_step by done. by destruct op.
  - intros r op rest Hr Hd. unfold readOutPoint in Hd. rd_inv Hd.
    unfold writeOutPoint, outpoint_ok. by rewrite <- app_assoc.
Qed.

Definition fits {A} (valid : A → Prop) (used : A → Z) (avail : Z) (x : A) : Prop :=
  valid x ∧ used x ≤ avail.

#[export] Instance codec_script avail :
  Codec (fits script_ok (λ b, zlen b) avail) WriteVarBytes (readScript avail).
Proof.
  split.
  - intros b rest [(Hl & Hb & Hm) Ha]. unfold readScript, WriteVarBytes.
    rewrite <- app_assoc, codec_step by (unfold unsigned; simpl; lia).
    rewrite guard_step by lia. destruct (Z.ltb_spec avail (zlen b)); [lia|].
    apply (codec_decode (enc := Write) b). split; [by rewrite Nat2Z.id|done].
  - intros r b rest Hr Hd. unfold readScript in Hd. rd_inv Hd. case_match; [done|].
    unfold unsigned in Hv. simpl in Hv.
    apply (codec_canonical (dec := ReadFull _)) in Hd as [[Hl Hx] ->]; [|done].
    unfold WriteVarBytes, Write, fits, script_ok, short_bytes.
    replace (zlen b) with x by lia. rewrite <- app_assoc. split_and!; try done; lia.
Qed.

Definition bare_txin (ti : TxIn) : Prop := txin_ok ti ∧ Witness ti = [].

#[export] Instance codec_txin avail : Codec (fits bare_txin in_size avail) writeTxIn (readTxIn avail).
Proof.
  split.
  - intros ti rest [[(Hop & Hs & Hq) Hw] Ha]. unfold readTxIn, writeTxIn.
    rewrite <- !app_assoc, codec_step by done. rewrite codec_step by done.
    rewrite codec_step by done. rewrite <- Hw. by destruct ti.
  - intros r ti rest Hr Hd. unfold readTxIn in Hd. rd_inv Hd.
    destruct Hv0. unfold writeTxIn, fits, bare_txin, txin_ok, in_size.
    by rewrite <- !app_assoc.
Qed.

#[export] Instance codec_txout avail : Codec (fits txout_ok out_size avail) WriteTxOut (readTxOut avail).
Proof.
  split.
  - intros to rest [[Hv Hs] Ha]. unfold readTxOut, WriteTxOut.
    rewrite <- !app_assoc, codec_step by done. rewrite codec_step by done. by destruct to.
  - intros r to rest Hr Hd. unfold readTxOut in Hd. rd_inv Hd.
    destruct Hv0. unfold WriteTxOut, fits, txout_ok, out_size. by rewrite <- !app_assoc.
Qed.

(** ** Sequences that share the buffer *)

Lemma total_nonneg {A} (used : A → Z) l : (∀ x, 0 ≤ used x) → 0 ≤ total used l.
Proof. intros Hu. induction l as [|x l IH]; simpl; [lia|]. specialize (Hu x). lia. Qed.

Definition slab_ok {A} (valid : A → Prop) (used : A → Z) (n : nat) (avail : Z) (p : list A * Z)
  : Prop := list_of_len valid n (fst p) ∧ total used (fst p) ≤ avail ∧
            snd p = avail - total used (fst p).

Lemma codec_slab {A} (valid : A → Prop) (used : A → Z) enc rd :
  (∀ x, 0 ≤ used x) → (∀ avail, 0 ≤ avail → Codec (fits valid used avail) enc (rd avail)) →
  ∀ n avail, 0 ≤ avail →
    Codec (slab_ok valid used n avail) (λ p, write_list enc (fst p)) (read_slab rd used n avail).
Proof.
  intros Hu HC n. induction n as [|n IH]; intros avail Ha; specialize (HC avail Ha) as HCa; split.
  - intros [l a] rest [[Hl _] [_ Hs]]. simpl in *. apply nil_length_inv in Hl as ->.
    simpl in *. by replace avail with a by lia.
  - intros r p rest Hr Hd. simpl in Hd. rd_inv Hd. repeat split; simpl; auto; lia.
  - intros [[|x l] a] rest [[Hl Hv] [Ht Hs]]; [done|]. simpl in *.
    apply Forall_cons in Hv as [Hx Hv]. injection Hl as Hl.
    pose proof (Hu x). pose proof (total_nonneg used l Hu).
    unfold write_list. simpl. rewrite <- app_assoc, codec_step by (split; [done|lia]).
    assert (0 ≤ avail - used x) as Ha' by lia. specialize (IH _ Ha').
    pose proof (codec_step (dec := read_slab rd used n (avail - used x))
      (λ p, mret (x :: fst p, snd p)) (l, a) rest) as Hstep.
    simpl in Hstep. unfold write_list in Hstep. rewrite Hstep; [done|].
    split_and!; simpl; [done|lia|lia].
  - intros r p rest Hr Hd. simpl in Hd. rd_inv1 Hd. destruct Hv as [Hx Hxa].
    assert (0 ≤ avail - used x) as Ha' by lia. specialize (IH _ Ha').
    rd_inv Hd. destruct Hv as ([Hl Hv] & Ht & Hs).
    unfold write_list, slab_ok, list_of_len. simpl. rewrite <- app_assoc.
    split_and!; [lia|by constructor|lia|lia|done].
Qed.

Lemma slab_step {A B} (valid : A → Prop) used enc rd n avail (f : list A * Z → Reader B) l rest :
  Codec (slab_ok valid used n avail) (λ p, write_list enc (fst p)) (read_slab rd used n avail) →
  list_of_len valid n l → total used l ≤ avail →
  (read_slab rd used n avail ≫= f) (write_list enc l ++ rest) = f (l, avail - total used l) rest.
Proof.
  intros HC Hl Ht.
  refine (codec_step (Codec0 := HC) f (l, avail - total used l) rest _). by split_and!.
Qed.

Lemma zlen_nonneg {A} (l : list A) : 0 ≤ zlen l.
Proof. lia. Qed.
Lemma wit_size_nonneg w : 0 ≤ wit_size w.
Proof. apply total_nonneg. intros b. apply zlen_nonneg. Qed.

Lemma codec_scripts n avail : 0 ≤ avail →
  Codec (slab_ok script_ok (λ b, zlen b) n avail) (λ p, write_list WriteVarBytes (fst p))
    (read_slab readScript (λ b, zlen b) n avail).
Proof. apply codec_slab; [intros b; apply zlen_nonneg|intros; apply _]. Qed.

Lemma codec_witness avail : 0 ≤ avail →
  Codec (fits witness_ok wit_size avail) writeTxWitness (read_witness avail).
Proof.
  intros Ha. split.
  - intros w rest [[Hl Hw] Hu]. unfold read_witness, writeTxWitness, write_counted.
    unfold maxWitnessItemsPerInput in Hl.
    rewrite <- app_assoc, codec_step by (unfold unsigned; simpl; lia).
    rewrite guard_step by (unfold maxWitnessItemsPerInput; lia). rewrite Nat2Z.id.
    rewrite (slab_step _ _ _ _ _ _ _ _ _ (codec_scripts (length w) avail Ha)); done.
  - intros r w rest Hr Hd. unfold read_witness in Hd. rd_inv1 Hd. rd_inv1 Hd.
    pose proof (codec_scripts (Z.to_nat x) avail Ha). rd_inv Hd.
    unfold unsigned in Hv. simpl in Hv. destruct Hv1 as ([Hl Hs] & Ht & _).
    unfold writeTxWitness, write_counted. replace (zlen (fst x0)) with x by lia.
    rewrite <- app_assoc. split; [|done]. split; [|done]. split; [lia|done].
Qed.

Lemma codec_witnesses n avail : 0 ≤ avail →
  Codec (slab_ok witness_ok wit_size n avail) (λ p, write_list writeTxWitness (fst p))
    (read_slab read_witness wit_size n avail).
Proof. apply codec_slab; [apply wit_size_nonneg|apply codec_witness]. Qed.
Lemma codec_txins n avail : 0 ≤ avail →
  Codec (slab_ok bare_txin in_size n avail) (λ p, write_list writeTxIn (fst p))
    (read_slab readTxIn in_size n avail).
Proof. apply codec_slab; [intros ti; apply zlen_nonneg|intros; apply _]. Qed.
Lemma codec_txouts n avail : 0 ≤ avail →
  Codec (slab_ok txout_ok out_size n avail) (λ p, write_list WriteTxOut (fst p))
    (read_slab readTxOut out_size n avail).
Proof. apply codec_slab; [intros to; apply zlen_nonneg|intros; apply _]. Qed.

(** ** Whole transactions *)

Definition strip (ti : TxIn) : TxIn := set_Witness ti [].

Lemma writeTxIn_strip l : write_list writeTxIn (map strip l) = write_list writeTxIn l.
Proof. unfold write_list. by rewrite map_map. Qed.
Lemma total_strip l : total in_size (map strip l) = total in_size l.
Proof. induction l as [|ti l IH]; simpl; [done|]. rewrite IH. done. Qed.
Lemma strip_bare l : Forall txin_ok l → list_of_len bare_txin (length l) (map strip l).
Proof.
  intros Hl. split; [by rewrite length_map|]. apply Forall_map.
  eapply Forall_impl; [exact Hl|]. done.
Qed.
Lemma strip_witness l : zip_with set_Witness (map strip l) (map Witness l) = l.
Proof. induction l as [|[] l IH]; simpl; [done|]. by rewrite IH. Qed.
Lemma strip_none l : Forall (λ ti, Witness ti = []) l → map strip l = l.
Proof. induction 1 as [|[op s w q] l Hw _ IH]; simpl in *; [done|]. by rewrite IH, Hw. Qed.
Lemma total_map {A B} (f : A → B) (used : B → Z) l : total used (map f l) = total (λ x, used (f x)) l.
Proof. induction l as [|x l IH]; simpl; [done|]. by rewrite IH. Qed.

Lemma HasWitness_false tx :
  HasWitness tx = false ↔ Forall (λ ti, Witness ti = []) (TxIns tx).
Proof.
  unfold HasWitness. induction (TxIns tx) as [|ti l IH]; simpl; [done|].
  rewrite orb_false_iff, IH, negb_false_iff, Nat.eqb_eq, Forall_cons.
  split; intros [Hw ?]; (split; [|done]); [by apply nil_length_inv|by rewrite Hw].
Qed.
Lemma HasWitness_forallb v l outs lt :
  forallb (λ ti, (length (Witness ti) =? 0)%nat) l = negb (HasWitness (mkMsgTx v l outs lt)).
Proof.
  unfold HasWitness. simpl. induction l as [|ti l IH]; simpl; [done|].
  rewrite IH. by destruct (length (Witness ti) =? 0)%nat.
Qed.

(** What the body of the encoding holds, for a transaction with or without
    witnesses. *)
Definition body_ok (flag : bool) (tx : MsgTx) : Prop :=
  Forall txin_ok (TxIns tx) ∧ Forall txout_ok (TxOuts tx) ∧ unsigned 4 (LockTime tx) ∧
  zlen (TxIns tx) ≤ maxTxInPerMessage ∧ zlen (TxOuts tx) ≤ maxTxOutPerMessage ∧
  Forall (λ ti, witness_ok (Witness ti)) (TxIns tx) ∧ slab_used tx ≤ scriptSlabSize ∧
  HasWitness tx = flag.
Definition encode_body (flag : bool) (tx : MsgTx) : list byte :=
  write_list writeTxIn (TxIns tx) ++ write_counted WriteTxOut (TxOuts tx) ++
  (if flag then write_list (λ ti, writeTxWitness (Witness ti)) (TxIns tx) else []) ++
  PutUint32 (LockTime tx).

Lemma max_counts n m : n ≤ maxTxInPerMessage → m ≤ maxTxOutPerMessage → n < 2 ^ 64 ∧ m < 2 ^ 64.
Proof.
  assert (maxTxInPerMessage < 2 ^ 64 ∧ maxTxOutPerMessage < 2 ^ 64) by done. lia.
Qed.

Lemma used_nonneg tx :
  0 ≤ total in_size (TxIns tx) ∧ 0 ≤ total out_size (TxOuts tx) ∧
  0 ≤ total (λ ti, wit_size (Witness ti)) (TxIns tx).
Proof. split_and!; apply total_nonneg; intros; apply zlen_nonneg || apply wit_size_nonneg. Qed.

Lemma decode_body_encode flag tx rest :
  body_ok flag tx →
  decode_body (Version tx) flag (zlen (TxIns tx)) (encode_body flag tx ++ rest) = WOk (tx, rest).
Proof.
  intros (Hin & Hout & Hlt & Hni & Hno & Hw & Hslab & Hf). unfold slab_used in Hslab.
  pose proof (used_nonneg tx) as (Hu1 & Hu2 & Hu3). pose proof (max_counts _ _ Hni Hno) as [H64i H64o].
  unfold decode_body, encode_body, write_counted. rewrite <- !app_assoc, guard_step by lia.
  change (λ ti, zlen (SignatureScript ti)) with in_size.
  change (λ to, zlen (PkScript to)) with out_size.
  rewrite <- writeTxIn_strip, Nat2Z.id.
  rewrite (slab_step _ _ _ _ _ _ _ _ _ (codec_txins _ scriptSlabSize ltac:(done)) (strip_bare _ Hin))
    by (rewrite total_strip; lia).
  rewrite codec_step by (unfold unsigned; simpl; lia). rewrite guard_step by lia.
  rewrite Nat2Z.id, total_strip. simpl fst. simpl snd.
  assert (0 ≤ scriptSlabSize - total in_size (TxIns tx)) as Ha1 by lia.
  rewrite (slab_step _ _ _ _ _ _ _ _ _ (codec_txouts _ _ Ha1) (conj eq_refl Hout)) by lia.
  simpl fst. simpl snd. rewrite length_map.
  transitivity ((lockTime ← Uint32; mret (mkMsgTx (Version tx) (TxIns tx) (TxOuts tx) lockTime))
                  (PutUint32 (LockTime tx) ++ rest)).
  2: { rewrite codec_step by done. by destruct tx. }
  destruct flag.
  - assert (0 ≤ scriptSlabSize - total in_size (TxIns tx) - total out_size (TxOuts tx)) as Ha2 by lia.
    change (total (λ b : list byte, zlen b)) with wit_size.
    replace (write_list (λ ti, writeTxWitness (Witness ti)) (TxIns tx))
      with (write_list writeTxWitness (map Witness (TxIns tx)))
      by (unfold write_list; by rewrite map_map).
    unfold mbind at 1, Reader_bind at 1.
    rewrite (slab_step _ _ _ _ _ _ _ _ _ (codec_witnesses _ _ Ha2)).
    + simpl fst. unfold mret at 1, Reader_ret at 1. rewrite strip_witness, guard_step; [done|].
      rewrite (HasWitness_forallb (Version tx) _ (TxOuts tx) (LockTime tx)).
      destruct tx; simpl in *. by rewrite Hf.
    + split; [by rewrite length_map|by apply Forall_map].
    + rewrite total_map. lia.
  - apply HasWitness_false in Hf. rewrite strip_none by done. done.
Qed.

Lemma zip_Witness l (ws : list (list (list byte))) :
  length ws = length l →
  map Witness (zip_with set_Witness l ws) = ws ∧
  write_list writeTxIn (zip_with set_Witness l ws) = write_list writeTxIn l ∧
  total in_size (zip_with set_Witness l ws) = total in_size l ∧
  (Forall txin_ok l → Forall txin_ok (zip_with set_Witness l ws)) ∧
  length (zip_with set_Witness l ws) = length l.
Proof.
  revert ws. induction l as [|ti l IH]; intros [|w ws] Hl; try done. injection Hl as Hl.
  destruct (IH ws Hl) as (Hw & He & Ht & Ho & Hn). unfold write_list in *. simpl.
  rewrite Hw, He, Ht, Hn. split_and!; try done.
  intros [Hti Hf]%Forall_cons. constructor; [done|by apply Ho].
Qed.

Lemma bare_ok l : Forall bare_txin l → Forall txin_ok l ∧ Forall (λ ti, Witness ti = []) l.
Proof. intros Hl. split; (eapply Forall_impl; [exact Hl|]); by intros ti [? ?]. Qed.

Lemma no_witness_ok l : Forall (λ ti, Witness ti = []) l →
  Forall (λ ti, witness_ok (Witness ti)) l ∧ total (λ ti, wit_size (Witness ti)) l = 0.
Proof.
  induction 1 as [|ti l Hw _ [IH1 IH2]]; simpl; [done|]. rewrite IH2, Hw. split; [|done].
  constructor; [|done]. rewrite Hw. by split.
Qed.

Lemma decode_body_canonical version flag count r tx rest :
  Forall is_byte r → 0 ≤ count → decode_body version flag count r = WOk (tx, rest) →
  body_ok flag tx ∧ Version tx = version ∧ zlen (TxIns tx) = count ∧
  r = encode_body flag tx ++ rest.
Proof.
  intros Hr Hc Hd. unfold decode_body in Hd. rd_inv1 Hd.
  pose proof (codec_txins (Z.to_nat count) scriptSlabSize ltac:(done)) as HC1. unfold in_size in HC1.
  rd_inv1 Hd. destruct x as [ins a1]. destruct Hv0 as ([Hl1 Hf1] & Ht1 & Hs1). simpl in *. subst a1.
  rd_inv1 Hd. rd_inv1 Hd. unfold unsigned in Hv0. simpl in Hv0.
  pose proof (codec_txouts (Z.to_nat x) (scriptSlabSize - total in_size ins)
    ltac:(unfold in_size in *; lia)) as HC2. unfold out_size in HC2.
  rd_inv1 Hd. destruct x0 as [outs a2]. destruct Hv2 as ([Hl2 Hf2] & Ht2 & Hs2). simpl in *. subst a2.
  destruct (bare_ok _ Hf1) as [Hok Hnone].
  assert (0 ≤ total out_size outs) by (apply total_nonneg; intros; apply zlen_nonneg).
  destruct flag.
  - apply rd_bind_ok in Hd as (txIns & r3 & Hw & Hd).
    pose proof (codec_witnesses (length ins)
      (scriptSlabSize - total in_size ins - total out_size outs)
      ltac:(unfold in_size, out_size in *; lia)) as HC3. unfold wit_size in HC3.
    rd_inv Hw. destruct x0 as [ws a3]. destruct Hv2 as ([Hl3 Hf3] & Ht3 & Hs3). simpl in *. subst a3.
    destruct (zip_Witness ins ws Hl3) as (Hmw & Hme & Hmt & Hmo & Hmn).
    rd_inv Hd. rewrite (HasWitness_forallb version _ outs x0), negb_false_iff in Hv2.
    unfold body_ok, encode_body, slab_used, write_counted. simpl.
    rewrite Hme, Hmt, Hmn, <- (Forall_map Witness), Hmw, <- !app_assoc.
    replace (write_list (λ ti, writeTxWitness (Witness ti)) (zip_with set_Witness ins ws))
      with (write_list writeTxWitness ws)
      by (rewrite <- Hmw at 1; unfold write_list; by rewrite map_map).
    rewrite <- (total_map Witness wit_size), Hmw. replace (zlen outs) with x by lia.
    unfold in_size, out_size in *. unfold wit_size.
    split_and!; try done; try lia. by apply Hmo.
  - rd_inv Hd. destruct (no_witness_ok _ Hnone) as [Hwok Hwt].
    unfold body_ok, encode_body, slab_used, write_counted. simpl. rewrite <- !app_assoc, Hwt.
    replace (zlen outs) with x by lia. unfold in_size, out_size in *.
    split_and!; try done; try lia. by apply HasWitness_false.
Qed.

#[export] Instance codec_tx enc : Codec (tx_ok enc) (btcEncode enc) (btcDecode enc).
Proof.
  split.
  - intros tx rest (Hv & Hin & Hout & Hlt & Hni & Hno & Hw & Hslab & Henc).
    pose proof (max_counts _ _ Hni Hno) as [H64 _].
    unfold btcDecode, btcEncode. rewrite <- !app_assoc, codec_step by done.
    set (flag := is_WitnessEncoding enc && HasWitness tx).
    assert (body_ok flag tx) as Hbody.
    { unfold body_ok. split_and!; try done. unfold flag. destruct enc; [|done].
      by apply HasWitness_false. }
    pose proof (decode_body_encode flag tx rest Hbody) as Hdec.
    unfold encode_body in Hdec. rewrite <- !app_assoc in Hdec. unfold write_counted at 1.
    destruct flag eqn:Hflag.
    + change (Write [0; 1]) with (WriteVarInt 0 ++ PutUint8 1).
      rewrite <- !app_assoc, codec_step by done. unfold flag in Hflag.
      destruct (is_WitnessEncoding enc); [|done]. change ((0 =? 0) && true) with true. cbv iota.
      rewrite codec_step by done. rewrite guard_step by done.
      rewrite codec_step by (unfold unsigned; simpl; lia). exact Hdec.
    + simpl app at 1. rewrite <- app_assoc, codec_step by (unfold unsigned; simpl; lia).
      destruct enc; [by rewrite andb_false_r|]. destruct (TxIns tx) as [|ti l]; [done|].
      replace (zlen (ti :: l) =? 0) with false by (symmetry; apply Z.eqb_neq; simpl; lia). exact Hdec.
  - intros r tx rest Hr Hd. unfold btcDecode in Hd. rd_inv1 Hd. rd_inv1 Hd.
    unfold unsigned in Hv0. destruct ((x0 =? 0) && is_WitnessEncoding enc) eqn:E.
    + apply andb_true_iff in E as [->%Z.eqb_eq Eenc]. rd_inv1 Hd. rd_inv1 Hd. rd_inv1 Hd.
      apply negb_false_iff, Z.eqb_eq in Hv2 as ->. unfold unsigned in Hv3.
      apply decode_body_canonical in Hd as (Hbody & Hver & Hcnt & ->); [|done|lia].
      destruct Hbody as (Hin & Hout & Hlt & Hni & Hno & Hw & Hslab & Hf).
      destruct enc; [done|]. unfold btcEncode, encode_body, write_counted at 2.
      rewrite Hf, Hver, Hcnt. simpl andb. cbv iota. rewrite <- !app_assoc. split; [|done].
      unfold tx_ok. rewrite Hver. split_and!; try done.
      intros Hnil. unfold HasWitness in Hf. by rewrite Hnil in Hf.
    + apply decode_body_canonical in Hd as (Hbody & Hver & Hcnt & ->); [|done|lia].
      destruct Hbody as (Hin & Hout & Hlt & Hni & Hno & Hw & Hslab & Hf).
      unfold btcEncode, encode_body, write_counted at 2. rewrite Hf, Hver, Hcnt, andb_false_r.
      rewrite <- !app_assoc. split; [|done]. unfold tx_ok. rewrite Hver. split_and!; try done.
      destruct enc; [by apply HasWitness_false|]. intros Hnil. rewrite Hnil in Hcnt. by subst x0.
Qed.

(** ** Sizes *)

Lemma zlen_app {A} (l k : list A) : zlen (l ++ k) = zlen l + zlen k.
Proof. rewrite length_app. lia. Qed.
Lemma write_list_size {A} (wr : A → list byte) (size : A → Z) l :
  Forall (λ x, zlen (wr x) = size x) l → zlen (write_list wr l) = total size l.
Proof.
  induction 1 as [|x l Hx _ IH]; [done|].
  change (write_list wr (x :: l)) with (wr x ++ write_list wr l). by rewrite zlen_app, IH, Hx.
Qed.
Lemma write_counted_size {A} (wr : A → list byte) (size : A → Z) l :
  Forall (λ x, zlen (wr x) = size x) l →
  zlen (write_counted wr l) = VarIntSerializeSize (zlen l) + total size l.
Proof.
  intros Hs. unfold write_counted. by rewrite zlen_app, WriteVarInt_size, (write_list_size wr size).
Qed.
Lemma zlen_le_put w n : zlen (le_put w n) = Z.of_nat w.
Proof. by rewrite le_put_length. Qed.

Lemma writeTxIn_size ti :
  length (op_Hash (PreviousOutPoint ti)) = HashSize → zlen (writeTxIn ti) = TxIn_SerializeSize ti.
Proof.
  intros Hh. unfold writeTxIn, writeOutPoint, Write, TxIn_SerializeSize.
  rewrite !zlen_app, !zlen_le_put, WriteVarBytes_size, Hh. unfold HashSize. lia.
Qed.
Lemma WriteTxOut_size to : zlen (WriteTxOut to) = TxOut_SerializeSize to.
Proof.
  unfold WriteTxOut, TxOut_SerializeSize, PutInt. rewrite zlen_app, zlen_le_put, WriteVarBytes_size. lia.
Qed.
Lemma writeTxWitness_size w : zlen (writeTxWitness w) = witness_SerializeSize w.
Proof.
  apply write_counted_size, Forall_true. intros b. apply WriteVarBytes_size.
Qed.

(** Hashes have 32 bytes. *)
Definition hashes_ok (tx : MsgTx) : Prop :=
  Forall (λ ti, length (op_Hash (PreviousOutPoint ti)) = HashSize) (TxIns tx).

Lemma tx_sizes tx :
  hashes_ok tx →
  zlen (Serialize tx) = SerializeSize tx ∧ zlen (SerializeNoWitness tx) = SerializeSizeStripped tx.
Proof.
  intros Hh.
  assert (zlen (write_counted writeTxIn (TxIns tx)) =
          VarIntSerializeSize (zlen (TxIns tx)) + total TxIn_SerializeSize (TxIns tx)) as Hi.
  { apply write_counted_size. eapply Forall_impl; [exact Hh|]. apply writeTxIn_size. }
  assert (zlen (write_counted WriteTxOut (TxOuts tx)) =
          VarIntSerializeSize (zlen (TxOuts tx)) + total TxOut_SerializeSize (TxOuts tx)) as Ho.
  { apply write_counted_size, Forall_true, WriteTxOut_size. }
  unfold Serialize, SerializeNoWitness, SerializeSizeStripped, SerializeSize, baseSize, btcEncode, PutInt.
  simpl andb. cbv iota. split; rewrite !zlen_app, !zlen_le_put, Hi, Ho; simpl; [|lia].
  destruct (HasWitness tx); simpl; [|lia].
  rewrite (write_list_size _ (λ ti, witness_SerializeSize (Witness ti)))
    by (apply Forall_true; intros ti; apply writeTxWitness_size).
  lia.
Qed.

(** ** The main facts *)

(** Transactions on the wire: in both encodings, decoding an encoded
    transaction gives it back with the bytes that follow; bytes that decode
    are exactly the encoding of the result, so a transaction has one
    encoding; and the declared sizes are the lengths of the encodings. *)
Theorem tx_wire_roundtrip :
  (∀ enc tx rest, tx_ok enc tx → btcDecode enc (btcEncode enc tx ++ rest) = WOk (tx, rest)) ∧
  (∀ enc r tx rest, Forall is_byte r → btcDecode enc r = WOk (tx, rest) →
     tx_ok enc tx ∧ r = btcEncode enc tx ++ rest) ∧
  (∀ enc tx, tx_ok enc tx →
     zlen (Serialize tx) = SerializeSize tx ∧
     zlen (SerializeNoWitness tx) = SerializeSizeStripped tx).
Proof.
  split_and!.
  - intros enc tx rest. apply codec_decode.
  - intros enc r tx rest. apply codec_canonical.
  - intros enc tx Htx. apply tx_sizes. destruct Htx as (_ & Hin & _).
    eapply Forall_impl; [exact Hin|]. by intros ti [[[Hl _] _] _].
Qed.

Lemma panic_bind {A B} (m : Reader A) (f : A → Reader B) r : m r = WPanic → (m ≫= f) r = WPanic.
Proof. intros Hm. unfold mbind, Reader_bind. by rewrite Hm. Qed.

Lemma readTxIn_panics avail op count rest :
  outpoint_ok op → avail < count → 0 ≤ count ≤ maxWitnessItemSize →
  readTxIn avail (writeOutPoint op ++ WriteVarInt count ++ rest) = WPanic.
Proof.
  intros Hop Ha Hc. unfold readTxIn. rewrite codec_step by done. apply panic_bind.
  unfold readScript. unfold maxWitnessItemSize in *.
  rewrite codec_step by (unfold unsigned; simpl; lia). rewrite guard_step by lia.
  destruct (Z.ltb_spec avail count); [done|lia].
Qed.

(** C27. A script may claim 4,000,000 bytes, more than the buffer holds after
    194,305 bytes of an earlier script: the slice is then out of range and
    the decoder panics, whatever follows. *)
Theorem tx_decode_panics enc version ti op rest :
  signed 4 version → bare_txin ti → scriptSlabSize - maxWitnessItemSize < in_size ti →
  outpoint_ok op →
  btcDecode enc (PutInt 4 version ++ WriteVarInt 2 ++ writeTxIn ti ++ writeOutPoint op ++
                 WriteVarInt maxWitnessItemSize ++ rest) = WPanic.
Proof.
  intros Hv Hti Hbig Hop.
  assert (in_size ti ≤ maxWitnessItemSize) as Hmax by (by destruct Hti as [(_ & (? & _) & _) _]).
  unfold in_size in *. unfold btcDecode. rewrite codec_step by done. rewrite codec_step by done.
  change ((2 =? 0) && _) with false. cbv iota. unfold decode_body. rewrite guard_step by done.
  apply panic_bind. change (Z.to_nat 2) with 2%nat. cbn [read_slab].
  rewrite codec_step by (split; [done|unfold in_size, maxWitnessItemSize, scriptSlabSize in *; lia]).
  do 2 apply panic_bind. apply readTxIn_panics; [done|lia|done].
Qed.
