(* ===== verification/ScriptStack.v ===== *)
(** * Bitcoin script: the stack

    btcd/txscript/stack.go.  The list holds the items from the top down, so
    the code's [stk[sz-idx-1]] is the item at index [idx].  The operations
    run in a state monad whose failures carry the error code. *)

From Stdlib Require Import ZArith Lia.
From stdpp Require Import base numbers list.
From S2P Require Import Prelude ScriptNum.

Open Scope Z_scope.

(** ** State with errors and panics *)

Definition SR (S A : Type) : Type := S → Res (A * S).

#[export] Instance SR_ret {S} : MRet (SR S) := λ A a s, Ok (a, s).
#[export] Instance SR_bind {S} : MBind (SR S) := λ A B f m s,
  match m s with Ok (a, s') => f a s' | Err e => Err e | Crash => Crash end.

Definition sr_err {S A} (e : ErrorCode) : SR S A := λ _, Err e.
Definition sr_crash {S A} : SR S A := λ _, Crash.
Definition sr_get {S} : SR S S := λ s, Ok (s, s).
Definition sr_put {S} (s : S) : SR S () := λ _, Ok ((), s).
Definition sr_lift {S A} (r : Res A) : SR S A :=
  λ s, match r with Ok a => Ok (a, s) | Err e => Err e | Crash => Crash end.
Definition sr_check {S} (e : option ErrorCode) : SR S () := sr_lift (check e).

(** [n] times. *)
Fixpoint sr_repeat {S} (n : nat) (m : SR S ()) : SR S () :=
  match n with O => mret () | Datatypes.S k => m;; sr_repeat k m end.

Lemma sr_bind_ok {S A B} (m : SR S A) (f : A → SR S B) s b s' :
  (m ≫= f) s = Ok (b, s') ↔ ∃ a s1, m s = Ok (a, s1) ∧ f a s1 = Ok (b, s').
Proof. unfold mbind, SR_bind. destruct (m s) as [[a s1]|e|]; naive_solver. Qed.
Lemma sr_run {S A B} (m : SR S A) (f : A → SR S B) s a s' :
  m s = Ok (a, s') → (m ≫= f) s = f a s'.
Proof. intros Hm. unfold mbind, SR_bind. by rewrite Hm. Qed.

(** ** The stack *)

Record stack := mkStack { stk : list (list byte); verifyMinimalData : bool }.

Definition with_stk (f : list (list byte) → list (list byte)) (s : stack) : stack :=
  mkStack (f (stk s)) (verifyMinimalData s).

Definition Depth (s : stack) : Z := Z.of_nat (length (stk s)).

Definition PushByteArray (so : list byte) : SR stack () := λ s, Ok ((), with_stk (cons so) s).
Definition PushInt (val : Z) : SR stack () := b ← sr_lift (Bytes val); PushByteArray b.
Definition PushBool (val : bool) : SR stack () := PushByteArray (fromBool val).

Definition PeekByteArray (idx : Z) : SR stack (list byte) := λ s,
  if (idx <? 0) || (Depth s <=? idx) then Err ErrInvalidStackOperation
  else match stk s !! Z.to_nat idx with Some so => Ok (so, s) | None => Crash end.

Definition nipN (idx : Z) : SR stack (list byte) := λ s,
  if (idx <? 0) || (Depth s - 1 <? idx) then Err ErrInvalidStackOperation
  else match stk s !! Z.to_nat idx with
       | Some so => Ok (so, with_stk (delete (Z.to_nat idx)) s)
       | None => Crash
       end.

Definition make_num (so : list byte) (len : nat) : SR stack Z := λ s,
  match MakeScriptNum so (verifyMinimalData s) len with
  | Ok n => Ok (n, s) | Err e => Err e | Crash => Crash
  end.

Definition PopByteArray : SR stack (list byte) := nipN 0.
Definition PopInt : SR stack Z := so ← PopByteArray; make_num so maxScriptNumLen.
Definition PopBool : SR stack bool := so ← PopByteArray; mret (asBool so).
Definition PeekInt (idx : Z) : SR stack Z := so ← PeekByteArray idx; make_num so maxScriptNumLen.
Definition PeekBool (idx : Z) : SR stack bool := so ← PeekByteArray idx; mret (asBool so).

Definition NipN (idx : Z) : SR stack () := nipN idx;; mret ().

Definition Tuck : SR stack () :=
  so2 ← PopByteArray;
  so1 ← PopByteArray;
  PushByteArray so2;; PushByteArray so1;; PushByteArray so2.

Definition DropN (n : Z) : SR stack () :=
  if n <? 1 then sr_err ErrInvalidStackOperation
  else sr_repeat (Z.to_nat n) (PopByteArray;; mret ()).

Definition DupN (n : Z) : SR stack () :=
  if n <? 1 then sr_err ErrInvalidStackOperation
  else sr_repeat (Z.to_nat n) (so ← PeekByteArray (n - 1); PushByteArray so).

Definition RotN (n : Z) : SR stack () :=
  if n <? 1 then sr_err ErrInvalidStackOperation
  else sr_repeat (Z.to_nat n) (so ← nipN (3 * n - 1); PushByteArray so).

Definition SwapN (n : Z) : SR stack () :=
  if n <? 1 then sr_err ErrInvalidStackOperation
  else sr_repeat (Z.to_nat n) (so ← nipN (2 * n - 1); PushByteArray so).

Definition OverN (n : Z) : SR stack () :=
  if n <? 1 then sr_err ErrInvalidStackOperation
  else sr_repeat (Z.to_nat n) (so ← PeekByteArray (2 * n - 1); PushByteArray so).

Definition PickN (n : Z) : SR stack () := so ← PeekByteArray n; PushByteArray so.
Definition RollN (n : Z) : SR stack () := so ← nipN n; PushByteArray so.

(** [getStack] and [setStack] of engine.go: the items from the bottom up. *)
Definition getStack (s : stack) : list (list byte) := rev (stk s).
Definition setStack (data : list (list byte)) (s : stack) : stack := with_stk (λ _, rev data) s.

(** ** The documented transformations *)

Section StackFacts.
Implicit Types (m : bool) (l : list (list byte)).

Lemma Peek_at x p rest m :
  PeekByteArray (Z.of_nat (length p)) (mkStack (p ++ x :: rest) m) =
  Ok (x, mkStack (p ++ x :: rest) m).
Proof.
  unfold PeekByteArray, Depth. simpl. rewrite length_app. simpl.
  rewrite (proj2 (Z.ltb_ge _ _)), (proj2 (Z.leb_gt _ _)) by lia. simpl.
  by rewrite Nat2Z.id, list_lookup_middle.
Qed.

Lemma nip_at x p rest m :
  nipN (Z.of_nat (length p)) (mkStack (p ++ x :: rest) m) = Ok (x, mkStack (p ++ rest) m).
Proof.
  unfold nipN, Depth. simpl. rewrite length_app. simpl.
  rewrite (proj2 (Z.ltb_ge _ _)), (proj2 (Z.ltb_ge _ _)) by lia. simpl.
  rewrite Nat2Z.id, list_lookup_middle by done. unfold with_stk. simpl.
  by rewrite delete_middle.
Qed.

Lemma Peek_short idx l m :
  Z.of_nat (length l) ≤ idx → PeekByteArray idx (mkStack l m) = Err ErrInvalidStackOperation.
Proof.
  intros Hidx. unfold PeekByteArray, Depth. simpl. rewrite (proj2 (Z.leb_le _ _)) by done.
  by rewrite orb_true_r.
Qed.
Lemma nip_short idx l m :
  Z.of_nat (length l) ≤ idx → nipN idx (mkStack l m) = Err ErrInvalidStackOperation.
Proof.
  intros Hidx. unfold nipN, Depth. simpl.
  rewrite (proj2 (Z.ltb_lt (_ - 1) _)) by lia. by rewrite orb_true_r.
Qed.

Lemma Pop_cons x l m : PopByteArray (mkStack (x :: l) m) = Ok (x, mkStack l m).
Proof. apply (nip_at x [] l m). Qed.
Lemma Pop_nil m : PopByteArray (mkStack [] m) = Err ErrInvalidStackOperation.
Proof. done. Qed.

Lemma sr_repeat_step {S} (op : SR S ()) k s s' :
  op s = Ok ((), s') → sr_repeat (Datatypes.S k) op s = sr_repeat k op s'.
Proof. intros Hop. simpl. unfold mbind, SR_bind. by rewrite Hop. Qed.
Lemma roll_one x p rest m idx :
  idx = Z.of_nat (length p) →
  (so ← nipN idx; PushByteArray so) (mkStack (p ++ x :: rest) m) = Ok ((), mkStack (x :: p ++ rest) m).
Proof. intros ->. unfold mbind, SR_bind. by rewrite nip_at. Qed.
Lemma copy_one x p rest m idx :
  idx = Z.of_nat (length p) →
  (so ← PeekByteArray idx; PushByteArray so) (mkStack (p ++ x :: rest) m) =
  Ok ((), mkStack (x :: p ++ x :: rest) m).
Proof. intros ->. unfold mbind, SR_bind. by rewrite Peek_at. Qed.

(** Moving the same depth to the top again and again moves a block. *)
Lemma roll_block c s rest m idx :
  idx + 1 = Z.of_nat (length s + length c) →
  sr_repeat (length c) (so ← nipN idx; PushByteArray so) (mkStack (s ++ c ++ rest) m) =
  Ok ((), mkStack (c ++ s ++ rest) m).
Proof.
  revert s. induction c as [|x c IH] using rev_ind; intros s Hidx; [done|].
  rewrite length_app in *. simpl in Hidx. rewrite Nat.add_1_r.
  replace (s ++ (c ++ [x]) ++ rest) with ((s ++ c) ++ x :: rest) by (by rewrite <- !app_assoc).
  erewrite sr_repeat_step by (apply roll_one; rewrite length_app; lia).
  rewrite <- app_assoc, app_comm_cons. rewrite (IH (x :: s)) by (simpl; lia).
  by rewrite <- !app_assoc.
Qed.

Lemma copy_block c s rest m idx :
  idx + 1 = Z.of_nat (length s + length c) →
  sr_repeat (length c) (so ← PeekByteArray idx; PushByteArray so) (mkStack (s ++ c ++ rest) m) =
  Ok ((), mkStack (c ++ s ++ c ++ rest) m).
Proof.
  revert s rest. induction c as [|x c IH] using rev_ind; intros s rest Hidx; [done|].
  rewrite length_app in *. simpl in Hidx. rewrite Nat.add_1_r.
  replace (s ++ (c ++ [x]) ++ rest) with ((s ++ c) ++ x :: rest) by (by rewrite <- !app_assoc).
  erewrite sr_repeat_step by (apply copy_one; rewrite length_app; lia).
  rewrite <- app_assoc, app_comm_cons. rewrite (IH (x :: s)) by (simpl; lia).
  by rewrite <- !app_assoc.
Qed.

Lemma drop_block c rest m :
  sr_repeat (length c) (PopByteArray;; mret ()) (mkStack (c ++ rest) m) = Ok ((), mkStack rest m).
Proof.
  induction c as [|x c IH]; [done|]. simpl. unfold mbind, SR_bind in *.
  rewrite Pop_cons. exact IH.
Qed.

Lemma repeat_fails n (op : SR stack ()) s e :
  (0 < n)%nat → op s = Err e → sr_repeat n op s = Err e.
Proof. destruct n; [lia|]. intros _ He. simpl. unfold mbind, SR_bind. by rewrite He. Qed.

(** Popping more than there is fails. *)
Lemma drop_short n l m :
  (length l < n)%nat →
  sr_repeat n (PopByteArray;; mret ()) (mkStack l m) = Err ErrInvalidStackOperation.
Proof.
  revert l. induction n as [|n IH]; intros l Hl; [lia|]. simpl. unfold mbind, SR_bind in *.
  destruct l as [|x l]; [done|]. rewrite Pop_cons. apply IH. simpl in Hl. lia.
Qed.

(** The stack operations do what their comments draw, for every count
    [n]: with [a], [b], [c] the top three blocks of [n] items (the top item
    of the stack first), dropping, duplicating, copying over, swapping and
    rotating give the documented stacks, and each fails, with the error for
    an invalid stack operation, when there are too few items. *)
Theorem stack_transformations n a b c rest m :
  (0 < n)%nat → length a = n → length b = n → length c = n →
  let N := Z.of_nat n in
  DropN N (mkStack (a ++ rest) m) = Ok ((), mkStack rest m) ∧
  DupN N (mkStack (a ++ rest) m) = Ok ((), mkStack (a ++ a ++ rest) m) ∧
  OverN N (mkStack (a ++ b ++ rest) m) = Ok ((), mkStack (b ++ a ++ b ++ rest) m) ∧
  SwapN N (mkStack (a ++ b ++ rest) m) = Ok ((), mkStack (b ++ a ++ rest) m) ∧
  RotN N (mkStack (a ++ b ++ c ++ rest) m) = Ok ((), mkStack (c ++ a ++ b ++ rest) m) ∧
  (∀ l, (length l < n)%nat →
     DropN N (mkStack l m) = Err ErrInvalidStackOperation ∧
     DupN N (mkStack l m) = Err ErrInvalidStackOperation) ∧
  (∀ l, (length l < 2 * n)%nat →
     OverN N (mkStack l m) = Err ErrInvalidStackOperation ∧
     SwapN N (mkStack l m) = Err ErrInvalidStackOperation) ∧
  (∀ l, (length l < 3 * n)%nat → RotN N (mkStack l m) = Err ErrInvalidStackOperation).
Proof.
  intros Hn Ha Hb Hc N. unfold DropN, DupN, OverN, SwapN, RotN.
  rewrite (proj2 (Z.ltb_ge N 1)) by lia. unfold N. rewrite Nat2Z.id. split_and!.
  - rewrite <- Ha at 1. apply drop_block.
  - rewrite <- Ha at 1. apply (copy_block a []). simpl. lia.
  - rewrite <- Hb at 1. apply copy_block. lia.
  - rewrite <- Hb at 1. apply roll_block. lia.
  - rewrite <- Hc at 1. rewrite !(app_assoc a). rewrite roll_block; [done|].
    rewrite length_app. lia.
  - intros l Hl. split; [by apply drop_short|]. apply repeat_fails; [done|].
    unfold mbind, SR_bind. by rewrite Peek_short by lia.
  - intros l Hl. split; (apply repeat_fails; [done|]); unfold mbind, SR_bind;
      [by rewrite Peek_short by lia|by rewrite nip_short by lia].
  - intros l Hl. apply repeat_fails; [done|]. unfold mbind, SR_bind. by rewrite nip_short by lia.
Qed.
End StackFacts.
