(* ===== verification/ScriptToken.v ===== *)
(** * Bitcoin script: opcodes, the tokenizer, script analysis, the builder

    btcd/txscript/opcode.go (values and lengths), tokenizer.go, script.go,
    the templates of standard.go, and scriptbuilder.go.  Scripts are shorter
    than 2^31 bytes, so offsets do not wrap. *)

From Stdlib Require Import ZArith Lia.
From stdpp Require Import base numbers list.
From S2P Require Import Prelude ScriptNum.

Open Scope Z_scope.

(** ** Opcodes *)

Definition OP_0 : byte := 0x00.
Definition OP_DATA_1 : byte := 0x01.
Definition OP_DATA_20 : byte := 0x14.
Definition OP_DATA_32 : byte := 0x20.
Definition OP_DATA_33 : byte := 0x21.
Definition OP_DATA_65 : byte := 0x41.
Definition OP_DATA_75 : byte := 0x4b.
Definition OP_PUSHDATA1 : byte := 0x4c.
Definition OP_PUSHDATA2 : byte := 0x4d.
Definition OP_PUSHDATA4 : byte := 0x4e.
Definition OP_1NEGATE : byte := 0x4f.
Definition OP_RESERVED : byte := 0x50.
Definition OP_1 : byte := 0x51.
Definition OP_16 : byte := 0x60.
Definition OP_NOP : byte := 0x61.
Definition OP_IF : byte := 0x63.
Definition OP_NOTIF : byte := 0x64.
Definition OP_VERIF : byte := 0x65.
Definition OP_VERNOTIF : byte := 0x66.
Definition OP_ELSE : byte := 0x67.
Definition OP_ENDIF : byte := 0x68.
Definition OP_RETURN : byte := 0x6a.
Definition OP_DUP : byte := 0x76.
Definition OP_EQUAL : byte := 0x87.
Definition OP_EQUALVERIFY : byte := 0x88.
Definition OP_HASH160 : byte := 0xa9.
Definition OP_CODESEPARATOR : byte := 0xab.
Definition OP_CHECKSIG : byte := 0xac.
Definition OP_CHECKSIGVERIFY : byte := 0xad.
Definition OP_CHECKMULTISIG : byte := 0xae.
Definition OP_CHECKMULTISIGVERIFY : byte := 0xaf.
Definition OP_INVALIDOPCODE : byte := 0xff.

(** The [length] column of [opcodeArray]. *)
Definition opcode_length (op : byte) : Z :=
  if (OP_DATA_1 <=? op) && (op <=? OP_DATA_75) then op + 1
  else if op =? OP_PUSHDATA1 then -1
  else if op =? OP_PUSHDATA2 then -2
  else if op =? OP_PUSHDATA4 then -4
  else 1.

Definition MaxOpsPerScript : Z := 201.
Definition MaxPubKeysPerMultiSig : Z := 20.
Definition MaxScriptElementSize : Z := 520.
Definition MaxScriptSize : Z := 10000.


(** ** The tokenizer *)

Record ScriptTokenizer := mkTokenizer {
  t_script : list byte;
  t_offset : nat;
  t_opcodePos : Z;
  t_op : byte;
  t_data : list byte;
  t_err : option ErrorCode
}.

Definition MakeScriptTokenizer (version : Z) (script : list byte) : ScriptTokenizer :=
  mkTokenizer script 0 (-1) 0 []
    (if version =? 0 then None else Some ErrUnsupportedScriptVersion).

Definition Done_tok (t : ScriptTokenizer) : bool :=
  match t_err t with Some _ => true | None => (length (t_script t) <=? t_offset t)%nat end.

Definition tok_fail (t : ScriptTokenizer) : ScriptTokenizer :=
  mkTokenizer (t_script t) (t_offset t) (t_opcodePos t + 1) (t_op t) (t_data t)
    (Some ErrMalformedPush).
Definition tok_advance (t : ScriptTokenizer) (n : nat) (op : byte) (data : list byte)
  : ScriptTokenizer :=
  mkTokenizer (t_script t) (t_offset t + n) (t_opcodePos t + 1) op data None.

Definition Next (t : ScriptTokenizer) : bool * ScriptTokenizer :=
  if Done_tok t then (false, t) else
  match drop (t_offset t) (t_script t) with
  | [] => (false, t)
  | op :: rest =>
      let len := opcode_length op in
      if len =? 1 then (true, tok_advance t 1 op [])
      else if 1 <? len then
        if zlen (op :: rest) <? len then (false, tok_fail t)
        else (true, tok_advance t (Z.to_nat len) op (take (Z.to_nat len - 1) rest))
      else
        let w := Z.to_nat (- len) in
        if zlen rest <? - len then (false, tok_fail t) else
        let dataLen := int32 (le_val (take w rest)) in
        let script := drop w rest in
        if (zlen script <? dataLen) || (dataLen <? 0) then (false, tok_fail t)
        else (true, tok_advance t (1 + w + Z.to_nat dataLen) op (take (Z.to_nat dataLen) script))
  end.

(** [for tokenizer.Next() { ... }]: the states the body sees, and the final
    state.  Every step consumes a byte, so the fuel is the length of the
    script and one more. *)
Fixpoint for_next (fuel : nat) (t : ScriptTokenizer) : list ScriptTokenizer * ScriptTokenizer :=
  match fuel with
  | O => ([], t)
  | S k =>
      match Next t with
      | (true, t') => let '(ts, e) := for_next k t' in (t' :: ts, e)
      | (false, t') => ([], t')
      end
  end.
Definition tokens (version : Z) (script : list byte) : list ScriptTokenizer * ScriptTokenizer :=
  for_next (S (length script)) (MakeScriptTokenizer version script).

(** ** script.go *)

Definition checkScriptParses (version : Z) (script : list byte) : option ErrorCode :=
  t_err (snd (tokens version script)).

Definition IsSmallInt (op : byte) : bool := (op =? OP_0) || ((OP_1 <=? op) && (op <=? OP_16)).
Definition AsSmallInt (op : byte) : Z := if op =? OP_0 then 0 else op - (OP_1 - 1).

Definition IsPushOnlyScript (script : list byte) : bool :=
  let '(ts, e) := tokens 0 script in
  forallb (λ t, t_op t <=? OP_16) ts && match t_err e with None => true | Some _ => false end.

Definition isCanonicalPush (opcode : byte) (data : list byte) : bool :=
  let dataLen := zlen data in
  if OP_16 <? opcode then true
  else if (opcode <? OP_PUSHDATA1) && (OP_0 <? opcode) &&
          ((dataLen =? 1) && (hd 0 data <=? 16)) then false
  else if (opcode =? OP_PUSHDATA1) && (dataLen <? OP_PUSHDATA1) then false
  else if (opcode =? OP_PUSHDATA2) && (dataLen <=? 0xff) then false
  else if (opcode =? OP_PUSHDATA4) && (dataLen <=? 0xffff) then false
  else true.

(** [checkMinimalDataPush] of engine.go *)
Definition checkMinimalDataPush (op : byte) (data : list byte) : option ErrorCode :=
  let dataLen := zlen data in
  let fail_if (b : bool) := if b then Some ErrMinimalData else None in
  if (dataLen =? 0) && negb (op =? OP_0) then Some ErrMinimalData
  else if (dataLen =? 1) && (1 <=? hd 0 data) && (hd 0 data <=? 16) then
    fail_if (negb (op =? OP_1 + hd 0 data - 1))
  else if (dataLen =? 1) && (hd 0 data =? 0x81) then fail_if (negb (op =? OP_1NEGATE))
  else if dataLen <=? 75 then fail_if (negb (op =? dataLen))
  else if dataLen <=? 255 then fail_if (negb (op =? OP_PUSHDATA1))
  else if dataLen <=? 65535 then fail_if (negb (op =? OP_PUSHDATA2))
  else None.

(** [script[a:b]] *)
Definition slice (script : list byte) (a b : nat) : list byte := take (b - a) (drop a script).

(** The loop of [removeOpcodeRaw] and [removeOpcodeByData]: a nil result
    means that nothing was removed so far. *)
Definition remove_step (script : list byte) (drop_it : ScriptTokenizer → bool)
    (acc : option (list byte) * nat * bool) (t : ScriptTokenizer)
  : option (list byte) * nat * bool :=
  let '(result, prevOffset, found) := acc in
  if drop_it t then
    (Some (match result with None => slice script 0 prevOffset | Some r => r end), t_offset t, true)
  else
    (match result with
     | None => None
     | Some r => Some (r ++ slice script prevOffset (t_offset t))
     end, t_offset t, found).
Definition remove_loop (script : list byte) (drop_it : ScriptTokenizer → bool) : list byte * bool :=
  let '(result, _, found) :=
    fold_left (remove_step script drop_it) (fst (tokens 0 script)) (None, 0%nat, false) in
  (default script result, found).

Definition removeOpcodeRaw (script : list byte) (opcode : byte) : list byte :=
  if (length script =? 0)%nat then script
  else fst (remove_loop script (λ t, t_op t =? opcode)).

Definition push_of (dataToRemove : list byte) (t : ScriptTokenizer) : bool :=
  isCanonicalPush (t_op t) (t_data t) && bool_decide (t_data t = dataToRemove).
Definition removeOpcodeByData (script dataToRemove : list byte) : list byte * bool :=
  if (length script =? 0)%nat || (length dataToRemove =? 0)%nat then (script, false)
  else remove_loop script (push_of dataToRemove).

(** [countSigOpsV0]: the accumulator carries the previous opcode. *)
Definition sigops_step (precise : bool) (acc : Z * byte) (t : ScriptTokenizer) : Z * byte :=
  let '(numSigOps, prevOp) := acc in
  let op := t_op t in
  let n :=
    if (op =? OP_CHECKSIG) || (op =? OP_CHECKSIGVERIFY) then numSigOps + 1
    else if (op =? OP_CHECKMULTISIG) || (op =? OP_CHECKMULTISIGVERIFY) then
      if precise && (OP_1 <=? prevOp) && (prevOp <=? OP_16) then numSigOps + AsSmallInt prevOp
      else numSigOps + MaxPubKeysPerMultiSig
    else numSigOps in
  (n, op).
Definition countSigOpsV0 (script : list byte) (precise : bool) : Z :=
  fst (fold_left (sigops_step precise) (fst (tokens 0 script)) (0, OP_INVALIDOPCODE)).
Definition GetSigOpCount (script : list byte) : Z := countSigOpsV0 script false.

Definition finalOpcodeData (version : Z) (script : list byte) : list byte :=
  if (length script =? 0)%nat then [] else
  let '(ts, e) := tokens version script in
  match t_err e with
  | Some _ => []
  | None => match rev ts with [] => [] | t :: _ => t_data t end
  end.

(** ** Templates (standard.go) *)

Definition nth_byte (script : list byte) (i : nat) : byte := default (-1) (script !! i).

Definition extractPubKeyHash (script : list byte) : option (list byte) :=
  if (length script =? 25)%nat && (nth_byte script 0 =? OP_DUP) && (nth_byte script 1 =? OP_HASH160) &&
     (nth_byte script 2 =? OP_DATA_20) && (nth_byte script 23 =? OP_EQUALVERIFY) &&
     (nth_byte script 24 =? OP_CHECKSIG)
  then Some (slice script 3 23) else None.

Definition extractScriptHash (script : list byte) : option (list byte) :=
  if (length script =? 23)%nat && (nth_byte script 0 =? OP_HASH160) &&
     (nth_byte script 1 =? OP_DATA_20) && (nth_byte script 22 =? OP_EQUAL)
  then Some (slice script 2 22) else None.
Definition isScriptHashScript (script : list byte) : bool :=
  match extractScriptHash script with Some _ => true | None => false end.

Definition extractWitnessProgramInfo (script : list byte) : option (Z * list byte) :=
  if (length script <? 4)%nat || (42 <? length script)%nat then None else
  match Next (MakeScriptTokenizer 0 script) with
  | (true, t1) =>
      if negb (IsSmallInt (t_op t1)) then None else
      match Next t1 with
      | (true, t2) =>
          if negb (isCanonicalPush (t_op t2) (t_data t2)) then None else
          if Done_tok t2 && match t_err t2 with None => true | _ => false end
          then Some (AsSmallInt (t_op t1), t_data t2) else None
      | (false, _) => None
      end
  | (false, _) => None
  end.
Definition IsWitnessProgram (script : list byte) : bool :=
  match extractWitnessProgramInfo script with Some _ => true | None => false end.

Definition GetPreciseSigOpCount (scriptSig scriptPubKey : list byte) : Z :=
  if negb (isScriptHashScript scriptPubKey) then countSigOpsV0 scriptPubKey true
  else if (length scriptSig =? 0)%nat || negb (IsPushOnlyScript scriptSig) then 0
  else
    let redeemScript := finalOpcodeData 0 scriptSig in
    if (length redeemScript =? 0)%nat then 0 else countSigOpsV0 redeemScript true.

Definition getWitnessSigOps (pkScript : list byte) (witness : list (list byte)) : Z :=
  match extractWitnessProgramInfo pkScript with
  | None => 0
  | Some (version, program) =>
      if version =? 0 then
        if (length program =? 20)%nat then 1
        else if (length program =? 32)%nat && (0 <? length witness)%nat
        then countSigOpsV0 (List.last witness []) true
        else 0
      else 0
  end.
Definition GetWitnessSigOpCount (sigScript pkScript : list byte) (witness : list (list byte)) : Z :=
  if IsWitnessProgram pkScript then getWitnessSigOps pkScript witness
  else if isScriptHashScript pkScript && IsPushOnlyScript sigScript &&
          (0 <? length sigScript)%nat && IsWitnessProgram (tl sigScript)
  then getWitnessSigOps (tl sigScript) witness
  else 0.

Definition IsUnspendable (pkScript : list byte) : bool :=
  if (0 <? length pkScript)%nat && (nth_byte pkScript 0 =? OP_RETURN) then true
  else if MaxScriptSize <? zlen pkScript then true
  else match checkScriptParses 0 pkScript with Some _ => true | None => false end.

(** ** The builder *)

Record ScriptBuilder := mkBuilder { b_script : list byte; b_err : option ErrorCode }.

Definition NewScriptBuilder : ScriptBuilder := mkBuilder [] None.

Definition b_append (b : ScriptBuilder) (data : list byte) : ScriptBuilder :=
  mkBuilder (b_script b ++ data) (b_err b).
Definition b_fail (b : ScriptBuilder) : ScriptBuilder := mkBuilder (b_script b) (Some ErrNotCanonical).

Definition AddOp (b : ScriptBuilder) (opcode : byte) : ScriptBuilder :=
  match b_err b with
  | Some _ => b
  | None => if MaxScriptSize <? zlen (b_script b) + 1 then b_fail b else b_append b [opcode]
  end.

Definition AddOps (b : ScriptBuilder) (opcodes : list byte) : ScriptBuilder :=
  match b_err b with
  | Some _ => b
  | None =>
      if MaxScriptSize <? zlen (b_script b) + zlen opcodes then b_fail b else b_append b opcodes
  end.

Definition canonicalDataSize (data : list byte) : Z :=
  let dataLen := zlen data in
  if dataLen =? 0 then 1
  else if (dataLen =? 1) && (hd 0 data <=? 16) then 1
  else if (dataLen =? 1) && (hd 0 data =? 0x81) then 1
  else if dataLen <? OP_PUSHDATA1 then 1 + dataLen
  else if dataLen <=? 0xff then 2 + dataLen
  else if dataLen <=? 0xffff then 3 + dataLen
  else 5 + dataLen.

Definition addData (b : ScriptBuilder) (data : list byte) : ScriptBuilder :=
  let dataLen := zlen data in
  if (dataLen =? 0) || ((dataLen =? 1) && (hd 0 data =? 0)) then b_append b [OP_0]
  else if (dataLen =? 1) && (hd 0 data <=? 16) then b_append b [(OP_1 - 1) + hd 0 data]
  else if (dataLen =? 1) && (hd 0 data =? 0x81) then b_append b [OP_1NEGATE]
  else if dataLen <? OP_PUSHDATA1 then b_append b ([(OP_DATA_1 - 1) + dataLen] ++ data)
  else if dataLen <=? 0xff then b_append b ([OP_PUSHDATA1; wrap_u 8 dataLen] ++ data)
  else if dataLen <=? 0xffff then
    b_append b ([OP_PUSHDATA2] ++ le_put 2 (wrap_u 16 dataLen) ++ data)
  else b_append b ([OP_PUSHDATA4] ++ le_put 4 (uint32 dataLen) ++ data).

Definition AddFullData (b : ScriptBuilder) (data : list byte) : ScriptBuilder :=
  match b_err b with Some _ => b | None => addData b data end.

Definition AddData (b : ScriptBuilder) (data : list byte) : ScriptBuilder :=
  match b_err b with
  | Some _ => b
  | None =>
      if MaxScriptSize <? zlen (b_script b) + canonicalDataSize data then b_fail b
      else if MaxScriptElementSize <? zlen data then b_fail b
      else addData b data
  end.

(** The number is an int64; the smallest one makes [Bytes] panic. *)
Definition AddInt64 (b : ScriptBuilder) (val : Z) : Res ScriptBuilder :=
  match b_err b with
  | Some _ => Ok b
  | None =>
      if MaxScriptSize <? zlen (b_script b) + 1 then Ok (b_fail b)
      else if val =? 0 then Ok (b_append b [OP_0])
      else if (val =? -1) || ((1 <=? val) && (val <=? 16)) then
        Ok (b_append b [wrap_u 8 ((OP_1 - 1) + val)])
      else v ← Bytes val; Ok (AddData b v)
  end.

Definition Reset_builder (b : ScriptBuilder) : ScriptBuilder := mkBuilder [] None.
Definition Script (b : ScriptBuilder) : list byte * option ErrorCode := (b_script b, b_err b).
