(* ===== verification/ScriptTokenFacts.v ===== *)
(** * Bitcoin script: tokenizing and building are inverse *)

From Stdlib Require Import ZArith Lia.
From stdpp Require Import base numbers list.
From S2P Require Import Prelude ScriptNum ScriptNumFacts ScriptToken.

Open Scope Z_scope.

(** ** Tokens as bytes *)

(** The number of bytes that hold the length of the data. *)
Definition width (op : byte) : nat := Z.to_nat (- opcode_length op).

Definition encode (op : byte) (data : list byte) : list byte :=
  op :: le_put (width op) (zlen data) ++ data.

Definition wf_token (op : byte) (data : list byte) : Prop :=
  if 0 <? opcode_length op then zlen data = opcode_length op - 1
  else zlen data < 256 ^ Z.of_nat (width op) ∧ zlen data < 2 ^ 31.

Lemma opcode_length_cases op :
  opcode_length op = 1 ∨ (1 < opcode_length op ∧ 1 ≤ op ≤ 75 ∧ opcode_length op = op + 1) ∨
  opcode_length op = -1 ∨ opcode_length op = -2 ∨ opcode_length op = -4.
Proof.
  unfold opcode_length, OP_DATA_1, OP_DATA_75. destruct (_ && _) eqn:E.
  - apply andb_true_iff in E as [E1%Z.leb_le E2%Z.leb_le]. lia.
  - repeat (case_match; [auto|]). auto.
Qed.

Lemma encode_length op data : length (encode op data) = (1 + width op + length data)%nat.
Proof. unfold encode. simpl. by rewrite length_app, le_put_length. Qed.

(** What [Next] does at a well-formed token. *)
Lemma Next_encode t op data rest :
  t_err t = None → drop (t_offset t) (t_script t) = encode op data ++ rest → wf_token op data →
  Next t = (true, tok_advance t (length (encode op data)) op data).
Proof.
  intros Herr Hdrop Hwf. rewrite encode_length. unfold Next.
  assert (Done_tok t = false) as ->.
  { unfold Done_tok. rewrite Herr. apply Nat.leb_gt. apply (f_equal length) in Hdrop.
    rewrite length_drop, length_app, encode_length in Hdrop. lia. }
  rewrite Hdrop. unfold encode, wf_token, width in *. cbn [app].
  destruct (opcode_length_cases op) as [HL|[(HL & _ & _)|HL]].
  - rewrite HL in *. simpl in *. destruct data; [done|simpl in *; lia].
  - rewrite (proj2 (Z.eqb_neq _ _)), (proj2 (Z.ltb_lt _ _)) by lia.
    rewrite (proj2 (Z.ltb_lt _ _)) in Hwf by lia.
    rewrite (Z2Nat.nonpos (- _)) in * by lia. cbn [le_put app].
    rewrite (proj2 (Z.ltb_ge _ _)) by (simpl; rewrite length_app; lia).
    rewrite take_app_length' by lia. do 2 f_equal. lia.
  - assert ((0 <? opcode_length op) = false) as E by (apply Z.ltb_ge; lia). rewrite E in Hwf.
    rewrite (proj2 (Z.eqb_neq _ _)), (proj2 (Z.ltb_ge _ _)) by lia.
    set (w := Z.to_nat (- opcode_length op)) in *.
    assert (- opcode_length op = Z.of_nat w) as Hw by lia.
    rewrite Hw, <- app_assoc. rewrite (proj2 (Z.ltb_ge _ _)) by (rewrite length_app, le_put_length; lia).
    rewrite take_app_length', drop_app_length' by (by rewrite le_put_length).
    rewrite le_val_put, wrap_s_id by lia. rewrite length_app.
    rewrite (proj2 (Z.ltb_ge _ (zlen data))), (proj2 (Z.ltb_ge (zlen data) 0)) by lia. simpl orb.
    cbv iota. by rewrite Nat2Z.id, take_app_length.
Qed.

(** Every token [Next] finds is well formed and is what stands there. *)
Lemma Next_true t t' :
  Forall is_byte (t_script t) → Next t = (true, t') →
  t_err t = None ∧ (t_offset t < length (t_script t))%nat ∧
  t' = tok_advance t (length (encode (t_op t') (t_data t'))) (t_op t') (t_data t') ∧
  wf_token (t_op t') (t_data t') ∧
  ∃ rest, drop (t_offset t) (t_script t) = encode (t_op t') (t_data t') ++ rest.
Proof.
  intros Hbytes. unfold Next. destruct (Done_tok t) eqn:Ed; [done|].
  unfold Done_tok in Ed. destruct (t_err t) eqn:Ee; [done|]. apply Nat.leb_gt in Ed.
  destruct (drop (t_offset t) (t_script t)) as [|op rest] eqn:Edrop; [done|].
  assert (Forall is_byte rest) as Hrest.
  { assert (Forall is_byte (op :: rest)) as Hr by (rewrite <- Edrop; by apply Forall_drop).
    by apply Forall_cons in Hr as [_ ?]. }
  intros Hn. split; [done|]. split; [done|].
  destruct (opcode_length_cases op) as [HL|[(HL & _ & _)|HL]].
  - rewrite HL in Hn. simpl in Hn. injection Hn as <-. simpl. unfold encode, wf_token, width.
    rewrite HL. simpl. split_and!; [done|done|]. by exists rest.
  - rewrite (proj2 (Z.eqb_neq _ _)), (proj2 (Z.ltb_lt _ _)) in Hn by lia.
    destruct (zlen (op :: rest) <? opcode_length op) eqn:El; [done|]. apply Z.ltb_ge in El.
    injection Hn as <-. cbn [t_op t_data tok_advance]. set (data := take _ rest) in *.
    assert (length data = Z.to_nat (opcode_length op) - 1)%nat as Hdl
      by (unfold data; rewrite length_take; simpl in El; lia).
    assert (width op = 0%nat) as Hw by (unfold width; lia).
    rewrite encode_length, Hw. unfold encode, wf_token. rewrite Hw, (proj2 (Z.ltb_lt _ _)) by lia.
    split_and!; [f_equal; lia|lia|]. exists (drop (Z.to_nat (opcode_length op) - 1) rest).
    simpl. f_equal. symmetry. apply take_drop.
  - rewrite (proj2 (Z.eqb_neq _ _)), (proj2 (Z.ltb_ge 1 _)) in Hn by lia.
    fold (width op) in Hn. assert (- opcode_length op = Z.of_nat (width op)) as Hw
      by (unfold width; lia). rewrite Hw in Hn.
    destruct (zlen rest <? Z.of_nat (width op)) eqn:El; [done|]. apply Z.ltb_ge in El.
    destruct ((zlen (drop (width op) rest) <? int32 (le_val (take (width op) rest))) ||
              (int32 (le_val (take (width op) rest)) <? 0)) eqn:Eb; [done|].
    apply orb_false_iff in Eb as [Eb1%Z.ltb_ge Eb2%Z.ltb_ge]. injection Hn as <-. cbn [t_op t_data tok_advance].
    set (sz := take (width op) rest) in *. set (n := int32 (le_val sz)) in *.
    set (data := take (Z.to_nat n) (drop (width op) rest)) in *.
    assert (length sz = width op) as Hsz by (unfold sz; rewrite length_take; lia).
    assert (Forall is_byte sz) as Hszb by (by apply Forall_take).
    assert (zlen data = n) as Hdl by (unfold data; rewrite length_take; lia).
    pose proof (le_val_range sz Hszb) as Hr. rewrite Hsz in Hr.
    pose proof (wrap_s_range 32 (le_val sz) ltac:(lia)) as Hn32. fold n in Hn32.
    assert (le_val sz = n) as Hval.
    { unfold n, wrap_s in *. clear -Hr Eb2 Hw HL.
      assert (256 ^ Z.of_nat (width op) ≤ 2 ^ 32) as Hle.
      { rewrite <- Hw. destruct HL as [HL | [HL | HL]]; rewrite HL; by vm_compute. }
      destruct (Z.lt_ge_cases (le_val sz) (2 ^ 31)) as [Hlt|Hge].
      - rewrite Z.mod_small by lia. lia.
      - exfalso. rewrite (Z.mod_eq _ _) in Eb2 by lia.
        assert ((le_val sz + 2 ^ (32 - 1)) / 2 ^ 32 = 1) as Hd
          by (symmetry; apply (Z.div_unique _ _ _ (le_val sz - 2 ^ 31)); lia).
        rewrite Hd in Eb2. lia. }
    rewrite encode_length. unfold encode, wf_token. rewrite (proj2 (Z.ltb_ge 0 _)) by lia.
    rewrite Hdl. split_and!; [f_equal; lia|lia|lia|].
    exists (drop (Z.to_nat n) (drop (width op) rest)). simpl. f_equal.
    rewrite <- Hval, <- Hsz at 1. rewrite le_put_val by done. rewrite <- app_assoc.
    unfold data. rewrite take_drop. unfold sz. by rewrite take_drop.
Qed.

(** ** The loop over a script *)

Definition enc (t : ScriptTokenizer) : list byte := encode (t_op t) (t_data t).
Definition tok_pair (t : ScriptTokenizer) : byte * list byte := (t_op t, t_data t).

(** The tokens lie one after the other from offset [o]. *)
Fixpoint chain (script : list byte) (o : nat) (ts : list ScriptTokenizer) : Prop :=
  match ts with
  | [] => True
  | t :: rest =>
      slice script o (t_offset t) = enc t ∧ (o < t_offset t ≤ length script)%nat ∧
      wf_token (t_op t) (t_data t) ∧ chain script (t_offset t) rest
  end.

Lemma last_cons_default {A} (x d : A) l : List.last (x :: l) d = List.last l x.
Proof.
  revert x d. induction l as [|y l IH]; intros x d; [done|].
  change (List.last (y :: l) d = List.last (y :: l) x). by rewrite !IH.
Qed.

Lemma for_next_spec fuel t :
  Forall is_byte (t_script t) → t_err t = None → (t_offset t ≤ length (t_script t))%nat →
  (length (t_script t) - t_offset t < fuel)%nat →
  ∀ ts e, for_next fuel t = (ts, e) →
  Done_tok e = true ∧ chain (t_script t) (t_offset t) ts ∧
  t_script e = t_script t ∧ t_offset e = List.last (map t_offset ts) (t_offset t) ∧
  (t_err e = None → t_offset e = length (t_script t)).
Proof.
  revert t. induction fuel as [|k IH]; intros t Hb He Ho Hf ts e Hrun; [lia|]. simpl in Hrun.
  destruct (Next t) as [[] t'] eqn:En.
  - destruct (for_next k t') as [ts' e'] eqn:Er. injection Hrun as <- <-.
    destruct (Next_true t t' Hb En) as (_ & Hlt & Ht' & Hwf & rest & Hdrop).
    assert (t_script t' = t_script t) as Hs by (by rewrite Ht').
    assert (t_err t' = None) as He' by (by rewrite Ht').
    assert (t_offset t' = t_offset t + length (enc t'))%nat as Hoff by (by rewrite Ht' at 1).
    pose proof (f_equal length Hdrop) as Hlen. rewrite length_drop, length_app in Hlen.
    fold (enc t') in *. assert (1 ≤ length (enc t'))%nat as Hpos
      by (unfold enc; rewrite encode_length; lia).
    destruct (IH t' ltac:(by rewrite Hs) He' ltac:(rewrite Hs; lia) ltac:(rewrite Hs; lia) _ _ Er)
      as (Hd & Hch & Hs' & Hlast & Hend). rewrite Hs in *.
    split_and!; [done| |done| |done].
    + split_and!; [|lia|lia|done|done]. unfold slice. rewrite Hdrop.
      apply take_app_length'. lia.
    + rewrite Hlast. simpl map. by rewrite last_cons_default.
  - injection Hrun as <- <-. unfold Next in En.
    destruct (Done_tok t) eqn:Ed.
    { injection En as <-. split_and!; try done. intros _. unfold Done_tok in Ed. rewrite He in Ed.
      apply Nat.leb_le in Ed. lia. }
    destruct (drop _ _) as [|op rest] eqn:Edr.
    { exfalso. apply (f_equal length) in Edr. rewrite length_drop in Edr. unfold Done_tok in Ed.
      rewrite He in Ed. apply Nat.leb_gt in Ed. simpl in Edr. lia. }
    repeat (case_match; try discriminate); injection En as <-; done.
Qed.

Lemma tokens_spec script ts e :
  Forall is_byte script → tokens 0 script = (ts, e) →
  Done_tok e = true ∧ chain script 0 ts ∧ t_offset e = List.last (map t_offset ts) 0%nat ∧
  (t_err e = None → t_offset e = length script).
Proof.
  intros Hb Ht. unfold tokens in Ht.
  destruct (for_next_spec (S (length script)) (MakeScriptTokenizer 0 script) Hb eq_refl
              ltac:(simpl; lia) ltac:(simpl; lia) ts e Ht) as (? & ? & ? & ? & ?). done.
Qed.

Lemma slice_app script a b c :
  (a ≤ b ≤ c)%nat → slice script a b ++ slice script b c = slice script a c.
Proof.
  intros Hle. unfold slice. replace (c - a)%nat with ((b - a) + (c - b))%nat by lia.
  rewrite <- take_take_drop. rewrite drop_drop. by replace (a + (b - a))%nat with b by lia.
Qed.

Lemma chain_le script o ts : chain script o ts → (o ≤ List.last (map t_offset ts) o)%nat.
Proof.
  revert o. induction ts as [|t ts IH]; intros o; [simpl; lia|]. intros (_ & Ho & _ & Hc).
  specialize (IH _ Hc). simpl map. rewrite last_cons_default. lia.
Qed.

Lemma chain_concat script o ts :
  chain script o ts → concat (map enc ts) = slice script o (List.last (map t_offset ts) o).
Proof.
  revert o. induction ts as [|t ts IH]; intros o.
  - intros _. unfold slice. simpl. by rewrite Nat.sub_diag.
  - intros (Hs & Ho & _ & Hc). change (enc t ++ concat (map enc ts) =
      slice script o (List.last (t_offset t :: map t_offset ts) o)).
    rewrite (IH _ Hc), <- Hs. pose proof (chain_le _ _ _ Hc).
    rewrite slice_app by lia. by rewrite last_cons_default.
Qed.

Lemma slice_all script : slice script 0 (length script) = script.
Proof. unfold slice. rewrite drop_0, Nat.sub_0_r. by apply take_ge. Qed.

(** Scripts from tokens. *)
Definition encode_all (l : list (byte * list byte)) : list byte :=
  concat (map (λ p, encode (fst p) (snd p)) l).

Lemma for_next_encode l fuel t :
  Forall (λ p, wf_token (fst p) (snd p)) l → t_err t = None →
  drop (t_offset t) (t_script t) = encode_all l → (length l < fuel)%nat →
  ∃ e, map tok_pair (fst (for_next fuel t)) = l ∧ snd (for_next fuel t) = e ∧ t_err e = None.
Proof.
  intros Hl. revert fuel t. induction Hl as [|[op data] l Hwf Hl IH]; intros fuel t He Hd Hf.
  - destruct fuel as [|k]; [lia|]. simpl. unfold Next.
    destruct (Done_tok t); [by eexists|]. rewrite Hd. by eexists.
  - destruct fuel as [|k]; [simpl in Hf; lia|]. unfold encode_all in Hd. simpl in Hd.
    simpl for_next. rewrite (Next_encode t op data _ He Hd Hwf).
    set (t' := tok_advance _ _ _ _). destruct (IH k t') as (e & Hm & He' & Hn).
    + done.
    + unfold t'. simpl t_offset. simpl t_script. rewrite <- drop_drop, Hd.
      apply drop_app_length.
    + simpl in Hf. lia.
    + destruct (for_next k t') as [ts e0]. simpl in *. exists e. split_and!; [|done|done].
      by rewrite Hm.
Qed.

Lemma encode_all_length l : (length l ≤ length (encode_all l))%nat.
Proof.
  unfold encode_all. induction l as [|[op data] l IH]; simpl; [lia|]. rewrite length_app. simpl in *. lia.
Qed.

Lemma tokens_encode l :
  Forall (λ p, wf_token (fst p) (snd p)) l →
  map tok_pair (fst (tokens 0 (encode_all l))) = l ∧ checkScriptParses 0 (encode_all l) = None.
Proof.
  intros Hl. unfold checkScriptParses, tokens.
  destruct (for_next_encode l (S (length (encode_all l))) (MakeScriptTokenizer 0 (encode_all l)))
    as (e & Hm & He & Hn); [done|done|done|pose proof (encode_all_length l); lia|].
  by rewrite He.
Qed.

Lemma chain_wf script o ts :
  chain script o ts → Forall (λ t, wf_token (t_op t) (t_data t)) ts.
Proof.
  revert o. induction ts as [|t ts IH]; intros o; simpl; [constructor|].
  intros (_ & _ & Hw & Hc). constructor; eauto.
Qed.

Lemma encode_all_toks ts : encode_all (map tok_pair ts) = concat (map enc ts).
Proof. unfold encode_all. by rewrite map_map. Qed.

Lemma parses_concat script ts e :
  Forall is_byte script → tokens 0 script = (ts, e) → t_err e = None →
  script = concat (map enc ts).
Proof.
  intros Hb Ht He. destruct (tokens_spec script ts e Hb Ht) as (_ & Hc & Hl & Hend).
  rewrite (chain_concat _ _ _ Hc), <- Hl, (Hend He). by rewrite slice_all.
Qed.

(** Tokenizing and encoding are inverse.  A script that parses is the
    concatenation of its tokens, each well formed; one that does not is, up to
    the failing opcode; the loop always ends.  Conversely a sequence of
    well-formed tokens is what its encoding parses to. *)
Theorem tokenizer_roundtrip :
  (∀ script, Forall is_byte script →
     let '(ts, e) := tokens 0 script in
     Done_tok e = true ∧ Forall (λ t, wf_token (t_op t) (t_data t)) ts ∧
     encode_all (map tok_pair ts) = take (t_offset e) script ∧
     (checkScriptParses 0 script = None → encode_all (map tok_pair ts) = script)) ∧
  (∀ l, Forall (λ p, wf_token (fst p) (snd p)) l →
     map tok_pair (fst (tokens 0 (encode_all l))) = l ∧
     checkScriptParses 0 (encode_all l) = None).
Proof.
  split; [|by apply tokens_encode]. intros script Hb.
  destruct (tokens 0 script) as [ts e] eqn:Ht.
  destruct (tokens_spec script ts e Hb Ht) as (Hd & Hc & Hl & _).
  rewrite encode_all_toks. split_and!; [done|by eapply chain_wf| |].
  - rewrite (chain_concat _ _ _ Hc), <- Hl. unfold slice. by rewrite drop_0, Nat.sub_0_r.
  - unfold checkScriptParses. rewrite Ht. intros He. symmetry. by eapply parses_concat.
Qed.

(** ** The builder *)

(** What executing a push opcode leaves on the stack. *)
Definition pushed (op : byte) (data : list byte) : list byte :=
  if op =? OP_0 then []
  else if op <=? OP_PUSHDATA4 then data
  else if op =? OP_1NEGATE then [0x81]
  else [op - (OP_1 - 1)].

Definition minimal_push (op : byte) (data : list byte) : Prop :=
  op ≤ OP_PUSHDATA4 → checkMinimalDataPush op data = None.

(** A direct push of 1 to 75 bytes, and the two longer forms. *)
Lemma direct_push data :
  1 ≤ zlen data ≤ 75 →
  encode (zlen data) data = [zlen data] ++ data ∧ wf_token (zlen data) data ∧
  pushed (zlen data) data = data.
Proof.
  intros Hl. assert (opcode_length (zlen data) = zlen data + 1) as HL.
  { unfold opcode_length, OP_DATA_1, OP_DATA_75.
    by rewrite !(proj2 (Z.leb_le _ _)) by lia. }
  unfold encode, wf_token, width, pushed, OP_0, OP_PUSHDATA4. rewrite HL.
  rewrite Z2Nat.nonpos, (proj2 (Z.ltb_lt _ _)), (proj2 (Z.eqb_neq _ _)), (proj2 (Z.leb_le _ _)) by lia.
  split_and!; [done|lia|done].
Qed.

Lemma pushdata_push op w data :
  (op = OP_PUSHDATA1 ∧ w = 1%nat ∨ op = OP_PUSHDATA2 ∧ w = 2%nat) →
  zlen data < 256 ^ Z.of_nat w →
  encode op data = [op] ++ le_put w (zlen data) ++ data ∧ wf_token op data ∧ pushed op data = data.
Proof.
  intros Hop Hl. assert (256 ^ Z.of_nat w < 2 ^ 31) as Hw
    by (destruct Hop as [[_ ->] | [_ ->]]; by vm_compute).
  destruct Hop as [[-> ->] | [-> ->]]; unfold encode, wf_token, pushed; (split_and!; [done|split; [exact Hl|lia]|done]).
Qed.

(** One push: the shortest opcode for the data, except that a single zero byte
    is pushed as the empty string. *)
Definition push_spec (data bytes : list byte) : Prop :=
  ∃ op d, bytes = encode op d ∧ wf_token op d ∧ minimal_push op d ∧
    pushed op d = (if decide (data = [0]) then [] else data) ∧
    zlen (encode op d) = canonicalDataSize data ∧ is_byte op ∧ Forall is_byte d.

Lemma push_opcode data op :
  OP_1NEGATE ≤ op ≤ OP_16 → op ≠ OP_RESERVED → canonicalDataSize data = 1 → data ≠ [0] →
  pushed op [] = data → push_spec data [op].
Proof.
  intros Hop Hr Hsize Hne Hp. unfold OP_1NEGATE, OP_16, OP_RESERVED in *. exists op, [].
  assert (opcode_length op = 1) as HL.
  { unfold opcode_length, OP_DATA_1, OP_DATA_75, OP_PUSHDATA1, OP_PUSHDATA2, OP_PUSHDATA4.
    rewrite (proj2 (Z.leb_gt op _)), andb_false_r by lia.
    by rewrite !(proj2 (Z.eqb_neq _ _)) by lia. }
  unfold encode, wf_token, width, minimal_push, OP_PUSHDATA4, is_byte. rewrite HL.
  split_and!; try done; try lia. by rewrite decide_False.
Qed.

Lemma canonicalDataSize_one x :
  canonicalDataSize [x] = if x <=? 16 then 1 else if x =? 0x81 then 1 else 2.
Proof. done. Qed.

Lemma canonicalDataSize_long data :
  (1 < length data)%nat →
  canonicalDataSize data =
  if zlen data <? OP_PUSHDATA1 then 1 + zlen data
  else if zlen data <=? 0xff then 2 + zlen data
  else if zlen data <=? 0xffff then 3 + zlen data else 5 + zlen data.
Proof.
  intros Hl. unfold canonicalDataSize.
  by rewrite (proj2 (Z.eqb_neq _ 0)), (proj2 (Z.eqb_neq _ 1)) by lia.
Qed.

Lemma addData_spec b data :
  Forall is_byte data → zlen data < 65536 →
  ∃ bytes, addData b data = b_append b bytes ∧ push_spec data bytes.
Proof.
  intros Hb Hlen. destruct data as [|x [|y ys]].
  { exists [OP_0]. split; [done|]. by exists OP_0, []. }
  - (* one byte *)
    assert (is_byte x) as Hx by (by inversion Hb). unfold is_byte in Hx. clear Hb. rename Hx into Hb. unfold addData. cbn [length hd].
    change (Z.of_nat 1) with 1. simpl (1 =? 0). simpl (1 =? 1). simpl orb. simpl andb.
    destruct (Z.eqb_spec x 0) as [->|Hx0].
    { exists [OP_0]. split; [done|]. by exists OP_0, []. }
    destruct (Z.leb_spec x 16) as [Hx|Hx].
    { eexists. split; [done|]. apply push_opcode; unfold OP_1NEGATE, OP_16, OP_1, OP_RESERVED; try lia.
      - by rewrite canonicalDataSize_one, (proj2 (Z.leb_le _ _)).
      - congruence.
      - unfold pushed, OP_0, OP_PUSHDATA4, OP_1NEGATE, OP_1.
        rewrite (proj2 (Z.eqb_neq _ 0)), (proj2 (Z.leb_gt _ _)), (proj2 (Z.eqb_neq _ _)) by lia.
        f_equal. lia. }
    destruct (Z.eqb_spec x 0x81) as [->|Hx1].
    { eexists. split; [done|]. by apply push_opcode. }
    eexists. split; [done|]. destruct (direct_push [x] ltac:(simpl; lia)) as (He & Hw & Hp).
    exists 1, [x]. split_and!; [done|done| |..].
    + intros _. change (checkMinimalDataPush 1 [x]) with
        (if (1 <=? x) && (x <=? 16) then if negb (1 =? OP_1 + x - 1) then Some ErrMinimalData else None
         else if x =? 0x81 then if negb (1 =? OP_1NEGATE) then Some ErrMinimalData else None else None).
      by rewrite (proj2 (Z.leb_gt x 16)), andb_false_r, (proj2 (Z.eqb_neq x 0x81)) by lia.
    + rewrite decide_False by congruence. done.
    + rewrite canonicalDataSize_one.
      by rewrite (proj2 (Z.leb_gt x 16)), (proj2 (Z.eqb_neq x 129)) by lia.
    + unfold is_byte. lia.
    + constructor; [done|constructor].
  - set (data := x :: y :: ys) in *. assert (1 < length data)%nat as Hl by (simpl; lia).
    assert (data ≠ [0]) as Hne by done. clearbody data. unfold addData.
    rewrite (proj2 (Z.eqb_neq _ 0)), (proj2 (Z.eqb_neq _ 1)) by lia. simpl orb. simpl andb. cbv iota.
    unfold push_spec. rewrite (canonicalDataSize_long data Hl), decide_False by done.
    assert (∀ op, checkMinimalDataPush op data =
              if zlen data <=? 75 then (if negb (op =? zlen data) then Some ErrMinimalData else None)
              else if zlen data <=? 255 then (if negb (op =? OP_PUSHDATA1) then Some ErrMinimalData else None)
              else if negb (op =? OP_PUSHDATA2) then Some ErrMinimalData else None) as Hmin.
    { intros op. unfold checkMinimalDataPush.
      rewrite (proj2 (Z.eqb_neq _ 0)), (proj2 (Z.eqb_neq _ 1)) by lia. simpl andb. cbv iota.
      by rewrite (proj2 (Z.leb_le _ 65535)) by lia. }
    change (zlen data <? OP_PUSHDATA1) with (zlen data <? 0x4c). destruct (Z.ltb_spec (zlen data) 0x4c) as [Hs|Hs].
    { eexists. split; [done|]. destruct (direct_push data ltac:(lia)) as (He & Hw & Hp).
      exists (zlen data), data. rewrite encode_length. split_and!; [by rewrite He|done| |done| | |done].
      - intros _. rewrite Hmin, (proj2 (Z.leb_le _ 75)), Z.eqb_refl by lia. done.
      - unfold width, opcode_length, OP_DATA_1, OP_DATA_75.
        rewrite !(proj2 (Z.leb_le _ _)) by lia. simpl andb. cbv iota.
        rewrite Z2Nat.nonpos by lia. lia.
      - unfold is_byte. lia. }
    destruct (Z.leb_spec (zlen data) 0xff) as [Hm|Hm].
    { eexists. split; [done|]. destruct (pushdata_push OP_PUSHDATA1 1 data) as (He & Hw & Hp); [by left|simpl; lia|].
      exists OP_PUSHDATA1, data. rewrite encode_length. split_and!; [|done| |done| |done|done].
      - rewrite He. simpl. unfold wrap_u. by rewrite (Z.mod_small _ 256), (Z.mod_small _ (2 ^ 8)) by lia.
      - intros _. rewrite Hmin, (proj2 (Z.leb_gt _ 75)) by lia. done.
      - change (width OP_PUSHDATA1) with 1%nat. lia. }
    rewrite (proj2 (Z.leb_le _ 0xffff)) by lia.
    eexists. split; [done|]. destruct (pushdata_push OP_PUSHDATA2 2 data) as (He & Hw & Hp); [by right|simpl; lia|].
    exists OP_PUSHDATA2, data. rewrite encode_length. split_and!; [|done| |done| |done|done].
    + rewrite He. rewrite wrap_u_id by lia. done.
    + intros _. by rewrite Hmin, (proj2 (Z.leb_gt _ 75)) by lia.
    + change (width OP_PUSHDATA2) with 2%nat. lia.
Qed.

Abbreviation wf_all l := (Forall (λ p : byte * list byte, wf_token (fst p) (snd p)) l).

(** [b'] is [b] with one more token, a minimal push of [v]. *)
Definition extends (l : list (byte * list byte)) (v : list byte) (b' : ScriptBuilder) : Prop :=
  ∃ op d, map tok_pair (fst (tokens 0 (b_script b'))) = l ++ [(op, d)] ∧
    checkScriptParses 0 (b_script b') = None ∧ minimal_push op d ∧ pushed op d = v.

Lemma minimal_op op d : OP_PUSHDATA4 < op → minimal_push op d.
Proof. intros Hop Hle. lia. Qed.

Lemma extends_append l b v op d :
  b_script b = encode_all l → wf_all l → wf_token op d → minimal_push op d → pushed op d = v →
  extends l v (b_append b (encode op d)).
Proof.
  intros Hb Hl Hw Hm Hp. exists op, d. simpl. rewrite Hb.
  assert (encode_all l ++ encode op d = encode_all (l ++ [(op, d)])) as ->.
  { unfold encode_all. rewrite map_app, concat_app. simpl. by rewrite app_nil_r. }
  destruct (tokens_encode (l ++ [(op, d)])) as [Ht He]; [by apply Forall_app_2, Forall_singleton|].
  done.
Qed.

Lemma AddData_spec l b data :
  b_err b = None → b_script b = encode_all l → wf_all l → Forall is_byte data →
  if decide (zlen (b_script b) + canonicalDataSize data ≤ MaxScriptSize ∧
             zlen data ≤ MaxScriptElementSize)
  then b_err (AddData b data) = None ∧
       extends l (if decide (data = [0]) then [] else data) (AddData b data)
  else AddData b data = b_fail b.
Proof.
  intros Herr Hb Hl Hd. unfold AddData. rewrite Herr. case_decide as Hc.
  - destruct Hc as [H1 H2].
    rewrite (proj2 (Z.ltb_ge _ _)), (proj2 (Z.ltb_ge _ _)) by done.
    destruct (addData_spec b data Hd) as (bytes & -> & op & d & -> & Hw & Hm & Hp & _ & _ & _);
      [unfold MaxScriptElementSize in H2; lia|].
    split; [done|]. by apply extends_append.
  - destruct (Z.ltb_spec MaxScriptSize (zlen (b_script b) + canonicalDataSize data)); [done|].
    destruct (Z.ltb_spec MaxScriptElementSize (zlen data)); [done|]. by destruct Hc.
Qed.

(** The builder.  Adding data to a script appends one token that parses,
    is a minimal push and pushes the data (a single zero byte is pushed as the
    empty string), unless the script or the element would be too long, in
    which case the script is left alone and the error is set; adding an
    integer pushes its encoding. *)
Theorem builder_pushes b l :
  b_err b = None → b_script b = encode_all l → wf_all l →
  (∀ data, Forall is_byte data →
     if decide (zlen (b_script b) + canonicalDataSize data ≤ MaxScriptSize ∧
                zlen data ≤ MaxScriptElementSize)
     then b_err (AddData b data) = None ∧
          extends l (if decide (data = [0]) then [] else data) (AddData b data)
     else AddData b data = b_fail b) ∧
  (∀ val, - 2 ^ 63 < val < 2 ^ 63 →
     ∃ v b', Bytes val = Ok v ∧ AddInt64 b val = Ok b' ∧
             (b' = b_fail b ∨ b_err b' = None ∧ extends l v b')).
Proof.
  intros Herr Hb Hl. split; [intros data; by apply AddData_spec|].
  intros val Hval. destruct (Bytes_spec val Hval) as (v & Hv & Hbv & Hmin & Hs).
  exists v. unfold AddInt64. rewrite Herr.
  destruct (Z.ltb_spec MaxScriptSize (zlen (b_script b) + 1)); [eexists; split_and!; [done..|by left]|].
  destruct (Z.eqb_spec val 0) as [->|H0].
  { injection Hv as <-. eexists. split_and!; [done..|right]. split; [done|].
    by apply (extends_append l b [] OP_0 []). }
  destruct (Z.eqb_spec val (-1)) as [->|H1].
  { injection Hv as <-. eexists. split_and!; [done..|right]. split; [done|].
    apply (extends_append l b [0x81] OP_1NEGATE []); try done. by apply minimal_op. }
  destruct ((1 <=? val) && (val <=? 16)) eqn:E.
  { apply andb_true_iff in E as [E1%Z.leb_le E2%Z.leb_le]. simpl orb. cbv iota.
    assert (∃ k, (k < 17)%nat ∧ val = Z.of_nat k) as (k & Hk & ->) by (exists (Z.to_nat val); lia).
    destruct k as [|k]; [lia|].
    do 16 (destruct k as [|k]; [injection Hv as <-; eexists; split_and!; [done..|right];
      split; [done|]; match goal with |- extends _ _ (b_append _ [?o]) => apply (extends_append l b _ o []) end; try done; by apply minimal_op|]). lia. }
  simpl orb. cbv iota. rewrite Hv. eexists. split_and!; [done..|].
  pose proof (AddData_spec l b v Herr Hb Hl Hbv) as Hadd. case_decide; [right|by left].
  rewrite decide_False in Hadd; [done|]. intros ->. discriminate Hmin.
Qed.

(** ** Removing pushes *)

Section Remove.
Context (script : list byte) (drop_it : ScriptTokenizer → bool).

Lemma remove_fold ts o pre found :
  chain script o ts →
  ∀ result, match result with None => found = false | Some r => r = pre end →
  (result = None → slice script 0 o = pre) →
  ∃ result' o' found',
    fold_left (remove_step script drop_it) ts (result, o, found) = (result', o', found') ∧
    o' = List.last (map t_offset ts) o ∧
    found' = found || existsb drop_it ts ∧
    match result' with
    | None => found' = false
    | Some r => r = pre ++ concat (map enc (List.filter (negb ∘ drop_it) ts))
    end.
Proof.
  revert o pre found. induction ts as [|t ts IH]; intros o pre found Hc result Hr Hnone.
  { exists result, o, found. simpl. rewrite orb_false_r, app_nil_r. done. }
  destruct Hc as (Hs & Ho & _ & Hc). simpl fold_left. simpl map. rewrite last_cons_default.
  simpl existsb. simpl List.filter. unfold compose at 2.
  destruct (drop_it t) eqn:Ed; simpl negb; cbv iota.
  - destruct (IH (t_offset t) pre true Hc (Some (match result with None => slice script 0 o | Some r => r end)))
      as (r' & o' & f' & -> & -> & -> & Hr').
    + destruct result; [done|by apply Hnone].
    + done.
    + do 3 eexists. split_and!; [done..| |].
      * simpl. by rewrite orb_true_r.
      * exact Hr'.
  - destruct result as [r|].
    + destruct (IH (t_offset t) (pre ++ enc t) found Hc (Some (r ++ slice script o (t_offset t))))
        as (r' & o' & f' & -> & -> & -> & Hr'); [by rewrite Hr, Hs|done|].
      do 3 eexists. split_and!; [done..|]. destruct r'; [|done]. rewrite Hr'. simpl.
      by rewrite <- app_assoc.
    + destruct (IH (t_offset t) (pre ++ enc t) found Hc None) as (r' & o' & f' & -> & -> & -> & Hr');
        [done| |].
      { intros _. rewrite <- (Hnone eq_refl), <- Hs. symmetry. apply slice_app. lia. }
      do 3 eexists. split_and!; [done..|]. destruct r'; [|done]. rewrite Hr'. simpl.
      by rewrite <- app_assoc.
Qed.
End Remove.

Lemma filter_none {A} (f : A → bool) l : existsb f l = false → List.filter (negb ∘ f) l = l.
Proof.
  induction l as [|x l IH]; [done|]. simpl. intros [Hx Hl]%orb_false_iff. by rewrite Hx, IH.
Qed.

(** Removing a signature from a script that parses removes exactly the
    tokens that are canonical pushes of it, keeps the others in order, and
    reports whether there was one. *)
Theorem removeOpcodeByData_spec script data ts e :
  Forall is_byte script → script ≠ [] → data ≠ [] →
  tokens 0 script = (ts, e) → t_err e = None →
  removeOpcodeByData script data =
    (encode_all (map tok_pair (List.filter (negb ∘ push_of data) ts)), existsb (push_of data) ts) ∧
  map tok_pair (fst (tokens 0 (fst (removeOpcodeByData script data)))) =
    map tok_pair (List.filter (negb ∘ push_of data) ts).
Proof.
  intros Hb Hs Hd Ht He.
  destruct (tokens_spec script ts e Hb Ht) as (_ & Hc & _ & _).
  assert (removeOpcodeByData script data =
    (encode_all (map tok_pair (List.filter (negb ∘ push_of data) ts)), existsb (push_of data) ts)) as Heq.
  { unfold removeOpcodeByData, remove_loop.
    rewrite (proj2 (Nat.eqb_neq _ _)), (proj2 (Nat.eqb_neq _ _)) by (by destruct script, data).
    simpl orb. cbv iota. rewrite Ht. simpl fst.
    destruct (remove_fold script (push_of data) ts 0 [] false Hc None eq_refl) as (r & o & f & -> & _ & -> & Hr);
      [done|]. simpl. f_equal. rewrite encode_all_toks. destruct r as [r|]; [done|]. simpl in *.
    rewrite filter_none by done. by eapply parses_concat. }
  split; [done|]. rewrite Heq. simpl. apply tokens_encode. apply Forall_map.
  apply chain_wf in Hc. rewrite !Forall_forall in *. intros t Hin. simpl. apply Hc.
  apply list_elem_of_In, filter_In in Hin as [Hin _]. by apply list_elem_of_In.
Qed.

(** ** Counting signature operations *)

Lemma sigops_fold ts n m prev :
  0 ≤ n ≤ m →
  let p := fold_left (sigops_step true) ts (n, prev) in
  let q := fold_left (sigops_step false) ts (m, prev) in
  n ≤ fst p ∧ fst p ≤ fst q ∧ fst q ≤ m + MaxPubKeysPerMultiSig * zlen ts.
Proof.
  revert n m prev. induction ts as [|t ts IH]; intros n m prev Hnm; [simpl; lia|].
  cbn [fold_left]. unfold MaxPubKeysPerMultiSig in *.
  assert (∃ n' m', sigops_step true (n, prev) t = (n', t_op t) ∧
                   sigops_step false (m, prev) t = (m', t_op t) ∧
                   n ≤ n' ≤ m' ∧ m' ≤ m + 20) as (n' & m' & -> & -> & Hle & Hm).
  { unfold sigops_step, MaxPubKeysPerMultiSig. do 2 eexists. split; [done|]. split; [done|].
    destruct ((t_op t =? OP_CHECKSIG) || _); [lia|].
    destruct ((t_op t =? OP_CHECKMULTISIG) || _); [|lia]. simpl andb. cbv iota.
    destruct (Z.leb_spec OP_1 prev), (Z.leb_spec prev OP_16); simpl; try lia.
    unfold AsSmallInt, OP_0, OP_1, OP_16 in *. destruct (Z.eqb_spec prev 0); lia. }
  specialize (IH n' m' (t_op t) ltac:(lia)). cbv zeta in IH. simpl length. lia.
Qed.

Lemma sigops_pushes ts precise n prev :
  forallb (λ t, t_op t <=? OP_16) ts = true →
  fst (fold_left (sigops_step precise) ts (n, prev)) = n.
Proof.
  revert prev. induction ts as [|t ts IH]; intros prev; [done|]. simpl.
  intros [Hop Hts]%andb_true_iff. apply Z.leb_le in Hop. unfold OP_16 in Hop.
  unfold OP_CHECKSIG, OP_CHECKSIGVERIFY, OP_CHECKMULTISIG, OP_CHECKMULTISIGVERIFY.
  rewrite !(proj2 (Z.eqb_neq _ _)) by lia. by apply IH.
Qed.

(** Counting signature operations: the precise count never exceeds the
    quick one, which is at most 20 for each byte of the script; a script of
    pushes has none; and the cost of spending a script hash is the precise
    count of the script that the last push carries. *)
Theorem sigops_bounds script :
  Forall is_byte script →
  (0 ≤ countSigOpsV0 script true ≤ GetSigOpCount script ∧
   GetSigOpCount script ≤ MaxPubKeysPerMultiSig * zlen script) ∧
  (IsPushOnlyScript script = true → GetSigOpCount script = 0) ∧
  (∀ scriptSig, isScriptHashScript script = true → IsPushOnlyScript scriptSig = true →
     GetPreciseSigOpCount scriptSig script = countSigOpsV0 (finalOpcodeData 0 scriptSig) true).
Proof.
  intros Hb. unfold GetSigOpCount, countSigOpsV0, IsPushOnlyScript.
  destruct (tokens 0 script) as [ts e] eqn:Ht. simpl fst.
  destruct (tokens_spec script ts e Hb Ht) as (_ & Hc & _ & _). split_and!.
  - pose proof (sigops_fold ts 0 0 OP_INVALIDOPCODE ltac:(lia)) as Hs. cbv zeta in Hs. lia.
  - pose proof (sigops_fold ts 0 0 OP_INVALIDOPCODE ltac:(lia)) as Hs. cbv zeta in Hs. lia.
  - pose proof (sigops_fold ts 0 0 OP_INVALIDOPCODE ltac:(lia)) as Hs. cbv zeta in Hs.
    assert (∀ o l, (o ≤ length script)%nat → chain script o l → (length l ≤ length script - o)%nat) as Hlen.
    { intros o l. revert o. induction l as [|t l IH]; intros o Ho; simpl; [lia|].
      intros (_ & Ht' & _ & Hcl). specialize (IH (t_offset t) ltac:(lia) Hcl). lia. }
    specialize (Hlen 0%nat ts ltac:(lia) Hc). unfold MaxPubKeysPerMultiSig in *. lia.
  - intros [Hall _]%andb_true_iff. by apply sigops_pushes.
  - intros scriptSig Hsh Hpush. unfold GetPreciseSigOpCount. rewrite Hsh. simpl negb. cbv iota.
    fold (IsPushOnlyScript scriptSig) in *.
    assert (IsPushOnlyScript scriptSig = true) as -> by done.
    destruct scriptSig as [|x xs]; [done|]. simpl (length (x :: xs) =? 0)%nat. simpl orb. cbv iota.
    destruct (finalOpcodeData 0 (x :: xs)) eqn:E; [done|]. done.
Qed.
