(* ===== verification/Sighash.v ===== *)
(** * Bitcoin script: the digests that signatures sign

    btcd/chaincfg/chainhash (hash functions), btcd/txscript/hashcache.go and
    btcd/txscript/sighash.go.  SHA-256 is a parameter with its output size;
    GoHash.v implements it. *)

From Stdlib Require Import ZArith Lia.
From stdpp Require Import base numbers list strings.
From S2P Require Import Prelude GoStrings ScriptNum WireBase WireTx ScriptToken.

Open Scope Z_scope.

(** ** Hashing *)

Class Sha := {
  sha256 : list byte → list byte;
  sha256_size b : bytes_of_len HashSize (sha256 b)
}.

(** The bytes of a Go string constant. *)
Definition ascii_bytes (s : string) : list byte :=
  map (λ c, Z.of_nat (Ascii.nat_of_ascii c)) (bytes_of s).

(** The interface PrevOutputFetcher; [None] is a nil pointer. *)
Abbreviation PrevOutputFetcher := (OutPoint → option TxOut).

Section Digests.
Context `{Sha}.

Definition HashH (b : list byte) : Hash := sha256 b.
Definition DoubleHashH (b : list byte) : Hash := sha256 (sha256 b).
(** The tags are hashed once and kept; the hash is the same. *)
Definition TaggedHash (tag : list byte) (msgs : list (list byte)) : Hash :=
  sha256 (sha256 tag ++ sha256 tag ++ concat msgs).

Definition TxHash (msg : MsgTx) : Hash := DoubleHashH (SerializeNoWitness msg).
Definition WitnessHash (msg : MsgTx) : Hash :=
  if HasWitness msg then DoubleHashH (Serialize msg) else TxHash msg.

Definition zeroHash : Hash := replicate HashSize 0.

(** ** Hash types *)

Definition SigHashDefault : Z := 0.
Definition SigHashOld : Z := 0.
Definition SigHashAll : Z := 1.
Definition SigHashNone : Z := 2.
Definition SigHashSingle : Z := 3.
Definition SigHashAnyOneCanPay : Z := 0x80.
Definition sigHashMask : Z := 0x1f.
Definition blankCodeSepValue : Z := 0xffffffff.

Definition base_type (hashType : Z) : Z := Z.land hashType sigHashMask.
Definition anyone_can_pay (hashType : Z) : bool :=
  negb (Z.land hashType SigHashAnyOneCanPay =? 0).

(** ** Before segregated witness *)

Definition set_SignatureScript (s : list byte) (ti : TxIn) : TxIn :=
  mkTxIn (PreviousOutPoint ti) s (Witness ti) (Sequence ti).
Definition set_Sequence (q : Z) (ti : TxIn) : TxIn :=
  mkTxIn (PreviousOutPoint ti) (SignatureScript ti) (Witness ti) q.

(** The copy of the transaction that is serialized. *)
Definition sighash_copy (sigScript : list byte) (hashType : Z) (tx : MsgTx) (idx : nat) : MsgTx :=
  let others_zero := imap (λ i ti, if (i =? idx)%nat then ti else set_Sequence 0 ti) in
  let ins := imap (λ i, set_SignatureScript (if (i =? idx)%nat then sigScript else [])) (TxIns tx) in
  let '(ins, outs) :=
    if base_type hashType =? SigHashNone then (others_zero ins, [])
    else if base_type hashType =? SigHashSingle then
      (others_zero ins,
       imap (λ i to, if (i <? idx)%nat then mkTxOut (-1) [] else to) (take (idx + 1) (TxOuts tx)))
    else (ins, TxOuts tx) in
  mkMsgTx (Version tx) (if anyone_can_pay hashType then take 1 (drop idx ins) else ins) outs
    (LockTime tx).

Definition sighash_preimage (sigScript : list byte) (hashType : Z) (tx : MsgTx) (idx : nat)
  : list byte :=
  SerializeNoWitness (sighash_copy (removeOpcodeRaw sigScript OP_CODESEPARATOR) hashType tx idx) ++
  PutUint32 hashType.

(** The slice that keeps one input is out of range when there is no such
    input. *)
Definition calcSignatureHash (tx : MsgTx) (idx : nat) (sigScript : list byte) (hashType : Z)
  : Res (list byte) :=
  if (base_type hashType =? SigHashSingle) && (length (TxOuts tx) <=? idx)%nat
  then Ok (1 :: replicate 31 0)
  else if anyone_can_pay hashType && (length (TxIns tx) <=? idx)%nat then Crash
  else Ok (DoubleHashH (sighash_preimage sigScript hashType tx idx)).

(** ** Midstates *)

Definition calcHashPrevOuts (tx : MsgTx) : Hash :=
  HashH (write_list (λ ti, writeOutPoint (PreviousOutPoint ti)) (TxIns tx)).
Definition calcHashSequence (tx : MsgTx) : Hash :=
  HashH (write_list (λ ti, PutUint32 (Sequence ti)) (TxIns tx)).
Definition calcHashOutputs (tx : MsgTx) : Hash := HashH (write_list WriteTxOut (TxOuts tx)).

(** The outputs that the inputs spend; a missing one is dereferenced. *)
Definition fetch_all (fetch : PrevOutputFetcher) (tx : MsgTx) : Res (list TxOut) :=
  match mapM (λ ti, fetch (PreviousOutPoint ti)) (TxIns tx) with
  | Some outs => Ok outs
  | None => Crash
  end.
Definition calcHashInputAmounts (tx : MsgTx) (fetch : PrevOutputFetcher) : Res Hash :=
  outs ← fetch_all fetch tx; Ok (HashH (write_list (λ to, PutInt 8 (Value to)) outs)).
Definition calcHashInputScripts (tx : MsgTx) (fetch : PrevOutputFetcher) : Res Hash :=
  outs ← fetch_all fetch tx; Ok (HashH (write_list (λ to, WriteVarBytes (PkScript to)) outs)).

Record TxSigHashes := mkTxSigHashes {
  HashPrevOutsV0 : Hash; HashSequenceV0 : Hash; HashOutputsV0 : Hash;
  HashPrevOutsV1 : Hash; HashSequenceV1 : Hash; HashOutputsV1 : Hash;
  HashInputScriptsV1 : Hash; HashInputAmountsV1 : Hash
}.

Definition IsPayToTaproot (script : list byte) : bool :=
  (length script =? 34)%nat && (nth_byte script 0 =? OP_1) && (nth_byte script 1 =? OP_DATA_32).

(** The loop that finds out which kinds of inputs there are. *)
Fixpoint input_kinds (fetch : PrevOutputFetcher) (ins : list TxIn) (v0 v1 : bool) : Res (bool * bool) :=
  match ins with
  | [] => Ok (v0, v1)
  | ti :: rest =>
      let op := PreviousOutPoint ti in
      if (op_Index op =? 0xffffffff) && bool_decide (op_Hash op = zeroHash)
      then input_kinds fetch rest true v1
      else
        match fetch op with
        | None => Crash
        | Some prevOut =>
            let '(v0, v1) := if IsPayToTaproot (PkScript prevOut) then (v0, true) else (true, v1) in
            if v0 && v1 then Ok (v0, v1) else input_kinds fetch rest v0 v1
        end
  end.

Definition NewTxSigHashes (tx : MsgTx) (fetch : PrevOutputFetcher) : Res TxSigHashes :=
  kinds ← input_kinds fetch (TxIns tx) false false;
  let '(v0, v1) := kinds in
  let prevOuts := calcHashPrevOuts tx in
  let sequence := calcHashSequence tx in
  let outputs := calcHashOutputs tx in
  let first h := if (v0 : bool) then HashH h else zeroHash in
  taproot ← (if (v1 : bool) then
               amounts ← calcHashInputAmounts tx fetch;
               scripts ← calcHashInputScripts tx fetch;
               Ok (scripts, amounts)
             else Ok (zeroHash, zeroHash));
  Ok (mkTxSigHashes (first prevOuts) (first sequence) (first outputs) prevOuts sequence outputs
        (fst taproot) (snd taproot)).

(** ** Segregated witness, version 0 *)

Definition extractWitnessPubKeyHash (script : list byte) : option (list byte) :=
  if (length script =? 22)%nat && (nth_byte script 0 =? OP_0) && (nth_byte script 1 =? OP_DATA_20)
  then Some (drop 2 script) else None.

Definition witness_preimage (subScript : list byte) (sigHashes : TxSigHashes) (hashType : Z)
    (tx : MsgTx) (idx : nat) (txIn : TxIn) (amt : Z) : list byte :=
  let single := base_type hashType =? SigHashSingle in
  let none := base_type hashType =? SigHashNone in
  PutInt 4 (Version tx) ++
  (if anyone_can_pay hashType then zeroHash else HashPrevOutsV0 sigHashes) ++
  (if negb (anyone_can_pay hashType) && negb single && negb none
   then HashSequenceV0 sigHashes else zeroHash) ++
  writeOutPoint (PreviousOutPoint txIn) ++
  match extractWitnessPubKeyHash subScript with
  | Some h => [0x19; OP_DUP; OP_HASH160; OP_DATA_20] ++ h ++ [OP_EQUALVERIFY; OP_CHECKSIG]
  | None => WriteVarBytes subScript
  end ++
  PutInt 8 amt ++ PutUint32 (Sequence txIn) ++
  (if negb single && negb none then HashOutputsV0 sigHashes
   else match TxOuts tx !! idx with
        | Some out => if single then DoubleHashH (WriteTxOut out) else zeroHash
        | None => zeroHash
        end) ++
  PutUint32 (LockTime tx) ++ PutUint32 hashType.

(** [None]: the error for an index out of range. *)
Definition calcWitnessSignatureHashRaw (subScript : list byte) (sigHashes : TxSigHashes)
    (hashType : Z) (tx : MsgTx) (idx : nat) (amt : Z) : option (list byte) :=
  txIn ← TxIns tx !! idx;
  Some (DoubleHashH (witness_preimage subScript sigHashes hashType tx idx txIn amt)).

(** ** Taproot *)

(** The options: the annex, and for a tapscript the leaf hash and the
    position of the last code separator. *)
Record taprootSigHashOptions := mkSigHashOptions {
  opt_annex : option (list byte);
  opt_tapscript : option (Hash * Z)
}.

Definition isValidTaprootSigHash (hashType : Z) : bool :=
  bool_decide (hashType ∈ [0; 1; 2; 3; 0x81; 0x82; 0x83]).

Definition writeDigestExtensions (opts : taprootSigHashOptions) : list byte :=
  match opt_tapscript opts with
  | Some (leaf, codeSepPos) => leaf ++ [0] ++ PutUint32 codeSepPos
  | None => []
  end.

Definition TagTapSighash : list byte := ascii_bytes "TapSighash".

(** [Ok None]: one of the errors. *)
Definition calcTaprootSignatureHashRaw (sigHashes : TxSigHashes) (hType : Z) (tx : MsgTx)
    (idx : nat) (fetch : PrevOutputFetcher) (opts : taprootSigHashOptions) : Res (option (list byte)) :=
  if negb (isValidTaprootSigHash hType) then Ok None else
  match TxIns tx !! idx with
  | None => Ok None
  | Some input =>
      let acp := Z.land hType SigHashAnyOneCanPay =? SigHashAnyOneCanPay in
      let low := Z.land hType SigHashSingle in
      let annexHash : option Hash := (λ a, HashH (WriteVarBytes a)) <$> opt_annex opts in
      let spendType := match opt_tapscript opts with Some _ => 2 | None => 0 end +
                       match annexHash with Some _ => 1 | None => 0 end in
      own ← (if acp then
               match fetch (PreviousOutPoint input) with
               | None => Crash
               | Some prevOut =>
                   Ok (writeOutPoint (PreviousOutPoint input) ++ WriteTxOut prevOut ++
                       PutUint32 (Sequence input))
               end
             else Ok (PutUint32 (uint32 (Z.of_nat idx))));
      let message output :=
        [0; hType] ++ PutInt 4 (Version tx) ++ PutUint32 (LockTime tx) ++
        (if acp then [] else HashPrevOutsV1 sigHashes ++ HashInputAmountsV1 sigHashes ++
                             HashInputScriptsV1 sigHashes ++ HashSequenceV1 sigHashes) ++
        (if negb (low =? SigHashSingle) && negb (low =? SigHashNone)
         then HashOutputsV1 sigHashes else []) ++
        [spendType] ++ own ++ default [] annexHash ++ output ++ writeDigestExtensions opts in
      let digest output := Ok (Some (TaggedHash TagTapSighash [message output])) in
      if base_type hType =? SigHashSingle then
        match TxOuts tx !! idx with
        | None => Ok None
        | Some txOut => digest (HashH (WriteTxOut txOut))
        end
      else digest []
  end.
End Digests.
