(* ===== verification/SighashFacts.v ===== *)
(** * Bitcoin script: what the digests of signatures commit to

    Also what it means that SHA-256 does not collide on a list of messages,
    which the theorems about digests, merkle roots and script trees assume of
    the messages that they hash. *)

From Stdlib Require Import ZArith Lia.
From stdpp Require Import base numbers list strings.
From S2P Require Import Prelude ScriptNum ScriptNumFacts WireBase WireTx WireTxFacts ScriptToken Sighash.

Open Scope Z_scope.

(** ** Encodings are injective *)

Lemma codec_inj {A} {valid : A → Prop} {enc dec} `{!Codec valid enc dec} x y rest rest' :
  valid x → valid y → enc x ++ rest = enc y ++ rest' → x = y ∧ rest = rest'.
Proof.
  intros Hx Hy He. apply (f_equal dec) in He. rewrite !codec_decode in He by done. by injection He.
Qed.

Lemma write_list_inj {A} {valid : A → Prop} {enc dec} `{!Codec valid enc dec} l l' :
  (∀ x, enc x ≠ []) → Forall valid l → Forall valid l' → write_list enc l = write_list enc l' → l = l'.
Proof.
  intros Hne Hl. revert l'. induction Hl as [|x l Hx Hl IH]; intros [|y l'] Hl'; unfold write_list; cbn [map concat].
  - done.
  - intros He. symmetry in He. apply app_eq_nil in He as [He _]. by apply Hne in He.
  - intros He. apply app_eq_nil in He as [He _]. by apply Hne in He.
  - apply Forall_cons in Hl' as [Hy Hl']. intros [-> He]%(codec_inj x y); [|done..].
    f_equal. by apply IH.
Qed.

Lemma le_put_nonempty w n : le_put (S w) n ≠ [].
Proof. done. Qed.
Lemma writeOutPoint_nonempty op : writeOutPoint op ≠ [].
Proof. unfold writeOutPoint. intros [_ He]%app_eq_nil. by apply le_put_nonempty in He. Qed.
Lemma WriteTxOut_nonempty to : WriteTxOut to ≠ [].
Proof. unfold WriteTxOut, PutInt. intros [He _]%app_eq_nil. by apply le_put_nonempty in He. Qed.

(** An output whose script is short enough fits some buffer. *)
#[export] Instance codec_any_txout : Codec txout_ok WriteTxOut (readTxOut maxWitnessItemSize).
Proof.
  split.
  - intros to rest Ht. apply codec_decode. split; [done|]. destruct Ht as [_ (Hl & _)]. done.
  - intros r to rest Hr Hd. apply codec_canonical in Hd as [[Hv _] He]; [|done]. done.
Qed.

Section Facts.
Context `{Sha}.

(** ** Messages that the hash tells apart

    SHA-256 has collisions, so no statement can exclude them altogether.  A
    computation hashes a finite list of messages, which can be written down;
    what is assumed is that no two of these collide. *)

Definition apart (ms : list (list byte)) : Prop :=
  ∀ x y, x ∈ ms → y ∈ ms → sha256 x = sha256 y → x = y.
(** No digest is zero, the value that stands for nothing. *)
Definition nonzero (ms : list (list byte)) : Prop := ∀ x, x ∈ ms → sha256 x ≠ zeroHash.
(** What [DoubleHashH] hashes. *)
Definition twice (x : list byte) : list (list byte) := [x; sha256 x].

Lemma apart_sub ms ms' : ms' ⊆ ms → apart ms → apart ms'.
Proof. intros Hs Ha x y Hx Hy. apply Ha; by apply Hs. Qed.
Lemma app_sub (l l' ms : list (list byte)) : l ++ l' ⊆ ms ↔ l ⊆ ms ∧ l' ⊆ ms.
Proof.
  split; [intros Hs; split; intros x Hx; apply Hs, elem_of_app; auto|].
  intros [H1 H2] x [Hx|Hx]%elem_of_app; auto.
Qed.
Lemma double_inj ms x y :
  apart ms → twice x ⊆ ms → twice y ⊆ ms → DoubleHashH x = DoubleHashH y → x = y.
Proof.
  intros Ha Hx Hy He. apply Ha in He; [|apply Hx; right; left|apply Hy; right; left].
  apply Ha in He; [done|apply Hx; left|apply Hy; left].
Qed.

(** Both can be computed. *)
Definition apart_check (ms : list (list byte)) : bool :=
  let ds := map (λ x, (x, sha256 x)) ms in
  forallb (λ p, forallb (λ q, negb (bool_decide (snd p = snd q)) || bool_decide (fst p = fst q)) ds) ds.
Lemma apart_checked ms : apart_check ms = true → apart ms.
Proof.
  unfold apart_check. rewrite forallb_forall. intros Hc x y Hx Hy He.
  assert (∀ z, z ∈ ms → In (z, sha256 z) (map (λ x, (x, sha256 x)) ms)) as Hin.
  { intros z Hz. apply in_map_iff. exists z. split; [done|by apply list_elem_of_In]. }
  specialize (Hc _ (Hin x Hx)). rewrite forallb_forall in Hc. specialize (Hc _ (Hin y Hy)). cbn [fst snd] in Hc.
  rewrite bool_decide_true in Hc by done. by apply bool_decide_eq_true in Hc.
Qed.
Definition nonzero_check (ms : list (list byte)) : bool := forallb (λ x, negb (bool_decide (sha256 x = zeroHash))) ms.
Lemma nonzero_checked ms : nonzero_check ms = true → nonzero ms.
Proof.
  unfold nonzero_check. rewrite forallb_forall. intros Hc x Hx%list_elem_of_In. specialize (Hc x Hx).
  by apply negb_true_iff, bool_decide_eq_false in Hc.
Qed.

Lemma DoubleHashH_size x : length (DoubleHashH x) = HashSize.
Proof. apply sha256_size. Qed.

(** ** What a version 0 witness signature commits to *)

(** The script code: for a key hash, the script that it stands for. *)
Definition script_code (subScript : list byte) : list byte :=
  match extractWitnessPubKeyHash subScript with
  | Some h => [OP_DUP; OP_HASH160; OP_DATA_20] ++ h ++ [OP_EQUALVERIFY; OP_CHECKSIG]
  | None => subScript
  end.

Lemma script_code_written s :
  match extractWitnessPubKeyHash s with
  | Some h => [0x19; OP_DUP; OP_HASH160; OP_DATA_20] ++ h ++ [OP_EQUALVERIFY; OP_CHECKSIG]
  | None => WriteVarBytes s
  end = WriteVarBytes (script_code s).
Proof.
  unfold script_code, extractWitnessPubKeyHash.
  destruct (Nat.eqb_spec (length s) 22) as [Hl|]; [|done]. cbn [andb]. destruct (_ && _); [|done].
  unfold WriteVarBytes. rewrite !length_app, length_drop, Hl. done.
Qed.

Definition is_single (hashType : Z) : bool := base_type hashType =? SigHashSingle.
Definition is_none (hashType : Z) : bool := base_type hashType =? SigHashNone.

Record commitment := mkCommitment {
  c_version : Z; c_lockTime : Z; c_hashType : Z;
  c_outPoint : OutPoint; c_sequence : Z; c_amount : Z; c_script : list byte;
  c_prevOuts : list OutPoint; c_sequences : list Z; c_outputs : list TxOut
}.

(** The other inputs are left out with AnyOneCanPay, their sequence numbers
    also with None and Single; with None no output is signed, with Single
    only the output at the input's position. *)
Definition committed (hashType : Z) (tx : MsgTx) (idx : nat) (ti : TxIn) (amt : Z) (script : list byte)
  : commitment :=
  mkCommitment (Version tx) (LockTime tx) hashType (PreviousOutPoint ti) (Sequence ti) amt
    (script_code script)
    (if anyone_can_pay hashType then [] else map PreviousOutPoint (TxIns tx))
    (if anyone_can_pay hashType || is_single hashType || is_none hashType then []
     else map Sequence (TxIns tx))
    (if is_none hashType then [] else if is_single hashType then take 1 (drop idx (TxOuts tx))
     else TxOuts tx).

(** The midstates of the transaction. *)
Definition midstates_of (tx : MsgTx) (h : TxSigHashes) : Prop :=
  HashPrevOutsV0 h = HashH (calcHashPrevOuts tx) ∧ HashSequenceV0 h = HashH (calcHashSequence tx) ∧
  HashOutputsV0 h = HashH (calcHashOutputs tx).

Lemma input_kinds_v0 fetch ins v0 v1 r0 r1 :
  input_kinds fetch ins v0 v1 = Ok (r0, r1) →
  (v0 = true ∨ ∃ ti out, ti ∈ ins ∧ fetch (PreviousOutPoint ti) = Some out ∧ IsPayToTaproot (PkScript out) = false) →
  r0 = true.
Proof.
  revert v0 v1. induction ins as [|ti ins IH]; intros v0 v1; cbn [input_kinds].
  { intros [= -> ->] [?|(ti & out & Hin & _)]; [done|]. by apply not_elem_of_nil in Hin. }
  destruct (_ && bool_decide _). { intros Hk _. by eapply IH; [|left]. }
  destruct (fetch (PreviousOutPoint ti)) as [prev|] eqn:Ef; [|done].
  intros Hk Hv. destruct (IsPayToTaproot (PkScript prev)) eqn:Et; cbn in Hk.
  - assert (v0 = true ∨ ∃ ti out, ti ∈ ins ∧ fetch (PreviousOutPoint ti) = Some out ∧
      IsPayToTaproot (PkScript out) = false) as Hv'.
    { destruct Hv as [?|(ti' & out & [->|Hin]%elem_of_cons & Hf & Ht)]; [by left|congruence|right; eauto]. }
    destruct v0; cbn in Hk; [by injection Hk|by eapply IH].
  - destruct v1; cbn in Hk; [by injection Hk as <- <-|]. by eapply IH; [|left].
Qed.

Lemma NewTxSigHashes_midstates tx fetch h ti out :
  NewTxSigHashes tx fetch = Ok h → ti ∈ TxIns tx → fetch (PreviousOutPoint ti) = Some out →
  IsPayToTaproot (PkScript out) = false → midstates_of tx h.
Proof.
  intros Hn Hti Hf Ht. unfold NewTxSigHashes, mbind, Res_bind in Hn.
  destruct (input_kinds fetch (TxIns tx) false false) as [[v0 v1]| |] eqn:Ek; [|done..].
  apply input_kinds_v0 in Ek as ->; [|right; eauto 6].
  destruct v1; [|by injection Hn as <-].
  destruct (calcHashInputAmounts tx fetch); [|done..]. destruct (calcHashInputScripts tx fetch); [|done..].
  by injection Hn as <-.
Qed.

(** A digest that is asked for: an input of a well-formed transaction, with
    a script, an amount and a hash type of their widths. *)
Record signing (tx : MsgTx) (idx : nat) (ti : TxIn) (h : TxSigHashes) (script : list byte) (amt hashType : Z) : Prop := {
  sg_version : signed 4 (Version tx);
  sg_ins : Forall txin_ok (TxIns tx);
  sg_outs : Forall txout_ok (TxOuts tx);
  sg_lock : unsigned 4 (LockTime tx);
  sg_input : TxIns tx !! idx = Some ti;
  sg_mid : midstates_of tx h;
  sg_script : short_bytes (2 ^ 63) script;
  sg_amt : signed 8 amt;
  sg_type : unsigned 4 hashType
}.

Lemma script_code_short s : short_bytes (2 ^ 63) s → short_bytes (2 ^ 63) (script_code s).
Proof.
  intros (Hl & Hb & Hm). unfold script_code, extractWitnessPubKeyHash.
  destruct (Nat.eqb_spec (length s) 22) as [H22|]; [|done]. cbn [andb]. destruct (_ && _); [|done].
  unfold short_bytes. rewrite !length_app, length_drop, H22. split_and!; [cbn; lia| |cbn; lia].
  repeat (apply Forall_app; split); [|by apply Forall_drop|];
    repeat (apply Forall_cons_2; [by vm_compute|]); apply Forall_nil_2.
Qed.

Definition prevouts_field (hashType : Z) (h : TxSigHashes) : Hash :=
  if anyone_can_pay hashType then zeroHash else HashPrevOutsV0 h.
Definition sequence_field (hashType : Z) (h : TxSigHashes) : Hash :=
  if negb (anyone_can_pay hashType) && negb (is_single hashType) && negb (is_none hashType)
  then HashSequenceV0 h else zeroHash.
Definition outputs_field (hashType : Z) (tx : MsgTx) (idx : nat) (h : TxSigHashes) : Hash :=
  if negb (is_single hashType) && negb (is_none hashType) then HashOutputsV0 h
  else match TxOuts tx !! idx with
       | Some out => if is_single hashType then DoubleHashH (WriteTxOut out) else zeroHash
       | None => zeroHash
       end.

Lemma fields_size tx idx ti h script amt ht :
  signing tx idx ti h script amt ht →
  length (prevouts_field ht h) = HashSize ∧ length (sequence_field ht h) = HashSize ∧
  length (outputs_field ht tx idx h) = HashSize.
Proof.
  intros [_ _ _ _ _ (Hp & Hs & Ho) _ _ _].
  unfold prevouts_field, sequence_field, outputs_field. rewrite Hp, Hs, Ho.
  split_and!; repeat case_match; first [apply DoubleHashH_size | apply (sha256_size _) | done].
Qed.

(** Equal messages have equal fields. *)
Lemma preimage_fields tx idx ti h script amt ht tx' idx' ti' h' script' amt' ht' :
  signing tx idx ti h script amt ht → signing tx' idx' ti' h' script' amt' ht' →
  witness_preimage script h ht tx idx ti amt = witness_preimage script' h' ht' tx' idx' ti' amt' →
  (Version tx = Version tx' ∧ PreviousOutPoint ti = PreviousOutPoint ti' ∧
   script_code script = script_code script' ∧ amt = amt' ∧ Sequence ti = Sequence ti' ∧
   LockTime tx = LockTime tx' ∧ ht = ht') ∧
  prevouts_field ht h = prevouts_field ht' h' ∧ sequence_field ht h = sequence_field ht' h' ∧
  outputs_field ht tx idx h = outputs_field ht' tx' idx' h'.
Proof.
  intros Hg Hg'. destruct (fields_size _ _ _ _ _ _ _ Hg) as (L1 & L2 & L3).
  destruct (fields_size _ _ _ _ _ _ _ Hg') as (L1' & L2' & L3').
  destruct Hg as [Hv Hi _ Hl Hti _ Hs Ha Ht], Hg' as [Hv' Hi' _ Hl' Hti' _ Hs' Ha' Ht'].
  rewrite Forall_lookup in Hi, Hi'. specialize (Hi _ _ Hti) as (Hop & _ & Hq).
  specialize (Hi' _ _ Hti') as (Hop' & _ & Hq').
  apply script_code_short in Hs, Hs'. unfold witness_preimage. rewrite !script_code_written. cbv zeta.
  fold (is_single ht) (is_none ht) (is_single ht') (is_none ht').
  fold (prevouts_field ht h) (prevouts_field ht' h') (sequence_field ht h) (sequence_field ht' h')
    (outputs_field ht tx idx h) (outputs_field ht' tx' idx' h').
  intros He. apply codec_inj in He as [H1 He]; [|done..].
  apply app_inj_1 in He as [H2 He]; [|congruence]. apply app_inj_1 in He as [H3 He]; [|congruence].
  apply codec_inj in He as [H4 He]; [|done..].
  apply (codec_inj (dec := ReadVarBytes (2 ^ 63))) in He as [H5 He]; [|done..].
  apply codec_inj in He as [H6 He]; [|done..].
  apply (codec_inj (dec := Uint32)) in He as [H7 He]; [|done..].
  apply app_inj_1 in He as [H8 He]; [|congruence].
  apply (codec_inj (dec := Uint32)) in He as [H9 He]; [|done..].
  rewrite <- (app_nil_r (PutUint32 ht)), <- (app_nil_r (PutUint32 ht')) in He.
  by apply (codec_inj (dec := Uint32)) in He as [H10 He].
Qed.

(** The three fields that are digests. *)
Lemma write_map_inj {A B} {valid : B → Prop} {enc : B → list byte} {dec} `{!Codec valid enc dec}
    ms (f : A → B) (l l' : list A) :
  apart ms → twice (write_list (λ x, enc (f x)) l) ⊆ ms → twice (write_list (λ x, enc (f x)) l') ⊆ ms →
  (∀ x, enc x ≠ []) → Forall (λ x, valid (f x)) l → Forall (λ x, valid (f x)) l' →
  HashH (HashH (write_list (λ x, enc (f x)) l)) = HashH (HashH (write_list (λ x, enc (f x)) l')) →
  map f l = map f l'.
Proof.
  intros Ha Hm Hm' Hne Hl Hl' He%(double_inj ms); [|done..].
  unfold write_list in He. rewrite <- !(map_map f enc) in He.
  eapply write_list_inj; [exact Hne|by apply Forall_map..|exact He].
Qed.

Lemma take1_drop {A} i (l : list A) : take 1 (drop i l) = option_list (l !! i).
Proof. revert i. induction l as [|x l IH]; intros [|i]; [done..|apply IH]. Qed.

(** *** What is hashed on the way to a digest *)

Definition prevouts_bytes (tx : MsgTx) : list byte := write_list (λ ti, writeOutPoint (PreviousOutPoint ti)) (TxIns tx).
Definition sequences_bytes (tx : MsgTx) : list byte := write_list (λ ti, PutUint32 (Sequence ti)) (TxIns tx).
Definition outputs_bytes (tx : MsgTx) : list byte := write_list WriteTxOut (TxOuts tx).
Definition digest_messages (tx : MsgTx) (idx : nat) (ti : TxIn) (h : TxSigHashes) (script : list byte) (amt ht : Z)
    : list (list byte) :=
  twice (witness_preimage script h ht tx idx ti amt) ++ twice (prevouts_bytes tx) ++ twice (sequences_bytes tx) ++
  twice (outputs_bytes tx) ++ match TxOuts tx !! idx with Some out => twice (WriteTxOut out) | None => [] end.

Lemma outputs_inj ms tx idx ti h script amt ht tx' idx' ti' h' script' amt' :
  apart ms → nonzero ms →
  digest_messages tx idx ti h script amt ht ⊆ ms → digest_messages tx' idx' ti' h' script' amt' ht ⊆ ms →
  signing tx idx ti h script amt ht → signing tx' idx' ti' h' script' amt' ht →
  outputs_field ht tx idx h = outputs_field ht tx' idx' h' →
  c_outputs (committed ht tx idx ti amt script) = c_outputs (committed ht tx' idx' ti' amt' script').
Proof.
  intros Hap Hnz Hm Hm' [_ _ Ho _ _ (_ & _ & Hmid) _ _ _] [_ _ Ho' _ _ (_ & _ & Hmid') _ _ _]. cbn [c_outputs committed].
  unfold outputs_field. destruct (is_none ht); [done|]. rewrite andb_true_r.
  unfold digest_messages in Hm, Hm'. rewrite !app_sub in Hm, Hm'. destruct Hm as (_ & _ & _ & Hmo & Hm1), Hm' as (_ & _ & _ & Hmo' & Hm1').
  destruct (is_single ht); cbn [negb].
  - rewrite !take1_drop. rewrite Forall_lookup in Ho, Ho'.
    destruct (TxOuts tx !! idx) as [o|] eqn:E, (TxOuts tx' !! idx') as [o'|] eqn:E'; cbn [option_list]; [| | |done].
    + intros He%(double_inj ms); [|done..]. f_equal.
      rewrite <- (app_nil_r (WriteTxOut o)), <- (app_nil_r (WriteTxOut o')) in He.
      by apply codec_inj in He as [-> _]; [|by eapply Ho|by eapply Ho'].
    + intros He. destruct (Hnz (sha256 (WriteTxOut o))); [|done]. apply Hm1. by right; left.
    + intros He. destruct (Hnz (sha256 (WriteTxOut o'))); [|done]. apply Hm1'. by right; left.
  - rewrite Hmid, Hmid'. intros He%(double_inj ms); [|done..].
    eapply write_list_inj; [apply WriteTxOut_nonempty|done..].
Qed.

(** C29. Equal digests of two version 0 witness inputs, under any hash types,
    commit to the same version, lock time, hash type, spent output with its
    amount, script code and sequence number, and to the same other inputs
    and outputs as far as the hash type includes them; provided that SHA-256
    does not collide on the messages that the two digests hash (the listed
    preimages, inputs, sequence numbers and outputs, and their digests) and
    that none of them has the digest zero. *)
Theorem witness_digest_binding tx idx ti fetch h out script amt ht tx' idx' ti' fetch' h' out' script' amt' ht' d :
  tx_ok WitnessEncoding tx → tx_ok WitnessEncoding tx' →
  NewTxSigHashes tx fetch = Ok h → NewTxSigHashes tx' fetch' = Ok h' →
  TxIns tx !! idx = Some ti → TxIns tx' !! idx' = Some ti' →
  fetch (PreviousOutPoint ti) = Some out → fetch' (PreviousOutPoint ti') = Some out' →
  IsPayToTaproot (PkScript out) = false → IsPayToTaproot (PkScript out') = false →
  short_bytes (2 ^ 63) script → short_bytes (2 ^ 63) script' →
  signed 8 amt → signed 8 amt' → unsigned 4 ht → unsigned 4 ht' →
  let hashed := digest_messages tx idx ti h script amt ht ++ digest_messages tx' idx' ti' h' script' amt' ht' in
  apart hashed → nonzero hashed →
  calcWitnessSignatureHashRaw script h ht tx idx amt = Some d →
  calcWitnessSignatureHashRaw script' h' ht' tx' idx' amt' = Some d →
  committed ht tx idx ti amt script = committed ht' tx' idx' ti' amt' script'.
Proof.
  intros (V & I & O & L & _) (V' & I' & O' & L' & _) Hn Hn' Hi Hi' Hf Hf' Ht Ht' Hs Hs' Ha Ha' Hty Hty' ms Hap Hnz Hd Hd'.
  pose proof (list_elem_of_lookup_2 _ _ _ Hi) as Hin. pose proof (list_elem_of_lookup_2 _ _ _ Hi') as Hin'.
  pose proof (NewTxSigHashes_midstates _ _ _ _ _ Hn Hin Hf Ht) as M.
  pose proof (NewTxSigHashes_midstates _ _ _ _ _ Hn' Hin' Hf' Ht') as M'.
  assert (signing tx idx ti h script amt ht) as G by by constructor.
  assert (signing tx' idx' ti' h' script' amt' ht') as G' by by constructor.
  assert (digest_messages tx idx ti h script amt ht ⊆ ms ∧ digest_messages tx' idx' ti' h' script' amt' ht' ⊆ ms) as [S S'] by by apply app_sub.
  clearbody ms. unfold calcWitnessSignatureHashRaw in Hd, Hd'. rewrite Hi in Hd. rewrite Hi' in Hd'. cbn in Hd, Hd'.
  injection Hd as <-. injection Hd' as He. symmetry in He. pose proof S as T. pose proof S' as T'. unfold digest_messages in T, T'.
  rewrite !app_sub in T, T'. destruct T as (T1 & T2 & T3 & _), T' as (T1' & T2' & T3' & _).
  apply (double_inj ms) in He; [|done..].
  destruct (preimage_fields _ _ _ _ _ _ _ _ _ _ _ _ _ _ G G' He)
    as ((Ev & Eo & Es & Ea & Eq & El & <-) & Fp & Fs & Fo).
  pose proof (outputs_inj ms _ _ _ _ _ _ _ _ _ _ _ _ _ Hap Hnz S S' G G' Fo) as Co.
  destruct M as (Mp & Ms & _), M' as (Mp' & Ms' & _).
  assert (c_prevOuts (committed ht tx idx ti amt script) = c_prevOuts (committed ht tx' idx' ti' amt' script')) as Cp.
  { cbn [c_prevOuts committed]. unfold prevouts_field in Fp. destruct (anyone_can_pay ht); [done|].
    rewrite Mp, Mp' in Fp. eapply (write_map_inj ms); [done| | |apply writeOutPoint_nonempty| | |exact Fp].
    1, 2: done.
    all: eapply Forall_impl; [eassumption|]; by intros x (Hx & _). }
  assert (c_sequences (committed ht tx idx ti amt script) = c_sequences (committed ht tx' idx' ti' amt' script')) as Cs.
  { cbn [c_sequences committed]. unfold sequence_field in Fs.
    destruct (anyone_can_pay ht); [done|]. destruct (is_single ht); [done|].
    destruct (is_none ht); [done|]. cbn in *. rewrite Ms, Ms' in Fs.
    eapply (write_map_inj (dec := Uint32) ms); [done| | |apply (le_put_nonempty 3)| | |exact Fs].
    1, 2: done.
    all: eapply Forall_impl; [eassumption|]; by intros x (_ & _ & Hx). }
  cbn in Co, Cp, Cs. unfold committed. congruence.
Qed.
End Facts.
