(* ===== verification/GoHash.v ===== *)
(** * SHA-256, as the package crypto/sha256 computes it

    An executable instance of the interface [Sha] through which the digests
    of transactions, blocks and messages are stated.  The theorems about the
    digests hold for every instance; this one makes them computable on
    concrete inputs, and is checked against published vectors. *)

From Stdlib Require Import ZArith Lia String.
From stdpp Require Import base numbers list.
From S2P Require Import Prelude ScriptNum ScriptNumFacts WireBase WireTx Sighash.

Open Scope Z_scope.

Definition add32 (a b : Z) : Z := Z.land (a + b) 0xffffffff.
Definition rotr (n x : Z) : Z := Z.lor (Z.shiftr x n) (Z.land (Z.shiftl x (32 - n)) 0xffffffff).

(** The constants are the first 32 bits of the fractional parts of roots of
    the first primes: cube roots for the rounds, square roots for the state. *)
Definition is_prime (n : Z) : bool :=
  forallb (λ d, negb (n mod Z.of_nat d =? 0)) (seq 2 (Z.to_nat (Z.sqrt n) - 1)).
Definition sha_primes : list Z :=
  Eval vm_compute in List.filter is_prime (map Z.of_nat (seq 2 310)).
(** The integer cube root, bit by bit. *)
Fixpoint cbrt_bits (bits : nat) (n r : Z) : Z :=
  match bits with
  | O => r
  | S k => let r' := r + 2 ^ Z.of_nat k in cbrt_bits k n (if r' * r' * r' <=? n then r' else r)
  end.
Definition sha_K : list Z :=
  Eval vm_compute in map (λ p, cbrt_bits 40 (p * 2 ^ 96) 0 mod 2 ^ 32) sha_primes.

(** The eight words of the state. *)
Record sha_state := mkSha { ha : Z; hb : Z; hc : Z; hd : Z; he : Z; hf : Z; hg : Z; hh : Z }.
Definition sha_init : sha_state :=
  Eval vm_compute in
  let w (i : nat) := Z.sqrt (nth i sha_primes 0 * 2 ^ 64) mod 2 ^ 32 in
  mkSha (w 0%nat) (w 1%nat) (w 2%nat) (w 3%nat) (w 4%nat) (w 5%nat) (w 6%nat) (w 7%nat).

(** One round, with the sum of the round's constant and word. *)
Definition sha_round (s : sha_state) (kw : Z) : sha_state :=
  let S1 := Z.lxor (rotr 6 (he s)) (Z.lxor (rotr 11 (he s)) (rotr 25 (he s))) in
  let ch := Z.lxor (Z.land (he s) (hf s)) (Z.land (Z.lxor (he s) 0xffffffff) (hg s)) in
  let t1 := add32 (hh s + S1 + ch) kw in
  let S0 := Z.lxor (rotr 2 (ha s)) (Z.lxor (rotr 13 (ha s)) (rotr 22 (ha s))) in
  let maj := Z.lxor (Z.land (ha s) (hb s)) (Z.lxor (Z.land (ha s) (hc s)) (Z.land (hb s) (hc s))) in
  mkSha (add32 t1 (S0 + maj)) (ha s) (hb s) (hc s) (add32 (hd s) t1) (he s) (hf s) (hg s).

(** The schedule: a window of the last sixteen words, oldest first. *)
Definition sha_next (w : list Z) : Z :=
  let w15 := nth 1 w 0 in
  let w2 := nth 14 w 0 in
  let s0 := Z.lxor (rotr 7 w15) (Z.lxor (rotr 18 w15) (Z.shiftr w15 3)) in
  let s1 := Z.lxor (rotr 17 w2) (Z.lxor (rotr 19 w2) (Z.shiftr w2 10)) in
  add32 (nth 0 w 0 + s0) (nth 9 w 0 + s1).
Fixpoint sha_rounds (ks : list Z) (w : list Z) (s : sha_state) : sha_state :=
  match ks with
  | [] => s
  | k :: ks' => sha_rounds ks' (List.tl w ++ [sha_next w]) (sha_round s (k + nth 0 w 0))
  end.

Definition be_word (b : list Z) : Z := fold_left (λ a x, a * 256 + x) b 0.
Fixpoint words (n : nat) (b : list Z) : list Z :=
  match n with O => [] | S n' => be_word (take 4 b) :: words n' (drop 4 b) end.
Definition sha_block (s : sha_state) (b : list Z) : sha_state :=
  let r := sha_rounds sha_K (words 16 b) s in
  mkSha (add32 (ha s) (ha r)) (add32 (hb s) (hb r)) (add32 (hc s) (hc r)) (add32 (hd s) (hd r))
        (add32 (he s) (he r)) (add32 (hf s) (hf r)) (add32 (hg s) (hg r)) (add32 (hh s) (hh r)).
Fixpoint sha_blocks (n : nat) (s : sha_state) (b : list Z) : sha_state :=
  match n with O => s | S n' => sha_blocks n' (sha_block s (take 64 b)) (drop 64 b) end.

(** The big-endian bytes of a number. *)
Definition be_bytes (n : nat) (x : Z) : list Z := rev (le_put n x).
Definition sha_pad (b : list Z) : list Z :=
  let n := length b in
  let k := ((64 - (n + 9) mod 64) mod 64)%nat in
  b ++ 0x80 :: replicate k 0 ++ be_bytes 8 (8 * Z.of_nat n).
Definition sha256_sum (b : list Z) : list Z :=
  let p := sha_pad b in
  let s := sha_blocks (length p / 64) sha_init p in
  be_bytes 4 (ha s) ++ be_bytes 4 (hb s) ++ be_bytes 4 (hc s) ++ be_bytes 4 (hd s) ++
  be_bytes 4 (he s) ++ be_bytes 4 (hf s) ++ be_bytes 4 (hg s) ++ be_bytes 4 (hh s).

Lemma be_bytes_ok n x : length (be_bytes n x) = n ∧ Forall is_byte (be_bytes n x).
Proof.
  unfold be_bytes. rewrite length_rev, le_put_length. split; [done|].
  apply Forall_rev, le_put_bytes.
Qed.
Lemma sha256_sum_size b : bytes_of_len HashSize (sha256_sum b).
Proof.
  unfold bytes_of_len, sha256_sum. rewrite !length_app, !(proj1 (be_bytes_ok _ _)).
  split; [done|]. rewrite !Forall_app. split_and!; apply be_bytes_ok.
Qed.

#[export] Instance go_Sha : Sha := {| sha256 := sha256_sum; sha256_size := sha256_sum_size |}.

(** The digest of the three letters abc, and of a message of two blocks. *)
Example sha256_abc :
  sha256 (ascii_bytes "abc") =
  [0xba; 0x78; 0x16; 0xbf; 0x8f; 0x01; 0xcf; 0xea; 0x41; 0x41; 0x40; 0xde; 0x5d; 0xae; 0x22; 0x23;
   0xb0; 0x03; 0x61; 0xa3; 0x96; 0x17; 0x7a; 0x9c; 0xb4; 0x10; 0xff; 0x61; 0xf2; 0x00; 0x15; 0xad].
Proof. vm_compute. reflexivity. Qed.
Example sha256_two_blocks :
  sha256 (ascii_bytes "abcdbcdecdefdefgefghfghighijhijkijkljklmklmnlmnomnopnopq") =
  [0x24; 0x8d; 0x6a; 0x61; 0xd2; 0x06; 0x38; 0xb8; 0xe5; 0xc0; 0x26; 0x93; 0x0c; 0x3e; 0x60; 0x39;
   0xa3; 0x3c; 0xe4; 0x59; 0x64; 0xff; 0x21; 0x67; 0xf6; 0xec; 0xed; 0xd4; 0x19; 0xdb; 0x06; 0xc1].
Proof. vm_compute. reflexivity. Qed.
