(* ===== verification/WireMsg.v ===== *)
(** * Wire protocol: blocks, inventories and the other messages

    The message types of btcd/wire: blockheader.go, msgblock.go, invvect.go,
    netaddress.go, netaddressv2.go and the msg*.go files.  Times are seconds
    since 1970 (an encoded time has no more).  An encoder gives the bytes or
    the error of its guards; a decoder is a reader. *)

From Stdlib Require Import ZArith Lia.
From stdpp Require Import base numbers list strings.
From S2P Require Import Prelude GoStrings ScriptNum WireBase WireTx Sighash.

Open Scope Z_scope.

(** A guard of an encoder. *)
Definition enc_guard (b : bool) (func : string) (bytes : WRes (list byte)) : WRes (list byte) :=
  if b then WErr (MessageError func) else bytes.

(** ** protocol.go *)

Definition ProtocolVersion : Z := 70016.
Definition MultipleAddressVersion : Z := 209.
Definition NetAddressTimeVersion : Z := 31402.
Definition BIP0031Version : Z := 60000.
Definition BIP0035Version : Z := 60002.
Definition BIP0037Version : Z := 70001.
Definition RejectVersion : Z := 70002.
Definition SendHeadersVersion : Z := 70012.
Definition FeeFilterVersion : Z := 70013.
Definition MaxVarIntPayload : Z := 9.

(** ** Block headers and blocks *)

Record BlockHeader := mkBlockHeader {
  bh_Version : Z;                                 (* int32 *)
  PrevBlock : Hash;
  MerkleRoot : Hash;
  bh_Timestamp : Z;                               (* seconds *)
  Bits : Z;                                       (* uint32 *)
  bh_Nonce : Z                                    (* uint32 *)
}.

Definition blockHeaderLen : Z := 80.
Definition MaxBlockHeaderPayload : Z := 16 + 32 * 2.

Definition readBlockHeader : Reader BlockHeader :=
  version ← ReadInt 4;
  prevBlock ← ReadFull HashSize;
  merkleRoot ← ReadFull HashSize;
  timestamp ← Uint32;
  bits ← Uint32;
  nonce ← Uint32;
  mret (mkBlockHeader version prevBlock merkleRoot timestamp bits nonce).
Definition writeBlockHeader (bh : BlockHeader) : list byte :=
  PutInt 4 (bh_Version bh) ++ Write (PrevBlock bh) ++ Write (MerkleRoot bh) ++
  PutUint32 (uint32 (bh_Timestamp bh)) ++ PutUint32 (Bits bh) ++ PutUint32 (bh_Nonce bh).

Record MsgBlock := mkMsgBlock { Header : BlockHeader; Transactions : list MsgTx }.

Definition MaxBlockPayload : Z := 4000000.
Definition minTxPayload : Z := 10.
Definition maxTxPerBlock : Z := MaxBlockPayload / minTxPayload + 1.

Definition AddTransaction (tx : MsgTx) (msg : MsgBlock) : MsgBlock :=
  mkMsgBlock (Header msg) (Transactions msg ++ [tx]).
Definition ClearTransactions (msg : MsgBlock) : MsgBlock := mkMsgBlock (Header msg) [].

Definition MsgBlock_BtcDecode (enc : MessageEncoding) : Reader MsgBlock :=
  header ← readBlockHeader;
  txs ← read_counted maxTxPerBlock (MessageError "MsgBlock.BtcDecode") (btcDecode enc);
  mret (mkMsgBlock header txs).
Definition MsgBlock_BtcEncode (enc : MessageEncoding) (msg : MsgBlock) : list byte :=
  writeBlockHeader (Header msg) ++ write_counted (btcEncode enc) (Transactions msg).

(** [DeserializeTxLoc]: where each transaction starts, and its length, from
    the number of bytes left before and after it. *)
Record TxLoc := mkTxLoc { TxStart : Z; TxLen : Z }.
Fixpoint read_txlocs (n : nat) (fullLen : Z) : Reader (list (TxLoc * MsgTx)) := λ r,
  match n with
  | O => WOk ([], r)
  | S k =>
      match btcDecode WitnessEncoding r with
      | WOk (tx, r') =>
          let start := fullLen - zlen r in
          match read_txlocs k fullLen r' with
          | WOk (l, r'') => WOk ((mkTxLoc start (fullLen - zlen r' - start), tx) :: l, r'')
          | WErr e => WErr e
          | WPanic => WPanic
          end
      | WErr e => WErr e
      | WPanic => WPanic
      end
  end.
Definition DeserializeTxLoc : Reader (MsgBlock * list TxLoc) := λ r,
  let fullLen := zlen r in
  (header ← readBlockHeader;
   txCount ← ReadVarInt;
   guard_rd (maxTxPerBlock <? txCount) (MessageError "MsgBlock.DeserializeTxLoc");;
   l ← read_txlocs (Z.to_nat txCount) fullLen;
   mret (mkMsgBlock header (map snd l), map fst l)) r.

Definition MsgBlock_SerializeSize (msg : MsgBlock) : Z :=
  blockHeaderLen + VarIntSerializeSize (zlen (Transactions msg)) +
  total SerializeSize (Transactions msg).
Definition MsgBlock_SerializeSizeStripped (msg : MsgBlock) : Z :=
  blockHeaderLen + VarIntSerializeSize (zlen (Transactions msg)) +
  total SerializeSizeStripped (Transactions msg).

Section BlockHashes.
Context `{Sha}.
Definition BlockHash (bh : BlockHeader) : Hash := DoubleHashH (writeBlockHeader bh).
Definition TxHashes (msg : MsgBlock) : list Hash := map TxHash (Transactions msg).
End BlockHashes.

(** ** Inventories *)

Record InvVect := mkInvVect { iv_Type : Z; (* uint32 *) iv_Hash : Hash }.
Definition MaxInvPerMsg : Z := 50000.
Definition maxInvVectPayload : Z := 4 + 32.
Definition InvWitnessFlag : Z := 2 ^ 30.
Definition InvTypeTx : Z := 1.
Definition InvTypeBlock : Z := 2.
Definition InvTypeFilteredBlock : Z := 3.
Definition InvTypeWitnessBlock : Z := Z.lor InvTypeBlock InvWitnessFlag.
Definition InvTypeWitnessTx : Z := Z.lor InvTypeTx InvWitnessFlag.

Definition readInvVect : Reader InvVect :=
  type ← Uint32; hash ← ReadFull HashSize; mret (mkInvVect type hash).
Definition writeInvVect (iv : InvVect) : list byte :=
  PutUint32 (iv_Type iv) ++ Write (iv_Hash iv).

(** The three messages that carry inventories. *)
Definition inv_decode (func : string) : Reader (list InvVect) :=
  read_counted MaxInvPerMsg (MessageError func) readInvVect.
Definition inv_encode (func : string) (l : list InvVect) : WRes (list byte) :=
  enc_guard (MaxInvPerMsg <? zlen l) func (WOk (write_counted writeInvVect l)).
Definition inv_MaxPayload : Z := MaxVarIntPayload + MaxInvPerMsg * maxInvVectPayload.

Definition MsgInv_BtcDecode : Reader (list InvVect) := inv_decode "MsgInv.BtcDecode".
Definition MsgInv_BtcEncode : list InvVect → WRes (list byte) := inv_encode "MsgInv.BtcEncode".
Definition MsgGetData_BtcDecode : Reader (list InvVect) := inv_decode "MsgGetData.BtcDecode".
Definition MsgGetData_BtcEncode : list InvVect → WRes (list byte) := inv_encode "MsgGetData.BtcEncode".
Definition MsgNotFound_BtcDecode : Reader (list InvVect) := inv_decode "MsgNotFound.BtcDecode".
Definition MsgNotFound_BtcEncode : list InvVect → WRes (list byte) := inv_encode "MsgNotFound.BtcEncode".

(** [AddInvVect] of the three messages. *)
Definition AddInvVect (func : string) (iv : InvVect) (l : list InvVect) : WRes (list InvVect) :=
  if MaxInvPerMsg <? zlen l + 1 then WErr (MessageError func) else WOk (l ++ [iv]).

(** ** Headers *)

Definition MaxBlockHeadersPerMsg : Z := 2000.

(** A header with the count of its transactions, which has to be zero. *)
Definition read_empty_block : Reader BlockHeader :=
  bh ← readBlockHeader;
  txCount ← ReadVarInt;
  guard_rd (0 <? txCount) (MessageError "MsgHeaders.BtcDecode");;
  mret bh.
Definition write_empty_block (bh : BlockHeader) : list byte := writeBlockHeader bh ++ WriteVarInt 0.

Definition MsgHeaders_BtcDecode : Reader (list BlockHeader) :=
  read_counted MaxBlockHeadersPerMsg (MessageError "MsgHeaders.BtcDecode") read_empty_block.
Definition MsgHeaders_BtcEncode (l : list BlockHeader) : WRes (list byte) :=
  enc_guard (MaxBlockHeadersPerMsg <? zlen l) "MsgHeaders.BtcEncode"
    (WOk (write_counted write_empty_block l)).
Definition AddBlockHeader (bh : BlockHeader) (l : list BlockHeader) : WRes (list BlockHeader) :=
  if MaxBlockHeadersPerMsg <? zlen l + 1 then WErr (MessageError "MsgHeaders.AddBlockHeader")
  else WOk (l ++ [bh]).

(** ** Locators: getblocks and getheaders have the same fields *)

Record Locator := mkLocator {
  lo_ProtocolVersion : Z;                         (* uint32 *)
  BlockLocatorHashes : list Hash;
  HashStop : Hash
}.
Definition MaxBlockLocatorsPerMsg : Z := 500.

Definition locator_decode (func : string) : Reader Locator :=
  pver ← Uint32;
  hashes ← read_counted MaxBlockLocatorsPerMsg (MessageError func) (ReadFull HashSize);
  stop ← ReadFull HashSize;
  mret (mkLocator pver hashes stop).
Definition locator_encode (func : string) (m : Locator) : WRes (list byte) :=
  enc_guard (MaxBlockLocatorsPerMsg <? zlen (BlockLocatorHashes m)) func
    (WOk (PutUint32 (lo_ProtocolVersion m) ++ write_counted Write (BlockLocatorHashes m) ++
          Write (HashStop m))).
Definition locator_MaxPayload : Z := 4 + MaxVarIntPayload + MaxBlockLocatorsPerMsg * 32 + 32.

Definition MsgGetBlocks_BtcDecode : Reader Locator := locator_decode "MsgGetBlocks.BtcDecode".
Definition MsgGetBlocks_BtcEncode : Locator → WRes (list byte) := locator_encode "MsgGetBlocks.BtcEncode".
Definition MsgGetHeaders_BtcDecode : Reader Locator := locator_decode "MsgGetHeaders.BtcDecode".
Definition MsgGetHeaders_BtcEncode : Locator → WRes (list byte) := locator_encode "MsgGetHeaders.BtcEncode".
Definition AddBlockLocatorHash (func : string) (h : Hash) (m : Locator) : WRes Locator :=
  if MaxBlockLocatorsPerMsg <? zlen (BlockLocatorHashes m) + 1 then WErr (MessageError func)
  else WOk (mkLocator (lo_ProtocolVersion m) (BlockLocatorHashes m ++ [h]) (HashStop m)).

(** ** Pings, fees and messages without a payload *)

(** Without a nonce on the wire the empty message keeps its zero. *)
Definition MsgPing_BtcDecode (pver : Z) : Reader Z :=
  if BIP0031Version <? pver then Uint64 else mret 0.
Definition MsgPing_BtcEncode (pver nonce : Z) : WRes (list byte) :=
  WOk (if BIP0031Version <? pver then PutUint64 nonce else []).
Definition nonce_MaxPayload (pver : Z) : Z := if BIP0031Version <? pver then 8 else 0.

Definition MsgPong_BtcDecode (pver : Z) : Reader Z :=
  guard_rd (pver <=? BIP0031Version) (MessageError "MsgPong.BtcDecode");; Uint64.
Definition MsgPong_BtcEncode (pver nonce : Z) : WRes (list byte) :=
  enc_guard (pver <=? BIP0031Version) "MsgPong.BtcEncode" (WOk (PutUint64 nonce)).

Definition MsgFeeFilter_BtcDecode (pver : Z) : Reader Z :=
  guard_rd (pver <? FeeFilterVersion) (MessageError "MsgFeeFilter.BtcDecode");; ReadInt 8.
Definition MsgFeeFilter_BtcEncode (pver minFee : Z) : WRes (list byte) :=
  enc_guard (pver <? FeeFilterVersion) "MsgFeeFilter.BtcEncode" (WOk (PutInt 8 minFee)).

(** A message without a payload, from a protocol version on. *)
Definition bare_decode (since : Z) (func : string) (pver : Z) : Reader () :=
  guard_rd (pver <? since) (MessageError func);; mret ().
Definition bare_encode (since : Z) (func : string) (pver : Z) : WRes (list byte) :=
  enc_guard (pver <? since) func (WOk []).
Definition MsgSendHeaders_BtcDecode := bare_decode SendHeadersVersion "MsgSendHeaders.BtcDecode".
Definition MsgSendHeaders_BtcEncode := bare_encode SendHeadersVersion "MsgSendHeaders.BtcEncode".
Definition MsgMemPool_BtcDecode := bare_decode BIP0035Version "MsgMemPool.BtcDecode".
Definition MsgMemPool_BtcEncode := bare_encode BIP0035Version "MsgMemPool.BtcEncode".
Definition MsgFilterClear_BtcDecode := bare_decode BIP0037Version "MsgFilterClear.BtcDecode".
Definition MsgFilterClear_BtcEncode := bare_encode BIP0037Version "MsgFilterClear.BtcEncode".

(** ** Bloom filters *)

Definition MaxFilterAddDataSize : Z := 520.
Definition MsgFilterAdd_BtcDecode (pver : Z) : Reader (list byte) :=
  guard_rd (pver <? BIP0037Version) (MessageError "MsgFilterAdd.BtcDecode");;
  ReadVarBytes MaxFilterAddDataSize.
Definition MsgFilterAdd_BtcEncode (pver : Z) (data : list byte) : WRes (list byte) :=
  enc_guard (pver <? BIP0037Version) "MsgFilterAdd.BtcEncode"
    (enc_guard (MaxFilterAddDataSize <? zlen data) "MsgFilterAdd.BtcEncode" (WOk (WriteVarBytes data))).

Record MsgFilterLoad := mkMsgFilterLoad {
  Filter : list byte;
  HashFuncs : Z;                                  (* uint32 *)
  Tweak : Z;                                      (* uint32 *)
  fl_Flags : Z                                    (* uint8 *)
}.
Definition MaxFilterLoadHashFuncs : Z := 50.
Definition MaxFilterLoadFilterSize : Z := 36000.
Definition MsgFilterLoad_BtcDecode (pver : Z) : Reader MsgFilterLoad :=
  guard_rd (pver <? BIP0037Version) (MessageError "MsgFilterLoad.BtcDecode");;
  filter ← ReadVarBytes MaxFilterLoadFilterSize;
  hashFuncs ← Uint32;
  tweak ← Uint32;
  flags ← Uint8;
  guard_rd (MaxFilterLoadHashFuncs <? hashFuncs) (MessageError "MsgFilterLoad.BtcDecode");;
  mret (mkMsgFilterLoad filter hashFuncs tweak flags).
Definition MsgFilterLoad_BtcEncode (pver : Z) (m : MsgFilterLoad) : WRes (list byte) :=
  let func := "MsgFilterLoad.BtcEncode"%string in
  enc_guard (pver <? BIP0037Version) func
    (enc_guard (MaxFilterLoadFilterSize <? zlen (Filter m)) func
      (enc_guard (MaxFilterLoadHashFuncs <? HashFuncs m) func
        (WOk (WriteVarBytes (Filter m) ++ PutUint32 (HashFuncs m) ++ PutUint32 (Tweak m) ++
              PutUint8 (fl_Flags m))))).

Record MsgMerkleBlock := mkMsgMerkleBlock {
  mb_Header : BlockHeader;
  mb_Transactions : Z;                            (* uint32 *)
  mb_Hashes : list Hash;
  mb_Flags : list byte
}.
Definition maxFlagsPerMerkleBlock : Z := maxTxPerBlock / 8.
Definition MsgMerkleBlock_BtcDecode (pver : Z) : Reader MsgMerkleBlock :=
  guard_rd (pver <? BIP0037Version) (MessageError "MsgMerkleBlock.BtcDecode");;
  header ← readBlockHeader;
  txs ← Uint32;
  hashes ← read_counted maxTxPerBlock (MessageError "MsgMerkleBlock.BtcDecode") (ReadFull HashSize);
  flags ← ReadVarBytes maxFlagsPerMerkleBlock;
  mret (mkMsgMerkleBlock header txs hashes flags).
(** The guards of the encoder name the decoder. *)
Definition MsgMerkleBlock_BtcEncode (pver : Z) (m : MsgMerkleBlock) : WRes (list byte) :=
  enc_guard (pver <? BIP0037Version) "MsgMerkleBlock.BtcEncode"
    (enc_guard (maxTxPerBlock <? zlen (mb_Hashes m)) "MsgMerkleBlock.BtcDecode"
      (enc_guard (maxFlagsPerMerkleBlock <? zlen (mb_Flags m)) "MsgMerkleBlock.BtcDecode"
        (WOk (writeBlockHeader (mb_Header m) ++ PutUint32 (mb_Transactions m) ++
              write_counted Write (mb_Hashes m) ++ WriteVarBytes (mb_Flags m))))).
Definition AddTxHash (h : Hash) (m : MsgMerkleBlock) : WRes MsgMerkleBlock :=
  if maxTxPerBlock <? zlen (mb_Hashes m) + 1 then WErr (MessageError "MsgMerkleBlock.AddTxHash")
  else WOk (mkMsgMerkleBlock (mb_Header m) (mb_Transactions m) (mb_Hashes m ++ [h]) (mb_Flags m)).

(** ** Rejections *)

Definition CmdBlock : string := "block".
Definition CmdTx : string := "tx".

Record MsgReject := mkMsgReject {
  Cmd : list byte; Code : Z; (* uint8 *) Reason : list byte; rj_Hash : Hash
}.
Definition names_object (cmd : list byte) : bool :=
  bool_decide (cmd = ascii_bytes CmdBlock) || bool_decide (cmd = ascii_bytes CmdTx).
Definition MsgReject_BtcDecode (pver : Z) : Reader MsgReject :=
  guard_rd (pver <? RejectVersion) (MessageError "MsgReject.BtcDecode");;
  cmd ← ReadVarString;
  code ← Uint8;
  reason ← ReadVarString;
  hash ← (if names_object cmd then ReadFull HashSize else mret (replicate HashSize 0));
  mret (mkMsgReject cmd code reason hash).
Definition MsgReject_BtcEncode (pver : Z) (m : MsgReject) : WRes (list byte) :=
  enc_guard (pver <? RejectVersion) "MsgReject.BtcEncode"
    (WOk (WriteVarBytes (Cmd m) ++ PutUint8 (Code m) ++ WriteVarBytes (Reason m) ++
          (if names_object (Cmd m) then Write (rj_Hash m) else []))).

(** ** Compact filters *)

Record CFRange := mkCFRange { cr_FilterType : Z; (* uint8 *) StartHeight : Z; (* uint32 *) cr_StopHash : Hash }.
Definition cfrange_decode : Reader CFRange :=
  t ← Uint8; h ← Uint32; stop ← ReadFull HashSize; mret (mkCFRange t h stop).
Definition cfrange_encode (m : CFRange) : list byte :=
  PutUint8 (cr_FilterType m) ++ PutUint32 (StartHeight m) ++ Write (cr_StopHash m).
Definition MsgGetCFilters_BtcDecode : Reader CFRange := cfrange_decode.
Definition MsgGetCFilters_BtcEncode : CFRange → list byte := cfrange_encode.
Definition MsgGetCFHeaders_BtcDecode : Reader CFRange := cfrange_decode.
Definition MsgGetCFHeaders_BtcEncode : CFRange → list byte := cfrange_encode.

Record MsgGetCFCheckpt := mkMsgGetCFCheckpt { gc_FilterType : Z; gc_StopHash : Hash }.
Definition MsgGetCFCheckpt_BtcDecode : Reader MsgGetCFCheckpt :=
  t ← Uint8; stop ← ReadFull HashSize; mret (mkMsgGetCFCheckpt t stop).
Definition MsgGetCFCheckpt_BtcEncode (m : MsgGetCFCheckpt) : list byte :=
  PutUint8 (gc_FilterType m) ++ Write (gc_StopHash m).

Record MsgCFilter := mkMsgCFilter { cf_FilterType : Z; cf_BlockHash : Hash; cf_Data : list byte }.
Definition MaxCFilterDataSize : Z := 256 * 1024.
Definition MsgCFilter_BtcDecode : Reader MsgCFilter :=
  t ← Uint8; h ← ReadFull HashSize; data ← ReadVarBytes MaxCFilterDataSize; mret (mkMsgCFilter t h data).
Definition MsgCFilter_BtcEncode (m : MsgCFilter) : WRes (list byte) :=
  enc_guard (MaxCFilterDataSize <? zlen (cf_Data m)) "MsgCFilter.BtcEncode"
    (WOk (PutUint8 (cf_FilterType m) ++ Write (cf_BlockHash m) ++ WriteVarBytes (cf_Data m))).

Record MsgCFHeaders := mkMsgCFHeaders {
  ch_FilterType : Z; ch_StopHash : Hash; PrevFilterHeader : Hash; FilterHashes : list Hash
}.
Definition MaxCFHeadersPerMsg : Z := 2000.
Definition MsgCFHeaders_BtcDecode : Reader MsgCFHeaders :=
  t ← Uint8;
  stop ← ReadFull HashSize;
  prev ← ReadFull HashSize;
  hashes ← read_counted MaxCFHeadersPerMsg (MessageError "MsgCFHeaders.BtcDecode") (ReadFull HashSize);
  mret (mkMsgCFHeaders t stop prev hashes).
Definition MsgCFHeaders_BtcEncode (m : MsgCFHeaders) : WRes (list byte) :=
  enc_guard (MaxCFHeadersPerMsg <? zlen (FilterHashes m)) "MsgCFHeaders.BtcEncode"
    (WOk (PutUint8 (ch_FilterType m) ++ Write (ch_StopHash m) ++ Write (PrevFilterHeader m) ++
          write_counted Write (FilterHashes m))).

Record MsgCFCheckpt := mkMsgCFCheckpt { cc_FilterType : Z; cc_StopHash : Hash; FilterHeaders : list Hash }.
Definition maxCFHeadersLen : Z := 100000.
(** [ErrInsaneCFHeaderCount] is kept under the name of the function. *)
Definition MsgCFCheckpt_BtcDecode : Reader MsgCFCheckpt :=
  t ← Uint8;
  stop ← ReadFull HashSize;
  hashes ← read_counted maxCFHeadersLen (MessageError "ErrInsaneCFHeaderCount") (ReadFull HashSize);
  mret (mkMsgCFCheckpt t stop hashes).
(** The encoder has no limit. *)
Definition MsgCFCheckpt_BtcEncode (m : MsgCFCheckpt) : list byte :=
  PutUint8 (cc_FilterType m) ++ Write (cc_StopHash m) ++ write_counted Write (FilterHeaders m).

(** ** Network addresses *)

(** The zero [time.Time]. *)
Definition zeroTime : Z := -62135596800.

Record NetAddress := mkNetAddress {
  na_Timestamp : Z; Services : Z; (* uint64 *) IP : list byte; Port : Z (* uint16 *)
}.
Definition maxNetAddressPayload (pver : Z) : Z :=
  26 + (if NetAddressTimeVersion <=? pver then 4 else 0).

(** [net.IP.To16], empty when the length is neither 4 nor 16. *)
Definition To16 (ip : list byte) : list byte :=
  if (length ip =? 4)%nat then replicate 10 0 ++ [0xff; 0xff] ++ ip
  else if (length ip =? 16)%nat then ip else [].
(** The address as it is copied into 16 bytes of zeros. *)
Definition ip_bytes (ip : list byte) : list byte := take 16 (To16 ip ++ replicate 16 0).

Definition readNetAddress (pver : Z) (ts : bool) : Reader NetAddress :=
  timestamp ← (if ts && (NetAddressTimeVersion <=? pver) then Uint32 else mret zeroTime);
  services ← Uint64;
  ip ← ReadFull 16;
  port ← Uint16BE;
  mret (mkNetAddress timestamp services ip port).
Definition writeNetAddress (pver : Z) (ts : bool) (na : NetAddress) : list byte :=
  (if ts && (NetAddressTimeVersion <=? pver) then PutUint32 (uint32 (na_Timestamp na)) else []) ++
  PutUint64 (Services na) ++ Write (ip_bytes (IP na)) ++ PutUint16BE (Port na).

Definition MaxAddrPerMsg : Z := 1000.
Definition MsgAddr_BtcDecode (pver : Z) : Reader (list NetAddress) :=
  read_counted MaxAddrPerMsg (MessageError "MsgAddr.BtcDecode") (readNetAddress pver true).
Definition MsgAddr_BtcEncode (pver : Z) (l : list NetAddress) : WRes (list byte) :=
  let func := "MsgAddr.BtcEncode"%string in
  enc_guard ((pver <? MultipleAddressVersion) && (1 <? zlen l)) func
    (enc_guard (MaxAddrPerMsg <? zlen l) func (WOk (write_counted (writeNetAddress pver true) l))).
Definition MsgAddr_MaxPayloadLength (pver : Z) : Z :=
  if pver <? MultipleAddressVersion then MaxVarIntPayload + maxNetAddressPayload pver
  else MaxVarIntPayload + MaxAddrPerMsg * maxNetAddressPayload pver.
Definition AddAddress (na : NetAddress) (l : list NetAddress) : WRes (list NetAddress) :=
  if MaxAddrPerMsg <? zlen l + 1 then WErr (MessageError "MsgAddr.AddAddress") else WOk (l ++ [na]).

(** ** Version *)

Record MsgVersion := mkMsgVersion {
  v_ProtocolVersion : Z;                          (* int32 *)
  v_Services : Z;                                 (* uint64 *)
  v_Timestamp : Z;                                (* int64 *)
  AddrYou : NetAddress;
  AddrMe : NetAddress;
  v_Nonce : Z;                                    (* uint64 *)
  UserAgent : list byte;
  LastBlock : Z;                                  (* int32 *)
  DisableRelayTx : bool
}.
Definition MaxUserAgentLen : Z := 256.
Definition validateUserAgent (ua : list byte) : bool := zlen ua <=? MaxUserAgentLen.
Definition zeroAddr : NetAddress := mkNetAddress zeroTime 0 [] 0.

(** A field that is read when there are bytes left. *)
Definition optional {A} (zero : A) (rd : Reader A) : Reader A := λ r,
  match r with [] => WOk (zero, r) | _ => rd r end.

(** The flag at the end is read without a check; there is a byte. *)
Definition MsgVersion_BtcDecode (pver : Z) : Reader MsgVersion :=
  version ← ReadInt 4;
  services ← Uint64;
  timestamp ← ReadInt 8;
  you ← readNetAddress pver false;
  me ← optional zeroAddr (readNetAddress pver false);
  nonce ← optional 0 Uint64;
  userAgent ← optional [] (ua ← ReadVarString;
                           guard_rd (negb (validateUserAgent ua)) (MessageError "MsgVersion");; mret ua);
  lastBlock ← optional 0 (ReadInt 4);
  disable ← optional false (relayTx ← ReadBool; mret (negb relayTx));
  mret (mkMsgVersion version services timestamp you me nonce userAgent lastBlock disable).
Definition MsgVersion_BtcEncode (pver : Z) (m : MsgVersion) : WRes (list byte) :=
  enc_guard (negb (validateUserAgent (UserAgent m))) "MsgVersion"
    (WOk (PutInt 4 (v_ProtocolVersion m) ++ PutUint64 (v_Services m) ++ PutInt 8 (v_Timestamp m) ++
          writeNetAddress pver false (AddrYou m) ++ writeNetAddress pver false (AddrMe m) ++
          PutUint64 (v_Nonce m) ++ WriteVarBytes (UserAgent m) ++ PutInt 4 (LastBlock m) ++
          (if BIP0037Version <=? pver then PutBool (negb (DisableRelayTx m)) else []))).
Definition MsgVersion_MaxPayloadLength (pver : Z) : Z :=
  33 + maxNetAddressPayload pver * 2 + MaxVarIntPayload + MaxUserAgentLen.

(** ** Alerts *)

Record Alert := mkAlert {
  al_Version : Z; RelayUntil : Z; Expiration : Z; ID : Z; Cancel : Z;
  SetCancel : list Z; MinVer : Z; MaxVer : Z; SetSubVer : list (list byte);
  Priority : Z; Comment : list byte; StatusBar : list byte; Reserved : list byte
}.
Definition maxAlertSize : Z := MaxMessagePayload - 72 - MaxVarIntPayload - 1.
Definition maxCountSetCancel : Z := (maxAlertSize - 45 - MaxVarIntPayload + 1) / 4.
Definition maxCountSetSubVer : Z := (maxAlertSize - 45 - MaxVarIntPayload + 1) / 256.

Definition Alert_Serialize (a : Alert) : WRes (list byte) :=
  enc_guard (maxCountSetCancel <? zlen (SetCancel a)) "Alert.Serialize"
    (enc_guard (maxCountSetSubVer <? zlen (SetSubVer a)) "Alert.Serialize"
      (WOk (PutInt 4 (al_Version a) ++ PutInt 8 (RelayUntil a) ++ PutInt 8 (Expiration a) ++
            PutInt 4 (ID a) ++ PutInt 4 (Cancel a) ++ write_counted (PutInt 4) (SetCancel a) ++
            PutInt 4 (MinVer a) ++ PutInt 4 (MaxVer a) ++
            write_counted WriteVarBytes (SetSubVer a) ++ PutInt 4 (Priority a) ++
            WriteVarBytes (Comment a) ++ WriteVarBytes (StatusBar a) ++ WriteVarBytes (Reserved a)))).
Definition Alert_Deserialize : Reader Alert :=
  version ← ReadInt 4; relayUntil ← ReadInt 8; expiration ← ReadInt 8; id ← ReadInt 4;
  cancel ← ReadInt 4;
  setCancel ← read_counted maxCountSetCancel (MessageError "Alert.Deserialize") (ReadInt 4);
  minVer ← ReadInt 4; maxVer ← ReadInt 4;
  setSubVer ← read_counted maxCountSetSubVer (MessageError "Alert.Deserialize") ReadVarString;
  priority ← ReadInt 4;
  comment ← ReadVarString; statusBar ← ReadVarString; reserved ← ReadVarString;
  mret (mkAlert version relayUntil expiration id cancel setCancel minVer maxVer setSubVer priority
          comment statusBar reserved).
Definition NewAlertFromPayload (b : list byte) : WRes Alert :=
  match Alert_Deserialize b with
  | WOk (a, _) => WOk a
  | WErr e => WErr e
  | WPanic => WPanic
  end.

Record MsgAlert := mkMsgAlert {
  SerializedPayload : list byte; Signature : list byte; Payload : option Alert
}.
Definition MsgAlert_BtcDecode : Reader MsgAlert :=
  payload ← ReadVarBytes MaxMessagePayload;
  let alert := match NewAlertFromPayload payload with WOk a => Some a | _ => None end in
  signature ← ReadVarBytes MaxMessagePayload;
  mret (mkMsgAlert payload signature alert).
Definition MsgAlert_BtcEncode (m : MsgAlert) : WRes (list byte) :=
  let payload :=
    match Payload m with
    | Some a => match Alert_Serialize a with WOk b => b | _ => SerializedPayload m end
    | None => SerializedPayload m
    end in
  enc_guard (length payload =? 0)%nat "MsgAlert.BtcEncode"
    (WOk (WriteVarBytes payload ++ WriteVarBytes (Signature m))).

(** ** Addresses of several networks *)

Inductive NetAddr := ipv4Addr (b : list byte) | ipv6Addr (b : list byte)
| torv2Addr (b : list byte) | torv3Addr (b : list byte).
(** [None] is a nil interface. *)
Record NetAddressV2 := mkNetAddressV2 {
  n2_Timestamp : Z; n2_Services : Z; n2_Addr : option NetAddr; n2_Port : Z
}.
Definition emptyV2 : NetAddressV2 := mkNetAddressV2 zeroTime 0 None 0.

Definition maxAddrV2Size : Z := 512.
Definition MaxV2AddrPerMsg : Z := 1000.
Definition maxNetAddressV2Payload : Z := 4 + 9 + 1 + 515 + 2.
Definition onionCatPrefix : list byte := [0xfd; 0x87; 0xd8; 0x7e; 0xeb; 0x43].
Definition isOnionCatTor (ip : list byte) : bool := bool_decide (take 6 ip = onionCatPrefix).
Definition isKnownNetworkID (netID : Z) : bool := (1 <=? netID) && (netID <=? 6).

Definition networkID (a : NetAddr) : Z :=
  match a with ipv4Addr _ => 1 | ipv6Addr _ => 2 | torv2Addr _ => 3 | torv3Addr _ => 4 end.
Definition addr_bytes (a : NetAddr) : list byte :=
  match a with ipv4Addr b | ipv6Addr b | torv2Addr b | torv3Addr b => b end.

Definition ToLegacy (na : NetAddressV2) : option NetAddress :=
  let legacy ip := Some (mkNetAddress (n2_Timestamp na) (n2_Services na) ip (n2_Port na)) in
  match n2_Addr na with
  | Some (ipv4Addr b) | Some (ipv6Addr b) => legacy b
  | Some (torv2Addr b) => legacy (onionCatPrefix ++ b)
  | Some (torv3Addr _) => None
  | None => legacy []
  end.

Definition NetAddressV2FromBytes (timestamp services : Z) (b : list byte) (port : Z) : NetAddressV2 :=
  mkNetAddressV2 timestamp services
    (if (length b =? 4)%nat then Some (ipv4Addr b)
     else if (length b =? 16)%nat then
       Some (if isOnionCatTor b then torv2Addr (drop 6 b) else ipv6Addr b)
     else if (length b =? 10)%nat then Some (torv2Addr b)
     else if (length b =? 32)%nat then Some (torv3Addr b)
     else None)
    port.

(** A nil address is an error without a message type. *)
Definition writeNetAddressV2 (na : NetAddressV2) : WRes (list byte) :=
  match n2_Addr na with
  | None => WErr (MessageError "unexpected address type")
  | Some a =>
      WOk (PutUint32 (uint32 (n2_Timestamp na)) ++ WriteVarInt (n2_Services na) ++
           PutUint8 (networkID a) ++ WriteVarInt (zlen (addr_bytes a)) ++ Write (addr_bytes a) ++
           PutUint16BE (n2_Port na))
  end.

(** Reading fills the fields of the address one by one; on an error it
    leaves it as far as it got, with the bytes that are left. *)
Definition V2 (A : Type) : Type :=
  NetAddressV2 * list byte → (A + WireError) * (NetAddressV2 * list byte).
#[export] Instance V2_ret : MRet V2 := λ A a s, (inl a, s).
#[export] Instance V2_bind : MBind V2 := λ A B f m s,
  match m s with (inl a, s') => f a s' | (inr e, s') => (inr e, s') end.
Definition v2_fail {A} (e : WireError) : V2 A := λ s, (inr e, s).
Definition v2_set (f : NetAddressV2 → NetAddressV2) : V2 () := λ s, (inl (), (f (fst s), snd s)).

(** A field of [w] bytes; a read that fails takes what there is. *)
Definition v2_read {A} (rd : Reader A) (w : list byte → nat) : V2 A := λ s,
  match rd (snd s) with
  | WOk (x, r) => (inl x, (fst s, r))
  | WErr e => (inr e, (fst s, drop (w (snd s)) (snd s)))
  | WPanic => (inr EOF, s)                        (* the readers below do not panic *)
  end.
Definition varint_width (r : list byte) : nat :=
  match r with
  | d :: _ => if d =? 0xff then 9 else if d =? 0xfe then 5 else if d =? 0xfd then 3 else 1
  | [] => 0
  end.
Definition v2_varint : V2 Z := v2_read ReadVarInt varint_width.
Definition v2_bytes (n : nat) : V2 (list byte) := v2_read (ReadFull n) (λ _, n).

(** The size of the addresses of a known network. *)
Definition address_size (netID : Z) : Z :=
  if netID =? 1 then 4 else if netID =? 2 then 16 else if netID =? 3 then 10
  else if netID =? 6 then 16 else 32.
(** The address that is kept; those of i2p and cjdns are skipped. *)
Definition address_of (netID : Z) (b : list byte) : option NetAddr :=
  if netID =? 1 then Some (ipv4Addr b) else if netID =? 2 then Some (ipv6Addr b)
  else if netID =? 3 then Some (torv2Addr b) else if netID =? 4 then Some (torv3Addr b) else None.

Definition readNetAddressV2 : V2 () :=
  timestamp ← v2_read Uint32 (λ _, 4%nat);
  v2_set (λ na, mkNetAddressV2 timestamp (n2_Services na) (n2_Addr na) (n2_Port na));;
  services ← v2_varint;
  v2_set (λ na, mkNetAddressV2 (n2_Timestamp na) services (n2_Addr na) (n2_Port na));;
  netID ← v2_read Uint8 (λ _, 1%nat);
  decodedSize ← v2_varint;
  if negb (isKnownNetworkID netID) then
    if maxAddrV2Size <? decodedSize then v2_fail ErrInvalidAddressSize
    else v2_bytes (Z.to_nat (decodedSize + 2));; v2_fail ErrSkippedNetworkID
  else if negb (decodedSize =? address_size netID) then v2_fail ErrInvalidAddressSize
  else
    addr ← v2_bytes (Z.to_nat (address_size netID));
    port ← v2_read Uint16BE (λ _, 2%nat);
    v2_set (λ na, mkNetAddressV2 (n2_Timestamp na) (n2_Services na) (n2_Addr na) port);;
    match address_of netID addr with
    | None => v2_fail ErrSkippedNetworkID
    | Some a =>
        v2_set (λ na, mkNetAddressV2 (n2_Timestamp na) (n2_Services na) (Some a) (n2_Port na));;
        if (netID =? 2) && isOnionCatTor addr then v2_fail ErrSkippedNetworkID else mret ()
    end.

(** The loop looks at two of the errors only: after any other one the
    address is kept as it is. *)
Fixpoint read_addrs_v2 (n : nat) (r : list byte) : WRes (list NetAddressV2 * list byte) :=
  match n with
  | O => WOk ([], r)
  | S k =>
      let '(res, (na, r')) := readNetAddressV2 (emptyV2, r) in
      match res with
      | inr ErrSkippedNetworkID => read_addrs_v2 k r'
      | inr ErrInvalidAddressSize => WErr ErrInvalidAddressSize
      | _ =>
          match read_addrs_v2 k r' with
          | WOk (l, r'') => WOk (na :: l, r'')
          | WErr e => WErr e
          | WPanic => WPanic
          end
      end
  end.
Definition MsgAddrV2_BtcDecode : Reader (list NetAddressV2) :=
  count ← ReadVarInt;
  guard_rd (MaxV2AddrPerMsg <? count) (MessageError "MsgAddrV2.BtcDecode");;
  read_addrs_v2 (Z.to_nat count).
Fixpoint write_addrs_v2 (l : list NetAddressV2) : WRes (list byte) :=
  match l with
  | [] => WOk []
  | na :: l' => b ← writeNetAddressV2 na; bs ← write_addrs_v2 l'; WOk (b ++ bs)
  end.
Definition MsgAddrV2_BtcEncode (l : list NetAddressV2) : WRes (list byte) :=
  enc_guard (MaxV2AddrPerMsg <? zlen l) "MsgAddrV2.BtcEncode"
    (bs ← write_addrs_v2 l; WOk (WriteVarInt (zlen l) ++ bs)).

(** ** The keys of addresses in the address manager and the server

    [String] of an address renders it; a method of a nil interface value
    is a run-time panic. *)
Definition JoinHostPort (host port : string) : string :=
  if Contains host ":" || Contains host "%" then ("[" +:+ host +:+ "]:" +:+ port)%string
  else (host +:+ ":" +:+ port)%string.
Definition NetAddressKey (render : NetAddr → string) (na : NetAddressV2) : WRes string :=
  match n2_Addr na with
  | None => WPanic
  | Some a => WOk (JoinHostPort (render a) (fmt_d (n2_Port na)))
  end.
Fixpoint addKnownAddresses (render : NetAddr → string) (l : list NetAddressV2) : WRes (list string) :=
  match l with
  | [] => WOk []
  | na :: l' => k ← NetAddressKey render na; ks ← addKnownAddresses render l'; WOk (k :: ks)
  end.
