(* ===== verification/WireFrame.v ===== *)
(** * Wire protocol: message headers and the stream of messages

    btcd/wire/message.go.  [Message] is the sum of the message types; the
    functions of the interface dispatch on it.  Reading a message gives its
    result together with the bytes that are left, also after an error. *)

From Stdlib Require Import ZArith Lia.
From stdpp Require Import base numbers list strings.
From S2P Require Import Prelude GoStrings ScriptNum WireBase WireTx Sighash WireMsg.

Open Scope Z_scope.

Inductive Message :=
| MsgVersion_ (m : MsgVersion)
| MsgVerAck
| MsgSendAddrV2
| MsgGetAddr
| MsgAddr (l : list NetAddress)
| MsgAddrV2 (l : list NetAddressV2)
| MsgGetBlocks (m : Locator)
| MsgBlock_ (m : MsgBlock)
| MsgInv (l : list InvVect)
| MsgGetData (l : list InvVect)
| MsgNotFound (l : list InvVect)
| MsgTx_ (m : MsgTx)
| MsgPing (nonce : Z)
| MsgPong (nonce : Z)
| MsgGetHeaders (m : Locator)
| MsgHeaders (l : list BlockHeader)
| MsgAlert_ (m : MsgAlert)
| MsgMemPool
| MsgFilterAdd (data : list byte)
| MsgFilterClear
| MsgFilterLoad_ (m : MsgFilterLoad)
| MsgMerkleBlock_ (m : MsgMerkleBlock)
| MsgReject_ (m : MsgReject)
| MsgSendHeaders
| MsgFeeFilter (minFee : Z)
| MsgGetCFilters (m : CFRange)
| MsgGetCFHeaders (m : CFRange)
| MsgGetCFCheckpt_ (m : MsgGetCFCheckpt)
| MsgCFilter_ (m : MsgCFilter)
| MsgCFHeaders_ (m : MsgCFHeaders)
| MsgCFCheckpt_ (m : MsgCFCheckpt).

Definition Command (msg : Message) : string :=
  match msg with
  | MsgVersion_ _ => "version" | MsgVerAck => "verack" | MsgSendAddrV2 => "sendaddrv2"
  | MsgGetAddr => "getaddr" | MsgAddr _ => "addr" | MsgAddrV2 _ => "addrv2"
  | MsgGetBlocks _ => "getblocks" | MsgBlock_ _ => "block" | MsgInv _ => "inv"
  | MsgGetData _ => "getdata" | MsgNotFound _ => "notfound" | MsgTx_ _ => "tx"
  | MsgPing _ => "ping" | MsgPong _ => "pong" | MsgGetHeaders _ => "getheaders"
  | MsgHeaders _ => "headers" | MsgAlert_ _ => "alert" | MsgMemPool => "mempool"
  | MsgFilterAdd _ => "filteradd" | MsgFilterClear => "filterclear"
  | MsgFilterLoad_ _ => "filterload" | MsgMerkleBlock_ _ => "merkleblock"
  | MsgReject_ _ => "reject" | MsgSendHeaders => "sendheaders" | MsgFeeFilter _ => "feefilter"
  | MsgGetCFilters _ => "getcfilters" | MsgGetCFHeaders _ => "getcfheaders"
  | MsgGetCFCheckpt_ _ => "getcfcheckpt" | MsgCFilter_ _ => "cfilter"
  | MsgCFHeaders_ _ => "cfheaders" | MsgCFCheckpt_ _ => "cfcheckpt"
  end.

(** The zero values of the types. *)
Definition noHash : Hash := replicate HashSize 0.
Definition zeroHeader : BlockHeader := mkBlockHeader 0 noHash noHash zeroTime 0 0.
Definition emptyMessages : list Message :=
  [MsgVersion_ (mkMsgVersion 0 0 zeroTime zeroAddr zeroAddr 0 [] 0 false);
   MsgVerAck; MsgSendAddrV2; MsgGetAddr; MsgAddr []; MsgAddrV2 [];
   MsgGetBlocks (mkLocator 0 [] noHash); MsgBlock_ (mkMsgBlock zeroHeader []);
   MsgInv []; MsgGetData []; MsgNotFound []; MsgTx_ (mkMsgTx 0 [] [] 0);
   MsgPing 0; MsgPong 0; MsgGetHeaders (mkLocator 0 [] noHash); MsgHeaders [];
   MsgAlert_ (mkMsgAlert [] [] None); MsgMemPool; MsgFilterAdd []; MsgFilterClear;
   MsgFilterLoad_ (mkMsgFilterLoad [] 0 0 0); MsgMerkleBlock_ (mkMsgMerkleBlock zeroHeader 0 [] []);
   MsgReject_ (mkMsgReject [] 0 [] noHash); MsgSendHeaders; MsgFeeFilter 0;
   MsgGetCFilters (mkCFRange 0 0 noHash); MsgGetCFHeaders (mkCFRange 0 0 noHash);
   MsgGetCFCheckpt_ (mkMsgGetCFCheckpt 0 noHash); MsgCFilter_ (mkMsgCFilter 0 noHash []);
   MsgCFHeaders_ (mkMsgCFHeaders 0 noHash noHash []); MsgCFCheckpt_ (mkMsgCFCheckpt 0 noHash [])].
(** The switch over the commands. *)
Definition makeEmptyMessage (command : list byte) : option Message :=
  List.find (λ m, bool_decide (ascii_bytes (Command m) = command)) emptyMessages.

Definition BtcEncode (pver : Z) (enc : MessageEncoding) (msg : Message) : WRes (list byte) :=
  match msg with
  | MsgVersion_ m => MsgVersion_BtcEncode pver m
  | MsgVerAck | MsgSendAddrV2 | MsgGetAddr => WOk []
  | MsgAddr l => MsgAddr_BtcEncode pver l
  | MsgAddrV2 l => MsgAddrV2_BtcEncode l
  | MsgGetBlocks m => MsgGetBlocks_BtcEncode m
  | MsgBlock_ m => WOk (MsgBlock_BtcEncode enc m)
  | MsgInv l => MsgInv_BtcEncode l
  | MsgGetData l => MsgGetData_BtcEncode l
  | MsgNotFound l => MsgNotFound_BtcEncode l
  | MsgTx_ m => WOk (btcEncode enc m)
  | MsgPing n => MsgPing_BtcEncode pver n
  | MsgPong n => MsgPong_BtcEncode pver n
  | MsgGetHeaders m => MsgGetHeaders_BtcEncode m
  | MsgHeaders l => MsgHeaders_BtcEncode l
  | MsgAlert_ m => MsgAlert_BtcEncode m
  | MsgMemPool => MsgMemPool_BtcEncode pver
  | MsgFilterAdd d => MsgFilterAdd_BtcEncode pver d
  | MsgFilterClear => MsgFilterClear_BtcEncode pver
  | MsgFilterLoad_ m => MsgFilterLoad_BtcEncode pver m
  | MsgMerkleBlock_ m => MsgMerkleBlock_BtcEncode pver m
  | MsgReject_ m => MsgReject_BtcEncode pver m
  | MsgSendHeaders => MsgSendHeaders_BtcEncode pver
  | MsgFeeFilter z => MsgFeeFilter_BtcEncode pver z
  | MsgGetCFilters m => WOk (MsgGetCFilters_BtcEncode m)
  | MsgGetCFHeaders m => WOk (MsgGetCFHeaders_BtcEncode m)
  | MsgGetCFCheckpt_ m => WOk (MsgGetCFCheckpt_BtcEncode m)
  | MsgCFilter_ m => MsgCFilter_BtcEncode m
  | MsgCFHeaders_ m => MsgCFHeaders_BtcEncode m
  | MsgCFCheckpt_ m => WOk (MsgCFCheckpt_BtcEncode m)
  end.

(** Decoding into an empty message of the type. *)
Definition BtcDecode (pver : Z) (enc : MessageEncoding) (msg : Message) : Reader Message :=
  match msg with
  | MsgVersion_ _ => m ← MsgVersion_BtcDecode pver; mret (MsgVersion_ m)
  | MsgVerAck => mret MsgVerAck
  | MsgSendAddrV2 => mret MsgSendAddrV2
  | MsgGetAddr => mret MsgGetAddr
  | MsgAddr _ => l ← MsgAddr_BtcDecode pver; mret (MsgAddr l)
  | MsgAddrV2 _ => l ← MsgAddrV2_BtcDecode; mret (MsgAddrV2 l)
  | MsgGetBlocks _ => m ← MsgGetBlocks_BtcDecode; mret (MsgGetBlocks m)
  | MsgBlock_ _ => m ← MsgBlock_BtcDecode enc; mret (MsgBlock_ m)
  | MsgInv _ => l ← MsgInv_BtcDecode; mret (MsgInv l)
  | MsgGetData _ => l ← MsgGetData_BtcDecode; mret (MsgGetData l)
  | MsgNotFound _ => l ← MsgNotFound_BtcDecode; mret (MsgNotFound l)
  | MsgTx_ _ => m ← btcDecode enc; mret (MsgTx_ m)
  | MsgPing _ => n ← MsgPing_BtcDecode pver; mret (MsgPing n)
  | MsgPong _ => n ← MsgPong_BtcDecode pver; mret (MsgPong n)
  | MsgGetHeaders _ => m ← MsgGetHeaders_BtcDecode; mret (MsgGetHeaders m)
  | MsgHeaders _ => l ← MsgHeaders_BtcDecode; mret (MsgHeaders l)
  | MsgAlert_ _ => m ← MsgAlert_BtcDecode; mret (MsgAlert_ m)
  | MsgMemPool => MsgMemPool_BtcDecode pver;; mret MsgMemPool
  | MsgFilterAdd _ => d ← MsgFilterAdd_BtcDecode pver; mret (MsgFilterAdd d)
  | MsgFilterClear => MsgFilterClear_BtcDecode pver;; mret MsgFilterClear
  | MsgFilterLoad_ _ => m ← MsgFilterLoad_BtcDecode pver; mret (MsgFilterLoad_ m)
  | MsgMerkleBlock_ _ => m ← MsgMerkleBlock_BtcDecode pver; mret (MsgMerkleBlock_ m)
  | MsgReject_ _ => m ← MsgReject_BtcDecode pver; mret (MsgReject_ m)
  | MsgSendHeaders => MsgSendHeaders_BtcDecode pver;; mret MsgSendHeaders
  | MsgFeeFilter _ => z ← MsgFeeFilter_BtcDecode pver; mret (MsgFeeFilter z)
  | MsgGetCFilters _ => m ← MsgGetCFilters_BtcDecode; mret (MsgGetCFilters m)
  | MsgGetCFHeaders _ => m ← MsgGetCFHeaders_BtcDecode; mret (MsgGetCFHeaders m)
  | MsgGetCFCheckpt_ _ => m ← MsgGetCFCheckpt_BtcDecode; mret (MsgGetCFCheckpt_ m)
  | MsgCFilter_ _ => m ← MsgCFilter_BtcDecode; mret (MsgCFilter_ m)
  | MsgCFHeaders_ _ => m ← MsgCFHeaders_BtcDecode; mret (MsgCFHeaders_ m)
  | MsgCFCheckpt_ _ => m ← MsgCFCheckpt_BtcDecode; mret (MsgCFCheckpt_ m)
  end.

Definition MaxPayloadLength (pver : Z) (msg : Message) : Z :=
  match msg with
  | MsgVersion_ _ => MsgVersion_MaxPayloadLength pver
  | MsgVerAck | MsgSendAddrV2 | MsgGetAddr | MsgMemPool | MsgFilterClear | MsgSendHeaders => 0
  | MsgAddr _ => MsgAddr_MaxPayloadLength pver
  | MsgAddrV2 _ => 3 + MaxV2AddrPerMsg * maxNetAddressV2Payload
  | MsgGetBlocks _ | MsgGetHeaders _ => locator_MaxPayload
  | MsgBlock_ _ | MsgTx_ _ | MsgMerkleBlock_ _ => MaxBlockPayload
  | MsgInv _ | MsgGetData _ | MsgNotFound _ => inv_MaxPayload
  | MsgPing _ | MsgPong _ => nonce_MaxPayload pver
  | MsgHeaders _ => MaxVarIntPayload + (MaxBlockHeaderPayload + 1) * MaxBlockHeadersPerMsg
  | MsgAlert_ _ | MsgCFCheckpt_ _ => MaxMessagePayload
  | MsgFilterAdd _ => VarIntSerializeSize MaxFilterAddDataSize + MaxFilterAddDataSize
  | MsgFilterLoad_ _ => VarIntSerializeSize MaxFilterLoadFilterSize + MaxFilterLoadFilterSize + 9
  | MsgReject_ _ => if RejectVersion <=? pver then MaxMessagePayload else 0
  | MsgFeeFilter _ => 8
  | MsgGetCFilters _ | MsgGetCFHeaders _ => 1 + 4 + 32
  | MsgGetCFCheckpt_ _ => 1 + 32
  | MsgCFilter_ _ => VarIntSerializeSize MaxCFilterDataSize + MaxCFilterDataSize + 32 + 1
  | MsgCFHeaders_ _ => 1 + 32 + 32 + MaxVarIntPayload + 32 * MaxCFHeadersPerMsg
  end.

(** ** Headers of messages *)

Definition MessageHeaderSize : nat := 24.
Definition CommandSize : nat := 12.

Record messageHeader := mkMessageHeader {
  magic : Z; command : list byte; length_ : Z; checksum : list byte
}.

(** [bytes.TrimRight] with the zero byte. *)
Fixpoint trim_zeros (l : list byte) : list byte :=
  match l with
  | [] => []
  | b :: l' => match trim_zeros l' with [] => if b =? 0 then [] else [b] | t => b :: t end
  end.

Definition header_fields : Reader messageHeader :=
  magic ← Uint32;
  command ← ReadFull CommandSize;
  length ← Uint32;
  checksum ← ReadFull 4;
  mret (mkMessageHeader magic (trim_zeros command) length checksum).
Definition readMessageHeader : Reader messageHeader := λ r,
  match ReadFull MessageHeaderSize r with
  | WOk (headerBytes, r') =>
      match header_fields headerBytes with
      | WOk (hdr, _) => WOk (hdr, r')
      | WErr e => WErr e
      | WPanic => WPanic
      end
  | WErr e => WErr e
  | WPanic => WPanic
  end.

(** [discardInput] reads ten kilobytes at a time; a read past the end takes
    what is left. *)
Definition maxSize : nat := 10 * 1024.
Fixpoint discard_chunks (numReads : nat) (r : list byte) : list byte :=
  match numReads with O => r | S k => discard_chunks k (drop maxSize r) end.
Definition discardInput (n : nat) (r : list byte) : list byte :=
  let r := discard_chunks (n / maxSize) r in
  if (0 <? n mod maxSize)%nat then drop (n mod maxSize) r else r.

Section Frames.
Context `{Sha}.

Definition payload_checksum (payload : list byte) : list byte := take 4 (DoubleHashH payload).

Definition WriteMessage (pver btcnet : Z) (enc : MessageEncoding) (msg : Message) : WRes (list byte) :=
  let cmd := ascii_bytes (Command msg) in
  if (CommandSize <? length cmd)%nat then WErr (MessageError "WriteMessage") else
  payload ← BtcEncode pver enc msg;
  let lenp := zlen payload in
  if MaxMessagePayload <? lenp then WErr (MessageError "WriteMessage")
  else if MaxPayloadLength pver msg <? uint32 lenp then WErr (MessageError "WriteMessage")
  else WOk (PutUint32 btcnet ++ Write (take CommandSize (cmd ++ replicate CommandSize 0)) ++
            PutUint32 (uint32 lenp) ++ Write (payload_checksum payload) ++ payload).

Definition is_text (command : list byte) : bool :=
  utf8_valid (map (λ b, Ascii.ascii_of_nat (Z.to_nat b)) command).

(** The result, and the bytes of the stream that are left.  A payload that
    is cut short leaves none. *)
Definition ReadMessage (pver btcnet : Z) (enc : MessageEncoding) (r : list byte)
  : WRes (Message * list byte) * list byte :=
  match readMessageHeader r with
  | WPanic => (WPanic, r)
  | WErr e => (WErr e, drop MessageHeaderSize r)
  | WOk (hdr, r) =>
      let err e := (WErr e, discardInput (Z.to_nat (length_ hdr)) r) in
      if MaxMessagePayload <? length_ hdr then (WErr (MessageError "ReadMessage"), r)
      else if negb (magic hdr =? btcnet) then err (MessageError "ReadMessage")
      else if negb (is_text (command hdr)) then err (MessageError "ReadMessage")
      else
        match makeEmptyMessage (command hdr) with
        | None => err ErrUnknownMessage
        | Some msg =>
            if MaxPayloadLength pver msg <? length_ hdr then err (MessageError "ReadMessage")
            else
              match ReadFull (Z.to_nat (length_ hdr)) r with
              | WPanic => (WPanic, r)
              | WErr e => (WErr e, drop (Z.to_nat (length_ hdr)) r)
              | WOk (payload, r') =>
                  if negb (bool_decide (payload_checksum payload = checksum hdr))
                  then (WErr (MessageError "ReadMessage"), r')
                  else
                    (match BtcDecode pver enc msg payload with
                     | WOk (m, _) => WOk (m, payload)
                     | WErr e => WErr e
                     | WPanic => WPanic
                     end, r')
              end
        end
  end.
End Frames.
