(* ===== verification/WireFrameFacts.v ===== *)
(** * Wire protocol: the messages decode to what was encoded *)

From Stdlib Require Import ZArith Lia.
From stdpp Require Import base numbers list strings.
From S2P Require Import Prelude GoStrings ScriptNum ScriptNumFacts WireBase WireTx WireTxFacts Sighash WireMsg WireFrame.

Open Scope Z_scope.

(** ** Fields *)

#[export] Instance codec_uint16be : Codec (unsigned 2) PutUint16BE Uint16BE.
Proof.
  split.
  - intros n rest Hn. unfold Uint16BE, PutUint16BE.
    change (rev (le_put 2 n)) with (Write (rev (le_put 2 n))). rewrite codec_step.
    + unfold mret, Reader_ret. by rewrite rev_involutive, le_val_put.
    + split; [by rewrite length_rev, le_put_length|]. apply Forall_rev, le_put_bytes.
  - intros r n rest Hr Hd. unfold Uint16BE in Hd. rd_inv Hd. destruct Hv as [Hl Hx].
    assert (Forall is_byte (rev x)) as Hrev by by apply Forall_rev.
    split; [|unfold PutUint16BE, Write].
    + unfold unsigned. rewrite <- Hl, <- length_rev. by apply le_val_range.
    + rewrite <- Hl, <- length_rev, le_put_val by done. by rewrite rev_involutive.
Qed.

Lemma uint32_id n : unsigned 4 n → uint32 n = n.
Proof. intros Hn. apply Z.mod_small. exact Hn. Qed.

Definition hash_ok : Hash → Prop := bytes_of_len HashSize.
Definition header_ok (bh : BlockHeader) : Prop :=
  signed 4 (bh_Version bh) ∧ hash_ok (PrevBlock bh) ∧ hash_ok (MerkleRoot bh) ∧
  unsigned 4 (bh_Timestamp bh) ∧ unsigned 4 (Bits bh) ∧ unsigned 4 (bh_Nonce bh).

#[export] Instance codec_header : Codec header_ok writeBlockHeader readBlockHeader.
Proof.
  split.
  - intros bh rest (H1 & H2 & H3 & H4 & H5 & H6). unfold readBlockHeader, writeBlockHeader.
    rewrite uint32_id by done. rewrite <- !app_assoc.
    do 6 (rewrite codec_step by done). by destruct bh.
  - intros r bh rest Hr Hd. unfold readBlockHeader in Hd. rd_inv Hd.
    unfold writeBlockHeader, header_ok. cbn [bh_Timestamp]. rewrite uint32_id by done.
    by rewrite <- !app_assoc.
Qed.

Definition block_ok (enc : MessageEncoding) (b : MsgBlock) : Prop :=
  header_ok (Header b) ∧ counted (tx_ok enc) maxTxPerBlock (Transactions b).

#[export] Instance codec_block enc : Codec (block_ok enc) (MsgBlock_BtcEncode enc) (MsgBlock_BtcDecode enc).
Proof.
  split.
  - intros b rest [H1 H2]. unfold MsgBlock_BtcDecode, MsgBlock_BtcEncode.
    rewrite <- app_assoc. do 2 (rewrite codec_step by done). by destruct b.
  - intros r b rest Hr Hd. unfold MsgBlock_BtcDecode in Hd. rd_inv Hd.
    unfold MsgBlock_BtcEncode, block_ok. by rewrite <- app_assoc.
Qed.

Definition inv_ok (iv : InvVect) : Prop := unsigned 4 (iv_Type iv) ∧ hash_ok (iv_Hash iv).
#[export] Instance codec_inv_vect : Codec inv_ok writeInvVect readInvVect.
Proof.
  split.
  - intros iv rest [H1 H2]. unfold readInvVect, writeInvVect. rewrite <- app_assoc.
    do 2 (rewrite codec_step by done). by destruct iv.
  - intros r iv rest Hr Hd. unfold readInvVect in Hd. rd_inv Hd.
    unfold writeInvVect, inv_ok. by rewrite <- app_assoc.
Qed.

#[export] Instance codec_empty_block : Codec header_ok write_empty_block read_empty_block.
Proof.
  split.
  - intros bh rest Hb. unfold read_empty_block, write_empty_block. rewrite <- app_assoc.
    rewrite codec_step by done. rewrite codec_step by done. by rewrite guard_step by done.
  - intros r bh rest Hr Hd. unfold read_empty_block in Hd. rd_inv Hd.
    unfold write_empty_block. unfold unsigned in Hv0. assert (x0 = 0) as -> by lia. by rewrite <- app_assoc.
Qed.

Definition locator_ok (m : Locator) : Prop :=
  unsigned 4 (lo_ProtocolVersion m) ∧ counted hash_ok MaxBlockLocatorsPerMsg (BlockLocatorHashes m) ∧
  hash_ok (HashStop m).

(** The timestamp is on the wire from a protocol version on. *)
Definition netaddr_ok (pver : Z) (ts : bool) (na : NetAddress) : Prop :=
  (if ts && (NetAddressTimeVersion <=? pver) then unsigned 4 (na_Timestamp na) else na_Timestamp na = zeroTime) ∧
  unsigned 8 (Services na) ∧ bytes_of_len 16 (IP na) ∧ unsigned 2 (Port na).

Lemma ip_bytes_id ip : length ip = 16%nat → ip_bytes ip = ip.
Proof.
  intros Hl. unfold ip_bytes, To16. rewrite Hl. cbn [Nat.eqb]. by rewrite take_app_le, take_ge by lia.
Qed.

#[export] Instance codec_netaddr pver ts :
  Codec (netaddr_ok pver ts) (writeNetAddress pver ts) (readNetAddress pver ts).
Proof.
  split.
  - intros na rest (H1 & H2 & H3 & H4). unfold readNetAddress, writeNetAddress.
    rewrite ip_bytes_id by apply H3. destruct (ts && _).
    + rewrite uint32_id by done. rewrite <- !app_assoc. do 4 (rewrite codec_step by done). by destruct na.
    + cbn [app]. rewrite <- !app_assoc, mret_step. do 3 (rewrite codec_step by done).
      rewrite <- H1. by destruct na.
  - intros r na rest Hr Hd. unfold readNetAddress in Hd.
    unfold writeNetAddress, netaddr_ok. destruct (ts && _).
    + rd_inv Hd. cbn [na_Timestamp Services IP Port]. rewrite ip_bytes_id by apply Hv1.
      rewrite uint32_id by done. by rewrite <- !app_assoc.
    + apply rd_bind_ok in Hd as (t & r1 & [<- <-]%mret_ok & Hd). rd_inv Hd.
      cbn [na_Timestamp Services IP Port]. rewrite ip_bytes_id by apply Hv0. by rewrite <- !app_assoc.
Qed.

(** ** Messages *)

Lemma WOk_inj {A} (a b : A) : WOk a = WOk b → a = b.
Proof. by intros [=]. Qed.

(** The fields that are left, one codec or guard at a time. *)
Ltac fields :=
  rewrite <- ?app_assoc;
  repeat first
    [ rewrite guard_step by (apply Z.ltb_ge || apply Z.leb_gt; unfold unsigned in *; lia)
    | rewrite codec_step by done
    | rewrite mret_step ].

Lemma inv_decode_ok func l rest :
  counted inv_ok MaxInvPerMsg l → inv_decode func (write_counted writeInvVect l ++ rest) = WOk (l, rest).
Proof. intros Hl. unfold inv_decode. by apply codec_decode. Qed.

Lemma locator_decode_ok func m rest :
  locator_ok m →
  locator_decode func (PutUint32 (lo_ProtocolVersion m) ++ write_counted Write (BlockLocatorHashes m) ++
                       Write (HashStop m) ++ rest) = WOk (m, rest).
Proof. intros (H1 & H2 & H3). unfold locator_decode. fields. by destruct m. Qed.

Definition filterload_ok (m : MsgFilterLoad) : Prop :=
  short_bytes MaxFilterLoadFilterSize (Filter m) ∧ HashFuncs m ≤ MaxFilterLoadHashFuncs ∧
  unsigned 4 (HashFuncs m) ∧ unsigned 4 (Tweak m) ∧ unsigned 1 (fl_Flags m).
Lemma filterload_decode_ok pver m rest :
  BIP0037Version ≤ pver → filterload_ok m →
  MsgFilterLoad_BtcDecode pver (WriteVarBytes (Filter m) ++ PutUint32 (HashFuncs m) ++
    PutUint32 (Tweak m) ++ PutUint8 (fl_Flags m) ++ rest) = WOk (m, rest).
Proof. intros Hp (H1 & H2 & H3 & H4 & H5). unfold MsgFilterLoad_BtcDecode. fields. by destruct m. Qed.

Definition merkleblock_ok (m : MsgMerkleBlock) : Prop :=
  header_ok (mb_Header m) ∧ unsigned 4 (mb_Transactions m) ∧ counted hash_ok maxTxPerBlock (mb_Hashes m) ∧
  short_bytes maxFlagsPerMerkleBlock (mb_Flags m).
Lemma merkleblock_decode_ok pver m rest :
  BIP0037Version ≤ pver → merkleblock_ok m →
  MsgMerkleBlock_BtcDecode pver (writeBlockHeader (mb_Header m) ++ PutUint32 (mb_Transactions m) ++
    write_counted Write (mb_Hashes m) ++ WriteVarBytes (mb_Flags m) ++ rest) = WOk (m, rest).
Proof. intros Hp (H1 & H2 & H3 & H4). unfold MsgMerkleBlock_BtcDecode. fields. by destruct m. Qed.

(** The hash is on the wire for blocks and transactions only. *)
Definition reject_ok (m : MsgReject) : Prop :=
  short_bytes MaxMessagePayload (Cmd m) ∧ unsigned 1 (Code m) ∧ short_bytes MaxMessagePayload (Reason m) ∧
  if names_object (Cmd m) then hash_ok (rj_Hash m) else rj_Hash m = replicate HashSize 0.
Lemma reject_decode_ok pver m rest :
  RejectVersion ≤ pver → reject_ok m →
  MsgReject_BtcDecode pver (WriteVarBytes (Cmd m) ++ PutUint8 (Code m) ++ WriteVarBytes (Reason m) ++
    (if names_object (Cmd m) then Write (rj_Hash m) else []) ++ rest) = WOk (m, rest).
Proof.
  intros Hp (H1 & H2 & H3 & H4). unfold MsgReject_BtcDecode. fields.
  destruct (names_object (Cmd m)); fields; [by destruct m|]. rewrite <- H4. by destruct m.
Qed.

Definition cfrange_ok (m : CFRange) : Prop :=
  unsigned 1 (cr_FilterType m) ∧ unsigned 4 (StartHeight m) ∧ hash_ok (cr_StopHash m).
Lemma cfrange_decode_ok m rest : cfrange_ok m → cfrange_decode (cfrange_encode m ++ rest) = WOk (m, rest).
Proof. intros (H1 & H2 & H3). unfold cfrange_decode, cfrange_encode. fields. by destruct m. Qed.

Definition getcfcheckpt_ok (m : MsgGetCFCheckpt) : Prop := unsigned 1 (gc_FilterType m) ∧ hash_ok (gc_StopHash m).
Lemma getcfcheckpt_decode_ok m rest :
  getcfcheckpt_ok m → MsgGetCFCheckpt_BtcDecode (MsgGetCFCheckpt_BtcEncode m ++ rest) = WOk (m, rest).
Proof. intros (H1 & H2). unfold MsgGetCFCheckpt_BtcDecode, MsgGetCFCheckpt_BtcEncode. fields. by destruct m. Qed.

Definition cfilter_ok (m : MsgCFilter) : Prop :=
  unsigned 1 (cf_FilterType m) ∧ hash_ok (cf_BlockHash m) ∧ short_bytes MaxCFilterDataSize (cf_Data m).
Lemma cfilter_decode_ok m rest :
  cfilter_ok m → MsgCFilter_BtcDecode (PutUint8 (cf_FilterType m) ++ Write (cf_BlockHash m) ++
    WriteVarBytes (cf_Data m) ++ rest) = WOk (m, rest).
Proof. intros (H1 & H2 & H3). unfold MsgCFilter_BtcDecode. fields. by destruct m. Qed.

Definition cfheaders_ok (m : MsgCFHeaders) : Prop :=
  unsigned 1 (ch_FilterType m) ∧ hash_ok (ch_StopHash m) ∧ hash_ok (PrevFilterHeader m) ∧
  counted hash_ok MaxCFHeadersPerMsg (FilterHashes m).
Lemma cfheaders_decode_ok m rest :
  cfheaders_ok m → MsgCFHeaders_BtcDecode (PutUint8 (ch_FilterType m) ++ Write (ch_StopHash m) ++
    Write (PrevFilterHeader m) ++ write_counted Write (FilterHashes m) ++ rest) = WOk (m, rest).
Proof. intros (H1 & H2 & H3 & H4). unfold MsgCFHeaders_BtcDecode. fields. by destruct m. Qed.

Definition cfcheckpt_ok (m : MsgCFCheckpt) : Prop :=
  unsigned 1 (cc_FilterType m) ∧ hash_ok (cc_StopHash m) ∧ counted hash_ok maxCFHeadersLen (FilterHeaders m).
Lemma cfcheckpt_decode_ok m rest :
  cfcheckpt_ok m → MsgCFCheckpt_BtcDecode (MsgCFCheckpt_BtcEncode m ++ rest) = WOk (m, rest).
Proof. intros (H1 & H2 & H3). unfold MsgCFCheckpt_BtcDecode, MsgCFCheckpt_BtcEncode. fields. by destruct m. Qed.

(** ** Version *)

(** From BIP 37 on the flag is on the wire; before, it keeps its zero. *)
Definition version_ok (pver : Z) (m : MsgVersion) : Prop :=
  signed 4 (v_ProtocolVersion m) ∧ unsigned 8 (v_Services m) ∧ signed 8 (v_Timestamp m) ∧
  netaddr_ok pver false (AddrYou m) ∧ netaddr_ok pver false (AddrMe m) ∧ unsigned 8 (v_Nonce m) ∧
  Forall is_byte (UserAgent m) ∧ zlen (UserAgent m) ≤ MaxUserAgentLen ∧ signed 4 (LastBlock m) ∧
  (pver < BIP0037Version → DisableRelayTx m = false).

(** An optional field that is there. *)
Lemma optional_step {A B} (zero : A) (rd : Reader A) (f : A → Reader B) r x r' :
  r ≠ [] → rd r = WOk (x, r') → (optional zero rd ≫= f) r = f x r'.
Proof. intros Hr Hd. unfold mbind, Reader_bind, optional. destruct r; [done|]. by rewrite Hd. Qed.

Lemma le_put_app_nonempty w n (r : list byte) : le_put (S w) n ++ r ≠ [].
Proof. done. Qed.
Lemma netaddr_nonempty pver na (r : list byte) : writeNetAddress pver false na ++ r ≠ [].
Proof. unfold writeNetAddress. cbn [andb app]. rewrite <- !app_assoc. apply le_put_app_nonempty. Qed.
Ltac nonempty := first [apply netaddr_nonempty | apply le_put_app_nonempty].

Lemma version_decode_ok pver m b :
  version_ok pver m → MsgVersion_BtcEncode pver m = WOk b → MsgVersion_BtcDecode pver b = WOk (m, []).
Proof.
  intros (H1 & H2 & H3 & H4 & H5 & H6 & H7 & H8 & H9 & H10).
  assert (validateUserAgent (UserAgent m) = true) as Hua by by apply Z.leb_le.
  unfold MsgVersion_BtcEncode. rewrite Hua. cbn [negb enc_guard].
  intros Hb%WOk_inj. subst b. unfold MsgVersion_BtcDecode. fields.
  erewrite (optional_step _ _ _ _ (AddrMe m)); [|by nonempty|by apply codec_decode].
  erewrite (optional_step _ _ _ _ (v_Nonce m)); [|by nonempty|by apply codec_decode].
  erewrite (optional_step _ _ _ _ (UserAgent m)); cycle 1.
  { unfold WriteVarBytes, WriteVarInt. by repeat case_match. }
  { rewrite codec_step by (unfold short_bytes, MaxUserAgentLen, MaxMessagePayload in *; split_and!; [lia|done|lia]).
    rewrite Hua. by rewrite guard_step by done. }
  erewrite (optional_step _ _ _ _ (LastBlock m)); [|by nonempty|by apply codec_decode].
  destruct (Z.leb_spec BIP0037Version pver) as [Hp|Hp].
  - assert (∀ d : bool, (optional false (relayTx ← ReadBool; mret (negb relayTx))) (PutBool (negb d)) = WOk (d, [])) as Hd
      by by intros [].
    unfold mbind at 1, Reader_bind at 1. rewrite Hd. by destruct m.
  - unfold mbind at 1, Reader_bind at 1. cbn [optional]. rewrite <- H10 by done. by destruct m.
Qed.

(** ** Alerts *)

Definition alert_ok (a : Alert) : Prop :=
  signed 4 (al_Version a) ∧ signed 8 (RelayUntil a) ∧ signed 8 (Expiration a) ∧ signed 4 (ID a) ∧
  signed 4 (Cancel a) ∧ counted (signed 4) maxCountSetCancel (SetCancel a) ∧ signed 4 (MinVer a) ∧
  signed 4 (MaxVer a) ∧ counted (short_bytes MaxMessagePayload) maxCountSetSubVer (SetSubVer a) ∧
  signed 4 (Priority a) ∧ short_bytes MaxMessagePayload (Comment a) ∧
  short_bytes MaxMessagePayload (StatusBar a) ∧ short_bytes MaxMessagePayload (Reserved a).
Lemma alert_roundtrip a b :
  alert_ok a → Alert_Serialize a = WOk b → NewAlertFromPayload b = WOk a.
Proof.
  intros (H1 & H2 & H3 & H4 & H5 & H6 & H7 & H8 & H9 & H10 & H11 & H12 & H13).
  unfold Alert_Serialize, enc_guard. destruct (_ <? _); [done|]. destruct (_ <? _); [done|].
  intros Hb%WOk_inj. subst b. unfold NewAlertFromPayload, Alert_Deserialize.
  rewrite <- (app_nil_r (WriteVarBytes (Reserved a))). fields. by destruct a.
Qed.

(** The payload is kept next to its bytes, when it could be read. *)
Definition msgalert_ok (m : MsgAlert) : Prop :=
  SerializedPayload m ≠ [] ∧ short_bytes MaxMessagePayload (SerializedPayload m) ∧
  short_bytes MaxMessagePayload (Signature m) ∧
  match Payload m with
  | Some a => alert_ok a ∧ Alert_Serialize a = WOk (SerializedPayload m)
  | None => ∀ a, NewAlertFromPayload (SerializedPayload m) ≠ WOk a
  end.
Lemma msgalert_decode_ok m rest :
  msgalert_ok m →
  MsgAlert_BtcEncode m = WOk (WriteVarBytes (SerializedPayload m) ++ WriteVarBytes (Signature m)) ∧
  MsgAlert_BtcDecode (WriteVarBytes (SerializedPayload m) ++ WriteVarBytes (Signature m) ++ rest) = WOk (m, rest).
Proof.
  intros (H1 & H2 & H3 & H4). split.
  - unfold MsgAlert_BtcEncode.
    assert ((length (SerializedPayload m) =? 0)%nat = false) as Hne
      by (apply Nat.eqb_neq; by destruct (SerializedPayload m)).
    destruct (Payload m) as [a|]; [destruct H4 as [_ ->]|]; cbv zeta; unfold enc_guard; by rewrite Hne.
  - unfold MsgAlert_BtcDecode. fields. destruct m as [sp sg [a|]]; cbn in *.
    + destruct H4 as [Ha Hs]. by rewrite (alert_roundtrip a sp).
    + destruct (NewAlertFromPayload sp) as [a| |] eqn:E; [|done..]. by destruct (H4 a).
Qed.

(** ** Addresses of several networks *)

Definition netAddr_ok (a : NetAddr) : Prop :=
  bytes_of_len (Z.to_nat (address_size (networkID a))) (addr_bytes a) ∧
  match a with ipv6Addr b => isOnionCatTor b = false | _ => True end.
Definition v2_ok (na : NetAddressV2) : Prop :=
  unsigned 4 (n2_Timestamp na) ∧ unsigned 8 (n2_Services na) ∧ unsigned 2 (n2_Port na) ∧
  ∃ a, n2_Addr na = Some a ∧ netAddr_ok a.

Lemma v2_step {A B} {valid : A → Prop} {enc dec} `{!Codec valid enc dec} w (f : A → V2 B) na x rest :
  valid x → (v2_read dec w ≫= f) (na, enc x ++ rest) = f x (na, rest).
Proof. intros Hx. unfold mbind, V2_bind, v2_read. cbn [fst snd]. by rewrite codec_decode. Qed.
Lemma v2_set_step {B} g (f : () → V2 B) na r : (v2_set g ≫= f) (na, r) = f () (g na, r).
Proof. done. Qed.

Lemma v2_roundtrip na rest :
  v2_ok na → ∃ b, writeNetAddressV2 na = WOk b ∧
    readNetAddressV2 (emptyV2, b ++ rest) = (inl (), (na, rest)).
Proof.
  intros (H1 & H2 & H3 & a & Ha & [Hb Hcat]). unfold writeNetAddressV2. rewrite Ha. eexists. split; [done|].
  rewrite uint32_id by done. unfold readNetAddressV2, v2_varint, v2_bytes. rewrite <- !app_assoc.
  rewrite v2_step, v2_set_step by done. rewrite v2_step, v2_set_step by done.
  rewrite (v2_step (dec := Uint8)) by by destruct a.
  assert (zlen (addr_bytes a) = address_size (networkID a)) as Hlen.
  { destruct Hb as [Hl _]. rewrite Hl. by destruct a. }
  rewrite v2_step by (rewrite Hlen; by destruct a). rewrite Hlen, Z.eqb_refl.
  assert (isKnownNetworkID (networkID a) = true) as -> by by destruct a. cbn [negb].
  rewrite (v2_step (dec := ReadFull _)) by done. rewrite v2_step by done. rewrite v2_set_step.
  destruct na as [ts sv ad pt]. cbn in Ha. subst ad.
  destruct a; cbn in Hcat |- *; rewrite ?Hcat; done.
Qed.

Lemma v2_list_roundtrip l rest :
  Forall v2_ok l → ∃ b, write_addrs_v2 l = WOk b ∧ read_addrs_v2 (length l) (b ++ rest) = WOk (l, rest).
Proof.
  revert rest. induction l as [|na l IH]; intros rest Hl; [by exists []|].
  apply Forall_cons in Hl as [Hna Hl]. destruct (IH rest Hl) as (bs & Hw & Hr).
  destruct (v2_roundtrip na (bs ++ rest) Hna) as (b & Hb & Hrd).
  exists (b ++ bs). split; [cbn; by rewrite Hb, Hw|]. cbn [length read_addrs_v2].
  rewrite <- app_assoc, Hrd. by rewrite Hr.
Qed.

Lemma addrv2_decode_ok l rest :
  Forall v2_ok l → zlen l ≤ MaxV2AddrPerMsg →
  ∃ b, MsgAddrV2_BtcEncode l = WOk b ∧ MsgAddrV2_BtcDecode (b ++ rest) = WOk (l, rest).
Proof.
  intros Hl Hn. unfold MaxV2AddrPerMsg in *. destruct (v2_list_roundtrip l rest Hl) as (b & Hw & Hr).
  exists (WriteVarInt (zlen l) ++ b). split.
  - unfold MsgAddrV2_BtcEncode, enc_guard, MaxV2AddrPerMsg. rewrite (proj2 (Z.ltb_ge _ _)) by lia. by rewrite Hw.
  - unfold MsgAddrV2_BtcDecode, MaxV2AddrPerMsg. rewrite <- app_assoc, codec_step by (unfold unsigned; simpl; lia).
    rewrite guard_step by lia. by rewrite Nat2Z.id.
Qed.

(** The bytes run out: every address of the count is there, with no fields. *)
Lemma read_addrs_v2_empty n : read_addrs_v2 n [] = WOk (replicate n emptyV2, []).
Proof.
  induction n as [|n IH]; [done|]. cbn [read_addrs_v2].
  assert (readNetAddressV2 (emptyV2, []) = (inr EOF, (emptyV2, []))) as -> by done.
  cbn iota beta. by rewrite IH.
Qed.

(** A message of addresses that holds nothing but its count is accepted,
    with as many addresses as it announces, all of them without an address
    inside; handing the message to the server then panics, since the key of
    such an address calls a method of a nil interface value. *)
Theorem addrv2_truncated_panics n render :
  0 < n ≤ MaxV2AddrPerMsg →
  ∃ l, MsgAddrV2_BtcDecode (WriteVarInt n) = WOk (l, []) ∧ zlen l = n ∧
    Forall (λ na, n2_Addr na = None) l ∧ addKnownAddresses render l = WPanic.
Proof.
  unfold MaxV2AddrPerMsg. intros Hn. exists (replicate (Z.to_nat n) emptyV2). split_and!.
  - unfold MsgAddrV2_BtcDecode, MaxV2AddrPerMsg. rewrite <- (app_nil_r (WriteVarInt n)).
    rewrite codec_step by (unfold unsigned; simpl; lia). rewrite guard_step by lia. apply read_addrs_v2_empty.
  - rewrite length_replicate. lia.
  - by apply Forall_replicate.
  - destruct (Z.to_nat n) eqn:E; [lia|]. done.
Qed.

(** ** Blocks *)

Lemma zlen_header bh : header_ok bh → zlen (writeBlockHeader bh) = blockHeaderLen.
Proof.
  intros (_ & [H1 _] & [H2 _] & _). unfold writeBlockHeader, PutInt, Write. rewrite !zlen_app, !zlen_le_put, H1, H2. done.
Qed.

Lemma block_sizes b :
  block_ok WitnessEncoding b →
  zlen (MsgBlock_BtcEncode WitnessEncoding b) = MsgBlock_SerializeSize b ∧
  zlen (MsgBlock_BtcEncode BaseEncoding b) = MsgBlock_SerializeSizeStripped b.
Proof.
  intros [Hh (_ & Ht & _)]. unfold MsgBlock_BtcEncode, MsgBlock_SerializeSize, MsgBlock_SerializeSizeStripped.
  rewrite !zlen_app, zlen_header by done.
  rewrite (write_counted_size (btcEncode WitnessEncoding) SerializeSize),
    (write_counted_size (btcEncode BaseEncoding) SerializeSizeStripped); [lia|..].
  all: eapply Forall_impl; [exact Ht|]; intros tx (_ & Hin & _); apply tx_sizes;
    eapply Forall_impl; [exact Hin|]; by intros ti [[[Hl _] _] _].
Qed.

Lemma Forall2_fst_snd {A B} (R : A → B → Prop) (l : list (A * B)) :
  Forall (λ p, R (fst p) (snd p)) l → Forall2 R (map fst l) (map snd l).
Proof. induction 1; by constructor. Qed.

(** The locations of transactions are where their bytes are. *)
Definition located (bytes : list byte) (loc : TxLoc) (tx : MsgTx) : Prop :=
  0 ≤ TxStart loc ∧ take (Z.to_nat (TxLen loc)) (drop (Z.to_nat (TxStart loc)) bytes) = Serialize tx.

Lemma read_txlocs_ok n before r l rest :
  Forall is_byte r → read_txlocs n (zlen (before ++ r)) r = WOk (l, rest) →
  Forall (λ p, located (before ++ r) (fst p) (snd p)) l ∧ length l = n ∧
  r = write_list (btcEncode WitnessEncoding) (map snd l) ++ rest ∧ Forall (tx_ok WitnessEncoding) (map snd l).
Proof.
  revert before r l rest. induction n as [|n IH]; intros before r l rest Hr; cbn [read_txlocs].
  { intros [= <- <-]. done. }
  destruct (btcDecode WitnessEncoding r) as [[tx r1]| |] eqn:Ed; [|done..].
  apply codec_canonical in Ed as [Htx ->]; [|done]. apply Forall_app in Hr as [_ Hr1].
  pose proof (IH (before ++ btcEncode WitnessEncoding tx) r1) as IH'. rewrite <- app_assoc in IH'.
  destruct (read_txlocs n _ r1) as [[l' r2]| |] eqn:Er; [|done..].
  intros Hw%WOk_inj. apply pair_equal_spec in Hw as [<- <-].
  destruct (IH' l' r2 Hr1 eq_refl) as (Hf & Hl & He & Hok). cbn [map fst snd length].
  split_and!; [constructor; [|done]|by rewrite Hl| |by constructor].
  - unfold located. cbn [TxStart TxLen fst snd].
    set (e := btcEncode WitnessEncoding tx). rewrite !zlen_app.
    replace (zlen before + (zlen e + zlen r1) - (zlen e + zlen r1)) with (zlen before) by lia.
    replace (zlen before + (zlen e + zlen r1) - zlen r1 - zlen before) with (zlen e) by lia.
    split; [lia|]. rewrite (Nat2Z.id (length before)).
    rewrite Nat2Z.id, drop_app_length, take_app_length. done.
  - rewrite He. unfold write_list. cbn [map concat]. by rewrite <- app_assoc.
Qed.

(** Blocks on the wire: a block has one encoding, whose length is the
    declared size with and without witnesses; and the locations that are
    computed for its transactions are those of their encodings in it. *)
Theorem block_wire enc :
  (∀ b rest, block_ok enc b → MsgBlock_BtcDecode enc (MsgBlock_BtcEncode enc b ++ rest) = WOk (b, rest)) ∧
  (∀ r b rest, Forall is_byte r → MsgBlock_BtcDecode enc r = WOk (b, rest) →
     block_ok enc b ∧ r = MsgBlock_BtcEncode enc b ++ rest) ∧
  (∀ b, block_ok WitnessEncoding b →
     zlen (MsgBlock_BtcEncode WitnessEncoding b) = MsgBlock_SerializeSize b ∧
     zlen (MsgBlock_BtcEncode BaseEncoding b) = MsgBlock_SerializeSizeStripped b) ∧
  (∀ r b locs rest, Forall is_byte r → DeserializeTxLoc r = WOk ((b, locs), rest) →
     r = MsgBlock_BtcEncode WitnessEncoding b ++ rest ∧ Forall2 (located r) locs (Transactions b)).
Proof.
  split_and!.
  - intros b rest. apply codec_decode.
  - intros r b rest. apply codec_canonical.
  - apply block_sizes.
  - intros r b locs rest Hr Hd. unfold DeserializeTxLoc in Hd. set (n := zlen r) in Hd.
    pose proof (eq_refl : n = zlen r) as Hn. clearbody n. rd_inv1 Hd. rd_inv1 Hd. rd_inv1 Hd.
    apply rd_bind_ok in Hd as (l & r' & Hl & Hm). apply mret_ok in Hm as [[= <- <-] ->].
    rewrite app_assoc in Hn, Hr |- *. subst n.
    apply read_txlocs_ok in Hl as (Hloc & Hlen & -> & _); [|done].
    unfold MsgBlock_BtcEncode, write_counted. cbn [Header Transactions].
    replace (zlen (map snd l)) with x0 by (rewrite length_map, Hlen; unfold unsigned in *; lia).
    split; [by rewrite <- !app_assoc|]. by apply Forall2_fst_snd.
Qed.

(** ** Wire protocol: what is written is read, and the stream stays in step *)

(** ** Well-formed messages, for a protocol version and an encoding *)

Definition msg_ok (pver : Z) (enc : MessageEncoding) (m : Message) : Prop :=
  match m with
  | MsgVersion_ m => version_ok pver m
  | MsgVerAck | MsgSendAddrV2 | MsgGetAddr => True
  | MsgAddr l =>
      counted (netaddr_ok pver true) MaxAddrPerMsg l ∧ (pver < MultipleAddressVersion → zlen l ≤ 1)
  | MsgAddrV2 l => Forall v2_ok l ∧ zlen l ≤ MaxV2AddrPerMsg
  | MsgGetBlocks m | MsgGetHeaders m => locator_ok m
  | MsgBlock_ m => block_ok enc m
  | MsgInv l | MsgGetData l | MsgNotFound l => counted inv_ok MaxInvPerMsg l
  | MsgTx_ m => tx_ok enc m
  | MsgPing n => unsigned 8 n ∧ (pver ≤ BIP0031Version → n = 0)
  | MsgPong n => unsigned 8 n ∧ BIP0031Version < pver
  | MsgHeaders l => counted header_ok MaxBlockHeadersPerMsg l
  | MsgAlert_ m => msgalert_ok m
  | MsgMemPool => BIP0035Version ≤ pver
  | MsgFilterAdd d => BIP0037Version ≤ pver ∧ short_bytes MaxFilterAddDataSize d
  | MsgFilterClear => BIP0037Version ≤ pver
  | MsgFilterLoad_ m => BIP0037Version ≤ pver ∧ filterload_ok m
  | MsgMerkleBlock_ m => BIP0037Version ≤ pver ∧ merkleblock_ok m
  | MsgReject_ m => RejectVersion ≤ pver ∧ reject_ok m
  | MsgSendHeaders => SendHeadersVersion ≤ pver
  | MsgFeeFilter z => FeeFilterVersion ≤ pver ∧ signed 8 z
  | MsgGetCFilters m | MsgGetCFHeaders m => cfrange_ok m
  | MsgGetCFCheckpt_ m => getcfcheckpt_ok m
  | MsgCFilter_ m => cfilter_ok m
  | MsgCFHeaders_ m => cfheaders_ok m
  | MsgCFCheckpt_ m => cfcheckpt_ok m
  end.

Lemma then_mret {A} (rd : Reader A) (f : A → Message) b x rest :
  rd b = WOk (x, rest) → (x ← rd; mret (f x)) b = WOk (f x, rest).
Proof. intros Hr. unfold mbind, Reader_bind. by rewrite Hr. Qed.

Lemma enc_guard_pass b func r : b = false → enc_guard b func r = r.
Proof. by intros ->. Qed.

(** The empty message the decoder of [m] starts from. *)
Definition message_type (m : Message) : nat :=
  match m with
  | MsgVersion_ _ => 0 | MsgVerAck => 1 | MsgSendAddrV2 => 2 | MsgGetAddr => 3 | MsgAddr _ => 4
  | MsgAddrV2 _ => 5 | MsgGetBlocks _ => 6 | MsgBlock_ _ => 7 | MsgInv _ => 8 | MsgGetData _ => 9
  | MsgNotFound _ => 10 | MsgTx_ _ => 11 | MsgPing _ => 12 | MsgPong _ => 13 | MsgGetHeaders _ => 14
  | MsgHeaders _ => 15 | MsgAlert_ _ => 16 | MsgMemPool => 17 | MsgFilterAdd _ => 18 | MsgFilterClear => 19
  | MsgFilterLoad_ _ => 20 | MsgMerkleBlock_ _ => 21 | MsgReject_ _ => 22 | MsgSendHeaders => 23 | MsgFeeFilter _ => 24
  | MsgGetCFilters _ => 25 | MsgGetCFHeaders _ => 26 | MsgGetCFCheckpt_ _ => 27 | MsgCFilter_ _ => 28 | MsgCFHeaders_ _ => 29
  | MsgCFCheckpt_ _ => 30
  end.
Definition empty_of (m : Message) : Message := nth (message_type m) emptyMessages MsgVerAck.
Lemma empty_of_ok m pver :
  makeEmptyMessage (ascii_bytes (Command m)) = Some (empty_of m) ∧
  MaxPayloadLength pver (empty_of m) = MaxPayloadLength pver m.
Proof. destruct m; (split; [vm_compute; reflexivity|reflexivity]). Qed.

Definition decodes_to (pver : Z) (enc : MessageEncoding) (m : Message) : Prop :=
  ∃ b, BtcEncode pver enc m = WOk b ∧ BtcDecode pver enc (empty_of m) b = WOk (m, []).

Lemma decodes_by {A} (rd : Reader A) (f : A → Message) x b pver enc m :
  m = f x → BtcEncode pver enc m = WOk b → BtcDecode pver enc (empty_of m) = (x ← rd; mret (f x)) →
  rd (b ++ []) = WOk (x, []) → decodes_to pver enc m.
Proof.
  intros -> He Hd Hr. exists b. split; [done|]. rewrite Hd. rewrite app_nil_r in Hr. by apply then_mret.
Qed.

(** The guards of an encoder pass. *)
Ltac guards :=
  unfold MsgGetBlocks_BtcEncode, MsgGetHeaders_BtcEncode, locator_encode, MsgInv_BtcEncode,
    MsgGetData_BtcEncode, MsgNotFound_BtcEncode, inv_encode, MsgPong_BtcEncode, MsgHeaders_BtcEncode,
    MsgFilterAdd_BtcEncode, MsgFilterLoad_BtcEncode, MsgMerkleBlock_BtcEncode, MsgReject_BtcEncode,
    MsgFeeFilter_BtcEncode, MsgCFilter_BtcEncode, MsgCFHeaders_BtcEncode, MsgMemPool_BtcEncode,
    MsgFilterClear_BtcEncode, MsgSendHeaders_BtcEncode, bare_encode; cbv zeta;
  repeat (rewrite enc_guard_pass by first
    [ apply Z.ltb_ge; unfold counted, short_bytes in *; intuition lia
    | apply Z.leb_gt; intuition lia ]); reflexivity.
Ltac by_decoder rd f :=
  eapply (decodes_by rd f); [reflexivity|cbn [BtcEncode]|reflexivity|].

Lemma ping_ok pver enc n :
  unsigned 8 n → (pver ≤ BIP0031Version → n = 0) → decodes_to pver enc (MsgPing n).
Proof.
  intros Hn H0. eapply (decodes_by (MsgPing_BtcDecode pver) MsgPing); [reflexivity..|].
  unfold MsgPing_BtcDecode. destruct (Z.ltb_spec BIP0031Version pver) as [Hp|Hp].
  - by apply codec_decode.
  - by rewrite H0.
Qed.
Lemma addr_ok pver enc l :
  counted (netaddr_ok pver true) MaxAddrPerMsg l → (pver < MultipleAddressVersion → zlen l ≤ 1) →
  decodes_to pver enc (MsgAddr l).
Proof.
  intros Hl H1. by_decoder (MsgAddr_BtcDecode pver) MsgAddr.
  - unfold MsgAddr_BtcEncode. rewrite enc_guard_pass; [by guards|].
    destruct (Z.ltb_spec pver MultipleAddressVersion); [|done]. apply Z.ltb_ge. by apply H1.
  - by apply codec_decode.
Qed.
Lemma addrv2_ok pver enc l :
  Forall v2_ok l → zlen l ≤ MaxV2AddrPerMsg → decodes_to pver enc (MsgAddrV2 l).
Proof.
  intros Hl Hn. destruct (addrv2_decode_ok l [] Hl Hn) as (b & He & Hd).
  eapply (decodes_by MsgAddrV2_BtcDecode MsgAddrV2); [reflexivity|exact He|reflexivity|exact Hd].
Qed.
Lemma alert_msg_ok pver enc m : msgalert_ok m → decodes_to pver enc (MsgAlert_ m).
Proof.
  intros Hm. destruct (msgalert_decode_ok m [] Hm) as [He Hd].
  eapply (decodes_by MsgAlert_BtcDecode MsgAlert_); [reflexivity|exact He|reflexivity|]. by rewrite <- app_assoc.
Qed.
Lemma version_msg_ok pver enc m : version_ok pver m → decodes_to pver enc (MsgVersion_ m).
Proof.
  intros Hm. assert (validateUserAgent (UserAgent m) = true) as Hua by (apply Z.leb_le, Hm).
  destruct (MsgVersion_BtcEncode pver m) as [b| |] eqn:E; [|by unfold MsgVersion_BtcEncode in E; rewrite Hua in E..].
  eapply (decodes_by (MsgVersion_BtcDecode pver) MsgVersion_); [reflexivity|exact E|reflexivity|].
  rewrite app_nil_r. by eapply version_decode_ok.
Qed.

(** Every well-formed message is encoded, and decoded to itself. *)
Lemma msg_roundtrip pver enc m : msg_ok pver enc m → decodes_to pver enc m.
Proof.
  destruct m; cbn [msg_ok]; intros Hm.
  - by apply version_msg_ok.
  - exists []. split; reflexivity.
  - exists []. split; reflexivity.
  - exists []. split; reflexivity.
  - destruct Hm. by apply addr_ok.
  - destruct Hm. by apply addrv2_ok.
  - pose proof Hm as (_ & Hc & _). by_decoder MsgGetBlocks_BtcDecode MsgGetBlocks; [guards|rewrite <- ?app_assoc; by apply locator_decode_ok].
  - by_decoder (MsgBlock_BtcDecode enc) MsgBlock_; [done|rewrite <- ?app_assoc; by apply codec_decode].
  - by_decoder MsgInv_BtcDecode MsgInv; [guards|rewrite <- ?app_assoc; by apply inv_decode_ok].
  - by_decoder MsgGetData_BtcDecode MsgGetData; [guards|rewrite <- ?app_assoc; by apply inv_decode_ok].
  - by_decoder MsgNotFound_BtcDecode MsgNotFound; [guards|rewrite <- ?app_assoc; by apply inv_decode_ok].
  - by_decoder (btcDecode enc) MsgTx_; [done|rewrite <- ?app_assoc; by apply codec_decode].
  - destruct Hm. by apply ping_ok.
  - destruct Hm. by_decoder (MsgPong_BtcDecode pver) MsgPong; [guards|].
    unfold MsgPong_BtcDecode. rewrite guard_step by by apply Z.leb_gt. by apply codec_decode.
  - pose proof Hm as (_ & Hc & _). by_decoder MsgGetHeaders_BtcDecode MsgGetHeaders; [guards|rewrite <- ?app_assoc; by apply locator_decode_ok].
  - by_decoder MsgHeaders_BtcDecode MsgHeaders; [guards|rewrite <- ?app_assoc; by apply codec_decode].
  - by apply alert_msg_ok.
  - exists []. split; [cbn [BtcEncode]; guards|].
    change (BtcDecode pver enc (empty_of MsgMemPool)) with (MsgMemPool_BtcDecode pver;; mret MsgMemPool).
    unfold MsgMemPool_BtcDecode, bare_decode. by rewrite (proj2 (Z.ltb_ge _ _)).
  - destruct Hm. by_decoder (MsgFilterAdd_BtcDecode pver) MsgFilterAdd; [guards|].
    unfold MsgFilterAdd_BtcDecode. rewrite guard_step by by apply Z.ltb_ge. by apply codec_decode.
  - exists []. split; [cbn [BtcEncode]; guards|].
    change (BtcDecode pver enc (empty_of MsgFilterClear)) with (MsgFilterClear_BtcDecode pver;; mret MsgFilterClear).
    unfold MsgFilterClear_BtcDecode, bare_decode. by rewrite (proj2 (Z.ltb_ge _ _)).
  - destruct Hm as [Hp Hm]. pose proof Hm as (Hf & Hh & _).
    by_decoder (MsgFilterLoad_BtcDecode pver) MsgFilterLoad_; [guards|rewrite <- ?app_assoc; by apply filterload_decode_ok].
  - destruct Hm as [Hp Hm]. pose proof Hm as (_ & _ & Hc & Hf).
    by_decoder (MsgMerkleBlock_BtcDecode pver) MsgMerkleBlock_; [guards|rewrite <- ?app_assoc; by apply merkleblock_decode_ok].
  - destruct Hm as [Hp Hm]. by_decoder (MsgReject_BtcDecode pver) MsgReject_; [guards|rewrite <- ?app_assoc; by apply reject_decode_ok].
  - exists []. split; [cbn [BtcEncode]; guards|].
    change (BtcDecode pver enc (empty_of MsgSendHeaders)) with (MsgSendHeaders_BtcDecode pver;; mret MsgSendHeaders).
    unfold MsgSendHeaders_BtcDecode, bare_decode. by rewrite (proj2 (Z.ltb_ge _ _)).
  - destruct Hm. by_decoder (MsgFeeFilter_BtcDecode pver) MsgFeeFilter; [guards|].
    unfold MsgFeeFilter_BtcDecode. rewrite guard_step by by apply Z.ltb_ge. by apply codec_decode.
  - by_decoder MsgGetCFilters_BtcDecode MsgGetCFilters; [done|rewrite <- ?app_assoc; by apply cfrange_decode_ok].
  - by_decoder MsgGetCFHeaders_BtcDecode MsgGetCFHeaders; [done|rewrite <- ?app_assoc; by apply cfrange_decode_ok].
  - by_decoder MsgGetCFCheckpt_BtcDecode MsgGetCFCheckpt_; [done|rewrite <- ?app_assoc; by apply getcfcheckpt_decode_ok].
  - pose proof Hm as (_ & _ & Hc). by_decoder MsgCFilter_BtcDecode MsgCFilter_; [guards|rewrite <- ?app_assoc; by apply cfilter_decode_ok].
  - pose proof Hm as (_ & _ & _ & Hc). by_decoder MsgCFHeaders_BtcDecode MsgCFHeaders_; [guards|rewrite <- ?app_assoc; by apply cfheaders_decode_ok].
  - by_decoder MsgCFCheckpt_BtcDecode MsgCFCheckpt_; [done|rewrite <- ?app_assoc; by apply cfcheckpt_decode_ok].
Qed.

(** ** Discarding input *)

Lemma discard_chunks_drop k r : discard_chunks k r = drop (k * maxSize) r.
Proof.
  revert r. induction k as [|k IH]; intros r; [done|]. cbn [discard_chunks]. rewrite IH, drop_drop. done.
Qed.
Lemma discardInput_drop n r : discardInput n r = drop n r.
Proof.
  unfold discardInput. rewrite discard_chunks_drop. pose proof (Nat.div_mod_eq n maxSize) as Hn.
  destruct (Nat.ltb_spec 0 (n mod maxSize)).
  - rewrite drop_drop. f_equal. lia.
  - f_equal. lia.
Qed.

(** ** Headers *)

Definition header_bytes (net : Z) (cmd : list byte) (len : Z) (sum : list byte) : list byte :=
  PutUint32 net ++ Write (take CommandSize (cmd ++ replicate CommandSize 0)) ++ PutUint32 len ++ Write sum.

Lemma command_field m :
  let cmd := ascii_bytes (Command m) in
  bytes_of_len CommandSize (take CommandSize (cmd ++ replicate CommandSize 0)) ∧
  trim_zeros (take CommandSize (cmd ++ replicate CommandSize 0)) = cmd ∧
  (CommandSize <? length cmd)%nat = false ∧ is_text cmd = true.
Proof.
  destruct m; (split; [split; [reflexivity|by repeat constructor]|split; [reflexivity|split; reflexivity]]).
Qed.

Lemma read_header net m len sum rest :
  unsigned 4 net → unsigned 4 len → bytes_of_len 4 sum →
  readMessageHeader (header_bytes net (ascii_bytes (Command m)) len sum ++ rest) =
  WOk (mkMessageHeader net (ascii_bytes (Command m)) len sum, rest).
Proof.
  intros Hn Hl Hs. destruct (command_field m) as (Hc & Ht & _).
  set (cmd := take CommandSize _) in *. unfold readMessageHeader.
  assert (ReadFull MessageHeaderSize (header_bytes net (ascii_bytes (Command m)) len sum ++ rest) =
    WOk (header_bytes net (ascii_bytes (Command m)) len sum, rest)) as ->.
  { apply ReadFull_ok. split; [|done]. unfold header_bytes, Write. fold cmd.
    rewrite !length_app, !le_put_length, (proj1 Hc), (proj1 Hs). done. }
  unfold header_fields, header_bytes. fold cmd.
  rewrite <- (app_nil_r (Write sum)). do 4 (rewrite codec_step by done). by rewrite Ht.
Qed.

Section Frames.
Context `{Sha}.

Lemma checksum_size payload : bytes_of_len 4 (payload_checksum payload).
Proof.
  unfold payload_checksum. destruct (sha256_size (sha256 payload)) as [Hl Hb]. split.
  - rewrite length_take. unfold DoubleHashH. by rewrite Hl.
  - by apply Forall_take.
Qed.

(** What [WriteMessage] writes. *)
Lemma WriteMessage_ok pver net enc m bytes :
  WriteMessage pver net enc m = WOk bytes →
  ∃ payload, BtcEncode pver enc m = WOk payload ∧ zlen payload ≤ MaxMessagePayload ∧
    zlen payload ≤ MaxPayloadLength pver m ∧
    bytes = header_bytes net (ascii_bytes (Command m)) (zlen payload) (payload_checksum payload) ++ payload.
Proof.
  unfold WriteMessage. destruct (command_field m) as (_ & _ & -> & _).
  unfold mbind, WRes_bind. destruct (BtcEncode pver enc m) as [payload| |]; [|done..].
  destruct (Z.ltb_spec MaxMessagePayload (zlen payload)) as [|Hmax]; [done|].
  assert (uint32 (zlen payload) = zlen payload) as Hu.
  { apply uint32_id. unfold unsigned, MaxMessagePayload in *. simpl. lia. }
  rewrite Hu. destruct (Z.ltb_spec (MaxPayloadLength pver m) (zlen payload)) as [|Hm]; [done|].
  intros Hb%WOk_inj. exists payload. split_and!; [done..|]. subst bytes. unfold header_bytes.
  by rewrite <- !app_assoc.
Qed.

Lemma frame_roundtrip pver net enc m bytes rest :
  unsigned 4 net → msg_ok pver enc m → WriteMessage pver net enc m = WOk bytes →
  ∃ payload, BtcEncode pver enc m = WOk payload ∧
    ReadMessage pver net enc (bytes ++ rest) = (WOk (m, payload), rest).
Proof.
  intros Hn Hm (payload & He & Hmax & Hlen & ->)%WriteMessage_ok. exists payload. split; [done|].
  destruct (msg_roundtrip pver enc m Hm) as (b & Hb & Hd). rewrite He in Hb. apply WOk_inj in Hb. subst b.
  unfold ReadMessage. rewrite <- app_assoc. rewrite read_header; [|done| |apply checksum_size].
  2: { unfold unsigned, MaxMessagePayload in *. simpl. lia. }
  cbn [length_ magic command checksum]. rewrite (proj2 (Z.ltb_ge MaxMessagePayload _)) by done.
  rewrite Z.eqb_refl. destruct (command_field m) as (_ & _ & _ & ->). cbn [negb].
  destruct (empty_of_ok m pver) as [-> Hpl]. rewrite Hpl, (proj2 (Z.ltb_ge _ _)) by done.
  rewrite Nat2Z.id. assert (ReadFull (length payload) (payload ++ rest) = WOk (payload, rest)) as -> by (by apply ReadFull_ok).
  rewrite bool_decide_true by done. cbn [negb]. by rewrite Hd.
Qed.

(** Whatever becomes of a message, what is left starts after it. *)
Lemma stream_in_step pver net enc r hdr r' :
  readMessageHeader r = WOk (hdr, r') → length_ hdr ≤ MaxMessagePayload →
  r' = drop MessageHeaderSize r ∧
  snd (ReadMessage pver net enc r) = drop (MessageHeaderSize + Z.to_nat (length_ hdr)) r.
Proof.
  intros Hh Hl.
  assert (r' = drop MessageHeaderSize r) as ->.
  { unfold readMessageHeader in Hh. destruct (ReadFull MessageHeaderSize r) as [[hb r1]| |] eqn:E; [|done..].
    apply ReadFull_ok in E as [Hlen ->]. destruct (header_fields hb) as [[h ?]| |]; [|done..].
    injection Hh as <- <-. by rewrite <- Hlen, drop_app_length. }
  split; [done|]. unfold ReadMessage. rewrite Hh. rewrite (proj2 (Z.ltb_ge _ _)) by done.
  rewrite !discardInput_drop, <- drop_drop. set (n := Z.to_nat (length_ hdr)).
  destruct (negb _); [done|]. destruct (negb _); [done|]. destruct (makeEmptyMessage _); [|done].
  destruct (_ <? _); [done|]. destruct (ReadFull n _) as [[payload r1]| |] eqn:E; [|done|].
  - apply ReadFull_ok in E as [Hn Hr]. rewrite Hr, <- Hn, drop_app_length. by destruct (negb _).
  - unfold ReadFull in E. repeat case_match; done.
Qed.

(** Messages one after the other, each after the one before. *)
Fixpoint ReadMessages (n : nat) (pver net : Z) (enc : MessageEncoding) (r : list byte)
  : list (WRes (Message * list byte)) * list byte :=
  match n with
  | O => ([], r)
  | S k =>
      let '(res, r1) := ReadMessage pver net enc r in
      let '(l, r2) := ReadMessages k pver net enc r1 in (res :: l, r2)
  end.

(** C28. A stream of well-formed messages is read as it was written: each message
    with its payload, and what follows the last one is left.  And whatever
    the bytes are, as long as a header announces no more than the largest
    payload, reading it leaves the stream right after the message, whether
    the message was accepted, came from another network, was unknown, too
    long for its type, cut by a wrong checksum or could not be decoded. *)
Theorem message_stream pver net enc :
  unsigned 4 net →
  (∀ msgs frames rest,
     Forall (msg_ok pver enc) msgs → Forall2 (λ m b, WriteMessage pver net enc m = WOk b) msgs frames →
     ∃ payloads, Forall2 (λ m p, BtcEncode pver enc m = WOk p) msgs payloads ∧
       ReadMessages (length msgs) pver net enc (concat frames ++ rest) =
       (zip_with (λ m p, WOk (m, p)) msgs payloads, rest)) ∧
  (∀ r hdr r', readMessageHeader r = WOk (hdr, r') → length_ hdr ≤ MaxMessagePayload →
     snd (ReadMessage pver net enc r) = drop (MessageHeaderSize + Z.to_nat (length_ hdr)) r).
Proof.
  intros Hn. split; [|intros r hdr r' Hh Hl; by eapply stream_in_step].
  intros msgs frames rest Hok Hf. induction Hf as [|m b msgs frames Hb Hf IH]; [by exists []|].
  apply Forall_cons in Hok as [Hm Hok]. destruct (IH Hok) as (ps & Hps & Hr).
  destruct (frame_roundtrip pver net enc m b (concat frames ++ rest) Hn Hm Hb) as (p & Hp & Hread).
  exists (p :: ps). split; [by constructor|]. cbn [length ReadMessages concat zip_with].
  rewrite <- app_assoc, Hread. by rewrite Hr.
Qed.
End Frames.
