(* ===== verification/Taproot.v ===== *)
(** * Bitcoin script: taproot

    btcd/txscript/taproot.go (control blocks, commitments, script trees) and
    the taproot verifiers of btcd/txscript/sigvalidate.go.  Arithmetic on the
    curve and Schnorr signatures are parameters. *)

From Stdlib Require Import ZArith Lia.
From stdpp Require Import base numbers list strings gmap.
From S2P Require Import Prelude ScriptNum WireBase WireTx ScriptToken Sighash.

Open Scope Z_scope.

(** ** The curve

    [ParsePubKey] lifts 32 bytes to the point with that coordinate and an
    even one; the key of a point is its first coordinate. *)

Class Curve := {
  PublicKey : Type;
  schnorr_ParsePubKey : list byte → option PublicKey;
  schnorr_SerializePubKey : PublicKey → list byte;
  YIsOdd : PublicKey → bool;                       (* from SerializeCompressed *)
  schnorr_ParseSignature : list byte → bool;
  schnorr_Verify : list byte → list byte → PublicKey → bool;   (* signature, hash, key *)
  tweak_add : PublicKey → list byte → PublicKey;   (* the point plus scalar times the base *)
  SerializePubKey_size k : bytes_of_len 32 (schnorr_SerializePubKey k);
  Parse_Serialize k : ∃ k', schnorr_ParsePubKey (schnorr_SerializePubKey k) = Some k' ∧
                            schnorr_SerializePubKey k' = schnorr_SerializePubKey k
}.

(** [bytes.Compare] *)
Fixpoint bytes_Compare (a b : list byte) : comparison :=
  match a, b with
  | [], [] => Eq
  | [], _ :: _ => Lt
  | _ :: _, [] => Gt
  | x :: a', y :: b' => match x ?= y with Eq => bytes_Compare a' b' | c => c end
  end.

Definition TagTapLeaf : list byte := ascii_bytes "TapLeaf".
Definition TagTapBranch : list byte := ascii_bytes "TapBranch".
Definition TagTapTweak : list byte := ascii_bytes "TapTweak".

Definition BaseLeafVersion : Z := 0xc0.
Definition TaprootLeafMask : Z := 0xfe.
Definition ControlBlockBaseSize : nat := 33.
Definition ControlBlockNodeSize : nat := 32.
Definition ControlBlockMaxNodeCount : nat := 128.
Definition ControlBlockMaxSize : nat :=
  (ControlBlockBaseSize + ControlBlockNodeSize * ControlBlockMaxNodeCount)%nat.

(** ** Trees of scripts *)

Record TapLeaf := mkTapLeaf { LeafVersion : Z; (* a byte *) LeafScript : list byte }.
Definition NewBaseTapLeaf (script : list byte) : TapLeaf := mkTapLeaf BaseLeafVersion script.

#[export] Instance TapLeaf_eq_dec : EqDecision TapLeaf.
Proof. solve_decision. Defined.

Inductive TapNode := Leaf (l : TapLeaf) | TapBranch (l r : TapNode).

Section Trees.
Context `{Sha}.

Definition leaf_TapHash (t : TapLeaf) : Hash :=
  TaggedHash TagTapLeaf [[LeafVersion t] ++ WriteVarBytes (LeafScript t)].

Definition tapBranchHash (l r : Hash) : Hash :=
  let '(l, r) := match bytes_Compare l r with Gt => (r, l) | _ => (l, r) end in
  TaggedHash TagTapBranch [l; r].

Fixpoint TapHash (n : TapNode) : Hash :=
  match n with
  | Leaf t => leaf_TapHash t
  | TapBranch l r => tapBranchHash (TapHash l) (TapHash r)
  end.

Fixpoint leafDescendants (n : TapNode) : list TapLeaf :=
  match n with
  | Leaf t => [t]
  | TapBranch l r => leafDescendants l ++ leafDescendants r
  end.

(** [LeafMerkleProofs] holds for each leaf its inclusion proof; the root is
    the same in all of them. *)
Record IndexedTapScriptTree := mkTree {
  RootNode : option TapNode;
  LeafMerkleProofs : list (TapLeaf * list byte);
  LeafProofIndex : gmap Hash nat
}.

Definition zero_proof : TapLeaf * list byte := (mkTapLeaf 0 [], []).

(** [append(proofs[i].InclusionProof, h...)] *)
Definition append_proof (i : nat) (h : Hash) (proofs : list (TapLeaf * list byte)) :=
  alter (λ p, (fst p, snd p ++ h)) i proofs.
Definition set_leaf (i : nat) (t : TapLeaf) (proofs : list (TapLeaf * list byte)) :=
  alter (λ p, (t, snd p)) i proofs.

Definition index_leaves (leaves : list TapLeaf) : gmap Hash nat :=
  fold_left (λ m p, <[leaf_TapHash (snd p) := fst p]> m) (imap pair leaves) ∅.

(** A missing key of the index gives Go's zero. *)
Definition leaf_index (index : gmap Hash nat) (t : TapLeaf) : nat :=
  default 0%nat (index !! leaf_TapHash t).
Definition append_all (index : gmap Hash nat) (leaves : list TapLeaf) (h : Hash)
    (proofs : list (TapLeaf * list byte)) :=
  fold_left (λ ps t, append_proof (leaf_index index t) h ps) leaves proofs.

(** The first loop: the leaves in pairs from position [i] on; a last leaf on
    its own joins the last pair.  [None]: an index out of range. *)
Fixpoint pair_leaves (index : gmap Hash nat) (i : nat) (leaves : list TapLeaf)
    (branches : list TapNode) (proofs : list (TapLeaf * list byte))
  : option (list TapNode * list (TapLeaf * list byte)) :=
  match leaves with
  | [] => Some (branches, proofs)
  | [leaf] =>
      match rev branches with
      | TapBranch (Leaf l) (Leaf r) as branchToMerge :: before =>
          let proofs := append_proof i (TapHash branchToMerge) (set_leaf i leaf proofs) in
          let h := leaf_TapHash leaf in
          let proofs := append_proof (leaf_index index l) h proofs in
          let proofs := append_proof (leaf_index index r) h proofs in
          Some (rev (TapBranch branchToMerge (Leaf leaf) :: before), proofs)
      | _ => None
      end
  | a :: b :: rest =>
      let proofs := append_proof i (leaf_TapHash b) (set_leaf i a proofs) in
      let proofs := append_proof (S i) (leaf_TapHash a) (set_leaf (S i) b proofs) in
      pair_leaves index (S (S i)) rest (branches ++ [TapBranch (Leaf a) (Leaf b)]) proofs
  end.

(** The second loop merges the first two branches and puts the result at the
    end, until one is a. *)
Fixpoint merge_branches (fuel : nat) (index : gmap Hash nat) (branches : list TapNode)
    (proofs : list (TapLeaf * list byte)) : option TapNode * list (TapLeaf * list byte) :=
  match branches with
  | [] => (None, proofs)
  | [root] => (Some root, proofs)
  | a :: b :: rest =>
      match fuel with
      | O => (None, proofs)
      | S k =>
          let proofs := append_all index (leafDescendants a) (TapHash b) proofs in
          let proofs := append_all index (leafDescendants b) (TapHash a) proofs in
          merge_branches k index (rest ++ [TapBranch a b]) proofs
      end
  end.

Definition AssembleTaprootScriptTree (leaves : list TapLeaf) : option IndexedTapScriptTree :=
  match leaves with
  | [leaf] => Some (mkTree (Some (Leaf leaf)) [(leaf, [])] {[leaf_TapHash leaf := 0%nat]})
  | _ =>
      let index := index_leaves leaves in
      '(branches, proofs) ← pair_leaves index 0 leaves [] (replicate (length leaves) zero_proof);
      let '(root, proofs) := merge_branches (length branches) index branches proofs in
      Some (mkTree root proofs index)
  end.

(** ** Control blocks *)

(** [RootHash]: the nodes of the proof, 32 bytes each. *)
Fixpoint root_loop (n : nat) (proof : list byte) (acc : Hash) : Hash :=
  match n with
  | O => acc
  | S k => root_loop k (drop 32 proof) (tapBranchHash acc (take 32 proof))
  end.
Definition proof_root (leaf : TapLeaf) (proof : list byte) : Hash :=
  root_loop (length proof / ControlBlockNodeSize) proof (leaf_TapHash leaf).

Context `{Curve}.

Record ControlBlock := mkControlBlock {
  InternalKey : PublicKey;
  OutputKeyYIsOdd : bool;
  cb_LeafVersion : Z;
  InclusionProof : list byte
}.

Definition ToBytes (c : ControlBlock) : list byte :=
  [Z.lor (cb_LeafVersion c) (if OutputKeyYIsOdd c then 1 else 0)] ++
  schnorr_SerializePubKey (InternalKey c) ++ InclusionProof c.

Definition RootHash (c : ControlBlock) (revealedScript : list byte) : Hash :=
  proof_root (mkTapLeaf (cb_LeafVersion c) revealedScript) (InclusionProof c).

Definition ParseControlBlock (ctrlBlock : list byte) : ControlBlock + ErrorCode :=
  if (length ctrlBlock <? ControlBlockBaseSize)%nat then inr ErrControlBlockTooSmall
  else if (ControlBlockMaxSize <? length ctrlBlock)%nat then inr ErrControlBlockTooLarge
  else if negb ((length ctrlBlock - ControlBlockBaseSize) mod ControlBlockNodeSize =? 0)%nat
  then inr ErrControlBlockInvalidLength
  else
    let head := nth_byte ctrlBlock 0 in
    match schnorr_ParsePubKey (slice ctrlBlock 1 33) with
    | None => inr ErrOther
    | Some key =>
        inl (mkControlBlock key (Z.land head 1 =? 1) (Z.land head TaprootLeafMask)
               (drop 33 ctrlBlock))
    end.

(** The internal key is parsed again; a failure would be dereferenced. *)
Definition ComputeTaprootOutputKey (pubKey : PublicKey) (scriptRoot : list byte) : Res PublicKey :=
  match schnorr_ParsePubKey (schnorr_SerializePubKey pubKey) with
  | None => Crash
  | Some internalKey =>
      Ok (tweak_add internalKey
            (TaggedHash TagTapTweak [schnorr_SerializePubKey internalKey; scriptRoot]))
  end.

Definition VerifyTaprootLeafCommitment (c : ControlBlock) (taprootWitnessProgram revealedScript : list byte)
  : Res () :=
  taprootKey ← ComputeTaprootOutputKey (InternalKey c) (RootHash c revealedScript);
  if negb (bool_decide (schnorr_SerializePubKey taprootKey = taprootWitnessProgram))
  then Err ErrTaprootMerkleProofInvalid
  else if negb (Bool.eqb (OutputKeyYIsOdd c) (YIsOdd taprootKey))
  then Err ErrTaprootOutputKeyParityMismatch
  else Ok ().

(** [TapscriptProof.ToControlBlock] *)
Definition ToControlBlock (internalKey : PublicKey) (root : TapNode) (leaf : TapLeaf)
    (proof : list byte) : Res ControlBlock :=
  taprootKey ← ComputeTaprootOutputKey internalKey (TapHash root);
  Ok (mkControlBlock internalKey (YIsOdd taprootKey) (LeafVersion leaf) proof).

(** ** Signatures *)

(** The key and the hash type; the signature is the first 64 bytes. *)
Definition parseTaprootSigAndPubKey (pkBytes rawSig : list byte) : (PublicKey * Z) + ErrorCode :=
  match schnorr_ParsePubKey pkBytes with
  | None => inr ErrOther
  | Some pubKey =>
      if (length rawSig =? 64)%nat then
        if schnorr_ParseSignature rawSig then inl (pubKey, SigHashDefault) else inr ErrOther
      else if (length rawSig =? 65)%nat && negb (nth_byte rawSig 64 =? 0) then
        if schnorr_ParseSignature (take 64 rawSig) then inl (pubKey, nth_byte rawSig 64)
        else inr ErrOther
      else inr ErrInvalidTaprootSigLen
  end.

(** The verifiers: a digest that cannot be computed makes the signature
    invalid.  Midstates that are nil are dereferenced. *)
Definition taproot_Verify (sigHashes : option TxSigHashes) (fetch : PrevOutputFetcher) (tx : MsgTx)
    (idx : nat) (opts : taprootSigHashOptions) (pubKey : PublicKey) (hashType : Z)
    (rawSig : list byte) : Res bool :=
  digest ← (if negb (isValidTaprootSigHash hashType) then Ok None
            else if (length (TxIns tx) <=? idx)%nat then Ok None
            else match sigHashes with
                 | None => Crash
                 | Some h => calcTaprootSignatureHashRaw h hashType tx idx fetch opts
                 end);
  match digest with
  | None => Ok false
  | Some sigHash => Ok (schnorr_Verify (take 64 rawSig) sigHash pubKey)
  end.

Definition isAnnexedWitness (witness : list (list byte)) : bool :=
  (2 <=? length witness)%nat &&
  match List.last witness [] with
  | tag :: _ => tag =? 0x50                       (* TaprootAnnexTag *)
  | [] => false
  end.
Definition extractAnnex (witness : list (list byte)) : option (list byte) :=
  if isAnnexedWitness witness then Some (List.last witness []) else None.

Definition VerifyTaprootKeySpend (sigHashes : option TxSigHashes) (fetch : PrevOutputFetcher)
    (tx : MsgTx) (idx : nat) (witnessProgram rawSig : list byte) : Res () :=
  match TxIns tx !! idx with
  | None => Crash
  | Some ti =>
      match parseTaprootSigAndPubKey witnessProgram rawSig with
      | inr e => Err e
      | inl (pubKey, hashType) =>
          valid ← taproot_Verify sigHashes fetch tx idx (mkSigHashOptions (extractAnnex (Witness ti)) None)
                    pubKey hashType rawSig;
          if (valid : bool) then Ok () else Err ErrTaprootSigInvalid
      end
  end.
End Trees.
