(* ===== verification/TaprootFacts.v ===== *)
(** * Bitcoin script: taproot trees commit to their leaves *)

From Stdlib Require Import ZArith Lia.
From stdpp Require Import base numbers list strings gmap.
From S2P Require Import Prelude ScriptNum ScriptNumFacts WireBase WireTx WireTxFacts ScriptToken Sighash SighashFacts Taproot.

Open Scope Z_scope.

(** ** Branch hashes are symmetric *)

Lemma Compare_antisym a b : bytes_Compare b a = CompOpp (bytes_Compare a b).
Proof.
  revert b. induction a as [|x a IH]; intros [|y b]; simpl; [done..|].
  rewrite (Z.compare_antisym x y). destruct (x ?= y); simpl; [apply IH|done..].
Qed.
Lemma Compare_eq a b : bytes_Compare a b = Eq → a = b.
Proof.
  revert b. induction a as [|x a IH]; intros [|y b]; simpl; [done..|].
  destruct (Z.compare_spec x y) as [->| |]; [|done..]. intros H%IH. by subst.
Qed.

Lemma alter_swap {A} (f g : A → A) i j (l : list A) :
  i ≠ j → alter f i (alter g j l) = alter g j (alter f i l).
Proof.
  revert i j. induction l as [|x l IH]; intros [|i] [|j] Hij; try done.
  unfold alter in *. simpl. f_equal. apply IH. lia.
Qed.

Section Facts.
Context `{Sha}.

Lemma tapBranchHash_comm l r : tapBranchHash l r = tapBranchHash r l.
Proof.
  unfold tapBranchHash. rewrite (Compare_antisym l r).
  destruct (bytes_Compare l r) eqn:E; simpl; [|done..]. by apply Compare_eq in E as ->.
Qed.
Lemma TapHash_size n : length (TapHash n) = 32%nat.
Proof. destruct n; unfold TapHash, leaf_TapHash, tapBranchHash, TaggedHash; repeat case_match; apply sha256_size. Qed.

(** ** Proofs that grow at the end *)

Lemma root_loop_app n p h acc :
  length p = (32 * n)%nat → length h = 32%nat →
  root_loop (S n) (p ++ h) acc = tapBranchHash (root_loop n p acc) h.
Proof.
  revert p acc. induction n as [|n IH]; intros p acc Hp Hh.
  - rewrite Nat.mul_0_r in Hp. apply nil_length_inv in Hp as ->. simpl. by rewrite take_ge by lia.
  - change (root_loop (S (S n)) (p ++ h) acc) with
      (root_loop (S n) (drop 32 (p ++ h)) (tapBranchHash acc (take 32 (p ++ h)))).
    rewrite drop_app_le, take_app_le by lia. rewrite IH by (rewrite ?length_drop; lia). done.
Qed.

(** A proof of [t] in the tree [n]. *)
Definition proves (t : TapLeaf) (p : list byte) (n : TapNode) : Prop :=
  Nat.divide 32 (length p) ∧ proof_root t p = TapHash n.

Lemma proves_leaf t : proves t [] (Leaf t).
Proof. split; [apply Nat.divide_0_r|done]. Qed.
Lemma proves_left t p a b : proves t p a → proves t (p ++ TapHash b) (TapBranch a b).
Proof.
  intros [[k Hk] Hp]. split.
  - exists (S k). rewrite length_app, TapHash_size. lia.
  - unfold proof_root in *. rewrite length_app, TapHash_size, Hk in *. unfold ControlBlockNodeSize in *.
    replace (k * 32 + 32)%nat with (S k * 32)%nat by lia. rewrite Nat.div_mul in * by done.
    rewrite root_loop_app by (rewrite ?TapHash_size; lia). rewrite Hp. done.
Qed.
Lemma proves_right t p a b : proves t p b → proves t (p ++ TapHash a) (TapBranch a b).
Proof.
  intros [Hd Hp]%(proves_left t p b a). split; [done|]. rewrite Hp. apply tapBranchHash_comm.
Qed.

(** ** The forest of the loops *)

Section Forest.
Context (index : gmap Hash nat).

Abbreviation at_ := (leaf_index index).

(** Every leaf of the forest has the proof of its place in its tree. *)
Definition forest_ok (branches : list TapNode) (proofs : list (TapLeaf * list byte)) : Prop :=
  NoDup (map at_ (branches ≫= leafDescendants)) ∧
  ∀ b t, b ∈ branches → t ∈ leafDescendants b → ∃ p, proofs !! at_ t = Some (t, p) ∧ proves t p b.

Lemma append_all_lookup ls h proofs j :
  NoDup (map at_ ls) →
  append_all index ls h proofs !! j =
  (λ x, if decide (j ∈ map at_ ls) then (fst x, snd x ++ h) else x) <$> proofs !! j.
Proof.
  unfold append_all. revert proofs. induction ls as [|t ls IH]; intros proofs Hnd.
  { cbn [fold_left map]. destruct (proofs !! j); [|done]. cbn [fmap option_fmap option_map].
    by rewrite decide_False by apply not_elem_of_nil. }
  cbn [fold_left map] in *. apply NoDup_cons in Hnd as [Hnin Hnd]. rewrite IH by exact Hnd. clear IH.
  unfold append_proof. destruct (decide (at_ t = j)) as [<-|Hne].
  - rewrite list_lookup_alter_eq. destruct (proofs !! at_ t); simpl; [|done].
    rewrite decide_False by done. by rewrite decide_True by set_solver.
  - rewrite list_lookup_alter_ne by done. destruct (proofs !! j); simpl; [|done].
    destruct (decide (j ∈ map at_ ls)); [by rewrite decide_True by set_solver|].
    rewrite decide_False; [done|]. rewrite elem_of_cons. naive_solver.
Qed.

Lemma forest_perm branches branches' proofs :
  branches ≡ₚ branches' → forest_ok branches proofs → forest_ok branches' proofs.
Proof.
  intros Hp [Hnd Hf]. split.
  - eapply NoDup_Permutation_proper; [|exact Hnd]. apply Permutation_map. symmetry. by rewrite Hp.
  - intros b t Hb. apply Hf. by rewrite Hp.
Qed.

(** Merging two trees appends to each leaf's proof the hash of the other. *)
Lemma forest_merge a b rest proofs :
  forest_ok (a :: b :: rest) proofs →
  forest_ok (TapBranch a b :: rest)
    (append_all index (leafDescendants b) (TapHash a)
       (append_all index (leafDescendants a) (TapHash b) proofs)).
Proof.
  intros [Hnd Hf]. cbn in Hnd.
  assert (Hnd' := Hnd). rewrite !map_app in Hnd'.
  apply NoDup_app in Hnd' as (Ha & Hab & Hbr). apply NoDup_app in Hbr as (Hb & Hbr & Hr).
  split; [cbn; by rewrite <- app_assoc|]. intros n t Hn Ht.
  rewrite !append_all_lookup by done.
  apply elem_of_cons in Hn as [->|Hn].
  - simpl in Ht. apply elem_of_app in Ht as [Ht|Ht].
    + destruct (Hf a t) as (p & -> & Hp); [set_solver|done|]. simpl.
      assert (at_ t ∈ map at_ (leafDescendants a)) as Hin by (by apply list_elem_of_fmap_2).
      rewrite (decide_True _ _ Hin). rewrite decide_False by set_solver. eexists. split; [done|].
      by apply proves_left.
    + destruct (Hf b t) as (p & -> & Hp); [set_solver|done|]. simpl.
      assert (at_ t ∈ map at_ (leafDescendants b)) as Hin by (by apply list_elem_of_fmap_2).
      rewrite (decide_False (P := at_ t ∈ map at_ (leafDescendants a))) by set_solver.
      rewrite (decide_True _ _ Hin). eexists. split; [done|]. by apply proves_right.
  - destruct (Hf n t) as (p & -> & Hp); [set_solver|done|]. simpl.
    assert (at_ t ∈ map at_ (rest ≫= leafDescendants)) as Hin.
    { apply list_elem_of_fmap_2, list_elem_of_bind. eauto. }
    rewrite !decide_False by set_solver. eauto.
Qed.

Lemma merge_branches_ok fuel branches proofs :
  branches ≠ [] → (length branches ≤ S fuel)%nat → forest_ok branches proofs →
  ∃ root proofs', merge_branches fuel index branches proofs = (Some root, proofs') ∧
    forest_ok [root] proofs' ∧ leafDescendants root ≡ₚ branches ≫= leafDescendants.
Proof.
  revert branches proofs. induction fuel as [|k IH]; intros branches proofs Hne Hl Hf.
  all: destruct branches as [|a [|b rest]]; [done| |].
  all: try (exists a, proofs; split_and!; [done..|]; cbn; by rewrite app_nil_r).
  { simpl in Hl. lia. }
  pose proof (forest_merge a b rest proofs Hf) as Hm.
  destruct (IH (rest ++ [TapBranch a b])
     (append_all index (leafDescendants b) (TapHash a)
       (append_all index (leafDescendants a) (TapHash b) proofs))) as (root & ps & He & Hok & Hp).
  - by destruct rest.
  - rewrite length_app. simpl in *. lia.
  - eapply forest_perm; [|exact Hm]. by rewrite Permutation_app_comm.
  - exists root, ps. split_and!; [done|done|]. rewrite Hp, bind_app. cbn. rewrite app_nil_r.
    rewrite Permutation_app_comm. by rewrite <- app_assoc.
Qed.

(** A leaf that enters the forest with its empty proof. *)
Lemma forest_add x y branches proofs :
  forest_ok branches proofs → at_ x ∉ map at_ (branches ≫= leafDescendants) →
  proofs !! at_ x = Some (y, []) → forest_ok (Leaf x :: branches) (set_leaf (at_ x) x proofs).
Proof.
  intros [Hnd Hf] Hx Hp. split; [cbn; by apply NoDup_cons|]. intros b t Hb Ht. unfold set_leaf.
  apply elem_of_cons in Hb as [->|Hb].
  - simpl in Ht. apply list_elem_of_singleton in Ht as ->. rewrite list_lookup_alter_eq, Hp.
    eexists. split; [done|]. apply proves_leaf.
  - assert (at_ t ∈ map at_ (branches ≫= leafDescendants)) as Hin.
    { apply list_elem_of_fmap_2, list_elem_of_bind. eauto. }
    rewrite list_lookup_alter_ne by (intros E; by rewrite E in Hx). by apply Hf.
Qed.

Lemma append_proof_set i j h x proofs :
  i ≠ j → append_proof i h (set_leaf j x proofs) = set_leaf j x (append_proof i h proofs).
Proof. intros Hij. unfold append_proof, set_leaf. by apply alter_swap. Qed.
Lemma append_proof_comm i j h h' proofs :
  i ≠ j → append_proof i h (append_proof j h' proofs) = append_proof j h' (append_proof i h proofs).
Proof. intros Hij. unfold append_proof. by apply alter_swap. Qed.

(** The state of the first loop before position [i] of the leaves. *)
Context (leaves : list TapLeaf).
Hypothesis index_ok : ∀ j t, leaves !! j = Some t → at_ t = j.

Record pairing (i : nat) (branches : list TapNode) (proofs : list (TapLeaf * list byte)) : Prop := {
  pr_forest : forest_ok branches proofs;
  pr_leaves : branches ≫= leafDescendants ≡ₚ take i leaves;
  pr_pairs : Forall (λ b, ∃ l r, b = TapBranch (Leaf l) (Leaf r)) branches;
  pr_rest : ∀ j, (i ≤ j < length leaves)%nat → proofs !! j = Some zero_proof
}.

Lemma pairing_fresh i branches proofs x j :
  pairing i branches proofs → leaves !! j = Some x → (i ≤ j)%nat →
  at_ x ∉ map at_ (branches ≫= leafDescendants).
Proof.
  intros HP Hx Hj Hin. apply list_elem_of_fmap in Hin as (t & He & Ht).
  rewrite (pr_leaves _ _ _ HP) in Ht. apply list_elem_of_lookup in Ht as [k Hk].
  apply lookup_take_Some in Hk as [Hk Hlt]. rewrite (index_ok j x Hx), (index_ok k t Hk) in He. lia.
Qed.

Lemma pairing_pair i a b branches proofs :
  pairing i branches proofs → leaves !! i = Some a → leaves !! S i = Some b →
  pairing (S (S i)) (branches ++ [TapBranch (Leaf a) (Leaf b)])
    (append_proof (S i) (leaf_TapHash a) (set_leaf (S i) b
       (append_proof i (leaf_TapHash b) (set_leaf i a proofs)))).
Proof.
  intros HP Ha Hb. pose proof HP as [Hf Hl Hps Hr].
  assert (i < length leaves)%nat as Hi by by apply lookup_lt_Some in Ha.
  assert (S i < length leaves)%nat as Hi' by by apply lookup_lt_Some in Hb.
  pose proof (index_ok i a Ha) as Ia. pose proof (index_ok (S i) b Hb) as Ib.
  assert (forest_ok (Leaf a :: branches) (set_leaf i a proofs)) as H1.
  { rewrite <- Ia at 1. eapply forest_add; [done|by eapply pairing_fresh|]. rewrite Ia. apply Hr. lia. }
  assert (forest_ok (Leaf b :: Leaf a :: branches) (set_leaf (S i) b (set_leaf i a proofs))) as H2.
  { rewrite <- Ib at 1. eapply (forest_add b (fst zero_proof)); [done| |].
    - cbn. rewrite elem_of_cons, Ia, Ib. intros [?|Hin]; [lia|].
      apply (pairing_fresh i branches proofs b (S i)); [done..|lia|by rewrite Ib].
    - rewrite Ib. unfold set_leaf. rewrite list_lookup_alter_ne by lia. apply Hr. lia. }
  split.
  - apply (forest_perm (TapBranch (Leaf a) (Leaf b) :: branches)); [by rewrite Permutation_app_comm|].
    eapply (forest_perm _ (Leaf a :: Leaf b :: branches)) in H2; [|by constructor].
    apply forest_merge in H2. cbn [leafDescendants] in H2. unfold append_all in H2. cbn [fold_left] in H2.
    rewrite Ia, Ib in H2. by rewrite append_proof_set in H2 by lia.
  - rewrite bind_app, Hl. rewrite !(take_S_r _ _ _ Hb), (take_S_r _ _ _ Ha). by rewrite <- app_assoc.
  - apply Forall_app. split; [done|]. repeat constructor. eauto.
  - intros j Hj. unfold append_proof, set_leaf. rewrite !list_lookup_alter_ne by lia. apply Hr. lia.
Qed.

Lemma pairing_last i a b branches proofs l r before :
  pairing i branches proofs → leaves !! i = Some a → branches = before ++ [b] →
  b = TapBranch (Leaf l) (Leaf r) →
  forest_ok (before ++ [TapBranch b (Leaf a)])
    (append_proof (at_ r) (leaf_TapHash a) (append_proof (at_ l) (leaf_TapHash a)
       (append_proof i (TapHash b) (set_leaf i a proofs)))).
Proof.
  intros HP Ha Hbr Hb. pose proof HP as [Hf Hl _ Hr].
  pose proof (index_ok i a Ha) as Ia.
  pose proof (pairing_fresh i branches proofs a i HP Ha ltac:(lia)) as Hfresh.
  assert (i < length leaves)%nat as Hi by by apply lookup_lt_Some in Ha.
  assert (forest_ok (Leaf a :: branches) (set_leaf i a proofs)) as H1.
  { rewrite <- Ia at 1. eapply forest_add; [done|done|]. rewrite Ia. apply Hr. lia. }
  assert (i ≠ at_ l ∧ i ≠ at_ r) as [Hil Hir].
  { rewrite Ia in Hfresh. rewrite Hbr, Hb, bind_app, map_app in Hfresh. cbn in Hfresh. set_solver. }
  apply (forest_perm (TapBranch b (Leaf a) :: before)); [by rewrite Permutation_app_comm|].
  apply (forest_perm _ (b :: Leaf a :: before)) in H1.
  2: { rewrite Hbr, Permutation_app_comm. apply perm_swap. }
  apply forest_merge in H1. rewrite Hb in H1 at 3. cbn [leafDescendants] in H1.
  unfold append_all in H1. cbn [fold_left] in H1. rewrite Ia in H1.
  rewrite (append_proof_comm (at_ l)), (append_proof_comm (at_ r)) by done. done.
Qed.

Lemma pair_leaves_ok i rest branches proofs :
  pairing i branches proofs → drop i leaves = rest → (i ≤ length leaves)%nat → length leaves ≠ 1%nat →
  (i = 0%nat → branches = []) → (0 < i → branches ≠ [])%nat →
  ∃ branches' proofs', pair_leaves index i rest branches proofs = Some (branches', proofs') ∧
    forest_ok branches' proofs' ∧ branches' ≫= leafDescendants ≡ₚ leaves ∧
    (leaves ≠ [] → branches' ≠ []).
Proof.
  remember (length rest) as n eqn:Hn. revert i rest branches proofs Hn.
  induction (lt_wf n) as [n _ IH]. intros i rest branches proofs -> HP Hrest Hi H1 H0 Hpos.
  assert (length rest = length leaves - i)%nat as Hlen by (by rewrite <- Hrest, length_drop).
  destruct rest as [|a [|b rest]].
  - exists branches, proofs. simpl in *. pose proof HP as [Hf Hl _ _]. split_and!; [done|done| |].
    + rewrite Hl, take_ge by lia. done.
    + intros Hne. apply Hpos. destruct leaves; [done|simpl in *; lia].
  - assert (leaves !! i = Some a) as Ha.
    { rewrite <- (Nat.add_0_r i), <- lookup_drop, Hrest. done. }
    simpl in Hlen. assert (branches ≠ []) as Hne by (apply Hpos; lia).
    destruct (exists_last Hne) as (before & b & Hbr).
    pose proof (pr_pairs _ _ _ HP) as Hps. rewrite Hbr in Hps. apply Forall_app in Hps as [_ Hps].
    apply Forall_cons in Hps as [(l & r & Hb) _].
    pose proof (pairing_last i a b branches proofs l r before HP Ha Hbr Hb) as Hf.
    cbn [pair_leaves]. rewrite Hbr, rev_app_distr. cbn [rev app]. rewrite Hb.
    do 2 eexists. split; [done|]. rewrite rev_involutive, <- Hb. split_and!; [exact Hf| |].
    + rewrite bind_app. pose proof (pr_leaves _ _ _ HP) as Hl. rewrite Hbr, bind_app in Hl. cbn in *.
      rewrite app_nil_r in *. rewrite app_assoc, Hl. rewrite <- (take_S_r _ _ _ Ha), take_ge by lia. done.
    + intros _. by destruct before.
  - assert (leaves !! i = Some a) as Ha.
    { rewrite <- (Nat.add_0_r i), <- lookup_drop, Hrest. done. }
    assert (leaves !! S i = Some b) as Hb.
    { replace (S i) with (i + 1)%nat by lia. rewrite <- lookup_drop, Hrest. done. }
    simpl in Hlen. cbn [pair_leaves]. eapply (IH (length rest)); [simpl; lia|done|by apply pairing_pair| |lia|done|lia|].
    + replace (S (S i)) with (i + 2)%nat by lia. by rewrite <- drop_drop, Hrest.
    + intros _. by destruct branches.
Qed.
End Forest.

(** ** The index *)

Lemma index_lookup leaves h :
  index_leaves leaves !! h = None ↔ h ∉ map leaf_TapHash leaves.
Proof.
  unfold index_leaves. induction leaves as [|t leaves IH] using rev_ind; [set_solver|].
  rewrite imap_app, fold_left_app, map_app. cbn. rewrite elem_of_app, list_elem_of_singleton.
  destruct (decide (h = leaf_TapHash t)) as [->|Hne].
  - rewrite lookup_insert_eq. naive_solver.
  - rewrite lookup_insert_ne by done. rewrite IH. naive_solver.
Qed.
Lemma index_leaves_at leaves j t :
  NoDup (map leaf_TapHash leaves) → leaves !! j = Some t →
  index_leaves leaves !! leaf_TapHash t = Some j.
Proof.
  intros Hnd. revert j. unfold index_leaves. induction leaves as [|x leaves IH] using rev_ind; [done|].
  rewrite map_app in Hnd. apply NoDup_app in Hnd as (Hnd & Hx & _). intros j Hj.
  rewrite imap_app, fold_left_app. cbn. rewrite Nat.add_0_r.
  apply lookup_snoc_Some in Hj as [[Hlt Hj]|[-> ->]]; [|by rewrite lookup_insert_eq].
  rewrite lookup_insert_ne; [by apply IH|]. intros He. apply (Hx (leaf_TapHash t)).
  - by apply list_elem_of_fmap_2, list_elem_of_lookup_2 with j.
  - rewrite <- He. cbn. set_solver.
Qed.

(** What the assembled tree is. *)
Definition tree_ok (leaves : list TapLeaf) (tree : IndexedTapScriptTree) (root : TapNode) : Prop :=
  RootNode tree = Some root ∧ leafDescendants root ≡ₚ leaves ∧
  ∀ i t, leaves !! i = Some t →
    LeafProofIndex tree !! leaf_TapHash t = Some i ∧
    ∃ p, LeafMerkleProofs tree !! i = Some (t, p) ∧ proves t p root.

Lemma assemble_ok leaves :
  leaves ≠ [] → NoDup (map leaf_TapHash leaves) →
  ∃ tree root, AssembleTaprootScriptTree leaves = Some tree ∧ tree_ok leaves tree root.
Proof.
  intros Hne Hnd. destruct (decide (length leaves = 1%nat)) as [H1|H1].
  { destruct leaves as [|x [|]]; [done| |done]. eexists _, (Leaf x). split; [done|]. split_and!; [done..|].
    intros i t Ht. apply list_lookup_singleton_Some in Ht as [-> <-]. cbn.
    split; [apply lookup_singleton_eq|]. exists []. split; [done|apply proves_leaf]. }
  set (index := index_leaves leaves).
  assert (∀ j t, leaves !! j = Some t → leaf_index index t = j) as Hix.
  { intros j t Hj. unfold leaf_index, index. by rewrite (index_leaves_at leaves j t). }
  destruct (pair_leaves_ok index leaves Hix 0 leaves [] (replicate (length leaves) zero_proof))
    as (bs & ps & Hpair & Hf & Hp & Hbs); [|done|lia|done|done|lia|].
  { split; [split; [by constructor|]; set_solver|done|done|]. intros j Hj. apply lookup_replicate_2. lia. }
  destruct (merge_branches_ok index (length bs) bs ps) as (root & ps' & Hm & Hf' & Hp'); [by apply Hbs|lia|done|].
  exists (mkTree (Some root) ps' index), root. split.
  { unfold AssembleTaprootScriptTree. fold index. destruct leaves as [|x [|y rest]]; [done|done|].
    rewrite Hpair. unfold mbind, option_bind. by rewrite Hm. }
  split_and!; [done|by rewrite Hp'|]. intros i t Ht. split; [by apply index_leaves_at|].
  destruct Hf' as [_ Hf']. destruct (Hf' root t) as (p & Hlk & Hpr); [set_solver| |].
  - rewrite Hp', Hp. by eapply list_elem_of_lookup_2.
  - exists p. by rewrite (Hix i t Ht) in Hlk.
Qed.

(** ** Soundness of the proofs *)

(** What is hashed by a tagged hash, and on the way to a root. *)
Definition tagged_messages (tag : list byte) (m : list (list byte)) : list (list byte) :=
  [tag; sha256 tag ++ sha256 tag ++ concat m].
Definition leaf_messages (t : TapLeaf) : list (list byte) :=
  tagged_messages TagTapLeaf [[LeafVersion t] ++ WriteVarBytes (LeafScript t)].
Definition branch_messages (l r : Hash) : list (list byte) :=
  let '(l, r) := match bytes_Compare l r with Gt => (r, l) | _ => (l, r) end in
  tagged_messages TagTapBranch [l; r].
Fixpoint tree_messages (n : TapNode) : list (list byte) :=
  match n with
  | Leaf t => leaf_messages t
  | TapBranch l r => branch_messages (TapHash l) (TapHash r) ++ tree_messages l ++ tree_messages r
  end.
Fixpoint path_messages (n : nat) (proof : list byte) (acc : Hash) : list (list byte) :=
  match n with
  | O => []
  | S k => branch_messages acc (take 32 proof) ++ path_messages k (drop 32 proof) (tapBranchHash acc (take 32 proof))
  end.
Definition proof_messages (t : TapLeaf) (proof : list byte) : list (list byte) :=
  leaf_messages t ++ path_messages (length proof / ControlBlockNodeSize) proof (leaf_TapHash t).

Lemma path_messages_app n p h acc :
  length p = (32 * n)%nat → length h = 32%nat →
  path_messages (S n) (p ++ h) acc = path_messages n p acc ++ branch_messages (root_loop n p acc) h.
Proof.
  revert p acc. induction n as [|n IH]; intros p acc Hp Hh.
  - rewrite Nat.mul_0_r in Hp. apply nil_length_inv in Hp as ->. cbn [path_messages app root_loop].
    by rewrite take_ge, app_nil_r by lia.
  - change (path_messages (S (S n)) (p ++ h) acc) with (branch_messages acc (take 32 (p ++ h)) ++
      path_messages (S n) (drop 32 (p ++ h)) (tapBranchHash acc (take 32 (p ++ h)))).
    rewrite drop_app_le, take_app_le by lia. rewrite IH by (rewrite ?length_drop; lia).
    cbn [path_messages root_loop]. by rewrite app_assoc.
Qed.

(** Two trees' hashes are told apart on the messages [ms]. *)
Section Apart.
Context (ms : list (list byte)) (Hap : apart ms).

Lemma tagged_inj tag tag' m m' :
  tagged_messages tag m ⊆ ms → tagged_messages tag' m' ⊆ ms →
  TaggedHash tag m = TaggedHash tag' m' → tag = tag' ∧ concat m = concat m'.
Proof.
  unfold TaggedHash, tagged_messages. intros M M' He. apply Hap in He; [|apply M; right; left|apply M'; right; left].
  assert (∀ b, length (sha256 b) = 32%nat) as Hl by (intros; apply sha256_size).
  apply app_inj_1 in He as [Ht He]; [|by rewrite !Hl]. apply app_inj_1 in He as [_ He]; [|by rewrite !Hl].
  apply Hap in Ht as ->; [done|apply M; left|apply M'; left].
Qed.

Definition short_script (t : TapLeaf) : Prop := zlen (LeafScript t) < 2 ^ 64.

Lemma WriteVarBytes_inj a b :
  zlen a < 2 ^ 64 → zlen b < 2 ^ 64 → WriteVarBytes a = WriteVarBytes b → a = b.
Proof.
  intros Ha Hb He. unfold WriteVarBytes in He.
  by apply codec_inj in He as [_ He]; [|unfold unsigned; simpl; lia..].
Qed.

Lemma leaf_hash_inj t t' :
  leaf_messages t ⊆ ms → leaf_messages t' ⊆ ms →
  short_script t → short_script t' → leaf_TapHash t = leaf_TapHash t' → t = t'.
Proof.
  intros M M' Hs Hs' [_ He]%tagged_inj; [|done..]. simpl in He. rewrite !app_nil_r in He.
  injection He as Hv He. apply WriteVarBytes_inj in He; [|done..].
  destruct t, t'. simpl in *. congruence.
Qed.

Lemma leaf_not_branch t l r :
  leaf_messages t ⊆ ms → branch_messages l r ⊆ ms → leaf_TapHash t ≠ tapBranchHash l r.
Proof.
  unfold leaf_TapHash, tapBranchHash, branch_messages.
  destruct (match bytes_Compare _ _ with Gt => _ | _ => _ end) as [l' r'].
  intros M M' [Ht _]%tagged_inj; [|done..]. by vm_compute in Ht.
Qed.

Lemma branch_inj l r l' r' :
  branch_messages l r ⊆ ms → branch_messages l' r' ⊆ ms →
  length l = 32%nat → length r = 32%nat → length l' = 32%nat → length r' = 32%nat →
  tapBranchHash l r = tapBranchHash l' r' → l = l' ∧ r = r' ∨ l = r' ∧ r = l'.
Proof.
  intros M M' H1 H2 H3 H4. revert M M'. unfold tapBranchHash, branch_messages.
  destruct (bytes_Compare l r), (bytes_Compare l' r'); intros M M' He; (apply tagged_inj in He as [_ He]; [|done..]);
    simpl in He; rewrite !app_nil_r in He; apply app_inj_1 in He as [-> ->]; auto; congruence.
Qed.

Lemma root_loop_size k p acc : length acc = 32%nat → length (root_loop k p acc) = 32%nat.
Proof.
  revert p acc. induction k as [|k IH]; intros p acc Ha; [done|]. simpl. apply IH.
  unfold tapBranchHash, TaggedHash. destruct (match bytes_Compare _ _ with Gt => _ | _ => _ end). apply sha256_size.
Qed.

(** A proof that leads from a leaf to the root of a tree is of a leaf of the
    tree. *)
Lemma proof_sound n t k p :
  tree_messages n ⊆ ms → leaf_messages t ⊆ ms → path_messages k p (leaf_TapHash t) ⊆ ms →
  length p = (32 * k)%nat → root_loop k p (leaf_TapHash t) = TapHash n →
  short_script t → Forall short_script (leafDescendants n) →
  t ∈ leafDescendants n.
Proof.
  revert k p. induction n as [t'|a IHa b IHb]; intros k p Mn Mt Mp Hp Hr Hs Hn.
  all: destruct k as [|k]; [cbn in Hr|].
  - apply leaf_hash_inj in Hr as ->; [simpl; set_solver|done..|]. by apply (Forall_singleton short_script) in Hn.
  - assert (p = take (32 * k) p ++ drop (32 * k) p) as Hsplit by by rewrite take_drop.
    rewrite Hsplit, root_loop_app in Hr by (rewrite ?length_take, ?length_drop; lia).
    rewrite Hsplit, path_messages_app in Mp by (rewrite ?length_take, ?length_drop; lia).
    apply app_sub in Mp as [_ Mp]. symmetry in Hr. by apply leaf_not_branch in Hr.
  - apply app_sub in Mn as [Mn _]. by apply leaf_not_branch in Hr.
  - assert (p = take (32 * k) p ++ drop (32 * k) p) as Hsplit by by rewrite take_drop.
    rewrite Hsplit, root_loop_app in Hr by (rewrite ?length_take, ?length_drop; lia).
    rewrite Hsplit, path_messages_app in Mp by (rewrite ?length_take, ?length_drop; lia).
    apply app_sub in Mp as [Mp Mp']. cbn [tree_messages] in Mn. rewrite !app_sub in Mn. destruct Mn as (Mn & Ma & Mb).
    simpl in Hn. apply Forall_app in Hn as [Hna Hnb]. simpl. rewrite elem_of_app.
    apply branch_inj in Hr as [[Hr _]|[Hr _]]; [| |done|done|..].
    + left. apply (IHa k (take (32 * k) p)); try done. rewrite length_take. lia.
    + right. apply (IHb k (take (32 * k) p)); try done. rewrite length_take. lia.
    + apply root_loop_size, (TapHash_size (Leaf t)).
    + rewrite length_drop. lia.
    + apply TapHash_size.
    + apply TapHash_size.
Qed.
End Apart.

(** ** Control blocks *)

Context `{Curve}.

(** Leaf versions are even: the low bit of the first byte is the parity. *)
Definition even_byte (v : Z) : Prop := is_byte v ∧ Z.land v 1 = 0.

Lemma parity_byte v (odd : bool) :
  even_byte v →
  let b := Z.lor v (if odd then 1 else 0) in
  (Z.land b 1 =? 1) = odd ∧ Z.land b TaprootLeafMask = v.
Proof.
  intros [Hb Hv] b. unfold b, TaprootLeafMask. rewrite !Z.land_lor_distr_l, Hv.
  assert (Z.land v 254 = v) as ->.
  { transitivity (Z.land v 255).
    - change 255 with (Z.lor 254 1). rewrite Z.land_lor_distr_r, Hv. by rewrite Z.lor_0_r.
    - change 255 with (Z.ones 8). rewrite Z.land_ones by lia. apply Z.mod_small, Hb. }
  destruct odd; split; [done|apply Z.lor_0_r|done|apply Z.lor_0_r].
Qed.

Definition cb_ok (c : ControlBlock) : Prop :=
  even_byte (cb_LeafVersion c) ∧ Nat.divide 32 (length (InclusionProof c)) ∧
  (length (InclusionProof c) ≤ 32 * ControlBlockMaxNodeCount)%nat.

Lemma ParseControlBlock_ToBytes c :
  cb_ok c →
  ∃ key, ParseControlBlock (ToBytes c) =
           inl (mkControlBlock key (OutputKeyYIsOdd c) (cb_LeafVersion c) (InclusionProof c)) ∧
    schnorr_SerializePubKey key = schnorr_SerializePubKey (InternalKey c).
Proof.
  intros (Hv & [k Hk] & Hl). unfold ControlBlockMaxNodeCount in Hl.
  destruct (SerializePubKey_size (InternalKey c)) as [Hs _].
  destruct (Parse_Serialize (InternalKey c)) as (key & Hp & Hkey). exists key. split; [|done].
  unfold ParseControlBlock, ToBytes, ControlBlockMaxSize, ControlBlockBaseSize, ControlBlockNodeSize, ControlBlockMaxNodeCount.
  set (head := Z.lor _ _).
  assert (length ([head] ++ schnorr_SerializePubKey (InternalKey c) ++ InclusionProof c) =
          33 + k * 32)%nat as Hlen by (rewrite !length_app, Hs, Hk; simpl; lia).
  rewrite Hlen. rewrite (proj2 (Nat.ltb_ge _ _)) by lia. rewrite (proj2 (Nat.ltb_ge _ _)) by lia.
  replace (33 + k * 32 - 33)%nat with (k * 32)%nat by lia. rewrite Nat.Div0.mod_mul. cbn [Nat.eqb negb].
  assert (slice ([head] ++ schnorr_SerializePubKey (InternalKey c) ++ InclusionProof c) 1 33 =
          schnorr_SerializePubKey (InternalKey c)) as ->.
  { unfold slice. change (33 - 1)%nat with 32%nat. rewrite (drop_app_length' [head]) by done.
    by rewrite take_app_le, take_ge by lia. }
  rewrite Hp. assert (nth_byte ([head] ++ schnorr_SerializePubKey (InternalKey c) ++ InclusionProof c) 0 = head) as -> by done.
  unfold head. destruct (parity_byte (cb_LeafVersion c) (OutputKeyYIsOdd c) Hv) as [-> ->].
  do 2 f_equal. change 33%nat with (1 + 32)%nat. rewrite <- drop_drop, (drop_app_length' [_]) by done.
  by rewrite drop_app_le, drop_ge by lia.
Qed.

Lemma OutputKey_exists key script : ∃ outputKey, ComputeTaprootOutputKey key script = Ok outputKey.
Proof.
  unfold ComputeTaprootOutputKey. destruct (Parse_Serialize key) as (k & -> & _). eauto.
Qed.
Lemma OutputKey_x_only key key' script :
  schnorr_SerializePubKey key = schnorr_SerializePubKey key' →
  ComputeTaprootOutputKey key script = ComputeTaprootOutputKey key' script.
Proof. intros He. unfold ComputeTaprootOutputKey. by rewrite He. Qed.

(** Script trees are complete: for leaves with distinct hashes the tree is
    built, its leaves are those given, and for every leaf the proof stored
    at its index makes a control block that, written and parsed again,
    verifies against the output key of the tree, whatever the internal
    key. *)
Theorem taproot_tree_complete leaves :
  leaves ≠ [] → NoDup (map leaf_TapHash leaves) →
  ∃ tree root, AssembleTaprootScriptTree leaves = Some tree ∧ RootNode tree = Some root ∧
    leafDescendants root ≡ₚ leaves ∧
    ∀ i leaf, leaves !! i = Some leaf →
    LeafProofIndex tree !! leaf_TapHash leaf = Some i ∧
    ∃ proof, LeafMerkleProofs tree !! i = Some (leaf, proof) ∧
      (even_byte (LeafVersion leaf) → (length proof ≤ 32 * ControlBlockMaxNodeCount)%nat →
       ∀ key, ∃ outputKey cb cb',
         ComputeTaprootOutputKey key (TapHash root) = Ok outputKey ∧
         ToControlBlock key root leaf proof = Ok cb ∧
         ParseControlBlock (ToBytes cb) = inl cb' ∧
         VerifyTaprootLeafCommitment cb' (schnorr_SerializePubKey outputKey) (LeafScript leaf) = Ok ()).
Proof.
  intros Hne Hnd. destruct (assemble_ok leaves Hne Hnd) as (tree & root & Ha & Hroot & Hp & Hix).
  exists tree, root. split_and!; [done..|]. intros i leaf Hi.
  destruct (Hix i leaf Hi) as (Hidx & p & Hlk & Hdiv & Hpr). split; [done|]. exists p. split; [done|].
  intros Hv Hl key. destruct (OutputKey_exists key (TapHash root)) as [ok Hok].
  exists ok. unfold ToControlBlock. rewrite Hok. cbn. set (cb := mkControlBlock _ _ _ _).
  destruct (ParseControlBlock_ToBytes cb) as (key' & Hparse & Hkey); [done|].
  eexists cb, _. split_and!; [done|done|exact Hparse|].
  unfold VerifyTaprootLeafCommitment, RootHash. cbn [InternalKey InclusionProof cb_LeafVersion OutputKeyYIsOdd cb].
  rewrite (OutputKey_x_only key' key) by done. replace (mkTapLeaf _ _) with leaf by by destruct leaf.
  rewrite Hpr, Hok. unfold mbind, Res_bind. rewrite bool_decide_true by done. simpl.
  by rewrite Bool.eqb_reflx.
Qed.

(** C30. Script trees are sound: a control block whose path leads to the root of
    a tree reveals one of the leaves of the tree, with its script and its
    version, provided that SHA-256 does not collide on the messages that the
    tree and the path of the control block hash. *)
Theorem taproot_proof_sound root ctrlBlock cb revealedScript :
  ParseControlBlock ctrlBlock = inl cb → RootHash cb revealedScript = TapHash root →
  zlen revealedScript < 2 ^ 64 → Forall short_script (leafDescendants root) →
  let leaf := mkTapLeaf (cb_LeafVersion cb) revealedScript in
  apart (tree_messages root ++ proof_messages leaf (InclusionProof cb)) →
  leaf ∈ leafDescendants root.
Proof.
  intros Hparse Hr Hs Hleaves leaf Hap. unfold RootHash, proof_root in Hr. fold leaf in Hr.
  assert (Nat.divide 32 (length (InclusionProof cb))) as [k Hk].
  { unfold ParseControlBlock in Hparse. destruct (Nat.ltb_spec (length ctrlBlock) ControlBlockBaseSize); [done|].
    destruct (_ <? _)%nat; [done|]. destruct (Nat.eqb_spec ((length ctrlBlock - ControlBlockBaseSize) mod ControlBlockNodeSize) 0) as [Hm|]; [|done].
    cbn [negb] in Hparse. destruct (schnorr_ParsePubKey _); [|done]. injection Hparse as <-.
    cbn [InclusionProof]. rewrite length_drop. by apply Nat.Lcm0.mod_divide. }
  rewrite Hk in Hr. unfold ControlBlockNodeSize in Hr. rewrite Nat.div_mul in Hr by done.
  set (ms := tree_messages root ++ proof_messages leaf (InclusionProof cb)) in *.
  assert (tree_messages root ⊆ ms ∧ proof_messages leaf (InclusionProof cb) ⊆ ms) as [M [M1 M2]%app_sub] by by apply app_sub.
  rewrite Hk in M2. unfold ControlBlockNodeSize in M2. rewrite Nat.div_mul in M2 by done.
  eapply (proof_sound ms Hap); [done|done|exact M2| |exact Hr|done|done]. lia.
Qed.
End Facts.
