(* ===== verification/Treap.v ===== *)
(** * Treaps: the sorted maps of the database

    btcd/database/internal/treap.  Nodes are records in a store, pointers are
    addresses in it, and nil is [None]: the mutable treap changes its nodes in
    place, the immutable one copies those it changes and shares the others.
    Following nil, or an address that is not allocated, fails.  The priority of
    a new node is random, an argument here. *)

From Stdlib Require Import ZArith Lia.
From stdpp Require Import base numbers list strings.
From S2P Require Import Prelude ScriptNum Taproot.

Open Scope Z_scope.

Definition staticDepth : nat := 128.
Definition nodeFieldsSize : Z := 72.

Abbreviation ptr := (option nat).
Record treapNode := mkNode {
  n_key : list byte; n_value : list byte; n_priority : Z; n_left : ptr; n_right : ptr }.
Abbreviation Store := (list treapNode).

(** ** Access to the store *)

Definition Mem (A : Type) : Type := Store → option (A * Store).
#[export] Instance Mem_ret : MRet Mem := λ A a s, Some (a, s).
#[export] Instance Mem_bind : MBind Mem := λ A B f m s, match m s with Some (a, s') => f a s' | None => None end.
Definition fail {A} : Mem A := λ _, None.
Definition load (p : ptr) : Mem treapNode := λ s, a ← p; n ← s !! a; Some (n, s).
Definition change (f : treapNode → treapNode) (p : ptr) : Mem unit := λ s,
  a ← p; n ← s !! a; Some (tt, <[a := f n]> s).
Definition set_left (q : ptr) : ptr → Mem unit :=
  change (λ n, mkNode (n_key n) (n_value n) (n_priority n) q (n_right n)).
Definition set_right (q : ptr) : ptr → Mem unit :=
  change (λ n, mkNode (n_key n) (n_value n) (n_priority n) (n_left n) q).
Definition set_value (v : list byte) : ptr → Mem unit :=
  change (λ n, mkNode (n_key n) v (n_priority n) (n_left n) (n_right n)).
Definition alloc (n : treapNode) : Mem ptr := λ s, Some (Some (length s), s ++ [n]).
(** The number of nodes bounds every path. *)
Definition depth : Mem nat := λ s, Some (S (length s), s).

Definition nodeSize (node : treapNode) : Z := uint64 (nodeFieldsSize + (zlen (n_key node) + zlen (n_value node))).
Definition newTreapNode (key value : list byte) (priority : Z) : treapNode := mkNode key value priority None None.
Definition cloneTreapNode (node : treapNode) : treapNode := node.
Definition p_eqb (p q : ptr) : bool := bool_decide (p = q).

(** ** The stack of parents *)

Record parentStack := mkStack { st_index : nat; st_items : list ptr; st_overflow : list ptr }.
Definition no_parents : parentStack := mkStack 0 (replicate staticDepth None) [].
Definition Len (s : parentStack) : nat := st_index s.
(** Out of range is a panic, which is not reached. *)
Definition At (s : parentStack) (n : Z) : ptr :=
  let index := Z.of_nat (st_index s) - n - 1 in
  if index <? 0 then None
  else if index <? Z.of_nat staticDepth then mjoin (st_items s !! Z.to_nat index)
  else mjoin (st_overflow s !! Z.to_nat (index - Z.of_nat staticDepth)).
Definition Pop (s : parentStack) : ptr * parentStack :=
  match st_index s with
  | O => (None, s)
  | S i =>
      if (i <? staticDepth)%nat then (mjoin (st_items s !! i), mkStack i (<[i := None]> (st_items s)) (st_overflow s))
      else (mjoin (st_overflow s !! (i - staticDepth)%nat),
            mkStack i (st_items s) (<[(i - staticDepth)%nat := None]> (st_overflow s)))
  end.
Definition Push (p : ptr) (s : parentStack) : parentStack :=
  if (st_index s <? staticDepth)%nat
  then mkStack (S (st_index s)) (<[st_index s := p]> (st_items s)) (st_overflow s)
  else
    let index := (st_index s - staticDepth)%nat in
    let overflow := if (length (st_overflow s) <? index + 1)%nat
                    then st_overflow s ++ replicate (index + 1 - length (st_overflow s)) None else st_overflow s in
    mkStack (S (st_index s)) (st_items s) (<[index := p]> overflow).

(** ** What both kinds have *)

Record treap := mkTreap { t_root : ptr; t_count : Z; t_totalSize : Z }.
Definition NewMutable : treap := mkTreap None 0 0.
Definition NewImmutable : treap := mkTreap None 0 0.

(** The node with the key, and its parent; the immutable treap asks for the
    node only. *)
Fixpoint get_loop (fuel : nat) (key : list byte) (node parent : ptr) : Mem (ptr * ptr) :=
  match fuel with
  | O => fail
  | S fuel =>
      match node with
      | None => mret (None, None)
      | Some _ =>
          n ← load node;
          match bytes_Compare key (n_key n) with
          | Lt => get_loop fuel key (n_left n) node
          | Gt => get_loop fuel key (n_right n) node
          | Eq => mret (node, parent)
          end
      end
  end.
Definition get (t : treap) (key : list byte) : Mem (ptr * ptr) := d ← depth; get_loop d key (t_root t) None.
Definition Has (t : treap) (key : list byte) : Mem bool :=
  '(node, _) ← get t key; mret (negb (p_eqb node None)).
Definition Get (t : treap) (key : list byte) : Mem (option (list byte)) :=
  '(node, _) ← get t key;
  match node with None => mret None | Some _ => n ← load node; mret (Some (n_value n)) end.

(** The new root. *)
Definition relinkGrandparent (root node parent grandparent : ptr) : Mem ptr :=
  match grandparent with
  | None => mret node
  | Some _ =>
      g ← load grandparent;
      (if p_eqb (n_left g) parent then set_left node grandparent else set_right node grandparent);;
      mret root
  end.

(** Rotations that move a new node up. *)
Fixpoint sift_up (fuel : nat) (root node : ptr) (parents : parentStack) : Mem ptr :=
  match fuel with
  | O => fail
  | S fuel =>
      match Len parents with
      | O => mret root
      | S _ =>
          let '(parent, parents) := Pop parents in
          n ← load node; p ← load parent;
          if n_priority p <=? n_priority n then mret root else
          (if p_eqb (n_left p) node
           then set_right parent node;; set_left (n_right n) parent
           else set_left parent node;; set_right (n_left n) parent);;
          root ← relinkGrandparent root node parent (At parents 0);
          sift_up fuel root node parents
      end
  end.

(** Which child moves up when a node moves down. *)
Definition pick_child (n : treapNode) : Mem (ptr * bool) :=
  match n_left n, n_right n with
  | None, r => mret (r, false)
  | l, None => mret (l, true)
  | l, r =>
      nl ← load l; nr ← load r;
      mret (if n_priority nr <=? n_priority nl then (l, true) else (r, false))
  end.

(** Calls of the function for the entries in order, until it returns false. *)
Fixpoint push_left (fuel : nat) (node : ptr) (parents : parentStack) : Mem parentStack :=
  match fuel with
  | O => fail
  | S fuel =>
      match node with
      | None => mret parents
      | Some _ => n ← load node; push_left fuel (n_left n) (Push node parents)
      end
  end.
Fixpoint each_loop (fuel : nat) (fn : list byte → list byte → bool) (parents : parentStack)
    (called : list (list byte * list byte)) : Mem (list (list byte * list byte)) :=
  match fuel with
  | O => fail
  | S fuel =>
      match Len parents with
      | O => mret called
      | S _ =>
          let '(node, parents) := Pop parents in
          n ← load node;
          let called := called ++ [(n_key n, n_value n)] in
          if negb (fn (n_key n) (n_value n)) then mret called else
          d ← depth;
          parents ← push_left d (n_right n) parents;
          each_loop fuel fn parents called
      end
  end.
Definition ForEach (t : treap) (fn : list byte → list byte → bool) : Mem (list (list byte * list byte)) :=
  d ← depth; parents ← push_left d (t_root t) no_parents; each_loop d fn parents [].

(** ** Mutable treaps *)

(** The parents of where the key belongs and the last comparison, or the node
    that has the key. *)
Fixpoint put_walk (fuel : nat) (key : list byte) (node : ptr) (parents : parentStack) (compareResult : comparison)
    : Mem (parentStack * comparison + ptr) :=
  match fuel with
  | O => fail
  | S fuel =>
      match node with
      | None => mret (inl (parents, compareResult))
      | Some _ =>
          let parents := Push node parents in
          n ← load node;
          match bytes_Compare key (n_key n) with
          | Lt => put_walk fuel key (n_left n) parents Lt
          | Gt => put_walk fuel key (n_right n) parents Gt
          | Eq => mret (inr node)
          end
      end
  end.
(** The store of the nodes changes with the treap. *)
Definition Mutable_Put (t : treap) (key value : list byte) (priority : Z) : Mem treap :=
  match t_root t with
  | None =>
      let n := newTreapNode key value priority in
      node ← alloc n; mret (mkTreap node 1 (nodeSize n))
  | Some _ =>
      d ← depth;
      w ← put_walk d key (t_root t) no_parents Eq;
      match w with
      | inr node =>
          n ← load node;
          set_value value node;;
          mret (mkTreap (t_root t) (t_count t) (uint64 (uint64 (t_totalSize t - zlen (n_value n)) + zlen value)))
      | inl (parents, compareResult) =>
          let n := newTreapNode key value priority in
          node ← alloc n;
          let parent := At parents 0 in
          (match compareResult with Lt => set_left node parent | _ => set_right node parent end);;
          root ← sift_up (S (Len parents)) (t_root t) node parents;
          mret (mkTreap root (t_count t + 1) (uint64 (t_totalSize t + nodeSize n)))
      end
  end.

(** The root and the parent of the node once it has no children. *)
Fixpoint sift_down (fuel : nat) (root node parent : ptr) : Mem (ptr * ptr) :=
  match fuel with
  | O => fail
  | S fuel =>
      n ← load node;
      match n_left n, n_right n with
      | None, None => mret (root, parent)
      | _, _ =>
          '(child, isLeft) ← pick_child n;
          c ← load child;
          (if (isLeft : bool) then set_right node child;; set_left (n_right c) node
           else set_left node child;; set_right (n_left c) node);;
          root ← relinkGrandparent root child node parent;
          sift_down fuel root node child
      end
  end.
Definition unlink (node parent : ptr) : Mem unit :=
  p ← load parent;
  if p_eqb (n_right p) node then set_right None parent else set_left None parent.
Definition is_leaf (n : treapNode) : bool := p_eqb (n_left n) None && p_eqb (n_right n) None.
Definition Mutable_Delete (t : treap) (key : list byte) : Mem treap :=
  '(node, parent) ← get t key;
  match node with
  | None => mret t
  | Some _ =>
      n ← load node;
      if p_eqb parent None && is_leaf n then mret (mkTreap None 0 0) else
      d ← depth;
      '(root, parent) ← sift_down d (t_root t) node parent;
      unlink node parent;;
      mret (mkTreap root (t_count t - 1) (uint64 (t_totalSize t - nodeSize n)))
  end.
Definition Reset (t : treap) : treap := mkTreap None 0 0.

(** ** Immutable treaps *)

(** A copy that takes the place of the node under the last parent. *)
Definition copy_under (node : ptr) (parents : parentStack) : Mem ptr :=
  n ← load node;
  nodeCopy ← alloc (cloneTreapNode n);
  match At parents 0 with
  | None => mret nodeCopy
  | oldParent =>
      o ← load oldParent;
      (if p_eqb (n_left o) node then set_left nodeCopy oldParent else set_right nodeCopy oldParent);;
      mret nodeCopy
  end.
Fixpoint copy_walk (fuel : nat) (key : list byte) (node : ptr) (parents : parentStack) (compareResult : comparison)
    : Mem (parentStack * (comparison + ptr * ptr)) :=
  match fuel with
  | O => fail
  | S fuel =>
      match node with
      | None => mret (parents, inl compareResult)
      | Some _ =>
          nodeCopy ← copy_under node parents;
          let parents := Push nodeCopy parents in
          n ← load node;
          match bytes_Compare key (n_key n) with
          | Lt => copy_walk fuel key (n_left n) parents Lt
          | Gt => copy_walk fuel key (n_right n) parents Gt
          | Eq => mret (parents, inr (node, nodeCopy))
          end
      end
  end.
Definition Immutable_Put (t : treap) (key value : list byte) (priority : Z) : Mem treap :=
  match t_root t with
  | None =>
      let n := newTreapNode key value priority in
      root ← alloc n; mret (mkTreap root 1 (nodeSize n))
  | Some _ =>
      d ← depth;
      '(parents, w) ← copy_walk d key (t_root t) no_parents Eq;
      let newRoot := At parents (Z.of_nat (Len parents) - 1) in
      match w with
      | inr (node, nodeCopy) =>
          set_value value nodeCopy;;
          n ← load node;
          mret (mkTreap newRoot (t_count t) (uint64 (uint64 (t_totalSize t - zlen (n_value n)) + zlen value)))
      | inl compareResult =>
          let n := newTreapNode key value priority in
          node ← alloc n;
          let parent := At parents 0 in
          (match compareResult with Lt => set_left node parent | _ => set_right node parent end);;
          newRoot ← sift_up (S (Len parents)) newRoot node parents;
          mret (mkTreap newRoot (t_count t + 1) (uint64 (t_totalSize t + nodeSize n)))
      end
  end.

(** The parents with the node last, if the key is there. *)
Fixpoint del_walk (fuel : nat) (key : list byte) (node : ptr) (parents : parentStack) : Mem (ptr * parentStack) :=
  match fuel with
  | O => fail
  | S fuel =>
      match node with
      | None => mret (None, parents)
      | Some _ =>
          let parents := Push node parents in
          n ← load node;
          match bytes_Compare key (n_key n) with
          | Lt => del_walk fuel key (n_left n) parents
          | Gt => del_walk fuel key (n_right n) parents
          | Eq => mret (node, parents)
          end
      end
  end.
Fixpoint copy_parents (i : nat) (parents newParents : parentStack) : Mem parentStack :=
  match i with
  | O => mret newParents
  | S i =>
      nodeCopy ← copy_under (At parents (Z.of_nat i)) newParents;
      copy_parents i parents (Push nodeCopy newParents)
  end.
Fixpoint sift_down_copy (fuel : nat) (newRoot delNode parent : ptr) : Mem (ptr * ptr) :=
  match fuel with
  | O => fail
  | S fuel =>
      n ← load delNode;
      match n_left n, n_right n with
      | None, None => mret (newRoot, parent)
      | _, _ =>
          '(child, isLeft) ← pick_child n;
          c ← load child;
          child ← alloc (cloneTreapNode c);
          (if (isLeft : bool) then set_right delNode child;; set_left (n_right c) delNode
           else set_left delNode child;; set_right (n_left c) delNode);;
          newRoot ← relinkGrandparent newRoot child delNode parent;
          sift_down_copy fuel newRoot delNode child
      end
  end.
Definition Immutable_Delete (t : treap) (key : list byte) : Mem treap :=
  d ← depth;
  '(delNode, parents) ← del_walk d key (t_root t) no_parents;
  match delNode with
  | None => mret t
  | Some _ =>
      n ← load delNode;
      if p_eqb (At parents 1) None && is_leaf n then mret (mkTreap None 0 0) else
      newParents ← copy_parents (Len parents) parents no_parents;
      let '(delNode, newParents) := Pop newParents in
      let newRoot := At newParents (Z.of_nat (Len newParents) - 1) in
      '(newRoot, parent) ← sift_down_copy d newRoot delNode (At newParents 0);
      unlink delNode parent;;
      n ← load delNode;
      mret (mkTreap newRoot (t_count t - 1) (uint64 (t_totalSize t - nodeSize n)))
  end.

(** ** Iterators *)

Record Iterator := mkIter {
  it_root : ptr; it_node : ptr; it_parents : parentStack; isNew : bool;
  seekKey : option (list byte); startKey : option (list byte); limitKey : option (list byte) }.
Definition new_iterator (t : treap) (startKey limitKey : option (list byte)) : Iterator :=
  mkIter (t_root t) None no_parents true None startKey limitKey.
Definition at_node (node : ptr) (it : Iterator) : Iterator :=
  mkIter (it_root it) node (it_parents it) (isNew it) (seekKey it) (startKey it) (limitKey it).
Definition with_parents (parents : parentStack) (it : Iterator) : Iterator :=
  mkIter (it_root it) (it_node it) parents (isNew it) (seekKey it) (startKey it) (limitKey it).
Definition not_new (it : Iterator) : Iterator :=
  mkIter (it_root it) (it_node it) (it_parents it) false (seekKey it) (startKey it) (limitKey it).
Definition with_seekKey (k : option (list byte)) (it : Iterator) : Iterator :=
  mkIter (it_root it) (it_node it) (it_parents it) (isNew it) k (startKey it) (limitKey it).

Definition limitIterator (it : Iterator) : Mem (bool * Iterator) :=
  match it_node it with
  | None => mret (false, it)
  | Some _ =>
      n ← load (it_node it);
      let below := match startKey it with Some k => bool_decide (bytes_Compare (n_key n) k = Lt) | None => false end in
      let above := match limitKey it with Some k => negb (bool_decide (bytes_Compare (n_key n) k = Lt)) | None => false end in
      if below || above then mret (false, at_node None it) else mret (true, it)
  end.

(** The walk of [seek]: whether it stopped at the key, and otherwise the depth
    of the node that was selected. *)
Fixpoint seek_loop (fuel : nat) (key : list byte) (exactMatch greater : bool) (node : ptr) (selectedNodeDepth : nat) (it : Iterator)
    : Mem (option nat * Iterator) :=
  match fuel with
  | O => fail
  | S fuel =>
      match node with
      | None => mret (Some selectedNodeDepth, it)
      | Some _ =>
          let it := with_parents (Push node (it_parents it)) it in
          n ← load node;
          match bytes_Compare key (n_key n) with
          | Lt => if greater
                  then seek_loop fuel key exactMatch greater (n_left n) (Len (it_parents it) - 1) (at_node node it)
                  else seek_loop fuel key exactMatch greater (n_left n) selectedNodeDepth it
          | Gt => if greater
                  then seek_loop fuel key exactMatch greater (n_right n) selectedNodeDepth it
                  else seek_loop fuel key exactMatch greater (n_right n) (Len (it_parents it) - 1) (at_node node it)
          | Eq =>
              if exactMatch then mret (None, with_parents (snd (Pop (it_parents it))) (at_node node it))
              else seek_loop fuel key exactMatch greater (if greater then n_right n else n_left n) selectedNodeDepth it
          end
      end
  end.
Fixpoint pop_times (k : nat) (s : parentStack) : parentStack :=
  match k with O => s | S k => pop_times k (snd (Pop s)) end.
Definition seek (key : list byte) (exactMatch greater : bool) (it : Iterator) : Mem (bool * Iterator) :=
  d ← depth;
  '(sel, it) ← seek_loop d key exactMatch greater (it_root it) 0 (with_parents no_parents (at_node None it));
  match sel with
  | None => limitIterator it
  | Some selectedNodeDepth =>
      limitIterator (with_parents (pop_times (Len (it_parents it) - selectedNodeDepth) (it_parents it)) it)
  end.

(** The first or last node under the root; nothing changes when there is
    none. *)
Fixpoint end_loop (fuel : nat) (next : treapNode → ptr) (node : ptr) (it : Iterator) : Mem (bool * Iterator) :=
  match fuel with
  | O => fail
  | S fuel =>
      match node with
      | None => mret (false, it)
      | Some _ =>
          n ← load node;
          match next n with
          | None => mret (true, at_node node it)
          | Some _ => end_loop fuel next (next n) (with_parents (Push node (it_parents it)) it)
          end
      end
  end.
Definition First (it : Iterator) : Mem (bool * Iterator) :=
  let it := not_new it in
  match startKey it with
  | Some k => seek k true true it
  | None => d ← depth; end_loop d n_left (it_root it) (with_parents no_parents it)
  end.
Definition Last (it : Iterator) : Mem (bool * Iterator) :=
  let it := not_new it in
  match limitKey it with
  | Some k => seek k false false it
  | None => d ← depth; end_loop d n_right (it_root it) (with_parents no_parents it)
  end.

(** Up to the first parent that has the node not on the side of [next]. *)
Fixpoint ascend (fuel : nat) (next : treapNode → ptr) (node parent : ptr) (parents : parentStack) : Mem (ptr * parentStack) :=
  match fuel with
  | O => fail
  | S fuel =>
      match parent with
      | None => mret (None, parents)
      | Some _ =>
          p ← load parent;
          if p_eqb (next p) node then let '(parent', parents') := Pop parents in ascend fuel next parent parent' parents'
          else mret (parent, parents)
      end
  end.
(** Down on the other side as far as possible. *)
Fixpoint descend (fuel : nat) (back : treapNode → ptr) (node : ptr) (it : Iterator) : Mem Iterator :=
  match fuel with
  | O => fail
  | S fuel =>
      match node with
      | None => mret it
      | Some _ =>
          n ← load node;
          descend fuel back (back n) (at_node node (with_parents (Push (it_node it) (it_parents it)) it))
      end
  end.
Definition advance (next back : treapNode → ptr) (it : Iterator) : Mem (bool * Iterator) :=
  n ← load (it_node it);
  d ← depth;
  match next n with
  | None =>
      let '(parent, parents) := Pop (it_parents it) in
      '(node, parents) ← ascend d next (it_node it) parent parents;
      limitIterator (at_node node (with_parents parents it))
  | Some _ =>
      let it := at_node (next n) (with_parents (Push (it_node it) (it_parents it)) it) in
      m ← load (it_node it);
      it ← descend d back (back m) it;
      limitIterator it
  end.
Definition Next (it : Iterator) : Mem (bool * Iterator) :=
  if isNew it then First it else
  match it_node it with
  | None => mret (false, it)
  | Some _ =>
      match seekKey it with
      | Some k => seek k false true (with_seekKey None it)
      | None => advance n_right n_left it
      end
  end.
Definition Prev (it : Iterator) : Mem (bool * Iterator) :=
  if isNew it then Last it else
  match it_node it with
  | None => mret (false, it)
  | Some _ =>
      match seekKey it with
      | Some k => seek k false false (with_seekKey None it)
      | None => advance n_left n_right it
      end
  end.
Definition Seek (key : list byte) (it : Iterator) : Mem (bool * Iterator) := seek key true true (not_new it).
Definition Key (it : Iterator) : Mem (option (list byte)) :=
  match it_node it with None => mret None | Some _ => n ← load (it_node it); mret (Some (n_key n)) end.
Definition Value (it : Iterator) : Mem (option (list byte)) :=
  match it_node it with None => mret None | Some _ => n ← load (it_node it); mret (Some (n_value n)) end.
Definition Valid (it : Iterator) : bool := negb (p_eqb (it_node it) None).
(** [t] is the mutable treap of the iterator, if it has one. *)
Definition ForceReseek (t : option treap) (it : Iterator) : Mem Iterator :=
  match t with
  | None => mret it
  | Some t =>
      let it := mkIter (t_root t) (it_node it) (it_parents it) (isNew it) (seekKey it) (startKey it) (limitKey it) in
      k ← Key it; mret (with_seekKey k it)
  end.
