(* ===== verification/TreapFacts.v ===== *)
(** * Treaps are sorted maps

    The stack of parents is a list.  A treap in the store stands for a tree
    without sharing, whose entries in order are sorted by their keys.  Every
    operation is followed on such trees, with the way to a node as a list of
    frames; what it does to the entries is what the operation of a finite map
    does.  The immutable treap writes new nodes only, so that all its versions
    stay. *)

From Stdlib Require Import ZArith Lia.
From stdpp Require Import base numbers list strings gmap sorting.
From S2P Require Import Prelude ScriptNum WireTx Taproot TaprootFacts Treap.

Open Scope Z_scope.

(** ** The stack of parents *)

Definition stack_ok (s : parentStack) (l : list nat) : Prop :=
  st_index s = length l ∧ length (st_items s) = staticDepth ∧
  ∃ m, st_items s ++ st_overflow s = map Some (reverse l) ++ replicate m None.

Lemma slot_items s i : length (st_items s) = staticDepth → (i < staticDepth)%nat →
  st_items s !! i = (st_items s ++ st_overflow s) !! i.
Proof. intros. by rewrite lookup_app_l by lia. Qed.
Lemma slot_overflow s i : length (st_items s) = staticDepth → (staticDepth ≤ i)%nat →
  st_overflow s !! (i - staticDepth)%nat = (st_items s ++ st_overflow s) !! i.
Proof. intros. by rewrite lookup_app_r, H by lia. Qed.
Lemma slot_at l m i : mjoin ((map Some (reverse l) ++ replicate m None) !! i) = if decide (i < length l)%nat then l !! (length l - S i)%nat else None (A := nat).
Proof.
  case_decide.
  - rewrite lookup_app_l by (rewrite length_map, length_reverse; lia). 
    change (map Some (reverse l)) with (Some <$> reverse l). rewrite list_lookup_fmap, reverse_lookup by done. by destruct (l !! _).
  - rewrite lookup_app_r by (rewrite length_map, length_reverse; lia).
    destruct (replicate m None !! _) eqn:E; [|done]. by apply lookup_replicate in E as [-> _].
Qed.
Lemma stack_At s l n : stack_ok s l → 0 <= n → At s n = l !! Z.to_nat n.
Proof.
  intros (Hi & Hl & m & Hv) Hn. unfold At. rewrite Hi.
  destruct (_ <? 0) eqn:E; [apply Z.ltb_lt in E; by rewrite lookup_ge_None_2 by lia|]. apply Z.ltb_ge in E.
  assert (∀ i, i = Z.to_nat (Z.of_nat (length l) - n - 1) → mjoin ((st_items s ++ st_overflow s) !! i) = l !! Z.to_nat n) as Hg.
  { intros i ->. rewrite Hv, slot_at, decide_True by lia. f_equal. lia. }
  destruct (_ <? Z.of_nat staticDepth) eqn:E2.
  - apply Z.ltb_lt in E2. rewrite slot_items by (done || lia). by apply Hg.
  - apply Z.ltb_ge in E2. rewrite Z2Nat.inj_sub, Nat2Z.id by lia. rewrite slot_overflow by (done || lia). by apply Hg.
Qed.
Lemma stack_bottom s l : stack_ok s l → At s (Z.of_nat (Len s) - 1) = last l.
Proof.
  intros Hs. pose proof Hs as (Hi & Hl & m & Hv). unfold Len. destruct l as [|a l].
  - unfold At. rewrite Hi. cbn [length]. change (Z.of_nat 0 - (Z.of_nat 0 - 1) - 1) with 0. cbn [Z.ltb Z.compare].
    change (0 <? Z.of_nat staticDepth) with true. cbn [Z.to_nat]. rewrite slot_items by (done || (unfold staticDepth; lia)).
    by rewrite Hv, slot_at.
  - rewrite (stack_At s (a :: l)) by (done || (rewrite Hi; cbn [length]; lia)). rewrite last_lookup. f_equal. rewrite Hi. cbn [length]. lia.
Qed.
Lemma stack_Pop s a l : stack_ok s (a :: l) → ∃ s', Pop s = (Some a, s') ∧ stack_ok s' l.
Proof.
  intros (Hi & Hl & m & Hv). unfold Pop. rewrite Hi. cbn [length].
  assert (mjoin ((st_items s ++ st_overflow s) !! length l) = Some a) as Ha.
  { rewrite Hv, slot_at, decide_True by (cbn; lia). replace (length (a :: l) - S (length l))%nat with 0%nat by (cbn; lia). done. }
  assert (<[length l := None]> (st_items s ++ st_overflow s) = map Some (reverse l) ++ replicate (S m) None) as Hu.
  { rewrite Hv, reverse_cons, map_app, <- app_assoc. rewrite insert_app_r_alt by (rewrite length_map, length_reverse; lia).
    by rewrite length_map, length_reverse, Nat.sub_diag. }
  destruct (_ <? _)%nat eqn:E.
  - apply Nat.ltb_lt in E. rewrite slot_items, Ha by done. eexists. split; [done|]. split_and!; [done|cbn [st_items]; by rewrite length_insert|].
    exists (S m). cbn [st_items st_overflow]. by rewrite <- insert_app_l by lia.
  - apply Nat.ltb_ge in E. rewrite slot_overflow, Ha by done. eexists. split; [done|]. split_and!; [done|done|].
    exists (S m). cbn [st_items st_overflow]. rewrite <- Hu, insert_app_r_alt by lia. by rewrite Hl.
Qed.
Lemma stack_Pop_empty s : stack_ok s [] → Pop s = (None, s).
Proof. intros (Hi & _). unfold Pop. by rewrite Hi. Qed.
Lemma stack_Push s a l : stack_ok s l → stack_ok (Push (Some a) s) (a :: l).
Proof.
  intros (Hi & Hl & m & Hv). unfold Push. rewrite Hi.
  assert (∀ k, (0 < m + k)%nat → <[length l := Some a]> ((st_items s ++ st_overflow s) ++ replicate k None) =
    map Some (reverse (a :: l)) ++ replicate (m + k - 1) None) as Hu.
  { intros k Hk. rewrite Hv, <- app_assoc, <- replicate_add. rewrite insert_app_r_alt by (rewrite length_map, length_reverse; lia).
    rewrite length_map, length_reverse, Nat.sub_diag, reverse_cons, map_app, <- app_assoc.
    destruct (m + k)%nat as [|j] eqn:E; [lia|]. cbn. by rewrite Nat.sub_0_r. }
  assert (length (st_items s) + length (st_overflow s) = length l + m)%nat as Hlen.
  { rewrite <- length_app, Hv, length_app, length_map, length_reverse, length_replicate. done. }
  destruct (_ <? _)%nat eqn:E; [apply Nat.ltb_lt in E|apply Nat.ltb_ge in E].
  - split_and!; [done|cbn [st_items]; by rewrite length_insert|]. exists (m + 0 - 1)%nat. rewrite <- Hu by lia. cbn [replicate st_items st_overflow].
    rewrite app_nil_r. by rewrite insert_app_l by lia.
  - split_and!; [done|done|]. cbn [st_items st_overflow]. destruct (_ <? _)%nat eqn:E2; [apply Nat.ltb_lt in E2|apply Nat.ltb_ge in E2].
    + set (k := (length l - staticDepth + 1 - length (st_overflow s))%nat). exists (m + k - 1)%nat. rewrite <- (Hu k) by lia.
      rewrite <- app_assoc, (insert_app_r_alt (st_items s)) by lia. by rewrite Hl.
    + exists (m + 0 - 1)%nat. rewrite <- Hu by lia. cbn [replicate]. rewrite app_nil_r, (insert_app_r_alt (st_items s)) by lia. by rewrite Hl.
Qed.
Lemma stack_none : stack_ok no_parents [].
Proof. split_and!; [done|done|]. by exists staticDepth. Qed.
Lemma stack_Len s l : stack_ok s l → Len s = length l.
Proof. by intros [Hi _]. Qed.

(** ** Trees in the store *)

Abbreviation entry := (list byte * list byte)%type.
Inductive atree := E | N (a : nat) (k v : list byte) (p : Z) (l r : atree).
Definition aptr (t : atree) : ptr := match t with E => None | N a _ _ _ _ _ => Some a end.
Fixpoint holds (σ : Store) (t : atree) : Prop :=
  match t with
  | E => True
  | N a k v p l r => σ !! a = Some (mkNode k v p (aptr l) (aptr r)) ∧ holds σ l ∧ holds σ r
  end.
Fixpoint addrs (t : atree) : list nat := match t with E => [] | N a _ _ _ l r => a :: addrs l ++ addrs r end.
Fixpoint entries (t : atree) : list entry := match t with E => [] | N _ k v _ l r => entries l ++ (k, v) :: entries r end.

(** A node with a hole for one of its subtrees; the way to a node, the last
    step first. *)
Inductive side := Left | Right.
Record frame := mkFrame { f_side : side; f_addr : nat; f_key : list byte; f_value : list byte; f_prio : Z; f_other : atree }.
Definition fill (f : frame) (t : atree) : atree :=
  match f_side f with
  | Left => N (f_addr f) (f_key f) (f_value f) (f_prio f) t (f_other f)
  | Right => N (f_addr f) (f_key f) (f_value f) (f_prio f) (f_other f) t
  end.
Fixpoint plug (c : list frame) (t : atree) : atree := match c with [] => t | f :: c => plug c (fill f t) end.
Definition frame_node (f : frame) (q : ptr) : treapNode :=
  match f_side f with
  | Left => mkNode (f_key f) (f_value f) (f_prio f) q (aptr (f_other f))
  | Right => mkNode (f_key f) (f_value f) (f_prio f) (aptr (f_other f)) q
  end.
Fixpoint holds_ctx (σ : Store) (c : list frame) (q : ptr) : Prop :=
  match c with
  | [] => True
  | f :: c => σ !! f_addr f = Some (frame_node f q) ∧ holds σ (f_other f) ∧ holds_ctx σ c (Some (f_addr f))
  end.
Fixpoint addrs_ctx (c : list frame) : list nat :=
  match c with [] => [] | f :: c => f_addr f :: addrs (f_other f) ++ addrs_ctx c end.
Definition spine (c : list frame) : list nat := map f_addr c.
Fixpoint before (c : list frame) : list entry :=
  match c with
  | [] => []
  | f :: c => before c ++ match f_side f with Left => [] | Right => entries (f_other f) ++ [(f_key f, f_value f)] end
  end.
Fixpoint after (c : list frame) : list entry :=
  match c with
  | [] => []
  | f :: c => match f_side f with Left => (f_key f, f_value f) :: entries (f_other f) | Right => [] end ++ after c
  end.

Implicit Types (σ : Store) (t : atree) (c : list frame) (f : frame).

Lemma holds_plug σ c t : holds σ (plug c t) ↔ holds_ctx σ c (aptr t) ∧ holds σ t.
Proof.
  revert t. induction c as [|f c IH]; intros t; cbn [plug holds_ctx]; [naive_solver|]. rewrite IH.
  unfold fill, frame_node. destruct (f_side f); cbn [holds aptr]; naive_solver.
Qed.
Lemma addrs_plug c t : addrs (plug c t) ≡ₚ addrs_ctx c ++ addrs t.
Proof.
  revert t. induction c as [|f c IH]; intros t; cbn [plug addrs_ctx]; [done|]. rewrite IH. unfold fill.
  destruct (f_side f); cbn [addrs]; solve_Permutation.
Qed.
Lemma entries_plug c t : entries (plug c t) = before c ++ entries t ++ after c.
Proof.
  revert t. induction c as [|f c IH]; intros t; cbn [plug before after]; [by rewrite app_nil_r|]. rewrite IH. unfold fill.
  destruct (f_side f); cbn [entries]; by rewrite <- ?app_assoc, ?app_nil_r.
Qed.
Lemma aptr_plug c t : aptr (plug c t) = match last (spine c) with Some a => Some a | None => aptr t end.
Proof.
  revert t. induction c as [|f c IH]; intros t; cbn [plug spine map]; [done|]. rewrite IH. unfold fill. rewrite last_cons. fold (spine c).
  destruct (last (spine c)); [done|]. by destruct (f_side f).
Qed.
Lemma spine_sub c a : a ∈ spine c → a ∈ addrs_ctx c.
Proof.
  induction c as [|f c IH]; cbn [spine map addrs_ctx]; [done|]. rewrite !elem_of_cons, elem_of_app. fold (spine c). naive_solver.
Qed.

Lemma holds_agree σ σ' t : (∀ a, a ∈ addrs t → σ' !! a = σ !! a) → holds σ t → holds σ' t.
Proof.
  induction t as [|a k v p l IHl r IHr]; cbn [holds addrs]; [done|]. intros Ha (H1 & H2 & H3). split_and!.
  - rewrite Ha by set_solver. done.
  - apply IHl; [|done]. intros b Hb. apply Ha. set_solver.
  - apply IHr; [|done]. intros b Hb. apply Ha. set_solver.
Qed.
Lemma holds_ctx_agree σ σ' c q : (∀ a, a ∈ addrs_ctx c → σ' !! a = σ !! a) → holds_ctx σ c q → holds_ctx σ' c q.
Proof.
  revert q. induction c as [|f c IH]; intros q; cbn [holds_ctx addrs_ctx]; [done|]. intros Ha (H1 & H2 & H3). split_and!.
  - rewrite Ha by set_solver. done.
  - apply (holds_agree σ); [|done]. intros b Hb. apply Ha. set_solver.
  - apply IH; [|done]. intros b Hb. apply Ha. set_solver.
Qed.
Lemma holds_bound σ t a : holds σ t → a ∈ addrs t → (a < length σ)%nat.
Proof.
  induction t as [|b k v p l IHl r IHr]; cbn [holds addrs]; [set_solver|]. intros (H1 & H2 & H3).
  rewrite elem_of_cons, elem_of_app. intros [->|[?|?]]; [by eapply lookup_lt_Some|by apply IHl|by apply IHr].
Qed.
Lemma holds_size σ t : holds σ t → NoDup (addrs t) → (length (addrs t) ≤ length σ)%nat.
Proof.
  intros Hh Hn. rewrite <- (length_seq (length σ) 0). apply submseteq_length, NoDup_submseteq; [done|].
  intros a Ha. apply elem_of_seq. pose proof (holds_bound σ t a Hh Ha). lia.
Qed.

(** ** Steps of the store *)

Lemma run_load {B} (f : treapNode → Mem B) a n σ : σ !! a = Some n → (load (Some a) ≫= f) σ = f n σ.
Proof. intros H. unfold mbind, Mem_bind, load. cbn. by rewrite H. Qed.
Lemma run_change {B} g (f : unit → Mem B) a n σ : σ !! a = Some n → (change g (Some a) ≫= f) σ = f tt (<[a := g n]> σ).
Proof. intros H. unfold mbind, Mem_bind, change. cbn. by rewrite H. Qed.
Lemma run_alloc {B} (f : ptr → Mem B) n σ : (alloc n ≫= f) σ = f (Some (length σ)) (σ ++ [n]).
Proof. done. Qed.
Lemma run_depth {B} (f : nat → Mem B) σ : (depth ≫= f) σ = f (S (length σ)) σ.
Proof. done. Qed.
Lemma run_bind {A B} (m : Mem A) (f : A → Mem B) a σ σ' : m σ = Some (a, σ') → (m ≫= f) σ = f a σ'.
Proof. intros H. unfold mbind, Mem_bind. by rewrite H. Qed.
Lemma p_eqb_true q : p_eqb q q = true.
Proof. unfold p_eqb. by rewrite bool_decide_true. Qed.
Lemma p_eqb_false q q' : q ≠ q' → p_eqb q q' = false.
Proof. intros. unfold p_eqb. by rewrite bool_decide_false. Qed.
Lemma aptr_in t a : aptr t = Some a → a ∈ addrs t.
Proof. destruct t; [done|]. intros [= ->]. cbn. set_solver. Qed.

(** The pointer at the end of the way is changed. *)
Definition relinked σ c (q : ptr) : Store :=
  match c with [] => σ | f :: _ => <[f_addr f := frame_node f q]> σ end.
Lemma relink_head {B} (F : ptr → Mem B) σ f c b q root (parent : ptr) :
  holds_ctx σ (f :: c) (Some b) → b ∉ addrs (f_other f) → parent = Some (f_addr f) →
  ((g ← load parent; (if p_eqb (n_left g) (Some b) then set_left q parent else set_right q parent);; mret root) ≫= F) σ =
  F root (relinked σ (f :: c) q).
Proof.
  intros (Hf & _) Hb ->. unfold mbind at 1, Mem_bind at 1. rewrite (run_load _ _ _ _ Hf).
  assert (aptr (f_other f) ≠ Some b) as Hne by (intros ?%aptr_in; done).
  unfold frame_node in *. cbn [relinked]. unfold frame_node. destruct (f_side f); cbn [n_left].
  - rewrite p_eqb_true. unfold set_left. by rewrite (run_change _ _ _ _ _ Hf).
  - rewrite p_eqb_false by done. unfold set_right. by rewrite (run_change _ _ _ _ _ Hf).
Qed.
Lemma relink_run {B} (F : ptr → Mem B) σ c b q t t' :
  holds_ctx σ c (Some b) → b ∉ addrs_ctx c → aptr t' = q →
  (relinkGrandparent (aptr (plug c t)) q (Some b) (head (spine c)) ≫= F) σ = F (aptr (plug c t')) (relinked σ c q).
Proof.
  intros Hc Hb Hq. destruct c as [|f c]; [by subst q|]. cbn [spine map head relinkGrandparent].
  cbn [addrs_ctx] in Hb. rewrite (relink_head F σ f c b q) by (done || set_solver). f_equal.
  rewrite !aptr_plug. cbn [spine map]. rewrite last_cons. by destruct (last _).
Qed.
Lemma relinked_holds σ c q q' : NoDup (addrs_ctx c) → holds_ctx σ c q → holds_ctx (relinked σ c q') c q'.
Proof.
  destruct c as [|f c]; [done|]. cbn [holds_ctx addrs_ctx relinked]. intros [Hn Hn']%NoDup_cons (H1 & H2 & H3). split_and!.
  - apply list_lookup_insert_eq. by eapply lookup_lt_Some.
  - apply (holds_agree σ); [|done]. intros a Ha. rewrite list_lookup_insert_ne; [done|]. set_solver.
  - apply (holds_ctx_agree σ); [|done]. intros a Ha. rewrite list_lookup_insert_ne; [done|]. set_solver.
Qed.
Lemma relinked_other σ c q a : a ∉ spine c → relinked σ c q !! a = σ !! a.
Proof. destruct c as [|f c]; [done|]. cbn. intros Ha. rewrite list_lookup_insert_ne; [done|]. set_solver. Qed.
Lemma relinked_length σ c q : length (relinked σ c q) = length σ.
Proof. destruct c; [done|]. apply length_insert. Qed.

(** A subtree is replaced: the store [σ1] has the new one, and what is above
    as in [σ]. *)
Lemma relink_ok σ σ1 c b t t1 :
  holds_ctx σ c (Some b) → NoDup (addrs_ctx c) → (∀ x, x ∈ addrs_ctx c → σ1 !! x = σ !! x) →
  (∀ x, x ∈ addrs t1 → x ∉ addrs_ctx c) → holds σ1 t1 → b ∉ addrs_ctx c →
  ∃ σ2, (∀ B (F : ptr → Mem B), (relinkGrandparent (aptr (plug c t)) (aptr t1) (Some b) (head (spine c)) ≫= F) σ1 = F (aptr (plug c t1)) σ2) ∧
    holds σ2 (plug c t1) ∧ length σ2 = length σ1 ∧ (∀ x, x ∉ spine c → σ2 !! x = σ1 !! x).
Proof.
  intros Hc Hn Hag Hap Ht Hb. assert (holds_ctx σ1 c (Some b)) as Hc1 by by apply (holds_ctx_agree σ).
  exists (relinked σ1 c (aptr t1)). split_and!.
  - intros B F. by apply relink_run.
  - apply holds_plug. split; [by apply (relinked_holds _ _ (Some b))|]. apply (holds_agree σ1); [|done].
    intros x Hx. apply relinked_other. intros Hsp%spine_sub. by apply (Hap x).
  - apply relinked_length.
  - intros x Hx. by apply relinked_other.
Qed.

(** ** Rotations *)

Definition is_left f : bool := match f_side f with Left => true | Right => false end.
(** The root of [t] above the node of [f]. *)
Definition rot f t : atree :=
  match t with
  | E => E
  | N a k v p l r =>
      match f_side f with
      | Left => N a k v p l (N (f_addr f) (f_key f) (f_value f) (f_prio f) r (f_other f))
      | Right => N a k v p (N (f_addr f) (f_key f) (f_value f) (f_prio f) (f_other f) l) r
      end
  end.
Definition rotated σ f (n : treapNode) (a : nat) : Store :=
  let down q := frame_node f q in
  let up := if is_left f then mkNode (n_key n) (n_value n) (n_priority n) (n_left n) (Some (f_addr f))
            else mkNode (n_key n) (n_value n) (n_priority n) (Some (f_addr f)) (n_right n) in
  <[f_addr f := down (if is_left f then n_right n else n_left n)]> (<[a := up]> σ).
Lemma rotate_run {B} (F : unit → Mem B) σ f a n q :
  σ !! f_addr f = Some (frame_node f q) → σ !! a = Some n → a ≠ f_addr f →
  ((if is_left f then set_right (Some (f_addr f)) (Some a);; set_left (n_right n) (Some (f_addr f))
    else set_left (Some (f_addr f)) (Some a);; set_right (n_left n) (Some (f_addr f))) ≫= F) σ = F tt (rotated σ f n a).
Proof.
  intros Hf Ha Hne. assert (∀ m, <[a := m]> σ !! f_addr f = Some (frame_node f q)) as Hf' by (intros; by rewrite list_lookup_insert_ne).
  unfold rotated, is_left, frame_node in *. destruct (f_side f); unfold set_right, set_left, mbind at 1, Mem_bind at 1;
    rewrite (run_change _ _ _ _ _ Ha); unfold change; cbn; by rewrite Hf'.
Qed.
Lemma rotated_other σ f n a x : x ≠ a → x ≠ f_addr f → rotated σ f n a !! x = σ !! x.
Proof. intros. unfold rotated. by rewrite !list_lookup_insert_ne. Qed.
Lemma rotated_length σ f n a : length (rotated σ f n a) = length σ.
Proof. unfold rotated. by rewrite !length_insert. Qed.
Lemma rotated_holds σ f a k v p l r q :
  let t := N a k v p l r in
  σ !! f_addr f = Some (frame_node f q) → holds σ (f_other f) → holds σ t → NoDup (f_addr f :: addrs (f_other f) ++ addrs t) →
  holds (rotated σ f (mkNode k v p (aptr l) (aptr r)) a) (rot f t).
Proof.
  intros t Hf Ho (Ha & Hl & Hr) Hn. assert (a ≠ f_addr f) as Hne by (cbn in Hn; apply NoDup_cons in Hn as [Hn _]; set_solver).
  apply NoDup_cons in Hn as [Hn1 Hn2]. apply NoDup_app in Hn2 as (_ & Hn2 & Hn3). cbn [addrs t] in *. apply NoDup_cons in Hn3 as [Hn3 _].
  assert (∀ u, (∀ x, x ∈ addrs u → x ∈ addrs (f_other f) ∨ x ∈ addrs l ++ addrs r) → holds σ u →
    holds (rotated σ f (mkNode k v p (aptr l) (aptr r)) a) u) as Hk.
  { intros u Hu Hh. apply (holds_agree σ); [|done]. intros x Hx. apply rotated_other; intros ->; destruct (Hu _ Hx); set_solver. }
  assert (holds (rotated σ f (mkNode k v p (aptr l) (aptr r)) a) l) as Hl' by (apply Hk; [set_solver|done]).
  assert (holds (rotated σ f (mkNode k v p (aptr l) (aptr r)) a) r) as Hr' by (apply Hk; [set_solver|done]).
  assert (holds (rotated σ f (mkNode k v p (aptr l) (aptr r)) a) (f_other f)) as Ho' by (apply Hk; [set_solver|done]).
  assert (∀ m m', <[f_addr f := m]> (<[a := m']> σ) !! f_addr f = Some m) as E1
    by (intros; apply list_lookup_insert_eq; rewrite length_insert; by eapply lookup_lt_Some).
  assert (∀ m m', <[f_addr f := m]> (<[a := m']> σ) !! a = Some m') as E2
    by (intros; rewrite list_lookup_insert_ne by done; apply list_lookup_insert_eq; by eapply lookup_lt_Some).
  unfold rot, t, rotated, is_left, frame_node in *. cbn [n_left n_right n_key n_value n_priority] in *. destruct (f_side f); cbn [holds aptr]; split_and!; try done; apply E1 || apply E2.
Qed.
Lemma rot_addrs f a k v p l r : addrs (rot f (N a k v p l r)) ≡ₚ f_addr f :: addrs (f_other f) ++ addrs (N a k v p l r).
Proof. unfold rot. destruct (f_side f); cbn [addrs]; solve_Permutation. Qed.
Lemma rot_entries f a k v p l r : entries (rot f (N a k v p l r)) = entries (fill f (N a k v p l r)).
Proof. unfold rot, fill. destruct (f_side f); cbn [entries]; by rewrite <- ?app_assoc. Qed.

Lemma nodup_frame f c t :
  NoDup (addrs_ctx (f :: c) ++ addrs t) →
  NoDup (f_addr f :: addrs (f_other f) ++ addrs t) ∧ NoDup (addrs_ctx c) ∧
  (∀ x, x ∈ f_addr f :: addrs (f_other f) ++ addrs t → x ∉ addrs_ctx c).
Proof.
  assert (addrs_ctx (f :: c) ++ addrs t ≡ₚ (f_addr f :: addrs (f_other f) ++ addrs t) ++ addrs_ctx c) as -> by (cbn [addrs_ctx]; solve_Permutation).
  intros (H1 & H2 & H3)%NoDup_app. done.
Qed.
Lemma nodup_apart f a k v p l r :
  NoDup (f_addr f :: addrs (f_other f) ++ addrs (N a k v p l r)) → a ∉ addrs (f_other f) ∧ a ≠ f_addr f.
Proof. intros [H1 H2]%NoDup_cons. apply NoDup_app in H2 as (H2 & H3 & _). cbn [addrs] in *. set_solver. Qed.
(** A rotation with the pointer from above. *)
Lemma rotate_step σ c f q a k v p l r t0 :
  let t := N a k v p l r in
  holds_ctx σ c (Some (f_addr f)) → σ !! f_addr f = Some (frame_node f q) → holds σ (f_other f) → holds σ t →
  NoDup (addrs_ctx (f :: c) ++ addrs t) →
  ∃ σ2, (∀ B (F : ptr → Mem B),
      ((if is_left f then set_right (Some (f_addr f)) (Some a);; set_left (aptr r) (Some (f_addr f))
        else set_left (Some (f_addr f)) (Some a);; set_right (aptr l) (Some (f_addr f)));;
       root ← relinkGrandparent (aptr (plug c t0)) (Some a) (Some (f_addr f)) (head (spine c)); F root) σ =
      F (aptr (plug c (rot f t))) σ2) ∧
    holds σ2 (plug c (rot f t)) ∧ length σ2 = length σ ∧ (∀ x, x ∉ a :: f_addr f :: spine c → σ2 !! x = σ !! x).
Proof.
  intros t Hc Hf Ho Ht Hn. destruct (nodup_frame _ _ _ Hn) as (Hn1 & Hnc & Hap). destruct (nodup_apart _ _ _ _ _ _ _ Hn1) as [Hao Haf].
  pose proof (rotated_holds σ f a k v p l r _ Hf Ho Ht Hn1) as Hh1. set (σ1 := rotated _ _ _ _) in Hh1.
  assert (a ∉ addrs_ctx c ∧ f_addr f ∉ addrs_ctx c) as [Hac Hfc] by (split; apply Hap; cbn; set_solver).
  destruct (relink_ok σ σ1 c (f_addr f) t0 (rot f t)) as (σ2 & Hrun & Hh2 & Hl2 & Hx2); [done|done| | |done|done|].
  { intros x Hx. apply rotated_other; by intros ->. }
  { intros x Hx. unfold t in Hx. rewrite rot_addrs in Hx. by apply Hap. }
  exists σ2. split_and!; [|done| |].
  - intros B F. rewrite (rotate_run _ _ _ _ _ _ Hf (proj1 Ht) Haf). fold σ1.
    assert (aptr (rot f t) = Some a) as Hpt by (unfold t, rot; by destruct (f_side f)). rewrite Hpt in Hrun. apply Hrun.
  - rewrite Hl2. apply rotated_length.
  - intros x Hx. rewrite Hx2 by set_solver. apply rotated_other; set_solver.
Qed.

(** ** Moving a new node up *)

Definition prio_of t : Z := match t with E => 0 | N _ _ _ p _ _ => p end.
Fixpoint rise c t : atree :=
  match c with
  | [] => t
  | f :: c' => if f_prio f <=? prio_of t then plug c t else rise c' (rot f t)
  end.
Lemma rise_entries c a k v p l r : entries (rise c (N a k v p l r)) = entries (plug c (N a k v p l r)).
Proof.
  revert l r. induction c as [|f c IH]; intros l r; [done|]. cbn [rise]. destruct (_ <=? _); [done|]. cbn [plug]. rewrite entries_plug, <- rot_entries, <- entries_plug.
  unfold rot. destruct (f_side f); apply IH.
Qed.
Lemma rise_addrs c a k v p l r : addrs (rise c (N a k v p l r)) ≡ₚ addrs (plug c (N a k v p l r)).
Proof.
  revert l r. induction c as [|f c IH]; intros l r; [done|]. cbn [rise]. destruct (_ <=? _); [done|].
  assert (addrs (rise c (rot f (N a k v p l r))) ≡ₚ addrs (plug c (rot f (N a k v p l r)))) as -> by (unfold rot; destruct (f_side f); apply IH).
  rewrite !addrs_plug, rot_addrs. cbn [addrs_ctx]. solve_Permutation.
Qed.
Lemma sift_up_ok c σ s a k v p l r :
  let t := N a k v p l r in
  stack_ok s (spine c) → holds σ (plug c t) → NoDup (addrs (plug c t)) →
  ∃ σ', sift_up (S (length c)) (aptr (plug c t)) (Some a) s σ = Some (aptr (rise c t), σ') ∧ holds σ' (rise c t) ∧
    length σ' = length σ ∧ ∀ x, x ∉ a :: spine c → σ' !! x = σ !! x.
Proof.
  cbv zeta. revert σ s l r. induction c as [|f c IH]; intros σ s l r Hs Hh Hn; cbn [sift_up]; rewrite (stack_Len _ _ Hs).
  { exists σ. done. }
  cbn [spine map length] in Hs |- *. destruct (stack_Pop _ _ _ Hs) as (s' & -> & Hs').
  rewrite addrs_plug in Hn. destruct (nodup_frame _ _ _ Hn) as (Hn1 & _ & _). destruct (nodup_apart _ _ _ _ _ _ _ Hn1) as [Hao _].
  pose proof Hh as [(Hf & Ho & Hc) Ht]%holds_plug. pose proof (proj1 Ht) as Ha.
  rewrite (run_load _ _ _ _ Ha), (run_load _ _ _ _ Hf).
  assert (n_priority (frame_node f (aptr (N a k v p l r))) = f_prio f) as -> by (unfold frame_node; by destruct (f_side f)).
  cbn [n_priority rise prio_of]. destruct (f_prio f <=? p) eqn:Ep; [exists σ; done|].
  assert (p_eqb (n_left (frame_node f (aptr (N a k v p l r)))) (Some a) = is_left f) as ->.
  { unfold frame_node, is_left. destruct (f_side f); cbn; [apply p_eqb_true|]. apply p_eqb_false. by intros ?%aptr_in. }
  rewrite (stack_At _ _ 0 Hs') by lia. change (spine c !! Z.to_nat 0) with (spine c !! 0%nat). rewrite <- head_lookup. cbn [plug].
  destruct (rotate_step σ c f _ a k v p l r (fill f (N a k v p l r)) Hc Hf Ho Ht Hn) as (σ2 & Hrun & Hh2 & Hl2 & Hx2).
  cbn [n_left n_right]. rewrite Hrun. assert (∃ l' r', rot f (N a k v p l r) = N a k v p l' r') as (l' & r' & E1) by (unfold rot; destruct (f_side f); eauto).
  pose proof (rot_addrs f a k v p l r) as Hp1. rewrite E1 in *. destruct (IH σ2 s' l' r' Hs' Hh2) as (σ' & -> & Hr & Hl & Hx).
  { rewrite addrs_plug, Hp1. eapply NoDup_Permutation_proper; [|exact Hn]. cbn [addrs_ctx]. solve_Permutation. }
  exists σ'. split_and!; [done|done|lia|]. intros x Hxx. rewrite Hx by set_solver. apply Hx2. cbn in Hxx. set_solver.
Qed.

(** ** Sorted entries *)

Definition klt (a b : list byte) : Prop := bytes_Compare a b = Lt.
Lemma Compare_refl a : bytes_Compare a a = Eq.
Proof. induction a as [|x a IH]; cbn; [done|]. by rewrite Z.compare_refl. Qed.
Lemma Compare_gt a b : bytes_Compare a b = Gt ↔ klt b a.
Proof. unfold klt. rewrite (Compare_antisym a b). by destruct (bytes_Compare a b). Qed.
Lemma klt_irrefl a : ¬ klt a a.
Proof. unfold klt. by rewrite Compare_refl. Qed.
#[export] Instance klt_trans : Transitive klt.
Proof.
  unfold klt. intros a. induction a as [|x a IH]; intros [|y b] [|z c]; cbn; try done.
  destruct (Z.compare_spec x y), (Z.compare_spec y z), (Z.compare_spec x z); try done; try lia. apply IH.
Qed.

Definition entry_lt (x y : entry) : Prop := klt x.1 y.1.
Abbreviation sorted := (StronglySorted entry_lt).
Lemma sorted_keys (l : list entry) : sorted l → NoDup l.*1.
Proof.
  induction 1 as [|x l _ IH Hx]; cbn; constructor; [|done]. intros (y & E & Hy)%list_elem_of_fmap.
  rewrite Forall_forall in Hx. apply Hx in Hy. unfold entry_lt in Hy. rewrite E in Hy. by apply klt_irrefl in Hy.
Qed.

Definition toward (k : list byte) f : Prop :=
  match f_side f with Left => klt k (f_key f) | Right => klt (f_key f) k end.
Lemma way_apart k c t :
  sorted (entries (plug c t)) → Forall (toward k) c → (∀ e, e ∈ before c → klt e.1 k) ∧ (∀ e, e ∈ after c → klt k e.1).
Proof.
  intros Hs Hc. revert t Hs. induction Hc as [|f c Hf Hc IH]; intros t Hs; [cbn; set_solver|]. cbn [plug] in Hs.
  destruct (IH _ Hs) as [Hb Ha]. rewrite entries_plug in Hs. apply StronglySorted_app in Hs as (_ & _ & Hs).
  apply StronglySorted_app_1_l in Hs. unfold fill, toward in *. cbn [before after]. destruct (f_side f); cbn [entries] in Hs.
  - split; intros e; rewrite ?app_nil_r; [apply Hb|]. cbn. rewrite elem_of_cons, elem_of_app.
    intros [->|[He|He]]; [done| |by apply Ha]. apply StronglySorted_app in Hs as (_ & _ & Hs).
    apply StronglySorted_cons in Hs as [Hs _]. rewrite Forall_forall in Hs. transitivity (f_key f); [done|]. by apply (Hs e).
  - split; intros e; [|apply Ha]. rewrite !elem_of_app, list_elem_of_singleton. intros [He|[He| ->]]; [by apply Hb| |done].
    apply StronglySorted_app in Hs as (Hs & _). transitivity (f_key f); [|done]. apply (Hs e (f_key f, f_value f)); [done|set_solver].
Qed.

Abbreviation assoc := (gmap (list byte) (list byte)).
Definition table (l : list entry) : assoc := list_to_map l.
Lemma around_absent (k : list byte) (l l' : list entry) :
  (∀ e, e ∈ l → klt e.1 k) → (∀ e, e ∈ l' → klt k e.1) → k ∉ (l ++ l').*1.
Proof.
  intros Hl Hl' (e & -> & He)%list_elem_of_fmap. apply elem_of_app in He as [He|He]; [apply Hl in He|apply Hl' in He]; by apply klt_irrefl in He.
Qed.
Lemma around_insert k v l l' : 
  sorted (l ++ l') → (∀ e, e ∈ l → klt e.1 k) → (∀ e, e ∈ l' → klt k e.1) →
  sorted (l ++ (k, v) :: l') ∧ table (l ++ (k, v) :: l') = <[k := v]> (table (l ++ l')) ∧ table (l ++ l') !! k = None.
Proof.
  intros Hs Hl Hl'. assert (sorted (l ++ (k, v) :: l')) as Hs1.
  { rewrite StronglySorted_app in Hs |- *. destruct Hs as (H1 & H2 & H3). rewrite StronglySorted_cons, Forall_forall. split_and!; [|done|done|done].
    intros x y Hx. rewrite elem_of_cons. intros [->|Hy]; [by apply Hl|by apply H1]. }
  split_and!; [done| |by apply not_elem_of_list_to_map_1, around_absent].
  unfold table. rewrite (list_to_map_proper (l ++ (k, v) :: l') ((k, v) :: l ++ l')); [done|by apply sorted_keys|].
  by rewrite <- Permutation_middle.
Qed.
Lemma around_remove k v l l' :
  sorted (l ++ (k, v) :: l') → sorted (l ++ l') ∧ table (l ++ l') = delete k (table (l ++ (k, v) :: l')) ∧ table (l ++ (k, v) :: l') !! k = Some v.
Proof.
  intros Hs. pose proof (sorted_keys _ Hs) as Hn.
  assert (∀ e, e ∈ l → klt e.1 k) as Hl by (intros e He; apply (StronglySorted_app_1_elem_of _ _ _ e (k, v) Hs He); set_solver).
  assert (∀ e, e ∈ l' → klt k e.1) as Hl'.
  { intros e He. apply StronglySorted_app in Hs as (_ & _ & [Hs _]%StronglySorted_cons). rewrite Forall_forall in Hs. by apply (Hs e). }
  assert (sorted (l ++ l')) as Hs'.
  { rewrite StronglySorted_app in Hs |- *. destruct Hs as (H1 & H2 & [_ H3]%StronglySorted_cons). split_and!; [|done|done]. set_solver. }
  destruct (around_insert k v l l' Hs' Hl Hl') as (_ & -> & Hnone). split_and!; [done| |apply lookup_insert_eq].
  by rewrite delete_insert_id.
Qed.

(** ** The way to a key *)

Fixpoint find (k : list byte) t c : list frame * atree :=
  match t with
  | E => (c, E)
  | N a k' v p l r =>
      match bytes_Compare k k' with
      | Lt => find k l (mkFrame Left a k' v p r :: c)
      | Gt => find k r (mkFrame Right a k' v p l :: c)
      | Eq => (c, t)
      end
  end.
Lemma find_plug k t c : plug (find k t c).1 (find k t c).2 = plug c t.
Proof.
  revert c. induction t as [|a k' v p l IHl r IHr]; intros c; cbn [find]; [done|]. destruct (bytes_Compare k k'); [done| |].
  - by rewrite IHl.
  - by rewrite IHr.
Qed.
Lemma find_toward k t c : Forall (toward k) c → Forall (toward k) (find k t c).1.
Proof.
  revert c. induction t as [|a k' v p l IHl r IHr]; intros c Hc; cbn [find]; [done|]. destruct (bytes_Compare k k') eqn:Ec; [done| |].
  - apply IHl. by constructor.
  - apply IHr. constructor; [by apply Compare_gt|done].
Qed.
Lemma find_key k t c a k' v p l r : (find k t c).2 = N a k' v p l r → k' = k.
Proof.
  revert c. induction t as [|b kb vb pb lb IHl rb IHr]; intros c; cbn [find]; [done|]. destruct (bytes_Compare k kb) eqn:Ec; [|apply IHl|apply IHr].
  cbn. intros [= <- <- <- <- <- <-]. by apply Compare_eq in Ec.
Qed.
Lemma get_loop_ok k σ t c fuel :
  holds σ t → (length (addrs t) < fuel)%nat →
  get_loop fuel k (aptr t) (head (spine c)) σ =
  Some (match find k t c with (c', N a _ _ _ _ _) => (Some a, head (spine c')) | _ => (None, None) end, σ).
Proof.
  revert c fuel. induction t as [|a k' v p l IHl r IHr]; intros c [|fuel] Hh Hf; try (cbn in Hf; lia); cbn [get_loop aptr find]; [done|].
  destruct Hh as (Ha & Hl & Hr). cbn [addrs length] in Hf. rewrite length_app in Hf. rewrite (run_load _ _ _ _ Ha). cbn [n_key n_left n_right].
  destruct (bytes_Compare k k'); [done| |].
  - apply (IHl (mkFrame Left a k' v p r :: c)); [done|lia].
  - apply (IHr (mkFrame Right a k' v p l :: c)); [done|lia].
Qed.
Definition last_cmp c : comparison := match c with [] => Eq | f :: _ => if is_left f then Lt else Gt end.
Lemma put_walk_ok k σ t c s fuel :
  holds σ t → (length (addrs t) < fuel)%nat → stack_ok s (spine c) →
  ∃ s', stack_ok s' (spine (find k t c).1) ∧ put_walk fuel k (aptr t) s (last_cmp c) σ =
    Some (match find k t c with (_, N a _ _ _ _ _) => inr (Some a) | (c', E) => inl (s', last_cmp c') end, σ).
Proof.
  revert c s fuel. induction t as [|a k' v p l IHl r IHr]; intros c s [|fuel] Hh Hf Hs; try (cbn in Hf; lia); cbn [put_walk aptr find]; [by exists s|].
  destruct Hh as (Ha & Hl & Hr). cbn [addrs length] in Hf. rewrite length_app in Hf. rewrite (run_load _ _ _ _ Ha). cbn [n_key n_left n_right].
  destruct (bytes_Compare k k'); [by exists s| |].
  - apply (IHl (mkFrame Left a k' v p r :: c)); [done|lia|by apply stack_Push].
  - apply (IHr (mkFrame Right a k' v p l :: c)); [done|lia|by apply stack_Push].
Qed.
Lemma del_walk_ok k σ t c s fuel :
  holds σ t → (length (addrs t) < fuel)%nat → stack_ok s (spine c) →
  ∃ s', del_walk fuel k (aptr t) s σ = Some ((aptr (find k t c).2, s'), σ) ∧
    stack_ok s' (match (find k t c).2 with N a _ _ _ _ _ => a :: spine (find k t c).1 | E => spine (find k t c).1 end).
Proof.
  revert c s fuel. induction t as [|a k' v p l IHl r IHr]; intros c s [|fuel] Hh Hf Hs; try (cbn in Hf; lia); cbn [del_walk aptr find]; [by exists s|].
  destruct Hh as (Ha & Hl & Hr). cbn [addrs length] in Hf. rewrite length_app in Hf. rewrite (run_load _ _ _ _ Ha). cbn [n_key n_left n_right].
  destruct (bytes_Compare k k').
  - eexists. split; [done|]. by apply stack_Push.
  - apply (IHl (mkFrame Left a k' v p r :: c)); [done|lia|by apply stack_Push].
  - apply (IHr (mkFrame Right a k' v p l :: c)); [done|lia|by apply stack_Push].
Qed.

(** ** Moving a node down *)

Lemma leaf_or_not (l r : atree) : (l = E ∧ r = E) ∨ (l ≠ E ∨ r ≠ E).
Proof. destruct l; [destruct r; [by left|by right; right]|by right; left]. Qed.
Lemma pick_child_ok σ a k v p l r :
  holds σ (N a k v p l r) → l ≠ E ∨ r ≠ E →
  ∃ f b kb vb pb lb rb, let t := N b kb vb pb lb rb in
    pick_child (mkNode k v p (aptr l) (aptr r)) σ = Some ((Some b, is_left f), σ) ∧ fill f t = N a k v p l r ∧
    f_addr f = a ∧ f_key f = k ∧ f_value f = v ∧ f_prio f = p.
Proof.
  intros (_ & Hl & Hr) Hne. unfold pick_child. cbn [n_left n_right].
  destruct l as [|al kl vl pl ll rl], r as [|ar kr vr pr lr rr]; [naive_solver|..]; cbn [aptr].
  - exists (mkFrame Right a k v p E). do 6 eexists. done.
  - exists (mkFrame Left a k v p E). do 6 eexists. done.
  - rewrite (run_load _ _ _ _ (proj1 Hl)), (run_load _ _ _ _ (proj1 Hr)). cbn [n_priority]. destruct (pr <=? pl).
    + exists (mkFrame Left a k v p (N ar kr vr pr lr rr)). do 6 eexists. done.
    + exists (mkFrame Right a k v p (N al kl vl pl ll rl)). do 6 eexists. done.
Qed.
(** The node of the frame under the root of the subtree. *)
Lemma rot_under f b kb vb pb lb rb :
  ∃ g l r, rot f (N b kb vb pb lb rb) = fill g (N (f_addr f) (f_key f) (f_value f) (f_prio f) l r) ∧ f_addr g = b ∧
    (length (addrs l) + length (addrs r) ≤ length (addrs (f_other f)) + length (addrs lb) + length (addrs rb))%nat ∧
    before [g] ++ (entries l ++ entries r) ++ after [g] =
      match fill f (N b kb vb pb lb rb) with N _ _ _ _ l r => entries l ++ entries r | E => [] end.
Proof.
  unfold rot, fill. destruct (f_side f).
  - exists (mkFrame Right b kb vb pb lb), rb, (f_other f). cbn. split_and!; [done|done|lia|]. by rewrite <- !app_assoc, app_nil_r.
  - exists (mkFrame Left b kb vb pb rb), (f_other f), lb. cbn. split_and!; [done|done|lia|]. by rewrite <- !app_assoc, app_nil_r.
Qed.
Lemma fill_addrs f t : addrs (fill f t) ≡ₚ f_addr f :: addrs (f_other f) ++ addrs t.
Proof. unfold fill. destruct (f_side f); cbn [addrs]; solve_Permutation. Qed.
Lemma fill_node σ f t : holds σ (fill f t) → σ !! f_addr f = Some (frame_node f (aptr t)) ∧ holds σ (f_other f) ∧ holds σ t.
Proof. unfold fill, frame_node. destruct (f_side f); cbn; naive_solver. Qed.

(** What is left when the node has been moved to a leaf and cut off. *)
Definition cut c (l r : atree) c' : Prop :=
  before c' ++ after c' = before c ++ entries l ++ entries r ++ after c ∧ (c' = [] → c = [] ∧ l = E ∧ r = E).
Lemma cut_step c f b kb vb pb lb rb g l r l' r' c' :
  match fill f (N b kb vb pb lb rb) with N _ _ _ _ l r => entries l ++ entries r | E => [] end = entries l ++ entries r →
  before [g] ++ (entries l' ++ entries r') ++ after [g] =
    match fill f (N b kb vb pb lb rb) with N _ _ _ _ l r => entries l ++ entries r | E => [] end →
  cut (g :: c) l' r' c' → cut c l r c'.
Proof.
  intros -> He [Hb Hn]. split; [|by intros []%Hn]. rewrite Hb. cbn [before after] in *. cbn in He. rewrite app_nil_r in He.
  rewrite (app_assoc (entries l)), <- He, <- !app_assoc. done.
Qed.
Lemma sift_down_ok fuel c σ a k v p l r :
  let t := N a k v p l r in
  (length (addrs l) + length (addrs r) < fuel)%nat → holds σ (plug c t) → NoDup (addrs (plug c t)) →
  ∃ c' σ', let t' := N a k v p E E in
    sift_down fuel (aptr (plug c t)) (Some a) (head (spine c)) σ = Some ((aptr (plug c' t'), head (spine c')), σ') ∧
    holds σ' (plug c' t') ∧ addrs (plug c' t') ≡ₚ addrs (plug c t) ∧ cut c l r c'.
Proof.
  cbv zeta. revert c σ l r. induction fuel as [|fuel IH]; intros c σ l r Hf Hh Hn; [lia|]. cbn [sift_down].
  pose proof Hh as [Hc Ht]%holds_plug. rewrite (run_load _ _ _ _ (proj1 Ht)). cbn [n_left n_right].
  destruct (leaf_or_not l r) as [[-> ->]|Hne'].
  { exists c, σ. split_and!; [done|done|done|]. split; [done|done]. }
  destruct (pick_child_ok σ a k v p l r Ht Hne') as (f & b & kb & vb & pb & lb & rb & Hpick & Hfill & <- & <- & <- & <-).
  rewrite <- Hfill in Ht, Hh, Hn |- *. destruct (fill_node _ _ _ Ht) as (Hfa & Ho & Hb). cbn [plug] in *.
  assert (NoDup (addrs_ctx (f :: c) ++ addrs (N b kb vb pb lb rb))) as Hn1.
  { rewrite addrs_plug, fill_addrs in Hn. eapply NoDup_Permutation_proper; [|exact Hn]. cbn [addrs_ctx]. solve_Permutation. }
  assert (holds_ctx σ c (Some (f_addr f))) as Hc1 by done.
  destruct (rotate_step σ c f _ b kb vb pb lb rb (fill f (N b kb vb pb lb rb)) Hc1 Hfa Ho Hb Hn1) as (σ2 & Hrun & Hh2 & _ & _).
  assert (∀ X Y : Mem (ptr * ptr), match aptr l, aptr r with None, None => X | _, _ => Y end = Y) as -> by (intros; by destruct l, r, Hne').
  rewrite (run_bind _ _ _ _ _ Hpick), (run_load _ _ _ _ (proj1 Hb)). cbn [n_left n_right]. rewrite Hrun.
  destruct (rot_under f b kb vb pb lb rb) as (g & l' & r' & Er & Hg & Hsz & He).
  assert (addrs (fill f (N b kb vb pb lb rb)) ≡ₚ addrs (rot f (N b kb vb pb lb rb))) as Hpe by (rewrite fill_addrs, rot_addrs; done).
  rewrite Er in *. assert (head (spine (g :: c)) = Some b) as Hhd by (cbn; by f_equal). rewrite <- Hhd.
  destruct (IH (g :: c) σ2 l' r') as (c' & σ' & Hrun' & Hh' & Hp' & Hcut); [|done| |].
  { assert (length (addrs (N (f_addr f) (f_key f) (f_value f) (f_prio f) l r)) = length (addrs (fill f (N b kb vb pb lb rb)))) as El by by rewrite Hfill.
    rewrite fill_addrs in El. cbn [addrs length] in El. rewrite !length_app in El. cbn [length] in El. rewrite length_app in El. lia. }
  { cbn [plug]. rewrite addrs_plug, <- Hpe, <- addrs_plug. done. }
  exists c', σ'. cbn [plug] in Hrun', Hp'. split_and!; [done|done| |eapply cut_step; [|exact He|exact Hcut]; by rewrite Hfill].
  rewrite Hp', !addrs_plug, <- Hpe. done.
Qed.
Lemma unlink_ok {B} (F : unit → Mem B) c a k v p σ :
  c ≠ [] → holds σ (plug c (N a k v p E E)) → NoDup (addrs (plug c (N a k v p E E))) →
  ∃ σ', (unlink (Some a) (head (spine c)) ≫= F) σ = F tt σ' ∧ holds σ' (plug c E) ∧ length σ' = length σ ∧ ∀ x, x ∉ spine c → σ' !! x = σ !! x.
Proof.
  destruct c as [|f c]; [done|]. intros _ [Hc Ht]%holds_plug Hn. rewrite addrs_plug in Hn. pose proof (nodup_frame _ _ _ Hn) as (Hn1 & _ & _).
  destruct (nodup_apart _ _ _ _ _ _ _ Hn1) as [Hao _]. apply NoDup_app in Hn as (Hn & _ & _).
  exists (relinked σ (f :: c) None). split_and!.
  - unfold unlink. cbn [spine map head]. pose proof (proj1 Hc) as Hf. unfold mbind at 1, Mem_bind at 1. rewrite (run_load _ _ _ _ Hf). cbn [relinked].
    assert (aptr (f_other f) ≠ Some a) as Hne by (by intros ?%aptr_in). unfold frame_node in *.
    destruct (f_side f); cbn [n_right aptr] in *; [rewrite p_eqb_false by done|rewrite p_eqb_true];
      unfold set_left, set_right, change; cbn; by rewrite Hf.
  - apply holds_plug. split; [|done]. by apply (relinked_holds _ _ _ None Hn Hc).
  - apply relinked_length.
  - intros x Hx. by apply relinked_other.
Qed.

(** ** The order of the priorities *)

Definition low (b : Z) t : Prop := match t with E => True | N _ _ _ p _ _ => b <= p end.
Fixpoint heap t : Prop := match t with E => True | N _ _ _ p l r => low p l ∧ low p r ∧ heap l ∧ heap r end.
Definition low_head c t : Prop := match c with [] => True | f :: _ => low (f_prio f) t end.
Lemma heap_plug c t : heap (plug c t) ↔ heap (plug c E) ∧ heap t ∧ low_head c t.
Proof.
  revert t. induction c as [|f c IH]; intros t; [cbn; naive_solver|]. cbn [plug]. rewrite (IH (fill f t)), (IH (fill f E)).
  assert (low_head c (fill f t) ↔ low_head c (fill f E)) as -> by (unfold fill; destruct c; [done|]; by destruct (f_side f)).
  unfold fill, low_head. destruct (f_side f); cbn; naive_solver.
Qed.
Lemma low_trans b b' t : b <= b' → low b' t → low b t.
Proof. destruct t; cbn; [done|lia]. Qed.
Lemma rise_heap c a k v p l r :
  heap (plug c E) → heap (N a k v p l r) → low_head c l → low_head c r → heap (rise c (N a k v p l r)).
Proof.
  revert l r. induction c as [|f c IH]; intros l r Hc Ht Hl Hr; [done|]. cbn [rise prio_of]. destruct (f_prio f <=? p) eqn:Ep.
  { apply Z.leb_le in Ep. by apply heap_plug. }
  apply Z.leb_gt in Ep. cbn [plug] in Hc. apply heap_plug in Hc as (Hc & Hf & Hlow). destruct Ht as (H1 & H2 & H3 & H4).
  assert (∀ u, low_head c u ∨ low (f_prio f) u → low_head c u) as Hup.
  { intros u [?|Hu]; [done|]. destruct c as [|g c]; [done|]. cbn. apply (low_trans _ (f_prio f)); [|done]. unfold fill in Hlow. by destruct (f_side f). }
  cbn [low_head] in Hl, Hr. unfold rot, fill in *. destruct (f_side f); destruct Hf as (F1 & F2 & F3 & F4).
  - apply IH; [done|cbn [heap low]; split_and!; try done; lia|apply Hup; by right|by destruct c].
  - apply IH; [done|cbn [heap low]; split_and!; try done; lia|by destruct c|apply Hup; by right].
Qed.

(** ** Treaps that stand for maps *)

Definition entry_size (e : entry) : Z := nodeFieldsSize + (zlen e.1 + zlen e.2).
Record treap_ok σ (t : treap) (T : atree) : Prop := mkTreapOk {
  to_root : t_root t = aptr T;
  to_holds : holds σ T;
  to_nodup : NoDup (addrs T);
  to_sorted : sorted (entries T);
  to_count : t_count t = zlen (entries T);
  to_size : t_totalSize t = uint64 (total entry_size (entries T)) }.

Lemma empty_ok σ : treap_ok σ NewMutable E.
Proof. split; try done; constructor. Qed.
Lemma to_fuel σ (t : treap) T : treap_ok σ t T → (length (addrs T) < S (length σ))%nat.
Proof. intros Hok. pose proof (holds_size σ T (to_holds _ _ _ Hok) (to_nodup _ _ _ Hok)). lia. Qed.
Lemma treap_size l l' e : total entry_size (l ++ e :: l') = total entry_size (l ++ l') + entry_size e.
Proof. induction l as [|x l IH]; cbn [app total]; [lia|]. rewrite IH. lia. Qed.

(** The key is in the tree, or it is not and this is where it belongs. *)
Lemma find_cases k T :
  sorted (entries T) →
  (∃ c, find k T [] = (c, E) ∧ plug c E = T ∧ table (entries T) !! k = None ∧
     (∀ e, e ∈ before c → klt e.1 k) ∧ (∀ e, e ∈ after c → klt k e.1)) ∨
  (∃ c a v p l r, find k T [] = (c, N a k v p l r) ∧ plug c (N a k v p l r) = T ∧ table (entries T) !! k = Some v).
Proof.
  intros Hs. pose proof (find_plug k T []) as Hp. pose proof (find_toward k T [] (Forall_nil_2 _)) as Hw.
  pose proof (find_key k T []) as Hk. destruct (find k T []) as [c t]. cbn in *. destruct t as [|a k' v p l r].
  - left. exists c. rewrite <- Hp in Hs. destruct (way_apart k c E Hs Hw) as [Hb Ha]. split_and!; try done.
    rewrite <- Hp, entries_plug. by apply not_elem_of_list_to_map_1, around_absent.
  - right. rewrite (Hk a k' v p l r) in * by done. exists c, a, v, p, l, r. split_and!; [done|done|].
    rewrite <- Hp in Hs |- *. rewrite entries_plug in Hs |- *. cbn [entries] in *. rewrite <- app_assoc, app_assoc in Hs |- *. cbn [app] in *.
    by apply around_remove in Hs as (_ & _ & ?).
Qed.
Lemma get_ok σ (t : treap) T k :
  treap_ok σ t T → get t k σ = Some (match find k T [] with (c, N a _ _ _ _ _) => (Some a, head (spine c)) | _ => (None, None) end, σ).
Proof.
  intros Hok. unfold get. rewrite run_depth, (to_root _ _ _ Hok).
  apply (get_loop_ok k σ T [] (S (length σ)) (to_holds _ _ _ Hok) (to_fuel _ _ _ Hok)).
Qed.
Lemma Get_ok σ (t : treap) T k : treap_ok σ t T → Get t k σ = Some (table (entries T) !! k, σ) ∧ Has t k σ = Some (bool_decide (is_Some (table (entries T) !! k)), σ).
Proof.
  intros Hok. unfold Get, Has. rewrite !(run_bind _ _ _ _ _ (get_ok σ t T k Hok)).
  destruct (find_cases k T (to_sorted _ _ _ Hok)) as [(c & -> & _ & -> & _)|(c & a & v & p & l & r & -> & Hp & ->)]; [done|].
  pose proof (to_holds _ _ _ Hok) as Hh. rewrite <- Hp in Hh. apply holds_plug in Hh as [_ (Ha & _)].
  by rewrite (run_load _ _ _ _ Ha).
Qed.

Lemma set_value_ok σ c a k v v' p l r :
  holds σ (plug c (N a k v p l r)) → NoDup (addrs (plug c (N a k v p l r))) →
  holds (<[a := mkNode k v' p (aptr l) (aptr r)]> σ) (plug c (N a k v' p l r)).
Proof.
  intros [Hc (Ha & Hl & Hr)]%holds_plug Hn. rewrite addrs_plug in Hn. apply NoDup_app in Hn as (_ & Hd & Hn). cbn [addrs] in *. apply NoDup_cons in Hn as [Hn _].
  apply holds_plug. cbn [aptr holds]. assert (∀ x, x ≠ a → <[a := mkNode k v' p (aptr l) (aptr r)]> σ !! x = σ !! x) as Hx by (intros; by rewrite list_lookup_insert_ne).
  split_and!.
  - apply (holds_ctx_agree σ); [|done]. intros x Hx'. apply Hx. intros ->. set_solver.
  - apply list_lookup_insert_eq. by eapply lookup_lt_Some.
  - apply (holds_agree σ); [|done]. intros x Hx'. apply Hx. set_solver.
  - apply (holds_agree σ); [|done]. intros x Hx'. apply Hx. set_solver.
Qed.
(** A new leaf at the end of the way. *)
Lemma attach_ok c σ k v p :
  c ≠ [] → holds σ (plug c E) → NoDup (addrs (plug c E)) →
  let b := length σ in
  ∃ σ', (∀ B (F : unit → Mem B), ((match last_cmp c with Lt => set_left (Some b) (head (spine c)) | _ => set_right (Some b) (head (spine c)) end) ≫= F)
           (σ ++ [newTreapNode k v p]) = F tt σ') ∧
    holds σ' (plug c (N b k v p E E)) ∧ NoDup (addrs (plug c (N b k v p E E))) ∧ length σ' = S (length σ) ∧
    ∀ x, x ∉ b :: spine c → σ' !! x = (σ ++ [newTreapNode k v p]) !! x.
Proof.
  intros Hne Hh Hn b. set (σ1 := σ ++ [newTreapNode k v p]). destruct c as [|f c]; [done|].
  assert (∀ x, x ∈ addrs_ctx (f :: c) → (x < length σ)%nat) as Hlt.
  { intros x Hx. apply (holds_bound σ (plug (f :: c) E)); [done|]. rewrite addrs_plug. set_solver. }
  apply holds_plug in Hh as [Hc _]. rewrite addrs_plug in Hn. cbn [addrs] in Hn. rewrite app_nil_r in Hn.
  assert (holds_ctx σ1 (f :: c) None) as Hc1.
  { apply (holds_ctx_agree σ); [|done]. intros x Hx. unfold σ1. rewrite lookup_app_l; [done|]. by apply Hlt. }
  assert (σ1 !! b = Some (newTreapNode k v p)) as Hb by (unfold σ1, b; by rewrite lookup_app_r, Nat.sub_diag by lia).
  assert (b ∉ addrs_ctx (f :: c)) as Hbc by (intros ?%Hlt; unfold b in *; lia).
  exists (relinked σ1 (f :: c) (Some b)). split_and!.
  - intros B F. cbn [last_cmp spine map head]. pose proof (proj1 Hc1) as Hf. cbn [relinked]. unfold is_left, frame_node in *.
    destruct (f_side f); unfold set_left, set_right; by rewrite (run_change _ _ _ _ _ Hf).
  - apply holds_plug. split; [by apply (relinked_holds _ _ None)|]. split; [|done].
    rewrite relinked_other by (intros ?%spine_sub; done). done.
  - rewrite addrs_plug. cbn [addrs app]. apply NoDup_app. split_and!; [done| |by apply NoDup_singleton]. set_solver.
  - rewrite relinked_length. unfold σ1. rewrite length_app. cbn. lia.
  - intros x Hx. apply relinked_other. set_solver.
Qed.

(** The entries with the key added, with its value replaced, and without the
    key. *)
Lemma added_ok σ σ' (t : treap) T T' c b k v p n :
  treap_ok σ t T → plug c E = T → (∀ e, e ∈ before c → klt e.1 k) → (∀ e, e ∈ after c → klt k e.1) →
  holds σ' T' → NoDup (addrs T') → entries T' = entries (plug c (N b k v p E E)) → n = newTreapNode k v p →
  treap_ok σ' (mkTreap (aptr T') (t_count t + 1) (uint64 (t_totalSize t + nodeSize n))) T' ∧
  table (entries T') = <[k := v]> (table (entries T)).
Proof.
  intros [_ _ _ Hs Hcnt Hsz] <- Hb Ha Hh Hn He ->. rewrite entries_plug in He, Hs. cbn [entries app] in He, Hs. rewrite <- entries_plug with (t := E) in *.
  assert (entries (plug c E) = before c ++ after c) as Ep by apply entries_plug. rewrite Ep in *.
  destruct (around_insert k v _ _ Hs Hb Ha) as (H1 & H2 & _). rewrite He. split; [|done].
  split; cbn [t_root t_count t_totalSize]; rewrite ?He; try done.
  - rewrite Hcnt, !length_app. cbn [length]. lia.
  - rewrite Hsz, treap_size. unfold nodeSize, wrap_u. by rewrite Zplus_mod_idemp_l, Zplus_mod_idemp_r.
Qed.
Lemma replaced_ok σ σ' (t : treap) T root c a k v v' p l r b :
  treap_ok σ t T → plug c (N a k v p l r) = T → holds σ' (plug b (N root k v' p l r)) → NoDup (addrs (plug b (N root k v' p l r))) →
  before b = before c → after b = after c →
  let T' := plug b (N root k v' p l r) in
  treap_ok σ' (mkTreap (aptr T') (t_count t) (uint64 (uint64 (t_totalSize t - zlen v) + zlen v'))) T' ∧
  table (entries T') = <[k := v']> (table (entries T)).
Proof.
  intros [_ _ _ Hs Hcnt Hsz] <- Hh Hn Hb Ha T'.
  assert (entries T' = (before c ++ entries l) ++ (k, v') :: entries r ++ after c) as He
    by (unfold T'; rewrite entries_plug, Hb, Ha; cbn [entries]; by rewrite <- !app_assoc).
  assert (entries (plug c (N a k v p l r)) = (before c ++ entries l) ++ (k, v) :: entries r ++ after c) as Ep
    by (rewrite entries_plug; cbn [entries]; by rewrite <- !app_assoc).
  rewrite Ep in *. destruct (around_remove _ _ _ _ Hs) as (Hs0 & Hd & _).
  assert (sorted (entries T') ∧ table (entries T') = <[k := v']> (table ((before c ++ entries l) ++ entries r ++ after c))) as [Hs1 Ht1].
  { rewrite He. destruct (around_insert k v' (before c ++ entries l) (entries r ++ after c)) as (? & ? & _); [done|..|done].
    - intros e Hin. apply (StronglySorted_app_1_elem_of _ _ _ e (k, v) Hs Hin). set_solver.
    - intros e Hin. apply StronglySorted_app in Hs as (_ & _ & [Hs _]%StronglySorted_cons). rewrite Forall_forall in Hs. by apply (Hs e). }
  split; [split; cbn [t_root t_count t_totalSize]; try done|].
  - rewrite Hcnt, He, !length_app. done.
  - rewrite Hsz, He, !treap_size. unfold entry_size. cbn [fst snd]. unfold wrap_u. rewrite Zminus_mod_idemp_l, Zplus_mod_idemp_l. f_equal. lia.
  - rewrite Ht1, Hd. by rewrite insert_delete_eq.
Qed.
Lemma removed_ok σ σ' (t : treap) T T' c a k v p l r :
  treap_ok σ t T → plug c (N a k v p l r) = T → holds σ' T' → NoDup (addrs T') →
  entries T' = before c ++ entries l ++ entries r ++ after c →
  treap_ok σ' (mkTreap (aptr T') (t_count t - 1) (uint64 (t_totalSize t - nodeSize (newTreapNode k v p)))) T' ∧
  table (entries T') = delete k (table (entries T)).
Proof.
  intros [_ _ _ Hs Hcnt Hsz] <- Hh Hn He.
  assert (entries (plug c (N a k v p l r)) = (before c ++ entries l) ++ (k, v) :: entries r ++ after c) as Ep
    by (rewrite entries_plug; cbn [entries]; by rewrite <- !app_assoc).
  rewrite app_assoc in He. rewrite Ep in *. destruct (around_remove _ _ _ _ Hs) as (Hs0 & Hd & _). rewrite He. split; [|done].
  split; cbn [t_root t_count t_totalSize]; rewrite ?He; try done.
  - rewrite Hcnt, !length_app. cbn [length]. rewrite length_app. lia.
  - rewrite Hsz, treap_size. unfold nodeSize, wrap_u. rewrite Zminus_mod_idemp_l, Zminus_mod_idemp_r. f_equal. unfold entry_size. cbn. lia.
Qed.

(** ** Mutable treaps *)

Lemma first_ok σ k v p :
  treap_ok (σ ++ [newTreapNode k v p]) (mkTreap (Some (length σ)) 1 (nodeSize (newTreapNode k v p))) (N (length σ) k v p E E).
Proof.
  split; try done; cbn [holds addrs entries aptr app total]; [|apply NoDup_singleton|repeat constructor|].
  - split_and!; [by rewrite lookup_app_r, Nat.sub_diag by lia|done|done].
  - cbn. by rewrite Z.add_0_r.
Qed.
Lemma Mutable_Put_ok σ (t : treap) T k v p :
  treap_ok σ t T →
  ∃ (t' : treap) σ' T', Mutable_Put t k v p σ = Some (t', σ') ∧ treap_ok σ' t' T' ∧
    table (entries T') = <[k := v]> (table (entries T)) ∧ (heap T → heap T').
Proof.
  intros Hok. pose proof (to_root _ _ _ Hok) as Hr. unfold Mutable_Put. destruct (aptr T) as [a0|] eqn:ET; rewrite Hr.
  2: { destruct T; [|done]. do 3 eexists. split_and!; [done|apply first_ok|done|done]. }
  rewrite run_depth, <- ET. destruct (put_walk_ok k σ T [] no_parents _ (to_holds _ _ _ Hok) (to_fuel _ _ _ Hok) stack_none) as (s & Hs & Hw).
  rewrite (run_bind _ _ _ _ _ Hw). pose proof (to_nodup _ _ _ Hok) as Hn. pose proof (to_holds _ _ _ Hok) as Hh.
  destruct (find_cases k T (to_sorted _ _ _ Hok)) as [(c & Hf & Hp & _ & Hb & Ha)|(c & a & v0 & p0 & l & r & Hf & Hp & _)]; rewrite Hf in *; cbn [fst] in Hs; cbv match beta.
  - rewrite run_alloc. assert (c ≠ []) as Hc by (intros ->; by subst T). rewrite <- Hp in Hn, Hh.
    destruct (attach_ok c σ k v p Hc Hh Hn) as (σ1 & Hrun & Hh1 & Hn1 & _).
    rewrite (stack_At _ _ 0 Hs) by lia. change (spine c !! Z.to_nat 0) with (spine c !! 0%nat). rewrite <- head_lookup, Hrun, (stack_Len _ _ Hs).
    assert (length (spine c) = length c) as -> by apply length_map.
    destruct (sift_up_ok c σ1 s (length σ) k v p E E Hs Hh1 Hn1) as (σ2 & Hup & Hh2 & _).
    assert (aptr T = aptr (plug c (N (length σ) k v p E E))) as ->.
    { rewrite <- Hp, !aptr_plug. destruct c as [|f c]; [done|]. cbn [spine map]. rewrite last_cons. by destruct (last _). }
    rewrite (run_bind _ _ _ _ _ Hup).
    destruct (added_ok σ σ2 t T (rise c (N (length σ) k v p E E)) c (length σ) k v p (newTreapNode k v p) Hok Hp Hb Ha Hh2) as [H1 H2];
      [by rewrite rise_addrs|apply rise_entries|done|].
    do 3 eexists. split_and!; [done|exact H1|done|]. intros HT. apply rise_heap; [by rewrite Hp|done|by destruct c|by destruct c].
  - rewrite <- Hp in Hn, Hh. pose proof Hh as [_ (Hla & _)]%holds_plug. rewrite (run_load _ _ _ _ Hla). unfold set_value. rewrite (run_change _ _ _ _ _ Hla).
    cbn [n_key n_value n_priority n_left n_right].
    destruct (replaced_ok σ (<[a := mkNode k v p0 (aptr l) (aptr r)]> σ) t T a c a k v0 v p0 l r c Hok Hp) as [H1 H2];
      [by apply (set_value_ok σ c a k v0)| |done|done|].
    { rewrite addrs_plug in Hn |- *. done. }
    do 3 eexists. split_and!; [|exact H1|done|].
    + do 3 f_equal. rewrite <- Hp, !aptr_plug. done.
    + intros HT. rewrite <- Hp in HT. apply heap_plug in HT. apply heap_plug. done.
Qed.
Lemma Mutable_Delete_ok σ (t : treap) T k :
  treap_ok σ t T →
  ∃ (t' : treap) σ' T', Mutable_Delete t k σ = Some (t', σ') ∧ treap_ok σ' t' T' ∧ table (entries T') = delete k (table (entries T)).
Proof.
  intros Hok. unfold Mutable_Delete. rewrite (run_bind _ _ _ _ _ (get_ok σ t T k Hok)).
  pose proof (to_nodup _ _ _ Hok) as Hn. pose proof (to_holds _ _ _ Hok) as Hh.
  destruct (find_cases k T (to_sorted _ _ _ Hok)) as [(c & -> & Hp & Hk & _)|(c & a & v & p & l & r & -> & Hp & Hk)].
  { exists t, σ, T. split_and!; [done|done|]. by rewrite delete_id. }
  rewrite <- Hp in Hn, Hh. pose proof Hh as [_ Ht]%holds_plug. rewrite (run_load _ _ _ _ (proj1 Ht)).
  destruct (p_eqb (head (spine c)) None && is_leaf _) eqn:Eleaf.
  { apply andb_true_iff in Eleaf as [Hc Hlf]. unfold is_leaf in Hlf. apply andb_true_iff in Hlf as [Hl Hr]. unfold p_eqb in *. apply bool_decide_eq_true in Hc, Hl, Hr.
    destruct c; [|done]. destruct l, r; try done. exists NewMutable, σ, E. split_and!; [done|apply empty_ok|]. rewrite <- Hp. cbn. unfold table. cbn. by rewrite delete_insert_eq. }
  rewrite run_depth, (to_root _ _ _ Hok), <- Hp.
  destruct (sift_down_ok (S (length σ)) c σ a k v p l r) as (c' & σ1 & Hd & Hh1 & Hp1 & He & Hne); [|done|done|].
  { pose proof (holds_size σ _ Hh Hn) as Hsz. rewrite addrs_plug, length_app in Hsz. cbn [addrs length] in Hsz. rewrite length_app in Hsz. lia. }
  rewrite (run_bind _ _ _ _ _ Hd). cbn iota.
  assert (c' ≠ []) as Hc'. { intros (-> & -> & ->)%Hne. by cbn in Eleaf. }
  destruct (unlink_ok (λ _, mret (mkTreap (aptr (plug c' (N a k v p E E))) (t_count t - 1) (uint64 (t_totalSize t - nodeSize (mkNode k v p (aptr l) (aptr r))))))
    c' a k v p σ1 Hc' Hh1) as (σ2 & -> & Hh2 & _); [by rewrite Hp1|].
  destruct (removed_ok σ σ2 t T (plug c' E) c a k v p l r Hok Hp Hh2) as [H1 H2].
  { assert (NoDup (addrs (plug c' (N a k v p E E)))) as Hn1 by by rewrite Hp1. rewrite addrs_plug in Hn1 |- *. apply NoDup_app in Hn1 as (? & _ & _). cbn. by rewrite app_nil_r. }
  { by rewrite entries_plug. }
  do 3 eexists. split_and!; [|exact H1|by rewrite Hp, H2]. do 3 f_equal.
  rewrite !aptr_plug. destruct c' as [|f c']; [done|]. cbn [spine map]. rewrite last_cons. by destruct (last _).
Qed.
