(* ===== verification/TreapPersist.v ===== *)
(** * Treaps: versions and iterators

    The immutable treap writes to nodes that it has just made, and to no
    others: the store grows, and every earlier version stays what it was.
    Iterators walk over the entries in order. *)

From Stdlib Require Import ZArith Lia.
From stdpp Require Import base numbers list strings gmap sorting.
From S2P Require Import Prelude ScriptNum WireTx Taproot TaprootFacts Treap TreapFacts.

Open Scope Z_scope.

Implicit Types (σ : Store) (c : list frame) (f : frame).

(** ** Ways with copied nodes *)

Definition strip f : side * list byte * list byte * Z * atree := (f_side f, f_key f, f_value f, f_prio f, f_other f).
Definition same_way c c' : Prop := map strip c = map strip c'.
Lemma same_way_entries c c' : same_way c c' → before c = before c' ∧ after c = after c'.
Proof.
  revert c'. induction c as [|f c IH]; intros [|f' c']; [done..|]. intros [= E1 E2 E3 E4 E5 [Hb Ha]%IH]. cbn [before after].
  by rewrite Hb, Ha, E1, E2, E3, E5.
Qed.
Lemma same_way_heap c c' t : same_way c c' → heap (plug c t) ↔ heap (plug c' t).
Proof.
  revert c' t. induction c as [|f c IH]; intros [|f' c'] t; [done..|]. intros [= E1 E2 E3 E4 E5 Hc]. cbn [plug].
  rewrite (IH c' _ Hc), (heap_plug c' (fill f t)), (heap_plug c' (fill f' t)). unfold fill, low_head. rewrite E1.
  destruct (f_side f'), c'; cbn; rewrite E4, E5; done.
Qed.
Lemma same_way_cmp c c' : same_way c c' → last_cmp c = last_cmp c'.
Proof. destruct c, c'; try done. intros [= E1 _]. cbn. unfold is_left. by rewrite E1. Qed.
Lemma aptr_plug_same c t t' : c ≠ [] → aptr (plug c t) = aptr (plug c t').
Proof. intros Hc. rewrite !aptr_plug. destruct c; [done|]. cbn [spine map]. rewrite last_cons. by destruct (last _). Qed.
Lemma plug_app c c' t : plug (c ++ c') t = plug c' (plug c t).
Proof. revert t. induction c as [|f c IH]; intros t; [done|]. apply IH. Qed.
Lemma length_spine c : length (spine c) = length c.
Proof. apply length_map. Qed.

(** Nothing below [n0] is changed, or on the way. *)
Definition agree (n0 : nat) σ σ' : Prop := ∀ x, (x < n0)%nat → σ' !! x = σ !! x.
Definition fresh (n0 : nat) (l : list nat) : Prop := ∀ x, x ∈ l → (n0 ≤ x)%nat.
Lemma agree_trans n0 σ σ' σ'' : agree n0 σ σ' → agree n0 σ' σ'' → agree n0 σ σ''.
Proof. intros H1 H2 x Hx. by rewrite H2, H1. Qed.
Lemma agree_prefix σ σ' : agree (length σ) σ σ' → σ `prefix_of` σ'.
Proof.
  intros Ha. exists (drop (length σ) σ'). rewrite <- (take_drop (length σ) σ') at 1. f_equal.
  apply list_eq. intros i. destruct (decide (i < length σ)%nat) as [Hi|Hi].
  - rewrite lookup_take_lt by done. by apply Ha.
  - rewrite (lookup_ge_None_2 σ) by lia. apply lookup_ge_None_2. rewrite length_take. lia.
Qed.

Lemma copy_under_ok σ s c a k v p l r :
  let t := N a k v p l r in
  stack_ok s (spine c) → holds σ (plug c t) → NoDup (addrs (plug c t)) →
  let t' := N (length σ) k v p l r in
  ∃ σ', copy_under (Some a) s σ = Some (Some (length σ), σ') ∧ holds σ' (plug c t') ∧ NoDup (addrs (plug c t')) ∧
    length σ' = S (length σ) ∧ ∀ x, (x < length σ)%nat → x ∉ spine c → σ' !! x = σ !! x.
Proof.
  intros t Hs Hh Hn t'. assert (∀ x, x ∈ addrs (plug c t) → (x < length σ)%nat) as Hlt by (intros x Hx; by apply (holds_bound σ (plug c t))).
  rewrite addrs_plug in Hn. setoid_rewrite addrs_plug in Hlt. pose proof Hh as [Hc (Ha & Hl & Hr)]%holds_plug. apply NoDup_app in Hn as (Hn1 & Hd & Hn2).
  set (σ1 := σ ++ [mkNode k v p (aptr l) (aptr r)]).
  assert (∀ x, (x < length σ)%nat → σ1 !! x = σ !! x) as Hx1 by (intros; unfold σ1; by rewrite lookup_app_l).
  assert (holds_ctx σ1 c (Some a)) as Hc1 by (apply (holds_ctx_agree σ); [|done]; intros x Hx; apply Hx1, Hlt; set_solver).
  assert (length σ ∉ addrs_ctx c) as Hfr by (intros Hx; assert (length σ < length σ)%nat by (apply Hlt; set_solver); lia).
  assert (NoDup (addrs t')) as Hn'. { cbn [addrs t t'] in *. apply NoDup_cons in Hn2 as [_ ?]. apply NoDup_cons. split; [|done].
    intros Hx. assert (length σ < length σ)%nat by (apply Hlt; set_solver); lia. }
  exists (relinked σ1 c (Some (length σ))). split_and!.
  - unfold copy_under. rewrite (run_load _ _ _ _ Ha), run_alloc. unfold cloneTreapNode. fold σ1. rewrite (stack_At _ _ 0 Hs) by lia.
    destruct c as [|f c]; [done|]. cbn [spine map].
    change ((f_addr f :: map f_addr c) !! Z.to_nat 0) with (Some (f_addr f)). cbv match.
    assert (∀ (m : Mem ptr) σ, m σ = (m ≫= mret) σ) as -> by (intros m σ0; unfold mbind, Mem_bind; by destruct (m σ0) as [[]|]).
    rewrite (relink_head mret σ1 f c a (Some (length σ)) (Some (length σ)) (Some (f_addr f)) Hc1); [done| |done].
    intros Hx. apply (Hd a); cbn [addrs_ctx addrs t]; set_solver.
  - apply holds_plug. split; [by apply (relinked_holds _ _ (Some a))|].
    assert (∀ u, (∀ x, x ∈ addrs u → x ∈ addrs l ++ addrs r) → holds σ u → holds (relinked σ1 c (Some (length σ))) u) as Hk.
    { intros u Hu. apply holds_agree. intros x Hx%Hu. rewrite relinked_other.
      - apply Hx1, Hlt. cbn [addrs t]. set_solver.
      - intros Hy%spine_sub. apply (Hd x); [done|]. cbn [addrs t]. set_solver. }
    cbn [holds t']. split_and!; [|apply Hk; [set_solver|done]..]. rewrite relinked_other by (intros ?%spine_sub; done).
    unfold σ1. by rewrite lookup_app_r, Nat.sub_diag by lia.
  - rewrite addrs_plug. apply NoDup_app. split_and!; [done| |done]. intros x Hx. cbn [addrs t t'] in *. pose proof (Hd x Hx). set_solver.
  - rewrite relinked_length. unfold σ1. rewrite length_app. cbn. lia.
  - intros x Hx Hy. rewrite relinked_other by done. by apply Hx1.
Qed.
Lemma copy_walk_ok k t n0 c c0 s σ fuel :
  holds σ (plug c t) → NoDup (addrs (plug c t)) → (length (addrs t) < fuel)%nat → stack_ok s (spine c) → fresh n0 (spine c) →
  (n0 ≤ length σ)%nat → (∀ x, x ∈ addrs t → (x < n0)%nat) → same_way c c0 →
  ∃ c' s' w σ', copy_walk fuel k (aptr t) s (last_cmp c) σ = Some ((s', w), σ') ∧ agree n0 σ σ' ∧ (n0 ≤ length σ')%nat ∧
    same_way c' (find k t c0).1 ∧ fresh n0 (spine c') ∧
    match (find k t c0).2 with
    | E => w = inl (last_cmp c') ∧ stack_ok s' (spine c') ∧ holds σ' (plug c' E) ∧ NoDup (addrs (plug c' E))
    | N a k v p l r => ∃ b, w = inr (Some a, Some b) ∧ stack_ok s' (b :: spine c') ∧ (n0 ≤ b)%nat ∧
        holds σ' (plug c' (N b k v p l r)) ∧ NoDup (addrs (plug c' (N b k v p l r))) ∧ σ' !! a = Some (mkNode k v p (aptr l) (aptr r))
    end.
Proof.
  revert c c0 s σ fuel. induction t as [|a k' v p l IHl r IHr]; intros c c0 s σ [|fuel] Hh Hn Hf Hs Hfr Hlen Hold Hsw; try (cbn in Hf; lia);
    cbn [copy_walk aptr find].
  { exists c, s, (inl (last_cmp c)), σ. split_and!; done. }
  cbn [addrs length] in Hf. rewrite length_app in Hf. pose proof Hh as [_ (Ha & _)]%holds_plug.
  destruct (copy_under_ok σ s c a k' v p l r Hs Hh Hn) as (σ1 & Hcp & Hh1 & Hn1 & Hl1 & Hx1). rewrite (run_bind _ _ _ _ _ Hcp).
  assert (agree n0 σ σ1) as Hag. { intros x Hx. apply Hx1; [lia|]. intros Hy%Hfr. lia. }
  assert (σ1 !! a = Some (mkNode k' v p (aptr l) (aptr r))) as Ha1. { rewrite Hag; [done|]. apply Hold. cbn. set_solver. }
  rewrite (run_load _ _ _ _ Ha1). cbn [n_key n_left n_right].
  assert (∀ g, f_addr g = length σ → fresh n0 (spine (g :: c))) as Hfr'.
  { intros g Hg x. cbn [spine map]. rewrite elem_of_cons. intros [->|Hx]; [lia|by apply Hfr]. }
  destruct (bytes_Compare k k') eqn:Ec.
  - exists c, (Push (Some (length σ)) s), (inr (Some a, Some (length σ))), σ1. split_and!; [done|done|lia|done|done|].
    exists (length σ). split_and!; try done. by apply stack_Push.
  - destruct (IHl (mkFrame Left (length σ) k' v p r :: c) (mkFrame Left a k' v p r :: c0) (Push (Some (length σ)) s) σ1 fuel)
      as (c' & s' & w & σ' & Hr & Hg & Hrest); [done|done|lia|by apply stack_Push|by apply Hfr'|lia| |by unfold same_way in *; cbn; rewrite Hsw|].
    { intros x Hx. apply Hold. cbn. set_solver. }
    exists c', s', w, σ'. split; [done|]. split; [by eapply agree_trans|done].
  - destruct (IHr (mkFrame Right (length σ) k' v p l :: c) (mkFrame Right a k' v p l :: c0) (Push (Some (length σ)) s) σ1 fuel)
      as (c' & s' & w & σ' & Hr & Hg & Hrest); [done|done|lia|by apply stack_Push|by apply Hfr'|lia| |by unfold same_way in *; cbn; rewrite Hsw|].
    { intros x Hx. apply Hold. cbn. set_solver. }
    exists c', s', w, σ'. split; [done|]. split; [by eapply agree_trans|done].
Qed.
Lemma Immutable_Put_ok σ (t : treap) T k v p :
  treap_ok σ t T →
  ∃ (t' : treap) σ' T', Immutable_Put t k v p σ = Some (t', σ') ∧ σ `prefix_of` σ' ∧ treap_ok σ' t' T' ∧
    table (entries T') = <[k := v]> (table (entries T)) ∧ (heap T → heap T').
Proof.
  intros Hok. pose proof (to_root _ _ _ Hok) as Hr. unfold Immutable_Put. destruct (aptr T) as [a0|] eqn:ET; rewrite Hr.
  2: { destruct T; [|done]. do 3 eexists. split_and!; [done|by eexists|apply first_ok|done|done]. }
  pose proof (to_nodup _ _ _ Hok) as Hn. pose proof (to_holds _ _ _ Hok) as Hh. rewrite run_depth, <- ET.
  destruct (copy_walk_ok k T (length σ) [] [] no_parents σ (S (length σ)) Hh Hn (to_fuel _ _ _ Hok) stack_none) as (c' & s & w & σ1 & Hw & Hag & Hlen & Hsw & Hfr & Hcase);
    [by intros x ?%elem_of_nil|done|intros x Hx; by apply (holds_bound σ T)|done|].
  rewrite (run_bind _ _ _ _ _ Hw). cbv match beta.
  destruct (find_cases k T (to_sorted _ _ _ Hok)) as [(c & Hf & Hp & _ & Hb & Ha)|(c & a & v0 & p0 & l & r & Hf & Hp & _)]; rewrite Hf in Hsw, Hcase; cbn [fst snd] in Hsw, Hcase;
    destruct (same_way_entries _ _ Hsw) as [Eb Ea].
  - destruct Hcase as (-> & Hs & Hh1 & Hn1). rewrite run_alloc.
    assert (c' ≠ []) as Hc by (intros ->; destruct c; [by subst T|done]).
    destruct (attach_ok c' σ1 k v p Hc Hh1 Hn1) as (σ2 & Hrun & Hh2 & Hn2 & Hl2 & Hx2).
    rewrite (stack_At _ _ 0 Hs) by lia. change (spine c' !! Z.to_nat 0) with (spine c' !! 0%nat). rewrite <- head_lookup, Hrun, (stack_bottom _ _ Hs), (stack_Len _ _ Hs), length_spine.
    destruct (sift_up_ok c' σ2 s (length σ1) k v p E E Hs Hh2 Hn2) as (σ3 & Hup & Hh3 & _ & Hx3).
    assert (last (spine c') = aptr (plug c' (N (length σ1) k v p E E))) as ->.
    { rewrite aptr_plug. destruct c'; [done|]. cbn [spine map]. rewrite last_cons. by destruct (last _). }
    rewrite (run_bind _ _ _ _ _ Hup).
    destruct (added_ok σ σ3 t T (rise c' (N (length σ1) k v p E E)) c (length σ1) k v p (newTreapNode k v p) Hok Hp Hb Ha Hh3) as [H1 H2];
      [by rewrite rise_addrs|by rewrite rise_entries, !entries_plug, Eb, Ea|done|].
    do 3 eexists. split_and!; [done| |exact H1|done|].
    + apply agree_prefix. intros x Hx. rewrite Hx3, Hx2, lookup_app_l by (lia || intros [->|Hy%Hfr]%elem_of_cons; lia). by apply Hag.
    + intros HT. apply rise_heap; [|done|by destruct c'|by destruct c']. apply (same_way_heap _ c); [done|]. by rewrite Hp.
  - destruct Hcase as (b & -> & Hs & Hnb & Hh1 & Hn1 & Hla). pose proof Hh1 as [_ (Hlb & _)]%holds_plug. unfold set_value. rewrite (run_change _ _ _ _ _ Hlb).
    cbn [n_key n_value n_priority n_left n_right].
    assert (a < length σ)%nat as Hal. { apply (holds_bound σ T); [done|]. rewrite <- Hp, addrs_plug. cbn [addrs]. set_solver. }
    assert (<[b := mkNode k v p0 (aptr l) (aptr r)]> σ1 !! a = Some (mkNode k v0 p0 (aptr l) (aptr r))) as Hla' by (rewrite list_lookup_insert_ne by lia; done).
    rewrite (run_load _ _ _ _ Hla'). cbn [n_value].
    destruct (replaced_ok σ (<[b := mkNode k v p0 (aptr l) (aptr r)]> σ1) t T b c a k v0 v p0 l r c' Hok Hp) as [H1 H2];
      [by apply (set_value_ok σ1 c' b k v0)| |done|done|].
    { rewrite addrs_plug in Hn1 |- *. done. }
    do 3 eexists. split_and!; [| |exact H1|done|].
    + do 3 f_equal. rewrite (stack_bottom _ _ Hs), aptr_plug. rewrite last_cons. by destruct (last _).
    + apply agree_prefix. intros x Hx. rewrite list_lookup_insert_ne by lia. by apply Hag.
    + intros HT. rewrite <- Hp in HT. apply (same_way_heap _ c); [done|]. apply heap_plug in HT. apply heap_plug. done.
Qed.

Lemma copy_parents_ok n0 a k v p l r s co ci c' s' σ :
  let t := N a k v p l r in
  stack_ok s (a :: spine (ci ++ co)) → stack_ok s' (spine c') → holds σ (plug c' (plug ci t)) → NoDup (addrs (plug c' (plug ci t))) →
  fresh n0 (spine c') → (n0 ≤ length σ)%nat → same_way c' co →
  ∃ c2 s2 σ2 b, copy_parents (S (length ci)) s s' σ = Some (s2, σ2) ∧ stack_ok s2 (b :: spine c2) ∧
    holds σ2 (plug c2 (N b k v p l r)) ∧ NoDup (addrs (plug c2 (N b k v p l r))) ∧ same_way c2 (ci ++ co) ∧
    fresh n0 (b :: spine c2) ∧ agree n0 σ σ2 ∧ (n0 ≤ length σ2)%nat.
Proof.
  intros t. revert co c' s' σ. induction ci as [|f ci IH] using rev_ind; intros co c' s' σ Hs Hs' Hh Hn Hfr Hlen Hsw; cbn [copy_parents length].
  - rewrite (stack_At _ _ _ Hs) by lia. change ((a :: spine ([] ++ co)) !! Z.to_nat (Z.of_nat 0)) with (Some a).
    destruct (copy_under_ok σ s' c' a k v p l r Hs' Hh Hn) as (σ1 & Hcp & Hh1 & Hn1 & Hl1 & Hx1). rewrite (run_bind _ _ _ _ _ Hcp).
    exists c', (Push (Some (length σ)) s'), σ1, (length σ). split_and!; [done|by apply stack_Push|done|done|done| | |lia].
    + intros x [->|Hx]%elem_of_cons; [lia|by apply Hfr].
    + intros x Hx. apply Hx1; [lia|]. intros Hy%Hfr. lia.
  - rewrite length_app. cbn [length]. rewrite Nat.add_1_r. rewrite <- app_assoc in Hs |- *. cbn [app] in *.
    assert ((a :: spine (ci ++ f :: co)) !! S (length ci) = Some (f_addr f)) as Hat.
    { change (spine (ci ++ f :: co) !! length ci = Some (f_addr f)). unfold spine. rewrite map_app, lookup_app_r by (rewrite length_map; lia).
      by rewrite length_map, Nat.sub_diag. }
    rewrite (stack_At _ _ _ Hs), Nat2Z.id, Hat by lia. rewrite plug_app in Hh, Hn. cbn [plug] in Hh, Hn.
    assert (∃ kk vv pp ll rr, fill f (plug ci t) = N (f_addr f) kk vv pp ll rr ∧
      fill (mkFrame (f_side f) (length σ) (f_key f) (f_value f) (f_prio f) (f_other f)) (plug ci t) = N (length σ) kk vv pp ll rr) as (kk & vv & pp & ll & rr & E1 & E2).
    { unfold fill. cbn [f_side f_addr f_key f_value f_prio f_other]. destruct (f_side f); eauto 10. }
    rewrite E1 in Hh, Hn. destruct (copy_under_ok σ s' c' (f_addr f) kk vv pp ll rr Hs' Hh Hn) as (σ1 & Hcp & Hh1 & Hn1 & Hl1 & Hx1). rewrite (run_bind _ _ _ _ _ Hcp).
    rewrite <- E2 in Hh1, Hn1. set (g := mkFrame _ _ _ _ _ _) in *.
    destruct (IH (f :: co) (g :: c') (Push (Some (length σ)) s') σ1) as (c2 & s2 & σ2 & b & H1 & H2 & H3 & H4 & H5 & H6 & H7 & H8);
      [done|by apply stack_Push|done|done| |lia|by unfold same_way in *; cbn; rewrite Hsw|].
    { intros x [->|Hx]%elem_of_cons; [exact Hlen|by apply Hfr]. }
    exists c2, s2, σ2, b. split_and!; try done. eapply agree_trans; [|done]. intros x Hx. apply Hx1; [lia|]. intros Hy%Hfr. lia.
Qed.
Lemma sift_down_copy_ok fuel n0 c t0 σ a k v p l r :
  let t := N a k v p l r in
  (length (addrs l) + length (addrs r) < fuel)%nat → holds σ (plug c t) → NoDup (addrs (plug c t)) →
  fresh n0 (a :: spine c) → (n0 ≤ length σ)%nat → c ≠ [] ∨ l ≠ E ∨ r ≠ E →
  ∃ c' σ', let t' := N a k v p E E in
    sift_down_copy fuel (aptr (plug c t0)) (Some a) (head (spine c)) σ = Some ((aptr (plug c' t'), head (spine c')), σ') ∧
    holds σ' (plug c' t') ∧ NoDup (addrs (plug c' t')) ∧ cut c l r c' ∧ agree n0 σ σ' ∧ fresh n0 (spine c').
Proof.
  cbv zeta. revert c t0 σ l r. induction fuel as [|fuel IH]; intros c t0 σ l r Hf Hh Hn Hfr Hlen Hnl; [lia|]. cbn [sift_down_copy].
  pose proof Hh as [Hc Ht]%holds_plug. rewrite (run_load _ _ _ _ (proj1 Ht)). cbn [n_left n_right].
  destruct (leaf_or_not l r) as [[-> ->]|Hne'].
  { exists c, σ. cbn [aptr]. split_and!; [|done|done|done|done|]; [|intros x Hx; apply Hfr; set_solver].
    rewrite (aptr_plug_same c t0 (N a k v p E E)); [done|]. naive_solver. }
  destruct (pick_child_ok σ a k v p l r Ht Hne') as (f & b & kb & vb & pb & lb & rb & Hpick & Hfill & <- & <- & <- & <-).
  rewrite <- Hfill in Ht, Hh, Hn. destruct (fill_node _ _ _ Ht) as (Hfa & Ho & Hb). cbn [plug] in *.
  assert (∀ x, x ∈ addrs (plug c (fill f (N b kb vb pb lb rb))) → (x < length σ)%nat) as Hlt by (intros x; by apply holds_bound).
  assert (addrs (plug c (fill f (N b kb vb pb lb rb))) ≡ₚ addrs_ctx (f :: c) ++ addrs (N b kb vb pb lb rb)) as Hpa.
  { rewrite addrs_plug, fill_addrs. cbn [addrs_ctx]. solve_Permutation. }
  setoid_rewrite Hpa in Hlt. rewrite Hpa in Hn.
  assert (∀ X Y : Mem (ptr * ptr), match aptr l, aptr r with None, None => X | _, _ => Y end = Y) as -> by (intros; by destruct l, r, Hne').
  rewrite (run_bind _ _ _ _ _ Hpick), (run_load _ _ _ _ (proj1 Hb)), run_alloc. unfold cloneTreapNode. cbn [n_left n_right].
  set (σ1 := σ ++ [_]). set (nb := length σ).
  assert (∀ x, (x < length σ)%nat → σ1 !! x = σ !! x) as Hx1 by (intros; unfold σ1; by rewrite lookup_app_l).
  assert (holds σ1 (N nb kb vb pb lb rb)) as Hb1.
  { destruct Hb as (_ & Hlb & Hrb). cbn [holds]. split_and!; [unfold σ1, nb; by rewrite lookup_app_r, Nat.sub_diag by lia|..]; (apply (holds_agree σ); [|done]);
      intros x Hx; apply Hx1, Hlt; cbn [addrs]; set_solver. }
  assert (NoDup (addrs_ctx (f :: c) ++ addrs (N nb kb vb pb lb rb))) as Hn1.
  { cbn [addrs] in Hn, Hlt |- *. rewrite <- Permutation_middle in Hn |- *. apply NoDup_cons in Hn as [_ Hn]. apply NoDup_cons. split; [|done].
    intros Hx. assert (nb < length σ)%nat by (apply Hlt; set_solver). unfold nb in *. lia. }
  destruct (rotate_step σ1 c f (Some b) nb kb vb pb lb rb t0) as (σ2 & Hrun & Hh2 & Hl2 & Hx2); [| | |done|done|].
  { apply (holds_ctx_agree σ); [|done]. intros x Hx. apply Hx1, Hlt. cbn [addrs_ctx]. set_solver. }
  { rewrite Hx1; [done|]. apply Hlt. cbn [addrs_ctx]. set_solver. }
  { apply (holds_agree σ); [|done]. intros x Hx. apply Hx1, Hlt. cbn [addrs_ctx]. set_solver. }
  rewrite Hrun. destruct (rot_under f nb kb vb pb lb rb) as (g & l' & r' & Er & Hg & Hsz & He).
  pose proof (rot_addrs f nb kb vb pb lb rb) as Hpe. rewrite Er in *. assert (head (spine (g :: c)) = Some nb) as Hhd by (cbn; by f_equal). rewrite <- Hhd.
  assert (fresh n0 (f_addr f :: spine (g :: c))) as Hfr2.
  { intros x. cbn [spine map]. rewrite !elem_of_cons. intros [->|[->|Hx]]; [apply Hfr; set_solver|unfold nb in *; lia|apply Hfr; set_solver]. }
  destruct (IH (g :: c) (N (f_addr f) (f_key f) (f_value f) (f_prio f) l' r') σ2 l' r') as (c' & σ' & Hrun' & Hh' & Hn' & Hcut & Hag & Hfr'); [|done| |done| |by left|].
  { assert (length (addrs (N (f_addr f) (f_key f) (f_value f) (f_prio f) l r)) = length (addrs (fill f (N b kb vb pb lb rb)))) as El by by rewrite Hfill.
    rewrite fill_addrs in El. cbn [addrs length] in El. rewrite !length_app in El. cbn [length] in El. rewrite length_app in El. lia. }
  { cbn [plug]. rewrite addrs_plug, Hpe. eapply NoDup_Permutation_proper; [|exact Hn1]. cbn [addrs_ctx]. solve_Permutation. }
  { rewrite Hl2. unfold σ1. rewrite length_app. cbn. lia. }
  exists c', σ'. split_and!; [done|done|done| | |done].
  - eapply (cut_step c f nb kb vb pb lb rb g l r l' r' c'); [|exact He|exact Hcut].
    unfold fill in *. destruct (f_side f); by injection Hfill as <- <-.
  - eapply agree_trans; [|done]. intros x Hx. rewrite Hx2, Hx1 by (lia || (intros Hy; assert (n0 ≤ x)%nat; [|lia]; apply Hfr2; cbn; set_solver)). done.
Qed.
Lemma Immutable_Delete_ok σ (t : treap) T k :
  treap_ok σ t T →
  ∃ (t' : treap) σ' T', Immutable_Delete t k σ = Some (t', σ') ∧ σ `prefix_of` σ' ∧ treap_ok σ' t' T' ∧
    table (entries T') = delete k (table (entries T)).
Proof.
  intros Hok. unfold Immutable_Delete. rewrite run_depth, (to_root _ _ _ Hok). pose proof (to_nodup _ _ _ Hok) as Hn. pose proof (to_holds _ _ _ Hok) as Hh.
  destruct (del_walk_ok k σ T [] no_parents _ Hh (to_fuel _ _ _ Hok) stack_none) as (s & Hw & Hs). rewrite (run_bind _ _ _ _ _ Hw). cbv match beta.
  destruct (find_cases k T (to_sorted _ _ _ Hok)) as [(c & Hf & Hp & Hk & _)|(c & a & v & p & l & r & Hf & Hp & Hk)]; rewrite Hf in *; cbn [fst snd aptr] in *.
  { exists t, σ, T. split_and!; [done|done|done|]. by rewrite delete_id. }
  rewrite <- Hp in Hn, Hh. pose proof Hh as [_ Ht]%holds_plug. rewrite (run_load _ _ _ _ (proj1 Ht)), (stack_At _ _ 1 Hs) by lia.
  change ((a :: spine c) !! Z.to_nat 1) with (spine c !! 0%nat). rewrite <- head_lookup. destruct (p_eqb (head (spine c)) None && is_leaf _) eqn:Eleaf.
  { apply andb_true_iff in Eleaf as [Hc Hlf]. unfold is_leaf in Hlf. apply andb_true_iff in Hlf as [Hl Hr]. unfold p_eqb in *. apply bool_decide_eq_true in Hc, Hl, Hr.
    destruct c; [|done]. destruct l, r; try done. exists NewMutable, σ, E. split_and!; [done|done|apply empty_ok|]. rewrite <- Hp. cbn. unfold table. cbn. by rewrite delete_insert_eq. }
  rewrite (stack_Len _ _ Hs). cbn [length]. rewrite length_spine.
  destruct (copy_parents_ok (length σ) a k v p l r s [] c [] no_parents σ) as (c2 & s2 & σ2 & b & Hcp & Hs2 & Hh2 & Hn2 & Hsw & Hfr & Hag & Hlen);
    [by rewrite app_nil_r|apply stack_none|done|done|by intros x ?%elem_of_nil|done|done|].
  rewrite app_nil_r in Hsw. rewrite (run_bind _ _ _ _ _ Hcp). destruct (stack_Pop _ _ _ Hs2) as (s3 & -> & Hs3).
  rewrite (stack_bottom _ _ Hs3), (stack_At _ _ 0 Hs3) by lia. change (spine c2 !! Z.to_nat 0) with (spine c2 !! 0%nat). rewrite <- head_lookup.
  assert (last (spine c2) = aptr (plug c2 E)) as -> by (rewrite aptr_plug; by destruct (last _)).
  assert (c2 = [] ↔ c = []) as Hnil by (destruct c, c2; done).
  destruct (sift_down_copy_ok (S (length σ)) (length σ) c2 E σ2 b k v p l r) as (c' & σ3 & Hd & Hh3 & Hn3 & [He Hne] & Hag3 & Hfr3); [|done|done|done|done| |].
  { pose proof (holds_size σ _ Hh Hn) as Hsz. rewrite addrs_plug, length_app in Hsz. cbn [addrs length] in Hsz. rewrite length_app in Hsz. lia. }
  { destruct c as [|f c]; [|left; naive_solver]. destruct (leaf_or_not l r) as [[-> ->]|?]; [by cbn in Eleaf|by right]. }
  rewrite (run_bind _ _ _ _ _ Hd). cbv match beta.
  assert (c' ≠ []) as Hc'. { intros (Hc2 & -> & ->)%Hne. apply Hnil in Hc2 as ->. by cbn in Eleaf. }
  destruct (unlink_ok (λ _, n ← load (Some b); mret (mkTreap (aptr (plug c' (N b k v p E E))) (t_count t - 1) (uint64 (t_totalSize t - nodeSize n))))
    c' b k v p σ3 Hc' Hh3 Hn3) as (σ4 & -> & Hh4 & _ & Hx4).
  assert (σ4 !! b = Some (newTreapNode k v p)) as Hb4.
  { apply holds_plug in Hh3 as [_ (Hb3 & _)]. rewrite Hx4; [done|]. intros Hy%spine_sub. rewrite addrs_plug in Hn3. apply NoDup_app in Hn3 as (_ & Hd3 & _).
    apply (Hd3 _ Hy). cbn. set_solver. }
  rewrite (run_load _ _ _ _ Hb4). destruct (same_way_entries _ _ Hsw) as [Eb Ea].
  destruct (removed_ok σ σ4 t T (plug c' E) c a k v p l r Hok Hp Hh4) as [H1 H2].
  { rewrite addrs_plug in Hn3 |- *. apply NoDup_app in Hn3 as (? & _ & _). cbn. by rewrite app_nil_r. }
  { rewrite entries_plug. cbn [entries app]. by rewrite He, Eb, Ea. }
  rewrite (aptr_plug_same c' (N b k v p E E) E Hc'). do 3 eexists. split_and!; [done| |exact H1|done].
  apply agree_prefix. intros x Hx. rewrite Hx4 by (intros Hy%Hfr3; lia). by rewrite Hag3, Hag.
Qed.

(** ** All entries in order *)

Fixpoint calls (fn : list byte → list byte → bool) (es : list entry) : list entry :=
  match es with [] => [] | e :: es => e :: (if fn e.1 e.2 then calls fn es else []) end.
(** What is left to do for a node on the stack. *)
Definition rest (t : atree) : list entry := match t with E => [] | N _ k v _ _ r => (k, v) :: entries r end.
Definition pending σ (s : parentStack) (ts : list atree) : Prop :=
  stack_ok s (omap aptr ts) ∧ Forall (λ u, u ≠ E ∧ holds σ u ∧ (length (addrs u) ≤ length σ)%nat) ts.
Lemma length_entries t : length (entries t) = length (addrs t).
Proof. induction t as [|a k v p l IHl r IHr]; cbn; [done|]. rewrite !length_app. cbn. lia. Qed.
Lemma push_left_ok σ t s ts fuel :
  holds σ t → (length (addrs t) < fuel)%nat → (length (addrs t) ≤ length σ)%nat → pending σ s ts →
  ∃ s' ts', push_left fuel (aptr t) s σ = Some (s', σ) ∧ pending σ s' ts' ∧ mjoin (map rest ts') = entries t ++ mjoin (map rest ts).
Proof.
  revert s ts fuel. induction t as [|a k v p l IHl r _]; intros s ts [|fuel] Hh Hf Hb [Hs Hts]; try (cbn in Hf; lia); cbn [push_left aptr]; [by exists s, ts|].
  pose proof Hh as (Ha & Hl & Hr). cbn [addrs length] in Hf, Hb. rewrite length_app in Hf, Hb. rewrite (run_load _ _ _ _ Ha). cbn [n_left].
  destruct (IHl (Push (Some a) s) (N a k v p l r :: ts) fuel) as (s' & ts' & Hp & Hok & He); [done|lia|lia| |].
  { split; [by apply stack_Push|]. constructor; [|done]. split_and!; [done|done|]. cbn [addrs length]. rewrite length_app. lia. }
  exists s', ts'. split_and!; [done|done|]. rewrite He. cbn. by rewrite <- app_assoc.
Qed.
Lemma each_loop_ok σ fn s ts called fuel :
  pending σ s ts → (length (mjoin (map rest ts)) < fuel)%nat →
  each_loop fuel fn s called σ = Some (called ++ calls fn (mjoin (map rest ts)), σ).
Proof.
  revert s ts called. induction fuel as [|fuel IH]; intros s ts called [Hs Hts] Hf; [lia|]. cbn [each_loop]. rewrite (stack_Len _ _ Hs).
  destruct Hts as [|t ts (Hne & Hh & Hb) Hts]; [cbn; by rewrite app_nil_r|]. destruct t as [|a k v p l r]; [done|]. cbn [omap list_omap aptr length] in Hs |- *.
  destruct (stack_Pop _ _ _ Hs) as (s' & -> & Hs'). destruct Hh as (Ha & Hl & Hr). rewrite (run_load _ _ _ _ Ha). cbn [n_key n_value n_right].
  change (mjoin (map rest (N a k v p l r :: ts))) with ((k, v) :: entries r ++ mjoin (map rest ts)) in Hf |- *. cbn [calls fst snd length] in Hf |- *. destruct (fn k v); cbn [negb]; [|done].
  rewrite run_depth. cbn [addrs length] in Hb. rewrite length_app in Hb.
  destruct (push_left_ok σ r s' ts (S (length σ))) as (s2 & ts2 & Hp & Hok & He); [done|lia|lia|done|].
  rewrite (run_bind _ _ _ _ _ Hp), (IH s2 ts2); [|done|rewrite He; lia]. rewrite He, <- app_assoc. done.
Qed.
Lemma ForEach_ok σ (t : treap) T fn : treap_ok σ t T → ForEach t fn σ = Some (calls fn (entries T), σ).
Proof.
  intros Hok. unfold ForEach. rewrite run_depth, (to_root _ _ _ Hok). pose proof (to_fuel _ _ _ Hok) as Hf.
  destruct (push_left_ok σ T no_parents [] (S (length σ))) as (s & ts & Hp & Hpe & He); [apply Hok|done|lia|split; [apply stack_none|done]|].
  rewrite (run_bind _ _ _ _ _ Hp), (each_loop_ok σ fn s ts); [|done|rewrite He, app_nil_r, length_entries; lia]. by rewrite He, app_nil_r.
Qed.

(** ** Iterators *)

(** The first frame on the way whose node comes after the hole. *)
Fixpoint next_up c : option (frame * list frame) :=
  match c with [] => None | f :: c => match f_side f with Left => Some (f, c) | Right => next_up c end end.
(** The part of the way below it. *)
Fixpoint below c : list frame := match c with [] => [] | f :: c => match f_side f with Left => [] | Right => f :: below c end end.
Lemma next_up_some c f c' t :
  next_up c = Some (f, c') → plug c' (N (f_addr f) (f_key f) (f_value f) (f_prio f) (plug (below c) t) (f_other f)) = plug c t ∧
  after c = (f_key f, f_value f) :: entries (f_other f) ++ after c' ∧ before c' ++ entries (plug (below c) t) = before c ++ entries t ∧
  spine c = spine (below c) ++ f_addr f :: spine c'.
Proof.
  revert t. induction c as [|g c IH]; intros t; cbn [next_up below plug after before spine map]; [done|]. unfold fill. destruct (f_side g) eqn:Eg.
  - intros [= -> ->]. cbn [plug]. split_and!; [done|done|by rewrite app_nil_r|done].
  - intros Hc. destruct (IH (fill g t) Hc) as (H1 & H2 & H3 & H4). unfold fill in *. rewrite Eg in *. split_and!.
    + cbn [plug]. unfold fill. by rewrite Eg.
    + done.
    + cbn [plug]. unfold fill. rewrite Eg, H3. cbn [entries]. by rewrite <- !app_assoc.
    + cbn [spine map app]. f_equal. exact H4.
Qed.
Lemma next_up_none c : next_up c = None → after c = [].
Proof. induction c as [|g c IH]; cbn; [done|]. by destruct (f_side g). Qed.

(** Where an iterator stands: between the entries before and after that of its
    node. *)
Record stands σ (T : atree) (it : Iterator) (es1 : list entry) (e : entry) (es2 : list entry) : Prop := mkStands {
  st_at : ∃ c a p l r, it_node it = Some a ∧ stack_ok (it_parents it) (spine c) ∧ plug c (N a e.1 e.2 p l r) = T ∧
    es1 = before c ++ entries l ∧ es2 = entries r ++ after c;
  st_ready : isNew it = false ∧ seekKey it = None }.
Definition in_range (sk lk : option (list byte)) (e : entry) : bool :=
  match sk with Some k => negb (bool_decide (bytes_Compare e.1 k = Lt)) | None => true end &&
  match lk with Some k => bool_decide (bytes_Compare e.1 k = Lt) | None => true end.
Lemma limit_ok σ T it es1 e es2 :
  holds σ T → stands σ T it es1 e es2 →
  limitIterator it σ = Some ((if in_range (startKey it) (limitKey it) e then (true, it) else (false, at_node None it)), σ).
Proof.
  intros Hh [(c & a & p & l & r & Hn & _ & Hp & _) _]. unfold limitIterator, in_range. rewrite Hn.
  rewrite <- Hp in Hh. apply holds_plug in Hh as [_ (Ha & _)]. rewrite (run_load _ _ _ _ Ha). cbn [n_key].
  destruct (startKey it), (limitKey it); repeat case_bool_decide; done.
Qed.
Lemma entry_read σ T it es1 e es2 :
  holds σ T → stands σ T it es1 e es2 → Key it σ = Some (Some e.1, σ) ∧ Value it σ = Some (Some e.2, σ).
Proof.
  intros Hh [(c & a & p & l & r & Hn & _ & Hp & _) _]. unfold Key, Value. rewrite Hn.
  rewrite <- Hp in Hh. apply holds_plug in Hh as [_ (Ha & _)]. by rewrite !(run_load _ _ _ _ Ha).
Qed.

Lemma ascend_ok σ c u s fuel :
  holds σ (plug c u) → NoDup (addrs (plug c u)) → u ≠ E → (length c < fuel)%nat → stack_ok s (spine c) →
  ∃ s', ascend fuel n_right (aptr u) (fst (Pop s)) (snd (Pop s)) σ =
    Some ((match next_up c with Some (f, _) => Some (f_addr f) | None => None end, s'), σ) ∧
    stack_ok s' (match next_up c with Some (_, c') => spine c' | None => [] end).
Proof.
  revert u s fuel. induction c as [|f c IH]; intros u s [|fuel] Hh Hn Hu Hf Hs; cbn [length] in Hf; try lia.
  - rewrite (stack_Pop_empty s Hs). by exists s.
  - cbn [spine map] in Hs. destruct (stack_Pop _ _ _ Hs) as (s' & -> & Hs'). cbn [fst snd ascend next_up]. cbn [plug] in Hh, Hn.
    pose proof Hh as [_ Hfu]%holds_plug. destruct (fill_node _ _ _ Hfu) as (Hfa & _ & _). rewrite (run_load _ _ _ _ Hfa).
    pose proof Hn as Hn1. rewrite addrs_plug, fill_addrs in Hn1. apply NoDup_app in Hn1 as (_ & _ & Hn1).
    destruct u as [|a k v p l r]; [done|]. destruct (nodup_apart _ _ _ _ _ _ _ Hn1) as [Hao _].
    unfold frame_node. destruct (f_side f) eqn:Ef; cbn [n_right aptr]; [rewrite p_eqb_false by (by intros ?%aptr_in); by exists s'|].
    rewrite p_eqb_true. destruct (Pop s') as [q s2] eqn:Eq. specialize (IH (fill f (N a k v p l r)) s' fuel). rewrite Eq in IH. cbn [fst snd] in IH.
    assert (aptr (fill f (N a k v p l r)) = Some (f_addr f)) as Hap by (unfold fill; by rewrite Ef). rewrite Hap in IH.
    apply IH; try done; [unfold fill; by rewrite Ef|lia].
Qed.
Definition same_limits (it it' : Iterator) : Prop :=
  it_root it' = it_root it ∧ isNew it' = isNew it ∧ seekKey it' = seekKey it ∧ startKey it' = startKey it ∧ limitKey it' = limitKey it.
(** Down to the first entry of the subtree. *)
Lemma descend_ok σ l c a k v p r it fuel :
  it_node it = Some a → stack_ok (it_parents it) (spine c) → holds σ (plug c (N a k v p l r)) → (length (addrs l) < fuel)%nat →
  ∃ it' c' a' e p' r', descend fuel n_left (aptr l) it σ = Some (it', σ) ∧ it_node it' = Some a' ∧ stack_ok (it_parents it') (spine c') ∧
    plug c' (N a' e.1 e.2 p' E r') = plug c (N a k v p l r) ∧ before c' = before c ∧ same_limits it it'.
Proof.
  revert c a k v p r it fuel. induction l as [|al kl vl pl ll IHl rl _]; intros c a k v p r it [|fuel] Hn Hs Hh Hf; try (cbn in Hf; lia); cbn [descend aptr].
  { exists it, c, a, (k, v), p, r. done. }
  pose proof Hh as [_ (_ & (Hal & _) & _)]%holds_plug. rewrite (run_load _ _ _ _ Hal). cbn [n_left].
  destruct (IHl (mkFrame Left a k v p r :: c) al kl vl pl rl (at_node (Some al) (with_parents (Push (it_node it) (it_parents it)) it)) fuel)
    as (it' & c' & a' & e & p' & r' & Hd & H1 & H2 & H3 & H4 & H5); [done|cbn; rewrite Hn; by apply stack_Push|done|cbn in Hf; rewrite length_app in Hf; lia|].
  exists it', c', a', e, p', r'. split_and!; try done. rewrite H4. cbn. by rewrite app_nil_r.
Qed.
Lemma end_loop_ok σ t c it fuel :
  t ≠ E → stack_ok (it_parents it) (spine c) → holds σ (plug c t) → (length (addrs t) < fuel)%nat →
  ∃ it' c' a' e p' r', end_loop fuel n_left (aptr t) it σ = Some ((true, it'), σ) ∧ it_node it' = Some a' ∧ stack_ok (it_parents it') (spine c') ∧
    plug c' (N a' e.1 e.2 p' E r') = plug c t ∧ before c' = before c ∧ same_limits it it'.
Proof.
  revert c it fuel. induction t as [|a k v p l IHl r _]; intros c it [|fuel] Hne Hs Hh Hf; try (cbn in Hf; lia); [done|]. cbn [end_loop aptr].
  assert (length (addrs l) < fuel)%nat as Hl by (cbn [addrs length] in Hf; rewrite length_app in Hf; lia).
  pose proof Hh as [_ (Ha & _)]%holds_plug. rewrite (run_load _ _ _ _ Ha). cbn [n_left]. destruct l as [|al kl vl pl ll rl]; cbn [aptr].
  { exists (at_node (Some a) it), c, a, (k, v), p, r. done. }
  destruct (IHl (mkFrame Left a k v p r :: c) (with_parents (Push (Some a) (it_parents it)) it) fuel)
    as (it' & c' & a' & e & p' & r' & Hd & H1 & H2 & H3 & H4 & H5); [done|by apply stack_Push|done|done|].
  exists it', c', a', e, p', r'. split_and!; try done. rewrite H4. cbn. by rewrite app_nil_r.
Qed.
Lemma stands_first σ T it c a e p r es1 es :
  it_node it = Some a → stack_ok (it_parents it) (spine c) → plug c (N a e.1 e.2 p E r) = T → before c = es1 → entries T = es1 ++ es →
  isNew it = false → seekKey it = None → ∃ es2, es = e :: es2 ∧ stands σ T it es1 e es2.
Proof.
  intros Hn Hs <- <- He H1 H2. rewrite entries_plug in He. apply app_inv_head in He. cbn [entries app] in He. subst es. destruct e as [k v].
  eexists. split; [done|]. split; [|done]. exists c, a, p, E, r. split_and!; try done. by rewrite app_nil_r.
Qed.
Lemma advance_ok σ T it es1 e es2 :
  holds σ T → NoDup (addrs T) → stands σ T it es1 e es2 →
  ∃ it', same_limits it it' ∧ advance n_right n_left it σ = limitIterator it' σ ∧
    match es2 with [] => it_node it' = None | e2 :: es => stands σ T it' (es1 ++ [e]) e2 es end.
Proof.
  intros Hh Hn [(c & a & p & l & r & Hnode & Hs & Hp & -> & ->) [Hnew Hseek]]. unfold advance. rewrite Hnode.
  pose proof (holds_size σ T Hh Hn) as Hsz. rewrite <- Hp in Hh, Hn, Hsz. pose proof Hh as [_ Ht]%holds_plug. rewrite (run_load _ _ _ _ (proj1 Ht)), run_depth.
  cbn [n_right]. destruct r as [|ar kr vr pr lr rr]; cbn [aptr].
  - destruct (ascend_ok σ c (N a e.1 e.2 p l E) (it_parents it) (S (length σ)) Hh Hn) as (s' & Ha & Hs'); [done| |done|].
    { rewrite addrs_plug, length_app in Hsz. assert (length c ≤ length (addrs_ctx c))%nat; [|lia]. clear. induction c as [|f c IH]; cbn; [lia|]. rewrite length_app. lia. }
    destruct (Pop (it_parents it)) as [q s2] eqn:Eq. cbn [fst snd] in Ha. change (aptr (N a e.1 e.2 p l E)) with (Some a) in Ha. rewrite (run_bind _ _ _ _ _ Ha).
    eexists. split; [|split; [done|]]; [done|]. cbn [entries app]. destruct (next_up c) as [[f c']|] eqn:En.
    + destruct (next_up_some c f c' (N a e.1 e.2 p l E) En) as (H1 & -> & H2 & _). split; [|done].
      exists c', (f_addr f), (f_prio f), (plug (below c) (N a e.1 e.2 p l E)), (f_other f). split_and!; [done|done|by rewrite <- Hp| |done].
      rewrite H2. cbn [entries]. destruct e. by rewrite <- !app_assoc.
    + by rewrite (next_up_none c En).
  - set (it1 := at_node (Some ar) (with_parents (Push (Some a) (it_parents it)) it)). cbn [it_node at_node with_parents it1].
    pose proof Ht as (_ & _ & (Har & _)). rewrite (run_load _ _ _ _ Har). cbn [n_left].
    destruct (descend_ok σ lr (mkFrame Right a e.1 e.2 p l :: c) ar kr vr pr rr it1 (S (length σ))) as (it' & c' & a' & e' & p' & r' & Hd & H1 & H2 & H3 & H4 & H5);
      [done|by apply stack_Push|done| |].
    { rewrite addrs_plug, length_app in Hsz. cbn [addrs length] in Hsz. rewrite length_app in Hsz. cbn [length] in Hsz. rewrite length_app in Hsz. lia. }
    rewrite (run_bind _ _ _ _ _ Hd). exists it'. split; [done|]. split; [done|]. destruct H5 as (_ & H5 & H6 & _).
    assert (entries T = ((before c ++ entries l) ++ [e]) ++ entries (N ar kr vr pr lr rr) ++ after c) as He.
    { rewrite <- Hp, entries_plug. destruct e. cbn [entries fst snd]. repeat (rewrite <- !app_assoc; cbn [app]). done. }
    destruct (stands_first σ T it' c' a' e' p' r' ((before c ++ entries l) ++ [e]) (entries (N ar kr vr pr lr rr) ++ after c)) as (es & -> & Hst); try done.
    + by rewrite H3, <- Hp.
    + rewrite H4. destruct e. cbn. by rewrite <- app_assoc.
    + by rewrite H5.
    + by rewrite H6.
Qed.

(** The node that [seek] has selected on the way, and its depth. *)
Definition selected c : ptr * nat :=
  match next_up c with Some (f, c') => (Some (f_addr f), length c') | None => (None, 0%nat) end.
Lemma seek_loop_ok k σ t c it fuel :
  holds σ t → (length (addrs t) < fuel)%nat → stack_ok (it_parents it) (spine c) → it_node it = (selected c).1 →
  ∃ it', same_limits it it' ∧ stack_ok (it_parents it') (spine (find k t c).1) ∧
    match (find k t c).2 with
    | N a _ _ _ _ _ => seek_loop fuel k true true (aptr t) (selected c).2 it σ = Some ((None, it'), σ) ∧ it_node it' = Some a
    | E => seek_loop fuel k true true (aptr t) (selected c).2 it σ = Some ((Some (selected (find k t c).1).2, it'), σ) ∧
        it_node it' = (selected (find k t c).1).1
    end.
Proof.
  revert c it fuel. induction t as [|a k' v p l IHl r IHr]; intros c it [|fuel] Hh Hf Hs Hn; try (cbn in Hf; lia); cbn [seek_loop aptr find].
  { exists it. done. }
  destruct Hh as (Ha & Hl & Hr). cbn [addrs length] in Hf. rewrite length_app in Hf. rewrite (run_load _ _ _ _ Ha). cbn [n_key n_left n_right].
  pose proof (stack_Push _ a _ Hs) as Hs1. destruct (bytes_Compare k k') eqn:Ec.
  - destruct (stack_Pop _ _ _ Hs1) as (s2 & Ep & Hs2). exists (with_parents s2 (at_node (Some a) it)).
    cbn [snd]. split_and!; [done|done| |done]. cbn [it_parents with_parents]. rewrite Ep. done.
  - assert ((Len (Push (Some a) (it_parents it)) - 1)%nat = length c) as El.
    { rewrite (stack_Len _ _ Hs1). cbn [length]. rewrite length_spine. lia. }
    destruct (IHl (mkFrame Left a k' v p r :: c) (at_node (Some a) (with_parents (Push (Some a) (it_parents it)) it)) fuel) as (it' & H1 & H2 & H3);
      [done|lia|done|done|]. exists it'. split_and!; [done|done|]. cbn [selected next_up f_side snd] in H3. cbn [it_parents with_parents]. rewrite El. exact H3.
  - destruct (IHr (mkFrame Right a k' v p l :: c) (with_parents (Push (Some a) (it_parents it)) it) fuel) as (it' & H1 & H2 & H3);
      [done|lia|done|done|]. exists it'. split_and!; [done|done|]. exact H3.
Qed.
Lemma pop_times_ok n s l : stack_ok s l → stack_ok (pop_times n s) (drop n l).
Proof.
  revert s l. induction n as [|n IH]; intros s l Hs; [done|]. cbn [pop_times]. destruct l as [|a l].
  - rewrite (stack_Pop_empty s Hs). cbn. rewrite <- (drop_nil n). by apply IH.
  - destruct (stack_Pop _ _ _ Hs) as (s' & -> & Hs'). by apply IH.
Qed.
(** The first entry that is not below the key. *)
Lemma seek_ok k σ T it :
  holds σ T → NoDup (addrs T) → sorted (entries T) → it_root it = aptr T → isNew it = false → seekKey it = None →
  ∃ it' es1 es2, same_limits it it' ∧ seek k true true it σ = limitIterator it' σ ∧ entries T = es1 ++ es2 ∧
    (∀ e, e ∈ es1 → bytes_Compare e.1 k = Lt) ∧ (∀ e, e ∈ es2 → bytes_Compare e.1 k ≠ Lt) ∧
    match es2 with [] => it_node it' = None | e :: es => stands σ T it' es1 e es end.
Proof.
  intros Hh Hn Hs Hr Hnew Hsk. unfold seek. rewrite run_depth. cbn [it_root with_parents at_node]. rewrite Hr.
  pose proof (holds_size σ T Hh Hn) as Hsz.
  destruct (seek_loop_ok k σ T [] (with_parents no_parents (at_node None it)) (S (length σ))) as (it' & Hl & Hst & Hcase); [done|lia|apply stack_none|done|].
  destruct Hl as (L1 & L2 & L3 & L4 & L5).
  destruct (find_cases k T Hs) as [(c & Hf & Hp & _ & Hb & Ha)|(c & a & v & p & l & r & Hf & Hp & _)]; rewrite Hf in Hst, Hcase; cbn [fst snd] in Hst, Hcase;
    destruct Hcase as [Hrun Hnode]; rewrite (run_bind _ _ _ _ _ Hrun); cbv match beta.
  - eexists _, (before c), (after c). split; [|split; [done|]]; [done|].
    split_and!; [by rewrite <- Hp, entries_plug|exact Hb| |].
    { intros e He Hlt. apply Ha in He. unfold klt in He. rewrite Compare_antisym, Hlt in He. done. }
    unfold selected in *. rewrite (stack_Len _ _ Hst), length_spine. destruct (next_up c) as [[f c']|] eqn:En; cbn [fst snd] in *.
    + destruct (next_up_some c f c' E En) as (H1 & -> & H2 & H3). split; [|cbn; by rewrite L2, L3]. rewrite app_nil_r in H2.
      exists c', (f_addr f), (f_prio f), (plug (below c) E), (f_other f). cbn [it_node it_parents with_parents]. split_and!; [done| |by rewrite <- Hp|by rewrite <- H2|done].
      replace (spine c') with (drop (length c - length c') (spine c)); [by apply pop_times_ok|].
      assert (length c = length (below c) + S (length c'))%nat as El by (rewrite <- (length_spine c), H3, length_app; cbn; by rewrite !length_spine).
      rewrite H3. replace (length c - length c')%nat with (length (spine (below c) ++ [f_addr f])) by (rewrite length_app, length_spine; cbn; lia).
      rewrite (cons_middle (f_addr f) (spine (below c)) (spine c')), app_assoc. apply drop_app_length.
    + by rewrite (next_up_none c En).
  - assert (entries T = (before c ++ entries l) ++ (k, v) :: entries r ++ after c) as He
      by (rewrite <- Hp, entries_plug; cbn [entries]; by rewrite <- !app_assoc).
    exists it', (before c ++ entries l), ((k, v) :: entries r ++ after c). split; [done|]. split; [done|]. split; [done|]. rewrite He in Hs. split_and!.
    + intros e Hin. apply (StronglySorted_app_1_elem_of _ _ _ e (k, v) Hs Hin). set_solver.
    + intros e [->|Hin]%elem_of_cons; [cbn; by rewrite Compare_refl|]. apply StronglySorted_app in Hs as (_ & _ & [Hs _]%StronglySorted_cons).
      rewrite Forall_forall in Hs. apply Hs in Hin. unfold entry_lt, klt in Hin. rewrite Compare_antisym. cbn in Hin. by rewrite Hin.
    + split; [|by rewrite L2, L3]. exists c, a, p, l, r. done.
Qed.

(** The calls of [Next] until it returns false, at most [n]. *)
Fixpoint collect (n : nat) (it : Iterator) : Mem (list entry) :=
  match n with
  | O => mret []
  | S n =>
      '(more, it) ← Next it;
      if (more : bool) then
        k ← Key it; v ← Value it; rest ← collect n it;
        mret ((default [] k, default [] v) :: rest)
      else mret []
  end.
Definition not_below (sk : option (list byte)) (e : entry) : Prop := match sk with Some k => bytes_Compare e.1 k ≠ Lt | None => True end.
Definition picked (sk lk : option (list byte)) (es : list entry) : list entry := filter (λ e, in_range sk lk e = true) es.
Lemma not_below_trans sk e e' : not_below sk e → klt e.1 e'.1 → not_below sk e'.
Proof.
  destruct sk as [k|]; cbn; [|done]. intros H1 H2 H3. apply H1. apply (klt_trans _ _ _ H2 H3).
Qed.
(** Past the limit there is nothing more. *)
Lemma picked_past sk lk e es : sorted (e :: es) → not_below sk e → in_range sk lk e = false → picked sk lk (e :: es) = [].
Proof.
  intros [Hs _]%StronglySorted_cons Hb Hr. unfold picked. rewrite filter_cons_False by (rewrite Hr; done).
  assert (∀ e', e' ∈ es → in_range sk lk e' ≠ true) as Hn.
  { intros e' Hin. rewrite Forall_forall in Hs. apply Hs in Hin. unfold in_range in *. unfold entry_lt in Hin. intros [_ Ht]%andb_true_iff. apply andb_false_iff in Hr as [Hr|Hr].
    - destruct sk as [k|]; [|done]. apply negb_false_iff, bool_decide_eq_true in Hr. done.
    - destruct lk as [k|]; [|done]. apply bool_decide_eq_true in Ht. apply bool_decide_eq_false in Hr. apply Hr. apply (klt_trans _ _ _ Hin Ht). }
  clear Hs. induction es as [|x es IH]; [done|]. rewrite filter_cons_False by (apply Hn; set_solver). apply IH. intros e' He'. apply Hn. set_solver.
Qed.
Lemma collect_from σ T it it' es1 es2 n :
  holds σ T → NoDup (addrs T) → sorted (entries T) → entries T = es1 ++ es2 →
  (match es2 with [] => it_node it' = None | e :: es => stands σ T it' es1 e es ∧ not_below (startKey it') e end) →
  Next it σ = limitIterator it' σ →
  collect n it σ = Some (take n (picked (startKey it') (limitKey it') es2), σ).
Proof.
  intros Hh Hn Hs. revert it it' es1 es2. induction n as [|n IH]; intros it it' es1 es2 He Hst Hnext; [done|]. cbn [collect].
  destruct es2 as [|e es].
  { assert (Next it σ = Some ((false, it'), σ)) as Hno by (rewrite Hnext; unfold limitIterator; by rewrite Hst). by rewrite (run_bind _ _ _ _ _ Hno). }
  destruct Hst as [Hst Hb]. assert (sorted (e :: es)) as Hse by (rewrite He in Hs; by apply StronglySorted_app in Hs as (_ & _ & ?)).
  rewrite (limit_ok σ T it' es1 e es Hh Hst) in Hnext. destruct (in_range (startKey it') (limitKey it') e) eqn:Er; rewrite (run_bind _ _ _ _ _ Hnext); cbv match beta.
  2: { rewrite picked_past by done. done. }
  destruct (entry_read σ T it' es1 e es Hh Hst) as [Hk Hv]. rewrite (run_bind _ _ _ _ _ Hk), (run_bind _ _ _ _ _ Hv).
  unfold picked. rewrite filter_cons_True by done. cbn [take].
  destruct (advance_ok σ T it' es1 e es Hh Hn Hst) as (it2 & Hl & Hadv & Hst2). destruct Hl as (_ & _ & _ & L4 & L5).
  assert (Next it' σ = limitIterator it2 σ) as Hnext2.
  { rewrite <- Hadv. destruct Hst as [(c & a & p & l & r & Hnode & _) [H1 H2]]. unfold Next. by rewrite H1, Hnode, H2. }
  rewrite (run_bind _ _ _ _ _ (IH it' it2 (es1 ++ [e]) es ltac:(by rewrite <- app_assoc) ltac:(destruct es as [|e2 es]; [done|]; split; [done|]; rewrite L4;
    apply StronglySorted_cons in Hse as [Hse _]; apply Forall_cons in Hse as [Hse _]; by apply (not_below_trans _ e)) Hnext2)).
  rewrite L4, L5. by destruct e.
Qed.

(** What a new iterator gives: the entries between its keys; but without a
    first key the least entry comes first, whatever the last key is. *)
Definition iterated (sk lk : option (list byte)) (es : list entry) : list entry :=
  match sk, es with
  | None, e :: es => e :: picked None lk es
  | _, _ => picked sk lk es
  end.

(** A new iterator over a treap gives these entries in order, each once. *)
Lemma treap_iteration σ (t : treap) T sk lk n :
  treap_ok σ t T → collect n (new_iterator t sk lk) σ = Some (take n (iterated sk lk (entries T)), σ).
Proof.
  intros Hok. pose proof (to_holds _ _ _ Hok) as Hh. pose proof (to_nodup _ _ _ Hok) as Hn. pose proof (to_sorted _ _ _ Hok) as Hs.
  set (it := new_iterator t sk lk). destruct sk as [k|].
  - destruct (seek_ok k σ T (not_new it) Hh Hn Hs) as (it' & es1 & es2 & (L1 & L2 & L3 & L4 & L5) & Hseek & He & Hlt & Hge & Hst); [apply Hok|done|done|].
    rewrite (collect_from σ T it it' es1 es2 n Hh Hn Hs He); [|destruct es2; [done|split; [done|rewrite L4; cbn; apply Hge; set_solver]]|done].
    rewrite L4, L5, He. cbn [startKey limitKey not_new it new_iterator iterated]. unfold picked. rewrite filter_app.
    assert (filter (λ e, in_range (Some k) lk e = true) es1 = []) as ->; [|done].
    clear - Hlt. induction es1 as [|x es1 IH]; [done|]. rewrite filter_cons_False; [apply IH; set_solver|]. unfold in_range. by rewrite bool_decide_true by (apply Hlt; set_solver).
  - destruct n as [|n]; [done|]. cbn [collect]. destruct T as [|a k v p l r] eqn:ET.
    { unfold Next, First. cbn [it new_iterator isNew not_new startKey it_root].
      unfold mbind at 1, Mem_bind at 1. rewrite run_depth, (to_root _ _ _ Hok). done. }
    rewrite <- ET in *. assert (T ≠ E) as Hne by by subst.
    destruct (end_loop_ok σ T [] (with_parents no_parents (not_new it)) (S (length σ))) as (it' & c' & a' & e & p' & r' & Hrun & H1 & H2 & H3 & H4 & (L1 & L2 & L3 & L4 & L5));
      [done|apply stack_none|done|apply (to_fuel _ _ _ Hok)|].
    destruct (stands_first σ T it' c' a' e p' r' [] (entries T)) as (es2 & He & Hst); [done|done|done|done|done|done|done|].
    assert (Next it σ = Some ((true, it'), σ)) as Hnext.
    { unfold Next, First. cbn [it new_iterator isNew not_new startKey it_root]. rewrite run_depth, (to_root _ _ _ Hok). exact Hrun. }
    rewrite (run_bind _ _ _ _ _ Hnext). cbv match beta.
    destruct (entry_read σ T it' [] e es2 Hh Hst) as [Hk Hv]. rewrite (run_bind _ _ _ _ _ Hk), (run_bind _ _ _ _ _ Hv).
    destruct (advance_ok σ T it' [] e es2 Hh Hn Hst) as (it2 & (_ & _ & _ & M4 & M5) & Hadv & Hst2).
    assert (Next it' σ = limitIterator it2 σ) as Hnext2.
    { rewrite <- Hadv. destruct Hst as [(c & b & q & l' & r2 & Hnode & _) [G1 G2]]. unfold Next. by rewrite G1, Hnode, G2. }
    assert (startKey it2 = None ∧ limitKey it2 = lk) as [K1 K2] by by rewrite M4, M5, L4, L5.
    rewrite (run_bind _ _ _ _ _ (collect_from σ T it' it2 [e] es2 n Hh Hn Hs He
      ltac:(destruct es2; [done|split; [done|by rewrite K1]]) Hnext2)).
    rewrite K1, K2, He. by destruct e.
Qed.

(** ** Sequences of operations *)

Inductive treap_op := OpPut (k v : list byte) (priority : Z) | OpDelete (k : list byte).
Definition op_map (o : treap_op) (m : assoc) : assoc := match o with OpPut k v _ => <[k := v]> m | OpDelete k => delete k m end.
Definition run_op (put : treap → list byte → list byte → Z → Mem treap) (del : treap → list byte → Mem treap) (o : treap_op) (t : treap) : Mem treap :=
  match o with OpPut k v p => put t k v p | OpDelete k => del t k end.
Fixpoint run_mutable (os : list treap_op) (t : treap) : Mem treap :=
  match os with [] => mret t | o :: os => t ← run_op Mutable_Put Mutable_Delete o t; run_mutable os t end.
(** Each operation makes a version from one that there is. *)
Fixpoint run_versions (os : list (nat * treap_op)) (ts : list treap) : Mem (list treap) :=
  match os with
  | [] => mret ts
  | (i, o) :: os =>
      match ts !! i with
      | Some t => t' ← run_op Immutable_Put Immutable_Delete o t; run_versions os (ts ++ [t'])
      | None => run_versions os ts
      end
  end.
Fixpoint map_versions (os : list (nat * treap_op)) (ms : list assoc) : list assoc :=
  match os with
  | [] => ms
  | (i, o) :: os => match ms !! i with Some m => map_versions os (ms ++ [op_map o m]) | None => map_versions os ms end
  end.
(** A treap answers like a map: lookups, counts, visits in order, and
    iterations with any keys. *)
Definition behaves σ (t : treap) (m : assoc) : Prop :=
  (∀ k, Get t k σ = Some (m !! k, σ) ∧ Has t k σ = Some (bool_decide (is_Some (m !! k)), σ)) ∧
  t_count t = Z.of_nat (size m) ∧ t_totalSize t = uint64 (total entry_size (map_to_list m)) ∧
  ∃ es, StronglySorted entry_lt es ∧ es ≡ₚ map_to_list m ∧ (∀ fn, ForEach t fn σ = Some (calls fn es, σ)) ∧
    ∀ sk lk n, collect n (new_iterator t sk lk) σ = Some (take n (iterated sk lk es), σ).
Lemma total_perm {A} (g : A → Z) l l' : l ≡ₚ l' → total g l = total g l'.
Proof. induction 1; cbn; lia. Qed.
Lemma treap_behaves σ (t : treap) T : treap_ok σ t T → behaves σ t (table (entries T)).
Proof.
  intros Hok. assert (entries T ≡ₚ map_to_list (table (entries T))) as Hp.
  { symmetry. apply map_to_list_to_map, sorted_keys, Hok. }
  split_and!.
  - intros k. by apply Get_ok.
  - rewrite (to_count _ _ _ Hok). by rewrite <- length_map_to_list, <- Hp.
  - rewrite (to_size _ _ _ Hok). f_equal. by apply total_perm.
  - exists (entries T). split_and!; [apply Hok|done|intros fn; by apply ForEach_ok|]. intros. by apply treap_iteration.
Qed.
Lemma treap_ok_prefix σ σ' (t : treap) T : σ `prefix_of` σ' → treap_ok σ t T → treap_ok σ' t T.
Proof.
  intros [k ->] [H1 H2 H3 H4 H5 H6]. split; try done. apply (holds_agree σ); [|done]. intros a Ha. apply lookup_app_l. by apply (holds_bound σ T).
Qed.
Definition is_put (o : treap_op) : Prop := match o with OpPut _ _ _ => True | _ => False end.

(** C19. Mutable treaps are maps: after any operations on an empty one, whatever the
    priorities, what is looked up, counted and visited in order is what the
    same operations make of a finite map, and a new iterator gives its entries
    between the two keys, in order, each once; only, without a first key the
    least entry comes first even when the last key excludes it.  No call fails.
    As long as nothing is deleted, no node has a lower priority than its
    parent. *)
Theorem mutable_treap os :
  ∃ (t : treap) σ, run_mutable os NewMutable [] = Some (t, σ) ∧ behaves σ t (foldl (λ m o, op_map o m) ∅ os) ∧
    (Forall is_put os → ∃ T, treap_ok σ t T ∧ heap T).
Proof.
  assert (∀ os σ (t : treap) T, treap_ok σ t T → ∃ (t' : treap) σ' T', run_mutable os t σ = Some (t', σ') ∧ treap_ok σ' t' T' ∧
    table (entries T') = foldl (λ m o, op_map o m) (table (entries T)) os ∧ (Forall is_put os → heap T → heap T')) as Hrun.
  { clear os. intros os. induction os as [|o os IH]; intros σ t T Hok; [by exists t, σ, T|]. cbn [run_mutable foldl].
    destruct o as [k v p|k]; cbn [run_op op_map].
    - destruct (Mutable_Put_ok σ t T k v p Hok) as (t1 & σ1 & T1 & Hr & Hok1 & He & Hh). rewrite (run_bind _ _ _ _ _ Hr), <- He.
      destruct (IH σ1 t1 T1 Hok1) as (t2 & σ2 & T2 & ? & ? & ? & Hh2). exists t2, σ2, T2. split_and!; try done.
      intros [_ Hos]%Forall_cons HT. apply Hh2; auto.
    - destruct (Mutable_Delete_ok σ t T k Hok) as (t1 & σ1 & T1 & Hr & Hok1 & He). rewrite (run_bind _ _ _ _ _ Hr), <- He.
      destruct (IH σ1 t1 T1 Hok1) as (t2 & σ2 & T2 & ? & ? & ? & Hh2). exists t2, σ2, T2. split_and!; try done.
      by intros [[] _]%Forall_cons. }
  destruct (Hrun os [] NewMutable E (empty_ok [])) as (t & σ & T & Hr & Hok & He & Hh). exists t, σ. split_and!; [done| |].
  - change (∅ : assoc) with (table (entries E)). rewrite <- He. by apply treap_behaves.
  - intros Hos. exists T. split; [done|]. by apply Hh.
Qed.

(** C20. Immutable treaps keep their versions: operations that each start from any
    of the versions so far make new ones, and at the end every version answers
    like its own map, with the same exception for iterations as a mutable
    treap, although the versions share nodes. *)
Theorem immutable_versions os :
  ∃ ts σ, run_versions os [NewImmutable] [] = Some (ts, σ) ∧ Forall2 (behaves σ) ts (map_versions os [∅]).
Proof.
  assert (∀ os σ ts Ts, Forall2 (treap_ok σ) ts Ts → ∃ ts' σ' Ts', run_versions os ts σ = Some (ts', σ') ∧ Forall2 (treap_ok σ') ts' Ts' ∧
    map (table ∘ entries) Ts' = map_versions os (map (table ∘ entries) Ts)) as Hrun.
  { clear os. intros os. induction os as [|[i o] os IH]; intros σ ts Ts Hok; [by exists ts, σ, Ts|]. cbn [run_versions map_versions].
    change (map (table ∘ entries) Ts) with ((table ∘ entries) <$> Ts). rewrite list_lookup_fmap. destruct (ts !! i) as [t|] eqn:Ht.
    - destruct (Forall2_lookup_l _ _ _ _ _ Hok Ht) as (T & HT & HtT). rewrite HT. cbn [fmap option_fmap option_map].
      assert (∃ (t' : treap) σ' T', run_op Immutable_Put Immutable_Delete o t σ = Some (t', σ') ∧ σ `prefix_of` σ' ∧ treap_ok σ' t' T' ∧
        table (entries T') = op_map o (table (entries T))) as (t1 & σ1 & T1 & Hr & Hpre & Hok1 & He).
      { destruct o as [k v p|k]; cbn [run_op op_map].
        - destruct (Immutable_Put_ok σ t T k v p HtT) as (t1 & σ1 & T1 & ? & ? & ? & ? & _). by exists t1, σ1, T1.
        - apply (Immutable_Delete_ok σ t T k HtT). }
      rewrite (run_bind _ _ _ _ _ Hr). destruct (IH σ1 (ts ++ [t1]) (Ts ++ [T1])) as (ts2 & σ2 & Ts2 & ? & ? & He2).
      { apply Forall2_app; [|by constructor]. eapply Forall2_impl; [exact Hok|]. intros u U. by apply treap_ok_prefix. }
      exists ts2, σ2, Ts2. split_and!; [done|done|]. rewrite He2, map_app. cbn. by rewrite He.
    - assert (Ts !! i = None) as -> by (apply lookup_ge_None; rewrite <- (Forall2_length _ _ _ Hok); by apply lookup_ge_None). by apply IH. }
  destruct (Hrun os [] [NewImmutable] [E]) as (ts & σ & Ts & Hr & Hok & He); [by constructor; [apply empty_ok|]|].
  exists ts, σ. split; [done|]. change [∅ : assoc] with (map (table ∘ entries) [E]). rewrite <- He.
  change (map (table ∘ entries) Ts) with ((table ∘ entries) <$> Ts). apply Forall2_fmap_r. eapply Forall2_impl; [exact Hok|]. intros t T. apply treap_behaves.
Qed.

(** ** What goes wrong *)

(** Whether no node has a lower priority than its parent. *)
Fixpoint heap_check (fuel : nat) σ (bound : Z) (p : ptr) : bool :=
  match fuel, p with
  | S fuel, Some a =>
      match σ !! a with
      | Some n => (bound <=? n_priority n) && heap_check fuel σ (n_priority n) (n_left n) && heap_check fuel σ (n_priority n) (n_right n)
      | None => false
      end
  | _, _ => true
  end.
Definition heap_after (os : list treap_op) : option bool :=
  '(t, σ) ← run_mutable os NewMutable []; Some (heap_check 10 σ 0 (t_root t)).
(** A deletion moves the child with the greater number up, although the least
    number belongs at the top. *)
Lemma delete_breaks_heap :
  heap_after [OpPut [4] [] 1; OpPut [2] [] 5; OpPut [6] [] 9] = Some true ∧
  heap_after [OpPut [4] [] 1; OpPut [2] [] 5; OpPut [6] [] 9; OpDelete [4]] = Some false.
Proof. vm_compute. done. Qed.
Definition key_after (f : Iterator → Mem (bool * Iterator)) (sk lk : option (list byte)) : option (bool * option (list byte)) :=
  fst <$> (t ← run_mutable [OpPut [4] [] 1; OpPut [2] [] 5; OpPut [6] [] 9] NewMutable;
           '(ok, it) ← f (new_iterator t sk lk); k ← Key it; mret (ok, k)) [].
(** Without a first key the last one is not looked at by [First]; without a last
    key the first one is not looked at by [Last]. *)
Lemma first_ignores_limit : key_after First None (Some [1]) = Some (true, Some [2]) ∧ key_after Last (Some [8]) None = Some (true, Some [6]).
Proof. vm_compute. done. Qed.
(** After [ForceReseek] and a new position, [Next] goes on from the old one. *)
Lemma reseek_forgets_position :
  (fst <$> (t ← run_mutable [OpPut [4] [] 1; OpPut [2] [] 5; OpPut [6] [] 9] NewMutable;
            '(_, it) ← Seek [4] (new_iterator t None None); it ← ForceReseek (Some t) it;
            '(_, it) ← First it; k ← Key it; '(_, it) ← Next it; k' ← Key it; mret (k, k')) []) = Some (Some [2], Some [6]).
Proof. vm_compute. done. Qed.
