(* ===== verification/ScriptEngine.v ===== *)
(** * Bitcoin script: the engine's state and the opcodes

    btcd/txscript/engine.go (state and encoding checks), sigvalidate.go and
    the opcode functions of opcode.go.  RIPEMD-160, SHA-1 and elliptic-curve
    signatures are parameters; the signature cache is nil. *)

From Stdlib Require Import ZArith Lia.
From stdpp Require Import base numbers list.
From S2P Require Import Prelude ScriptNum WireBase WireTx ScriptStack ScriptToken Sighash Taproot.

Open Scope Z_scope.

(** ** Flags *)

Definition ScriptBip16 : Z := 0.
Definition ScriptStrictMultiSig : Z := 1.
Definition ScriptDiscourageUpgradableNops : Z := 2.
Definition ScriptVerifyCheckLockTimeVerify : Z := 3.
Definition ScriptVerifyCheckSequenceVerify : Z := 4.
Definition ScriptVerifyCleanStack : Z := 5.
Definition ScriptVerifyDERSignatures : Z := 6.
Definition ScriptVerifyLowS : Z := 7.
Definition ScriptVerifyMinimalData : Z := 8.
Definition ScriptVerifyNullFail : Z := 9.
Definition ScriptVerifySigPushOnly : Z := 10.
Definition ScriptVerifyStrictEncoding : Z := 11.
Definition ScriptVerifyWitness : Z := 12.
Definition ScriptVerifyDiscourageUpgradeableWitnessProgram : Z := 13.
Definition ScriptVerifyMinimalIf : Z := 14.
Definition ScriptVerifyWitnessPubKeyType : Z := 15.
Definition ScriptVerifyTaproot : Z := 16.
Definition ScriptVerifyDiscourageUpgradeableTaprootVersion : Z := 17.
Definition ScriptVerifyDiscourageOpSuccess : Z := 18.
Definition ScriptVerifyDiscourageUpgradeablePubkeyType : Z := 19.
Definition ScriptVerifyConstScriptCode : Z := 20.

(** ** The engine *)

Record taprootExecutionCtx := mkTaprootCtx {
  annex : option (list byte);
  codeSepPos : Z;
  tapLeafHash : Hash;
  sigOpsBudget : Z;
  mustSucceed : bool
}.

(** Values of the conditional stack. *)
Inductive OpCond := OpCondFalse | OpCondTrue | OpCondSkip.

(** The condition stack is kept top first, like the data stacks. *)
Record Engine := mkEngine {
  flags : Z;
  tx : MsgTx;
  txIdx : nat;
  bip16 : bool;
  scripts : list (list byte);
  scriptIdx : nat;
  opcodeIdx : nat;
  lastCodeSep : nat;
  tokenizer : ScriptTokenizer;
  savedFirstStack : list (list byte);
  dstack : stack;
  astack : stack;
  condStack : list OpCond;
  numOps : Z;
  witnessVersion : Z;
  witnessProgram : option (list byte);
  taprootCtx : option taprootExecutionCtx;
  hashCache : option TxSigHashes;
  inputAmount : Z;
  prevOutFetcher : PrevOutputFetcher
}.

Definition set_dstack (s : stack) (vm : Engine) : Engine :=
  mkEngine (flags vm) (tx vm) (txIdx vm) (bip16 vm) (scripts vm) (scriptIdx vm) (opcodeIdx vm)
    (lastCodeSep vm) (tokenizer vm) (savedFirstStack vm) s (astack vm) (condStack vm) (numOps vm)
    (witnessVersion vm) (witnessProgram vm) (taprootCtx vm)
    (hashCache vm) (inputAmount vm) (prevOutFetcher vm).
Definition set_astack (s : stack) (vm : Engine) : Engine :=
  mkEngine (flags vm) (tx vm) (txIdx vm) (bip16 vm) (scripts vm) (scriptIdx vm) (opcodeIdx vm)
    (lastCodeSep vm) (tokenizer vm) (savedFirstStack vm) (dstack vm) s (condStack vm) (numOps vm)
    (witnessVersion vm) (witnessProgram vm) (taprootCtx vm)
    (hashCache vm) (inputAmount vm) (prevOutFetcher vm).
Definition set_condStack (c : list OpCond) (vm : Engine) : Engine :=
  mkEngine (flags vm) (tx vm) (txIdx vm) (bip16 vm) (scripts vm) (scriptIdx vm) (opcodeIdx vm)
    (lastCodeSep vm) (tokenizer vm) (savedFirstStack vm) (dstack vm) (astack vm) c (numOps vm)
    (witnessVersion vm) (witnessProgram vm) (taprootCtx vm)
    (hashCache vm) (inputAmount vm) (prevOutFetcher vm).
Definition set_numOps (n : Z) (vm : Engine) : Engine :=
  mkEngine (flags vm) (tx vm) (txIdx vm) (bip16 vm) (scripts vm) (scriptIdx vm) (opcodeIdx vm)
    (lastCodeSep vm) (tokenizer vm) (savedFirstStack vm) (dstack vm) (astack vm) (condStack vm) n
    (witnessVersion vm) (witnessProgram vm) (taprootCtx vm)
    (hashCache vm) (inputAmount vm) (prevOutFetcher vm).
Definition set_lastCodeSep (n : nat) (vm : Engine) : Engine :=
  mkEngine (flags vm) (tx vm) (txIdx vm) (bip16 vm) (scripts vm) (scriptIdx vm) (opcodeIdx vm)
    n (tokenizer vm) (savedFirstStack vm) (dstack vm) (astack vm) (condStack vm) (numOps vm)
    (witnessVersion vm) (witnessProgram vm) (taprootCtx vm)
    (hashCache vm) (inputAmount vm) (prevOutFetcher vm).
Definition set_taprootCtx (c : option taprootExecutionCtx) (vm : Engine) : Engine :=
  mkEngine (flags vm) (tx vm) (txIdx vm) (bip16 vm) (scripts vm) (scriptIdx vm) (opcodeIdx vm)
    (lastCodeSep vm) (tokenizer vm) (savedFirstStack vm) (dstack vm) (astack vm) (condStack vm)
    (numOps vm) (witnessVersion vm) (witnessProgram vm) c
    (hashCache vm) (inputAmount vm) (prevOutFetcher vm).
Definition set_tokenizer (t : ScriptTokenizer) (vm : Engine) : Engine :=
  mkEngine (flags vm) (tx vm) (txIdx vm) (bip16 vm) (scripts vm) (scriptIdx vm) (opcodeIdx vm)
    (lastCodeSep vm) t (savedFirstStack vm) (dstack vm) (astack vm) (condStack vm)
    (numOps vm) (witnessVersion vm) (witnessProgram vm) (taprootCtx vm)
    (hashCache vm) (inputAmount vm) (prevOutFetcher vm).

(** [hasFlag] with the flag given by its bit. *)
Definition hasFlag (vm : Engine) (flag : Z) : bool := Z.testbit (flags vm) flag.

Definition isBranchExecuting (vm : Engine) : bool :=
  match condStack vm with
  | [] => true
  | OpCondTrue :: _ => true
  | _ => false
  end.

Definition isWitnessVersionActive (vm : Engine) (version : Z) : bool :=
  match witnessProgram vm with Some _ => witnessVersion vm =? version | None => false end.
Definition BaseSegwitWitnessVersion : Z := 0.
Definition TaprootWitnessVersion : Z := 1.

Definition isOpcodeDisabled (op : byte) : bool :=
  bool_decide (op ∈ [0x7e; 0x7f; 0x80; 0x81; 0x83; 0x84; 0x85; 0x86; 0x8d; 0x8e;
                     0x95; 0x96; 0x97; 0x98; 0x99]).
Definition isOpcodeAlwaysIllegal (op : byte) : bool := (op =? OP_VERIF) || (op =? OP_VERNOTIF).
Definition isOpcodeConditional (op : byte) : bool :=
  (op =? OP_IF) || (op =? OP_NOTIF) || (op =? OP_ELSE) || (op =? OP_ENDIF).

(** ** Parameters: hashing and signatures *)

Class Crypto := {
  crypto_Sha :: Sha;
  crypto_Curve :: Curve;
  ripemd160 : list byte → list byte;
  sha1 : list byte → list byte;
  ParsePubKey : list byte → bool;
  ParseSignature : bool → list byte → bool;          (* strict DER? *)
  VerifySignature : list byte → list byte → list byte → bool    (* digest, signature, key *)
}.

(** ** Encoding checks *)

Section Encodings.
Context (vm : Engine).

(** [hashType & ^SigHashAnyOneCanPay] must be All, None or Single. *)
Definition checkHashTypeEncoding (hashType : Z) : option ErrorCode :=
  if negb (hasFlag vm ScriptVerifyStrictEncoding) then None else
  let sigHashType := Z.ldiff hashType 0x80 in
  if (sigHashType <? 1) || (3 <? sigHashType) then Some ErrInvalidSigHashType else None.

Definition IsCompressedPubKey (pubKey : list byte) : bool :=
  (length pubKey =? 33)%nat && (Z.ldiff (nth_byte pubKey 0) 1 =? 2).

Definition checkPubKeyEncoding (pubKey : list byte) : option ErrorCode :=
  if hasFlag vm ScriptVerifyWitnessPubKeyType &&
     isWitnessVersionActive vm BaseSegwitWitnessVersion && negb (IsCompressedPubKey pubKey)
  then Some ErrWitnessPubKeyType
  else if negb (hasFlag vm ScriptVerifyStrictEncoding) then None
  else if (length pubKey =? 33)%nat && ((nth_byte pubKey 0 =? 2) || (nth_byte pubKey 0 =? 3)) then None
  else if (length pubKey =? 65)%nat && (nth_byte pubKey 0 =? 4) then None
  else Some ErrPubKeyType.

(** Half of the order of secp256k1. *)
Definition halfOrder : Z :=
  0x7fffffffffffffffffffffffffffffff5d576e7357a4501ddfe92f46681b20a0.

Definition be_val (l : list byte) : Z := le_val (rev l).

Definition checkSignatureEncoding (sig : list byte) : option ErrorCode :=
  if negb (hasFlag vm ScriptVerifyDERSignatures) && negb (hasFlag vm ScriptVerifyLowS) &&
     negb (hasFlag vm ScriptVerifyStrictEncoding) then None else
  let at_ i := nth_byte sig (Z.to_nat i) in
  let sigLen := zlen sig in
  if sigLen <? 8 then Some ErrSigTooShort
  else if 72 <? sigLen then Some ErrSigTooLong
  else if negb (at_ 0 =? 0x30) then Some ErrSigInvalidSeqID
  else if negb (at_ 1 =? sigLen - 2) then Some ErrSigInvalidDataLen
  else
  let rLen := at_ 3 in
  let sTypeOffset := 4 + rLen in
  let sLenOffset := sTypeOffset + 1 in
  if sigLen <=? sTypeOffset then Some ErrSigMissingSTypeID
  else if sigLen <=? sLenOffset then Some ErrSigMissingSLen
  else
  let sOffset := sLenOffset + 1 in
  let sLen := at_ sLenOffset in
  if negb (sOffset + sLen =? sigLen) then Some ErrSigInvalidSLen
  else if negb (at_ 2 =? 0x02) then Some ErrSigInvalidRIntID
  else if rLen =? 0 then Some ErrSigZeroRLen
  else if negb (Z.land (at_ 4) 0x80 =? 0) then Some ErrSigNegativeR
  else if (1 <? rLen) && (at_ 4 =? 0) && (Z.land (at_ 5) 0x80 =? 0) then Some ErrSigTooMuchRPadding
  else if negb (at_ sTypeOffset =? 0x02) then Some ErrSigInvalidSIntID
  else if sLen =? 0 then Some ErrSigZeroSLen
  else if negb (Z.land (at_ sOffset) 0x80 =? 0) then Some ErrSigNegativeS
  else if (1 <? sLen) && (at_ sOffset =? 0) && (Z.land (at_ (sOffset + 1)) 0x80 =? 0)
  then Some ErrSigTooMuchSPadding
  else if hasFlag vm ScriptVerifyLowS &&
          (halfOrder <? be_val (slice sig (Z.to_nat sOffset) (Z.to_nat (sOffset + sLen))))
  then Some ErrSigHighS
  else None.

Definition strictEncoding : bool :=
  hasFlag vm ScriptVerifyStrictEncoding || hasFlag vm ScriptVerifyDERSignatures.
End Encodings.

(** ** Opcode functions *)

Section Opcodes.
Context `{Crypto}.

Definition M (A : Type) : Type := SR Engine A.

Definition on_dstack {A} (m : SR stack A) : SR Engine A := λ vm,
  match m (dstack vm) with
  | Ok (a, s) => Ok (a, set_dstack s vm) | Err e => Err e | Crash => Crash
  end.
Definition on_astack {A} (m : SR stack A) : SR Engine A := λ vm,
  match m (astack vm) with
  | Ok (a, s) => Ok (a, set_astack s vm) | Err e => Err e | Crash => Crash
  end.
Definition modify (f : Engine → Engine) : SR Engine () := λ vm, Ok ((), f vm).

Definition pop : SR Engine (list byte) := on_dstack PopByteArray.
Definition popInt : SR Engine Z := on_dstack PopInt.
Definition push (b : list byte) : SR Engine () := on_dstack (PushByteArray b).
Definition pushInt (n : Z) : SR Engine () := on_dstack (PushInt n).
Definition pushBool (b : bool) : SR Engine () := on_dstack (PushBool b).

Definition opcodeN (op : byte) : SR Engine () := pushInt (op - (OP_1 - 1)).

(** NOP1 and NOP4 to NOP10 may be discouraged. *)
Definition opcodeNop (op : byte) : SR Engine () :=
  vm ← sr_get;
  if bool_decide (op ∈ [0xb0; 0xb3; 0xb4; 0xb5; 0xb6; 0xb7; 0xb8; 0xb9]) &&
     hasFlag vm ScriptDiscourageUpgradableNops
  then sr_err ErrDiscourageUpgradableNOPs else mret ().

Definition popIfBool : SR Engine bool :=
  vm ← sr_get;
  if negb (isWitnessVersionActive vm TaprootWitnessVersion) &&
     (negb (isWitnessVersionActive vm BaseSegwitWitnessVersion) ||
      negb (hasFlag vm ScriptVerifyMinimalIf))
  then on_dstack PopBool
  else
    so ← pop;
    if (1 <? length so)%nat then sr_err ErrMinimalIf
    else if (length so =? 1)%nat && negb (hd 0 so =? 1) then sr_err ErrMinimalIf
    else mret (asBool so).

Definition push_cond (c : OpCond) : SR Engine () := modify (λ vm, set_condStack (c :: condStack vm) vm).

(** [opcodeIf] and [opcodeNotIf]; [want] is the value that enters. *)
Definition opcode_if (want : bool) : SR Engine () :=
  vm ← sr_get;
  if isBranchExecuting vm then
    ok ← popIfBool;
    push_cond (if Bool.eqb ok want then OpCondTrue else OpCondFalse)
  else push_cond OpCondSkip.
Definition opcodeIf : SR Engine () := opcode_if true.
Definition opcodeNotIf : SR Engine () := opcode_if false.

Definition opcodeElse : SR Engine () :=
  vm ← sr_get;
  match condStack vm with
  | [] => sr_err ErrUnbalancedConditional
  | OpCondTrue :: rest => modify (set_condStack (OpCondFalse :: rest))
  | OpCondFalse :: rest => modify (set_condStack (OpCondTrue :: rest))
  | OpCondSkip :: _ => mret ()
  end.
Definition opcodeEndif : SR Engine () :=
  vm ← sr_get;
  match condStack vm with
  | [] => sr_err ErrUnbalancedConditional
  | _ :: rest => modify (set_condStack rest)
  end.

Definition abstractVerify (c : ErrorCode) : SR Engine () :=
  verified ← on_dstack PopBool;
  if (verified : bool) then mret () else sr_err c.

(** *** Lock times *)

Definition LockTimeThreshold : Z := 500000000.
Definition SequenceLockTimeDisabled : Z := 2 ^ 31.
Definition SequenceLockTimeIsSeconds : Z := 2 ^ 22.
Definition SequenceLockTimeMask : Z := 0xffff.

Definition verifyLockTime (txLockTime threshold lockTime : Z) : option ErrorCode :=
  if negb (((txLockTime <? threshold) && (lockTime <? threshold)) ||
           ((threshold <=? txLockTime) && (threshold <=? lockTime)))
  then Some ErrUnsatisfiedLockTime
  else if txLockTime <? lockTime then Some ErrUnsatisfiedLockTime else None.

(** The sequence number of the input being spent. *)
Definition tx_sequence : SR Engine Z := λ vm,
  match TxIns (tx vm) !! txIdx vm with Some i => Ok (Sequence i, vm) | None => Crash end.

Definition peek_num5 : SR Engine Z :=
  on_dstack (so ← PeekByteArray 0; make_num so cltvMaxScriptNumLen).

Definition opcodeCheckLockTimeVerify : SR Engine () :=
  vm ← sr_get;
  if negb (hasFlag vm ScriptVerifyCheckLockTimeVerify) then
    if hasFlag vm ScriptDiscourageUpgradableNops then sr_err ErrDiscourageUpgradableNOPs
    else mret ()
  else
    lockTime ← peek_num5;
    if lockTime <? 0 then sr_err ErrNegativeLockTime else
    sr_check (verifyLockTime (LockTime (tx vm)) LockTimeThreshold lockTime);;
    sequence ← tx_sequence;
    if sequence =? MaxTxInSequenceNum then sr_err ErrUnsatisfiedLockTime else mret ().

Definition opcodeCheckSequenceVerify : SR Engine () :=
  vm ← sr_get;
  if negb (hasFlag vm ScriptVerifyCheckSequenceVerify) then
    if hasFlag vm ScriptDiscourageUpgradableNops then sr_err ErrDiscourageUpgradableNOPs
    else mret ()
  else
    sequence ← peek_num5;
    if sequence <? 0 then sr_err ErrNegativeLockTime
    else if negb (Z.land sequence SequenceLockTimeDisabled =? 0) then mret ()
    else if uint32 (Version (tx vm)) <? 2 then sr_err ErrUnsatisfiedLockTime
    else
      txSequence ← tx_sequence;
      if negb (Z.land txSequence SequenceLockTimeDisabled =? 0) then sr_err ErrUnsatisfiedLockTime
      else
        let lockTimeMask := Z.lor SequenceLockTimeIsSeconds SequenceLockTimeMask in
        sr_check (verifyLockTime (Z.land txSequence lockTimeMask) SequenceLockTimeIsSeconds
                    (Z.land sequence lockTimeMask)).

(** *** Stack and arithmetic *)

Definition opcodeToAltStack : SR Engine () := so ← pop; on_astack (PushByteArray so).
Definition opcodeFromAltStack : SR Engine () := so ← on_astack PopByteArray; push so.

Definition opcodeIfDup : SR Engine () :=
  so ← on_dstack (PeekByteArray 0);
  if asBool so then push so else mret ().
Definition opcodeDepth : SR Engine () := vm ← sr_get; pushInt (Depth (dstack vm)).
Definition opcodePick : SR Engine () := val ← popInt; on_dstack (PickN (Int32 val)).
Definition opcodeRoll : SR Engine () := val ← popInt; on_dstack (RollN (Int32 val)).
Definition opcodeSize : SR Engine () := so ← on_dstack (PeekByteArray 0); pushInt (zlen so).

Definition opcodeEqual : SR Engine () :=
  a ← pop; b ← pop; pushBool (bool_decide (a = b)).

(** One number in, one out; two numbers in ([v0] the top), one out. *)
Definition unary (f : Z → Z) : SR Engine () := m ← popInt; pushInt (f m).
Definition binary (f : Z → Z → Z) : SR Engine () := v0 ← popInt; v1 ← popInt; pushInt (f v0 v1).
Definition Zb (b : bool) : Z := if b then 1 else 0.

Definition opcode1Add := unary (λ m, int64 (m + 1)).
Definition opcode1Sub := unary (λ m, int64 (m - 1)).
Definition opcodeNegate := unary (λ m, int64 (- m)).
Definition opcodeAbs := unary (λ m, if m <? 0 then int64 (- m) else m).
Definition opcodeNot := unary (λ m, Zb (m =? 0)).
Definition opcode0NotEqual := unary (λ m, Zb (negb (m =? 0))).
Definition opcodeAdd := binary (λ v0 v1, int64 (v0 + v1)).
Definition opcodeSub := binary (λ v0 v1, int64 (v1 - v0)).
Definition opcodeBoolAnd := binary (λ v0 v1, Zb (negb (v0 =? 0) && negb (v1 =? 0))).
Definition opcodeBoolOr := binary (λ v0 v1, Zb (negb (v0 =? 0) || negb (v1 =? 0))).
Definition opcodeNumEqual := binary (λ v0 v1, Zb (v0 =? v1)).
Definition opcodeNumNotEqual := binary (λ v0 v1, Zb (negb (v0 =? v1))).
Definition opcodeLessThan := binary (λ v0 v1, Zb (v1 <? v0)).
Definition opcodeGreaterThan := binary (λ v0 v1, Zb (v0 <? v1)).
Definition opcodeLessThanOrEqual := binary (λ v0 v1, Zb (v1 <=? v0)).
Definition opcodeGreaterThanOrEqual := binary (λ v0 v1, Zb (v0 <=? v1)).
Definition opcodeMin := binary (λ v0 v1, if v1 <? v0 then v1 else v0).
Definition opcodeMax := binary (λ v0 v1, if v0 <? v1 then v1 else v0).
Definition opcodeWithin : SR Engine () :=
  maxVal ← popInt; minVal ← popInt; x ← popInt;
  pushInt (Zb ((minVal <=? x) && (x <? maxVal))).

(** *** Hashes and the code separator *)

Definition hash_top (f : list byte → list byte) : SR Engine () := buf ← pop; push (f buf).
Definition opcodeRipemd160 : SR Engine () := hash_top ripemd160.
Definition opcodeSha1 : SR Engine () := hash_top sha1.
Definition opcodeSha256 : SR Engine () := hash_top sha256.
Definition opcodeHash160 : SR Engine () := hash_top (λ b, ripemd160 (sha256 b)).
Definition opcodeHash256 : SR Engine () := hash_top (λ b, sha256 (sha256 b)).

Definition opcodeCodeSeparator : SR Engine () :=
  modify (λ vm, set_lastCodeSep (t_offset (tokenizer vm)) vm);;
  vm ← sr_get;
  match taprootCtx vm with
  | Some c =>
      modify (set_taprootCtx (Some (mkTaprootCtx (annex c) (uint32 (t_opcodePos (tokenizer vm)))
                                      (tapLeafHash c) (sigOpsBudget c) (mustSucceed c))))
  | None =>
      match witnessProgram vm with
      | None => if hasFlag vm ScriptVerifyConstScriptCode then sr_err ErrCodeSeparator else mret ()
      | Some _ => mret ()
      end
  end.

(** *** Signatures *)

Definition subScript (vm : Engine) : Res (list byte) :=
  match scripts vm !! scriptIdx vm with
  | Some s => if (lastCodeSep vm <=? length s)%nat then Ok (drop (lastCodeSep vm) s) else Crash
  | None => Crash
  end.

(** [parseBaseSigAndPubkey]: the script error, [None] for another error
    (the key or the signature does not parse), or the hash type. *)
Definition parseBaseSigAndPubkey (vm : Engine) (pkBytes fullSigBytes : list byte)
  : option Z + ErrorCode :=
  let hashType := last_byte fullSigBytes in
  let sigBytes := take (length fullSigBytes - 1) fullSigBytes in
  match checkHashTypeEncoding vm hashType, checkSignatureEncoding vm sigBytes,
        checkPubKeyEncoding vm pkBytes with
  | Some e, _, _ => inr e
  | None, Some e, _ => inr e
  | None, None, Some e => inr e
  | None, None, None =>
      if ParsePubKey pkBytes && ParseSignature (strictEncoding vm) sigBytes
      then inl (Some hashType) else inl None
  end.

Record verifyResult := mkVerify { sigValid : bool; sigMatch : bool }.

(** The digests of the two kinds of inputs.  [Ok None]: an error. *)
Definition getSigHashes (vm : Engine) : Res TxSigHashes :=
  match hashCache vm with
  | Some h => Ok h
  | None => NewTxSigHashes (tx vm) (prevOutFetcher vm)
  end.
Definition segwit_digest (vm : Engine) (script : list byte) (hashType : Z) : Res (option (list byte)) :=
  sigHashes ← getSigHashes vm;
  Ok (calcWitnessSignatureHashRaw script sigHashes hashType (tx vm) (txIdx vm) (inputAmount vm)).

(** [Verify] of the base verifier and of the segwit one. *)
Definition base_Verify (vm : Engine) (script pkBytes fullSigBytes : list byte) (hashType : Z)
  : Res verifyResult :=
  let '(subScript, match_) := removeOpcodeByData script fullSigBytes in
  sigHash ← calcSignatureHash (tx vm) (txIdx vm) subScript hashType;
  Ok (mkVerify (VerifySignature sigHash (take (length fullSigBytes - 1) fullSigBytes) pkBytes) match_).
Definition segwit_Verify (vm : Engine) (script pkBytes fullSigBytes : list byte) (hashType : Z)
  : Res verifyResult :=
  digest ← segwit_digest vm script hashType;
  Ok (match digest with
      | None => mkVerify false false
      | Some sigHash =>
          mkVerify (VerifySignature sigHash (take (length fullSigBytes - 1) fullSigBytes) pkBytes) false
      end).

Definition sigOpsDelta : Z := 50.
Definition tallysigOp : SR Engine () := λ vm,
  match taprootCtx vm with
  | None => Crash
  | Some c =>
      let b := int32 (sigOpsBudget c - sigOpsDelta) in
      if b <? 0 then Err ErrTaprootMaxSigOps
      else Ok ((), set_taprootCtx
                     (Some (mkTaprootCtx (annex c) (codeSepPos c) (tapLeafHash c) b (mustSucceed c))) vm)
  end.

(** [newBaseTapscriptSigVerifier] and its [Verify]: keys of unknown size
    are accepted unless discouraged. *)
Definition tapscript_verify (pkBytes rawSig : list byte) : SR Engine bool := λ vm,
  match taprootCtx vm with
  | None => Crash
  | Some c =>
      if (length pkBytes =? 0)%nat then Err ErrTaprootPubkeyIsEmpty
      else if (length pkBytes =? 32)%nat then
        match parseTaprootSigAndPubKey pkBytes rawSig with
        | inr e => Err e
        | inl (pubKey, hashType) =>
            valid ← taproot_Verify (hashCache vm) (prevOutFetcher vm) (tx vm) (txIdx vm)
                      (mkSigHashOptions (annex c) (Some (tapLeafHash c, codeSepPos c)))
                      pubKey hashType rawSig;
            Ok (valid, vm)
        end
      else if hasFlag vm ScriptVerifyDiscourageUpgradeablePubkeyType
      then Err ErrDiscourageUpgradeablePubKeyType
      else Ok (true, vm)
  end.

(** The part of [opcodeCheckSig] after the verifier is built. *)
Definition checksig_result (r : verifyResult) (fullSigBytes : list byte) : SR Engine () :=
  vm ← sr_get;
  let valid := sigValid r in
  if hasFlag vm ScriptVerifyConstScriptCode && sigMatch r then sr_err ErrNonConstScriptCode
  else if (negb valid && match taprootCtx vm with Some _ => true | None => false end &&
           negb (length fullSigBytes =? 0)%nat) ||
          (negb valid && hasFlag vm ScriptVerifyNullFail && (0 <? length fullSigBytes)%nat)
  then sr_err ErrNullFail
  else pushBool valid.

Definition checksig_base
    (verify : Engine → list byte → list byte → list byte → Z → Res verifyResult)
    (pkBytes fullSigBytes : list byte) : SR Engine () :=
  vm ← sr_get;
  match parseBaseSigAndPubkey vm pkBytes fullSigBytes with
  | inr e => sr_err e
  | inl None => pushBool false
  | inl (Some hashType) =>
      script ← sr_lift (subScript vm);
      result ← sr_lift (verify vm script pkBytes fullSigBytes hashType);
      checksig_result result fullSigBytes
  end.

Definition opcodeCheckSig : SR Engine () :=
  pkBytes ← pop;
  fullSigBytes ← pop;
  vm ← sr_get;
  match taprootCtx vm, length fullSigBytes with
  | None, O => pushBool false
  | _, _ =>
      match witnessProgram vm with
      | None => checksig_base base_Verify pkBytes fullSigBytes
      | Some _ =>
          if isWitnessVersionActive vm BaseSegwitWitnessVersion then
            checksig_base segwit_Verify pkBytes fullSigBytes
          else
            match taprootCtx vm with
            | Some _ =>
                (if (0 <? length fullSigBytes)%nat then tallysigOp else mret ());;
                if (length pkBytes =? 0)%nat then sr_err ErrTaprootPubkeyIsEmpty
                else if (length fullSigBytes =? 0)%nat then push []
                else
                  ok ← tapscript_verify pkBytes fullSigBytes;
                  checksig_result (mkVerify ok false) fullSigBytes
            | None => sr_crash
            end
      end
  end.

Definition opcodeCheckSigAdd : SR Engine () :=
  vm ← sr_get;
  match taprootCtx vm with
  | None => sr_err ErrReservedOpcode
  | Some _ =>
      pubKeyBytes ← pop;
      accumulatorInt ← popInt;
      sigBytes ← pop;
      (if negb (length sigBytes =? 0)%nat then tallysigOp else mret ());;
      if (length pubKeyBytes =? 0)%nat then sr_err ErrTaprootPubkeyIsEmpty
      else if (length sigBytes =? 0)%nat then pushInt accumulatorInt
      else
        ok ← tapscript_verify pubKeyBytes sigBytes;
        if (ok : bool) then pushInt (int64 (accumulatorInt + 1)) else sr_err ErrNullFail
  end.

(** *** Multisignatures *)

(** What is known of a signature: not looked at yet, or whether it parses. *)
Inductive SigState := Unparsed | Parsed (ok : bool).
Record parsedSigInfo := mkSigInfo { signature : list byte; sig_state : SigState }.

(** One round of the loop: is the signature valid for the key? *)
Definition multisig_try (vm : Engine) (script : list byte) (sigInfo : parsedSigInfo)
    (pubKey : list byte) : Res (bool * parsedSigInfo) :=
  let rawSig := signature sigInfo in
  if (length rawSig =? 0)%nat then Ok (false, sigInfo) else
  let hashType := last_byte rawSig in
  let sig := take (length rawSig - 1) rawSig in
  ok ← (match sig_state sigInfo with
        | Parsed ok => Ok ok
        | Unparsed =>
            check (checkHashTypeEncoding vm hashType);;
            check (checkSignatureEncoding vm sig);;
            Ok (ParseSignature (strictEncoding vm) sig)
        end);
  let sigInfo := mkSigInfo rawSig (Parsed ok) in
  if negb ok then Ok (false, sigInfo) else
  check (checkPubKeyEncoding vm pubKey);;
  if negb (ParsePubKey pubKey) then Ok (false, sigInfo) else
  hash ← (if isWitnessVersionActive vm 0 then
            digest ← segwit_digest vm script hashType;
            match digest with Some hash => Ok hash | None => Err ErrOther end
          else calcSignatureHash (tx vm) (txIdx vm) script hashType);
  Ok (VerifySignature hash sig pubKey, sigInfo).

Fixpoint multisig_loop (vm : Engine) (script : list byte) (sigs : list parsedSigInfo)
    (pubKeys : list (list byte)) {struct pubKeys} : Res bool :=
  match sigs with
  | [] => Ok true
  | s :: rest =>
      if (length pubKeys <? length sigs)%nat then Ok false else
      match pubKeys with
      | [] => Ok false
      | pk :: pks =>
          r ← multisig_try vm script s pk;
          if (fst r : bool) then multisig_loop vm script rest pks
          else multisig_loop vm script (snd r :: rest) pks
      end
  end.

Fixpoint pop_n (n : nat) : SR Engine (list (list byte)) :=
  match n with
  | O => mret []
  | S k => x ← pop; rest ← pop_n k; mret (x :: rest)
  end.

(** The signatures are removed from the script before it is hashed, outside
    version 0 witness programs. *)
Fixpoint remove_sigs (const : bool) (script : list byte) (sigs : list (list byte))
  : Res (list byte) :=
  match sigs with
  | [] => Ok script
  | s :: rest =>
      let '(script', match_) := removeOpcodeByData script s in
      if const && match_ then Err ErrNonConstScriptCode else remove_sigs const script' rest
  end.

Definition opcodeCheckMultiSig : SR Engine () :=
  vm0 ← sr_get;
  match taprootCtx vm0 with
  | Some _ => sr_err ErrTapscriptCheckMultisig
  | None =>
      numKeys ← popInt;
      let numPubKeys := Int32 numKeys in
      if numPubKeys <? 0 then sr_err ErrInvalidPubKeyCount
      else if MaxPubKeysPerMultiSig <? numPubKeys then sr_err ErrInvalidPubKeyCount
      else
      modify (λ vm, set_numOps (numOps vm + numPubKeys) vm);;
      vm ← sr_get;
      if MaxOpsPerScript <? numOps vm then sr_err ErrTooManyOperations else
      pubKeys ← pop_n (Z.to_nat numPubKeys);
      numSigs ← popInt;
      let numSignatures := Int32 numSigs in
      if numSignatures <? 0 then sr_err ErrInvalidSignatureCount
      else if numPubKeys <? numSignatures then sr_err ErrInvalidSignatureCount
      else
      signatures ← pop_n (Z.to_nat numSignatures);
      dummy ← pop;
      if hasFlag vm ScriptStrictMultiSig && negb (length dummy =? 0)%nat
      then sr_err ErrSigNullDummy else
      script ← sr_lift (subScript vm);
      script' ← sr_lift (if negb (isWitnessVersionActive vm 0)
                         then remove_sigs (hasFlag vm ScriptVerifyConstScriptCode) script signatures
                         else Ok script);
      success ← sr_lift (multisig_loop vm script' (map (λ s, mkSigInfo s Unparsed) signatures) pubKeys);
      if negb (success : bool) && hasFlag vm ScriptVerifyNullFail &&
         existsb (λ s, (0 <? length s)%nat) signatures
      then sr_err ErrNullFail
      else pushBool success
  end.
End Opcodes.
