(* ===== verification/ScriptExec.v ===== *)
(** * Bitcoin script: executing scripts

    btcd/txscript/engine.go: [executeOpcode], [verifyWitnessProgram],
    [CheckErrorCondition], [Step], [Execute] and [NewEngine], with the
    dispatch table of opcode.go.  The debugging callback is absent. *)

From Stdlib Require Import ZArith Lia.
From stdpp Require Import base numbers list.
From S2P Require Import Prelude ScriptNum WireBase WireTx ScriptStack ScriptToken Sighash Taproot ScriptEngine.

Open Scope Z_scope.

Definition MaxStackSize : Z := 1000.

(** The opcodes that make a tapscript succeed at once. *)
Definition successOpcode (op : byte) : bool :=
  bool_decide (op ∈ [80; 98; 126; 127; 128; 129; 131; 132; 133; 134; 137; 138; 141; 142;
                     149; 150; 151; 152; 153]) || ((187 <=? op) && (op <=? 254)).
Definition ScriptHasOpSuccess (script : list byte) : bool :=
  existsb (λ t, successOpcode (t_op t)) (fst (tokens 0 script)).

(** ** Witnesses *)

Definition payToPubKeyHashScript (pubKeyHash : list byte) : list byte * option ErrorCode :=
  Script (AddOp (AddOp (AddData (AddOp (AddOp NewScriptBuilder OP_DUP) OP_HASH160) pubKeyHash)
                       OP_EQUALVERIFY) OP_CHECKSIG).

(** The rest of the fields. *)
Definition set_scriptIdx (n : nat) (vm : Engine) : Engine :=
  mkEngine (flags vm) (tx vm) (txIdx vm) (bip16 vm) (scripts vm) n (opcodeIdx vm)
    (lastCodeSep vm) (tokenizer vm) (savedFirstStack vm) (dstack vm) (astack vm) (condStack vm)
    (numOps vm) (witnessVersion vm) (witnessProgram vm) (taprootCtx vm)
    (hashCache vm) (inputAmount vm) (prevOutFetcher vm).
Definition set_opcodeIdx (n : nat) (vm : Engine) : Engine :=
  mkEngine (flags vm) (tx vm) (txIdx vm) (bip16 vm) (scripts vm) (scriptIdx vm) n
    (lastCodeSep vm) (tokenizer vm) (savedFirstStack vm) (dstack vm) (astack vm) (condStack vm)
    (numOps vm) (witnessVersion vm) (witnessProgram vm) (taprootCtx vm)
    (hashCache vm) (inputAmount vm) (prevOutFetcher vm).
Definition add_script (s : list byte) (vm : Engine) : Engine :=
  mkEngine (flags vm) (tx vm) (txIdx vm) (bip16 vm) (scripts vm ++ [s]) (scriptIdx vm) (opcodeIdx vm)
    (lastCodeSep vm) (tokenizer vm) (savedFirstStack vm) (dstack vm) (astack vm) (condStack vm)
    (numOps vm) (witnessVersion vm) (witnessProgram vm) (taprootCtx vm)
    (hashCache vm) (inputAmount vm) (prevOutFetcher vm).
Definition set_savedFirstStack (s : list (list byte)) (vm : Engine) : Engine :=
  mkEngine (flags vm) (tx vm) (txIdx vm) (bip16 vm) (scripts vm) (scriptIdx vm) (opcodeIdx vm)
    (lastCodeSep vm) (tokenizer vm) s (dstack vm) (astack vm) (condStack vm)
    (numOps vm) (witnessVersion vm) (witnessProgram vm) (taprootCtx vm)
    (hashCache vm) (inputAmount vm) (prevOutFetcher vm).
Definition clear_witnessProgram (vm : Engine) : Engine :=
  mkEngine (flags vm) (tx vm) (txIdx vm) (bip16 vm) (scripts vm) (scriptIdx vm) (opcodeIdx vm)
    (lastCodeSep vm) (tokenizer vm) (savedFirstStack vm) (dstack vm) (astack vm) (condStack vm)
    (numOps vm) (witnessVersion vm) None (taprootCtx vm)
    (hashCache vm) (inputAmount vm) (prevOutFetcher vm).
Definition SetStack (data : list (list byte)) (vm : Engine) : Engine :=
  set_dstack (setStack data (dstack vm)) vm.
Definition GetStack (vm : Engine) : list (list byte) := getStack (dstack vm).

Section Exec.
Context `{Crypto}.

(** ** Dispatch: the [opfunc] column of [opcodeArray] *)
Definition opfunc (op : byte) (data : list byte) : SR Engine () :=
  if op =? OP_0 then push []
  else if (OP_DATA_1 <=? op) && (op <=? OP_PUSHDATA4) then push data
  else if op =? OP_1NEGATE then pushInt (-1)
  else if (OP_1 <=? op) && (op <=? OP_16) then opcodeN op
  else match op with
  | 0x61 => opcodeNop op
  | 0x63 => opcodeIf
  | 0x64 => opcodeNotIf
  | 0x67 => opcodeElse
  | 0x68 => opcodeEndif
  | 0x69 => abstractVerify ErrVerify
  | 0x6a => sr_err ErrEarlyReturn
  | 0x6b => opcodeToAltStack
  | 0x6c => opcodeFromAltStack
  | 0x6d => on_dstack (DropN 2)
  | 0x6e => on_dstack (DupN 2)
  | 0x6f => on_dstack (DupN 3)
  | 0x70 => on_dstack (OverN 2)
  | 0x71 => on_dstack (RotN 2)
  | 0x72 => on_dstack (SwapN 2)
  | 0x73 => opcodeIfDup
  | 0x74 => opcodeDepth
  | 0x75 => on_dstack (DropN 1)
  | 0x76 => on_dstack (DupN 1)
  | 0x77 => on_dstack (NipN 1)
  | 0x78 => on_dstack (OverN 1)
  | 0x79 => opcodePick
  | 0x7a => opcodeRoll
  | 0x7b => on_dstack (RotN 1)
  | 0x7c => on_dstack (SwapN 1)
  | 0x7d => on_dstack Tuck
  | 0x82 => opcodeSize
  | 0x87 => opcodeEqual
  | 0x88 => opcodeEqual;; abstractVerify ErrEqualVerify
  | 0x8b => opcode1Add
  | 0x8c => opcode1Sub
  | 0x8f => opcodeNegate
  | 0x90 => opcodeAbs
  | 0x91 => opcodeNot
  | 0x92 => opcode0NotEqual
  | 0x93 => opcodeAdd
  | 0x94 => opcodeSub
  | 0x9a => opcodeBoolAnd
  | 0x9b => opcodeBoolOr
  | 0x9c => opcodeNumEqual
  | 0x9d => opcodeNumEqual;; abstractVerify ErrNumEqualVerify
  | 0x9e => opcodeNumNotEqual
  | 0x9f => opcodeLessThan
  | 0xa0 => opcodeGreaterThan
  | 0xa1 => opcodeLessThanOrEqual
  | 0xa2 => opcodeGreaterThanOrEqual
  | 0xa3 => opcodeMin
  | 0xa4 => opcodeMax
  | 0xa5 => opcodeWithin
  | 0xa6 => opcodeRipemd160
  | 0xa7 => opcodeSha1
  | 0xa8 => opcodeSha256
  | 0xa9 => opcodeHash160
  | 0xaa => opcodeHash256
  | 0xab => opcodeCodeSeparator
  | 0xac => opcodeCheckSig
  | 0xad => opcodeCheckSig;; abstractVerify ErrCheckSigVerify
  | 0xae => opcodeCheckMultiSig
  | 0xaf => opcodeCheckMultiSig;; abstractVerify ErrCheckMultiSigVerify
  | 0xb0 | 0xb3 | 0xb4 | 0xb5 | 0xb6 | 0xb7 | 0xb8 | 0xb9 => opcodeNop op
  | 0xb1 => opcodeCheckLockTimeVerify
  | 0xb2 => opcodeCheckSequenceVerify
  | 0xba => opcodeCheckSigAdd
  | _ => if isOpcodeDisabled op then sr_err ErrDisabledOpcode else sr_err ErrReservedOpcode
  end.

Definition executeOpcode (op : byte) (data : list byte) : SR Engine () :=
  if isOpcodeDisabled op then sr_err ErrDisabledOpcode
  else if isOpcodeAlwaysIllegal op then sr_err ErrReservedOpcode
  else
  vm0 ← sr_get;
  (if match taprootCtx vm0 with None => true | Some _ => false end && (OP_16 <? op) then
     modify (λ vm, set_numOps (numOps vm + 1) vm);;
     if MaxOpsPerScript <? numOps vm0 + 1 then sr_err ErrTooManyOperations else mret ()
   else if MaxScriptElementSize <? zlen data then sr_err ErrElementTooBig
   else mret ());;
  vm ← sr_get;
  if negb (isBranchExecuting vm) && negb (isOpcodeConditional op) then mret () else
  (if verifyMinimalData (dstack vm) && isBranchExecuting vm && (0 <=? op) && (op <=? OP_PUSHDATA4)
   then sr_check (checkMinimalDataPush op data) else mret ());;
  opfunc op data.

(** ** Ends of scripts *)

Definition CheckErrorCondition (finalScript : bool) : SR Engine () :=
  vm ← sr_get;
  if match taprootCtx vm with Some c => mustSucceed c | None => false end then mret ()
  else if (scriptIdx vm <? length (scripts vm))%nat then sr_err ErrScriptUnfinished
  else if finalScript && isWitnessVersionActive vm BaseSegwitWitnessVersion &&
          negb (Depth (dstack vm) =? 1) then sr_err ErrEvalFalse
  else
  let cleanStackActive := hasFlag vm ScriptVerifyCleanStack ||
                          match taprootCtx vm with Some _ => true | None => false end in
  if finalScript && cleanStackActive && negb (Depth (dstack vm) =? 1) then sr_err ErrCleanStack
  else if Depth (dstack vm) <? 1 then sr_err ErrEmptyStack
  else
  v ← on_dstack PopBool;
  if (v : bool) then mret () else sr_err ErrEvalFalse.

(** The checks at the end of [verifyWitnessProgram]. *)
Definition check_witness_stack : SR Engine () :=
  vm ← sr_get;
  let too_big := existsb (λ e, MaxScriptElementSize <? zlen e) (GetStack vm) in
  if isWitnessVersionActive vm TaprootWitnessVersion then
    if MaxStackSize <? Depth (dstack vm) then sr_err ErrStackOverflow
    else if too_big then sr_err ErrElementTooBig else mret ()
  else if isWitnessVersionActive vm BaseSegwitWitnessVersion then
    if too_big then sr_err ErrElementTooBig else mret ()
  else mret ().

Definition succeed_taproot : SR Engine () :=
  modify (λ vm, set_taprootCtx
    (match taprootCtx vm with
     | Some c => Some (mkTaprootCtx (annex c) (codeSepPos c) (tapLeafHash c) (sigOpsBudget c) true)
     | None => None
     end) vm).

(** A spend through a script leaf: the last element of the witness is the
    control block, the one before it the script. *)
Definition taproot_leaf_spend (program : list byte) (witness : list (list byte)) : SR Engine () :=
  vm ← sr_get;
  let n := length witness in
  let controlBytes := List.last witness [] in
  match ParseControlBlock controlBytes with
  | inr e => sr_err e
  | inl controlBlock =>
      let witnessScript := default [] (witness !! (n - 2)%nat) in
      sr_lift (VerifyTaprootLeafCommitment controlBlock program witnessScript);;
      if ScriptHasOpSuccess witnessScript then
        if hasFlag vm ScriptVerifyDiscourageOpSuccess then sr_err ErrDiscourageOpSuccess
        else succeed_taproot
      else if negb (cb_LeafVersion controlBlock =? BaseLeafVersion) then
        if hasFlag vm ScriptVerifyDiscourageUpgradeableTaprootVersion
        then sr_err ErrDiscourageUpgradeableTaprootVersion
        else succeed_taproot
      else
        sr_check (checkScriptParses 0 witnessScript);;
        modify (λ vm, set_taprootCtx
          (match taprootCtx vm with
           | Some c => Some (mkTaprootCtx (annex c) (codeSepPos c) (leaf_TapHash (NewBaseTapLeaf witnessScript))
                               (sigOpsBudget c)
                               (mustSucceed c))
           | None => None
           end) vm);;
        modify (add_script witnessScript);;
        modify (SetStack (take (n - 2) witness));;
        check_witness_stack
  end.

Definition verifyWitnessProgram (witness : list (list byte)) : SR Engine () :=
  vm ← sr_get;
  let program := default [] (witnessProgram vm) in
  if isWitnessVersionActive vm BaseSegwitWitnessVersion then
    if (length program =? 20)%nat then
      if negb (length witness =? 2)%nat then sr_err ErrWitnessProgramMismatch else
      let '(pkScript, e) := payToPubKeyHashScript program in
      sr_check e;;
      sr_check (checkScriptParses 0 pkScript);;
      modify (add_script pkScript);;
      modify (SetStack witness);;
      check_witness_stack
    else if (length program =? 32)%nat then
      if (length witness =? 0)%nat then sr_err ErrWitnessProgramEmpty else
      let witnessScript := List.last witness [] in
      if MaxScriptSize <? zlen witnessScript then sr_err ErrScriptTooBig
      else if negb (bool_decide (sha256 witnessScript = program)) then sr_err ErrWitnessProgramMismatch
      else
      sr_check (checkScriptParses 0 witnessScript);;
      modify (add_script witnessScript);;
      modify (SetStack (take (length witness - 1) witness));;
      check_witness_stack
    else sr_err ErrWitnessProgramWrongLength
  else if isWitnessVersionActive vm TaprootWitnessVersion && (length program =? 32)%nat &&
          negb (bip16 vm) then
    if negb (hasFlag vm ScriptVerifyTaproot) then mret ()
    else if (length witness =? 0)%nat then sr_err ErrWitnessProgramEmpty
    else
    let annexed := isAnnexedWitness witness in
    modify (set_taprootCtx (Some (mkTaprootCtx
      (extractAnnex witness) blankCodeSepValue zeroHash
      (int32 (sigOpsDelta + int32 (witness_SerializeSize witness))) false)));;
    let witness := if annexed then take (length witness - 1) witness else witness in
    if (length witness =? 1)%nat then
      sr_lift (VerifyTaprootKeySpend (hashCache vm) (prevOutFetcher vm) (tx vm) (txIdx vm) program
                 (hd [] witness));;
      succeed_taproot
    else taproot_leaf_spend program witness
  else if hasFlag vm ScriptVerifyDiscourageUpgradeableWitnessProgram
  then sr_err ErrDiscourageUpgradableWitnessProgram
  else modify clear_witnessProgram;; check_witness_stack.

(** ** [Step] *)

(** The end of a script: what is executed next. *)
Definition next_script : SR Engine () :=
  vm ← sr_get;
  let advance := modify (λ vm, set_scriptIdx (S (scriptIdx vm)) vm) in
  if (scriptIdx vm =? 0)%nat && bip16 vm then
    advance;; modify (λ vm, set_savedFirstStack (GetStack vm) vm)
  else if (scriptIdx vm =? 1)%nat && bip16 vm then
    advance;;
    CheckErrorCondition false;;
    match rev (savedFirstStack vm) with
    | [] => sr_crash
    | script :: _ =>
        sr_check (checkScriptParses 0 script);;
        modify (add_script script);;
        modify (SetStack (take (length (savedFirstStack vm) - 1) (savedFirstStack vm)))
    end
  else if match witnessProgram vm with None => false | Some _ => true end &&
          ((scriptIdx vm =? 1)%nat || ((scriptIdx vm =? 2)%nat && bip16 vm)) then
    advance;;
    match TxIns (tx vm) !! txIdx vm with
    | None => sr_crash
    | Some i => verifyWitnessProgram (Witness i)
    end
  else advance.

(** After the last opcode of a script; the result says whether all is done. *)
Definition end_of_script : SR Engine bool :=
  vm ← sr_get;
  match condStack vm with
  | _ :: _ => sr_err ErrUnbalancedConditional
  | [] =>
      modify (λ vm, set_opcodeIdx 0 (set_numOps 0 (set_astack (with_stk (λ _, []) (astack vm)) vm)));;
      next_script;;
      modify (λ vm, match scripts vm !! scriptIdx vm with
                    | Some [] => set_scriptIdx (S (scriptIdx vm)) vm
                    | _ => vm
                    end);;
      modify (set_lastCodeSep 0);;
      vm ← sr_get;
      match scripts vm !! scriptIdx vm with
      | None => mret true
      | Some s => modify (set_tokenizer (MakeScriptTokenizer 0 s));; mret false
      end
  end.

Definition Step : SR Engine bool :=
  vm ← sr_get;
  if (length (scripts vm) <=? scriptIdx vm)%nat then sr_err ErrInvalidProgramCounter else
  let '(more, t) := Next (tokenizer vm) in
  modify (set_tokenizer t);;
  if negb more then sr_err (default ErrInvalidProgramCounter (t_err t)) else
  executeOpcode (t_op t) (t_data t);;
  vm ← sr_get;
  if MaxStackSize <? Depth (dstack vm) + Depth (astack vm) then sr_err ErrStackOverflow else
  modify (λ vm, set_opcodeIdx (S (opcodeIdx vm)) vm);;
  if Done_tok (tokenizer vm) then end_of_script else mret false.

(** The loop of [Execute]; [None]: out of fuel. *)
Fixpoint run_steps_vm (fuel : nat) (vm : Engine) : option (Res Engine) :=
  match fuel with
  | O => None
  | S k =>
      match Step vm with
      | Ok (true, vm') => Some (Ok vm')
      | Ok (false, vm') => run_steps_vm k vm'
      | Err e => Some (Err e)
      | Crash => Some Crash
      end
  end.

Definition Execute (fuel : nat) (vm : Engine) : option (Res ()) :=
  match run_steps_vm fuel vm with
  | None => None
  | Some (Ok vm') => Some (match CheckErrorCondition true vm' with
                           | Ok _ => Ok () | Err e => Err e | Crash => Crash end)
  | Some (Err e) => Some (Err e)
  | Some Crash => Some Crash
  end.

(** ** [NewEngine] *)

Definition has (fl flag : Z) : bool := Z.testbit fl flag.

(** The witness program the engine is to verify, if any. *)
Definition find_witness_program (fl : Z) (isP2SH : bool) (scriptSig scriptPubKey : list byte)
    (witness : list (list byte)) : Res (option (Z * list byte)) :=
  if negb (has fl ScriptVerifyWitness) then Ok None
  else if negb (has fl ScriptBip16) then Err ErrInvalidFlags
  else
  let extract p := match extractWitnessProgramInfo p with Some i => Ok (Some i) | None => Err ErrOther end in
  if IsWitnessProgram scriptPubKey then
    if negb (length scriptSig =? 0)%nat then Err ErrWitnessMalleated else extract scriptPubKey
  else if negb (length witness =? 0)%nat && isP2SH then
    if (2 <? length scriptSig)%nat && isCanonicalPush (hd 0 scriptSig) (tl scriptSig) &&
       IsWitnessProgram (tl scriptSig)
    then extract (tl scriptSig) else Err ErrWitnessMalleatedP2SH
  else if negb (length witness =? 0)%nat then Err ErrWitnessUnexpected
  else Ok None.

Definition check_script (s : list byte) : Res () :=
  if MaxScriptSize <? zlen s then Err ErrScriptTooBig else check (checkScriptParses 0 s).

Definition NewEngine (scriptPubKey : list byte) (t : MsgTx) (idx : Z) (fl : Z)
    (hashes : option TxSigHashes) (amount : Z) (fetch : PrevOutputFetcher) : Res Engine :=
  if (idx <? 0) || (zlen (TxIns t) <=? idx) then Err ErrInvalidIndex else
  match TxIns t !! Z.to_nat idx with
  | None => Crash
  | Some input =>
      let scriptSig := SignatureScript input in
      if (length scriptSig =? 0)%nat && (length scriptPubKey =? 0)%nat then Err ErrEvalFalse
      else if has fl ScriptVerifyCleanStack &&
              (negb (has fl ScriptBip16) && negb (has fl ScriptVerifyWitness))
      then Err ErrInvalidFlags
      else if has fl ScriptVerifySigPushOnly && negb (IsPushOnlyScript scriptSig)
      then Err ErrNotPushOnly
      else
      let isP2SH := has fl ScriptBip16 && isScriptHashScript scriptPubKey in
      if isP2SH && negb (has fl ScriptVerifySigPushOnly) && negb (IsPushOnlyScript scriptSig)
      then Err ErrNotPushOnly
      else
      check_script scriptSig;;
      check_script scriptPubKey;;
      let start := if (length scriptSig =? 0)%nat then 1%nat else 0%nat in
      let minimal := has fl ScriptVerifyMinimalData in
      wp ← find_witness_program fl isP2SH scriptSig scriptPubKey (Witness input);
      Ok (mkEngine fl t (Z.to_nat idx) isP2SH [scriptSig; scriptPubKey] start 0 0
            (MakeScriptTokenizer 0 (if (length scriptSig =? 0)%nat then scriptPubKey else scriptSig))
            [] (mkStack [] minimal) (mkStack [] minimal) [] 0
            (default 0 (fst <$> wp)) (snd <$> wp) None hashes amount fetch)
  end.
End Exec.
