(* ===== verification/ScriptExecFacts.v ===== *)
(** * Bitcoin script: execution ends, within the limits *)

From Stdlib Require Import ZArith Lia.
From stdpp Require Import base numbers list.
From S2P Require Import Prelude ScriptNum ScriptNumFacts WireBase WireTx ScriptStack ScriptToken ScriptTokenFacts Sighash Taproot.
From S2P Require Import ScriptEngine ScriptExec.

Open Scope Z_scope.

(** ** Relations that an operation respects

    [respects R m]: a successful run of [m] leads to a related state. *)
Definition respects {S A} (R : S → S → Prop) (m : SR S A) : Prop :=
  ∀ s a s', m s = Ok (a, s') → R s s'.

Section Respects.
Context {S : Type} (R : S → S → Prop) `{!Reflexive R} `{!Transitive R}.

Lemma respects_ret {A} (a : A) : respects R (mret a : SR S A).
Proof. by intros s b s' [= <- <-]. Qed.
Lemma respects_err {A} e : respects R (sr_err e : SR S A).
Proof. by intros s b s'. Qed.
Lemma respects_crash {A} : respects R (sr_crash : SR S A).
Proof. by intros s b s'. Qed.
Lemma respects_get : respects R (sr_get : SR S S).
Proof. by intros s b s' [= <- <-]. Qed.
Lemma respects_lift {A} (r : Res A) : respects R (sr_lift r).
Proof. intros s b s'. unfold sr_lift. destruct r; by intros [= <- <-]. Qed.
Lemma respects_check e : respects R (sr_check e).
Proof. apply respects_lift. Qed.
Lemma respects_bind {A B} (m : SR S A) (f : A → SR S B) :
  respects R m → (∀ a, respects R (f a)) → respects R (m ≫= f).
Proof.
  intros Hm Hf s b s'. rewrite sr_bind_ok. intros (a & s1 & H1 & H2).
  etrans; [by eapply Hm|by eapply Hf].
Qed.
Lemma respects_repeat n (m : SR S ()) : respects R m → respects R (sr_repeat n m).
Proof.
  intros Hm. induction n; simpl; [apply respects_ret|]. by apply respects_bind.
Qed.
End Respects.

(** ** What the opcodes leave alone *)

(** The program and its position are the same. *)
Definition framed (vm vm' : Engine) : Prop :=
  flags vm' = flags vm ∧ tx vm' = tx vm ∧ txIdx vm' = txIdx vm ∧ bip16 vm' = bip16 vm ∧
  scripts vm' = scripts vm ∧ scriptIdx vm' = scriptIdx vm ∧ tokenizer vm' = tokenizer vm ∧
  savedFirstStack vm' = savedFirstStack vm ∧ witnessProgram vm' = witnessProgram vm ∧
  witnessVersion vm' = witnessVersion vm.

#[export] Instance framed_refl : Reflexive framed.
Proof. by repeat split. Qed.
#[export] Instance framed_trans : Transitive framed.
Proof. unfold framed. intros x y z. intuition congruence. Qed.

Section Frames.
Context `{Crypto}.

Lemma frame_dstack {A} (m : SR stack A) : respects framed (on_dstack m).
Proof. intros vm a vm'. unfold on_dstack. destruct (m _) as [[]| |]; by intros [= <- <-]. Qed.
Lemma frame_astack {A} (m : SR stack A) : respects framed (on_astack m).
Proof. intros vm a vm'. unfold on_astack. destruct (m _) as [[]| |]; by intros [= <- <-]. Qed.
Lemma frame_modify f : (∀ vm, framed vm (f vm)) → respects framed (modify f).
Proof. intros Hf vm a vm' [= <- <-]. apply Hf. Qed.
Lemma frame_seq : respects framed tx_sequence.
Proof. intros vm a vm'. unfold tx_sequence. destruct (_ !! _); by intros [= <- <-]. Qed.
Lemma frame_tally : respects framed tallysigOp.
Proof.
  intros vm a vm'. unfold tallysigOp. destruct (taprootCtx vm); [|done].
  destruct (_ <? 0); by intros [= <- <-].
Qed.
Lemma frame_tapscript pk s : respects framed (tapscript_verify pk s).
Proof.
  intros vm a vm'. unfold tapscript_verify. destruct (taprootCtx vm); [|done].
  repeat (case_match; try done); try (by intros [= <- <-]).
  destruct (taproot_Verify _ _ _ _ _ _ _ _); simpl; by intros [= <- <-].
Qed.
End Frames.

Ltac respect :=
  repeat first
    [ progress intros
    | match goal with
      | |- respects _ (_ ≫= _) => apply respects_bind; [apply _..| |]
      | |- respects _ (mret _) => apply respects_ret; apply _
      | |- respects _ (sr_err _) => apply respects_err
      | |- respects _ sr_crash => apply respects_crash
      | |- respects _ sr_get => apply respects_get; apply _
      | |- respects _ (sr_lift _) => apply respects_lift; apply _
      | |- respects _ (sr_check _) => apply respects_check; apply _
      | |- respects _ (let '(_, _) := ?x in _) => destruct x
      | |- respects _ (match ?x with _ => _ end) => destruct x
      end ].

Section OpcodeFrames.
Context `{Crypto}.

Lemma frame_pop_n n : respects framed (pop_n n).
Proof. induction n; simpl; respect; try done; apply frame_dstack. Qed.

Ltac frame :=
  respect;
  auto using frame_dstack, frame_astack, frame_seq, frame_tally, frame_tapscript, frame_pop_n;
  try (by apply frame_modify).

Lemma frame_checksig : respects framed opcodeCheckSig.
Proof. unfold opcodeCheckSig, checksig_base, checksig_result, pop, push, pushBool. frame. Qed.
Lemma frame_checkmultisig : respects framed opcodeCheckMultiSig.
Proof. unfold opcodeCheckMultiSig, popInt, pop, pushBool. frame. Qed.
Lemma frame_if want : respects framed (opcode_if want).
Proof. unfold opcode_if, popIfBool, push_cond, pop. frame. Qed.
End OpcodeFrames.

(** ** Case analysis on the opcode table *)

(** The operations that only move and copy items. *)
Inductive stack_op : SR stack () → Prop :=
| so_drop n : stack_op (DropN n)
| so_dup n : stack_op (DupN n)
| so_over n : stack_op (OverN n)
| so_rot n : stack_op (RotN n)
| so_swap n : stack_op (SwapN n)
| so_nip n : stack_op (NipN n)
| so_tuck : stack_op Tuck.

Inductive hash_op `{Crypto} : SR Engine () → Prop :=
| ho_ripemd : hash_op opcodeRipemd160
| ho_sha1 : hash_op opcodeSha1
| ho_sha256 : hash_op opcodeSha256
| ho_hash160 : hash_op opcodeHash160
| ho_hash256 : hash_op opcodeHash256.

(** A property of all the opcode functions. *)
Record opcodes_have `{Crypto} (P : SR Engine () → Prop) : Prop := mkHave {
  h_int : ∀ n, -1 ≤ n ≤ 16 → P (pushInt n);
  h_nop : ∀ op, P (opcodeNop op);
  h_if : ∀ want, P (opcode_if want);
  h_else : P opcodeElse;
  h_endif : P opcodeEndif;
  h_verify : ∀ e, P (abstractVerify e);
  h_err : ∀ e, P (sr_err e);
  h_toalt : P opcodeToAltStack;
  h_fromalt : P opcodeFromAltStack;
  h_stack : ∀ m, stack_op m → P (on_dstack m);
  h_ifdup : P opcodeIfDup;
  h_depth : P opcodeDepth;
  h_pick : P opcodePick;
  h_roll : P opcodeRoll;
  h_size : P opcodeSize;
  h_equal : P opcodeEqual;
  h_unary : ∀ f, P (unary f);
  h_binary : ∀ f, P (binary f);
  h_within : P opcodeWithin;
  h_hash : ∀ m, hash_op m → P m;
  h_codesep : P opcodeCodeSeparator;
  h_checksig : P opcodeCheckSig;
  h_checkmultisig : P opcodeCheckMultiSig;
  h_checksigadd : P opcodeCheckSigAdd;
  h_cltv : P opcodeCheckLockTimeVerify;
  h_csv : P opcodeCheckSequenceVerify;
  h_seq : ∀ m e, P m → P (m;; abstractVerify e)
}.

#[export] Hint Constructors stack_op hash_op : orca.

Lemma opfunc_have `{Crypto} (P : SR Engine () → Prop) op data :
  opcodes_have P → P (push []) → P (push data) → P (opfunc op data).
Proof.
  intros HP H0 Hd. destruct HP. unfold opfunc.
  destruct (op =? OP_0); [done|]. destruct ((OP_DATA_1 <=? op) && _); [done|].
  destruct (op =? OP_1NEGATE); [apply h_int0; lia|].
  destruct ((OP_1 <=? op) && (op <=? OP_16)) eqn:En.
  { apply andb_true_iff in En as [E1%Z.leb_le E2%Z.leb_le]. unfold OP_1, OP_16 in *.
    apply h_int0. unfold OP_1. lia. }
  assert (∀ e e' : ErrorCode, P (if isOpcodeDisabled op then sr_err e else sr_err e')) as Hdef
    by (intros; destruct (isOpcodeDisabled op); auto).
  destruct op as [|p|p]; [apply Hdef| |apply Hdef].
  do 8 (try (destruct p as [p|p|]; try (by apply Hdef);
             try (by auto 2 with orca))).
  all: try (by apply Hdef).
  all: unfold opcodeIf, opcodeNotIf; first [by auto with orca | by apply h_unary0 | by apply h_binary0
    | by apply h_seq0, h_binary0].
Qed.

Section OpcodeFrames2.
Context `{Crypto}.

Ltac frame :=
  respect;
  auto using frame_dstack, frame_astack, frame_seq, frame_tally, frame_tapscript, frame_pop_n,
    frame_checksig, frame_checkmultisig, frame_if;
  try (by apply frame_modify).

Lemma opcodes_frame : opcodes_have (respects framed).
Proof.
  split; intros;
    unfold pushInt, opcodeNop, opcodeElse, opcodeEndif, abstractVerify, opcodeToAltStack,
      opcodeFromAltStack, opcodeIfDup, opcodeDepth, opcodePick, opcodeRoll, opcodeSize,
      opcodeEqual, unary, binary, opcodeWithin, opcodeCodeSeparator, opcodeCheckSigAdd,
      opcodeCheckLockTimeVerify, opcodeCheckSequenceVerify, peek_num5, popInt, pop, push, pushInt,
      pushBool; try (by frame).
  destruct H0; unfold opcodeRipemd160, opcodeSha1, opcodeSha256, opcodeHash160, opcodeHash256,
    hash_top, pop, push; frame.
Qed.

Lemma frame_opfunc op data : respects framed (opfunc op data).
Proof. apply opfunc_have; [apply opcodes_frame|apply frame_dstack..]. Qed.

Lemma frame_executeOpcode op data : respects framed (executeOpcode op data).
Proof. unfold executeOpcode. frame; apply frame_opfunc. Qed.

Lemma frame_CheckErrorCondition b : respects framed (CheckErrorCondition b).
Proof. unfold CheckErrorCondition. frame. Qed.
End OpcodeFrames2.

(** ** Progress *)

Lemma Next_progress t t' :
  Next t = (true, t') →
  t_script t' = t_script t ∧ (t_offset t < t_offset t')%nat ∧
  (t_offset t < length (t_script t))%nat ∧ t_err t' = None.
Proof.
  unfold Next. destruct (Done_tok t) eqn:Ed; [by intros [=]|].
  assert (t_offset t < length (t_script t))%nat as Ho.
  { unfold Done_tok in Ed. destruct (t_err t); [done|]. by apply Nat.leb_gt in Ed. }
  destruct (drop (t_offset t) (t_script t)) as [|op rest]; [by intros [=]|].
  destruct (opcode_length op =? 1) eqn:E1; [intros [= <-]; simpl; split_and!; try done; lia|].
  destruct (1 <? opcode_length op) eqn:E2.
  - destruct (zlen (op :: rest) <? opcode_length op); [by intros [=]|]. intros [= <-]. apply Z.ltb_lt in E2.
    simpl. split_and!; try done; lia.
  - destruct (_ <? - _); [by intros [=]|]. destruct (_ || _); [by intros [=]|]. intros [= <-].
    cbn [tok_advance t_script t_offset t_err]. split_and!; try done; lia.
Qed.

(** The position is the same, whatever the scripts. *)
Definition same_idx (vm vm' : Engine) : Prop := scriptIdx vm' = scriptIdx vm.
#[export] Instance same_idx_refl : Reflexive same_idx.
Proof. done. Qed.
#[export] Instance same_idx_trans : Transitive same_idx.
Proof. unfold same_idx. intros x y z. congruence. Qed.

Lemma respects_weaken {S A} (R R' : S → S → Prop) (m : SR S A) :
  (∀ s s', R s s' → R' s s') → respects R m → respects R' m.
Proof. intros HR Hm s a s' Hs. by eapply HR, Hm. Qed.

Section Progress.
Context `{Crypto}.

Lemma idx_modify f : (∀ vm, scriptIdx (f vm) = scriptIdx vm) → respects same_idx (modify f).
Proof. intros Hf vm a vm' [= <- <-]. apply Hf. Qed.
Lemma idx_check_witness : respects same_idx check_witness_stack.
Proof. unfold check_witness_stack. respect. Qed.
Lemma idx_succeed : respects same_idx succeed_taproot.
Proof. by apply idx_modify. Qed.

Ltac same :=
  respect; auto using idx_check_witness, idx_succeed; try (by apply idx_modify).

Lemma idx_verifyWitnessProgram w : respects same_idx (verifyWitnessProgram w).
Proof. unfold verifyWitnessProgram, taproot_leaf_spend. same. Qed.
Lemma idx_CheckErrorCondition b : respects same_idx (CheckErrorCondition b).
Proof.
  eapply respects_weaken; [|apply frame_CheckErrorCondition]. unfold framed, same_idx. intuition.
Qed.

Lemma next_script_spec vm vm' :
  next_script vm = Ok ((), vm') →
  scriptIdx vm' = S (scriptIdx vm) ∧ ((3 ≤ scriptIdx vm)%nat → scripts vm' = scripts vm).
Proof.
  unfold next_script. rewrite sr_bind_ok. intros (v & vm0 & [= <- <-] & Hrun). revert Hrun.
  cbv zeta.
  destruct ((scriptIdx vm =? 0)%nat && bip16 vm) eqn:E0.
  { rewrite sr_bind_ok. intros ([] & vm1 & [= <-] & [= <-]). done. }
  destruct ((scriptIdx vm =? 1)%nat && bip16 vm) eqn:E1.
  { apply andb_true_iff in E1 as [E1%Nat.eqb_eq _].
    rewrite sr_bind_ok. intros ([] & vm1 & [= <-] & Hrun). split; [|lia].
    assert (respects same_idx (CheckErrorCondition false;;
      match rev (savedFirstStack vm) with
      | [] => sr_crash
      | script :: _ =>
          sr_check (checkScriptParses 0 script);; modify (add_script script);;
          modify (SetStack (take (length (savedFirstStack vm) - 1) (savedFirstStack vm)))
      end)) as Hr by (respect; auto using idx_CheckErrorCondition; by apply idx_modify).
    by apply Hr in Hrun. }
  destruct (match witnessProgram vm with None => false | Some _ => true end && _) eqn:E2.
  { rewrite sr_bind_ok. intros ([] & vm1 & [= <-] & Hrun). split.
    - assert (respects same_idx (match TxIns (tx vm) !! txIdx vm with
                                 | None => sr_crash | Some i => verifyWitnessProgram (Witness i) end))
        as Hr by (respect; apply idx_verifyWitnessProgram). by apply Hr in Hrun.
    - intros Hge. exfalso. apply andb_true_iff in E2 as [_ E2].
      apply orb_true_iff in E2 as [E2%Nat.eqb_eq|[E2%Nat.eqb_eq _]%andb_true_iff]; lia. }
  intros [= <-]. done.
Qed.

Lemma end_of_script_spec vm d vm' :
  end_of_script vm = Ok (d, vm') →
  (scriptIdx vm < scriptIdx vm')%nat ∧ ((3 ≤ scriptIdx vm)%nat → scripts vm' = scripts vm).
Proof.
  unfold end_of_script. rewrite sr_bind_ok. intros (v & vm0 & [= <- <-] & Hrun). revert Hrun.
  destruct (condStack vm); [|done].
  rewrite sr_bind_ok. intros ([] & vm1 & [= <-] & Hrun). revert Hrun.
  rewrite sr_bind_ok. intros ([] & vm2 & Hnext & Hrun).
  apply next_script_spec in Hnext as [Hi Hs]. simpl in Hi, Hs. revert Hrun.
  rewrite sr_bind_ok. intros ([] & vm3 & [= <-] & Hrun). revert Hrun.
  rewrite sr_bind_ok. intros ([] & vm4 & [= <-] & Hrun). revert Hrun.
  rewrite sr_bind_ok. intros (v5 & vm5 & [= <- <-] & Hrun). revert Hrun. simpl.
  set (vm3 := match scripts vm2 !! scriptIdx vm2 with Some [] => _ | _ => _ end).
  assert ((scriptIdx vm2 ≤ scriptIdx vm3)%nat ∧ scripts vm3 = scripts vm2) as [H3 H4].
  { unfold vm3. destruct (scripts vm2 !! scriptIdx vm2) as [[|? ?]|]; simpl; auto with lia. }
  intros Hrun.
  assert (scriptIdx vm' = scriptIdx vm3 ∧ scripts vm' = scripts vm3) as [H5 H6].
  { simpl in Hrun. destruct (scripts vm3 !! scriptIdx vm3).
    - revert Hrun. rewrite sr_bind_ok. intros ([] & vm6 & [= <-] & [= <- <-]). done.
    - by injection Hrun as <- <-. }
  split; [lia|]. intros Hge. rewrite H6, H4. by apply Hs.
Qed.

Lemma Step_inv vm d vm' :
  Step vm = Ok (d, vm') →
  ∃ t vm1, (scriptIdx vm < length (scripts vm))%nat ∧ Next (tokenizer vm) = (true, t) ∧
    executeOpcode (t_op t) (t_data t) (set_tokenizer t vm) = Ok ((), vm1) ∧
    Depth (dstack vm1) + Depth (astack vm1) ≤ MaxStackSize ∧
    if Done_tok t then end_of_script (set_opcodeIdx (S (opcodeIdx vm1)) vm1) = Ok (d, vm')
    else d = false ∧ vm' = set_opcodeIdx (S (opcodeIdx vm1)) vm1.
Proof.
  unfold Step. rewrite sr_bind_ok. intros (v & vm0 & [= <- <-] & Hrun). revert Hrun.
  destruct (_ <=? _)%nat eqn:El; [done|]. apply Nat.leb_gt in El.
  destruct (Next (tokenizer vm)) as [more t] eqn:En. cbv beta iota zeta.
  rewrite sr_bind_ok. intros ([] & vm0 & [= <-] & Hrun). revert Hrun.
  destruct more; [|done]. change (negb true) with false. cbv iota.
  rewrite sr_bind_ok. intros ([] & vm1 & Hex & Hrun). revert Hrun.
  rewrite sr_bind_ok. intros (v1 & vm2 & [= <- <-] & Hrun). revert Hrun.
  destruct (MaxStackSize <? _) eqn:Ed; [done|]. apply Z.ltb_ge in Ed.
  rewrite sr_bind_ok. intros ([] & vm3 & [= <-] & Hrun).
  exists t, vm1. split_and!; [done..|].
  assert (tokenizer vm1 = t) as Ht by (apply frame_executeOpcode in Hex; unfold framed in Hex; intuition).
  rewrite Ht in Hrun. destruct (Done_tok t); [done|]. by injection Hrun as <- <-.
Qed.

Definition rem (vm : Engine) : nat := length (t_script (tokenizer vm)) - t_offset (tokenizer vm).

(** A step consumes a byte of its script, or goes on to a later script. *)
Lemma Step_progress vm d vm' :
  Step vm = Ok (d, vm') →
  (scriptIdx vm < length (scripts vm))%nat ∧
  (scriptIdx vm' = scriptIdx vm ∧ scripts vm' = scripts vm ∧ (rem vm' < rem vm)%nat ∨
   (scriptIdx vm < scriptIdx vm')%nat ∧ ((3 ≤ scriptIdx vm)%nat → scripts vm' = scripts vm)).
Proof.
  intros Hstep. apply Step_inv in Hstep as (t & vm1 & Hl & Hn & Hex & _ & Hrest).
  split; [done|]. apply frame_executeOpcode in Hex.
  destruct Hex as (_ & _ & _ & _ & Hsc & Hidx & Htok & _). simpl in *.
  destruct (Done_tok t).
  - right. apply end_of_script_spec in Hrest as [H1 H2]. simpl in *. rewrite Hidx, Hsc in *. done.
  - left. destruct Hrest as [_ ->]. simpl. split_and!; [done..|]. unfold rem. simpl. rewrite Htok.
    apply Next_progress in Hn as (Hs & Hlt & Hlen & _). rewrite Hs. lia.
Qed.

Lemma run_ends vm : ∃ fuel r, run_steps_vm fuel vm = Some r.
Proof.
  assert (∀ a b c vm, (3 - scriptIdx vm = a)%nat → (length (scripts vm) - scriptIdx vm = b)%nat →
            rem vm = c → ∃ fuel r, run_steps_vm fuel vm = Some r) as Hall; [|by eapply Hall].
  clear vm. intros a. induction a as [a IHa] using lt_wf_ind.
  intros b. induction b as [b IHb] using lt_wf_ind.
  intros c. induction c as [c IHc] using lt_wf_ind. intros vm Ha Hb Hc.
  destruct (Step vm) as [[[] vm']|e|] eqn:E.
  - exists 1%nat. simpl. rewrite E. by eexists.
  - assert (∃ fuel r, run_steps_vm fuel vm' = Some r) as (fuel & r & Hr).
    { apply Step_progress in E as [Hlt [(Hi & Hs & Hrem)|(Hi & Hs)]].
      - eapply (IHc (rem vm')); [lia| | |done]; rewrite Hi, ?Hs; lia.
      - destruct (Nat.lt_ge_cases (scriptIdx vm) 3) as [H3|H3].
        + eapply (IHa (3 - scriptIdx vm')%nat); [lia|done..].
        + eapply (IHb (length (scripts vm') - scriptIdx vm')%nat); [rewrite Hs by done; lia|lia|done..]. }
    exists (S fuel), r. simpl. by rewrite E.
  - exists 1%nat. simpl. rewrite E. by eexists.
  - exists 1%nat. simpl. rewrite E. by eexists.
Qed.

Lemma run_more fuel fuel' vm r :
  run_steps_vm fuel vm = Some r → (fuel ≤ fuel')%nat → run_steps_vm fuel' vm = Some r.
Proof.
  revert fuel' vm. induction fuel as [|k IH]; intros fuel' vm; [done|].
  destruct fuel' as [|k']; [lia|]. simpl. destruct (Step vm) as [[[] vm']|e|]; try done.
  intros Hr Hle. apply IH; [done|lia].
Qed.

(** C38. [Execute] always ends: for every engine there is a number of steps
    after which it has its result, and more steps do not change it. *)
Theorem Execute_terminates vm :
  ∃ fuel r, ∀ fuel', (fuel ≤ fuel')%nat → Execute fuel' vm = Some r.
Proof.
  destruct (run_ends vm) as (fuel & r & Hr). exists fuel. unfold Execute.
  destruct r as [vm'|e|]; eexists; intros fuel' Hf; by rewrite (run_more _ _ _ _ Hr Hf).
Qed.
End Progress.
