(* ===== verification/ScriptLimits.v ===== *)
(** * Bitcoin script: the resource limits

    What holds after every step of an engine: the sizes of elements, the
    number of operations and, but for the start of a version 0 witness script,
    the number of items. *)

From Stdlib Require Import ZArith Lia.
From stdpp Require Import base numbers list relations.
From S2P Require Import Prelude ScriptNum ScriptNumFacts WireBase WireTx ScriptStack ScriptToken ScriptTokenFacts Sighash Taproot.
From S2P Require Import ScriptEngine ScriptExec ScriptExecFacts.

Open Scope Z_scope.

(** ** An invariant with a postcondition on the result *)

Definition keeps {S A} (I : S → Prop) (Q : A → Prop) (m : SR S A) : Prop :=
  ∀ s a s', I s → m s = Ok (a, s') → I s' ∧ Q a.

Section Keeps.
Context {S : Type} (I : S → Prop).

Lemma vm_keeps_ret {A} (Q : A → Prop) a : Q a → keeps I Q (mret a).
Proof. by intros HQ s b s' Hs [= <- <-]. Qed.
Lemma vm_keeps_err {A} (Q : A → Prop) e : keeps I Q (sr_err e).
Proof. by intros s b s'. Qed.
Lemma vm_keeps_crash {A} (Q : A → Prop) : keeps I Q sr_crash.
Proof. by intros s b s'. Qed.
Lemma vm_keeps_get : keeps I I sr_get.
Proof. by intros s b s' Hs [= <- <-]. Qed.
Lemma vm_keeps_lift {A} (r : Res A) : keeps I (λ _, True) (sr_lift r).
Proof. intros s b s' Hs. unfold sr_lift. destruct r; by intros [= <- <-]. Qed.
Lemma vm_keeps_bind {A B} (Q : A → Prop) (Q' : B → Prop) (m : SR S A) (f : A → SR S B) :
  keeps I Q m → (∀ a, Q a → keeps I Q' (f a)) → keeps I Q' (m ≫= f).
Proof.
  intros Hm Hf s b s' Hs. rewrite sr_bind_ok. intros (a & s1 & H1 & H2).
  destruct (Hm _ _ _ Hs H1) as [Hs1 Ha]. by eapply Hf.
Qed.
Lemma vm_keeps_weaken {A} (Q Q' : A → Prop) (m : SR S A) :
  (∀ a, Q a → Q' a) → keeps I Q m → keeps I Q' m.
Proof. intros HQ Hm s a s' Hs Hr. destruct (Hm _ _ _ Hs Hr). auto. Qed.
Lemma vm_keeps_repeat n (m : SR S ()) :
  keeps I (λ _, True) m → keeps I (λ _, True) (sr_repeat n m).
Proof.
  intros Hm. induction n; simpl; [by apply vm_keeps_ret|]. by eapply vm_keeps_bind.
Qed.
End Keeps.

(** ** Element sizes *)

Definition small (x : list byte) : Prop := zlen x ≤ MaxScriptElementSize.
Definition stack_small (s : stack) : Prop := Forall small (stk s).
Abbreviation any := (λ _, True).

Lemma nipN_keeps i : keeps stack_small small (nipN i).
Proof.
  intros s a s' Hs. unfold nipN. destruct (_ || _); [done|].
  destruct (stk s !! Z.to_nat i) eqn:E; [|done]. intros [= <- <-]. split.
  - by apply Forall_delete.
  - by eapply Forall_lookup_1.
Qed.
Lemma Peek_keeps i : keeps stack_small small (PeekByteArray i).
Proof.
  intros s a s' Hs. unfold PeekByteArray. destruct (_ || _); [done|].
  destruct (stk s !! Z.to_nat i) eqn:E; [|done]. intros [= <- <-]. split; [done|].
  by eapply Forall_lookup_1.
Qed.
Lemma Push_keeps x : small x → keeps stack_small any (PushByteArray x).
Proof. intros Hx s a s' Hs [= <- <-]. split; [|done]. by constructor. Qed.
Lemma make_num_keeps x n : keeps stack_small any (make_num x n).
Proof. intros s a s' Hs. unfold make_num. destruct (MakeScriptNum _ _ _); by intros [= <- <-]. Qed.

Lemma le_bytes_length k n : (length (le_bytes k n) ≤ k)%nat.
Proof. revert n. induction k; intros n; simpl; [lia|]. destruct (0 <? n); simpl; [|lia]. specialize (IHk (Z.shiftr n 8)). lia. Qed.
Lemma Bytes_small n v : Bytes n = Ok v → small v.
Proof.
  unfold Bytes, small, MaxScriptElementSize. destruct (n =? 0); [by intros [= <-]|].
  generalize (if n <? 0 then int64 (- n) else n). intros m.
  pose proof (le_bytes_length 8 m) as Hl. revert Hl. generalize (le_bytes 8 m). intros l Hl.
  destruct (rev l) as [|b rest] eqn:E; [done|].
  assert (length l = S (length rest)) as E' by (by rewrite <- length_rev, E).
  destruct (negb _); [intros [= <-]; rewrite length_app; cbn [length]; lia|].
  destruct (n <? 0); intros [= <-]; [rewrite length_app, length_rev; cbn [length]; lia|lia].
Qed.
Lemma PushInt_keeps n : keeps stack_small any (PushInt n).
Proof.
  intros s a s' Hs. unfold PushInt. rewrite sr_bind_ok. intros (b & s1 & H1 & H2).
  unfold sr_lift in H1. destruct (Bytes n) eqn:E; try done. injection H1 as <- <-.
  by eapply (Push_keeps _ (Bytes_small _ _ E)).
Qed.
Lemma PushBool_keeps b : keeps stack_small any (PushBool b).
Proof. apply Push_keeps. unfold small, MaxScriptElementSize. by destruct b; simpl. Qed.

Lemma move_keeps m : keeps stack_small small m → keeps stack_small any (so ← m; PushByteArray so).
Proof. intros Hm. eapply vm_keeps_bind; [done|]. intros x Hx. by apply Push_keeps. Qed.

Lemma stack_op_keeps m : stack_op m → keeps stack_small any m.
Proof.
  intros Hm. destruct Hm; unfold DropN, DupN, OverN, RotN, SwapN, NipN, Tuck;
    try (destruct (_ <? 1); [apply vm_keeps_err|apply vm_keeps_repeat]);
    try (apply move_keeps; auto using nipN_keeps, Peek_keeps).
  - eapply vm_keeps_bind; [apply nipN_keeps|]. intros. by apply vm_keeps_ret.
  - eapply vm_keeps_bind; [apply nipN_keeps|]. intros. by apply vm_keeps_ret.
  - eapply vm_keeps_bind; [apply nipN_keeps|]. intros x Hx.
    eapply vm_keeps_bind; [apply nipN_keeps|]. intros y Hy.
    eapply vm_keeps_bind; [by apply Push_keeps|]. intros _ _.
    eapply vm_keeps_bind; [by apply Push_keeps|]. intros _ _. by apply Push_keeps.
Qed.

(** ** The engine *)

(** Every element is at most 520 bytes and at most 201 operations were counted. *)
Definition within (vm : Engine) : Prop :=
  stack_small (dstack vm) ∧ stack_small (astack vm) ∧ Forall small (savedFirstStack vm) ∧
  numOps vm ≤ MaxOpsPerScript.

Lemma dstack_keeps {A} (Q : A → Prop) m : keeps stack_small Q m → keeps within Q (on_dstack m).
Proof.
  intros Hm vm a vm' (Hd & Ha & Hs & Hn). unfold on_dstack.
  destruct (m (dstack vm)) as [[x s]|e|] eqn:E; [|done..]. intros [= <- <-].
  destruct (Hm _ _ _ Hd E) as [? ?]. by repeat split.
Qed.
Lemma astack_keeps {A} (Q : A → Prop) m : keeps stack_small Q m → keeps within Q (on_astack m).
Proof.
  intros Hm vm a vm' (Hd & Ha & Hs & Hn). unfold on_astack.
  destruct (m (astack vm)) as [[x s]|e|] eqn:E; [|done..]. intros [= <- <-].
  destruct (Hm _ _ _ Ha E) as [? ?]. by repeat split.
Qed.
Lemma modify_keeps f : (∀ vm, within vm → within (f vm)) → keeps within any (modify f).
Proof. intros Hf vm a vm' Hs [= <- <-]. auto. Qed.

(** Counting operations, with the limit checked. *)
Lemma count_keeps {A} (Q : A → Prop) n K :
  (∀ vm, keeps within Q (K vm)) →
  keeps within Q (modify (λ vm, set_numOps (numOps vm + n) vm);; vm ← sr_get;
                  if MaxOpsPerScript <? numOps vm then sr_err ErrTooManyOperations else K vm).
Proof.
  intros HK vm a vm' (Hd & Ha & Hs & _). rewrite sr_bind_ok. intros ([] & vm1 & [= <-] & Hrun).
  revert Hrun. rewrite sr_bind_ok. intros (v & vm1 & [= <- <-] & Hrun). revert Hrun.
  destruct (MaxOpsPerScript <? _) eqn:E; [done|]. apply Z.ltb_ge in E. apply HK. by repeat split.
Qed.

Section Leaves.
Context `{Crypto}.

Lemma pop_keeps : keeps within small pop.
Proof. apply dstack_keeps, nipN_keeps. Qed.
Lemma popInt_keeps : keeps within any popInt.
Proof.
  apply dstack_keeps. eapply vm_keeps_bind; [apply nipN_keeps|]. intros; apply make_num_keeps.
Qed.
Lemma popBool_keeps : keeps within any (on_dstack PopBool).
Proof. apply dstack_keeps. eapply vm_keeps_bind; [apply nipN_keeps|]. intros. by apply vm_keeps_ret. Qed.
Lemma push_keeps x : small x → keeps within any (push x).
Proof. intros Hx. by apply dstack_keeps, Push_keeps. Qed.
Lemma pushInt_keeps n : keeps within any (pushInt n).
Proof. apply dstack_keeps, PushInt_keeps. Qed.
Lemma pushBool_keeps b : keeps within any (pushBool b).
Proof. apply dstack_keeps, PushBool_keeps. Qed.
Lemma peek_keeps i : keeps within small (on_dstack (PeekByteArray i)).
Proof. apply dstack_keeps, Peek_keeps. Qed.
Lemma pickn_keeps i : keeps within any (on_dstack (PickN i)).
Proof. apply dstack_keeps, move_keeps, Peek_keeps. Qed.
Lemma rolln_keeps i : keeps within any (on_dstack (RollN i)).
Proof. apply dstack_keeps, move_keeps, nipN_keeps. Qed.
Lemma pop_n_keeps n : keeps within any (pop_n n).
Proof.
  induction n; simpl; [by apply vm_keeps_ret|]. eapply vm_keeps_bind; [apply pop_keeps|]. intros.
  eapply vm_keeps_bind; [done|]. intros. by apply vm_keeps_ret.
Qed.
Lemma seq_keeps : keeps within any tx_sequence.
Proof. intros vm a vm' Hs. unfold tx_sequence. destruct (_ !! _); by intros [= <- <-]. Qed.
Lemma num5_keeps : keeps within any peek_num5.
Proof.
  apply dstack_keeps. eapply vm_keeps_bind; [apply Peek_keeps|]. intros; apply make_num_keeps.
Qed.
Lemma tally_keeps : keeps within any tallysigOp.
Proof.
  intros vm a vm' Hs. unfold tallysigOp. destruct (taprootCtx vm); [|done].
  destruct (_ <? 0); by intros [= <- <-].
Qed.
Lemma tapscript_keeps pk s : keeps within any (tapscript_verify pk s).
Proof.
  intros vm a vm' Hs. unfold tapscript_verify. destruct (taprootCtx vm); [|done].
  repeat (case_match; try done); try (by intros [= <- <-]).
  destruct (taproot_Verify _ _ _ _ _ _ _ _); simpl; by intros [= <- <-].
Qed.
End Leaves.

Ltac keep_leaf :=
  first
    [ apply pop_keeps | apply popInt_keeps | apply popBool_keeps | apply pushInt_keeps
    | apply pushBool_keeps | apply peek_keeps | apply pickn_keeps | apply rolln_keeps
    | apply pop_n_keeps | apply seq_keeps | apply num5_keeps | apply tally_keeps
    | apply tapscript_keeps | (apply push_keeps; done) | apply vm_keeps_err | apply vm_keeps_crash
    | apply (astack_keeps small); apply nipN_keeps | (apply astack_keeps, Push_keeps; done)
    | (apply vm_keeps_ret; done) | apply vm_keeps_lift | apply vm_keeps_get
    | (apply modify_keeps; by intros ? (?&?&?&?)) ].
Ltac keep :=
  repeat first
    [ progress intros
    | apply count_keeps
    | match goal with
      | |- keeps _ _ (_ ≫= _) => eapply vm_keeps_bind
      | |- keeps _ _ (match ?x with _ => _ end) => destruct x
      end
    | keep_leaf ].

Section Limits.
Context `{Crypto}.
(** The digests are short. *)
Hypothesis hash_small : ∀ x, small (ripemd160 x) ∧ small (sha1 x) ∧ small (sha256 x).

Lemma checksig_keeps : keeps within any opcodeCheckSig.
Proof. unfold opcodeCheckSig, checksig_base, checksig_result. keep. Qed.
Lemma multisig_keeps : keeps within any opcodeCheckMultiSig.
Proof. unfold opcodeCheckMultiSig. keep. Qed.

Lemma opcodes_keep : opcodes_have (keeps within any).
Proof.
  split; intros;
    unfold opcodeNop, opcode_if, popIfBool, push_cond, opcodeElse, opcodeEndif, abstractVerify,
      opcodeToAltStack, opcodeFromAltStack, opcodeIfDup, opcodeDepth, opcodePick, opcodeRoll,
      opcodeSize, opcodeEqual, unary, binary, opcodeWithin, opcodeCodeSeparator, opcodeCheckSigAdd,
      opcodeCheckLockTimeVerify, opcodeCheckSequenceVerify;
    try (by keep); auto using checksig_keeps, multisig_keeps.
  - by apply dstack_keeps, stack_op_keeps.
  - destruct H0; unfold opcodeRipemd160, opcodeSha1, opcodeSha256, opcodeHash160, opcodeHash256,
      hash_top; (eapply vm_keeps_bind; [apply pop_keeps|]); intros; apply push_keeps, hash_small.
Qed.

Lemma opfunc_keeps op data : (op ≤ OP_16 → small data) → keeps within any (opfunc op data).
Proof.
  intros Hd. destruct (Z.le_gt_cases op OP_16) as [Hop|Hop].
  - apply opfunc_have; [apply opcodes_keep|by apply push_keeps|auto using push_keeps].
  - assert (opfunc op data = opfunc op []) as ->.
    { unfold opfunc. unfold OP_16 in Hop. rewrite (proj2 (Z.leb_gt op OP_PUSHDATA4)) by (unfold OP_PUSHDATA4; lia).
      by rewrite andb_false_r. }
    apply opfunc_have; [apply opcodes_keep|by apply push_keeps..].
Qed.

Lemma executeOpcode_keeps op data : (OP_16 < op → data = []) → keeps within any (executeOpcode op data).
Proof.
  intros Hnil. unfold executeOpcode. destruct (isOpcodeDisabled op); [apply vm_keeps_err|].
  destruct (isOpcodeAlwaysIllegal op); [apply vm_keeps_err|].
  intros vm a vm' Hvm. rewrite sr_bind_ok. intros (v & vm0 & [= <- <-] & Hrun). revert Hrun.
  rewrite sr_bind_ok. intros ([] & vm1 & Hcount & Hrun).
  assert (within vm1 ∧ (op ≤ OP_16 → small data)) as [H1 Hd].
  { destruct (match taprootCtx vm with None => true | _ => false end && (OP_16 <? op)) eqn:E.
    - apply andb_true_iff in E as [_ E%Z.ltb_lt]. split; [|lia].
      revert Hcount. rewrite sr_bind_ok. intros ([] & vm2 & [= <-] & Hrest).
      destruct (MaxOpsPerScript <? _) eqn:E2; [done|]. apply Z.ltb_ge in E2. injection Hrest as <-.
      destruct Hvm as (? & ? & ? & ?). by repeat split.
    - destruct (MaxScriptElementSize <? zlen data) eqn:E2; [done|]. apply Z.ltb_ge in E2.
      by injection Hcount as <-. }
  refine (vm_keeps_bind within within any _ _ _ _ vm1 a vm' H1 Hrun); [apply vm_keeps_get|]. intros v _.
  destruct (negb (isBranchExecuting v) && negb _); [by apply vm_keeps_ret|].
  eapply (vm_keeps_bind within any); [destruct (_ && (op <=? _)); [apply vm_keeps_lift|by apply vm_keeps_ret]|].
  intros _ _. by apply opfunc_keeps.
Qed.

(** Within the limits, executing a witness program of a known version. *)
Definition in_program (vm : Engine) : Prop :=
  within vm ∧ (isWitnessVersionActive vm TaprootWitnessVersion ∨
               isWitnessVersionActive vm BaseSegwitWitnessVersion).
Definition leads {A} (J W : Engine → Prop) (m : SR Engine A) : Prop :=
  ∀ vm a vm', J vm → m vm = Ok (a, vm') → W vm'.
Lemma leads_bind {A B} J K W (m : SR Engine A) (f : A → SR Engine B) :
  leads J K m → (∀ a, leads K W (f a)) → leads J W (m ≫= f).
Proof. intros Hm Hf vm b vm' HJ. rewrite sr_bind_ok. intros (a & vm1 & H1 & H2). eapply Hf; eauto. Qed.
Lemma leads_err {A} J W e : leads J W (sr_err e : SR Engine A).
Proof. by intros vm a vm'. Qed.
Lemma leads_lift {A} J (r : Res A) : leads J J (sr_lift r).
Proof. intros vm a vm' HJ. unfold sr_lift. destruct r; by intros [= <- <-]. Qed.
Lemma leads_check J e : leads J J (sr_check e).
Proof. apply leads_lift. Qed.
Lemma leads_modify J W f : (∀ vm, J vm → W (f vm)) → leads J W (modify f).
Proof. intros Hf vm a vm' HJ [= <- <-]. auto. Qed.

(** The stack a witness provides is looked at before it is used. *)
Lemma witness_block script l :
  leads in_program within (modify (add_script script);; modify (SetStack l);; check_witness_stack).
Proof.
  intros vm [] vm' [(Hd & Ha & Hs & Hn) Hv]. rewrite sr_bind_ok.
  intros ([] & vm1 & [= <-] & Hrun). revert Hrun.
  rewrite sr_bind_ok. intros ([] & vm2 & [= <-] & Hrun). revert Hrun.
  unfold check_witness_stack. rewrite sr_bind_ok. intros (v & vm3 & [= <- <-] & Hrun). revert Hrun.
  unfold SetStack, GetStack, getStack, setStack. cbn [dstack set_dstack add_script stk with_stk].
  rewrite rev_involutive.
  change (isWitnessVersionActive (set_dstack _ _)) with (isWitnessVersionActive vm).
  intros Hrun.
  assert (existsb (λ e, MaxScriptElementSize <? zlen e) l = false ∧
          vm' = SetStack l (add_script script vm)) as [Hex ->].
  { destruct (isWitnessVersionActive vm TaprootWitnessVersion).
    - destruct (_ <? _); [done|]. destruct (existsb _ _); [done|]. by injection Hrun as <-.
    - destruct Hv as [[]|Hv]. rewrite (Is_true_true_1 _ Hv) in Hrun.
      destruct (existsb _ _); [done|]. by injection Hrun as <-. }
  repeat split; try done. unfold stack_small. simpl. apply Forall_rev. apply Forall_forall.
  intros e He. unfold small. apply Z.ltb_ge. apply not_true_is_false. intros Hbig.
  assert (existsb (λ e, MaxScriptElementSize <? zlen e) l = true) as Ht; [|congruence].
  apply existsb_exists. exists e. split; [by apply list_elem_of_In|done].
Qed.

Lemma in_program_within vm : in_program vm → within vm.
Proof. by intros []. Qed.
Lemma in_program_ctx c vm : in_program vm → in_program (set_taprootCtx c vm).
Proof. intros [(? & ? & ? & ?) ?]. by repeat split. Qed.

Lemma leaf_leads program witness : leads in_program within (taproot_leaf_spend program witness).
Proof.
  unfold taproot_leaf_spend. intros vm a vm' Hvm. rewrite sr_bind_ok.
  intros (v & vm0 & [= <- <-] & Hrun). cbv zeta in Hrun.
  assert (leads in_program within succeed_taproot) as Hsucc.
  { apply leads_modify. intros v Hv. by apply in_program_within, in_program_ctx. }
  destruct (ParseControlBlock _) as [lv|e]; [|done]. revert Hvm Hrun.
  set (s := default [] _). clearbody s. intros Hvm Hrun.
  refine (leads_bind in_program in_program within _ _ _ _ vm a vm' Hvm Hrun); [apply leads_lift|]. intros _.
  destruct (ScriptHasOpSuccess s); [destruct (hasFlag vm _); [apply leads_err|done]|].
  destruct (negb (cb_LeafVersion lv =? _)); [destruct (hasFlag vm _); [apply leads_err|done]|].
  eapply leads_bind; [apply leads_check|]. intros _.
  eapply leads_bind; [apply leads_modify; intros v; apply in_program_ctx|]. intros _.
  apply witness_block.
Qed.

Lemma check_witness_stack_state vm a vm' : check_witness_stack vm = Ok (a, vm') → vm = vm'.
Proof.
  unfold check_witness_stack. rewrite sr_bind_ok. intros (v & vm0 & [= <- <-] & Hrun). revert Hrun.
  repeat case_match; by intros [= _ <-].
Qed.

Lemma witness_leads witness : leads within within (verifyWitnessProgram witness).
Proof.
  unfold verifyWitnessProgram. intros vm a vm' Hvm. rewrite sr_bind_ok.
  intros (v & vm0 & [= <- <-] & Hrun). cbv zeta in Hrun. revert Hrun.
  destruct (isWitnessVersionActive vm BaseSegwitWitnessVersion) eqn:E0.
  - assert (in_program vm) as Hp by (split; [done|right; by rewrite E0]).
    revert Hp. generalize (default [] (witnessProgram vm)). intros program Hp.
    destruct (length program =? 20)%nat; [|destruct (length program =? 32)%nat; [|done]].
    + destruct (negb _); [done|]. destruct (payToPubKeyHashScript program) as [pk e].
      clear Hvm E0. revert vm a vm' Hp. apply (leads_bind in_program in_program within); [apply leads_check|]. intros _.
      eapply leads_bind; [apply leads_check|]. intros _. apply witness_block.
    + destruct (length witness =? 0)%nat; [done|]. destruct (MaxScriptSize <? _); [done|].
      destruct (negb _); [done|].
      clear Hvm E0. revert vm a vm' Hp. apply (leads_bind in_program in_program within); [apply leads_check|]. intros _.
      apply witness_block.
  - assert (∀ J, leads J J check_witness_stack) as Hcheck.
    { intros J v b v' HJ Hr. by rewrite <- (check_witness_stack_state _ _ _ Hr). }
    destruct (isWitnessVersionActive vm TaprootWitnessVersion && _ && _) eqn:E1.
    2: { destruct (hasFlag vm _); [done|]. revert Hvm. clear E0 E1. revert vm a vm'.
         apply (leads_bind within within within); [|done]. apply leads_modify. by intros v (? & ? & ? & ?). }
    assert (in_program vm) as Hp.
    { split; [done|]. left. apply andb_true_iff in E1 as [[E1 _]%andb_true_iff _]. by rewrite E1. }
    destruct (negb (hasFlag vm _)); [intros Hr; by injection Hr as <- <-|]. destruct (length witness =? 0)%nat; [done|].
    generalize (default [] (witnessProgram vm)). intros program.
    generalize (if isAnnexedWitness witness then take (length witness - 1) witness else witness).
    intros witness'.
    eapply (leads_bind in_program in_program within); [| |done].
    { apply leads_modify. intros v. apply in_program_ctx. }
    intros _. destruct (length witness' =? 1)%nat; [|apply leaf_leads].
    eapply leads_bind; [apply leads_lift|]. intros _. apply leads_modify.
    intros v Hv. by apply in_program_within, in_program_ctx.
Qed.

Lemma CheckErrorCondition_keeps b : keeps within any (CheckErrorCondition b).
Proof. unfold CheckErrorCondition. keep. Qed.

Lemma keeps_leads {A} (m : SR Engine A) : keeps within any m → leads within within m.
Proof. intros Hm vm a vm' Hvm Hr. by destruct (Hm _ _ _ Hvm Hr). Qed.

Lemma next_script_leads : leads within within next_script.
Proof.
  intros vm a vm' Hvm. unfold next_script. rewrite sr_bind_ok.
  intros (v & vm0 & [= <- <-] & Hrun). cbv zeta in Hrun.
  assert (leads within within (modify (λ vm, set_scriptIdx (S (scriptIdx vm)) vm))) as Hadv.
  { apply leads_modify. by intros v (? & ? & ? & ?). }
  revert Hrun. destruct (_ && bip16 vm).
  { intros Hrun. refine (leads_bind within within within _ _ Hadv _ vm a vm' Hvm Hrun). intros _.
    apply leads_modify. intros v (Hd & ? & ? & ?). repeat split; try done. by apply Forall_rev. }
  destruct ((scriptIdx vm =? 1)%nat && bip16 vm).
  { intros Hrun. refine (leads_bind within within within _ _ Hadv _ vm a vm' Hvm Hrun). intros _.
    eapply leads_bind; [apply keeps_leads, CheckErrorCondition_keeps|]. intros _.
    destruct Hvm as (_ & _ & Hs & _). destruct (rev (savedFirstStack vm)); [by intros ? ? ?|].
    eapply leads_bind; [apply leads_check|]. intros _. eapply (leads_bind within within within).
    - apply leads_modify. by intros v (? & ? & ? & ?).
    - intros _. apply leads_modify. intros v (? & ? & ? & ?). repeat split; try done.
      unfold stack_small. simpl. by apply Forall_rev, Forall_take. }
  destruct (match witnessProgram vm with _ => _ end && _); intros Hrun.
  - refine (leads_bind within within within _ _ Hadv _ vm a vm' Hvm Hrun). intros _.
    destruct (TxIns _ !! _); [apply witness_leads|by intros ? ? ?].
  - by eapply Hadv.
Qed.

Lemma end_of_script_leads : leads within within end_of_script.
Proof.
  intros vm a vm' Hvm. unfold end_of_script. rewrite sr_bind_ok.
  intros (v & vm0 & [= <- <-] & Hrun). revert Hrun. destruct (condStack vm); [|done].
  intros Hrun. refine (leads_bind within within within _ _ _ _ vm a vm' Hvm Hrun).
  { apply leads_modify. intros v (? & ? & ? & ?). repeat split; try done. unfold stack_small. by constructor. }
  intros _. eapply leads_bind; [apply next_script_leads|]. intros _.
  eapply (leads_bind within within within).
  { apply leads_modify. intros v Hv. by destruct (scripts v !! _) as [[|? ?]|], Hv as (? & ? & ? & ?). }
  intros _. eapply (leads_bind within within within).
  { apply leads_modify. by intros v (? & ? & ? & ?). }
  intros _. apply keeps_leads. keep.
Qed.

Lemma Next_data t t' : Next t = (true, t') → OP_16 < t_op t' → t_data t' = [].
Proof.
  unfold Next. destruct (Done_tok t); [by intros [=]|].
  destruct (drop (t_offset t) (t_script t)) as [|op rest]; [by intros [=]|].
  intros Hn Hop. assert (t_op t' = op) as Heq.
  { repeat (destruct (_ =? _) in Hn || destruct (_ <? _) in Hn || destruct (_ || _) in Hn);
      first [done | by injection Hn as <-]. }
  rewrite Heq in Hop. assert (opcode_length op = 1) as El.
  { unfold opcode_length, OP_16, OP_DATA_75, OP_PUSHDATA1, OP_PUSHDATA2, OP_PUSHDATA4 in *.
    rewrite (proj2 (Z.leb_gt op 75)), andb_false_r by lia. by rewrite !(proj2 (Z.eqb_neq op _)) by lia. }
  rewrite El in Hn. change (1 =? 1) with true in Hn. by injection Hn as <-.
Qed.

(** *** The number of items *)

Definition roomy (vm : Engine) : Prop := Depth (dstack vm) + Depth (astack vm) ≤ MaxStackSize.
(** A script of a version 0 witness begins: the data stack is the witness
    without the script, whose number of items is not looked at. *)
Definition witness_start (vm : Engine) : Prop :=
  isWitnessVersionActive vm BaseSegwitWitnessVersion = true ∧ stk (astack vm) = [] ∧
  ∃ ti, TxIns (tx vm) !! txIdx vm = Some ti ∧ GetStack vm = take (length (Witness ti) - 1) (Witness ti).
Definition saved_ok (vm : Engine) : Prop := Z.of_nat (length (savedFirstStack vm)) ≤ MaxStackSize.
Definition started (vm : Engine) : Prop := saved_ok vm ∧ (roomy vm ∨ witness_start vm).
(** Between two scripts. *)
Definition between (vm : Engine) : Prop :=
  saved_ok vm ∧ stk (astack vm) = [] ∧ Depth (dstack vm) ≤ MaxStackSize.

Lemma between_started vm : between vm → started vm.
Proof. intros (Hs & Ha & Hd). split; [done|left]. unfold roomy, Depth in *. rewrite Ha. simpl. lia. Qed.
Lemma take_few {A} n (l : list A) : Z.of_nat (length l) ≤ MaxStackSize → Z.of_nat (length (take n l)) ≤ MaxStackSize.
Proof. rewrite length_take. lia. Qed.

(** The stack that a witness provides: short, or counted for taproot, or that
    of a version 0 script. *)
Lemma block_started script l :
  leads (λ vm, saved_ok vm ∧ stk (astack vm) = [] ∧
           (Z.of_nat (length l) ≤ MaxStackSize ∨ isWitnessVersionActive vm TaprootWitnessVersion = true ∨
            isWitnessVersionActive vm BaseSegwitWitnessVersion = true ∧
            ∃ ti, TxIns (tx vm) !! txIdx vm = Some ti ∧ l = take (length (Witness ti) - 1) (Witness ti)))
        started (modify (add_script script);; modify (SetStack l);; check_witness_stack).
Proof.
  intros vm [] vm' (Hs & Ha & Hl). rewrite sr_bind_ok. intros ([] & vm1 & [= <-] & Hrun). revert Hrun.
  rewrite sr_bind_ok. intros ([] & vm2 & [= <-] & Hrun). pose proof (check_witness_stack_state _ _ _ Hrun) as <-.
  assert (Depth (dstack (SetStack l (add_script script vm))) = Z.of_nat (length l)) as Hd
    by (unfold Depth; simpl; by rewrite length_rev).
  split; [done|]. unfold roomy. rewrite Hd. unfold Depth. cbn [astack SetStack set_dstack add_script]. rewrite Ha.
  destruct Hl as [Hl|[Ht|(Hb & ti & Hti & ->)]].
  - left. simpl. lia.
  - left. unfold check_witness_stack in Hrun. rewrite sr_bind_ok in Hrun. destruct Hrun as (v & vm3 & [= <- <-] & Hrun).
    change (isWitnessVersionActive (SetStack l (add_script script vm))) with (isWitnessVersionActive vm) in Hrun.
    rewrite Ht, Hd in Hrun. destruct (Z.ltb_spec MaxStackSize (Z.of_nat (length l))); [done|]. simpl. lia.
  - right. split_and!; [done|done|]. exists ti. split; [done|]. unfold GetStack, getStack. simpl. by rewrite rev_involutive.
Qed.

Lemma leaf_started program witness :
  leads (λ vm, between vm ∧ isWitnessVersionActive vm TaprootWitnessVersion = true) started (taproot_leaf_spend program witness).
Proof.
  unfold taproot_leaf_spend. intros vm a vm' Hvm. rewrite sr_bind_ok.
  intros (v & vm0 & [= <- <-] & Hrun). cbv zeta in Hrun.
  set (J := λ vm, between vm ∧ isWitnessVersionActive vm TaprootWitnessVersion = true) in *.
  assert (leads J started succeed_taproot) as Hsucc.
  { apply leads_modify. intros v [Hv _]. by apply between_started. }
  destruct (ParseControlBlock _) as [lv|e]; [|done]. revert Hvm Hrun.
  set (s := default [] _). clearbody s. intros Hvm Hrun.
  refine (leads_bind J J started _ _ _ _ vm a vm' Hvm Hrun); [apply leads_lift|]. intros _.
  destruct (ScriptHasOpSuccess s); [destruct (hasFlag vm _); [apply leads_err|done]|].
  destruct (negb (cb_LeafVersion lv =? _)); [destruct (hasFlag vm _); [apply leads_err|done]|].
  eapply leads_bind; [apply leads_check|]. intros _.
  eapply (leads_bind J J started); [by apply leads_modify; intros v|]. intros _.
  intros v b v' [(Hs & Ha & _) Ht]. apply block_started. split_and!; auto.
Qed.

Lemma witness_started ti :
  leads (λ vm, between vm ∧ TxIns (tx vm) !! txIdx vm = Some ti) started (verifyWitnessProgram (Witness ti)).
Proof.
  unfold verifyWitnessProgram. intros vm a vm' Hvm. rewrite sr_bind_ok.
  intros (v & vm0 & [= <- <-] & Hrun). cbv zeta in Hrun. revert Hrun. generalize (default [] (witnessProgram vm)). intros program.
  set (J := λ v, between v ∧ TxIns (tx v) !! txIdx v = Some ti) in *.
  destruct (isWitnessVersionActive vm BaseSegwitWitnessVersion) eqn:E0.
  - set (K := λ v, J v ∧ isWitnessVersionActive v BaseSegwitWitnessVersion = true). assert (K vm) as HK by done.
    destruct (length program =? 20)%nat; [|destruct (length program =? 32)%nat; [|done]].
    + destruct (Nat.eqb_spec (length (Witness ti)) 2) as [Hl|]; [|done]. cbn [negb].
      destruct (payToPubKeyHashScript program) as [pk e].
      clear Hvm E0. revert vm a vm' HK. apply (leads_bind K K started); [apply leads_check|]. intros _.
      eapply leads_bind; [apply leads_check|]. intros _ v b v' [[(Hs & Ha & _) _] _]. apply block_started.
      split_and!; [done|done|left]. rewrite Hl. unfold MaxStackSize. lia.
    + destruct (length (Witness ti) =? 0)%nat; [done|]. destruct (MaxScriptSize <? _); [done|]. destruct (negb _); [done|].
      clear Hvm E0. revert vm a vm' HK. apply (leads_bind K K started); [apply leads_check|]. intros _ v b v' [[(Hs & Ha & _) Hi] Hb].
      apply block_started. split_and!; [done|done|]. right. right. eauto.
  - destruct (isWitnessVersionActive vm TaprootWitnessVersion && _ && _) eqn:E1.
    2: { destruct (hasFlag vm _); [done|]. rewrite sr_bind_ok. intros ([] & v & [= <-] & Hc).
         apply check_witness_stack_state in Hc as <-. apply between_started. apply Hvm. }
    apply andb_true_iff in E1 as [[E1 _]%andb_true_iff _]. pose proof (between_started vm (proj1 Hvm)) as Hst.
    destruct (negb (hasFlag vm _)); [intros Hr; by injection Hr as <- <-|]. destruct (length (Witness ti) =? 0)%nat; [done|].
    set (K := λ v, between v ∧ isWitnessVersionActive v TaprootWitnessVersion = true). assert (K vm) as HK by (split; [apply Hvm|done]).
    generalize (if isAnnexedWitness (Witness ti) then take (length (Witness ti) - 1) (Witness ti) else Witness ti). intros witness'.
    eapply (leads_bind K K started); [| |done].
    { by apply leads_modify. }
    intros _. destruct (length witness' =? 1)%nat; [|apply leaf_started].
    eapply leads_bind; [apply leads_lift|]. intros _. apply leads_modify. intros v [Hv _]. by apply between_started.
Qed.

Lemma CheckErrorCondition_astack b vm a vm' : CheckErrorCondition b vm = Ok (a, vm') → astack vm' = astack vm.
Proof.
  unfold CheckErrorCondition. rewrite sr_bind_ok. intros (v & vm0 & [= <- <-] & Hrun). revert Hrun.
  assert (∀ r, (v ← on_dstack PopBool; if (v : bool) then mret () else sr_err ErrEvalFalse) vm = Ok r → astack (snd r) = astack vm) as Hpop.
  { intros [x v]. rewrite sr_bind_ok. intros (y & vm1 & Hp & Hrun). unfold on_dstack in Hp.
    destruct (PopBool _) as [[z s']|e|]; [|done..]. injection Hp as -> <-. destruct y; [by injection Hrun as <- <-|done]. }
  repeat case_match; first [done | by intros [= <- <-] | by intros Hr%Hpop].
Qed.

Lemma next_script_started : leads between started next_script.
Proof.
  intros vm a vm' Hvm. unfold next_script. rewrite sr_bind_ok.
  intros (v & vm0 & [= <- <-] & Hrun). cbv zeta in Hrun.
  revert Hrun. destruct (_ && bip16 vm).
  { rewrite sr_bind_ok. intros ([] & v & [= <-] & Hrun). injection Hrun as <- <-. destruct Hvm as (Hs & Ha & Hd).
    apply between_started. split_and!; [|done|done]. unfold saved_ok, GetStack, getStack. simpl. by rewrite length_rev. }
  destruct ((scriptIdx vm =? 1)%nat && bip16 vm).
  { destruct Hvm as (Hs & Ha & _). rewrite sr_bind_ok. intros ([] & v & [= <-] & Hrun).
    rewrite sr_bind_ok in Hrun. destruct Hrun as ([] & v & Hc & Hrun). pose proof (CheckErrorCondition_astack _ _ _ _ Hc) as Hca.
    apply frame_CheckErrorCondition in Hc. destruct Hc as (_ & _ & _ & _ & _ & _ & _ & Hsv & _). simpl in Hca, Hsv.
    destruct (rev (savedFirstStack vm)); [done|]. rewrite sr_bind_ok in Hrun. destruct Hrun as ([] & v1 & Hk & Hrun).
    assert (v1 = v) as -> by (revert Hk; unfold sr_check, sr_lift; by destruct (checkScriptParses _ _); intros [=]).
    rewrite sr_bind_ok in Hrun. destruct Hrun as ([] & v2 & [= <-] & [= <- <-]). apply between_started. split_and!.
    - unfold saved_ok. simpl. by rewrite Hsv.
    - simpl. by rewrite Hca.
    - unfold Depth. simpl. rewrite length_rev. by apply take_few. }
  destruct (match witnessProgram vm with _ => _ end && _).
  - rewrite sr_bind_ok. intros ([] & v & [= <-] & Hrun). cbn [tx txIdx set_scriptIdx] in Hrun.
    destruct (TxIns (tx vm) !! txIdx vm) as [ti|] eqn:Ei; [|done]. by eapply (witness_started ti); [|exact Hrun].
  - intros [= <- <-]. by apply between_started.
Qed.

Lemma end_of_script_started vm d vm' :
  saved_ok vm → roomy vm → end_of_script vm = Ok (d, vm') → started vm'.
Proof.
  intros Hs Hr. unfold end_of_script. rewrite sr_bind_ok.
  intros (v & vm0 & [= <- <-] & Hrun). revert Hrun. destruct (condStack vm); [|done].
  rewrite sr_bind_ok. intros ([] & v & [= <-] & Hrun). rewrite sr_bind_ok in Hrun. destruct Hrun as ([] & v & Hn & Hrun).
  apply next_script_started in Hn.
  2: { split_and!; [done|done|]. unfold roomy, Depth in *. simpl. lia. }
  rewrite sr_bind_ok in Hrun. destruct Hrun as ([] & v1 & [= <-] & Hrun).
  rewrite sr_bind_ok in Hrun. destruct Hrun as ([] & v2 & [= <-] & Hrun).
  rewrite sr_bind_ok in Hrun. destruct Hrun as (w & v3 & [= <- <-] & Hrun).
  set (v1 := match scripts v !! scriptIdx v with Some [] => _ | _ => _ end) in Hrun.
  assert (started (set_lastCodeSep 0 v1)) as Hv1 by (unfold v1; by destruct (scripts v !! scriptIdx v) as [[|? ?]|]).
  revert Hrun. generalize (set_lastCodeSep 0 v1) Hv1. intros v2 Hv2.
  destruct (scripts v2 !! scriptIdx v2); [|by intros [= <- <-]].
  rewrite sr_bind_ok. intros ([] & v3 & [= <-] & [= <- <-]). done.
Qed.

Lemma Step_started vm d vm' : saved_ok vm → Step vm = Ok (d, vm') →
  saved_ok vm' ∧ (roomy vm' ∨ (scriptIdx vm < scriptIdx vm')%nat ∧ witness_start vm').
Proof.
  intros Hs Hstep. apply Step_inv in Hstep as (t & vm1 & Hl & Hn & Hex & Hdep & Hrest).
  apply frame_executeOpcode in Hex. destruct Hex as (_ & _ & _ & _ & _ & Hidx & _ & Hsv & _). simpl in Hidx, Hsv.
  assert (saved_ok vm1) as Hs1 by (unfold saved_ok; by rewrite Hsv).
  destruct (Done_tok t).
  - pose proof (end_of_script_spec _ _ _ Hrest) as [Hlt _]. simpl in Hlt.
    apply end_of_script_started in Hrest as [H1 [H2|H2]]; [| |done|done]; (split; [done|]); [by left|right].
    split; [lia|done].
  - destruct Hrest as [_ ->]. split; [done|by left].
Qed.

Definition step (vm vm' : Engine) : Prop := ∃ d, Step vm = Ok (d, vm').

Lemma Step_within vm d vm' :
  within vm → Step vm = Ok (d, vm') → within vm'.
Proof.
  intros Hvm Hstep. apply Step_inv in Hstep as (t & vm1 & Hl & Hn & Hex & Hdep & Hrest).
  assert (within vm1) as H1.
  { eapply keeps_leads; [apply executeOpcode_keeps, (Next_data _ _ Hn)| |exact Hex].
    by destruct Hvm as (? & ? & ? & ?). }
  assert (within (set_opcodeIdx (S (opcodeIdx vm1)) vm1)) as H2 by by destruct H1 as (? & ? & ? & ?).
  destruct (Done_tok t); [|by destruct Hrest as [_ ->]].
  by eapply end_of_script_leads.
Qed.

(** C39. The resource limits hold throughout the execution of every engine:
    no element of the data stack, the alternate stack or the stack saved
    for a script hash is ever longer than 520 bytes, no more than 201
    operations are counted in a script, and after every step the two stacks
    together hold at most 1000 items; the one exception is the step that ends
    a script and begins that of a version 0 witness, after which the data stack
    is the witness without its last element, of whatever number of items. *)
Theorem limits_hold scriptPubKey t idx fl hashes amount fetch vm0 vm d vm' :
  NewEngine scriptPubKey t idx fl hashes amount fetch = Ok vm0 → rtc step vm0 vm → Step vm = Ok (d, vm') →
  within vm ∧ within vm' ∧
  (Depth (dstack vm') + Depth (astack vm') ≤ MaxStackSize ∨ (scriptIdx vm < scriptIdx vm')%nat ∧ witness_start vm').
Proof.
  intros Hnew Hreach Hstep.
  assert (within vm0 ∧ saved_ok vm0) as [H0 S0].
  { unfold NewEngine in Hnew. destruct (_ || _); [done|]. destruct (TxIns t !! _); [|done].
    destruct (_ && _) in Hnew; [done|]. destruct (has _ _ && _) in Hnew; [done|].
    destruct (has _ _ && _) in Hnew; [done|]. cbv zeta in Hnew. destruct (_ && _ && _) in Hnew; [done|].
    unfold mbind, Res_bind in Hnew. destruct (check_script _) in Hnew; [|done..].
    destruct (check_script _) in Hnew; [|done..]. destruct (find_witness_program _ _ _ _ _) in Hnew; [|done..].
    injection Hnew as <-. repeat split; simpl; try (by constructor); unfold MaxOpsPerScript, saved_ok, MaxStackSize; simpl; lia. }
  assert (within vm ∧ saved_ok vm) as [Hvm Svm].
  { clear Hnew Hstep. induction Hreach as [|x y z [b Hxy] _ IH]; [done|].
    apply IH; [by eapply Step_within|by eapply Step_started]. }
  split; [done|]. split; [by eapply Step_within|by eapply Step_started].
Qed.
End Limits.
