(* ===== verification/ScriptMultisig.v ===== *)
(** * Bitcoin script: what a multisignature check accepts, and the encodings of
    signatures *)

From Stdlib Require Import ZArith Lia.
From stdpp Require Import base numbers list.
From S2P Require Import Prelude ScriptNum ScriptNumFacts WireBase WireTx ScriptStack ScriptToken Sighash Taproot ScriptEngine.

Open Scope Z_scope.

Section Multisig.
Context `{Crypto}.

(** ** One signature and one key *)

Section Loop.
Context (vm : Engine) (script : list byte).

(** The digest a signature signs; [None]: it cannot be computed. *)
Definition digest (raw : list byte) : option (list byte) :=
  if isWitnessVersionActive vm 0
  then match segwit_digest vm script (last_byte raw) with Ok d => d | _ => None end
  else match calcSignatureHash (tx vm) (txIdx vm) script (last_byte raw) with
       | Ok d => Some d | _ => None
       end.

Definition sig_parses (raw : list byte) : bool :=
  ParseSignature (strictEncoding vm) (take (length raw - 1) raw).

(** The signature is a valid one for the key. *)
Definition sig_valid (raw pk : list byte) : bool :=
  negb (length raw =? 0)%nat && sig_parses raw && ParsePubKey pk &&
  match digest raw with
  | Some h => VerifySignature h (take (length raw - 1) raw) pk
  | None => false
  end.

(** The encodings pass the checks the flags ask for. *)
Definition sig_encoded (raw : list byte) : Prop :=
  raw ≠ [] →
  checkHashTypeEncoding vm (last_byte raw) = None ∧
  checkSignatureEncoding vm (take (length raw - 1) raw) = None ∧ digest raw ≠ None.
Definition key_encoded (pk : list byte) : Prop := checkPubKeyEncoding vm pk = None.

(** What the loop remembers of a signature is true of it. *)
Definition remembered (i : parsedSigInfo) : Prop :=
  sig_state i = Unparsed ∨ sig_state i = Parsed (sig_parses (signature i)).

Lemma multisig_try_spec i pk :
  remembered i → sig_encoded (signature i) → key_encoded pk →
  ∃ i', multisig_try vm script i pk = Ok (sig_valid (signature i) pk, i') ∧
        signature i' = signature i ∧ remembered i'.
Proof.
  intros Hr Hs Hk. destruct i as [raw st]. simpl in *. unfold multisig_try, sig_valid.
  cbn [signature sig_state]. destruct (length raw =? 0)%nat eqn:E.
  { by eexists. }
  assert (raw ≠ []) as Hne by (by intros ->). destruct (Hs Hne) as (Hh & He & Hd).
  change (negb false) with true. cbn [andb].
  set (ok := match st with Unparsed => _ | Parsed _ => _ end).
  assert (ok = Ok (sig_parses raw)) as Hok.
  { unfold ok. destruct Hr as [Hr|Hr]; simpl in Hr; subst st; [|done]. by rewrite Hh, He. }
  rewrite Hok. unfold mbind, Res_bind. clear Hok ok.
  destruct (sig_parses raw) eqn:Ep; cbn [negb andb].
  2: { eexists. split; [done|]. split; [done|]. right. simpl. by rewrite Ep. }
  rewrite Hk. unfold check. destruct (ParsePubKey pk); cbn [negb andb].
  2: { eexists. split; [done|]. split; [done|]. right. simpl. by rewrite Ep. }
  unfold digest in *. destruct (isWitnessVersionActive vm 0).
  - destruct (segwit_digest _ _ _) as [[d|]| |]; [|done..].
    eexists. split; [done|]. split; [done|]. right. simpl. by rewrite Ep.
  - destruct (calcSignatureHash _ _ _ _) as [d| |]; [|done..].
    eexists. split; [done|]. split; [done|]. right. simpl. by rewrite Ep.
Qed.

(** ** The loop *)

(** The signatures are valid for some of the keys, in the order of the
    keys, each key being used once. *)
Definition accepted (sigs pubKeys : list (list byte)) : Prop :=
  ∃ ks, ks `sublist_of` pubKeys ∧ Forall2 (λ s k, sig_valid s k = true) sigs ks.

Lemma accepted_short sigs pubKeys : (length pubKeys < length sigs)%nat → ¬ accepted sigs pubKeys.
Proof.
  intros Hl (ks & Hks%sublist_length & Hf%Forall2_length). lia.
Qed.

(** Using the first key that fits loses nothing. *)
Lemma accepted_take s sigs pk pks :
  sig_valid s pk = true → accepted (s :: sigs) (pk :: pks) ↔ accepted sigs pks.
Proof.
  intros Hv. split.
  - intros (ks & Hsub & Hf). apply Forall2_cons_inv_l in Hf as (k & ks' & Hk & Hf & ->).
    exists ks'. split; [|done]. apply sublist_cons_r in Hsub as [Hsub|(l' & [= -> ->] & Hsub)]; [|done].
    etrans; [|done]. by apply sublist_cons.
  - intros (ks & Hsub & Hf). exists (pk :: ks). split; [by constructor|by constructor].
Qed.
Lemma accepted_skip s sigs pk pks :
  sig_valid s pk = false → accepted (s :: sigs) (pk :: pks) ↔ accepted (s :: sigs) pks.
Proof.
  intros Hv. split.
  - intros (ks & Hsub & Hf). apply sublist_cons_r in Hsub as [Hsub|(l' & -> & Hsub)]; [by exists ks|].
    apply Forall2_cons in Hf as [Hs _]. congruence.
  - intros (ks & Hsub & Hf). exists ks. split; [by constructor|done].
Qed.

Lemma multisig_loop_spec pubKeys sigs :
  Forall remembered sigs → Forall (λ i, sig_encoded (signature i)) sigs → Forall key_encoded pubKeys →
  ∃ b, multisig_loop vm script sigs pubKeys = Ok b ∧
       (b = true ↔ accepted (map signature sigs) pubKeys).
Proof.
  revert sigs. induction pubKeys as [|pk pks IH]; intros [|s rest] Hr Hs Hk;
    try (exists true; split; [done|]; split; [|done]; intros _; exists []; split;
         [apply sublist_nil_l|constructor]).
  - exists false. split; [done|]. split; [done|]. intros Ha. by apply accepted_short in Ha; [|simpl; lia].
  - apply Forall_cons in Hr as [Hr Hrs], Hs as [Hs Hss], Hk as [Hk Hks].
    cbn [multisig_loop]. destruct (_ <? _)%nat eqn:El.
    { apply Nat.ltb_lt in El. exists false. split; [done|]. split; [done|]. intros Ha.
      apply accepted_short in Ha; [done|]. by rewrite length_map. }
    destruct (multisig_try_spec s pk Hr Hs Hk) as (i' & Ht & Hi & Hr'). rewrite Ht.
    unfold mbind, Res_bind. cbn [fst snd map].
    destruct (sig_valid (signature s) pk) eqn:Ev.
    + destruct (IH rest Hrs Hss Hks) as (b & Hb & Hiff). exists b. by rewrite accepted_take.
    + destruct (IH (i' :: rest)) as (b & Hb & Hiff); [by constructor| |done|].
      { constructor; [by rewrite Hi|done]. }
      exists b. rewrite accepted_skip by done. by rewrite <- Hi.
Qed.
End Loop.

(** ** The opcode *)

Lemma pop_cons vm x l m :
  dstack vm = mkStack (x :: l) m → pop vm = Ok (x, set_dstack (mkStack l m) vm).
Proof. intros Hd. unfold pop, on_dstack. by rewrite Hd, Pop_cons. Qed.

Lemma popInt_cons vm x l m n :
  dstack vm = mkStack (x :: l) m → MakeScriptNum x m maxScriptNumLen = Ok n →
  popInt vm = Ok (n, set_dstack (mkStack l m) vm).
Proof.
  intros Hd Hn. unfold popInt, on_dstack, PopInt, mbind, SR_bind. rewrite Hd, Pop_cons.
  unfold make_num. simpl verifyMinimalData. by rewrite Hn.
Qed.

Lemma pop_n_app xs vm l m :
  dstack vm = mkStack (xs ++ l) m → pop_n (length xs) vm = Ok (xs, set_dstack (mkStack l m) vm).
Proof.
  revert vm. induction xs as [|x xs IH]; intros vm Hd; simpl.
  - destruct vm. simpl in *. by subst.
  - unfold mbind, SR_bind. rewrite (pop_cons vm x (xs ++ l) m Hd).
    rewrite (IH (set_dstack (mkStack (xs ++ l) m) vm)) by done. done.
Qed.

Lemma Int32_small n : 0 ≤ n ≤ 20 → Int32 n = n.
Proof.
  intros Hn. unfold Int32, maxInt32, minInt32.
  rewrite (proj2 (Z.ltb_ge _ n)), (proj2 (Z.ltb_ge n _)) by lia. apply wrap_s_id; simpl; lia.
Qed.

(** The script whose digest the signatures sign. *)
Definition signed_script (vm : Engine) (sigs : list (list byte)) : Res (list byte) :=
  script ← subScript vm;
  if negb (isWitnessVersionActive vm 0)
  then remove_sigs (hasFlag vm ScriptVerifyConstScriptCode) script sigs
  else Ok script.

(** C37. A multisignature check with [n] keys and [m] signatures, whose
    encodings pass the checks the flags ask for, pushes true exactly when
    the signatures are valid for a subsequence of the keys: looking at the
    keys once, in order, loses no solution.  Every argument is consumed and
    the [n] keys are counted as operations; a failed check with a signature
    that is not empty is an error under the NULLFAIL rule. *)
Theorem checkmultisig_complete vm m nk keys ns sigs dummy rest script :
  taprootCtx vm = None →
  dstack vm = mkStack (nk :: keys ++ ns :: sigs ++ dummy :: rest) m →
  MakeScriptNum nk m maxScriptNumLen = Ok (zlen keys) →
  MakeScriptNum ns m maxScriptNumLen = Ok (zlen sigs) →
  zlen keys ≤ MaxPubKeysPerMultiSig → zlen sigs ≤ zlen keys →
  numOps vm + zlen keys ≤ MaxOpsPerScript →
  (hasFlag vm ScriptStrictMultiSig = true → dummy = []) →
  signed_script vm sigs = Ok script →
  Forall (sig_encoded vm script) sigs → Forall (key_encoded vm) keys →
  ∃ b, (b = true ↔ accepted vm script sigs keys) ∧
    opcodeCheckMultiSig vm =
    if negb b && hasFlag vm ScriptVerifyNullFail && existsb (λ s, (0 <? length s)%nat) sigs
    then Err ErrNullFail
    else Ok ((), set_numOps (numOps vm + zlen keys) (set_dstack (mkStack (fromBool b :: rest) m) vm)).
Proof.
  intros Htap Hd Hnk Hns Hmax Hle Hops Hdummy Hscript Hs Hk. unfold MaxPubKeysPerMultiSig in *.
  unfold opcodeCheckMultiSig. rewrite (sr_run _ _ _ _ _ (eq_refl : sr_get vm = Ok (vm, vm))), Htap.
  rewrite (sr_run _ _ _ _ _ (popInt_cons _ _ _ _ _ Hd Hnk)). cbv zeta.
  rewrite Int32_small, (proj2 (Z.ltb_ge _ 0)) by lia.
  rewrite (proj2 (Z.ltb_ge MaxPubKeysPerMultiSig _)) by (unfold MaxPubKeysPerMultiSig; lia).
  erewrite sr_run by done. erewrite sr_run by done. cbv beta.
  set (vm1 := set_numOps _ _). change (numOps vm1) with (numOps vm + zlen keys).
  rewrite (proj2 (Z.ltb_ge MaxOpsPerScript _)), Nat2Z.id by lia.
  rewrite (sr_run _ _ _ _ _ (pop_n_app keys vm1 (ns :: sigs ++ dummy :: rest) m eq_refl)).
  erewrite sr_run by (by apply (popInt_cons _ ns (sigs ++ dummy :: rest) m (zlen sigs))).
  rewrite Int32_small, (proj2 (Z.ltb_ge _ 0)), (proj2 (Z.ltb_ge (zlen keys) _)), Nat2Z.id by lia.
  erewrite sr_run by (by apply (pop_n_app sigs _ (dummy :: rest) m)).
  erewrite sr_run by (by apply (pop_cons _ dummy rest m)).
  assert (hasFlag vm1 ScriptStrictMultiSig && negb (length dummy =? 0)%nat = false) as ->.
  { change (hasFlag vm1) with (hasFlag vm). destruct (hasFlag vm ScriptStrictMultiSig); [|done].
    by rewrite Hdummy. }
  unfold signed_script, mbind, Res_bind in Hscript. change (subScript vm1) with (subScript vm).
  destruct (subScript vm) as [sub| |]; [|done..].
  unfold mbind, SR_bind. cbn [sr_lift].
  change (isWitnessVersionActive vm1 0) with (isWitnessVersionActive vm 0).
  change (hasFlag vm1) with (hasFlag vm). rewrite Hscript. cbn [sr_lift].
  destruct (multisig_loop_spec vm1 script keys (map (λ s, mkSigInfo s Unparsed) sigs)) as (b & Hb & Hiff).
  { apply Forall_map, Forall_true. intros s. by left. }
  { by apply Forall_map. }
  { done. }
  rewrite map_map, map_id in Hiff. exists b. split; [done|].
  rewrite Hb. unfold sr_lift.
  destruct (negb b && _ && _); done.
Qed.
End Multisig.

(** ** Bitcoin script: the signature encodings that are accepted *)

(** A positive integer in its shortest DER form: not empty, the sign bit
    clear, no zero byte in front but to keep it clear. *)
Definition der_int (x : list byte) : Prop :=
  match x with
  | [] => False
  | b :: rest => b < 128 ∧ (b = 0 → match rest with [] => True | c :: _ => 128 ≤ c end)
  end.

(** SEQUENCE of two INTEGERs. *)
Definition der_signature (R S : list byte) : list byte :=
  0x30 :: 4 + zlen R + zlen S :: 0x02 :: zlen R :: R ++ 0x02 :: zlen S :: S.

(** The bytes after the four of the header and [R]. *)
Section Shape.
Context (a b c d t l : byte) (R S : list byte).
Let sig : list byte := a :: b :: c :: d :: R ++ t :: l :: S.

Lemma shape_length : zlen sig = 6 + zlen R + zlen S.
Proof. unfold sig. cbn [length]. rewrite length_app. cbn [length]. lia. Qed.
Lemma shape_R i : (i < length R)%nat → nth_byte sig (4 + i) = nth_byte R i.
Proof. intros Hi. unfold sig, nth_byte. simpl. by rewrite lookup_app_l. Qed.
Lemma shape_after i : nth_byte sig (4 + (length R + i)) = nth_byte (t :: l :: S) i.
Proof. unfold sig, nth_byte. simpl Nat.add. rewrite !lookup_cons. rewrite lookup_app_r by lia.
  by replace (length R + i - length R)%nat with i by lia. Qed.
Lemma shape_slice : slice sig (4 + length R + 2) (4 + length R + 2 + length S) = S.
Proof.
  unfold slice, sig. replace (4 + length R + 2 + length S - (4 + length R + 2))%nat with (length S) by lia.
  replace (4 + length R + 2)%nat with (Datatypes.S (Datatypes.S (Datatypes.S (Datatypes.S (length R + 2))))) by lia. simpl.
  rewrite drop_app_ge by lia. replace (length R + 2 - length R)%nat with 2%nat by lia. simpl.
  by apply take_ge.
Qed.
End Shape.

(** What the checks on the bytes of [R] and [S] say. *)
Lemma sign_clear b : is_byte b → (Z.land b 0x80 =? 0) = (b <? 128).
Proof. intros Hb. rewrite land_80 by done. by destruct (b <? 128). Qed.

Lemma der_int_checks x :
  Forall is_byte x →
  der_int x ↔
  zlen x ≠ 0 ∧ (Z.land (nth_byte x 0) 0x80 =? 0) = true ∧
  (1 <? zlen x) && (nth_byte x 0 =? 0) && (Z.land (nth_byte x 1) 0x80 =? 0) = false.
Proof.
  intros Hx. destruct x as [|b rest]; simpl; [naive_solver|]. apply Forall_cons in Hx as [Hb Hr].
  unfold nth_byte. cbn [lookup list_lookup default]. rewrite sign_clear by done.
  rewrite Z.ltb_lt. destruct rest as [|c rest].
  - cbn [length]. change (1 <? Z.of_nat 1) with false. cbn [andb].
    split; [intros [? _]; by split_and!|by intros (_ & ? & _)].
  - apply Forall_cons in Hr as [Hc _]. cbn [lookup list_lookup default length]. rewrite sign_clear by done.
    rewrite (proj2 (Z.ltb_lt 1 _)) by lia. cbn [andb]. unfold is_byte, id in *.
    destruct (Z.eqb_spec b 0), (Z.ltb_spec c 128); cbn [andb]; intuition (done || lia).
Qed.

Lemma guard_None {A} (c : bool) (e : A) k : (if c then Some e else k) = None ↔ c = false ∧ k = None.
Proof. destruct c; naive_solver. Qed.

Section Der.
Context (vm : Engine).
Hypothesis checked :
  hasFlag vm ScriptVerifyDERSignatures = true ∨ hasFlag vm ScriptVerifyLowS = true ∨
  hasFlag vm ScriptVerifyStrictEncoding = true.

Lemma flags_checked :
  negb (hasFlag vm ScriptVerifyDERSignatures) && negb (hasFlag vm ScriptVerifyLowS) &&
  negb (hasFlag vm ScriptVerifyStrictEncoding) = false.
Proof. by destruct checked as [-> | [-> | ->]]; rewrite ?andb_false_r. Qed.

(** The low-S rule, on the bytes of [S]. *)
Definition low_s (Sv : list byte) : Prop :=
  hasFlag vm ScriptVerifyLowS = true → be_val Sv ≤ halfOrder.

(** The checks, on a signature of the right shape. *)
Lemma check_shape a b c t l R Sv :
  Forall is_byte R → Forall is_byte Sv →
  let sig := a :: b :: c :: zlen R :: R ++ t :: l :: Sv in
  checkSignatureEncoding vm sig = None ↔
  8 ≤ zlen sig ≤ 72 ∧ a = 0x30 ∧ b = zlen sig - 2 ∧ l = zlen Sv ∧ c = 0x02 ∧ t = 0x02 ∧
  der_int R ∧ der_int Sv ∧ low_s Sv.
Proof.
  intros HR HS sig. rewrite !der_int_checks by done.
  assert (zlen sig = 6 + zlen R + zlen Sv) as Hlen by apply shape_length.
  unfold checkSignatureEncoding. rewrite flags_checked. cbv zeta. rewrite Hlen.
  change (Z.to_nat 0) with 0%nat. change (Z.to_nat 1) with 1%nat. change (Z.to_nat 2) with 2%nat.
  change (Z.to_nat 3) with 3%nat. change (Z.to_nat 4) with (4 + 0)%nat. change (Z.to_nat 5) with (4 + 1)%nat.
  change (nth_byte sig 0) with a. change (nth_byte sig 1) with b. change (nth_byte sig 2) with c.
  change (nth_byte sig 3) with (zlen R).
  replace (Z.to_nat (4 + zlen R)) with (4 + (length R + 0))%nat by lia.
  replace (Z.to_nat (4 + zlen R + 1)) with (4 + (length R + 1))%nat by lia.
  replace (Z.to_nat (4 + zlen R + 1 + 1)) with (4 + (length R + 2))%nat by lia.
  replace (Z.to_nat (4 + zlen R + 1 + 1 + 1)) with (4 + (length R + 3))%nat by lia.
  unfold sig. rewrite !shape_after. fold sig.
  change (nth_byte (t :: l :: Sv) 0) with t. change (nth_byte (t :: l :: Sv) 1) with l.
  change (nth_byte (t :: l :: Sv) 2) with (nth_byte Sv 0).
  change (nth_byte (t :: l :: Sv) 3) with (nth_byte Sv 1).
  rewrite !guard_None.
  rewrite !Z.ltb_ge, !Z.leb_gt, !negb_false_iff, !Z.eqb_neq, !(Z.eqb_eq a), !(Z.eqb_eq b), !(Z.eqb_eq c),
    !(Z.eqb_eq t), !(Z.eqb_eq (4 + zlen R + 1 + 1 + l)).
  destruct (decide (zlen R = 0)) as [E0|E0]; [intuition lia|].
  destruct (decide (l = zlen Sv)) as [->|El]; [|intuition lia].
  unfold sig. rewrite (shape_R _ _ _ _ _ _ R Sv 0) by lia.
  replace (Z.to_nat (4 + zlen R + 1 + 1 + zlen Sv)) with (4 + length R + 2 + length Sv)%nat by lia.
  replace (4 + (length R + 2))%nat with (4 + length R + 2)%nat by lia. rewrite shape_slice. fold sig.
  replace ((1 <? zlen R) && (nth_byte R 0 =? 0) && (Z.land (nth_byte sig (4 + 1)) 128 =? 0))
    with ((1 <? zlen R) && (nth_byte R 0 =? 0) && (Z.land (nth_byte R 1) 128 =? 0)).
  2: { destruct (Z.ltb_spec 1 (zlen R)); [|done]. unfold sig. by rewrite shape_R by lia. }
  assert (hasFlag vm ScriptVerifyLowS && (halfOrder <? be_val Sv) = false ↔ low_s Sv) as ->.
  { unfold low_s. rewrite andb_false_iff, Z.ltb_ge. split; [by intros [->|]|].
    destruct (hasFlag vm ScriptVerifyLowS); auto. }
  intuition lia.
Qed.

(** Every signature the checks accept has that shape. *)
Lemma shape_of sig :
  Forall is_byte sig → checkSignatureEncoding vm sig = None →
  ∃ a b c t l R Sv, sig = a :: b :: c :: zlen R :: R ++ t :: l :: Sv.
Proof.
  intros Hb. unfold checkSignatureEncoding. rewrite flags_checked. cbv zeta. rewrite !guard_None.
  intros (H8%Z.ltb_ge & _ & _ & _ & _ & Hl%Z.leb_gt & _).
  destruct sig as [|a [|b [|c [|d rest]]]]; cbn [length] in H8; try lia.
  change (Z.to_nat 3) with 3%nat in Hl. change (nth_byte (a :: b :: c :: d :: rest) 3) with d in Hl.
  cbn [length] in Hl. assert (is_byte d) as Hd.
  { do 3 (apply Forall_cons in Hb as [_ Hb]). by apply Forall_cons in Hb as [? _]. }
  unfold is_byte in Hd.
  destruct (drop (Z.to_nat d) rest) as [|t [|l Sv]] eqn:E;
    apply (f_equal length) in E as El; rewrite length_drop in El; cbn [length] in El; try lia.
  exists a, b, c, t, l, (take (Z.to_nat d) rest), Sv.
  rewrite length_take, Nat.min_l, Z2Nat.id by lia. by rewrite <- E, take_drop.
Qed.

(** The encodings of signatures that are accepted, when the flags ask
    for a check, are exactly the DER encodings of two positive integers [R]
    and [S] in their shortest form, of at most 72 bytes, with [S] at most
    half of the group order when low values are required. *)
Theorem signature_encoding_der sig :
  Forall is_byte sig →
  checkSignatureEncoding vm sig = None ↔
  ∃ R Sv, sig = der_signature R Sv ∧ der_int R ∧ der_int Sv ∧ zlen sig ≤ 72 ∧ low_s Sv.
Proof.
  intros Hb. split.
  - intros Hok. destruct (shape_of sig Hb Hok) as (a & b & c & t & l & R & Sv & ->).
    do 4 (apply Forall_cons in Hb as [_ Hb]). apply Forall_app in Hb as [HR HS].
    do 2 (apply Forall_cons in HS as [_ HS]).
    apply check_shape in Hok; [|done..]. rewrite shape_length in Hok.
    destruct Hok as (Hl & -> & -> & -> & -> & -> & H1 & H2 & H3).
    exists R, Sv. split_and!; try done; [|rewrite shape_length; lia].
    unfold der_signature. do 2 f_equal. lia.
  - intros (R & Sv & -> & H1 & H2 & Hl & H3). unfold der_signature in *.
    do 4 (apply Forall_cons in Hb as [_ Hb]). apply Forall_app in Hb as [HR HS].
    do 2 (apply Forall_cons in HS as [_ HS]).
    apply check_shape; [done..|]. rewrite shape_length in *.
    assert (zlen R ≠ 0 ∧ zlen Sv ≠ 0) as [? ?] by (by destruct R, Sv).
    split_and!; try done; lia.
Qed.
End Der.
