(* ===== verification/ScriptP2PKH.v ===== *)
(** * Bitcoin script: spending an output that pays to a public key hash *)

From Stdlib Require Import ZArith Lia.
From stdpp Require Import base numbers list.
From S2P Require Import Prelude ScriptNum ScriptNumFacts WireBase WireTx ScriptStack ScriptToken ScriptTokenFacts Sighash Taproot ScriptEngine ScriptExec ScriptExecFacts ScriptMultisig.

Open Scope Z_scope.

(** ** A script as the sequence of its opcodes *)

Section Run.
Context `{Crypto}.

Definition next_token (op : byte) (data : list byte) (vm : Engine) : Engine :=
  set_tokenizer (tok_advance (tokenizer vm) (length (encode op data)) op data) vm.

(** The body of [Step] at a token, without the end of the script. *)
Definition exec_op (op : byte) (data : list byte) : SR Engine () :=
  modify (next_token op data);;
  executeOpcode op data;;
  vm ← sr_get;
  if MaxStackSize <? Depth (dstack vm) + Depth (astack vm) then sr_err ErrStackOverflow
  else modify (λ vm, set_opcodeIdx (S (opcodeIdx vm)) vm).
Fixpoint exec_ops (l : list (byte * list byte)) : SR Engine () :=
  match l with [] => mret () | (op, data) :: rest => exec_op op data;; exec_ops rest end.

(** The tokenizer is at the tokens [l]. *)
Definition at_tokens (l : list (byte * list byte)) (vm : Engine) : Prop :=
  Forall (λ p, wf_token (fst p) (snd p)) l ∧ t_err (tokenizer vm) = None ∧
  drop (t_offset (tokenizer vm)) (t_script (tokenizer vm)) = encode_all l ∧
  (scriptIdx vm < length (scripts vm))%nat.

Lemma Step_at op data rest vm :
  at_tokens ((op, data) :: rest) vm →
  Step vm = match exec_op op data vm with
            | Ok (_, vm') => match rest with [] => end_of_script vm' | _ => Ok (false, vm') end
            | Err e => Err e
            | Crash => Crash
            end.
Proof.
  intros (Hwf & Herr & Hdrop & Hi). apply Forall_cons in Hwf as [Hwf Hrest].
  unfold Step, exec_op. unfold mbind, SR_bind. cbn [sr_get].
  rewrite (proj2 (Nat.leb_gt _ _)) by done.
  rewrite (Next_encode (tokenizer vm) op data (encode_all rest) Herr Hdrop Hwf).
  unfold modify. cbn [negb t_op t_data tok_advance]. cbv beta iota.
  change (set_tokenizer _ vm) with (next_token op data vm).
  destruct (executeOpcode op data (next_token op data vm)) as [[[] vm1]|e|] eqn:Ex; [|done..].
  unfold sr_get. cbv beta iota. destruct (MaxStackSize <? _); [done|]. cbv beta iota.
  assert (tokenizer vm1 = tokenizer (next_token op data vm)) as ->.
  { apply frame_executeOpcode in Ex. unfold framed in Ex. intuition. }
  unfold Done_tok, next_token. cbn [tokenizer set_tokenizer tok_advance t_err t_script t_offset].
  apply (f_equal length) in Hdrop as Hl. rewrite length_drop in Hl. simpl in Hl.
  rewrite length_app in Hl. destruct rest as [|[op' data'] rest].
  - rewrite (proj2 (Nat.leb_le _ _)) by (simpl in *; lia). done.
  - rewrite (proj2 (Nat.leb_gt _ _)); [done|]. simpl in *. lia.
Qed.

Lemma at_next op data rest vm vm' :
  at_tokens ((op, data) :: rest) vm → exec_op op data vm = Ok ((), vm') → at_tokens rest vm'.
Proof.
  intros (Hwf & Herr & Hdrop & Hi) Hex. apply Forall_cons in Hwf as [Hwf Hrest].
  unfold exec_op in Hex. apply sr_bind_ok in Hex as ([] & vm0 & [= <-] & Hex).
  apply sr_bind_ok in Hex as ([] & vm1 & Hop & Hex).
  apply sr_bind_ok in Hex as (v & vm2 & [= <- <-] & Hex).
  destruct (MaxStackSize <? _); [done|]. injection Hex as <-.
  apply frame_executeOpcode in Hop as (_ & _ & _ & _ & Hs & Hix & Ht & _).
  unfold at_tokens. cbn [tokenizer scripts scriptIdx set_opcodeIdx]. rewrite Ht, Hs, Hix.
  split_and!; [done|done| |done]. cbn [tokenizer next_token set_tokenizer tok_advance t_offset t_script].
  rewrite <- drop_drop, Hdrop. 
  change (encode_all ((op, data) :: rest)) with (encode op data ++ encode_all rest). by rewrite drop_app_length.
Qed.

(** Running a script executes its opcodes one after the other, and then
    goes on to the next script. *)
Lemma run_ops l vm k :
  l ≠ [] → at_tokens l vm →
  run_steps_vm (length l + k) vm =
  match exec_ops l vm with
  | Ok (_, vm1) =>
      match end_of_script vm1 with
      | Ok (true, vm') => Some (Ok vm')
      | Ok (false, vm') => run_steps_vm k vm'
      | Err e => Some (Err e)
      | Crash => Some Crash
      end
  | Err e => Some (Err e)
  | Crash => Some Crash
  end.
Proof.
  revert vm. induction l as [|[op data] l IH]; intros vm Hne Hat; [done|].
  simpl length. rewrite Nat.add_succ_l. cbn [run_steps_vm exec_ops]. rewrite (Step_at op data l vm Hat).
  unfold mbind, SR_bind. destruct (exec_op op data vm) as [[[] vm']|e|] eqn:Ex; [|done..].
  destruct l as [|p l]; [done|]. rewrite IH; [done..|]. by eapply at_next.
Qed.
End Run.

(** ** The opcodes of the two scripts *)

(** An engine that executes one of the two scripts, outside conditionals. *)
Definition plain (vm : Engine) : Prop :=
  condStack vm = [] ∧ taprootCtx vm = None ∧ witnessProgram vm = None ∧ stk (astack vm) = [].

Section P2PKH.
Context `{Crypto}.

(** What an opcode leaves of the engine, with the new stack. *)
Definition after (op : byte) (data : list byte) (l : list (list byte)) (vm : Engine) : Engine :=
  set_opcodeIdx (S (opcodeIdx vm))
    (set_dstack (mkStack l (verifyMinimalData (dstack vm)))
       (set_numOps (if OP_16 <? op then numOps vm + 1 else numOps vm) (next_token op data vm))).

(** An opcode of a plain engine runs its function. *)
Lemma exec_plain op data vm :
  plain vm → isOpcodeDisabled op = false → isOpcodeAlwaysIllegal op = false → numOps vm < 201 →
  zlen data ≤ 520 → (0 <= op <= OP_PUSHDATA4 → checkMinimalDataPush op data = None) →
  executeOpcode op data vm =
  opfunc op data (set_numOps (if OP_16 <? op then numOps vm + 1 else numOps vm) vm).
Proof.
  intros (Hc & Ht & Hw & Ha) Hd Hi Hn Hl Hm. unfold executeOpcode. rewrite Hd, Hi.
  rewrite (sr_run _ _ _ _ _ (eq_refl : sr_get vm = Ok (vm, vm))), Ht. cbn [andb].
  set (vm1 := set_numOps (if OP_16 <? op then numOps vm + 1 else numOps vm) vm).
  erewrite sr_run with (a := ()) (s' := vm1).
  2: { unfold vm1. destruct (OP_16 <? op).
       - unfold mbind, SR_bind, modify. rewrite (proj2 (Z.ltb_ge MaxOpsPerScript _)) by (unfold MaxOpsPerScript; lia). done.
       - rewrite (proj2 (Z.ltb_ge MaxScriptElementSize _)) by (unfold MaxScriptElementSize; lia). by destruct vm. }
  rewrite (sr_run _ _ _ _ _ (eq_refl : sr_get vm1 = Ok (vm1, vm1))).
  assert (isBranchExecuting vm1 = true) as Hb.
  { unfold isBranchExecuting, vm1. cbn [condStack set_numOps]. by rewrite Hc. }
  rewrite Hb. cbn [negb andb].
  erewrite sr_run with (a := ()) (s' := vm1); [done|].
  destruct (_ && (op <=? _)) eqn:E; [|done].
  apply andb_true_iff in E as [[_ E1%Z.leb_le]%andb_true_iff E2%Z.leb_le]. by rewrite Hm.
Qed.

(** The engine in which the opcode function of a plain engine runs. *)
Definition entered (op : byte) (data : list byte) (vm : Engine) : Engine :=
  set_numOps (if OP_16 <? op then numOps vm + 1 else numOps vm) (next_token op data vm).

Definition runnable (op : byte) (data : list byte) : Prop :=
  isOpcodeDisabled op = false ∧ isOpcodeAlwaysIllegal op = false ∧ zlen data ≤ 520 ∧
  (0 <= op <= OP_PUSHDATA4 → checkMinimalDataPush op data = None).

Lemma exec_op_plain op data vm :
  plain vm → runnable op data → numOps vm < 201 →
  (∀ l, opfunc op data (entered op data vm) =
          Ok ((), set_dstack (mkStack l (verifyMinimalData (dstack vm))) (entered op data vm)) →
        zlen l ≤ 1000 → exec_op op data vm = Ok ((), after op data l vm)) ∧
  (∀ e, opfunc op data (entered op data vm) = Err e → exec_op op data vm = Err e) ∧
  (opfunc op data (entered op data vm) = Crash → exec_op op data vm = Crash).
Proof.
  intros Hp (Hd & Hi & Hl & Hm) Hn.
  assert (executeOpcode op data (next_token op data vm) = opfunc op data (entered op data vm)) as Hex
    by (by apply exec_plain).
  unfold exec_op. rewrite (sr_run _ _ _ _ _ (eq_refl : modify _ vm = Ok ((), next_token op data vm))).
  unfold mbind, SR_bind. rewrite Hex. split; [|split; [by intros e ->|by intros ->]]. intros l -> Hlen. unfold sr_get.
  cbn [dstack astack set_dstack]. unfold Depth. cbn [stk].
  destruct Hp as (_ & _ & _ & Ha). change (astack (entered op data vm)) with (astack vm). rewrite Ha.
  rewrite (proj2 (Z.ltb_ge MaxStackSize _)); [done|]. unfold MaxStackSize. simpl. lia.
Qed.

Lemma plain_after op data l vm : plain vm → plain (after op data l vm).
Proof. by intros (? & ? & ? & ?). Qed.

Definition pushable (data : list byte) : Prop := 2 ≤ zlen data ≤ 75.

Lemma push_runnable data : pushable data → runnable (zlen data) data.
Proof.
  intros Hd. unfold pushable in Hd. assert (∃ n, (n < 76)%nat ∧ zlen data = Z.of_nat n) as (n & Hn & He).
  { exists (length data). lia. }
  split_and!; [| |lia|].
  - rewrite He. clear - Hn. do 76 (destruct n as [|n]; [done|]). lia.
  - unfold isOpcodeAlwaysIllegal, OP_VERIF, OP_VERNOTIF. by rewrite !(proj2 (Z.eqb_neq _ _)) by lia.
  - intros _. unfold checkMinimalDataPush.
    rewrite !(proj2 (Z.eqb_neq (zlen data) _)) by (unfold OP_0; lia). cbn [andb].
    rewrite (proj2 (Z.leb_le (zlen data) 75)) by lia. by rewrite Z.eqb_refl.
Qed.

Lemma exec_push data l m vm :
  plain vm → pushable data → numOps vm < 201 → dstack vm = mkStack l m → zlen l < 1000 →
  exec_op (zlen data) data vm = Ok ((), after (zlen data) data (data :: l) vm).
Proof.
  intros Hp Hd Hn Hs Hl. apply exec_op_plain; [done|by apply push_runnable|done| |cbn [length]; lia].
  unfold pushable in Hd. unfold opfunc.
  rewrite (proj2 (Z.eqb_neq (zlen data) OP_0)) by (unfold OP_0; lia).
  rewrite (proj2 (Z.leb_le OP_DATA_1 _)), (proj2 (Z.leb_le _ OP_PUSHDATA4))
    by (unfold OP_DATA_1, OP_PUSHDATA4; lia). cbn [andb].
  unfold push, on_dstack, PushByteArray, with_stk.
  change (dstack (entered _ _ vm)) with (dstack vm). by rewrite Hs.
Qed.

(** The scripts. *)
Definition sig_tokens (sig pk : list byte) : list (byte * list byte) := [(zlen sig, sig); (zlen pk, pk)].
Definition pk_tokens (h : list byte) : list (byte * list byte) :=
  [(OP_DUP, []); (OP_HASH160, []); (OP_DATA_20, h); (OP_EQUALVERIFY, []); (OP_CHECKSIG, [])].

Lemma exec_sig sig pk m vm :
  plain vm → pushable sig → pushable pk → numOps vm = 0 → dstack vm = mkStack [] m →
  exec_ops (sig_tokens sig pk) vm = Ok ((), after (zlen pk) pk [pk; sig] (after (zlen sig) sig [sig] vm)).
Proof.
  intros Hp Hs Hk Hn Hd. cbn [exec_ops sig_tokens].
  rewrite (sr_run _ _ _ _ _ (exec_push sig [] m vm Hp Hs ltac:(lia) Hd ltac:(simpl; lia))).
  assert (numOps (after (zlen sig) sig [sig] vm) = 0) as Hn'.
  { unfold after, pushable in *. cbn [numOps set_opcodeIdx set_dstack set_numOps].
    by rewrite (proj2 (Z.ltb_ge OP_16 _)) by (unfold OP_16; lia). }
  erewrite sr_run; [done|].
  apply (exec_push pk [sig] (verifyMinimalData (dstack vm))); [by apply plain_after|done|lia|done|simpl; lia].
Qed.

(** ** The script of the output *)

Section Output.
Context (sig pk h : list byte) (script : list byte).
Hypothesis script_eq : script = encode_all (pk_tokens h).
Hypothesis sig_size : 20 < zlen sig ≤ 75.
Hypothesis h_size : zlen h = 20.

(** Nothing is removed: the only data the script pushes is the hash. *)
Lemma remove_nothing ts o f sc :
  existsb f ts = false →
  ∃ o', fold_left (remove_step sc f) ts (None, o, false) = (None, o', false).
Proof.
  revert o. induction ts as [|x ts IH]; intros o; [by exists o|]. simpl.
  intros [Hx Hts]%orb_false_iff. rewrite Hx. by apply IH.
Qed.

Lemma pk_tokens_wf : Forall (λ p, wf_token (fst p) (snd p)) (pk_tokens h).
Proof. repeat constructor; first [done | unfold wf_token; simpl; lia]. Qed.

Lemma remove_sig : removeOpcodeByData script sig = (script, false).
Proof.
  unfold removeOpcodeByData. destruct (_ || _) eqn:E; [done|]. clear E. unfold remove_loop.
  destruct (tokens_encode (pk_tokens h) pk_tokens_wf) as [Ht _]. rewrite <- script_eq in Ht.
  destruct (remove_nothing (fst (tokens 0 script)) 0 (push_of sig) script) as [o' ->]; [|done].
  assert (Forall (λ p, snd p ≠ sig) (map tok_pair (fst (tokens 0 script)))) as Hf.
  { rewrite Ht. repeat constructor; simpl; intros <-; simpl in sig_size; lia. }
  apply not_true_is_false. intros (x & Hin & Hp)%existsb_exists.
  rewrite Forall_map, Forall_forall in Hf. apply (Hf x); [by apply list_elem_of_In|].
  unfold push_of in Hp. apply andb_true_iff in Hp as [_ Hp]. by apply bool_decide_eq_true in Hp.
Qed.

(** What the check of the signature comes to. *)
Definition sig_outcome (vm : Engine) : Res bool :=
  match parseBaseSigAndPubkey vm pk sig with
  | inr e => Err e
  | inl None => Ok false
  | inl (Some hashType) =>
      digest ← calcSignatureHash (tx vm) (txIdx vm) script hashType;
      let valid := VerifySignature digest (take (length sig - 1) sig) pk in
      if negb valid && hasFlag vm ScriptVerifyNullFail then Err ErrNullFail else Ok valid
  end.

Lemma checksig_run vm m :
  plain vm → dstack vm = mkStack [pk; sig] m → subScript vm = Ok script →
  opcodeCheckSig vm =
  match sig_outcome vm with
  | Ok b => Ok ((), set_dstack (mkStack [fromBool b] m) vm)
  | Err e => Err e
  | Crash => Crash
  end.
Proof.
  intros (Hc & Ht & Hw & Ha) Hd Hsub. unfold opcodeCheckSig.
  rewrite (sr_run _ _ _ _ _ (pop_cons vm pk [sig] m Hd)).
  rewrite (sr_run _ _ _ _ _ (pop_cons (set_dstack (mkStack [sig] m) vm) sig [] m eq_refl)).
  set (vm1 := set_dstack (mkStack [] m) _).
  rewrite (sr_run _ _ _ _ _ (eq_refl : sr_get vm1 = Ok (vm1, vm1))).
  change (taprootCtx vm1) with (taprootCtx vm). rewrite Ht.
  change (witnessProgram vm1) with (witnessProgram vm). rewrite Hw.
  destruct (length sig) as [|n] eqn:Hlen in |- *; [lia|]. unfold checksig_base, sig_outcome.
  rewrite (sr_run _ _ _ _ _ (eq_refl : sr_get vm1 = Ok (vm1, vm1))).
  change (parseBaseSigAndPubkey vm1) with (parseBaseSigAndPubkey vm).
  destruct (parseBaseSigAndPubkey vm pk sig) as [[hashType|]|e]; [|done..].
  change (subScript vm1) with (subScript vm). rewrite Hsub.
  rewrite (sr_run _ _ _ _ _ (eq_refl : sr_lift (Ok script) vm1 = Ok (script, vm1))).
  unfold base_Verify. rewrite remove_sig.
  change (tx vm1) with (tx vm). change (txIdx vm1) with (txIdx vm).
  destruct (calcSignatureHash _ _ _ _) as [digest| |]; [|done..].
  unfold mbind at 2 3, Res_bind. erewrite sr_run by done. unfold checksig_result.
  rewrite (sr_run _ _ _ _ _ (eq_refl : sr_get vm1 = Ok (vm1, vm1))). cbn [sigValid sigMatch].
  rewrite andb_false_r. change (taprootCtx vm1) with (taprootCtx vm). rewrite Ht, Hlen.
  change (hasFlag vm1) with (hasFlag vm).
  rewrite andb_false_r. cbn [andb orb Nat.ltb Nat.leb]. rewrite andb_true_r.
  by destruct (negb _ && _).
Qed.

Definition hash160 (b : list byte) : list byte := ripemd160 (sha256 b).

Lemma op_runnable op :
  In op [OP_DUP; OP_HASH160; OP_EQUALVERIFY; OP_CHECKSIG] → runnable op [].
Proof.
  intros Hin. repeat (destruct Hin as [<-|Hin]); try done;
    (split_and!; [done..|]; intros Hop; by destruct Hop).
Qed.

Lemma exec_dup vm m :
  plain vm → numOps vm < 201 → dstack vm = mkStack [pk; sig] m → 
  exec_op OP_DUP [] vm = Ok ((), after OP_DUP [] [pk; pk; sig] vm).
Proof.
  intros Hp Hn Hd. apply exec_op_plain; try done; [apply op_runnable; simpl; auto|].
  change (opfunc OP_DUP []) with (on_dstack (DupN 1)). unfold on_dstack.
  change (dstack (entered _ _ vm)) with (dstack vm). by rewrite Hd.
Qed.
Lemma exec_hash vm m :
  plain vm → numOps vm < 201 → dstack vm = mkStack [pk; pk; sig] m →
  exec_op OP_HASH160 [] vm = Ok ((), after OP_HASH160 [] [hash160 pk; pk; sig] vm).
Proof.
  intros Hp Hn Hd. apply exec_op_plain; try done; [apply op_runnable; simpl; auto|].
  change (opfunc OP_HASH160 []) with opcodeHash160. unfold opcodeHash160, hash_top.
  rewrite (sr_run _ _ _ _ _ (pop_cons (entered OP_HASH160 [] vm) pk [pk; sig] m Hd)). by rewrite Hd.
Qed.
Lemma exec_equal vm m :
  plain vm → numOps vm < 201 → dstack vm = mkStack [h; hash160 pk; pk; sig] m →
  exec_op OP_EQUALVERIFY [] vm =
  if bool_decide (hash160 pk = h) then Ok ((), after OP_EQUALVERIFY [] [pk; sig] vm)
  else Err ErrEqualVerify.
Proof.
  intros Hp Hn Hd. pose proof (exec_op_plain OP_EQUALVERIFY [] vm Hp) as Hex.
  destruct Hex as (Hok & Herr & Hcrash); [apply op_runnable; simpl; auto|done|].
  assert (opfunc OP_EQUALVERIFY [] (entered OP_EQUALVERIFY [] vm) =
    if bool_decide (hash160 pk = h)
    then Ok ((), set_dstack (mkStack [pk; sig] m) (entered OP_EQUALVERIFY [] vm))
    else Err ErrEqualVerify) as Hrun.
  { change (opfunc OP_EQUALVERIFY []) with (opcodeEqual;; abstractVerify ErrEqualVerify).
    set (vm0 := entered _ _ vm). unfold mbind at 1, SR_bind at 1. unfold opcodeEqual.
    rewrite (sr_run _ _ _ _ _ (pop_cons vm0 h [hash160 pk; pk; sig] m Hd)).
    rewrite (sr_run _ _ _ _ _ (pop_cons (set_dstack (mkStack [hash160 pk; pk; sig] m) vm0)
      (hash160 pk) [pk; sig] m eq_refl)).
    assert (bool_decide (h = hash160 pk) = bool_decide (hash160 pk = h)) as -> by (by apply bool_decide_ext).
    by destruct (bool_decide (hash160 pk = h)). }
  destruct (bool_decide (hash160 pk = h)); [|by apply Herr].
  apply Hok; [by rewrite Hd|done].
Qed.

Lemma exec_checksig vm m :
  plain vm → numOps vm < 201 → dstack vm = mkStack [pk; sig] m → lastCodeSep vm = 0%nat →
  scripts vm !! scriptIdx vm = Some script →
  exec_op OP_CHECKSIG [] vm =
  match sig_outcome vm with
  | Ok b => Ok ((), after OP_CHECKSIG [] [fromBool b] vm) | Err e => Err e | Crash => Crash
  end.
Proof.
  intros Hp Hn Hd Hl Hs.
  destruct (exec_op_plain OP_CHECKSIG [] vm Hp) as (Hok & Herr & Hcrash); [apply op_runnable; simpl; auto|done|].
  assert (opfunc OP_CHECKSIG [] (entered OP_CHECKSIG [] vm) =
    match sig_outcome vm with
    | Ok b => Ok ((), set_dstack (mkStack [fromBool b] m) (entered OP_CHECKSIG [] vm))
    | Err e => Err e | Crash => Crash
    end) as Hrun.
  { change (opfunc OP_CHECKSIG []) with opcodeCheckSig.
    rewrite (checksig_run (entered OP_CHECKSIG [] vm) m); [done| |done|].
    - by destruct Hp as (? & ? & ? & ?).
    - unfold subScript. change (scripts (entered _ _ _)) with (scripts vm).
      change (scriptIdx (entered _ _ _)) with (scriptIdx vm).
      change (lastCodeSep (entered _ _ _)) with (lastCodeSep vm). by rewrite Hs, Hl. }
  destruct (sig_outcome vm) as [b|e|] eqn:Eo.
  - apply Hok; [by rewrite Hd|by destruct b].
  - by apply Herr.
  - by apply Hcrash.
Qed.

(** What is known of the engine before each opcode of the script: [o] is
    the outcome of the signature check. *)
Definition ready (n : Z) (l : list (list byte)) (m : bool) (o : Res bool)
    (all : list (list byte)) (vm : Engine) : Prop :=
  plain vm ∧ numOps vm = n ∧ dstack vm = mkStack l m ∧ lastCodeSep vm = 0%nat ∧
  scripts vm = all ∧ scriptIdx vm = 1%nat ∧ bip16 vm = false ∧ sig_outcome vm = o.

Lemma ready_after op data n n' l l' m o all vm :
  ready n l m o all vm → n' = (if OP_16 <? op then n + 1 else n) →
  ready n' l' m o all (after op data l' vm).
Proof.
  intros (Hp & Hn & Hd & Hl & Hs & Hi & Hb & Ho) ->. split_and!; [by apply plain_after| | |done..].
  - cbn [after numOps set_opcodeIdx set_dstack set_numOps]. by rewrite Hn.
  - cbn [after dstack set_opcodeIdx set_dstack]. by rewrite Hd.
Qed.

Context (m : bool) (o : Res bool) (all : list (list byte)).
Hypothesis all_1 : all !! 1%nat = Some script.

Lemma run_dup vm :
  ready 0 [pk; sig] m o all vm →
  ∃ vm', exec_op OP_DUP [] vm = Ok ((), vm') ∧ ready 1 [pk; pk; sig] m o all vm'.
Proof.
  intros Hr. exists (after OP_DUP [] [pk; pk; sig] vm).
  split; [|by eapply ready_after]. destruct Hr as (P & N & D & _). apply (exec_dup vm m); [done|lia|done].
Qed.
Lemma run_hash vm :
  ready 1 [pk; pk; sig] m o all vm →
  ∃ vm', exec_op OP_HASH160 [] vm = Ok ((), vm') ∧ ready 2 [hash160 pk; pk; sig] m o all vm'.
Proof.
  intros Hr. exists (after OP_HASH160 [] [hash160 pk; pk; sig] vm).
  split; [|by eapply ready_after]. destruct Hr as (P & N & D & _). apply (exec_hash vm m); [done|lia|done].
Qed.
Lemma run_push vm :
  ready 2 [hash160 pk; pk; sig] m o all vm →
  ∃ vm', exec_op OP_DATA_20 h vm = Ok ((), vm') ∧ ready 2 [h; hash160 pk; pk; sig] m o all vm'.
Proof.
  intros Hr. exists (after OP_DATA_20 h [h; hash160 pk; pk; sig] vm).
  split; [|by eapply ready_after]. destruct Hr as (P & N & D & _).
  change OP_DATA_20 with 20. rewrite <- h_size.
  apply (exec_push h _ m); [done|unfold pushable; lia|lia|done|cbn [length]; lia].
Qed.
Lemma run_equal vm :
  ready 2 [h; hash160 pk; pk; sig] m o all vm →
  if bool_decide (hash160 pk = h) then
    ∃ vm', exec_op OP_EQUALVERIFY [] vm = Ok ((), vm') ∧ ready 3 [pk; sig] m o all vm'
  else exec_op OP_EQUALVERIFY [] vm = Err ErrEqualVerify.
Proof.
  intros Hr. pose proof Hr as (P & N & D & _).
  pose proof (exec_equal vm m P ltac:(lia) D) as Hex. destruct (bool_decide (hash160 pk = h)); [|done].
  eexists. split; [done|]. by eapply ready_after.
Qed.
Lemma run_checksig vm :
  ready 3 [pk; sig] m o all vm →
  match o with
  | Ok b => ∃ vm', exec_op OP_CHECKSIG [] vm = Ok ((), vm') ∧ ready 4 [fromBool b] m o all vm'
  | Err e => exec_op OP_CHECKSIG [] vm = Err e
  | Crash => exec_op OP_CHECKSIG [] vm = Crash
  end.
Proof.
  intros Hr. pose proof Hr as (P & N & D & L & A & I & _ & O).
  assert (scripts vm !! scriptIdx vm = Some script) as Hs by by rewrite A, I.
  pose proof (exec_checksig vm m P ltac:(lia) D L Hs) as Hex. rewrite O in Hex.
  destruct o; [|done..]. eexists. split; [done|]. by eapply ready_after.
Qed.

Lemma exec_pk vm :
  ready 0 [pk; sig] m o all vm →
  if bool_decide (hash160 pk = h) then
    match o with
    | Ok b => ∃ vm', exec_ops (pk_tokens h) vm = Ok ((), vm') ∧ ready 4 [fromBool b] m o all vm'
    | Err e => exec_ops (pk_tokens h) vm = Err e
    | Crash => exec_ops (pk_tokens h) vm = Crash
    end
  else exec_ops (pk_tokens h) vm = Err ErrEqualVerify.
Proof.
  intros H0. cbn [exec_ops pk_tokens].
  destruct (run_dup vm H0) as (vm1 & R1 & H1). rewrite (sr_run _ _ _ _ _ R1).
  destruct (run_hash vm1 H1) as (vm2 & R2 & H2). rewrite (sr_run _ _ _ _ _ R2).
  destruct (run_push vm2 H2) as (vm3 & R3 & H3). rewrite (sr_run _ _ _ _ _ R3).
  pose proof (run_equal vm3 H3) as R4. destruct (bool_decide (hash160 pk = h)).
  2: { unfold mbind, SR_bind. by rewrite R4. }
  destruct R4 as (vm4 & R4 & H4). rewrite (sr_run _ _ _ _ _ R4).
  pose proof (run_checksig vm4 H4) as R5. unfold mbind, SR_bind. destruct o as [b|e|]; [|by rewrite R5..].
  destruct R5 as (vm5 & R5 & H5). exists vm5. by rewrite R5.
Qed.

(** The end: one item is left, and it decides. *)
Lemma finish vm b :
  length all = 2%nat → ready 4 [fromBool b] m o all vm →
  ∃ vm', end_of_script vm = Ok (true, vm') ∧
    CheckErrorCondition true vm' = if b then Ok ((), set_dstack (mkStack [] m) vm') else Err ErrEvalFalse.
Proof.
  intros H2 ((Hc & Ht & Hw & Ha) & _ & Hd & _ & Hs & Hi & Hb & _).
  destruct vm as [fl t i p2sh ss si oi cs tok saved ds as_ cond n wv wp tap hc amt pf].
  cbn in Hc, Ht, Hw, Ha, Hd, Hs, Hi, Hb. subst ss si p2sh cond wp tap ds.
  assert (all !! 2%nat = None) as Hnone by (apply lookup_ge_None; by rewrite H2).
  unfold end_of_script, next_script, mbind, SR_bind, modify, sr_get. cbn. rewrite Hnone. cbn. rewrite Hnone.
  eexists. split; [done|]. unfold CheckErrorCondition, mbind, SR_bind, sr_get. cbn. rewrite H2. cbn.
  rewrite !andb_false_r. by destruct b.
Qed.
End Output.

(** ** The spend *)

(** The script [payToPubKeyHashScript] builds. *)
Lemma pay_script h script :
  zlen h = 20 → payToPubKeyHashScript h = (script, None) → script = encode_all (pk_tokens h).
Proof.
  intros Hh. do 20 (destruct h as [|? h]; [simpl in Hh; lia|]). destruct h; [|simpl in Hh; lia].
  intros Hp. by injection Hp as <-.
Qed.

Section Spend.
Context (fl : Z) (t : MsgTx) (idx : nat) (input : TxIn) (sig pk h script : list byte).
Context (hashes : option TxSigHashes) (amount : Z) (fetch : PrevOutputFetcher).
Hypothesis the_input : TxIns t !! idx = Some input.
Hypothesis no_witness : Witness input = [].
Hypothesis sig_script : SignatureScript input = encode_all (sig_tokens sig pk).
Hypothesis sig_size : 20 < zlen sig ≤ 75.
Hypothesis pk_size : 2 ≤ zlen pk ≤ 75.
Hypothesis h_size : zlen h = 20.
Hypothesis flags_ok :
  has fl ScriptVerifyWitness = true ∨ has fl ScriptVerifyCleanStack = true → has fl ScriptBip16 = true.
Hypothesis script_eq : script = encode_all (pk_tokens h).

Lemma pushable_wf data : pushable data → wf_token (zlen data) data.
Proof.
  unfold pushable, wf_token, opcode_length, OP_DATA_1, OP_DATA_75. intros Hd.
  rewrite (proj2 (Z.leb_le 1 _)), (proj2 (Z.leb_le _ 75)) by lia. cbn [andb].
  rewrite (proj2 (Z.ltb_lt 0 _)) by lia. lia.
Qed.
Lemma sig_tokens_wf : Forall (λ p, wf_token (fst p) (snd p)) (sig_tokens sig pk).
Proof. repeat constructor; apply pushable_wf; unfold pushable; simpl; lia. Qed.

Lemma push_only : IsPushOnlyScript (encode_all (sig_tokens sig pk)) = true.
Proof.
  destruct (tokens_encode _ sig_tokens_wf) as [Ht He]. unfold IsPushOnlyScript, checkScriptParses in *.
  destruct (tokens 0 (encode_all (sig_tokens sig pk))) as [ts e]. simpl in Ht, He. rewrite He.
  rewrite andb_true_r. apply forallb_forall. intros x Hx. apply Z.leb_le.
  assert (Forall (λ p, fst p ≤ OP_16) (map tok_pair ts)) as Hf.
  { rewrite Ht. unfold sig_tokens, OP_16. repeat constructor; simpl; lia. }
  rewrite Forall_map, Forall_forall in Hf. apply Hf. by apply list_elem_of_In.
Qed.

Lemma length_encode_tokens l :
  zlen (encode_all l) = foldr (λ p n, zlen (encode (fst p) (snd p)) + n) 0 l.
Proof.
  induction l as [|p l IH]; [done|]. change (encode_all (p :: l)) with (encode (fst p) (snd p) ++ encode_all l).
  rewrite length_app, Nat2Z.inj_add, IH. done.
Qed.
Lemma script_length : length script = 25%nat.
Proof.
  apply Nat2Z.inj. rewrite script_eq, length_encode_tokens. cbn [foldr pk_tokens fst snd].
  rewrite !encode_length. cbn [width]. simpl. lia.
Qed.
Lemma encode_push_length data : pushable data → length (encode (zlen data) data) = S (length data).
Proof.
  intros Hd. rewrite encode_length. unfold pushable in Hd.
  unfold width, opcode_length, OP_DATA_1, OP_DATA_75.
  rewrite (proj2 (Z.leb_le 1 _)), (proj2 (Z.leb_le _ 75)) by lia. cbn [andb].
  replace (Z.to_nat (- (zlen data + 1))) with 0%nat by lia. lia.
Qed.

Lemma check_script_tokens l :
  Forall (λ p, wf_token (fst p) (snd p)) l → zlen (encode_all l) ≤ 10000 →
  check_script (encode_all l) = Ok ().
Proof.
  intros Hwf Hl. unfold check_script. rewrite (proj2 (Z.ltb_ge MaxScriptSize _)) by done.
  by rewrite (proj2 (tokens_encode l Hwf)).
Qed.

Definition start_vm : Engine :=
  mkEngine fl t idx false [encode_all (sig_tokens sig pk); script] 0 0 0
    (MakeScriptTokenizer 0 (encode_all (sig_tokens sig pk))) []
    (mkStack [] (has fl ScriptVerifyMinimalData)) (mkStack [] (has fl ScriptVerifyMinimalData)) [] 0 0 None None
    hashes amount fetch.

Lemma NewEngine_start : NewEngine script t (Z.of_nat idx) fl hashes amount fetch = Ok start_vm.
Proof.
  assert (length (encode_all (sig_tokens sig pk)) = (2 + length sig + length pk)%nat) as Hlen.
  { apply Nat2Z.inj. rewrite length_encode_tokens. cbn [foldr sig_tokens fst snd].
    rewrite !encode_push_length by (unfold pushable; lia). lia. }
  assert (IsWitnessProgram script = false) as Hnw.
  { unfold IsWitnessProgram, extractWitnessProgramInfo. rewrite script_length. by rewrite script_eq. }
  assert (isScriptHashScript script = false) as Hns.
  { unfold isScriptHashScript, extractScriptHash. by rewrite script_length. }
  unfold NewEngine. rewrite (proj2 (Z.ltb_ge (Z.of_nat idx) 0)) by lia.
  assert (idx < length (TxIns t))%nat as Hidx by (by apply lookup_lt_Some in the_input).
  rewrite (proj2 (Z.leb_gt _ (Z.of_nat idx))) by lia. cbn [orb].
  rewrite Nat2Z.id, the_input, sig_script. cbv zeta.
  rewrite (proj2 (Nat.eqb_neq (length (encode_all (sig_tokens sig pk))) 0)) by lia. cbn [andb].
  assert (has fl ScriptVerifyCleanStack &&
    (negb (has fl ScriptBip16) && negb (has fl ScriptVerifyWitness)) = false) as ->.
  { destruct (has fl ScriptVerifyCleanStack); [|done]. by rewrite flags_ok by by right. }
  rewrite push_only, Hns. cbn [negb]. rewrite !andb_false_r. cbn [andb].
  rewrite (check_script_tokens (sig_tokens sig pk) sig_tokens_wf) by lia.
  assert (check_script script = Ok ()) as Hc.
  { pose proof script_length as Hl. revert Hl. rewrite script_eq. intros Hl.
    apply check_script_tokens; [by apply pk_tokens_wf|lia]. }
  unfold mbind, Res_bind. rewrite Hc.
  unfold find_witness_program. rewrite Hnw, no_witness.
  assert (has fl ScriptVerifyWitness = true → has fl ScriptBip16 = true) as Hw by auto.
  destruct (has fl ScriptVerifyWitness); [rewrite Hw by done|]; done.
Qed.

(** From the first script to the second. *)
Lemma second_script vm l m :
  plain vm → dstack vm = mkStack l m → scripts vm = [encode_all (sig_tokens sig pk); script] →
  scriptIdx vm = 0%nat → bip16 vm = false →
  ∃ vm', end_of_script vm = Ok (false, vm') ∧ at_tokens (pk_tokens h) vm' ∧
    ready sig pk script 0 l m (sig_outcome sig pk script vm) [encode_all (sig_tokens sig pk); script] vm'.
Proof.
  intros (Hc & Ht & Hw & Ha) Hd Hs Hi Hb.
  assert (∃ x rest, script = x :: rest) as (x & rest & Hscript).
  { rewrite script_eq. by do 2 eexists. }
  pose proof (pk_tokens_wf h h_size) as Hwf.
  destruct vm as [vfl vt vi p2sh ss si oi cs tok saved ds as_ cond n wv wp tap hc amt pf].
  cbn in Hc, Ht, Hw, Ha, Hd, Hs, Hi, Hb. subst ss si p2sh cond wp tap ds.
  unfold end_of_script, next_script, mbind, SR_bind, modify, sr_get. cbn. rewrite Hscript. cbn.
  eexists. split; [done|]. split; [|done]. rewrite <- Hscript.
  split_and!; [done|done| |simpl; lia]. by rewrite script_eq.
Qed.

(** The input exists, so the digest does. *)
Lemma sig_outcome_no_crash : sig_outcome sig pk script start_vm ≠ Crash.
Proof.
  unfold sig_outcome. destruct (parseBaseSigAndPubkey _ _ _) as [[ht|]|]; [|done..].
  unfold calcSignatureHash. cbn [tx txIdx start_vm]. destruct (_ && (length (TxOuts t) <=? idx)%nat).
  { unfold mbind, Res_bind. by destruct (_ && _). }
  apply lookup_lt_Some in the_input. rewrite (proj2 (Nat.leb_gt _ _)) by done. rewrite andb_false_r.
  unfold mbind, Res_bind. by destruct (negb _ && _).
Qed.

Lemma sig_outcome_after op data l vm :
  sig_outcome sig pk script (after op data l vm) = sig_outcome sig pk script vm.
Proof. done. Qed.
End Spend.

(** C40. Spending an output that pays to the public key hash [h], with an
    input that pushes a signature and a public key, under any consistent
    flags: the engine is built, and executing it takes seven steps.  It
    succeeds exactly when the key hashes to [h] and the signature is a valid
    one for the key and the digest of this transaction with the output's
    script; every other case ends with the error that names it. *)
Theorem p2pkh_spend fl t idx input sig pk h script hashes amount fetch :
  TxIns t !! idx = Some input → Witness input = [] →
  SignatureScript input = encode (zlen sig) sig ++ encode (zlen pk) pk →
  20 < zlen sig ≤ 75 → 2 ≤ zlen pk ≤ 75 → zlen h = 20 →
  (has fl ScriptVerifyWitness = true ∨ has fl ScriptVerifyCleanStack = true → has fl ScriptBip16 = true) →
  payToPubKeyHashScript h = (script, None) →
  ∃ vm, NewEngine script t (Z.of_nat idx) fl hashes amount fetch = Ok vm ∧
    (∀ fuel, (7 ≤ fuel)%nat →
    Execute fuel vm = Some (
      if bool_decide (hash160 pk = h) then
        match sig_outcome sig pk script vm with
        | Ok true => Ok ()
        | Ok false => Err ErrEvalFalse
        | Err e => Err e
        | Crash => Crash
        end
      else Err ErrEqualVerify)) ∧ sig_outcome sig pk script vm ≠ Crash.
Proof.
  intros Hin Hw Hss Hs Hk Hh Hfl Hpay.
  assert (script = encode_all (pk_tokens h)) as Heq by (by eapply pay_script).
  rewrite <- (app_nil_r (encode (zlen pk) pk)) in Hss.
  exists (start_vm fl t idx sig pk script hashes amount fetch). split; [by eapply NewEngine_start|].
  split; [|by eapply sig_outcome_no_crash]. intros fuel Hfuel. set (vm0 := start_vm _ _ _ _ _ _ _ _ _). set (m := has fl ScriptVerifyMinimalData).
  set (o := sig_outcome sig pk script vm0).

  replace fuel with (length (sig_tokens sig pk) + (length (pk_tokens h) + (fuel - 7)))%nat by (simpl; lia).
  unfold Execute. rewrite run_ops; [|done|].
  2: { split_and!; [by apply sig_tokens_wf|done|done|simpl; lia]. }
  rewrite (exec_sig sig pk m vm0) by (done || (unfold pushable; lia)).
  destruct (second_script sig pk h script Hh Heq (after (zlen pk) pk [pk; sig] (after (zlen sig) sig [sig] vm0))
    [pk; sig] m) as (vm1 & -> & Hat & Hready); [by do 2 apply plain_after|done..|].
  rewrite !sig_outcome_after in Hready. fold o in Hready. rewrite run_ops by done.
  pose proof (exec_pk sig pk h script Heq Hs Hh m o [encode_all (sig_tokens sig pk); script] eq_refl vm1 Hready) as Hpk.
  destruct (bool_decide (hash160 pk = h)); [|by rewrite Hpk].
  destruct o as [b|e|]; [|by rewrite Hpk..]. destruct Hpk as (vm2 & -> & Hr2).
  destruct (finish sig pk script m (Ok b) [encode_all (sig_tokens sig pk); script] vm2 b eq_refl Hr2) as (vm3 & -> & Hfin).
  rewrite Hfin. by destruct b.
Qed.
End P2PKH.

(** ** Bitcoin script: lock times and arithmetic *)

(** ** Bits of sequence numbers *)

Lemma land_pow2 x k : 0 ≤ k → Z.land x (2 ^ k) = Z.b2z (Z.testbit x k) * 2 ^ k.
Proof.
  intros Hk. apply Z.bits_inj'. intros i Hi. rewrite Z.land_spec, Z.pow2_bits_eqb by done.
  destruct (Z.testbit x k) eqn:E; simpl Z.b2z.
  - rewrite Z.mul_1_l, Z.pow2_bits_eqb by done. destruct (Z.eqb_spec k i) as [->|]; [by rewrite E|apply andb_false_r].
  - rewrite Z.mul_0_l, Z.bits_0. destruct (Z.eqb_spec k i) as [->|]; [by rewrite E|apply andb_false_r].
Qed.

(** Masking a sequence number keeps the type bit and the low 16 bits. *)
Lemma land_lock_mask x :
  Z.land x (Z.lor SequenceLockTimeIsSeconds SequenceLockTimeMask) =
  Z.b2z (Z.testbit x 22) * 2 ^ 22 + x mod 65536.
Proof.
  unfold SequenceLockTimeIsSeconds, SequenceLockTimeMask. rewrite Z.land_lor_distr_r.
  change 0xffff with (Z.ones 16). rewrite Z.land_ones by lia. change (2 ^ 16) with 65536.
  rewrite land_pow2 by lia. rewrite Z.lor_comm. rewrite <- Z.shiftl_mul_pow2 by lia.
  rewrite lor_shiftl_add; [rewrite Z.shiftl_mul_pow2 by lia; lia|lia|].
  pose proof (Z.mod_pos_bound x 65536). lia.
Qed.

Lemma bit_31 x : (Z.land x SequenceLockTimeDisabled =? 0) = negb (Z.testbit x 31).
Proof. unfold SequenceLockTimeDisabled. rewrite land_pow2 by lia. by destruct (Z.testbit x 31). Qed.

Lemma verifyLockTime_spec txLockTime threshold lockTime :
  verifyLockTime txLockTime threshold lockTime = None ↔
  (lockTime < threshold ↔ txLockTime < threshold) ∧ lockTime ≤ txLockTime.
Proof.
  unfold verifyLockTime.
  destruct (Z.ltb_spec txLockTime threshold), (Z.ltb_spec lockTime threshold),
    (Z.leb_spec threshold txLockTime), (Z.leb_spec threshold lockTime), (Z.ltb_spec txLockTime lockTime);
    simpl; try lia; naive_solver lia.
Qed.

Section Ops.
Context `{Crypto}.

Lemma peek_num5_run vm so rest m n :
  dstack vm = mkStack (so :: rest) m → MakeScriptNum so m cltvMaxScriptNumLen = Ok n →
  peek_num5 vm = Ok (n, vm).
Proof.
  intros Hd Hn. unfold peek_num5, on_dstack. rewrite Hd.
  rewrite (sr_run _ _ _ _ _ (Peek_at so [] rest m)). unfold make_num. simpl verifyMinimalData. rewrite Hn.
  destruct vm. simpl in *. by rewrite Hd.
Qed.

(** An opcode that passes or fails, without changing the engine. *)
Definition test_of (r : Res (() * Engine)) (vm : Engine) (P : Prop) : Prop :=
  (r = Ok ((), vm) ∨ ∃ e, r = Err e) ∧ (r = Ok ((), vm) ↔ P).

Lemma test_err vm (P : Prop) e : ¬ P → test_of (Err e) vm P.
Proof. intros HP. split; [eauto|]. split; done. Qed.
Lemma test_ok vm (P : Prop) : P → test_of (Ok ((), vm)) vm P.
Proof. intros HP. split; [auto|]. done. Qed.
Lemma test_check vm (P : Prop) e : (e = None ↔ P) → test_of (sr_check e vm) vm P.
Proof. intros HP. destruct e; [apply test_err|apply test_ok]; naive_solver. Qed.

Section LockTimes.
Context (vm : Engine) (so : list byte) (rest : list (list byte)) (m : bool) (n : Z) (input : TxIn).
Hypothesis Hd : dstack vm = mkStack (so :: rest) m.
Hypothesis Hn : MakeScriptNum so m cltvMaxScriptNumLen = Ok n.
Hypothesis Hin : TxIns (tx vm) !! txIdx vm = Some input.

Lemma sequence_run : tx_sequence vm = Ok (Sequence input, vm).
Proof. unfold tx_sequence. by rewrite Hin. Qed.

Lemma cltv_test :
  hasFlag vm ScriptVerifyCheckLockTimeVerify = true →
  test_of (opcodeCheckLockTimeVerify vm) vm
    (0 ≤ n ∧ (n < LockTimeThreshold ↔ LockTime (tx vm) < LockTimeThreshold) ∧ n ≤ LockTime (tx vm) ∧
     Sequence input ≠ MaxTxInSequenceNum).
Proof.
  intros Hf. unfold opcodeCheckLockTimeVerify.
  rewrite (sr_run _ _ _ _ _ (eq_refl : sr_get vm = Ok (vm, vm))), Hf. cbn [negb].
  rewrite (sr_run _ _ _ _ _ (peek_num5_run vm so rest m n Hd Hn)).
  destruct (Z.ltb_spec n 0) as [H0|H0]; [apply test_err; lia|].
  pose proof (verifyLockTime_spec (LockTime (tx vm)) LockTimeThreshold n) as Hv.
  destruct (verifyLockTime _ _ n); [apply test_err; naive_solver|].
  erewrite sr_run by done. rewrite (sr_run _ _ _ _ _ sequence_run).
  destruct (Z.eqb_spec (Sequence input) MaxTxInSequenceNum) as [Hs|Hs].
  - apply test_err. naive_solver.
  - apply test_ok. naive_solver.
Qed.

Lemma mask_order x y :
  (Z.b2z (Z.testbit x 22) * 2 ^ 22 + x mod 65536 < 2 ^ 22 ↔
   Z.b2z (Z.testbit y 22) * 2 ^ 22 + y mod 65536 < 2 ^ 22) ∧
  Z.b2z (Z.testbit x 22) * 2 ^ 22 + x mod 65536 ≤ Z.b2z (Z.testbit y 22) * 2 ^ 22 + y mod 65536 ↔
  Z.testbit x 22 = Z.testbit y 22 ∧ x mod 65536 ≤ y mod 65536.
Proof.
  pose proof (Z.mod_pos_bound x 65536). pose proof (Z.mod_pos_bound y 65536).
  destruct (Z.testbit x 22), (Z.testbit y 22); simpl Z.b2z; naive_solver lia.
Qed.

Lemma csv_test :
  hasFlag vm ScriptVerifyCheckSequenceVerify = true →
  test_of (opcodeCheckSequenceVerify vm) vm
    (0 ≤ n ∧ (Z.testbit n 31 = true ∨
      2 ≤ uint32 (Version (tx vm)) ∧ Z.testbit (Sequence input) 31 = false ∧
      Z.testbit n 22 = Z.testbit (Sequence input) 22 ∧ n mod 65536 ≤ Sequence input mod 65536)).
Proof.
  intros Hf. unfold opcodeCheckSequenceVerify.
  rewrite (sr_run _ _ _ _ _ (eq_refl : sr_get vm = Ok (vm, vm))), Hf. cbn [negb].
  rewrite (sr_run _ _ _ _ _ (peek_num5_run vm so rest m n Hd Hn)).
  destruct (Z.ltb_spec n 0) as [H0|H0]; [apply test_err; lia|]. rewrite !bit_31.
  destruct (Z.testbit n 31) eqn:En; cbn [negb]; [apply test_ok; auto|].
  destruct (Z.ltb_spec (uint32 (Version (tx vm))) 2) as [Hver|Hver]; [apply test_err; naive_solver lia|].
  rewrite (sr_run _ _ _ _ _ sequence_run), bit_31.
  destruct (Z.testbit (Sequence input) 31) eqn:Es; cbn [negb]; [apply test_err; naive_solver|].
  apply test_check. rewrite verifyLockTime_spec, !land_lock_mask. unfold SequenceLockTimeIsSeconds.
  rewrite mask_order. naive_solver.
Qed.
End LockTimes.

(** With the lock-time rules in force and a number of at most five
    bytes on the stack, each of the two opcodes either leaves the engine as
    it is or fails.  The absolute one passes exactly when the number is not
    negative, is of the same kind as the transaction's lock time (height or
    time), has been reached by it, and the input is not final.  The relative
    one passes exactly when the number is not negative and either its
    disable bit is set, or the transaction has version 2 at least, the
    input's sequence number is enabled, both count the same unit, and the
    low 16 bits are reached. *)
Theorem lock_time_opcodes vm so rest m n input :
  hasFlag vm ScriptVerifyCheckLockTimeVerify = true →
  hasFlag vm ScriptVerifyCheckSequenceVerify = true →
  dstack vm = mkStack (so :: rest) m → MakeScriptNum so m cltvMaxScriptNumLen = Ok n →
  TxIns (tx vm) !! txIdx vm = Some input →
  test_of (opcodeCheckLockTimeVerify vm) vm
    (0 ≤ n ∧ (n < LockTimeThreshold ↔ LockTime (tx vm) < LockTimeThreshold) ∧ n ≤ LockTime (tx vm) ∧
   Sequence input ≠ MaxTxInSequenceNum) ∧
  test_of (opcodeCheckSequenceVerify vm) vm
    (0 ≤ n ∧ (Z.testbit n 31 = true ∨
     2 ≤ uint32 (Version (tx vm)) ∧ Z.testbit (Sequence input) 31 = false ∧
     Z.testbit n 22 = Z.testbit (Sequence input) 22 ∧ n mod 65536 ≤ Sequence input mod 65536)).
Proof.
  intros Hf1 Hf2 Hd Hn Hin. split; [by eapply cltv_test|by eapply csv_test].
Qed.

(** ** Arithmetic *)

(** The opcodes and the functions on integers they stand for; [x] is below
    [y] on the stack. *)
Definition unary_ops : list (byte * (Z → Z)) :=
  [(0x8b, λ x, x + 1); (0x8c, λ x, x - 1); (0x8f, λ x, - x); (0x90, Z.abs);
   (0x91, λ x, Zb (x =? 0)); (0x92, λ x, Zb (negb (x =? 0)))].
Definition binary_ops : list (byte * (Z → Z → Z)) :=
  [(0x93, Z.add); (0x94, Z.sub);
   (0x9a, λ x y, Zb (negb (x =? 0) && negb (y =? 0)));
   (0x9b, λ x y, Zb (negb (x =? 0) || negb (y =? 0)));
   (0x9c, λ x y, Zb (x =? y)); (0x9e, λ x y, Zb (negb (x =? y)));
   (0x9f, λ x y, Zb (x <? y)); (0xa0, λ x y, Zb (y <? x));
   (0xa1, λ x y, Zb (x <=? y)); (0xa2, λ x y, Zb (y <=? x));
   (0xa3, Z.min); (0xa4, Z.max)].

(** The operands are int32 but for the least one. *)
Definition operand (n : Z) : Prop := - 2 ^ 31 < n < 2 ^ 31.
Lemma popped_operand v m n :
  Forall is_byte v → MakeScriptNum v m maxScriptNumLen = Ok n → operand n.
Proof.
  intros Hv Hn. unfold maxScriptNumLen in Hn. apply MakeScriptNum_ok in Hn as (Hl & -> & _); [|done|lia].
  pose proof (snum_bounds v 4 Hv ltac:(lia) Hl) as Hb. exact Hb.
Qed.

Lemma int64_small n : - 2 ^ 32 ≤ n ≤ 2 ^ 32 → int64 n = n.
Proof. intros Hn. apply wrap_s_id; lia. Qed.

Lemma unary_table op f x :
  In (op, f) unary_ops → operand x →
  - 2 ^ 32 ≤ f x ≤ 2 ^ 32 ∧ ∃ g, opfunc op [] = unary g ∧ g x = f x.
Proof.
  intros Hin Hx. unfold operand in Hx.
  repeat (destruct Hin as [[= <- <-]|Hin]); [..|destruct Hin];
    (split; [try (destruct (x =? 0); simpl; lia); try lia|eexists; split; [reflexivity|]]).
  - apply int64_small. lia.
  - apply int64_small. lia.
  - apply int64_small. lia.
  - cbv beta. destruct (Z.ltb_spec x 0); [rewrite int64_small; lia|lia].
  - done.
  - done.
Qed.

Lemma Zb_range b : - 2 ^ 32 ≤ Zb b ≤ 2 ^ 32.
Proof. destruct b; simpl; lia. Qed.

Lemma binary_table op f x y :
  In (op, f) binary_ops → operand x → operand y →
  - 2 ^ 32 ≤ f x y ≤ 2 ^ 32 ∧ ∃ g, opfunc op [] = binary g ∧ g y x = f x y.
Proof.
  intros Hin Hx Hy. unfold operand in *.
  repeat (destruct Hin as [[= <- <-]|Hin]); [..|destruct Hin];
    (split; [try apply Zb_range; lia|eexists; split; [reflexivity|]]); cbv beta;
    rewrite ?int64_small by lia; try done; try lia.
  - by rewrite andb_comm.
  - by rewrite orb_comm.
  - by rewrite Z.eqb_sym.
  - by rewrite Z.eqb_sym.
  - destruct (Z.ltb_spec x y); lia.
  - destruct (Z.ltb_spec y x); lia.
Qed.

(** The number is pushed in its shortest form. *)
Definition result_of (v : Z) (vm : Engine) (rest : list (list byte)) (m : bool)
    (run : Res (() * Engine)) : Prop :=
  ∃ r, run = Ok ((), set_dstack (mkStack (r :: rest) m) vm) ∧ Bytes v = Ok r ∧ (length r ≤ 5)%nat ∧
       (MakeScriptNum r m maxScriptNumLen = Ok v ↔ operand v) ∧
       (¬ operand v → MakeScriptNum r m maxScriptNumLen = Err ErrNumberTooBig).

Lemma push_result v vm rest m :
  - 2 ^ 32 ≤ v ≤ 2 ^ 32 → result_of v vm rest m (pushInt v (set_dstack (mkStack rest m) vm)).
Proof.
  intros Hv. destruct (Bytes_spec v) as (r & Hr & Hb & Hmin & Hs); [lia|].
  exists r. split_and!; [| done | | |].
  - unfold pushInt, on_dstack, PushInt, mbind, SR_bind. rewrite Hr. done.
  - apply minimal_length; try done. rewrite Hs. simpl. lia.
  - split.
    + intros Hok. by eapply popped_operand.
    + intros Ho. rewrite <- Hs. apply MakeScriptNum_spec; try done; [unfold maxScriptNumLen; lia|].
      apply minimal_length; try done. rewrite Hs. exact Ho.
  - intros Ho. unfold MakeScriptNum.
    rewrite (proj2 (Nat.ltb_lt _ _)); [done|]. apply Nat.lt_nge. intros Hl.
    apply Ho. rewrite <- Hs. exact (snum_bounds r 4 Hb ltac:(lia) Hl).
Qed.

(** The arithmetic opcodes compute on the integers: whatever the
    operands of at most four bytes, no intermediate result overflows, the
    exact sum, difference, comparison, ... is pushed in its shortest form,
    of at most five bytes, and it can be an operand again exactly when it
    fits in four bytes; otherwise reading it fails. *)
Theorem arithmetic_opcodes vm m vx vy x y rest :
  Forall is_byte vx → Forall is_byte vy →
  MakeScriptNum vx m maxScriptNumLen = Ok x → MakeScriptNum vy m maxScriptNumLen = Ok y →
  (∀ op f, In (op, f) unary_ops → dstack vm = mkStack (vx :: rest) m →
     result_of (f x) vm rest m (opfunc op [] vm)) ∧
  (∀ op f, In (op, f) binary_ops → dstack vm = mkStack (vy :: vx :: rest) m →
     result_of (f x y) vm rest m (opfunc op [] vm)).
Proof.
  intros Hbx Hby Hx Hy.
  pose proof (popped_operand _ _ _ Hbx Hx) as Ox. pose proof (popped_operand _ _ _ Hby Hy) as Oy. split.
  - intros op f Hin Hd. destruct (unary_table op f x Hin Ox) as (Hr & g & -> & Hg). unfold unary.
    rewrite (sr_run _ _ _ _ _ (popInt_cons _ _ _ _ _ Hd Hx)), Hg. by apply push_result.
  - intros op f Hin Hd. destruct (binary_table op f x y Hin Ox Oy) as (Hr & g & -> & Hg). unfold binary.
    rewrite (sr_run _ _ _ _ _ (popInt_cons _ _ _ _ _ Hd Hy)).
    rewrite (sr_run _ _ _ _ _ (popInt_cons (set_dstack (mkStack (vx :: rest) m) vm) _ _ _ _ eq_refl Hx)), Hg.
    exact (push_result (f x y) vm rest m Hr).
Qed.
End Ops.
