(* ===== verification/ScriptStandard.v ===== *)
(** * Bitcoin script: standard scripts

    btcd/txscript/standard.go: the classes of scripts, their recognition and
    the builders of the payment scripts; [isStrictPubKeyEncoding] of
    engine.go. *)

From Stdlib Require Import ZArith Lia String.
From stdpp Require Import base numbers list strings.
From S2P Require Import Prelude ScriptNum ScriptToken ScriptTokenFacts ScriptEngine.

Open Scope Z_scope.

Definition MaxDataCarrierSize : Z := 80.
Definition StandardVerifyFlags : Z :=
  foldr (λ f acc, Z.lor (Z.shiftl 1 f) acc) 0
    [ScriptBip16; ScriptVerifyDERSignatures; ScriptVerifyStrictEncoding; ScriptVerifyMinimalData;
     ScriptStrictMultiSig; ScriptDiscourageUpgradableNops; ScriptVerifyCleanStack; ScriptVerifyNullFail;
     ScriptVerifyCheckLockTimeVerify; ScriptVerifyCheckSequenceVerify; ScriptVerifyLowS;
     ScriptStrictMultiSig; ScriptVerifyWitness; ScriptVerifyDiscourageUpgradeableWitnessProgram;
     ScriptVerifyMinimalIf; ScriptVerifyWitnessPubKeyType; ScriptVerifyTaproot;
     ScriptVerifyDiscourageUpgradeableTaprootVersion; ScriptVerifyDiscourageOpSuccess;
     ScriptVerifyDiscourageUpgradeablePubkeyType; ScriptVerifyConstScriptCode].

(** ** Classes *)

Inductive ScriptClass :=
  | NonStandardTy | PubKeyTy | PubKeyHashTy | WitnessV0PubKeyHashTy | ScriptHashTy
  | WitnessV0ScriptHashTy | MultiSigTy | NullDataTy | WitnessV1TaprootTy | WitnessUnknownTy.
#[export] Instance ScriptClass_eq_dec : EqDecision ScriptClass.
Proof. solve_decision. Defined.

Definition scriptClassToName : list string :=
  ["nonstandard"; "pubkey"; "pubkeyhash"; "witness_v0_keyhash"; "scripthash"; "witness_v0_scripthash";
   "multisig"; "nulldata"; "witness_v1_taproot"; "witness_unknown"]%string.
(** The class as the byte that it is in the code; the guard admits the length
    of the list, where the lookup panics. *)
Definition ScriptClass_String (t : Z) : Res string :=
  if (Z.of_nat (length scriptClassToName) <? t) || (t <? 0) then Ok "Invalid"%string
  else match scriptClassToName !! Z.to_nat t with Some n => Ok n | None => Crash end.
Definition NewScriptClass (name : string) : option Z :=
  Z.of_nat <$> (fst <$> list_find (eq name) scriptClassToName).

Definition isStrictPubKeyEncoding (pubKey : list byte) : bool :=
  ((length pubKey =? 33)%nat && ((nth_byte pubKey 0 =? 2) || (nth_byte pubKey 0 =? 3))) ||
  ((length pubKey =? 65)%nat &&
   ((nth_byte pubKey 0 =? 4) || (nth_byte pubKey 0 =? 6) || (nth_byte pubKey 0 =? 7))).

(** ** Recognition *)

Definition extractCompressedPubKey (script : list byte) : option (list byte) :=
  if (length script =? 35)%nat && (nth_byte script 34 =? OP_CHECKSIG) && (nth_byte script 0 =? OP_DATA_33) &&
     ((nth_byte script 1 =? 2) || (nth_byte script 1 =? 3))
  then Some (slice script 1 34) else None.
Definition extractUncompressedPubKey (script : list byte) : option (list byte) :=
  if (length script =? 67)%nat && (nth_byte script 66 =? OP_CHECKSIG) && (nth_byte script 0 =? OP_DATA_65) &&
     ((nth_byte script 1 =? 4) || (nth_byte script 1 =? 6) || (nth_byte script 1 =? 7))
  then Some (slice script 1 66) else None.
Definition extractPubKey (script : list byte) : option (list byte) :=
  match extractCompressedPubKey script with
  | Some pubKey => Some pubKey
  | None => extractUncompressedPubKey script
  end.
Definition isPubKeyScript (script : list byte) : bool := bool_decide (is_Some (extractPubKey script)).
Definition isPubKeyHashScript (script : list byte) : bool := bool_decide (is_Some (extractPubKeyHash script)).

Definition extractWitnessPubKeyHash (script : list byte) : option (list byte) :=
  if (length script =? 22)%nat && (nth_byte script 0 =? OP_0) && (nth_byte script 1 =? OP_DATA_20)
  then Some (slice script 2 22) else None.
Definition isWitnessPubKeyHashScript (script : list byte) : bool :=
  bool_decide (is_Some (extractWitnessPubKeyHash script)).
Definition extractWitnessV0ScriptHash (script : list byte) : option (list byte) :=
  if (length script =? 34)%nat && (nth_byte script 0 =? OP_0) && (nth_byte script 1 =? OP_DATA_32)
  then Some (slice script 2 34) else None.
Definition isWitnessScriptHashScript (script : list byte) : bool :=
  bool_decide (is_Some (extractWitnessV0ScriptHash script)).
Definition extractWitnessV1KeyBytes (script : list byte) : option (list byte) :=
  if (length script =? 34)%nat && (nth_byte script 0 =? OP_1) && (nth_byte script 1 =? OP_DATA_32)
  then Some (slice script 2 34) else None.
Definition isWitnessTaprootScript (script : list byte) : bool :=
  bool_decide (is_Some (extractWitnessV1KeyBytes script)).

(** The details of a valid multisignature script; [None] is the empty struct. *)
Record multiSigDetails := mkMultiSig { requiredSigs : Z; numPubKeys : Z; pubKeys : list (list byte) }.

(** The loop over the keys: the tokenizer where it stops, the number of
    opcodes and the keys among them. *)
Fixpoint multisig_keys (fuel : nat) (t : ScriptTokenizer) (extractPubKeys : bool) (numPubKeys : Z)
    (pubKeys : list (list byte)) : ScriptTokenizer * Z * list (list byte) :=
  match fuel with
  | O => (t, numPubKeys, pubKeys)
  | S fuel =>
      match Next t with
      | (false, t') => (t', numPubKeys, pubKeys)
      | (true, t') =>
          if IsSmallInt (t_op t') then (t', numPubKeys, pubKeys) else
          multisig_keys fuel t' extractPubKeys (numPubKeys + 1)
            (if isStrictPubKeyEncoding (t_data t') && extractPubKeys then pubKeys ++ [t_data t'] else pubKeys)
      end
  end.
Definition extractMultisigScriptDetails (scriptVersion : Z) (script : list byte) (extractPubKeys : bool)
    : option multiSigDetails :=
  if negb (scriptVersion =? 0) then None else
  if (length script <? 3)%nat || negb (List.last script (-1) =? OP_CHECKMULTISIG) then None else
  match Next (MakeScriptTokenizer scriptVersion script) with
  | (false, _) => None
  | (true, t1) =>
      if negb (IsSmallInt (t_op t1)) then None else
      let requiredSigs := AsSmallInt (t_op t1) in
      let '(t, numPubKeys, pubKeys) := multisig_keys (length script) t1 extractPubKeys 0 [] in
      if Done_tok t then None else
      let op := t_op t in
      if negb (IsSmallInt op) || negb (AsSmallInt op =? numPubKeys) then None else
      if negb (int32 (zlen (t_script t)) - Z.of_nat (t_offset t) =? 1) then None else
      Some (mkMultiSig requiredSigs numPubKeys pubKeys)
  end.
Definition isMultisigScript (scriptVersion : Z) (script : list byte) : bool :=
  bool_decide (is_Some (extractMultisigScriptDetails scriptVersion script false)).
Definition IsMultisigSigScript (script : list byte) : bool :=
  if (length script <? 4)%nat || negb (List.last script (-1) =? OP_CHECKMULTISIG) then false else
  let possibleRedeemScript := finalOpcodeData 0 script in
  isMultisigScript 0 possibleRedeemScript.

Definition isNullDataScript (scriptVersion : Z) (script : list byte) : bool :=
  if negb (scriptVersion =? 0) then false else
  if (length script <? 1)%nat || negb (nth_byte script 0 =? OP_RETURN) then false else
  if (length script =? 1)%nat then true else
  match Next (MakeScriptTokenizer scriptVersion (tl script)) with
  | (false, _) => false
  | (true, t) =>
      Done_tok t && (IsSmallInt (t_op t) || (t_op t <=? OP_PUSHDATA4)) &&
      (zlen (t_data t) <=? MaxDataCarrierSize)
  end.

Definition typeOfScript (scriptVersion : Z) (script : list byte) : ScriptClass :=
  if scriptVersion =? 0 then
    if isPubKeyScript script then PubKeyTy
    else if isPubKeyHashScript script then PubKeyHashTy
    else if isScriptHashScript script then ScriptHashTy
    else if isWitnessPubKeyHashScript script then WitnessV0PubKeyHashTy
    else if isWitnessScriptHashScript script then WitnessV0ScriptHashTy
    else if isMultisigScript scriptVersion script then MultiSigTy
    else if isNullDataScript scriptVersion script then NullDataTy
    else NonStandardTy
  else if scriptVersion =? 1 then
    if isWitnessTaprootScript script then WitnessV1TaprootTy else NonStandardTy
  else NonStandardTy.
Definition GetScriptClass (script : list byte) : ScriptClass :=
  let classSegWit := typeOfScript 0 script in
  if bool_decide (classSegWit ≠ NonStandardTy) then classSegWit else typeOfScript 1 script.

Definition expectedInputs (script : list byte) (class : ScriptClass) : Z :=
  match class with
  | PubKeyTy | ScriptHashTy | WitnessV0ScriptHashTy | WitnessV1TaprootTy => 1
  | PubKeyHashTy | WitnessV0PubKeyHashTy => 2
  | MultiSigTy => AsSmallInt (nth_byte script 0) + 1
  | _ => -1
  end.
Definition CalcMultiSigStats (script : list byte) : Res (Z * Z) :=
  match extractMultisigScriptDetails 0 script false with
  | None => Err ErrNotMultisigScript
  | Some d => Ok (numPubKeys d, requiredSigs d)
  end.

(** ** What a signature script and its witness provide *)

Record ScriptInfo := mkScriptInfo {
  PkScriptClass : ScriptClass; NumInputs : Z; ExpectedInputs : Z; SigOps : Z }.
Definition add_inputs (expected more : Z) : Z := if more =? -1 then -1 else expected + more.
(** [sigScript[1:]] panics on an empty script. *)
Definition tail_of (script : list byte) : Res (list byte) :=
  match script with [] => Crash | _ :: rest => Ok rest end.
Definition CalcScriptInfo (sigScript pkScript : list byte) (witness : list (list byte)) (bip16 segwit : bool)
    : Res ScriptInfo :=
  let '(ts, e) := tokens 0 sigScript in
  let numInputs := zlen ts in
  check (t_err e);;
  check (checkScriptParses 0 pkScript);;
  check (if IsPushOnlyScript sigScript then None else Some ErrNotPushOnly);;
  let class := typeOfScript 0 pkScript in
  let expected := expectedInputs pkScript class in
  let others :=
    if bool_decide (class = WitnessV0ScriptHashTy) && segwit then
      match last witness with
      | None => Crash
      | Some witnessScript =>
          let shInputs := expectedInputs witnessScript (typeOfScript 0 witnessScript) in
          Ok (mkScriptInfo class (zlen witness) (add_inputs expected shInputs)
                (GetWitnessSigOpCount sigScript pkScript witness))
      end
    else Ok (mkScriptInfo class numInputs expected (countSigOpsV0 pkScript true)) in
  if bool_decide (class = ScriptHashTy) && bip16 && negb segwit then
    let redeemScript := finalOpcodeData 0 sigScript in
    let rsInputs := expectedInputs redeemScript (typeOfScript 0 redeemScript) in
    Ok (mkScriptInfo class numInputs (add_inputs expected rsInputs) (countSigOpsV0 redeemScript true))
  else if bool_decide (class = WitnessV0PubKeyHashTy) && segwit then
    Ok (mkScriptInfo class (zlen witness) expected (GetWitnessSigOpCount sigScript pkScript witness))
  else if bool_decide (class = ScriptHashTy) then
    rest ← tail_of sigScript;
    if IsWitnessProgram rest && bip16 && segwit then
      let shInputs := expectedInputs rest (typeOfScript 0 rest) in
      Ok (mkScriptInfo class (zlen witness + numInputs) (add_inputs expected shInputs)
            (GetWitnessSigOpCount sigScript pkScript witness))
    else others
  else others.

(** The pushed data; [None] stands for the nil slice of OP_0.  The data of a
    token is not nil for the opcodes that carry data. *)
Definition carries_data (op : byte) : bool := (OP_DATA_1 <=? op) && (op <=? OP_PUSHDATA4).
Definition pushed_by (t : ScriptTokenizer) : option (option (list byte)) :=
  if carries_data (t_op t) then Some (Some (t_data t))
  else if t_op t =? OP_0 then Some None else None.
Definition PushedData (script : list byte) : Res (list (option (list byte))) :=
  let '(ts, e) := tokens 0 script in
  check (t_err e);; Ok (omap pushed_by ts).

(** ** Payment scripts *)

Definition payToPubKeyHashScript (pubKeyHash : list byte) : list byte * option ErrorCode :=
  Script (AddOp (AddOp (AddData (AddOp (AddOp NewScriptBuilder OP_DUP) OP_HASH160) pubKeyHash)
            OP_EQUALVERIFY) OP_CHECKSIG).
Definition payToWitnessPubKeyHashScript (pubKeyHash : list byte) : list byte * option ErrorCode :=
  Script (AddData (AddOp NewScriptBuilder OP_0) pubKeyHash).
Definition payToScriptHashScript (scriptHash : list byte) : list byte * option ErrorCode :=
  Script (AddOp (AddData (AddOp NewScriptBuilder OP_HASH160) scriptHash) OP_EQUAL).
Definition payToWitnessScriptHashScript (scriptHash : list byte) : list byte * option ErrorCode :=
  Script (AddData (AddOp NewScriptBuilder OP_0) scriptHash).
Definition payToWitnessTaprootScript (rawKey : list byte) : list byte * option ErrorCode :=
  Script (AddData (AddOp NewScriptBuilder OP_1) rawKey).
Definition payToPubKeyScript (serializedPubKey : list byte) : list byte * option ErrorCode :=
  Script (AddOp (AddData NewScriptBuilder serializedPubKey) OP_CHECKSIG).
Definition NullDataScript (data : list byte) : list byte * option ErrorCode :=
  if MaxDataCarrierSize <? zlen data then ([], Some ErrTooMuchNullData)
  else Script (AddData (AddOp NewScriptBuilder OP_RETURN) data).
(** The keys are the [ScriptAddress]es of the addresses. *)
Definition MultiSigScript (pubkeys : list (list byte)) (nrequired : Z) : Res (list byte * option ErrorCode) :=
  if zlen pubkeys <? nrequired then Ok ([], Some ErrTooManyRequiredSigs) else
  builder ← AddInt64 NewScriptBuilder nrequired;
  builder ← AddInt64 (fold_left AddData pubkeys builder) (zlen pubkeys);
  Ok (Script (AddOp builder OP_CHECKMULTISIG)).

(** ** What the builders make is recognized *)

Lemma AddData_direct b data :
  b_err b = None → 2 <= zlen data <= 75 → zlen (b_script b) <= 9000 →
  AddData b data = b_append b (zlen data :: data).
Proof.
  intros He Hd Hs. unfold AddData. rewrite He, canonicalDataSize_long by lia.
  unfold MaxScriptSize, MaxScriptElementSize, OP_PUSHDATA1. rewrite (proj2 (Z.ltb_lt (zlen data) _)) by lia.
  rewrite (proj2 (Z.ltb_ge 10000 _)), (proj2 (Z.ltb_ge 520 _)) by lia.
  unfold addData, OP_PUSHDATA1. rewrite (proj2 (Z.eqb_neq (zlen data) 0)), (proj2 (Z.eqb_neq (zlen data) 1)) by lia.
  rewrite (proj2 (Z.ltb_lt (zlen data) _)) by lia. reflexivity.
Qed.

(** A list of a known length, element by element. *)
Ltac explode l := repeat (destruct l as [|? l]; [discriminate|]); destruct l; [|discriminate].

Definition makes (r : list byte * option ErrorCode) (class : ScriptClass)
    (extract : list byte → option (list byte)) (data : list byte) : Prop :=
  ∃ script, r = (script, None) ∧ GetScriptClass script = class ∧ extract script = Some data.

Lemma payToPubKeyHash_makes h :
  length h = 20%nat → makes (payToPubKeyHashScript h) PubKeyHashTy extractPubKeyHash h.
Proof. intros Hl. explode h. eexists. repeat split. Qed.
Lemma payToScriptHash_makes h :
  length h = 20%nat → makes (payToScriptHashScript h) ScriptHashTy extractScriptHash h.
Proof. intros Hl. explode h. eexists. repeat split. Qed.
Lemma payToWitnessPubKeyHash_makes h :
  length h = 20%nat → makes (payToWitnessPubKeyHashScript h) WitnessV0PubKeyHashTy extractWitnessPubKeyHash h.
Proof. intros Hl. explode h. eexists. repeat split. Qed.
Lemma payToWitnessScriptHash_makes h :
  length h = 32%nat → makes (payToWitnessScriptHashScript h) WitnessV0ScriptHashTy extractWitnessV0ScriptHash h.
Proof. intros Hl. explode h. eexists. repeat split. Qed.
(** The last byte of the key may be that of OP_CHECKMULTISIG. *)
Lemma payToWitnessTaproot_makes k :
  length k = 32%nat → makes (payToWitnessTaprootScript k) WitnessV1TaprootTy extractWitnessV1KeyBytes k.
Proof.
  intros Hl. explode k. eexists. split; [reflexivity|]. split; [|reflexivity].
  cbv [GetScriptClass typeOfScript]. cbn -[isMultisigScript isNullDataScript].
  unfold isMultisigScript, extractMultisigScriptDetails. cbn -[Z.eqb multisig_keys].
  match goal with |- context [negb (?z =? OP_CHECKMULTISIG)] => destruct (z =? OP_CHECKMULTISIG) end; reflexivity.
Qed.
Lemma payToPubKey_makes k :
  isStrictPubKeyEncoding k = true → makes (payToPubKeyScript k) PubKeyTy extractPubKey k.
Proof.
  unfold isStrictPubKeyEncoding. intros [[Hl%Nat.eqb_eq Hk]%andb_prop|[Hl%Nat.eqb_eq Hk]%andb_prop]%orb_prop;
    explode k; unfold nth_byte in Hk; cbn -[Z.eqb orb] in Hk;
    repeat (apply orb_prop in Hk; destruct Hk as [Hk|Hk]); apply Z.eqb_eq in Hk; subst; eexists; repeat split.
Qed.

(** *** Data carriers *)

Lemma return_class rest :
  typeOfScript 0 (OP_RETURN :: rest) =
  if isNullDataScript 0 (OP_RETURN :: rest) then NullDataTy else NonStandardTy.
Proof.
  assert (∀ s : list byte, s = OP_RETURN :: rest → ∀ op, op ≠ OP_RETURN → (nth_byte s 0 =? op) = false) as H0.
  { intros s -> op Hop. by apply Z.eqb_neq. }
  set (s := OP_RETURN :: rest) in *. specialize (H0 s eq_refl).
  unfold typeOfScript, isPubKeyScript, extractPubKey, extractCompressedPubKey, extractUncompressedPubKey,
    isPubKeyHashScript, extractPubKeyHash, isScriptHashScript, extractScriptHash, isWitnessPubKeyHashScript,
    extractWitnessPubKeyHash, isWitnessScriptHashScript, extractWitnessV0ScriptHash.
  rewrite !H0 by done. rewrite !andb_false_r. cbn [andb Z.eqb]. simpl bool_decide. cbv iota.
  unfold isMultisigScript, extractMultisigScriptDetails. destruct (_ || _); [done|].
  by rewrite (Next_encode _ OP_RETURN [] rest).
Qed.
Lemma null_data_token op d :
  wf_token op d → IsSmallInt op = true ∨ 0 < op <= OP_PUSHDATA4 → zlen d <= MaxDataCarrierSize →
  isNullDataScript 0 (OP_RETURN :: encode op d) = true.
Proof.
  intros Hw Hop Hd. unfold isNullDataScript. cbn [length tl].
  pose proof (encode_length op d) as Hl. rewrite Hl. cbn -[Next encode].
  rewrite (Next_encode _ op d []) by (cbn -[encode]; rewrite ?app_nil_r; done).
  cbn [t_data t_op tok_advance]. rewrite (proj2 (Z.leb_le (zlen d) _) Hd), andb_true_r. unfold Done_tok. cbn -[encode].
  rewrite Nat.leb_refl. destruct Hop as [->|Hop]; [done|].
  by rewrite (proj2 (Z.leb_le op _)), orb_true_r by lia.
Qed.
(** The opcode that pushes at most 80 bytes other than 0x81. *)
Lemma null_data_push data op d :
  Forall is_byte data → zlen data <= MaxDataCarrierSize → data ≠ [0x81] → is_byte op → wf_token op d →
  pushed op d = (if decide (data = [0]) then [] else data) → zlen (encode op d) = canonicalDataSize data →
  (IsSmallInt op = true ∨ 0 < op <= OP_PUSHDATA4) ∧ zlen d <= MaxDataCarrierSize.
Proof.
  intros Hb Hl Hne Hob Hw Hp Hs.
  assert (zlen (if decide (data = [0]) then [] else data) <= MaxDataCarrierSize) as Hl' by (case_decide; [done|lia]).
  rewrite <- Hp in Hl'. rewrite encode_length in Hs. revert Hp Hl'. unfold pushed.
  destruct (Z.eqb_spec op OP_0) as [->|H0]; [|destruct (Z.leb_spec op OP_PUSHDATA4) as [H1|H1]].
  - intros _ _. split; [by left|]. unfold wf_token in Hw. cbn -[Z.of_nat] in Hw. unfold MaxDataCarrierSize. lia.
  - intros _ Hl'. split; [right|done]. unfold is_byte, OP_0 in *. lia.
  - intros Hp _. assert (opcode_length op = 1) as HL.
    { unfold opcode_length, OP_DATA_1, OP_DATA_75, OP_PUSHDATA1, OP_PUSHDATA2, OP_PUSHDATA4 in *.
      rewrite (proj2 (Z.leb_gt op 75)), andb_false_r by lia. by rewrite !(proj2 (Z.eqb_neq _ _)) by lia. }
    unfold wf_token, width in *. rewrite HL in *. cbn -[Z.of_nat] in Hw, Hs.
    split; [left|unfold MaxDataCarrierSize; lia].
    case_decide; [by destruct (op =? OP_1NEGATE)|]. destruct (op =? OP_1NEGATE); [by subst|]. subst data.
    rewrite canonicalDataSize_one in Hs. unfold OP_1, OP_PUSHDATA4 in *. apply Forall_inv in Hb.
    unfold is_byte, IsSmallInt, OP_0, OP_1, OP_16 in *.
    destruct (Z.leb_spec (op - (0x51 - 1)) 16); [|destruct (Z.eqb_spec (op - (0x51 - 1)) 0x81) as [E|E]; [by rewrite E in Hne|lia]].
    rewrite (proj2 (Z.leb_le _ 96)), (proj2 (Z.leb_le 81 _)), orb_true_r; [done|..]; [|lia].
    destruct (decide (op = 80)) as [->|]; [done|lia].
Qed.
Lemma NullDataScript_class data :
  Forall is_byte data → zlen data <= MaxDataCarrierSize → data ≠ [0x81] →
  ∃ script, NullDataScript data = (script, None) ∧ GetScriptClass script = NullDataTy.
Proof.
  intros Hb Hl Hne. unfold NullDataScript. rewrite (proj2 (Z.ltb_ge _ _) Hl).
  assert (canonicalDataSize data <= 85) as Hc.
  { unfold canonicalDataSize, MaxDataCarrierSize in *. repeat case_match; lia. }
  unfold AddData. change (AddOp NewScriptBuilder OP_RETURN) with (mkBuilder [OP_RETURN] None). cbn [b_err b_script length].
  unfold MaxDataCarrierSize in Hl. rewrite (proj2 (Z.ltb_ge MaxScriptSize _)) by (unfold MaxScriptSize; lia).
  rewrite (proj2 (Z.ltb_ge MaxScriptElementSize _)) by (unfold MaxScriptElementSize; lia).
  destruct (addData_spec (mkBuilder [OP_RETURN] None) data Hb ltac:(lia)) as (? & -> & op & d & -> & Hw & _ & Hp & Hs & Hob & _).
  eexists. split; [reflexivity|]. cbn [app b_append b_script]. unfold GetScriptClass. rewrite return_class.
  destruct (null_data_push data op d Hb Hl Hne Hob Hw Hp Hs) as [Hop Hd]. by rewrite null_data_token.
Qed.

(** *** Multisignature scripts *)

Lemma AddInt64_small b n :
  b_err b = None → zlen (b_script b) <= 9000 → 0 <= n <= 16 →
  AddInt64 b n = Ok (b_append b [if n =? 0 then OP_0 else OP_1 - 1 + n]).
Proof.
  intros He Hs Hn. unfold AddInt64. rewrite He, (proj2 (Z.ltb_ge MaxScriptSize _)) by (unfold MaxScriptSize; lia).
  destruct (Z.eqb_spec n 0) as [->|H0]; [done|].
  rewrite (proj2 (Z.leb_le 1 n)), (proj2 (Z.leb_le n 16)), orb_true_r by lia.
  unfold OP_1. by rewrite wrap_u_id by lia.
Qed.
Lemma small_int n :
  0 <= n <= 16 → IsSmallInt (if n =? 0 then OP_0 else OP_1 - 1 + n) = true ∧
  AsSmallInt (if n =? 0 then OP_0 else OP_1 - 1 + n) = n ∧ wf_token (if n =? 0 then OP_0 else OP_1 - 1 + n) [] ∧
  encode (if n =? 0 then OP_0 else OP_1 - 1 + n) [] = [if n =? 0 then OP_0 else OP_1 - 1 + n].
Proof.
  intros Hn. assert (∃ k, (k < 17)%nat ∧ n = Z.of_nat k) as (k & Hk & ->) by (exists (Z.to_nat n); lia).
  do 17 (destruct k as [|k]; [by vm_compute|]). lia.
Qed.

Lemma strict_length k : isStrictPubKeyEncoding k = true → zlen k = 33 ∨ zlen k = 65.
Proof.
  unfold isStrictPubKeyEncoding.
  intros [[Hl%Nat.eqb_eq _]%andb_prop|[Hl%Nat.eqb_eq _]%andb_prop]%orb_prop; [left|right]; lia.
Qed.
Definition key_pushes (keys : list (list byte)) : list byte := concat (map (λ k, zlen k :: k) keys).
Lemma key_pushes_length keys :
  Forall (λ k, isStrictPubKeyEncoding k = true) keys → zlen (key_pushes keys) <= 66 * zlen keys.
Proof.
  induction 1 as [|k keys Hk _ IH]; [done|]. unfold key_pushes in *. cbn [map concat]. rewrite length_app.
  cbn [length]. apply strict_length in Hk. lia.
Qed.
Lemma key_pushes_ge keys : (length keys <= length (key_pushes keys))%nat.
Proof.
  induction keys as [|k keys IH]; [done|]. unfold key_pushes in *. cbn [map concat]. rewrite length_app.
  cbn [length]. lia.
Qed.
Lemma AddData_keys b keys :
  b_err b = None → Forall (λ k, isStrictPubKeyEncoding k = true) keys →
  zlen (b_script b) + 66 * zlen keys <= 9000 →
  fold_left AddData keys b = b_append b (key_pushes keys).
Proof.
  intros He Hk. revert b He. induction Hk as [|k keys Hk Hks IH]; intros b He Hs.
  { unfold key_pushes, b_append. cbn. rewrite app_nil_r. by destruct b. }
  cbn [fold_left length] in *. apply strict_length in Hk. rewrite AddData_direct by (done || lia).
  rewrite IH; [|done|cbn [b_append b_script]; rewrite length_app; cbn [length]; lia].
  unfold b_append, key_pushes. cbn [b_script b_err map concat]. by rewrite <- app_assoc.
Qed.
Lemma multisig_keys_all keys op rest ex : IsSmallInt op = true → wf_token op [] → encode op [] = [op] →
  Forall (λ k, isStrictPubKeyEncoding k = true) keys →
  ∀ fuel t n pk, (length keys < fuel)%nat → t_err t = None →
    drop (t_offset t) (t_script t) = key_pushes keys ++ op :: rest →
    ∃ t', multisig_keys fuel t ex n pk = (t', n + zlen keys, pk ++ if ex : bool then keys else []) ∧
      t_err t' = None ∧ t_op t' = op ∧ t_script t' = t_script t ∧ drop (t_offset t') (t_script t') = rest ∧
      (t_offset t' + length rest = t_offset t + length (key_pushes keys ++ op :: rest))%nat.
Proof.
  intros Hop Hw He Hk. induction Hk as [|k keys Hk Hks IH]; intros [|fuel] t n pk Hf Ht Hd; cbn [length] in Hf; try lia.
  - cbn [key_pushes map concat app] in Hd. cbn [multisig_keys]. rewrite (Next_encode t op [] rest) by (rewrite ?He; done).
    cbn [t_op tok_advance]. rewrite Hop. eexists. split; [f_equal; [f_equal; cbn; lia|by destruct ex; rewrite app_nil_r]|].
    rewrite He. cbn [tok_advance t_err t_op t_script t_offset length]. rewrite <- drop_drop, Hd. cbn. split_and!; try done; lia.
  - pose proof (strict_length k Hk) as Hl. destruct (direct_push k ltac:(lia)) as (Henc & Hwk & _).
    unfold key_pushes in Hd. cbn [map concat] in Hd.
    cbn [multisig_keys]. rewrite (Next_encode t (zlen k) k (key_pushes keys ++ op :: rest))
      by (rewrite ?Henc, ?Hd, <- ?app_assoc; done).
    cbn [t_op t_data tok_advance]. assert (IsSmallInt (zlen k) = false) as ->.
    { destruct Hl as [-> | ->]; reflexivity. }
    rewrite Hk. set (t1 := tok_advance _ _ _ _).
    assert (drop (t_offset t1) (t_script t1) = key_pushes keys ++ op :: rest) as Hd1.
    { subst t1. rewrite Henc. cbn [tok_advance t_offset t_script length app]. rewrite <- drop_drop, Hd, <- app_assoc.
      apply (drop_app_length (zlen k :: k)). }
    destruct (IH fuel t1 (n + 1) (if true && ex then pk ++ [k] else pk) ltac:(lia) eq_refl Hd1)
      as (t' & -> & H1 & H2 & H3 & H4 & H5).
    exists t'. split_and!; try done.
    + f_equal; [f_equal; cbn [length]; lia|]. destruct ex; cbn [andb]; [by rewrite <- app_assoc|done].
    + subst t1. rewrite Henc in H5. cbn [tok_advance t_offset length] in H5. unfold key_pushes in *. cbn [map concat].
      rewrite <- app_assoc. cbn [app length] in *. rewrite !length_app in *. cbn [length] in *. lia.
Qed.

Lemma MultiSigScript_details keys nrequired :
  Forall (λ k, isStrictPubKeyEncoding k = true) keys → zlen keys <= 16 → 0 <= nrequired <= zlen keys →
  ∃ o1 o2, let script := o1 :: key_pushes keys ++ [o2; OP_CHECKMULTISIG] in
    MultiSigScript keys nrequired = Ok (script, None) ∧ IsSmallInt o1 = true ∧ IsSmallInt o2 = true ∧
    (∀ ex : bool, extractMultisigScriptDetails 0 script ex = Some (mkMultiSig nrequired (zlen keys) (if ex then keys else []))).
Proof.
  intros Hk Hl Hn. unfold MultiSigScript. rewrite (proj2 (Z.ltb_ge _ _)) by lia.
  pose proof (key_pushes_length keys Hk) as Hp.
  rewrite AddInt64_small by (done || cbn; lia). cbn [mbind Res_bind].
  rewrite AddData_keys by (done || cbn; lia). cbn [b_append NewScriptBuilder b_script b_err].
  rewrite AddInt64_small; [|done|cbn [b_append b_script NewScriptBuilder app length]; lia|lia].
  destruct (small_int nrequired ltac:(lia)) as (I1 & V1 & W1 & E1).
  destruct (small_int (zlen keys) ltac:(lia)) as (I2 & V2 & W2 & E2).
  set (o1 := if nrequired =? 0 then OP_0 else _) in *. set (o2 := if zlen keys =? 0 then OP_0 else _) in *.
  cbn [mbind Res_bind b_append b_script b_err app]. unfold AddOp. cbn [b_append b_script b_err NewScriptBuilder app].
  rewrite (proj2 (Z.ltb_ge MaxScriptSize _)) by (unfold MaxScriptSize; cbn [length]; rewrite ?length_app; cbn [length]; rewrite ?length_app; cbn [length]; lia).
  exists o1, o2. split_and!;
    [unfold Script; cbn [b_append b_script b_err app]; by rewrite <- app_assoc|done..|]. intros ex.
  set (script := o1 :: _). unfold extractMultisigScriptDetails. cbn [Z.eqb negb].
  assert (List.last script (-1) = OP_CHECKMULTISIG) as ->.
  { unfold script. change (o1 :: key_pushes keys ++ [o2; OP_CHECKMULTISIG])
      with ((o1 :: key_pushes keys) ++ [o2] ++ [OP_CHECKMULTISIG]). by rewrite app_assoc, List.last_last. }
  assert (length script = length (key_pushes keys) + 3)%nat as Hlen.
  { unfold script. cbn [length]. rewrite length_app. cbn [length]. lia. }
  rewrite (proj2 (Nat.ltb_ge _ _)) by lia. cbn [orb negb Z.eqb Pos.eqb].
  rewrite (Next_encode _ o1 [] (key_pushes keys ++ [o2; OP_CHECKMULTISIG])) by (rewrite ?E1; done).
  cbn [t_op tok_advance]. rewrite I1. cbn [negb]. set (t1 := tok_advance _ _ _ _).
  destruct (multisig_keys_all keys o2 [OP_CHECKMULTISIG] ex I2 W2 E2 Hk (length script) t1 0 [])
    as (t' & -> & H1 & H2 & H3 & H4 & H5);
    [rewrite Hlen; pose proof (key_pushes_ge keys); lia|done|by subst t1; rewrite E1|].
  change (negb (OP_CHECKMULTISIG =? OP_CHECKMULTISIG)) with false. cbv iota.
  assert (t_script t' = script) as Hs by (rewrite H3; by subst t1).
  assert (t_offset t' + 1 = length script)%nat as Ho.
  { revert H5. subst t1. rewrite E1, Hlen, length_app. cbn [tok_advance t_offset length MakeScriptTokenizer]. lia. }
  unfold Done_tok. rewrite H1, H2, Hs, I2, V1, V2, (proj2 (Nat.leb_gt _ _)), Z.eqb_refl by lia. cbn [negb orb].
  assert (int32 (zlen script) - Z.of_nat (t_offset t') = 1) as ->.
  { rewrite wrap_s_id by lia. lia. }
  done.
Qed.
Lemma multisig_class script :
  isMultisigScript 0 script = true → IsSmallInt (nth_byte script 0) = true →
  nth_byte script 1 ≠ OP_DATA_20 → nth_byte script 1 ≠ OP_DATA_32 → GetScriptClass script = MultiSigTy.
Proof.
  intros Hm Hs H20%Z.eqb_neq H32%Z.eqb_neq.
  assert (∀ op, IsSmallInt op = false → (nth_byte script 0 =? op) = false) as H0.
  { intros op Hop. apply Z.eqb_neq. intros E. by rewrite E, Hop in Hs. }
  assert (typeOfScript 0 script = MultiSigTy) as Ht; [|unfold GetScriptClass; by rewrite Ht].
  unfold typeOfScript, isPubKeyScript, extractPubKey, extractCompressedPubKey, extractUncompressedPubKey,
    isPubKeyHashScript, extractPubKeyHash, isScriptHashScript, extractScriptHash, isWitnessPubKeyHashScript,
    extractWitnessPubKeyHash, isWitnessScriptHashScript, extractWitnessV0ScriptHash.
  rewrite !H0 by done. rewrite H20, H32, Hm, !andb_false_r. cbn [andb Z.eqb]. done.
Qed.
Lemma MultiSigScript_ok keys nrequired :
  Forall (λ k, isStrictPubKeyEncoding k = true) keys → zlen keys <= 16 → 0 <= nrequired <= zlen keys →
  ∃ script, MultiSigScript keys nrequired = Ok (script, None) ∧ GetScriptClass script = MultiSigTy ∧
    CalcMultiSigStats script = Ok (zlen keys, nrequired) ∧
    extractMultisigScriptDetails 0 script true = Some (mkMultiSig nrequired (zlen keys) keys).
Proof.
  intros Hk Hl Hn. destruct (MultiSigScript_details keys nrequired Hk Hl Hn) as (o1 & o2 & Hs & I1 & I2 & Hd).
  eexists. split; [exact Hs|]. split_and!; [|by unfold CalcMultiSigStats; rewrite (Hd false)|exact (Hd true)].
  apply multisig_class; [by unfold isMultisigScript; rewrite (Hd false)|exact I1|..];
    (destruct Hk as [|k keys Hk _]; [intros E; unfold nth_byte in E; cbn in E; by rewrite E in I2|]);
    apply strict_length in Hk; intros E; unfold nth_byte, key_pushes, OP_DATA_20, OP_DATA_32 in E; cbn in E; lia.
Qed.

Lemma NullDataScript_cases data :
  Forall is_byte data →
  if MaxDataCarrierSize <? zlen data then NullDataScript data = ([], Some ErrTooMuchNullData)
  else ∃ script, NullDataScript data = (script, None) ∧
         GetScriptClass script = if decide (data = [0x81]) then NonStandardTy else NullDataTy.
Proof.
  intros Hb. destruct (Z.ltb_spec MaxDataCarrierSize (zlen data)) as [Hl|Hl].
  - unfold NullDataScript. by rewrite (proj2 (Z.ltb_lt _ _) Hl).
  - case_decide as Hd; [subst; exists [OP_RETURN; OP_1NEGATE]; by vm_compute|]. by apply NullDataScript_class.
Qed.
Lemma MultiSigScript_too_many keys nrequired :
  zlen keys < nrequired → MultiSigScript keys nrequired = Ok ([], Some ErrTooManyRequiredSigs).
Proof. intros Hl. unfold MultiSigScript. by rewrite (proj2 (Z.ltb_lt _ _) Hl). Qed.

(** C36. Standard scripts.  What the builders make of hashes of the right size
    and of strictly encoded keys is recognized as its class, and the extraction
    functions give back what was put in: for hashes and keys of every form, and
    for up to 16 keys of a multisignature script with the two numbers, of which
    more required signatures than keys are an error.  Data of more than 80 bytes
    are an error, and other data make a script that is recognized, except for
    the byte 0x81 alone, whose script is not. *)
Theorem standard_scripts_recognized :
  (∀ h, length h = 20%nat →
     makes (payToPubKeyHashScript h) PubKeyHashTy extractPubKeyHash h ∧
     makes (payToScriptHashScript h) ScriptHashTy extractScriptHash h ∧
     makes (payToWitnessPubKeyHashScript h) WitnessV0PubKeyHashTy extractWitnessPubKeyHash h) ∧
  (∀ h, length h = 32%nat →
     makes (payToWitnessScriptHashScript h) WitnessV0ScriptHashTy extractWitnessV0ScriptHash h ∧
     makes (payToWitnessTaprootScript h) WitnessV1TaprootTy extractWitnessV1KeyBytes h) ∧
  (∀ k, isStrictPubKeyEncoding k = true → makes (payToPubKeyScript k) PubKeyTy extractPubKey k) ∧
  (∀ keys nrequired, Forall (λ k, isStrictPubKeyEncoding k = true) keys → zlen keys <= 16 →
     0 <= nrequired <= zlen keys →
     ∃ script, MultiSigScript keys nrequired = Ok (script, None) ∧ GetScriptClass script = MultiSigTy ∧
       CalcMultiSigStats script = Ok (zlen keys, nrequired) ∧
       extractMultisigScriptDetails 0 script true = Some (mkMultiSig nrequired (zlen keys) keys)) ∧
  (∀ keys nrequired, zlen keys < nrequired → MultiSigScript keys nrequired = Ok ([], Some ErrTooManyRequiredSigs)) ∧
  (∀ data, Forall is_byte data →
     if MaxDataCarrierSize <? zlen data then NullDataScript data = ([], Some ErrTooMuchNullData)
     else ∃ script, NullDataScript data = (script, None) ∧
            GetScriptClass script = if decide (data = [0x81]) then NonStandardTy else NullDataTy).
Proof.
  split_and!; intros; split_and?;
    auto using payToPubKeyHash_makes, payToScriptHash_makes, payToWitnessPubKeyHash_makes,
      payToWitnessScriptHash_makes, payToWitnessTaproot_makes, payToPubKey_makes, MultiSigScript_ok,
      MultiSigScript_too_many.
  by apply NullDataScript_cases.
Qed.

(** The byte 0x81 is carried by OP_1NEGATE, which is not recognized. *)
Example null_data_not_recognized :
  NullDataScript [0x81] = ([OP_RETURN; OP_1NEGATE], None) ∧ GetScriptClass [OP_RETURN; OP_1NEGATE] = NonStandardTy.
Proof. by vm_compute. Qed.
(** Opcodes that push no key are counted as keys. *)
Example multisig_without_keys :
  GetScriptClass [OP_1; OP_NOP; OP_1; OP_CHECKMULTISIG] = MultiSigTy ∧
  CalcMultiSigStats [OP_1; OP_NOP; OP_1; OP_CHECKMULTISIG] = Ok (1, 1).
Proof. by vm_compute. Qed.
(** The name of the class after the last one panics. *)
Example class_name_panics : ScriptClass_String 10 = Crash ∧ ScriptClass_String 11 = Ok "Invalid"%string.
Proof. by vm_compute. Qed.
(** An empty signature script or witness panics. *)
Example script_info_panics h :
  length h = 20%nat → CalcScriptInfo [] (OP_HASH160 :: OP_DATA_20 :: h ++ [OP_EQUAL]) [] true true = Crash.
Proof. intros Hl. explode h. reflexivity. Qed.
