(* ===== verification/ScriptWitness.v ===== *)
(** * Bitcoin script: the theorems on concrete scripts *)

From Stdlib Require Import ZArith Lia.
From stdpp Require Import base numbers list relations.
From S2P Require Import Prelude ScriptNum ScriptNumFacts WireBase WireTx ScriptStack ScriptToken ScriptTokenFacts Sighash GoHash Taproot.
From S2P Require Import ScriptEngine ScriptExec ScriptExecFacts ScriptLimits ScriptMultisig ScriptP2PKH.

Open Scope Z_scope.

(** ** Functions in place of the cryptography

    SHA-256 is computed; the other digests are the bytes themselves, cut or
    padded to length; a signature is valid for a key when both start with
    the same byte, and the points of the curve are numbers. *)

Definition pad (n : nat) (x : list byte) : list byte := take n (x ++ replicate n 0).

Definition ex_key (b : list byte) : option Z :=
  if (length b =? 32)%nat then Some (le_val b) else None.
Lemma ex_key_roundtrip k :
  ∃ k', ex_key (le_put 32 k) = Some k' ∧ le_put 32 k' = le_put 32 k.
Proof.
  exists (le_val (le_put 32 k)). unfold ex_key. rewrite le_put_length. split; [done|].
  rewrite <- (le_put_length 32 k) at 1. apply le_put_val, le_put_bytes.
Qed.

#[export] Instance ex_Curve : Curve := {|
  PublicKey := Z;
  schnorr_ParsePubKey := ex_key;
  schnorr_SerializePubKey := le_put 32;
  YIsOdd := Z.odd;
  schnorr_ParseSignature := λ _, true;
  schnorr_Verify := λ s h k, bool_decide (head s = head (le_put 32 k));
  tweak_add := λ k s, k + le_val s;
  SerializePubKey_size := λ k, conj (le_put_length 32 k) (le_put_bytes 32 k);
  Parse_Serialize := ex_key_roundtrip
|}.
#[export] Instance ex_Crypto : Crypto := {|
  ripemd160 := pad 20;
  sha1 := pad 20;
  ParsePubKey := λ _, true;
  ParseSignature := λ _ _, true;
  VerifySignature := λ _ s k, bool_decide (head s = head k)
|}.

Lemma pad_small n x : (n ≤ 32)%nat → small (pad n x).
Proof.
  intros Hn. unfold small, pad, MaxScriptElementSize. rewrite length_take. lia.
Qed.

Lemma sha256_small x : small (sha256_sum x).
Proof. unfold small. by rewrite (proj1 (sha256_sum_size x)). Qed.

(** An engine with a stack. *)
Definition ex_out : OutPoint := mkOutPoint (replicate 32 7) 0.
Definition ex_in (script : list byte) : TxIn := mkTxIn ex_out script [] 10.
Definition ex_tx : MsgTx := mkMsgTx 2 [ex_in [0x51]] [mkTxOut 5000 [0x51]] 100.
Definition ex_fetch : PrevOutputFetcher := λ _, None.
Definition ex_vm (fl : Z) (l : list (list byte)) : Engine :=
  mkEngine fl ex_tx 0 false [[0x51]; [0x51]] 1 0 0 (MakeScriptTokenizer 0 [0x51]) []
    (mkStack l false) (mkStack [] false) [] 0 0 None None None 0 ex_fetch.

(** ** Numbers, stack, tokens *)

Lemma scriptnum_witness : ∃ v, Bytes (-1000) = Ok v ∧ MakeScriptNum v true 4 = Ok (-1000).
Proof. apply (scriptnum_bijection 4); lia. Defined.

Lemma stack_transformations_witness :
  SwapN 2 (mkStack [[1]; [2]; [3]; [4]; [5]] false) = Ok ((), mkStack [[3]; [4]; [1]; [2]; [5]] false).
Proof.
  apply (stack_transformations 2 [[1]; [2]] [[3]; [4]] [[5]; [6]] [[5]] false); [lia|reflexivity..].
Defined.

Lemma builder_witness : extends [] [0x68; 0x69] (AddData NewScriptBuilder [0x68; 0x69]).
Proof.
  destruct (builder_pushes NewScriptBuilder []) as [H _].
  - reflexivity.
  - reflexivity.
  - constructor.
  - apply (H [0x68; 0x69]). repeat constructor; unfold is_byte; lia.
Defined.

(** The push of the signature [7 8] is removed. *)
Lemma removeOpcodeByData_witness :
  let script := [2; 7; 8; 0xac] in
  let '(ts, _) := tokens 0 script in
  removeOpcodeByData script [7; 8] =
    (encode_all (map tok_pair (List.filter (negb ∘ push_of [7; 8]) ts)), existsb (push_of [7; 8]) ts).
Proof.
  intros script. destruct (tokens 0 script) as [ts e] eqn:E.
  apply (removeOpcodeByData_spec script [7; 8] ts e).
  - unfold script. repeat constructor; unfold is_byte; lia.
  - discriminate.
  - discriminate.
  - exact E.
  - vm_compute in E. injection E as _ <-. reflexivity.
Defined.

Lemma sigops_witness : 0 ≤ countSigOpsV0 [0x52; 0xae] true ≤ GetSigOpCount [0x52; 0xae].
Proof. apply (sigops_bounds [0x52; 0xae]). repeat constructor; unfold is_byte; lia. Defined.

(** ** Opcodes *)

(** Two signatures, three keys. *)
Lemma checkmultisig_witness :
  ∃ b, (b = true ↔ accepted (ex_vm 0 [[3]; [7]; [8]; [9]; [2]; [7; 1]; [9; 1]; []]) [0x51] [[7; 1]; [9; 1]] [[7]; [8]; [9]]) ∧
    opcodeCheckMultiSig (ex_vm 0 [[3]; [7]; [8]; [9]; [2]; [7; 1]; [9; 1]; []]) =
    Ok ((), set_numOps 3 (ex_vm 0 [fromBool b])).
Proof.
  destruct (checkmultisig_complete (ex_vm 0 [[3]; [7]; [8]; [9]; [2]; [7; 1]; [9; 1]; []]) false
    [3] [[7]; [8]; [9]] [2] [[7; 1]; [9; 1]] [] [] [0x51]) as (b & H1 & H2).
  - reflexivity.
  - reflexivity.
  - vm_compute. reflexivity.
  - vm_compute. reflexivity.
  - vm_compute. discriminate.
  - vm_compute. discriminate.
  - vm_compute. discriminate.
  - reflexivity.
  - vm_compute. reflexivity.
  - repeat constructor; discriminate.
  - repeat constructor.
  - exists b. split; [exact H1|].
    rewrite H2. change (hasFlag (ex_vm 0 _) ScriptVerifyNullFail) with false.
    rewrite andb_false_r. reflexivity.
Defined.

Lemma signature_encoding_witness :
  checkSignatureEncoding (ex_vm (2 ^ 6) []) [0x30; 6; 2; 1; 5; 2; 1; 7] = None ↔
  ∃ R Sv, [0x30; 6; 2; 1; 5; 2; 1; 7] = der_signature R Sv ∧ der_int R ∧ der_int Sv ∧
          zlen [0x30; 6; 2; 1; 5; 2; 1; 7] ≤ 72 ∧ low_s (ex_vm (2 ^ 6) []) Sv.
Proof.
  apply (signature_encoding_der (ex_vm (2 ^ 6) [])).
  - left. reflexivity.
  - repeat constructor; unfold is_byte; lia.
Defined.

(** The first step of a script that pushes 1. *)
Lemma limits_witness :
  ∃ vm0 vm', NewEngine [0x51; 0x51] ex_tx 0 0 None 0 ex_fetch = Ok vm0 ∧ Step vm0 = Ok (false, vm') ∧ within vm'.
Proof.
  destruct (NewEngine [0x51; 0x51] ex_tx 0 0 None 0 ex_fetch) as [vm0|e|] eqn:E0; [|by vm_compute in E0..].
  destruct (Step vm0) as [[d vm']|e|] eqn:E1; cycle 1.
  { vm_compute in E0. injection E0 as <-. by vm_compute in E1. }
  { vm_compute in E0. injection E0 as <-. by vm_compute in E1. }
  assert (d = false) as ->.
  { vm_compute in E0. injection E0 as <-. vm_compute in E1. by injection E1 as <- _. }
  exists vm0, vm'. split; [reflexivity|]. split; [exact E1|].
  apply (limits_hold (λ x, conj (pad_small 20 x ltac:(lia)) (conj (pad_small 20 x ltac:(lia)) (sha256_small x)))
    [0x51; 0x51] ex_tx 0 0 None 0 ex_fetch vm0 vm0 false vm' E0 (rtc_refl _ _) E1).
Defined.

(** A signature that fits the key, which hashes to [h]. *)
Lemma p2pkh_witness :
  let sig := 2 :: replicate 21 9 in
  let pk := 2 :: replicate 32 5 in
  let h := hash160 pk in
  let t := mkMsgTx 2 [ex_in (encode 22 sig ++ encode 33 pk)] [] 100 in
  ∃ vm, NewEngine (fst (payToPubKeyHashScript h)) t 0 1 None 0 ex_fetch = Ok vm ∧
    Execute 7 vm = Some (Ok ()).
Proof.
  intros sig pk h t.
  destruct (p2pkh_spend 1 t 0 (ex_in (encode 22 sig ++ encode 33 pk)) sig pk h
    (fst (payToPubKeyHashScript h)) None 0 ex_fetch) as (vm & H1 & H2 & _).
  - reflexivity.
  - reflexivity.
  - reflexivity.
  - vm_compute. split; [reflexivity|discriminate].
  - vm_compute. split; discriminate.
  - reflexivity.
  - intros _. reflexivity.
  - vm_compute. reflexivity.
  - exists vm. split; [exact H1|]. rewrite H2 by lia. vm_compute in H1. injection H1 as <-.
    vm_compute. reflexivity.
Defined.

(** The lock time 50, the transaction's 100. *)
Lemma lock_time_witness :
  let vm := ex_vm (2 ^ 3 + 2 ^ 4) [[50]] in
  test_of (opcodeCheckLockTimeVerify vm) vm
    (0 ≤ 50 ∧ (50 < LockTimeThreshold ↔ LockTime (tx vm) < LockTimeThreshold) ∧ 50 ≤ LockTime (tx vm) ∧
     10 ≠ MaxTxInSequenceNum) ∧
  opcodeCheckLockTimeVerify vm = Ok ((), vm).
Proof.
  intros vm. split; [|vm_compute; reflexivity].
  apply (lock_time_opcodes vm [50] [] false 50 (ex_in [0x51])); vm_compute; reflexivity.
Defined.

(** 100 + 27 *)
Lemma arithmetic_witness :
  result_of 127 (ex_vm 0 [[27]; [100]]) [] false (opfunc 0x93 [] (ex_vm 0 [[27]; [100]])).
Proof.
  destruct (arithmetic_opcodes (ex_vm 0 [[27]; [100]]) false [100] [27] 100 27 []) as [_ H].
  - repeat constructor; unfold is_byte; lia.
  - repeat constructor; unfold is_byte; lia.
  - vm_compute. reflexivity.
  - vm_compute. reflexivity.
  - apply (H 0x93 Z.add); [left; reflexivity|reflexivity].
Defined.
