(* ===== verification/ChainCompress.v ===== *)
(** * Block chain: compressed integers, scripts and outputs

    btcd/blockchain/compress.go.  What the code writes into a target buffer
    is the list of bytes it writes; a slice out of range is [Crash].  Keys
    of the curve are parameters. *)

From Stdlib Require Import ZArith Lia.
From stdpp Require Import base numbers list strings.
From S2P Require Import Prelude ScriptNum WireBase WireTx ScriptToken.

Open Scope Z_scope.

Definition uint64 (n : Z) : Z := wrap_u 64 n.

(** ** Variable-length quantities *)

(** A 64-bit number has at most ten digits in base 128. *)
Definition vlq_fuel : nat := 10.

Fixpoint size_loop (fuel : nat) (n : Z) : Z :=
  match fuel with
  | O => 0
  | S k => 1 + (if 0x7f <? n then size_loop k (Z.shiftr n 7 - 1) else 0)
  end.
Definition serializeSizeVLQ (n : Z) : Z := size_loop vlq_fuel n.

(** The digits, the last one first; all but the last have their high bit
    set.  The bytes are then reversed in place. *)
Fixpoint vlq_digits (fuel : nat) (high : Z) (n : Z) : list byte :=
  match fuel with
  | O => []
  | S k =>
      let b := Z.lor (Z.land n 0x7f) high in
      if n <=? 0x7f then [b] else b :: vlq_digits k 0x80 (Z.shiftr n 7 - 1)
  end.
Definition putVLQ (n : Z) : list byte := rev (vlq_digits vlq_fuel 0 n).

(** The number and how many bytes it took. *)
Fixpoint vlq_loop (n : Z) (size : nat) (serialized : list byte) : Z * nat :=
  match serialized with
  | [] => (n, size)
  | val :: rest =>
      let n := Z.lor (uint64 (Z.shiftl n 7)) (Z.land val 0x7f) in
      if negb (Z.land val 0x80 =? 0x80) then (n, S size)
      else vlq_loop (uint64 (n + 1)) (S size) rest
  end.
Definition deserializeVLQ (serialized : list byte) : Z * nat := vlq_loop 0 0 serialized.

#[global] Arguments putVLQ : simpl never.
#[global] Arguments serializeSizeVLQ : simpl never.

(** ** Scripts *)

(** Keys in their serialized forms.  A key that can be read from its
    uncompressed form can be read from its compressed one, which has the
    parity of the second coordinate, and gives the uncompressed form back. *)
Class Keys := {
  Key : Type;
  btcec_ParsePubKey : list byte → option Key;
  SerializeUncompressed : Key → list byte;
  decompress_key x y k :
    length x = 32%nat → length y = 32%nat → btcec_ParsePubKey (0x04 :: x ++ y) = Some k →
    ∃ k', btcec_ParsePubKey (0x02 + Z.land (last_byte y) 1 :: x) = Some k' ∧
          SerializeUncompressed k' = 0x04 :: x ++ y
}.

Definition isPubKeyHash (script : list byte) : option (list byte) :=
  if (length script =? 25)%nat && (nth_byte script 0 =? OP_DUP) && (nth_byte script 1 =? OP_HASH160) &&
     (nth_byte script 2 =? OP_DATA_20) && (nth_byte script 23 =? OP_EQUALVERIFY) &&
     (nth_byte script 24 =? OP_CHECKSIG)
  then Some (slice script 3 23) else None.
Definition isScriptHash (script : list byte) : option (list byte) :=
  if (length script =? 23)%nat && (nth_byte script 0 =? OP_HASH160) && (nth_byte script 1 =? OP_DATA_20) &&
     (nth_byte script 22 =? OP_EQUAL)
  then Some (slice script 2 22) else None.

Definition cstPayToPubKeyHash : Z := 0.
Definition cstPayToScriptHash : Z := 1.
Definition numSpecialScripts : Z := 6.

(** Results with an error of type errDeserialize. *)
Inductive ChainRes (A : Type) := COk (a : A) | CErr (what : string) | CCrash.
Arguments COk {A} _.
Arguments CErr {A} _.
Arguments CCrash {A}.

Section Scripts.
Context `{Keys}.

Definition is_key (b : list byte) : bool :=
  match btcec_ParsePubKey b with Some _ => true | None => false end.
Definition isPubKey (script : list byte) : option (list byte) :=
  if ((length script =? 35)%nat && (nth_byte script 0 =? OP_DATA_33) && (nth_byte script 34 =? OP_CHECKSIG) &&
      ((nth_byte script 1 =? 2) || (nth_byte script 1 =? 3))) && is_key (slice script 1 34)
  then Some (slice script 1 34)
  else if ((length script =? 67)%nat && (nth_byte script 0 =? OP_DATA_65) && (nth_byte script 66 =? OP_CHECKSIG) &&
      (nth_byte script 1 =? 4)) && is_key (slice script 1 66)
  then Some (slice script 1 66)
  else None.

Definition compressedScriptSize (pkScript : list byte) : Z :=
  match isPubKeyHash pkScript, isScriptHash pkScript, isPubKey pkScript with
  | Some _, _, _ => 21
  | None, Some _, _ => 21
  | None, None, Some _ => 33
  | None, None, None => serializeSizeVLQ (uint64 (zlen pkScript + numSpecialScripts)) + zlen pkScript
  end.

(** The result is an int. *)
Definition decodeCompressedScriptSize (serialized : list byte) : Z :=
  let '(scriptSize, bytesRead) := deserializeVLQ serialized in
  if (bytesRead =? 0)%nat then 0
  else if (scriptSize =? 0) || (scriptSize =? 1) then 21
  else if scriptSize <? 6 then 33
  else int64 (uint64 (scriptSize - numSpecialScripts + Z.of_nat bytesRead)).

Definition put_raw (pkScript : list byte) : list byte :=
  putVLQ (uint64 (zlen pkScript + numSpecialScripts)) ++ pkScript.
Definition putCompressedScript (pkScript : list byte) : list byte :=
  match isPubKeyHash pkScript, isScriptHash pkScript, isPubKey pkScript with
  | Some hash, _, _ => cstPayToPubKeyHash :: hash
  | None, Some hash, _ => cstPayToScriptHash :: hash
  | None, None, Some key =>
      let format := nth_byte key 0 in
      if (format =? 2) || (format =? 3) then format :: slice key 1 33
      else if format =? 4 then Z.lor format (Z.land (nth_byte key 64) 1) :: slice key 1 33
      else put_raw pkScript
  | None, None, None => put_raw pkScript
  end.

(** A slice [b\[i:i+n\]]. *)
Definition sub (b : list byte) (i : nat) (n : Z) : Res (list byte) :=
  if (n <? 0) || (zlen b <? Z.of_nat i + n) then Crash else Ok (take (Z.to_nat n) (drop i b)).

(** [Ok None] is a nil script. *)
Definition decompressScript (b : list byte) : Res (option (list byte)) :=
  if (length b =? 0)%nat then Ok None else
  let '(encodedScriptSize, bytesRead) := deserializeVLQ b in
  if encodedScriptSize =? cstPayToPubKeyHash then
    hash ← sub b bytesRead 20;
    Ok (Some ([OP_DUP; OP_HASH160; OP_DATA_20] ++ hash ++ [OP_EQUALVERIFY; OP_CHECKSIG]))
  else if encodedScriptSize =? cstPayToScriptHash then
    hash ← sub b bytesRead 20;
    Ok (Some ([OP_HASH160; OP_DATA_20] ++ hash ++ [OP_EQUAL]))
  else if (encodedScriptSize =? 2) || (encodedScriptSize =? 3) then
    x ← sub b bytesRead 32;
    Ok (Some ([OP_DATA_33; encodedScriptSize] ++ x ++ [OP_CHECKSIG]))
  else if (encodedScriptSize =? 4) || (encodedScriptSize =? 5) then
    (* the rest of the bytes, copied into 32 *)
    let compressedKey := (encodedScriptSize - 2) :: take 32 (drop 1 b ++ replicate 32 0) in
    match btcec_ParsePubKey compressedKey with
    | None => Ok None
    | Some key => Ok (Some ([OP_DATA_65] ++ SerializeUncompressed key ++ [OP_CHECKSIG]))
    end
  else
    script ← sub b bytesRead (int64 (uint64 (encodedScriptSize - numSpecialScripts)));
    Ok (Some script).

(** ** Amounts *)

Fixpoint strip_zeros (fuel : nat) (amount exponent : Z) : Z * Z :=
  match fuel with
  | O => (amount, exponent)
  | S k => if (amount mod 10 =? 0) && (exponent <? 9) then strip_zeros k (amount / 10) (exponent + 1)
           else (amount, exponent)
  end.
Definition compressTxOutAmount (amount : Z) : Z :=
  if amount =? 0 then 0 else
  let '(amount, exponent) := strip_zeros 9 amount 0 in
  if exponent <? 9 then
    let lastDigit := amount mod 10 in
    uint64 (1 + 10 * (9 * (amount / 10) + lastDigit - 1) + exponent)
  else uint64 (10 + 10 * (amount - 1)).
Definition decompressTxOutAmount (amount : Z) : Z :=
  if amount =? 0 then 0 else
  let amount := amount - 1 in
  let exponent := amount mod 10 in
  let amount := amount / 10 in
  let n := if exponent <? 9 then uint64 ((amount / 9) * 10 + (amount mod 9 + 1)) else uint64 (amount + 1) in
  uint64 (n * 10 ^ exponent).

(** ** Outputs *)

Definition compressedTxOutSize (amount : Z) (pkScript : list byte) : Z :=
  serializeSizeVLQ (compressTxOutAmount amount) + compressedScriptSize pkScript.
Definition putCompressedTxOut (amount : Z) (pkScript : list byte) : list byte :=
  putVLQ (compressTxOutAmount amount) ++ putCompressedScript pkScript.

(** The amount, the script and how many bytes they took. *)
Definition decodeCompressedTxOut (serialized : list byte) : ChainRes (Z * option (list byte) * nat) :=
  let '(compressedAmount, bytesRead) := deserializeVLQ serialized in
  if (length serialized <=? bytesRead)%nat then CErr "unexpected end of data after compressed amount" else
  let rest := drop bytesRead serialized in
  let scriptSize := decodeCompressedScriptSize rest in
  if zlen rest <? scriptSize then CErr "unexpected end of data after script size"
  else
    match sub serialized bytesRead scriptSize with
    | Ok b =>
        match decompressScript b with
        | Ok script => COk (decompressTxOutAmount compressedAmount, script, (bytesRead + Z.to_nat scriptSize)%nat)
        | _ => CCrash
        end
    | _ => CCrash
    end.
End Scripts.
