(* ===== verification/ChainCompressFacts.v ===== *)
(** * Block chain: the compressed forms can be read back *)

From Stdlib Require Import ZArith Lia.
From stdpp Require Import base numbers list strings.
From S2P Require Import Prelude ScriptNum ScriptNumFacts WireBase WireTx ScriptToken ChainCompress.

Open Scope Z_scope.

(** ** Variable-length quantities *)

Lemma land_127 m : Z.land m 0x7f = m mod 128.
Proof. change 0x7f with (Z.ones 7). by rewrite Z.land_ones by lia. Qed.

Lemma digit_low m high : high = 0 ∨ high = 0x80 → Z.land (Z.lor (Z.land m 0x7f) high) 0x7f = m mod 128.
Proof.
  intros Hh. rewrite Z.land_lor_distr_l, <- Z.land_assoc, !land_127.
  destruct Hh as [->| ->]; simpl; by rewrite Z.lor_0_r.
Qed.
Lemma digit_high m high : high = 0 ∨ high = 0x80 → Z.land (Z.lor (Z.land m 0x7f) high) 0x80 = high.
Proof.
  intros Hh. rewrite Z.land_lor_distr_l, <- Z.land_assoc. change (Z.land 0x7f 0x80) with 0.
  rewrite Z.land_0_r. by destruct Hh as [->| ->].
Qed.

Lemma join_digit m : 0 ≤ m < 2 ^ 64 → Z.lor (uint64 (Z.shiftl (m / 128) 7)) (m mod 128) = m.
Proof.
  intros Hm. pose proof (Z.div_mod m 128 ltac:(lia)) as Hd. pose proof (Z.mod_pos_bound m 128 ltac:(lia)).
  assert (uint64 (Z.shiftl (m / 128) 7) = Z.shiftl (m / 128) 7) as ->.
  { rewrite Z.shiftl_mul_pow2 by lia. apply Z.mod_small. change (2 ^ 7) with 128. lia. }
  rewrite Z.lor_comm, lor_shiftl_add by (change (2 ^ 7) with 128; lia). change (2 ^ 7) with 128. lia.
Qed.

Lemma vlq_step m high acc s rest :
  high = 0 ∨ high = 0x80 → 0 ≤ m < 2 ^ 64 → acc = m / 128 →
  vlq_loop acc s (Z.lor (Z.land m 0x7f) high :: rest) =
  if high =? 0 then (m, S s) else vlq_loop (uint64 (m + 1)) (S s) rest.
Proof.
  intros Hh Hm ->. cbn [vlq_loop]. rewrite digit_low, digit_high, join_digit by done.
  by destruct Hh as [->| ->].
Qed.

(** The digits before the last leave the number they stand for, plus one. *)
Lemma vlq_prefix k m s rest :
  0 ≤ m < 2 ^ 64 - 1 → m < 2 ^ (7 * Z.of_nat k) - 1 →
  vlq_loop 0 s (rev (vlq_digits k 0x80 m) ++ rest) =
  vlq_loop (m + 1) (s + length (vlq_digits k 0x80 m)) rest.
Proof.
  revert m s rest. induction k as [|k IH]; intros m s rest Hm Hk; [simpl in Hk; lia|].
  cbn [vlq_digits]. rewrite Nat2Z.inj_succ in Hk.
  replace (7 * Z.succ (Z.of_nat k)) with (7 + 7 * Z.of_nat k) in Hk by lia. rewrite Z.pow_add_r in Hk by lia.
  change (2 ^ 7) with 128 in Hk.
  destruct (Z.leb_spec m 0x7f) as [Hs|Hb].
  - cbn [rev app length]. rewrite vlq_step; [|auto|lia|rewrite Z.div_small; lia]. cbn [Z.eqb].
    unfold uint64, wrap_u. rewrite Z.mod_small by lia. f_equal. lia.
  - rewrite Z.shiftr_div_pow2 by lia. change (2 ^ 7) with 128.
    assert (1 ≤ m / 128) by (apply Z.div_le_lower_bound; lia).
    assert (m / 128 < 2 ^ 64 - 1) by (apply Z.div_lt_upper_bound; lia).
    assert (m / 128 < 2 ^ (7 * Z.of_nat k)) by (apply Z.div_lt_upper_bound; lia).
    cbn [rev length]. rewrite <- app_assoc, IH by lia. cbn [app].
    rewrite vlq_step; [|auto|lia|lia]. cbn [Z.eqb].
    unfold uint64, wrap_u. rewrite Z.mod_small by lia. f_equal. lia.
Qed.

Lemma vlq_fuel_roundtrip k n rest :
  0 ≤ n < 2 ^ 64 → n < 2 ^ (7 * Z.of_nat (S k)) →
  vlq_loop 0 0 (rev (vlq_digits (S k) 0 n) ++ rest) = (n, length (vlq_digits (S k) 0 n)).
Proof.
  intros Hn Hk. cbn [vlq_digits]. rewrite Nat2Z.inj_succ in Hk.
  replace (7 * Z.succ (Z.of_nat k)) with (7 + 7 * Z.of_nat k) in Hk by lia. rewrite Z.pow_add_r in Hk by lia.
  change (2 ^ 7) with 128 in Hk. destruct (Z.leb_spec n 0x7f) as [Hs|Hb].
  - cbn [rev app length]. rewrite vlq_step; [|auto|lia|rewrite Z.div_small; lia]. done.
  - rewrite Z.shiftr_div_pow2 by lia. change (2 ^ 7) with 128.
    assert (1 ≤ n / 128) by (apply Z.div_le_lower_bound; lia).
    assert (n / 128 < 2 ^ 64 - 1) by (apply Z.div_lt_upper_bound; lia).
    assert (n / 128 < 2 ^ (7 * Z.of_nat k)) by (apply Z.div_lt_upper_bound; lia).
    cbn [rev length]. rewrite <- app_assoc, vlq_prefix by lia. cbn [app].
    rewrite vlq_step; [|auto|lia|lia]. done.
Qed.
Lemma vlq_roundtrip n rest :
  0 ≤ n < 2 ^ 64 → deserializeVLQ (putVLQ n ++ rest) = (n, length (putVLQ n)).
Proof.
  intros Hn. unfold deserializeVLQ, putVLQ. rewrite length_rev. apply vlq_fuel_roundtrip; simpl; lia.
Qed.

Lemma vlq_size_digits k high n : zlen (vlq_digits k high n) = size_loop k n.
Proof.
  revert high n. induction k as [|k IH]; intros high n; [done|]. cbn [vlq_digits size_loop].
  destruct (Z.leb_spec n 0x7f), (Z.ltb_spec 0x7f n); try lia; [done|]. cbn [length].
  rewrite Nat2Z.inj_succ, IH. lia.
Qed.
Lemma vlq_size n : zlen (putVLQ n) = serializeSizeVLQ n.
Proof. unfold putVLQ. rewrite length_rev. apply vlq_size_digits. Qed.

Lemma vlq_bytes n : 0 ≤ n → Forall is_byte (putVLQ n).
Proof.
  intros Hn. unfold putVLQ. apply Forall_rev.
  assert (∀ k high m, high = 0 ∨ high = 0x80 → Forall is_byte (vlq_digits k high m)) as Hd; [|auto].
  induction k as [|k IH]; intros high m Hh; cbn [vlq_digits]; [done|].
  assert (is_byte (Z.lor (Z.land m 0x7f) high)) as Hb.
  { pose proof (digit_low m high Hh) as H1. pose proof (digit_high m high Hh) as H2.
    rewrite land_127 in *. pose proof (Z.mod_pos_bound m 128 ltac:(lia)). unfold is_byte.
    destruct Hh as [->| ->]; [rewrite Z.lor_0_r; lia|].
    change 128 with (Z.shiftl 1 7) at 2 4. rewrite lor_shiftl_add by (simpl; lia). simpl. lia. }
  destruct (m <=? 0x7f); constructor; auto.
Qed.

Lemma vlq_digits_length k high n : (0 < length (vlq_digits (S k) high n))%nat.
Proof. cbn [vlq_digits]. destruct (n <=? 0x7f); cbn [length]; lia. Qed.
Lemma putVLQ_length n : (0 < length (putVLQ n))%nat.
Proof. unfold putVLQ. rewrite length_rev. apply (vlq_digits_length 9). Qed.

(** ** Amounts *)

Lemma strip_zeros_spec k a e :
  0 < a → 0 ≤ e → e + Z.of_nat k = 9 →
  ∃ a' e', strip_zeros k a e = (a', e') ∧ 0 < a' ∧ e ≤ e' ≤ 9 ∧ a = a' * 10 ^ (e' - e) ∧
    (e' < 9 → a' mod 10 ≠ 0).
Proof.
  revert a e. induction k as [|k IH]; intros a e Ha He Hk.
  { exists a, e. split_and!; [done|done|lia|lia| |lia]. by rewrite Z.sub_diag, Z.mul_1_r. }
  cbn [strip_zeros]. destruct (Z.eqb_spec (a mod 10) 0) as [Hz|Hz]; cbn [andb].
  2: { exists a, e. split_and!; [done|done|lia|lia| |done]. by rewrite Z.sub_diag, Z.mul_1_r. }
  rewrite (proj2 (Z.ltb_lt e 9)) by lia. pose proof (Z.div_mod a 10 ltac:(lia)) as Hd.
  destruct (IH (a / 10) (e + 1)) as (a' & e' & -> & Ha' & He' & Heq & Hmod); [lia..|].
  exists a', e'. split_and!; [done|done|lia|lia| |done].
  replace (e' - e) with (Z.succ (e' - (e + 1))) by lia. rewrite Z.pow_succ_r by lia. lia.
Qed.

(** Amounts up to a sixteenth of the range, 54 times the money there is. *)
Lemma amount_roundtrip a :
  0 ≤ a < 2 ^ 60 →
  0 ≤ compressTxOutAmount a < 2 ^ 64 ∧ decompressTxOutAmount (compressTxOutAmount a) = a.
Proof.
  intros Ha. unfold compressTxOutAmount. destruct (Z.eqb_spec a 0) as [->|Hne]; [done|].
  destruct (strip_zeros_spec 9 a 0) as (a' & e' & -> & Ha' & He' & Heq & Hmod); [lia..|].
  rewrite Z.sub_0_r in Heq. assert (1 ≤ 10 ^ e') as Hp by (pose proof (Z.pow_pos_nonneg 10 e'); lia).
  assert (a' ≤ a) by nia.
  assert (∀ x, 0 ≤ x < 2 ^ 64 → uint64 x = x) as Hid by (intros; by apply Z.mod_small).
  destruct (Z.ltb_spec e' 9) as [H9|H9].
  - specialize (Hmod H9). pose proof (Z.div_mod a' 10 ltac:(lia)) as Hd.
    pose proof (Z.mod_pos_bound a' 10 ltac:(lia)) as Hm.
    set (q := a' / 10) in *. set (d := a' mod 10) in *.
    rewrite Hid by lia. split; [lia|]. unfold decompressTxOutAmount.
    rewrite (proj2 (Z.eqb_neq _ _)) by lia. cbv zeta.
    replace (1 + 10 * (9 * q + d - 1) + e' - 1) with (e' + (9 * q + (d - 1)) * 10) by lia.
    rewrite Z.mod_add, Z.div_add, (Z.mod_small e'), (Z.div_small e') by lia.
    rewrite (proj2 (Z.ltb_lt e' 9)), Z.add_0_l by lia.
    replace (9 * q + (d - 1)) with (d - 1 + q * 9) by lia.
    rewrite Z.mod_add, Z.div_add, (Z.mod_small (d - 1)), (Z.div_small (d - 1)) by lia.
    rewrite Z.add_0_l. replace (q * 10 + (d - 1 + 1)) with a' by lia.
    rewrite (Hid a') by lia. rewrite <- Heq. apply Hid. lia.
  - assert (e' = 9) as -> by lia. change (10 ^ 9) with 1000000000 in *.
    rewrite Hid by lia. split; [lia|]. unfold decompressTxOutAmount.
    rewrite (proj2 (Z.eqb_neq _ _)) by lia. cbv zeta.
    replace (10 + 10 * (a' - 1) - 1) with (9 + (a' - 1) * 10) by lia.
    rewrite Z.mod_add, Z.div_add by lia. change (9 mod 10) with 9. change (9 / 10) with 0. cbn [Z.ltb Z.compare Pos.compare Pos.compare_cont].
    rewrite Z.add_0_l. replace (a' - 1 + 1) with a' by lia. rewrite (Hid a') by lia.
    change (10 ^ 9) with 1000000000. rewrite <- Heq. apply Hid. lia.
Qed.

(** ** Scripts *)

Lemma nth_byte_drop k i l : nth_byte (drop k l) i = nth_byte l (k + i).
Proof. unfold nth_byte. by rewrite lookup_drop. Qed.
Lemma nth_byte_take k i l : (i < k)%nat → nth_byte (take k l) i = nth_byte l i.
Proof. intros Hi. unfold nth_byte. by rewrite lookup_take_lt. Qed.
Lemma as_nths n l : length l = n → l = map (nth_byte l) (seq 0 n).
Proof.
  intros <-. apply list_eq. intros i. rewrite list_lookup_fmap. unfold nth_byte.
  destruct (decide (i < length l)%nat) as [Hi|Hi].
  - rewrite lookup_seq_lt by done. cbn. destruct (lookup_lt_is_Some_2 l i Hi) as [x Hx]. by rewrite Hx.
  - rewrite lookup_seq_ge by lia. apply lookup_ge_None. lia.
Qed.
Lemma script_parts s a b :
  (a ≤ b ≤ length s)%nat →
  s = map (nth_byte s) (seq 0 a) ++ slice s a b ++ map (nth_byte (drop b s)) (seq 0 (length s - b)).
Proof.
  intros Hab. unfold slice.
  rewrite <- (as_nths (length s - b) (drop b s)) by by rewrite length_drop.
  rewrite <- (take_drop a s) at 1. f_equal.
  - rewrite (as_nths a (take a s)) at 1 by (rewrite length_take; lia). apply map_ext_in.
    intros i [_ Hi]%in_seq. apply nth_byte_take. lia.
  - rewrite <- (take_drop (b - a) (drop a s)) at 1. f_equal. rewrite drop_drop. f_equal. lia.
Qed.
Lemma slice_length s a b : (a ≤ b ≤ length s)%nat → length (slice s a b) = (b - a)%nat.
Proof. intros Hab. unfold slice. rewrite length_take, length_drop. lia. Qed.

Ltac split_checks H :=
  repeat match type of H with _ && _ = true => apply andb_true_iff in H as [H ?Hc] end;
  repeat match goal with
  | Hx : (_ =? _) = true |- _ => apply Z.eqb_eq in Hx
  | Hx : (_ =? _)%nat = true |- _ => apply Nat.eqb_eq in Hx
  end.

Lemma isPubKeyHash_ok s h :
  isPubKeyHash s = Some h →
  length h = 20%nat ∧ s = [OP_DUP; OP_HASH160; OP_DATA_20] ++ h ++ [OP_EQUALVERIFY; OP_CHECKSIG].
Proof.
  unfold isPubKeyHash. destruct (_ && _) eqn:E; [|done]. intros [= <-]. split_checks E.
  split; [rewrite slice_length; lia|]. rewrite (script_parts s 3 23) at 1 by lia. rewrite E.
  cbn [seq map Nat.sub]. rewrite !nth_byte_drop. cbn [Nat.add]. congruence.
Qed.
Lemma isScriptHash_ok s h :
  isScriptHash s = Some h → length h = 20%nat ∧ s = [OP_HASH160; OP_DATA_20] ++ h ++ [OP_EQUAL].
Proof.
  unfold isScriptHash. destruct (_ && _) eqn:E; [|done]. intros [= <-]. split_checks E.
  split; [rewrite slice_length; lia|]. rewrite (script_parts s 2 22) at 1 by lia. rewrite E.
  cbn [seq map Nat.sub]. rewrite !nth_byte_drop. cbn [Nat.add]. congruence.
Qed.

Section Keys.
Context `{Keys}.

(** A key script holds a compressed key or an uncompressed one. *)
Lemma isPubKey_ok s key :
  isPubKey s = Some key →
  (∃ f x, (f = 2 ∨ f = 3) ∧ length x = 32%nat ∧ key = f :: x ∧ s = [OP_DATA_33; f] ++ x ++ [OP_CHECKSIG]) ∨
  (∃ x y k, length x = 32%nat ∧ length y = 32%nat ∧ key = 4 :: x ++ y ∧
     btcec_ParsePubKey key = Some k ∧ s = [OP_DATA_65] ++ key ++ [OP_CHECKSIG]).
Proof.
  unfold isPubKey. destruct (_ && is_key (slice s 1 34)) eqn:E1; [|destruct (_ && is_key (slice s 1 66)) eqn:E2; [|done]];
    intros [= <-].
  - left. split_checks E1. apply orb_true_iff in Hc0.
    exists (nth_byte s 1), (slice s 2 34). split_and!.
    + destruct Hc0 as [?%Z.eqb_eq|?%Z.eqb_eq]; auto.
    + rewrite slice_length; lia.
    + unfold slice. rewrite (as_nths 35 s) by done. done.
    + rewrite (script_parts s 2 34) at 1 by lia. rewrite E1. cbn [seq map Nat.sub].
      rewrite !nth_byte_drop. cbn [Nat.add]. congruence.
  - right. split_checks E2. unfold is_key in Hc.
    destruct (btcec_ParsePubKey (slice s 1 66)) as [k|] eqn:Ek; [|done].
    exists (slice s 2 34), (slice s 34 66), k. split_and!; [rewrite slice_length; lia..| |done|].
    + rewrite <- Hc0. unfold slice. rewrite (as_nths 67 s) by done. done.
    + rewrite (script_parts s 1 66) at 1 by lia. rewrite E2. cbn [seq map Nat.sub].
      rewrite !nth_byte_drop. cbn [Nat.add]. congruence.
Qed.

Lemma vlq_one c rest : 0 ≤ c < 128 → deserializeVLQ (c :: rest) = (c, 1%nat).
Proof.
  intros Hc. unfold deserializeVLQ.
  assert (Z.lor (Z.land c 0x7f) 0 = c) as Hl by (rewrite Z.lor_0_r, land_127; apply Z.mod_small; lia).
  rewrite <- Hl at 1. rewrite vlq_step; [done|auto|lia|]. by rewrite Z.div_small by lia.
Qed.

Lemma sub_ok b i n l rest :
  drop i b = l ++ rest → zlen l = n → (i ≤ length b)%nat → sub b i n = Ok l.
Proof.
  intros Hd Hl Hi. unfold sub. apply (f_equal length) in Hd as Hlen. rewrite length_drop, length_app in Hlen.
  rewrite (proj2 (Z.ltb_ge n 0)), (proj2 (Z.ltb_ge (zlen b) _)) by lia. cbn [orb].
  rewrite Hd, <- Hl, Nat2Z.id, take_app_length. done.
Qed.

(** How a script was compressed decides its first bytes. *)
Definition script_fits (s : list byte) : Prop := zlen s < 2 ^ 62.

Lemma raw_ok s rest :
  script_fits s →
  let n := length (putVLQ (zlen s + 6)) in
  deserializeVLQ (put_raw s ++ rest) = (zlen s + 6, n) ∧ put_raw s = putVLQ (zlen s + 6) ++ s.
Proof.
  intros Hs. unfold put_raw, numSpecialScripts, uint64, wrap_u. unfold script_fits in Hs.
  rewrite Z.mod_small by lia. split; [|done]. rewrite <- app_assoc. apply vlq_roundtrip. lia.
Qed.

Lemma raw_decompress s :
  script_fits s →
  decompressScript (put_raw s) = Ok (Some s) ∧
  (∀ rest, decodeCompressedScriptSize (put_raw s ++ rest) = zlen (put_raw s)).
Proof.
  intros Hs. pose proof (putVLQ_length (zlen s + 6)) as Hv. split.
  - destruct (raw_ok s [] Hs) as [Hd He]. rewrite app_nil_r in Hd. unfold decompressScript.
    rewrite Hd, He. rewrite (proj2 (Nat.eqb_neq _ 0)) by (rewrite length_app; lia).
    unfold cstPayToPubKeyHash, cstPayToScriptHash.
    rewrite !(proj2 (Z.eqb_neq (zlen s + 6) _)) by lia. cbn [orb].
    replace (int64 (uint64 (zlen s + 6 - numSpecialScripts))) with (zlen s).
    + rewrite (sub_ok _ _ _ s []); [done|by rewrite drop_app_length, app_nil_r|done|rewrite length_app; lia].
    + unfold numSpecialScripts, uint64, wrap_u, script_fits in *. replace (zlen s + 6 - 6) with (zlen s) by lia.
      rewrite Z.mod_small by lia. symmetry. apply wrap_s_id; lia.
  - intros rest. destruct (raw_ok s rest Hs) as [Hd He]. unfold decodeCompressedScriptSize. rewrite Hd.
    rewrite (proj2 (Nat.eqb_neq _ 0)) by lia. rewrite !(proj2 (Z.eqb_neq (zlen s + 6) _)) by lia.
    rewrite (proj2 (Z.ltb_ge _ 6)) by lia. cbn [orb]. rewrite He, length_app, Nat2Z.inj_add.
    assert (zlen (putVLQ (zlen s + 6)) ≤ 10) as H10.
    { rewrite vlq_size. unfold serializeSizeVLQ, vlq_fuel.
      assert (∀ k n, size_loop k n ≤ Z.of_nat k) as Hb.
      { induction k as [|k IH]; intros n; cbn [size_loop]; [lia|]. specialize (IH (Z.shiftr n 7 - 1)).
        destruct (_ <? _); lia. }
      apply (Hb 10%nat). }
    unfold numSpecialScripts, uint64, wrap_u, script_fits in *. rewrite Z.mod_small by lia.
    rewrite wrap_s_id; lia.
Qed.

Lemma tagged_size c l rest :
  0 ≤ c < 6 → decodeCompressedScriptSize (c :: l ++ rest) = if c <? 2 then 21 else 33.
Proof.
  intros Hc. unfold decodeCompressedScriptSize. rewrite vlq_one by lia. cbn [Nat.eqb].
  assert (c = 0 ∨ c = 1 ∨ c = 2 ∨ c = 3 ∨ c = 4 ∨ c = 5) as Hcs by lia.
  by destruct Hcs as [->|[->|[->|[->|[->| ->]]]]].
Qed.

Lemma compressed_key_decompress x y k :
  length x = 32%nat → length y = 32%nat → btcec_ParsePubKey (4 :: x ++ y) = Some k →
  let c := Z.lor 4 (Z.land (last_byte y) 1) in
  0 ≤ c < 6 ∧ 2 ≤ c ∧ decompressScript (c :: x) = Ok (Some ([OP_DATA_65] ++ (4 :: x ++ y) ++ [OP_CHECKSIG])).
Proof.
  intros Hx Hy Hk. destruct (decompress_key x y k Hx Hy Hk) as (k' & Hp & Hs).
  assert (Z.land (last_byte y) 1 = 0 ∨ Z.land (last_byte y) 1 = 1) as Hpar.
  { pose proof (Z.land_ones (last_byte y) 1 ltac:(lia)) as Ho. change (Z.ones 1) with 1 in Ho.
    change (2 ^ 1) with 2 in Ho. pose proof (Z.mod_pos_bound (last_byte y) 2 ltac:(lia)). lia. }
  assert (take 32 (x ++ replicate 32 0) = x) as Hxx.
  { rewrite take_app_le by lia. by rewrite take_ge by lia. }
  cbv zeta.
  destruct Hpar as [Hpar|Hpar]; rewrite Hpar in Hp |- *; (split; [done|split; [done|]]);
    unfold decompressScript; cbn [length Nat.eqb]; change (Z.lor 4 0) with 4; change (Z.lor 4 1) with 5;
    rewrite vlq_one by lia; cbn [Z.eqb Pos.eqb orb cstPayToPubKeyHash cstPayToScriptHash];
    rewrite skipn_cons, drop_0, Hxx; [change (4 - 2) with (2 + 0)|change (5 - 2) with (2 + 1)];
    by rewrite Hp, Hs.
Qed.

Lemma script_roundtrip s :
  script_fits s →
  decompressScript (putCompressedScript s) = Ok (Some s) ∧
  zlen (putCompressedScript s) = compressedScriptSize s ∧
  (∀ rest, decodeCompressedScriptSize (putCompressedScript s ++ rest) = zlen (putCompressedScript s)).
Proof.
  intros Hs. unfold putCompressedScript, compressedScriptSize.
  destruct (isPubKeyHash s) as [h|] eqn:E1.
  { apply isPubKeyHash_ok in E1 as [Hl ->]. split_and!; [|by cbn [length]; rewrite Hl|].
    - unfold decompressScript. cbn [length Nat.eqb]. rewrite vlq_one by done. cbn [Z.eqb cstPayToPubKeyHash].
      rewrite (sub_ok _ _ _ h []); [done|by rewrite app_nil_r|lia|simpl; lia].
    - intros rest. change ((cstPayToPubKeyHash :: h) ++ rest) with (0 :: h ++ rest). rewrite tagged_size by lia.
      cbn [length]. rewrite Hl. done. }
  destruct (isScriptHash s) as [h|] eqn:E2.
  { apply isScriptHash_ok in E2 as [Hl ->]. split_and!; [|by cbn [length]; rewrite Hl|].
    - unfold decompressScript. cbn [length Nat.eqb]. rewrite vlq_one by done.
      cbn [Z.eqb cstPayToPubKeyHash cstPayToScriptHash].
      rewrite (sub_ok _ _ _ h []); [done|by rewrite app_nil_r|lia|simpl; lia].
    - intros rest. change ((cstPayToScriptHash :: h) ++ rest) with (1 :: h ++ rest). rewrite tagged_size by lia.
      cbn [length]. rewrite Hl. done. }
  destruct (isPubKey s) as [key|] eqn:E3.
  2: { destruct (raw_decompress s Hs) as [H1 H2]. split_and!; [done| |done]. unfold put_raw.
       rewrite length_app, Nat2Z.inj_add, vlq_size. done. }
  apply isPubKey_ok in E3 as [(f & x & Hf & Hx & -> & ->)|(x & y & k & Hx & Hy & -> & Hk & ->)].
  - assert (slice (f :: x) 1 33 = x) as ->.
    { unfold slice. change (33 - 1)%nat with 32%nat. rewrite skipn_cons, drop_0. by rewrite take_ge by lia. }
    assert (nth_byte (f :: x) 0 = f) as -> by done.
    assert ((f =? 2) || (f =? 3) = true) as -> by (destruct Hf as [->| ->]; done).
    assert (2 ≤ f < 6) as Hr by lia. split_and!; [|by cbn [length]; rewrite Hx|].
    + unfold decompressScript. cbn [length Nat.eqb]. rewrite vlq_one by lia.
      unfold cstPayToPubKeyHash, cstPayToScriptHash. rewrite !(proj2 (Z.eqb_neq f _)) by lia.
      assert ((f =? 2) || (f =? 3) = true) as -> by (destruct Hf as [->| ->]; done).
      rewrite (sub_ok _ _ _ x []); [done|by rewrite app_nil_r|lia|simpl; lia].
    + intros rest. change ((f :: x) ++ rest) with (f :: x ++ rest). rewrite tagged_size by lia.
      rewrite (proj2 (Z.ltb_ge f 2)) by lia. cbn [length]. rewrite Hx. done.
  - assert (slice (4 :: x ++ y) 1 33 = x) as ->.
    { unfold slice. change (33 - 1)%nat with 32%nat. rewrite skipn_cons, drop_0, take_app_le by lia.
      by rewrite take_ge by lia. }
    assert (nth_byte (4 :: x ++ y) 0 = 4) as -> by done. cbn [Z.eqb Pos.eqb orb].
    assert (nth_byte (4 :: x ++ y) 64 = last_byte y) as ->.
    { unfold nth_byte, last_byte. change ((4 :: x ++ y) !! 64%nat) with ((x ++ y) !! 63%nat).
      rewrite lookup_app_r, Hx by lia. change (63 - 32)%nat with 31%nat.
      rewrite (as_nths 32 y Hy). done. }
    destruct (compressed_key_decompress x y k Hx Hy Hk) as (Hc & H2 & Hd).
    split_and!; [exact Hd|by cbn [length]; rewrite Hx|]. intros rest.
    rewrite <- app_comm_cons, tagged_size by lia.
    rewrite (proj2 (Z.ltb_ge _ 2)) by lia. cbn [length]. rewrite Hx. done.
Qed.

Lemma putCompressedScript_length s : script_fits s → (0 < length (putCompressedScript s))%nat.
Proof.
  intros Hs. destruct (script_roundtrip s Hs) as [Hd _]. destruct (putCompressedScript s); [done|]. simpl. lia.
Qed.

Lemma txout_roundtrip a s rest :
  0 ≤ a < 2 ^ 60 → script_fits s →
  decodeCompressedTxOut (putCompressedTxOut a s ++ rest) = COk (a, Some s, length (putCompressedTxOut a s)) ∧
  zlen (putCompressedTxOut a s) = compressedTxOutSize a s.
Proof.
  intros Ha Hs. destruct (amount_roundtrip a Ha) as [Hr Hd]. destruct (script_roundtrip s Hs) as (Hs1 & Hs2 & Hs3).
  pose proof (putCompressedScript_length s Hs) as Hl. unfold putCompressedTxOut. split.
  - unfold decodeCompressedTxOut. rewrite <- app_assoc, vlq_roundtrip by done.
    rewrite (proj2 (Nat.leb_gt _ _)) by (rewrite !length_app; lia).
    rewrite drop_app_length, Hs3. rewrite (proj2 (Z.ltb_ge _ _)) by (rewrite length_app; lia).
    rewrite (sub_ok _ _ _ (putCompressedScript s) rest); [|by rewrite drop_app_length|done|rewrite length_app; lia].
    rewrite Hs1, Hd, Nat2Z.id, length_app. done.
  - rewrite length_app, Nat2Z.inj_add, vlq_size, Hs2. done.
Qed.
End Keys.
