(* ===== verification/ChainUtxo.v ===== *)
(** * Block chain: the set of unspent outputs and what blocks do to it

    btcd/blockchain/utxoviewpoint.go and the parts of chainio.go that store
    unspent and spent outputs.  A view is a map from outpoints to entries; the
    keys whose entry is nil are kept apart.  The database is a parameter
    where entries are looked up in it. *)

From Stdlib Require Import ZArith Lia.
From stdpp Require Import base numbers list strings gmap.
From S2P Require Import Prelude ScriptNum WireBase WireTx ScriptToken Sighash WireMsg ChainCompress.

Open Scope Z_scope.

#[export] Instance OutPoint_countable : Countable OutPoint.
Proof.
  refine (inj_countable' (λ op, (op_Hash op, op_Index op)) (λ p, mkOutPoint (fst p) (snd p)) _).
  by intros [].
Defined.

#[export] Instance ChainRes_ret : MRet ChainRes := @COk.
#[export] Instance ChainRes_bind : MBind ChainRes := λ A B f m,
  match m with COk a => f a | CErr e => CErr e | CCrash => CCrash end.

(** ** Entries *)

Definition tfCoinBase : Z := 1.
Definition tfSpent : Z := 2.
Definition tfModified : Z := 4.
Definition tfFresh : Z := 8.

Record UtxoEntry := mkUtxoEntry {
  amount : Z;                                     (* int64 *)
  pkScript : list byte;
  blockHeight : Z;                                (* int32 *)
  packedFlags : Z                                 (* uint8 *)
}.
#[export] Instance UtxoEntry_eq_dec : EqDecision UtxoEntry.
Proof. solve_decision. Defined.

Definition has_flag (e : UtxoEntry) (f : Z) : bool := Z.land (packedFlags e) f =? f.
Definition isModified (e : UtxoEntry) : bool := has_flag e tfModified.
Definition isFresh (e : UtxoEntry) : bool := has_flag e tfFresh.
Definition entry_IsCoinBase (e : UtxoEntry) : bool := has_flag e tfCoinBase.
Definition IsSpent (e : UtxoEntry) : bool := has_flag e tfSpent.
Definition set_flags (f : Z) (e : UtxoEntry) : UtxoEntry :=
  mkUtxoEntry (amount e) (pkScript e) (blockHeight e) f.
Definition Spend (e : UtxoEntry) : UtxoEntry :=
  if IsSpent e then e else set_flags (Z.lor (packedFlags e) (Z.lor tfSpent tfModified)) e.
Definition NewUtxoEntry (txOut : TxOut) (height : Z) (isCoinbase : bool) : UtxoEntry :=
  mkUtxoEntry (Value txOut) (PkScript txOut) height (if isCoinbase then tfCoinBase else 0).

(** ** Views *)

Record UtxoViewpoint := mkView {
  entries : gmap OutPoint UtxoEntry;
  nilEntries : gset OutPoint;                     (* keys with a nil entry *)
  bestHash : Hash
}.
Definition NewUtxoViewpoint : UtxoViewpoint := mkView ∅ ∅ (replicate HashSize 0).
Definition SetBestHash (h : Hash) (v : UtxoViewpoint) : UtxoViewpoint :=
  mkView (entries v) (nilEntries v) h.
(** The test of the second result of a lookup. *)
Definition has_key (v : UtxoViewpoint) (op : OutPoint) : bool :=
  bool_decide (is_Some (entries v !! op)) || bool_decide (op ∈ nilEntries v).
Definition LookupEntry (v : UtxoViewpoint) (op : OutPoint) : option UtxoEntry := entries v !! op.
Definition set_entry (op : OutPoint) (e : UtxoEntry) (v : UtxoViewpoint) : UtxoViewpoint :=
  mkView (<[op := e]> (entries v)) (nilEntries v ∖ {[op]}) (bestHash v).
Definition set_nil (op : OutPoint) (v : UtxoViewpoint) : UtxoViewpoint :=
  mkView (delete op (entries v)) ({[op]} ∪ nilEntries v) (bestHash v).
Definition RemoveEntry (op : OutPoint) (v : UtxoViewpoint) : UtxoViewpoint :=
  mkView (delete op (entries v)) (nilEntries v ∖ {[op]}) (bestHash v).
Definition FetchPrevOutput (v : UtxoViewpoint) (op : OutPoint) : option TxOut :=
  (λ e, mkTxOut (amount e) (pkScript e)) <$> entries v !! op.

Definition addTxOut (op : OutPoint) (txOut : TxOut) (isCoinBase : bool) (height : Z)
    (v : UtxoViewpoint) : UtxoViewpoint :=
  if IsUnspendable (PkScript txOut) then v
  else set_entry op (mkUtxoEntry (Value txOut) (PkScript txOut) height
         (Z.lor (Z.lor tfFresh tfModified) (if isCoinBase then tfCoinBase else 0))) v.

(** [commit]: a map over the entries; the modified flag is toggled. *)
Definition commit_entry (e : UtxoEntry) : option UtxoEntry :=
  if isModified e && IsSpent e then None else Some (set_flags (Z.lxor (packedFlags e) tfModified) e).
Definition commit (v : UtxoViewpoint) : UtxoViewpoint := mkView (omap commit_entry (entries v)) ∅ (bestHash v).

Definition IsCoinBaseTx (tx : MsgTx) : bool :=
  match TxIns tx with
  | [ti] => (op_Index (PreviousOutPoint ti) =? 0xffffffff) &&
            bool_decide (op_Hash (PreviousOutPoint ti) = replicate HashSize 0)
  | _ => false
  end.

(** ** Connecting *)

Record SpentTxOut := mkSpentTxOut {
  st_Amount : Z; st_PkScript : list byte; st_Height : Z; st_IsCoinBase : bool
}.
#[export] Instance SpentTxOut_eq_dec : EqDecision SpentTxOut.
Proof. solve_decision. Defined.

(** A block of the chain: the message with its height. *)
Record Block := mkBlock { b_msg : MsgBlock; b_height : Z }.

Section Views.
Context `{Sha}.

Definition block_txs (b : Block) : list MsgTx := Transactions (b_msg b).

Definition outpoints (tx : MsgTx) : list (OutPoint * TxOut) :=
  imap (λ i to, (mkOutPoint (TxHash tx) (uint32 (Z.of_nat i)), to)) (TxOuts tx).
Definition AddTxOut (tx : MsgTx) (txOutIdx height : Z) (v : UtxoViewpoint) : UtxoViewpoint :=
  if uint32 (zlen (TxOuts tx)) <=? txOutIdx then v
  else match TxOuts tx !! Z.to_nat txOutIdx with
       | Some txOut => addTxOut (mkOutPoint (TxHash tx) txOutIdx) txOut (IsCoinBaseTx tx) height v
       | None => v                                (* not reached *)
       end.
Definition AddTxOuts (tx : MsgTx) (height : Z) (v : UtxoViewpoint) : UtxoViewpoint :=
  fold_left (λ v p, addTxOut (fst p) (snd p) (IsCoinBaseTx tx) height v) (outpoints tx) v.

Definition stxo_of (e : UtxoEntry) : SpentTxOut :=
  mkSpentTxOut (amount e) (pkScript e) (blockHeight e) (entry_IsCoinBase e).

(** The loop over the inputs; [stxos] is nil when nothing is recorded. *)
Fixpoint spend_inputs (ins : list TxIn) (v : UtxoViewpoint) (stxos : option (list SpentTxOut))
  : ChainRes (UtxoViewpoint * option (list SpentTxOut)) :=
  match ins with
  | [] => COk (v, stxos)
  | ti :: rest =>
      match entries v !! PreviousOutPoint ti with
      | None => CErr "view missing input"
      | Some e =>
          spend_inputs rest (set_entry (PreviousOutPoint ti) (Spend e) v)
            ((λ l, l ++ [stxo_of e]) <$> stxos)
      end
  end.
Definition connectTransaction (tx : MsgTx) (height : Z) (v : UtxoViewpoint)
    (stxos : option (list SpentTxOut)) : ChainRes (UtxoViewpoint * option (list SpentTxOut)) :=
  if IsCoinBaseTx tx then COk (AddTxOuts tx height v, stxos)
  else
    '(v, stxos) ← spend_inputs (TxIns tx) v stxos;
    COk (AddTxOuts tx height v, stxos).

Fixpoint connect_loop (txs : list MsgTx) (height : Z) (v : UtxoViewpoint)
    (stxos : option (list SpentTxOut)) : ChainRes (UtxoViewpoint * option (list SpentTxOut)) :=
  match txs with
  | [] => COk (v, stxos)
  | tx :: rest => '(v, stxos) ← connectTransaction tx height v stxos; connect_loop rest height v stxos
  end.
Definition connectTransactions (b : Block) (v : UtxoViewpoint) (stxos : option (list SpentTxOut))
  : ChainRes (UtxoViewpoint * option (list SpentTxOut)) :=
  '(v, stxos) ← connect_loop (block_txs b) (b_height b) v stxos;
  COk (SetBestHash (BlockHash (Header (b_msg b))) v, stxos).

(** ** Disconnecting *)

Definition countSpentOutputs (b : Block) : nat := list_sum (map (λ tx, length (TxIns tx)) (tail (block_txs b))).

Definition MaxOutputsPerBlock : Z := 4000000 / (4 * MinTxOutPayload).
Fixpoint find_output (n : nat) (idx : Z) (h : Hash) (v : UtxoViewpoint) : option UtxoEntry :=
  match n with
  | O => None
  | S k => match entries v !! mkOutPoint h idx with
           | Some e => Some e
           | None => find_output k (idx + 1) h v
           end
  end.
(** [db] is [dbFetchUtxoEntryByHash], the search with the database cursor. *)
Definition fetchEntryByHash (db : Hash → ChainRes (option UtxoEntry)) (h : Hash) (v : UtxoViewpoint)
  : ChainRes (option UtxoEntry) :=
  match find_output (Z.to_nat MaxOutputsPerBlock) 0 h v with
  | Some e => COk (Some e)
  | None => db h
  end.

(** An output of a disconnected transaction is spent, and made first when
    the view has it not. *)
Definition spend_output (height flags : Z) (p : OutPoint * TxOut) (v : UtxoViewpoint) : UtxoViewpoint :=
  let '(op, txOut) := p in
  if IsUnspendable (PkScript txOut) then v
  else
    let e := default (mkUtxoEntry (Value txOut) (PkScript txOut) height flags) (entries v !! op) in
    set_entry op (Spend e) v.

(** The inputs from the last one on; a height of zero is a legacy record. *)
Definition restore_input (db : Hash → ChainRes (option UtxoEntry)) (txHash : Hash) (ti : TxIn)
    (stxo : SpentTxOut) (v : UtxoViewpoint) : ChainRes UtxoViewpoint :=
  let op := PreviousOutPoint ti in
  let v := match entries v !! op with
           | None => set_entry op (mkUtxoEntry 0 [] 0 0) v
           | Some _ => v
           end in
  info ← (if st_Height stxo =? 0 then
            utxo ← fetchEntryByHash db txHash v;
            match utxo with
            | None => CErr "unable to resurrect legacy stxo"
            | Some u => COk (blockHeight u, entry_IsCoinBase u)
            end
          else COk (st_Height stxo, st_IsCoinBase stxo));
  let '(height, isCoinBase) := info in
  COk (set_entry op (mkUtxoEntry (st_Amount stxo) (st_PkScript stxo) height
         (Z.lor tfModified (if (isCoinBase : bool) then tfCoinBase else 0))) v).
(** The inputs and the records, both reversed; too few records would be an
    index out of range. *)
Fixpoint restore_inputs (db : Hash → ChainRes (option UtxoEntry)) (txHash : Hash) (rins : list TxIn)
    (rstxos : list SpentTxOut) (v : UtxoViewpoint) : ChainRes (UtxoViewpoint * list SpentTxOut) :=
  match rins, rstxos with
  | [], _ => COk (v, rstxos)
  | _ :: _, [] => CCrash
  | ti :: rins', stxo :: rstxos' =>
      v ← restore_input db txHash ti stxo v; restore_inputs db txHash rins' rstxos' v
  end.

(** The transactions from the last one on; the first one of the block comes
    last and is the coinbase. *)
Fixpoint disconnect_loop (db : Hash → ChainRes (option UtxoEntry)) (height : Z) (rtxs : list MsgTx)
    (rstxos : list SpentTxOut) (v : UtxoViewpoint) : ChainRes UtxoViewpoint :=
  match rtxs with
  | [] => COk v
  | tx :: rest =>
      let isCoinBase := match rest with [] => true | _ => false end in
      let v := fold_left (λ v p, spend_output height (if isCoinBase then tfCoinBase else 0) p v)
                 (outpoints tx) v in
      if isCoinBase then disconnect_loop db height rest rstxos v
      else
        '(v, rstxos) ← restore_inputs db (TxHash tx) (rev (TxIns tx)) rstxos v;
        disconnect_loop db height rest rstxos v
  end.
(** A block without transactions is sliced out of range. *)
Definition disconnectTransactions (db : Hash → ChainRes (option UtxoEntry)) (b : Block)
    (stxos : list SpentTxOut) (v : UtxoViewpoint) : ChainRes UtxoViewpoint :=
  match block_txs b with
  | [] => CCrash
  | _ =>
      if negb (length stxos =? countSpentOutputs b)%nat
      then CErr "disconnectTransactions called with bad spent transaction out information"
      else
        v ← disconnect_loop db (b_height b) (rev (block_txs b)) (rev stxos) v;
        COk (SetBestHash (PrevBlock (Header (b_msg b))) v)
  end.
End Views.
