(* ===== verification/ChainStore.v ===== *)
(** * Block chain: how outputs, journals and the best state are stored

    The serialized records of btcd/blockchain/chainio.go. *)

From Stdlib Require Import ZArith Lia.
From stdpp Require Import base numbers list strings gmap.
From S2P Require Import Prelude ScriptNum WireBase WireTx ScriptToken Sighash WireMsg ChainCompress ChainUtxo.

Open Scope Z_scope.

(** A bucket of the database is a map from keys to values. *)
Abbreviation bucket := (gmap (list byte) (list byte)).

Section Store.
Context `{Keys}.

(** ** Spent outputs *)

(** [uint64(height) << 1], and the flag. *)
Definition header_code (height : Z) (isCoinBase : bool) : Z :=
  Z.lor (uint64 (Z.shiftl (uint64 height) 1)) (if isCoinBase then 1 else 0).
Definition spentTxOutHeaderCode (s : SpentTxOut) : Z := header_code (st_Height s) (st_IsCoinBase s).

Definition spentTxOutSerializeSize (s : SpentTxOut) : Z :=
  serializeSizeVLQ (spentTxOutHeaderCode s) +
  (if 0 <? st_Height s then serializeSizeVLQ 0 else 0) +
  compressedTxOutSize (uint64 (st_Amount s)) (st_PkScript s).
Definition putSpentTxOut (s : SpentTxOut) : list byte :=
  putVLQ (spentTxOutHeaderCode s) ++ (if 0 <? st_Height s then putVLQ 0 else []) ++
  putCompressedTxOut (uint64 (st_Amount s)) (st_PkScript s).

(** The record and how many bytes it took; a nil script is empty. *)
Definition decodeSpentTxOut (serialized : list byte) : ChainRes (SpentTxOut * nat) :=
  if (length serialized =? 0)%nat then CErr "no serialized bytes" else
  let '(code, offset) := deserializeVLQ serialized in
  if (length serialized <=? offset)%nat then CErr "unexpected end of data after header code" else
  let isCoinBase := negb (Z.land code 1 =? 0) in
  let height := int32 (Z.shiftr code 1) in
  let read_out offset :=
    match decodeCompressedTxOut (drop offset serialized) with
    | COk (amount, script, n) =>
        COk (mkSpentTxOut (int64 amount) (default [] script) height isCoinBase, (offset + n)%nat)
    | CErr _ => CErr "unable to decode txout"
    | CCrash => CCrash
    end in
  if 0 <? height then
    let '(_, bytesRead) := deserializeVLQ (drop offset serialized) in
    if (length serialized <=? offset + bytesRead)%nat then CErr "unexpected end of data after reserved"
    else read_out (offset + bytesRead)%nat
  else read_out offset.

(** The records from the last one on. *)
Definition serializeSpendJournalEntry (stxos : list SpentTxOut) : list byte :=
  concat (map putSpentTxOut (rev stxos)).
Fixpoint decode_stxos (n : nat) (serialized : list byte) (acc : list SpentTxOut)
  : ChainRes (list SpentTxOut) :=
  match n with
  | O => COk acc
  | S k =>
      match decodeSpentTxOut serialized with
      | COk (s, m) => decode_stxos k (drop m serialized) (s :: acc)
      | CErr _ => CErr "unable to decode stxo"
      | CCrash => CCrash
      end
  end.
Definition deserializeSpendJournalEntry (serialized : list byte) (txns : list MsgTx)
  : ChainRes (list SpentTxOut) :=
  let numStxos := list_sum (map (λ tx, length (TxIns tx)) txns) in
  if (length serialized =? 0)%nat then
    if negb (numStxos =? 0)%nat then CErr "mismatched spend journal serialization" else COk []
  else decode_stxos numStxos serialized [].

(** ** Unspent outputs *)

Definition outpointKey (op : OutPoint) : list byte := op_Hash op ++ putVLQ (op_Index op).

Definition utxoEntryHeaderCode (e : UtxoEntry) : ChainRes Z :=
  if IsSpent e then CErr "attempt to serialize spent utxo header"
  else COk (header_code (blockHeight e) (entry_IsCoinBase e)).
(** Nothing for a spent entry. *)
Definition serializeUtxoEntry (e : UtxoEntry) : ChainRes (list byte) :=
  if IsSpent e then COk [] else
  headerCode ← utxoEntryHeaderCode e;
  COk (putVLQ headerCode ++ putCompressedTxOut (uint64 (amount e)) (pkScript e)).
Definition deserializeUtxoEntry (serialized : list byte) : ChainRes UtxoEntry :=
  let '(code, offset) := deserializeVLQ serialized in
  if (length serialized <=? offset)%nat then CErr "unexpected end of data after header" else
  let isCoinBase := negb (Z.land code 1 =? 0) in
  let height := int32 (Z.shiftr code 1) in
  match decodeCompressedTxOut (drop offset serialized) with
  | COk (a, script, _) =>
      COk (mkUtxoEntry (int64 a) (default [] script) height (if isCoinBase then tfCoinBase else 0))
  | CErr _ => CErr "unable to decode utxo"
  | CCrash => CCrash
  end.

Definition dbFetchUtxoEntry (utxoBucket : bucket) (op : OutPoint) : ChainRes (option UtxoEntry) :=
  match utxoBucket !! outpointKey op with
  | None => COk None
  | Some serialized =>
      if (length serialized =? 0)%nat then CErr "database contains entry for spent tx output"
      else e ← deserializeUtxoEntry serialized; COk (Some e)
  end.
Definition dbDeleteUtxoEntry (op : OutPoint) (utxoBucket : bucket) : bucket :=
  delete (outpointKey op) utxoBucket.
Definition dbPutUtxoEntry (op : OutPoint) (e : UtxoEntry) (utxoBucket : bucket) : ChainRes bucket :=
  if IsSpent e then CErr "trying to store nil or spent entry"
  else serialized ← serializeUtxoEntry e; COk (<[outpointKey op := serialized]> utxoBucket).

(** The entries of a view in the order in which the map yields them. *)
Fixpoint put_view_loop (l : list (OutPoint * UtxoEntry)) (utxoBucket : bucket) : ChainRes bucket :=
  match l with
  | [] => COk utxoBucket
  | (op, e) :: rest =>
      if negb (isModified e) then put_view_loop rest utxoBucket
      else if IsSpent e then put_view_loop rest (dbDeleteUtxoEntry op utxoBucket)
      else utxoBucket ← dbPutUtxoEntry op e utxoBucket; put_view_loop rest utxoBucket
  end.
Definition dbPutUtxoView (v : UtxoViewpoint) (utxoBucket : bucket) : ChainRes bucket :=
  put_view_loop (map_to_list (entries v)) utxoBucket.
End Store.

(** ** The block index *)

Record index_buckets := mkIndex { hashIndex : bucket; heightIndex : bucket }.
Definition dbPutBlockIndex (h : Hash) (height : Z) (ix : index_buckets) : index_buckets :=
  let serializedHeight := PutUint32 (uint32 height) in
  mkIndex (<[h := serializedHeight]> (hashIndex ix)) (<[serializedHeight := h]> (heightIndex ix)).
Definition dbRemoveBlockIndex (h : Hash) (height : Z) (ix : index_buckets) : index_buckets :=
  let serializedHeight := PutUint32 (uint32 height) in
  mkIndex (delete h (hashIndex ix)) (delete serializedHeight (heightIndex ix)).
Definition dbFetchHeightByHash (ix : index_buckets) (h : Hash) : ChainRes Z :=
  match hashIndex ix !! h with
  | None => CErr "block is not in the main chain"
  | Some serializedHeight => COk (int32 (le_val serializedHeight))
  end.
Definition dbFetchHashByHeight (ix : index_buckets) (height : Z) : ChainRes Hash :=
  match heightIndex ix !! PutUint32 (uint32 height) with
  | None => CErr "no block at height exists"
  | Some hashBytes => COk hashBytes
  end.

(** ** The best chain state *)

(** [big.Int.Bytes]: big endian without leading zeros. *)
Fixpoint big_bytes_fuel (fuel : nat) (n : Z) (acc : list byte) : list byte :=
  match fuel with
  | O => acc
  | S k => if n <=? 0 then acc else big_bytes_fuel k (n / 256) (n mod 256 :: acc)
  end.
Definition big_Bytes (n : Z) : list byte := big_bytes_fuel (Z.to_nat (Z.log2 n + 1)) n [].
Definition big_SetBytes (b : list byte) : Z := fold_left (λ a x, a * 256 + x) b 0.

Record bestChainState := mkBestChainState {
  bs_hash : Hash; bs_height : Z; (* uint32 *) totalTxns : Z; (* uint64 *) workSum : Z
}.
Definition serializeBestChainState (s : bestChainState) : list byte :=
  let workSumBytes := big_Bytes (workSum s) in
  Write (bs_hash s) ++ PutUint32 (bs_height s) ++ PutUint64 (totalTxns s) ++
  PutUint32 (uint32 (zlen workSumBytes)) ++ workSumBytes.
Definition deserializeBestChainState (b : list byte) : ChainRes bestChainState :=
  if (length b <? HashSize + 16)%nat then CErr "corrupt best chain state" else
  let field i n := le_val (take n (drop i b)) in
  let workSumBytesLen := field 44%nat 4%nat in
  if uint32 (zlen (drop 48 b)) <? workSumBytesLen then CErr "corrupt best chain state"
  else COk (mkBestChainState (take HashSize b) (field 32%nat 4%nat) (field 36%nat 8%nat)
              (big_SetBytes (take (Z.to_nat workSumBytesLen) (drop 48 b)))).
