(* ===== verification/ChainStoreFacts.v ===== *)
(** * Block chain: views implement a ledger, and disconnecting undoes *)

From Stdlib Require Import ZArith Lia.
From stdpp Require Import base numbers list strings gmap.
From S2P Require Import Prelude ScriptNum ScriptNumFacts WireBase WireTx ScriptToken Sighash WireMsg ChainCompress ChainCompressFacts ChainUtxo ChainStore.

Open Scope Z_scope.

(** ** Flags *)

Lemma Spend_spent e : IsSpent (Spend e) = true.
Proof.
  unfold Spend. destruct (IsSpent e) eqn:E; [done|]. unfold IsSpent, has_flag, set_flags. cbn [packedFlags].
  apply Z.eqb_eq. unfold tfSpent, tfModified. rewrite Z.land_lor_distr_l. change (Z.land (Z.lor 2 4) 2) with 2.
  apply Z.bits_inj'. intros i _. rewrite Z.lor_spec, Z.land_spec. destruct (Z.testbit 2 i); [by rewrite orb_true_r|].
  by rewrite andb_false_r.
Qed.

(** ** The abstract ledger: the unspent outputs *)

Definition ledger : Type := OutPoint → option SpentTxOut.
Definition same (L L' : ledger) : Prop := ∀ op, L op = L' op.

Section Ledger.
Context `{Sha}.

Definition unspent (v : UtxoViewpoint) : ledger := λ op,
  match entries v !! op with
  | Some e => if IsSpent e then None else Some (stxo_of e)
  | None => None
  end.

(** What a transaction creates: its outputs that can be spent. *)
Definition spendable (tx : MsgTx) : list (OutPoint * TxOut) :=
  List.filter (λ p, negb (IsUnspendable (PkScript (snd p)))) (outpoints tx).
Definition created (height : Z) (tx : MsgTx) : ledger := λ op,
  match List.find (λ p, bool_decide (fst p = op)) (rev (spendable tx)) with
  | Some p => Some (mkSpentTxOut (Value (snd p)) (PkScript (snd p)) height (IsCoinBaseTx tx))
  | None => None
  end.
Definition inputs (tx : MsgTx) : list OutPoint :=
  if IsCoinBaseTx tx then [] else map PreviousOutPoint (TxIns tx).
Definition ledger_tx (height : Z) (tx : MsgTx) (L : ledger) : ledger := λ op,
  match created height tx op with
  | Some s => Some s
  | None => if decide (op ∈ inputs tx) then None else L op
  end.
Definition ledger_block (b : Block) (L : ledger) : ledger :=
  fold_left (λ L tx, ledger_tx (b_height b) tx L) (block_txs b) L.

Lemma unspent_set v op e op' :
  unspent (set_entry op e v) op' =
  if decide (op = op') then (if IsSpent e then None else Some (stxo_of e)) else unspent v op'.
Proof.
  unfold unspent, set_entry. cbn [entries]. destruct (decide (op = op')) as [->|Hne].
  - by rewrite lookup_insert_eq.
  - by rewrite lookup_insert_ne.
Qed.

Lemma new_entry to height cb :
  let e := mkUtxoEntry (Value to) (PkScript to) height
             (Z.lor (Z.lor tfFresh tfModified) (if cb : bool then tfCoinBase else 0)) in
  IsSpent e = false ∧ stxo_of e = mkSpentTxOut (Value to) (PkScript to) height cb.
Proof. by destruct cb. Qed.

Lemma unspent_AddTxOuts tx height v op :
  unspent (AddTxOuts tx height v) op =
  match created height tx op with Some s => Some s | None => unspent v op end.
Proof.
  unfold AddTxOuts, created, spendable. induction (outpoints tx) as [|p l IH] using rev_ind; [done|].
  rewrite fold_left_app, List.filter_app, rev_app_distr. cbn [fold_left List.filter].
  destruct (IsUnspendable (PkScript (snd p))) eqn:Eu; cbn [negb rev app List.find].
  - unfold addTxOut at 1. by rewrite Eu.
  - unfold addTxOut at 1. rewrite Eu, unspent_set. destruct (new_entry (snd p) height (IsCoinBaseTx tx)) as [-> ->].
    case_bool_decide; case_decide; done.
Qed.

(** What an entry holds, spent or not. *)
Definition content (v : UtxoViewpoint) (op : OutPoint) : option SpentTxOut := stxo_of <$> entries v !! op.

Lemma unspent_content v op s : unspent v op = Some s → content v op = Some s.
Proof. unfold unspent, content. destruct (entries v !! op) as [e|]; [|done]. by destruct (IsSpent e); [|intros [= <-]]. Qed.

Lemma stxo_Spend e : stxo_of (Spend e) = stxo_of e.
Proof.
  unfold Spend. destruct (IsSpent e); [done|]. unfold stxo_of, entry_IsCoinBase, has_flag, set_flags.
  cbn [amount pkScript blockHeight packedFlags]. rewrite Z.land_lor_distr_l.
  change (Z.land (Z.lor tfSpent tfModified) tfCoinBase) with 0. by rewrite Z.lor_0_r.
Qed.
Lemma content_Spend v op e op' :
  entries v !! op = Some e → content (set_entry op (Spend e) v) op' = content v op'.
Proof.
  intros He. unfold content, set_entry. cbn [entries]. destruct (decide (op = op')) as [->|Hne].
  - rewrite lookup_insert_eq, He. cbn. by rewrite stxo_Spend.
  - by rewrite lookup_insert_ne.
Qed.

(** ** Connecting *)

Lemma spend_inputs_ok ins v l v' s' :
  spend_inputs ins v l = COk (v', s') →
  (∀ op, unspent v' op = if decide (op ∈ map PreviousOutPoint ins) then None else unspent v op) ∧
  ∃ recs, Forall2 (λ ti s, content v (PreviousOutPoint ti) = Some s) ins recs ∧
    s' = (λ l, l ++ recs) <$> l.
Proof.
  revert v l. induction ins as [|ti ins IH]; intros v l; cbn [spend_inputs].
  { intros [= <- <-]. split; [intros op; by rewrite decide_False by apply not_elem_of_nil|].
    exists []. split; [constructor|]. destruct l; [|done]. cbn. by rewrite app_nil_r. }
  destruct (entries v !! PreviousOutPoint ti) as [e|] eqn:Ee; [|done]. intros Hs.
  destruct (IH _ _ Hs) as [Hu (recs & Hf & Hr)]. split.
  - intros op. rewrite Hu, unspent_set, Spend_spent. cbn [map].
    destruct (decide (op ∈ map PreviousOutPoint ins)) as [Hin|Hin].
    + by rewrite decide_True by by right.
    + destruct (decide (PreviousOutPoint ti = op)) as [->|Hne]; [by rewrite decide_True by left|].
      rewrite decide_False; [done|]. rewrite elem_of_cons. naive_solver.
  - exists (stxo_of e :: recs). split.
    + constructor; [unfold content; by rewrite Ee|]. eapply Forall2_impl; [exact Hf|].
      intros ti' s. cbv beta. by rewrite (content_Spend v _ e).
    + rewrite Hr. destruct l; cbn; [|done]. by rewrite <- app_assoc.
Qed.

Lemma spend_inputs_total ins v l :
  (∀ ti, ti ∈ ins → content v (PreviousOutPoint ti) ≠ None) → ∃ r, spend_inputs ins v l = COk r.
Proof.
  revert v l. induction ins as [|ti ins IH]; intros v l Hin; cbn [spend_inputs]; [eauto|].
  destruct (entries v !! PreviousOutPoint ti) as [e|] eqn:Ee.
  - apply IH. intros ti' Hti'. rewrite (content_Spend v _ e) by done. apply Hin. by right.
  - exfalso. apply (Hin ti); [by left|]. unfold content. by rewrite Ee.
Qed.

(** The records a transaction adds to the journal. *)
Definition records (tx : MsgTx) (v : UtxoViewpoint) (recs : list SpentTxOut) : Prop :=
  Forall2 (λ op s, content v op = Some s) (inputs tx) recs.

Lemma connectTransaction_ok tx height v l v' s' :
  connectTransaction tx height v l = COk (v', s') →
  same (unspent v') (ledger_tx height tx (unspent v)) ∧
  ∃ recs, records tx v recs ∧ s' = (λ l, l ++ recs) <$> l.
Proof.
  unfold connectTransaction, records, ledger_tx, inputs. destruct (IsCoinBaseTx tx).
  { intros [= <- <-]. split.
    - intros op. rewrite unspent_AddTxOuts. by rewrite decide_False by apply not_elem_of_nil.
    - exists []. split; [constructor|]. destruct l; [|done]. cbn. by rewrite app_nil_r. }
  unfold mbind, ChainRes_bind. destruct (spend_inputs (TxIns tx) v l) as [[v1 s1]| |] eqn:E; [|done..].
  intros [= <- <-]. apply spend_inputs_ok in E as [Hu (recs & Hf & Hr)]. split.
  - intros op. rewrite unspent_AddTxOuts, Hu. done.
  - exists recs. split; [|done]. by apply Forall2_fmap_l.
Qed.

#[export] Instance same_equivalence : Equivalence same.
Proof. split; [by intros L op|by intros L L' HL op|intros L1 L2 L3 H1 H2 op; by rewrite H1]. Qed.
#[export] Instance ledger_tx_proper height tx : Proper (same ==> same) (ledger_tx height tx).
Proof.
  intros L L' HL op. unfold ledger_tx. destruct (created height tx op); [done|]. by destruct (decide _).
Qed.
Definition ledger_txs (height : Z) (txs : list MsgTx) (L : ledger) : ledger :=
  fold_left (λ L tx, ledger_tx height tx L) txs L.
#[export] Instance ledger_txs_proper height txs : Proper (same ==> same) (ledger_txs height txs).
Proof.
  unfold ledger_txs. induction txs as [|tx txs IH]; intros L L' HL; [done|]. cbn. apply IH. by rewrite HL.
Qed.

Lemma connect_loop_ok txs height v l v' s' :
  connect_loop txs height v l = COk (v', s') → same (unspent v') (ledger_txs height txs (unspent v)).
Proof.
  revert v l. induction txs as [|tx txs IH]; intros v l; cbn [connect_loop]; [by intros [= <- <-]|].
  unfold mbind, ChainRes_bind. destruct (connectTransaction tx height v l) as [[v1 s1]| |] eqn:E; [|done..].
  intros Hl%IH. rewrite Hl. apply connectTransaction_ok in E as [E _].
  change (ledger_txs height (tx :: txs) (unspent v)) with (ledger_txs height txs (ledger_tx height tx (unspent v))).
  by rewrite E.
Qed.

(** ** Disconnecting *)

Lemma unspent_spend_outputs tx height flags v op :
  unspent (fold_left (λ v p, spend_output height flags p v) (outpoints tx) v) op =
  if decide (op ∈ map fst (spendable tx)) then None else unspent v op.
Proof.
  unfold spendable. induction (outpoints tx) as [|p l IH] using rev_ind.
  { cbn. by rewrite decide_False by apply not_elem_of_nil. }
  rewrite fold_left_app, List.filter_app, map_app. cbn [fold_left List.filter]. unfold spend_output at 1.
  destruct p as [op' to]. cbn [snd]. destruct (IsUnspendable (PkScript to)); cbn [negb map].
  - by rewrite app_nil_r.
  - rewrite unspent_set, Spend_spent, IH. cbn [fst].
    destruct (decide (op' = op)) as [->|Hne]; [by rewrite decide_True by set_solver|].
    destruct (decide (op ∈ map fst _)); [by rewrite decide_True by set_solver|].
    rewrite decide_False; [done|set_solver].
Qed.
Lemma created_spendable height tx op : created height tx op = None ↔ op ∉ map fst (spendable tx).
Proof.
  unfold created. destruct (List.find _ _) as [p|] eqn:E.
  - split; [done|]. intros Hn. exfalso. apply Hn. apply List.find_some in E as [Hin Hb].
    apply bool_decide_eq_true in Hb as <-. apply list_elem_of_fmap_2, list_elem_of_In. by apply in_rev.
  - split; [|done]. intros _ Hin. apply list_elem_of_fmap in Hin as (p & -> & Hp).
    assert (bool_decide (fst p = fst p) = false) as Hb.
    { apply (List.find_none _ _ E p). apply -> in_rev. by apply list_elem_of_In. }
    by rewrite bool_decide_true in Hb.
Qed.

Context (db : Hash → ChainRes (option UtxoEntry)).

Lemma restore_input_ok txHash ti s v :
  st_Height s ≠ 0 →
  ∃ v', restore_input db txHash ti s v = COk v' ∧
    ∀ op, unspent v' op = if decide (PreviousOutPoint ti = op) then Some s else unspent v op.
Proof.
  intros Hh. unfold restore_input. rewrite (proj2 (Z.eqb_neq _ 0)) by done.
  unfold mbind, ChainRes_bind. eexists. split; [done|]. intros op.
  assert (∀ v1, unspent (set_entry (PreviousOutPoint ti) (mkUtxoEntry (st_Amount s) (st_PkScript s) (st_Height s)
    (Z.lor tfModified (if st_IsCoinBase s then tfCoinBase else 0))) v1) op =
    if decide (PreviousOutPoint ti = op) then Some s else unspent v1 op) as Hset.
  { intros v1. rewrite unspent_set. destruct (decide _); [|done]. destruct s as [a k h c]. by destruct c. }
  rewrite Hset. destruct (decide (PreviousOutPoint ti = op)) as [Heq|Hne]; [done|].
  destruct (entries v !! PreviousOutPoint ti); [done|]. rewrite unspent_set. by rewrite decide_False.
Qed.

Lemma restore_inputs_ok txHash rins rrecs rs v :
  Forall2 (λ _ s, st_Height s ≠ 0) rins rrecs →
  ∃ v', restore_inputs db txHash rins (rrecs ++ rs) v = COk (v', rs) ∧
    ∀ op, (op ∈ map PreviousOutPoint rins → ∃ ti s, (ti, s) ∈ zip rins rrecs ∧ PreviousOutPoint ti = op ∧ unspent v' op = Some s) ∧
          (op ∉ map PreviousOutPoint rins → unspent v' op = unspent v op).
Proof.
  intros Hf. revert v. induction Hf as [|ti s rins rrecs Hs Hf IH]; intros v.
  { exists v. split; [by destruct rs|]. intros op. split; [by intros ?%not_elem_of_nil|done]. }
  cbn [restore_inputs app]. unfold mbind, ChainRes_bind.
  destruct (restore_input_ok txHash ti s v Hs) as (v1 & -> & Hv1).
  destruct (IH v1) as (v' & -> & Hv'). exists v'. split; [done|]. intros op. cbn [map zip zip_with].
  destruct (Hv' op) as [Hin Hnin]. destruct (decide (op ∈ map PreviousOutPoint rins)) as [Hd|Hd].
  - split; [|set_solver]. intros _. destruct (Hin Hd) as (t & r & Ht & Hop & Hu). exists t, r. set_solver.
  - specialize (Hnin Hd). rewrite Hv1 in Hnin. destruct (decide (PreviousOutPoint ti = op)) as [<-|Hne].
    + split; [|set_solver]. intros _. exists ti, s. split_and!; [left|done|done].
    + split; [|done]. by intros [->|?]%elem_of_cons.
Qed.

(** A transaction that spends unspent outputs with known heights, and
    creates outputs that were not there. *)
Definition spends_ok (tx : MsgTx) (L : ledger) : Prop :=
  (∀ op, op ∈ inputs tx → ∃ s, L op = Some s ∧ st_Height s ≠ 0) ∧
  (∀ op, op ∈ map fst (spendable tx) → L op = None).

Lemma spends_ok_proper tx L L' : same L L' → spends_ok tx L → spends_ok tx L'.
Proof. intros HL [H1 H2]. split; intros op Hop; rewrite <- HL; auto. Qed.

(** Disconnecting a transaction gives back the ledger before it. *)
Lemma disconnect_tx tx height flags v recs rs L w :
  IsCoinBaseTx tx = false → spends_ok tx (unspent v) → records tx v recs → same L (unspent v) →
  same (unspent w) (ledger_tx height tx L) →
  ∃ w', restore_inputs db (TxHash tx) (rev (TxIns tx)) (rev recs ++ rs)
          (fold_left (λ v p, spend_output height flags p v) (outpoints tx) w) = COk (w', rs) ∧
    same (unspent w') L.
Proof.
  intros Hcb [Hin Hout] Hrecs HL Hw. unfold records, inputs in Hrecs. unfold inputs in Hin.
  rewrite Hcb in Hrecs, Hin. apply Forall2_fmap_l in Hrecs.
  assert (Forall2 (λ ti s, L (PreviousOutPoint ti) = Some s ∧ st_Height s ≠ 0) (TxIns tx) recs) as Hf.
  { apply Forall2_same_length_lookup. split; [by eapply Forall2_length|]. intros i ti s Hti Hs. rewrite HL.
    eapply Forall2_lookup_lr in Hrecs as Hc; [|exact Hti|exact Hs]. cbn in Hc.
    destruct (Hin (PreviousOutPoint ti)) as (s' & Hs' & Hh); [by eapply list_elem_of_fmap_2, list_elem_of_lookup_2|].
    apply unspent_content in Hs' as Hc'. rewrite Hc in Hc'. injection Hc' as ->. done. }
  apply Forall2_reverse in Hf as Hrev. unfold reverse in Hrev; rewrite <- !rev_alt in Hrev.
  destruct (restore_inputs_ok (TxHash tx) (rev (TxIns tx)) (rev recs) rs
    (fold_left (λ v p, spend_output height flags p v) (outpoints tx) w)) as (w' & Hr & Hw').
  { eapply Forall2_impl; [exact Hrev|]. by intros ti s [_ Hh]. }
  exists w'. split; [done|]. intros op. destruct (Hw' op) as [H1 H2].
  destruct (decide (op ∈ map PreviousOutPoint (rev (TxIns tx)))) as [Hd|Hd].
  - destruct (H1 Hd) as (ti & s & Hz & <- & ->). apply list_elem_of_lookup in Hz as [i Hz].
    apply lookup_zip_with_Some in Hz as (ti' & s' & [= -> ->] & Hti & Hs).
    symmetry. by eapply Forall2_lookup_lr in Hrev as [? _]; [|exact Hti|exact Hs].
  - rewrite (H2 Hd), unspent_spend_outputs, Hw. unfold ledger_tx.
    destruct (decide (op ∈ map fst (spendable tx))) as [Ho|Ho]; [rewrite HL; symmetry; by apply Hout|].
    rewrite (proj2 (created_spendable height tx op) Ho). rewrite decide_False; [done|].
    unfold inputs. rewrite Hcb. intros Hop. apply Hd. rewrite map_rev. apply list_elem_of_In, in_rev. rewrite rev_involutive. by apply list_elem_of_In.
Qed.

(** ** Blocks *)

Fixpoint block_spends (height : Z) (txs : list MsgTx) (L : ledger) : Prop :=
  match txs with
  | [] => True
  | tx :: rest =>
      IsCoinBaseTx tx = false ∧ spends_ok tx L ∧ block_spends height rest (ledger_tx height tx L)
  end.

Lemma block_spends_proper height txs L L' :
  same L L' → block_spends height txs L → block_spends height txs L'.
Proof.
  revert L L'. induction txs as [|tx txs IH]; intros L L' HL; [done|]. cbn. intros (H1 & H2 & H3).
  split_and!; [done|by eapply spends_ok_proper|]. eapply IH; [|exact H3]. by rewrite HL.
Qed.

Lemma connectTransaction_total tx height v l :
  (∀ op, op ∈ inputs tx → ∃ s, unspent v op = Some s ∧ st_Height s ≠ 0) →
  ∃ v' s', connectTransaction tx height v l = COk (v', s').
Proof.
  intros Hin. unfold connectTransaction, inputs in *. destruct (IsCoinBaseTx tx); [eauto|].
  destruct (spend_inputs_total (TxIns tx) v l) as [[v' s'] ->].
  - intros ti Hti. destruct (Hin (PreviousOutPoint ti)) as (s & Hs & _); [by apply list_elem_of_fmap_2|].
    apply unspent_content in Hs. by rewrite Hs.
  - unfold mbind, ChainRes_bind. eauto.
Qed.

Lemma records_length tx v recs : IsCoinBaseTx tx = false → records tx v recs → length recs = length (TxIns tx).
Proof. intros Hcb Hr. apply Forall2_length in Hr. unfold inputs in Hr. rewrite Hcb, length_map in Hr. done. Qed.

(** Connecting a run of transactions, and disconnecting it from its end. *)
Lemma connect_disconnect txs height v l :
  block_spends height txs (unspent v) →
  ∃ v' recs, connect_loop txs height v (Some l) = COk (v', Some (l ++ recs)) ∧
    length recs = list_sum (map (λ tx, length (TxIns tx)) txs) ∧
    ∀ rt rs w, rt ≠ [] → same (unspent w) (unspent v') →
    ∃ w', disconnect_loop db height (rev txs ++ rt) (rev recs ++ rs) w = disconnect_loop db height rt rs w' ∧
      same (unspent w') (unspent v).
Proof.
  revert v l. induction txs as [|tx txs IH]; intros v l Hv.
  { exists v, []. cbn. rewrite app_nil_r. split_and!; [done|done|]. intros rt rs w _ Hw. by exists w. }
  destruct Hv as (Hcb & Hok & Hrest).
  destruct (connectTransaction_total tx height v (Some l)) as (v1 & s1 & Hc); [apply Hok|].
  destruct (connectTransaction_ok _ _ _ _ _ _ Hc) as [Hu (recs & Hrecs & Hs1)]. cbn in Hs1.
  destruct (IH v1 (l ++ recs)) as (v' & recs' & Hloop & Hlen & Hdis).
  { eapply block_spends_proper; [|exact Hrest]. by symmetry. }
  exists v', (recs ++ recs'). split_and!.
  - cbn [connect_loop]. rewrite Hc. unfold mbind, ChainRes_bind. rewrite Hs1, Hloop. by rewrite app_assoc.
  - rewrite length_app, (records_length tx v recs), Hlen by done. done.
  - intros rt rs w Hrt Hw. cbn [rev]. rewrite rev_app_distr, <- !app_assoc.
    destruct (Hdis ([tx] ++ rt) (rev recs ++ rs) w) as (w1 & -> & Hw1); [done|done|].
    cbn [app disconnect_loop]. destruct rt as [|t rt]; [done|].
    destruct (disconnect_tx tx height 0 v recs rs (unspent v) w1) as (w2 & Hr & Hw2); [done..| |].
    { by rewrite Hw1. }
    unfold mbind, ChainRes_bind. rewrite Hr. by exists w2.
Qed.

(** A valid block for a ledger: a coinbase, then transactions that spend
    unspent outputs, all of whose outputs are new. *)
Definition block_fits (b : Block) (L : ledger) : Prop :=
  ∃ cb txs, block_txs b = cb :: txs ∧ IsCoinBaseTx cb = true ∧ spends_ok cb L ∧
    block_spends (b_height b) txs (ledger_tx (b_height b) cb L).

(** Connecting a block that fits the unspent outputs of a view succeeds, and
    turns them into what the block makes of them: the inputs are gone, the
    outputs that can be spent are there.  The journal it records is enough
    to disconnect the block again, whatever the database holds, and the
    unspent outputs are then exactly those before. *)
Theorem connect_block_refines_and_undoes b v :
  block_fits b (unspent v) →
  ∃ v' stxos, connectTransactions b v (Some []) = COk (v', Some stxos) ∧
    same (unspent v') (ledger_block b (unspent v)) ∧
    bestHash v' = BlockHash (Header (b_msg b)) ∧
    ∃ v'', disconnectTransactions db b stxos v' = COk v'' ∧
      same (unspent v'') (unspent v) ∧ bestHash v'' = PrevBlock (Header (b_msg b)).
Proof.
  intros (cb & txs & Hb & Hcb & Hok & Hsp). unfold connectTransactions.
  destruct (connectTransaction_total cb (b_height b) v (Some [])) as (v1 & s1 & Hc); [apply Hok|].
  destruct (connectTransaction_ok _ _ _ _ _ _ Hc) as [Hu (recs0 & Hrecs0 & Hs1)].
  unfold records, inputs in Hrecs0. rewrite Hcb in Hrecs0. apply Forall2_nil_inv_l in Hrecs0 as ->. cbn in Hs1.
  destruct (connect_disconnect txs (b_height b) v1 []) as (v' & recs & Hloop & Hlen & Hdis).
  { eapply block_spends_proper; [|exact Hsp]. by symmetry. }
  assert (connect_loop (block_txs b) (b_height b) v (Some []) = COk (v', Some recs)) as Hl.
  { rewrite Hb. cbn [connect_loop]. rewrite Hc. unfold mbind, ChainRes_bind. by rewrite Hs1, Hloop. }
  rewrite Hl. unfold mbind at 1, ChainRes_bind. eexists _, recs. split; [done|]. split.
  { apply connect_loop_ok in Hl. exact Hl. }
  split; [done|]. unfold disconnectTransactions, countSpentOutputs. rewrite Hb. cbn [tail].
  rewrite Hlen, Nat.eqb_refl. cbn [negb rev].
  destruct (Hdis [cb] [] (SetBestHash (BlockHash (Header (b_msg b))) v')) as (w & Hd & Hw); [done|done|].
  rewrite app_nil_r in Hd. rewrite Hd. cbn [disconnect_loop]. unfold mbind, ChainRes_bind.
  eexists. split; [done|]. split; [|done]. intros op.
  transitivity (unspent (fold_left (λ v p, spend_output (b_height b) tfCoinBase p v) (outpoints cb) w) op); [done|].
  rewrite unspent_spend_outputs, Hw, Hu. unfold ledger_tx, inputs. rewrite Hcb.
  destruct (decide (op ∈ map fst (spendable cb))) as [Ho|Ho]; [symmetry; by apply Hok|].
  rewrite (proj2 (created_spendable _ cb op) Ho). by rewrite decide_False by apply not_elem_of_nil.
Qed.
End Ledger.

(** [commit] is documented to mark all entries as unmodified; it toggles the
    mark, so an entry that was only looked at comes out as modified. *)
Theorem commit_toggles_modified v op e :
  entries v !! op = Some e → isModified e = false →
  ∃ e', entries (commit v) !! op = Some e' ∧ isModified e' = true.
Proof.
  intros He Hm. unfold commit. cbn [entries]. rewrite lookup_omap, He. cbn. unfold commit_entry. rewrite Hm. cbn [andb].
  eexists. split; [done|]. unfold isModified, has_flag, set_flags in *. cbn [packedFlags].
  apply Z.eqb_eq. apply Z.eqb_neq in Hm. unfold tfModified in *.
  assert (Z.testbit (packedFlags e) 2 = false) as Hb.
  { apply not_true_is_false. intros Ht. apply Hm. apply Z.bits_inj'. intros i Hi. rewrite Z.land_spec.
    destruct (Z.eq_dec i 2) as [->|Hne]; [by rewrite Ht|].
    change 4 with (2 ^ 2). rewrite Z.pow2_bits_false by lia. apply andb_false_r. }
  apply Z.bits_inj'. intros i Hi. rewrite Z.land_spec, Z.lxor_spec.
  destruct (Z.eq_dec i 2) as [->|Hne]; [by rewrite Hb|].
  change 4 with (2 ^ 2). rewrite Z.pow2_bits_false by lia. apply andb_false_r.
Qed.

(** ** Block chain: what is stored is what is read *)

(** ** Header codes *)

Definition height_ok (h : Z) : Prop := 0 ≤ h < 2 ^ 31.
Definition amount_ok (a : Z) : Prop := 0 ≤ a < 2 ^ 60.

Lemma header_code_eq h cb : height_ok h → header_code h cb = 2 * h + (if cb then 1 else 0).
Proof.
  intros Hh. unfold header_code, height_ok, uint64, wrap_u in *. rewrite (Z.mod_small h) by lia.
  rewrite Z.shiftl_mul_pow2 by lia. change (2 ^ 1) with 2. rewrite Z.mod_small by lia.
  destruct cb; [|rewrite Z.lor_0_r; lia]. rewrite Z.lor_comm, <- Z.shiftl_mul_pow2 with (n := 1) by lia.
  rewrite lor_shiftl_add by (simpl; lia). simpl. lia.
Qed.
Lemma header_code_decode h cb :
  height_ok h → let code := header_code h cb in
  0 ≤ code < 2 ^ 64 ∧ negb (Z.land code 1 =? 0) = cb ∧ int32 (Z.shiftr code 1) = h.
Proof.
  intros Hh. rewrite header_code_eq by done. unfold height_ok in Hh. cbv zeta.
  pose proof (Z.land_ones (2 * h + (if cb then 1 else 0)) 1 ltac:(lia)) as Ho. change (Z.ones 1) with 1 in Ho.
  change (2 ^ 1) with 2 in Ho. rewrite Ho, Z.shiftr_div_pow2 by lia. change (2 ^ 1) with 2.
  rewrite (Z.mul_comm 2 h), Z.add_comm, Z.mod_add, Z.div_add by lia. destruct cb; (split; [lia|]).
  - split; [done|]. apply wrap_s_id; simpl; lia.
  - split; [done|]. apply wrap_s_id; simpl; lia.
Qed.

Section Store.
Context `{Keys}.

(** ** Spent outputs *)

Definition stxo_fits (s : SpentTxOut) : Prop :=
  amount_ok (st_Amount s) ∧ script_fits (st_PkScript s) ∧ height_ok (st_Height s).

Lemma amount_words a : amount_ok a → uint64 a = a ∧ int64 a = a.
Proof.
  unfold amount_ok. intros Ha. split; [apply Z.mod_small; lia|apply wrap_s_id; lia].
Qed.

Lemma putCompressedTxOut_length a s : script_fits s → (0 < length (putCompressedTxOut a s))%nat.
Proof.
  intros Hs. unfold putCompressedTxOut. rewrite length_app. pose proof (putCompressedScript_length s Hs). lia.
Qed.

Lemma stxo_roundtrip s rest :
  stxo_fits s →
  decodeSpentTxOut (putSpentTxOut s ++ rest) = COk (s, length (putSpentTxOut s)) ∧
  zlen (putSpentTxOut s) = spentTxOutSerializeSize s.
Proof.
  intros (Ha & Hs & Hh). destruct (header_code_decode (st_Height s) (st_IsCoinBase s) Hh) as (Hc & Hcb & Hht).
  destruct (amount_words _ Ha) as [Hu Hi]. unfold putSpentTxOut. rewrite Hu.
  destruct (txout_roundtrip (st_Amount s) (st_PkScript s) rest Ha Hs) as [Hd Hsz].
  pose proof (putCompressedTxOut_length (st_Amount s) (st_PkScript s) Hs) as Hl.
  pose proof (putVLQ_length (spentTxOutHeaderCode s)) as Hv. split.
  - unfold decodeSpentTxOut. rewrite (proj2 (Nat.eqb_neq _ 0)) by (rewrite !length_app; lia).
    rewrite <- !app_assoc. rewrite vlq_roundtrip by done. rewrite (proj2 (Nat.leb_gt _ _)) by (rewrite !length_app; lia).
    unfold spentTxOutHeaderCode in *. rewrite Hcb, Hht. cbv zeta. destruct (0 <? st_Height s).
    + rewrite drop_app_length. rewrite vlq_roundtrip by lia.
      rewrite (proj2 (Nat.leb_gt _ _)) by (rewrite !length_app; lia).
      rewrite <- drop_drop, !drop_app_length, Hd, Hi. cbn [default]. rewrite !length_app.
      f_equal. f_equal; [by destruct s|lia].
    + cbn [app]. rewrite drop_app_length, Hd, Hi. cbn [default]. rewrite length_app.
      f_equal. f_equal; by destruct s.
  - unfold spentTxOutSerializeSize. rewrite Hu, !length_app, !Nat2Z.inj_add, vlq_size, Hsz.
    destruct (0 <? st_Height s); [rewrite vlq_size|]; simpl; lia.
Qed.

Lemma decode_stxos_ok l acc rest :
  Forall stxo_fits l →
  decode_stxos (length l) (concat (map putSpentTxOut l) ++ rest) acc = COk (rev l ++ acc).
Proof.
  intros Hl. revert acc. induction Hl as [|s l Hs Hl IH]; intros acc; [done|].
  cbn [length decode_stxos map concat]. rewrite <- app_assoc.
  rewrite (proj1 (stxo_roundtrip s (concat (map putSpentTxOut l) ++ rest) Hs)).
  rewrite drop_app_length, IH. cbn [rev]. by rewrite <- app_assoc.
Qed.

Lemma journal_roundtrip stxos txns :
  Forall stxo_fits stxos → length stxos = list_sum (map (λ tx, length (TxIns tx)) txns) →
  deserializeSpendJournalEntry (serializeSpendJournalEntry stxos) txns = COk stxos.
Proof.
  intros Hs Hn. unfold deserializeSpendJournalEntry, serializeSpendJournalEntry.
  destruct (decide (stxos = [])) as [->|Hne]; [cbn in *; by rewrite <- Hn|].
  rewrite (proj2 (Nat.eqb_neq _ 0)).
  - rewrite <- Hn, <- length_rev, <- (app_nil_r (concat _)).
    rewrite decode_stxos_ok by by apply Forall_rev. by rewrite rev_involutive, app_nil_r.
  - destruct (exists_last Hne) as (l & s & ->). rewrite rev_app_distr. cbn [rev app map concat].
    rewrite length_app. unfold putSpentTxOut. rewrite length_app.
    pose proof (putVLQ_length (spentTxOutHeaderCode s)). lia.
Qed.

(** ** Unspent outputs *)

Definition utxo_fits (e : UtxoEntry) : Prop :=
  amount_ok (amount e) ∧ script_fits (pkScript e) ∧ height_ok (blockHeight e).

(** A stored entry comes back without the marks of the view. *)
Definition stored (e : UtxoEntry) : UtxoEntry :=
  set_flags (if entry_IsCoinBase e then tfCoinBase else 0) e.

Lemma utxo_roundtrip e :
  utxo_fits e → IsSpent e = false →
  ∃ b, serializeUtxoEntry e = COk b ∧ b ≠ [] ∧ deserializeUtxoEntry b = COk (stored e).
Proof.
  intros (Ha & Hs & Hh) Hsp. unfold serializeUtxoEntry, utxoEntryHeaderCode. rewrite Hsp. cbn.
  destruct (header_code_decode (blockHeight e) (entry_IsCoinBase e) Hh) as (Hc & Hcb & Hht).
  destruct (amount_words _ Ha) as [Hu Hi]. rewrite Hu. eexists. split; [done|].
  pose proof (putVLQ_length (header_code (blockHeight e) (entry_IsCoinBase e))) as Hv.
  pose proof (putCompressedTxOut_length (amount e) (pkScript e) Hs) as Hl. split.
  { intros He. apply (f_equal length) in He. rewrite length_app in He. simpl in He. lia. }
  unfold deserializeUtxoEntry. rewrite vlq_roundtrip by done.
  rewrite (proj2 (Nat.leb_gt _ _)) by (rewrite length_app; lia). rewrite drop_app_length.
  destruct (txout_roundtrip (amount e) (pkScript e) [] Ha Hs) as [Hd _]. rewrite app_nil_r in Hd.
  rewrite Hd, Hcb, Hht, Hi. done.
Qed.

Definition outpoint_fits (op : OutPoint) : Prop := length (op_Hash op) = HashSize ∧ unsigned 4 (op_Index op).

Lemma outpointKey_inj op op' :
  outpoint_fits op → outpoint_fits op' → outpointKey op = outpointKey op' → op = op'.
Proof.
  intros [Hl Hi] [Hl' Hi'] He. unfold outpointKey in He. apply app_inj_1 in He as [Hh Hv]; [|congruence].
  unfold unsigned in *. simpl in Hi, Hi'. apply (f_equal deserializeVLQ) in Hv.
  rewrite <- (app_nil_r (putVLQ (op_Index op))), <- (app_nil_r (putVLQ (op_Index op'))) in Hv.
  rewrite !vlq_roundtrip in Hv by lia. injection Hv as Hv _. destruct op, op'. simpl in *. congruence.
Qed.

(** ** The database after a view is written *)

Definition view_fits (v : UtxoViewpoint) : Prop :=
  ∀ op e, entries v !! op = Some e → outpoint_fits op ∧ utxo_fits e.

(** What writing an entry makes of what was stored. *)
Definition effect (e : UtxoEntry) (old : ChainRes (option UtxoEntry)) : ChainRes (option UtxoEntry) :=
  if negb (isModified e) then old else if IsSpent e then COk None else COk (Some (stored e)).

Lemma fetch_insert b op op' e ser :
  outpoint_fits op → outpoint_fits op' → ser ≠ [] → deserializeUtxoEntry ser = COk (stored e) →
  dbFetchUtxoEntry (<[outpointKey op := ser]> b) op' =
  if decide (op = op') then COk (Some (stored e)) else dbFetchUtxoEntry b op'.
Proof.
  intros Hop Hop' Hne Hd. unfold dbFetchUtxoEntry. destruct (decide (op = op')) as [<-|Hn].
  - rewrite lookup_insert_eq, (proj2 (Nat.eqb_neq _ 0)) by by destruct ser. by rewrite Hd.
  - rewrite lookup_insert_ne; [done|]. intros Hk. by apply outpointKey_inj in Hk.
Qed.
Lemma fetch_delete b op op' :
  outpoint_fits op → outpoint_fits op' →
  dbFetchUtxoEntry (dbDeleteUtxoEntry op b) op' =
  if decide (op = op') then COk None else dbFetchUtxoEntry b op'.
Proof.
  intros Hop Hop'. unfold dbFetchUtxoEntry, dbDeleteUtxoEntry. destruct (decide (op = op')) as [<-|Hn].
  - by rewrite lookup_delete_eq.
  - rewrite lookup_delete_ne; [done|]. intros Hk. by apply outpointKey_inj in Hk.
Qed.

Lemma put_one op e l b :
  outpoint_fits op → utxo_fits e →
  ∃ b1, put_view_loop ((op, e) :: l) b = put_view_loop l b1 ∧
    ∀ op', outpoint_fits op' → dbFetchUtxoEntry b1 op' =
      if decide (op = op') then effect e (dbFetchUtxoEntry b op) else dbFetchUtxoEntry b op'.
Proof.
  intros Hop He. cbn [put_view_loop]. unfold effect. destruct (isModified e); cbn [negb].
  2: { exists b. split; [done|]. intros op' _. by destruct (decide (op = op')) as [->|]. }
  destruct (IsSpent e) eqn:Es.
  { exists (dbDeleteUtxoEntry op b). split; [done|]. intros op' Hop'. by apply fetch_delete. }
  destruct (utxo_roundtrip e He Es) as (ser & Hs & Hne & Hd).
  exists (<[outpointKey op := ser]> b). unfold dbPutUtxoEntry. rewrite Es, Hs. split; [done|].
  intros op' Hop'. by apply fetch_insert.
Qed.

Lemma put_loop_ok l b :
  NoDup (map fst l) → (∀ op e, (op, e) ∈ l → outpoint_fits op ∧ utxo_fits e) →
  ∃ b', put_view_loop l b = COk b' ∧
    ∀ op, outpoint_fits op → dbFetchUtxoEntry b' op =
      match list_to_map (M := gmap OutPoint UtxoEntry) l !! op with
      | Some e => effect e (dbFetchUtxoEntry b op)
      | None => dbFetchUtxoEntry b op
      end.
Proof.
  revert b. induction l as [|[op e] l IH]; intros b Hnd Hok; [by exists b|].
  cbn [map fst] in Hnd. apply NoDup_cons in Hnd as [Hnin Hnd].
  destruct (Hok op e ltac:(left)) as [Hop He]. destruct (put_one op e l b Hop He) as (b1 & Hp & Hb1).
  destruct (IH b1 Hnd) as (b' & Hl & Hb'); [intros; apply Hok; by right|].
  exists b'. split; [by rewrite Hp|]. intros op' Hop'. rewrite Hb', Hb1 by done. cbn [list_to_map foldr fst snd].
  destruct (decide (op = op')) as [<-|Hne].
  - rewrite (not_elem_of_list_to_map_1 (M := gmap OutPoint) l op) by done.
    change (uncurry insert (op, e)) with (insert (M := gmap OutPoint UtxoEntry) op e). by rewrite lookup_insert_eq.
  - change (uncurry insert (op, e)) with (insert (M := gmap OutPoint UtxoEntry) op e). by rewrite lookup_insert_ne.
Qed.

Lemma put_view_ok v b :
  view_fits v → ∃ b', dbPutUtxoView v b = COk b' ∧
    ∀ op, outpoint_fits op → dbFetchUtxoEntry b' op =
      match entries v !! op with
      | Some e => effect e (dbFetchUtxoEntry b op)
      | None => dbFetchUtxoEntry b op
      end.
Proof.
  intros Hv. unfold dbPutUtxoView. destruct (put_loop_ok (map_to_list (entries v)) b) as (b' & Hp & Hb').
  - apply NoDup_fst_map_to_list.
  - intros op e Hin. apply elem_of_map_to_list in Hin. by apply Hv.
  - exists b'. split; [done|]. intros op Hop. rewrite Hb' by done. by rewrite list_to_map_to_list.
Qed.

(** Storage: the compressed records of spent outputs, journals and unspent
    outputs are read back as they were, for amounts up to 2^60, scripts of
    any form and heights of a chain; and after a view is written to the
    database, every outpoint is found there as the view has it: removed when
    the view spent it, with the contents of the view when it changed it, as
    before when it did not. *)
Theorem chain_storage_roundtrip :
  (∀ s rest, stxo_fits s →
     decodeSpentTxOut (putSpentTxOut s ++ rest) = COk (s, length (putSpentTxOut s)) ∧
     zlen (putSpentTxOut s) = spentTxOutSerializeSize s) ∧
  (∀ stxos txns, Forall stxo_fits stxos → length stxos = list_sum (map (λ tx, length (TxIns tx)) txns) →
     deserializeSpendJournalEntry (serializeSpendJournalEntry stxos) txns = COk stxos) ∧
  (∀ v b, view_fits v → ∃ b', dbPutUtxoView v b = COk b' ∧
     ∀ op, outpoint_fits op → dbFetchUtxoEntry b' op =
       match entries v !! op with
       | Some e => effect e (dbFetchUtxoEntry b op)
       | None => dbFetchUtxoEntry b op
       end).
Proof.
  split_and!.
  - intros s rest Hs. by apply stxo_roundtrip.
  - apply journal_roundtrip.
  - apply put_view_ok.
Qed.
End Store.
