(* ===== verification/ChainError.v ===== *)
(** * Block chain: rule violations

    btcd/blockchain/error.go: the codes of rule errors, the other errors that
    validation returns, and the result type of the validation functions. *)

From Stdlib Require Import ZArith.
From stdpp Require Import base list strings.
From S2P Require Import Prelude ScriptNum ChainCompress.

Inductive RuleCode :=
  | ErrDuplicateBlock | ErrBlockTooBig | ErrBlockWeightTooHigh | ErrBlockVersionTooOld
  | ErrInvalidTime | ErrTimeTooOld | ErrTimeTooNew | ErrDifficultyTooLow
  | ErrUnexpectedDifficulty | ErrHighHash | ErrBadMerkleRoot | ErrBadCheckpoint
  | ErrForkTooOld | ErrCheckpointTimeTooOld | ErrNoTransactions | ErrNoTxInputs
  | ErrNoTxOutputs | ErrTxTooBig | ErrBadTxOutValue | ErrDuplicateTxInputs
  | ErrBadTxInput | ErrMissingTxOut | ErrUnfinalizedTx | ErrDuplicateTx
  | ErrOverwriteTx | ErrImmatureSpend | ErrSpendTooHigh | ErrBadFees
  | ErrTooManySigOps | ErrFirstTxNotCoinbase | ErrMultipleCoinbases
  | ErrBadCoinbaseScriptLen | ErrBadCoinbaseValue | ErrMissingCoinbaseHeight
  | ErrBadCoinbaseHeight | ErrScriptMalformed | ErrScriptValidation
  | ErrUnexpectedWitness | ErrInvalidWitnessCommitment | ErrWitnessCommitmentMismatch
  | ErrPreviousBlockUnknown | ErrInvalidAncestorBlock | ErrPrevBlockNotBest.
#[export] Instance RuleCode_eq_dec : EqDecision RuleCode.
Proof. solve_decision. Defined.

(** The errors that validation returns: rule errors, assertion errors,
    deployment errors, and errors of the layers below. *)
Inductive ChainErr :=
  | RuleError (c : RuleCode) | AssertError (what : string)
  | DeploymentError (id : Z) | OtherError (what : string).

(** [VCrash] is a panic. *)
Inductive VRes (A : Type) := VOk (a : A) | VErr (e : ChainErr) | VCrash.
Arguments VOk {A} _.
Arguments VErr {A} _.
Arguments VCrash {A}.

#[export] Instance VRes_ret : MRet VRes := @VOk.
#[export] Instance VRes_bind : MBind VRes := λ A B f m,
  match m with VOk a => f a | VErr e => VErr e | VCrash => VCrash end.

Definition ruleError {A} (c : RuleCode) : VRes A := VErr (RuleError c).
(** A guard that returns a rule error. *)
Definition reject_if (b : bool) (c : RuleCode) : VRes unit := if b then ruleError c else VOk tt.

(** An error of the utxo layer, which is an assertion error there. *)
Definition of_chain {A} (r : ChainRes A) : VRes A :=
  match r with COk a => VOk a | CErr e => VErr (AssertError e) | CCrash => VCrash end.

Lemma VRes_bind_ok {A B} (m : VRes A) (f : A → VRes B) b :
  m ≫= f = VOk b ↔ ∃ a, m = VOk a ∧ f a = VOk b.
Proof.
  split; [destruct m; [intros; eauto|done|done]|]. by intros (a & -> & ?).
Qed.
Lemma reject_if_ok b c u : reject_if b c = VOk u ↔ b = false.
Proof. by destruct b, u. Qed.
