(* ===== verification/Merkle.v ===== *)
(** * Block chain: merkle trees and the witness commitment

    btcd/blockchain/merkle.go and rolling_merkle.go.  A tree store is an
    array in which nil is [None]; the roots of the rolling store are listed
    from the last one, which is the one the code works on. *)

From Stdlib Require Import ZArith Lia.
From stdpp Require Import base numbers list strings.
From S2P Require Import Prelude ScriptNum WireBase WireTx ScriptToken Sighash WireMsg ChainCompress ChainUtxo ChainError.

Open Scope Z_scope.

Section Merkle.
Context `{Sha}.

(** ** The array *)

(** [math.Log2] of a number of transactions has the integer part of the
    logarithm: blocks have far fewer than 2^48. *)
Definition nextPowerOfTwo (n : Z) : Z :=
  if Z.land n (n - 1) =? 0 then n else Z.shiftl 1 (Z.log2 n + 1).

Definition HashMerkleBranches (left right : Hash) : Hash := DoubleHashH (left ++ right).

(** The hash that stands for the transaction at an index. *)
Definition leaf_hash (witness : bool) (i : nat) (tx : MsgTx) : Hash :=
  match witness, i with
  | true, O => zeroHash
  | true, _ => WitnessHash tx
  | false, _ => TxHash tx
  end.

Definition store_leaf (a b : option Hash) : option Hash :=
  match a, b with
  | None, _ => None
  | Some x, None => Some (HashMerkleBranches x x)
  | Some x, Some y => Some (HashMerkleBranches x y)
  end.

(** [steps] turns of the loop that fills the inner nodes. *)
Fixpoint fill_nodes (steps i offset : nat) (merkles : list (option Hash))
    : list (option Hash) :=
  match steps with
  | O => merkles
  | S steps =>
      fill_nodes steps (i + 2) (offset + 1)
        (<[offset := store_leaf (mjoin (merkles !! i)) (mjoin (merkles !! (i + 1)%nat))]> merkles)
  end.

(** An array of negative size is a panic. *)
Definition BuildMerkleTreeStore (transactions : list MsgTx) (witness : bool)
    : Res (list (option Hash)) :=
  let nextPoT := nextPowerOfTwo (Z.of_nat (length transactions)) in
  let arraySize := nextPoT * 2 - 1 in
  if arraySize <? 0 then Crash else
  let leaves := imap (λ i tx, Some (leaf_hash witness i tx)) transactions in
  let merkles := leaves ++ replicate (Z.to_nat arraySize - length leaves) None in
  Ok (fill_nodes (Z.to_nat ((arraySize - 1) / 2)) 0 (Z.to_nat nextPoT) merkles).

(** ** The rolling store *)

Record rollingMerkleTreeStore := mkStore { roots : list Hash; numLeaves : Z }.

Definition newRollingMerkleTreeStore : rollingMerkleTreeStore := mkStore [] 0.

(** A 64-bit number has no bit at index 64, so 65 turns are enough. *)
Definition bits_fuel : nat := 65.

Fixpoint merge_roots (fuel : nat) (h : Z) (leaves : Z) (rs : list Hash) (newRoot : Hash)
    : Res (list Hash) :=
  match fuel with
  | O => Crash
  | S fuel =>
      if Z.land (Z.shiftr leaves h) 1 =? 1 then
        match rs with
        | [] => Crash
        | root :: rs => merge_roots fuel (h + 1) leaves rs (HashMerkleBranches root newRoot)
        end
      else Ok (newRoot :: rs)
  end.

Definition store_add (add : Hash) (s : rollingMerkleTreeStore) : Res rollingMerkleTreeStore :=
  match merge_roots bits_fuel 0 (numLeaves s) (roots s) add with
  | Ok rs => Ok (mkStore rs (uint64 (numLeaves s + 1)))
  | Err e => Err e
  | Crash => Crash
  end.

Fixpoint store_adds (adds : list Hash) (s : rollingMerkleTreeStore) : Res rollingMerkleTreeStore :=
  match adds with
  | [] => Ok s
  | a :: adds =>
      match store_add a s with Ok s => store_adds adds s | Err e => Err e | Crash => Crash end
  end.

(** The loop that shifts out the zeros below the lowest one bit; it would not
    end for 0, which [Crash] stands for. *)
Fixpoint shift_zeros (fuel : nat) (h currentLeaves leaves : Z) : Res Z :=
  match fuel with
  | O => Crash
  | S fuel =>
      if Z.land (Z.shiftr currentLeaves h) 1 =? 0
      then shift_zeros fuel (h + 1) currentLeaves (Z.shiftr leaves 1)
      else Ok leaves
  end.

Fixpoint join_roots (fuel : nat) (s : rollingMerkleTreeStore) : Res Hash :=
  match fuel with
  | O => Crash
  | S fuel =>
      match roots s with
      | [] => Crash
      | [r] => Ok r
      | h :: _ =>
          match shift_zeros bits_fuel 0 (numLeaves s) (numLeaves s) with
          | Ok n =>
              match store_add h (mkStore (roots s) n) with
              | Ok s => join_roots fuel s
              | Err e => Err e
              | Crash => Crash
              end
          | Err e => Err e
          | Crash => Crash
          end
      end
  end.

Definition calcMerkleRoot (adds : list MsgTx) (witness : bool) (s : rollingMerkleTreeStore)
    : Res Hash :=
  match store_adds (imap (leaf_hash witness) adds) s with
  | Ok s =>
      if numLeaves s =? 1 then
        match last (roots s) with Some r => Ok r | None => Crash end
      else
        let readd :=
          match last adds with
          | Some tx =>
              if Nat.odd (length adds)
              then store_add (if witness then WitnessHash tx else TxHash tx) s else Ok s
          | None => Ok s
          end in
        match readd with
        | Ok s => join_roots bits_fuel s
        | Err e => Err e
        | Crash => Crash
        end
  | Err e => Err e
  | Crash => Crash
  end.

Definition CalcMerkleRoot (transactions : list MsgTx) (witness : bool) : Res Hash :=
  calcMerkleRoot transactions witness newRollingMerkleTreeStore.

(** ** The witness commitment *)

Definition CoinbaseWitnessDataLen : Z := 32.
Definition CoinbaseWitnessPkScriptLength : nat := 38.
Definition WitnessMagicBytes : list byte := [OP_RETURN; OP_DATA_1 + 35; 0xaa; 0x21; 0xa9; 0xed].

Definition HasPrefix (s prefix : list byte) : bool := bool_decide (take (length prefix) s = prefix).

(** The outputs are searched from the last one. *)
Fixpoint find_commitment (routs : list TxOut) : option (list byte) :=
  match routs with
  | [] => None
  | out :: routs =>
      if (CoinbaseWitnessPkScriptLength <=? length (PkScript out))%nat
         && HasPrefix (PkScript out) WitnessMagicBytes
      then Some (drop (length WitnessMagicBytes)
                      (take CoinbaseWitnessPkScriptLength (PkScript out)))
      else find_commitment routs
  end.

Definition ExtractWitnessCommitment (tx : MsgTx) : option (list byte) :=
  if negb (IsCoinBaseTx tx) then None else find_commitment (rev (TxOuts tx)).

(** The length check on the nonce comes before the copy, which is exact. *)
Definition ValidateWitnessCommitment (txs : list MsgTx) : VRes unit :=
  match txs with
  | [] => ruleError ErrNoTransactions
  | coinbaseTx :: _ =>
      match TxIns coinbaseTx with
      | [] => ruleError ErrNoTxInputs
      | ti :: _ =>
          match ExtractWitnessCommitment coinbaseTx with
          | None => reject_if (existsb HasWitness txs) ErrUnexpectedWitness
          | Some witnessCommitment =>
              match Witness ti with
              | [witnessNonce] =>
                  if negb (zlen witnessNonce =? CoinbaseWitnessDataLen)
                  then ruleError ErrInvalidWitnessCommitment else
                  match CalcMerkleRoot txs true with
                  | Ok witnessMerkleRoot =>
                      reject_if (negb (bool_decide
                        (DoubleHashH (witnessMerkleRoot ++ witnessNonce) = witnessCommitment)))
                        ErrWitnessCommitmentMismatch
                  | _ => VCrash
                  end
              | _ => ruleError ErrInvalidWitnessCommitment
              end
          end
      end
  end.
End Merkle.
