(* ===== verification/MerkleFacts.v ===== *)
(** * Block chain: facts about merkle trees

    The rolling store and the array compute the same root, that of the
    level-by-level definition of a merkle tree; the root binds the
    transactions under it, up to the repetition of the last one, where SHA-256
    does not collide on what is hashed. *)

From Stdlib Require Import ZArith Lia.
From stdpp Require Import base numbers list strings.
From S2P Require Import Prelude ScriptNum WireBase WireTx ScriptToken Sighash SighashFacts WireMsg ChainCompress ChainUtxo ChainError Merkle.

Open Scope Z_scope.

Section Facts.
Context `{Sha}.

(** ** The definition by levels *)

Fixpoint level (l : list Hash) : list Hash :=
  match l with
  | [] => []
  | [x] => [HashMerkleBranches x x]
  | x :: y :: l => HashMerkleBranches x y :: level l
  end.

(** Every level halves the number of hashes: that number is fuel enough. *)
Fixpoint root_loop (fuel : nat) (l : list Hash) : option Hash :=
  match l, fuel with
  | [], _ => None
  | [x], _ => Some x
  | _, O => None
  | _, S fuel => root_loop fuel (level l)
  end.
Definition merkle_root (l : list Hash) : option Hash := root_loop (length l) l.

Lemma list_pair_ind {A} (P : list A → Prop) :
  P [] → (∀ x, P [x]) → (∀ x y l, P l → P (x :: y :: l)) → ∀ l, P l.
Proof.
  intros H0 H1 H2 l. enough (P l ∧ ∀ x, P (x :: l)) by tauto.
  induction l as [|y l [IH1 IH2]]; split; auto.
Qed.

Lemma level_length l : length (level l) = Nat.div2 (S (length l)).
Proof. induction l as [| |x y l IH] using list_pair_ind; [done..|]. cbn. by rewrite IH. Qed.
Lemma level_even l1 l2 : Nat.even (length l1) = true → level (l1 ++ l2) = level l1 ++ level l2.
Proof.
  induction l1 as [| |x y l1 IH] using list_pair_ind; [done|done|]. cbn. intros ?. by rewrite IH.
Qed.
Lemma level_double l x :
  Nat.even (length l) = true → level (l ++ [x; x]) = level (l ++ [x]).
Proof. intros. by rewrite !level_even. Qed.

Lemma level_le l : (length (level l) ≤ length l)%nat.
Proof. induction l as [| |x y l IH] using list_pair_ind; cbn; lia. Qed.
Lemma level_lt x y l : (length (level (x :: y :: l)) ≤ S (length l))%nat.
Proof. cbn. pose proof (level_le l). lia. Qed.

Lemma root_loop_fuel f g l : (length l ≤ f)%nat → (length l ≤ g)%nat → root_loop f l = root_loop g l.
Proof.
  revert g l. induction f as [|f IH]; intros g [|x [|y l]] Hf Hg; cbn in Hf, Hg; try lia;
    [by destruct g..|]. destruct g as [|g]; [lia|]. cbn [root_loop].
  pose proof (level_lt x y l). apply IH; lia.
Qed.
(** Going up a level does not change the root. *)
Lemma merkle_root_level l : (2 ≤ length l)%nat → merkle_root (level l) = merkle_root l.
Proof.
  destruct l as [|x [|y l]]; [cbn; lia..|]. intros _.
  transitivity (root_loop (S (length l)) (level (x :: y :: l))); [|done].
  apply root_loop_fuel; [done|apply level_lt].
Qed.
Lemma merkle_root_double l x :
  Nat.even (length l) = true → l ≠ [] → merkle_root (l ++ [x; x]) = merkle_root (l ++ [x]).
Proof.
  intros He Hl. destruct l; [done|].
  rewrite <- (merkle_root_level (_ ++ [x; x])), <- (merkle_root_level (_ ++ [x]));
    [by rewrite level_double|rewrite length_app; cbn; lia..].
Qed.

(** ** The rolling store *)

(** The roots of the store hold a list of leaves: for an odd number of
    leaves the last root is the last leaf, and the others hold the level
    above the leaves that are paired. *)
Inductive holds : list Hash → list Hash → Prop :=
  | holds_nil : holds [] []
  | holds_even rs l : Nat.even (length l) = true → l ≠ [] → holds rs (level l) → holds rs l
  | holds_odd rs l x : Nat.even (length l) = true → holds rs (level l) → holds (x :: rs) (l ++ [x]).

Lemma even_nonzero (l : list Hash) : Nat.even (length l) = true → l ≠ [] → (2 ≤ length l)%nat.
Proof. destruct l as [|? [|? ?]]; cbn; [done|done|lia]. Qed.
Lemma level_nil l : level l = [] → l = [].
Proof. by destruct l as [|? [|? ?]]. Qed.
Lemma level_nonnil l : l ≠ [] → level l ≠ [].
Proof. intros Hl He. by apply Hl, level_nil. Qed.
Lemma level_length_even l :
  Nat.even (length l) = true → Z.of_nat (length l) = 2 * Z.of_nat (length (level l)).
Proof.
  intros He. rewrite level_length. apply Nat.even_spec in He as [k ->].
  rewrite (Nat.div2_succ_double k). lia.
Qed.

Lemma holds_nil_inv l : holds [] l → l = [].
Proof. remember [] as rs eqn:Hr. induction 1; [done| |done]. naive_solver eauto using level_nil. Qed.
Lemma holds_one r l : holds [r] l → merkle_root l = Some r.
Proof.
  remember [r] as rs eqn:Hr. induction 1 as [|rs l He Hl Hh IH|rs l x He Hh IH]; [done| |].
  - rewrite <- merkle_root_level by (by apply even_nonzero). by apply IH.
  - injection Hr as -> ->. apply holds_nil_inv, level_nil in Hh as ->. done.
Qed.

Lemma bit_odd n h : 0 <= h → Z.land (Z.shiftr n h) 1 = Z.b2z (Z.odd (n / 2 ^ h)).
Proof.
  intros Hh. rewrite Z.shiftr_div_pow2 by done. change 1 with (Z.ones 1).
  rewrite Z.land_ones by done. change (2 ^ 1) with 2. by rewrite Zmod_odd; destruct (Z.odd _).
Qed.
Lemma div_pow_succ n h : 0 <= h → n / 2 ^ (h + 1) = (n / 2 ^ h) / 2.
Proof. intros. by rewrite Z.pow_add_r, Z.div_div by lia. Qed.

(** The merge of roots at a height adds a node to the level of that height. *)
Lemma merge_roots_holds fuel h n rs l x :
  holds rs l → 0 <= h → n / 2 ^ h = Z.of_nat (length l) → Z.of_nat (length l) < 2 ^ (Z.of_nat fuel - 1) →
  ∃ rs', merge_roots fuel h n rs x = Ok rs' ∧ holds rs' (l ++ [x]).
Proof.
  intros Hr. revert fuel h x.
  induction Hr as [|rs l He Hl Hh IH|rs l y He Hh IH]; intros fuel h x Hh0 Hn Hf.
  - destruct fuel as [|fuel]; [cbn in Hf; lia|]. cbn [merge_roots]. rewrite bit_odd, Hn by done.
    cbn. eexists; split; [done|]. by apply (holds_odd [] []); [|constructor].
  - destruct fuel as [|fuel]; [cbn in Hf; lia|]. cbn [merge_roots]. rewrite bit_odd, Hn by done.
    rewrite level_length_even, Z.odd_mul by done. cbn. eexists; split; [done|]. by apply holds_odd.
  - destruct fuel as [|fuel]; [cbn in Hf; lia|]. cbn [merge_roots]. rewrite bit_odd, Hn by done.
    rewrite length_app in Hn |- *. cbn [length] in Hn |- *.
    rewrite Nat2Z.inj_add, level_length_even in Hn |- * by done.
    rewrite Z.odd_add, Z.odd_mul. cbn [Z.odd Z.of_nat andb xorb Z.b2z Z.eqb Pos.eqb].
    destruct (IH fuel (h + 1) (HashMerkleBranches y x)) as (rs' & -> & Hrs'); [lia| | |].
    + rewrite div_pow_succ, Hn by done. change (Z.of_nat 1) with 1.
      by rewrite Z.mul_comm, Z.div_add_l, Z.add_0_r by lia.
    + rewrite length_app, Nat2Z.inj_add, level_length_even in Hf by done. cbn [length] in Hf.
      replace (Z.of_nat (S fuel) - 1) with (Z.of_nat fuel) in Hf by lia.
      destruct fuel as [|fuel]; [cbn in Hf; lia|].
      replace (Z.of_nat (S fuel)) with (Z.of_nat (S fuel) - 1 + 1) in Hf by lia.
      rewrite Z.pow_add_r in Hf by lia. lia.
    + exists rs'. split; [done|]. rewrite <- app_assoc. apply holds_even; [| |by rewrite level_even].
      * rewrite length_app, Nat.even_add, He. done.
      * by destruct l.
Qed.

Lemma store_add_holds rs l x :
  holds rs l → Z.of_nat (length l) < 2 ^ 63 →
  ∃ rs', store_add x (mkStore rs (Z.of_nat (length l))) = Ok (mkStore rs' (Z.of_nat (length (l ++ [x]))))
    ∧ holds rs' (l ++ [x]).
Proof.
  intros Hr Hl. unfold store_add. cbn [roots numLeaves].
  destruct (merge_roots_holds bits_fuel 0 (Z.of_nat (length l)) rs l x) as (rs' & -> & Hrs');
    [done|done|by rewrite Z.div_1_r|change (Z.of_nat bits_fuel - 1) with 64; lia|].
  exists rs'. split; [|done]. rewrite length_app, Nat2Z.inj_add. cbn [length].
  unfold uint64, wrap_u. by rewrite Z.mod_small by lia.
Qed.
Lemma store_adds_holds adds rs l :
  holds rs l → Z.of_nat (length (l ++ adds)) < 2 ^ 63 →
  ∃ rs', store_adds adds (mkStore rs (Z.of_nat (length l))) =
           Ok (mkStore rs' (Z.of_nat (length (l ++ adds)))) ∧ holds rs' (l ++ adds).
Proof.
  revert rs l. induction adds as [|a adds IH]; intros rs l Hr Hl.
  - rewrite app_nil_r. eauto.
  - cbn [store_adds]. rewrite length_app in Hl. cbn [length] in Hl.
    destruct (store_add_holds rs l a Hr) as (rs1 & -> & Hr1); [lia|].
    replace (l ++ a :: adds) with ((l ++ [a]) ++ adds) by by rewrite <- app_assoc.
    apply IH; [done|]. rewrite !length_app. cbn [length]. lia.
Qed.

(** The shift takes the leaves to the lowest level with an odd number. *)
Lemma shift_zeros_holds fuel h n m rs l :
  holds rs l → l ≠ [] → 0 <= h → n / 2 ^ h = Z.of_nat (length l) → m = Z.of_nat (length l) →
  Z.of_nat (length l) < 2 ^ (Z.of_nat fuel - 1) →
  ∃ l' x rs', shift_zeros fuel h n m = Ok (Z.of_nat (length (l' ++ [x]))) ∧ rs = x :: rs' ∧
    holds rs (l' ++ [x]) ∧ Nat.even (length l') = true ∧ merkle_root (l' ++ [x]) = merkle_root l ∧
    (length (l' ++ [x]) ≤ length l)%nat ∧ (Nat.even (length l) = true → (2 * length (l' ++ [x]) ≤ length l)%nat).
Proof.
  intros Hr. revert fuel h m. induction Hr as [|rs l He Hl Hh IH|rs l y He Hh IH];
    intros fuel h m Hl0 Hh0 Hn Hm Hf; [done| |].
  - assert (Hk := level_length_even l He).
    destruct fuel as [|fuel]; [cbn in Hf; lia|]. cbn [shift_zeros]. rewrite bit_odd, Hn by done.
    rewrite Hk, Z.odd_mul. cbn [Z.odd andb Z.b2z Z.eqb].
    destruct (IH fuel (h + 1) (Z.shiftr m 1)) as (l' & x & rs' & -> & -> & Hs & He' & Hroot & Hle & _).
    + by apply level_nonnil.
    + lia.
    + rewrite div_pow_succ, Hn, Hk by done. rewrite Z.mul_comm. by apply Z.div_mul.
    + rewrite Hm, Hk, Z.shiftr_div_pow2 by done. rewrite Z.mul_comm. by apply Z.div_mul.
    + replace (Z.of_nat (S fuel) - 1) with (Z.of_nat fuel) in Hf by lia.
      destruct fuel as [|fuel]; [destruct l; cbn in *; [done|lia]|].
      replace (Z.of_nat (S fuel)) with (Z.of_nat (S fuel) - 1 + 1) in Hf by lia.
      rewrite Z.pow_add_r in Hf by lia. lia.
    + exists l', x, rs'. rewrite Hroot. split_and!; try done; [|lia..].
      by apply merkle_root_level, even_nonzero.
  - destruct fuel as [|fuel]; [cbn in Hf; lia|]. cbn [shift_zeros]. rewrite bit_odd, Hn by done.
    exists l, y, rs. replace (Z.odd _) with true.
    2:{ rewrite length_app, Nat2Z.inj_add, (level_length_even l He), Z.odd_add, Z.odd_mul. done. }
    cbn [Z.b2z Z.eqb]. split_and!; try done; [by rewrite Hm|by apply holds_odd|].
    rewrite length_app, Nat.even_add, He. done.
Qed.

Lemma holds_of_nil rs : holds rs [] → rs = [].
Proof.
  remember [] as l eqn:Hl. destruct 1 as [|rs l _ Hn _|rs l x _ _]; [done|done|].
  by apply app_eq_nil in Hl as [_ ?].
Qed.
Lemma holds_single rs x : holds rs [x] → rs = [x].
Proof.
  remember [x] as l eqn:Hl. destruct 1 as [|rs l He _ _|rs l y _ Hh]; [done|by subst|].
  apply (app_inj_2 l []) in Hl as [-> [= ->]]; [|done]. by apply holds_of_nil in Hh as ->.
Qed.

(** Hashing the last root with itself until one root is left gives the root. *)
Lemma join_roots_holds fuel rs l :
  holds rs l → l ≠ [] → Nat.even (length l) = true ∨ length l = 1%nat →
  Z.of_nat (length l) <= 2 ^ (Z.of_nat fuel - 1) → Z.of_nat (length l) < 2 ^ 63 →
  ∃ r, join_roots fuel (mkStore rs (Z.of_nat (length l))) = Ok r ∧ merkle_root l = Some r.
Proof.
  revert rs l. induction fuel as [|fuel IH]; intros rs l Hr Hl He Hf H63.
  { destruct l; cbn in *; [done|lia]. }
  destruct rs as [|r [|r2 rs]]; [by apply holds_nil_inv in Hr| |].
  { exists r. split; [done|by apply holds_one]. }
  cbn [join_roots roots numLeaves].
  destruct (shift_zeros_holds bits_fuel 0 (Z.of_nat (length l)) (Z.of_nat (length l)) _ l Hr Hl)
    as (l' & x & rs' & -> & [= <- <-] & Hs & He' & Hroot & Hle & Hle2);
    [done|by rewrite Z.div_1_r|done|change (Z.of_nat bits_fuel - 1) with 64; lia|].
  assert (Hl' : l' ≠ []).
  { intros ->. by apply holds_single in Hs. }
  destruct (store_add_holds _ _ r Hs) as (rs1 & -> & Hr1); [lia|].
  assert (H3 : (2 ≤ length l')%nat) by by apply even_nonzero.
  rewrite length_app in Hle, Hle2. cbn [length] in Hle, Hle2.
  assert (Hev : Nat.even (length l) = true) by (destruct He as [?|He]; [done|lia]).
  specialize (Hle2 Hev).
  rewrite <- Hroot, <- merkle_root_double by done. replace ([r; r]) with ([r] ++ [r]) by done.
  rewrite app_assoc. apply IH; [done|by destruct l'| | |].
  - left. rewrite !length_app, !Nat.even_add, He'. done.
  - rewrite !length_app. cbn [length]. replace (Z.of_nat (S fuel) - 1) with (Z.of_nat fuel) in Hf by lia.
    destruct fuel as [|fuel]; [cbn in Hf; lia|].
    replace (Z.of_nat (S fuel)) with (Z.of_nat fuel + 1) in Hf |- * by lia.
    replace (Z.of_nat fuel + 1 - 1) with (Z.of_nat fuel) by lia.
    rewrite Z.pow_add_r in Hf by lia. apply Nat.even_spec in He' as [k Hk].
    destruct fuel as [|fuel]; [cbn in *; lia|].
    replace (Z.of_nat (S fuel)) with (Z.of_nat fuel + 1) in Hf |- * by lia.
    rewrite Z.pow_add_r in Hf |- * by lia. lia.
  - rewrite !length_app. cbn [length]. lia.
Qed.

(** ** The root of the transactions *)

Definition leaves (witness : bool) (txs : list MsgTx) : list Hash := imap (leaf_hash witness) txs.

Lemma length_leaves w txs : length (leaves w txs) = length txs.
Proof. apply length_imap. Qed.

Lemma leaves_snoc w txs tx :
  txs ≠ [] → leaves w (txs ++ [tx]) = leaves w txs ++ [if w then WitnessHash tx else TxHash tx].
Proof.
  intros Hn. unfold leaves. rewrite imap_app. cbn. unfold compose. do 2 f_equal.
  rewrite Nat.add_0_r. destruct txs; [done|]. by destruct w.
Qed.

Lemma CalcMerkleRoot_ok w txs :
  txs ≠ [] → Z.of_nat (length txs) < 2 ^ 62 →
  ∃ r, CalcMerkleRoot txs w = Ok r ∧ merkle_root (leaves w txs) = Some r.
Proof.
  intros Hn Hl. unfold CalcMerkleRoot, calcMerkleRoot, newRollingMerkleTreeStore.
  destruct (store_adds_holds (leaves w txs) [] []) as (rs & Ha & Hr);
    [constructor|cbn [app]; rewrite length_leaves; lia|].
  cbn [length] in Ha. change (Z.of_nat 0) with 0 in Ha. fold (leaves w txs). rewrite Ha.
  cbn [app numLeaves roots] in *. rewrite length_leaves in *.
  destruct (exists_last Hn) as (txs' & tx & ->). rewrite last_snoc.
  destruct (decide (txs' = [])) as [->|Hn'].
  { cbn in *. destruct w; apply holds_single in Hr as ->; eauto. }
  rewrite leaves_snoc in * by done.
  destruct (Z.eqb_spec (Z.of_nat (length (txs' ++ [tx]))) 1) as [He|_].
  { rewrite length_app in He. destruct txs'; cbn in He; [done|lia]. }
  set (x := if w then WitnessHash tx else TxHash tx) in *.
  assert (Hlen : length (txs' ++ [tx]) = length (leaves w txs' ++ [x]))
    by by rewrite !length_app, length_leaves.
  rewrite Hlen in *. destruct (Nat.odd _) eqn:Ho.
  - assert (Hev : Nat.even (length (leaves w txs')) = true).
    { rewrite length_app, Nat.odd_add in Ho. rewrite <- Nat.negb_odd. by destruct (Nat.odd (length _)). }
    destruct (store_add_holds _ _ x Hr) as (rs' & -> & Hr'); [lia|].
    rewrite <- merkle_root_double; [|done|by destruct txs'].
    change ([x; x]) with ([x] ++ [x]). rewrite app_assoc.
    assert (length ((leaves w txs' ++ [x]) ++ [x]) = S (length (leaves w txs' ++ [x])))
      by (rewrite (length_app _ [x]); cbn; lia).
    apply join_roots_holds; [done|by destruct (leaves w txs')| | |].
    + left. rewrite !length_app, !Nat.even_add, Hev. done.
    + change (Z.of_nat bits_fuel - 1) with 64. lia.
    + lia.
  - apply join_roots_holds; [done|by destruct (leaves w txs')| | |lia].
    + left. by rewrite <- Nat.negb_odd, Ho.
    + change (Z.of_nat bits_fuel - 1) with 64. lia.
Qed.

(** ** The array *)

Fixpoint node_level (l : list (option Hash)) : list (option Hash) :=
  match l with
  | x :: y :: l => store_leaf x y :: node_level l
  | _ => []
  end.

Lemma pow2_even k : Nat.even (2 ^ S k) = true.
Proof. by rewrite Nat.pow_succ_r', Nat.even_mul. Qed.

(** One turn of the loop: the two nodes at the index make the one at the offset. *)
Lemma fill_step n pre x y mid z rest :
  fill_nodes (S n) (length pre) (length (pre ++ x :: y :: mid)) (pre ++ x :: y :: mid ++ z :: rest) =
  fill_nodes n (length (pre ++ [x; y])) (length (pre ++ x :: y :: mid ++ [store_leaf x y]))
    (pre ++ x :: y :: mid ++ store_leaf x y :: rest).
Proof.
  cbn [fill_nodes]. rewrite lookup_app_r, Nat.sub_diag by lia.
  rewrite (lookup_app_r pre) by lia. replace (length pre + 1 - length pre)%nat with 1%nat by lia.
  cbn [lookup list_lookup mjoin option_join].
  replace (pre ++ x :: y :: mid ++ z :: rest) with ((pre ++ x :: y :: mid) ++ z :: rest)
    by by rewrite <- app_assoc.
  rewrite insert_app_r_alt, Nat.sub_diag by lia. cbn [insert list_insert].
  rewrite <- app_assoc. f_equal; rewrite !length_app; [done|]. cbn [length]. rewrite length_app.
  cbn [length]. lia.
Qed.

(** The loop writes the level above a level behind it. *)
Lemma fill_level steps lv pre mid rest :
  Nat.even (length lv) = true → (Nat.div2 (length lv) ≤ length rest)%nat →
  fill_nodes (Nat.div2 (length lv) + steps) (length pre) (length (pre ++ lv ++ mid))
    (pre ++ lv ++ mid ++ rest) =
  fill_nodes steps (length (pre ++ lv)) (length (pre ++ lv ++ mid ++ node_level lv))
    (pre ++ lv ++ mid ++ node_level lv ++ drop (Nat.div2 (length lv)) rest).
Proof.
  revert pre mid rest. induction lv as [| |x y lv IH] using list_pair_ind; intros pre mid rest He Hr.
  - cbn. by rewrite !app_nil_r.
  - done.
  - cbn [length Nat.div2 node_level] in *. destruct rest as [|z rest]; [by apply Nat.nle_succ_0 in Hr|].
    cbn [length] in Hr. rewrite Nat.add_succ_l.
    replace ((x :: y :: lv) ++ mid ++ z :: rest) with (x :: y :: (lv ++ mid) ++ z :: rest)
      by (cbn; by rewrite <- app_assoc).
    change ((x :: y :: lv) ++ mid) with (x :: y :: lv ++ mid). rewrite fill_step.
    specialize (IH (pre ++ [x; y]) (mid ++ [store_leaf x y]) rest He ltac:(lia)).
    rewrite <- !app_assoc in IH. cbn [app] in IH. rewrite <- !app_assoc. cbn [app].
    rewrite IH. done.
Qed.
Lemma node_level_length lv : length (node_level lv) = Nat.div2 (length lv).
Proof. induction lv as [| |x y lv IH] using list_pair_ind; cbn; lia. Qed.

(** All levels above one of [2 ^ k] nodes, [2 ^ k - 1] nodes. *)
Fixpoint nodes (k : nat) (lv : list (option Hash)) : list (option Hash) :=
  match k with O => [] | S k => node_level lv ++ nodes k (node_level lv) end.

Lemma div2_pow2 k : Nat.div2 (2 ^ S k) = (2 ^ k)%nat.
Proof. rewrite Nat.pow_succ_r', Nat.div2_double. done. Qed.

Lemma fill_all k lv pre rest :
  length lv = (2 ^ k)%nat → length rest = (2 ^ k - 1)%nat →
  fill_nodes (2 ^ k - 1) (length pre) (length (pre ++ lv)) (pre ++ lv ++ rest) =
  pre ++ lv ++ nodes k lv.
Proof.
  revert lv pre rest. induction k as [|k IH]; intros lv pre rest Hl Hr.
  { destruct rest; [done|cbn in Hr; lia]. }
  assert (Hp : (2 ^ S k - 1 = Nat.div2 (length lv) + (2 ^ k - 1))%nat).
  { rewrite Hl, div2_pow2. cbn. pose proof (Nat.pow_nonzero 2 k). lia. }
  assert (Hle : (Nat.div2 (length lv) ≤ length rest)%nat).
  { rewrite Hr. lia. }
  pose proof (fill_level (2 ^ k - 1) lv pre [] rest) as Hf. cbn [app] in Hf.
  rewrite app_nil_r, <- Hp in Hf. rewrite Hf; [|by rewrite Hl, pow2_even|lia].
  rewrite !app_assoc. rewrite <- (app_assoc (pre ++ lv)).
  assert (Hd : length (drop (Nat.div2 (length lv)) rest) = (2 ^ k - 1)%nat).
  { rewrite length_drop, Hl, Hr, div2_pow2. cbn. lia. }
  rewrite IH; [cbn [nodes]; by rewrite <- app_assoc|by rewrite node_level_length, Hl, div2_pow2|done].
Qed.

(** Leaves that are not there come last. *)
Definition padded (k : nat) (l : list Hash) : list (option Hash) :=
  map Some l ++ replicate (2 ^ k - length l) None.

Lemma node_level_none n : node_level (replicate n None) = replicate (Nat.div2 n) None.
Proof.
  enough (node_level (replicate n None) = replicate (Nat.div2 n) None ∧
    node_level (replicate (S n) None) = replicate (Nat.div2 (S n)) None) by tauto.
  induction n as [|n [IH1 IH2]]; [done|]. split; [done|]. cbn in *. by rewrite IH1.
Qed.
Lemma node_level_padded k l :
  (length l ≤ 2 ^ S k)%nat → node_level (padded (S k) l) = padded k (level l).
Proof.
  unfold padded. rewrite level_length. revert k.
  enough (Hg : ∀ n, Nat.even (length l + n) = true →
    node_level (map Some l ++ replicate n None) =
    map Some (level l) ++ replicate (Nat.div2 (length l + n) - Nat.div2 (S (length l))) None).
  { intros k Hk. rewrite Hg.
    - do 3 f_equal. rewrite <- (div2_pow2 k). f_equal. lia.
    - replace (_ + _)%nat with (2 ^ S k)%nat by lia. apply pow2_even. }
  induction l as [|x|x y l IH] using list_pair_ind; intros n He.
  - cbn [map app length Nat.add Nat.div2 level Nat.sub]. rewrite node_level_none. cbn [Nat.div2]. by rewrite Nat.sub_0_r.
  - destruct n as [|n]; [done|]. cbn. rewrite node_level_none. by rewrite Nat.sub_0_r.
  - cbn. rewrite IH by done. done.
Qed.

Lemma last_nodes k l r :
  merkle_root l = Some r → (length l ≤ 2 ^ k)%nat → (2 ^ k < 2 * length l)%nat →
  last (padded k l ++ nodes k (padded k l)) = Some (Some r).
Proof.
  revert l. induction k as [|k IH]; intros l Hr Hle Hlt.
  - destruct l as [|x [|y l]]; cbn in *; [done|by injection Hr as ->|lia].
  - assert (H2 : (2 ≤ length l)%nat).
    { destruct l as [|? [|? ?]]; cbn in *; [done| |lia]. pose proof (Nat.pow_nonzero 2 k). lia. }
    cbn [nodes]. rewrite node_level_padded by done.
    assert (Hd : length (level l) = (S (length l) / 2)%nat) by by rewrite level_length, Nat.div2_div.
    pose proof (Nat.div_mod_eq (S (length l)) 2). pose proof (Nat.mod_upper_bound (S (length l)) 2).
    rewrite Nat.pow_succ_r' in *.
    rewrite last_app, IH; [done|by rewrite merkle_root_level|lia|lia].
Qed.

(** ** Powers of two *)

Lemma pow2_test n : 0 < n → Z.land n (n - 1) = 0 → n = 2 ^ Z.log2 n.
Proof.
  intros Hn Hl. destruct (Z.log2_spec n Hn) as [H1 H2].
  destruct (Z.eq_dec n (2 ^ Z.log2 n)) as [|Hne]; [done|exfalso].
  assert (Hlog : Z.log2 (n - 1) = Z.log2 n) by (apply Z.log2_unique; [apply Z.log2_nonneg|lia]).
  assert (Hb : Z.testbit (Z.land n (n - 1)) (Z.log2 n) = true).
  { rewrite Z.land_spec, (Z.bit_log2 n Hn), <- Hlog, Z.bit_log2; [done|].
    pose proof (Z.pow_pos_nonneg 2 (Z.log2 n) ltac:(lia) (Z.log2_nonneg n)). lia. }
  by rewrite Hl, Z.bits_0 in Hb.
Qed.
Lemma pow2_land e : Z.land (2 ^ e) (2 ^ e - 1) = 0.
Proof.
  destruct (Z.neg_nonneg_cases e) as [Hn|Hn]; [by rewrite Z.pow_neg_r|].
  change (2 ^ e - 1) with (Z.pred (2 ^ e)).
  rewrite <- Z.ones_equiv, Z.land_ones by done. by apply Z.mod_same, Z.pow_nonzero.
Qed.
Lemma nextPowerOfTwo_spec (n : nat) :
  (0 < n)%nat → ∃ k, nextPowerOfTwo (Z.of_nat n) = Z.of_nat (2 ^ k) ∧ (n ≤ 2 ^ k < 2 * n)%nat.
Proof.
  intros Hn. unfold nextPowerOfTwo. pose proof (Z.log2_nonneg (Z.of_nat n)).
  destruct (Z.log2_spec (Z.of_nat n)) as [H1 H2]; [lia|].
  destruct (Z.eqb_spec (Z.land (Z.of_nat n) (Z.of_nat n - 1)) 0) as [He|Hne].
  - apply pow2_test in He; [|lia]. exists (Z.to_nat (Z.log2 (Z.of_nat n))).
    assert (Hp : Z.of_nat (2 ^ Z.to_nat (Z.log2 (Z.of_nat n))) = Z.of_nat n).
    { rewrite Nat2Z.inj_pow, Z2Nat.id by done. by symmetry. }
    split; [by symmetry|lia].
  - exists (Z.to_nat (Z.log2 (Z.of_nat n) + 1)).
    assert (Hp : Z.of_nat (2 ^ Z.to_nat (Z.log2 (Z.of_nat n) + 1)) = 2 * 2 ^ Z.log2 (Z.of_nat n)).
    { rewrite Nat2Z.inj_pow, Z2Nat.id by lia. rewrite Z.pow_add_r by lia. change (Z.of_nat 2) with 2. lia. }
    split; [rewrite Hp, Z.shiftl_1_l, Z.pow_add_r by lia; lia|].
    rewrite Z.pow_succ_r in H2 by done.
    destruct (Z.eq_dec (Z.of_nat n) (2 ^ Z.log2 (Z.of_nat n))) as [He|]; [|lia].
    destruct Hne. revert He. generalize (Z.log2 (Z.of_nat n)) at 1. intros e ->. apply pow2_land.
Qed.

Lemma BuildMerkleTreeStore_ok w txs r :
  txs ≠ [] → merkle_root (leaves w txs) = Some r →
  ∃ merkles, BuildMerkleTreeStore txs w = Ok merkles ∧ last merkles = Some (Some r).
Proof.
  intros Hn Hr. unfold BuildMerkleTreeStore.
  destruct (nextPowerOfTwo_spec (length txs)) as (k & -> & Hk); [destruct txs; [done|cbn; lia]|].
  destruct (Z.ltb_spec (Z.of_nat (2 ^ k) * 2 - 1) 0) as [Hlt|_]; [lia|].
  assert (Hi : imap (λ i tx, Some (leaf_hash w i tx)) txs = map Some (leaves w txs)).
  { symmetry. apply (fmap_imap (leaf_hash w) Some). }
  rewrite Hi, length_map, length_leaves.
  assert (Hs : Z.to_nat (Z.of_nat (2 ^ k) * 2 - 1) = (2 ^ k + (2 ^ k - 1))%nat) by lia.
  assert (Hst : Z.to_nat ((Z.of_nat (2 ^ k) * 2 - 1 - 1) / 2) = (2 ^ k - 1)%nat).
  { replace (Z.of_nat (2 ^ k) * 2 - 1 - 1) with ((Z.of_nat (2 ^ k) - 1) * 2) by lia.
    rewrite Z.div_mul by done. lia. }
  rewrite Hs, Hst, Nat2Z.id.
  replace (2 ^ k + (2 ^ k - 1) - length txs)%nat with ((2 ^ k - length txs) + (2 ^ k - 1))%nat by lia.
  rewrite replicate_add, app_assoc.
  assert (Hp : map Some (leaves w txs) ++ replicate (2 ^ k - length txs) None = padded k (leaves w txs)).
  { unfold padded. by rewrite length_leaves. }
  rewrite Hp.
  assert (Hpl : length (padded k (leaves w txs)) = (2 ^ k)%nat).
  { unfold padded. rewrite length_app, length_map, length_replicate, length_leaves. lia. }
  pose proof (fill_all k (padded k (leaves w txs)) [] (replicate (2 ^ k - 1) None) Hpl) as Hf.
  cbn [app length] in Hf. rewrite Hpl in Hf. rewrite Hf by apply length_replicate.
  eexists. split; [done|]. apply last_nodes; [done|rewrite length_leaves; lia..].
Qed.

(** ** What a root commits to *)

(** *** What is hashed on the way to a root *)

Fixpoint level_messages (l : list Hash) : list (list byte) :=
  match l with
  | [] => []
  | [x] => twice (x ++ x)
  | x :: y :: l => twice (x ++ y) ++ level_messages l
  end.
Fixpoint root_messages (fuel : nat) (l : list Hash) : list (list byte) :=
  match l, fuel with
  | x :: y :: _, S fuel => level_messages l ++ root_messages fuel (level l)
  | _, _ => []
  end.
(** The transactions without their witnesses, and the pairs of every level. *)
Definition merkle_messages (txs : list MsgTx) : list (list byte) :=
  concat (map (twice ∘ SerializeNoWitness) txs) ++ root_messages (length txs) (map TxHash txs).

Lemma branches_inj ms a b c d :
  apart ms → twice (a ++ b) ⊆ ms → twice (c ++ d) ⊆ ms → length a = HashSize → length c = HashSize →
  HashMerkleBranches a b = HashMerkleBranches c d → a = c ∧ b = d.
Proof.
  intros Hap Hm Hm' Ha Hc He. apply (double_inj ms) in He; [|done..]. apply app_inj_1 in He; [done|congruence].
Qed.
Lemma level_sizes l : Forall (λ h, length h = HashSize) (level l).
Proof.
  induction l as [| |x y l IH] using list_pair_ind; cbn [level].
  - done.
  - constructor; [apply DoubleHashH_size|done].
  - constructor; [apply DoubleHashH_size|done].
Qed.
Lemma level_inj ms l1 l2 :
  apart ms → level_messages l1 ⊆ ms → level_messages l2 ⊆ ms →
  length l1 = length l2 → Forall (λ h, length h = HashSize) l1 → Forall (λ h, length h = HashSize) l2 →
  level l1 = level l2 → l1 = l2.
Proof.
  intros Hap. revert l2. induction l1 as [|x|x y l1 IH] using list_pair_ind; intros [|x2 [|y2 l2]] M1 M2 Hl H1 H2 He;
    try discriminate Hl; [done|..].
  - injection He as He. apply Forall_cons in H1 as [H1 _]. apply Forall_cons in H2 as [H2 _].
    by apply (branches_inj ms) in He as [-> _].
  - cbn [level] in He. injection He as He Ht. injection Hl as Hl. cbn [level_messages] in M1, M2.
    apply app_sub in M1 as [M1 M1'], M2 as [M2 M2'].
    apply Forall_cons in H1 as [H1 [_ H1']%Forall_cons]. apply Forall_cons in H2 as [H2 [_ H2']%Forall_cons].
    apply (branches_inj ms) in He as [-> ->]; [|done..]. do 2 f_equal. by apply IH.
Qed.
Lemma root_inj ms n l1 l2 :
  apart ms → root_messages n l1 ⊆ ms → root_messages n l2 ⊆ ms →
  length l1 = length l2 → (length l1 ≤ n)%nat →
  Forall (λ h, length h = HashSize) l1 → Forall (λ h, length h = HashSize) l2 →
  l1 ≠ [] → merkle_root l1 = merkle_root l2 → l1 = l2.
Proof.
  intros Hap. revert l1 l2. induction n as [|n IH]; intros l1 l2 M1 M2 Hl Hn H1 H2 Hne He.
  { destruct l1; [done|cbn in Hn; lia]. }
  destruct l1 as [|x [|y l1]], l2 as [|x2 [|y2 l2]]; cbn [length] in *; try (exfalso; lia); [done|..].
  - by injection He as ->.
  - cbn [root_messages] in M1, M2. apply app_sub in M1 as [M1 M1'], M2 as [M2 M2'].
    apply (level_inj ms); [done|done|done|cbn; congruence|done|done|].
    apply IH; [done|done| | |apply level_sizes|apply level_sizes|by apply level_nonnil|].
    + rewrite !level_length. cbn [length]. congruence.
    + pose proof (level_lt x y l1). lia.
    + rewrite !merkle_root_level by (cbn; lia). done.
Qed.

Lemma leaves_sizes w txs : Forall (λ h, length h = HashSize) (leaves w txs).
Proof.
  apply Forall_lookup_2. intros i h. unfold leaves. rewrite list_lookup_imap.
  destruct (txs !! i) as [tx|]; [|done]. cbn. intros [= <-]. unfold leaf_hash, WitnessHash.
  destruct w, i; repeat case_match; try apply DoubleHashH_size. done.
Qed.

Lemma leaves_txs txs : leaves false txs = map TxHash txs.
Proof. unfold leaves. induction txs using rev_ind; [done|]. by rewrite imap_app, map_app, IHtxs. Qed.
Lemma txhashes_inj ms txs1 txs2 :
  apart ms → concat (map (twice ∘ SerializeNoWitness) txs1) ⊆ ms → concat (map (twice ∘ SerializeNoWitness) txs2) ⊆ ms →
  map TxHash txs1 = map TxHash txs2 → map SerializeNoWitness txs1 = map SerializeNoWitness txs2.
Proof.
  intros Hap. revert txs2. induction txs1 as [|t1 txs1 IH]; intros [|t2 txs2] M1 M2 He; try discriminate He; [done|].
  cbn [map concat compose] in *. apply app_sub in M1 as [M1 M1'], M2 as [M2 M2'].
  injection He as Hh Ht. apply (double_inj ms) in Hh; [|done..]. rewrite Hh. f_equal. by apply IH.
Qed.

(** For every block the rolling store and the array of nodes compute
    the same root, that of the definition by levels (a level of an odd
    number of hashes repeats its last one); without transactions both
    panic. *)
Theorem merkle_equivalence w txs :
  Z.of_nat (length txs) < 2 ^ 62 →
  match txs with
  | [] => CalcMerkleRoot txs w = Crash ∧ BuildMerkleTreeStore txs w = Crash
  | _ => ∃ r merkles, merkle_root (leaves w txs) = Some r ∧ CalcMerkleRoot txs w = Ok r ∧
           BuildMerkleTreeStore txs w = Ok merkles ∧ last merkles = Some (Some r)
  end.
Proof.
  intros Hl. destruct txs as [|tx txs]; [done|].
  destruct (CalcMerkleRoot_ok w (tx :: txs)) as (r & Hc & Hr); [done|done|].
  destruct (BuildMerkleTreeStore_ok w (tx :: txs) r) as (m & Hb & Hm); [done|done|].
  by exists r, m.
Qed.

(** C24. Two blocks with as many transactions and the same root have the same
    transactions up to witness data, provided that SHA-256 does not collide on
    the messages that the two roots hash (the transactions, the pairs of
    hashes of every level, and their digests); the number matters, because
    repeating the last transaction of an odd number of them (more than one)
    does not change the root. *)
Theorem merkle_root_commits txs1 txs2 r :
  length txs1 = length txs2 → Z.of_nat (length txs1) < 2 ^ 61 →
  CalcMerkleRoot txs1 false = Ok r → CalcMerkleRoot txs2 false = Ok r →
  (apart (merkle_messages txs1 ++ merkle_messages txs2) →
     map SerializeNoWitness txs1 = map SerializeNoWitness txs2) ∧
  (∀ pre tx, txs1 = pre ++ [tx] → pre ≠ [] → Nat.odd (length txs1) = true →
     CalcMerkleRoot (pre ++ [tx; tx]) false = Ok r).
Proof.
  intros Hl Hb H1 H2. destruct (decide (txs1 = [])) as [->|Hn1]; [done|].
  destruct (CalcMerkleRoot_ok false txs1 Hn1) as (r1 & Hr1 & Hm1); [lia|].
  destruct (CalcMerkleRoot_ok false txs2) as (r2 & Hr2 & Hm2); [by destruct txs1, txs2|lia|].
  rewrite H1 in Hr1. injection Hr1 as <-. rewrite H2 in Hr2. injection Hr2 as <-. split.
  - set (ms := merkle_messages txs1 ++ merkle_messages txs2). intros Hap.
    assert (merkle_messages txs1 ⊆ ms ∧ merkle_messages txs2 ⊆ ms) as [[M1 M1']%app_sub [M2 M2']%app_sub] by by apply app_sub.
    apply (txhashes_inj ms); [done..|]. rewrite <- !leaves_txs in *. rewrite <- Hl in M2'.
    apply (root_inj ms (length txs1)); rewrite ?length_leaves; try done;
      [apply leaves_sizes|apply leaves_sizes|by destruct txs1|congruence].
  - intros pre tx -> Hp Ho.
    destruct (CalcMerkleRoot_ok false (pre ++ [tx; tx])) as (r3 & -> & Hm3).
    { by destruct pre. }
    { rewrite length_app in *. cbn in *. lia. }
    f_equal. change ([tx; tx]) with ([tx] ++ [tx]) in Hm3.
    rewrite app_assoc, leaves_snoc, leaves_snoc, <- app_assoc in Hm3 by (try done; by destruct pre).
    rewrite leaves_snoc in Hm1 by done. cbn [app] in Hm3.
    rewrite merkle_root_double in Hm3; [congruence| |by destruct pre].
    rewrite length_leaves. rewrite length_app, Nat.odd_add in Ho. rewrite <- Nat.negb_odd.
    by destruct (Nat.odd (length pre)).
Qed.
End Facts.
