(* ===== verification/ChainNode.v ===== *)
(** * Block chain: work, block nodes, the view of the best chain

    btcd/blockchain/internal/workmath/difficulty.go, blockindex.go (nodes and
    the index), chainview.go and timesorter.go.  A node holds its parent and
    the ancestor it skips to; its status, which the index changes, is kept by
    the index.  Big integers are [Z]. *)

From Stdlib Require Import ZArith Lia.
From stdpp Require Import base numbers list strings gmap sorting.
From S2P Require Import Prelude ScriptNum WireBase WireTx ScriptToken Sighash WireMsg ChainCompress ChainUtxo ChainError.

Open Scope Z_scope.

(** ** workmath *)

(** The big integer of bytes, most significant first. *)
Definition SetBytes (b : list byte) : Z := fold_left (λ n x, 256 * n + x) b 0.
Definition HashToBig (h : Hash) : Z := SetBytes (rev h).

Definition CompactToBig (compact : Z) : Z :=
  let mantissa := Z.land compact 0x007fffff in
  let isNegative := negb (Z.land compact 0x00800000 =? 0) in
  let exponent := Z.shiftr compact 24 in
  let bn :=
    if exponent <=? 3 then Z.shiftr mantissa (8 * (3 - exponent))
    else Z.shiftl mantissa (8 * (exponent - 3)) in
  if isNegative then - bn else bn.

(** The number of bytes of the absolute value. *)
Definition byte_len (n : Z) : Z := (Z.log2 (Z.abs n) + 8) / 8.

(** [Bits()[0]] is the lowest word of the absolute value, or a panic for 0;
    the shift of a negative number rounds down. *)
Definition BigToCompact (n : Z) : Z :=
  if n =? 0 then 0 else
  let exponent := byte_len n in
  let mantissa :=
    if exponent <=? 3 then uint32 (Z.shiftl (uint32 (Z.abs n)) (8 * (3 - exponent)))
    else uint32 (Z.abs (Z.shiftr n (8 * (exponent - 3)))) in
  let '(mantissa, exponent) :=
    if negb (Z.land mantissa 0x00800000 =? 0) then (Z.shiftr mantissa 8, exponent + 1)
    else (mantissa, exponent) in
  let compact := Z.lor (uint32 (Z.shiftl exponent 24)) mantissa in
  if n <? 0 then Z.lor compact 0x00800000 else compact.

Definition oneLsh256 : Z := Z.shiftl 1 256.
Definition CalcWork (bits : Z) : Z :=
  let difficultyNum := CompactToBig bits in
  if difficultyNum <=? 0 then 0 else oneLsh256 / (difficultyNum + 1).

(** ** Nodes *)

Inductive blockNode := mkNode {
  parent : option blockNode;
  ancestor : option blockNode;
  n_hash : Hash;
  workSum : Z;
  n_height : Z;                                   (* int32 *)
  n_version : Z;                                  (* int32 *)
  n_bits : Z;                                     (* uint32 *)
  n_nonce : Z;                                    (* uint32 *)
  n_timestamp : Z;                                (* int64 *)
  n_merkleRoot : Hash
}.

(** Nodes are compared by address in the code; the index holds one node for a
    block, so that equal nodes are one.  The hashes are compared first. *)
Fixpoint node_eqb (a b : blockNode) : bool :=
  match a, b with
  | mkNode pa aa ha wa ga va ba na ta ma, mkNode pb ab hb wb gb vb bb nb tb mb =>
      if bool_decide (ha = hb ∧ wa = wb ∧ ga = gb ∧ va = vb ∧ ba = bb ∧ na = nb ∧ ta = tb ∧ ma = mb)
      then match pa, pb with
           | Some x, Some y => node_eqb x y
           | None, None => true
           | _, _ => false
           end &&
           match aa, ab with
           | Some x, Some y => node_eqb x y
           | None, None => true
           | _, _ => false
           end
      else false
  end.

Definition invertLowestOne (n : Z) : Z := Z.land n (int32 (n - 1)).
Definition getAncestorHeight (height : Z) : Z := invertLowestOne (invertLowestOne height).

(** The loop of [Ancestor]: both the skip and the parent are older nodes. *)
Fixpoint ancestor_loop (n : blockNode) (height : Z) : option blockNode :=
  match n with
  | mkNode par anc _ _ h _ _ _ _ _ =>
      if h =? height then Some n else
      match anc with
      | Some a =>
          if height <=? getAncestorHeight h then ancestor_loop a height
          else match par with Some p => ancestor_loop p height | None => None end
      | None => match par with Some p => ancestor_loop p height | None => None end
      end
  end.
Definition Ancestor (node : blockNode) (height : Z) : option blockNode :=
  if (height <? 0) || (n_height node <? height) then None else ancestor_loop node height.
Definition RelativeAncestor (node : blockNode) (distance : Z) : option blockNode :=
  Ancestor node (int32 (n_height node - distance)).

Section Nodes.
Context `{Sha}.

Definition newBlockNode (hdr : BlockHeader) (par : option blockNode) : blockNode :=
  match par with
  | None =>
      mkNode None None (BlockHash hdr) (CalcWork (Bits hdr)) 0 (bh_Version hdr) (Bits hdr)
        (bh_Nonce hdr) (bh_Timestamp hdr) (MerkleRoot hdr)
  | Some p =>
      let h := int32 (n_height p + 1) in
      mkNode (Some p) (Ancestor p (getAncestorHeight h)) (BlockHash hdr)
        (workSum p + CalcWork (Bits hdr)) h (bh_Version hdr) (Bits hdr)
        (bh_Nonce hdr) (bh_Timestamp hdr) (MerkleRoot hdr)
  end.

Definition node_Header (node : blockNode) : BlockHeader :=
  mkBlockHeader (n_version node)
    (match parent node with Some p => n_hash p | None => zeroHash end)
    (n_merkleRoot node) (n_timestamp node) (n_bits node) (n_nonce node).
End Nodes.

(** [Equals], which compares the statuses too. *)
Definition node_Equals (status : Hash → Z) (a b : blockNode) : bool :=
  bool_decide (n_hash a = n_hash b) && (workSum a =? workSum b) && (n_height a =? n_height b) &&
  (n_version a =? n_version b) && (n_bits a =? n_bits b) && (n_nonce a =? n_nonce b) &&
  (n_timestamp a =? n_timestamp b) && bool_decide (n_merkleRoot a = n_merkleRoot b) &&
  (status (n_hash a) =? status (n_hash b)).

Definition IsAncestor (status : Hash → Z) (node : blockNode) (otherNode : option blockNode) : bool :=
  match otherNode with
  | None => false
  | Some other =>
      match Ancestor node (n_height other) with
      | None => false
      | Some a => if n_height node =? n_height a then false else node_Equals status a other
      end
  end.

(** ** The median time *)

Definition medianTimeBlocks : nat := 11.

Fixpoint past_timestamps (k : nat) (n : option blockNode) : list Z :=
  match k, n with
  | S k, Some n => n_timestamp n :: past_timestamps k (parent n)
  | _, _ => []
  end.
(** [sort.Sort] puts the timestamps in order; they are integers, so there is
    one result.  A nil node is a panic. *)
Definition median (ts : list Z) : option Z := merge_sort Z.le ts !! (length ts / 2)%nat.
Definition CalcPastMedianTime (node : option blockNode) : VRes Z :=
  match median (past_timestamps medianTimeBlocks node) with
  | Some t => VOk t
  | None => VCrash
  end.

(** ** The index *)

Definition statusDataStored : Z := 1.
Definition statusValid : Z := 2.
Definition statusValidateFailed : Z := 4.
Definition statusInvalidAncestor : Z := 8.
Definition statusNone : Z := 0.
Definition HaveData (status : Z) : bool := negb (Z.land status statusDataStored =? 0).
Definition KnownValid (status : Z) : bool := negb (Z.land status statusValid =? 0).
Definition KnownInvalid (status : Z) : bool :=
  negb (Z.land status (Z.lor statusValidateFailed statusInvalidAncestor) =? 0).

Record blockIndex := mkIndex {
  index : gmap Hash blockNode;
  statuses : gmap Hash Z;                         (* of the nodes, 0 where absent *)
  dirty : gset Hash
}.
Definition newBlockIndex : blockIndex := mkIndex ∅ ∅ ∅.
Definition HaveBlock (bi : blockIndex) (h : Hash) : bool := bool_decide (is_Some (index bi !! h)).
Definition LookupNode (bi : blockIndex) (h : Hash) : option blockNode := index bi !! h.
Definition addNode (node : blockNode) (bi : blockIndex) : blockIndex :=
  mkIndex (<[n_hash node := node]> (index bi)) (statuses bi) (dirty bi).
Definition AddNode (node : blockNode) (bi : blockIndex) : blockIndex :=
  let bi := addNode node bi in mkIndex (index bi) (statuses bi) ({[n_hash node]} ∪ dirty bi).
Definition NodeStatus (bi : blockIndex) (node : blockNode) : Z :=
  default statusNone (statuses bi !! n_hash node).
Definition SetStatusFlags (node : blockNode) (flags : Z) (bi : blockIndex) : blockIndex :=
  mkIndex (index bi) (<[n_hash node := Z.lor (NodeStatus bi node) flags]> (statuses bi))
    ({[n_hash node]} ∪ dirty bi).
Definition UnsetStatusFlags (node : blockNode) (flags : Z) (bi : blockIndex) : blockIndex :=
  mkIndex (index bi) (<[n_hash node := Z.ldiff (NodeStatus bi node) flags]> (statuses bi))
    ({[n_hash node]} ∪ dirty bi).

(** ** The view of a chain *)

Definition log2FloorMasks : list Z := [0xffff0000; 0xff00; 0xf0; 0xc; 0x2].
Definition fastLog2Floor (n : Z) : Z :=
  (fold_left (λ '(rv, n, exponent) mask,
     if negb (Z.land n mask =? 0) then (rv + exponent, Z.shiftr n exponent, Z.shiftr exponent 1)
     else (rv, n, Z.shiftr exponent 1)) log2FloorMasks (0, n, 16)).1.1.

(** The nodes by height; nil entries are [None]. *)
Abbreviation chainView := (list (option blockNode)).

Definition genesis (c : chainView) : option blockNode := mjoin (head c).
Definition tip (c : chainView) : option blockNode := mjoin (last c).
Definition view_height (c : chainView) : Z := int32 (zlen c - 1).
Definition nodeByHeight (c : chainView) (height : Z) : option blockNode :=
  if (height <? 0) || (int32 (zlen c) <=? height) then None else mjoin (c !! Z.to_nat height).

Definition opt_same (a : option blockNode) (b : blockNode) : bool :=
  match a with Some a => node_eqb a b | None => false end.
Definition contains (c : chainView) (node : blockNode) : bool :=
  opt_same (nodeByHeight c (n_height node)) node.
Definition next (c : chainView) (node : option blockNode) : option blockNode :=
  match node with
  | Some n => if contains c n then nodeByHeight c (int32 (n_height n + 1)) else None
  | None => None
  end.

(** The loop of [setTip]: it stops at the first node that is there. *)
Fixpoint set_nodes (n : blockNode) (c : chainView) : chainView :=
  match n with
  | mkNode par _ _ _ h _ _ _ _ _ =>
      if opt_same (mjoin (c !! Z.to_nat h)) n then c else
      let c := <[Z.to_nat h := Some n]> c in
      match par with Some p => set_nodes p c | None => c end
  end.
(** The array is cut or extended with nil to hold the height of the tip. *)
Definition setTip (node : option blockNode) (c : chainView) : chainView :=
  match node with
  | None => []
  | Some n =>
      let needed := Z.to_nat (n_height n + 1) in
      set_nodes n (take needed c ++ replicate (needed - length c) None)
  end.
Definition newChainView (node : option blockNode) : chainView := setTip node [].

Fixpoint fork_loop (c : chainView) (n : blockNode) : option blockNode :=
  match n with
  | mkNode par _ _ _ _ _ _ _ _ _ =>
      if contains c n then Some n else match par with Some p => fork_loop c p | None => None end
  end.
Definition findFork (c : chainView) (node : option blockNode) : option blockNode :=
  match node with
  | None => None
  | Some n =>
      let start := if view_height c <? n_height n then Ancestor n (view_height c) else Some n in
      match start with Some n => fork_loop c n | None => None end
  end.

(** The loop of [blockLocator]: heights fall strictly, so the height of the
    first node is fuel enough.  A nil entry of the view ends it. *)
Fixpoint locator_loop (fuel : nat) (c : chainView) (node : blockNode) (step : Z) (sofar : nat)
    : list Hash :=
  match fuel with
  | O => []
  | S fuel =>
      n_hash node ::
      if n_height node =? 0 then [] else
      let height := Z.max 0 (int32 (n_height node - step)) in
      let nxt := if contains c node then mjoin (c !! Z.to_nat height) else Ancestor node height in
      let step := if (10 <? S sofar)%nat then int32 (step * 2) else step in
      match nxt with Some n => locator_loop fuel c n step (S sofar) | None => [] end
  end.
Definition blockLocator (c : chainView) (node : option blockNode) : list Hash :=
  match (match node with Some n => Some n | None => tip c end) with
  | Some n => locator_loop (S (Z.to_nat (n_height n))) c n 1 0
  | None => []
  end.
