(* ===== verification/ChainNodeFacts.v ===== *)
(** * Block chain: facts about nodes and views

    The skips of [Ancestor] lead where the parents lead; [setTip] makes the
    view the chain of its tip; the median time does not fall. *)

From Stdlib Require Import ZArith Lia.
From stdpp Require Import base numbers list strings gmap sorting.
From S2P Require Import Prelude ScriptNum WireBase WireTx ScriptToken Sighash WireMsg ChainCompress ChainUtxo ChainError ChainNode.

Open Scope Z_scope.

(** ** Equality of nodes *)

(** Induction on a node goes through its parent and its skip. *)
Section NodeInd.
Context (P : blockNode → Prop).
Definition opt_P (o : option blockNode) : Prop := match o with Some n => P n | None => True end.
Context (step : ∀ par anc h w g v b n t m, opt_P par → opt_P anc → P (mkNode par anc h w g v b n t m)).
Fixpoint node_ind (n : blockNode) : P n :=
  match n with
  | mkNode par anc h w g v b no t m =>
      step par anc h w g v b no t m
        match par with Some p => node_ind p | None => I end
        match anc with Some a => node_ind a | None => I end
  end.
End NodeInd.

Lemma opt_eqb_eq o o' :
  opt_P (λ a, ∀ b, node_eqb a b = true ↔ a = b) o →
  match o, o' with Some x, Some y => node_eqb x y | None, None => true | _, _ => false end = true ↔ o = o'.
Proof.
  destruct o as [x|], o' as [y|]; cbn; intros Ho; [|done..]. rewrite Ho. split; [by intros ->|by intros [=]].
Qed.
Lemma node_eqb_eq a b : node_eqb a b = true ↔ a = b.
Proof.
  revert b. induction a as [pa aa ? ? ? ? ? ? ? ? IHp IHa] using node_ind.
  intros [pb ab ? ? ? ? ? ? ? ?]. cbn [node_eqb]. case_bool_decide as Hd.
  - destruct Hd as (-> & -> & -> & -> & -> & -> & -> & ->).
    rewrite andb_true_iff, !opt_eqb_eq by done. split; [by intros [-> ->]|by intros [= -> ->]].
  - split; [done|]. intros [= -> -> -> -> -> -> -> -> -> ->]. by destruct Hd.
Qed.
#[export] Instance blockNode_eq_dec : EqDecision blockNode.
Proof.
  refine (λ a b, cast_if (decide (node_eqb a b = true))); by rewrite <- node_eqb_eq.
Defined.

(** ** Ancestors *)

(** The ancestor a number of parents back. *)
Fixpoint nth_parent (k : nat) (n : blockNode) : option blockNode :=
  match k with O => Some n | S k => match parent n with Some p => nth_parent k p | None => None end end.
(** The reference: walk the parents down to the height. *)
Definition ancestor_at (n : blockNode) (height : Z) : option blockNode :=
  if (height <? 0) || (n_height n <? height) then None
  else nth_parent (Z.to_nat (n_height n - height)) n.

(** A node whose heights count its parents and whose skips are ancestors, at
    a height that is a valid int32. *)
Inductive linked : blockNode → Prop :=
  | linked_genesis h w v b n t m : linked (mkNode None None h w 0 v b n t m)
  | linked_next p h w v b n t m :
      linked p → n_height p + 1 < 2 ^ 31 →
      linked (mkNode (Some p) (ancestor_at p (getAncestorHeight (n_height p + 1))) h w
                (n_height p + 1) v b n t m).

Lemma linked_height n : linked n → 0 <= n_height n < 2 ^ 31.
Proof. induction 1; cbn [n_height]; lia. Qed.

Lemma land_le_r a b : 0 <= b → Z.land a b <= b.
Proof.
  intros Hb. assert (Hd : Z.ldiff (Z.land a b) b = 0).
  { apply Z.bits_inj'. intros i _. rewrite Z.ldiff_spec, Z.land_spec, Z.bits_0.
    by destruct (Z.testbit a i), (Z.testbit b i). }
  apply Z.sub_nocarry_ldiff in Hd.
  pose proof (proj2 (Z.ldiff_nonneg b (Z.land a b)) (or_introl Hb)). lia.
Qed.
Lemma invert_bounds n : 0 <= n < 2 ^ 31 → 0 <= invertLowestOne n <= Z.max 0 (n - 1).
Proof.
  intros Hn. unfold invertLowestOne. destruct (Z.eq_dec n 0) as [->|]; [done|].
  rewrite wrap_s_id by (cbn; lia). pose proof (land_le_r n (n - 1) ltac:(lia)).
  pose proof (proj2 (Z.land_nonneg n (n - 1)) (or_introl (proj1 Hn))). lia.
Qed.
Lemma ancestor_height_bounds n : 0 < n < 2 ^ 31 → 0 <= getAncestorHeight n < n.
Proof.
  intros Hn. unfold getAncestorHeight. pose proof (invert_bounds n ltac:(lia)).
  pose proof (invert_bounds (invertLowestOne n) ltac:(lia)). lia.
Qed.

Lemma linked_parent n p : linked n → parent n = Some p → linked p ∧ n_height n = n_height p + 1.
Proof. destruct 1; [done|]. by intros [= ->]. Qed.
Lemma linked_no_parent n : linked n → parent n = None → n_height n = 0.
Proof. by destruct 1. Qed.

Lemma nth_parent_linked k n :
  linked n → Z.of_nat k <= n_height n →
  ∃ a, nth_parent k n = Some a ∧ linked a ∧ n_height a = n_height n - Z.of_nat k.
Proof.
  revert n. induction k as [|k IH]; intros n Hn Hk; cbn [nth_parent].
  - exists n. split_and!; [done..|lia].
  - destruct (parent n) as [p|] eqn:Hp.
    + destruct (linked_parent n p Hn Hp) as [Hl Hh]. destruct (IH p Hl) as (a & ? & ? & ?); [lia|].
      exists a. split_and!; [done..|lia].
    + apply linked_no_parent in Hp; [|done]. lia.
Qed.
Lemma nth_parent_add j k n a : nth_parent j n = Some a → nth_parent (j + k) n = nth_parent k a.
Proof.
  revert n. induction j as [|j IH]; intros n; cbn; [by intros [= ->]|]. destruct (parent n); [apply IH|done].
Qed.

(** The ancestors of an ancestor are the node's. *)
Lemma ancestor_at_ok n h : linked n → 0 <= h <= n_height n →
  ∃ a, ancestor_at n h = Some a ∧ linked a ∧ n_height a = h ∧ ∀ g, g <= h → ancestor_at a g = ancestor_at n g.
Proof.
  intros Hn Hh. unfold ancestor_at at 1.
  destruct (Z.ltb_spec h 0); [lia|]. destruct (Z.ltb_spec (n_height n) h); [lia|]. cbn [orb].
  destruct (nth_parent_linked (Z.to_nat (n_height n - h)) n Hn) as (a & Ha & Hl & Hha); [lia|].
  exists a. split_and!; [done|done|lia|]. intros g Hg. unfold ancestor_at.
  destruct (Z.ltb_spec g 0); [done|]. destruct (Z.ltb_spec (n_height a) g); [lia|].
  destruct (Z.ltb_spec (n_height n) g); [lia|]. cbn [orb].
  rewrite <- (nth_parent_add _ _ _ _ Ha). f_equal. lia.
Qed.
Lemma ancestor_at_parent n p h : linked n → parent n = Some p → h <= n_height p → ancestor_at n h = ancestor_at p h.
Proof.
  intros Hn Hp Hh. destruct (linked_parent n p Hn Hp) as [Hl Hpar]. unfold ancestor_at.
  destruct (Z.ltb_spec h 0); [done|]. destruct (Z.ltb_spec (n_height n) h); [lia|].
  destruct (Z.ltb_spec (n_height p) h); [lia|]. cbn [orb].
  replace (Z.to_nat (n_height n - h)) with (S (Z.to_nat (n_height p - h))) by lia.
  cbn [nth_parent]. by rewrite Hp.
Qed.

Lemma ancestor_loop_ok n h : linked n → 0 <= h <= n_height n → ancestor_loop n h = ancestor_at n h.
Proof.
  revert h. induction n as [par anc hs w g v b no t m IHp IHa] using node_ind. intros h Hn Hh.
  cbn [ancestor_loop]. destruct (Z.eqb_spec g h) as [->|Hne].
  { destruct (ancestor_at_ok _ h Hn Hh) as (a & Ha & _ & Hha & _). rewrite Ha. f_equal.
    unfold ancestor_at in Ha. cbn [n_height] in *. destruct (_ || _); [done|].
    rewrite Z.sub_diag in Ha. by injection Ha as ->. }
  inversion Hn as [|p ? ? ? ? ? ? ? Hp Hlt]; subst; cbn [n_height] in *; [lia|].
  pose proof (linked_height p Hp) as Hhp.
  pose proof (ancestor_height_bounds (n_height p + 1) ltac:(lia)) as Hb.
  destruct (ancestor_at_ok p (getAncestorHeight (n_height p + 1)) Hp) as (a & Ha & Hla & Hha & Hag); [lia|].
  rewrite Ha in *. cbn [opt_P] in *. rewrite (ancestor_at_parent _ p) by (done || cbn; lia).
  destruct (Z.leb_spec h (getAncestorHeight (n_height p + 1))).
  - rewrite IHa by (done || lia). apply Hag. lia.
  - apply IHp; [done|lia].
Qed.
Lemma Ancestor_at n h : linked n → Ancestor n h = ancestor_at n h.
Proof.
  intros Hn. unfold Ancestor. destruct (_ || _) eqn:Hb.
  - unfold ancestor_at. by rewrite Hb.
  - apply orb_false_iff in Hb as [H1%Z.ltb_ge H2%Z.ltb_ge]. by apply ancestor_loop_ok.
Qed.

(** ** Chains of headers *)

Section Chains.
Context `{Sha}.

(** The node of the last of a list of headers, each the parent of the next. *)
Definition chain_node (hdrs : list BlockHeader) : option blockNode :=
  foldl (λ par hdr, Some (newBlockNode hdr par)) None hdrs.

Lemma chain_node_snoc hdrs hdr : chain_node (hdrs ++ [hdr]) = Some (newBlockNode hdr (chain_node hdrs)).
Proof. unfold chain_node. by rewrite foldl_snoc. Qed.

Lemma newBlockNode_linked hdr par :
  match par with Some p => linked p ∧ n_height p + 1 < 2 ^ 31 | None => True end →
  linked (newBlockNode hdr par).
Proof.
  destruct par as [p|]; [|intros _; constructor]. intros [Hp Hh]. unfold newBlockNode.
  pose proof (linked_height p Hp). rewrite wrap_s_id by (cbn; lia).
  rewrite Ancestor_at by done. by constructor.
Qed.

Lemma chain_node_ok hdrs :
  zlen hdrs <= 2 ^ 31 →
  match chain_node hdrs with
  | None => hdrs = []
  | Some n => linked n ∧ n_height n = zlen hdrs - 1 ∧
      workSum n = foldr (λ hdr s, CalcWork (Bits hdr) + s) 0 hdrs ∧
      parent n = chain_node (take (length hdrs - 1) hdrs)
  end.
Proof.
  induction hdrs as [|hdr hdrs IH] using rev_ind; [done|]. rewrite length_app. cbn [length]. intros Hl.
  rewrite chain_node_snoc. assert (Hl' : zlen hdrs <= 2 ^ 31) by lia. specialize (IH Hl').
  replace (length hdrs + 1 - 1)%nat with (length hdrs) by lia. rewrite take_app_length.
  assert (Hf : ∀ l c, foldr (λ h s, CalcWork (Bits h) + s) c l = foldr (λ h s, CalcWork (Bits h) + s) 0 l + c).
  { induction l as [|x l IHl]; intros c; cbn; [lia|]. rewrite IHl. lia. }
  rewrite foldr_app. cbn [foldr]. rewrite Hf.
  destruct (chain_node hdrs) as [p|].
  - destruct IH as (Hp & Hh & Hw & _). split_and!.
    + apply newBlockNode_linked. split; [done|lia].
    + cbn [newBlockNode n_height]. rewrite wrap_s_id by (cbn; lia). lia.
    + cbn [newBlockNode workSum]. lia.
    + done.
  - subst hdrs. split_and!; [by apply newBlockNode_linked|done|cbn [newBlockNode workSum foldr]; lia|done].
Qed.

Lemma chain_node_nth hdrs n k :
  zlen hdrs <= 2 ^ 31 → chain_node hdrs = Some n → (k < length hdrs)%nat →
  nth_parent k n = chain_node (take (length hdrs - k) hdrs).
Proof.
  revert hdrs n. induction k as [|k IH]; intros hdrs n Hl Hn Hk.
  - rewrite Nat.sub_0_r, take_ge by done. done.
  - cbn [nth_parent]. pose proof (chain_node_ok hdrs Hl) as Hok. rewrite Hn in Hok.
    destruct Hok as (_ & _ & _ & ->).
    set (hs := take (length hdrs - 1) hdrs). assert (Hls : length hs = (length hdrs - 1)%nat).
    { unfold hs. rewrite length_take. lia. }
    destruct (chain_node hs) as [p|] eqn:Hp.
    + rewrite (IH hs); [|lia|done|lia]. unfold hs. rewrite take_take, length_take. f_equal. f_equal. lia.
    + pose proof (chain_node_ok hs) as Hok. rewrite Hp in Hok. rewrite Hok in Hls by lia. cbn in Hls. lia.
Qed.

(** C25. In a chain of headers linked by [newBlockNode], every node has the
    height and the total work of the headers up to it, and [Ancestor], which
    jumps over ancestors, finds at every height the node of the header
    there, and nothing above the node or below the first block. *)
Theorem Ancestor_skips hdrs n h :
  zlen hdrs <= 2 ^ 31 → chain_node hdrs = Some n →
  n_height n = zlen hdrs - 1 ∧
  workSum n = foldr (λ hdr s, CalcWork (Bits hdr) + s) 0 hdrs ∧
  Ancestor n h = if (0 <=? h) && (h <? zlen hdrs) then chain_node (take (Z.to_nat h + 1) hdrs) else None.
Proof.
  intros Hl Hn. pose proof (chain_node_ok hdrs Hl) as Hok. rewrite Hn in Hok.
  destruct Hok as (Hln & Hh & Hw & _). split_and!; [done|done|]. rewrite Ancestor_at by done.
  unfold ancestor_at. rewrite Hh.
  destruct (Z.leb_spec 0 h); destruct (Z.ltb_spec h 0); try lia; cbn [andb orb]; [|done].
  destruct (Z.ltb_spec h (zlen hdrs)); destruct (Z.ltb_spec (zlen hdrs - 1) h); try lia; [|done].
  rewrite (chain_node_nth hdrs) by (done || lia). f_equal. f_equal. lia.
Qed.
End Chains.

(** ** Views *)

(** The view of the chain that ends in a node. *)
Definition view_of (n : blockNode) : chainView :=
  map (λ i, ancestor_at n (Z.of_nat i)) (seq 0 (Z.to_nat (n_height n) + 1)).

Lemma view_of_lookup n i : (i ≤ Z.to_nat (n_height n))%nat → view_of n !! i = Some (ancestor_at n (Z.of_nat i)).
Proof.
  intros Hi. unfold view_of. rewrite list_lookup_fmap, lookup_seq_lt by lia. done.
Qed.
Lemma length_view_of n : length (view_of n) = (Z.to_nat (n_height n) + 1)%nat.
Proof. unfold view_of. by rewrite length_map, length_seq. Qed.
Lemma ancestor_at_self n : linked n → ancestor_at n (n_height n) = Some n.
Proof.
  intros Hn. pose proof (linked_height n Hn). unfold ancestor_at.
  destruct (Z.ltb_spec (n_height n) 0); [lia|]. rewrite Z.ltb_irrefl, Z.sub_diag. done.
Qed.
Lemma view_of_next n p : linked n → parent n = Some p → view_of n = view_of p ++ [Some n].
Proof.
  intros Hn Hp. destruct (linked_parent n p Hn Hp) as [Hl Hh]. pose proof (linked_height p Hl).
  unfold view_of. replace (Z.to_nat (n_height n) + 1)%nat with (Z.to_nat (n_height p) + 1 + 1)%nat by lia.
  rewrite seq_app, map_app. cbn [seq map]. f_equal.
  - apply list_fmap_ext. intros i j Hi. apply lookup_seq in Hi as [-> Hi].
    apply ancestor_at_parent; [done..|lia].
  - replace (Z.of_nat (0 + (Z.to_nat (n_height p) + 1))) with (n_height n) by lia.
    by rewrite ancestor_at_self.
Qed.

Lemma opt_same_eq o n : opt_same o n = true ↔ o = Some n.
Proof. destruct o as [a|]; cbn; [rewrite node_eqb_eq; naive_solver|done]. Qed.

(** The loop of [setTip], on an array that is nil or part of some chain. *)
Lemma set_nodes_ok n c :
  linked n → (Z.to_nat (n_height n) < length c)%nat →
  (∀ k, linked k → n_height k <= n_height n → c !! Z.to_nat (n_height k) = Some (Some k) →
     ∀ i, (i ≤ Z.to_nat (n_height k))%nat → c !! i = Some (ancestor_at k (Z.of_nat i))) →
  set_nodes n c = view_of n ++ drop (length (view_of n)) c.
Proof.
  revert c. induction n as [par anc hs w g v b no t m IHp _] using node_ind. intros c Hn Hlen Hc.
  set (nd := mkNode par anc hs w g v b no t m) in *. pose proof (linked_height nd Hn) as Hh.
  change (set_nodes nd c) with
    (if opt_same (mjoin (c !! Z.to_nat (n_height nd))) nd then c else
     let c := <[Z.to_nat (n_height nd) := Some nd]> c in
     match par with Some p => set_nodes p c | None => c end).
  rewrite length_view_of. cbn zeta.
  destruct (opt_same (mjoin (c !! Z.to_nat (n_height nd))) nd) eqn:Hs.
  - apply opt_same_eq in Hs. destruct (c !! _) as [o|] eqn:Hlk; [|done]. cbn in Hs. subst o.
    specialize (Hc nd Hn ltac:(lia) Hlk). rewrite <- (take_drop (Z.to_nat (n_height nd) + 1) c) at 1.
    f_equal. apply list_eq_same_length with (Z.to_nat (n_height nd) + 1)%nat;
      [by rewrite length_view_of|rewrite length_take; lia|].
    intros i x y Hi Hx Hy. rewrite lookup_take_lt in Hx by done. rewrite Hc in Hx by lia.
    rewrite view_of_lookup in Hy by lia. congruence.
  - assert (Hd : <[Z.to_nat (n_height nd) := Some nd]> c =
      take (Z.to_nat (n_height nd)) c ++ Some nd :: drop (Z.to_nat (n_height nd) + 1) c).
    { rewrite insert_take_drop by done. do 2 f_equal. f_equal. lia. }
    destruct par as [q|].
    + destruct (linked_parent nd q Hn eq_refl) as [Hq Hhq]. cbn [opt_P] in IHp.
      pose proof (linked_height q Hq). rewrite IHp.
      * rewrite (view_of_next nd q) by done. rewrite <- app_assoc. f_equal.
        rewrite length_view_of, Hd, drop_app_length'; [done|rewrite length_take; lia].
      * done.
      * rewrite length_insert. lia.
      * intros k Hk Hkh. pose proof (linked_height k Hk). rewrite list_lookup_insert_ne by lia.
        intros Hlk i Hi. rewrite list_lookup_insert_ne by lia. apply (Hc k); [done|lia|done|done].
    + rewrite Hd. assert (Hz : n_height nd = 0) by (by apply linked_no_parent).
      pose proof (ancestor_at_self nd Hn) as Hself. rewrite Hz in Hself.
      assert (Hv : view_of nd = [ancestor_at nd 0]) by (unfold view_of; by rewrite Hz).
      by rewrite Hv, Hself, Hz.
Qed.

Lemma take_view t k : (k ≤ Z.to_nat (n_height t) + 1)%nat →
  take k (view_of t) = map (λ i, ancestor_at t (Z.of_nat i)) (seq 0 k).
Proof. intros Hk. unfold view_of. rewrite <- fmap_take, take_seq. do 2 f_equal. lia. Qed.

Definition old_view (t : option blockNode) : chainView := match t with Some t => view_of t | None => [] end.

Lemma setTip_ok n t :
  linked n → match t with Some t => linked t | None => True end → setTip (Some n) (old_view t) = view_of n.
Proof.
  intros Hn Ht. pose proof (linked_height n Hn). unfold setTip.
  set (needed := Z.to_nat (n_height n + 1)). set (c := take needed (old_view t) ++ _).
  assert (Hlen : length c = needed).
  { unfold c. rewrite length_app, length_take, length_replicate. lia. }
  assert (Hvl : length (view_of n) = length c) by (rewrite length_view_of; lia).
  rewrite set_nodes_ok; [by rewrite Hvl, drop_all, app_nil_r|done|lia|].
  intros k Hk Hkn Hlk i Hi. pose proof (linked_height k Hk).
  destruct t as [t|]; cbn [old_view] in *.
  - pose proof (linked_height t Ht). pose proof (length_view_of t) as Hvt.
    assert (Hkt : n_height k <= n_height t).
    { destruct (Z.le_gt_cases (n_height k) (n_height t)); [done|]. exfalso. unfold c in Hlk.
      rewrite lookup_app_r in Hlk by (rewrite length_take; lia).
      apply lookup_replicate in Hlk as [? _]. done. }
    assert (Hin : ∀ j, (j ≤ Z.to_nat (n_height k))%nat → c !! j = Some (ancestor_at t (Z.of_nat j))).
    { intros j Hj. unfold c. rewrite lookup_app_l by (rewrite length_take; lia).
      rewrite lookup_take_lt by lia. apply view_of_lookup. lia. }
    rewrite Hin in Hlk by lia. rewrite Z2Nat.id in Hlk by lia. injection Hlk as Hlk.
    rewrite Hin by done. f_equal.
    destruct (ancestor_at_ok t (n_height k) Ht) as (a & Ha & _ & _ & Hag); [lia|].
    rewrite Ha in Hlk. injection Hlk as ->. symmetry. apply Hag. lia.
  - unfold c in Hlk. rewrite take_nil in Hlk. cbn [app] in Hlk.
    apply lookup_replicate in Hlk as [? _]. done.
Qed.

Lemma view_tip n : linked n → tip (view_of n) = Some n.
Proof.
  intros Hn. pose proof (linked_height n Hn). unfold tip. rewrite last_lookup, length_view_of.
  rewrite view_of_lookup by lia. cbn. rewrite <- (ancestor_at_self n Hn). f_equal. lia.
Qed.

(** A view with room for its heights contains the ancestors of its tip. *)
Lemma contains_view t n :
  linked t → linked n → n_height t + 1 < 2 ^ 31 →
  contains (view_of t) n = true ↔ ancestor_at t (n_height n) = Some n.
Proof.
  intros Ht Hn Hlt. pose proof (linked_height n Hn). pose proof (linked_height t Ht).
  unfold contains, nodeByHeight. rewrite opt_same_eq, length_view_of.
  rewrite wrap_s_id by (cbn; lia). destruct (Z.ltb_spec (n_height n) 0); [lia|]. cbn [orb].
  destruct (Z.leb_spec (Z.of_nat (Z.to_nat (n_height t) + 1)) (n_height n)).
  - unfold ancestor_at. destruct (Z.ltb_spec (n_height t) (n_height n)); [|lia].
    by rewrite orb_true_r.
  - rewrite view_of_lookup by lia. cbn. by rewrite Z2Nat.id by lia.
Qed.

(** An ancestor of a node, or the node. *)
Definition below (a n : blockNode) : Prop := ancestor_at n (n_height a) = Some a.

Lemma fork_loop_ok t n :
  linked t → linked n → n_height t + 1 < 2 ^ 31 →
  match fork_loop (view_of t) n with
  | Some f => below f n ∧ below f t ∧ ∀ a, below a n → below a t → n_height a <= n_height f
  | None => ∀ a, below a n → ¬ below a t
  end.
Proof.
  intros Ht Hn Hlt. induction n as [par anc hs w g v b no t0 m IHp _] using node_ind.
  set (nd := mkNode par anc hs w g v b no t0 m) in *.
  change (fork_loop (view_of t) nd) with
    (if contains (view_of t) nd then Some nd
     else match par with Some p => fork_loop (view_of t) p | None => None end).
  assert (Hle : ∀ a, below a nd → n_height a <= n_height nd).
  { intros a Ha. unfold below, ancestor_at in Ha. destruct (_ || _) eqn:Hb; [done|].
    by apply orb_false_iff in Hb as [_ Hb%Z.ltb_ge]. }
  destruct (contains (view_of t) nd) eqn:Hc.
  - apply contains_view in Hc; [|done..]. split_and!; [by apply ancestor_at_self|done|].
    intros a Ha _. by apply Hle.
  - assert (Hnd : ¬ below nd t).
    { intros Hb. apply contains_view in Hb; [|done..]. congruence. }
    destruct par as [p|].
    + destruct (linked_parent nd p Hn eq_refl) as [Hp Hph]. cbn [opt_P] in IHp. specialize (IHp Hp).
      assert (Hbp : ∀ a, below a nd → below a t → below a p).
      { intros a Ha Hat. destruct (Z.le_gt_cases (n_height a) (n_height p)) as [Hle'|Hgt].
        - unfold below. by rewrite <- (ancestor_at_parent nd p).
        - destruct Hnd. pose proof (Hle a Ha). assert (Heq : n_height a = n_height nd) by lia.
          unfold below in Ha. rewrite Heq, ancestor_at_self in Ha by done. by injection Ha as ->. }
      destruct (fork_loop (view_of t) p) as [f|].
      * destruct IHp as (Hf1 & Hf2 & Hf3). split_and!; [|done|eauto].
        unfold below in *. rewrite (ancestor_at_parent nd p); [done..|].
        unfold ancestor_at in Hf1. destruct (_ || _) eqn:Hb; [done|].
        by apply orb_false_iff in Hb as [_ Hb%Z.ltb_ge].
      * intros a Ha Hat. by apply (IHp a (Hbp a Ha Hat)).
    + intros a Ha Hat. assert (Hz : n_height nd = 0) by by apply linked_no_parent.
      assert (Heq : n_height a = 0).
      { pose proof (Hle a Ha). unfold below, ancestor_at in Ha. destruct (_ || _) eqn:Hb; [done|].
        apply orb_false_iff in Hb as [Hb%Z.ltb_ge _]. lia. }
      unfold below in Ha. rewrite Heq, <- Hz, ancestor_at_self in Ha by done.
      injection Ha as <-. done.
Qed.

Lemma below_height a n : below a n → 0 <= n_height a <= n_height n.
Proof.
  unfold below, ancestor_at. destruct (_ || _) eqn:Hb; [done|]. intros _.
  by apply orb_false_iff in Hb as [?%Z.ltb_ge ?%Z.ltb_ge].
Qed.

(** [findFork] starts at the height of the view. *)
Lemma findFork_ok n t :
  linked n → linked t → n_height t + 1 < 2 ^ 31 →
  match findFork (view_of t) (Some n) with
  | Some f => below f n ∧ below f t ∧ ∀ a, below a n → below a t → n_height a <= n_height f
  | None => ∀ a, below a n → ¬ below a t
  end.
Proof.
  intros Hn Ht Ht31. pose proof (linked_height n Hn). pose proof (linked_height t Ht).
  unfold findFork, view_height. rewrite length_view_of, wrap_s_id by (cbn; lia).
  replace (Z.of_nat (Z.to_nat (n_height t) + 1) - 1) with (n_height t) by lia.
  destruct (Z.ltb_spec (n_height t) (n_height n)); [|by apply fork_loop_ok].
  rewrite Ancestor_at by done.
  destruct (ancestor_at_ok n (n_height t) Hn) as (a & Ha & Hla & Hha & Hag); [lia|]. rewrite Ha.
  pose proof (fork_loop_ok t a Ht Hla Ht31) as Hf.
  assert (Hb : ∀ x, below x t → below x n ↔ below x a).
  { intros x Hx%below_height. unfold below. by rewrite Hag by lia. }
  destruct (fork_loop _ a) as [f|].
  - destruct Hf as (Hf1 & Hf2 & Hf3). split_and!; [by apply Hb|done|].
    intros x Hx1 Hx2. apply Hf3; [by apply Hb|done].
  - intros x Hx1 Hx2. apply (Hf x); [by apply Hb|done].
Qed.

(** The view of the best chain: [setTip] on any earlier view of a chain,
    or on an empty one, makes it the list of the ancestors of its tip, whose
    entries are what [Ancestor] finds; and [findFork] returns the highest
    block that a node and the view have in common. *)
Theorem chain_view n t old h :
  linked n → linked t → match old with Some o => linked o | None => True end →
  n_height n + 1 < 2 ^ 31 → n_height t + 1 < 2 ^ 31 →
  setTip (Some n) (old_view old) = view_of n ∧ tip (view_of n) = Some n ∧
  nodeByHeight (view_of n) h = Ancestor n h ∧
  match findFork (view_of t) (Some n) with
  | Some f => below f n ∧ below f t ∧ ∀ a, below a n → below a t → n_height a <= n_height f
  | None => ∀ a, below a n → ¬ below a t
  end.
Proof.
  intros Hn Ht Hold Hn31 Ht31. pose proof (linked_height n Hn). pose proof (linked_height t Ht).
  split_and!; [by apply setTip_ok|by apply view_tip| |].
  - rewrite Ancestor_at by done. unfold nodeByHeight, ancestor_at.
    rewrite length_view_of, wrap_s_id by (cbn; lia).
    destruct (Z.ltb_spec h 0); [done|]. cbn [orb].
    destruct (Z.leb_spec (Z.of_nat (Z.to_nat (n_height n) + 1)) h);
      destruct (Z.ltb_spec (n_height n) h); try lia; [done|].
    rewrite view_of_lookup by lia. cbn. unfold ancestor_at. rewrite Z2Nat.id by lia.
    destruct (Z.ltb_spec h 0); [lia|]. by destruct (Z.ltb_spec (n_height n) h); [lia|].
  - by apply findFork_ok.
Qed.

(** ** The median time *)

Definition earlier (m : Z) (l : list Z) : nat := length (filter (λ t, (t < m)%Z) l).

Lemma earlier_app m l1 l2 : earlier m (l1 ++ l2) = (earlier m l1 + earlier m l2)%nat.
Proof. unfold earlier. by rewrite filter_app, length_app. Qed.
Lemma earlier_none m l : Forall (Z.le m) l → earlier m l = 0%nat.
Proof. unfold earlier. induction 1; [done|]. by rewrite filter_cons_False by lia. Qed.
Lemma earlier_all m l : Forall (λ t, t < m) l → earlier m l = length l.
Proof. unfold earlier. induction 1; [done|]. rewrite filter_cons_True by done. cbn. congruence. Qed.
Lemma earlier_le m l : (earlier m l ≤ length l)%nat.
Proof. apply length_filter. Qed.

Lemma sorted_split (l : list Z) k m :
  StronglySorted Z.le l → l !! k = Some m →
  l = take k l ++ m :: drop (S k) l ∧ Forall (λ t, t <= m) (take k l) ∧ Forall (Z.le m) (drop (S k) l).
Proof.
  intros Hs Hk. pose proof (take_drop_middle l k m Hk) as He. split; [done|].
  rewrite <- He in Hs. apply StronglySorted_app in Hs as (H1 & _ & H2).
  apply StronglySorted_inv in H2 as [_ H2]. split; [|done].
  apply Forall_forall. intros x Hx. eapply H1; [done|by left].
Qed.

Lemma median_spec ts m : median ts = Some m →
  (earlier m ts ≤ length ts / 2)%nat ∧ ∀ x, m < x → (length ts / 2 < earlier x ts)%nat.
Proof.
  unfold median. intros Hm. pose proof (merge_sort_Permutation Z.le ts) as Hp.
  assert (He : ∀ x, earlier x ts = earlier x (merge_sort Z.le ts)).
  { intros x. unfold earlier. by rewrite Hp. }
  apply sorted_split in Hm as (Hl & H1 & H2); [|apply StronglySorted_merge_sort; apply _].
  assert (Hlt : length (take (length ts / 2) (merge_sort Z.le ts)) = (length ts / 2)%nat).
  { rewrite length_take, Hp. pose proof (Nat.Div0.div_le_upper_bound (length ts) 2 (length ts)). lia. }
  split; [|intros x Hx]; rewrite He, Hl, earlier_app.
  - pose proof (earlier_le m (take (length ts / 2) (merge_sort Z.le ts))).
    rewrite (earlier_none m (m :: _)) by (constructor; [lia|done]). lia.
  - rewrite earlier_all, Hlt by (eapply Forall_impl; [exact H1|cbn; lia]).
    unfold earlier. rewrite filter_cons_True by done. cbn [length]. lia.
Qed.

(** A later timestamp in front, and the oldest dropped: the median stays or
    moves up. *)
Lemma median_rises ts m t m' :
  (length ts ≤ 11)%nat → median ts = Some m → m < t → median (t :: take 10 ts) = Some m' → m <= m'.
Proof.
  intros Hl [Hm _]%median_spec Ht [_ Hm']%median_spec. destruct (Z.le_gt_cases m m'); [done|exfalso].
  specialize (Hm' m ltac:(lia)). unfold earlier in Hm' at 1.
  rewrite filter_cons_False in Hm' by lia. fold (earlier m (take 10 ts)) in Hm'.
  pose proof (earlier_app m (take 10 ts) (drop 10 ts)) as Ha. rewrite take_drop in Ha.
  cbn [length] in Hm'. rewrite length_take in Hm'.
  assert (length ts / 2 ≤ S (10 `min` length ts) / 2)%nat by (apply Nat.Div0.div_le_mono; lia). lia.
Qed.
Lemma past_timestamps_take k j n : (k ≤ j)%nat → past_timestamps k n = take k (past_timestamps j n).
Proof.
  revert j n. induction k as [|k IH]; intros [|j] n Hj; [by destruct n..|lia|].
  destruct n as [n|]; [|done]. cbn [past_timestamps take]. f_equal. apply IH. lia.
Qed.
Lemma past_timestamps_length k n : (length (past_timestamps k n) ≤ k)%nat.
Proof. revert n. induction k as [|k IH]; intros [n|]; cbn; [lia..| |lia]. specialize (IH (parent n)). lia. Qed.

Lemma median_total ts : ts ≠ [] → is_Some (median ts).
Proof.
  intros Hn. unfold median. apply lookup_lt_is_Some_2. rewrite merge_sort_Permutation.
  apply Nat.div_lt; [destruct ts; [done|cbn; lia]|lia].
Qed.

(** The median time of a node later than the median time of its parent is
    not before it. *)
Lemma past_median_rises n p t :
  parent n = Some p → CalcPastMedianTime (Some p) = VOk t → t < n_timestamp n →
  ∃ t', CalcPastMedianTime (Some n) = VOk t' ∧ t <= t'.
Proof.
  intros Hp Hm Ht. unfold CalcPastMedianTime in *. set (ps := past_timestamps medianTimeBlocks (Some p)) in *.
  assert (Hps : past_timestamps medianTimeBlocks (Some n) = n_timestamp n :: take 10 ps).
  { transitivity (n_timestamp n :: past_timestamps 10 (parent n)); [done|]. rewrite Hp. f_equal.
    apply past_timestamps_take. unfold medianTimeBlocks. lia. }
  rewrite Hps. destruct (median_total (n_timestamp n :: take 10 ps)) as [t' Ht']; [done|].
  rewrite Ht'. exists t'. split; [done|]. destruct (median ps) as [m|] eqn:Hmed; [|done].
  injection Hm as <-. eapply median_rises; [|exact Hmed|exact Ht|exact Ht']. apply past_timestamps_length.
Qed.
