(* ===== verification/ChainParams.v ===== *)
(** * Chain parameters

    btcd/chaincfg/params.go and deployment_time_frame.go: the parameters of
    the networks that the chain rules read.  Durations are seconds; the zero
    time of a deployment is [None]. *)

From Stdlib Require Import ZArith Lia.
From stdpp Require Import base numbers list strings.
From S2P Require Import Prelude ScriptNum WireBase WireTx.

Open Scope Z_scope.

Record Checkpoint := mkCheckpoint { cp_Height : Z; cp_Hash : Hash }.

Record ConsensusDeployment := mkDeployment {
  BitNumber : Z;                                  (* uint8 *)
  MinActivationHeight : Z;                        (* uint32 *)
  CustomActivationThreshold : Z;                  (* uint32 *)
  startTime : option Z;
  endTime : option Z
}.

Definition DeploymentTestDummy : nat := 0.
Definition DeploymentTestDummyMinActivation : nat := 1.
Definition DeploymentCSV : nat := 2.
Definition DeploymentSegwit : nat := 3.
Definition DeploymentTaproot : nat := 4.
Definition DefinedDeployments : nat := 5.

Record Params := mkParams {
  GenesisHash : Hash;
  PowLimit : Z;
  PowLimitBits : Z;
  PoWNoRetargeting : bool;
  BIP0034Height : Z;
  BIP0065Height : Z;
  BIP0066Height : Z;
  CoinbaseMaturity : Z;                           (* uint16 *)
  SubsidyReductionInterval : Z;                   (* int32 *)
  TargetTimespan : Z;
  TargetTimePerBlock : Z;
  RetargetAdjustmentFactor : Z;
  ReduceMinDifficulty : bool;
  MinDiffReductionTime : Z;
  Checkpoints : list Checkpoint;
  RuleChangeActivationThreshold : Z;              (* uint32 *)
  MinerConfirmationWindow : Z;                    (* uint32 *)
  Deployments : list ConsensusDeployment
}.

(** The fields of [BlockChain] that [New] derives from the parameters. *)
Definition minRetargetTimespan (p : Params) : Z := Z.quot (TargetTimespan p) (RetargetAdjustmentFactor p).
Definition maxRetargetTimespan (p : Params) : Z := TargetTimespan p * RetargetAdjustmentFactor p.
Definition blocksPerRetarget (p : Params) : Z := int32 (Z.quot (TargetTimespan p) (TargetTimePerBlock p)).

(** ** The networks *)

Definition hours (n : Z) : Z := n * 3600.
Definition minutes (n : Z) : Z := n * 60.
Definition always (bit minHeight threshold : Z) : ConsensusDeployment :=
  mkDeployment bit minHeight threshold None None.
Definition between (bit minHeight threshold start finish : Z) : ConsensusDeployment :=
  mkDeployment bit minHeight threshold (Some start) (Some finish).

Definition mainPowLimit : Z := Z.shiftl 1 224 - 1.
Definition regressionPowLimit : Z := Z.shiftl 1 255 - 1.
Definition testNet3PowLimit : Z := Z.shiftl 1 224 - 1.
Definition simNetPowLimit : Z := Z.shiftl 1 255 - 1.
Definition sigNetPowLimit : Z := Z.shiftl 0x0377ae 216.

(** genesis.go *)
Definition genesisHash : Hash :=
  [0x6f; 0xe2; 0x8c; 0x0a; 0xb6; 0xf1; 0xb3; 0x72;
   0xc1; 0xa6; 0xa2; 0x46; 0xae; 0x63; 0xf7; 0x4f;
   0x93; 0x1e; 0x83; 0x65; 0xe1; 0x5a; 0x08; 0x9c;
   0x68; 0xd6; 0x19; 0x00; 0x00; 0x00; 0x00; 0x00].
Definition regTestGenesisHash : Hash :=
  [0x06; 0x22; 0x6e; 0x46; 0x11; 0x1a; 0x0b; 0x59;
   0xca; 0xaf; 0x12; 0x60; 0x43; 0xeb; 0x5b; 0xbf;
   0x28; 0xc3; 0x4f; 0x3a; 0x5e; 0x33; 0x2a; 0x1f;
   0xc7; 0xb2; 0xb7; 0x3c; 0xf1; 0x88; 0x91; 0x0f].
Definition testNet3GenesisHash : Hash :=
  [0x43; 0x49; 0x7f; 0xd7; 0xf8; 0x26; 0x95; 0x71;
   0x08; 0xf4; 0xa3; 0x0f; 0xd9; 0xce; 0xc3; 0xae;
   0xba; 0x79; 0x97; 0x20; 0x84; 0xe9; 0x0e; 0xad;
   0x01; 0xea; 0x33; 0x09; 0x00; 0x00; 0x00; 0x00].
Definition simNetGenesisHash : Hash :=
  [0xf6; 0x7a; 0xd7; 0x69; 0x5d; 0x9b; 0x66; 0x2a;
   0x72; 0xff; 0x3d; 0x8e; 0xdb; 0xbb; 0x2d; 0xe0;
   0xbf; 0xa6; 0x7b; 0x13; 0x97; 0x4b; 0xb9; 0x91;
   0x0d; 0x11; 0x6d; 0x5c; 0xbd; 0x86; 0x3e; 0x68].
Definition sigNetGenesisHash : Hash :=
  [0xf6; 0x1e; 0xee; 0x3b; 0x63; 0xa3; 0x80; 0xa4;
   0x77; 0xa0; 0x63; 0xaf; 0x32; 0xb2; 0xbb; 0xc9;
   0x7c; 0x9f; 0xf9; 0xf0; 0x1f; 0x2c; 0x42; 0x25;
   0xe9; 0x73; 0x98; 0x81; 0x08; 0x00; 0x00; 0x00].

Definition MainNetParams : Params := {|
  GenesisHash := genesisHash;
  PowLimit := mainPowLimit; PowLimitBits := 0x1d00ffff; PoWNoRetargeting := false;
  BIP0034Height := 227931; BIP0065Height := 388381; BIP0066Height := 363725;
  CoinbaseMaturity := 1; SubsidyReductionInterval := 210000;
  TargetTimespan := hours 24 * 14; TargetTimePerBlock := minutes 10;
  RetargetAdjustmentFactor := 4; ReduceMinDifficulty := true; MinDiffReductionTime := 0;
  Checkpoints := [];
  RuleChangeActivationThreshold := 1916; MinerConfirmationWindow := 2016;
  Deployments := [between 28 0 0 11991456010 1230767999; always 22 100000 1815;
    between 0 0 0 1462060800 1493596800; between 1 0 0 1479168000 1510704000;
    between 2 709632 1815 1619222400 1628640000]
|}.
Definition RegressionNetParams : Params := {|
  GenesisHash := regTestGenesisHash;
  PowLimit := regressionPowLimit; PowLimitBits := 0x207fffff; PoWNoRetargeting := true;
  BIP0034Height := 100000000; BIP0065Height := 1351; BIP0066Height := 1251;
  CoinbaseMaturity := 100; SubsidyReductionInterval := 150;
  TargetTimespan := hours 24 * 14; TargetTimePerBlock := minutes 10;
  RetargetAdjustmentFactor := 4; ReduceMinDifficulty := true; MinDiffReductionTime := minutes 20;
  Checkpoints := [];
  RuleChangeActivationThreshold := 108; MinerConfirmationWindow := 144;
  Deployments := [always 28 0 0; always 22 600 72; always 0 0 0; always 1 0 0; always 2 0 108]
|}.
Definition TestNet3Params : Params := {|
  GenesisHash := testNet3GenesisHash;
  PowLimit := testNet3PowLimit; PowLimitBits := 0x1d00ffff; PoWNoRetargeting := false;
  BIP0034Height := 21111; BIP0065Height := 581885; BIP0066Height := 330776;
  CoinbaseMaturity := 1; SubsidyReductionInterval := 210000;
  TargetTimespan := hours 24 * 14; TargetTimePerBlock := minutes 10;
  RetargetAdjustmentFactor := 4; ReduceMinDifficulty := true; MinDiffReductionTime := minutes 20;
  Checkpoints := [];
  RuleChangeActivationThreshold := 1512; MinerConfirmationWindow := 2016;
  Deployments := [between 28 0 0 1199145601 1230767999; always 22 100000 1815;
    between 0 0 0 1456790400 1493596800; between 1 0 0 1462060800 1493596800;
    between 2 0 1512 1619222400 1628640000]
|}.
Definition SimNetParams : Params := {|
  GenesisHash := simNetGenesisHash;
  PowLimit := simNetPowLimit; PowLimitBits := 0x207fffff; PoWNoRetargeting := false;
  BIP0034Height := 0; BIP0065Height := 0; BIP0066Height := 0;
  CoinbaseMaturity := 100; SubsidyReductionInterval := 210000;
  TargetTimespan := hours 24 * 14; TargetTimePerBlock := minutes 10;
  RetargetAdjustmentFactor := 4; ReduceMinDifficulty := true; MinDiffReductionTime := minutes 20;
  Checkpoints := [];
  RuleChangeActivationThreshold := 75; MinerConfirmationWindow := 100;
  Deployments := [always 28 0 0; always 22 600 50; always 0 0 0; always 1 0 0; always 2 0 75]
|}.
Definition CustomSignetParams : Params := {|
  GenesisHash := sigNetGenesisHash;
  PowLimit := sigNetPowLimit; PowLimitBits := 0x1e0377ae; PoWNoRetargeting := false;
  BIP0034Height := 1; BIP0065Height := 1; BIP0066Height := 1;
  CoinbaseMaturity := 100; SubsidyReductionInterval := 210000;
  TargetTimespan := hours 24 * 14; TargetTimePerBlock := minutes 10;
  RetargetAdjustmentFactor := 4; ReduceMinDifficulty := false; MinDiffReductionTime := minutes 20;
  Checkpoints := [];
  RuleChangeActivationThreshold := 1916; MinerConfirmationWindow := 2016;
  Deployments := [between 28 0 0 1199145601 1230767999; always 22 100000 1815;
    always 29 0 0; always 29 0 0; always 29 0 0]
|}.
Definition networks : list Params :=
  [MainNetParams; RegressionNetParams; TestNet3Params; SimNetParams; CustomSignetParams].
