(* ===== verification/ChainWork.v ===== *)
(** * Block chain: the difficulty of the next block

    btcd/blockchain/difficulty.go, on the nodes of ChainNode.v. *)

From Stdlib Require Import ZArith Lia.
From stdpp Require Import base numbers list strings.
From S2P Require Import Prelude ScriptNum WireBase Sighash WireMsg ChainCompress ChainError ChainNode ChainParams.

Open Scope Z_scope.

(** The loop of [calcEasiestDifficulty]; every turn takes the longest
    retarget timespan off a duration in seconds. *)
Fixpoint easiest_loop (fuel : nat) (p : Params) (durationVal newTarget : Z) : Z :=
  match fuel with
  | O => newTarget
  | S fuel =>
      if (0 <? durationVal) && (newTarget <? PowLimit p)
      then easiest_loop fuel p (durationVal - maxRetargetTimespan p)
             (newTarget * RetargetAdjustmentFactor p)
      else newTarget
  end.
Definition calcEasiestDifficulty (p : Params) (bits duration : Z) : Z :=
  if ReduceMinDifficulty p && (MinDiffReductionTime p <? duration) then PowLimitBits p else
  let newTarget := easiest_loop (S (Z.to_nat duration)) p duration (CompactToBig bits) in
  BigToCompact (Z.min newTarget (PowLimit p)).

Fixpoint prev_testnet_loop (p : Params) (n : blockNode) : Z :=
  match n with
  | mkNode par _ _ _ h _ b _ _ _ =>
      if negb (Z.rem h (blocksPerRetarget p) =? 0) && (b =? PowLimitBits p)
      then match par with Some q => prev_testnet_loop p q | None => PowLimitBits p end
      else b
  end.
Definition findPrevTestNetDifficulty (p : Params) (startNode : option blockNode) : Z :=
  match startNode with Some n => prev_testnet_loop p n | None => PowLimitBits p end.

(** [Div] of big integers is Euclidean; the divisor is positive. *)
Definition retarget (p : Params) (bits actualTimespan : Z) : Z :=
  let adjustedTimespan :=
    if actualTimespan <? minRetargetTimespan p then minRetargetTimespan p
    else if maxRetargetTimespan p <? actualTimespan then maxRetargetTimespan p
    else actualTimespan in
  let newTarget := CompactToBig bits * adjustedTimespan / TargetTimespan p in
  if PowLimit p <? newTarget then PowLimit p else newTarget.

Definition calcNextRequiredDifficulty (p : Params) (lastNode : option blockNode) (newBlockTime : Z)
    : VRes Z :=
  if PoWNoRetargeting p then VOk (PowLimitBits p) else
  match lastNode with
  | None => VOk (PowLimitBits p)
  | Some last =>
      if negb (Z.rem (int32 (n_height last + 1)) (blocksPerRetarget p) =? 0) then
        if ReduceMinDifficulty p then
          let allowMinTime := n_timestamp last + MinDiffReductionTime p in
          if allowMinTime <? newBlockTime then VOk (PowLimitBits p)
          else VOk (findPrevTestNetDifficulty p lastNode)
        else VOk (n_bits last)
      else
        match RelativeAncestor last (int32 (blocksPerRetarget p - 1)) with
        | None => VErr (AssertError "unable to obtain previous retarget block")
        | Some first =>
            VOk (BigToCompact (retarget p (n_bits last) (n_timestamp last - n_timestamp first)))
        end
  end.
