(* ===== verification/ChainWorkFacts.v ===== *)
(** * Block chain: facts about targets and difficulty

    The compact form keeps a target's leading bytes; a retarget stays within
    its bounds; on the main network of the repository the difficulty of a
    block that is later than its parent is the lowest one. *)

From Stdlib Require Import ZArith Lia.
From stdpp Require Import base numbers list strings.
From S2P Require Import Prelude ScriptNum WireBase Sighash WireMsg ChainCompress ChainError ChainNode ChainNodeFacts ChainParams ChainWork.

Open Scope Z_scope.

(** ** The compact form *)

(** The number of bytes of a positive number with room for a sign bit. *)
Definition compact_len (n : Z) : Z := (Z.log2 n + 9) / 8.

Lemma land_low a k : 0 <= k → Z.land a (2 ^ k - 1) = a mod 2 ^ k.
Proof.
  intros. change (2 ^ k - 1) with (Z.pred (2 ^ k)). by rewrite <- Z.ones_equiv, Z.land_ones.
Qed.
Lemma land_bit a k : 0 <= k → (Z.land a (2 ^ k) =? 0) = negb (Z.testbit a k).
Proof.
  intros Hk. destruct (Z.testbit a k) eqn:Hb; cbn [negb].
  - apply Z.eqb_neq. intros He. assert (Z.testbit (Z.land a (2 ^ k)) k = true) as Ht.
    { by rewrite Z.land_spec, Hb, Z.pow2_bits_true. }
    by rewrite He, Z.bits_0 in Ht.
  - apply Z.eqb_eq, Z.bits_inj'. intros i Hi. rewrite Z.land_spec, Z.bits_0, Z.pow2_bits_eqb by done.
    destruct (Z.eqb_spec k i) as [->|]; [by rewrite Hb|by rewrite andb_false_r].
Qed.
Lemma lor_shifted a b k : 0 <= k → 0 <= b < 2 ^ k → Z.lor (a * 2 ^ k) b = a * 2 ^ k + b.
Proof.
  intros Hk Hb. symmetry. apply Z.add_nocarry_lor. apply Z.bits_inj'. intros i Hi.
  rewrite Z.land_spec, Z.bits_0. destruct (Z.lt_ge_cases i k).
  - by rewrite Z.mul_pow2_bits_low.
  - rewrite <- (Z.mod_small b (2 ^ k)) by done. rewrite Z.mod_pow2_bits_high by lia. apply andb_false_r.
Qed.

(** The value of a compact number with a sign bit of zero. *)
Lemma CompactToBig_form e m :
  0 <= e → 0 <= m < 2 ^ 23 →
  CompactToBig (e * 2 ^ 24 + m) =
  if e <=? 3 then m / 2 ^ (8 * (3 - e)) else m * 2 ^ (8 * (e - 3)).
Proof.
  intros He Hm. unfold CompactToBig.
  change 0x007fffff with (2 ^ 23 - 1). change 0x00800000 with (2 ^ 23).
  assert (Hexp : Z.shiftr (e * 2 ^ 24 + m) 24 = e).
  { rewrite Z.shiftr_div_pow2 by done. rewrite Z.div_add_l, (Z.div_small m) by lia. lia. }
  assert (Hmod : (e * 2 ^ 24 + m) mod 2 ^ 23 = m).
  { replace (e * 2 ^ 24 + m) with (m + (e * 2) * 2 ^ 23) by lia. rewrite Z.mod_add, Z.mod_small; lia. }
  assert (Hbit : Z.testbit (e * 2 ^ 24 + m) 23 = false).
  { apply Z.testbit_false; [done|]. replace (e * 2 ^ 24 + m) with (m + (e * 2) * 2 ^ 23) by lia.
    rewrite Z.div_add, Z.div_small by lia. rewrite Z.add_0_l. by apply Z.mod_mul. }
  rewrite land_low, Hmod, land_bit, Hbit, Hexp by done. cbn [negb].
  destruct (Z.leb_spec e 3); [by rewrite Z.shiftr_div_pow2 by lia|by rewrite Z.shiftl_mul_pow2 by lia].
Qed.

Lemma log2_range n : 0 < n → 2 ^ Z.log2 n <= n < 2 * 2 ^ Z.log2 n.
Proof.
  intros Hn. pose proof (Z.log2_spec n Hn) as Hs. rewrite Z.pow_succ_r in Hs by apply Z.log2_nonneg. lia.
Qed.

Definition compact_mantissa (e n : Z) : Z :=
  if e <=? 3 then n * 2 ^ (8 * (3 - e)) else n / 2 ^ (8 * (e - 3)).

(** The first three bytes: the highest bit of the number is at 16 to 23. *)
Lemma mantissa_range n :
  0 < n → let L := (Z.log2 n + 8) / 8 in let r := Z.log2 n mod 8 in
  2 ^ (16 + r) <= compact_mantissa L n < 2 ^ (17 + r).
Proof.
  intros Hn L r. pose proof (log2_range n Hn) as Hr. pose proof (Z.log2_nonneg n) as Hl.
  assert (HL : Z.log2 n = 8 * (L - 1) + r /\ 0 <= r < 8 /\ 1 <= L).
  { unfold L, r. pose proof (Z.div_mod (Z.log2 n) 8 ltac:(lia)). pose proof (Z.mod_pos_bound (Z.log2 n) 8 ltac:(lia)).
    replace (Z.log2 n + 8) with (Z.log2 n + 1 * 8) by lia. rewrite Z.div_add by lia.
    pose proof (Z.div_pos (Z.log2 n) 8). lia. }
  destruct HL as (HL & Hr8 & HL1). rewrite HL in Hr. unfold compact_mantissa.
  replace (17 + r) with (16 + r + 1) by lia. rewrite (Z.pow_add_r 2 (16 + r) 1) by lia.
  destruct (Z.leb_spec L 3).
  - assert (Hp : 2 ^ (8 * (L - 1) + r) * 2 ^ (8 * (3 - L)) = 2 ^ (16 + r)).
    { rewrite <- Z.pow_add_r by lia. f_equal. lia. }
    assert (0 < 2 ^ (8 * (3 - L))) by (apply Z.pow_pos_nonneg; lia). nia.
  - assert (Hp : 2 ^ (16 + r) * 2 ^ (8 * (L - 3)) = 2 ^ (8 * (L - 1) + r)).
    { rewrite <- Z.pow_add_r by lia. f_equal. lia. }
    assert (0 < 2 ^ (8 * (L - 3))) by (apply Z.pow_pos_nonneg; lia).
    split; [apply Z.div_le_lower_bound; nia|apply Z.div_lt_upper_bound; nia].
Qed.

Lemma mantissa_next e n :
  0 < n → 0 <= e → compact_mantissa e n / 2 ^ 8 = compact_mantissa (e + 1) n.
Proof.
  intros Hn He. unfold compact_mantissa.
  destruct (Z.leb_spec e 3) as [H3|H3]; destruct (Z.leb_spec (e + 1) 3) as [H4|H4]; try lia.
  - replace (8 * (3 - e)) with (8 * (3 - (e + 1)) + 8) by lia. rewrite Z.pow_add_r, Z.mul_assoc by lia.
    by apply Z.div_mul.
  - assert (e = 3) as -> by lia. cbn. by rewrite Z.mul_1_r.
  - rewrite Z.div_div, <- Z.pow_add_r by lia. do 2 f_equal. lia.
Qed.

Lemma compact_len_carry n :
  0 < n → compact_len n = (Z.log2 n + 8) / 8 + (if Z.log2 n mod 8 =? 7 then 1 else 0).
Proof.
  intros Hn. unfold compact_len. pose proof (Z.log2_nonneg n).
  pose proof (Z.div_mod (Z.log2 n) 8 ltac:(lia)) as Hd. pose proof (Z.mod_pos_bound (Z.log2 n) 8 ltac:(lia)).
  replace (Z.log2 n + 8) with (Z.log2 n + 1 * 8) by lia. rewrite Z.div_add by lia.
  destruct (Z.eqb_spec (Z.log2 n mod 8) 7); symmetry; apply Z.div_unique with ((Z.log2 n + 9) - 8 * (Z.log2 n / 8 + 1 + (if Z.log2 n mod 8 =? 7 then 1 else 0)));
    destruct (Z.eqb_spec (Z.log2 n mod 8) 7); lia.
Qed.

Lemma BigToCompact_form n :
  0 < n → compact_len n < 256 →
  BigToCompact n = compact_len n * 2 ^ 24 + compact_mantissa (compact_len n) n ∧
  0 < compact_mantissa (compact_len n) n < 2 ^ 23.
Proof.
  intros Hn He. pose proof (mantissa_range n Hn) as Hm. cbn zeta in Hm.
  pose proof (compact_len_carry n Hn) as Hc. pose proof (Z.log2_nonneg n) as Hl.
  pose proof (Z.mod_pos_bound (Z.log2 n) 8 ltac:(lia)) as Hr.
  unfold BigToCompact, byte_len. rewrite Z.abs_eq by lia.
  destruct (Z.eqb_spec n 0); [lia|]. destruct (Z.ltb_spec n 0); [lia|].
  set (L := (Z.log2 n + 8) / 8) in *. set (r := Z.log2 n mod 8) in *.
  assert (HL : 1 <= L) by (apply Z.div_le_lower_bound; lia).
  assert (Hlt24 : 2 ^ (17 + r) <= 2 ^ 24) by (apply Z.pow_le_mono_r; lia).
  assert (Hmant : (if L <=? 3 then uint32 (Z.shiftl (uint32 n) (8 * (3 - L)))
                   else uint32 (Z.abs (Z.shiftr n (8 * (L - 3))))) = compact_mantissa L n).
  { unfold compact_mantissa in *. destruct (Z.leb_spec L 3).
    - rewrite Z.shiftl_mul_pow2 by lia.
      assert (0 < 2 ^ (8 * (3 - L))) by (apply Z.pow_pos_nonneg; lia).
      rewrite (wrap_u_id 32 n) by nia. apply wrap_u_id. lia.
    - rewrite Z.shiftr_div_pow2 by lia. rewrite Z.abs_eq by lia. apply wrap_u_id. lia. }
  rewrite Hmant. change 0x00800000 with (2 ^ 23). rewrite land_bit by done. rewrite negb_involutive.
  assert (Hbit : Z.testbit (compact_mantissa L n) 23 = (r =? 7)).
  { rewrite Z.testbit_eqb by done. destruct (Z.eqb_spec r 7) as [E|E].
    - rewrite E in Hm. apply Z.eqb_eq.
      assert (compact_mantissa L n / 2 ^ 23 = 1) as ->; [|done].
      symmetry. apply Z.div_unique with (compact_mantissa L n - 2 ^ 23); lia.
    - rewrite Z.div_small; [done|]. assert (2 ^ (17 + r) <= 2 ^ 23) by (apply Z.pow_le_mono_r; lia). lia. }
  rewrite Hbit, Hc.
  assert (Hp16 : 2 ^ 16 <= 2 ^ (16 + r)) by (apply Z.pow_le_mono_r; lia).
  destruct (Z.eqb_spec r 7) as [E|E].
  - rewrite Z.shiftr_div_pow2, mantissa_next by lia. change (2 ^ 8) with 256.
    assert (Hb : 2 ^ 8 <= compact_mantissa (L + 1) n < 2 ^ 16).
    { rewrite <- mantissa_next by lia. split; [apply Z.div_le_lower_bound; lia|apply Z.div_lt_upper_bound; lia]. }
    split; [|lia]. rewrite Z.shiftl_mul_pow2 by done. rewrite wrap_u_id by lia. apply lor_shifted; lia.
  - rewrite Z.add_0_r in Hc |- *. assert (2 ^ (17 + r) <= 2 ^ 23) by (apply Z.pow_le_mono_r; lia).
    split; [|lia]. rewrite Z.shiftl_mul_pow2 by done. rewrite wrap_u_id by lia. apply lor_shifted; lia.
Qed.

Lemma compact_len_256 n : 0 < n → n < 2 ^ 256 → 1 <= compact_len n < 256.
Proof.
  intros Hn Hl. apply Z.log2_lt_pow2 in Hl; [|done]. pose proof (Z.log2_nonneg n). unfold compact_len.
  split; [apply Z.div_le_lower_bound; lia|apply Z.div_lt_upper_bound; lia].
Qed.

(** The bits that the compact form drops. *)
Definition dropped (n : Z) : Z := if compact_len n <=? 3 then 0 else 8 * (compact_len n - 3).

Lemma dropped_log n : 0 < n → 0 <= dropped n /\ (dropped n = 0 \/ dropped n + 15 <= Z.log2 n).
Proof.
  intros Hn. unfold dropped. pose proof (Z.log2_nonneg n). destruct (Z.leb_spec (compact_len n) 3); [lia|].
  split; [lia|right]. unfold compact_len.
  pose proof (Z.mul_div_le (Z.log2 n + 9) 8 ltac:(lia)). lia.
Qed.

Lemma compact_value n :
  0 < n → n < 2 ^ 256 → CompactToBig (BigToCompact n) = n / 2 ^ dropped n * 2 ^ dropped n.
Proof.
  intros Hn Hl. pose proof (compact_len_256 n Hn Hl) as Hc.
  destruct (BigToCompact_form n Hn) as [-> Hm]; [lia|].
  rewrite CompactToBig_form by lia. unfold compact_mantissa, dropped.
  destruct (Z.leb_spec (compact_len n) 3).
  - rewrite Z.div_mul by (apply Z.pow_nonzero; lia). change (2 ^ 0) with 1. by rewrite Z.div_1_r, Z.mul_1_r.
  - done.
Qed.

Lemma div_mul_range n d : 0 < d → n - d < n / d * d <= n.
Proof. intros Hd. pose proof (Z.div_mod n d ltac:(lia)). pose proof (Z.mod_pos_bound n d Hd). lia. Qed.

Lemma compact_close n :
  0 < n → n < 2 ^ 256 →
  let t := CompactToBig (BigToCompact n) in 0 < t <= n /\ (n - t) * 2 ^ 15 < n /\ Z.log2 t = Z.log2 n.
Proof.
  intros Hn Hl t. unfold t. rewrite compact_value by done.
  destruct (dropped_log n Hn) as [Hd0 Hd]. pose proof (Z.log2_nonneg n) as Hln.
  assert (Hp : 0 < 2 ^ dropped n) by (apply Z.pow_pos_nonneg; lia).
  pose proof (div_mul_range n (2 ^ dropped n) Hp) as Hr. pose proof (log2_range n Hn) as Hlr.
  assert (Hge : 2 ^ Z.log2 n <= n / 2 ^ dropped n * 2 ^ dropped n).
  { destruct Hd as [->|Hd]; [change (2 ^ 0) with 1; rewrite Z.div_1_r; lia|].
    replace (Z.log2 n) with (Z.log2 n - dropped n + dropped n) at 1 by lia.
    rewrite Z.pow_add_r by lia. apply Z.mul_le_mono_nonneg_r; [lia|].
    apply Z.div_le_lower_bound; [done|]. rewrite <- Z.pow_add_r by lia.
    replace (dropped n + (Z.log2 n - dropped n)) with (Z.log2 n) by lia. lia. }
  assert (Hpos : 0 < 2 ^ Z.log2 n) by (apply Z.pow_pos_nonneg; lia). split_and!; [lia|lia| |].
  - destruct Hd as [He|Hd].
    + rewrite He in *. change (2 ^ 0) with 1 in *. rewrite Z.div_1_r in *. lia.
    + assert (2 ^ dropped n * 2 ^ 15 <= 2 ^ Z.log2 n).
      { rewrite <- Z.pow_add_r by lia. apply Z.pow_le_mono_r; lia. }
      nia.
  - apply Z.log2_unique; [done|]. rewrite Z.pow_succ_r by done. lia.
Qed.

Lemma compact_again n :
  0 < n → n < 2 ^ 256 → BigToCompact (CompactToBig (BigToCompact n)) = BigToCompact n.
Proof.
  intros Hn Hl. destruct (compact_close n Hn Hl) as (Ht & _ & Hlog).
  assert (Hlen : compact_len (CompactToBig (BigToCompact n)) = compact_len n)
    by (unfold compact_len; by rewrite Hlog).
  pose proof (compact_len_256 n Hn Hl).
  destruct (BigToCompact_form n Hn) as [Hf _]; [lia|].
  destruct (BigToCompact_form (CompactToBig (BigToCompact n))) as [Hf' _]; [lia|lia|].
  rewrite Hf', Hlen, Hf. f_equal. rewrite <- Hf, compact_value by done.
  unfold compact_mantissa, dropped. destruct (Z.leb_spec (compact_len n) 3).
  - change (2 ^ 0) with 1. by rewrite Z.div_1_r, Z.mul_1_r.
  - apply Z.div_mul, Z.pow_nonzero; lia.
Qed.

(** The compact form of a target below 2^256 stands for a target that is
    not above it and less than one part in 2^15 below it, has that target's
    compact form as its own, and the work it stands for is the expected
    number of hashes; a lower target is at least as much work. *)
Theorem compact_roundtrip n m :
  0 < n → n <= m → m < 2 ^ 256 →
  let t := CompactToBig (BigToCompact n) in
  0 < t <= n ∧ (n - t) * 2 ^ 15 < n ∧ BigToCompact t = BigToCompact n ∧
  CalcWork (BigToCompact n) = 2 ^ 256 / (t + 1) ∧
  (t <= CompactToBig (BigToCompact m) → CalcWork (BigToCompact m) <= CalcWork (BigToCompact n)).
Proof.
  intros Hn Hm Hl t. destruct (compact_close n Hn) as (Ht & Hc & _); [lia|].
  destruct (compact_close m) as (Htm & _); [lia..|].
  assert (Hw : ∀ k, 0 < CompactToBig k → CalcWork k = 2 ^ 256 / (CompactToBig k + 1)).
  { intros k Hk. unfold CalcWork. destruct (Z.leb_spec (CompactToBig k) 0); [lia|]. done. }
  split_and!; [lia|lia|done|by apply compact_again; lia|apply Hw; lia|].
  intros Hle. unfold t in *. rewrite !Hw by lia. apply Z.div_le_compat_l; lia.
Qed.

(** ** The next difficulty *)

Lemma network_params p :
  p ∈ networks → TargetTimespan p = 1209600 ∧ minRetargetTimespan p = 302400 ∧
    maxRetargetTimespan p = 4838400 ∧ blocksPerRetarget p = 2016 ∧ 0 < PowLimit p < 2 ^ 256.
Proof. intros Hp. repeat (apply elem_of_cons in Hp as [->|Hp]; [done|]). by apply elem_of_nil in Hp. Qed.

Lemma retarget_range p bits span :
  p ∈ networks → 0 < CompactToBig bits →
  retarget p bits span <= PowLimit p ∧ retarget p bits span <= 4 * CompactToBig bits ∧
  Z.min (CompactToBig bits / 4) (PowLimit p) <= retarget p bits span.
Proof.
  intros Hp Hb. destruct (network_params p Hp) as (Ht & Hmin & Hmax & _ & Hl). unfold retarget.
  set (old := CompactToBig bits) in *. rewrite Ht, Hmin, Hmax.
  assert (Hr : ∀ a, 302400 <= a <= 4838400 → old / 4 <= old * a / 1209600 <= 4 * old).
  { intros a Ha. split.
    - replace (old / 4) with (old * 302400 / 1209600); [apply Z.div_le_mono; nia|].
      change 1209600 with (4 * 302400). by apply Z.div_mul_cancel_r.
    - apply Z.div_le_upper_bound; nia. }
  set (a := if span <? 302400 then _ else _). assert (Ha : 302400 <= a <= 4838400).
  { unfold a. destruct (Z.ltb_spec span 302400); [|destruct (Z.ltb_spec 4838400 span)]; lia. }
  specialize (Hr a Ha). destruct (Z.ltb_spec (PowLimit p) (old * a / 1209600)); lia.
Qed.

(** C26. At the end of a retarget period the next difficulty is found (the
    first block of the period is there), its target is not above the
    proof-of-work limit nor above four times the last one, and it is at
    least a quarter of the last one (or the limit), up to what the compact
    form drops. *)
Theorem retarget_bounds p n t :
  p ∈ networks → PoWNoRetargeting p = false → linked n → n_height n + 1 < 2 ^ 31 →
  (n_height n + 1) mod 2016 = 0 → 4 <= CompactToBig (n_bits n) →
  ∃ bits, calcNextRequiredDifficulty p (Some n) t = VOk bits ∧
    CompactToBig bits <= PowLimit p ∧ CompactToBig bits <= 4 * CompactToBig (n_bits n) ∧
    Z.min (CompactToBig (n_bits n) / 4) (PowLimit p) * (2 ^ 15 - 1) < CompactToBig bits * 2 ^ 15.
Proof.
  intros Hp Hno Hn Hh Hmod Hold. destruct (network_params p Hp) as (_ & _ & _ & Hbpr & Hl).
  pose proof (linked_height n Hn). unfold calcNextRequiredDifficulty. rewrite Hno, Hbpr.
  rewrite wrap_s_id by (cbn; lia). rewrite Z.rem_mod_nonneg, Hmod by lia. cbn [Z.eqb negb].
  unfold RelativeAncestor. change (int32 (2016 - 1)) with 2015.
  assert (2015 <= n_height n).
  { pose proof (Z.div_mod (n_height n + 1) 2016 ltac:(lia)) as Hd. rewrite Hmod in Hd.
    assert (0 < (n_height n + 1) / 2016) by nia. lia. }
  rewrite wrap_s_id by (cbn; lia). rewrite Ancestor_at by done.
  destruct (ancestor_at_ok n (n_height n - 2015) Hn) as (a & -> & _); [lia|].
  eexists. split; [done|]. set (span := n_timestamp n - n_timestamp a).
  destruct (retarget_range p (n_bits n) span Hp) as (H1 & H2 & H3); [lia|].
  assert (1 <= CompactToBig (n_bits n) / 4) by (apply Z.div_le_lower_bound; lia).
  destruct (compact_close (retarget p (n_bits n) span)) as (Hc1 & Hc2 & _); [lia..|]. lia.
Qed.

(** On the main network of this repository, between retargets, every
    block that is later than its parent has the lowest difficulty: its
    parameters reduce the difficulty after no time at all. *)
Theorem main_net_lowest_difficulty n t :
  linked n → n_height n + 1 < 2 ^ 31 → (n_height n + 1) mod 2016 ≠ 0 → n_timestamp n < t →
  calcNextRequiredDifficulty MainNetParams (Some n) t = VOk 0x1d00ffff.
Proof.
  intros Hn Hh Hmod Ht. pose proof (linked_height n Hn). unfold calcNextRequiredDifficulty.
  change (blocksPerRetarget MainNetParams) with 2016. cbn [PoWNoRetargeting MainNetParams].
  rewrite wrap_s_id by (cbn; lia). rewrite Z.rem_mod_nonneg by lia.
  destruct (Z.eqb_spec ((n_height n + 1) mod 2016) 0); [done|]. cbn [negb].
  cbn [ReduceMinDifficulty MinDiffReductionTime PowLimitBits MainNetParams].
  destruct (Z.ltb_spec (n_timestamp n + 0) t); [done|lia].
Qed.
