(* ===== verification/ChainGenesis.v ===== *)
(** * The genesis blocks

    btcd/chaincfg/genesis.go: the first block of each network, checked
    against the hash that the network's parameters name. *)

From Stdlib Require Import ZArith Lia.
From stdpp Require Import base numbers list strings.
From S2P Require Import Prelude ScriptNum WireBase WireTx Sighash GoHash WireMsg ChainCompress ChainUtxo ChainError ChainNode ChainParams.

Open Scope Z_scope.

Definition genesisCoinbaseTx : MsgTx := mkMsgTx 1
  [mkTxIn (mkOutPoint (replicate 32 0) 0xffffffff)
    [0x04; 0xff; 0xff; 0x00; 0x1d; 0x01; 0x04; 0x45; 0x54; 0x68; 0x65; 0x20;
     0x54; 0x69; 0x6d; 0x65; 0x73; 0x20; 0x30; 0x33; 0x2f; 0x4a; 0x61; 0x6e;
     0x2f; 0x32; 0x30; 0x30; 0x39; 0x20; 0x43; 0x68; 0x61; 0x6e; 0x63; 0x65;
     0x6c; 0x6c; 0x6f; 0x72; 0x20; 0x6f; 0x6e; 0x20; 0x62; 0x72; 0x69; 0x6e;
     0x6b; 0x20; 0x6f; 0x66; 0x20; 0x73; 0x65; 0x63; 0x6f; 0x6e; 0x64; 0x20;
     0x62; 0x61; 0x69; 0x6c; 0x6f; 0x75; 0x74; 0x20; 0x66; 0x6f; 0x72; 0x20;
     0x62; 0x61; 0x6e; 0x6b; 0x73]
    [] 0xffffffff]
  [mkTxOut 0x12a05f200
    [0x41; 0x04; 0x67; 0x8a; 0xfd; 0xb0; 0xfe; 0x55; 0x48; 0x27; 0x19; 0x67;
     0xf1; 0xa6; 0x71; 0x30; 0xb7; 0x10; 0x5c; 0xd6; 0xa8; 0x28; 0xe0; 0x39;
     0x09; 0xa6; 0x79; 0x62; 0xe0; 0xea; 0x1f; 0x61; 0xde; 0xb6; 0x49; 0xf6;
     0xbc; 0x3f; 0x4c; 0xef; 0x38; 0xc4; 0xf3; 0x55; 0x04; 0xe5; 0x1e; 0xc1;
     0x12; 0xde; 0x5c; 0x38; 0x4d; 0xf7; 0xba; 0x0b; 0x8d; 0x57; 0x8a; 0x4c;
     0x70; 0x2b; 0x6b; 0xf1; 0x1d; 0x5f; 0xac]]
  0.

Definition genesisMerkleRoot : Hash :=
  [0x3b; 0xa3; 0xed; 0xfd; 0x7a; 0x7b; 0x12; 0xb2; 0x7a; 0xc7; 0x2c; 0x3e;
   0x67; 0x76; 0x8f; 0x61; 0x7f; 0xc8; 0x1b; 0xc3; 0x88; 0x8a; 0x51; 0x32;
   0x3a; 0x9f; 0xb8; 0xaa; 0x4b; 0x1e; 0x5e; 0x4a].

Definition genesis_block (timestamp bits nonce : Z) : MsgBlock :=
  mkMsgBlock (mkBlockHeader 1 (replicate 32 0) genesisMerkleRoot timestamp bits nonce)
    [genesisCoinbaseTx].
Definition genesisBlock : MsgBlock := genesis_block 0x495fab29 0x1d00ffff 4081236883.
Definition regTestGenesisBlock : MsgBlock := genesis_block 1296688602 0x207fffff 2.
Definition testNet3GenesisBlock : MsgBlock := genesis_block 1296688602 0x1d00ffff 324068448.
Definition simNetGenesisBlock : MsgBlock := genesis_block 1401292357 0x207fffff 2.
Definition sigNetGenesisBlock : MsgBlock := genesis_block 1598918400 0x1e0377ae 52613770.

Definition hash_is (b : MsgBlock) (h : Hash) : bool := bool_decide (BlockHash (Header b) = h).
Definition meets_target (b : MsgBlock) : bool :=
  HashToBig (BlockHash (Header b)) <=? CompactToBig (Bits (Header b)).

(** The merkle root of the genesis blocks is the hash of their
    transaction.  The regression, simulation and signet blocks have the hash
    that their parameters name and meet their target.  Those of the main
    network and of the test network do not: their nonces were changed, the
    hashes in the parameters were not, and neither block has the work its
    header claims. *)
Theorem genesis_hashes :
  TxHash genesisCoinbaseTx = genesisMerkleRoot ∧
  (hash_is regTestGenesisBlock (GenesisHash RegressionNetParams) &&
   hash_is simNetGenesisBlock (GenesisHash SimNetParams) &&
   hash_is sigNetGenesisBlock (GenesisHash CustomSignetParams) &&
   meets_target regTestGenesisBlock && meets_target simNetGenesisBlock &&
   meets_target sigNetGenesisBlock = true) ∧
  (hash_is genesisBlock (GenesisHash MainNetParams) ||
   hash_is testNet3GenesisBlock (GenesisHash TestNet3Params) ||
   meets_target genesisBlock || meets_target testNet3GenesisBlock = false).
Proof. split_and!; vm_compute; reflexivity. Qed.
