(* ===== verification/ChainThreshold.v ===== *)
(** * Block chain: rule change deployments

    btcd/blockchain/thresholdstate.go, versionbits.go and
    btcd/chaincfg/deployment_time_frame.go.  The interface of the checkers is
    a record of operations; what a checker's condition changes (the caches of
    the deployments, for the unknown bits) is the state [σ]. *)

From Stdlib Require Import ZArith Lia.
From stdpp Require Import base numbers list strings gmap.
From S2P Require Import Prelude ScriptNum WireBase WireTx ScriptToken Sighash WireMsg ChainCompress ChainUtxo ChainError ChainNode ChainParams.

Open Scope Z_scope.

Inductive ThresholdState :=
  | ThresholdDefined | ThresholdStarted | ThresholdLockedIn | ThresholdActive | ThresholdFailed.
#[export] Instance ThresholdState_eq_dec : EqDecision ThresholdState.
Proof. solve_decision. Defined.

(** The interface [thresholdConditionChecker]. *)
Record thresholdConditionChecker (σ : Type) := mkChecker {
  c_HasStarted : blockNode → bool;
  c_HasEnded : blockNode → bool;
  c_RuleChangeActivationThreshold : Z;            (* uint32 *)
  c_MinerConfirmationWindow : Z;                  (* uint32 *)
  c_EligibleToActivate : blockNode → bool;
  c_IsSpeedy : bool;
  c_Condition : blockNode → σ → VRes bool * σ
}.
Arguments c_HasStarted {σ}.
Arguments c_HasEnded {σ}.
Arguments c_RuleChangeActivationThreshold {σ}.
Arguments c_MinerConfirmationWindow {σ}.
Arguments c_EligibleToActivate {σ}.
Arguments c_IsSpeedy {σ}.
Arguments c_Condition {σ}.

Abbreviation thresholdStateCache := (gmap Hash ThresholdState).

Section Checker.
Context {σ : Type} (checker : thresholdConditionChecker σ).

(** The loop that counts the blocks of a window that vote; going back past
    the first block is a panic. *)
Fixpoint count_votes (k : nat) (countNode : option blockNode) (count : Z) (s : σ) : VRes Z * σ :=
  match k with
  | O => (VOk count, s)
  | S k =>
      match countNode with
      | None => (VCrash, s)
      | Some n =>
          match c_Condition checker n s with
          | (VOk b, s) => count_votes k (parent n) (if b : bool then uint32 (count + 1) else count) s
          | (VErr e, s) => (VErr e, s)
          | (VCrash, s) => (VCrash, s)
          end
      end
  end.

Definition thresholdStateTransition (state : ThresholdState) (prevNode : blockNode)
    (confirmationWindow : Z) (s : σ) : VRes ThresholdState * σ :=
  match state with
  | ThresholdDefined =>
      (VOk (if negb (c_IsSpeedy checker) && c_HasEnded checker prevNode then ThresholdFailed
            else if c_HasStarted checker prevNode then ThresholdStarted else ThresholdDefined), s)
  | ThresholdStarted =>
      if negb (c_IsSpeedy checker) && c_HasEnded checker prevNode then (VOk ThresholdFailed, s) else
      match count_votes (Z.to_nat confirmationWindow) (Some prevNode) 0 s with
      | (VOk count, s) =>
          (VOk (if c_RuleChangeActivationThreshold checker <=? count then ThresholdLockedIn
                else if c_IsSpeedy checker && c_HasEnded checker prevNode then ThresholdFailed
                else ThresholdStarted), s)
      | (VErr e, s) => (VErr e, s)
      | (VCrash, s) => (VCrash, s)
      end
  | ThresholdLockedIn =>
      (VOk (if c_EligibleToActivate checker prevNode then ThresholdActive else ThresholdLockedIn), s)
  | ThresholdActive => (VOk ThresholdActive, s)
  | ThresholdFailed => (VOk ThresholdFailed, s)
  end.

(** The walk back over the windows: the nodes whose states are needed, the
    node where it stops, and the cache.  Heights fall by a window, so the
    height is fuel enough. *)
Fixpoint needed_states (fuel : nat) (window : Z) (prevNode : option blockNode)
    (neededStates : list blockNode) (cache : thresholdStateCache)
    : option (list blockNode * option blockNode * thresholdStateCache) :=
  match prevNode with
  | None => Some (neededStates, None, cache)
  | Some n =>
      match fuel with
      | O => None
      | S fuel =>
          match cache !! n_hash n with
          | Some _ => Some (neededStates, Some n, cache)
          | None =>
              if negb (c_HasStarted checker n)
              then Some (neededStates, Some n, <[n_hash n := ThresholdDefined]> cache)
              else needed_states fuel window (RelativeAncestor n window) (n :: neededStates) cache
          end
      end
  end.

(** The states of the needed nodes, the oldest first. *)
Fixpoint run_states (needed : list blockNode) (window : Z) (state : ThresholdState)
    (cache : thresholdStateCache) (s : σ) : VRes ThresholdState * thresholdStateCache * σ :=
  match needed with
  | [] => (VOk state, cache, s)
  | n :: needed =>
      match thresholdStateTransition state n window s with
      | (VOk state, s) => run_states needed window state (<[n_hash n := state]> cache) s
      | (VErr e, s) => (VErr e, cache, s)
      | (VCrash, s) => (VCrash, cache, s)
      end
  end.

(** A window of zero blocks is a division by zero. *)
Definition thresholdState (prevNode : option blockNode) (cache : thresholdStateCache) (s : σ)
    : VRes ThresholdState * thresholdStateCache * σ :=
  let window := int32 (c_MinerConfirmationWindow checker) in
  match prevNode with
  | None => (VOk ThresholdDefined, cache, s)
  | Some n =>
      if int32 (n_height n + 1) <? window then (VOk ThresholdDefined, cache, s) else
      if window =? 0 then (VCrash, cache, s) else
      let start := Ancestor n (int32 (n_height n - Z.rem (int32 (n_height n + 1)) window)) in
      match needed_states (S (Z.to_nat (n_height n))) window start [] cache with
      | None => (VCrash, cache, s)
      | Some (needed, stop, cache) =>
          match stop with
          | None => run_states needed window ThresholdDefined cache s
          | Some m =>
              match cache !! n_hash m with
              | Some state => run_states needed window state cache s
              | None => (VErr (AssertError "thresholdState: cache lookup failed"), cache, s)
              end
          end
      end
  end.
End Checker.

(** ** The checkers *)

Definition vbTopBits : Z := 0x20000000.
Definition vbTopMask : Z := 0xe0000000.
Definition vbNumBits : nat := 29.

Section Deployments.
Context `{Sha} (params : Params) (bi : blockIndex).

(** The clock of the deployments, once they are given the chain. *)
Definition PastMedianTime (blockHeader : BlockHeader) : VRes Z :=
  match LookupNode bi (PrevBlock blockHeader) with
  | None => VErr (OtherError "no previous node")
  | Some prevNode => CalcPastMedianTime (Some (newBlockNode blockHeader (Some prevNode)))
  end.

(** Without a clock neither has happened, and both return an error. *)
Definition HasStarted (clock : option (BlockHeader → VRes Z)) (d : ConsensusDeployment)
    (blkHeader : BlockHeader) : VRes bool :=
  match clock with
  | None => VErr (OtherError "no block clock synchronized")
  | Some PastMedianTime =>
      match startTime d with
      | None => VOk true
      | Some start => medianTime ← PastMedianTime blkHeader; VOk (start <=? medianTime)
      end
  end.
Definition HasEnded (clock : option (BlockHeader → VRes Z)) (d : ConsensusDeployment)
    (blkHeader : BlockHeader) : VRes bool :=
  match clock with
  | None => VErr (OtherError "no block clock synchronized")
  | Some PastMedianTime =>
      match endTime d with
      | None => VOk false
      | Some finish => medianTime ← PastMedianTime blkHeader; VOk (finish <=? medianTime)
      end
  end.

(** The checkers drop the error and keep the false that comes with it. *)
Definition dropped_error (r : VRes bool) : bool := match r with VOk b => b | _ => false end.

Definition version_votes (node : blockNode) (bit : Z) : bool :=
  let version := uint32 (n_version node) in
  (Z.land version vbTopMask =? vbTopBits) && negb (Z.land version (uint32 (Z.shiftl 1 bit)) =? 0).

Definition deploymentChecker {σ} (d : ConsensusDeployment) : thresholdConditionChecker σ := {|
  c_HasStarted := λ n, dropped_error (HasStarted (Some PastMedianTime) d (node_Header n));
  c_HasEnded := λ n, dropped_error (HasEnded (Some PastMedianTime) d (node_Header n));
  c_RuleChangeActivationThreshold :=
    if negb (CustomActivationThreshold d =? 0) then CustomActivationThreshold d
    else RuleChangeActivationThreshold params;
  c_MinerConfirmationWindow := MinerConfirmationWindow params;
  c_EligibleToActivate := λ n,
    if MinActivationHeight d =? 0 then true
    else MinActivationHeight d <=? uint32 (uint32 (n_height n) + 1);
  c_IsSpeedy := negb (MinActivationHeight d =? 0) || negb (CustomActivationThreshold d =? 0);
  c_Condition := λ n s, (VOk (version_votes n (BitNumber d)), s)
|}.

(** The caches of the deployments. *)
Abbreviation caches := (list thresholdStateCache).

(** An index that is out of range is a panic: the guard lets one through. *)
Definition deploymentState (prevNode : option blockNode) (deploymentID : nat) (cs : caches)
    : VRes ThresholdState * caches :=
  if (length (Deployments params) <? deploymentID)%nat
  then (VErr (DeploymentError (Z.of_nat deploymentID)), cs) else
  match Deployments params !! deploymentID, cs !! deploymentID with
  | Some d, Some cache =>
      let '(r, cache, _) := thresholdState (deploymentChecker d) prevNode cache tt in
      (r, <[deploymentID := cache]> cs)
  | _, _ => (VCrash, cs)
  end.

Fixpoint version_loop (ds : list ConsensusDeployment) (id : nat) (prevNode : option blockNode)
    (expectedVersion : Z) (cs : caches) : VRes Z * caches :=
  match ds with
  | [] => (VOk expectedVersion, cs)
  | d :: ds =>
      match cs !! id with
      | None => (VCrash, cs)
      | Some cache =>
          let '(r, cache, _) := thresholdState (deploymentChecker d) prevNode cache tt in
          let cs := <[id := cache]> cs in
          match r with
          | VOk state =>
              let bit := uint32 (Z.shiftl 1 (BitNumber d)) in
              version_loop ds (S id) prevNode
                (match state with
                 | ThresholdStarted | ThresholdLockedIn => Z.lor expectedVersion bit
                 | _ => expectedVersion
                 end) cs
          | VErr e => (VErr e, cs)
          | VCrash => (VCrash, cs)
          end
      end
  end.
Definition calcNextBlockVersion (prevNode : option blockNode) (cs : caches) : VRes Z * caches :=
  match version_loop (Deployments params) 0 prevNode vbTopBits cs with
  | (VOk v, cs) => (VOk (int32 v), cs)
  | r => r
  end.

Definition bitConditionChecker (bit : Z) : thresholdConditionChecker caches := {|
  c_HasStarted := λ _, true;
  c_HasEnded := λ _, false;
  c_RuleChangeActivationThreshold := RuleChangeActivationThreshold params;
  c_MinerConfirmationWindow := MinerConfirmationWindow params;
  c_EligibleToActivate := λ _, true;
  c_IsSpeedy := false;
  c_Condition := λ n cs,
    if negb (version_votes n bit) then (VOk false, cs) else
    match calcNextBlockVersion (parent n) cs with
    | (VOk expectedVersion, cs) =>
        (VOk (Z.land (uint32 expectedVersion) (uint32 (Z.shiftl 1 bit)) =? 0), cs)
    | (VErr e, cs) => (VErr e, cs)
    | (VCrash, cs) => (VCrash, cs)
    end
|}.
End Deployments.
