(* ===== verification/ChainThresholdFacts.v ===== *)
(** * Block chain: facts about rule change deployments

    The cached walk over the windows computes the state machine of the
    deployment, one step per window; an active deployment stays active. *)

From Stdlib Require Import ZArith Lia.
From stdpp Require Import base numbers list strings gmap.
From S2P Require Import Prelude ScriptNum WireBase WireTx ScriptToken Sighash WireMsg ChainCompress ChainUtxo ChainError ChainNode ChainNodeFacts ChainParams ChainThreshold.

Open Scope Z_scope.

(** Nodes of an index: linked, closed under parents, named by their hashes. *)
Class Known (known : blockNode → Prop) := {
  known_linked n : known n → linked n;
  known_parent n p : known n → parent n = Some p → known p;
  known_hash n m : known n → known m → n_hash n = n_hash m → n = m
}.

Lemma known_nth known `{!Known known} k n a : known n → nth_parent k n = Some a → known a.
Proof.
  revert n. induction k as [|k IH]; intros n Hn; cbn; [by intros [= <-]|].
  destruct (parent n) as [p|] eqn:Hp; [|done]. intros Ha. eapply IH; [|exact Ha]. by eapply known_parent.
Qed.

(** ** The state machine, one step per window *)

Section Machine.
Context {σ : Type} (checker : thresholdConditionChecker σ).
Context (known : blockNode → Prop) `{!Known known}.
(** The condition is a function of the node, whatever the state of the
    caches it uses, as long as they are right. *)
Context (cond : blockNode → bool) (Inv : σ → Prop).
Context (cond_ok : ∀ n s, known n → Inv s → ∃ s', c_Condition checker n s = (VOk (cond n), s') ∧ Inv s').
Context (window : Z) (window_ok : c_MinerConfirmationWindow checker = window) (window_pos : 0 < window < 2 ^ 31).

Fixpoint last_nodes (k : nat) (n : option blockNode) : list blockNode :=
  match k, n with S k, Some n => n :: last_nodes k (parent n) | _, _ => [] end.
Definition votes (n : blockNode) : Z := zlen (filter (λ m, cond m = true) (last_nodes (Z.to_nat window) (Some n))).

Definition step_state (state : ThresholdState) (n : blockNode) : ThresholdState :=
  let ended := c_HasEnded checker n in
  match state with
  | ThresholdDefined =>
      if negb (c_IsSpeedy checker) && ended then ThresholdFailed
      else if c_HasStarted checker n then ThresholdStarted else ThresholdDefined
  | ThresholdStarted =>
      if negb (c_IsSpeedy checker) && ended then ThresholdFailed
      else if c_RuleChangeActivationThreshold checker <=? votes n then ThresholdLockedIn
      else if ended then ThresholdFailed else ThresholdStarted
  | ThresholdLockedIn => if c_EligibleToActivate checker n then ThresholdActive else ThresholdLockedIn
  | s => s
  end.

(** The state after the window that ends in a node, the [k]th. *)
Fixpoint state_at (k : nat) (n : blockNode) : ThresholdState :=
  match k with
  | O => ThresholdDefined
  | S k =>
      if c_HasStarted checker n then
        step_state (match nth_parent (Z.to_nat window) n with
                    | Some m => state_at k m
                    | None => ThresholdDefined
                    end) n
      else ThresholdDefined
  end.
Definition ends_window (k : nat) (n : blockNode) : Prop := n_height n + 1 = Z.of_nat (S k) * window.

(** The state for the block after a node: that of the last window that ended. *)
Definition state_after (n : blockNode) : ThresholdState :=
  let k := (n_height n + 1) / window in
  match ancestor_at n (k * window - 1) with
  | Some m => state_at (Z.to_nat k) m
  | None => ThresholdDefined
  end.

Lemma ends_window_ge k n : ends_window k n → window <= n_height n + 1.
Proof. unfold ends_window. nia. Qed.

Lemma ends_first n : ends_window 0 n → n_height n = window - 1.
Proof. unfold ends_window. change (Z.of_nat 1) with 1. lia. Qed.

Lemma ends_later k n : ends_window (S k) n → window <= n_height n.
Proof.
  unfold ends_window. rewrite !Nat2Z.inj_succ. intros Hk.
  pose proof (Z.mul_nonneg_nonneg (Z.of_nat k) window ltac:(lia) ltac:(lia)). lia.
Qed.

Lemma count_votes_ok k n count s :
  known n → Z.of_nat k <= n_height n + 1 → Inv s → 0 <= count → count + Z.of_nat k < 2 ^ 32 →
  ∃ s', count_votes checker k (Some n) count s =
          (VOk (count + zlen (filter (λ m, cond m = true) (last_nodes k (Some n)))), s') ∧ Inv s'.
Proof.
  revert n count s. induction k as [|k IH]; intros n count s Hn Hk Hs Hc Hb.
  { exists s. cbn. by rewrite Z.add_0_r. }
  cbn [count_votes last_nodes]. destruct (cond_ok n s Hn Hs) as (s' & -> & Hs').
  set (count' := if cond n then uint32 (count + 1) else count).
  assert (Hc' : count' = count + Z.b2z (cond n)).
  { unfold count'. destruct (cond n); [rewrite wrap_u_id by lia|]; cbn; lia. }
  assert (Hf : ∀ l, zlen (filter (λ m, cond m = true) (n :: l)) =
    Z.b2z (cond n) + zlen (filter (λ m, cond m = true) l)).
  { intros l. rewrite filter_cons. destruct (decide (cond n = true)) as [E|E]; [rewrite E; cbn [length Z.b2z]; lia|].
    destruct (cond n); [done|]. cbn [Z.b2z]. lia. }
  rewrite Hf. destruct k as [|k'].
  { exists s'. cbn [count_votes last_nodes]. split; [|done]. do 2 f_equal. cbn. lia. }
  pose proof (known_linked n Hn) as Hl. destruct (parent n) as [p|] eqn:Hp.
  - destruct (linked_parent n p Hl Hp) as [_ Hh]. assert (0 <= Z.b2z (cond n) <= 1) by (destruct (cond n); cbn; lia).
    destruct (IH p count' s') as (s2 & He & Hs2); [by eapply known_parent|lia|done|lia|lia|].
    exists s2. split; [|done]. rewrite He. do 2 f_equal. lia.
  - apply linked_no_parent in Hp; [|done]. lia.
Qed.

Lemma transition_ok state n s :
  known n → window <= n_height n + 1 → Inv s →
  ∃ s', thresholdStateTransition checker state n window s = (VOk (step_state state n), s') ∧ Inv s'.
Proof.
  intros Hn Hh Hs. destruct state; cbn [thresholdStateTransition step_state]; try (by exists s).
  destruct (negb _ && _) eqn:He; [by exists s|].
  destruct (count_votes_ok (Z.to_nat window) n 0 s) as (s' & -> & Hs'); [done|lia|done|lia|lia|].
  exists s'. split; [|done]. rewrite Z.add_0_l. fold (votes n). do 2 f_equal.
  destruct (_ <=? votes n); [done|]. destruct (c_IsSpeedy checker), (c_HasEnded checker n); done.
Qed.

(** A cache that holds states of ends of windows. *)
Definition sound (cache : thresholdStateCache) : Prop :=
  ∀ h st, cache !! h = Some st → ∃ n k, known n ∧ n_hash n = h ∧ ends_window k n ∧ st = state_at (S k) n.

Lemma sound_insert cache n k :
  sound cache → known n → ends_window k n → sound (<[n_hash n := state_at (S k) n]> cache).
Proof.
  intros Hc Hn Hk h st. destruct (decide (n_hash n = h)) as [<-|Hne].
  - rewrite lookup_insert_eq. intros [= <-]. by exists n, k.
  - rewrite lookup_insert_ne by done. apply Hc.
Qed.
Lemma sound_lookup cache n k st :
  sound cache → known n → ends_window k n → cache !! n_hash n = Some st → st = state_at (S k) n.
Proof.
  intros Hc Hn Hk Hl. destruct (Hc _ _ Hl) as (m & j & Hm & Hh & Hj & ->).
  apply known_hash in Hh as ->; [|done..]. unfold ends_window in *. assert (j = k) as -> by nia. done.
Qed.

Lemma nth_parent_none n k : linked n → n_height n < Z.of_nat k → nth_parent k n = None.
Proof.
  revert n. induction k as [|k IH]; intros n Hn Hk; [pose proof (linked_height n Hn); lia|]. cbn.
  destruct (parent n) as [p|] eqn:Hp; [|done].
  destruct (linked_parent n p Hn Hp) as [Hlp Hhp]. apply IH; [done|lia].
Qed.

Lemma nth_parent_none_add j k n : nth_parent j n = None → nth_parent (j + k) n = None.
Proof.
  revert n. induction j as [|j IH]; intros n; cbn; [done|]. destruct (parent n); [apply IH|done].
Qed.

(** What the walk back finds, and what running the states it found gives. *)
Definition walk_ok (k : nat) (n : blockNode) (acc : list blockNode)
    (res : option (list blockNode * option blockNode * thresholdStateCache)) : Prop :=
  ∃ new stop cache s0,
    res = Some (new ++ acc, stop, cache) ∧ sound cache ∧
    match stop with Some m => cache !! n_hash m = Some s0 | None => s0 = ThresholdDefined end ∧
    ∀ cache0 s rest, sound cache0 → Inv s → ∃ cache1 s1,
      run_states checker (new ++ rest) window s0 cache0 s =
      run_states checker rest window (state_at (S k) n) cache1 s1 ∧ sound cache1 ∧ Inv s1.

Lemma walk_stops k n acc cache :
  cache !! n_hash n = Some (state_at (S k) n) → sound cache → walk_ok k n acc (Some (acc, Some n, cache)).
Proof.
  intros Hl Hc. exists [], (Some n), cache, (state_at (S k) n). split_and!; [done..|].
  intros cache0 s rest Hc0 Hs. by exists cache0, s.
Qed.
Lemma walk_defined k n acc cache :
  c_HasStarted checker n = false → known n → ends_window k n → sound cache →
  walk_ok k n acc (Some (acc, Some n, <[n_hash n := ThresholdDefined]> cache)).
Proof.
  intros Hs Hn Hk Hc. assert (Hd : state_at (S k) n = ThresholdDefined) by (cbn [state_at]; by rewrite Hs).
  rewrite <- Hd. apply walk_stops; [apply lookup_insert_eq|by apply sound_insert].
Qed.

Lemma needed_ok k fuel n acc cache :
  known n → ends_window k n → (k < fuel)%nat → sound cache →
  walk_ok k n acc (needed_states checker fuel window (Some n) acc cache).
Proof.
  revert fuel n acc. induction k as [|k IH]; intros [|fuel] n acc Hn Hk Hf Hc; try lia;
    cbn [needed_states]; pose proof (known_linked n Hn) as Hl; pose proof (linked_height n Hl) as Hh.
  all: destruct (cache !! n_hash n) as [st|] eqn:Hlk;
    [apply walk_stops; [by rewrite Hlk, (sound_lookup cache n _ st Hc Hn Hk Hlk)|done]|].
  all: destruct (c_HasStarted checker n) eqn:Hst; cbn [negb];
    [|by apply walk_defined].
  - assert (Hra : RelativeAncestor n window = None).
    { unfold RelativeAncestor, ends_window in *. rewrite wrap_s_id by (cbn; lia). unfold Ancestor.
      destruct (Z.ltb_spec (n_height n - window) 0); [done|lia]. }
    assert (Hnp : nth_parent (Z.to_nat window) n = None).
    { apply nth_parent_none; [done|]. apply ends_first in Hk. lia. }
    rewrite Hra. exists [n], None, cache, ThresholdDefined. split_and!; [by destruct fuel|done|done|].
    intros cache0 s rest Hc0 Hs. cbn [run_states app].
    destruct (transition_ok ThresholdDefined n s Hn) as (s' & -> & Hs'); [by eapply ends_window_ge|done|].
    assert (He : step_state ThresholdDefined n = state_at 1 n) by (cbn [state_at]; by rewrite Hst, Hnp).
    rewrite He. eexists _, s'. split_and!; [done|by apply sound_insert|done].
  - assert (Hhk : window <= n_height n) by (by eapply ends_later).
    destruct (nth_parent_linked (Z.to_nat window) n Hl) as (m & Hm & Hlm & Hhm); [lia|].
    assert (Hra : RelativeAncestor n window = Some m).
    { unfold RelativeAncestor. rewrite wrap_s_id by (cbn; lia). rewrite Ancestor_at by done.
      unfold ancestor_at. destruct (Z.ltb_spec (n_height n - window) 0); [lia|].
      destruct (Z.ltb_spec (n_height n) (n_height n - window)); [lia|]. cbn [orb].
      rewrite <- Hm. f_equal. lia. }
    assert (Hkm : known m) by by eapply known_nth.
    assert (Hem : ends_window k m) by (unfold ends_window in *; lia).
    rewrite Hra. destruct (IH fuel m (n :: acc) Hkm Hem) as (new & stop & cache' & s0 & -> & Hc' & Hs0 & Hrun);
      [lia|done|].
    exists (new ++ [n]), stop, cache', s0. split_and!; [by rewrite <- app_assoc|done|done|].
    intros cache0 s rest Hc0 Hs. rewrite <- app_assoc. cbn [app].
    destruct (Hrun cache0 s (n :: rest) Hc0 Hs) as (cache1 & s1 & -> & Hc1 & Hs1). cbn [run_states].
    destruct (transition_ok (state_at (S k) m) n s1 Hn) as (s' & -> & Hs'); [lia|done|].
    assert (He : step_state (state_at (S k) m) n = state_at (S (S k)) n)
      by (cbn [state_at]; by rewrite Hst, Hm).
    rewrite He. eexists _, s'. split_and!; [done|by apply sound_insert|done].
Qed.

Lemma div_succ_window h : 0 <= h → window <= h + 1 →
  ∃ k, (h + 1) / window = Z.of_nat (S k) ∧ (h + 1) - (h + 1) mod window = Z.of_nat (S k) * window.
Proof.
  intros Hh Hw. assert (1 <= (h + 1) / window) by (apply Z.div_le_lower_bound; lia).
  exists (Z.to_nat ((h + 1) / window - 1)). pose proof (Z.div_mod (h + 1) window ltac:(lia)) as Hd.
  replace (Z.of_nat (S _)) with ((h + 1) / window) by lia. split; [done|]. rewrite Z.mul_comm. lia.
Qed.

(** The cached function computes the state machine and keeps its cache. *)
Lemma thresholdState_ok prevNode cache s :
  match prevNode with Some n => known n ∧ n_height n + 1 < 2 ^ 31 | None => True end →
  sound cache → Inv s →
  ∃ cache' s',
    thresholdState checker prevNode cache s =
      (VOk (match prevNode with Some n => state_after n | None => ThresholdDefined end), cache', s') ∧
    sound cache' ∧ Inv s'.
Proof.
  intros Hn Hc Hs. unfold thresholdState. rewrite window_ok, wrap_s_id by (cbn; lia).
  destruct prevNode as [n|]; [|by exists cache, s]. destruct Hn as [Hn Hh31].
  pose proof (known_linked n Hn) as Hl. pose proof (linked_height n Hl) as Hh.
  rewrite wrap_s_id by (cbn; lia). unfold state_after.
  destruct (Z.ltb_spec (n_height n + 1) window) as [Hlt|Hge].
  { rewrite Z.div_small by lia. exists cache, s. split_and!; [|done..]. do 3 f_equal. }
  destruct (Z.eqb_spec window 0); [lia|]. rewrite Z.rem_mod_nonneg by lia.
  pose proof (Z.mod_pos_bound (n_height n + 1) window ltac:(lia)) as Hmod.
  destruct (div_succ_window (n_height n)) as (k & Hk & Hkw); [lia|lia|].
  assert (Hpos : Z.of_nat (S k) * window - 1 = n_height n - (n_height n + 1) mod window) by lia.
  rewrite wrap_s_id by (cbn; lia). rewrite Ancestor_at by done. rewrite Hk, Hpos.
  destruct (ancestor_at_ok n (n_height n - (n_height n + 1) mod window) Hl) as (m & Hm & Hlm & Hhm & _).
  { nia. }
  rewrite Hm. rewrite Nat2Z.id.
  assert (Hkm : known m).
  { unfold ancestor_at in Hm. destruct (_ || _); [done|]. by eapply known_nth. }
  assert (Hem : ends_window k m) by (unfold ends_window; lia).
  destruct (needed_ok k (S (Z.to_nat (n_height n))) m [] cache Hkm Hem)
    as (new & stop & cache' & s0 & -> & Hc' & Hs0 & Hrun); [unfold ends_window in Hem; nia|done|].
  destruct (Hrun cache' s [] Hc' Hs) as (c1 & s1 & He & Hc1 & Hs1).
  exists c1, s1. split_and!; [|done..].
  destruct stop as [q|]; [rewrite Hs0|subst s0]; by rewrite He.
Qed.

(** An active deployment stays active while it has started. *)
Lemma active_steps j k n m :
  state_at k m = ThresholdActive → nth_parent (j * Z.to_nat window) n = Some m →
  (∀ i a, (i < j * Z.to_nat window)%nat → nth_parent i n = Some a → c_HasStarted checker a = true) →
  state_at (j + k) n = ThresholdActive.
Proof.
  revert n. induction j as [|j IH]; intros n Hm Hn Hst.
  - injection Hn as ->. done.
  - cbn [Nat.add state_at]. rewrite (Hst 0%nat n ltac:(lia) eq_refl). cbn [Nat.mul] in Hn, Hst.
    destruct (nth_parent (Z.to_nat window) n) as [q|] eqn:Hq.
    + rewrite (IH q); [done|done| |].
      * rewrite <- Hn. symmetry. apply (nth_parent_add _ _ _ _ Hq).
      * intros i a Hi Ha. apply (Hst (Z.to_nat window + i)%nat); [lia|]. by rewrite (nth_parent_add _ _ _ _ Hq).
    + by rewrite nth_parent_none_add in Hn.
Qed.
End Machine.

(** ** Deployments *)

(** The timestamps of a chain are after the median time before them. *)
Definition valid_time (n : blockNode) : Prop :=
  ∀ p t, parent n = Some p → CalcPastMedianTime (Some p) = VOk t → t < n_timestamp n.
Definition valid_times (n : blockNode) : Prop := ∀ k a, nth_parent k n = Some a → valid_time a.

Lemma median_time_total n : ∃ t, CalcPastMedianTime (Some n) = VOk t.
Proof.
  unfold CalcPastMedianTime. destruct (median_total (past_timestamps medianTimeBlocks (Some n))) as [t ->]; [done|].
  by exists t.
Qed.
Lemma median_time_later k n a ta tn :
  valid_times n → nth_parent k n = Some a →
  CalcPastMedianTime (Some a) = VOk ta → CalcPastMedianTime (Some n) = VOk tn → ta <= tn.
Proof.
  revert n tn. induction k as [|k IH]; intros n tn Hv Ha Hta Htn; cbn in Ha.
  - injection Ha as ->. rewrite Hta in Htn. injection Htn as ->. lia.
  - destruct (parent n) as [p|] eqn:Hp; [|done]. destruct (median_time_total p) as [tp Htp].
    assert (ta <= tp).
    { eapply IH; [|exact Ha|exact Hta|exact Htp]. intros i b Hb. apply (Hv (S i)). cbn. by rewrite Hp. }
    destruct (past_median_rises n p tp Hp Htp) as (t' & Ht' & Hle).
    { by apply (Hv 0%nat n eq_refl p). }
    rewrite Htn in Ht'. injection Ht' as ->. lia.
Qed.

Section Deployments.
Context `{Sha} (params : Params) (bi : blockIndex).
Context (known : blockNode → Prop) `{!Known known}.
Context (indexed : ∀ n, known n → LookupNode bi (n_hash n) = Some n).
Context (no_zero : LookupNode bi zeroHash = None).
Context (window_pos : 0 < MinerConfirmationWindow params < 2 ^ 31).
Abbreviation window := (MinerConfirmationWindow params).
Abbreviation checker := (@deploymentChecker _ params bi unit).

(** The clock of the deployments shows the median time of the node. *)
Lemma clock_ok n : known n →
  PastMedianTime bi (node_Header n) =
  match parent n with Some p => CalcPastMedianTime (Some n) | None => VErr (OtherError "no previous node") end.
Proof.
  intros Hn. unfold PastMedianTime, node_Header. cbn [PrevBlock].
  destruct (parent n) as [p|] eqn:Hp; [|by rewrite no_zero].
  rewrite indexed by (by eapply known_parent). unfold CalcPastMedianTime, medianTimeBlocks.
  cbn [past_timestamps newBlockNode n_timestamp parent bh_Timestamp]. by rewrite Hp.
Qed.

Lemma started_later d k n a :
  known n → valid_times n → nth_parent k n = Some a →
  c_HasStarted (checker d) a = true → c_HasStarted (checker d) n = true.
Proof.
  intros Hn Hv Ha. assert (Hka : known a) by by eapply known_nth.
  cbn [c_HasStarted deploymentChecker]. unfold HasStarted. destruct (startTime d) as [start|]; [|done].
  rewrite !clock_ok by done. destruct (parent a) as [pa|] eqn:Hpa; [|done].
  destruct (median_time_total a) as [ta Hta]. destruct (median_time_total n) as [tn Htn].
  pose proof (median_time_later k n a ta tn Hv Ha Hta Htn). rewrite Hta, Htn.
  assert (is_Some (parent n)) as [pn ->].
  { destruct k; cbn in Ha; [injection Ha as ->; eauto|]. destruct (parent n); [eauto|done]. }
  cbn. rewrite !Z.leb_le. lia.
Qed.

(** The state of a deployment for the block after a node. *)
Definition deployment_state (d : ConsensusDeployment) (n : option blockNode) : ThresholdState :=
  match n with
  | Some n => state_after (checker d) (λ m, version_votes m (BitNumber d)) window n
  | None => ThresholdDefined
  end.
Definition sound_for (d : ConsensusDeployment) (cache : thresholdStateCache) : Prop :=
  sound (checker d) known (λ m, version_votes m (BitNumber d)) window cache.
Definition sound_all (cs : list thresholdStateCache) : Prop := Forall2 sound_for (Deployments params) cs.

Definition in_range (n : option blockNode) : Prop :=
  match n with Some n => known n ∧ n_height n + 1 < 2 ^ 31 | None => True end.

Lemma deployment_cached d n cache :
  in_range n → sound_for d cache →
  ∃ cache' s, thresholdState (checker d) n cache tt = (VOk (deployment_state d n), cache', s) ∧ sound_for d cache'.
Proof.
  intros Hn Hc.
  destruct (thresholdState_ok (checker d) known (λ m, version_votes m (BitNumber d)) (λ _, True)
    ltac:(intros; eexists; done) window eq_refl window_pos n cache tt Hn Hc I) as (c' & s' & He & Hc' & _).
  exists c', s'. by rewrite He.
Qed.

Lemma sound_update cs id d cache :
  sound_all cs → Deployments params !! id = Some d → sound_for d cache → sound_all (<[id := cache]> cs).
Proof.
  intros Hcs Hd Hc. unfold sound_all. rewrite <- (list_insert_id (Deployments params) id d Hd).
  by apply Forall2_insert.
Qed.

(** The version of the next block: the bits of what is being voted on. *)
Definition voting_bit (n : option blockNode) (v : Z) (d : ConsensusDeployment) : Z :=
  match deployment_state d n with
  | ThresholdStarted | ThresholdLockedIn => Z.lor v (uint32 (Z.shiftl 1 (BitNumber d)))
  | _ => v
  end.
Definition next_version (n : option blockNode) : Z := int32 (foldl (voting_bit n) vbTopBits (Deployments params)).

Lemma version_loop_ok n ds id v cs :
  in_range n → sound_all cs → drop id (Deployments params) = ds →
  ∃ cs', version_loop params bi ds id n v cs = (VOk (foldl (voting_bit n) v ds), cs') ∧ sound_all cs'.
Proof.
  intros Hn. revert id v cs. induction ds as [|d ds IH]; intros id v cs Hcs Hds; [by exists cs|].
  assert (Hd : Deployments params !! id = Some d).
  { replace id with (id + 0)%nat by lia. by rewrite <- lookup_drop, Hds. }
  destruct (Forall2_lookup_l _ _ _ _ _ Hcs Hd) as (cache & Hc & Hsc).
  cbn [version_loop foldl]. rewrite Hc.
  destruct (deployment_cached d n cache Hn Hsc) as (c' & s' & -> & Hc').
  apply IH; [by eapply sound_update|]. rewrite <- Nat.add_1_r, <- drop_drop, Hds. done.
Qed.
Lemma next_version_ok n cs :
  in_range n → sound_all cs →
  ∃ cs', calcNextBlockVersion params bi n cs = (VOk (next_version n), cs') ∧ sound_all cs'.
Proof.
  intros Hn Hcs. destruct (version_loop_ok n (Deployments params) 0 vbTopBits cs Hn Hcs) as (cs' & He & Hs); [done|].
  exists cs'. unfold calcNextBlockVersion. by rewrite He.
Qed.

(** A block votes for an unknown bit when no deployment explains the bit. *)
Definition unknown_vote (bit : Z) (n : blockNode) : bool :=
  version_votes n bit &&
  (Z.land (uint32 (next_version (parent n))) (uint32 (Z.shiftl 1 bit)) =? 0).

Lemma parent_in_range n : known n → in_range (parent n).
Proof.
  intros Hn. destruct (parent n) as [p|] eqn:Hp; [|done]. pose proof (known_linked n Hn) as Hl.
  destruct (linked_parent n p Hl Hp) as [_ Hh]. pose proof (linked_height n Hl).
  split; [by eapply known_parent|lia].
Qed.
Lemma unknown_vote_ok bit n cs :
  known n → sound_all cs →
  ∃ cs', c_Condition (bitConditionChecker params bi bit) n cs = (VOk (unknown_vote bit n), cs') ∧ sound_all cs'.
Proof.
  intros Hn Hcs. cbn [c_Condition bitConditionChecker]. unfold unknown_vote.
  destruct (version_votes n bit); cbn [negb andb]; [|by exists cs].
  destruct (next_version_ok (parent n) cs (parent_in_range n Hn) Hcs) as (cs' & -> & Hs). by exists cs'.
Qed.

(** The caches of the deployment states change nothing: with caches that
    hold true states, [deploymentState] returns the state that the state
    machine of the deployment reaches over the windows up to the node,
    [calcNextBlockVersion] sets the bits of the deployments that are being
    voted on, the checker of the unknown bits reaches the states that its own
    votes give, none of them fails, and the caches keep true states.  For the
    first identifier that is not a deployment, [deploymentState] panics
    instead of returning an error. *)
Theorem deployment_states n cs :
  in_range n → sound_all cs →
  (∀ id d, Deployments params !! id = Some d →
     ∃ cs', deploymentState params bi n id cs = (VOk (deployment_state d n), cs') ∧ sound_all cs') ∧
  (∃ cs', calcNextBlockVersion params bi n cs = (VOk (next_version n), cs') ∧ sound_all cs') ∧
  (∀ bit cache, sound (bitConditionChecker params bi bit) known (unknown_vote bit) window cache →
     ∃ cache' cs', thresholdState (bitConditionChecker params bi bit) n cache cs =
       (VOk (match n with
             | Some n => state_after (bitConditionChecker params bi bit) (unknown_vote bit) window n
             | None => ThresholdDefined
             end), cache', cs') ∧
       sound (bitConditionChecker params bi bit) known (unknown_vote bit) window cache' ∧ sound_all cs') ∧
  deploymentState params bi n (length (Deployments params)) cs = (VCrash, cs).
Proof.
  intros Hn Hcs. split_and!.
  - intros id d Hd. unfold deploymentState. pose proof (lookup_lt_Some _ _ _ Hd).
    destruct (Nat.ltb_spec (length (Deployments params)) id); [lia|]. rewrite Hd.
    destruct (Forall2_lookup_l _ _ _ _ _ Hcs Hd) as (cache & -> & Hsc).
    destruct (deployment_cached d n cache Hn Hsc) as (c' & s' & -> & Hc').
    eexists. split; [done|]. by eapply sound_update.
  - by apply next_version_ok.
  - intros bit cache Hc.
    destruct (thresholdState_ok (bitConditionChecker params bi bit) known (unknown_vote bit) sound_all
      (unknown_vote_ok bit) window eq_refl window_pos n cache cs Hn Hc Hcs) as (c' & cs' & He & Hc' & Hcs').
    exists c', cs'. by rewrite He.
  - unfold deploymentState. rewrite Nat.ltb_irrefl. by rewrite (lookup_ge_None_2 (Deployments params)) by lia.
Qed.

(** The end of the last window is as many nodes back as the window has
    begun. *)
Lemma window_split h : 0 <= h →
  (Z.to_nat ((h + 1) / window) * Z.to_nat window + Z.to_nat ((h + 1) mod window) = Z.to_nat (h + 1))%nat ∧
  (Z.to_nat ((h + 1) mod window) < Z.to_nat window)%nat ∧ 0 <= (h + 1) / window.
Proof.
  intros Hh. pose proof (Z.mod_pos_bound (h + 1) window ltac:(lia)).
  pose proof (Z.div_mod (h + 1) window ltac:(lia)). pose proof (Z.div_pos (h + 1) window ltac:(lia) ltac:(lia)).
  split_and!; [|lia|done]. apply Nat2Z.inj. rewrite Nat2Z.inj_add, Nat2Z.inj_mul, !Z2Nat.id by lia. lia.
Qed.
Lemma state_after_nth d cond n : linked n →
  state_after (checker d) cond window n =
  match nth_parent (Z.to_nat ((n_height n + 1) mod window)) n with
  | Some m => state_at (checker d) cond window (Z.to_nat ((n_height n + 1) / window)) m
  | None => ThresholdDefined
  end.
Proof.
  intros Hl. pose proof (linked_height n Hl). unfold state_after, ancestor_at.
  pose proof (Z.mod_pos_bound (n_height n + 1) window ltac:(lia)) as Hmod.
  pose proof (Z.div_mod (n_height n + 1) window ltac:(lia)) as Hdm.
  set (k := (n_height n + 1) / window) in *. set (r := (n_height n + 1) mod window) in *.
  assert (Hkw : k * window - 1 = n_height n - r) by lia. rewrite Hkw.
  destruct (Z.ltb_spec (n_height n - r) 0) as [Hneg|].
  - cbn [orb]. assert (k = 0) by nia. replace (Z.to_nat k) with 0%nat by lia. by destruct (nth_parent _ n).
  - destruct (Z.ltb_spec (n_height n) (n_height n - r)); [lia|]. cbn [orb].
    replace (n_height n - (n_height n - r)) with r by lia. done.
Qed.

(** A rule that is active stays active: when the timestamps of a chain
    are valid, a deployment that is active for the block after a node is
    active for the block after every later node. *)
Theorem active_is_final d n m k :
  known n → valid_times n → nth_parent k n = Some m →
  deployment_state d (Some m) = ThresholdActive → deployment_state d (Some n) = ThresholdActive.
Proof.
  intros Hn Hv Hm. pose proof (known_linked n Hn) as Hl. pose proof (linked_height n Hl) as Hhn.
  assert (Hkm : known m) by by eapply known_nth.
  pose proof (linked_height m (known_linked m Hkm)) as Hhm.
  assert (Hk : Z.of_nat k <= n_height n).
  { destruct (Z.le_gt_cases (Z.of_nat k) (n_height n)) as [|Hgt]; [done|].
    rewrite nth_parent_none in Hm by (done || lia). done. }
  assert (Hh : n_height m = n_height n - Z.of_nat k).
  { destruct (nth_parent_linked k n Hl Hk) as (a & Ha & _ & Hha). congruence. }
  cbn [deployment_state]. rewrite !state_after_nth by (done || by apply known_linked).
  pose proof (window_split (n_height n) ltac:(lia)) as (Hn1 & Hn2 & Hn3).
  pose proof (window_split (n_height m) ltac:(lia)) as (Hm1 & Hm2 & Hm3).
  set (kn := Z.to_nat ((n_height n + 1) / window)) in *. set (rn := Z.to_nat ((n_height n + 1) mod window)) in *.
  set (km := Z.to_nat ((n_height m + 1) / window)) in *. set (rm := Z.to_nat ((n_height m + 1) mod window)) in *.
  destruct (nth_parent rm m) as [bm|] eqn:Hbm; [|done]. intros Hact.
  destruct km as [|km']; [done|].
  assert (Hst : c_HasStarted (checker d) bm = true).
  { destruct (c_HasStarted (checker d) bm) eqn:E; [done|]. cbn [state_at] in Hact. by rewrite E in Hact. }
  set (W := Z.to_nat window) in *. replace (Z.to_nat (n_height n + 1)) with (Z.to_nat (n_height m + 1) + k)%nat in Hn1 by lia.
  assert (Hle : (S km' ≤ kn)%nat) by nia.
  assert (Hidx : (k + rm = rn + (kn - S km') * W)%nat) by (rewrite Nat.mul_sub_distr_r; nia).
  assert (Hbm' : nth_parent (k + rm) n = Some bm) by by rewrite (nth_parent_add _ _ _ _ Hm).
  rewrite Hidx in Hbm'. destruct (nth_parent rn n) as [bn|] eqn:Hbn.
  2:{ by rewrite nth_parent_none_add in Hbm'. }
  rewrite (nth_parent_add _ _ _ _ Hbn) in Hbm'.
  replace kn with (kn - S km' + S km')%nat by lia. eapply active_steps; [done|exact Hact|exact Hbm'|].
  intros i a Hi Ha. assert (Hka : nth_parent (rn + i) n = Some a) by by rewrite (nth_parent_add _ _ _ _ Hbn).
  apply (started_later d ((kn - S km') * Z.to_nat window - i) a bm).
  - by apply (known_nth known _ _ _ Hn Hka).
  - intros q b Hb. apply (Hv (rn + i + q)%nat). by rewrite (nth_parent_add _ _ _ _ Hka).
  - rewrite <- Hbm'. rewrite <- (nth_parent_add _ _ _ _ Ha). f_equal. lia.
  - done.
Qed.
End Deployments.
