(* ===== verification/ChainCache.v ===== *)
(** * Block chain: the cache of unspent outputs

    btcd/blockchain/utxocache.go and the functions of utxoviewpoint.go that
    fill a view from it.  The cached entries are pointers that are changed in
    place: spending an entry writes it back where it is.  How many entries a
    new map may hold and the memory that the maps take (sizehelper.go) are
    parameters. *)

From Stdlib Require Import ZArith Lia.
From stdpp Require Import base numbers list strings gmap.
From S2P Require Import Prelude ScriptNum WireBase WireTx ScriptToken Sighash WireMsg ChainCompress ChainUtxo ChainStore.

Open Scope Z_scope.

(** ** mapSlice *)

(** A map, and the number of entries it is meant for; an entry can be nil. *)
Abbreviation entry_map := (gmap OutPoint (option UtxoEntry)).
Abbreviation mapSlice := (list (entry_map * Z)).

Fixpoint ms_get (op : OutPoint) (ms : mapSlice) : option (option UtxoEntry) :=
  match ms with
  | [] => None
  | (m, _) :: ms => match m !! op with Some e => Some e | None => ms_get op ms end
  end.
Definition ms_length (ms : mapSlice) : nat := list_sum (map (λ p, size (fst p)) ms).

Fixpoint put_found (op : OutPoint) (e : option UtxoEntry) (ms : mapSlice) : option mapSlice :=
  match ms with
  | [] => None
  | (m, k) :: ms =>
      match m !! op with
      | Some _ => Some ((<[op := e]> m, k) :: ms)
      | None => cons (m, k) <$> put_found op e ms
      end
  end.
Fixpoint put_room (newMax : Z) (op : OutPoint) (e : option UtxoEntry) (ms : mapSlice) : mapSlice :=
  match ms with
  | [] => [({[op := e]}, newMax)]
  | (m, k) :: ms =>
      if k <=? Z.of_nat (size m) then (m, k) :: put_room newMax op e ms
      else (<[op := e]> m, k) :: ms
  end.
Definition ms_put (newMax : Z) (op : OutPoint) (e : option UtxoEntry) (ms : mapSlice) : mapSlice :=
  match put_found op e ms with Some ms' => ms' | None => put_room newMax op e ms end.
Definition ms_delete (op : OutPoint) (ms : mapSlice) : mapSlice :=
  map (λ p, (delete op (fst p), snd p)) ms.
(** The first map is kept; there always is one. *)
Definition deleteMaps (ms : mapSlice) : mapSlice := take 1 ms.

(** ** utxoCache *)

Record utxoCache := mkCache {
  cachedEntries : mapSlice;
  totalEntryMemory : Z;                           (* uint64 *)
  lastFlushHash : Hash;
  lastFlushTime : Z
}.

Definition baseEntrySize : Z := 40.
(** The capacity of a script's slice is its length: it is made so. *)
Definition memoryUsage (e : option UtxoEntry) : Z :=
  match e with Some e => uint64 (baseEntrySize + zlen (pkScript e)) | None => 0 end.

(** The database as far as the cache uses it: the bucket of the unspent
    outputs and the hash of the block it is consistent with. *)
Record utxo_db := mkUtxoDb { utxoSet : bucket; utxoStateConsistency : option Hash }.

Inductive FlushMode := FlushRequired | FlushPeriodic | FlushIfNeeded.
Definition utxoFlushPeriodicInterval : Z := 5 * 60.

Section Cache.
Context `{Sha} `{Keys}.
(** The size of a new map and the memory of the maps, from their sizes. *)
Context (new_max : list Z → Z → Z) (maps_memory : list Z → Z) (maxTotalMemoryUsage : Z).

Definition put_entry (op : OutPoint) (e : option UtxoEntry) (s : utxoCache) : utxoCache :=
  mkCache (ms_put (new_max (map snd (cachedEntries s)) (totalEntryMemory s)) op e (cachedEntries s))
    (totalEntryMemory s) (lastFlushHash s) (lastFlushTime s).
Definition add_memory (n : Z) (s : utxoCache) : utxoCache :=
  mkCache (cachedEntries s) (uint64 (totalEntryMemory s + n)) (lastFlushHash s) (lastFlushTime s).
Definition drop_entry (op : OutPoint) (s : utxoCache) : utxoCache :=
  mkCache (ms_delete op (cachedEntries s)) (totalEntryMemory s) (lastFlushHash s) (lastFlushTime s).

Definition newUtxoCache : utxoCache := mkCache [(∅, new_max [] 0)] 0 (replicate HashSize 0) 0.

Fixpoint fetch_db (db : utxo_db) (ops : list OutPoint)
    : ChainRes (list (OutPoint * option UtxoEntry)) :=
  match ops with
  | [] => COk []
  | op :: ops =>
      e ← dbFetchUtxoEntry (utxoSet db) op;
      l ← fetch_db db ops;
      COk ((op, e) :: l)
  end.
Definition store_fetched (l : list (OutPoint * option UtxoEntry)) (s : utxoCache) : utxoCache :=
  fold_left (λ s p, add_memory (memoryUsage (snd p)) (put_entry (fst p) (snd p) s)) l s.

(** The entries that are cached, and those that the database has for the
    others, in the order of the outpoints. *)
Fixpoint fill_entries (s : utxoCache) (ops : list OutPoint) (fetched : list (option UtxoEntry))
    : list (option UtxoEntry) :=
  match ops with
  | [] => []
  | op :: ops =>
      match ms_get op (cachedEntries s), fetched with
      | Some e, _ => e :: fill_entries s ops fetched
      | None, e :: fetched => e :: fill_entries s ops fetched
      | None, [] => None :: fill_entries s ops []
      end
  end.
Definition fetchEntries (db : utxo_db) (ops : list OutPoint) (s : utxoCache)
    : ChainRes (list (option UtxoEntry) * utxoCache) :=
  let missingOps := filter (λ op, ms_get op (cachedEntries s) = None) ops in
  dbEntries ← fetch_db db missingOps;
  COk (fill_entries s ops (map snd dbEntries), store_fetched dbEntries s).

Definition cache_addTxOut (op : OutPoint) (txOut : TxOut) (isCoinBase : bool) (height : Z)
    (s : utxoCache) : utxoCache :=
  if IsUnspendable (PkScript txOut) then s else
  let entry := Some (mkUtxoEntry (Value txOut) (PkScript txOut) height
         (Z.lor (Z.lor tfFresh tfModified) (if isCoinBase then tfCoinBase else 0))) in
  add_memory (memoryUsage entry) (put_entry op entry s).
Definition cache_addTxOuts (tx : MsgTx) (height : Z) (s : utxoCache) : utxoCache :=
  fold_left (λ s p, cache_addTxOut (fst p) (snd p) (IsCoinBaseTx tx) height s) (outpoints tx) s.

(** A spent entry that the database does not have is dropped; the memory of
    one that it has is not taken off: the pointer is nil by then. *)
Definition addTxIn (db : utxo_db) (ti : TxIn) (s : utxoCache) (stxos : option (list SpentTxOut))
    : ChainRes (utxoCache * option (list SpentTxOut)) :=
  '(found, s) ← fetchEntries db [PreviousOutPoint ti] s;
  match found with
  | [Some entry] =>
      let stxos := (λ l, l ++ [stxo_of entry]) <$> stxos in
      let s := put_entry (PreviousOutPoint ti) (Some (Spend entry)) s in
      COk (if isFresh (Spend entry)
           then add_memory (- memoryUsage (Some entry)) (drop_entry (PreviousOutPoint ti) s)
           else add_memory (- memoryUsage None) s, stxos)
  | _ => CErr "missing input"
  end.
Fixpoint add_ins (db : utxo_db) (ins : list TxIn) (s : utxoCache) (stxos : option (list SpentTxOut))
    : ChainRes (utxoCache * option (list SpentTxOut)) :=
  match ins with
  | [] => COk (s, stxos)
  | ti :: ins => '(s, stxos) ← addTxIn db ti s stxos; add_ins db ins s stxos
  end.
Definition addTxIns (db : utxo_db) (tx : MsgTx) (s : utxoCache) (stxos : option (list SpentTxOut))
    : ChainRes (utxoCache * option (list SpentTxOut)) :=
  if IsCoinBaseTx tx then COk (s, stxos) else add_ins db (TxIns tx) s stxos.
Definition cache_connectTransaction (db : utxo_db) (tx : MsgTx) (height : Z) (s : utxoCache)
    (stxos : option (list SpentTxOut)) : ChainRes (utxoCache * option (list SpentTxOut)) :=
  '(s, stxos) ← addTxIns db tx s stxos; COk (cache_addTxOuts tx height s, stxos).
Fixpoint cache_connect_loop (db : utxo_db) (txs : list MsgTx) (height : Z) (s : utxoCache)
    (stxos : option (list SpentTxOut)) : ChainRes (utxoCache * option (list SpentTxOut)) :=
  match txs with
  | [] => COk (s, stxos)
  | tx :: txs =>
      '(s, stxos) ← cache_connectTransaction db tx height s stxos;
      cache_connect_loop db txs height s stxos
  end.
Definition cache_connectTransactions (db : utxo_db) (b : Block) (s : utxoCache)
    (stxos : option (list SpentTxOut)) : ChainRes (utxoCache * option (list SpentTxOut)) :=
  cache_connect_loop db (block_txs b) (b_height b) s stxos.

(** The entries of the maps in the order in which they are met. *)
Fixpoint write_entries (l : list (OutPoint * option UtxoEntry)) (b : bucket) : ChainRes bucket :=
  match l with
  | [] => COk b
  | (op, entry) :: l =>
      match entry with
      | None => write_entries l (dbDeleteUtxoEntry op b)
      | Some e =>
          if IsSpent e then write_entries l (dbDeleteUtxoEntry op b)
          else if negb (isModified e) then write_entries l b
          else b ← dbPutUtxoEntry op e b; write_entries l b
      end
  end.
Definition all_entries (ms : mapSlice) : list (OutPoint * option UtxoEntry) :=
  concat (map (λ p, map_to_list (fst p)) ms).
Definition writeCache (now : Z) (best : Hash) (db : utxo_db) (s : utxoCache)
    : ChainRes (utxo_db * utxoCache) :=
  b ← write_entries (all_entries (cachedEntries s)) (utxoSet db);
  COk (mkUtxoDb b (Some best),
       mkCache (deleteMaps (map (λ p, (∅, snd p)) (cachedEntries s))) 0 best now).

Definition totalMemoryUsage (s : utxoCache) : Z :=
  uint64 (uint64 (maps_memory (map snd (cachedEntries s))) + totalEntryMemory s).
Definition flush (now : Z) (mode : FlushMode) (best : Hash) (db : utxo_db) (s : utxoCache)
    : ChainRes (utxo_db * utxoCache) :=
  let write_above threshold :=
    if threshold <=? totalMemoryUsage s then writeCache now best db s else COk (db, s) in
  match mode with
  | FlushRequired => write_above 0
  | FlushIfNeeded =>
      if bool_decide (best = lastFlushHash s) then COk (db, s) else write_above maxTotalMemoryUsage
  | FlushPeriodic =>
      write_above (if utxoFlushPeriodicInterval <? now - lastFlushTime s then 0 else maxTotalMemoryUsage)
  end.

(** ** Filling a view *)

(** A view holds copies of the entries, nil ones included. *)
Definition put_fetched (p : OutPoint * option UtxoEntry) (v : UtxoViewpoint) : UtxoViewpoint :=
  match snd p with Some e => set_entry (fst p) e v | None => set_nil (fst p) v end.
Definition fetchUtxosFromCache (db : utxo_db) (ops : list OutPoint) (v : UtxoViewpoint) (s : utxoCache)
    : ChainRes (UtxoViewpoint * utxoCache) :=
  match ops with
  | [] => COk (v, s)
  | _ =>
      '(found, s) ← fetchEntries db ops s;
      COk (fold_left (λ v p, put_fetched p v) (zip ops found) v, s)
  end.
Definition fetchUtxos (db : utxo_db) (ops : list OutPoint) (v : UtxoViewpoint) (s : utxoCache)
    : ChainRes (UtxoViewpoint * utxoCache) :=
  fetchUtxosFromCache db (List.filter (λ op, negb (has_key v op)) ops) v s.

(** Where the transactions of a block are, by hash; a later one wins. *)
Definition in_flight (txs : list MsgTx) (h : Hash) : option nat :=
  fst <$> last (List.filter (λ p, bool_decide (TxHash (snd p) = h)) (imap pair txs)).
(** The inputs of the transaction at index [i] + 1. *)
Fixpoint inputs_to_fetch (txs : list MsgTx) (height : Z) (i : nat) (ins : list TxIn)
    (v : UtxoViewpoint) (needed : list OutPoint) : UtxoViewpoint * list OutPoint :=
  match ins with
  | [] => (v, needed)
  | ti :: ins =>
      let op := PreviousOutPoint ti in
      let fetch :=
        if has_key v op then inputs_to_fetch txs height i ins v needed
        else inputs_to_fetch txs height i ins v (needed ++ [op]) in
      match in_flight txs (op_Hash op) with
      | Some j =>
          if (j <=? i)%nat then
            match txs !! j with
            | Some originTx => inputs_to_fetch txs height i ins (AddTxOuts originTx height v) needed
            | None => (v, needed)                 (* not reached *)
            end
          else fetch
      | None => fetch
      end
  end.
Fixpoint txs_to_fetch (txs : list MsgTx) (height : Z) (i : nat) (rest : list MsgTx)
    (v : UtxoViewpoint) (needed : list OutPoint) : UtxoViewpoint * list OutPoint :=
  match rest with
  | [] => (v, needed)
  | tx :: rest =>
      let '(v, needed) := inputs_to_fetch txs height i (TxIns tx) v needed in
      txs_to_fetch txs height (S i) rest v needed
  end.
(** A block without transactions is sliced out of range. *)
Definition findInputsToFetch (b : Block) (v : UtxoViewpoint) : ChainRes (UtxoViewpoint * list OutPoint) :=
  match block_txs b with
  | [] => CCrash
  | _ :: rest => COk (txs_to_fetch (block_txs b) (b_height b) 0 rest v [])
  end.
Definition fetchInputUtxos (db : utxo_db) (b : Block) (v : UtxoViewpoint) (s : utxoCache)
    : ChainRes (UtxoViewpoint * utxoCache) :=
  '(v, needed) ← findInputsToFetch b v;
  fetchUtxosFromCache db needed v s.
End Cache.
