(* ===== verification/ChainCacheFacts.v ===== *)
(** * Block chain: facts about the cache of unspent outputs

    The cache over the database is the ledger: fetching and flushing do not
    change it, and connecting a block does to it what the block does to the
    ledger, as long as no output is made that the database still holds. *)

From Stdlib Require Import ZArith Lia.
From stdpp Require Import base numbers list strings gmap.
From S2P Require Import Prelude ScriptNum WireBase WireTx ScriptToken Sighash WireMsg ChainCompress ChainCompressFacts ChainUtxo ChainStore ChainStoreFacts ChainCache.

Open Scope Z_scope.

(** ** Maps in slices *)

Lemma get_put_found op e ms ms' op' :
  put_found op e ms = Some ms' → ms_get op' ms' = if decide (op = op') then Some e else ms_get op' ms.
Proof.
  revert ms'. induction ms as [|[m k] ms IH]; intros ms'; [done|]. cbn [put_found ms_get].
  destruct (m !! op) as [x|] eqn:Hm.
  - intros [= <-]. cbn [ms_get]. destruct (decide (op = op')) as [->|Hne].
    + by rewrite lookup_insert_eq.
    + by rewrite lookup_insert_ne.
  - intros Hp. apply fmap_Some in Hp as (ms1 & Hp & ->). cbn [ms_get]. rewrite (IH _ Hp).
    destruct (decide (op = op')) as [<-|]; [by rewrite Hm|done].
Qed.
Lemma put_found_none op e ms : put_found op e ms = None ↔ ms_get op ms = None.
Proof.
  induction ms as [|[m k] ms IH]; [done|]. cbn [put_found ms_get]. destruct (m !! op); [done|].
  rewrite <- IH. by destruct (put_found op e ms).
Qed.
Lemma get_put_room n op e ms op' :
  ms_get op ms = None → ms_get op' (put_room n op e ms) = if decide (op = op') then Some e else ms_get op' ms.
Proof.
  induction ms as [|[m k] ms IH]; intros Hn; cbn [put_room ms_get] in *.
  - destruct (decide (op = op')) as [<-|Hne]; [by rewrite lookup_singleton_eq|by rewrite lookup_singleton_ne].
  - destruct (m !! op) eqn:Hm; [done|]. destruct (k <=? _); cbn [ms_get].
    + rewrite IH by done. destruct (decide (op = op')) as [<-|]; [by rewrite Hm|done].
    + destruct (decide (op = op')) as [<-|Hne]; [by rewrite lookup_insert_eq|by rewrite lookup_insert_ne].
Qed.
Lemma ms_get_put n op e ms op' :
  ms_get op' (ms_put n op e ms) = if decide (op = op') then Some e else ms_get op' ms.
Proof.
  unfold ms_put. destruct (put_found op e ms) as [ms'|] eqn:Hp; [by apply get_put_found|].
  by apply get_put_room, put_found_none with e.
Qed.
Lemma ms_get_delete op ms op' :
  ms_get op' (ms_delete op ms) = if decide (op = op') then None else ms_get op' ms.
Proof.
  induction ms as [|[m k] ms IH]; [by destruct (decide _)|]. cbn [ms_delete map ms_get fst snd].
  fold (ms_delete op ms). rewrite IH. destruct (decide (op = op')) as [<-|Hne].
  - by rewrite lookup_delete_eq.
  - by rewrite lookup_delete_ne.
Qed.

(** No outpoint is in two maps. *)
Fixpoint unique (ms : mapSlice) : Prop :=
  match ms with
  | [] => True
  | (m, _) :: ms => (∀ op, is_Some (m !! op) → ms_get op ms = None) ∧ unique ms
  end.

Lemma unique_put n op e ms : unique ms → unique (ms_put n op e ms).
Proof.
  unfold ms_put. intros Hu. destruct (put_found op e ms) as [ms'|] eqn:Hp.
  - revert ms' Hp Hu. induction ms as [|[m k] ms IH]; intros ms'; [done|]. cbn [put_found].
    destruct (m !! op) as [x|] eqn:Hm.
    + intros [= <-] [H1 H2]. split; [|done]. intros op'. destruct (decide (op = op')) as [<-|Hne].
      * intros _. by apply H1.
      * rewrite lookup_insert_ne by done. apply H1.
    + intros (ms1 & Hp & ->)%fmap_Some [H1 H2]. split; [|by apply IH]. intros op' Hop'.
      rewrite (get_put_found _ _ _ _ _ Hp). destruct (decide (op = op')) as [<-|].
      * rewrite Hm in Hop'. by destruct Hop'.
      * by apply H1.
  - apply put_found_none in Hp. induction ms as [|[m k] ms IH]; cbn [put_room].
    + by split.
    + cbn [ms_get] in Hp. destruct (m !! op) eqn:Hm; [done|]. destruct Hu as [H1 H2].
      destruct (k <=? _); (split; [|auto]).
      * intros op' Hop'. rewrite get_put_room by done. destruct (decide (op = op')) as [<-|]; [|by apply H1].
        rewrite Hm in Hop'. by destruct Hop'.
      * intros op'. destruct (decide (op = op')) as [<-|Hne]; [done|]. rewrite lookup_insert_ne by done. apply H1.
Qed.
Lemma unique_delete op ms : unique ms → unique (ms_delete op ms).
Proof.
  induction ms as [|[m k] ms IH]; [done|]. intros [H1 H2]. cbn [ms_delete map]. split; [|by apply IH].
  intros op' [x Hx]. apply lookup_delete_Some in Hx as [Hne Hx].
  change (ms_get op' (ms_delete op ms) = None). rewrite ms_get_delete.
  destruct (decide (op = op')); [done|]. by apply H1.
Qed.

(** The entries as one list. *)
Lemma all_entries_get ms op e :
  unique ms → (op, e) ∈ all_entries ms ↔ ms_get op ms = Some e.
Proof.
  unfold all_entries. induction ms as [|[m k] ms IH]; intros Hu; cbn [map concat ms_get fst].
  { split; [by intros ?%elem_of_nil|done]. }
  destruct Hu as [H1 H2]. rewrite elem_of_app, elem_of_map_to_list, IH by done.
  destruct (m !! op) as [x|] eqn:Hm.
  - rewrite (H1 op) by eauto. split; [by intros [[= ->]|]|by intros [= ->]; left].
  - split; [by intros [|]|by right].
Qed.
Lemma all_entries_NoDup ms : unique ms → NoDup (map fst (all_entries ms)).
Proof.
  unfold all_entries. induction ms as [|[m k] ms IH]; intros Hu; cbn [map concat fst]; [constructor|].
  destruct Hu as [H1 H2]. rewrite map_app. apply NoDup_app. split_and!.
  - apply NoDup_fst_map_to_list.
  - intros op Hop Hop'. apply list_elem_of_fmap in Hop as ([op1 e1] & -> & Hop).
    apply elem_of_map_to_list in Hop. apply list_elem_of_fmap in Hop' as ([op2 e2] & He & Hop'). cbn in He. subst op2.
    apply all_entries_get in Hop'; [|done]. rewrite (H1 op1) in Hop' by eauto. done.
  - by apply IH.
Qed.

Section Facts.
Context `{Sha} `{Keys}.
Context (new_max : list Z → Z → Z) (maps_memory : list Z → Z) (maxTotalMemoryUsage : Z).

(** ** The cache over the database as a ledger *)

Definition in_db (db : utxo_db) (op : OutPoint) (o : option UtxoEntry) : Prop :=
  dbFetchUtxoEntry (utxoSet db) op = COk o.
Definition db_ledger (db : utxo_db) : ledger := λ op,
  match dbFetchUtxoEntry (utxoSet db) op with COk (Some e) => Some (stxo_of e) | _ => None end.
Definition entry_state (o : option UtxoEntry) : option SpentTxOut :=
  match o with Some e => if IsSpent e then None else Some (stxo_of e) | None => None end.
Definition cache_ledger (db : utxo_db) (s : utxoCache) : ledger := λ op,
  match ms_get op (cachedEntries s) with Some o => entry_state o | None => db_ledger db op end.

(** What a cached entry says about the stored one: nil and fresh entries are
    not stored, an entry that is not modified is stored as it is. *)
Definition entry_ok (db : utxo_db) (op : OutPoint) (o : option UtxoEntry) : Prop :=
  match o with
  | None => in_db db op None
  | Some e =>
      utxo_fits e ∧ (isFresh e = true → in_db db op None) ∧
      (IsSpent e = false → isModified e = false → ∃ e', in_db db op (Some e') ∧ stxo_of e' = stxo_of e)
  end.
Definition db_ok (db : utxo_db) : Prop :=
  ∀ op, outpoint_fits op → ∃ o, in_db db op o ∧
    match o with
    | Some e => utxo_fits e ∧ IsSpent e = false ∧ isModified e = false ∧ isFresh e = false
    | None => True
    end.
Record cache_ok (db : utxo_db) (s : utxoCache) : Prop := {
  ok_unique : unique (cachedEntries s);
  ok_db : db_ok db;
  ok_entry op o : ms_get op (cachedEntries s) = Some o → outpoint_fits op ∧ entry_ok db op o
}.

Lemma entry_ok_db db op o : db_ok db → outpoint_fits op → in_db db op o → entry_ok db op o.
Proof.
  intros Hdb Hop Ho. destruct (Hdb op Hop) as (o' & Ho' & Hw). unfold in_db in *.
  rewrite Ho in Ho'. injection Ho' as <-. destruct o as [e|]; [|done]. destruct Hw as (H1 & H2 & H3 & H4).
  split_and!; [done|by rewrite H4|]. intros _ _. by exists e.
Qed.
Lemma in_db_ledger db op o : db_ok db → outpoint_fits op → in_db db op o → db_ledger db op = entry_state o.
Proof.
  intros Hdb Hop Ho. destruct (Hdb op Hop) as (o' & Ho' & Hw). unfold in_db, db_ledger in *.
  rewrite Ho in *. injection Ho' as <-. destruct o as [e|]; [|done]. destruct Hw as (_ & H2 & _). cbn. by rewrite H2.
Qed.

(** Memory is not part of the state. *)
Lemma cache_ok_memory db n s : cache_ok db (add_memory n s) ↔ cache_ok db s.
Proof. split; intros [H1 H2 H3]; by split. Qed.

Lemma put_entry_ok db op o s :
  cache_ok db s → outpoint_fits op → entry_ok db op o → cache_ok db (put_entry new_max op o s).
Proof.
  intros [H1 H2 H3] Hop Ho. split; [by apply unique_put|done|]. intros op' o'. cbn [put_entry cachedEntries].
  rewrite ms_get_put. destruct (decide (op = op')) as [<-|]; [by intros [= <-]|apply H3].
Qed.
Lemma put_entry_ledger db op o s op' :
  cache_ledger db (put_entry new_max op o s) op' =
  if decide (op = op') then entry_state o else cache_ledger db s op'.
Proof. unfold cache_ledger. cbn [put_entry cachedEntries]. rewrite ms_get_put. by destruct (decide (op = op')). Qed.

(** ** Fetching *)

Lemma fetch_db_ok db ops :
  db_ok db → Forall outpoint_fits ops →
  ∃ l, fetch_db db ops = COk l ∧ map fst l = ops ∧ Forall (λ p, in_db db (fst p) (snd p)) l.
Proof.
  intros Hdb. induction 1 as [|op ops Hop _ IH]; [by exists []|]. cbn [fetch_db].
  destruct (Hdb op Hop) as (o & Ho & _). destruct IH as (l & -> & <- & Hl). unfold in_db in Ho. rewrite Ho.
  exists ((op, o) :: l). split_and!; [done|done|by constructor].
Qed.
Lemma store_fetched_ok db l s :
  cache_ok db s → Forall (λ p, outpoint_fits (fst p) ∧ in_db db (fst p) (snd p)) l →
  Forall (λ p, ms_get (fst p) (cachedEntries s) = None ∨ ms_get (fst p) (cachedEntries s) = Some (snd p)) l →
  cache_ok db (store_fetched new_max l s) ∧ same (cache_ledger db (store_fetched new_max l s)) (cache_ledger db s) ∧
  (∀ op o, ms_get op (cachedEntries s) = Some o → ms_get op (cachedEntries (store_fetched new_max l s)) = Some o) ∧
  (∀ p, p ∈ l → ms_get (fst p) (cachedEntries (store_fetched new_max l s)) = Some (snd p)).
Proof.
  intros Hs Hl. revert s Hs. induction Hl as [|[op o] l [Hop Ho] Hl IH]; intros s Hs Hn.
  { split_and!; [done|done|done|by intros p ?%elem_of_nil]. }
  apply Forall_cons in Hn as [Hn Hn']. cbn [fst snd] in *.
  set (s1 := add_memory (memoryUsage o) (put_entry new_max op o s)).
  change (store_fetched new_max ((op, o) :: l) s) with (store_fetched new_max l s1).
  pose proof (ok_db _ _ Hs) as Hdb.
  assert (Hs1 : cache_ok db s1).
  { apply cache_ok_memory, put_entry_ok; [done|done|by apply entry_ok_db]. }
  assert (Hg : ∀ op', ms_get op' (cachedEntries s1) = if decide (op = op') then Some o else ms_get op' (cachedEntries s)).
  { intros op'. apply ms_get_put. }
  assert (Hl1 : same (cache_ledger db s1) (cache_ledger db s)).
  { intros op'. change (cache_ledger db s1 op') with (cache_ledger db (put_entry new_max op o s) op').
    rewrite put_entry_ledger. destruct (decide (op = op')) as [<-|]; [|done]. unfold cache_ledger.
    destruct Hn as [->| ->]; [|done]. by rewrite (in_db_ledger db op o). }
  destruct (IH s1 Hs1) as (H1 & H2 & H3 & H4).
  { apply Forall_forall. intros p Hp. rewrite Hg. destruct (decide (op = fst p)) as [->|].
    - right. f_equal. rewrite Forall_forall in Hl. destruct (Hl p Hp) as [_ Hp2]. unfold in_db in *. congruence.
    - by apply (proj1 (Forall_forall _ _) Hn'). }
  split_and!; [done|by rewrite H2| |].
  - intros op' o' Hg'. apply H3. rewrite Hg. destruct (decide (op = op')) as [<-|]; [|done].
    destruct Hn as [Hn|Hn]; rewrite Hg' in Hn; [done|by symmetry].
  - intros p [->|Hp]%elem_of_cons; [|by apply H4]. cbn [fst snd]. apply H3. rewrite Hg. by rewrite decide_True.
Qed.

Lemma fill_entries_ok s ops l :
  map fst l = filter (λ op, ms_get op (cachedEntries s) = None) ops →
  Forall2 (λ op o, ms_get op (cachedEntries s) = Some o ∨ (op, o) ∈ l) ops (fill_entries s ops (map snd l)).
Proof.
  revert l. induction ops as [|op ops IH]; intros l Hl; cbn [fill_entries]; [constructor|].
  rewrite filter_cons in Hl. destruct (ms_get op (cachedEntries s)) as [o|] eqn:Hg.
  - rewrite decide_False in Hl by done. constructor; [by left|by apply IH].
  - rewrite decide_True in Hl by done. destruct l as [|[op1 o1] l]; [done|]. cbn in Hl. injection Hl as -> Hl.
    cbn [map snd]. constructor; [right; by left|].
    eapply Forall2_impl; [by apply IH|]. cbn. intros x y [?|?]; [by left|right; by right].
Qed.

(** Fetching finds the entries of the ledger and changes nothing. *)
Lemma fetchEntries_ok db ops s :
  cache_ok db s → Forall outpoint_fits ops →
  ∃ found s', fetchEntries new_max db ops s = COk (found, s') ∧ cache_ok db s' ∧
    same (cache_ledger db s') (cache_ledger db s) ∧
    Forall2 (λ op o, ms_get op (cachedEntries s') = Some o ∧ entry_state o = cache_ledger db s op) ops found.
Proof.
  intros Hs Hops. unfold fetchEntries. set (missing := filter _ ops).
  destruct (fetch_db_ok db missing (ok_db _ _ Hs)) as (l & -> & Hl & Hin).
  { apply Forall_forall. intros op [_ Hop]%list_elem_of_filter. by apply (proj1 (Forall_forall _ _) Hops). }
  unfold mbind, ChainRes_bind. eexists _, _. split; [done|].
  assert (Hmiss : ∀ p, p ∈ l → ms_get (fst p) (cachedEntries s) = None ∧ fst p ∈ ops).
  { intros p Hp. apply (list_elem_of_fmap_2 fst) in Hp. change (fst <$> l) with (map fst l) in Hp. rewrite Hl in Hp.
    by apply list_elem_of_filter in Hp. }
  destruct (store_fetched_ok db l s Hs) as (H1 & H2 & H3 & H4).
  { apply Forall_forall. intros p Hp. split; [|by apply (proj1 (Forall_forall _ _) Hin)].
    apply (proj1 (Forall_forall _ _) Hops). by apply Hmiss. }
  { apply Forall_forall. intros p Hp. left. by apply Hmiss. }
  split_and!; [done|done|].
  eapply Forall2_impl; [by apply fill_entries_ok|]. intros op o Hor.
  assert (Hg : ms_get op (cachedEntries (store_fetched new_max l s)) = Some o).
  { destruct Hor as [Hg|Hp]; [by apply H3|by apply (H4 (op, o))]. }
  split; [done|]. rewrite <- H2. unfold cache_ledger. by rewrite Hg.
Qed.

(** ** Spending and creating *)

Lemma Spend_flags e : isFresh (Spend e) = isFresh e ∧ utxo_fits (Spend e) = utxo_fits e.
Proof.
  unfold Spend. destruct (IsSpent e); [done|]. split; [|done]. unfold isFresh, has_flag, set_flags.
  cbn [packedFlags]. rewrite Z.land_lor_distr_l. change (Z.land (Z.lor tfSpent tfModified) tfFresh) with 0.
  by rewrite Z.lor_0_r.
Qed.

Lemma addTxIn_ok db ti s stxos st :
  cache_ok db s → outpoint_fits (PreviousOutPoint ti) → cache_ledger db s (PreviousOutPoint ti) = Some st →
  ∃ s', addTxIn new_max db ti s stxos = COk (s', (λ l, l ++ [st]) <$> stxos) ∧ cache_ok db s' ∧
    ∀ op, cache_ledger db s' op = if decide (PreviousOutPoint ti = op) then None else cache_ledger db s op.
Proof.
  intros Hs Hop Hst. unfold addTxIn. set (op := PreviousOutPoint ti) in *.
  destruct (fetchEntries_ok db [op] s Hs) as (found & s1 & -> & Hs1 & Hsame & Hf); [by constructor|].
  inversion Hf as [|? o ? ? [Hg He] Hnil]; subst. inversion Hnil; subst. rewrite Hst in He.
  destruct o as [e|]; [|done]. cbn in He. destruct (IsSpent e) eqn:Hsp; [done|]. injection He as <-.
  unfold mbind, ChainRes_bind. eexists. split; [done|].
  destruct (ok_entry _ _ Hs1 _ _ Hg) as [_ (Hfit & Hfresh & _)]. destruct (Spend_flags e) as [HF HU].
  assert (Hput : cache_ok db (put_entry new_max op (Some (Spend e)) s1)).
  { apply put_entry_ok; [done|done|]. cbn. rewrite HF, HU, Spend_spent. by split_and!. }
  rewrite HF. destruct (isFresh e) eqn:Hfe.
  - split.
    + apply cache_ok_memory. destruct Hput as [H1 H2 H3]. split; [by apply unique_delete|done|].
      intros op' o'. cbn [drop_entry cachedEntries]. rewrite ms_get_delete.
      destruct (decide (op = op')); [done|apply H3].
    + intros op'. unfold cache_ledger. cbn [add_memory drop_entry cachedEntries put_entry].
      rewrite ms_get_delete, ms_get_put. destruct (decide (op = op')) as [<-|].
      * by rewrite (in_db_ledger db op None); [|apply Hs|done|apply Hfresh].
      * apply Hsame.
  - split; [by apply cache_ok_memory|]. intros op'.
    change (cache_ledger db (add_memory (- memoryUsage None) (put_entry new_max op (Some (Spend e)) s1)) op')
      with (cache_ledger db (put_entry new_max op (Some (Spend e)) s1) op').
    rewrite put_entry_ledger. destruct (decide (op = op')); [cbn; by rewrite Spend_spent|apply Hsame].
Qed.

Lemma add_ins_ok db ins s stxos :
  cache_ok db s → Forall outpoint_fits (map PreviousOutPoint ins) → NoDup (map PreviousOutPoint ins) →
  (∀ op, op ∈ map PreviousOutPoint ins → is_Some (cache_ledger db s op)) →
  ∃ s' recs, add_ins new_max db ins s stxos = COk (s', (λ l, l ++ recs) <$> stxos) ∧ cache_ok db s' ∧
    Forall2 (λ ti r, cache_ledger db s (PreviousOutPoint ti) = Some r) ins recs ∧
    ∀ op, cache_ledger db s' op = if decide (op ∈ map PreviousOutPoint ins) then None else cache_ledger db s op.
Proof.
  revert s stxos. induction ins as [|ti ins IH]; intros s stxos Hs Hf Hnd Hin.
  { exists s, []. split_and!; [|done|constructor|].
    - cbn. destruct stxos as [l|]; [cbn; by rewrite app_nil_r|done].
    - intros op. by rewrite decide_False by apply not_elem_of_nil. }
  cbn [map] in *. apply Forall_cons in Hf as [Hf1 Hf2]. apply NoDup_cons in Hnd as [Hnd1 Hnd2].
  destruct (Hin (PreviousOutPoint ti)) as [st Hst]; [by left|].
  destruct (addTxIn_ok db ti s stxos st Hs Hf1 Hst) as (s1 & He & Hs1 & Hl1). cbn [add_ins]. rewrite He.
  destruct (IH s1 ((λ l, l ++ [st]) <$> stxos) Hs1 Hf2 Hnd2) as (s2 & recs & Hr & Hs2 & Hrec & Hl2).
  { intros op Hop. rewrite Hl1. rewrite decide_False by (intros Hx; apply Hnd1; by rewrite Hx). apply Hin. by right. }
  exists s2, (st :: recs). unfold mbind, ChainRes_bind. rewrite Hr. split_and!; [|done| |].
  - destruct stxos as [l|]; [cbn; by rewrite <- app_assoc|done].
  - constructor; [done|]. eapply Forall2_impl; [|intros x y Hxy; exact Hxy].
    assert (Hin2 : ∀ t, t ∈ ins → PreviousOutPoint ti ≠ PreviousOutPoint t).
    { intros t Ht He'. apply Hnd1. rewrite He'. by apply list_elem_of_fmap_2. }
    clear -Hrec Hl1 Hin2. induction Hrec as [|t r ins recs Ht Hrec IH']; constructor.
    + rewrite Hl1 in Ht. by rewrite decide_False in Ht by (apply Hin2; by left).
    + apply IH'. intros t' Ht'. apply Hin2. by right.
  - intros op. rewrite Hl2, Hl1. destruct (decide (op ∈ map PreviousOutPoint ins)) as [Hi|Hi].
    + by rewrite decide_True by by right.
    + destruct (decide (PreviousOutPoint ti = op)) as [<-|Hne].
      * by rewrite decide_True by by left.
      * rewrite decide_False; [done|]. intros [->|?]%elem_of_cons; done.
Qed.

(** What the outputs of a transaction must be to be stored. *)
Definition outs_fit (db : utxo_db) (height : Z) (tx : MsgTx) : Prop :=
  height_ok height ∧
  ∀ p, p ∈ spendable tx → amount_ok (Value (snd p)) ∧ script_fits (PkScript (snd p)) ∧ in_db db (fst p) None.

Lemma outpoints_fit tx p : p ∈ outpoints tx → outpoint_fits (fst p).
Proof.
  unfold outpoints. intros Hp. apply elem_of_lookup_imap in Hp as (i & to & -> & _). cbn. split; [apply sha256_size|].
  unfold unsigned. cbn. pose proof (Z.mod_pos_bound (Z.of_nat i) (2 ^ 32) ltac:(lia)). unfold wrap_u. lia.
Qed.
Lemma cache_addTxOuts_ok db height tx s :
  cache_ok db s → outs_fit db height tx →
  cache_ok db (cache_addTxOuts new_max tx height s) ∧
  ∀ op, cache_ledger db (cache_addTxOuts new_max tx height s) op =
    match created height tx op with Some st => Some st | None => cache_ledger db s op end.
Proof.
  intros Hs [Hh Hf]. unfold cache_addTxOuts, created, spendable in *.
  assert (Hall : ∀ p, p ∈ outpoints tx → outpoint_fits (fst p)) by apply outpoints_fit.
  induction (outpoints tx) as [|p l IH] using rev_ind; [done|].
  rewrite fold_left_app, List.filter_app in *. cbn [fold_left List.filter] in *.
  destruct IH as [IH1 IH2].
  { intros q Hq. apply Hf, elem_of_app. by left. }
  { intros q Hq. apply Hall, elem_of_app. by left. }
  set (s1 := fold_left _ l s) in *. unfold cache_addTxOut.
  destruct (IsUnspendable (PkScript (snd p))) eqn:Eu; cbn [negb] in *.
  { rewrite app_nil_r in *. done. }
  assert (Hp : p ∈ List.filter (λ p, negb (IsUnspendable (PkScript (snd p)))) l ++ [p])
    by (apply elem_of_app; right; by left).
  destruct (Hf p Hp) as (Ha & Hsc & Hdb). set (e := mkUtxoEntry _ _ _ _).
  destruct (new_entry (snd p) height (IsCoinBaseTx tx)) as [Hsp Hst]. fold e in Hsp, Hst.
  split.
  - apply cache_ok_memory, put_entry_ok; [done| |].
    + apply Hall, elem_of_app. right. by left.
    + split_and!; [by split_and!|done|]. intros _ Hm. exfalso. revert Hm. unfold e. by destruct (IsCoinBaseTx tx).
  - intros op. change (cache_ledger db (add_memory (memoryUsage (Some e)) (put_entry new_max (fst p) (Some e) s1)) op)
      with (cache_ledger db (put_entry new_max (fst p) (Some e) s1) op).
    rewrite put_entry_ledger, rev_app_distr. cbn [rev app List.find entry_state]. rewrite Hsp, Hst.
    case_bool_decide as Hd.
    + by rewrite decide_True.
    + rewrite decide_False by done. apply IH2.
Qed.

(** A transaction that fits a ledger and the database. *)
Definition tx_fits (db : utxo_db) (height : Z) (tx : MsgTx) (L : ledger) : Prop :=
  NoDup (inputs tx) ∧ (∀ op, op ∈ inputs tx → outpoint_fits op ∧ is_Some (L op)) ∧ outs_fit db height tx.
Fixpoint txs_fit (db : utxo_db) (height : Z) (txs : list MsgTx) (L : ledger) : Prop :=
  match txs with
  | [] => True
  | tx :: txs => tx_fits db height tx L ∧ txs_fit db height txs (ledger_tx height tx L)
  end.

(** The records of what a ledger held for the inputs. *)
Definition ledger_records (tx : MsgTx) (L : ledger) (recs : list SpentTxOut) : Prop :=
  Forall2 (λ op r, L op = Some r) (inputs tx) recs.

Lemma cache_connectTransaction_ok db height tx s stxos :
  cache_ok db s → tx_fits db height tx (cache_ledger db s) →
  ∃ s' recs, cache_connectTransaction new_max db tx height s stxos = COk (s', (λ l, l ++ recs) <$> stxos) ∧
    cache_ok db s' ∧ same (cache_ledger db s') (ledger_tx height tx (cache_ledger db s)) ∧
    ledger_records tx (cache_ledger db s) recs.
Proof.
  intros Hs (Hnd & Hin & Hout).
  assert (Hadd : ∃ s1 recs, addTxIns new_max db tx s stxos = COk (s1, (λ l, l ++ recs) <$> stxos) ∧ cache_ok db s1 ∧
    ledger_records tx (cache_ledger db s) recs ∧
    ∀ op, cache_ledger db s1 op = if decide (op ∈ inputs tx) then None else cache_ledger db s op).
  { unfold addTxIns, ledger_records, inputs in *. destruct (IsCoinBaseTx tx).
    - exists s, []. split_and!; [|done|constructor|].
      + destruct stxos as [l|]; [cbn; by rewrite app_nil_r|done].
      + intros op. by rewrite decide_False by apply not_elem_of_nil.
    - destruct (add_ins_ok db (TxIns tx) s stxos) as (s1 & recs & ? & ? & Hr & ?); [done| |done| |].
      + apply Forall_forall. intros op Hop. by apply Hin.
      + intros op Hop. by apply Hin.
      + exists s1, recs. split_and!; [done|done|by apply Forall2_fmap_l|done]. }
  destruct Hadd as (s1 & recs & He & Hs1 & Hrec & Hl). unfold cache_connectTransaction. rewrite He.
  unfold mbind, ChainRes_bind. destruct (cache_addTxOuts_ok db height tx s1 Hs1 Hout) as [Hok Hlo].
  eexists _, recs. split_and!; [done|done| |done]. intros op. rewrite Hlo. unfold ledger_tx. by rewrite Hl.
Qed.

Lemma tx_fits_proper db height tx L L' : same L L' → tx_fits db height tx L → tx_fits db height tx L'.
Proof. intros HL (H1 & H2 & H3). split_and!; [done| |done]. intros op Hop. rewrite <- HL. auto. Qed.
Lemma txs_fit_proper db height txs L L' : same L L' → txs_fit db height txs L → txs_fit db height txs L'.
Proof.
  revert L L'. induction txs as [|tx txs IH]; intros L L' HL; [done|]. intros [H1 H2].
  split; [by eapply tx_fits_proper|]. eapply IH; [|exact H2]. by rewrite HL.
Qed.

(** The records of a run of transactions. *)
Fixpoint txs_records (height : Z) (txs : list MsgTx) (L : ledger) : list SpentTxOut :=
  match txs with
  | [] => []
  | tx :: txs => omap L (inputs tx) ++ txs_records height txs (ledger_tx height tx L)
  end.
Lemma ledger_records_omap tx L recs : ledger_records tx L recs → recs = omap L (inputs tx).
Proof. intros Hr. induction Hr as [|op r ops recs Hop Hr IH]; [done|]. cbn. by rewrite Hop, IH. Qed.
Lemma omap_same L L' (ops : list OutPoint) : same L L' → omap L ops = omap L' ops.
Proof. intros HL. induction ops as [|op ops IH]; [done|]. cbn. by rewrite HL, IH. Qed.
Lemma txs_records_proper height txs L L' : same L L' → txs_records height txs L = txs_records height txs L'.
Proof.
  revert L L'. induction txs as [|tx txs IH]; intros L L' HL; [done|]. cbn [txs_records].
  rewrite (omap_same _ _ _ HL). f_equal. apply IH. by rewrite HL.
Qed.

Lemma cache_connect_ok db height txs s stxos :
  cache_ok db s → txs_fit db height txs (cache_ledger db s) →
  ∃ s', cache_connect_loop new_max db txs height s stxos =
      COk (s', (λ l, l ++ txs_records height txs (cache_ledger db s)) <$> stxos) ∧
    cache_ok db s' ∧ same (cache_ledger db s') (ledger_txs height txs (cache_ledger db s)).
Proof.
  revert s stxos. induction txs as [|tx txs IH]; intros s stxos Hs Hf.
  { exists s. split_and!; [|done|done]. destruct stxos as [l|]; [cbn; by rewrite app_nil_r|done]. }
  destruct Hf as [Hf1 Hf2]. cbn [cache_connect_loop txs_records].
  destruct (cache_connectTransaction_ok db height tx s stxos Hs Hf1) as (s1 & r1 & -> & Hs1 & Hl1 & Hr1).
  apply ledger_records_omap in Hr1 as ->.
  destruct (IH s1 ((λ l, l ++ omap (cache_ledger db s) (inputs tx)) <$> stxos) Hs1) as (s2 & He & Hs2 & Hl2).
  { eapply txs_fit_proper; [|exact Hf2]. by symmetry. }
  exists s2. unfold mbind, ChainRes_bind. unfold mbind, ChainRes_bind in He. rewrite He. split_and!; [|done|].
  - rewrite (txs_records_proper _ _ _ _ Hl1). destruct stxos as [l|]; [cbn; by rewrite <- app_assoc|done].
  - rewrite Hl2, Hl1. done.
Qed.

(** ** Flushing *)

(** What writing an entry makes of what was stored. *)
Definition written (o : option UtxoEntry) (old : ChainRes (option UtxoEntry)) : ChainRes (option UtxoEntry) :=
  match o with
  | Some e => if IsSpent e then COk None else if isModified e then COk (Some (stored e)) else old
  | None => COk None
  end.

Lemma write_one op o l b :
  outpoint_fits op → match o with Some e => utxo_fits e | None => True end →
  ∃ b1, write_entries ((op, o) :: l) b = write_entries l b1 ∧
    ∀ op', outpoint_fits op' → dbFetchUtxoEntry b1 op' =
      if decide (op = op') then written o (dbFetchUtxoEntry b op) else dbFetchUtxoEntry b op'.
Proof.
  intros Hop Ho. destruct o as [e|]; cbn [write_entries written].
  2: { eexists. split; [done|]. intros op' Hop'. by apply fetch_delete. }
  destruct (IsSpent e) eqn:Es; [eexists; split; [done|]; intros op' Hop'; by apply fetch_delete|].
  destruct (isModified e); cbn [negb].
  - destruct (utxo_roundtrip e Ho Es) as (ser & Hser & Hne & Hd). unfold dbPutUtxoEntry. rewrite Es, Hser.
    unfold mbind, ChainRes_bind. eexists. split; [done|]. intros op' Hop'. by apply fetch_insert.
  - exists b. split; [done|]. intros op' _. by destruct (decide (op = op')) as [->|].
Qed.
Lemma write_entries_ok l b :
  NoDup (map fst l) →
  (∀ op o, (op, o) ∈ l → outpoint_fits op ∧ match o with Some e => utxo_fits e | None => True end) →
  ∃ b', write_entries l b = COk b' ∧
    ∀ op, outpoint_fits op →
      (∀ o, (op, o) ∈ l → dbFetchUtxoEntry b' op = written o (dbFetchUtxoEntry b op)) ∧
      (op ∉ map fst l → dbFetchUtxoEntry b' op = dbFetchUtxoEntry b op).
Proof.
  revert b. induction l as [|[op o] l IH]; intros b Hnd Hf.
  { exists b. split; [done|]. intros op _. split; [by intros o ?%elem_of_nil|done]. }
  cbn [map fst] in *. apply NoDup_cons in Hnd as [Hn Hnd].
  destruct (Hf op o) as [Hop Ho]; [by left|]. destruct (write_one op o l b Hop Ho) as (b1 & -> & Hb1).
  destruct (IH b1 Hnd) as (b' & -> & Hb'); [intros op' o' Hi; apply Hf; by right|].
  exists b'. split; [done|]. intros op' Hop'. destruct (Hb' op' Hop') as [H1 H2]. split.
  - intros o' [[= -> ->]|Hi]%elem_of_cons.
    + rewrite H2, Hb1 by done. by rewrite decide_True.
    + rewrite (H1 _ Hi), Hb1 by done. rewrite decide_False; [done|]. intros ->. apply Hn.
      by apply (list_elem_of_fmap_2 fst) in Hi.
  - intros [Hne Hni]%not_elem_of_cons. rewrite H2, Hb1 by done. by rewrite decide_False.
Qed.

Lemma stored_flags e :
  utxo_fits (stored e) = utxo_fits e ∧ IsSpent (stored e) = false ∧ isModified (stored e) = false ∧
  isFresh (stored e) = false ∧ stxo_of (stored e) = stxo_of e.
Proof.
  unfold stored, stxo_of, entry_IsCoinBase, IsSpent, isModified, isFresh, has_flag, set_flags.
  cbn [amount pkScript blockHeight packedFlags]. by destruct (Z.land (packedFlags e) tfCoinBase =? tfCoinBase).
Qed.

(** Writing the cache keeps the ledger and leaves nothing cached. *)
Lemma writeCache_ok now best db s :
  cache_ok db s →
  ∃ db' s', writeCache now best db s = COk (db', s') ∧ cache_ok db' s' ∧
    utxoStateConsistency db' = Some best ∧ lastFlushHash s' = best ∧ ms_length (cachedEntries s') = 0%nat ∧
    ∀ op, outpoint_fits op →
      cache_ledger db' s' op = cache_ledger db s op ∧ db_ledger db' op = cache_ledger db s op.
Proof.
  intros [Hu Hdb He]. unfold writeCache.
  assert (Hfit : ∀ op o, (op, o) ∈ all_entries (cachedEntries s) →
    outpoint_fits op ∧ match o with Some e => utxo_fits e | None => True end).
  { intros op o Hi. apply all_entries_get in Hi; [|done]. apply He in Hi as [Hop Ho]. split; [done|].
    destruct o; [by destruct Ho|done]. }
  destruct (write_entries_ok (all_entries (cachedEntries s)) (utxoSet db) (all_entries_NoDup _ Hu) Hfit)
    as (b' & -> & Hb'). unfold mbind, ChainRes_bind. eexists _, _. split; [done|].
  set (s' := mkCache _ _ _ _). set (db' := mkUtxoDb _ _).
  assert (Hget : ∀ op, ms_get op (cachedEntries s') = None).
  { intros op. unfold s', deleteMaps. cbn [cachedEntries]. destruct (cachedEntries s); [done|]. cbn. done. }
  (* what is stored afterwards *)
  assert (Hst : ∀ op, outpoint_fits op → ∃ o, in_db db' op o ∧
    match o with Some e => utxo_fits e ∧ IsSpent e = false ∧ isModified e = false ∧ isFresh e = false
    | None => True end ∧ entry_state o = cache_ledger db s op).
  { intros op Hop. destruct (Hb' op Hop) as [H1 H2]. destruct (Hdb op Hop) as (old & Hold & Hw).
    unfold cache_ledger. destruct (ms_get op (cachedEntries s)) as [o|] eqn:Hg.
    - destruct (He op o Hg) as [_ Ho]. apply all_entries_get in Hg; [|done]. specialize (H1 o Hg).
      unfold in_db in *. rewrite Hold in H1. cbn [utxoSet db']. destruct o as [e|]; cbn [written] in H1.
      + destruct Ho as (Hf & _ & Hun). cbn [entry_state]. destruct (IsSpent e) eqn:Es; [by exists None|].
        destruct (isModified e) eqn:Em.
        * exists (Some (stored e)). destruct (stored_flags e) as (-> & ? & ? & ? & Hs). split_and!; try done.
          cbn. by rewrite Hs, (proj1 (proj2 (stored_flags e))).
        * destruct (Hun eq_refl eq_refl) as (e' & He' & Hse). unfold in_db in He'. rewrite Hold in He'. injection He' as ->.
          exists (Some e'). destruct Hw as (W1 & W2 & W3 & W4). split_and!; try done. cbn. by rewrite W2, Hse.
      + exists None. done.
    - assert (Hni : op ∉ map fst (all_entries (cachedEntries s))).
      { intros ([op1 o1] & -> & Hi)%list_elem_of_fmap. apply all_entries_get in Hi; [|done]. cbn in Hg. congruence. }
      exists old. unfold in_db in *. cbn [utxoSet db']. rewrite (H2 Hni), Hold. split; [done|]. split; [done|].
      symmetry. by apply in_db_ledger. }
  split_and!; [split| | | |].
  - unfold s', deleteMaps. cbn [cachedEntries]. destruct (cachedEntries s) as [|[m k] ms]; [done|]. cbn.
    split; [|done]. by intros op [x Hx].
  - intros op Hop. destruct (Hst op Hop) as (o & ? & ? & _). by exists o.
  - intros op o. by rewrite Hget.
  - done.
  - done.
  - unfold s', deleteMaps. cbn [cachedEntries]. by destruct (cachedEntries s) as [|[m k] ms].
  - intros op Hop. destruct (Hst op Hop) as (o & Ho & Hw & Hs).
    assert (Hl : db_ledger db' op = cache_ledger db s op).
    { rewrite <- Hs. unfold db_ledger, in_db in *. rewrite Ho. destruct o as [e|]; [|done].
      destruct Hw as (_ & Hsp & _). cbn. by rewrite Hsp. }
    split; [|done]. rewrite <- Hl. unfold cache_ledger. by rewrite Hget.
Qed.

Lemma ms_empty ms op : ms_length ms = 0%nat → ms_get op ms = None.
Proof.
  unfold ms_length. induction ms as [|[m k] ms IH]; [done|]. cbn [map list_sum foldr fst ms_get]. intros Hn.
  change (foldr Nat.add 0%nat (map (λ p, size (fst p)) ms)) with (list_sum (map (λ p, size (fst p)) ms)) in Hn.
  assert (Hm : size m = 0%nat) by lia. apply map_size_empty_inv in Hm as ->. rewrite lookup_empty. apply IH. lia.
Qed.

(** A flush does nothing, or writes everything for the block it names. *)
Lemma flush_cases now mode best db s :
  cache_ok db s →
  ∃ db' s', flush maps_memory maxTotalMemoryUsage now mode best db s = COk (db', s') ∧ cache_ok db' s' ∧
    (∀ op, outpoint_fits op → cache_ledger db' s' op = cache_ledger db s op) ∧
    ((mode ≠ FlushRequired ∧ db' = db ∧ s' = s) ∨
     (utxoStateConsistency db' = Some best ∧ lastFlushHash s' = best ∧ (∀ op, ms_get op (cachedEntries s') = None) ∧
      (∀ op, outpoint_fits op → db_ledger db' op = cache_ledger db s op))).
Proof.
  intros Hs. destruct (writeCache_ok now best db s Hs) as (db' & s' & Hw & Hok & Hc & Hlast & Hem & Hl).
  assert (Hwritten : ∃ db1 s1, COk (db', s') = COk (db1, s1) ∧ cache_ok db1 s1 ∧
    (∀ op, outpoint_fits op → cache_ledger db1 s1 op = cache_ledger db s op) ∧
    ((mode ≠ FlushRequired ∧ db1 = db ∧ s1 = s) ∨
     (utxoStateConsistency db1 = Some best ∧ lastFlushHash s1 = best ∧ (∀ op, ms_get op (cachedEntries s1) = None) ∧
      (∀ op, outpoint_fits op → db_ledger db1 op = cache_ledger db s op)))).
  { exists db', s'. split_and!; [done|done|intros op Hop; by apply Hl|]. right.
    split_and!; [done|done|intros op; by apply ms_empty|]. intros op Hop. by apply Hl. }
  assert (Hth : mode ≠ FlushRequired → ∀ t, ∃ db1 s1,
    (if t <=? totalMemoryUsage maps_memory s then writeCache now best db s else COk (db, s)) = COk (db1, s1) ∧ cache_ok db1 s1 ∧
    (∀ op, outpoint_fits op → cache_ledger db1 s1 op = cache_ledger db s op) ∧
    ((mode ≠ FlushRequired ∧ db1 = db ∧ s1 = s) ∨
     (utxoStateConsistency db1 = Some best ∧ lastFlushHash s1 = best ∧ (∀ op, ms_get op (cachedEntries s1) = None) ∧
      (∀ op, outpoint_fits op → db_ledger db1 op = cache_ledger db s op)))).
  { intros Hm t. rewrite Hw. destruct (_ <=? _); [done|]. exists db, s. split_and!; [done..|]. by left. }
  destruct mode; unfold flush.
  - assert (Hz : (0 <=? totalMemoryUsage maps_memory s) = true).
    { apply Z.leb_le. unfold totalMemoryUsage. apply Z.mod_pos_bound. lia. }
    by rewrite Hz, Hw.
  - by apply Hth.
  - case_bool_decide; [|by apply Hth]. exists db, s. split_and!; [done..|]. by left.
Qed.
Lemma flush_ok now mode best db s :
  cache_ok db s →
  ∃ db' s', flush maps_memory maxTotalMemoryUsage now mode best db s = COk (db', s') ∧ cache_ok db' s' ∧
    (∀ op, outpoint_fits op → cache_ledger db' s' op = cache_ledger db s op) ∧
    (mode = FlushRequired → ∀ op, outpoint_fits op → db_ledger db' op = cache_ledger db s op).
Proof.
  intros Hs. destruct (flush_cases now mode best db s Hs) as (db' & s' & He & Hok & Hl & Hc).
  exists db', s'. split_and!; [done..|]. intros ->. destruct Hc as [(? & _)|(_ & _ & _ & Hd)]; done.
Qed.

(** C22. The cache over the database behaves as the ledger of unspent
    outputs.  Fetching returns what the ledger says of each outpoint and
    changes nothing; connecting a block, when its inputs are in the ledger
    and the database does not hold its outputs, succeeds and does to the
    ledger what the block does; and flushing in any mode keeps the ledger,
    which after a required flush is what the database holds. *)
Theorem utxo_cache_refines db s :
  cache_ok db s →
  (∀ ops, Forall outpoint_fits ops → ∃ found s', fetchEntries new_max db ops s = COk (found, s') ∧ cache_ok db s' ∧
     same (cache_ledger db s') (cache_ledger db s) ∧ map entry_state found = map (cache_ledger db s) ops) ∧
  (∀ b stxos, txs_fit db (b_height b) (block_txs b) (cache_ledger db s) →
     ∃ s' recs, cache_connectTransactions new_max db b s stxos = COk (s', (λ l, l ++ recs) <$> stxos) ∧
       cache_ok db s' ∧ same (cache_ledger db s') (ledger_block b (cache_ledger db s))) ∧
  (∀ now mode best, ∃ db' s', flush maps_memory maxTotalMemoryUsage now mode best db s = COk (db', s') ∧
     cache_ok db' s' ∧ (∀ op, outpoint_fits op → cache_ledger db' s' op = cache_ledger db s op) ∧
     (mode = FlushRequired → ∀ op, outpoint_fits op → db_ledger db' op = cache_ledger db s op)).
Proof.
  intros Hs. split_and!.
  - intros ops Hops. destruct (fetchEntries_ok db ops s Hs Hops) as (found & s' & He & Hok & Hl & Hf).
    exists found, s'. split_and!; [done..|]. clear -Hf. induction Hf as [|op o ops found [_ Ho] Hf IH]; [done|].
    cbn. by rewrite Ho, IH.
  - intros b stxos Hf. destruct (cache_connect_ok db (b_height b) (block_txs b) s stxos Hs Hf) as (s' & He & Hok & Hl).
    by exists s', (txs_records (b_height b) (block_txs b) (cache_ledger db s)).
  - intros now mode best. by apply flush_ok.
Qed.

(** ** Filling a view *)

(** What a view keeps when the outputs of a block's transactions are added
    to it, and when entries of the cache are put into it. *)
Section Fill.
Context (P : UtxoViewpoint → Prop).
(** An outpoint is looked up when such a view has no key for it. *)
Definition missed (op : OutPoint) : Prop := ∃ w, P w ∧ has_key w op = false.

Lemma inputs_to_fetch_keeps txs height i ins v needed v' needed' :
  (∀ tx v, tx ∈ txs → P v → P (AddTxOuts tx height v)) →
  inputs_to_fetch txs height i ins v needed = (v', needed') → P v →
  P v' ∧ ∀ op, op ∈ needed' → op ∈ needed ∨ (op ∈ map PreviousOutPoint ins ∧ missed op).
Proof.
  intros HP. revert v needed. induction ins as [|ti ins IH]; intros v needed; cbn [inputs_to_fetch map].
  { intros [= <- <-] Hf. split; [done|]. by left. }
  intros He Hf.
  assert (Hnext : ∀ v1, P v1 → (inputs_to_fetch txs height i ins v1 needed = (v', needed') ∨
      (missed (PreviousOutPoint ti) ∧ inputs_to_fetch txs height i ins v1 (needed ++ [PreviousOutPoint ti]) = (v', needed'))) →
    P v' ∧ ∀ op, op ∈ needed' → op ∈ needed ∨ (op ∈ PreviousOutPoint ti :: map PreviousOutPoint ins ∧ missed op)).
  { intros v1 Hv1 [Hr|[Hm Hr]]; apply IH in Hr as [H1 H2]; try done; (split; [done|]); intros op Hop; specialize (H2 op Hop); set_solver. }
  assert (Hkey : has_key v (PreviousOutPoint ti) = false → missed (PreviousOutPoint ti)) by (intros ?; by exists v).
  destruct (in_flight txs _) as [j|].
  - destruct (j <=? i)%nat.
    + destruct (txs !! j) as [tx|] eqn:Ej.
      * apply (Hnext (AddTxOuts tx height v)); [|by left]. apply HP; [|done]. by apply list_elem_of_lookup_2 with j.
      * injection He as <- <-. split; [done|]. by left.
    + apply (Hnext v); [done|]. destruct (has_key v _); [by left|right; auto].
  - apply (Hnext v); [done|]. destruct (has_key v _); [by left|right; auto].
Qed.
Lemma txs_to_fetch_keeps txs height i rest v needed v' needed' :
  (∀ tx v, tx ∈ txs → P v → P (AddTxOuts tx height v)) →
  txs_to_fetch txs height i rest v needed = (v', needed') → P v →
  P v' ∧ ∀ op, op ∈ needed' → op ∈ needed ∨ ((∃ tx, tx ∈ rest ∧ op ∈ map PreviousOutPoint (TxIns tx)) ∧ missed op).
Proof.
  intros HP. revert i v needed. induction rest as [|tx rest IH]; intros i v needed; cbn [txs_to_fetch].
  { intros [= <- <-] Hf. split; [done|]. by left. }
  destruct (inputs_to_fetch txs height i (TxIns tx) v needed) as [v1 n1] eqn:E1. intros Hr Hf.
  apply inputs_to_fetch_keeps in E1 as [Hv1 Hn1]; [|done..]. apply IH in Hr as [Hv2 Hn2]; [|done].
  split; [done|]. intros op Hop. destruct (Hn2 op Hop) as [Hop'|[(tx' & ? & ?) ?]].
  - destruct (Hn1 op Hop') as [?|[? ?]]; [by left|]. right. split; [|done]. exists tx. split; [left|done].
  - right. split; [|done]. exists tx'. split; [by right|done].
Qed.

Lemma fetch_keeps db ops v s :
  cache_ok db s → Forall outpoint_fits ops →
  (∀ op o v, op ∈ ops → outpoint_fits op → entry_ok db op o → entry_state o = cache_ledger db s op → P v → P (put_fetched (op, o) v)) →
  P v →
  ∃ v' s', fetchUtxosFromCache new_max db ops v s = COk (v', s') ∧ P v' ∧ cache_ok db s' ∧
    same (cache_ledger db s') (cache_ledger db s).
Proof.
  intros Hs Hops HP Hv. destruct (fetchEntries_ok db ops s Hs Hops) as (found & s1 & He & Hs1 & Hl & Hfound).
  unfold fetchUtxosFromCache. destruct ops as [|op0 ops0] eqn:Eops; [by exists v, s|].
  rewrite <- Eops in *. rewrite He. eexists _, s1. split; [done|]. split; [|done]. clear He Eops Hops.
  revert v Hv. induction Hfound as [|op o ops1 found1 [Hg Ho] Hfound IH]; intros v Hv; [done|].
  cbn [zip zip_with fold_left]. apply IH; [intros; apply HP; [by right|done..]|]. destruct (ok_entry _ _ Hs1 _ _ Hg).
  apply HP; [by left|done..].
Qed.

(** The inputs of all transactions but the first one are looked up. *)
Lemma fetchInputUtxos_keeps db b v s :
  cache_ok db s → block_txs b ≠ [] →
  Forall (λ tx, Forall outpoint_fits (map PreviousOutPoint (TxIns tx))) (tail (block_txs b)) →
  (∀ tx v, tx ∈ block_txs b → P v → P (AddTxOuts tx (b_height b) v)) →
  (∀ op o v, missed op → outpoint_fits op → entry_ok db op o → entry_state o = cache_ledger db s op → P v → P (put_fetched (op, o) v)) →
  P v →
  ∃ v' s', fetchInputUtxos new_max db b v s = COk (v', s') ∧ P v' ∧ cache_ok db s' ∧
    same (cache_ledger db s') (cache_ledger db s).
Proof.
  intros Hs Hne Hins Hadd Hput Hv. unfold fetchInputUtxos, findInputsToFetch.
  destruct (block_txs b) as [|tx0 rest] eqn:Eb; [done|]. rewrite <- Eb in *. unfold mbind, ChainRes_bind.
  destruct (txs_to_fetch _ _ _ _ _ _) as [v1 needed] eqn:Et.
  apply txs_to_fetch_keeps in Et as [Hv1 Hn]; [|done..]. apply fetch_keeps; [done| | |done].
  2: { intros op o w Hop. apply Hput. by destruct (Hn op Hop) as [?%elem_of_nil|[_ ?]]. }
  apply Forall_forall. intros op Hop. destruct (Hn op Hop) as [?%elem_of_nil|[(tx & Htx & Hin) _]]; [done|].
  rewrite Eb in Hins. by apply (proj1 (Forall_forall _ _) (proj1 (Forall_forall _ _) Hins tx Htx)).
Qed.
End Fill.

(** A view holds the state of every output that was fetched into it. *)
Lemma unspent_put op o v op' :
  unspent (put_fetched (op, o) v) op' = if decide (op = op') then entry_state o else unspent v op'.
Proof.
  unfold put_fetched. cbn [fst snd]. destruct o as [e|]; [apply unspent_set|]. unfold unspent, set_nil. cbn [entries].
  case_decide as Hd; [subst; by rewrite lookup_delete_eq|by rewrite lookup_delete_ne].
Qed.
Lemma fetch_complete db ops v s v' s' :
  cache_ok db s → Forall outpoint_fits ops → fetchUtxosFromCache new_max db ops v s = COk (v', s') →
  ∀ op, op ∈ ops → unspent v' op = cache_ledger db s op.
Proof.
  intros Hs Hops Hr. destruct (fetchEntries_ok db ops s Hs Hops) as (found & s1 & He & _ & _ & Hfound).
  unfold fetchUtxosFromCache in Hr. destruct ops as [|op0 ops0] eqn:Eops; [by intros op ?%elem_of_nil|].
  rewrite <- Eops in *. rewrite He in Hr. injection Hr as <- <-. clear He Eops Hops.
  enough (∀ op, (op ∈ ops ∨ unspent v op = cache_ledger db s op) →
    unspent (fold_left (λ v p, put_fetched p v) (zip ops found) v) op = cache_ledger db s op) by auto.
  revert v. induction Hfound as [|op o ops1 found1 [_ Ho] Hfound IH]; intros v op' Hop'; cbn [zip zip_with fold_left].
  { destruct Hop' as [?%elem_of_nil|?]; done. }
  apply IH. rewrite unspent_put. case_decide as Hd; [subst; by right|]. rewrite elem_of_cons in Hop'. naive_solver.
Qed.

(** An entry that is cached is found without the database. *)
Lemma fetch_cached db op o s : ms_get op (cachedEntries s) = Some o → fetchEntries new_max db [op] s = COk ([o], s).
Proof.
  intros Hg. unfold fetchEntries. rewrite filter_cons, decide_False by by rewrite Hg. cbn. by rewrite Hg.
Qed.

(** An output that is made again after it was spent, before the spend
    is flushed, is marked as one that the database never had: when it is
    spent again it is only dropped from the cache, and the stored output of
    the first time is unspent once more. *)
Theorem recreated_output_returns db s ti txOut isCoinBase height e :
  cache_ok db s → outpoint_fits (PreviousOutPoint ti) → ms_get (PreviousOutPoint ti) (cachedEntries s) = None →
  in_db db (PreviousOutPoint ti) (Some e) → IsUnspendable (PkScript txOut) = false →
  ∃ s1 s2, addTxIn new_max db ti s None = COk (s1, None) ∧
    cache_ledger db s1 (PreviousOutPoint ti) = None ∧
    addTxIn new_max db ti (cache_addTxOut new_max (PreviousOutPoint ti) txOut isCoinBase height s1) None = COk (s2, None) ∧
    cache_ledger db s2 (PreviousOutPoint ti) = Some (stxo_of e).
Proof.
  intros Hs Hop Hg Hdb Hu.
  assert (Hst : cache_ledger db s (PreviousOutPoint ti) = Some (stxo_of e)).
  { unfold cache_ledger, db_ledger, in_db in *. by rewrite Hg, Hdb. }
  destruct (addTxIn_ok db ti s None _ Hs Hop Hst) as (s1 & He1 & Hs1 & Hl1).
  exists s1. unfold addTxIn at 2. unfold cache_addTxOut. rewrite Hu.
  set (e2 := mkUtxoEntry _ _ _ _). set (s2 := add_memory _ _).
  assert (Hg2 : ms_get (PreviousOutPoint ti) (cachedEntries s2) = Some (Some e2)).
  { unfold s2. cbn [add_memory put_entry cachedEntries]. rewrite ms_get_put. by rewrite decide_True. }
  rewrite (fetch_cached _ _ _ _ Hg2). unfold mbind, ChainRes_bind.
  assert (Hfr : isFresh (Spend e2) = true).
  { rewrite (proj1 (Spend_flags e2)). unfold e2. by destruct isCoinBase. }
  rewrite Hfr. eexists. split_and!; [done|rewrite Hl1; by rewrite decide_True|done|].
  unfold cache_ledger. cbn [add_memory drop_entry cachedEntries]. rewrite ms_get_delete, decide_True by done.
  unfold db_ledger, in_db in *. by rewrite Hdb.
Qed.
End Facts.
