(* ===== verification/ChainRules.v ===== *)
(** * Block chain: the rules that transactions and blocks keep

    The parts of btcd/blockchain/validate.go, weight.go and scriptval.go that
    need no chain: sanity of transactions and blocks, the inputs of a
    transaction against a view, signature operations, script checks.  Times
    are seconds, as the wire format has them. *)

From Stdlib Require Import ZArith Lia.
From stdpp Require Import base numbers list strings gmap.
From S2P Require Import Prelude ScriptNum WireBase WireTx ScriptStack ScriptToken Sighash WireMsg Taproot ScriptEngine ScriptExec ChainCompress ChainUtxo ChainError ChainNode ChainParams Merkle.

Open Scope Z_scope.

(** ** Constants *)

Definition MaxBlockWeight : Z := 4000000.
Definition MaxBlockBaseSize : Z := 1000000.
Definition MaxBlockSigOpsCost : Z := 80000.
Definition WitnessScaleFactor : Z := 4.
Definition SatoshiPerBitcoin : Z := 100000000.
Definition MaxSatoshi : Z := 21000000 * SatoshiPerBitcoin.
Definition baseSubsidy : Z := 50 * SatoshiPerBitcoin.
Definition MinCoinbaseScriptLen : Z := 2.
Definition MaxCoinbaseScriptLen : Z := 100.
Definition MaxTimeOffsetSeconds : Z := 2 * 60 * 60.
Definition serializedHeightVersion : Z := 2.
Definition BFFastAdd : Z := 1.
Definition BFNoPoWCheck : Z := 2.
Definition BFNone : Z := 0.

Definition has_behavior (flags f : Z) : bool := Z.land flags f =? f.

(** ** Transactions *)

Definition isNullOutpoint (op : OutPoint) : bool :=
  (op_Index op =? 0xffffffff) && bool_decide (op_Hash op = zeroHash).

Definition IsFinalizedTransaction (tx : MsgTx) (blockHeight blockTime : Z) : bool :=
  let lockTime := LockTime tx in
  if lockTime =? 0 then true else
  let blockTimeOrHeight := if lockTime <? LockTimeThreshold then blockHeight else blockTime in
  if lockTime <? blockTimeOrHeight then true
  else forallb (λ ti, Sequence ti =? 0xffffffff) (TxIns tx).

(** A negative count of halvings is a huge shift. *)
Definition CalcBlockSubsidy (height : Z) (p : Params) : Z :=
  if SubsidyReductionInterval p =? 0 then baseSubsidy else
  let halvings := Z.quot height (SubsidyReductionInterval p) in
  if halvings <? 0 then 0 else Z.shiftr baseSubsidy halvings.

(** The loop over the outputs, with the total so far. *)
Fixpoint check_outputs (outs : list TxOut) (totalSatoshi : Z) : VRes Z :=
  match outs with
  | [] => VOk totalSatoshi
  | out :: outs =>
      reject_if (Value out <? 0) ErrBadTxOutValue;;
      reject_if (MaxSatoshi <? Value out) ErrBadTxOutValue;;
      let totalSatoshi := int64 (totalSatoshi + Value out) in
      reject_if (totalSatoshi <? 0) ErrBadTxOutValue;;
      reject_if (MaxSatoshi <? totalSatoshi) ErrBadTxOutValue;;
      check_outputs outs totalSatoshi
  end.
Fixpoint has_duplicate {A} `{EqDecision A, Countable A} (l : list A) (seen : gset A) : bool :=
  match l with
  | [] => false
  | x :: l => bool_decide (x ∈ seen) || has_duplicate l ({[x]} ∪ seen)
  end.

Definition CheckTransactionSanity (tx : MsgTx) : VRes unit :=
  reject_if (length (TxIns tx) =? 0)%nat ErrNoTxInputs;;
  reject_if (length (TxOuts tx) =? 0)%nat ErrNoTxOutputs;;
  reject_if (MaxBlockBaseSize <? SerializeSizeStripped tx) ErrTxTooBig;;
  check_outputs (TxOuts tx) 0;;
  reject_if (has_duplicate (map PreviousOutPoint (TxIns tx)) ∅) ErrDuplicateTxInputs;;
  if IsCoinBaseTx tx then
    match TxIns tx with
    | ti :: _ =>
        let slen := zlen (SignatureScript ti) in
        reject_if ((slen <? MinCoinbaseScriptLen) || (MaxCoinbaseScriptLen <? slen)) ErrBadCoinbaseScriptLen
    | [] => VCrash
    end
  else reject_if (existsb (λ ti, isNullOutpoint (PreviousOutPoint ti)) (TxIns tx)) ErrBadTxInput.

(** ** Signature operations and weights *)

Definition CountSigOps (tx : MsgTx) : Z :=
  total (λ ti, GetSigOpCount (SignatureScript ti)) (TxIns tx) +
  total (λ out, GetSigOpCount (PkScript out)) (TxOuts tx).

Definition spendable_entry (v : UtxoViewpoint) (op : OutPoint) : option UtxoEntry :=
  match LookupEntry v op with
  | Some e => if IsSpent e then None else Some e
  | None => None
  end.

Fixpoint p2sh_sigops (ins : list TxIn) (v : UtxoViewpoint) (totalSigOps : Z) : VRes Z :=
  match ins with
  | [] => VOk totalSigOps
  | ti :: ins =>
      match spendable_entry v (PreviousOutPoint ti) with
      | None => ruleError ErrMissingTxOut
      | Some utxo =>
          if negb (isScriptHashScript (pkScript utxo)) then p2sh_sigops ins v totalSigOps else
          let numSigOps := GetPreciseSigOpCount (SignatureScript ti) (pkScript utxo) in
          let lastSigOps := totalSigOps in
          let totalSigOps := int64 (totalSigOps + numSigOps) in
          reject_if (totalSigOps <? lastSigOps) ErrTooManySigOps;;
          p2sh_sigops ins v totalSigOps
      end
  end.
Definition CountP2SHSigOps (tx : MsgTx) (isCoinBaseTx : bool) (v : UtxoViewpoint) : VRes Z :=
  if isCoinBaseTx then VOk 0 else p2sh_sigops (TxIns tx) v 0.

Definition GetTransactionWeight (tx : MsgTx) : Z :=
  SerializeSizeStripped tx * (WitnessScaleFactor - 1) + SerializeSize tx.
Definition GetBlockWeight (msg : MsgBlock) : Z :=
  MsgBlock_SerializeSizeStripped msg * (WitnessScaleFactor - 1) + MsgBlock_SerializeSize msg.

Fixpoint witness_sigops (ins : list TxIn) (v : UtxoViewpoint) (numSigOps : Z) : VRes Z :=
  match ins with
  | [] => VOk numSigOps
  | ti :: ins =>
      match spendable_entry v (PreviousOutPoint ti) with
      | None => ruleError ErrMissingTxOut
      | Some utxo =>
          witness_sigops ins v
            (int64 (numSigOps + GetWitnessSigOpCount (SignatureScript ti) (pkScript utxo) (Witness ti)))
      end
  end.
(** An error of [CountP2SHSigOps] is dropped: the cost is then 0. *)
Definition GetSigOpCost (tx : MsgTx) (isCoinBaseTx : bool) (v : UtxoViewpoint) (bip16 segWit : bool) : VRes Z :=
  let numSigOps := int64 (CountSigOps tx * WitnessScaleFactor) in
  let rest numSigOps :=
    if segWit && negb isCoinBaseTx then witness_sigops (TxIns tx) v numSigOps else VOk numSigOps in
  if bip16 then
    match CountP2SHSigOps tx isCoinBaseTx v with
    | VErr _ => VOk 0
    | VCrash => VCrash
    | VOk numP2SHSigOps => rest (int64 (numSigOps + numP2SHSigOps * WitnessScaleFactor))
    end
  else rest numSigOps.

(** ** The inputs of a transaction *)

Fixpoint check_inputs (ins : list TxIn) (txHeight : Z) (v : UtxoViewpoint) (p : Params)
    (totalSatoshiIn : Z) : VRes Z :=
  match ins with
  | [] => VOk totalSatoshiIn
  | ti :: ins =>
      match spendable_entry v (PreviousOutPoint ti) with
      | None => ruleError ErrMissingTxOut
      | Some utxo =>
          reject_if (entry_IsCoinBase utxo &&
            (int32 (txHeight - blockHeight utxo) <? CoinbaseMaturity p)) ErrImmatureSpend;;
          reject_if (amount utxo <? 0) ErrBadTxOutValue;;
          reject_if (MaxSatoshi <? amount utxo) ErrBadTxOutValue;;
          let lastSatoshiIn := totalSatoshiIn in
          let totalSatoshiIn := int64 (totalSatoshiIn + amount utxo) in
          reject_if ((totalSatoshiIn <? lastSatoshiIn) || (MaxSatoshi <? totalSatoshiIn)) ErrBadTxOutValue;;
          check_inputs ins txHeight v p totalSatoshiIn
      end
  end.
(** The sum of the outputs wraps as int64 does. *)
Definition sum_outputs (tx : MsgTx) : Z := fold_left (λ t out, int64 (t + Value out)) (TxOuts tx) 0.
Definition CheckTransactionInputs (tx : MsgTx) (txHeight : Z) (v : UtxoViewpoint) (p : Params) : VRes Z :=
  if IsCoinBaseTx tx then VOk 0 else
  totalSatoshiIn ← check_inputs (TxIns tx) txHeight v p 0;
  let totalSatoshiOut := sum_outputs tx in
  reject_if (totalSatoshiIn <? totalSatoshiOut) ErrSpendTooHigh;;
  VOk (int64 (totalSatoshiIn - totalSatoshiOut)).

(** ** Headers and blocks *)

Section Blocks.
Context `{Sha}.

Definition ShouldHaveSerializedBlockHeight (header : BlockHeader) : bool :=
  serializedHeightVersion <=? bh_Version header.

Definition checkProofOfWork (header : BlockHeader) (powLimit flags : Z) : VRes unit :=
  let target := CompactToBig (Bits header) in
  reject_if (target <=? 0) ErrUnexpectedDifficulty;;
  reject_if (powLimit <? target) ErrUnexpectedDifficulty;;
  if negb (has_behavior flags BFNoPoWCheck)
  then reject_if (target <? HashToBig (BlockHash header)) ErrHighHash
  else VOk tt.
Definition CheckProofOfWork (msg : MsgBlock) (powLimit : Z) : VRes unit :=
  checkProofOfWork (Header msg) powLimit BFNone.

(** A timestamp is a whole number of seconds here, so that the check of its
    precision passes. *)
Definition CheckBlockHeaderSanity (header : BlockHeader) (powLimit adjustedTime flags : Z) : VRes unit :=
  checkProofOfWork header powLimit flags;;
  reject_if (adjustedTime + MaxTimeOffsetSeconds <? bh_Timestamp header) ErrTimeTooNew.

Fixpoint check_sigops (txs : list MsgTx) (totalSigOps : Z) : VRes unit :=
  match txs with
  | [] => VOk tt
  | tx :: txs =>
      let lastSigOps := totalSigOps in
      let totalSigOps := int64 (totalSigOps + int64 (CountSigOps tx * WitnessScaleFactor)) in
      reject_if ((totalSigOps <? lastSigOps) || (MaxBlockSigOpsCost <? totalSigOps)) ErrTooManySigOps;;
      check_sigops txs totalSigOps
  end.
Fixpoint check_sanities (txs : list MsgTx) : VRes unit :=
  match txs with [] => VOk tt | tx :: txs => CheckTransactionSanity tx;; check_sanities txs end.

Definition checkBlockSanity (msg : MsgBlock) (powLimit adjustedTime flags : Z) : VRes unit :=
  let header := Header msg in
  CheckBlockHeaderSanity header powLimit adjustedTime flags;;
  let numTx := zlen (Transactions msg) in
  reject_if (numTx =? 0) ErrNoTransactions;;
  reject_if (MaxBlockBaseSize <? numTx) ErrBlockTooBig;;
  reject_if (MaxBlockBaseSize <? MsgBlock_SerializeSizeStripped msg) ErrBlockTooBig;;
  match Transactions msg with
  | [] => VCrash
  | first :: rest =>
      reject_if (negb (IsCoinBaseTx first)) ErrFirstTxNotCoinbase;;
      reject_if (existsb IsCoinBaseTx rest) ErrMultipleCoinbases;;
      check_sanities (Transactions msg);;
      match CalcMerkleRoot (Transactions msg) false with
      | Ok root =>
          reject_if (negb (bool_decide (MerkleRoot header = root))) ErrBadMerkleRoot;;
          reject_if (has_duplicate (map TxHash (Transactions msg)) ∅) ErrDuplicateTx;;
          check_sigops (Transactions msg) 0
      | _ => VCrash
      end
  end.
Definition CheckBlockSanity (msg : MsgBlock) (powLimit adjustedTime : Z) : VRes unit :=
  checkBlockSanity msg powLimit adjustedTime BFNone.
End Blocks.

(** ** The height in the coinbase *)

Definition compareScript (height : Z) (script : list byte) : VRes unit :=
  match AddInt64 NewScriptBuilder height with
  | Ok b =>
      match Script b with
      | (scriptHeight, None) => reject_if (negb (HasPrefix script scriptHeight)) ErrBadCoinbaseHeight
      | (_, Some _) => VErr (OtherError "script builder")
      end
  | _ => VCrash
  end.
Definition ExtractCoinbaseHeight (coinbaseTx : MsgTx) : VRes Z :=
  match TxIns coinbaseTx with
  | [] => VCrash
  | ti :: _ =>
      match SignatureScript ti with
      | [] => ruleError ErrMissingCoinbaseHeight
      | opcode :: rest =>
          if opcode =? OP_0 then VOk 0
          else if (OP_1 <=? opcode) && (opcode <=? OP_16) then VOk (int32 (opcode - (OP_1 - 1)))
          else
            let serializedLen := opcode in
            if zlen rest <? serializedLen then ruleError ErrMissingCoinbaseHeight else
            let b := take 4 (take (Z.to_nat serializedLen) rest) in
            let serializedHeight := int32 (le_val (b ++ replicate (4 - length b) 0)) in
            compareScript serializedHeight (SignatureScript ti);;
            VOk serializedHeight
      end
  end.
Definition CheckSerializedHeight (coinbaseTx : MsgTx) (wantHeight : Z) : VRes unit :=
  serializedHeight ← ExtractCoinbaseHeight coinbaseTx;
  reject_if (negb (serializedHeight =? wantHeight)) ErrBadCoinbaseHeight.
