(* ===== verification/ChainConnect.v ===== *)
(** * Block chain: blocks in the context of their chain

    The rest of btcd/blockchain/validate.go and scriptval.go, sequence locks
    of chain.go and checkpoints.go: what a block is checked against before
    it is connected. *)

From Stdlib Require Import ZArith Lia.
From stdpp Require Import base numbers list strings gmap.
From S2P Require Import Prelude ScriptNum WireBase WireTx ScriptStack ScriptToken Sighash WireMsg Taproot ScriptEngine ScriptExec ChainCompress ChainUtxo ChainStore ChainError ChainNode ChainParams ChainWork ChainThreshold ChainCache Merkle ChainRules.

Open Scope Z_scope.

(** ** The chain as far as the checks use it *)

Record BlockChain := mkChain {
  chainParams : Params;
  c_index : blockIndex;
  bestChain : chainView;
  checkpoints : list Checkpoint;
  checkpointNode : option blockNode;
  nextCheckpoint : option Checkpoint;
  deploymentCaches : list thresholdStateCache;
  c_utxoCache : utxoCache;
  c_db : utxo_db
}.

Definition ChainM (A : Type) : Type := BlockChain → VRes A * BlockChain.
#[export] Instance ChainM_ret : MRet ChainM := λ A a b, (VOk a, b).
#[export] Instance ChainM_bind : MBind ChainM := λ A B f m b,
  match m b with
  | (VOk a, b) => f a b
  | (VErr e, b) => (VErr e, b)
  | (VCrash, b) => (VCrash, b)
  end.
Definition lift {A} (r : VRes A) : ChainM A := λ b, (r, b).
Definition asks {A} (f : BlockChain → A) : ChainM A := λ b, (VOk (f b), b).

Lemma ChainM_bind_ok {A B} (m : ChainM A) (f : A → ChainM B) c b c' :
  (m ≫= f) c = (VOk b, c') ↔ ∃ a c1, m c = (VOk a, c1) ∧ f a c1 = (VOk b, c').
Proof.
  unfold mbind, ChainM_bind. destruct (m c) as [[a|e|] c1]; split; try done.
  - intros. eauto.
  - by intros (? & ? & [= <- <-] & ?).
  - by intros (? & ? & ? & ?).
  - by intros (? & ? & ? & ?).
Qed.
Lemma lift_ok {A} (r : VRes A) c a c' : lift r c = (VOk a, c') ↔ r = VOk a ∧ c = c'.
Proof. unfold lift. split; [by intros [= -> ->]|by intros [-> ->]]. Qed.

(** ** Checkpoints *)

Definition HasCheckpoints (b : BlockChain) : bool := negb (length (checkpoints b) =? 0)%nat.
Definition LatestCheckpoint (b : BlockChain) : option Checkpoint := last (checkpoints b).
(** The map by height has the last of the checkpoints at a height. *)
Definition verifyCheckpoint (b : BlockChain) (height : Z) (h : Hash) : bool :=
  match last (List.filter (λ cp, cp_Height cp =? height) (checkpoints b)) with
  | None => true
  | Some cp => bool_decide (cp_Hash cp = h)
  end.

Definition set_checkpoint (node : option blockNode) (nxt : option Checkpoint) (b : BlockChain) : BlockChain :=
  mkChain (chainParams b) (c_index b) (bestChain b) (checkpoints b) node nxt (deploymentCaches b)
    (c_utxoCache b) (c_db b).
(** The checkpoints from the last one on, with the one after each. *)
Fixpoint find_checkpoint (b : BlockChain) (rcps : list Checkpoint) (after : option Checkpoint)
    : option (blockNode * option Checkpoint) :=
  match rcps with
  | [] => None
  | cp :: rcps =>
      match LookupNode (c_index b) (cp_Hash cp) with
      | Some node => if contains (bestChain b) node then Some (node, after) else find_checkpoint b rcps (Some cp)
      | None => find_checkpoint b rcps (Some cp)
      end
  end.
(** The checkpoint after the last one with the hash. *)
Fixpoint checkpoint_after (rcps : list Checkpoint) (h : Hash) (after : option Checkpoint) : option Checkpoint :=
  match rcps with
  | [] => None
  | cp :: rcps => if bool_decide (cp_Hash cp = h) then after else checkpoint_after rcps h (Some cp)
  end.
Definition findPreviousCheckpoint : ChainM (option blockNode) := λ b,
  match checkpoints b with
  | [] => (VOk None, b)
  | first :: _ =>
      match checkpointNode b, nextCheckpoint b with
      | None, None =>
          match find_checkpoint b (rev (checkpoints b)) None with
          | Some (node, nxt) => (VOk (Some node), set_checkpoint (Some node) nxt b)
          | None => (VOk None, set_checkpoint None (Some first) b)
          end
      | node, None => (VOk node, b)
      | node, Some nxt =>
          match tip (bestChain b) with
          | None => (VCrash, b)
          | Some t =>
              if n_height t <? cp_Height nxt then (VOk node, b) else
              match LookupNode (c_index b) (cp_Hash nxt) with
              | None => (VErr (AssertError "findPreviousCheckpoint failed lookup of known good block node"), b)
              | Some n =>
                  (VOk (Some n),
                   set_checkpoint (Some n) (checkpoint_after (rev (checkpoints b)) (cp_Hash nxt) None) b)
              end
          end
      end
  end.

Section Connect.
Context `{Crypto} `{Keys}.
Context (new_max : list Z → Z → Z).

(** ** Deployments *)

Definition set_caches (cs : list thresholdStateCache) (b : BlockChain) : BlockChain :=
  mkChain (chainParams b) (c_index b) (bestChain b) (checkpoints b) (checkpointNode b) (nextCheckpoint b)
    cs (c_utxoCache b) (c_db b).
Definition chain_deploymentState (prevNode : option blockNode) (id : nat) : ChainM ThresholdState := λ b,
  let '(r, cs) := deploymentState (chainParams b) (c_index b) prevNode id (deploymentCaches b) in
  (r, set_caches cs b).
Definition is_active (s : ThresholdState) : bool := bool_decide (s = ThresholdActive).

(** ** Headers and blocks in context *)

Definition CheckBlockHeaderContext (header : BlockHeader) (prevNode : blockNode) (flags : Z)
    (skipCheckpoint : bool) : ChainM unit :=
  params ← asks chainParams;
  lift (if negb (has_behavior flags BFFastAdd) then
          expectedDifficulty ← calcNextRequiredDifficulty params (Some prevNode) (bh_Timestamp header);
          reject_if (negb (Bits header =? expectedDifficulty)) ErrUnexpectedDifficulty;;
          medianTime ← CalcPastMedianTime (Some prevNode);
          reject_if (negb (medianTime <? bh_Timestamp header)) ErrTimeTooOld
        else VOk tt);;
  let blockHeight := int32 (n_height prevNode + 1) in
  lift (reject_if
    ((bh_Version header <? 2) && (BIP0034Height params <=? blockHeight) ||
     (bh_Version header <? 3) && (BIP0066Height params <=? blockHeight) ||
     (bh_Version header <? 4) && (BIP0065Height params <=? blockHeight)) ErrBlockVersionTooOld);;
  if skipCheckpoint then mret tt else
  ok ← asks (λ b, verifyCheckpoint b blockHeight (BlockHash header));
  lift (reject_if (negb ok) ErrBadCheckpoint);;
  node ← findPreviousCheckpoint;
  lift (match node with
        | Some cp => reject_if (blockHeight <? n_height cp) ErrForkTooOld
        | None => VOk tt
        end).

Definition checkBlockContext (msg : MsgBlock) (prevNode : blockNode) (flags : Z) : ChainM unit :=
  let header := Header msg in
  CheckBlockHeaderContext header prevNode flags false;;
  if has_behavior flags BFFastAdd then mret tt else
  csvState ← chain_deploymentState (Some prevNode) DeploymentCSV;
  blockTime ← lift (if is_active csvState then CalcPastMedianTime (Some prevNode)
                    else VOk (bh_Timestamp header));
  let blockHeight := int32 (n_height prevNode + 1) in
  lift (reject_if (existsb (λ tx, negb (IsFinalizedTransaction tx blockHeight blockTime)) (Transactions msg))
          ErrUnfinalizedTx);;
  params ← asks chainParams;
  lift (if ShouldHaveSerializedBlockHeight header && (BIP0034Height params <=? blockHeight) then
          match Transactions msg with
          | coinbaseTx :: _ => CheckSerializedHeight coinbaseTx blockHeight
          | [] => VCrash
          end
        else VOk tt);;
  segwitState ← chain_deploymentState (Some prevNode) DeploymentSegwit;
  if negb (is_active segwitState) then mret tt else
  lift (ValidateWitnessCommitment (Transactions msg));;
  lift (reject_if (MaxBlockWeight <? GetBlockWeight msg) ErrBlockWeightTooHigh).

(** ** Unspent outputs *)

Definition set_utxoCache (s : utxoCache) (b : BlockChain) : BlockChain :=
  mkChain (chainParams b) (c_index b) (bestChain b) (checkpoints b) (checkpointNode b) (nextCheckpoint b)
    (deploymentCaches b) s (c_db b).
Definition with_cache {A} (f : utxo_db → utxoCache → ChainRes (A * utxoCache)) : ChainM A := λ b,
  match f (c_db b) (c_utxoCache b) with
  | COk (a, s) => (VOk a, set_utxoCache s b)
  | CErr e => (VErr (AssertError e), b)
  | CCrash => (VCrash, b)
  end.

Definition block91842 : Z := 91842.
Definition block91880 : Z := 91880.
(** The hashes of the two blocks that repeat a coinbase are of newHashFromStr,
    which reverses the digits. *)
Definition block91842Hash : Hash := rev
  [0x00; 0x00; 0x00; 0x00; 0x00; 0x0a; 0x4d; 0x0a; 0x39; 0x81; 0x61; 0xff; 0xc1; 0x63; 0xc5; 0x03;
   0x76; 0x3b; 0x1f; 0x43; 0x60; 0x63; 0x93; 0x93; 0xe0; 0xe4; 0xc8; 0xe3; 0x00; 0xe0; 0xca; 0xec].
Definition block91880Hash : Hash := rev
  [0x00; 0x00; 0x00; 0x00; 0x00; 0x07; 0x43; 0xf1; 0x90; 0xa1; 0x8c; 0x55; 0x77; 0xa3; 0xc2; 0xd2;
   0xa1; 0xf6; 0x10; 0xae; 0x96; 0x01; 0xac; 0x04; 0x6a; 0x38; 0x08; 0x4c; 0xcb; 0x7c; 0xd7; 0x21].
Definition isBIP0030Node (node : blockNode) : bool :=
  (n_height node =? block91842) && bool_decide (n_hash node = block91842Hash) ||
  (n_height node =? block91880) && bool_decide (n_hash node = block91880Hash).

Definition checkBIP0030 (txs : list MsgTx) (view : UtxoViewpoint) : ChainM UtxoViewpoint :=
  let fetch := concat (map (λ tx, map fst (outpoints tx)) txs) in
  view ← with_cache (λ db, fetchUtxos new_max db fetch view);
  lift (reject_if (existsb (λ op, match spendable_entry view op with Some _ => true | None => false end) fetch)
          ErrOverwriteTx);;
  mret view.

(** ** Sequence locks *)

Record SequenceLock := mkSequenceLock { sl_Seconds : Z; (* int64 *) sl_BlockHeight : Z (* int32 *) }.
Definition SequenceLockTimeMask : Z := 0xffff.
Definition SequenceLockTimeGranularity : Z := 9.

Definition SequenceLockActive (l : SequenceLock) (blockHeight medianTimePast : Z) : bool :=
  negb ((medianTimePast <=? sl_Seconds l) || (blockHeight <=? sl_BlockHeight l)).
Definition LockTimeToSequence (isSeconds : bool) (locktime : Z) : Z :=
  if negb isSeconds then locktime
  else Z.lor SequenceLockTimeIsSeconds (Z.shiftr locktime SequenceLockTimeGranularity).

Definition flag_set (n f : Z) : bool := Z.land n f =? f.
(** An ancestor that is not there is a nil pointer. *)
Fixpoint sequence_locks (ins : list TxIn) (node : blockNode) (view : UtxoViewpoint) (l : SequenceLock)
    : VRes SequenceLock :=
  match ins with
  | [] => VOk l
  | ti :: ins =>
      match LookupEntry view (PreviousOutPoint ti) with
      | None => ruleError ErrMissingTxOut
      | Some utxo =>
          let nextHeight := int32 (n_height node + 1) in
          let inputHeight := if blockHeight utxo =? 0x7fffffff then nextHeight else blockHeight utxo in
          let sequenceNum := Sequence ti in
          let relativeLock := Z.land sequenceNum SequenceLockTimeMask in
          if flag_set sequenceNum SequenceLockTimeDisabled then sequence_locks ins node view l
          else if flag_set sequenceNum SequenceLockTimeIsSeconds then
            let prevInputHeight := Z.max 0 (int32 (inputHeight - 1)) in
            medianTime ← CalcPastMedianTime (Ancestor node prevInputHeight);
            let timeLockSeconds := Z.shiftl relativeLock SequenceLockTimeGranularity - 1 in
            let timeLock := medianTime + timeLockSeconds in
            sequence_locks ins node view (mkSequenceLock (Z.max (sl_Seconds l) timeLock) (sl_BlockHeight l))
          else
            let blockHeight := int32 (inputHeight + int32 (relativeLock - 1)) in
            sequence_locks ins node view (mkSequenceLock (sl_Seconds l) (Z.max (sl_BlockHeight l) blockHeight))
      end
  end.
Definition calcSequenceLock (node : blockNode) (tx : MsgTx) (view : UtxoViewpoint) (mempool : bool)
    : ChainM SequenceLock :=
  let none := mkSequenceLock (-1) (-1) in
  csvSoftforkActive ← (if mempool then mret true else
    csvState ← chain_deploymentState (parent node) DeploymentCSV; mret (is_active csvState));
  let sequenceLockActive := (2 <=? uint32 (Version tx)) && csvSoftforkActive in
  if negb sequenceLockActive || IsCoinBaseTx tx then mret none
  else lift (sequence_locks (TxIns tx) node view none).

(** ** Scripts *)

Record txValidateItem := mkItem { it_index : Z; it_in : TxIn; it_tx : MsgTx; it_hashes : option TxSigHashes }.

(** A goroutine's work on an input.  [fuel] is the number of steps that the
    scripts are run for. *)
Definition validate_item (fuel : nat) (view : UtxoViewpoint) (flags : Z) (it : txValidateItem) : VRes unit :=
  match LookupEntry view (PreviousOutPoint (it_in it)) with
  | None => ruleError ErrMissingTxOut
  | Some utxo =>
      match NewEngine (pkScript utxo) (it_tx it) (it_index it) flags (it_hashes it) (amount utxo)
              (FetchPrevOutput view) with
      | Err _ => ruleError ErrScriptMalformed
      | Crash => VCrash
      | Ok vm =>
          match Execute fuel vm with
          | Some (Ok _) => VOk tt
          | Some (Err _) => ruleError ErrScriptValidation
          | Some Crash | None => VCrash
          end
      end
  end.
(** The results come in the order of the schedule; the first error is
    returned. *)
Fixpoint first_error {A} (f : A → VRes unit) (l : list A) : VRes unit :=
  match l with [] => VOk tt | x :: l => f x;; first_error f l end.
Definition Validate (sched : list txValidateItem → list txValidateItem) (fuel : nat)
    (view : UtxoViewpoint) (flags : Z) (items : list txValidateItem) : VRes unit :=
  first_error (validate_item fuel view flags) (sched items).

(** The hashes of a transaction with witness data, from the cache or anew:
    the cache holds what [NewTxSigHashes] computes. *)
Definition tx_items (view : UtxoViewpoint) (flags : Z) (tx : MsgTx) : VRes (list txValidateItem) :=
  hashes ← (if has flags ScriptVerifyWitness && HasWitness tx then
              match NewTxSigHashes tx (FetchPrevOutput view) with
              | Ok h => VOk (Some h)
              | _ => VCrash
              end
            else VOk None);
  VOk (List.filter (λ it, negb (op_Index (PreviousOutPoint (it_in it)) =? 0xffffffff))
         (imap (λ i ti, mkItem (Z.of_nat i) ti tx hashes) (TxIns tx))).
Fixpoint block_items (view : UtxoViewpoint) (flags : Z) (txs : list MsgTx) : VRes (list txValidateItem) :=
  match txs with
  | [] => VOk []
  | tx :: txs => items ← tx_items view flags tx; rest ← block_items view flags txs; VOk (items ++ rest)
  end.
Definition ValidateTransactionScripts (sched : list txValidateItem → list txValidateItem) (fuel : nat)
    (tx : MsgTx) (view : UtxoViewpoint) (flags : Z) : VRes unit :=
  items ← tx_items view flags tx; Validate sched fuel view flags items.
Definition checkBlockScripts (sched : list txValidateItem → list txValidateItem) (fuel : nat)
    (txs : list MsgTx) (view : UtxoViewpoint) (flags : Z) : VRes unit :=
  items ← block_items view flags txs; Validate sched fuel view flags items.

(** ** Connecting a block *)

Definition Bip16Activation : Z := 1333238400.

Fixpoint check_sigop_costs (txs : list MsgTx) (first : bool) (view : UtxoViewpoint) (bip16 segWit : bool)
    (totalSigOpCost : Z) : VRes unit :=
  match txs with
  | [] => VOk tt
  | tx :: txs =>
      sigOpCost ← GetSigOpCost tx first view bip16 segWit;
      let lastSigOpCost := totalSigOpCost in
      let totalSigOpCost := int64 (totalSigOpCost + sigOpCost) in
      reject_if ((totalSigOpCost <? lastSigOpCost) || (MaxBlockSigOpsCost <? totalSigOpCost)) ErrTooManySigOps;;
      check_sigop_costs txs false view bip16 segWit totalSigOpCost
  end.

(** The loop that checks the inputs, adds up the fees and connects. *)
Fixpoint connect_fees (txs : list MsgTx) (height : Z) (params : Params) (view : UtxoViewpoint)
    (stxos : option (list SpentTxOut)) (totalFees : Z)
    : VRes (Z * UtxoViewpoint * option (list SpentTxOut)) :=
  match txs with
  | [] => VOk (totalFees, view, stxos)
  | tx :: txs =>
      txFee ← CheckTransactionInputs tx height view params;
      let lastTotalFees := totalFees in
      let totalFees := int64 (totalFees + txFee) in
      reject_if (totalFees <? lastTotalFees) ErrBadFees;;
      '(view, stxos) ← of_chain (connectTransaction tx height view stxos);
      connect_fees txs height params view stxos totalFees
  end.

Definition check_coinbase_value (txs : list MsgTx) (height : Z) (params : Params) (totalFees : Z) : VRes unit :=
  match txs with
  | [] => VCrash
  | coinbase :: _ =>
      let totalSatoshiOut := sum_outputs coinbase in
      let expectedSatoshiOut := int64 (CalcBlockSubsidy height params + totalFees) in
      reject_if (expectedSatoshiOut <? totalSatoshiOut) ErrBadCoinbaseValue
  end.

Fixpoint check_sequence_locks (txs : list MsgTx) (node : blockNode) (view : UtxoViewpoint) (medianTime : Z)
    : ChainM unit :=
  match txs with
  | [] => mret tt
  | tx :: txs =>
      sequenceLock ← calcSequenceLock node tx view false;
      lift (reject_if (negb (SequenceLockActive sequenceLock (n_height node) medianTime)) ErrUnfinalizedTx);;
      check_sequence_locks txs node view medianTime
  end.

Definition flag (b : bool) (f : Z) : Z := if b then Z.shiftl 1 f else 0.

(** The view comes back with the block's transactions connected. *)
Definition checkConnectBlock (sched : list txValidateItem → list txValidateItem) (fuel : nat)
    (node : blockNode) (b : Block) (view : UtxoViewpoint) (stxos : option (list SpentTxOut))
    : ChainM (UtxoViewpoint * option (list SpentTxOut)) :=
  let txs := block_txs b in
  let header := Header (b_msg b) in
  params ← asks chainParams;
  lift (reject_if (bool_decide (n_hash node = GenesisHash params)) ErrMissingTxOut);;
  lift (if negb (bool_decide (bestHash view = PrevBlock header))
        then VErr (AssertError "inconsistent view when checking block connection") else VOk tt);;
  view ← (if negb (isBIP0030Node node) && (n_height node <? BIP0034Height params)
          then checkBIP0030 txs view else mret view);
  view ← with_cache (λ db, fetchInputUtxos new_max db b view);
  let enforceBIP0016 := Bip16Activation <=? n_timestamp node in
  segwitState ← chain_deploymentState (parent node) DeploymentSegwit;
  let enforceSegWit := is_active segwitState in
  lift (check_sigop_costs txs true view enforceBIP0016 enforceSegWit 0);;
  '(totalFees, view, stxos) ← lift (connect_fees txs (n_height node) params view stxos 0);
  lift (check_coinbase_value txs (n_height node) params totalFees);;
  checkpoint ← asks LatestCheckpoint;
  let runScripts := match checkpoint with Some cp => negb (n_height node <=? cp_Height cp) | None => true end in
  csvState ← chain_deploymentState (parent node) DeploymentCSV;
  (if is_active csvState then
     medianTime ← lift (CalcPastMedianTime (parent node));
     check_sequence_locks txs node view medianTime
   else mret tt);;
  taprootState ← chain_deploymentState (parent node) DeploymentTaproot;
  let scriptFlags :=
    flag enforceBIP0016 ScriptBip16 +
    flag ((3 <=? bh_Version header) && (BIP0066Height params <=? n_height node)) ScriptVerifyDERSignatures +
    flag ((4 <=? bh_Version header) && (BIP0065Height params <=? n_height node)) ScriptVerifyCheckLockTimeVerify +
    flag (is_active csvState) ScriptVerifyCheckSequenceVerify +
    flag enforceSegWit ScriptVerifyWitness + flag enforceSegWit ScriptStrictMultiSig +
    flag (is_active taprootState) ScriptVerifyTaproot in
  lift (if runScripts then checkBlockScripts sched fuel txs view scriptFlags else VOk tt);;
  mret (SetBestHash (n_hash node) view, stxos).

Definition CheckConnectBlockTemplate (sched : list txValidateItem → list txValidateItem) (fuel : nat)
    (adjustedTime : Z) (b : Block) : ChainM unit :=
  let header := Header (b_msg b) in
  t ← asks (λ c, tip (bestChain c));
  match t with
  | None => lift VCrash
  | Some t =>
      lift (reject_if (negb (bool_decide (n_hash t = PrevBlock header))) ErrPrevBlockNotBest);;
      params ← asks chainParams;
      lift (checkBlockSanity (b_msg b) (PowLimit params) adjustedTime BFNoPoWCheck);;
      checkBlockContext (b_msg b) t BFNoPoWCheck;;
      checkConnectBlock sched fuel (newBlockNode header (Some t)) b (SetBestHash (n_hash t) NewUtxoViewpoint) None;;
      mret tt
  end.
End Connect.
