(* ===== verification/ChainSupply.v ===== *)
(** * Block chain: facts about the rules

    What sanity and input checks guarantee, the supply of coins, and that a
    block that is connected makes no more value than its subsidy. *)

From Stdlib Require Import ZArith Lia.
From stdpp Require Import base numbers list strings gmap.
From S2P Require Import Prelude ScriptNum WireBase WireTx ScriptToken Sighash WireMsg ScriptEngine ChainCompress ChainCompressFacts ChainUtxo ChainStore ChainStoreFacts ChainError Merkle ChainNode ChainParams ChainCache ChainCacheFacts ChainRules ChainConnect.

Open Scope Z_scope.

(** ** Reading the checks *)

Lemma VRes_seq_ok {A} (m : VRes unit) (k : VRes A) a : (m ;; k) = VOk a ↔ m = VOk tt ∧ k = VOk a.
Proof.
  split; [by intros ([] & ? & ?)%VRes_bind_ok|]. intros [-> ->]. done.
Qed.

(** An addition that does not come out below its first term did not wrap. *)
Lemma int64_no_wrap a b :
  0 <= a < 2 ^ 63 → 0 <= b < 2 ^ 63 → a <= int64 (a + b) → int64 (a + b) = a + b.
Proof.
  intros Ha Hb. destruct (Z.lt_ge_cases (a + b) (2 ^ 63)) as [Hlt|Hge].
  - intros _. apply wrap_s_id; [done|]. change (64 - 1) with 63. lia.
  - unfold wrap_s. change (2 ^ (64 - 1)) with (2 ^ 63). change (2 ^ 64) with (2 * 2 ^ 63).
    assert ((a + b + 2 ^ 63) mod (2 * 2 ^ 63) = a + b - 2 ^ 63) as ->; [|lia].
    symmetry. apply (Z.mod_unique _ _ 1); lia.
Qed.

(** The values of the outputs of a transaction. *)
Definition out_values (outs : list TxOut) : Z := foldr (λ out t, Value out + t) 0 outs.
Definition outs_ok (outs : list TxOut) : Prop := Forall (λ out, 0 <= Value out <= MaxSatoshi) outs.

Lemma out_values_nonneg outs : outs_ok outs → 0 <= out_values outs.
Proof. unfold out_values. induction 1; cbn in *; lia. Qed.

Lemma MaxSatoshi_small : 0 < MaxSatoshi < 2 ^ 51.
Proof. done. Qed.

Lemma check_outputs_ok outs t t' :
  0 <= t <= MaxSatoshi → check_outputs outs t = VOk t' →
  outs_ok outs ∧ t' = t + out_values outs ∧ t' <= MaxSatoshi.
Proof.
  pose proof MaxSatoshi_small. revert t. induction outs as [|out outs IH]; intros t Ht; cbn [check_outputs out_values foldr].
  { intros [= <-]. split_and!; [constructor|lia|lia]. }
  rewrite !VRes_seq_ok, !reject_if_ok, !Z.ltb_ge. intros (H1 & H2 & H3 & H4 & H5).
  rewrite wrap_s_id in * by (done || (change (64 - 1) with 63; lia)).
  apply IH in H5 as (? & -> & ?); [|lia]. split_and!; [by constructor|unfold out_values; lia|lia].
Qed.

Lemma has_duplicate_ok {A} `{Countable A} (l : list A) (seen : gset A) :
  has_duplicate l seen = false ↔ NoDup l ∧ ∀ x, x ∈ l → x ∉ seen.
Proof.
  revert seen. induction l as [|x l IH]; intros seen; cbn [has_duplicate].
  { split; [|done]. intros _. split; [constructor|]. by intros x ?%elem_of_nil. }
  rewrite orb_false_iff, bool_decide_eq_false, IH, NoDup_cons. split.
  - intros (Hx & Hnd & Hl). split_and!; [|done|].
    + intros Hin. specialize (Hl x Hin). set_solver.
    + intros y [->|Hy]%elem_of_cons; [done|]. specialize (Hl y Hy). set_solver.
  - intros [[Hx Hnd] Hl]. split_and!; [apply Hl; by left|done|]. intros y Hy [->%elem_of_singleton|Hs]%elem_of_union; [done|].
    by apply (Hl y); [right|].
Qed.

(** What a transaction that passes [CheckTransactionSanity] is. *)
Record sane (tx : MsgTx) : Prop := {
  sane_ins : TxIns tx ≠ [];
  sane_outs : TxOuts tx ≠ [];
  sane_size : SerializeSizeStripped tx <= MaxBlockBaseSize;
  sane_values : outs_ok (TxOuts tx) ∧ out_values (TxOuts tx) <= MaxSatoshi;
  sane_distinct : NoDup (map PreviousOutPoint (TxIns tx));
  sane_script : match TxIns tx with
    | [ti] => IsCoinBaseTx tx = true → 2 <= zlen (SignatureScript ti) <= 100
    | _ => True
    end;
  sane_null : IsCoinBaseTx tx = false → Forall (λ ti, isNullOutpoint (PreviousOutPoint ti) = false) (TxIns tx)
}.

Lemma coinbase_one tx : IsCoinBaseTx tx = true → ∃ ti, TxIns tx = [ti].
Proof. unfold IsCoinBaseTx. destruct (TxIns tx) as [|ti [|? ?]]; [done|by exists ti|done]. Qed.

Lemma CheckTransactionSanity_ok tx : CheckTransactionSanity tx = VOk tt ↔ sane tx.
Proof.
  unfold CheckTransactionSanity.
  rewrite !VRes_seq_ok, !reject_if_ok, VRes_bind_ok, Z.ltb_ge, !Nat.eqb_neq.
  assert (Hnil : ∀ {A} (l : list A), length l ≠ 0%nat ↔ l ≠ []) by (intros A l; by destruct l).
  rewrite !Hnil. split.
  - intros (H1 & H2 & H3 & t & H4 & H5). apply VRes_seq_ok in H5 as [H5 H6].
    apply reject_if_ok, has_duplicate_ok in H5 as [H5 _].
    apply check_outputs_ok in H4 as (H4 & Ht & Hm); [|done]. split; [done|done|done|split; [done|lia]|done|..].
    + destruct (TxIns tx) as [|ti [|? ?]]; [done| |done]. intros Hcb. rewrite Hcb in H6.
      apply reject_if_ok, orb_false_iff in H6 as [?%Z.ltb_ge ?%Z.ltb_ge]. done.
    + intros Hcb. rewrite Hcb in H6. apply reject_if_ok in H6. apply Forall_forall. intros ti Hti.
      destruct (isNullOutpoint _) eqn:E; [|done]. exfalso.
      assert (existsb (λ ti, isNullOutpoint (PreviousOutPoint ti)) (TxIns tx) = true) as Hx; [|congruence].
      apply existsb_exists. exists ti. split; [by apply list_elem_of_In|done].
  - intros [H1 H2 H3 [H4 H4'] H5 H6 H7]. split_and!; [done..|]. exists (out_values (TxOuts tx)). split.
    + assert (Hc : ∀ outs t, 0 <= t → outs_ok outs → t + out_values outs <= MaxSatoshi →
        check_outputs outs t = VOk (t + out_values outs)).
      { pose proof MaxSatoshi_small. intros outs. induction outs as [|out outs IH]; intros t Ht Ho Hm; cbn [check_outputs out_values foldr].
        - f_equal. lia.
        - apply Forall_cons in Ho as [Ho1 Ho2]. pose proof (out_values_nonneg outs Ho2). cbn [out_values foldr] in Hm.
          fold (out_values outs) in *.
          rewrite wrap_s_id by (done || (change (64 - 1) with 63; lia)).
          rewrite !(proj2 (Z.ltb_ge _ _)) by lia. unfold mbind, VRes_bind, reject_if. rewrite IH by (done || lia). f_equal. lia. }
      rewrite Hc; [f_equal; lia|done|done|lia].
    + apply VRes_seq_ok. split.
      * apply reject_if_ok, has_duplicate_ok. split; [done|]. set_solver.
      * destruct (IsCoinBaseTx tx) eqn:Hcb.
        -- destruct (coinbase_one tx Hcb) as [ti Hti]. rewrite Hti in *. apply reject_if_ok, orb_false_iff.
           specialize (H6 eq_refl). unfold MinCoinbaseScriptLen, MaxCoinbaseScriptLen. rewrite !Z.ltb_ge. lia.
        -- apply reject_if_ok. destruct (existsb _ _) eqn:E; [|done]. apply existsb_exists in E as (ti & Hti & Hn).
           specialize (H7 eq_refl). rewrite Forall_forall in H7. rewrite H7 in Hn; [done|by apply list_elem_of_In].
Qed.

(** ** The subsidy *)

(** The subsidies of the first [n] blocks. *)
Fixpoint subsidies (n : nat) (p : Params) : Z :=
  match n with O => 0 | S k => subsidies k p + CalcBlockSubsidy (Z.of_nat k) p end.

Definition era (k : Z) : Z := Z.shiftr baseSubsidy k.
Lemma era_halves k : 0 <= k → 0 <= 2 * era (k + 1) <= era k.
Proof.
  intros Hk. unfold era. rewrite <- Z.shiftr_shiftr, (Z.shiftr_div_pow2 _ 1) by lia. change (2 ^ 1) with 2.
  assert (0 <= Z.shiftr baseSubsidy k) by (rewrite Z.shiftr_nonneg; done).
  pose proof (Z.mul_div_le (Z.shiftr baseSubsidy k) 2). pose proof (Z.div_pos (Z.shiftr baseSubsidy k) 2). lia.
Qed.

Lemma CalcBlockSubsidy_era h p :
  0 < SubsidyReductionInterval p → 0 <= h → CalcBlockSubsidy h p = era (h / SubsidyReductionInterval p).
Proof.
  intros Hi Hh. unfold CalcBlockSubsidy. rewrite (proj2 (Z.eqb_neq _ _)) by lia.
  rewrite Z.quot_div_nonneg by lia. rewrite (proj2 (Z.ltb_ge _ _)); [done|]. apply Z.div_pos; lia.
Qed.

Lemma subsidies_potential n p (I := SubsidyReductionInterval p) :
  0 < I →
  subsidies n p <= I * (2 * baseSubsidy - 2 * era (Z.of_nat n / I)) + (Z.of_nat n mod I) * era (Z.of_nat n / I).
Proof.
  intros HI. induction n as [|n IH].
  { cbn [subsidies Z.of_nat]. rewrite Z.div_0_l, Z.mod_0_l by lia. change (era 0) with baseSubsidy. lia. }
  cbn [subsidies]. rewrite CalcBlockSubsidy_era by (done || lia). fold I. rewrite Nat2Z.inj_succ, <- Z.add_1_r.
  set (h := Z.of_nat n) in *. assert (0 <= h) by lia.
  pose proof (Z.div_mod h I ltac:(lia)) as Hdm. pose proof (Z.mod_pos_bound h I HI) as Hr.
  assert (Hk : 0 <= h / I) by (apply Z.div_pos; lia). pose proof (era_halves (h / I) Hk) as Hera.
  destruct (Z.eq_dec (h mod I) (I - 1)) as [E|E].
  - rewrite <- (Z.div_unique (h + 1) I (h / I + 1) 0), <- (Z.mod_unique (h + 1) I (h / I + 1) 0) by lia.
    rewrite E in IH. nia.
  - rewrite <- (Z.div_unique (h + 1) I (h / I) (h mod I + 1)), <- (Z.mod_unique (h + 1) I (h / I) (h mod I + 1)) by lia. lia.
Qed.

Lemma subsidies_bound n p :
  0 < SubsidyReductionInterval p → subsidies n p <= SubsidyReductionInterval p * (2 * baseSubsidy).
Proof.
  intros HI. pose proof (subsidies_potential n p HI) as Hp.
  set (I := SubsidyReductionInterval p) in *. assert (0 <= Z.of_nat n / I) by (apply Z.div_pos; lia).
  pose proof (era_halves (Z.of_nat n / I) ltac:(done)). pose proof (Z.mod_pos_bound (Z.of_nat n) I HI). nia.
Qed.

(** ** Block chain: no value out of nothing

    The value that a ledger holds, what the transactions of a block do to it,
    and that a block that passes [checkConnectBlock] adds its subsidy at
    most. *)

(** ** The value of a ledger *)

Definition value_of (o : option SpentTxOut) : Z := match o with Some s => st_Amount s | None => 0 end.
Definition worth (D : list OutPoint) (L : ledger) : Z := foldr (λ op t, value_of (L op) + t) 0 D.
(** No set of outpoints is worth more. *)
Definition holds_at_most (L : ledger) (M : Z) : Prop := ∀ D, NoDup D → worth D L <= M.

Lemma worth_app D D' L : worth (D ++ D') L = worth D L + worth D' L.
Proof. induction D as [|op D IH]; cbn [app worth foldr]; [done|]. unfold worth in *. lia. Qed.
Lemma worth_ext D L L' : (∀ op, op ∈ D → L op = L' op) → worth D L = worth D L'.
Proof.
  induction D as [|op D IH]; intros He; [done|]. cbn. f_equal; [by rewrite He by left|].
  apply IH. intros op' ?. apply He. by right.
Qed.
Lemma worth_none D L : (∀ op, op ∈ D → L op = None) → worth D L = 0.
Proof.
  induction D as [|op D IH]; intros He; [done|]. cbn. rewrite He by left. cbn. apply IH. intros op' ?. apply He. by right.
Qed.
Lemma worth_filter (P : OutPoint → Prop) `{∀ op, Decision (P op)} D L :
  worth D L = worth (filter P D) L + worth (filter (λ op, ¬ P op) D) L.
Proof.
  induction D as [|op D IH]; [done|]. rewrite !filter_cons. cbn [worth foldr].
  destruct (decide (P op)) as [Hp|Hp].
  - rewrite decide_False by tauto. cbn [worth foldr]. unfold worth in *. lia.
  - rewrite decide_True by tauto. cbn [worth foldr]. unfold worth in *. lia.
Qed.
Lemma holds_proper L L' M : same L L' → holds_at_most L M → holds_at_most L' M.
Proof. intros He Hh D HD. rewrite (worth_ext D L' L); [by apply Hh|]. intros op _. by rewrite He. Qed.

(** A ledger with one output. *)
Lemma holds_one_output L x :
  (∀ op, op ≠ x → L op = None) → 0 <= value_of (L x) → holds_at_most L (value_of (L x)).
Proof.
  intros Hn Hv D HD. revert Hn Hv. induction HD as [|op D Hin HD IH]; intros Hn Hv; [done|]. cbn [worth foldr].
  destruct (decide (op = x)) as [->|Hne].
  - enough (worth D L = 0) as Hz by (unfold worth in Hz; lia). apply worth_none. intros op' Hop'. apply Hn. by intros ->.
  - rewrite Hn by done. cbn [value_of]. rewrite Z.add_0_l. by apply IH.
Qed.

(** What a list of outputs is worth, however they are looked up. *)
Definition pair_values (l : list (OutPoint * TxOut)) : Z := foldr (λ p t, Value (snd p) + t) 0 l.
Definition found_value (l : list (OutPoint * TxOut)) (op : OutPoint) : Z :=
  match List.find (λ p, bool_decide (fst p = op)) l with Some p => Value (snd p) | None => 0 end.
Definition nonneg (l : list (OutPoint * TxOut)) : Prop := Forall (λ p, 0 <= Value (snd p)) l.

Lemma pair_values_cons p l : pair_values (p :: l) = Value (snd p) + pair_values l.
Proof. done. Qed.
Lemma pair_values_app l l' : pair_values (l ++ l') = pair_values l + pair_values l'.
Proof.
  induction l as [|p l IH]; [done|]. change ((p :: l) ++ l') with (p :: (l ++ l')). rewrite !pair_values_cons. lia.
Qed.
Lemma pair_values_rev l : pair_values (rev l) = pair_values l.
Proof. induction l as [|p l IH]; [done|]. cbn [rev]. rewrite pair_values_app, IH, !pair_values_cons. change (pair_values []) with 0. lia. Qed.
Lemma pair_values_filter f l : nonneg l → pair_values (List.filter f l) <= pair_values l.
Proof. induction 1; cbn [List.filter]; [done|]. destruct (f _); rewrite !pair_values_cons; lia. Qed.
Lemma nonneg_filter f l : nonneg l → nonneg (List.filter f l).
Proof. induction 1; cbn; [constructor|]. destruct (f _); [by constructor|done]. Qed.

Lemma found_value_nonneg l op : nonneg l → 0 <= found_value l op.
Proof. unfold found_value. induction 1; cbn; [done|]. by case_bool_decide. Qed.
Lemma found_value_cons p l op :
  nonneg l → found_value (p :: l) op <= (if bool_decide (fst p = op) then Value (snd p) else 0) + found_value l op.
Proof.
  intros Hl. pose proof (found_value_nonneg l op Hl). unfold found_value in *. cbn [List.find]. case_bool_decide; lia.
Qed.
Lemma sum_once (x : OutPoint) v D :
  NoDup D → 0 <= v → foldr (λ op t, (if bool_decide (x = op) then v else 0) + t) 0 D <= v.
Proof.
  intros HD Hv. induction HD as [|op D Hin HD IH]; cbn; [done|]. case_bool_decide as Hx; [|lia]. subst op.
  assert (foldr (λ op t, (if bool_decide (x = op) then v else 0) + t) 0 D = 0) as ->; [|lia].
  clear IH HD. induction D as [|y D IHD]; [done|]. cbn. rewrite bool_decide_false by (intros ->; apply Hin; left).
  rewrite IHD; [done|]. intros ?. apply Hin. by right.
Qed.
Lemma found_values_bound l D :
  nonneg l → NoDup D → foldr (λ op t, found_value l op + t) 0 D <= pair_values l.
Proof.
  intros Hl HD. induction Hl as [|p l Hp Hl IH].
  { cbn. clear. induction D; cbn in *; lia. }
  rewrite pair_values_cons.
  assert (Hsum : foldr (λ op t, found_value (p :: l) op + t) 0 D <=
    foldr (λ op t, (if bool_decide (fst p = op) then Value (snd p) else 0) + t) 0 D +
    foldr (λ op t, found_value l op + t) 0 D).
  { clear IH HD. induction D as [|op D IHD]; [done|]. cbn [foldr]. pose proof (found_value_cons p l op Hl). lia. }
  pose proof (sum_once (fst p) (Value (snd p)) D HD Hp). lia.
Qed.

Section Supply.
Context `{Crypto} `{Keys}.

(** ** Transactions *)

Lemma outpoints_values tx : pair_values (outpoints tx) = out_values (TxOuts tx).
Proof.
  unfold outpoints, pair_values, out_values. generalize (TxHash tx); intros h.
  assert (∀ f : nat → Z, foldr (λ p t, Value (snd p) + t) 0 (imap (λ i to, (mkOutPoint h (f i), to)) (TxOuts tx)) =
    foldr (λ out t, Value out + t) 0 (TxOuts tx)) as Hg; [|by apply Hg].
  induction (TxOuts tx) as [|to outs IH]; intros f; [done|]. cbn [imap foldr snd]. f_equal.
  apply (IH (f ∘ S)).
Qed.
Lemma outpoints_nonneg tx : outs_ok (TxOuts tx) → nonneg (outpoints tx).
Proof.
  intros Ho. apply Forall_forall. intros p Hp. apply elem_of_lookup_imap in Hp as (i & to & -> & Hi). cbn.
  apply (Forall_lookup_1 _ _ _ _ Ho Hi).
Qed.

Lemma worth_created height tx D :
  NoDup D → outs_ok (TxOuts tx) → worth D (created height tx) <= out_values (TxOuts tx).
Proof.
  intros HD Ho. apply outpoints_nonneg in Ho.
  assert (worth D (created height tx) = foldr (λ op t, found_value (rev (spendable tx)) op + t) 0 D) as ->.
  { unfold worth. clear HD. induction D as [|op D IH]; [done|]. cbn [foldr]. f_equal; [|done].
    unfold created, found_value. by destruct (List.find _ _). }
  rewrite found_values_bound; [|apply Forall_rev, nonneg_filter; done|done].
  rewrite pair_values_rev, <- outpoints_values. by apply pair_values_filter.
Qed.

(** A transaction takes what its inputs are worth and adds its outputs. *)
Lemma holds_ledger_tx height tx L M :
  holds_at_most L M → NoDup (inputs tx) → outs_ok (TxOuts tx) →
  holds_at_most (ledger_tx height tx L) (M - worth (inputs tx) L + out_values (TxOuts tx)).
Proof.
  intros HL Hnd Ho D HD.
  rewrite (worth_filter (λ op, is_Some (created height tx op))).
  rewrite (worth_filter (λ op, op ∈ inputs tx) (filter (λ op, ¬ is_Some (created height tx op)) D)).
  set (D1 := filter (λ op, is_Some (created height tx op)) D).
  set (D2 := filter (λ op, op ∈ inputs tx) _). set (D3 := filter (λ op, op ∉ inputs tx) _).
  assert (H1 : worth D1 (ledger_tx height tx L) <= out_values (TxOuts tx)).
  { rewrite (worth_ext D1 _ (created height tx)); [by apply worth_created; [apply NoDup_filter|]|].
    intros op [[s Hs] _]%list_elem_of_filter. unfold ledger_tx. by rewrite Hs. }
  assert (H2 : worth D2 (ledger_tx height tx L) = 0).
  { apply worth_none. intros op (Hi & Hc)%list_elem_of_filter. apply list_elem_of_filter in Hc as [Hc _].
    unfold ledger_tx. destruct (created height tx op); [by destruct Hc|]. by rewrite decide_True. }
  assert (H3 : worth D3 (ledger_tx height tx L) = worth D3 L).
  { apply worth_ext. intros op (Hi & Hc)%list_elem_of_filter. apply list_elem_of_filter in Hc as [Hc _].
    unfold ledger_tx. destruct (created height tx op); [by destruct Hc|]. by rewrite decide_False. }
  assert (H4 : worth (D3 ++ inputs tx) L <= M).
  { apply HL, NoDup_app. split_and!; [by do 2 apply NoDup_filter| |done]. intros op [Hi _]%list_elem_of_filter. done. }
  rewrite worth_app in H4. lia.
Qed.

(** ** Reading the inputs from a view *)

Lemma spendable_unspent v op e : spendable_entry v op = Some e → unspent v op = Some (stxo_of e).
Proof.
  unfold spendable_entry, LookupEntry, unspent. destruct (entries v !! op) as [e'|]; [|done].
  destruct (IsSpent e'); [done|]. by intros [= ->].
Qed.

Lemma check_inputs_ok ins height v p t t' :
  0 <= t <= MaxSatoshi → check_inputs ins height v p t = VOk t' →
  t' = t + worth (map PreviousOutPoint ins) (unspent v) ∧ 0 <= t' <= MaxSatoshi ∧
  ∀ op, op ∈ map PreviousOutPoint ins → is_Some (unspent v op).
Proof.
  pose proof MaxSatoshi_small as Hms. revert t. induction ins as [|ti ins IH]; intros t Ht; cbn [check_inputs map].
  { intros [= <-]. split_and!; [cbn; lia|lia|lia|]. by intros op ?%elem_of_nil. }
  destruct (spendable_entry v (PreviousOutPoint ti)) as [e|] eqn:Ee; [|done]. apply spendable_unspent in Ee.
  rewrite !VRes_seq_ok, !reject_if_ok, orb_false_iff, !Z.ltb_ge. intros (_ & H1 & H2 & [H3 H4] & H5).
  rewrite wrap_s_id in * by (done || (change (64 - 1) with 63; lia)).
  apply IH in H5 as (-> & ? & Hin); [|lia]. cbn [worth foldr]. rewrite Ee. cbn [value_of stxo_of st_Amount].
  split_and!; [unfold worth; lia|lia|lia|]. intros op [->|Hop]%elem_of_cons; [by rewrite Ee|by apply Hin].
Qed.

Lemma sum_outputs_ok tx : sane tx → sum_outputs tx = out_values (TxOuts tx).
Proof.
  intros [_ _ _ [Ho Hm] _ _ _]. pose proof MaxSatoshi_small as Hms. unfold sum_outputs.
  assert (Hg : ∀ outs t, 0 <= t → outs_ok outs → t + out_values outs <= MaxSatoshi →
    fold_left (λ t out, int64 (t + Value out)) outs t = t + out_values outs); [|by rewrite Hg].
  intros outs. induction outs as [|out outs IH]; intros t Ht Hok Hmax; [cbn; lia|].
  apply Forall_cons in Hok as [Ho1 Ho2]. pose proof (out_values_nonneg outs Ho2) as Hon.
  assert (Hc : out_values (out :: outs) = Value out + out_values outs) by done. rewrite Hc in *.
  cbn [fold_left]. rewrite wrap_s_id by (done || (change (64 - 1) with 63; lia)). rewrite IH by (done || lia). lia.
Qed.

Lemma CheckTransactionInputs_ok tx height v p fee :
  sane tx → IsCoinBaseTx tx = false → CheckTransactionInputs tx height v p = VOk fee →
  fee = worth (inputs tx) (unspent v) - out_values (TxOuts tx) ∧ 0 <= fee <= MaxSatoshi ∧
  ∀ op, op ∈ inputs tx → is_Some (unspent v op).
Proof.
  intros Hs Hcb. unfold CheckTransactionInputs, inputs. rewrite Hcb, VRes_bind_ok, sum_outputs_ok by done.
  intros (t & Ht & Hr). apply VRes_seq_ok in Hr as [Hr Hf]. apply reject_if_ok, Z.ltb_ge in Hr.
  apply check_inputs_ok in Ht as (Ht & Hb & Hin); [|done].
  pose proof (out_values_nonneg _ (proj1 (sane_values _ Hs))) as Hon. pose proof MaxSatoshi_small as Hms.
  rewrite wrap_s_id in Hf by (done || (change (64 - 1) with 63; lia)). injection Hf as <-. split_and!; [lia|lia|lia|done].
Qed.

(** ** The view and the ledger *)

(** What a view has unspent is in the ledger or made by the transactions. *)
Definition fits (v : UtxoViewpoint) (L : ledger) (txs : list MsgTx) : Prop :=
  ∀ op s, unspent v op = Some s → L op = Some s ∨ ∃ tx, tx ∈ txs ∧ op ∈ map fst (spendable tx).

(** No transaction spends an output of its own or of a later one. *)
Fixpoint ordered (txs : list MsgTx) : Prop :=
  match txs with
  | [] => True
  | tx :: rest =>
      (∀ op tx', op ∈ inputs tx → tx' ∈ tx :: rest → op ∉ map fst (spendable tx')) ∧ ordered rest
  end.
Fixpoint is_ordered (txs : list MsgTx) : bool :=
  match txs with
  | [] => true
  | tx :: rest =>
      forallb (λ op, forallb (λ tx', bool_decide (op ∉ map fst (spendable tx'))) (tx :: rest)) (inputs tx) &&
      is_ordered rest
  end.
Lemma is_ordered_ok txs : is_ordered txs = true → ordered txs.
Proof.
  induction txs as [|tx rest IH]; [done|]. cbn [is_ordered]. intros [H1 H2]%andb_prop. split; [|by apply IH].
  intros op tx' Hop Htx. rewrite forallb_forall in H1. specialize (H1 op (proj1 (list_elem_of_In _ _) Hop)).
  rewrite forallb_forall in H1. specialize (H1 tx' (proj1 (list_elem_of_In _ _) Htx)). by apply bool_decide_eq_true in H1.
Qed.
(** Every input is unspent when it is spent. *)
Fixpoint spends_unspent (height : Z) (txs : list MsgTx) (L : ledger) : Prop :=
  match txs with
  | [] => True
  | tx :: rest =>
      NoDup (inputs tx) ∧ (∀ op, op ∈ inputs tx → is_Some (L op)) ∧ spends_unspent height rest (ledger_tx height tx L)
  end.

Lemma fits_step height tx rest v v' L :
  fits v L (tx :: rest) → same (unspent v') (ledger_tx height tx (unspent v)) →
  fits v' (ledger_tx height tx L) rest.
Proof.
  intros Hf Hv op s. rewrite Hv. unfold ledger_tx. destruct (created height tx op) eqn:Ec; [by left|].
  case_decide; [done|]. intros Hs. destruct (Hf op s Hs) as [?|(tx' & Htx & Ho)]; [by left|].
  apply elem_of_cons in Htx as [->|?]; [by apply created_spendable in Ec|right; eauto].
Qed.
Lemma fits_inputs tx rest v L :
  fits v L (tx :: rest) → ordered (tx :: rest) → (∀ op, op ∈ inputs tx → is_Some (unspent v op)) →
  ∀ op, op ∈ inputs tx → is_Some (L op) ∧ unspent v op = L op.
Proof.
  intros Hf [Ho _] Hin op Hop. destruct (Hin op Hop) as [s Hs]. destruct (Hf op s Hs) as [HL|(tx' & Htx & Hc)].
  - by rewrite HL, Hs.
  - by destruct (Ho op tx').
Qed.
Lemma sane_inputs tx : sane tx → NoDup (inputs tx).
Proof. intros Hs. unfold inputs. destruct (IsCoinBaseTx tx); [constructor|apply Hs]. Qed.

Lemma connect_fees_ok height p txs v stxos F L M F' v' stxos' :
  Forall sane txs → Forall (λ tx, IsCoinBaseTx tx = false) txs → ordered txs → fits v L txs → holds_at_most L M →
  0 <= F < 2 ^ 63 → connect_fees txs height p v stxos F = VOk (F', v', stxos') →
  0 <= F' < 2 ^ 63 ∧ spends_unspent height txs L ∧ holds_at_most (ledger_txs height txs L) (M - (F' - F)).
Proof.
  intros Hsane. revert v stxos F L M. induction Hsane as [|tx txs Hs Hsane IH]; intros v stxos F L M Hcb Hord Hf HL HF.
  { intros [= <- <- <-]. split_and!; [lia|lia|done|]. by replace (M - (F - F)) with M by lia. }
  apply Forall_cons in Hcb as [Hcb Hcbs]. cbn [connect_fees]. rewrite VRes_bind_ok. intros (fee & Hfee & Hr).
  apply CheckTransactionInputs_ok in Hfee as (Hfee & Hfb & Hin); [|done..].
  apply VRes_seq_ok in Hr as [Hw%reject_if_ok%Z.ltb_ge Hr]. pose proof MaxSatoshi_small as Hms.
  apply int64_no_wrap in Hw; [|lia..]. apply VRes_bind_ok in Hr as ([v1 st1] & Hc & Hr).
  unfold of_chain in Hc. destruct (connectTransaction tx height v stxos) as [[v2 st2]| |] eqn:Ec; [|done..].
  injection Hc as -> ->. apply connectTransaction_ok in Ec as [Hv _].
  pose proof (fits_inputs tx txs v L Hf Hord Hin) as Hi.
  assert (Hworth : worth (inputs tx) (unspent v) = worth (inputs tx) L) by (apply worth_ext; intros; by apply Hi).
  pose proof (wrap_s_range 64 (F + fee) ltac:(lia)) as Hrange. rewrite Hw in Hrange, Hr. change (64 - 1) with 63 in Hrange.
  apply (IH _ _ _ (ledger_tx height tx L) (M - worth (inputs tx) L + out_values (TxOuts tx))) in Hr as (H1 & H2 & H3);
    [|done|apply Hord|by eapply fits_step|apply holds_ledger_tx; [done|by apply sane_inputs|apply Hs]|lia].
  split; [lia|]. split; [split_and!; [by apply sane_inputs|intros op Hop; by apply Hi|done]|].
  replace (M - (F' - F)) with (M - worth (inputs tx) L + out_values (TxOuts tx) - (F' - (F + fee))) by lia. done.
Qed.

(** ** The view that is fetched *)

Lemma fits_set v L txs op e : fits v L txs → (IsSpent e = false → L op = Some (stxo_of e)) → fits (set_entry op e v) L txs.
Proof.
  intros Hf He op' s. rewrite unspent_set. case_decide as Hd; [|by apply Hf]. subst op'.
  destruct (IsSpent e); [done|]. intros [= <-]. left. by apply He.
Qed.
Lemma fits_nil v L txs op : fits v L txs → fits (set_nil op v) L txs.
Proof.
  intros Hf op' s Hs. apply Hf. unfold unspent, set_nil in *. cbn [entries] in Hs.
  destruct (decide (op = op')) as [->|Hne]; [by rewrite lookup_delete_eq in Hs|by rewrite lookup_delete_ne in Hs].
Qed.
Lemma fits_AddTxOuts v L txs tx height : tx ∈ txs → fits v L txs → fits (AddTxOuts tx height v) L txs.
Proof.
  intros Htx Hf op s. rewrite unspent_AddTxOuts. destruct (created height tx op) eqn:Ec; [|by apply Hf].
  intros _. right. exists tx. split; [done|]. destruct (decide (op ∈ map fst (spendable tx))) as [|Hn]; [done|].
  apply (created_spendable height) in Hn. congruence.
Qed.

Context (new_max : list Z → Z → Z).

(** Entries that are fetched are those of the ledger. *)
Lemma fits_put L txs op o v : entry_state o = L op → fits v L txs → fits (put_fetched (op, o) v) L txs.
Proof.
  intros Ho Hf. unfold put_fetched. cbn [fst snd]. destruct o as [e|]; [|by apply fits_nil].
  apply fits_set; [done|]. intros Hsp. rewrite <- Ho. cbn. by rewrite Hsp.
Qed.
Lemma fits_proper v L L' txs : same L L' → fits v L txs → fits v L' txs.
Proof. intros HL Hf op s Hs. rewrite <- HL. by apply Hf. Qed.

Lemma with_cache_ok {A} (f : utxo_db → utxoCache → ChainRes (A * utxoCache)) c a c' :
  with_cache f c = (VOk a, c') ↔ ∃ s, f (c_db c) (c_utxoCache c) = COk (a, s) ∧ c' = set_utxoCache s c.
Proof.
  unfold with_cache. destruct (f _ _) as [[a1 s1]| |]; split; try done.
  - intros [= <- <-]. eauto.
  - by intros (s & [= <- <-] & ->).
  - by intros (s & ? & _).
  - by intros (s & ? & _).
Qed.

(** The invariant of the chain while a view is filled for [txs]. *)
Definition serves (L : ledger) (txs : list MsgTx) (v : UtxoViewpoint) (c : BlockChain) : Prop :=
  cache_ok (c_db c) (c_utxoCache c) ∧ same (cache_ledger (c_db c) (c_utxoCache c)) L ∧ fits v L txs.

Lemma serves_fetch L txs ops v c v' s' :
  serves L txs v c → Forall outpoint_fits ops →
  fetchUtxosFromCache new_max (c_db c) ops v (c_utxoCache c) = COk (v', s') →
  serves L txs v' (set_utxoCache s' c).
Proof.
  intros (Hs & HL & Hf) Hops Hr.
  destruct (fetch_keeps new_max (λ v, fits v L txs) (c_db c) ops v (c_utxoCache c)) as (v1 & s1 & He & ? & ? & HL');
    [done|done| |done|].
  - intros op o w _ _ _ Ho. apply fits_put. by rewrite Ho.
  - rewrite He in Hr. injection Hr as <- <-. split_and!; [done| |done]. cbn [c_db c_utxoCache set_utxoCache]. by rewrite HL'.
Qed.
Lemma checkBIP0030_serves L txs v c v' c' :
  serves L txs v c → checkBIP0030 new_max txs v c = (VOk v', c') → serves L txs v' c'.
Proof.
  intros Hs. unfold checkBIP0030. rewrite ChainM_bind_ok. intros (v1 & c1 & Hw & Hr).
  apply with_cache_ok in Hw as (s1 & Hw & ->). apply ChainM_bind_ok in Hr as (u & c2 & [_ <-]%lift_ok & [= <- <-]).
  eapply serves_fetch; [done| |exact Hw]. apply Forall_forall. intros op [Hop _]%list_elem_of_In%filter_In.
  apply in_concat in Hop as (l & Hl & Hop). apply in_map_iff in Hl as (tx & <- & _).
  apply list_elem_of_In, list_elem_of_fmap in Hop as (p & -> & Hp). by apply outpoints_fit with tx.
Qed.
Lemma fetchInputUtxos_serves L b v c v' s' :
  serves L (block_txs b) v c →
  Forall (λ tx, Forall outpoint_fits (map PreviousOutPoint (TxIns tx))) (tail (block_txs b)) →
  fetchInputUtxos new_max (c_db c) b v (c_utxoCache c) = COk (v', s') →
  serves L (block_txs b) v' (set_utxoCache s' c).
Proof.
  intros (Hs & HL & Hf) Hins Hr.
  destruct (fetchInputUtxos_keeps new_max (λ v, fits v L (block_txs b)) (c_db c) b v (c_utxoCache c))
    as (v1 & s1 & He & ? & ? & HL'); [done| |done| | |done|].
  - intros Hb. unfold fetchInputUtxos, findInputsToFetch in Hr. by rewrite Hb in Hr.
  - intros tx w Htx. by apply fits_AddTxOuts.
  - intros op o w _ _ _ Ho. apply fits_put. by rewrite Ho.
  - rewrite He in Hr. injection Hr as <- <-. split_and!; [done| |done]. cbn [c_db c_utxoCache set_utxoCache]. by rewrite HL'.
Qed.

(** ** Connecting a block *)

Lemma int64_le x : 0 <= x → int64 x <= x.
Proof.
  intros Hx. unfold wrap_s. pose proof (Z.mod_le (x + 2 ^ (64 - 1)) (2 ^ 64) ltac:(lia) ltac:(lia)). lia.
Qed.
Lemma CalcBlockSubsidy_nonneg height p : 0 <= CalcBlockSubsidy height p.
Proof.
  unfold CalcBlockSubsidy. destruct (_ =? 0); [done|]. cbv zeta. destruct (_ <? 0) eqn:E; [done|].
  by rewrite Z.shiftr_nonneg.
Qed.

Lemma checkBlockSanity_ok msg powLimit adjustedTime flags :
  checkBlockSanity msg powLimit adjustedTime flags = VOk tt →
  ∃ cb rest, Transactions msg = cb :: rest ∧ IsCoinBaseTx cb = true ∧
    Forall (λ tx, IsCoinBaseTx tx = false) rest ∧ Forall sane (cb :: rest).
Proof.
  unfold checkBlockSanity. rewrite !VRes_seq_ok. intros (_ & _ & _ & _ & Hr).
  destruct (Transactions msg) as [|cb rest]; [done|]. exists cb, rest. apply VRes_seq_ok in Hr as [H1 Hr].
  apply VRes_seq_ok in Hr as [H2 Hr]. apply VRes_seq_ok in Hr as [H3 _]. apply reject_if_ok, negb_false_iff in H1.
  apply reject_if_ok in H2. split_and!; [done|done| |].
  - apply Forall_forall. intros tx Htx. destruct (IsCoinBaseTx tx) eqn:E; [|done]. exfalso.
    assert (existsb IsCoinBaseTx rest = true) as Hx; [|congruence]. apply existsb_exists. exists tx.
    split; [by apply list_elem_of_In|done].
  - clear -H3. revert H3. induction (cb :: rest) as [|tx txs IH]; [constructor|]. cbn [check_sanities].
    rewrite VRes_seq_ok. intros [Hs Hr]. constructor; [by apply CheckTransactionSanity_ok|by apply IH].
Qed.

Lemma block_fees_ok height p cb rest v stxos L M F' v' stxos' :
  IsCoinBaseTx cb = true → Forall (λ tx, IsCoinBaseTx tx = false) rest → Forall sane (cb :: rest) →
  ordered (cb :: rest) → fits v L (cb :: rest) → holds_at_most L M →
  connect_fees (cb :: rest) height p v stxos 0 = VOk (F', v', stxos') →
  check_coinbase_value (cb :: rest) height p F' = VOk tt →
  spends_unspent height (cb :: rest) L ∧
  holds_at_most (ledger_txs height (cb :: rest) L) (M + CalcBlockSubsidy height p).
Proof.
  intros Hcb Hrest Hsane Hord Hf HL Hc Hv. apply Forall_cons in Hsane as [Hs Hsane].
  cbn [connect_fees] in Hc. unfold CheckTransactionInputs in Hc. rewrite Hcb in Hc.
  unfold mbind, VRes_bind in Hc. change (int64 (0 + 0)) with 0 in Hc.
  cbn [reject_if] in Hc. destruct (connectTransaction cb height v stxos) as [[v1 st1]| |] eqn:Ec; [|done..].
  apply connectTransaction_ok in Ec as [Hv1 _]. cbn [of_chain] in Hc.
  assert (Hin : inputs cb = []) by (unfold inputs; by rewrite Hcb).
  pose proof (holds_ledger_tx height cb L M HL (sane_inputs cb Hs) (proj1 (sane_values cb Hs))) as Hh.
  rewrite Hin in Hh. change (worth [] L) with 0 in Hh.
  apply (connect_fees_ok _ _ _ _ _ _ (ledger_tx height cb L) (M - 0 + out_values (TxOuts cb))) in Hc as (HF & Hsp & Hb);
    [|done|done|apply Hord|by eapply fits_step|done|lia].
  split.
  - split_and!; [by apply sane_inputs| |done]. rewrite Hin. by intros op ?%elem_of_nil.
  - unfold check_coinbase_value in Hv. apply reject_if_ok, Z.ltb_ge in Hv. rewrite sum_outputs_ok in Hv by done.
    pose proof (CalcBlockSubsidy_nonneg height p). pose proof (int64_le (CalcBlockSubsidy height p + F') ltac:(lia)).
    intros D HD. specialize (Hb D HD). change (ledger_txs height (cb :: rest) L) with (ledger_txs height rest (ledger_tx height cb L)). lia.
Qed.

(** C7. A block that passes its checks makes no value and spends nothing
    twice: when the block is sane and its transactions spend only outputs of
    earlier ones, and [checkConnectBlock] accepts it on top of an empty view,
    then each input is unspent in the ledger when it is spent, and if no set
    of outputs was worth more than [M] before the block, none is worth more
    than [M] and the subsidy after it.  No sum wraps. *)
Theorem no_inflation sched fuel node b view stxos c v' stxos' c' powLimit adjustedTime flags M :
  cache_ok (c_db c) (c_utxoCache c) → entries view = ∅ → b_height b = n_height node →
  Forall (λ tx, Forall outpoint_fits (map PreviousOutPoint (TxIns tx))) (tail (block_txs b)) →
  ordered (block_txs b) →
  holds_at_most (cache_ledger (c_db c) (c_utxoCache c)) M →
  checkBlockSanity (b_msg b) powLimit adjustedTime flags = VOk tt →
  checkConnectBlock new_max sched fuel node b view stxos c = (VOk (v', stxos'), c') →
  spends_unspent (b_height b) (block_txs b) (cache_ledger (c_db c) (c_utxoCache c)) ∧
  holds_at_most (ledger_block b (cache_ledger (c_db c) (c_utxoCache c)))
    (M + CalcBlockSubsidy (b_height b) (chainParams c)).
Proof.
  intros Hs Hempty Hh Hins Hord HM Hsan Hc. apply checkBlockSanity_ok in Hsan as (cb & rest & Etx & Hcb & Hrest & Hsane).
  set (L := cache_ledger (c_db c) (c_utxoCache c)) in *.
  assert (Hserves : serves L (block_txs b) view c).
  { split_and!; [done|done|]. intros op s. unfold unspent. rewrite Hempty, lookup_empty. done. }
  unfold checkConnectBlock in Hc. cbv zeta in Hc.
  apply ChainM_bind_ok in Hc as (params & c1 & [= <- <-] & Hc).
  apply ChainM_bind_ok in Hc as (? & c1 & [_ <-]%lift_ok & Hc).
  apply ChainM_bind_ok in Hc as (? & c1 & [_ <-]%lift_ok & Hc).
  apply ChainM_bind_ok in Hc as (v1 & c1 & Hbip & Hc).
  assert (Hserves1 : serves L (block_txs b) v1 c1).
  { destruct (_ && _); [by eapply checkBIP0030_serves|]. by injection Hbip as <- <-. }
  apply ChainM_bind_ok in Hc as (v2 & c2 & Hfetch & Hc). apply with_cache_ok in Hfetch as (s2 & Hfetch & ->).
  apply (fetchInputUtxos_serves L) in Hfetch as (_ & _ & Hf2); [|done..].
  apply ChainM_bind_ok in Hc as (sw & c3 & _ & Hc).
  apply ChainM_bind_ok in Hc as (? & c4 & [_ <-]%lift_ok & Hc).
  apply ChainM_bind_ok in Hc as ([[F v3] st3] & c4 & [Hfees <-]%lift_ok & Hc).
  apply ChainM_bind_ok in Hc as ([] & c4 & [Hcbv <-]%lift_ok & _).
  unfold ledger_block, block_txs in *. rewrite Etx, <- Hh in *. by eapply block_fees_ok.
Qed.
End Supply.
