(* ===== verification/ChainUndoFacts.v ===== *)
(** * Block chain: disconnecting and checking blocks over what is stored

    A view over a ledger: its entries override what the ledger says.  Filling
    a view with the inputs of the last block and disconnecting the block turns
    the ledger into the one before the block, and writing the view to the
    database makes that ledger the stored one.  Connecting a block to a view
    that stands for a ledger makes it stand for the next one, and a block that
    [checkConnectBlock] accepts on top of such a view spends only outputs that
    are unspent in the ledger. *)

From Stdlib Require Import ZArith Lia.
From stdpp Require Import base numbers list strings gmap.
From S2P Require Import Prelude ScriptNum WireBase WireTx ScriptToken Sighash WireMsg ScriptEngine ChainCompress ChainCompressFacts ChainUtxo ChainStore ChainStoreFacts ChainError Merkle ChainNode ChainParams ChainCache ChainCacheFacts ChainRules ChainConnect ChainSupply.

Open Scope Z_scope.

Section Undo.
Context `{Sha} `{Keys}.

(** ** Views over a ledger *)

Definition over (v : UtxoViewpoint) (B : ledger) : ledger := λ op,
  match entries v !! op with Some e => entry_state (Some e) | None => B op end.
(** Equality of what can be stored. *)
Definition agree (L L' : ledger) : Prop := ∀ op, outpoint_fits op → L op = L' op.
#[export] Instance agree_equivalence : Equivalence agree.
Proof. split; [by intros L op|intros L L' HL op Hop; by rewrite HL|intros L1 L2 L3 H1 H2 op Hop; by rewrite H1, H2]. Qed.
Lemma same_agree L L' : same L L' → agree L L'.
Proof. intros HL op _. apply HL. Qed.

Lemma over_set op e v B op' :
  over (set_entry op e v) B op' = if decide (op = op') then entry_state (Some e) else over v B op'.
Proof.
  unfold over, set_entry. cbn [entries]. destruct (decide (op = op')) as [->|Hne].
  - by rewrite lookup_insert_eq.
  - by rewrite lookup_insert_ne.
Qed.

(** A view that can be written: its entries fit, and those that are not
    modified are what the ledger has. *)
Definition writable (v : UtxoViewpoint) (B : ledger) : Prop :=
  view_fits v ∧ ∀ op e, entries v !! op = Some e → isModified e = false → entry_state (Some e) = B op.

Lemma writable_set op e v B :
  writable v B → outpoint_fits op → utxo_fits e → (isModified e = false → entry_state (Some e) = B op) →
  writable (set_entry op e v) B.
Proof.
  intros [H1 H2] Hop He Hm. split; intros op' e'; unfold set_entry; cbn [entries];
    (destruct (decide (op = op')) as [<-|Hne]; [rewrite lookup_insert_eq; intros [= <-]|rewrite lookup_insert_ne by done]); auto.
Qed.

(** Writing a view puts it over what is stored. *)
Lemma put_view_ledger db v c :
  db_ok db → writable v (db_ledger db) →
  ∃ b', dbPutUtxoView v (utxoSet db) = COk b' ∧ db_ok (mkUtxoDb b' c) ∧
    agree (db_ledger (mkUtxoDb b' c)) (over v (db_ledger db)).
Proof.
  intros Hdb [Hv Hc]. destruct (put_view_ok v (utxoSet db) Hv) as (b' & Hp & Hb'). exists b'. split; [done|].
  assert (Hall : ∀ op, outpoint_fits op → ∃ o, in_db (mkUtxoDb b' c) op o ∧
    match o with Some e => utxo_fits e ∧ IsSpent e = false ∧ isModified e = false ∧ isFresh e = false
    | None => True end ∧ entry_state o = over v (db_ledger db) op).
  { intros op Hop. specialize (Hb' op Hop). destruct (Hdb op Hop) as (old & Hold & Hw). unfold in_db in *. cbn [utxoSet].
    pose proof (in_db_ledger _ _ _ Hdb Hop Hold) as Hl. unfold over. rewrite Hb'.
    destruct (entries v !! op) as [e|] eqn:Ee; [|by exists old]. unfold effect.
    destruct (isModified e) eqn:Em; cbn [negb].
    - destruct (Hv op e Ee) as [_ Hf]. destruct (IsSpent e) eqn:Es.
      + exists None. cbn [entry_state]. by rewrite Es.
      + exists (Some (stored e)). destruct (stored_flags e) as (Hu & Hs & Hm & Hfr & Hst). split; [done|].
        split; [by rewrite Hu|]. cbn [entry_state]. by rewrite Hs, Hst, Es.
    - exists old. split_and!; [done|done|]. by rewrite (Hc op e Ee Em). }
  split; [intros op Hop; destruct (Hall op Hop) as (o & ? & ? & _); by exists o|].
  intros op Hop. destruct (Hall op Hop) as (o & Ho & Hw & Hst). rewrite <- Hst.
  unfold db_ledger, in_db in *. rewrite Ho. destruct o as [e|]; [|done]. destruct Hw as (_ & Hs & _). cbn. by rewrite Hs.
Qed.

(** ** Disconnecting transactions *)

(** What the transactions of a block must be to be stored, and what they
    must be for a ledger. *)
Definition outputs_fit (height : Z) (tx : MsgTx) : Prop :=
  height_ok height ∧ height ≠ 0 ∧ ∀ p, p ∈ spendable tx → amount_ok (Value (snd p)) ∧ script_fits (PkScript (snd p)).
Definition made (txs : list MsgTx) : list OutPoint := concat (map (λ tx, map fst (spendable tx)) txs).

Lemma made_cons tx txs : made (tx :: txs) = map fst (spendable tx) ++ made txs.
Proof. done. Qed.

Lemma over_spend_outputs tx height flags v B op :
  over (fold_left (λ v p, spend_output height flags p v) (outpoints tx) v) B op =
  if decide (op ∈ map fst (spendable tx)) then None else over v B op.
Proof.
  unfold spendable. induction (outpoints tx) as [|p l IH] using rev_ind.
  { cbn. by rewrite decide_False by apply not_elem_of_nil. }
  rewrite fold_left_app, List.filter_app, map_app. cbn [fold_left List.filter]. unfold spend_output at 1.
  destruct p as [op' to]. cbn [snd]. destruct (IsUnspendable (PkScript to)); cbn [negb map].
  - by rewrite app_nil_r.
  - rewrite over_set, IH. cbn [entry_state fst]. rewrite Spend_spent.
    destruct (decide (op' = op)) as [->|Hne]; [by rewrite decide_True by set_solver|].
    destruct (decide (op ∈ map fst _)); [by rewrite decide_True by set_solver|].
    rewrite decide_False; [done|set_solver].
Qed.
Lemma Spend_modified e : isModified (Spend e) = false → Spend e = e ∧ IsSpent e = true.
Proof.
  unfold Spend. destruct (IsSpent e) eqn:E; [done|]. unfold isModified, has_flag, set_flags. cbn [packedFlags].
  rewrite Z.lor_assoc. intros Hm. exfalso. apply Z.eqb_neq in Hm. apply Hm.
  apply Z.bits_inj'. intros i _. rewrite Z.land_spec, Z.lor_spec. destruct (Z.testbit tfModified i); [by rewrite orb_true_r|].
  by rewrite andb_false_r.
Qed.
Lemma writable_spend_outputs tx height flags v B :
  outputs_fit height tx → flags = 0 ∨ flags = tfCoinBase → writable v B →
  writable (fold_left (λ v p, spend_output height flags p v) (outpoints tx) v) B.
Proof.
  intros (Hh & _ & Hf) Hfl Hv. unfold spendable in Hf.
  assert (Hall : ∀ p, p ∈ outpoints tx → outpoint_fits (fst p)) by apply outpoints_fit.
  induction (outpoints tx) as [|p l IH] using rev_ind; [done|].
  rewrite fold_left_app. rewrite List.filter_app in Hf. cbn [fold_left List.filter] in *.
  set (v1 := fold_left _ l v) in *. destruct IH as [Hv1 Hc1].
  { intros q Hq. apply Hf, elem_of_app. by left. }
  { intros q Hq. apply Hall, elem_of_app. by left. }
  unfold spend_output. destruct p as [op to]. cbn [snd] in Hf. destruct (IsUnspendable (PkScript to)); [done|].
  cbn [negb] in Hf. destruct (Hf (op, to)) as [Ha Hs]; [apply elem_of_app; right; by left|].
  apply writable_set; [done|apply (Hall (op, to)), elem_of_app; right; by left| |].
  - rewrite (proj2 (Spend_flags _)). destruct (entries v1 !! op) as [e|] eqn:Ee; [by apply (Hv1 op e)|by split_and!].
  - intros Hm. destruct (Spend_modified _ Hm) as [He Hs']. rewrite He in Hm |- *.
    destruct (entries v1 !! op) as [e|] eqn:Ee; [by apply Hc1|]. by destruct Hfl as [-> | ->].
Qed.

Context (dbf : Hash → ChainRes (option UtxoEntry)).

Lemma restore_input_over txHash ti s v B :
  stxo_fits s → st_Height s ≠ 0 → outpoint_fits (PreviousOutPoint ti) → writable v B →
  ∃ v', restore_input dbf txHash ti s v = COk v' ∧ writable v' B ∧
    ∀ op, over v' B op = if decide (PreviousOutPoint ti = op) then Some s else over v B op.
Proof.
  intros (Ha & Hsc & Hhh) Hh Hop Hv. unfold restore_input. rewrite (proj2 (Z.eqb_neq _ 0)) by done.
  unfold mbind, ChainRes_bind. eexists. split; [done|]. set (e := mkUtxoEntry _ _ (st_Height s) _).
  assert (He : utxo_fits e ∧ isModified e = true ∧ entry_state (Some e) = Some s).
  { split; [by split_and!|]. destruct s as [a k h c]. by destruct c. }
  destruct He as (Hf & Hm & Hst). split.
  - destruct Hv as [H1 H2]. split; intros op e'; unfold set_entry; cbn [entries];
      (destruct (decide (PreviousOutPoint ti = op)) as [<-|Hne];
         [rewrite lookup_insert_eq; intros [= <-]; by rewrite ?Hm|rewrite lookup_insert_ne by done]);
      (destruct (entries v !! PreviousOutPoint ti); [auto|]; cbn [entries]; rewrite lookup_insert_ne by done; auto).
  - intros op. rewrite over_set, Hst. destruct (decide (PreviousOutPoint ti = op)) as [Heq|Hne]; [done|].
    destruct (entries v !! PreviousOutPoint ti); [done|]. rewrite over_set. by rewrite decide_False.
Qed.

Lemma restore_inputs_over txHash rins rrecs rs v B :
  Forall2 (λ ti s, stxo_fits s ∧ st_Height s ≠ 0 ∧ outpoint_fits (PreviousOutPoint ti)) rins rrecs → writable v B →
  ∃ v', restore_inputs dbf txHash rins (rrecs ++ rs) v = COk (v', rs) ∧ writable v' B ∧
    ∀ op, (op ∈ map PreviousOutPoint rins → ∃ ti s, (ti, s) ∈ zip rins rrecs ∧ PreviousOutPoint ti = op ∧ over v' B op = Some s) ∧
          (op ∉ map PreviousOutPoint rins → over v' B op = over v B op).
Proof.
  intros Hf. revert v. induction Hf as [|ti s rins rrecs Hs Hf IH]; intros v Hv.
  { exists v. split; [by destruct rs|]. split; [done|]. intros op. split; [by intros ?%not_elem_of_nil|done]. }
  cbn [restore_inputs app]. unfold mbind, ChainRes_bind. destruct Hs as (Hs & Hh & Hop).
  destruct (restore_input_over txHash ti s v B Hs Hh Hop Hv) as (v1 & -> & Hw1 & Hv1).
  destruct (IH v1 Hw1) as (v' & -> & Hw' & Hv'). exists v'. split; [done|]. split; [done|]. intros op. cbn [map zip zip_with].
  destruct (Hv' op) as [Hin Hnin]. destruct (decide (op ∈ map PreviousOutPoint rins)) as [Hd|Hd].
  - split; [|set_solver]. intros _. destruct (Hin Hd) as (t & r & Ht & Hop' & Hu). exists t, r. set_solver.
  - specialize (Hnin Hd). rewrite Hv1 in Hnin. destruct (decide (PreviousOutPoint ti = op)) as [<-|Hne].
    + split; [|set_solver]. intros _. exists ti, s. split_and!; [left|done|done].
    + split; [|done]. by intros [->|?]%elem_of_cons.
Qed.

(** What is in a ledger can be stored, and was made after the first block. *)
Definition ledger_fits (L : ledger) : Prop := ∀ op s, L op = Some s → stxo_fits s ∧ st_Height s ≠ 0.
Lemma ledger_fits_tx height tx L : outputs_fit height tx → ledger_fits L → ledger_fits (ledger_tx height tx L).
Proof.
  intros (Hh & Hh0 & Hf) HL op s. unfold ledger_tx, created. destruct (List.find _ _) as [p|] eqn:E.
  - intros [= <-]. apply List.find_some in E as [Hin _]. apply in_rev, list_elem_of_In in Hin.
    destruct (Hf p Hin). by split_and!.
  - destruct (decide _); [done|]. apply HL.
Qed.

(** A transaction that can be connected to a ledger and stored. *)
Definition tx_valid (height : Z) (tx : MsgTx) (L : ledger) : Prop :=
  NoDup (inputs tx) ∧ outputs_fit height tx ∧
  (∀ op, op ∈ inputs tx → outpoint_fits op ∧ is_Some (L op)) ∧
  (∀ op, op ∈ map fst (spendable tx) → L op = None).
Fixpoint txs_valid (height : Z) (txs : list MsgTx) (L : ledger) : Prop :=
  match txs with
  | [] => True
  | tx :: rest => tx_valid height tx L ∧ txs_valid height rest (ledger_tx height tx L)
  end.

Lemma tx_records height tx L :
  ledger_fits L → tx_valid height tx L →
  Forall2 (λ op s, L op = Some s ∧ stxo_fits s ∧ st_Height s ≠ 0 ∧ outpoint_fits op) (inputs tx) (omap L (inputs tx)).
Proof.
  intros HL (_ & _ & Hin & _). induction (inputs tx) as [|op ops IH]; [constructor|]. cbn.
  destruct (Hin op) as (Hop & s & Hs); [by left|]. rewrite Hs. destruct (HL op s Hs). constructor; [done|]. apply IH.
  intros op' Hop'. apply Hin. by right.
Qed.

(** Disconnecting a transaction, but for the outputs of earlier ones. *)
Lemma undo_tx tx height X L w rs B :
  IsCoinBaseTx tx = false → ledger_fits L → tx_valid height tx L → writable w B →
  (∀ op, outpoint_fits op → op ∉ X ++ map fst (spendable tx) → over w B op = ledger_tx height tx L op) →
  ∃ w', restore_inputs dbf (TxHash tx) (rev (TxIns tx)) (rev (omap L (inputs tx)) ++ rs)
          (fold_left (λ v p, spend_output height 0 p v) (outpoints tx) w) = COk (w', rs) ∧
    writable w' B ∧ ∀ op, outpoint_fits op → op ∉ X → over w' B op = L op.
Proof.
  intros Hcb HL Htx Hw Hov. pose proof (tx_records _ _ _ HL Htx) as Hrec. destruct Htx as (_ & Hfit & _ & Hout).
  assert (Hin : inputs tx = map PreviousOutPoint (TxIns tx)) by (unfold inputs; by rewrite Hcb).
  rewrite Hin in Hrec at 1. apply Forall2_fmap_l, Forall2_reverse in Hrec. unfold reverse in Hrec. rewrite <- !rev_alt in Hrec.
  destruct (restore_inputs_over (TxHash tx) (rev (TxIns tx)) (rev (omap L (inputs tx))) rs
    (fold_left (λ v p, spend_output height 0 p v) (outpoints tx) w) B) as (w' & Hr & Hw' & Hov').
  { eapply Forall2_impl; [exact Hrec|]. cbn. naive_solver. }
  { apply writable_spend_outputs; [done|by left|done]. }
  exists w'. split; [done|]. split; [done|]. intros op Hop HX. destruct (Hov' op) as [H1 H2].
  destruct (decide (op ∈ map PreviousOutPoint (rev (TxIns tx)))) as [Hd|Hd].
  - destruct (H1 Hd) as (ti & s & Hz & <- & ->). apply list_elem_of_lookup in Hz as [i Hz].
    apply lookup_zip_with_Some in Hz as (ti' & s' & [= -> ->] & Hti & Hs).
    symmetry. by eapply Forall2_lookup_lr in Hrec as [? _]; [|exact Hti|exact Hs].
  - rewrite (H2 Hd), over_spend_outputs. destruct (decide (op ∈ map fst (spendable tx))) as [Ho|Ho]; [symmetry; by apply Hout|].
    rewrite Hov by (done || rewrite elem_of_app; naive_solver). unfold ledger_tx.
    rewrite (proj2 (created_spendable height tx op) Ho), decide_False; [done|].
    rewrite Hin. intros Hop'. apply Hd. rewrite map_rev. apply list_elem_of_In, in_rev. rewrite rev_involutive.
    by apply list_elem_of_In.
Qed.

Lemma undo_txs height txs X L B :
  ledger_fits L → txs_valid height txs L → Forall (λ tx, IsCoinBaseTx tx = false) txs →
  ∀ rt rs w, rt ≠ [] → writable w B →
    (∀ op, outpoint_fits op → op ∉ X ++ made txs → over w B op = ledger_txs height txs L op) →
  ∃ w', disconnect_loop dbf height (rev txs ++ rt) (rev (txs_records height txs L) ++ rs) w =
          disconnect_loop dbf height rt rs w' ∧
    writable w' B ∧ ∀ op, outpoint_fits op → op ∉ X → over w' B op = L op.
Proof.
  revert X L. induction txs as [|tx txs IH]; intros X L HL Hv Hcb rt rs w Hrt Hw Hov.
  { exists w. split_and!; [done|done|]. intros op Hop HX. apply Hov; [done|]. by rewrite app_nil_r. }
  destruct Hv as [Hv1 Hv2]. apply Forall_cons in Hcb as [Hcb1 Hcb2]. cbn [txs_records rev].
  rewrite rev_app_distr, <- !app_assoc.
  destruct (IH (X ++ map fst (spendable tx)) (ledger_tx height tx L) (ledger_fits_tx _ _ _ (proj1 (proj2 Hv1)) HL) Hv2 Hcb2 ([tx] ++ rt) (rev (omap L (inputs tx)) ++ rs) w)
    as (w1 & -> & Hw1 & Hov1); [done|done|by rewrite made_cons, app_assoc in Hov|].
  cbn [app disconnect_loop]. destruct rt as [|t rt]; [done|].
  destruct (undo_tx tx height X L w1 rs B Hcb1 HL Hv1 Hw1 Hov1) as (w2 & Hr & Hw2 & Hov2).
  unfold mbind, ChainRes_bind. rewrite Hr. by exists w2.
Qed.

(** ** Blocks *)

Definition block_valid (b : Block) (L : ledger) : Prop :=
  (∃ cb txs, block_txs b = cb :: txs ∧ IsCoinBaseTx cb = true ∧ Forall (λ tx, IsCoinBaseTx tx = false) txs) ∧
  txs_valid (b_height b) (block_txs b) L.
Definition block_records (b : Block) (L : ledger) : list SpentTxOut := txs_records (b_height b) (block_txs b) L.

Lemma txs_records_length height txs L :
  ledger_fits L → txs_valid height txs L → Forall (λ tx, IsCoinBaseTx tx = false) txs →
  length (txs_records height txs L) = list_sum (map (λ tx, length (TxIns tx)) txs).
Proof.
  revert L. induction txs as [|tx txs IH]; intros L HL Hv Hcb; [done|]. destruct Hv as [Hv1 Hv2].
  apply Forall_cons in Hcb as [Hcb1 Hcb2]. cbn [txs_records map].
  rewrite length_app, IH by (done || by apply ledger_fits_tx; [apply Hv1|]).
  rewrite <- (Forall2_length _ _ _ (tx_records _ _ _ HL Hv1)). unfold inputs. by rewrite Hcb1, length_map.
Qed.
Lemma block_records_count b L : ledger_fits L → block_valid b L → length (block_records b L) = countSpentOutputs b.
Proof.
  intros HL [(cb & txs & Hb & Hcb & Hn) Hv]. unfold block_records, countSpentOutputs. rewrite Hb in *. cbn [tail txs_records].
  unfold inputs. rewrite Hcb. destruct Hv as [Hv1 Hv].
  apply txs_records_length; [by apply ledger_fits_tx; [apply Hv1|]|done..].
Qed.
Lemma txs_records_fit height txs L : ledger_fits L → txs_valid height txs L → Forall stxo_fits (txs_records height txs L).
Proof.
  revert L. induction txs as [|tx txs IH]; intros L HL Hv; [constructor|]. destruct Hv as [Hv1 Hv2]. cbn [txs_records].
  apply Forall_app. split; [|apply IH; [by apply ledger_fits_tx; [apply Hv1|]|done]].
  apply tx_records in Hv1; [|done]. clear -Hv1. induction Hv1 as [|op s ops recs Hs _ IH]; [constructor|]. constructor; [apply Hs|done].
Qed.

Lemma ledger_fits_txs height txs L : ledger_fits L → txs_valid height txs L → ledger_fits (ledger_txs height txs L).
Proof.
  revert L. induction txs as [|tx txs IH]; intros L HL Hv; [done|]. destruct Hv as [Hv1 Hv2]. apply IH; [|done].
  by apply ledger_fits_tx; [apply Hv1|].
Qed.

(** Ledgers that agree on what can be stored are the same for a block. *)
Lemma tx_valid_agree height tx L L' : agree L L' → tx_valid height tx L → tx_valid height tx L'.
Proof.
  intros HL (H1 & H2 & H3 & H4). split_and!; [done|done| |].
  - intros op Hop. destruct (H3 op Hop) as [Hf Hs]. by rewrite <- HL.
  - intros op Hop. rewrite <- HL; [by apply H4|]. apply list_elem_of_fmap in Hop as (p & -> & Hp).
    apply (outpoints_fit tx). unfold spendable in Hp. by apply list_elem_of_In, filter_In, proj1, list_elem_of_In in Hp.
Qed.
#[export] Instance ledger_tx_agree height tx : Proper (agree ==> agree) (ledger_tx height tx).
Proof. intros L L' HL op Hop. unfold ledger_tx. destruct (created height tx op); [done|]. destruct (decide _); [done|by apply HL]. Qed.
#[export] Instance ledger_txs_agree height txs : Proper (agree ==> agree) (ledger_txs height txs).
Proof. unfold ledger_txs. induction txs as [|tx txs IH]; intros L L' HL; [done|]. cbn. apply IH. by rewrite HL. Qed.
Lemma txs_valid_agree height txs L L' : agree L L' → txs_valid height txs L → txs_valid height txs L'.
Proof.
  revert L L'. induction txs as [|tx txs IH]; intros L L' HL; [done|]. intros [H1 H2].
  split; [by eapply tx_valid_agree|]. eapply IH; [|exact H2]. by rewrite HL.
Qed.
Lemma txs_records_agree height txs L L' :
  agree L L' → txs_valid height txs L → txs_records height txs L = txs_records height txs L'.
Proof.
  revert L L'. induction txs as [|tx txs IH]; intros L L' HL; [done|]. intros [H1 H2]. cbn [txs_records]. f_equal.
  - destruct H1 as (_ & _ & H3 & _). induction (inputs tx) as [|op ops IHo]; [done|]. cbn.
    rewrite (HL op) by (apply H3; by left). rewrite IHo by (intros; apply H3; by right). done.
  - apply IH; [by rewrite HL|done].
Qed.

Lemma undo_block b L w B :
  ledger_fits L → block_valid b L → writable w B →
  (∀ op, outpoint_fits op → op ∉ made (block_txs b) → over w B op = ledger_block b L op) →
  ∃ w', disconnectTransactions dbf b (block_records b L) w = COk w' ∧ writable w' B ∧ agree (over w' B) L.
Proof.
  intros HL Hbv Hw Hov. pose proof (block_records_count b L HL Hbv) as Hn. destruct Hbv as [(cb & txs & Hb & Hcb & Hnc) Hv].
  unfold disconnectTransactions. rewrite Hn, Nat.eqb_refl. cbn [negb].
  unfold block_records. rewrite Hb in *. destruct Hv as [Hv1 Hv2].
  assert (Hr : txs_records (b_height b) (cb :: txs) L = txs_records (b_height b) txs (ledger_tx (b_height b) cb L)).
  { cbn [txs_records]. unfold inputs. by rewrite Hcb. }
  rewrite Hr. cbn [rev].
  destruct (undo_txs (b_height b) txs (map fst (spendable cb)) (ledger_tx (b_height b) cb L) B (ledger_fits_tx _ _ _ (proj1 (proj2 Hv1)) HL) Hv2 Hnc [cb] [] w)
    as (w1 & Hd & Hw1 & Hov1); [done|done|rewrite <- made_cons; intros op Hop Hm; rewrite Hov by done; unfold ledger_block; by rewrite Hb|].
  rewrite app_nil_r in Hd. rewrite Hd. cbn [disconnect_loop]. unfold mbind, ChainRes_bind. eexists. split; [done|].
  split; [apply (writable_spend_outputs cb); [apply Hv1|by right|done]|]. intros op Hop.
  transitivity (over (fold_left (λ v p, spend_output (b_height b) tfCoinBase p v) (outpoints cb) w1) B op); [done|].
  rewrite over_spend_outputs. destruct (decide (op ∈ map fst (spendable cb))) as [Ho|Ho]; [symmetry; by apply Hv1|].
  rewrite Hov1 by done. unfold ledger_tx, inputs. rewrite Hcb, (proj2 (created_spendable _ cb op) Ho).
  by rewrite decide_False by apply not_elem_of_nil.
Qed.

(** ** The block at the end of the chain *)

Lemma in_db_none db op : db_ok db → outpoint_fits op → db_ledger db op = None → in_db db op None.
Proof.
  intros Hdb Hop Hl. destruct (Hdb op Hop) as (o & Ho & Hw). rewrite (in_db_ledger _ _ _ Hdb Hop Ho) in Hl.
  destruct o as [e|]; [|done]. destruct Hw as (_ & Hs & _). cbn in Hl. by rewrite Hs in Hl.
Qed.
Lemma made_fits txs op : op ∈ made txs → outpoint_fits op.
Proof.
  unfold made. intros Hop. apply list_elem_of_In, in_concat in Hop as (l & Hl & Hop). apply in_map_iff in Hl as (tx & <- & _).
  apply in_map_iff in Hop as (p & <- & Hp). apply filter_In in Hp as [Hp _]. apply (outpoints_fit tx). by apply list_elem_of_In.
Qed.
Lemma txs_fit_valid db height txs L :
  txs_valid height txs L → (∀ op, op ∈ made txs → in_db db op None) → txs_fit db height txs L.
Proof.
  revert L. induction txs as [|tx txs IH]; intros L Hv Hm; [done|]. rewrite made_cons in Hm.
  destruct Hv as [(H1 & (H2 & _ & H3) & H4 & H5) Hv]. split; [|apply IH; [done|set_solver]].
  split_and!; [done|done|]. split; [done|]. intros p Hp. destruct (H3 p Hp). split_and!; [done|done|].
  apply Hm, elem_of_app. left. by apply list_elem_of_fmap_2.
Qed.

(** What a view has when it is handed on from one block to the next, and
    when the inputs of the next one are in it. *)
Definition carried (v : UtxoViewpoint) (L : ledger) : Prop :=
  view_fits v ∧ ∀ op e, entries v !! op = Some e → entry_state (Some e) = L op.
Definition filled (v : UtxoViewpoint) (L : ledger) (txs : list MsgTx) : Prop :=
  view_fits v ∧ ∀ op e, entries v !! op = Some e →
    entry_state (Some e) = L op ∨ (isModified e = true ∧ op ∈ made txs).

Lemma filled_set v L txs op e :
  filled v L txs → outpoint_fits op → utxo_fits e →
  entry_state (Some e) = L op ∨ (isModified e = true ∧ op ∈ made txs) → filled (set_entry op e v) L txs.
Proof.
  intros [H1 H2] Hop He Hs. split; intros op' e'; unfold set_entry; cbn [entries];
    (destruct (decide (op = op')) as [<-|Hne]; [rewrite lookup_insert_eq; intros [= <-]|rewrite lookup_insert_ne by done]); auto.
Qed.
Lemma filled_AddTxOuts v L txs tx height :
  tx ∈ txs → outputs_fit height tx → filled v L txs → filled (AddTxOuts tx height v) L txs.
Proof.
  intros Htx (Hh & _ & Hf) Hv. unfold AddTxOuts.
  assert (Hm : ∀ p, p ∈ spendable tx → fst p ∈ made txs).
  { intros p Hp. unfold made. apply list_elem_of_In, in_concat. exists (map fst (spendable tx)).
    split; [apply in_map_iff; exists tx; split; [done|by apply list_elem_of_In]|]. apply in_map. by apply list_elem_of_In. }
  unfold spendable in *. induction (outpoints tx) as [|p l IH] using rev_ind; [done|].
  rewrite fold_left_app. rewrite List.filter_app in *. cbn [fold_left List.filter] in *.
  assert (IH' := IH (λ q Hq, Hf q (proj2 (elem_of_app _ _ _) (or_introl Hq))) (λ q Hq, Hm q (proj2 (elem_of_app _ _ _) (or_introl Hq)))).
  unfold addTxOut at 1. destruct (IsUnspendable (PkScript (snd p))) eqn:Eu; [done|]. cbn [negb] in *.
  assert (Hp : p ∈ List.filter (λ p, negb (IsUnspendable (PkScript (snd p)))) l ++ [p]) by (apply elem_of_app; right; by left).
  destruct (Hf p Hp) as [Ha Hs]. apply filled_set; [done|by eapply made_fits, Hm|by split_and!|].
  right. split; [by destruct (IsCoinBaseTx tx)|by apply Hm].
Qed.
Lemma filled_put db op o v L txs :
  outpoint_fits op → entry_ok db op o → entry_state o = L op → filled v L txs → filled (put_fetched (op, o) v) L txs.
Proof.
  intros Hop Ho Hs Hv. unfold put_fetched. cbn [fst snd]. destruct o as [e|]; [apply filled_set; [done|done|apply Ho|by left]|].
  destruct Hv as [H1 H2]. split; intros op' e'; unfold set_nil; cbn [entries]; intros [_ ?]%lookup_delete_Some; eauto.
Qed.
Lemma filled_writable v L txs :
  filled v L txs → writable v L ∧ ∀ op, op ∉ made txs → over v L op = L op.
Proof.
  intros [H1 H2]. split; [split; [done|]|].
  - intros op e He Hm. destruct (H2 op e He) as [?|[? _]]; congruence.
  - intros op Hop. unfold over. destruct (entries v !! op) as [e|] eqn:E; [|done]. by destruct (H2 op e E) as [?|[_ ?]].
Qed.

Lemma commit_flags e f : f = tfSpent ∨ f = tfCoinBase →
  has_flag (set_flags (Z.lxor (packedFlags e) tfModified) e) f = has_flag e f.
Proof.
  intros Hf. unfold has_flag, set_flags. cbn [packedFlags]. f_equal. apply Z.bits_inj'. intros i Hi.
  rewrite !Z.land_spec, Z.lxor_spec. destruct (Z.testbit f i) eqn:E; [|by rewrite !andb_false_r].
  assert (Z.testbit tfModified i = false) as ->; [|by rewrite xorb_false_r].
  destruct Hf as [-> | ->].
  - destruct (decide (i = 1)) as [->|]; [done|]. exfalso. change tfSpent with (2 ^ 1) in E.
    rewrite Z.pow2_bits_false in E by lia. done.
  - destruct (decide (i = 0)) as [->|]; [done|]. exfalso. change tfCoinBase with (2 ^ 0) in E.
    rewrite Z.pow2_bits_false in E by lia. done.
Qed.
Lemma commit_carried v B : view_fits v → carried (commit v) (over v B).
Proof.
  intros Hv. assert (Hc : ∀ op e, entries (commit v) !! op = Some e → ∃ e0, entries v !! op = Some e0 ∧
    e = set_flags (Z.lxor (packedFlags e0) tfModified) e0).
  { intros op e. unfold commit. cbn [entries]. rewrite lookup_omap. destruct (entries v !! op) as [e0|]; [|done]. cbn.
    unfold commit_entry. destruct (_ && _); [done|]. intros [= <-]. eauto. }
  split; intros op e (e0 & He0 & ->)%Hc; [by apply (Hv op e0)|]. unfold over. rewrite He0. cbn [entry_state].
  unfold IsSpent, stxo_of, entry_IsCoinBase. rewrite !commit_flags by auto. done.
Qed.
Lemma carried_agree v L L' : agree L L' → carried v L → carried v L'.
Proof. intros HL [H1 H2]. split; [done|]. intros op e He. rewrite (H2 op e He). apply HL. by apply (H1 op e). Qed.
Lemma writable_agree v L L' : agree L L' → writable v L → writable v L'.
Proof. intros HL [H1 H2]. split; [done|]. intros op e He Hm. rewrite (H2 op e He Hm). apply HL. by apply (H1 op e). Qed.
Lemma over_agree v L L' : agree L L' → agree (over v L) (over v L').
Proof. intros HL op Hop. unfold over. destruct (entries v !! op); [done|]. by apply HL. Qed.

Definition inputs_fit (b : Block) : Prop :=
  Forall (λ tx, Forall outpoint_fits (map PreviousOutPoint (TxIns tx))) (tail (block_txs b)).

Lemma txs_valid_inputs height txs L :
  txs_valid height txs L → Forall (λ tx, IsCoinBaseTx tx = false) txs →
  Forall (λ tx, Forall outpoint_fits (map PreviousOutPoint (TxIns tx))) txs.
Proof.
  revert L. induction txs as [|tx txs IH]; intros L Hv Hcb; [constructor|]. destruct Hv as [(_ & _ & Hin & _) Hv].
  apply Forall_cons in Hcb as [Hcb1 Hcb2]. constructor; [|by eapply IH]. apply Forall_forall. intros op Hop.
  unfold inputs in Hin. rewrite Hcb1 in Hin. by apply Hin.
Qed.
Lemma block_valid_inputs b L : block_valid b L → inputs_fit b.
Proof.
  intros [(cb & txs & Hb & _ & Hn) Hv]. unfold inputs_fit. rewrite Hb in *. destruct Hv as [_ Hv]. by eapply txs_valid_inputs.
Qed.
Lemma txs_valid_outputs height txs L tx : txs_valid height txs L → tx ∈ txs → outputs_fit height tx.
Proof.
  revert L. induction txs as [|t txs IH]; intros L Hv; [by intros ?%elem_of_nil|]. destruct Hv as [Hv1 Hv2].
  intros [->|Hin]%elem_of_cons; [apply Hv1|by eapply IH].
Qed.

Context (new_max : list Z → Z → Z).

(** Looking up the inputs of the last block and disconnecting it. *)
Lemma undo_last db b L v s :
  cache_ok db s → ledger_fits L → block_valid b L → agree (cache_ledger db s) (ledger_block b L) →
  carried v (ledger_block b L) →
  ∃ v1 s1 v2, fetchInputUtxos new_max db b v s = COk (v1, s1) ∧ cache_ok db s1 ∧
    same (cache_ledger db s1) (cache_ledger db s) ∧
    disconnectTransactions dbf b (block_records b L) v1 = COk v2 ∧
    writable v2 (ledger_block b L) ∧ agree (over v2 (ledger_block b L)) L.
Proof.
  intros Hs HL Hb Hag [Hv1 Hv2].
  destruct (fetchInputUtxos_keeps new_max (λ v, filled v (ledger_block b L) (block_txs b)) db b v s)
    as (v1 & s1 & Hf & Hfill & Hs1 & Hl1).
  - done.
  - destruct Hb as [(cb & txs & -> & _) _]. done.
  - by apply (block_valid_inputs b L).
  - intros tx w Htx. apply filled_AddTxOuts; [done|]. by eapply txs_valid_outputs; [apply Hb|].
  - intros op o w _ Hop Ho He. apply (filled_put db); [done|done|]. rewrite He. by apply Hag.
  - split; [done|]. intros op e He. left. by apply Hv2.
  - destruct (filled_writable _ _ _ Hfill) as [Hw Hov].
    destruct (undo_block b L v1 (ledger_block b L) HL Hb Hw) as (v2 & Hd & Hw2 & Hov2); [intros op _; apply Hov|].
    exists v1, s1, v2. done.
Qed.
End Undo.

(** ** What the check of a block establishes *)

Section Verify.
Context `{Crypto} `{Keys}.

(** The view stands for [L] over [B], but for the outputs of [txs]. *)
Definition stands (B L : ledger) (txs : list MsgTx) (v : UtxoViewpoint) : Prop :=
  writable v B ∧ ∀ op, outpoint_fits op → op ∉ made txs → over v B op = L op.

Lemma stands_none B L v : stands B L [] v ↔ writable v B ∧ agree (over v B) L.
Proof.
  split; (intros [Hw Ho]; split; [done|]); intros op Hop; [apply Ho; [done|by apply not_elem_of_nil]|intros _; by apply Ho].
Qed.
Lemma stands_more B L txs v : stands B L [] v → stands B L txs v.
Proof. intros [Hw Ho]%stands_none. split; [done|]. intros op Hop _. by apply Ho. Qed.

Lemma made_in tx txs op : tx ∈ txs → op ∈ map fst (spendable tx) → op ∈ made txs.
Proof.
  intros Htx Hop. unfold made. apply list_elem_of_In, in_concat. exists (map fst (spendable tx)).
  split; [apply in_map_iff; exists tx; split; [done|by apply list_elem_of_In]|by apply list_elem_of_In].
Qed.

(** ** Adding outputs *)

Lemma over_AddTxOuts tx height v B op :
  over (AddTxOuts tx height v) B op = match created height tx op with Some s => Some s | None => over v B op end.
Proof.
  unfold AddTxOuts, created, spendable. induction (outpoints tx) as [|p l IH] using rev_ind; [done|].
  rewrite fold_left_app, List.filter_app, rev_app_distr. cbn [fold_left List.filter].
  destruct (IsUnspendable (PkScript (snd p))) eqn:Eu; cbn [negb rev app List.find].
  - unfold addTxOut at 1. by rewrite Eu.
  - unfold addTxOut at 1. rewrite Eu, over_set. destruct (new_entry (snd p) height (IsCoinBaseTx tx)) as [Hs He].
    cbn [entry_state]. rewrite Hs, He. case_bool_decide; case_decide; done.
Qed.
Lemma writable_AddTxOuts tx height v B :
  outputs_fit height tx → writable v B → writable (AddTxOuts tx height v) B.
Proof.
  intros (Hh & _ & Hf) Hv. unfold AddTxOuts, spendable in *.
  assert (Hall : ∀ p, p ∈ outpoints tx → outpoint_fits (fst p)) by apply outpoints_fit.
  induction (outpoints tx) as [|p l IH] using rev_ind; [done|].
  rewrite fold_left_app. rewrite List.filter_app in Hf. cbn [fold_left List.filter] in *.
  assert (IH' := IH (λ q Hq, Hf q (proj2 (elem_of_app _ _ _) (or_introl Hq))) (λ q Hq, Hall q (proj2 (elem_of_app _ _ _) (or_introl Hq)))).
  unfold addTxOut at 1. destruct (IsUnspendable (PkScript (snd p))); [done|]. cbn [negb] in Hf.
  destruct (Hf p) as [Ha Hs]; [apply elem_of_app; right; by left|].
  apply writable_set; [done|apply Hall, elem_of_app; right; by left|by split_and!|].
  by destruct (IsCoinBaseTx tx).
Qed.
Lemma stands_AddTxOuts B L txs tx height v :
  tx ∈ txs → outputs_fit height tx → stands B L txs v → stands B L txs (AddTxOuts tx height v).
Proof.
  intros Htx Hf [Hw Ho]. split; [by apply writable_AddTxOuts|]. intros op Hop Hm. rewrite over_AddTxOuts.
  rewrite (proj2 (created_spendable height tx op)); [by apply Ho|]. intros Hin. by apply Hm, (made_in tx).
Qed.

(** ** Filling the view *)

(** What is looked up is what is stored, and a view that stands for a
    ledger without a key for an outpoint says so of it. *)
Lemma stands_put db B L txs op o v :
  missed (stands B L txs) op → outpoint_fits op → entry_ok db op o → entry_state o = B op →
  stands B L txs v → stands B L txs (put_fetched (op, o) v).
Proof.
  intros (w & [_ Hw] & Hk) Hop Hok Ho [[Hv1 Hv2] Hv].
  assert (Hwn : entries w !! op = None).
  { unfold has_key in Hk. apply orb_false_iff in Hk as [Hk _]. apply bool_decide_eq_false in Hk.
    destruct (entries w !! op); [by destruct Hk|done]. }
  assert (HL : op ∉ made txs → B op = L op) by (intros Hm; specialize (Hw op Hop Hm); unfold over in Hw; by rewrite Hwn in Hw).
  unfold put_fetched. cbn [fst snd]. destruct o as [e|].
  - split; [apply writable_set; [done|done|apply Hok|by intros _]|]. intros op' Hop' Hm. rewrite over_set.
    case_decide as Hd; [subst; rewrite Ho; by apply HL|by apply Hv].
  - split; [split; intros op' e'; unfold set_nil; cbn [entries]; intros [_ ?]%lookup_delete_Some; eauto|].
    intros op' Hop' Hm. unfold over, set_nil. cbn [entries]. destruct (decide (op = op')) as [->|Hne].
    + rewrite lookup_delete_eq. by apply HL.
    + rewrite lookup_delete_ne by done. by apply Hv.
Qed.

Context (new_max : list Z → Z → Z).

(** What a chain serves while such a view is filled. *)
Definition backs (B : ledger) (c : BlockChain) : Prop :=
  cache_ok (c_db c) (c_utxoCache c) ∧ agree (cache_ledger (c_db c) (c_utxoCache c)) B.

Lemma fetch_inputs_stands B L b v s db v' s' :
  cache_ok db s → agree (cache_ledger db s) B → inputs_fit b → Forall (outputs_fit (b_height b)) (block_txs b) →
  stands B L (block_txs b) v → fetchInputUtxos new_max db b v s = COk (v', s') →
  cache_ok db s' ∧ agree (cache_ledger db s') B ∧ stands B L (block_txs b) v'.
Proof.
  intros Hs HB Hin Hout Hv Hr.
  destruct (fetchInputUtxos_keeps new_max (stands B L (block_txs b)) db b v s) as (v1 & s1 & He & Hv1 & Hs1 & Hl); try done.
  - intros Hb. unfold fetchInputUtxos, findInputsToFetch in Hr. by rewrite Hb in Hr.
  - intros tx w Htx. apply stands_AddTxOuts; [done|]. by apply (proj1 (Forall_forall _ _) Hout).
  - intros op o w Hm Hop Hok Ho. apply (stands_put db); [done|done|done|]. rewrite Ho. by apply HB.
  - rewrite He in Hr. injection Hr as <- <-. split_and!; [done| |done]. etransitivity; [by apply same_agree|done].
Qed.
Lemma checkBIP0030_stands B L txs v c v' c' :
  backs B c → stands B L [] v → checkBIP0030 new_max txs v c = (VOk v', c') → backs B c' ∧ stands B L [] v'.
Proof.
  intros [Hs HB] Hv. unfold checkBIP0030. rewrite ChainM_bind_ok. intros (v1 & c1 & Hw & Hr).
  apply with_cache_ok in Hw as (s1 & Hw & ->). apply ChainM_bind_ok in Hr as (u & c2 & [_ <-]%lift_ok & [= <- <-]).
  unfold fetchUtxos in Hw. set (ops := List.filter _ _) in Hw.
  assert (Hops : Forall outpoint_fits ops).
  { apply Forall_forall. intros op [Hop _]%list_elem_of_In%filter_In. apply in_concat in Hop as (l & Hl & Hop).
    apply in_map_iff in Hl as (tx & <- & _). apply list_elem_of_In, list_elem_of_fmap in Hop as (p & -> & Hp). by apply outpoints_fit with tx. }
  destruct (fetch_keeps new_max (stands B L []) (c_db c) ops v (c_utxoCache c)) as (v2 & s2 & He & Hv2 & Hs2 & Hl); try done.
  - intros op o w Hin Hop Hok Ho. apply (stands_put (c_db c)); [|done|done|rewrite Ho; by apply HB]. exists v. split; [done|].
    apply list_elem_of_In, filter_In in Hin as [_ Hk]. by destruct (has_key v op).
  - rewrite He in Hw. injection Hw as <- <-. split; [|done]. split; [done|]. cbn [c_db c_utxoCache set_utxoCache].
    etransitivity; [by apply same_agree|done].
Qed.

(** ** Connecting *)

Lemma spend_inputs_stands ins v l v' s' B :
  spend_inputs ins v l = COk (v', s') → writable v B →
  writable v' B ∧ ∀ op, over v' B op = if decide (op ∈ map PreviousOutPoint ins) then None else over v B op.
Proof.
  revert v l. induction ins as [|ti ins IH]; intros v l; cbn [spend_inputs].
  { intros [= <- <-] Hw. split; [done|]. intros op. by rewrite decide_False by apply not_elem_of_nil. }
  destruct (entries v !! PreviousOutPoint ti) as [e|] eqn:Ee; [|done]. intros Hs [Hw1 Hw2].
  destruct (Hw1 _ _ Ee) as [Hop He]. apply IH in Hs as [Hw' Ho].
  - split; [done|]. intros op. rewrite Ho, over_set. cbn [map entry_state]. rewrite Spend_spent.
    destruct (decide (op ∈ map PreviousOutPoint ins)) as [Hin|Hin]; [by rewrite decide_True by by right|].
    destruct (decide (PreviousOutPoint ti = op)) as [->|Hne]; [by rewrite decide_True by left|].
    rewrite decide_False; [done|]. rewrite elem_of_cons. naive_solver.
  - apply writable_set; [done|done|by rewrite (proj2 (Spend_flags e))|]. intros Hm.
    destruct (Spend_modified e Hm) as [He' _]. rewrite He' in *. by apply Hw2.
Qed.
Lemma connectTransaction_over tx height v l v' s' B :
  connectTransaction tx height v l = COk (v', s') → outputs_fit height tx → writable v B →
  writable v' B ∧ ∀ op, over v' B op = ledger_tx height tx (over v B) op.
Proof.
  unfold connectTransaction, ledger_tx, inputs. intros Hc Hf Hw. destruct (IsCoinBaseTx tx).
  - injection Hc as <- <-. split; [by apply writable_AddTxOuts|]. intros op. rewrite over_AddTxOuts.
    by rewrite decide_False by apply not_elem_of_nil.
  - unfold mbind, ChainRes_bind in Hc. destruct (spend_inputs (TxIns tx) v l) as [[v1 s1]| |] eqn:E; [|done..].
    injection Hc as <- <-. apply (spend_inputs_stands _ _ _ _ _ B) in E as [Hw1 Ho]; [|done].
    split; [by apply writable_AddTxOuts|]. intros op. by rewrite over_AddTxOuts, Ho.
Qed.
Lemma stands_connect B L tx rest height v l v' s' :
  stands B L (tx :: rest) v → outputs_fit height tx → connectTransaction tx height v l = COk (v', s') →
  stands B (ledger_tx height tx L) rest v'.
Proof.
  intros [Hw Ho] Hf Hc. apply (connectTransaction_over _ _ _ _ _ _ B) in Hc as [Hw' Ho']; [|done..]. split; [done|].
  intros op Hop Hm. rewrite Ho'. unfold ledger_tx. destruct (created height tx op) eqn:Ec; [done|].
  case_decide; [done|]. apply Ho; [done|]. rewrite made_cons, elem_of_app. apply created_spendable in Ec. naive_solver.
Qed.
Lemma stands_connect_loop B txs height v l v' s' L :
  stands B L txs v → Forall (outputs_fit height) txs → connect_loop txs height v l = COk (v', s') →
  stands B (ledger_txs height txs L) [] v'.
Proof.
  revert v l L. induction txs as [|tx txs IH]; intros v l L Hv Hf; cbn [connect_loop]; [by intros [= <- <-]|].
  apply Forall_cons in Hf as [Hf Hfs]. unfold mbind, ChainRes_bind.
  destruct (connectTransaction tx height v l) as [[v1 s1]| |] eqn:E; [|done..].
  apply (stands_connect B L _ txs) in E; [|done..]. by apply IH.
Qed.

(** What is unspent in the view is unspent in the ledger. *)
Lemma stands_input B L tx rest v op :
  stands B L (tx :: rest) v → ordered (tx :: rest) → op ∈ inputs tx → outpoint_fits op →
  is_Some (unspent v op) → is_Some (L op).
Proof.
  intros [_ Ho] [Hord _] Hin Hop [s Hs]. rewrite <- Ho; [|done|].
  - unfold over, unspent in *. destruct (entries v !! op) as [e|]; [|done]. by exists s.
  - intros Hm. unfold made in Hm. apply list_elem_of_In, in_concat in Hm as (l & Hl & Hm).
    apply in_map_iff in Hl as (tx' & <- & Htx). apply (Hord op tx'); [done|by apply list_elem_of_In|by apply list_elem_of_In].
Qed.
Lemma connect_fees_stands B height p txs v l F L F' v' l' :
  Forall sane txs → Forall (outputs_fit height) txs → Forall (λ tx, Forall outpoint_fits (inputs tx)) txs → ordered txs →
  stands B L txs v → connect_fees txs height p v l F = VOk (F', v', l') →
  spends_unspent height txs L ∧ stands B (ledger_txs height txs L) [] v'.
Proof.
  intros Hsane. revert v l F L. induction Hsane as [|tx txs Hs Hsane IH]; intros v l F L Hout Hin Hord Hv.
  { intros [= <- <- <-]. by split. }
  apply Forall_cons in Hout as [Hf Hfs]. apply Forall_cons in Hin as [Hi His]. cbn [connect_fees]. rewrite VRes_bind_ok.
  intros (fee & Hfee & Hr). apply VRes_seq_ok in Hr as [_ Hr]. apply VRes_bind_ok in Hr as ([v1 l1] & Hc & Hr).
  unfold of_chain in Hc. destruct (connectTransaction tx height v l) as [[v2 l2]| |] eqn:Ec; [|done..]. injection Hc as -> ->.
  apply (stands_connect B L _ txs) in Ec; [|done..]. apply (IH _ _ _ (ledger_tx height tx L)) in Hr as [H1 H2]; [|done|done|apply Hord|done].
  split; [|done]. split_and!; [by apply sane_inputs| |done]. intros op Hop. destruct (IsCoinBaseTx tx) eqn:Hcb.
  { unfold inputs in Hop. rewrite Hcb in Hop. by apply elem_of_nil in Hop. }
  apply CheckTransactionInputs_ok in Hfee as (_ & _ & Hun); [|done..].
  eapply stands_input; [exact Hv|done|done|by apply (proj1 (Forall_forall _ _) Hi)|by apply Hun].
Qed.

(** ** Blocks that pass the check *)

(** What a block must be by itself to be connected and stored. *)
Record well_formed (b : Block) : Prop := {
  wf_sane : ∃ powLimit adjustedTime flags, checkBlockSanity (b_msg b) powLimit adjustedTime flags = VOk tt;
  wf_ordered : ordered (block_txs b);
  wf_inputs : inputs_fit b;
  wf_outputs : Forall (outputs_fit (b_height b)) (block_txs b)
}.
Lemma checkBlockSanity_distinct msg powLimit adjustedTime flags :
  checkBlockSanity msg powLimit adjustedTime flags = VOk tt → NoDup (map TxHash (Transactions msg)).
Proof.
  unfold checkBlockSanity. rewrite !VRes_seq_ok. intros (_ & _ & _ & _ & Hr).
  destruct (Transactions msg) as [|cb rest]; [done|]. rewrite !VRes_seq_ok in Hr. destruct Hr as (_ & _ & _ & Hr).
  destruct (CalcMerkleRoot _ _); [|done..]. rewrite !VRes_seq_ok, !reject_if_ok in Hr. destruct Hr as (_ & Hd & _).
  by apply has_duplicate_ok in Hd as [? _].
Qed.
Lemma well_formed_inputs b : well_formed b → Forall (λ tx, Forall outpoint_fits (inputs tx)) (block_txs b).
Proof.
  intros [(? & ? & ? & Hs) _ Hin _]. apply checkBlockSanity_ok in Hs as (cb & rest & Hb & Hcb & Hn & _).
  unfold inputs_fit, block_txs in *. rewrite Hb in *. constructor; [unfold inputs; rewrite Hcb; constructor|].
  cbn [tail] in Hin. apply Forall_forall. intros tx Htx. unfold inputs. rewrite (proj1 (Forall_forall _ _) Hn tx Htx).
  by apply (proj1 (Forall_forall _ _) Hin).
Qed.

Lemma spendable_hash tx op : op ∈ map fst (spendable tx) → op_Hash op = TxHash tx.
Proof.
  intros (p & -> & Hp)%list_elem_of_fmap. unfold spendable in Hp. apply list_elem_of_In, filter_In, proj1, list_elem_of_In in Hp.
  by apply elem_of_lookup_imap in Hp as (i & to & -> & _).
Qed.
Lemma made_hash txs op : op ∈ made txs → op_Hash op ∈ map TxHash txs.
Proof.
  unfold made. intros Hm. apply list_elem_of_In, in_concat in Hm as (l & Hl & Hm). apply in_map_iff in Hl as (tx & <- & Htx).
  rewrite (spendable_hash tx op) by by apply list_elem_of_In. apply list_elem_of_In. by apply in_map.
Qed.
Lemma txs_valid_intro height txs L :
  NoDup (map TxHash txs) → Forall (outputs_fit height) txs → Forall (λ tx, Forall outpoint_fits (inputs tx)) txs →
  spends_unspent height txs L → (∀ op, op ∈ made txs → L op = None) → txs_valid height txs L.
Proof.
  revert L. induction txs as [|tx txs IH]; intros L Hd Hout Hin Hsp Hfr; [done|]. cbn [map] in Hd.
  apply NoDup_cons in Hd as [Hn Hd]. apply Forall_cons in Hout as [Hf Hfs]. apply Forall_cons in Hin as [Hi His].
  destruct Hsp as (Hnd & Hun & Hsp). setoid_rewrite made_cons in Hfr. split.
  - split_and!; [done|done| |intros op Hop; apply Hfr, elem_of_app; by left]. intros op Hop.
    split; [by apply (proj1 (Forall_forall _ _) Hi)|by apply Hun].
  - apply IH; [done..|]. intros op Hop. unfold ledger_tx.
    destruct (created height tx op) eqn:Ec; [|case_decide; [done|apply Hfr, elem_of_app; by right]]. exfalso. apply Hn.
    assert (op ∈ map fst (spendable tx)) as Ht.
    { destruct (decide (op ∈ map fst (spendable tx))) as [?|Hno]; [done|]. apply (created_spendable height) in Hno. congruence. }
    rewrite <- (spendable_hash tx op Ht). by apply made_hash.
Qed.

(** A block that [checkConnectBlock] accepts on a view that stands for [L]
    can be connected to [L], and the view that comes back stands for what
    the block makes of [L]. *)
Lemma checkConnectBlock_valid sched fuel node b view stxos c v' stxos' c' B L :
  backs B c → stands B L [] view → b_height b = n_height node → well_formed b →
  (∀ op, op ∈ made (block_txs b) → L op = None) →
  checkConnectBlock new_max sched fuel node b view stxos c = (VOk (v', stxos'), c') →
  block_valid b L ∧ stands B (ledger_block b L) [] v'.
Proof.
  intros Hback Hv Hh Hwf Hfr Hc. pose proof (well_formed_inputs b Hwf) as Hins. destruct Hwf as [(? & ? & ? & Hsan) Hord Hin Hout].
  pose proof (checkBlockSanity_distinct _ _ _ _ Hsan) as Hd. apply checkBlockSanity_ok in Hsan as (cb & rest & Etx & Hcb & Hrest & Hsane).
  unfold checkConnectBlock in Hc. cbv zeta in Hc.
  apply ChainM_bind_ok in Hc as (params & c1 & [= <- <-] & Hc).
  apply ChainM_bind_ok in Hc as (? & c1 & [_ <-]%lift_ok & Hc).
  apply ChainM_bind_ok in Hc as (? & c1 & [_ <-]%lift_ok & Hc).
  apply ChainM_bind_ok in Hc as (v1 & c1 & Hbip & Hc).
  assert (Hv1 : backs B c1 ∧ stands B L [] v1).
  { destruct (_ && _); [by eapply checkBIP0030_stands|]. by injection Hbip as <- <-. }
  destruct Hv1 as [[Hok1 HB1] Hv1]. apply (stands_more _ _ (block_txs b)) in Hv1.
  apply ChainM_bind_ok in Hc as (v2 & c2 & Hfetch & Hc). apply with_cache_ok in Hfetch as (s2 & Hfetch & ->).
  apply (fetch_inputs_stands B L) in Hfetch as (_ & _ & Hv2); [|done..].
  apply ChainM_bind_ok in Hc as (sw & c3 & _ & Hc).
  apply ChainM_bind_ok in Hc as (? & c4 & [_ <-]%lift_ok & Hc).
  apply ChainM_bind_ok in Hc as ([[F v3] st3] & c4 & [Hfees <-]%lift_ok & Hc). rewrite <- Hh in Hfees.
  apply (connect_fees_stands B _ _ _ _ _ _ L) in Hfees as [Hsp Hv3]; [|unfold block_txs; by rewrite Etx|done..].
  assert (Hv' : stands B (ledger_block b L) [] v').
  { repeat first [apply ChainM_bind_ok in Hc as (? & ? & _ & Hc)]. injection Hc as <- _ _. exact Hv3. }
  split; [|done]. split; [by exists cb, rest|]. by apply txs_valid_intro.
Qed.
End Verify.
