(* ===== verification/ChainState.v ===== *)
(** * Block chain: how the best chain changes

    btcd/blockchain/chain.go, process.go and accept.go: connecting and
    disconnecting the block at the end of the best chain, reorganizing it,
    accepting blocks and orphans, and rebuilding the unspent outputs after a
    crash (utxocache.go).  The database holds blocks by hash, the journals of
    spent outputs, the block index and the state of the best chain; an
    [update] that fails leaves it as it was, but not what is in memory. *)

From Stdlib Require Import ZArith Lia.
From stdpp Require Import base numbers list strings gmap.
From S2P Require Import Prelude ScriptNum WireBase WireTx ScriptStack ScriptToken Sighash WireMsg Taproot ScriptEngine ScriptExec ChainCompress ChainUtxo ChainStore ChainError ChainNode ChainParams ChainWork ChainThreshold ChainCache Merkle ChainRules ChainConnect.

Open Scope Z_scope.

(** ** State *)

Record BestState := mkBestState {
  best_Hash : Hash; best_Height : Z; best_Bits : Z; best_BlockSize : Z; best_BlockWeight : Z;
  best_NumTxns : Z; best_TotalTxns : Z; best_MedianTime : Z
}.

(** The rest of the database; the bucket of the unspent outputs is in the
    state of ChainConnect. *)
Record ChainDb := mkChainDb {
  d_blocks : gmap Hash MsgBlock;
  d_journal : bucket;
  d_index : index_buckets;
  d_nodes : bucket;
  d_best : option (list byte)
}.

Record orphanBlock := mkOrphan { o_block : Block; o_expiration : Z }.
Inductive NotificationType := NTBlockAccepted | NTBlockConnected | NTBlockDisconnected.

Record Chain := mkChainState {
  s_chain : BlockChain;
  s_db : ChainDb;
  s_snapshot : BestState;
  s_warningCaches : list thresholdStateCache;
  s_unknownRulesWarned : bool;
  s_orphans : gmap Hash orphanBlock;
  s_prevOrphans : gmap Hash (list orphanBlock);
  s_oldestOrphan : option orphanBlock;
  s_notes : list (NotificationType * Block);      (* what was sent *)
  pruneTarget : Z
}.

Definition set_chain (f : BlockChain → BlockChain) (s : Chain) : Chain :=
  mkChainState (f (s_chain s)) (s_db s) (s_snapshot s) (s_warningCaches s) (s_unknownRulesWarned s)
    (s_orphans s) (s_prevOrphans s) (s_oldestOrphan s) (s_notes s) (pruneTarget s).
Definition set_db (f : ChainDb → ChainDb) (s : Chain) : Chain :=
  mkChainState (s_chain s) (f (s_db s)) (s_snapshot s) (s_warningCaches s) (s_unknownRulesWarned s)
    (s_orphans s) (s_prevOrphans s) (s_oldestOrphan s) (s_notes s) (pruneTarget s).
Definition set_snapshot (b : BestState) (s : Chain) : Chain :=
  mkChainState (s_chain s) (s_db s) b (s_warningCaches s) (s_unknownRulesWarned s)
    (s_orphans s) (s_prevOrphans s) (s_oldestOrphan s) (s_notes s) (pruneTarget s).
Definition set_warning (cs : list thresholdStateCache) (w : bool) (s : Chain) : Chain :=
  mkChainState (s_chain s) (s_db s) (s_snapshot s) cs w
    (s_orphans s) (s_prevOrphans s) (s_oldestOrphan s) (s_notes s) (pruneTarget s).
Definition set_orphans (os : gmap Hash orphanBlock) (ps : gmap Hash (list orphanBlock))
    (oldest : option orphanBlock) (s : Chain) : Chain :=
  mkChainState (s_chain s) (s_db s) (s_snapshot s) (s_warningCaches s) (s_unknownRulesWarned s)
    os ps oldest (s_notes s) (pruneTarget s).
Definition add_note (n : NotificationType * Block) (s : Chain) : Chain :=
  mkChainState (s_chain s) (s_db s) (s_snapshot s) (s_warningCaches s) (s_unknownRulesWarned s)
    (s_orphans s) (s_prevOrphans s) (s_oldestOrphan s) (s_notes s ++ [n]) (pruneTarget s).
Definition set_index (f : blockIndex → blockIndex) (b : BlockChain) : BlockChain :=
  mkChain (chainParams b) (f (c_index b)) (bestChain b) (checkpoints b) (checkpointNode b) (nextCheckpoint b)
    (deploymentCaches b) (c_utxoCache b) (c_db b).
Definition set_bestChain (v : chainView) (b : BlockChain) : BlockChain :=
  mkChain (chainParams b) (c_index b) v (checkpoints b) (checkpointNode b) (nextCheckpoint b)
    (deploymentCaches b) (c_utxoCache b) (c_db b).
Definition set_utxo (d : utxo_db) (u : utxoCache) (b : BlockChain) : BlockChain :=
  mkChain (chainParams b) (c_index b) (bestChain b) (checkpoints b) (checkpointNode b) (nextCheckpoint b)
    (deploymentCaches b) u d.

Definition CM (A : Type) : Type := Chain → VRes A * Chain.
#[export] Instance CM_ret : MRet CM := λ A a s, (VOk a, s).
#[export] Instance CM_bind : MBind CM := λ A B f m s,
  match m s with
  | (VOk a, s) => f a s
  | (VErr e, s) => (VErr e, s)
  | (VCrash, s) => (VCrash, s)
  end.
Definition ret_res {A} (r : VRes A) : CM A := λ s, (r, s).
Definition reads {A} (f : Chain → A) : CM A := λ s, (VOk (f s), s).
Definition modifies (f : Chain → Chain) : CM unit := λ s, (VOk tt, f s).
Definition on_chain {A} (m : ChainM A) : CM A := λ s,
  let '(r, b) := m (s_chain s) in (r, set_chain (λ _, b) s).
(** A transaction of the database: when it fails, nothing is written. *)
Definition update {A} (m : CM A) : CM A := λ s,
  match m s with
  | (VOk a, s') => (VOk a, s')
  | (r, s') =>
      (r, set_db (λ _, s_db s)
            (set_chain (λ b, set_utxo (c_db (s_chain s)) (c_utxoCache b) b) s'))
  end.
(** The error that the code catches with a type assertion. *)
Definition try {A} (m : CM A) : CM (VRes A) := λ s,
  match m s with (VCrash, s) => (VCrash, s) | (r, s) => (VOk r, s) end.
Definition is_rule {A} (r : VRes A) : bool := match r with VErr (RuleError _) => true | _ => false end.

Definition the_tip : CM blockNode := λ s,
  match tip (bestChain (s_chain s)) with Some t => (VOk t, s) | None => (VCrash, s) end.
Definition set_status (node : blockNode) (flags : Z) : CM unit :=
  modifies (set_chain (set_index (SetStatusFlags node flags))).
Definition notify (t : NotificationType) (b : Block) : CM unit := modifies (add_note (t, b)).

Section Chain.
Context `{Crypto} `{Keys}.
Context (new_max : list Z → Z → Z) (maps_memory : list Z → Z) (maxTotalMemoryUsage : Z).
(** How scripts are scheduled and run, see ChainConnect. *)
Context (sched : list txValidateItem → list txValidateItem) (fuel : nat).
(** What the block store deletes to get under a size. *)
Context (PruneBlocks : Z → gmap Hash MsgBlock → VRes (list Hash * gmap Hash MsgBlock)).
(** The optional indexes: their buckets are their own. *)
Context (index_ConnectBlock index_DisconnectBlock : Block → list SpentTxOut → VRes unit).

Definition block_hash (b : Block) : Hash := BlockHash (Header (b_msg b)).
Definition newBestState (node : blockNode) (blockSize blockWeight numTxns totalTxns medianTime : Z) : BestState :=
  mkBestState (n_hash node) (n_height node) (n_bits node) blockSize blockWeight numTxns totalTxns medianTime.

(** ** The database *)

Definition blockIndexKey (h : Hash) (height : Z) : list byte := rev (PutUint32 height) ++ h.
Definition dbStoreBlockNode (node : blockNode) (status : Z) (d : ChainDb) : ChainDb :=
  mkChainDb (d_blocks d) (d_journal d) (d_index d)
    (<[blockIndexKey (n_hash node) (uint32 (n_height node)) := writeBlockHeader (node_Header node) ++ [wrap_u 8 status]]> (d_nodes d))
    (d_best d).
(** The order in which the dirty nodes are written does not matter: their
    keys differ. *)
Definition flushToDB : CM unit := λ s,
  let bi := c_index (s_chain s) in
  let nodes := omap (λ h, index bi !! h) (elements (dirty bi)) in
  (VOk tt,
   set_chain (set_index (λ bi, ChainNode.mkIndex (index bi) (statuses bi) ∅))
     (set_db (λ d, foldr (λ n, dbStoreBlockNode n (NodeStatus bi n)) d nodes) s)).

Definition set_journal (f : bucket → bucket) (d : ChainDb) : ChainDb :=
  mkChainDb (d_blocks d) (f (d_journal d)) (d_index d) (d_nodes d) (d_best d).
Definition set_blocks (f : gmap Hash MsgBlock → gmap Hash MsgBlock) (d : ChainDb) : ChainDb :=
  mkChainDb (f (d_blocks d)) (d_journal d) (d_index d) (d_nodes d) (d_best d).
Definition set_main_index (f : index_buckets → index_buckets) (d : ChainDb) : ChainDb :=
  mkChainDb (d_blocks d) (d_journal d) (f (d_index d)) (d_nodes d) (d_best d).
Definition dbPutSpendJournalEntry (h : Hash) (stxos : list SpentTxOut) (d : ChainDb) : ChainDb :=
  set_journal (insert h (serializeSpendJournalEntry stxos)) d.
Definition dbRemoveSpendJournalEntry (h : Hash) (d : ChainDb) : ChainDb := set_journal (delete h) d.
Definition dbPruneSpendJournalEntry (hs : list Hash) (d : ChainDb) : ChainDb :=
  set_journal (λ j, foldr delete j hs) d.
(** A journal that is not there has no bytes; a block without transactions
    is sliced out of range. *)
Definition dbFetchSpendJournalEntry (b : Block) (d : ChainDb) : VRes (list SpentTxOut) :=
  match block_txs b with
  | [] => VCrash
  | _ :: blockTxns =>
      match deserializeSpendJournalEntry (default [] (d_journal d !! block_hash b)) blockTxns with
      | COk stxos => VOk stxos
      | CErr e => VErr (OtherError e)
      | CCrash => VCrash
      end
  end.
Definition dbPutBestState (snapshot : BestState) (work : Z) (d : ChainDb) : ChainDb :=
  mkChainDb (d_blocks d) (d_journal d) (d_index d) (d_nodes d)
    (Some (serializeBestChainState
             (mkBestChainState (best_Hash snapshot) (uint32 (best_Height snapshot)) (best_TotalTxns snapshot) work))).
Definition dbFetchBlockByNode (node : blockNode) (d : ChainDb) : VRes Block :=
  match d_blocks d !! n_hash node with
  | Some msg => VOk (mkBlock msg (n_height node))
  | None => VErr (OtherError "block does not exist")
  end.
Definition dbStoreBlock (b : Block) (d : ChainDb) : ChainDb :=
  if bool_decide (is_Some (d_blocks d !! block_hash b)) then d
  else set_blocks (insert (block_hash b) (b_msg b)) d.

Definition cache_flush (now : Z) (mode : FlushMode) (best : Hash) : CM unit := λ s,
  match flush maps_memory maxTotalMemoryUsage now mode best (c_db (s_chain s)) (c_utxoCache (s_chain s)) with
  | COk (d, u) => (VOk tt, set_chain (set_utxo d u) s)
  | CErr e => (VErr (AssertError e), s)
  | CCrash => (VCrash, s)
  end.
Definition cache_connect (b : Block) (stxos : option (list SpentTxOut)) : CM (option (list SpentTxOut)) :=
  on_chain (with_cache (λ db s, '(s, stxos) ← cache_connectTransactions new_max db b s stxos; COk (stxos, s))).
Definition put_utxo_view (v : UtxoViewpoint) : CM unit := λ s,
  match dbPutUtxoView v (utxoSet (c_db (s_chain s))) with
  | COk b => (VOk tt, set_chain (λ c, set_utxo (mkUtxoDb b (utxoStateConsistency (c_db c))) (c_utxoCache c) c) s)
  | CErr e => (VErr (AssertError e), s)
  | CCrash => (VCrash, s)
  end.
Definition fetch_inputs (b : Block) (v : UtxoViewpoint) : CM UtxoViewpoint :=
  on_chain (with_cache (λ db, fetchInputUtxos new_max db b v)).
(** The lookup by hash of legacy records goes to the database. *)
Context (dbFetchUtxoEntryByHash : utxo_db → Hash → ChainRes (option UtxoEntry)).
Definition undo_view (b : Block) (stxos : list SpentTxOut) (v : UtxoViewpoint) : CM UtxoViewpoint := λ s,
  (of_chain (disconnectTransactions (dbFetchUtxoEntryByHash (c_db (s_chain s))) b stxos v), s).

(** ** Connecting the next block *)

Definition spent_count (b : Block) : VRes nat :=
  match block_txs b with [] => VCrash | _ => VOk (countSpentOutputs b) end.

Definition isCurrent (now : Z) : CM bool :=
  checkpoint ← reads (λ s, LatestCheckpoint (s_chain s));
  t ← the_tip;
  if match checkpoint with Some cp => n_height t <? cp_Height cp | None => false end then mret false
  else mret (now - 24 * 3600 <=? n_timestamp t).

Fixpoint warn_bits (bits : list nat) (node : blockNode) : CM unit :=
  match bits with
  | [] => mret tt
  | bit :: bits =>
      (λ s,
        let c := s_chain s in
        match s_warningCaches s !! bit with
        | None => (VCrash, s)
        | Some cache =>
            let '(r, cache, cs) := thresholdState (bitConditionChecker (chainParams c) (c_index c) (Z.of_nat bit))
                                     (parent node) cache (deploymentCaches c) in
            let s := set_chain (set_caches cs) s in
            let warned := match r with VOk ThresholdActive => true | _ => s_unknownRulesWarned s end in
            let s := set_warning (<[bit := cache]> (s_warningCaches s)) warned s in
            match r with
            | VOk _ => (VOk tt, s)
            | VErr e => (VErr e, s)
            | VCrash => (VCrash, s)
            end
        end);;
      warn_bits bits node
  end.
Definition warnUnknownRuleActivations (node : blockNode) : CM unit := warn_bits (seq 0 vbNumBits) node.

(** The heights of the deleted blocks that are in the index. *)
Definition flushNeededAfterPrune (deleted : list Hash) : CM bool := λ s,
  let bi := c_index (s_chain s) in
  match LookupNode bi (lastFlushHash (c_utxoCache (s_chain s))) with
  | None => (VOk true, s)
  | Some node =>
      let highest := foldr (λ h m, match LookupNode bi h with Some n => Z.max (n_height n) m | None => m end) (-1) deleted in
      (VOk (n_height node <=? highest), s)
  end.
Definition prune (now : Z) (state : BestState) : CM unit :=
  target ← reads pruneTarget;
  if target =? 0 then mret tt else
  blocks ← reads (λ s, d_blocks (s_db s));
  '(deleted, blocks) ← ret_res (PruneBlocks target blocks);
  modifies (set_db (set_blocks (λ _, blocks)));;
  if (length deleted =? 0)%nat then mret tt else
  modifies (set_db (dbPruneSpendJournalEntry deleted));;
  needsFlush ← flushNeededAfterPrune deleted;
  if needsFlush : bool then cache_flush now FlushRequired (best_Hash state) else mret tt.

Definition connectBlock (now adjustedTime : Z) (node : blockNode) (b : Block) (stxos : list SpentTxOut) : CM unit :=
  t ← the_tip;
  ret_res (if negb (bool_decide (PrevBlock (Header (b_msg b)) = n_hash t))
           then VErr (AssertError "connectBlock must be called with a block that extends the main chain") else VOk tt);;
  spent ← ret_res (spent_count b);
  ret_res (if negb (length stxos =? spent)%nat
           then VErr (AssertError "connectBlock called with inconsistent spent transaction out information") else VOk tt);;
  current ← isCurrent adjustedTime;
  (if current : bool then warnUnknownRuleActivations node else mret tt);;
  flushToDB;;
  curTotalTxns ← reads (λ s, best_TotalTxns (s_snapshot s));
  medianTime ← ret_res (CalcPastMedianTime (Some node));
  let numTxns := zlen (Transactions (b_msg b)) in
  let state := newBestState node (MsgBlock_SerializeSize (b_msg b)) (GetBlockWeight (b_msg b)) numTxns
                 (uint64 (curTotalTxns + numTxns)) medianTime in
  update (
    prune now state;;
    modifies (set_db (dbPutBestState state (ChainNode.workSum node)));;
    modifies (set_db (set_main_index (dbPutBlockIndex (block_hash b) (n_height node))));;
    modifies (set_db (dbPutSpendJournalEntry (block_hash b) stxos));;
    ret_res (index_ConnectBlock b stxos));;
  modifies (set_chain (λ c, set_bestChain (setTip (Some node) (bestChain c)) c));;
  modifies (set_snapshot state);;
  notify NTBlockConnected b;;
  update (cache_flush now FlushIfNeeded (best_Hash state)).

(** ** Disconnecting the last block *)

(** The view comes back committed.  The work that is stored is that of the
    block that is disconnected. *)
Definition disconnectBlock (now : Z) (node : blockNode) (b : Block) (view : UtxoViewpoint) : CM UtxoViewpoint :=
  t ← the_tip;
  ret_res (if negb (bool_decide (n_hash node = n_hash t))
           then VErr (AssertError "disconnectBlock must be called with the block at the end of the main chain") else VOk tt);;
  match parent node with
  | None => ret_res VCrash
  | Some prevNode =>
      d ← reads s_db;
      prevBlock ← ret_res (dbFetchBlockByNode prevNode d);
      flushToDB;;
      curTotalTxns ← reads (λ s, best_TotalTxns (s_snapshot s));
      medianTime ← ret_res (CalcPastMedianTime (Some prevNode));
      let newTotalTxns := uint64 (curTotalTxns - zlen (Transactions (b_msg b))) in
      let state := newBestState prevNode (MsgBlock_SerializeSize (b_msg prevBlock)) (GetBlockWeight (b_msg prevBlock))
                     (zlen (Transactions (b_msg prevBlock))) newTotalTxns medianTime in
      update (
        modifies (set_db (dbPutBestState state (ChainNode.workSum node)));;
        modifies (set_db (set_main_index (dbRemoveBlockIndex (block_hash b) (n_height node))));;
        cache_flush now FlushRequired (best_Hash state);;
        put_utxo_view view;;
        d ← reads s_db;
        stxos ← ret_res (dbFetchSpendJournalEntry b d);
        modifies (set_db (dbRemoveSpendJournalEntry (block_hash b)));;
        ret_res (index_DisconnectBlock b stxos));;
      modifies (set_chain (λ c, set_bestChain (setTip (Some prevNode) (bestChain c)) c));;
      modifies (set_snapshot state);;
      notify NTBlockDisconnected b;;
      mret (commit view)
  end.

(** ** Reorganizing *)

(** The nodes from [n] down to the fork, the lowest first; the walk stops at
    a node that is known to be invalid. *)
Fixpoint attach_walk (bi : blockIndex) (fork : option blockNode) (n : blockNode) (acc : list blockNode)
    : bool * list blockNode :=
  if opt_same fork n then (false, acc)
  else if KnownInvalid (NodeStatus bi n) then (true, acc)
  else match n with
       | mkNode (Some p) _ _ _ _ _ _ _ _ _ => attach_walk bi fork p (n :: acc)
       | mkNode None _ _ _ _ _ _ _ _ _ => (false, n :: acc)
       end.
(** The nodes from the tip down to the fork. *)
Fixpoint detach_walk (fork : option blockNode) (n : blockNode) : list blockNode :=
  if opt_same fork n then []
  else match n with
       | mkNode (Some p) _ _ _ _ _ _ _ _ _ => n :: detach_walk fork p
       | mkNode None _ _ _ _ _ _ _ _ _ => [n]
       end.
Definition mark_all (flags : Z) (nodes : list blockNode) : CM unit :=
  modifies (set_chain (set_index (λ bi, fold_left (λ bi n, SetStatusFlags n flags bi) nodes bi))).

Definition getReorganizeNodes (node : blockNode) : CM (list blockNode * list blockNode) :=
  match parent node with
  | None => ret_res VCrash
  | Some p =>
      bi ← reads (λ s, c_index (s_chain s));
      if KnownInvalid (NodeStatus bi p)
      then set_status node statusInvalidAncestor;; mret ([], [])
      else
        view ← reads (λ s, bestChain (s_chain s));
        let forkNode := findFork view (Some node) in
        let '(invalidChain, attachNodes) := attach_walk bi forkNode node [] in
        if invalidChain : bool then mark_all statusInvalidAncestor attachNodes;; mret ([], [])
        else mret (match tip view with Some t => detach_walk forkNode t | None => [] end, attachNodes)
  end.

Fixpoint verify_detach (nodes : list blockNode) (view : UtxoViewpoint)
    : CM (UtxoViewpoint * list (Block * list SpentTxOut)) :=
  match nodes with
  | [] => mret (view, [])
  | n :: nodes =>
      d ← reads s_db;
      b ← ret_res (dbFetchBlockByNode n d);
      ret_res (if negb (bool_decide (n_hash n = block_hash b))
               then VErr (AssertError "detach block node hash does not match") else VOk tt);;
      view ← fetch_inputs b view;
      d ← reads s_db;
      stxos ← ret_res (dbFetchSpendJournalEntry b d);
      view ← undo_view b stxos view;
      '(view, rest) ← verify_detach nodes view;
      mret (view, (b, stxos) :: rest)
  end.
Fixpoint verify_attach (nodes : list blockNode) (view : UtxoViewpoint) : CM (list Block) :=
  match nodes with
  | [] => mret []
  | n :: rest =>
      d ← reads s_db;
      b ← ret_res (dbFetchBlockByNode n d);
      bi ← reads (λ s, c_index (s_chain s));
      view ← (if KnownValid (NodeStatus bi n) then
                view ← fetch_inputs b view;
                '(view, _) ← ret_res (of_chain (connectTransactions b view None));
                mret view
              else
                r ← try (on_chain (checkConnectBlock new_max sched fuel n b view None));
                match r with
                | VOk (view, _) => set_status n statusValid;; mret view
                | VErr e =>
                    (if is_rule r then set_status n statusValidateFailed;; mark_all statusInvalidAncestor rest
                     else mret tt);;
                    ret_res (VErr e)
                | VCrash => ret_res VCrash
                end);
      blocks ← verify_attach rest view;
      mret (b :: blocks)
  end.
Definition verifyReorganizationValidity (detachNodes attachNodes : list blockNode)
    : CM (list (Block * list SpentTxOut) * list Block) :=
  match detachNodes, attachNodes with
  | [], [] => mret ([], [])
  | _, _ =>
      t ← the_tip;
      ret_res (match head detachNodes with
               | Some n => if bool_decide (n_hash n = n_hash t) then VOk tt
                           else VErr (AssertError "reorganize nodes to detach are not for the current best chain")
               | None => VOk tt
               end);;
      ret_res (match head attachNodes, last detachNodes with
               | Some a, Some n =>
                   match parent a, parent n with
                   | Some pa, Some pn =>
                       if bool_decide (n_hash pa = n_hash pn) then VOk tt
                       else VErr (AssertError "reorganize nodes do not have the same fork point")
                   | _, _ => VCrash
                   end
               | _, _ => VOk tt
               end);;
      '(view, detached) ← verify_detach detachNodes (SetBestHash (n_hash t) NewUtxoViewpoint);
      attached ← verify_attach attachNodes view;
      mret (detached, attached)
  end.

Fixpoint detach_all (now : Z) (l : list (blockNode * (Block * list SpentTxOut))) (view : UtxoViewpoint) : CM unit :=
  match l with
  | [] => mret tt
  | (n, (b, stxos)) :: l =>
      view ← fetch_inputs b view;
      view ← undo_view b stxos view;
      view ← disconnectBlock now n b view;
      detach_all now l view
  end.
Fixpoint attach_all (now adjustedTime : Z) (l : list (blockNode * Block)) : CM unit :=
  match l with
  | [] => mret tt
  | (n, b) :: l =>
      ret_res (spent_count b);;
      stxos ← cache_connect b (Some []);
      connectBlock now adjustedTime n b (default [] stxos);;
      attach_all now adjustedTime l
  end.
Definition reorganizeChain (now adjustedTime : Z) (detachNodes attachNodes : list blockNode) : CM unit :=
  '(detached, attached) ← verifyReorganizationValidity detachNodes attachNodes;
  t ← the_tip;
  detach_all now (zip detachNodes detached) (SetBestHash (n_hash t) NewUtxoViewpoint);;
  attach_all now adjustedTime (zip attachNodes attached).

Definition connectBestChain (now adjustedTime : Z) (node : blockNode) (b : Block) (flags : Z) : CM bool :=
  t ← the_tip;
  let parentHash := PrevBlock (Header (b_msg b)) in
  if bool_decide (parentHash = n_hash t) then
    bi ← reads (λ s, c_index (s_chain s));
    let fastAdd := has_behavior flags BFFastAdd || KnownValid (NodeStatus bi node) in
    (if fastAdd then mret tt else
       r ← try (on_chain (checkConnectBlock new_max sched fuel node b (SetBestHash parentHash NewUtxoViewpoint) None));
       match r with
       | VOk _ => set_status node statusValid;; flushToDB
       | VErr e =>
           (if is_rule r then set_status node statusValidateFailed;; flushToDB else mret tt);; ret_res (VErr e)
       | VCrash => ret_res VCrash
       end);;
    ret_res (spent_count b);;
    stxos ← cache_connect b (Some []);
    r ← try (connectBlock now adjustedTime node b (default [] stxos));
    match r with
    | VOk _ =>
        bi ← reads (λ s, c_index (s_chain s));
        (if fastAdd || negb (KnownValid (NodeStatus bi node)) then set_status node statusValid;; flushToDB
         else mret tt);;
        mret true
    | VErr e =>
        (if is_rule r then set_status node statusValidateFailed else mret tt);; flushToDB;; ret_res (VErr e)
    | VCrash => ret_res VCrash
    end
  else if ChainNode.workSum node <=? ChainNode.workSum t then
    view ← reads (λ s, bestChain (s_chain s));
    match findFork view (Some node) with Some _ => mret false | None => ret_res VCrash end
  else
    '(detachNodes, attachNodes) ← getReorganizeNodes node;
    r ← try (reorganizeChain now adjustedTime detachNodes attachNodes);
    flushToDB;;
    match r with
    | VOk _ => mret true
    | VErr e => ret_res (VErr e)
    | VCrash => ret_res VCrash
    end.

(** ** Orphans *)

Definition maxOrphanBlocks : nat := 100.
Definition prev_hash (b : Block) : Hash := PrevBlock (Header (b_msg b)).
Definition IsKnownOrphan (h : Hash) (s : Chain) : bool := bool_decide (is_Some (s_orphans s !! h)).
(** Orphans that follow each other have different hashes, so that there are
    at most as many turns as orphans. *)
Fixpoint orphan_root (n : nat) (os : gmap Hash orphanBlock) (root prev : Hash) : Hash :=
  match n, os !! prev with
  | S n, Some o => orphan_root n os prev (prev_hash (o_block o))
  | _, _ => root
  end.
Definition GetOrphanRoot (h : Hash) (s : Chain) : Hash := orphan_root (size (s_orphans s)) (s_orphans s) h h.

Definition removeOrphanBlock (o : orphanBlock) (s : Chain) : Chain :=
  let h := block_hash (o_block o) in
  let prev := prev_hash (o_block o) in
  let left := List.filter (λ o', negb (bool_decide (block_hash (o_block o') = h))) (default [] (s_prevOrphans s !! prev)) in
  set_orphans (delete h (s_orphans s))
    (match left with [] => delete prev (s_prevOrphans s) | _ => <[prev := left]> (s_prevOrphans s) end)
    (s_oldestOrphan s) s.

(** The loop over the orphans, in the order [os] of the map. *)
Fixpoint expire_orphans (now : Z) (os : list orphanBlock) (s : Chain) : Chain :=
  match os with
  | [] => s
  | o :: os =>
      if o_expiration o <? now then expire_orphans now os (removeOrphanBlock o s)
      else
        let older := match s_oldestOrphan s with None => true | Some old => o_expiration o <? o_expiration old end in
        expire_orphans now os
          (if older : bool then set_orphans (s_orphans s) (s_prevOrphans s) (Some o) s else s)
  end.
Definition addOrphanBlock (order : gmap Hash orphanBlock → list orphanBlock) (now : Z) (b : Block) : CM unit := λ s,
  let s := expire_orphans now (order (s_orphans s)) s in
  let r := if (maxOrphanBlocks <? size (s_orphans s) + 1)%nat then
             match s_oldestOrphan s with
             | None => None
             | Some o => let s := removeOrphanBlock o s in Some (set_orphans (s_orphans s) (s_prevOrphans s) None s)
             end
           else Some s in
  match r with
  | None => (VCrash, s)
  | Some s =>
      let o := mkOrphan b (now + 3600) in
      (VOk tt, set_orphans (<[block_hash b := o]> (s_orphans s))
                 (<[prev_hash b := default [] (s_prevOrphans s !! prev_hash b) ++ [o]]> (s_prevOrphans s))
                 (s_oldestOrphan s) s)
  end.

(** ** Accepting blocks *)

Definition add_new_node (node : blockNode) (bi : blockIndex) : blockIndex :=
  AddNode node (ChainNode.mkIndex (index bi) (<[n_hash node := statusDataStored]> (statuses bi)) (dirty bi)).

Definition maybeAcceptBlock (now adjustedTime : Z) (b : Block) (flags : Z) : CM bool :=
  bi ← reads (λ s, c_index (s_chain s));
  match LookupNode bi (prev_hash b) with
  | None => ret_res (ruleError ErrPreviousBlockUnknown)
  | Some prevNode =>
      if KnownInvalid (NodeStatus bi prevNode) then ret_res (ruleError ErrInvalidAncestorBlock) else
      let b := mkBlock (b_msg b) (int32 (n_height prevNode + 1)) in
      on_chain (checkBlockContext (b_msg b) prevNode flags);;
      update (modifies (set_db (dbStoreBlock b)));;
      let newNode := newBlockNode (Header (b_msg b)) (Some prevNode) in
      modifies (set_chain (set_index (add_new_node newNode)));;
      flushToDB;;
      isMainChain ← connectBestChain now adjustedTime newNode b flags;
      notify NTBlockAccepted b;;
      mret isMainChain
  end.

(** The hashes to look at, in the order of the queue; the orphans of the
    first one are taken from the head of their list. *)
Fixpoint process_orphans (n : nat) (now adjustedTime : Z) (queue : list Hash) (flags : Z) : CM unit :=
  match n, queue with
  | _, [] => mret tt
  | O, _ => ret_res VCrash
  | S n, h :: rest =>
      os ← reads (λ s, default [] (s_prevOrphans s !! h));
      match os with
      | [] => process_orphans n now adjustedTime rest flags
      | o :: _ =>
          modifies (removeOrphanBlock o);;
          maybeAcceptBlock now adjustedTime (o_block o) flags;;
          process_orphans n now adjustedTime (h :: rest ++ [block_hash (o_block o)]) flags
      end
  end.
Definition orphan_count (s : Chain) : nat := list_sum (map (λ p, length (snd p)) (map_to_list (s_prevOrphans s))).
Definition processOrphans (now adjustedTime : Z) (h : Hash) (flags : Z) : CM unit :=
  n ← reads orphan_count;
  process_orphans (2 * n + 1) now adjustedTime [h] flags.

Definition blockExists (h : Hash) : CM bool := λ s,
  if HaveBlock (c_index (s_chain s)) h then (VOk true, s)
  else if negb (bool_decide (is_Some (d_blocks (s_db s) !! h))) then (VOk false, s)
  else match dbFetchHeightByHash (d_index (s_db s)) h with
       | COk _ => (VOk true, s)
       | CErr _ => (VOk false, s)
       | CCrash => (VCrash, s)
       end.
Definition HaveBlock_ (h : Hash) : CM bool :=
  exists_ ← blockExists h;
  known ← reads (IsKnownOrphan h);
  mret ((exists_ : bool) || known).

(** The results: on the main chain, and an orphan. *)
Definition ProcessBlock (order : gmap Hash orphanBlock → list orphanBlock) (now adjustedTime : Z) (b : Block) (flags : Z)
    : CM (bool * bool) :=
  let fastAdd := has_behavior flags BFFastAdd in
  let h := block_hash b in
  exists_ ← blockExists h;
  ret_res (reject_if exists_ ErrDuplicateBlock);;
  known ← reads (IsKnownOrphan h);
  ret_res (reject_if known ErrDuplicateBlock);;
  params ← reads (λ s, chainParams (s_chain s));
  ret_res (checkBlockSanity (b_msg b) (PowLimit params) adjustedTime flags);;
  let header := Header (b_msg b) in
  checkpoint ← on_chain findPreviousCheckpoint;
  ret_res (match checkpoint with
           | None => VOk tt
           | Some cp =>
               reject_if (bh_Timestamp header <? n_timestamp cp) ErrCheckpointTimeTooOld;;
               if fastAdd then VOk tt else
               let requiredTarget :=
                 CompactToBig (calcEasiestDifficulty params (n_bits cp) (bh_Timestamp header - n_timestamp cp)) in
               reject_if (requiredTarget <? CompactToBig (Bits header)) ErrDifficultyTooLow
           end);;
  prevExists ← blockExists (PrevBlock header);
  if negb prevExists then addOrphanBlock order now b;; mret (false, true) else
  isMainChain ← maybeAcceptBlock now adjustedTime b flags;
  processOrphans now adjustedTime h flags;;
  mret (isMainChain, false).

(** ** After an unclean shutdown *)

Definition set_lastFlush (h : Hash) (now : Z) (c : BlockChain) : BlockChain :=
  let u := c_utxoCache c in
  set_utxo (c_db c) (mkCache (cachedEntries u) (totalEntryMemory u) h now) c.
(** The nodes above the fork, the lowest first; without the fork among them
    the walk runs over the first block. *)
Fixpoint nodes_above (fork : blockNode) (n : blockNode) (acc : list blockNode) : option (list blockNode) :=
  if node_eqb n fork then Some acc
  else match n with
       | mkNode (Some p) _ _ _ _ _ _ _ _ _ => nodes_above fork p (n :: acc)
       | mkNode None _ _ _ _ _ _ _ _ _ => None
       end.
Fixpoint replay (now : Z) (interrupted : blockNode → bool) (nodes : list blockNode) : CM unit :=
  match nodes with
  | [] => mret tt
  | n :: nodes =>
      d ← reads s_db;
      b ← ret_res (dbFetchBlockByNode n d);
      cache_connect b None;;
      update (cache_flush now FlushIfNeeded (n_hash n));;
      if interrupted n then ret_res (VErr (OtherError "interrupt requested"))
      else replay now interrupted nodes
  end.
Definition InitConsistentState (now : Z) (interrupted : blockNode → bool) (t : blockNode) : CM unit :=
  status ← reads (λ s, utxoStateConsistency (c_db (s_chain s)));
  match status with
  | None =>
      modifies (set_chain (λ c, set_utxo (mkUtxoDb (utxoSet (c_db c)) (Some (n_hash t))) (c_utxoCache c) c));;
      modifies (set_chain (set_lastFlush (n_hash t) now))
  | Some statusHash =>
      if negb (length statusHash =? HashSize)%nat then ret_res (VErr (OtherError "invalid hash length"))
      else if bool_decide (statusHash = n_hash t) then modifies (set_chain (set_lastFlush (n_hash t) now))
      else
        bi ← reads (λ s, c_index (s_chain s));
        match LookupNode bi statusHash with
        | None => ret_res VCrash
        | Some lastFlushNode =>
            view ← reads (λ s, bestChain (s_chain s));
            match findFork view (Some lastFlushNode) with
            | None => ret_res (VErr (AssertError "last utxo consistency status contains hash that is not in best chain"))
            | Some fork =>
                match nodes_above fork t [] with
                | None => ret_res VCrash
                | Some nodes =>
                    replay now interrupted nodes;;
                    modifies (set_chain (set_lastFlush (n_hash t) now))
                end
            end
        end
  end.
Definition FlushUtxoCache (now : Z) (mode : FlushMode) : CM unit :=
  best ← reads s_snapshot;
  update (cache_flush now mode (best_Hash best)).
End Chain.
