(* ===== verification/ChainOrphanFacts.v ===== *)
(** * Block chain: what the operations leave alone, and the pool of orphans

    A part of the state is kept by an operation when it is the same after it,
    whatever the result.  Everything but the two operations on the pool keeps
    the orphans; what only marks nodes and caches deployments keeps the core:
    the best chain, the blocks, the journals and the unspent outputs. *)

From Stdlib Require Import ZArith Lia.
From stdpp Require Import base numbers list strings gmap.
From S2P Require Import Prelude ScriptNum WireBase WireTx ScriptStack ScriptToken Sighash WireMsg Taproot ScriptEngine ScriptExec ChainCompress ChainUtxo ChainStore ChainError Merkle ChainNode ChainParams ChainWork ChainThreshold ChainCache ChainRules ChainConnect ChainState.

Open Scope Z_scope.

Lemma CM_bind_ok {A B} (m : CM A) (f : A → CM B) s b s' :
  (m ≫= f) s = (VOk b, s') ↔ ∃ a s1, m s = (VOk a, s1) ∧ f a s1 = (VOk b, s').
Proof.
  unfold mbind, CM_bind. destruct (m s) as [[a|e|] s1]; split; try done.
  - intros. eauto.
  - by intros (? & ? & [= <- <-] & ?).
  - by intros (? & ? & ? & ?).
  - by intros (? & ? & ? & ?).
Qed.
Lemma ret_res_ok {A} (r : VRes A) s a s' : ret_res r s = (VOk a, s') ↔ r = VOk a ∧ s = s'.
Proof. unfold ret_res. split; [by intros [= -> ->]|by intros [-> ->]]. Qed.

Lemma CM_bind_state {A B} (P : Chain → Prop) (m : CM A) (k : A → CM B) s :
  P (snd (m s)) → (∀ a s1, m s = (VOk a, s1) → P (snd (k a s1))) → P (snd ((m ≫= k) s)).
Proof. unfold mbind, CM_bind. destruct (m s) as [[a|e|] s1]; cbn [snd]; auto. Qed.

(** ** Keeping a part of the state *)

Definition keeps {X A} (f : Chain → X) (m : CM A) : Prop := ∀ s, f (snd (m s)) = f s.

Create HintDb keeps.

Section Keeps.
Context {X : Type} (f : Chain → X).

Lemma keeps_ret_cm {A} (a : A) : keeps f (mret a).
Proof. by intros s. Qed.
Lemma keeps_ret_res {A} (r : VRes A) : keeps f (ret_res r).
Proof. by intros s. Qed.
Lemma keeps_reads {A} (g : Chain → A) : keeps f (reads g).
Proof. by intros s. Qed.
Lemma keeps_the_tip : keeps f the_tip.
Proof. intros s. unfold the_tip. by destruct (tip _). Qed.
Lemma keeps_bind_cm {A B} (m : CM A) (k : A → CM B) : keeps f m → (∀ a, keeps f (k a)) → keeps f (m ≫= k).
Proof.
  intros Hm Hk s. unfold mbind, CM_bind. specialize (Hm s). destruct (m s) as [[a|e|] s1]; cbn in *; [|done..].
  by rewrite Hk.
Qed.
Lemma keeps_try {A} (m : CM A) : keeps f m → keeps f (try m).
Proof. intros Hm s. unfold try. specialize (Hm s). by destruct (m s) as [[a|e|] s1]. Qed.
Lemma keeps_ite {A} (c : bool) (m m' : CM A) : keeps f m → keeps f m' → keeps f (if c then m else m').
Proof. by destruct c. Qed.
Lemma keeps_modifies g : (∀ s, f (g s) = f s) → keeps f (modifies g).
Proof. intros Hg s. apply Hg. Qed.
Lemma keeps_on_chain {A} (m : ChainM A) : (∀ s, f (set_chain (λ _, snd (m (s_chain s))) s) = f s) → keeps f (on_chain m).
Proof. intros Hm s. unfold on_chain. specialize (Hm s). by destruct (m (s_chain s)). Qed.
End Keeps.
#[export] Hint Resolve keeps_ret_cm keeps_ret_res keeps_reads keeps_the_tip keeps_bind_cm keeps_try keeps_ite : keeps.

(** Goes through an operation down to the steps that it is made of. *)
Ltac keeps_step :=
  match goal with
  | |- keeps _ (mret _) => apply keeps_ret_cm
  | |- keeps _ (ret_res _) => apply keeps_ret_res
  | |- keeps _ (reads _) => apply keeps_reads
  | |- keeps _ the_tip => apply keeps_the_tip
  | |- keeps _ (mbind _ _) => apply keeps_bind_cm; [|intros ?]
  | |- keeps _ (try _) => apply keeps_try
  | |- keeps _ (if _ then _ else _) => apply keeps_ite
  | |- keeps _ (let '(_, _) := ?p in _) => destruct p
  | |- keeps _ (match ?o with Some _ => _ | None => _ end) => destruct o
  | |- keeps _ (match ?l with [] => _ | _ => _ end) => destruct l
  | |- keeps _ (match ?r with VOk _ => _ | VErr _ => _ | VCrash => _ end) => destruct r
  | |- keeps _ _ => solve [auto with keeps]
  end.

(** ** The orphans *)

Definition orphan_part (s : Chain) := (s_orphans s, s_prevOrphans s, s_oldestOrphan s).

Lemma keeps_orphans_update {A} (m : CM A) : keeps orphan_part m → keeps orphan_part (update m).
Proof. intros Hm s. unfold update. specialize (Hm s). by destruct (m s) as [[a|e|] s1]. Qed.
Lemma keeps_orphans_on_chain {A} (m : ChainM A) : keeps orphan_part (on_chain m).
Proof. by apply keeps_on_chain. Qed.
#[export] Hint Resolve keeps_orphans_update keeps_orphans_on_chain : keeps.
#[export] Hint Extern 1 (keeps orphan_part (modifies _)) => apply keeps_modifies; done : keeps.

Section Orphans.
Context `{Crypto} `{Keys}.
Context (new_max : list Z → Z → Z) (maps_memory : list Z → Z) (maxTotalMemoryUsage : Z).
Context (sched : list txValidateItem → list txValidateItem) (fuel : nat).
Context (PruneBlocks : Z → gmap Hash MsgBlock → VRes (list Hash * gmap Hash MsgBlock)).
Context (index_ConnectBlock index_DisconnectBlock : Block → list SpentTxOut → VRes unit).
Context (dbFetchUtxoEntryByHash : utxo_db → Hash → ChainRes (option UtxoEntry)).

Lemma orphans_cache_flush now mode best : keeps orphan_part (cache_flush maps_memory maxTotalMemoryUsage now mode best).
Proof. intros s. unfold cache_flush. by destruct (flush _ _ _ _ _ _ _) as [[d u]| |]. Qed.
Lemma orphans_put_view v : keeps orphan_part (put_utxo_view v).
Proof. intros s. unfold put_utxo_view. by destruct (dbPutUtxoView _ _). Qed.
Lemma orphans_flushToDB : keeps orphan_part flushToDB.
Proof. by intros s. Qed.
Lemma orphans_needed l : keeps orphan_part (flushNeededAfterPrune l).
Proof. intros s. unfold flushNeededAfterPrune. by destruct (LookupNode _ _). Qed.
Lemma orphans_warn bits node : keeps orphan_part (warn_bits bits node).
Proof.
  induction bits as [|bit bits IH]; cbn [warn_bits]; [apply keeps_ret_cm|]. apply keeps_bind_cm; [|done].
  intros s. destruct (s_warningCaches s !! bit); [|done]. destruct (thresholdState _ _ _ _) as [[r c] cs].
  by destruct r.
Qed.
#[local] Hint Resolve orphans_cache_flush orphans_put_view orphans_flushToDB orphans_needed orphans_warn : keeps.
#[local] Hint Extern 1 (keeps orphan_part (undo_view _ _ _ _)) => intros ?; done : keeps.
#[local] Hint Extern 1 (keeps orphan_part (set_status _ _)) => apply keeps_modifies; done : keeps.
#[local] Hint Extern 1 (keeps orphan_part (mark_all _ _)) => apply keeps_modifies; done : keeps.
#[local] Hint Extern 1 (keeps orphan_part (notify _ _)) => apply keeps_modifies; done : keeps.

Lemma orphans_connectBlock now adjustedTime node b stxos :
  keeps orphan_part (connectBlock maps_memory maxTotalMemoryUsage PruneBlocks index_ConnectBlock now adjustedTime node b stxos).
Proof.
  unfold connectBlock, isCurrent, warnUnknownRuleActivations. repeat keeps_step; apply keeps_orphans_update;
    unfold prune; repeat keeps_step.
Qed.
Lemma orphans_disconnectBlock now node b view :
  keeps orphan_part (disconnectBlock maps_memory maxTotalMemoryUsage index_DisconnectBlock now node b view).
Proof. unfold disconnectBlock. repeat keeps_step; apply keeps_orphans_update; repeat keeps_step. Qed.
Lemma orphans_getReorganizeNodes node : keeps orphan_part (getReorganizeNodes node).
Proof. unfold getReorganizeNodes. repeat keeps_step. Qed.
Lemma orphans_verify_detach nodes view : keeps orphan_part (verify_detach new_max dbFetchUtxoEntryByHash nodes view).
Proof. revert view. induction nodes as [|n nodes IH]; intros view; cbn [verify_detach]; unfold fetch_inputs; repeat keeps_step. Qed.
Lemma orphans_verify_attach nodes view : keeps orphan_part (verify_attach new_max sched fuel nodes view).
Proof. revert view. induction nodes as [|n nodes IH]; intros view; cbn [verify_attach]; unfold fetch_inputs; repeat keeps_step. Qed.
#[local] Hint Resolve orphans_connectBlock orphans_disconnectBlock orphans_getReorganizeNodes orphans_verify_detach orphans_verify_attach : keeps.
Lemma orphans_detach_all now l view :
  keeps orphan_part (detach_all new_max maps_memory maxTotalMemoryUsage index_DisconnectBlock dbFetchUtxoEntryByHash now l view).
Proof. revert view. induction l as [|[n [b stxos]] l IH]; intros view; cbn [detach_all]; unfold fetch_inputs; repeat keeps_step. Qed.
Lemma orphans_attach_all now adjustedTime l :
  keeps orphan_part (attach_all new_max maps_memory maxTotalMemoryUsage PruneBlocks index_ConnectBlock now adjustedTime l).
Proof. induction l as [|[n b] l IH]; cbn [attach_all]; unfold cache_connect; repeat keeps_step. Qed.
#[local] Hint Resolve orphans_detach_all orphans_attach_all : keeps.
Lemma orphans_maybeAcceptBlock now adjustedTime b flags :
  keeps orphan_part (maybeAcceptBlock new_max maps_memory maxTotalMemoryUsage sched fuel PruneBlocks
    index_ConnectBlock index_DisconnectBlock dbFetchUtxoEntryByHash now adjustedTime b flags).
Proof.
  unfold maybeAcceptBlock, connectBestChain, cache_connect. repeat keeps_step.
  all: unfold reorganizeChain, verifyReorganizationValidity; repeat keeps_step.
Qed.
End Orphans.

(** ** The core *)

Definition core (s : Chain) :=
  (bestChain (s_chain s), (c_db (s_chain s), c_utxoCache (s_chain s)),
   (d_blocks (s_db s), d_journal (s_db s), d_best (s_db s)), (pruneTarget s, s_snapshot s)).

Section Core.
Context `{Crypto} `{Keys}.

Lemma core_flushToDB : keeps core flushToDB.
Proof.
  intros s. unfold flushToDB, core. cbn [snd set_chain set_db s_chain s_db set_index bestChain c_db c_utxoCache pruneTarget s_snapshot].
  set (l := omap _ _). set (bi := c_index _).
  assert (Hd : ∀ d, let d' := foldr (λ n, dbStoreBlockNode n (NodeStatus bi n)) d l in
    d_blocks d' = d_blocks d ∧ d_journal d' = d_journal d ∧ d_best d' = d_best d).
  { intros d. cbv zeta. induction l as [|n l IH]; [done|]. by destruct IH as (<- & <- & <-). }
  destruct (Hd (s_db s)) as (-> & -> & ->). done.
Qed.
Lemma core_warn bits node : keeps core (warn_bits bits node).
Proof.
  induction bits as [|bit bits IH]; cbn [warn_bits]; [apply keeps_ret_cm|]. apply keeps_bind_cm; [|done].
  intros s. destruct (s_warningCaches s !! bit); [|done]. destruct (thresholdState _ _ _ _) as [[r c] cs].
  by destruct r.
Qed.
Lemma core_set_status node flags : keeps core (set_status node flags).
Proof. by apply keeps_modifies. Qed.
Lemma core_mark_all flags nodes : keeps core (mark_all flags nodes).
Proof. by apply keeps_modifies. Qed.
Lemma core_notify t b : keeps core (notify t b).
Proof. by apply keeps_modifies. Qed.
Lemma core_isCurrent now : keeps core (isCurrent now).
Proof. unfold isCurrent. repeat keeps_step. Qed.
Lemma core_getReorganizeNodes node : keeps core (getReorganizeNodes node).
Proof.
  unfold getReorganizeNodes. repeat keeps_step; apply core_set_status || apply core_mark_all.
Qed.
End Core.
#[export] Hint Resolve core_flushToDB core_warn core_set_status core_mark_all core_notify core_isCurrent : keeps.

(** ** Block chain: the pool of orphans

    The two maps of the pool agree, it holds at most one block more than its
    limit, and processing the orphans of a block ends with all that descend
    from it taken out of the pool. *)

#[export] Instance NotificationType_eq_dec : EqDecision NotificationType.
Proof. solve_decision. Defined.

Section Pool.
Context `{Crypto}.

Abbreviation bhash o := (block_hash (o_block o)).
Abbreviation bprev o := (prev_hash (o_block o)).

(** The blocks that are seen; those with one hash have one parent. *)
Context (seen : Block → Prop).
Definition one_parent : Prop := ∀ b b', seen b → seen b' → block_hash b = block_hash b' → prev_hash b = prev_hash b'.

Record orphans_ok (s : Chain) : Prop := {
  ok_key h o : s_orphans s !! h = Some o → bhash o = h;
  ok_listed p o : o ∈ default [] (s_prevOrphans s !! p) ↔ bprev o = p ∧ s_orphans s !! bhash o = Some o;
  ok_once p l : s_prevOrphans s !! p = Some l → l ≠ [] ∧ NoDup l;
  ok_seen h o : s_orphans s !! h = Some o → seen (o_block o);
  ok_oldest o : s_oldestOrphan s = Some o → seen (o_block o)
}.

Lemma orphans_ok_part s s' : orphan_part s' = orphan_part s → orphans_ok s → orphans_ok s'.
Proof. unfold orphan_part. intros [= H1 H2 H3] [A1 A2 A3 A6 A7]. split; rewrite ?H1, ?H2, ?H3; auto. Qed.

(** ** Taking a block out *)

Lemma remove_orphans o s : s_orphans (removeOrphanBlock o s) = delete (bhash o) (s_orphans s).
Proof. done. Qed.
Lemma remove_prev o s p :
  default [] (s_prevOrphans (removeOrphanBlock o s) !! p) =
  if decide (bprev o = p) then List.filter (λ o', negb (bool_decide (bhash o' = bhash o))) (default [] (s_prevOrphans s !! p))
  else default [] (s_prevOrphans s !! p).
Proof.
  unfold removeOrphanBlock, set_orphans. cbn [s_prevOrphans]. destruct (decide (bprev o = p)) as [<-|Hne].
  - destruct (List.filter _ _) as [|a l] eqn:El; [by rewrite lookup_delete_eq|by rewrite lookup_insert_eq].
  - destruct (List.filter _ _) as [|a l]; [by rewrite lookup_delete_ne|by rewrite lookup_insert_ne].
Qed.

Lemma remove_ok o s : one_parent → orphans_ok s → seen (o_block o) → orphans_ok (removeOrphanBlock o s).
Proof.
  intros Hone [A1 A2 A3 A6 A7] Ho.
  assert (Hlk : ∀ h o', s_orphans (removeOrphanBlock o s) !! h = Some o' ↔ bhash o ≠ h ∧ s_orphans s !! h = Some o').
  { intros h o'. rewrite remove_orphans. apply lookup_delete_Some. }
  split.
  - intros h o' [_ Hh]%Hlk. by apply A1.
  - intros p o'. rewrite remove_prev, Hlk. destruct (decide (bprev o = p)) as [Hp|Hp].
    + rewrite list_elem_of_In, filter_In, <- list_elem_of_In, A2, negb_true_iff, bool_decide_eq_false. naive_solver.
    + rewrite A2. split; [|naive_solver]. intros [Hp' Hl]. split_and!; [done| |done].
      intros Hh. apply Hp. rewrite <- Hp'. apply Hone; [done|by eapply A6|done].
  - intros p l. unfold removeOrphanBlock, set_orphans. cbn [s_prevOrphans].
    destruct (List.filter _ _) as [|a l'] eqn:El.
    + intros [_ Hl]%lookup_delete_Some. by apply A3 in Hl.
    + intros [[_ <-]|[_ Hl]]%lookup_insert_Some; [|by apply A3 in Hl]. split; [done|]. rewrite <- El.
      destruct (s_prevOrphans s !! bprev o) as [l0|] eqn:E0; [|done]. apply A3 in E0 as [_ Hnd].
      apply NoDup_ListNoDup, List.NoDup_filter. by apply NoDup_ListNoDup.
  - intros h o' [_ Hh]%Hlk. by eapply A6.
  - apply A7.
Qed.

Lemma remove_size o s : (size (s_orphans (removeOrphanBlock o s)) ≤ size (s_orphans s))%nat.
Proof. rewrite remove_orphans, map_size_delete. destruct (s_orphans s !! bhash o); cbn; lia. Qed.

(** ** Expired blocks *)

(** What the loop leaves in the pool, and the oldest of it. *)
Lemma expire_ok now os s :
  one_parent → orphans_ok s → Forall (λ o, seen (o_block o)) os →
  let s' := expire_orphans now os s in
  orphans_ok s' ∧ (size (s_orphans s') ≤ size (s_orphans s))%nat ∧
  (∀ h, s_orphans s !! h = None → s_orphans s' !! h = None) ∧
  (∀ h o, s_orphans s' !! h = Some o → s_orphans s !! h = Some o ∧ (o ∈ os → (o_expiration o <? now) = false)).
Proof.
  intros Hone Hs Hseen. revert s Hs. induction os as [|o os IH]; intros s Hs; cbn [expire_orphans].
  { cbv zeta. split_and!; [done|done|done|]. intros h o Ho. split; [done|]. by intros ?%elem_of_nil. }
  apply Forall_cons in Hseen as [Ho Hseen]. specialize (IH Hseen). destruct (o_expiration o <? now) eqn:Ex.
  - destruct (IH (removeOrphanBlock o s)) as (H1 & H2 & H3 & H4); [by apply remove_ok|]. cbv zeta. split_and!; [done| | |].
    + pose proof (remove_size o s). lia.
    + intros h Hh. apply H3. rewrite remove_orphans, lookup_delete_None. by right.
    + intros h o' Hl. destruct (H4 h o' Hl) as [Hd Hx]. rewrite remove_orphans in Hd.
      apply lookup_delete_Some in Hd as [Hne Hl']. split; [done|].
      intros [->|?]%elem_of_cons; [|auto]. by rewrite (ok_key _ Hs h o Hl') in Hne.
  - set (s1 := if _ : bool then _ else s).
    assert (Hs1 : orphans_ok s1 ∧ s_orphans s1 = s_orphans s).
    { unfold s1. destruct (match s_oldestOrphan s with None => true | Some old => _ end); [|done].
      split; [|done]. destruct Hs as [A1 A2 A3 A6 A7]. split; cbn; auto. by intros o' [= <-]. }
    destruct Hs1 as [Hs1 Heq]. destruct (IH s1 Hs1) as (H1 & H2 & H3 & H4). rewrite Heq in *. cbv zeta.
    split_and!; [done..|]. intros h o' Hl. destruct (H4 h o' Hl) as [Hl' Hx]. split; [done|].
    by intros [->|?]%elem_of_cons; [|auto].
Qed.

Lemma expire_oldest now os s :
  (is_Some (s_oldestOrphan s) ∨ ∃ o, o ∈ os ∧ (o_expiration o <? now) = false) →
  is_Some (s_oldestOrphan (expire_orphans now os s)).
Proof.
  revert s. induction os as [|o os IH]; intros s; cbn [expire_orphans]; [intros [?|(o & ?%elem_of_nil & _)]; done|].
  intros Hor. destruct (o_expiration o <? now) eqn:Ex; apply IH.
  - destruct Hor as [?|(o' & [->|Ho]%elem_of_cons & Hx)]; [by left|congruence|right; eauto].
  - left. destruct (s_oldestOrphan s) as [old|] eqn:Eo; [|by eexists].
    destruct (o_expiration o <? o_expiration old); [by eexists|]. cbn. by eexists.
Qed.
(** When the oldest is not known before the loop, it is in the pool after it. *)
Lemma expire_found (now : Z) (m : gmap Hash orphanBlock) (os : list orphanBlock) (s : Chain) :
  (∀ o, o ∈ os → m !! bhash o = Some o) →
  (∀ h o, m !! h = Some o → (o_expiration o <? now) = false → s_orphans s !! h = Some o) →
  (∀ o, s_oldestOrphan s = Some o → m !! bhash o = Some o ∧ (o_expiration o <? now) = false) →
  ∀ o, s_oldestOrphan (expire_orphans now os s) = Some o → s_orphans (expire_orphans now os s) !! bhash o = Some o.
Proof.
  revert s. induction os as [|o1 os IH]; intros s Hos Hm Hold o; cbn [expire_orphans].
  { intros Ho. destruct (Hold o Ho). by apply Hm. }
  assert (Ho1 : m !! bhash o1 = Some o1) by (apply Hos; by left).
  destruct (o_expiration o1 <? now) eqn:Ex; apply IH; try (intros o' Ho'; apply Hos; by right).
  - intros h o' Ho' Hx. rewrite remove_orphans, lookup_delete_ne; [by apply Hm|]. intros <-. congruence.
  - done.
  - by destruct (match s_oldestOrphan s with None => true | Some old => _ end).
  - intros o'. destruct (match s_oldestOrphan s with None => true | Some old => _ end); [|apply Hold].
    cbn. intros [= <-]. done.
Qed.

(** ** Adding a block *)

Definition pool_ok (s : Chain) : Prop :=
  orphans_ok s ∧ (size (s_orphans s) ≤ S maxOrphanBlocks)%nat ∧
  (size (s_orphans s) = S maxOrphanBlocks → s_oldestOrphan s = None).

Lemma pool_ok_part s s' : orphan_part s' = orphan_part s → pool_ok s → pool_ok s'.
Proof.
  intros Hp (H1 & H2 & H3). split; [by eapply orphans_ok_part|]. unfold orphan_part in Hp. injection Hp as Ha Hb Hc.
  by rewrite Ha, Hc.
Qed.
Lemma pool_remove o s : one_parent → pool_ok s → seen (o_block o) → pool_ok (removeOrphanBlock o s).
Proof.
  intros Hone (H1 & H2 & H3) Ho. pose proof (remove_size o s). split; [by apply remove_ok|]. split; [lia|].
  intros Hn. apply H3. lia.
Qed.

(** The order in which a map is gone through. *)
Context (order : gmap Hash orphanBlock → list orphanBlock).
Definition visits_all : Prop := ∀ m o, o ∈ order m ↔ ∃ h, m !! h = Some o.

Lemma insert_ok s b o :
  o_block o = b → orphans_ok s → s_orphans s !! block_hash b = None → seen b →
  orphans_ok (set_orphans (<[block_hash b := o]> (s_orphans s))
    (<[prev_hash b := default [] (s_prevOrphans s !! prev_hash b) ++ [o]]> (s_prevOrphans s)) (s_oldestOrphan s) s).
Proof.
  intros <- [A1 A2 A3 A6 A7] Hn Hb. split; cbn [set_orphans s_orphans s_prevOrphans s_oldestOrphan].
  - intros h o' [[<- <-]|[_ Hl]]%lookup_insert_Some; [done|by apply A1].
  - intros p o'. destruct (decide (bprev o = p)) as [Hp|Hp].
    + subst p. rewrite lookup_insert_eq.
      change (default [] (Some ?l)) with l. rewrite elem_of_app, A2, list_elem_of_singleton.
      rewrite lookup_insert_Some. split.
      * intros [[H1 H2]| ->]; [|by split; [|left]]. split; [done|]. right. split; [|done]. intros Hh. congruence.
      * intros [H1 [[H2 ->]|[H2 H3]]]; [by right|by left].
    + rewrite lookup_insert_ne, A2, lookup_insert_Some by done. split.
      * intros [H1 H2]. split; [done|]. right. split; [|done]. intros Hh. congruence.
      * intros [H1 [[H2 ->]|[H2 H3]]]; [done|done].
  - intros p l [[<- <-]|[_ Hl]]%lookup_insert_Some; [|by apply (A3 p)]. split; [by destruct (default [] _)|].
    apply NoDup_app. split_and!; [destruct (s_prevOrphans s !! bprev o) eqn:E; [by apply (A3 _ _ E)|constructor]| |by apply NoDup_singleton].
    intros o' Ho' ->%list_elem_of_singleton. apply A2 in Ho' as [_ Ho']. congruence.
  - intros h o' [[_ <-]|[_ Hl]]%lookup_insert_Some; [done|by eapply A6].
  - done.
Qed.

Lemma add_ok now b s :
  one_parent → visits_all → pool_ok s → s_orphans s !! block_hash b = None → seen b →
  ∃ s', addOrphanBlock order now b s = (VOk tt, s') ∧ pool_ok s' ∧ s_orphans s' !! block_hash b = Some (mkOrphan b (now + 3600)).
Proof.
  intros Hone Hall (Hs & Hsz & Hfull) Hn Hb. unfold addOrphanBlock. set (s1 := expire_orphans now (order (s_orphans s)) s).
  assert (Hos : ∀ o, o ∈ order (s_orphans s) → s_orphans s !! bhash o = Some o).
  { intros o (h & Ho)%Hall. by rewrite (ok_key _ Hs h o Ho). }
  destruct (expire_ok now (order (s_orphans s)) s Hone Hs) as (Hs1 & Hsz1 & Hno & Hin).
  { apply Forall_forall. intros o Ho%Hos. by eapply ok_seen. }
  fold s1 in Hs1, Hsz1, Hno, Hin. specialize (Hno _ Hn).
  assert (Hold : (maxOrphanBlocks ≤ size (s_orphans s1))%nat → is_Some (s_oldestOrphan s1)).
  { intros Hge. apply expire_oldest. right. destruct (map_choose (s_orphans s1)) as (h & o & Ho).
    - intros He. rewrite He, map_size_empty in Hge. unfold maxOrphanBlocks in Hge. lia.
    - destruct (Hin h o Ho) as [Ho' Hx]. exists o. assert (o ∈ order (s_orphans s)) by (apply Hall; eauto). auto. }
  assert (Hfound : size (s_orphans s1) = S maxOrphanBlocks → ∀ o, s_oldestOrphan s1 = Some o → s_orphans s1 !! bhash o = Some o).
  { intros He. assert (Hnone : s_oldestOrphan s = None) by (apply Hfull; lia).
    apply (expire_found now (s_orphans s)); [done|done|]. intros o Ho. congruence. }
  assert (Hins : ∀ s2, orphans_ok s2 → s_orphans s2 !! block_hash b = None → (size (s_orphans s2) ≤ maxOrphanBlocks)%nat →
    (size (s_orphans s2) = maxOrphanBlocks → s_oldestOrphan s2 = None) →
    let s3 := set_orphans (<[block_hash b := mkOrphan b (now + 3600)]> (s_orphans s2))
      (<[prev_hash b := default [] (s_prevOrphans s2 !! prev_hash b) ++ [mkOrphan b (now + 3600)]]> (s_prevOrphans s2)) (s_oldestOrphan s2) s2 in
    pool_ok s3 ∧ s_orphans s3 !! block_hash b = Some (mkOrphan b (now + 3600))).
  { intros s2 Ha Hb2 Hc Hd. cbv zeta. split; [|cbn [set_orphans s_orphans]; by rewrite lookup_insert_eq]. split; [by apply insert_ok|].
    cbn [set_orphans s_orphans s_oldestOrphan]. rewrite map_size_insert_None by done. split; [lia|]. intros He. apply Hd. lia. }
  destruct (Nat.ltb_spec maxOrphanBlocks (size (s_orphans s1) + 1)) as [Hlt|Hge].
  - destruct (Hold ltac:(lia)) as [o Ho]. rewrite Ho. eexists. split; [done|].
    assert (Hr : orphans_ok (removeOrphanBlock o s1)) by (apply remove_ok; [done|done|by apply (ok_oldest _ Hs1)]).
    apply Hins; [destruct Hr; split; cbn; auto; done|..]; cbn [set_orphans s_orphans s_oldestOrphan]; rewrite ?remove_orphans.
    + apply lookup_delete_None. by right.
    + rewrite map_size_delete. destruct (decide (size (s_orphans s1) = S maxOrphanBlocks)) as [He|He].
      * rewrite (Hfound He o Ho). cbn. lia.
      * destruct (s_orphans s1 !! bhash o); cbn; lia.
    + done.
  - eexists. split; [done|]. apply Hins; [done|done|lia|lia].
Qed.

(** The oldest block that is remembered may have left the pool: then nothing
    is taken out for the block that comes in. *)
Lemma stale_oldest now b s o :
  size (s_orphans s) = maxOrphanBlocks → (∀ o', o' ∈ order (s_orphans s) → now <= o_expiration o') →
  s_oldestOrphan s = Some o → (∀ o', o' ∈ order (s_orphans s) → o_expiration o <= o_expiration o') →
  s_orphans s !! bhash o = None → s_orphans s !! block_hash b = None →
  ∃ s', addOrphanBlock order now b s = (VOk tt, s') ∧ size (s_orphans s') = S maxOrphanBlocks.
Proof.
  intros Hsz Hex Hold Hage Ho Hb. unfold addOrphanBlock.
  assert (He : ∀ os, (∀ o', o' ∈ os → now <= o_expiration o' ∧ o_expiration o <= o_expiration o') → expire_orphans now os s = s).
  { induction os as [|o1 os IH]; intros Hos; cbn [expire_orphans]; [done|]. destruct (Hos o1) as [H1 H2]; [by left|].
    rewrite Hold, !(proj2 (Z.ltb_ge _ _)) by done. apply IH. intros o' Ho'. apply Hos. by right. }
  rewrite He by auto. rewrite Hsz. cbn [Nat.add Nat.ltb Nat.leb maxOrphanBlocks]. rewrite Hold. eexists. split; [done|].
  cbn [set_orphans s_orphans]. rewrite remove_orphans. rewrite map_size_insert_None, map_size_delete_None; [by rewrite Hsz|done|].
  apply lookup_delete_None. by right.
Qed.

(** ** The root of an orphan *)

(** The blocks of the pool from one down to another. *)
Inductive descends (os : gmap Hash orphanBlock) (h : Hash) : orphanBlock → Prop :=
  | descends_child o : os !! bhash o = Some o → bprev o = h → descends os h o
  | descends_next o p : os !! bhash o = Some o → descends os h p → bprev o = bhash p → descends os h o.

(** Parents are older than their children, in the order [rank]. *)
Definition acyclic (rank : Hash → nat) (os : gmap Hash orphanBlock) : Prop :=
  ∀ h o, os !! h = Some o → (rank (bprev o) < rank h)%nat.

Lemma orphan_root_ok rank os root prev n :
  acyclic rank os → (∀ h o, os !! h = Some o → bhash o = h) →
  (size (filter (λ p : Hash * orphanBlock, rank (fst p) ≤ rank prev)%nat os) ≤ n)%nat →
  let r := orphan_root n os root prev in
  (os !! prev = None → r = root) ∧
  (is_Some (os !! prev) → ∃ o, os !! r = Some o ∧ os !! bprev o = None ∧
     (r = prev ∨ ∃ p, os !! prev = Some p ∧ descends os r p)).
Proof.
  intros Hac Hkey. revert root prev. induction n as [|n IH]; intros root prev Hsz; cbn [orphan_root]; cbv zeta.
  { split; [done|]. intros [o Ho]. exfalso. apply Nat.le_0_r, map_size_empty_inv in Hsz.
    assert (Hf : filter (λ p : Hash * orphanBlock, rank (fst p) ≤ rank prev)%nat os !! prev = Some o) by (apply map_lookup_filter_Some; done).
    by rewrite Hsz in Hf. }
  destruct (os !! prev) as [o|] eqn:Eo; [|by split; [|intros [? ?]]]. split; [done|]. intros _.
  pose proof (Hac _ _ Eo) as Hlt. destruct (IH prev (bprev o)) as [H1 H2].
  - assert (Hsub : filter (λ p : Hash * orphanBlock, rank (fst p) ≤ rank (bprev o))%nat os ⊂
                   filter (λ p : Hash * orphanBlock, rank (fst p) ≤ rank prev)%nat os).
    { apply map_subset_alt. split.
      - apply map_filter_subseteq_ext. intros i x _. cbn. lia.
      - exists prev. rewrite map_lookup_filter_None. split; [right; intros x _; cbn; lia|].
        exists o. by apply map_lookup_filter_Some. }
    apply map_subset_size in Hsub. lia.
  - destruct (os !! bprev o) as [p|] eqn:Ep.
    + destruct H2 as (r & Hr1 & Hr2 & Hd); [by eexists|]. exists r. split_and!; [done|done|]. right. exists o. split; [done|].
      pose proof (Hkey _ _ Eo) as Hk. pose proof (Hkey _ _ Ep) as Hkp. destruct Hd as [Heq|(p' & Hp' & Hd)].
      * apply descends_child; [by rewrite Hk|done].
      * injection Hp' as <-. apply descends_next with p; [by rewrite Hk|done|done].
    + rewrite (H1 eq_refl). exists o. split_and!; [done|done|]. by left.
Qed.

(** ** Processing the orphans of a block *)

Context `{Keys}.
Context (new_max : list Z → Z → Z) (maps_memory : list Z → Z) (maxTotalMemoryUsage : Z).
Context (sched : list txValidateItem → list txValidateItem) (fuel : nat).
Context (PruneBlocks : Z → gmap Hash MsgBlock → VRes (list Hash * gmap Hash MsgBlock)).
Context (index_ConnectBlock index_DisconnectBlock : Block → list SpentTxOut → VRes unit).
Context (dbFetchUtxoEntryByHash : utxo_db → Hash → ChainRes (option UtxoEntry)).
Abbreviation process := (process_orphans new_max maps_memory maxTotalMemoryUsage sched fuel PruneBlocks
  index_ConnectBlock index_DisconnectBlock dbFetchUtxoEntryByHash).
Abbreviation accept := (maybeAcceptBlock new_max maps_memory maxTotalMemoryUsage sched fuel PruneBlocks
  index_ConnectBlock index_DisconnectBlock dbFetchUtxoEntryByHash).

Definition listed (m : gmap Hash (list orphanBlock)) : nat := list_sum (map (λ p, length (snd p)) (map_to_list m)).

Lemma listed_delete m k l : m !! k = Some l → listed m = (length l + listed (delete k m))%nat.
Proof.
  intros Hk. unfold listed. rewrite <- (map_to_list_delete m k l Hk). done.
Qed.
Lemma listed_insert m k l l0 : m !! k = Some l0 → listed (<[k := l]> m) = (length l + listed (delete k m))%nat.
Proof.
  intros Hk. rewrite (listed_delete _ k l) by apply lookup_insert_eq. by rewrite delete_insert_eq.
Qed.

Lemma remove_count o l h s :
  s_prevOrphans s !! h = Some (o :: l) → bprev o = h → (orphan_count (removeOrphanBlock o s) < orphan_count s)%nat.
Proof.
  intros Hl <-. unfold orphan_count. fold (listed (s_prevOrphans s)). fold (listed (s_prevOrphans (removeOrphanBlock o s))).
  rewrite (listed_delete (s_prevOrphans s) _ _ Hl). unfold removeOrphanBlock, set_orphans. cbn [s_prevOrphans].
  rewrite Hl. change (default [] (Some (o :: l))) with (o :: l). cbn [List.filter].
  rewrite bool_decide_true by done. cbn [negb]. pose proof (filter_length_le (λ o', negb (bool_decide (bhash o' = bhash o))) l) as Hf.
  destruct (List.filter _ l) as [|a l'] eqn:El; [cbn; lia|]. rewrite (listed_insert _ _ _ _ Hl). cbn [length] in *. lia.
Qed.

Lemma process_turn n now adjustedTime h rest flags s :
  process (S n) now adjustedTime (h :: rest) flags s =
  match default [] (s_prevOrphans s !! h) with
  | [] => process n now adjustedTime rest flags s
  | o :: _ =>
      match accept now adjustedTime (o_block o) flags (removeOrphanBlock o s) with
      | (VOk _, s2) => process n now adjustedTime (h :: rest ++ [bhash o]) flags s2
      | (VErr e, s2) => (VErr e, s2)
      | (VCrash, s2) => (VCrash, s2)
      end
  end.
Proof. cbn [process_orphans]. unfold mbind, CM_bind, reads. by destruct (default [] _). Qed.

(** What a turn finds at the head of a list, and does to the pool. *)
Lemma turn_ok now adjustedTime flags h o l s r s2 :
  orphans_ok s → one_parent → default [] (s_prevOrphans s !! h) = o :: l →
  accept now adjustedTime (o_block o) flags (removeOrphanBlock o s) = (r, s2) →
  s_orphans s !! bhash o = Some o ∧ bprev o = h ∧ orphans_ok s2 ∧ s_orphans s2 = delete (bhash o) (s_orphans s) ∧
  (orphan_count s2 < orphan_count s)%nat.
Proof.
  intros Hs Hone Hl Hacc. assert (Ho : o ∈ default [] (s_prevOrphans s !! h)) by (rewrite Hl; left).
  apply (ok_listed _ Hs) in Ho as [Hp Ho]. destruct (s_prevOrphans s !! h) as [l0|] eqn:El; [|done].
  change (default [] (Some l0)) with l0 in Hl. subst l0.
  pose proof (orphans_maybeAcceptBlock new_max maps_memory maxTotalMemoryUsage sched fuel PruneBlocks
    index_ConnectBlock index_DisconnectBlock dbFetchUtxoEntryByHash now adjustedTime (o_block o) flags (removeOrphanBlock o s)) as Hk.
  rewrite Hacc in Hk. cbn [snd] in Hk. split_and!; [done|done| | |].
  - eapply orphans_ok_part; [exact Hk|]. apply remove_ok; [done|done|by eapply ok_seen].
  - by injection Hk as Hk _ _.
  - apply Nat.le_lt_trans with (orphan_count (removeOrphanBlock o s)); [|by apply (remove_count o l h)].
    unfold orphan_count. unfold orphan_part in Hk. by injection Hk as _ -> _.
Qed.

(** Each turn takes a hash off the queue, or a block out of the pool; with
    [2 n + q] turns for [n] blocks and [q] hashes the loop ends. *)
Lemma process_more now adjustedTime flags n k queue s :
  orphans_ok s → one_parent → (2 * orphan_count s + length queue ≤ n)%nat →
  process (n + k) now adjustedTime queue flags s = process n now adjustedTime queue flags s.
Proof.
  intros Hs Hone. revert queue s Hs. induction n as [|n IH]; intros queue s Hs Hn.
  { destruct queue; [|cbn in Hn; lia]. by destruct k. }
  destruct queue as [|h rest]; [done|]. cbn [length] in Hn. cbn [Nat.add]. rewrite !process_turn.
  destruct (default [] _) as [|o l] eqn:El; [apply IH; [done|lia]|].
  destruct (accept now adjustedTime (o_block o) flags (removeOrphanBlock o s)) as [[b|e|] s2] eqn:Ea; [|done..].
  destruct (turn_ok _ _ _ _ _ _ _ _ _ Hs Hone El Ea) as (_ & _ & Hs2 & _ & Hlt). apply IH; [done|].
  cbn [length]. rewrite length_app. cbn [length]. lia.
Qed.

(** What has been taken out of a pool on behalf of a block. *)
Record taken (os : gmap Hash orphanBlock) (h : Hash) (queue : list Hash) (s : Chain) : Prop := {
  tk_sub k o : s_orphans s !! k = Some o → os !! k = Some o;
  tk_gone k o : os !! k = Some o → s_orphans s !! k = None → descends os h o;
  tk_next k o : s_orphans s !! k = Some o →
    (bprev o = h ∨ ∃ p, os !! bhash p = Some p ∧ s_orphans s !! bhash p = None ∧ bprev o = bhash p) → bprev o ∈ queue;
  tk_queue q : q ∈ queue → q = h ∨ ∃ p, descends os h p ∧ q = bhash p
}.

Lemma process_all now adjustedTime flags os h n queue s s' :
  (∀ k o, os !! k = Some o → bhash o = k) → orphans_ok s → one_parent → taken os h queue s →
  process n now adjustedTime queue flags s = (VOk tt, s') → orphans_ok s' ∧ taken os h [] s'.
Proof.
  clear order. intros Hkey Hs Hone. revert queue s Hs. induction n as [|n IH]; intros queue s Hs Ht.
  { destruct queue; [by intros [= <-]|done]. }
  destruct queue as [|q rest]; [by intros [= <-]|]. rewrite process_turn.
  destruct (default [] _) as [|o l] eqn:El.
  { apply IH; [done|]. destruct Ht as [T1 T2 T3 T4]. split; [done|done| |].
    - intros k o Ho Hc. pose proof (T3 k o Ho Hc) as Hq. apply elem_of_cons in Hq as [Hq|Hq]; [|done]. exfalso.
      assert (Hin : o ∈ default [] (s_prevOrphans s !! q)).
      { apply (ok_listed _ Hs). by rewrite (ok_key _ Hs k o Ho). }
      rewrite El in Hin. by apply elem_of_nil in Hin.
    - intros q' Hq. apply T4. by right. }
  destruct (accept now adjustedTime (o_block o) flags (removeOrphanBlock o s)) as [[b|e|] s2] eqn:Ea; [|done..].
  destruct (turn_ok _ _ _ _ _ _ _ _ _ Hs Hone El Ea) as (Ho & Hp & Hs2 & Hos & _). apply IH; [done|].
  destruct Ht as [T1 T2 T3 T4].
  assert (Hd : descends os h o).
  { destruct (T4 q) as [->|(p & Hpd & ->)]; [left|by apply descends_child; [apply T1|]|].
    apply descends_next with p; [by apply T1|done|done]. }
  split.
  - intros k o'. rewrite Hos, lookup_delete_Some. intros [_ Hk]. by apply T1.
  - intros k o' Hk. rewrite Hos. intros [Heq|Hn]%lookup_delete_None; [|by apply (T2 k)].
    assert (o' = o) as ->; [|done]. apply T1 in Ho. congruence.
  - intros k o'. rewrite Hos, lookup_delete_Some. intros [Hne Hk] Hc.
    assert (Hq : (bprev o' = h ∨ ∃ p, os !! bhash p = Some p ∧ s_orphans s !! bhash p = None ∧ bprev o' = bhash p) ∨ bprev o' = bhash o).
    { destruct Hc as [?|(p & Hp1 & Hp2 & Hp3)]; [by left; left|]. apply lookup_delete_None in Hp2 as [Heq|Hn]; [right; congruence|].
      left. right. eauto. }
    destruct Hq as [Hq|Hq]; [specialize (T3 k o' Hk Hq); set_solver|]. rewrite Hq. set_solver.
  - intros q' Hq'. assert (q' ∈ q :: rest ∨ q' = bhash o) as [Hin| ->] by set_solver; [by apply T4|]. right. eauto.
Qed.

Lemma process_pool now adjustedTime flags n queue s :
  one_parent → pool_ok s → pool_ok (snd (process n now adjustedTime queue flags s)).
Proof.
  intros Hone. revert queue s. induction n as [|n IH]; intros queue s Hs; [by destruct queue|].
  destruct queue as [|h rest]; [done|]. rewrite process_turn. destruct (default [] _) as [|o l] eqn:El; [by apply IH|].
  pose proof (orphans_maybeAcceptBlock new_max maps_memory maxTotalMemoryUsage sched fuel PruneBlocks
    index_ConnectBlock index_DisconnectBlock dbFetchUtxoEntryByHash now adjustedTime (o_block o) flags (removeOrphanBlock o s)) as Hk.
  assert (Hs2 : pool_ok (removeOrphanBlock o s)).
  { apply pool_remove; [done|done|]. assert (Ho : o ∈ default [] (s_prevOrphans s !! h)) by (rewrite El; left).
    apply (ok_listed _ (proj1 Hs)) in Ho as [_ Ho]. by apply (ok_seen _ (proj1 Hs)) in Ho. }
  destruct (accept now adjustedTime (o_block o) flags (removeOrphanBlock o s)) as [[b|e|] s2]; cbn [snd] in *;
    [apply IH|..]; by eapply pool_ok_part.
Qed.

(** C23. The pool of orphans stays well formed through every call of
    [ProcessBlock], whatever it returns: the map by hash and the lists by
    parent hold the same blocks, each once, no list is empty, and there are
    at most 101 blocks.  Adding a block to such a pool cannot fail. *)
Theorem orphan_pool now adjustedTime b flags s :
  one_parent → visits_all → pool_ok s → seen b →
  pool_ok (snd (ProcessBlock new_max maps_memory maxTotalMemoryUsage sched fuel PruneBlocks
    index_ConnectBlock index_DisconnectBlock dbFetchUtxoEntryByHash order now adjustedTime b flags s)) ∧
  (IsKnownOrphan (block_hash b) s = false → ∃ s', addOrphanBlock order now b s = (VOk tt, s')).
Proof.
  intros Hone Hall Hs Hb. assert (Hknown : ∀ s, IsKnownOrphan (block_hash b) s = false → s_orphans s !! block_hash b = None).
  { intros s0 Hk. unfold IsKnownOrphan in Hk. apply bool_decide_eq_false in Hk. by apply eq_None_not_Some. }
  split; [|intros Hk%Hknown; destruct (add_ok now b s) as (s' & He & _); eauto].
  assert (Hex : ∀ h s, snd (blockExists h s) = s).
  { intros h s0. unfold blockExists. destruct (HaveBlock _ _); [done|]. destruct (negb _); [done|].
    by destruct (dbFetchHeightByHash _ _). }
  unfold ProcessBlock. cbv zeta. apply CM_bind_state; [by rewrite Hex|]. intros ex s1 He1.
  pose proof (Hex (block_hash b) s) as Hs1. rewrite He1 in Hs1. cbn in Hs1. subst s1.
  apply CM_bind_state; [done|]. intros ? s1 [_ <-]%ret_res_ok.
  apply CM_bind_state; [done|]. intros known s1 [= <- <-].
  apply CM_bind_state; [done|]. intros ? s1 [Hkn <-]%ret_res_ok.
  apply CM_bind_state; [done|]. intros params s1 [= <- <-].
  apply CM_bind_state; [done|]. intros ? s1 [_ <-]%ret_res_ok.
  pose proof (keeps_orphans_on_chain findPreviousCheckpoint s) as Hk. apply CM_bind_state; [by eapply pool_ok_part|].
  intros cp s1 Hcp. rewrite Hcp in Hk. cbn [snd] in Hk. assert (Hp1 : pool_ok s1) by by eapply pool_ok_part.
  assert (Hn1 : s_orphans s1 !! block_hash b = None).
  { injection Hk as -> _ _. apply Hknown. by destruct (IsKnownOrphan (block_hash b) s). }
  apply CM_bind_state; [done|]. intros ? s2 [_ <-]%ret_res_ok. apply CM_bind_state; [by rewrite Hex|].
  intros pe s2 Hpe. pose proof (Hex (PrevBlock (Header (b_msg b))) s1) as Hs2. rewrite Hpe in Hs2. cbn in Hs2. subst s2.
  destruct (negb pe).
  - destruct (add_ok now b s1 Hone Hall Hp1 Hn1 Hb) as (s' & He & Hs' & _). apply CM_bind_state; [by rewrite He|].
    intros ? s2 He'. rewrite He in He'. by injection He' as _ <-.
  - pose proof (orphans_maybeAcceptBlock new_max maps_memory maxTotalMemoryUsage sched fuel PruneBlocks
      index_ConnectBlock index_DisconnectBlock dbFetchUtxoEntryByHash now adjustedTime b flags s1) as Ha.
    apply CM_bind_state; [by eapply pool_ok_part|]. intros main s2 He2. rewrite He2 in Ha. cbn [snd] in Ha.
    assert (Hp2 : pool_ok s2) by by eapply pool_ok_part.
    apply CM_bind_state; [by apply process_pool|]. intros ? s3 He3.
    pose proof (process_pool now adjustedTime flags (2 * orphan_count s2 + 1) [block_hash b] s2 Hone Hp2) as Hp3.
    unfold processOrphans, mbind, CM_bind, reads in He3. by rewrite He3 in Hp3.
Qed.

(** Processing the orphans of a block ends: more turns than twice the
    number of orphans and one change nothing.  When it succeeds, the orphans
    that have left the pool are exactly those that descend from the block. *)
Theorem orphans_processed now adjustedTime flags h s :
  one_parent → orphans_ok s →
  (∀ k, process (2 * orphan_count s + 1 + k) now adjustedTime [h] flags s =
        processOrphans new_max maps_memory maxTotalMemoryUsage sched fuel PruneBlocks
          index_ConnectBlock index_DisconnectBlock dbFetchUtxoEntryByHash now adjustedTime h flags s) ∧
  ∀ s', processOrphans new_max maps_memory maxTotalMemoryUsage sched fuel PruneBlocks
          index_ConnectBlock index_DisconnectBlock dbFetchUtxoEntryByHash now adjustedTime h flags s = (VOk tt, s') →
    ∀ k o, s_orphans s' !! k = Some o ↔ s_orphans s !! k = Some o ∧ ¬ descends (s_orphans s) h o.
Proof.
  intros Hone Hs. unfold processOrphans, mbind, CM_bind, reads.
  split; [intros k; apply process_more; [done|done|cbn; lia]|]. intros s' He.
  apply (process_all _ _ _ (s_orphans s) h) in He as [Hs' [T1 T2 T3 _]]; [|apply (ok_key _ Hs)|done|done|].
  2: { split; [done|congruence| |].
       - intros k o _ [<-|(p & H1 & H2 & _)]; [left|congruence].
       - intros q ->%list_elem_of_singleton. by left. }
  assert (Hgone : ∀ o, descends (s_orphans s) h o → s_orphans s' !! bhash o = None).
  { intros o Hd. induction Hd as [o Ho Hp|o p Ho Hd IH Hp]; destruct (s_orphans s' !! bhash o) as [o'|] eqn:E; try done.
    - assert (o' = o) as -> by (apply T1 in E; congruence). exfalso. apply (not_elem_of_nil (bprev o)), (T3 _ _ E). by left.
    - assert (o' = o) as -> by (apply T1 in E; congruence). exfalso. apply (not_elem_of_nil (bprev o)), (T3 _ _ E). right.
      exists p. split_and!; [|done|done]. by inversion Hd. }
  intros k o. split.
  - intros Ho. pose proof (T1 _ _ Ho) as Ho1. split; [done|]. intros Hd%Hgone. rewrite (ok_key _ Hs' k o Ho) in Hd. congruence.
  - intros [Ho Hd]. destruct (s_orphans s' !! k) as [o'|] eqn:E; [by rewrite (T1 _ _ E) in Ho|]. destruct Hd. by apply (T2 k).
Qed.
End Pool.
