(* ===== verification/ChainStateFacts.v ===== *)
(** * Block chain: the unspent outputs are those of the best chain

    The invariant of the chain state: the view of the best chain is the list
    of the ancestors of its tip, the cache over the database is the ledger that
    the blocks up to the tip make, the database alone is the ledger of some
    ancestor, which it names, and the journals are those of the blocks.
    Connecting and disconnecting blocks, reorganizing and recovering from a
    crash keep it. *)

From Stdlib Require Import ZArith Lia.
From stdpp Require Import base numbers list strings gmap.
From S2P Require Import Prelude ScriptNum WireBase WireTx ScriptStack ScriptToken Sighash WireMsg Taproot ScriptEngine ScriptExec ChainCompress ChainCompressFacts ChainUtxo ChainStore ChainStoreFacts ChainError Merkle ChainNode ChainNodeFacts ChainParams ChainWork ChainThreshold ChainCache ChainCacheFacts ChainRules ChainConnect ChainSupply ChainUndoFacts ChainState ChainOrphanFacts.

Open Scope Z_scope.

(** ** Ancestors and paths *)

(** An ancestor of a node, or the node. *)
Inductive upto (a : blockNode) : blockNode → Prop :=
  | upto_refl : upto a a
  | upto_next n p : parent n = Some p → upto a p → upto a n.
(** The nodes after the first one, up to the last one. *)
Inductive steps (t : blockNode) : blockNode → list blockNode → Prop :=
  | steps_end : steps t t []
  | steps_next a n l : parent n = Some a → steps t n l → steps t a (n :: l).

(** The nodes from the last one down to the first one, which is not there. *)
Inductive down (f : blockNode) : blockNode → list blockNode → Prop :=
  | down_end : down f f []
  | down_next t p l : parent t = Some p → down f p l → down f t (t :: l).

Lemma upto_trans a b c : upto a b → upto b c → upto a c.
Proof. intros Hab Hbc. induction Hbc; [done|]. by eapply upto_next. Qed.
Lemma steps_upto t a l : steps t a l → upto a t ∧ Forall (λ n, upto a n ∧ upto n t) l.
Proof.
  induction 1 as [|a n l Hp Hs [IH1 IH2]]; [split; constructor|]. split.
  - eapply upto_trans; [|exact IH1]. eapply upto_next; [done|constructor].
  - constructor; [split; [eapply upto_next; [done|constructor]|done]|]. eapply Forall_impl; [exact IH2|].
    intros m [Hm1 Hm2]. split; [|done]. eapply upto_trans; [|exact Hm1]. eapply upto_next; [done|constructor].
Qed.
Lemma steps_strict t a l : steps t a l → ∀ n, n ∈ l → ∃ p, parent n = Some p ∧ upto a p.
Proof.
  induction 1 as [|a m l Hp Hs IH]; intros n; [by intros ?%elem_of_nil|]. intros [->|Hn]%elem_of_cons; [exists a; split; [done|constructor]|].
  destruct (IH n Hn) as (p & Hpn & Hu). exists p. split; [done|]. eapply upto_trans; [|exact Hu]. eapply upto_next; [done|constructor].
Qed.
Lemma steps_snoc t a l n : steps t a l → parent n = Some t → steps n a (l ++ [n]).
Proof. intros Hs Hp. induction Hs as [|a m l Hm Hs IH]; cbn; [|by constructor]. econstructor; [done|constructor]. Qed.
Lemma steps_last t a l n : steps t a (l ++ [n]) → n = t ∧ ∃ p, parent t = Some p ∧ steps p a l.
Proof.
  revert a. induction l as [|m l IH]; intros a Hs; inversion Hs as [|? ? ? Hp Hs']; subst.
  - inversion Hs'; subst. split; [done|]. exists a. split; [done|constructor].
  - destruct (IH _ Hs') as (-> & p & Hp' & Hs2). split; [done|]. exists p. split; [done|by econstructor].
Qed.
Lemma steps_exist t a : upto a t → ∃ l, steps t a l.
Proof.
  induction 1 as [|n p Hp Hu [l IH]]; [exists []; constructor|]. exists (l ++ [n]). by eapply steps_snoc.
Qed.

Lemma upto_below a t : linked t → below a t ↔ upto a t.
Proof.
  intros Ht. split.
  - unfold below, ancestor_at. destruct (_ || _); [done|]. generalize (Z.to_nat (n_height t - n_height a)). clear Ht.
    intros k. revert t. induction k as [|k IH]; intros t; cbn [nth_parent]; [intros [= ->]; constructor|].
    destruct (parent t) as [p|] eqn:Hp; [|done]. intros Hn. eapply upto_next; [done|by apply IH].
  - intros Hu. revert Ht. induction Hu as [|n p Hp Hu IH]; intros Ht; [by apply ancestor_at_self|].
    destruct (linked_parent n p Ht Hp) as [Hlp Hh]. specialize (IH Hlp). unfold below in *.
    pose proof (below_height a p IH). rewrite (ancestor_at_parent n p) by (done || lia). done.
Qed.
Lemma upto_linked a t : upto a t → linked t → linked a.
Proof. induction 1 as [|n p Hp Hu IH]; [done|]. intros Hn. apply IH. by destruct (linked_parent n p Hn Hp). Qed.
Lemma upto_height a t : upto a t → linked t → n_height a <= n_height t.
Proof.
  induction 1 as [|n p Hp Hu IH]; [done|]. intros Hn. destruct (linked_parent n p Hn Hp) as [Hlp Hh]. specialize (IH Hlp). lia.
Qed.
Lemma upto_same a t : upto a t → linked t → n_height a = n_height t → a = t.
Proof.
  intros Hu Ht. inversion Hu as [|n p Hp Hu']; [done|]. subst. destruct (linked_parent t p Ht Hp) as [Hlp Hh].
  pose proof (upto_height a p Hu' Hlp). lia.
Qed.

(** The fork with an ancestor of the tip is that ancestor. *)
Lemma findFork_ancestor a t : upto a t → linked t → n_height t + 1 < 2 ^ 31 → findFork (view_of t) (Some a) = Some a.
Proof.
  intros Hu Ht Hlt. pose proof (upto_linked a t Hu Ht) as Ha. pose proof (findFork_ok a t Ha Ht Hlt) as Hf.
  assert (Hat : below a t) by by apply upto_below. assert (Haa : below a a) by by apply ancestor_at_self.
  destruct (findFork _ _) as [f|]; [|by destruct (Hf a Haa)]. destruct Hf as (Hfa & _ & Hmax). specialize (Hmax a Haa Hat).
  f_equal. pose proof (below_height f a Hfa). apply upto_below in Hfa; [|done]. apply (upto_same f a); [done|done|lia].
Qed.

Section Facts.
Context `{Crypto} `{Keys}.

(** ** The ledger of a node *)

Section Blocks.
Context (blocks : gmap Hash MsgBlock).

Fixpoint node_ledger (n : blockNode) : ledger :=
  match n with
  | mkNode (Some p) _ h _ height _ _ _ _ _ =>
      match blocks !! h with
      | Some msg => ledger_block (mkBlock msg height) (node_ledger p)
      | None => node_ledger p
      end
  | mkNode None _ _ _ _ _ _ _ _ _ => λ _, None
  end.
Lemma node_ledger_next n p msg :
  parent n = Some p → blocks !! n_hash n = Some msg →
  node_ledger n = ledger_block (mkBlock msg (n_height n)) (node_ledger p).
Proof. destruct n as [par anc h w ht v b no t m]. cbn. by intros -> ->. Qed.
Lemma node_ledger_first n : parent n = None → node_ledger n = λ _, None.
Proof. destruct n as [par anc h w ht v b no t m]. cbn. by intros ->. Qed.

(** A chain of stored blocks that fit each other, that make no output that
    was there before, and that have different hashes. *)
Record valid_next (n p : blockNode) (msg : MsgBlock) : Prop := {
  vn_stored : blocks !! n_hash n = Some msg;
  vn_hash : BlockHash (Header msg) = n_hash n;
  vn_block : block_valid (mkBlock msg (n_height n)) (node_ledger p);
  vn_fresh a op : upto a p → op ∈ made (Transactions msg) → node_ledger a op = None;
  vn_new a : upto a p → n_hash a ≠ n_hash n
}.
Inductive chain_valid : blockNode → Prop :=
  | chain_first n : parent n = None → chain_valid n
  | chain_next n p msg : parent n = Some p → chain_valid p → valid_next n p msg → chain_valid n.

Lemma chain_valid_upto a n : upto a n → chain_valid n → chain_valid a.
Proof.
  induction 1 as [|n p Hp Hu IH]; [done|]. intros Hv. apply IH. inversion Hv as [? Hn|? p' msg Hp' Hv']; congruence.
Qed.
Lemma chain_valid_parent n p : chain_valid n → parent n = Some p → chain_valid p ∧ ∃ msg, valid_next n p msg.
Proof.
  intros Hv Hp. inversion Hv as [? Hn|? p' msg Hp' Hv' Hx]; subst; [congruence|].
  rewrite Hp in Hp'. injection Hp' as <-. eauto.
Qed.
Lemma node_ledger_fits n : chain_valid n → ledger_fits (node_ledger n).
Proof.
  induction 1 as [n Hn|n p msg Hp Hv IH Hx]; [by rewrite node_ledger_first by done; intros op s|].
  rewrite (node_ledger_next n p msg) by (done || apply Hx). apply ledger_fits_txs; [done|]. by destruct Hx as [_ _ [_ ?] _ _].
Qed.
Lemma hash_inj a b t : chain_valid t → upto a t → upto b t → n_hash a = n_hash b → a = b.
Proof.
  intros Hv Ha Hb He. revert Hv Hb. induction Ha as [|t p Hp Ha IH]; intros Hv Hb.
  - inversion Hb as [|? p' Hp' Hb']; subst; [done|]. destruct (chain_valid_parent _ _ Hv Hp') as (_ & msg & Hx).
    destruct (vn_new _ _ _ Hx b Hb'). done.
  - destruct (chain_valid_parent _ _ Hv Hp) as (Hvp & msg & Hx). inversion Hb as [|? p' Hp' Hb']; subst.
    + by destruct (vn_new _ _ _ Hx a Ha).
    + rewrite Hp in Hp'. injection Hp' as <-. by apply IH.
Qed.

(** A chain of stored blocks that are well formed by themselves, that make no
    output that was there before on the chain, and that have different
    hashes.  Whether their inputs are unspent is not said. *)
Record next_block (n p : blockNode) (msg : MsgBlock) : Prop := {
  nb_stored : blocks !! n_hash n = Some msg;
  nb_hash : BlockHash (Header msg) = n_hash n;
  nb_formed : well_formed (mkBlock msg (n_height n));
  nb_fresh a op : upto a p → op ∈ made (Transactions msg) → node_ledger a op = None;
  nb_new a : upto a p → n_hash a ≠ n_hash n
}.
Inductive chain_stored : blockNode → Prop :=
  | stored_first n : parent n = None → chain_stored n
  | stored_next n p msg : parent n = Some p → chain_stored p → next_block n p msg → chain_stored n.
(** The blocks that are marked as valid can be connected. *)
Definition marks_right (bi : blockIndex) (n : blockNode) : Prop := ∀ m q msg,
  upto m n → parent m = Some q → blocks !! n_hash m = Some msg → KnownValid (NodeStatus bi m) = true →
  block_valid (mkBlock msg (n_height m)) (node_ledger q).

Lemma chain_stored_parent n p msg :
  chain_stored n → parent n = Some p → blocks !! n_hash n = Some msg → chain_stored p ∧ next_block n p msg.
Proof.
  intros Hv Hp Hmsg. inversion Hv as [? Hn|? p' msg' Hp' Hv' Hx]; subst; [congruence|].
  rewrite Hp in Hp'. injection Hp' as <-. pose proof (nb_stored _ _ _ Hx) as Hs. rewrite Hmsg in Hs. by injection Hs as <-.
Qed.
Lemma chain_stored_upto a n : upto a n → chain_stored n → chain_stored a.
Proof.
  induction 1 as [|n p Hp Hu IH]; [done|]. intros Hv. apply IH. inversion Hv as [? Hn|? p' msg Hp' Hv']; congruence.
Qed.
Lemma next_chain n p msg :
  chain_valid p → parent n = Some p → next_block n p msg → block_valid (mkBlock msg (n_height n)) (node_ledger p) → chain_valid n.
Proof. intros Hv Hp [] Hb. by eapply chain_next; [done|done|split]. Qed.
Lemma next_block_txs n p msg : next_block n p msg → Transactions msg ≠ [].
Proof. intros [_ _ [(? & ? & ? & Hs) _ _ _] _ _]. apply checkBlockSanity_ok in Hs as (cb & rest & Hb & _). cbn in Hb. by rewrite Hb. Qed.
End Blocks.

(** ** The invariant *)

(** The unspent outputs are those of the node [u]; the stored ones are those
    of an ancestor that the database names. *)
Record utxo_at (u : blockNode) (s : Chain) : Prop := {
  ua_cache : cache_ok (c_db (s_chain s)) (c_utxoCache (s_chain s));
  ua_ledger : agree (cache_ledger (c_db (s_chain s)) (c_utxoCache (s_chain s))) (node_ledger (d_blocks (s_db s)) u);
  ua_stored : ∃ a, upto a u ∧ utxoStateConsistency (c_db (s_chain s)) = Some (n_hash a) ∧
    agree (db_ledger (c_db (s_chain s))) (node_ledger (d_blocks (s_db s)) a)
}.
Definition journal_of (blocks : gmap Hash MsgBlock) (n p : blockNode) (msg : MsgBlock) : list SpentTxOut :=
  block_records (mkBlock msg (n_height n)) (node_ledger blocks p).
Record chain_at (t : blockNode) (s : Chain) : Prop := {
  ca_linked : linked t;
  ca_view : bestChain (s_chain s) = view_of t;
  ca_valid : chain_valid (d_blocks (s_db s)) t;
  ca_journal n p msg : upto n t → parent n = Some p → d_blocks (s_db s) !! n_hash n = Some msg →
    d_journal (s_db s) !! n_hash n = Some (serializeSpendJournalEntry (journal_of (d_blocks (s_db s)) n p msg));
  ca_best : ∃ total work, d_best (s_db s) =
    Some (serializeBestChainState (mkBestChainState (n_hash t) (uint32 (n_height t)) total work));
  ca_snapshot : best_Hash (s_snapshot s) = n_hash t;
  ca_prune : pruneTarget s = 0
}.
Definition consistent (t : blockNode) (s : Chain) : Prop := utxo_at t s ∧ chain_at t s.

Lemma utxo_at_core u s s' : core s' = core s → utxo_at u s → utxo_at u s'.
Proof.
  unfold core. intros [= H1 H2 H3 H4 H5 H6 H7 H8] [A1 A2 A3]. split; rewrite ?H2, ?H3, ?H4; auto.
Qed.
Lemma chain_at_core t s s' : core s' = core s → chain_at t s → chain_at t s'.
Proof.
  unfold core. intros [= H1 H2 H3 H4 H5 H6 H7 H8] [A1 A2 A3 A4 A5 A6 A7].
  split; rewrite ?H1, ?H4, ?H5, ?H6, ?H7, ?H8; auto.
Qed.
Lemma consistent_core t s s' : core s' = core s → consistent t s → consistent t s'.
Proof. intros Hc [H1 H2]. split; [by eapply utxo_at_core|by eapply chain_at_core]. Qed.

Context (new_max : list Z → Z → Z) (maps_memory : list Z → Z) (maxTotalMemoryUsage : Z).

(** ** Steps on the unspent outputs *)

Lemma chain_at_utxo t d u s : chain_at t s → chain_at t (set_chain (set_utxo d u) s).
Proof. by intros []. Qed.

(** Connecting the transactions of the next block to the cache. *)
Lemma cache_connect_next u n msg stxos s :
  utxo_at u s → chain_valid (d_blocks (s_db s)) n → parent n = Some u → d_blocks (s_db s) !! n_hash n = Some msg →
  ∃ c, cache_connect new_max (mkBlock msg (n_height n)) stxos s =
      (VOk ((λ l, l ++ journal_of (d_blocks (s_db s)) n u msg) <$> stxos), set_chain (set_utxo (c_db (s_chain s)) c) s) ∧
    utxo_at n (set_chain (set_utxo (c_db (s_chain s)) c) s).
Proof.
  intros [A1 A2 (a & Ha & Hc & Hd)] Hv Hp Hmsg. destruct (chain_valid_parent _ _ _ Hv Hp) as (_ & msg' & [Hs _ Hb Hfr _]).
  rewrite Hmsg in Hs. injection Hs as <-. set (b := mkBlock msg (n_height n)) in *. destruct Hb as [_ Hb].
  assert (Hfit : txs_fit (c_db (s_chain s)) (b_height b) (block_txs b) (cache_ledger (c_db (s_chain s)) (c_utxoCache (s_chain s)))).
  { apply txs_fit_valid; [by eapply txs_valid_agree|]. intros op Hop. pose proof (made_fits _ _ Hop).
    apply in_db_none; [apply A1|done|]. rewrite Hd by done. by apply Hfr. }
  destruct (cache_connect_ok new_max _ _ _ _ stxos A1 Hfit) as (c & He & Hok & Hl). exists c. split.
  - rewrite <- (txs_records_agree _ _ _ _ (symmetry A2) Hb) in He.
    unfold cache_connect, on_chain, with_cache, cache_connectTransactions. by rewrite He.
  - split; cbn; [done| |].
    + rewrite (node_ledger_next _ n u msg) by done. etransitivity; [apply same_agree; exact Hl|].
      apply (ledger_txs_agree (b_height b) (block_txs b) _ _ A2).
    + exists a. split_and!; [by eapply upto_next|done|done].
Qed.

(** Flushing the cache for the node it is at. *)
Lemma cache_flush_at u now mode s :
  utxo_at u s →
  ∃ d c, cache_flush maps_memory maxTotalMemoryUsage now mode (n_hash u) s = (VOk tt, set_chain (set_utxo d c) s) ∧
    utxo_at u (set_chain (set_utxo d c) s).
Proof.
  intros [A1 A2 A3]. destruct (flush_cases maps_memory maxTotalMemoryUsage now mode (n_hash u) _ _ A1)
    as (d & c & He & Hok & Hl & Hcase). exists d, c. split; [unfold cache_flush; by rewrite He|].
  split; cbn; [done| |].
  - intros op Hop. rewrite Hl by done. by apply A2.
  - destruct Hcase as [(_ & -> & ->)|(Hc & _ & _ & Hd)]; [done|]. exists u. split_and!; [constructor|done|].
    intros op Hop. rewrite Hd by done. by apply A2.
Qed.
Lemma update_ok {A} (m : CM A) s a s' : update m s = (VOk a, s') → m s = (VOk a, s').
Proof. unfold update. by destruct (m s) as [[x|e|] s1]. Qed.

Context (sched : list txValidateItem → list txValidateItem) (fuel : nat).
Context (PruneBlocks : Z → gmap Hash MsgBlock → VRes (list Hash * gmap Hash MsgBlock)).
Context (index_ConnectBlock index_DisconnectBlock : Block → list SpentTxOut → VRes unit).
Context (dbFetchUtxoEntryByHash : utxo_db → Hash → ChainRes (option UtxoEntry)).

Lemma the_tip_ok t s a s' : chain_at t s → the_tip s = (VOk a, s') → a = t ∧ s' = s.
Proof.
  intros Hc. unfold the_tip. rewrite (ca_view _ _ Hc), view_tip by apply Hc. by intros [= <- <-].
Qed.
Lemma keeps_ok {X A} (f : Chain → X) (m : CM A) s a s' : keeps f m → m s = (VOk a, s') → f s' = f s.
Proof. intros Hk Hm. specialize (Hk s). by rewrite Hm in Hk. Qed.

(** ** Connecting the next block *)

Lemma prune_off now state s : pruneTarget s = 0 →
  prune maps_memory maxTotalMemoryUsage PruneBlocks now state s = (VOk tt, s).
Proof. intros Hp. unfold prune, mbind, CM_bind, reads. by rewrite Hp. Qed.

(** The state of the chain after the transaction that records the block. *)
Lemma recorded_at n p msg state work s :
  chain_at p s → parent n = Some p → linked n → chain_valid (d_blocks (s_db s)) n →
  d_blocks (s_db s) !! n_hash n = Some msg → best_Hash state = n_hash n → best_Height state = n_height n →
  let b := mkBlock msg (n_height n) in
  chain_at n (set_snapshot state (set_chain (λ c, set_bestChain (setTip (Some n) (bestChain c)) c)
    (set_db (dbPutSpendJournalEntry (block_hash b) (journal_of (d_blocks (s_db s)) n p msg))
      (set_db (set_main_index (dbPutBlockIndex (block_hash b) (n_height n)))
        (set_db (dbPutBestState state work) s))))).
Proof.
  intros [A1 A2 A3 A4 A5 A6 A7] Hp Hn Hv Hmsg Hh Hht b. destruct (chain_valid_parent _ _ _ Hv Hp) as (_ & msg' & Hx).
  assert (Hbh : block_hash b = n_hash n).
  { pose proof (vn_stored _ _ _ _ Hx) as Hs. rewrite Hmsg in Hs. injection Hs as <-. apply (vn_hash _ _ _ _ Hx). }
  rewrite Hbh. split; cbn [set_snapshot set_chain set_db s_chain s_db s_snapshot pruneTarget set_bestChain bestChain
    dbPutSpendJournalEntry set_main_index dbPutBestState set_journal d_blocks d_journal d_best]; try done.
  - rewrite A2. by apply (setTip_ok n (Some p)).
  - intros m q msgm Hm Hq Hmm. inversion Hm as [|? p' Hp' Hm']; subst.
    + rewrite lookup_insert_eq. rewrite Hp in Hq. injection Hq as <-. rewrite Hmsg in Hmm. by injection Hmm as <-.
    + rewrite Hp in Hp'. injection Hp' as <-. rewrite lookup_insert_ne by (intros He; by destruct (vn_new _ _ _ _ Hx m Hm')).
      by apply A4.
  - exists (best_TotalTxns state), work. by rewrite Hh, Hht.
Qed.

Lemma connectBlock_at now adjustedTime n p msg s s' :
  utxo_at n s → chain_at p s → parent n = Some p → linked n → chain_valid (d_blocks (s_db s)) n →
  d_blocks (s_db s) !! n_hash n = Some msg →
  connectBlock maps_memory maxTotalMemoryUsage PruneBlocks index_ConnectBlock now adjustedTime n
    (mkBlock msg (n_height n)) (journal_of (d_blocks (s_db s)) n p msg) s = (VOk tt, s') →
  consistent n s' ∧ d_blocks (s_db s') = d_blocks (s_db s).
Proof.
  intros Hu Hc Hp Hn Hv Hmsg Hr. unfold connectBlock in Hr.
  apply CM_bind_ok in Hr as (t & s1 & Ht & Hr). apply (the_tip_ok p) in Ht as [-> ->]; [|done].
  apply CM_bind_ok in Hr as (? & s1 & [_ <-]%ret_res_ok & Hr).
  apply CM_bind_ok in Hr as (spent & s1 & [_ <-]%ret_res_ok & Hr).
  apply CM_bind_ok in Hr as (? & s1 & [_ <-]%ret_res_ok & Hr).
  apply CM_bind_ok in Hr as (cur & s1 & Hcur & Hr). apply (keeps_ok core) in Hcur; [|apply core_isCurrent].
  apply CM_bind_ok in Hr as (? & s2 & Hwarn & Hr).
  apply (keeps_ok core) in Hwarn; [|apply keeps_ite; [apply core_warn|apply keeps_ret_cm]].
  apply CM_bind_ok in Hr as (? & s3 & Hfl & Hr). apply (keeps_ok core) in Hfl; [|apply core_flushToDB].
  assert (Hk : core s3 = core s) by congruence. clear Hcur Hwarn Hfl s1 s2.
  assert (Hb3 : d_blocks (s_db s3) = d_blocks (s_db s)) by (unfold core in Hk; congruence).
  apply (utxo_at_core _ _ _ Hk) in Hu. apply (chain_at_core _ _ _ Hk) in Hc. rewrite <- Hb3 in *. clear Hk Hb3 s.
  apply CM_bind_ok in Hr as (cnt & s1 & [= <- <-] & Hr).
  apply CM_bind_ok in Hr as (mt & s1 & [_ <-]%ret_res_ok & Hr). cbv zeta in Hr.
  set (state := newBestState _ _ _ _ _ _) in Hr.
  apply CM_bind_ok in Hr as (? & s4 & Hup & Hr). apply update_ok in Hup.
  apply CM_bind_ok in Hup as (? & s1 & Hpr & Hup). rewrite prune_off in Hpr by apply Hc. injection Hpr as _ <-.
  apply CM_bind_ok in Hup as (? & s1 & [= _ <-] & Hup). apply CM_bind_ok in Hup as (? & s1 & [= _ <-] & Hup).
  apply CM_bind_ok in Hup as (? & s1 & [= _ <-] & [_ <-]%ret_res_ok).
  apply CM_bind_ok in Hr as (? & s4 & [= _ <-] & Hr). apply CM_bind_ok in Hr as (? & s4 & [= _ <-] & Hr).
  apply CM_bind_ok in Hr as (? & s5 & Hnote & Hr).
  pose proof (recorded_at n p msg state (ChainNode.workSum n) s3 Hc Hp Hn Hv Hmsg eq_refl eq_refl) as Hrec. cbv zeta in Hrec.
  set (s4 := set_snapshot _ _) in *. apply (keeps_ok core) in Hnote; [|apply core_notify].
  assert (Hu4 : utxo_at n s4) by (destruct Hu; by split).
  apply (utxo_at_core _ _ _ Hnote) in Hu4. apply (chain_at_core _ _ _ Hnote) in Hrec.
  assert (Hb5 : d_blocks (s_db s5) = d_blocks (s_db s3)) by (unfold core in Hnote; injection Hnote; done).
  apply update_ok in Hr. destruct (cache_flush_at n now FlushIfNeeded s5 Hu4) as (d & c & He & Hu5).
  change (best_Hash state) with (n_hash n) in Hr. rewrite He in Hr. injection Hr as <-.
  split; [split; [done|by apply chain_at_utxo]|done].
Qed.

(** ** Disconnecting the last block *)

Definition with_cached (c : utxoCache) (s : Chain) : Chain := set_chain (λ _, set_utxoCache c (s_chain s)) s.
Lemma fetched_at t c s :
  cache_ok (c_db (s_chain s)) c →
  same (cache_ledger (c_db (s_chain s)) c) (cache_ledger (c_db (s_chain s)) (c_utxoCache (s_chain s))) →
  consistent t s → consistent t (with_cached c s).
Proof.
  intros Hok Hl [[A1 A2 A3] Hc]. split; [|by destruct Hc]. split; cbn; [done| |done].
  etransitivity; [by apply same_agree|done].
Qed.

(** Writing a view to the database when nothing is cached. *)
Lemma put_view_at t p now v s :
  utxo_at t s → writable v (node_ledger (d_blocks (s_db s)) t) →
  agree (over v (node_ledger (d_blocks (s_db s)) t)) (node_ledger (d_blocks (s_db s)) p) →
  ∃ d c, (cache_flush maps_memory maxTotalMemoryUsage now FlushRequired (n_hash p) ≫= λ _, put_utxo_view v) s =
      (VOk tt, set_chain (set_utxo d c) s) ∧
    utxo_at p (set_chain (set_utxo d c) s).
Proof.
  intros [A1 A2 A3] Hw Hov. destruct (flush_cases maps_memory maxTotalMemoryUsage now FlushRequired (n_hash p) _ _ A1)
    as (d & c & He & Hok & Hl & [(? & _)|(Hc & _ & Hem & Hd)]); [done|].
  assert (HB : agree (db_ledger d) (node_ledger (d_blocks (s_db s)) t)).
  { intros op Hop. rewrite Hd by done. by apply A2. }
  destruct (put_view_ledger d v (utxoStateConsistency d)) as (b' & Hput & Hdb & Hag).
  { apply Hok. }
  { eapply writable_agree; [|exact Hw]. by symmetry. }
  exists (mkUtxoDb b' (utxoStateConsistency d)), c. split.
  - unfold mbind, CM_bind, cache_flush. rewrite He. unfold put_utxo_view. cbn [set_chain s_chain set_utxo c_db]. by rewrite Hput.
  - assert (Hag' : agree (db_ledger (mkUtxoDb b' (utxoStateConsistency d))) (node_ledger (d_blocks (s_db s)) p)).
    { etransitivity; [exact Hag|]. etransitivity; [by apply over_agree|done]. }
    split; cbn [set_chain s_chain s_db set_utxo c_db c_utxoCache].
    + split; [apply Hok|done|]. intros op o. by rewrite Hem.
    + intros op Hop. unfold cache_ledger. rewrite Hem. by apply Hag'.
    + exists p. split_and!; [constructor|done|done].
Qed.

(** The state of the chain after the block is taken off. *)
Lemma removed_at t p msg state work s :
  chain_at t s → parent t = Some p → d_blocks (s_db s) !! n_hash t = Some msg →
  best_Hash state = n_hash p → best_Height state = n_height p →
  let b := mkBlock msg (n_height t) in
  chain_at p (set_snapshot state (set_chain (λ c, set_bestChain (setTip (Some p) (bestChain c)) c)
    (set_db (dbRemoveSpendJournalEntry (block_hash b))
      (set_db (set_main_index (dbRemoveBlockIndex (block_hash b) (n_height t)))
        (set_db (dbPutBestState state work) s))))).
Proof.
  intros [A1 A2 A3 A4 A5 A6 A7] Hp Hmsg Hh Hht b. destruct (chain_valid_parent _ _ _ A3 Hp) as (Hvp & msg' & Hx).
  destruct (linked_parent t p A1 Hp) as [Hlp _].
  assert (Hbh : block_hash b = n_hash t).
  { pose proof (vn_stored _ _ _ _ Hx) as Hs. rewrite Hmsg in Hs. injection Hs as <-. apply (vn_hash _ _ _ _ Hx). }
  rewrite Hbh. split; cbn [set_snapshot set_chain set_db s_chain s_db s_snapshot pruneTarget set_bestChain bestChain
    dbRemoveSpendJournalEntry set_main_index dbPutBestState set_journal d_blocks d_journal d_best]; try done.
  - rewrite A2. by apply (setTip_ok p (Some t)).
  - intros m q msgm Hm Hq Hmm. rewrite lookup_delete_ne by (intros He; by destruct (vn_new _ _ _ _ Hx m Hm)).
    apply A4; [by eapply upto_next|done|done].
  - exists (best_TotalTxns state), work. by rewrite Hh, Hht.
Qed.

Lemma disconnectBlock_at now t p msg v s s' v' :
  consistent t s → parent t = Some p → d_blocks (s_db s) !! n_hash t = Some msg →
  writable v (node_ledger (d_blocks (s_db s)) t) →
  agree (over v (node_ledger (d_blocks (s_db s)) t)) (node_ledger (d_blocks (s_db s)) p) →
  disconnectBlock maps_memory maxTotalMemoryUsage index_DisconnectBlock now t (mkBlock msg (n_height t)) v s = (VOk v', s') →
  consistent p s' ∧ v' = commit v ∧ d_blocks (s_db s') = d_blocks (s_db s).
Proof.
  intros [Hu Hc] Hp Hmsg Hw Hov Hr. unfold disconnectBlock in Hr.
  apply CM_bind_ok in Hr as (t' & s1 & Ht & Hr). apply (the_tip_ok t) in Ht as [-> ->]; [|done].
  apply CM_bind_ok in Hr as (? & s1 & [_ <-]%ret_res_ok & Hr). rewrite Hp in Hr.
  apply CM_bind_ok in Hr as (d0 & s1 & [= <- <-] & Hr).
  apply CM_bind_ok in Hr as (pb & s1 & [_ <-]%ret_res_ok & Hr).
  apply CM_bind_ok in Hr as (? & s3 & Hfl & Hr). apply (keeps_ok core) in Hfl; [|apply core_flushToDB].
  assert (Hb3 : d_blocks (s_db s3) = d_blocks (s_db s)) by (unfold core in Hfl; congruence).
  apply (utxo_at_core _ _ _ Hfl) in Hu. apply (chain_at_core _ _ _ Hfl) in Hc. rewrite <- Hb3 in *. clear Hfl Hb3 s.
  apply CM_bind_ok in Hr as (cnt & s1 & [= <- <-] & Hr).
  apply CM_bind_ok in Hr as (mt & s1 & [_ <-]%ret_res_ok & Hr). cbv zeta in Hr.
  set (state := newBestState _ _ _ _ _ _) in Hr.
  apply CM_bind_ok in Hr as (? & s4 & Hup & Hr). apply update_ok in Hup.
  apply CM_bind_ok in Hup as (? & s1 & [= _ <-] & Hup). apply CM_bind_ok in Hup as (? & s1 & [= _ <-] & Hup).
  apply CM_bind_ok in Hup as (? & s1 & Hf1 & Hup). apply CM_bind_ok in Hup as (? & s2 & Hf2 & Hup).
  set (s0 := set_db (set_main_index _) _) in Hf1.
  destruct (put_view_at t p now v s0) as (d & c & He & Hu0); [by destruct Hu|done|done|].
  change (best_Hash state) with (n_hash p) in Hf1. unfold mbind, CM_bind in He. rewrite Hf1, Hf2 in He. injection He as _ ->.
  apply CM_bind_ok in Hup as (d1 & s1' & [= <- <-] & Hup). apply CM_bind_ok in Hup as (st & s1' & [_ <-]%ret_res_ok & Hup).
  apply CM_bind_ok in Hup as (? & s1' & [= _ <-] & [_ <-]%ret_res_ok).
  apply CM_bind_ok in Hr as (? & s5 & [= _ <-] & Hr). apply CM_bind_ok in Hr as (? & s5 & [= _ <-] & Hr).
  apply CM_bind_ok in Hr as (? & s5 & Hnote & [= <- <-]). apply (keeps_ok core) in Hnote; [|apply core_notify].
  pose proof (removed_at t p msg state (ChainNode.workSum t) s3 Hc Hp Hmsg eq_refl eq_refl) as Hrec. cbv zeta in Hrec.
  split_and!; [|done|unfold core in Hnote; injection Hnote; done].
  eapply consistent_core; [exact Hnote|]. split; [by destruct Hu0|]. apply (chain_at_utxo p d c) in Hrec. by destruct Hrec.
Qed.

(** ** Taking blocks off and putting blocks on *)

Definition detached_as (blocks : gmap Hash MsgBlock) (n : blockNode) (d : Block * list SpentTxOut) : Prop :=
  ∃ p msg, parent n = Some p ∧ blocks !! n_hash n = Some msg ∧ d = (mkBlock msg (n_height n), journal_of blocks n p msg).
Definition attached_as (blocks : gmap Hash MsgBlock) (n : blockNode) (b : Block) : Prop :=
  ∃ msg, blocks !! n_hash n = Some msg ∧ b = mkBlock msg (n_height n).

(** The last block is undone in a view. *)
Lemma undo_at t p msg v s :
  consistent t s → parent t = Some p → d_blocks (s_db s) !! n_hash t = Some msg →
  carried v (node_ledger (d_blocks (s_db s)) t) →
  let b := mkBlock msg (n_height t) in
  ∃ v1 c v2, fetch_inputs new_max b v s = (VOk v1, with_cached c s) ∧ consistent t (with_cached c s) ∧
    undo_view dbFetchUtxoEntryByHash b (journal_of (d_blocks (s_db s)) t p msg) v1 (with_cached c s) =
      (VOk v2, with_cached c s) ∧
    writable v2 (node_ledger (d_blocks (s_db s)) t) ∧
    agree (over v2 (node_ledger (d_blocks (s_db s)) t)) (node_ledger (d_blocks (s_db s)) p).
Proof.
  intros Hs Hp Hmsg Hv b. pose proof Hs as [[A1 A2 _] Hc]. destruct (chain_valid_parent _ _ _ (ca_valid _ _ Hc) Hp) as (Hvp & msg' & Hx).
  pose proof (vn_stored _ _ _ _ Hx) as Hst. rewrite Hmsg in Hst. injection Hst as <-.
  rewrite (node_ledger_next _ t p msg Hp Hmsg) in *.
  destruct (undo_last (dbFetchUtxoEntryByHash (c_db (s_chain s))) new_max (c_db (s_chain s)) b
    (node_ledger (d_blocks (s_db s)) p) v (c_utxoCache (s_chain s)) A1 (node_ledger_fits _ _ Hvp) (vn_block _ _ _ _ Hx) A2 Hv)
    as (v1 & c & v2 & Hf & Hok & Hl & Hd & Hw & Hov). exists v1, c, v2. split_and!; [|by apply fetched_at| |done|done].
  - unfold fetch_inputs, on_chain, with_cache. by rewrite Hf.
  - unfold undo_view, journal_of. fold b. cbn [with_cached set_chain s_chain set_utxoCache c_db]. by rewrite Hd.
Qed.

Lemma detach_all_at now f t nodes ds v s s' :
  down f t nodes → consistent t s → carried v (node_ledger (d_blocks (s_db s)) t) →
  Forall2 (detached_as (d_blocks (s_db s))) nodes ds →
  detach_all new_max maps_memory maxTotalMemoryUsage index_DisconnectBlock dbFetchUtxoEntryByHash now (zip nodes ds) v s = (VOk tt, s') →
  consistent f s' ∧ d_blocks (s_db s') = d_blocks (s_db s).
Proof.
  intros Hd. revert ds v s. induction Hd as [|t q l Hq Hd IH]; intros ds v s Hs Hv Hf Hr.
  { apply Forall2_nil_inv_l in Hf as ->. by injection Hr as <-. }
  apply Forall2_cons_inv_l in Hf as (d & ds' & (p & msg & Hp & Hmsg & ->) & Hf & ->). rewrite Hq in Hp. injection Hp as <-.
  cbn [zip zip_with detach_all] in Hr. destruct (undo_at t q msg v s Hs Hq Hmsg Hv) as (v1 & c & v2 & Hfe & Hs1 & Hun & Hw & Hov).
  apply CM_bind_ok in Hr as (v1' & s1 & Hfe' & Hr). rewrite Hfe in Hfe'. injection Hfe' as <- <-.
  apply CM_bind_ok in Hr as (v2' & s2 & Hun' & Hr). rewrite Hun in Hun'. injection Hun' as <- <-.
  apply CM_bind_ok in Hr as (v3 & s3 & Hdis & Hr).
  apply (disconnectBlock_at now t q msg v2) in Hdis as (Hs3 & -> & Hb3); [|done..].
  change (d_blocks (s_db (with_cached c s))) with (d_blocks (s_db s)) in Hb3.
  apply IH in Hr as [Hr1 Hr2]; [split; [done|congruence]|done| |by rewrite Hb3].
  rewrite Hb3. eapply carried_agree; [exact Hov|]. apply commit_carried, Hw.
Qed.

Lemma attach_all_at now adjustedTime f t nodes bs s s' :
  steps t f nodes → consistent f s → linked t → chain_valid (d_blocks (s_db s)) t →
  Forall2 (attached_as (d_blocks (s_db s))) nodes bs →
  attach_all new_max maps_memory maxTotalMemoryUsage PruneBlocks index_ConnectBlock now adjustedTime (zip nodes bs) s = (VOk tt, s') →
  consistent t s' ∧ d_blocks (s_db s') = d_blocks (s_db s).
Proof.
  intros Hst. revert bs s. induction Hst as [|f n l Hp Hst IH]; intros bs s Hs Ht Hv Hf Hr.
  { apply Forall2_nil_inv_l in Hf as ->. by injection Hr as <-. }
  apply Forall2_cons_inv_l in Hf as (b & bs' & (msg & Hmsg & ->) & Hf & ->). cbn [zip zip_with attach_all] in Hr.
  destruct (steps_upto _ _ _ Hst) as [Hu _]. pose proof (chain_valid_upto _ _ _ Hu Hv) as Hvn. pose proof (upto_linked _ _ Hu Ht) as Hln.
  apply CM_bind_ok in Hr as (? & s1 & [_ <-]%ret_res_ok & Hr). apply CM_bind_ok in Hr as (st & s1 & Hcc & Hr).
  destruct (cache_connect_next f n msg (Some []) s (proj1 Hs) Hvn Hp Hmsg) as (c & He & Hu1). rewrite He in Hcc. injection Hcc as <- <-.
  apply CM_bind_ok in Hr as ([] & s2 & Hcb & Hr).
  destruct (connectBlock_at now adjustedTime n f msg _ s2 Hu1 (chain_at_utxo _ _ _ _ (proj2 Hs)) Hp Hln Hvn Hmsg Hcb) as [Hs2 Hb2].
  change (d_blocks (s_db (set_chain (set_utxo (c_db (s_chain s)) c) s))) with (d_blocks (s_db s)) in Hb2.
  apply IH in Hr as [Hr1 Hr2]; [split; [done|congruence]|done|done|by rewrite Hb2|by rewrite Hb2].
Qed.

(** ** Checking a reorganization *)

(** What the checks of a block leave alone, whatever they return. *)
Definition stays {A} (P : BlockChain → Prop) (m : ChainM A) : Prop := ∀ c, P c → P (snd (m c)).
Lemma stays_bind {A B} P (m : ChainM A) (k : A → ChainM B) : stays P m → (∀ a, stays P (k a)) → stays P (m ≫= k).
Proof.
  intros Hm Hk c Hc. unfold mbind, ChainM_bind. specialize (Hm c Hc). destruct (m c) as [[a|e|] c1]; cbn [snd] in *; [|done..].
  by apply Hk.
Qed.
Definition checked (V : chainView) (I : blockIndex) (D : utxo_db) (L : ledger) (c : BlockChain) : Prop :=
  bestChain c = V ∧ c_index c = I ∧ c_db c = D ∧ cache_ok D (c_utxoCache c) ∧ same (cache_ledger D (c_utxoCache c)) L.

Section Checked.
Context (V : chainView) (I : blockIndex) (D : utxo_db) (L : ledger).

Lemma checked_deployment prev id : stays (checked V I D L) (chain_deploymentState prev id).
Proof. intros c Hc. unfold chain_deploymentState. by destruct (deploymentState _ _ _ _ _). Qed.
Lemma checked_sequence_locks txs node view mt : stays (checked V I D L) (check_sequence_locks txs node view mt).
Proof.
  induction txs as [|tx txs IH]; cbn [check_sequence_locks]; [by intros c|]. apply stays_bind; [|intros l; apply stays_bind; [by intros c|done]].
  unfold calcSequenceLock. cbv zeta. apply stays_bind.
  - apply stays_bind; [apply checked_deployment|by intros a c].
  - intros a. destruct (_ || _); by intros c.
Qed.
Lemma checked_fetch ops v :
  Forall outpoint_fits ops → stays (checked V I D L) (with_cache (λ db, fetchUtxosFromCache new_max db ops v)).
Proof.
  intros Hops c (<- & <- & <- & Hok & Hl). unfold with_cache.
  destruct (fetch_keeps new_max (λ _, True) (c_db c) ops v (c_utxoCache c)) as (v' & s' & -> & _ & Hok' & Hl'); [done..|].
  split_and!; [done|done|done|done|]. cbn. by rewrite Hl'.
Qed.
Lemma checked_inputs b v :
  block_txs b ≠ [] → inputs_fit b → stays (checked V I D L) (with_cache (λ db, fetchInputUtxos new_max db b v)).
Proof.
  intros Hne Hin c (<- & <- & <- & Hok & Hl). unfold with_cache.
  destruct (fetchInputUtxos_keeps new_max (λ _, True) (c_db c) b v (c_utxoCache c)) as (v' & s' & -> & _ & Hok' & Hl'); [done..|].
  split_and!; [done|done|done|done|]. cbn. by rewrite Hl'.
Qed.
Lemma checked_BIP0030 txs v : stays (checked V I D L) (checkBIP0030 new_max txs v).
Proof.
  unfold checkBIP0030. apply stays_bind; [|intros a; apply stays_bind; [by intros c|by intros x c]].
  unfold fetchUtxos. apply checked_fetch. apply Forall_forall. intros op [Hop _]%list_elem_of_In%filter_In.
  apply in_concat in Hop as (l & Hl & Hop). apply in_map_iff in Hl as (tx & <- & _).
  apply list_elem_of_In, list_elem_of_fmap in Hop as (p & -> & Hp). by apply outpoints_fit with tx.
Qed.
Lemma checked_connect node b v stxos :
  block_txs b ≠ [] → inputs_fit b → stays (checked V I D L) (checkConnectBlock new_max sched fuel node b v stxos).
Proof.
  intros Hne Hin. unfold checkConnectBlock. cbv zeta.
  repeat first [apply checked_deployment | apply checked_sequence_locks | apply checked_BIP0030 | apply checked_inputs; done
    | apply stays_bind; [|intros ?] | (intros c; done)
    | match goal with
      | |- stays _ (if ?x then _ else _) => destruct x
      | |- stays _ (let '(_, _) := ?x in _) => destruct x
      | a : _ * _ |- _ => destruct a
      end ].
Qed.
End Checked.

Lemma checked_at {A} t s (m : ChainM A) :
  consistent t s →
  stays (checked (bestChain (s_chain s)) (c_index (s_chain s)) (c_db (s_chain s))
    (cache_ledger (c_db (s_chain s)) (c_utxoCache (s_chain s)))) m →
  let s' := snd (on_chain m s) in consistent t s' ∧ s_db s' = s_db s ∧ c_index (s_chain s') = c_index (s_chain s).
Proof.
  intros [[A1 A2 A3] Hc] Hm. destruct (Hm (s_chain s)) as (HV & HI & HD & Hok & Hl); [done|].
  unfold on_chain. destruct (m (s_chain s)) as [r c]. cbn [snd] in *. split; [|done]. split.
  - split; cbn [set_chain s_chain s_db]; rewrite HD; [done| |done]. etransitivity; [by apply same_agree|done].
  - destruct Hc as [? B2]. split; cbn; try done. by rewrite HV.
Qed.

(** A block and its journal are found as they were stored. *)
Lemma fetch_block_at t n s b :
  consistent t s → dbFetchBlockByNode n (s_db s) = VOk b → attached_as (d_blocks (s_db s)) n b.
Proof. unfold dbFetchBlockByNode, attached_as. destruct (d_blocks (s_db s) !! n_hash n) as [msg|]; [|done]. intros _ [= <-]. eauto. Qed.
Lemma fetch_journal_at t n p msg s stxos :
  consistent t s → upto n t → parent n = Some p → d_blocks (s_db s) !! n_hash n = Some msg →
  dbFetchSpendJournalEntry (mkBlock msg (n_height n)) (s_db s) = VOk stxos → stxos = journal_of (d_blocks (s_db s)) n p msg.
Proof.
  intros [_ Hc] Hu Hp Hmsg. pose proof (chain_valid_upto _ _ _ Hu (ca_valid _ _ Hc)) as Hv.
  destruct (chain_valid_parent _ _ _ Hv Hp) as (Hvp & msg' & Hx). pose proof (vn_stored _ _ _ _ Hx) as Hst.
  rewrite Hmsg in Hst. injection Hst as <-. set (b := mkBlock msg (n_height n)).
  pose proof (vn_block _ _ _ _ Hx) as Hb. fold b in Hb. pose proof (node_ledger_fits _ _ Hvp) as HL.
  pose proof (block_records_count b _ HL Hb) as Hn. unfold dbFetchSpendJournalEntry, countSpentOutputs in *.
  assert (Hbh : block_hash b = n_hash n) by apply (vn_hash _ _ _ _ Hx).
  rewrite Hbh, (ca_journal _ _ Hc n p msg Hu Hp Hmsg). destruct (block_txs b) as [|cb txs] eqn:Eb; [done|].
  change (default [] (Some ?x)) with x. rewrite journal_roundtrip; [by intros [= <-]| |done].
  apply txs_records_fit; [done|]. apply Hb.
Qed.

(** The view of a block that is fetched, connected or undone stands for the
    ledger of a node over that of the tip. *)
Definition shows (t n : blockNode) (s : Chain) : UtxoViewpoint → Prop :=
  stands (node_ledger (d_blocks (s_db s)) t) (node_ledger (d_blocks (s_db s)) n) [].
Lemma consistent_backs t s : consistent t s → backs (node_ledger (d_blocks (s_db s)) t) (s_chain s).
Proof. by intros [[A1 A2 _] _]. Qed.

Lemma fetch_inputs_at t n b v s :
  consistent t s → block_txs b ≠ [] → inputs_fit b → Forall (outputs_fit (b_height b)) (block_txs b) → shows t n s v →
  let '(r, s') := fetch_inputs new_max b v s in
  consistent t s' ∧ s_db s' = s_db s ∧ c_index (s_chain s') = c_index (s_chain s) ∧
  match r with
  | VOk v' => stands (node_ledger (d_blocks (s_db s)) t) (node_ledger (d_blocks (s_db s)) n) (block_txs b) v'
  | _ => True
  end.
Proof.
  intros Hs Hne Hin Hout Hv. pose proof (checked_at t s _ Hs (checked_inputs _ _ _ _ b v Hne Hin)) as Hc.
  fold (fetch_inputs new_max b v) in Hc. destruct (fetch_inputs new_max b v s) as [[v'|e|] s'] eqn:He; destruct Hc as (H1 & H2 & H3);
    (split_and!; [done..|]); [|done..].
  destruct (consistent_backs t s Hs) as [Hok HB]. unfold fetch_inputs, on_chain in He.
  destruct (with_cache _ _) as [r c] eqn:Hw. injection He as -> _. apply with_cache_ok in Hw as (u & Hw & _).
  eapply fetch_inputs_stands; [exact Hok|exact HB|done|done| |exact Hw]. by apply stands_more.
Qed.

(** Undoing the blocks of the best chain in a view. *)
Lemma verify_detach_at t f n nodes v s :
  consistent t s → down f n nodes → upto n t → shows t n s v →
  let '(r, s') := verify_detach new_max dbFetchUtxoEntryByHash nodes v s in
  consistent t s' ∧ s_db s' = s_db s ∧ c_index (s_chain s') = c_index (s_chain s) ∧
  match r with VOk (v', ds) => Forall2 (detached_as (d_blocks (s_db s))) nodes ds ∧ shows t f s v' | _ => True end.
Proof.
  intros Hs Hd. revert v s Hs. induction Hd as [|n p nodes Hp Hd IH]; intros v s Hs Hu Hv; cbn [verify_detach]; [by split_and!|].
  unfold mbind, CM_bind, reads, ret_res.
  destruct (dbFetchBlockByNode n (s_db s)) as [b|e|] eqn:Hb; [|done..].
  apply (fetch_block_at t) in Hb as (msg & Hmsg & ->); [|done]. destruct (negb _); [done|].
  pose proof (chain_valid_upto _ _ _ Hu (ca_valid _ _ (proj2 Hs))) as Hval.
  destruct (chain_valid_parent _ _ _ Hval Hp) as (Hvp & msg' & Hx). pose proof (vn_stored _ _ _ _ Hx) as Hst.
  rewrite Hmsg in Hst. injection Hst as <-. pose proof (vn_block _ _ _ _ Hx) as Hbv. set (b := mkBlock msg (n_height n)) in *.
  pose proof (fetch_inputs_at t n b v s Hs) as Hf.
  destruct (fetch_inputs _ _ _ _) as [[v1|e|] s1]; destruct Hf as (Hs1 & Hd1 & Hi1 & Hv1); try done;
    try (by destruct Hbv as [(? & ? & -> & _) _]); try (by eapply block_valid_inputs);
    try (apply Forall_forall; intros tx; apply (txs_valid_outputs _ _ _ tx (proj2 Hbv))).
  destruct (dbFetchSpendJournalEntry _ _) as [st|e|] eqn:Hj; [|done..].
  rewrite <- Hd1 in Hmsg. apply (fetch_journal_at t n p msg) in Hj as ->; [|done..]. rewrite Hd1 in Hmsg |- *.
  destruct Hv1 as [Hw1 Ho1]. rewrite (node_ledger_next _ n p msg Hp Hmsg) in Ho1.
  destruct (undo_block (dbFetchUtxoEntryByHash (c_db (s_chain s1))) b _ v1 _ (node_ledger_fits _ _ Hvp) Hbv Hw1 Ho1) as (v2 & Hun & Hv2).
  unfold undo_view. unfold journal_of. fold b. rewrite Hun. cbn [of_chain].
  assert (Hsh : shows t p s1 v2) by (unfold shows; rewrite Hd1; by apply stands_none).
  specialize (IH v2 s1 Hs1 (upto_trans _ _ _ (upto_next _ _ _ Hp (upto_refl _)) Hu) Hsh).
  destruct (verify_detach _ _ _ _ _) as [[[v3 ds]|e|] s2]; destruct IH as (H1 & H2 & H2' & H3);
    (split; [done|split; [congruence|split; [congruence|]]]); [|done..].
  unfold shows in *. rewrite Hd1 in *. destruct H3 as [H3 H4]. split; [|done]. constructor; [|done]. by exists p, msg.
Qed.

(** The check of one block of the other chain. *)
Definition verify_one (n : blockNode) (b : Block) (v : UtxoViewpoint) (known : bool) (rest : list blockNode) : CM UtxoViewpoint :=
  if known then
    view ← fetch_inputs new_max b v;
    '(view, _) ← ret_res (of_chain (connectTransactions b view None));
    mret view
  else
    r ← try (on_chain (checkConnectBlock new_max sched fuel n b v None));
    match r with
    | VOk (view, _) => set_status n statusValid;; mret view
    | VErr e =>
        (if is_rule r then set_status n statusValidateFailed;; mark_all statusInvalidAncestor rest
         else mret tt);;
        ret_res (VErr e)
    | VCrash => ret_res VCrash
    end.
Definition others_same (n : blockNode) (s s' : Chain) : Prop := ∀ m, n_hash m ≠ n_hash n →
  NodeStatus (c_index (s_chain s')) m = NodeStatus (c_index (s_chain s)) m.

(** The check of a block establishes that it can be connected. *)
Lemma check_at t n p msg v s :
  consistent t s → parent n = Some p → next_block (d_blocks (s_db s)) n p msg → shows t p s v →
  let b := mkBlock msg (n_height n) in
  let '(r, s') := on_chain (checkConnectBlock new_max sched fuel n b v None) s in
  consistent t s' ∧ s_db s' = s_db s ∧ c_index (s_chain s') = c_index (s_chain s) ∧
  match r with VOk (v', _) => block_valid b (node_ledger (d_blocks (s_db s)) p) ∧ shows t n s v' | _ => True end.
Proof.
  intros Hs Hp Hx Hv b. pose proof (nb_formed _ _ _ _ Hx) as Hwf. pose proof (next_block_txs _ _ _ _ Hx) as Hne.
  pose proof (checked_at t s _ Hs (checked_connect _ _ _ _ n b v None Hne (wf_inputs _ Hwf))) as Hc.
  pose proof (consistent_backs t s Hs) as HB.
  unfold on_chain in *. destruct (checkConnectBlock _ _ _ _ _ _ _ _) as [[[v' st]|e|] c] eqn:He; cbn [snd] in Hc;
    destruct Hc as (H1 & H2 & H3); (split; [done|split; [done|split; [done|]]]); [|done..].
  unfold shows. rewrite (node_ledger_next _ n p msg Hp (nb_stored _ _ _ _ Hx)).
  eapply checkConnectBlock_valid; [exact HB|exact Hv|done|exact Hwf| |exact He].
  intros op. apply (nb_fresh _ _ _ _ Hx p); constructor.
Qed.
Lemma verify_one_at t n p msg v s known rest :
  consistent t s → parent n = Some p → next_block (d_blocks (s_db s)) n p msg → shows t p s v →
  let b := mkBlock msg (n_height n) in
  (known = true → block_valid b (node_ledger (d_blocks (s_db s)) p)) →
  let '(r, s') := verify_one n b v known rest s in
  consistent t s' ∧ d_blocks (s_db s') = d_blocks (s_db s) ∧
  match r with
  | VOk v' => block_valid b (node_ledger (d_blocks (s_db s)) p) ∧ shows t n s v' ∧ others_same n s s'
  | _ => True
  end.
Proof.
  intros Hs Hp Hx Hv b Hk. pose proof (nb_formed _ _ _ _ Hx) as Hwf. unfold verify_one. destruct known.
  - pose proof (fetch_inputs_at t p b v s Hs (next_block_txs _ _ _ _ Hx) (wf_inputs _ Hwf) (wf_outputs _ Hwf) Hv) as Hf.
    unfold mbind, CM_bind. destruct (fetch_inputs _ _ _ _) as [[v1|e|] s1]; destruct Hf as (H1 & H2 & H3 & H4); [|by rewrite H2..].
    unfold ret_res. destruct (connectTransactions b v1 None) as [[v2 st]|e|] eqn:Ec; cbn [of_chain]; (split; [done|split; [by rewrite H2|]]); [|done..].
    unfold connectTransactions, mbind, ChainRes_bind in Ec. destruct (connect_loop _ _ _ _) as [[v3 st3]| |] eqn:El; [|done..].
    injection Ec as <- _. split_and!; [by apply Hk| |intros m _; by rewrite H3].
    unfold shows. rewrite (node_ledger_next _ n p msg Hp (nb_stored _ _ _ _ Hx)).
    exact (stands_connect_loop _ _ _ _ _ _ _ _ H4 (wf_outputs _ Hwf) El).
  - pose proof (check_at t n p msg v s Hs Hp Hx Hv) as Hc. cbv zeta in Hc. fold b in Hc. unfold mbind at 1, CM_bind at 1, try at 1.
    destruct (on_chain (checkConnectBlock _ _ _ _ _ _ _) s) as [r s1]. destruct Hc as (H1 & H2 & H3 & H4).
    assert (Hkeep : ∀ A (k : CM A), keeps core k → consistent t (snd (k s1)) ∧ d_blocks (s_db (snd (k s1))) = d_blocks (s_db s)).
    { intros A k Hk'. specialize (Hk' s1). split; [by eapply consistent_core|]. unfold core in Hk'. injection Hk' as _ _ _ -> _ _ _ _. by rewrite H2. }
    destruct r as [[v1 st]|e|].
    + specialize (Hkeep _ (set_status n statusValid) ltac:(repeat keeps_step)). cbn in Hkeep |- *. destruct H4 as [Hb Hsh], Hkeep.
      split_and!; [done..|]. intros m Hm. unfold NodeStatus. cbn. rewrite lookup_insert_ne by done. by rewrite H3.
    + match goal with |- context [?k s1] => specialize (Hkeep _ k ltac:(repeat keeps_step)); destruct (k s1) as [[?|?|] s2] eqn:Ek end;
        cbn [snd] in Hkeep; destruct Hkeep; [|done..]. by apply CM_bind_ok in Ek as (? & ? & _ & [? _]%ret_res_ok).
    + split_and!; [done|by rewrite H2|done].
Qed.

(** Checking the blocks of the other chain establishes that it is valid. *)
Lemma verify_attach_at t f n nodes v s :
  consistent t s → chain_valid (d_blocks (s_db s)) f → chain_stored (d_blocks (s_db s)) n →
  marks_right (d_blocks (s_db s)) (c_index (s_chain s)) n → steps n f nodes → shows t f s v →
  let '(r, s') := verify_attach new_max sched fuel nodes v s in
  consistent t s' ∧ d_blocks (s_db s') = d_blocks (s_db s) ∧
  match r with
  | VOk bs => Forall2 (attached_as (d_blocks (s_db s))) nodes bs ∧ chain_valid (d_blocks (s_db s)) n
  | _ => True
  end.
Proof.
  intros Hs Hf Hst Hmk Hsteps Hv.
  assert (Hmk' : ∀ m q msg, m ∈ nodes → parent m = Some q → d_blocks (s_db s) !! n_hash m = Some msg →
    KnownValid (NodeStatus (c_index (s_chain s)) m) = true → block_valid (mkBlock msg (n_height m)) (node_ledger (d_blocks (s_db s)) q)).
  { intros m q msg Hm. apply Hmk. by apply (proj1 (Forall_forall _ _) (proj2 (steps_upto _ _ _ Hsteps))). }
  clear Hmk. revert v s Hs Hf Hst Hmk' Hv. induction Hsteps as [|f m nodes Hp Hsteps IH]; intros v s Hs Hf Hst Hmk Hv; cbn [verify_attach]; [by split_and!|].
  unfold mbind at 1, CM_bind at 1, reads at 1. unfold mbind at 1, CM_bind at 1, ret_res at 1.
  destruct (dbFetchBlockByNode m (s_db s)) as [b|e|] eqn:Hb; [|done..].
  apply (fetch_block_at t) in Hb as (msg & Hmsg & ->); [|done]. unfold mbind at 1, CM_bind at 1, reads at 1.
  destruct (steps_upto _ _ _ Hsteps) as [Hum Hall].
  destruct (chain_stored_parent _ m f msg (chain_stored_upto _ _ _ Hum Hst) Hp Hmsg) as [_ Hx].
  pose proof (verify_one_at t m f msg v s (KnownValid (NodeStatus (c_index (s_chain s)) m)) nodes Hs Hp Hx Hv) as Hone. cbv zeta in Hone.
  specialize (Hone (Hmk m f msg (list_elem_of_here _ _) Hp Hmsg)). unfold verify_one in Hone. unfold mbind at 1, CM_bind at 1.
  match type of Hone with context [let '(_, _) := ?x in _] => destruct x as [[v1|e|] s1] end;
    destruct Hone as (Hs1 & Hd1 & Hone); [|done..].
  destruct Hone as (Hbv & Hsh & Hoth). unfold mbind, CM_bind. specialize (IH v1 s1 Hs1). unfold shows in *. rewrite Hd1 in IH.
  pose proof (next_chain _ _ _ _ Hf Hp Hx Hbv) as Hvm. specialize (IH Hvm Hst).
  assert (Hmk1 : ∀ k q msgk, k ∈ nodes → parent k = Some q → d_blocks (s_db s) !! n_hash k = Some msgk →
    KnownValid (NodeStatus (c_index (s_chain s1)) k) = true → block_valid (mkBlock msgk (n_height k)) (node_ledger (d_blocks (s_db s)) q)).
  { intros k q msgk Hk Hq Hmk' Hkv. apply (Hmk k q msgk); [by right|done|done|]. rewrite <- (Hoth k); [done|].
    destruct (steps_strict _ _ _ Hsteps k Hk) as (q' & Hq' & Hmu).
    destruct (chain_stored_parent _ k q' msgk (chain_stored_upto _ _ _ (proj2 (proj1 (Forall_forall _ _) Hall k Hk)) Hst) Hq' Hmk') as [_ Hxk].
    intros He. by apply (nb_new _ _ _ _ Hxk m Hmu). }
  specialize (IH Hmk1 Hsh).
  destruct (verify_attach _ _ _ _ _ _) as [[bs|e|] s2]; destruct IH as (H1 & H2 & H3); (split; [done|split; [congruence|]]); [|done..].
  destruct H3 as [H3 H4]. split; [|done]. constructor; [|done]. by exists msg.
Qed.

(** ** Reorganizing *)

Abbreviation verify_reorganization := (verifyReorganizationValidity new_max sched fuel dbFetchUtxoEntryByHash).
Abbreviation reorganize := (reorganizeChain new_max maps_memory maxTotalMemoryUsage sched fuel PruneBlocks
  index_ConnectBlock index_DisconnectBlock dbFetchUtxoEntryByHash).

(** The chain is where it was, the blocks are those of the nodes, and the new
    chain is valid. *)
Definition verified (t n : blockNode) (det att : list blockNode) (s : Chain)
    (x : VRes (list (Block * list SpentTxOut) * list Block) * Chain) : Prop :=
  consistent t (snd x) ∧ d_blocks (s_db (snd x)) = d_blocks (s_db s) ∧
  match fst x with
  | VOk (ds, bs) => Forall2 (detached_as (d_blocks (s_db s))) det ds ∧ Forall2 (attached_as (d_blocks (s_db s))) att bs ∧
      chain_valid (d_blocks (s_db s)) n
  | _ => True
  end.
(** What is known of a chain before it is checked. *)
Definition offered (n : blockNode) (s : Chain) : Prop :=
  linked n ∧ chain_stored (d_blocks (s_db s)) n ∧ marks_right (d_blocks (s_db s)) (c_index (s_chain s)) n.

Lemma verify_lists_at f t n det att v s :
  consistent t s → offered n s → down f t det → steps n f att → shows t t s v →
  verified t n det att s (('(view, detached) ← verify_detach new_max dbFetchUtxoEntryByHash det v;
    attached ← verify_attach new_max sched fuel att view; mret (detached, attached)) s).
Proof.
  intros Hs (_ & Hst & Hmk) Hdet Hatt Hv. pose proof (verify_detach_at t f t det v s Hs Hdet (upto_refl _) Hv) as H1.
  unfold mbind, CM_bind, verified.
  destruct (verify_detach _ _ _ _ _) as [[[v1 ds]|e|] s1]; destruct H1 as (Hs1 & Hd1 & Hi1 & Hf1); [|cbn; by rewrite Hd1..].
  destruct Hf1 as [Hf1 Hsh]. pose proof (verify_attach_at t f n att v1 s1 Hs1) as H2. unfold shows in *. rewrite Hd1, Hi1 in H2.
  assert (Hvf : chain_valid (d_blocks (s_db s)) f).
  { apply (chain_valid_upto _ f t); [|apply (proj2 Hs)]. clear -Hdet. induction Hdet; [constructor|by eapply upto_next]. }
  specialize (H2 Hvf Hst Hmk Hatt Hsh).
  destruct (verify_attach _ _ _ _ _ _) as [[bs|e|] s2]; destruct H2 as (Hs2 & Hd2 & Hf2); [|done..]. by destruct Hf2.
Qed.
(** The view that a check starts with. *)
Lemma shows_start t s h : shows t t s (SetBestHash h NewUtxoViewpoint).
Proof. apply stands_none. split; [split; intros op e; cbn; by rewrite lookup_empty|]. intros op _. unfold over. cbn. by rewrite lookup_empty. Qed.
Lemma verify_at f t n det att s :
  consistent t s → offered n s → down f t det → steps n f att →
  verified t n det att s (verify_reorganization det att s).
Proof.
  intros Hs Ho Hdet Hatt. pose proof (λ h, verify_lists_at f t n det att _ s Hs Ho Hdet Hatt (shows_start t s h)) as Hgo.
  assert (Htip : the_tip s = (VOk t, s)).
  { unfold the_tip. by rewrite (ca_view _ _ (proj2 Hs)), view_tip by apply (proj2 Hs). }
  assert (Hcheck : ∀ A (r : VRes A) k, (∀ a, verified t n det att s (k a s)) → verified t n det att s ((ret_res r ≫= k) s)).
  { intros A r k Hk. unfold mbind, CM_bind, ret_res. destruct r; [apply Hk|done..]. }
  unfold verifyReorganizationValidity. destruct det as [|d det]; [destruct att as [|a att]|];
    [|(unfold mbind at 1, CM_bind at 1; rewrite Htip; apply Hcheck; intros _; apply Hcheck; intros _; apply Hgo)..].
  inversion Hdet; inversion Hatt; subst. split_and!; [done..|]. cbn. split_and!; [done..|]. apply (proj2 Hs).
Qed.

Lemma reorganized now adjustedTime f t n det att s s' :
  consistent t s → offered n s → down f t det → steps n f att →
  reorganize now adjustedTime det att s = (VOk tt, s') → consistent n s'.
Proof.
  intros Hs Ho Hdet Hatt Hr. pose proof (verify_at f t n det att s Hs Ho Hdet Hatt) as Hver. unfold reorganizeChain in Hr.
  apply CM_bind_ok in Hr as ([ds bs] & s1 & He & Hr). rewrite He in Hver.
  destruct Hver as (Hs1 & Hb1 & Hf1 & Hf2 & Hv). cbn [fst snd] in *. apply CM_bind_ok in Hr as (t' & s2 & Ht & Hr).
  apply (the_tip_ok t) in Ht as [-> ->]; [|apply Hs1]. apply CM_bind_ok in Hr as ([] & s2 & Hd & Hr).
  apply (detach_all_at now f t det) in Hd as [Hs2 Hb2]; [|done|done| |by rewrite Hb1].
  - apply (attach_all_at now adjustedTime f n att) in Hr as [Hr _]; [done|done|done|apply Ho| |]; by rewrite Hb2, Hb1.
  - split; intros op e; cbn [entries SetBestHash NewUtxoViewpoint]; by rewrite lookup_empty.
Qed.

(** A reorganization that succeeds leaves the chain at the new tip, and
    one whose check fails leaves it at the old one: in both cases the view of
    the best chain, the journals and the unspent outputs, in the cache and in
    the database, are those of the blocks up to that tip. *)
Theorem reorganization now adjustedTime f t n det att s :
  consistent t s → offered n s → down f t det → steps n f att →
  (∀ s', reorganize now adjustedTime det att s = (VOk tt, s') → consistent n s') ∧
  (∀ e s', verify_reorganization det att s = (VErr e, s') →
     reorganize now adjustedTime det att s = (VErr e, s') ∧ consistent t s').
Proof.
  intros Hs Ho Hdet Hatt. split; [intros s' Hr; by apply (reorganized now adjustedTime f t n det att s)|].
  pose proof (verify_at f t n det att s Hs Ho Hdet Hatt) as Hver. intros e s' He. rewrite He in Hver.
  unfold reorganizeChain, mbind, CM_bind. rewrite He. by destruct Hver.
Qed.
End Facts.

(** ** Block chain: choosing the best chain, and recovering from a crash *)

(** ** Walks *)

Lemma detach_walk_ok f t : upto f t → down f t (detach_walk (Some f) t).
Proof.
  induction t as [par anc hs w g v b no tm m IHp _] using node_ind. set (nd := mkNode par anc hs w g v b no tm m) in *. intros Hu.
  change (detach_walk (Some f) nd) with
    (if opt_same (Some f) nd then [] else match par with Some p => nd :: detach_walk (Some f) p | None => [nd] end).
  destruct (opt_same (Some f) nd) eqn:Hs; [apply opt_same_eq in Hs as [= ->]; constructor|].
  inversion Hu as [|? p Hp Hu']; [subst; by rewrite (proj2 (opt_same_eq _ _) eq_refl) in Hs|]. subst. cbn in Hp. subst par.
  apply down_next with p; [done|by apply IHp].
Qed.
(** A walk that meets no invalid node ends at the fork. *)
Lemma attach_walk_ok bi f tp n acc inv l :
  upto f n → steps tp n acc → attach_walk bi (Some f) n acc = (inv, l) →
  if inv : bool then ∃ m, upto m n ∧ KnownInvalid (NodeStatus bi m) = true else steps tp f l.
Proof.
  revert acc. induction n as [par anc hs w g v b no tm m IHp _] using node_ind. set (nd := mkNode par anc hs w g v b no tm m) in *.
  intros acc Hu Hst. change (attach_walk bi (Some f) nd acc) with
    (if opt_same (Some f) nd then (false, acc) else if KnownInvalid (NodeStatus bi nd) then (true, acc)
     else match par with Some p => attach_walk bi (Some f) p (nd :: acc) | None => (false, nd :: acc) end).
  destruct (opt_same (Some f) nd) eqn:Hs; [apply opt_same_eq in Hs as [= ->]; by intros [= <- <-]|].
  destruct (KnownInvalid (NodeStatus bi nd)) eqn:Hi; [intros [= <- <-]; exists nd; split; [constructor|done]|].
  inversion Hu as [|? p Hp Hu']; [subst; by rewrite (proj2 (opt_same_eq _ _) eq_refl) in Hs|]. subst. cbn in Hp. subst par.
  intros Hw. apply IHp in Hw; [|done|by apply steps_next]. destruct inv; [|done]. destruct Hw as (m' & Hm & Hk).
  exists m'. split; [by eapply upto_next|done].
Qed.
Lemma nodes_above_ok f t n acc : upto f n → steps t n acc → ∃ l, nodes_above f n acc = Some l ∧ steps t f l.
Proof.
  revert acc. induction n as [par anc hs w g v b no tm m IHp _] using node_ind. set (nd := mkNode par anc hs w g v b no tm m) in *.
  intros acc Hu Hst. change (nodes_above f nd acc) with
    (if node_eqb nd f then Some acc else match par with Some p => nodes_above f p (nd :: acc) | None => None end).
  destruct (node_eqb nd f) eqn:Hs; [apply node_eqb_eq in Hs as ->; eauto|].
  inversion Hu as [|? p Hp Hu']; [subst; by rewrite (proj2 (node_eqb_eq _ _) eq_refl) in Hs|]. subst. cbn in Hp. subst par.
  apply IHp; [done|by apply steps_next].
Qed.

Section Best.
Context `{Crypto} `{Keys}.
Context (new_max : list Z → Z → Z) (maps_memory : list Z → Z) (maxTotalMemoryUsage : Z).
Context (sched : list txValidateItem → list txValidateItem) (fuel : nat).
Context (PruneBlocks : Z → gmap Hash MsgBlock → VRes (list Hash * gmap Hash MsgBlock)).
Context (index_ConnectBlock index_DisconnectBlock : Block → list SpentTxOut → VRes unit).
Context (dbFetchUtxoEntryByHash : utxo_db → Hash → ChainRes (option UtxoEntry)).

Definition known_bad (s : Chain) (n : blockNode) : Prop :=
  ∃ m, upto m n ∧ KnownInvalid (NodeStatus (c_index (s_chain s)) m) = true.

(** The nodes of a reorganization: those above the fork, or none when the new
    chain has a block that is known to be invalid. *)
Lemma getReorganizeNodes_ok t n s det att s' :
  consistent t s → linked n → n_height t + 1 < 2 ^ 31 → (∃ g, upto g n ∧ upto g t) →
  getReorganizeNodes n s = (VOk (det, att), s') →
  core s' = core s ∧ ((s' = s ∧ ∃ f, down f t det ∧ steps n f att) ∨ (det = [] ∧ att = [] ∧ known_bad s n)).
Proof.
  intros [_ Hc] Hn Ht (g & Hg1 & Hg2) Hr. split; [eapply keeps_ok; [apply core_getReorganizeNodes|done]|].
  unfold getReorganizeNodes in Hr. destruct (parent n) as [p|] eqn:Hp; [|done].
  apply CM_bind_ok in Hr as (bi & s1 & [= <- <-] & Hr). destruct (KnownInvalid _) eqn:Hk.
  { apply CM_bind_ok in Hr as (? & s1 & [= _ <-] & [= <- <- <-]). right. split_and!; [done|done|]. exists p.
    split; [eapply upto_next; [done|constructor]|done]. }
  apply CM_bind_ok in Hr as (view & s1 & [= <- <-] & Hr). rewrite (ca_view _ _ Hc) in Hr. cbv zeta in Hr.
  pose proof (findFork_ok n t Hn (ca_linked _ _ Hc) Ht) as Hf. destruct (findFork _ _) as [f|].
  2: { destruct (Hf g); apply upto_below; try done. apply Hc. }
  destruct Hf as (Hf1 & Hf2 & _). apply upto_below in Hf1; [|done]. apply upto_below in Hf2; [|apply Hc].
  destruct (attach_walk _ _ _ _) as [inv l] eqn:Hw. apply (attach_walk_ok _ _ n) in Hw; [|done|constructor].
  destruct inv.
  - apply CM_bind_ok in Hr as (? & s1 & [= _ <-] & [= <- <- <-]). by right.
  - rewrite view_tip in Hr by apply Hc. injection Hr as <- <- <-. left. split; [done|]. exists f. split; [by apply detach_walk_ok|done].
Qed.

Lemma try_ok {A} (m : CM A) s r s' : try m s = (VOk r, s') → m s = (r, s').
Proof. unfold try. by destruct (m s) as [[a|e|] s1]; intros [= <- <-]. Qed.
Lemma core_at {A} t (m : CM A) s a s' :
  keeps core m → consistent t s → m s = (VOk a, s') → consistent t s' ∧ d_blocks (s_db s') = d_blocks (s_db s).
Proof.
  intros Hk Hs Hm. apply (keeps_ok core) in Hm; [|done]. split; [by eapply consistent_core|]. unfold core in Hm. by injection Hm.
Qed.

(** The check of a block that extends the chain: the block is one that was
    checked before, or the check establishes that it can be connected. *)
Lemma extend_check_at t n msg h (fast : bool) s s' :
  consistent t s → parent n = Some t → next_block (d_blocks (s_db s)) n t msg →
  (fast = true → block_valid (mkBlock msg (n_height n)) (node_ledger (d_blocks (s_db s)) t)) →
  (if fast then mret tt else
     r ← try (on_chain (checkConnectBlock new_max sched fuel n (mkBlock msg (n_height n)) (SetBestHash h NewUtxoViewpoint) None));
     match r with
     | VOk _ => set_status n statusValid;; flushToDB
     | VErr e => (if is_rule r then set_status n statusValidateFailed;; flushToDB else mret tt);; ret_res (VErr e)
     | VCrash => ret_res VCrash
     end) s = (VOk tt, s') →
  consistent t s' ∧ d_blocks (s_db s') = d_blocks (s_db s) ∧ chain_valid (d_blocks (s_db s)) n.
Proof.
  intros Hs Hp Hx Hk Hr. pose proof (ca_valid _ _ (proj2 Hs)) as Hvt. destruct fast.
  { injection Hr as <-. split_and!; [done..|]. eapply next_chain; eauto. }
  apply CM_bind_ok in Hr as (r & s1 & He%try_ok & Hr).
  pose proof (check_at new_max sched fuel t n t msg _ s Hs Hp Hx (shows_start t s h)) as Hc. cbv zeta in Hc. rewrite He in Hc.
  destruct Hc as (H1 & H2 & _ & H3). destruct r as [[v st]|e|].
  - apply (core_at t) in Hr as [Hr1 Hr2]; [split_and!; [done|by rewrite Hr2, H2|]|repeat keeps_step|done].
    eapply next_chain; [done|done|done|apply H3].
  - by apply CM_bind_ok in Hr as (? & ? & _ & [? _]%ret_res_ok).
  - done.
Qed.

(** C8. Choosing the best chain.  Let the chain state be that of the blocks up
    to the tip, with pruning off, and let a block be offered whose chain is
    stored, each block well formed by itself (sane, each transaction spending
    only outputs of earlier ones of the block, values and scripts that fit),
    each making outputs that were not there before on the chain, with
    different hashes, and with the blocks that are marked as valid being so.
    When [connectBestChain] reports that the block is on the main chain, then
    every block of the chain up to it spends only unspent outputs, and the
    chain state is that of the blocks up to it, whether it extends the best
    chain or replaces a part of it; or nothing has changed and the block has
    an ancestor that is known to be invalid.  When it reports a side chain,
    nothing has changed and the block has no more work than the tip. *)
Theorem best_chain now adjustedTime n p t msg flags s r s' :
  consistent t s → n_height t + 1 < 2 ^ 31 → offered n s →
  parent n = Some p → d_blocks (s_db s) !! n_hash n = Some msg → PrevBlock (Header msg) = n_hash p →
  (has_behavior flags BFFastAdd = true → block_valid (mkBlock msg (n_height n)) (node_ledger (d_blocks (s_db s)) p)) →
  (n_hash p = n_hash t → p = t) → (∃ g, upto g n ∧ upto g t) →
  connectBestChain new_max maps_memory maxTotalMemoryUsage sched fuel PruneBlocks index_ConnectBlock index_DisconnectBlock
    dbFetchUtxoEntryByHash now adjustedTime n (mkBlock msg (n_height n)) flags s = (VOk r, s') →
  if r : bool then (consistent n s' ∧ chain_valid (d_blocks (s_db s')) n) ∨ (consistent t s' ∧ known_bad s n)
  else consistent t s' ∧ ChainNode.workSum n <= ChainNode.workSum t.
Proof.
  intros Hs Ht Ho Hp Hmsg Hprev Hfast Hinj Hg Hr. pose proof Ho as (Hn & Hst & Hmk).
  assert (Hgoal : if r then consistent n s' ∨ (consistent t s' ∧ known_bad s n)
    else consistent t s' ∧ ChainNode.workSum n <= ChainNode.workSum t).
  2: { destruct r; [|done]. destruct Hgoal as [Hc|?]; [left; split; [done|apply Hc]|by right]. }
  destruct (chain_stored_parent _ n p msg Hst Hp Hmsg) as [_ Hx]. unfold connectBestChain in Hr.
  apply CM_bind_ok in Hr as (t' & s1 & Htip & Hr). apply (the_tip_ok t) in Htip as [-> ->]; [|apply Hs]. cbv zeta in Hr.
  destruct (bool_decide_reflect (PrevBlock (Header (b_msg (mkBlock msg (n_height n)))) = n_hash t)) as [Hext|_].
  - cbn [b_msg] in Hext. rewrite Hprev in Hext. specialize (Hinj Hext) as ->.
    apply CM_bind_ok in Hr as (bi & s1 & [= <- <-] & Hr).
    apply CM_bind_ok in Hr as ([] & s1 & Hchk & Hr). apply (extend_check_at t n msg) in Hchk as (Hs1 & Hb1 & Hv); [|done..|].
    2: { intros [?|Hkv]%orb_true_iff; [auto|]. by apply (Hmk n t msg (upto_refl _)). }
    apply CM_bind_ok in Hr as (? & s2 & [_ <-]%ret_res_ok & Hr). apply CM_bind_ok in Hr as (st & s2 & Hcc & Hr).
    destruct (cache_connect_next new_max t n msg (Some []) s1 (proj1 Hs1)) as (c & He & Hu1); [by rewrite Hb1|done|by rewrite Hb1|].
    rewrite He in Hcc. injection Hcc as <- <-. apply CM_bind_ok in Hr as (rc & s3 & Hcb%try_ok & Hr).
    destruct rc as [[]|e|]; [|by repeat apply CM_bind_ok in Hr as (? & ? & _ & Hr)|done].
    rewrite <- Hb1 in Hv, Hmsg.
    destruct (connectBlock_at _ _ _ _ now adjustedTime n t msg _ s3 Hu1 (chain_at_utxo _ _ _ _ (proj2 Hs1)) Hp Hn Hv Hmsg Hcb)
      as [Hs3 _].
    apply CM_bind_ok in Hr as (bi & s4 & [= <- <-] & Hr). apply CM_bind_ok in Hr as (? & s5 & Hfl & [= <- <-]).
    left. apply (core_at n) in Hfl as [Hfl _]; [done|repeat keeps_step|done].
  - destruct (Z.leb_spec (ChainNode.workSum n) (ChainNode.workSum t)) as [Hw|Hw].
    + apply CM_bind_ok in Hr as (view & s1 & [= <- <-] & Hr). destruct (findFork _ _); [|done]. by injection Hr as <- <-.
    + apply CM_bind_ok in Hr as ([det att] & s1 & Hnodes & Hr). apply (getReorganizeNodes_ok t) in Hnodes as [Hk1 Hlists]; [|done..].
      assert (Hs1 : consistent t s1) by by eapply consistent_core.
      apply CM_bind_ok in Hr as (rr & s2 & Hre%try_ok & Hr). apply CM_bind_ok in Hr as (? & s3 & Hfl & Hr).
      destruct rr as [[]|e|]; [|done..]. injection Hr as <- <-. destruct Hlists as [(-> & f & Hd & Ha)|(-> & -> & Hbad)].
      * left. apply (core_at n) in Hfl as [Hfl _]; [done|auto with keeps|]. by eapply reorganized.
      * right. split; [|done]. apply CM_bind_ok in Hre as ([ds bs] & s4 & [= <- <- <-] & Hre).
        apply CM_bind_ok in Hre as (t' & s4 & Htip & Hre). apply (the_tip_ok t) in Htip as [-> ->]; [|apply Hs1].
        apply CM_bind_ok in Hre as (? & s4 & [= _ <-] & [= <-]). by apply (core_at t) in Hfl as [Hfl _]; [|auto with keeps|].
Qed.

(** ** After a crash *)

(** What the database must say for the unspent outputs to be rebuilt. *)
Definition recoverable (t : blockNode) (s : Chain) : Prop :=
  chain_at t s ∧ db_ok (c_db (s_chain s)) ∧
  ∃ a, upto a t ∧ utxoStateConsistency (c_db (s_chain s)) = Some (n_hash a) ∧
    agree (db_ledger (c_db (s_chain s))) (node_ledger (d_blocks (s_db s)) a).
Definition empty_cache (u : utxoCache) : Prop := unique (cachedEntries u) ∧ ∀ op, ms_get op (cachedEntries u) = None.
(** What is in memory is lost. *)
Definition restart (u : utxoCache) (s : Chain) : Chain := set_chain (set_utxo (c_db (s_chain s)) u) s.

Lemma utxo_recoverable t u s : chain_at t s → upto u t → utxo_at u s → recoverable t s.
Proof.
  intros Hc Hu [A1 A2 (a & Ha & Hb & Hd)]. split_and!; [done|apply A1|]. exists a. split_and!; [by eapply upto_trans|done|done].
Qed.
Lemma empty_at s : db_ok (c_db (s_chain s)) → empty_cache (c_utxoCache (s_chain s)) →
  ∀ a, utxoStateConsistency (c_db (s_chain s)) = Some (n_hash a) →
    agree (db_ledger (c_db (s_chain s))) (node_ledger (d_blocks (s_db s)) a) → utxo_at a s.
Proof.
  intros Hdb [Hu He] a Hc Hd. split; [|intros op Hop; unfold cache_ledger; rewrite He; by apply Hd|exists a; split_and!; [constructor|done..]].
  split; [done|done|]. intros op o. by rewrite He.
Qed.
Lemma set_lastFlush_at u t h now s : utxo_at u s → chain_at t s →
  let s' := set_chain (set_lastFlush h now) s in
  utxo_at u s' ∧ chain_at t s' ∧ lastFlushHash (c_utxoCache (s_chain s')) = h.
Proof. intros [[B1 B2 B3] A2 A3] []. split_and!; split; try done. Qed.

Lemma replay_at now interrupted t a l s :
  steps t a l → utxo_at a s → chain_at t s →
  let '(r, s') := replay new_max maps_memory maxTotalMemoryUsage now interrupted l s in
  chain_at t s' ∧ (∃ u, upto u t ∧ utxo_at u s') ∧
  match r with VOk _ => utxo_at t s' | VErr _ => ∃ n, interrupted n = true | VCrash => False end.
Proof.
  intros Hst. revert s. induction Hst as [|a n l Hp Hst IH]; intros s Hu Hc; cbn [replay].
  { split_and!; [done|exists t; split; [constructor|done]|done]. }
  destruct (steps_upto _ _ _ Hst) as [Hut _]. pose proof (chain_valid_upto _ _ _ Hut (ca_valid _ _ Hc)) as Hv.
  destruct (chain_valid_parent _ _ _ Hv Hp) as (_ & msg & Hx). pose proof (vn_stored _ _ _ _ Hx) as Hmsg.
  unfold mbind, CM_bind, reads, ret_res, dbFetchBlockByNode. rewrite Hmsg.
  destruct (cache_connect_next new_max a n msg None s Hu Hv Hp Hmsg) as (c & -> & Hu1).
  set (s1 := set_chain _ s) in *. assert (Hc1 : chain_at t s1) by by apply chain_at_utxo.
  destruct (cache_flush_at maps_memory maxTotalMemoryUsage n now FlushIfNeeded s1 Hu1) as (d & c2 & He & Hu2).
  unfold update. rewrite He. set (s2 := set_chain _ s1) in *. assert (Hc2 : chain_at t s2) by by apply chain_at_utxo.
  destruct (interrupted n) eqn:Hi; [|by apply IH]. split_and!; [done|eauto|eauto].
Qed.

Lemma recovered now interrupted t u s :
  recoverable t s → empty_cache u → n_height t + 1 < 2 ^ 31 →
  (∀ a, upto a t → LookupNode (c_index (s_chain s)) (n_hash a) = Some a ∧ length (n_hash a) = HashSize) →
  let '(r, s') := InitConsistentState new_max maps_memory maxTotalMemoryUsage now interrupted t (restart u s) in
  recoverable t s' ∧
  match r with
  | VOk _ => consistent t s' ∧ lastFlushHash (c_utxoCache (s_chain s')) = n_hash t
  | VErr _ => ∃ n, interrupted n = true
  | VCrash => False
  end.
Proof.
  intros (Hc & Hdb & a & Ha & Hcon & Hd) Hem Ht Hix. unfold InitConsistentState. set (s0 := restart u s).
  assert (Hc0 : chain_at t s0) by by apply chain_at_utxo.
  assert (Hu0 : utxo_at a s0) by by apply empty_at.
  assert (Hdone : ∀ s1, utxo_at t s1 → chain_at t s1 → let s' := set_chain (set_lastFlush (n_hash t) now) s1 in
    recoverable t s' ∧ consistent t s' ∧ lastFlushHash (c_utxoCache (s_chain s')) = n_hash t).
  { intros s1 Hu1 Hc1. destruct (set_lastFlush_at t t (n_hash t) now s1 Hu1 Hc1) as (H1 & H2 & H3).
    split_and!; [by eapply utxo_recoverable; [|constructor|]|done|done]. }
  destruct (Hix a Ha) as [Hlk Hlen]. unfold mbind, CM_bind, reads at 1.
  change (utxoStateConsistency (c_db (s_chain s0))) with (utxoStateConsistency (c_db (s_chain s))). rewrite Hcon, Hlen, Nat.eqb_refl.
  cbn [negb]. case_bool_decide as Hh.
  - apply (hash_inj (d_blocks (s_db s)) a t t) in Hh as ->; [|apply Hc|done|constructor]. by apply Hdone.
  - unfold reads. change (c_index (s_chain s0)) with (c_index (s_chain s)). rewrite Hlk, (ca_view _ _ Hc0), findFork_ancestor by (done || apply Hc).
    destruct (nodes_above_ok a t t []) as (l & -> & Hst); [done|constructor|].
    pose proof (replay_at now interrupted t a l s0 Hst Hu0 Hc0) as Hr.
    destruct (replay _ _ _ _ _ _ _) as [[x|e|] s1]; destruct Hr as (Hc1 & (w & Hw & Huw) & Hres); [|by split; [eapply utxo_recoverable|]|done].
    by apply Hdone.
Qed.

(** C9. Recovery.  A consistent state can be recovered when its memory is
    lost: [InitConsistentState] with an empty cache rebuilds the unspent
    outputs of the tip from a database whose unspent outputs are those of some
    ancestor of it.  However it is interrupted, the database stays one that
    can be recovered. *)
Theorem crash_recovery now interrupted t u s :
  empty_cache u → n_height t + 1 < 2 ^ 31 →
  (∀ a, upto a t → LookupNode (c_index (s_chain s)) (n_hash a) = Some a ∧ length (n_hash a) = HashSize) →
  (consistent t s → recoverable t s) ∧
  (recoverable t s →
   let '(r, s') := InitConsistentState new_max maps_memory maxTotalMemoryUsage now interrupted t (restart u s) in
   recoverable t s' ∧
   match r with
   | VOk _ => consistent t s' ∧ lastFlushHash (c_utxoCache (s_chain s')) = n_hash t
   | VErr _ => ∃ n, interrupted n = true
   | VCrash => False
   end).
Proof.
  intros Hem Ht Hix. split; [intros [Hu Hc]; eapply utxo_recoverable; [done|constructor|done]|].
  intros Hr. by apply recovered.
Qed.
End Best.
