(* ===== verification/Mempool.v ===== *)
(** * The memory pool

    btcd/mempool (mempool.go, policy.go, error.go) and the priorities of
    btcd/mining/policy.go: the transactions that wait for a block, the orphans
    that wait for their parents, and the rules by which both are accepted,
    replaced and removed.

    An operation runs under the lock of the pool, from state to state.  What
    it takes from outside is in the class [Env]: the readings of the clock and
    the order in which a map is iterated, both by the number of the reading,
    and [math.Pow].  What the callbacks of the configuration answer during an
    operation is the record [Config].  Descriptions of errors are left out;
    the address index and the fee estimator, which are told of what is added
    and removed, are not modelled. *)

From Stdlib Require Import ZArith Lia.
From stdpp Require Import base numbers list strings gmap.
From S2P Require Import Prelude GoFloat ScriptNum WireBase WireTx ScriptStack ScriptToken Sighash WireMsg Taproot ScriptEngine ScriptExec ScriptStandard ChainCompress ChainUtxo ChainError ChainNode ChainParams ChainRules ChainConnect.

Open Scope Z_scope.

(** ** Errors (error.go) *)

Definition RejectInvalid : Z := 0x10.
Definition RejectObsolete : Z := 0x11.
Definition RejectDuplicate : Z := 0x12.
Definition RejectNonstandard : Z := 0x40.
Definition RejectDust : Z := 0x41.
Definition RejectInsufficientFee : Z := 0x42.
Definition RejectCheckpoint : Z := 0x43.

(** The errors of the pool: a rule error of its own or of the chain, and the
    other errors that the chain returns. *)
Inductive PoolErr := TxRuleError (code : Z) | ChainRuleError (c : RuleCode) | PlainError (e : ChainErr).

(** [MCrash] is a panic. *)
Inductive MRes (A : Type) := MOk (a : A) | MErr (e : PoolErr) | MCrash.
Arguments MOk {A} _.
Arguments MErr {A} _.
Arguments MCrash {A}.
#[export] Instance MRes_ret : MRet MRes := @MOk.
#[export] Instance MRes_bind : MBind MRes := λ A B f m,
  match m with MOk a => f a | MErr e => MErr e | MCrash => MCrash end.

Definition txRuleError {A} (code : Z) : MRes A := MErr (TxRuleError code).
Definition refuse_if (b : bool) (code : Z) : MRes unit := if b then txRuleError code else MOk tt.
(** A rule error of the chain is wrapped, another one is passed on. *)
Definition chain_error (e : ChainErr) : PoolErr :=
  match e with RuleError c => ChainRuleError c | _ => PlainError e end.
Definition of_rules {A} (r : VRes A) : MRes A :=
  match r with VOk a => MOk a | VErr e => MErr (chain_error e) | VCrash => MCrash end.
(** An error that is returned as it is. *)
Definition pass_on {A} (r : VRes A) : MRes A :=
  match r with VOk a => MOk a | VErr e => MErr (PlainError e) | VCrash => MCrash end.

Definition chain_code (c : RuleCode) : Z :=
  match c with
  | ErrDuplicateBlock => RejectDuplicate
  | ErrBlockVersionTooOld => RejectObsolete
  | ErrCheckpointTimeTooOld | ErrDifficultyTooLow | ErrBadCheckpoint | ErrForkTooOld => RejectCheckpoint
  | _ => RejectInvalid
  end.
Definition extractRejectCode (e : PoolErr) : Z * bool :=
  match e with
  | TxRuleError code => (code, true)
  | ChainRuleError c | PlainError (RuleError c) => (chain_code c, true)
  | PlainError _ => (RejectInvalid, false)
  end.
(** The code that a peer is sent; [None] is no error. *)
Definition ErrToRejectErr (e : option PoolErr) : Z :=
  match e with
  | None => RejectInvalid
  | Some e => let '(code, found) := extractRejectCode e in if found : bool then code else RejectInvalid
  end.

(** ** Priorities (mining/policy.go) *)

Definition UnminedHeight : Z := 0x7fffffff.

Definition minInt (a b : Z) : Z := if a <? b then a else b.
Definition input_age (utxoView : UtxoViewpoint) (nextBlockHeight : Z) (total : f64) (ti : TxIn) : f64 :=
  match LookupEntry utxoView (PreviousOutPoint ti) with
  | None => total
  | Some entry =>
      if IsSpent entry then total else
      let originHeight := blockHeight entry in
      let inputAge := if originHeight =? UnminedHeight then 0 else int32 (nextBlockHeight - originHeight) in
      f64_add total (f64_of_Z (int64 (amount entry * inputAge)))
  end.
Definition calcInputValueAge (tx : MsgTx) (utxoView : UtxoViewpoint) (nextBlockHeight : Z) : f64 :=
  fold_left (input_age utxoView nextBlockHeight) (TxIns tx) (f64_of_Z 0).
Definition CalcPriority (tx : MsgTx) (utxoView : UtxoViewpoint) (nextBlockHeight : Z) : f64 :=
  let overhead := total (λ ti, 41 + minInt 110 (zlen (SignatureScript ti))) (TxIns tx) in
  let serializedTxSize := SerializeSize tx in
  if serializedTxSize <=? overhead then f64_of_Z 0
  else f64_div (calcInputValueAge tx utxoView nextBlockHeight) (f64_of_Z (serializedTxSize - overhead)).
(** A coin of a day's age in a transaction of 250 bytes. *)
Definition MinHighPriority : f64 := f64_div (f64_of_Z (SatoshiPerBitcoin * 144)) (f64_of_Z 250).

(** ** Policy (policy.go) *)

Definition maxStandardP2SHSigOps : Z := 15.
Definition maxStandardTxWeight : Z := 400000.
Definition maxStandardSigScriptSize : Z := 1650.
Definition DefaultMinRelayTxFee : Z := 1000.
Definition maxStandardMultiSigKeys : Z := 3.

Definition calcMinRequiredTxRelayFee (serializedSize minRelayTxFee : Z) : Z :=
  let minFee := Z.quot (int64 (serializedSize * minRelayTxFee)) 1000 in
  let minFee := if (minFee =? 0) && (0 <? minRelayTxFee) then minRelayTxFee else minFee in
  if (minFee <? 0) || (MaxSatoshi <? minFee) then MaxSatoshi else minFee.

(** An entry that is not there is a nil pointer. *)
Fixpoint checkInputs_standard (ins : list TxIn) (utxoView : UtxoViewpoint) : MRes unit :=
  match ins with
  | [] => MOk tt
  | ti :: ins =>
      match LookupEntry utxoView (PreviousOutPoint ti) with
      | None => MCrash
      | Some entry =>
          let originPkScript := pkScript entry in
          match GetScriptClass originPkScript with
          | ScriptHashTy =>
              refuse_if (maxStandardP2SHSigOps <? GetPreciseSigOpCount (SignatureScript ti) originPkScript)
                RejectNonstandard
          | NonStandardTy => txRuleError RejectNonstandard
          | _ => MOk tt
          end;;
          checkInputs_standard ins utxoView
      end
  end.
Definition checkInputsStandard (tx : MsgTx) (utxoView : UtxoViewpoint) : MRes unit :=
  checkInputs_standard (TxIns tx) utxoView.

Definition checkPkScriptStandard (pkScript : list byte) (scriptClass : ScriptClass) : MRes unit :=
  match scriptClass with
  | MultiSigTy =>
      match CalcMultiSigStats pkScript with
      | Ok (numPubKeys, numSigs) =>
          refuse_if (numPubKeys <? 1) RejectNonstandard;;
          refuse_if (maxStandardMultiSigKeys <? numPubKeys) RejectNonstandard;;
          refuse_if (numSigs <? 1) RejectNonstandard;;
          refuse_if (numPubKeys <? numSigs) RejectNonstandard
      | Err _ => txRuleError RejectNonstandard
      | Crash => MCrash
      end
  | NonStandardTy => txRuleError RejectNonstandard
  | _ => MOk tt
  end.

Definition GetDustThreshold (txOut : TxOut) : Z :=
  let totalSize := TxOut_SerializeSize txOut + 41 in
  let totalSize := if IsWitnessProgram (PkScript txOut) then totalSize + 107 / WitnessScaleFactor
                   else totalSize + 107 in
  3 * totalSize.
Definition IsDust (txOut : TxOut) (minRelayTxFee : Z) : bool :=
  if IsUnspendable (PkScript txOut) then true
  else Z.quot (int64 (Value txOut * 1000)) (GetDustThreshold txOut) <? minRelayTxFee.

(** The code of an error is kept. *)
Definition keep_code (r : MRes unit) : MRes unit :=
  match r with
  | MErr e => let '(code, found) := extractRejectCode e in
      txRuleError (if found : bool then code else RejectNonstandard)
  | _ => r
  end.
Fixpoint check_sig_scripts (ins : list TxIn) : MRes unit :=
  match ins with
  | [] => MOk tt
  | ti :: ins =>
      refuse_if (maxStandardSigScriptSize <? zlen (SignatureScript ti)) RejectNonstandard;;
      refuse_if (negb (IsPushOnlyScript (SignatureScript ti))) RejectNonstandard;;
      check_sig_scripts ins
  end.
(** The number of outputs that only carry data. *)
Fixpoint check_pk_scripts (outs : list TxOut) (minRelayTxFee numNullDataOutputs : Z) : MRes Z :=
  match outs with
  | [] => MOk numNullDataOutputs
  | out :: outs =>
      let scriptClass := GetScriptClass (PkScript out) in
      keep_code (checkPkScriptStandard (PkScript out) scriptClass);;
      if bool_decide (scriptClass = NullDataTy) then check_pk_scripts outs minRelayTxFee (numNullDataOutputs + 1)
      else refuse_if (IsDust out minRelayTxFee) RejectDust;; check_pk_scripts outs minRelayTxFee numNullDataOutputs
  end.
Definition CheckTransactionStandard (tx : MsgTx) (height medianTimePast minRelayTxFee maxTxVersion : Z)
    : MRes unit :=
  refuse_if ((maxTxVersion <? Version tx) || (Version tx <? 1)) RejectNonstandard;;
  refuse_if (negb (IsFinalizedTransaction tx height medianTimePast)) RejectNonstandard;;
  refuse_if (maxStandardTxWeight <? GetTransactionWeight tx) RejectNonstandard;;
  check_sig_scripts (TxIns tx);;
  numNullDataOutputs ← check_pk_scripts (TxOuts tx) minRelayTxFee 0;
  refuse_if (1 <? numNullDataOutputs) RejectNonstandard.

Definition GetTxVirtualSize (tx : MsgTx) : Z :=
  Z.quot (GetTransactionWeight tx + (WitnessScaleFactor - 1)) WitnessScaleFactor.

(** ** The pool (mempool.go) *)

Definition DefaultBlockPrioritySize : Z := 50000.
Definition second : Z := 1000000000.
Definition orphanTTL : Z := 15 * 60 * second.
Definition orphanExpireScanInterval : Z := 5 * 60 * second.
Definition MaxRBFSequence : Z := 0xfffffffd.
Definition MaxReplacementEvictions : Z := 100.
Definition MinStandardTxNonWitnessSize : Z := 65.

Record Policy := mkPolicy {
  MaxTxVersion : Z; DisableRelayPriority : bool; AcceptNonStd : bool; FreeTxRelayLimit : f64;
  MaxOrphanTxs : Z; MaxOrphanTxSize : Z; MaxSigOpCostPerTx : Z; MinRelayTxFee : Z; RejectReplacement : bool }.
Record Config := mkConfig {
  cfg_Policy : Policy;
  cfg_ChainParams : Params;
  FetchUtxoView : MsgTx → VRes UtxoViewpoint;
  BestHeight : Z;
  MedianTimePast : Z;
  CalcSequenceLock : MsgTx → UtxoViewpoint → VRes SequenceLock;
  IsDeploymentActive : Z → VRes bool }.

Record TxDesc := mkTxDesc {
  td_Tx : MsgTx; td_Added : Z; td_Height : Z; td_Fee : Z; td_FeePerKB : Z; td_StartingPriority : f64 }.
Record orphanTx := mkOrphan { o_tx : MsgTx; o_tag : Z; o_expiration : Z }.
(** Times are in nanoseconds, the last two in seconds; [mp_readings] counts
    what was read from the environment. *)
Record TxPool := mkTxPool {
  mp_pool : gmap Hash TxDesc;
  mp_orphans : gmap Hash orphanTx;
  mp_orphansByPrev : gmap OutPoint (gmap Hash MsgTx);
  mp_outpoints : gmap OutPoint MsgTx;
  mp_pennyTotal : f64;
  mp_nextExpireScan : Z;
  mp_lastPennyUnix : Z;
  mp_lastUpdated : Z;
  mp_readings : nat }.

Class Env := {
  clock : nat → Z;
  range_order : nat → list Hash → list Hash;
  math_Pow : f64 → f64 → f64 }.

Definition set_pool (f : gmap Hash TxDesc → gmap Hash TxDesc) (s : TxPool) : TxPool :=
  mkTxPool (f (mp_pool s)) (mp_orphans s) (mp_orphansByPrev s) (mp_outpoints s) (mp_pennyTotal s)
    (mp_nextExpireScan s) (mp_lastPennyUnix s) (mp_lastUpdated s) (mp_readings s).
Definition set_orphans (f : gmap Hash orphanTx → gmap Hash orphanTx) (s : TxPool) : TxPool :=
  mkTxPool (mp_pool s) (f (mp_orphans s)) (mp_orphansByPrev s) (mp_outpoints s) (mp_pennyTotal s)
    (mp_nextExpireScan s) (mp_lastPennyUnix s) (mp_lastUpdated s) (mp_readings s).
Definition set_byPrev (f : gmap OutPoint (gmap Hash MsgTx) → gmap OutPoint (gmap Hash MsgTx)) (s : TxPool) : TxPool :=
  mkTxPool (mp_pool s) (mp_orphans s) (f (mp_orphansByPrev s)) (mp_outpoints s) (mp_pennyTotal s)
    (mp_nextExpireScan s) (mp_lastPennyUnix s) (mp_lastUpdated s) (mp_readings s).
Definition set_outpoints (f : gmap OutPoint MsgTx → gmap OutPoint MsgTx) (s : TxPool) : TxPool :=
  mkTxPool (mp_pool s) (mp_orphans s) (mp_orphansByPrev s) (f (mp_outpoints s)) (mp_pennyTotal s)
    (mp_nextExpireScan s) (mp_lastPennyUnix s) (mp_lastUpdated s) (mp_readings s).
Definition set_penny (total : f64) (unix : Z) (s : TxPool) : TxPool :=
  mkTxPool (mp_pool s) (mp_orphans s) (mp_orphansByPrev s) (mp_outpoints s) total
    (mp_nextExpireScan s) unix (mp_lastUpdated s) (mp_readings s).
Definition set_nextExpireScan (t : Z) (s : TxPool) : TxPool :=
  mkTxPool (mp_pool s) (mp_orphans s) (mp_orphansByPrev s) (mp_outpoints s) (mp_pennyTotal s)
    t (mp_lastPennyUnix s) (mp_lastUpdated s) (mp_readings s).
Definition set_lastUpdated (t : Z) (s : TxPool) : TxPool :=
  mkTxPool (mp_pool s) (mp_orphans s) (mp_orphansByPrev s) (mp_outpoints s) (mp_pennyTotal s)
    (mp_nextExpireScan s) (mp_lastPennyUnix s) t (mp_readings s).
Definition read_env (s : TxPool) : TxPool :=
  mkTxPool (mp_pool s) (mp_orphans s) (mp_orphansByPrev s) (mp_outpoints s) (mp_pennyTotal s)
    (mp_nextExpireScan s) (mp_lastPennyUnix s) (mp_lastUpdated s) (S (mp_readings s)).

(** A step that may fail keeps what it changed before. *)
Definition PM (A : Type) : Type := TxPool → MRes A * TxPool.
#[export] Instance PM_ret : MRet PM := λ A a s, (MOk a, s).
#[export] Instance PM_bind : MBind PM := λ A B f m s,
  match m s with
  | (MOk a, s') => f a s'
  | (MErr e, s') => (MErr e, s')
  | (MCrash, s') => (MCrash, s')
  end.
Definition give {A} (r : MRes A) : PM A := λ s, (r, s).
Definition looks {A} (f : TxPool → A) : PM A := λ s, (MOk (f s), s).
Definition does (f : TxPool → TxPool) : PM unit := λ s, (MOk tt, f s).

(** Transactions by their hashes. *)
Abbreviation Relatives := (gmap Hash MsgTx).

Section Pool.
Context `{Crypto} `{Keys} `{Env}.

(** [time.Now()] *)
Definition now (s : TxPool) : Z := clock (mp_readings s).
Definition Unix (t : Z) : Z := t / second.

Definition spent_outpoints (tx : MsgTx) : list OutPoint := map PreviousOutPoint (TxIns tx).
Definition own_outpoints (tx : MsgTx) : list OutPoint := map fst (ChainUtxo.outpoints tx).

(** The keys of a map in the order of an iteration. *)
Definition range_keys {A} (m : gmap Hash A) (s : TxPool) : list Hash :=
  range_order (mp_readings s) (map fst (map_to_list m)).

(** *** Orphans *)

Definition unlink (txHash : Hash) (s : TxPool) (op : OutPoint) : TxPool :=
  match mp_orphansByPrev s !! op with
  | None => s
  | Some orphans =>
      let orphans := delete txHash orphans in
      if (size orphans =? 0)%nat then set_byPrev (delete op) s else set_byPrev (insert op orphans) s
  end.
(** [for _, orphan := range mp.orphansByPrev[prevOut]]: entries that are
    deleted before they are reached are not produced. *)
Definition range_orphans (f : MsgTx → TxPool → TxPool) (s : TxPool) (prevOut : OutPoint) : TxPool :=
  let keys := range_keys (default ∅ (mp_orphansByPrev s !! prevOut)) s in
  fold_left (λ s h, match mp_orphansByPrev s !! prevOut ≫= (.!! h) with
                    | Some orphan => f orphan s
                    | None => s
                    end) keys (read_env s).
Fixpoint remove_orphan (fuel : nat) (tx : MsgTx) (removeRedeemers : bool) (s : TxPool) : TxPool :=
  match fuel with
  | O => s
  | S fuel =>
      let txHash := TxHash tx in
      match mp_orphans s !! txHash with
      | None => s
      | Some otx =>
          let s := fold_left (unlink txHash) (spent_outpoints (o_tx otx)) s in
          let s := if removeRedeemers
                   then fold_left (range_orphans (λ orphan, remove_orphan fuel orphan true)) (own_outpoints tx) s
                   else s in
          set_orphans (delete txHash) s
      end
  end.
Definition removeOrphan (tx : MsgTx) (removeRedeemers : bool) (s : TxPool) : TxPool :=
  remove_orphan (S (S (size (mp_orphans s)))) tx removeRedeemers s.
Definition RemoveOrphan (tx : MsgTx) (s : TxPool) : TxPool := removeOrphan tx false s.

(** The loops over all the orphans; the second number counts removals. *)
Definition range_all_orphans (p : orphanTx → bool) (s : TxPool) : Z * TxPool :=
  let keys := range_keys (mp_orphans s) s in
  fold_left (λ '(n, s) h, match mp_orphans s !! h with
                          | Some otx => if p otx then (n + 1, removeOrphan (o_tx otx) true s) else (n, s)
                          | None => (n, s)
                          end) keys (0, read_env s).
Definition RemoveOrphansByTag (tag : Z) (s : TxPool) : Z * TxPool :=
  range_all_orphans (λ otx, o_tag otx =? tag) s.

Definition limitNumOrphans (cfg : Config) (s : TxPool) : TxPool :=
  let t := now s in
  let s := read_env s in
  let s := if mp_nextExpireScan s <? t
           then set_nextExpireScan (t + orphanExpireScanInterval)
                  (snd (range_all_orphans (λ otx, o_expiration otx <? t) s))
           else s in
  if Z.of_nat (size (mp_orphans s)) + 1 <=? MaxOrphanTxs (cfg_Policy cfg) then s else
  match range_keys (mp_orphans s) s with
  | [] => s
  | h :: _ =>
      match mp_orphans s !! h with
      | Some otx => removeOrphan (o_tx otx) false (read_env s)
      | None => s
      end
  end.

Definition link (tx : MsgTx) (s : TxPool) (op : OutPoint) : TxPool :=
  set_byPrev (λ m, <[op := <[TxHash tx := tx]> (default ∅ (m !! op))]> m) s.
Definition addOrphan (cfg : Config) (tx : MsgTx) (tag : Z) (s : TxPool) : TxPool :=
  if MaxOrphanTxs (cfg_Policy cfg) <=? 0 then s else
  let s := limitNumOrphans cfg s in
  let t := now s in
  let s := set_orphans (insert (TxHash tx) (mkOrphan tx tag (t + orphanTTL))) (read_env s) in
  fold_left (link tx) (spent_outpoints tx) s.
Definition maybeAddOrphan (cfg : Config) (tx : MsgTx) (tag : Z) : PM unit :=
  give (refuse_if (MaxOrphanTxSize (cfg_Policy cfg) <? SerializeSize tx) RejectNonstandard);;
  does (addOrphan cfg tx tag).

Definition removeOrphanDoubleSpends (tx : MsgTx) (s : TxPool) : TxPool :=
  fold_left (range_orphans (λ orphan, removeOrphan orphan true)) (spent_outpoints tx) s.

Definition isTransactionInPool (s : TxPool) (hash : Hash) : bool := bool_decide (is_Some (mp_pool s !! hash)).
Definition isOrphanInPool (s : TxPool) (hash : Hash) : bool := bool_decide (is_Some (mp_orphans s !! hash)).
Definition haveTransaction (s : TxPool) (hash : Hash) : bool := isTransactionInPool s hash || isOrphanInPool s hash.

(** *** Transactions *)

Definition drop_tx (txHash : Hash) (s : TxPool) : TxPool :=
  match mp_pool s !! txHash with
  | None => s
  | Some txDesc =>
      let s := set_outpoints (λ m, foldl (λ m op, delete op m) m (spent_outpoints (td_Tx txDesc))) s in
      let s := set_pool (delete txHash) s in
      set_lastUpdated (Unix (now s)) (read_env s)
  end.
Fixpoint remove_tx (fuel : nat) (tx : MsgTx) (removeRedeemers : bool) (s : TxPool) : TxPool :=
  match fuel with
  | O => s
  | S fuel =>
      let s := if removeRedeemers
               then fold_left (λ s prevOut, match mp_outpoints s !! prevOut with
                                            | Some txRedeemer => remove_tx fuel txRedeemer true s
                                            | None => s
                                            end) (own_outpoints tx) s
               else s in
      drop_tx (TxHash tx) s
  end.
Definition removeTransaction (tx : MsgTx) (removeRedeemers : bool) (s : TxPool) : TxPool :=
  remove_tx (S (size (mp_pool s))) tx removeRedeemers s.
Definition RemoveTransaction (tx : MsgTx) (removeRedeemers : bool) (s : TxPool) : TxPool :=
  removeTransaction tx removeRedeemers s.
Definition RemoveDoubleSpends (tx : MsgTx) (s : TxPool) : TxPool :=
  fold_left (λ s op, match mp_outpoints s !! op with
                     | Some txRedeemer =>
                         if bool_decide (TxHash txRedeemer = TxHash tx) then s
                         else removeTransaction txRedeemer true s
                     | None => s
                     end) (spent_outpoints tx) s.

(** The division by the size cannot be by zero: a transaction has a size. *)
Definition addTransaction (utxoView : UtxoViewpoint) (tx : MsgTx) (height fee : Z) (s : TxPool) : TxDesc * TxPool :=
  let txD := mkTxDesc tx (now s) height fee (Z.quot (int64 (fee * 1000)) (GetTxVirtualSize tx))
               (CalcPriority tx utxoView height) in
  let s := set_pool (insert (TxHash tx) txD) (read_env s) in
  let s := set_outpoints (λ m, foldl (λ m op, <[op := tx]> m) m (spent_outpoints tx)) s in
  (txD, set_lastUpdated (Unix (now s)) (read_env s)).

(** *** Relatives in the pool *)

(** The loop of [signalsReplacement] over the inputs, with the transactions
    that are known not to signal; [rec] is the call for a parent. *)
Fixpoint signals_inputs (rec : MsgTx → gset Hash → bool * gset Hash) (s : TxPool) (ins : list TxIn)
    (cache : gset Hash) : bool * gset Hash :=
  match ins with
  | [] => (false, cache)
  | ti :: ins =>
      if Sequence ti <=? MaxRBFSequence then (true, cache) else
      let hash := op_Hash (PreviousOutPoint ti) in
      match mp_pool s !! hash with
      | None => signals_inputs rec s ins cache
      | Some unconfirmedAncestor =>
          if bool_decide (hash ∈ cache) then signals_inputs rec s ins cache else
          let '(signals, cache) := rec (td_Tx unconfirmedAncestor) cache in
          if signals : bool then (true, cache) else signals_inputs rec s ins ({[hash]} ∪ cache)
      end
  end.
Fixpoint signals_fuel (fuel : nat) (s : TxPool) (tx : MsgTx) (cache : gset Hash) : bool * gset Hash :=
  match fuel with
  | O => (false, cache)
  | S fuel => signals_inputs (signals_fuel fuel s) s (TxIns tx) cache
  end.
Definition signalsReplacement (s : TxPool) (tx : MsgTx) : bool :=
  fst (signals_fuel (S (size (mp_pool s))) s tx ∅).

(** A loop over the transactions that a step leads to: it collects them and
    what is found from each of them, once for every hash. *)
Fixpoint relatives_loop (rec : MsgTx → gmap Hash Relatives → Relatives * gmap Hash Relatives)
    (nexts : list MsgTx) (found : Relatives) (cache : gmap Hash Relatives) : Relatives * gmap Hash Relatives :=
  match nexts with
  | [] => (found, cache)
  | next :: nexts =>
      let found := <[TxHash next := next]> found in
      let '(more, cache) :=
        match cache !! TxHash next with
        | Some more => (more, cache)
        | None => let '(more, cache) := rec next cache in (more, <[TxHash next := more]> cache)
        end in
      relatives_loop rec nexts (more ∪ found) cache
  end.
Definition parents (s : TxPool) (tx : MsgTx) : list MsgTx :=
  omap (λ op, td_Tx <$> mp_pool s !! op_Hash op) (spent_outpoints tx).
Definition redeemers (s : TxPool) (tx : MsgTx) : list MsgTx :=
  omap (λ op, mp_outpoints s !! op) (own_outpoints tx).
Fixpoint relatives (fuel : nat) (step : MsgTx → list MsgTx) (tx : MsgTx) (cache : gmap Hash Relatives)
    : Relatives * gmap Hash Relatives :=
  match fuel with
  | O => (∅, cache)
  | S fuel => relatives_loop (relatives fuel step) (step tx) ∅ cache
  end.
Definition txAncestors (s : TxPool) (tx : MsgTx) : Relatives :=
  fst (relatives (S (size (mp_pool s))) (parents s) tx ∅).
Definition txDescendants (s : TxPool) (tx : MsgTx) : Relatives :=
  fst (relatives (S (size (mp_pool s))) (redeemers s) tx ∅).
Definition txConflicts (s : TxPool) (tx : MsgTx) : Relatives :=
  foldl (λ conflicts op, match mp_outpoints s !! op with
                         | None => conflicts
                         | Some conflict => txDescendants s conflict ∪ <[TxHash conflict := conflict]> conflicts
                         end) ∅ (spent_outpoints tx).

Definition CheckSpend (s : TxPool) (op : OutPoint) : option MsgTx := mp_outpoints s !! op.
Definition FetchTransaction (s : TxPool) (txHash : Hash) : option MsgTx := td_Tx <$> mp_pool s !! txHash.

(** *** Acceptance *)

Fixpoint check_double_spends (cfg : Config) (s : TxPool) (ops : list OutPoint) (isReplacement : bool) : MRes bool :=
  match ops with
  | [] => MOk isReplacement
  | op :: ops =>
      match mp_outpoints s !! op with
      | None => check_double_spends cfg s ops isReplacement
      | Some conflict =>
          refuse_if (RejectReplacement (cfg_Policy cfg) || negb (signalsReplacement s conflict)) RejectDuplicate;;
          check_double_spends cfg s ops true
      end
  end.
Definition checkPoolDoubleSpend (cfg : Config) (s : TxPool) (tx : MsgTx) : MRes bool :=
  check_double_spends cfg s (spent_outpoints tx) false.

Definition add_from_pool (s : TxPool) (v : UtxoViewpoint) (prevOut : OutPoint) : UtxoViewpoint :=
  match spendable_entry v prevOut with
  | Some _ => v
  | None =>
      match mp_pool s !! op_Hash prevOut with
      | Some poolTxDesc => AddTxOut (td_Tx poolTxDesc) (op_Index prevOut) UnminedHeight v
      | None => v
      end
  end.
Definition fetchInputUtxos (cfg : Config) (s : TxPool) (tx : MsgTx) : VRes UtxoViewpoint :=
  utxoView ← FetchUtxoView cfg tx;
  VOk (fold_left (add_from_pool s) (spent_outpoints tx) utxoView).

(** The loop over the transactions to be replaced; one that is not in the
    pool would be a nil pointer.  The sum wraps. *)
Fixpoint check_conflicts (s : TxPool) (conflicts : list (Hash * MsgTx)) (txFeeRate conflictsFee : Z)
    (conflictsParents : gset Hash) : MRes (Z * gset Hash) :=
  match conflicts with
  | [] => MOk (conflictsFee, conflictsParents)
  | (hash, conflict) :: conflicts =>
      match mp_pool s !! hash with
      | None => MCrash
      | Some d =>
          refuse_if (txFeeRate <=? td_FeePerKB d) RejectInsufficientFee;;
          check_conflicts s conflicts txFeeRate (int64 (conflictsFee + td_Fee d))
            (list_to_set (map op_Hash (spent_outpoints conflict)) ∪ conflictsParents)
      end
  end.
(** The order of the iterations over the maps does not matter to the
    result. *)
Definition validateReplacement (cfg : Config) (s : TxPool) (tx : MsgTx) (txFee : Z) : MRes Relatives :=
  let conflicts := txConflicts s tx in
  refuse_if (MaxReplacementEvictions <? Z.of_nat (size conflicts)) RejectNonstandard;;
  refuse_if (existsb (λ h, bool_decide (is_Some (conflicts !! h))) (map fst (map_to_list (txAncestors s tx))))
    RejectInvalid;;
  let txSize := GetTxVirtualSize tx in
  let txFeeRate := Z.quot (int64 (txFee * 1000)) txSize in
  '(conflictsFee, conflictsParents) ← check_conflicts s (map_to_list conflicts) txFeeRate 0 ∅;
  let minFee := calcMinRequiredTxRelayFee txSize (MinRelayTxFee (cfg_Policy cfg)) in
  refuse_if (txFee <? int64 (conflictsFee + minFee)) RejectInsufficientFee;;
  refuse_if (existsb (λ op, bool_decide (op_Hash op ∉ conflictsParents) && isTransactionInPool s (op_Hash op))
               (spent_outpoints tx)) RejectInvalid;;
  MOk conflicts.

Definition validateSegWitDeployment (cfg : Config) (tx : MsgTx) : MRes unit :=
  if negb (HasWitness tx) then MOk tt else
  segwitActive ← pass_on (IsDeploymentActive cfg (Z.of_nat DeploymentSegwit));
  refuse_if (negb segwitActive) RejectNonstandard.
Definition validateStandardness (cfg : Config) (tx : MsgTx) (nextBlockHeight medianTimePast : Z)
    (utxoView : UtxoViewpoint) : MRes unit :=
  if AcceptNonStd (cfg_Policy cfg) then MOk tt else
  keep_code (CheckTransactionStandard tx nextBlockHeight medianTimePast (MinRelayTxFee (cfg_Policy cfg))
               (MaxTxVersion (cfg_Policy cfg)));;
  keep_code (checkInputsStandard tx utxoView).
Definition validateSigCost (cfg : Config) (tx : MsgTx) (utxoView : UtxoViewpoint) : MRes unit :=
  sigOpCost ← of_rules (GetSigOpCost tx false utxoView true true);
  refuse_if (negb (sigOpCost <=? MaxSigOpCostPerTx (cfg_Policy cfg))) RejectNonstandard.

(** The decay of the rate limiter: [1.0 - 1.0/600.0], an exact constant that is
    rounded once, to the power of the seconds since the last free transaction. *)
Definition decay : f64 := f64_div (f64_of_Z 599) (f64_of_Z 600).
Definition free_limit (cfg : Config) : f64 :=
  f64_mul (f64_mul (FreeTxRelayLimit (cfg_Policy cfg)) (f64_of_Z 10)) (f64_of_Z 1000).
Definition validateRelayFeeMet (cfg : Config) (tx : MsgTx) (txFee txSize : Z) (utxoView : UtxoViewpoint)
    (nextBlockHeight : Z) (isNew rateLimit : bool) : PM unit :=
  let minFee := calcMinRequiredTxRelayFee txSize (MinRelayTxFee (cfg_Policy cfg)) in
  give (refuse_if ((DefaultBlockPrioritySize - 1000 <=? txSize) && (txFee <? minFee)) RejectInsufficientFee);;
  if minFee <=? txFee then mret tt else
  if negb isNew && negb rateLimit then mret tt else
  give (refuse_if (isNew && negb (DisableRelayPriority (cfg_Policy cfg)) &&
          f_le (CalcPriority tx utxoView nextBlockHeight) MinHighPriority) RejectInsufficientFee);;
  nowUnix ← looks (λ s, Unix (now s));
  does read_env;;
  does (λ s, set_penny (f64_mul (mp_pennyTotal s) (math_Pow decay (f64_of_Z (nowUnix - mp_lastPennyUnix s)))) nowUnix s);;
  pennyTotal ← looks mp_pennyTotal;
  give (refuse_if (f_ge pennyTotal (free_limit cfg)) RejectInsufficientFee);;
  does (λ s, set_penny (f64_add (mp_pennyTotal s) (f64_of_Z txSize)) (mp_lastPennyUnix s) s).

Record MempoolAcceptResult := mkAcceptResult {
  ar_TxFee : Z; ar_TxSize : Z; ar_Conflicts : Relatives; ar_MissingParents : list Hash;
  ar_utxoView : UtxoViewpoint; ar_bestHeight : Z }.

Fixpoint check_own_outputs (ops : list OutPoint) (utxoView : UtxoViewpoint) : MRes UtxoViewpoint :=
  match ops with
  | [] => MOk utxoView
  | prevOut :: ops =>
      refuse_if (bool_decide (is_Some (spendable_entry utxoView prevOut))) RejectDuplicate;;
      check_own_outputs ops (RemoveEntry prevOut utxoView)
  end.
(** The entries that are nil or spent. *)
Definition missing_parents (utxoView : UtxoViewpoint) : list Hash :=
  map (op_Hash ∘ fst) (List.filter (λ p, IsSpent (snd p)) (map_to_list (entries utxoView))) ++
  map op_Hash (elements (nilEntries utxoView)).

Section Accept.
Context (sched : list txValidateItem → list txValidateItem) (script_fuel : nat).

Definition checkMempoolAcceptance (cfg : Config) (tx : MsgTx) (isNew rateLimit rejectDupOrphans : bool)
    : PM MempoolAcceptResult :=
  let txHash := TxHash tx in
  give (validateSegWitDeployment cfg tx);;
  s ← looks id;
  give (refuse_if (isTransactionInPool s txHash || (rejectDupOrphans && isOrphanInPool s txHash)) RejectDuplicate);;
  give (refuse_if (SerializeSizeStripped tx <? MinStandardTxNonWitnessSize) RejectNonstandard);;
  give (of_rules (CheckTransactionSanity tx));;
  give (refuse_if (IsCoinBaseTx tx) RejectInvalid);;
  let bestHeight := BestHeight cfg in
  let nextBlockHeight := int32 (bestHeight + 1) in
  let medianTimePast := MedianTimePast cfg in
  isReplacement ← give (checkPoolDoubleSpend cfg s tx);
  utxoView ← give (of_rules (fetchInputUtxos cfg s tx));
  utxoView ← give (check_own_outputs (own_outpoints tx) utxoView);
  match missing_parents utxoView with
  | (_ :: _) as missingParents => mret (mkAcceptResult 0 0 ∅ missingParents NewUtxoViewpoint 0)
  | [] =>
      txFee ← give (of_rules (CheckTransactionInputs tx nextBlockHeight utxoView (cfg_ChainParams cfg)));
      give (validateStandardness cfg tx nextBlockHeight medianTimePast utxoView);;
      sequenceLock ← give (of_rules (CalcSequenceLock cfg tx utxoView));
      give (refuse_if (negb (SequenceLockActive sequenceLock nextBlockHeight medianTimePast)) RejectNonstandard);;
      give (validateSigCost cfg tx utxoView);;
      let txSize := GetTxVirtualSize tx in
      validateRelayFeeMet cfg tx txFee txSize utxoView nextBlockHeight isNew rateLimit;;
      conflicts ← (if isReplacement : bool then give (validateReplacement cfg s tx txFee) else mret ∅);
      give (of_rules (ValidateTransactionScripts sched script_fuel tx utxoView StandardVerifyFlags));;
      mret (mkAcceptResult txFee txSize conflicts [] utxoView bestHeight)
  end.
(** Under a read lock in the code. *)
Definition CheckMempoolAcceptance (cfg : Config) (tx : MsgTx) : PM MempoolAcceptResult :=
  checkMempoolAcceptance cfg tx true true true.

Definition remove_conflicts (conflicts : Relatives) (s : TxPool) : TxPool :=
  let keys := range_keys conflicts s in
  fold_left (λ s h, match conflicts !! h with
                    | Some conflict => removeTransaction conflict false s
                    | None => s
                    end) keys (read_env s).
(** The missing parents, or the descriptor of the transaction. *)
Definition maybeAcceptTransaction (cfg : Config) (tx : MsgTx) (isNew rateLimit rejectDupOrphans : bool)
    : PM (list Hash * option TxDesc) :=
  r ← checkMempoolAcceptance cfg tx isNew rateLimit rejectDupOrphans;
  match ar_MissingParents r with
  | (_ :: _) as missing => mret (missing, None)
  | [] =>
      does (remove_conflicts (ar_Conflicts r));;
      (λ s, let '(txD, s) := addTransaction (ar_utxoView r) tx (ar_bestHeight r) (ar_TxFee r) s in
            (MOk ([], Some txD), s)) : PM (list Hash * option TxDesc)
  end.
Definition MaybeAcceptTransaction (cfg : Config) (tx : MsgTx) (isNew rateLimit : bool)
    : PM (list Hash * option TxDesc) :=
  maybeAcceptTransaction cfg tx isNew rateLimit true.

(** The orphans that spend an output, until one is accepted or refused. *)
Fixpoint try_orphans (cfg : Config) (prevOut : OutPoint) (keys : list Hash) : PM (option (MsgTx * TxDesc)) :=
  match keys with
  | [] => mret None
  | h :: keys => λ s,
      match mp_orphansByPrev s !! prevOut ≫= (.!! h) with
      | None => try_orphans cfg prevOut keys s
      | Some tx =>
          match maybeAcceptTransaction cfg tx true true false s with
          | (MCrash, s) => (MCrash, s)
          | (MErr _, s) => (MOk None, removeOrphan tx true s)
          | (MOk (_, Some txD), s) => (MOk (Some (tx, txD)), removeOrphan tx false s)
          | (MOk (_, None), s) => try_orphans cfg prevOut keys s
          end
      end
  end.
Fixpoint process_outputs (cfg : Config) (prevOuts : list OutPoint) : PM (list (MsgTx * TxDesc)) :=
  match prevOuts with
  | [] => mret []
  | prevOut :: prevOuts =>
      orphans ← looks (λ s, mp_orphansByPrev s !! prevOut);
      accepted ← match orphans with
                 | None => mret None
                 | Some orphans =>
                     keys ← looks (range_keys orphans);
                     does read_env;; try_orphans cfg prevOut keys
                 end;
      rest ← process_outputs cfg prevOuts;
      mret (option_list accepted ++ rest)
  end.
Fixpoint process_list (fuel : nat) (cfg : Config) (processList : list MsgTx) (acceptedTxns : list TxDesc)
    : PM (list TxDesc) :=
  match fuel with
  | O => mret acceptedTxns
  | S fuel =>
      match processList with
      | [] => mret acceptedTxns
      | processItem :: processList =>
          accepted ← process_outputs cfg (own_outpoints processItem);
          process_list fuel cfg (processList ++ map fst accepted) (acceptedTxns ++ map snd accepted)
      end
  end.
Definition processOrphans (cfg : Config) (acceptedTx : MsgTx) : PM (list TxDesc) :=
  n ← looks (λ s, size (mp_orphans s));
  acceptedTxns ← process_list (S (S n)) cfg [acceptedTx] [];
  does (removeOrphanDoubleSpends acceptedTx);;
  does (λ s, fold_left (λ s txD, removeOrphanDoubleSpends (td_Tx txD) s) acceptedTxns s);;
  mret acceptedTxns.
Definition ProcessOrphans (cfg : Config) (acceptedTx : MsgTx) : PM (list TxDesc) := processOrphans cfg acceptedTx.

Definition ProcessTransaction (cfg : Config) (tx : MsgTx) (allowOrphan rateLimit : bool) (tag : Z)
    : PM (list TxDesc) :=
  '(missingParents, txD) ← maybeAcceptTransaction cfg tx true rateLimit true;
  match missingParents with
  | [] => newTxs ← processOrphans cfg tx; mret (option_list txD ++ newTxs)
  | _ :: _ =>
      if negb allowOrphan then give (txRuleError RejectDuplicate)
      else maybeAddOrphan cfg tx tag;; mret []
  end.
End Accept.

(** *** Queries *)

Definition Count (s : TxPool) : nat := size (mp_pool s).
Definition TxHashes (s : TxPool) : list Hash := range_keys (mp_pool s) s.
Definition TxDescs (s : TxPool) : list TxDesc := omap (λ h, mp_pool s !! h) (range_keys (mp_pool s) s).
Definition LastUpdated (s : TxPool) : Z := mp_lastUpdated s * second.

Definition New (t : Z) : TxPool := mkTxPool ∅ ∅ ∅ ∅ (f64_of_Z 0) (t + orphanExpireScanInterval) 0 0 0.
End Pool.
