(* ===== verification/MempoolFacts.v ===== *)
(** * The memory pool: its invariant

    What holds of the maps of the pool in every state: the index of spent
    outputs is that of the transactions in the pool, so no two of them spend
    the same output; the index of the orphans is that of the orphans; no
    transaction is in both; there are no more orphans than allowed. *)

From Stdlib Require Import ZArith Lia.
From stdpp Require Import base numbers list strings gmap.
From S2P Require Import Prelude GoFloat ScriptNum WireBase WireTx ScriptStack ScriptToken Sighash WireMsg Taproot ScriptEngine ScriptExec ScriptStandard ChainCompress ChainUtxo ChainError ChainStoreFacts ChainNode ChainParams ChainRules ChainConnect ChainSupply Mempool.

Open Scope Z_scope.

Create HintDb mp.

Section Facts.
Context `{CR : Crypto} `{KS : Keys} `{EN : Env}.

(** ** The transactions in the pool *)

Definition in_pool (s : TxPool) (t : MsgTx) : Prop := ∃ d, mp_pool s !! TxHash t = Some d ∧ td_Tx d = t.

Record pool_ok (s : TxPool) : Prop := mkPoolOk {
  pk_hash : ∀ h d, mp_pool s !! h = Some d → TxHash (td_Tx d) = h;
  pk_out : ∀ op t, mp_outpoints s !! op = Some t ↔ in_pool s t ∧ op ∈ spent_outpoints t }.

Lemma in_pool_inj s t t' : in_pool s t → in_pool s t' → TxHash t = TxHash t' → t = t'.
Proof. intros (d & Hd & <-) (d' & Hd' & <-) E. rewrite E in Hd. by simplify_eq. Qed.
Lemma pool_in_pool s h d : pool_ok s → mp_pool s !! h = Some d → in_pool s (td_Tx d) ∧ TxHash (td_Tx d) = h.
Proof. intros Hs Hd. pose proof (pk_hash s Hs h d Hd) as E. split; [|done]. exists d. by rewrite E. Qed.
(** Two transactions of the pool do not spend the same output. *)
Lemma no_double_spend s t t' op :
  pool_ok s → in_pool s t → in_pool s t' → op ∈ spent_outpoints t → op ∈ spent_outpoints t' → t = t'.
Proof.
  intros Hs Ht Ht' Ho Ho'. pose proof (proj2 (pk_out s Hs op t) (conj Ht Ho)) as E.
  pose proof (proj2 (pk_out s Hs op t') (conj Ht' Ho')) as E'. rewrite E in E'. by simplify_eq.
Qed.

Lemma lookup_delete_all (ops : list OutPoint) (m : gmap OutPoint MsgTx) op :
  foldl (λ m op, delete op m) m ops !! op = if decide (op ∈ ops) then None else m !! op.
Proof.
  revert m. induction ops as [|o ops IH]; intros m; cbn [foldl]; [by rewrite decide_False by set_solver|].
  rewrite IH. destruct (decide (op ∈ ops)); [by rewrite decide_True by set_solver|].
  destruct (decide (op = o)) as [->|]; [rewrite lookup_delete_eq, decide_True by set_solver; done|].
  rewrite lookup_delete_ne by done. by rewrite decide_False by set_solver.
Qed.
Lemma lookup_insert_all (ops : list OutPoint) t (m : gmap OutPoint MsgTx) op :
  foldl (λ m op, <[op := t]> m) m ops !! op = if decide (op ∈ ops) then Some t else m !! op.
Proof.
  revert m. induction ops as [|o ops IH]; intros m; cbn [foldl]; [by rewrite decide_False by set_solver|].
  rewrite IH. destruct (decide (op ∈ ops)); [by rewrite decide_True by set_solver|].
  destruct (decide (op = o)) as [->|]; [rewrite lookup_insert_eq, decide_True by set_solver; done|].
  rewrite lookup_insert_ne by done. by rewrite decide_False by set_solver.
Qed.

Lemma drop_tx_pool h s : mp_pool (drop_tx h s) = delete h (mp_pool s).
Proof. unfold drop_tx. destruct (mp_pool s !! h) eqn:E; [done|]. by rewrite delete_id. Qed.
Lemma in_pool_drop h s t : in_pool (drop_tx h s) t ↔ in_pool s t ∧ TxHash t ≠ h.
Proof.
  unfold in_pool. rewrite drop_tx_pool. split.
  - intros (d & [Hne Hd]%lookup_delete_Some & <-). eauto.
  - intros [(d & Hd & <-) Hne]. exists d. by rewrite lookup_delete_ne.
Qed.
Lemma drop_tx_ok h s : pool_ok s → pool_ok (drop_tx h s).
Proof.
  intros Hs. split.
  - intros k d. rewrite drop_tx_pool. intros [_ Hd]%lookup_delete_Some. by apply (pk_hash s Hs).
  - intros op t. rewrite in_pool_drop. unfold drop_tx. destruct (mp_pool s !! h) as [d|] eqn:Hd.
    + cbn. rewrite lookup_delete_all. destruct (pool_in_pool s h d Hs Hd) as [Hin Hh]. case_decide as Ho.
      * split; [done|]. intros [[Ht Hne] Hop]. destruct Hne.
        by rewrite (no_double_spend s t (td_Tx d) op).
      * rewrite (pk_out s Hs). split; [|tauto]. intros [Ht Hop]. split; [|done]. split; [done|].
        intros E. rewrite (in_pool_inj s t (td_Tx d)) in Hop; [done|done|done|by rewrite E].
    + rewrite (pk_out s Hs). split; [|tauto]. intros [Ht Hop]. split; [|done]. split; [done|].
      intros E. destruct Ht as (d & Hd' & _). congruence.
Qed.
Lemma add_tx_ok v t height fee s :
  pool_ok s → mp_pool s !! TxHash t = None → (∀ op, op ∈ spent_outpoints t → mp_outpoints s !! op = None) →
  pool_ok (snd (addTransaction v t height fee s)).
Proof.
  intros Hs Hnew Hfree. set (d := fst (addTransaction v t height fee s)).
  assert (∀ t', in_pool (snd (addTransaction v t height fee s)) t' ↔ t' = t ∨ in_pool s t') as Hin.
  { intros t'. unfold in_pool. cbn. destruct (decide (TxHash t' = TxHash t)) as [E|E].
    - rewrite E, lookup_insert_eq. split; [intros (? & [= <-] & <-); by left|]. intros [-> | (d' & Hd' & _)]; [eauto|congruence].
    - rewrite lookup_insert_ne by done. split; [by right|]. intros [-> |?]; [done|done]. }
  split.
  - intros k d'. cbn. intros [[<- <-]|[_ Hd]]%lookup_insert_Some; [done|]. by apply (pk_hash s Hs).
  - intros op t'. rewrite Hin. cbn. rewrite lookup_insert_all. case_decide as Ho.
    + split; [intros [= <-]; auto|]. intros [[-> |Ht'] Hop]; [done|]. 
      specialize (Hfree op Ho). rewrite (proj2 (pk_out s Hs op t') (conj Ht' Hop)) in Hfree. done.
    + rewrite (pk_out s Hs). split; [tauto|]. intros [[-> |Ht'] Hop]; [done|done].
Qed.

(** What an operation on one half leaves alone. *)
Definition orphan_half (s : TxPool) := (mp_orphans s, mp_orphansByPrev s).
Definition pool_half (s : TxPool) := (mp_pool s, mp_outpoints s).

Lemma add_tx_spec v t height fee s :
  let '(d, s') := addTransaction v t height fee s in
  td_Tx d = t ∧ td_Fee d = fee ∧ mp_pool s' = <[TxHash t := d]> (mp_pool s) ∧
  orphan_half s' = orphan_half s.
Proof. done. Qed.
Lemma pool_half_ok s s' : pool_half s' = pool_half s → pool_ok s → pool_ok s'.
Proof.
  intros [= E1 E2] Hs. split.
  - rewrite E1. apply (pk_hash s Hs).
  - intros op t. rewrite E2. unfold in_pool. rewrite E1. apply (pk_out s Hs).
Qed.
(** Folds keep what their steps keep. *)
Lemma fold_left_keeps {A X} (f : TxPool → X) (g : TxPool → A → TxPool) l s :
  (∀ a s, f (g s a) = f s) → f (fold_left g l s) = f s.
Proof. intros Hg. revert s. induction l as [|a l IH]; intros s; [done|]. cbn. by rewrite IH, Hg. Qed.
Lemma fold_left_inv {A} (P : TxPool → Prop) (g : TxPool → A → TxPool) l s :
  (∀ a s, a ∈ l → P s → P (g s a)) → P s → P (fold_left g l s).
Proof.
  revert s. induction l as [|a l IH]; intros s Hg Hs; [done|]. cbn. apply IH; [|by apply Hg; [left|]].
  intros b s' Hb. apply Hg. by right.
Qed.

Lemma drop_tx_orphans h s : orphan_half (drop_tx h s) = orphan_half s.
Proof. unfold drop_tx. by destruct (mp_pool s !! h). Qed.
Lemma remove_tx_orphans fuel t rr s : orphan_half (remove_tx fuel t rr s) = orphan_half s.
Proof.
  revert t rr s. induction fuel as [|fuel IH]; intros t rr s; [done|]. cbn [remove_tx]. rewrite drop_tx_orphans.
  destruct rr; [|done]. apply fold_left_keeps. intros op s'. destruct (mp_outpoints s' !! op); [apply IH|done].
Qed.
(** The index stays exact and the pool only shrinks, whatever the fuel. *)
Lemma remove_tx_ok fuel t rr s :
  pool_ok s → pool_ok (remove_tx fuel t rr s) ∧ mp_pool (remove_tx fuel t rr s) ⊆ mp_pool s.
Proof.
  revert t rr s. induction fuel as [|fuel IH]; intros t rr s Hs; [done|]. cbn [remove_tx].
  set (s1 := if rr then _ else _). assert (pool_ok s1 ∧ mp_pool s1 ⊆ mp_pool s) as [H1 H2].
  { subst s1. destruct rr; [|done].
    apply (fold_left_inv (λ s', pool_ok s' ∧ mp_pool s' ⊆ mp_pool s)); [|done].
    intros op s' _ [Hs' Hsub]. destruct (mp_outpoints s' !! op) as [r|]; [|done].
    destruct (IH r true s' Hs') as [? ?]. split; [done|by etrans]. }
  split; [by apply drop_tx_ok|]. rewrite drop_tx_pool. etrans; [apply delete_subseteq|done].
Qed.
Lemma removeTransaction_false t s : removeTransaction t false s = drop_tx (TxHash t) s.
Proof. done. Qed.
Lemma RemoveDoubleSpends_ok t s :
  pool_ok s → pool_ok (RemoveDoubleSpends t s) ∧ mp_pool (RemoveDoubleSpends t s) ⊆ mp_pool s ∧
  orphan_half (RemoveDoubleSpends t s) = orphan_half s.
Proof.
  intros Hs. unfold RemoveDoubleSpends.
  apply (fold_left_inv (λ s', pool_ok s' ∧ mp_pool s' ⊆ mp_pool s ∧ orphan_half s' = orphan_half s)); [|done].
  intros op s' _ (H1 & H2 & H3). destruct (mp_outpoints s' !! op) as [r|]; [|done]. case_bool_decide; [done|].
  unfold removeTransaction. destruct (remove_tx_ok (S (size (mp_pool s'))) r true s' H1) as [? ?].
  split_and!; [done|by etrans|by rewrite remove_tx_orphans].
Qed.

(** ** Orphans

    [gone] holds the orphans whose removal is under way: they are in the map,
    but no longer in the index. *)
Record orphans_ok (gone : gset Hash) (s : TxPool) : Prop := mkOrphansOk {
  ok_hash : ∀ h o, mp_orphans s !! h = Some o → TxHash (o_tx o) = h;
  ok_link : ∀ op h t, (mp_orphansByPrev s !! op ≫= (.!! h)) = Some t ↔
    h ∉ gone ∧ (∃ o, mp_orphans s !! h = Some o ∧ o_tx o = t) ∧ op ∈ spent_outpoints t;
  ok_some : ∀ op, mp_orphansByPrev s !! op ≠ Some ∅ }.

Lemma orphan_half_ok gone s s' : orphan_half s' = orphan_half s → orphans_ok gone s → orphans_ok gone s'.
Proof. intros [= E1 E2] [A B C]. split; rewrite ?E1, ?E2; done. Qed.

Lemma unlink_keeps h s op : mp_orphans (unlink h s op) = mp_orphans s ∧ pool_half (unlink h s op) = pool_half s.
Proof. unfold unlink. repeat case_match; done. Qed.
Lemma unlink_link h s op op' h' :
  mp_orphansByPrev (unlink h s op) !! op' ≫= (.!! h') =
  if decide (op' = op ∧ h' = h) then None else mp_orphansByPrev s !! op' ≫= (.!! h').
Proof.
  unfold unlink. destruct (mp_orphansByPrev s !! op) as [m|] eqn:Em.
  - assert (∀ x, (delete h m : gmap Hash MsgTx) !! x = if decide (x = h) then None else m !! x) as Hx.
    { intros x. destruct (decide (x = h)) as [->|]; [by rewrite lookup_delete_eq|by rewrite lookup_delete_ne]. }
    destruct (Nat.eqb_spec (size (delete h m)) 0) as [Hz|Hz]; cbn.
    + apply map_size_empty_iff in Hz. destruct (decide (op' = op)) as [->|].
      * rewrite lookup_delete_eq, Em. cbn. specialize (Hx h'). rewrite Hz, lookup_empty in Hx.
        destruct (decide (h' = h)); [by rewrite decide_True|]. rewrite decide_False by tauto. done.
      * rewrite lookup_delete_ne by done. by rewrite decide_False by tauto.
    + destruct (decide (op' = op)) as [->|].
      * rewrite lookup_insert_eq, Em. cbn. rewrite Hx. destruct (decide (h' = h)); [by rewrite decide_True|].
        by rewrite decide_False by tauto.
      * rewrite lookup_insert_ne by done. by rewrite decide_False by tauto.
  - case_decide as E; [|done]. destruct E as [-> _]. by rewrite Em.
Qed.
Lemma unlink_some h s op :
  (∀ op', mp_orphansByPrev s !! op' ≠ Some ∅) → ∀ op', mp_orphansByPrev (unlink h s op) !! op' ≠ Some ∅.
Proof.
  intros Hs op'. unfold unlink. destruct (mp_orphansByPrev s !! op) as [m|] eqn:Em; [|apply Hs].
  destruct (Nat.eqb_spec (size (delete h m)) 0) as [Hz|Hz]; cbn.
  - destruct (decide (op' = op)) as [->|]; [by rewrite lookup_delete_eq|]. by rewrite lookup_delete_ne.
  - destruct (decide (op' = op)) as [->|]; [|by rewrite lookup_insert_ne]. rewrite lookup_insert_eq. intros [= E].
    by rewrite E, map_size_empty in Hz.
Qed.
Lemma unlink_all h ops s :
  let s' := fold_left (unlink h) ops s in
  mp_orphans s' = mp_orphans s ∧ pool_half s' = pool_half s ∧
  (∀ op h', mp_orphansByPrev s' !! op ≫= (.!! h') =
     if decide (op ∈ ops ∧ h' = h) then None else mp_orphansByPrev s !! op ≫= (.!! h')) ∧
  ((∀ op, mp_orphansByPrev s !! op ≠ Some ∅) → ∀ op, mp_orphansByPrev s' !! op ≠ Some ∅).
Proof.
  cbn zeta. revert s. induction ops as [|o ops IH]; intros s; cbn [fold_left].
  { by split_and!. }
  destruct (IH (unlink h s o)) as (I1 & I2 & I3 & I4). destruct (unlink_keeps h s o) as [K1 K2].
  split_and!; [by rewrite I1|by rewrite I2| |].
  - intros op h'. rewrite I3, unlink_link.
    destruct (decide (op ∈ ops ∧ h' = h)) as [[? ?]|Hn]; [by rewrite decide_True by set_solver|].
    destruct (decide (op = o ∧ h' = h)) as [[? ?]|]; [by rewrite decide_True by set_solver|].
    rewrite decide_False by set_solver. done.
  - intros Hs. apply I4. by apply unlink_some.
Qed.
Lemma unlink_all_ok gone h o s :
  orphans_ok gone s → mp_orphans s !! h = Some o →
  orphans_ok ({[h]} ∪ gone) (fold_left (unlink h) (spent_outpoints (o_tx o)) s).
Proof.
  intros [A B C] Ho. destruct (unlink_all h (spent_outpoints (o_tx o)) s) as (I1 & I2 & I3 & I4).
  split; [by rewrite I1|intros op h' t|by apply I4]. rewrite I3, I1. case_decide as Hd.
  - destruct Hd as [_ ->]. split; [done|]. intros [Hn _]. set_solver.
  - rewrite B. split; [intros (Hg & (o' & Ho' & <-) & Hop)|intros (Hg & Hx); split; [set_solver|done]].
    split; [|eauto]. intros [->%elem_of_singleton|?]%elem_of_union; [|done]. apply Hd. by simplify_eq.
Qed.
(** The entry of the map is deleted last. *)
Lemma orphan_deleted gone h s :
  orphans_ok ({[h]} ∪ gone) s → h ∉ gone → orphans_ok gone (set_orphans (delete h) s).
Proof.
  intros [A B C] Hh. split; cbn; [intros h' o [_ Ho]%lookup_delete_Some; by apply A|intros op h' t|done].
  rewrite B. split; intros (Hg & (o & Ho & Et) & Hop).
  - split_and!; [set_solver| |done]. exists o. rewrite lookup_delete_ne by set_solver. done.
  - apply lookup_delete_Some in Ho as [Hne Ho]. split_and!; [set_solver|eauto|done].
Qed.

Lemma range_orphans_inv (P : TxPool → Prop) f s op :
  (∀ s, P s → P (read_env s)) →
  (∀ h t s, P s → mp_orphansByPrev s !! op ≫= (.!! h) = Some t → P (f t s)) →
  P s → P (range_orphans f s op).
Proof.
  intros Hr Hf Hs. unfold range_orphans. apply fold_left_inv; [|by apply Hr].
  intros h s' _ Hs'. destruct (_ ≫= _) as [t|] eqn:E; [by eapply Hf|done].
Qed.

Definition orphans_shrink (gone : gset Hash) (s s' : TxPool) : Prop :=
  orphans_ok gone s' ∧ mp_orphans s' ⊆ mp_orphans s ∧ pool_half s' = pool_half s.
Lemma orphans_shrink_read gone s s' : orphans_shrink gone s s' → orphans_shrink gone s (read_env s').
Proof. intros (A & B & C). split_and!; [by apply (orphan_half_ok gone s')|done..]. Qed.

(** The index stays exact and the orphans only shrink, whatever the fuel. *)
Lemma remove_orphan_ok fuel t rr s gone :
  orphans_ok gone s → TxHash t ∉ gone →
  orphans_shrink gone s (remove_orphan fuel t rr s) ∧
  (0 < fuel → mp_orphans (remove_orphan fuel t rr s) !! TxHash t = None)%nat.
Proof.
  revert t rr s gone. induction fuel as [|fuel IH]; intros t rr s gone Hs Ht; [split; [done|lia]|]. cbn [remove_orphan].
  destruct (mp_orphans s !! TxHash t) as [o|] eqn:Ho; [|done].
  pose proof (unlink_all_ok gone _ o s Hs Ho) as H1.
  destruct (unlink_all (TxHash t) (spent_outpoints (o_tx o)) s) as (I1 & I2 & _ & _).
  set (s1 := fold_left (unlink _) _ s) in *. set (s2 := if rr then _ else s1).
  assert (orphans_shrink ({[TxHash t]} ∪ gone) s s2) as (H2 & H3 & H4).
  { subst s2. assert (orphans_shrink ({[TxHash t]} ∪ gone) s s1) as H1' by (split_and!; [done|by rewrite I1|done]).
    destruct rr; [|done]. apply (fold_left_inv (orphans_shrink ({[TxHash t]} ∪ gone) s)); [|done]. intros op s' _ Hs'.
    apply range_orphans_inv; [apply orphans_shrink_read| |done].
    intros h t' s3 (A & B & C) Hl. pose proof Hl as (Hg & (o' & Ho' & <-) & _)%(ok_link _ _ A).
    destruct (IH (o_tx o') true s3 ({[TxHash t]} ∪ gone) A) as [(A' & B' & C') _].
    { by rewrite (ok_hash _ _ A h o' Ho'). }
    split_and!; [done|by etrans|by etrans]. }
  split; [|intros _; apply lookup_delete_eq]. split_and!; [by apply orphan_deleted| |done].
  etrans; [apply delete_subseteq|done].
Qed.
Lemma removeOrphan_ok t rr s :
  orphans_ok ∅ s → orphans_shrink ∅ s (removeOrphan t rr s) ∧ mp_orphans (removeOrphan t rr s) !! TxHash t = None.
Proof.
  intros Hs. destruct (remove_orphan_ok (S (S (size (mp_orphans s)))) t rr s ∅ Hs) as [A B]; [set_solver|].
  split; [done|]. apply B. lia.
Qed.
Lemma orphans_shrink_trans gone s1 s2 s3 :
  orphans_shrink gone s1 s2 → orphans_shrink gone s2 s3 → orphans_shrink gone s1 s3.
Proof. intros (_ & B & C) (A' & B' & C'). split_and!; [done|by etrans|by etrans]. Qed.
Lemma range_all_orphans_ok p s : orphans_ok ∅ s → orphans_shrink ∅ s (snd (range_all_orphans p s)).
Proof.
  intros Hs. unfold range_all_orphans. generalize (range_keys (mp_orphans s) s) as keys, 0 as n. intros keys.
  assert (orphans_shrink ∅ s (read_env s)) as Hr by (apply orphans_shrink_read; done).
  revert Hr. generalize (read_env s) as s1. induction keys as [|h keys IH]; intros s1 Hs1 n; [done|].
  cbn [fold_left]. destruct (mp_orphans s1 !! h) as [o|]; [|by apply IH]. destruct (p o); [|by apply IH].
  apply IH. eapply orphans_shrink_trans; [done|]. by apply removeOrphan_ok, Hs1.
Qed.
Lemma removeOrphanDoubleSpends_ok t s : orphans_ok ∅ s → orphans_shrink ∅ s (removeOrphanDoubleSpends t s).
Proof.
  intros Hs. unfold removeOrphanDoubleSpends. apply (fold_left_inv (orphans_shrink ∅ s)); [|done]. intros op s' _ Hs'.
  apply range_orphans_inv; [apply orphans_shrink_read| |done].
  intros h t' s3 Hs3 _. eapply orphans_shrink_trans; [done|]. by apply removeOrphan_ok, Hs3.
Qed.

Definition Env_ok : Prop := ∀ n l, range_order n l ≡ₚ l.
Lemma range_keys_spec {A} (m : gmap Hash A) s h :
  Env_ok → h ∈ range_keys m s ↔ is_Some (m !! h).
Proof.
  intros He. unfold range_keys. rewrite (He _ _), list_elem_of_fmap. split.
  - intros ([k x] & -> & Hx%elem_of_map_to_list). eauto.
  - intros [x Hx]. exists (h, x). split; [done|]. by apply elem_of_map_to_list.
Qed.
Lemma shrink_size (m m' : gmap Hash orphanTx) h : m' ⊆ m → is_Some (m !! h) → m' !! h = None → (size m' < size m)%nat.
Proof. intros Hsub [x Hx] Hn. apply map_subset_size. apply map_subset_alt. split; [done|]. exists h. split; [done|eauto]. Qed.
Lemma limitNumOrphans_ok cfg s :
  Env_ok → orphans_ok ∅ s → orphans_shrink ∅ s (limitNumOrphans cfg s) ∧
  (0 < MaxOrphanTxs (cfg_Policy cfg) → Z.of_nat (size (mp_orphans s)) <= MaxOrphanTxs (cfg_Policy cfg) →
   Z.of_nat (size (mp_orphans (limitNumOrphans cfg s))) + 1 <= MaxOrphanTxs (cfg_Policy cfg)).
Proof.
  intros He Hs. unfold limitNumOrphans. set (s1 := if _ <? _ then _ else _).
  assert (orphans_shrink ∅ s s1) as Hs1.
  { assert (orphans_shrink ∅ s (read_env s)) as Hr by (apply orphans_shrink_read; done). subst s1.
    case_match; [|done]. eapply orphans_shrink_trans; [done|].
    destruct (range_all_orphans_ok (λ otx, o_expiration otx <? now s) (read_env s)) as (A & B & C); [apply Hr|].
    split_and!; [by eapply orphan_half_ok, A|done|done]. }
  assert (size (mp_orphans s1) <= size (mp_orphans s))%nat as Hle by (apply map_subseteq_size, Hs1).
  destruct (Z.leb_spec (Z.of_nat (size (mp_orphans s1)) + 1) (MaxOrphanTxs (cfg_Policy cfg))) as [Hl|Hl]; [done|].
  pose proof (range_keys_spec (mp_orphans s1) s1) as Hk.
  destruct (range_keys (mp_orphans s1) s1) as [|h keys] eqn:Ek.
  { split; [done|]. intros Hp Hm. assert (mp_orphans s1 = ∅) as E.
    { apply map_empty. intros h. apply eq_None_not_Some. intros Hx. by apply (Hk h He), elem_of_nil in Hx. }
    rewrite E, map_size_empty in *. lia. }
  destruct (proj1 (Hk h He)) as [o Ho]; [by left|]. rewrite Ho.
  assert (orphans_shrink ∅ s (read_env s1)) as Hr by by apply orphans_shrink_read.
  destruct (removeOrphan_ok (o_tx o) false (read_env s1)) as [Hsh Hgone]; [apply Hr|].
  split; [by eapply orphans_shrink_trans|]. intros _ Hm.
  assert (size (mp_orphans (removeOrphan (o_tx o) false (read_env s1))) < size (mp_orphans s1))%nat; [|lia].
  apply (shrink_size _ _ h); [apply Hsh|eauto|]. rewrite <- (ok_hash ∅ s1 (proj1 Hs1) h o Ho). done.
Qed.
Lemma link_all t ops s :
  let s' := fold_left (link t) ops s in
  mp_orphans s' = mp_orphans s ∧ pool_half s' = pool_half s ∧
  (∀ op h, mp_orphansByPrev s' !! op ≫= (.!! h) =
     if decide (op ∈ ops ∧ h = TxHash t) then Some t else mp_orphansByPrev s !! op ≫= (.!! h)) ∧
  ((∀ op, mp_orphansByPrev s !! op ≠ Some ∅) → ∀ op, mp_orphansByPrev s' !! op ≠ Some ∅).
Proof.
  cbn zeta. revert s. induction ops as [|o ops IH]; intros s; cbn [fold_left]; [by split_and!|].
  destruct (IH (link t s o)) as (I1 & I2 & I3 & I4). split_and!; [done..| |].
  - intros op h. rewrite I3. destruct (decide (op ∈ ops ∧ h = TxHash t)) as [[? ?]|Hn]; [by rewrite decide_True by set_solver|].
    unfold link. cbn. destruct (decide (op = o)) as [->|Hne].
    + rewrite lookup_insert_eq. cbn. destruct (decide (h = TxHash t)) as [->|Hh].
      * by rewrite lookup_insert_eq, decide_True by set_solver.
      * rewrite lookup_insert_ne, decide_False by (done || set_solver). by destruct (mp_orphansByPrev s !! o).
    + rewrite lookup_insert_ne by done. by rewrite decide_False by set_solver.
  - intros Hs. apply I4. intros op. unfold link. cbn. destruct (decide (op = o)) as [->|Hne].
    + rewrite lookup_insert_eq. intros [= E]. apply (f_equal (.!! TxHash t)) in E. by rewrite lookup_insert_eq, lookup_empty in E.
    + by rewrite lookup_insert_ne.
Qed.
Lemma addOrphan_ok cfg t tag s :
  Env_ok → orphans_ok ∅ s → mp_orphans s !! TxHash t = None →
  let s' := addOrphan cfg t tag s in
  orphans_ok ∅ s' ∧ pool_half s' = pool_half s ∧
  (∀ h o, mp_orphans s' !! h = Some o → h = TxHash t ∨ mp_orphans s !! h = Some o) ∧
  (Z.of_nat (size (mp_orphans s)) <= Z.max 0 (MaxOrphanTxs (cfg_Policy cfg)) →
   Z.of_nat (size (mp_orphans s')) <= Z.max 0 (MaxOrphanTxs (cfg_Policy cfg))).
Proof.
  intros He Hs Hnew. cbn zeta. unfold addOrphan.
  destruct (Z.leb_spec (MaxOrphanTxs (cfg_Policy cfg)) 0) as [Hm|Hm]; [by split_and!; auto|].
  destruct (limitNumOrphans_ok cfg s He Hs) as [(A & B & C) Hsz]. set (s1 := limitNumOrphans cfg s) in *.
  set (o := mkOrphan t tag _). set (s2 := set_orphans _ _).
  destruct (link_all t (spent_outpoints t) s2) as (I1 & I2 & I3 & I4).
  assert (mp_orphans s1 !! TxHash t = None) as Hnew1.
  { apply eq_None_not_Some. intros [x Hx]. by rewrite (lookup_weaken _ _ _ _ Hx B) in Hnew. }
  assert (mp_orphans s2 = <[TxHash t := o]> (mp_orphans s1)) as E2 by done.
  split_and!.
  - split; rewrite ?I1, ?E2.
    + intros h x [[<- <-]|[_ Hx]]%lookup_insert_Some; [done|]. by apply (ok_hash _ _ A).
    + intros op h x. rewrite I3. case_decide as Hd.
      * destruct Hd as [Hop ->]. split; [intros [= <-]; split_and!; [set_solver|exists o; by rewrite lookup_insert_eq|done]|].
        intros (_ & (o' & Ho' & <-) & _). rewrite lookup_insert_eq in Ho'. by injection Ho' as <-.
      * change (mp_orphansByPrev s2) with (mp_orphansByPrev s1). rewrite (ok_link _ _ A).
        split; intros (Hg & (o' & Ho' & Et) & Hop); (split_and!; [done| |done]).
        -- exists o'. rewrite lookup_insert_ne; [done|]. intros <-. congruence.
        -- apply lookup_insert_Some in Ho' as [[<- <-]|[_ Ho']]; [|eauto]. destruct Hd. by subst x.
    + apply I4. apply (ok_some _ _ A).
  - by rewrite I2.
  - intros h x. rewrite I1, E2. intros [[<- _]|[_ Hx]]%lookup_insert_Some; [by left|right]. by eapply lookup_weaken.
  - intros Hle. rewrite I1, E2, map_size_insert_None by done. specialize (Hsz Hm ltac:(lia)). lia.
Qed.

(** ** Accepting *)

Lemma MRes_bind_ok {A B} (m : MRes A) (f : A → MRes B) b :
  m ≫= f = MOk b ↔ ∃ a, m = MOk a ∧ f a = MOk b.
Proof. destruct m; cbn; naive_solver. Qed.
Lemma PM_bind_ok {A B} (m : PM A) (f : A → PM B) s b s' :
  (m ≫= f) s = (MOk b, s') ↔ ∃ a s1, m s = (MOk a, s1) ∧ f a s1 = (MOk b, s').
Proof.
  unfold mbind, PM_bind. destruct (m s) as [[a|e|] s1]; split; try done; [eauto|..]; by intros (? & ? & [= <- <-] & ?) || by intros (? & ? & ? & ?).
Qed.
(** Keeping a part of the state whatever the result. *)
Definition pm_keeps {X A} (f : TxPool → X) (m : PM A) : Prop := ∀ s, f (snd (m s)) = f s.
Lemma pm_keeps_bind {X A B} (f : TxPool → X) (m : PM A) (k : A → PM B) :
  pm_keeps f m → (∀ a, pm_keeps f (k a)) → pm_keeps f (m ≫= k).
Proof.
  intros Hm Hk s. unfold mbind, PM_bind. specialize (Hm s). destruct (m s) as [[a|e|] s1]; cbn in *; [|done..].
  by rewrite Hk.
Qed.
Lemma pm_keeps_give {X A} (f : TxPool → X) (r : MRes A) : pm_keeps f (give r).
Proof. by intros s. Qed.
Lemma pm_keeps_ret {X A} (f : TxPool → X) (a : A) : pm_keeps f (mret a).
Proof. by intros s. Qed.
Lemma pm_keeps_looks {X A} (f : TxPool → X) (g : TxPool → A) : pm_keeps f (looks g).
Proof. by intros s. Qed.
Lemma pm_keeps_does {X} (f : TxPool → X) g : (∀ s, f (g s) = f s) → pm_keeps f (does g).
Proof. intros Hg s. apply Hg. Qed.
#[local] Hint Resolve pm_keeps_bind pm_keeps_give pm_keeps_ret pm_keeps_looks pm_keeps_does : mp.

Definition maps (s : TxPool) := (pool_half s, orphan_half s).
Lemma read_env_maps s : maps (read_env s) = maps s.
Proof. done. Qed.
Lemma relay_fee_keeps cfg t fee size v height isNew rateLimit :
  pm_keeps maps (validateRelayFeeMet cfg t fee size v height isNew rateLimit).
Proof. unfold validateRelayFeeMet. repeat ((apply pm_keeps_bind; [|intros ?]) || case_match); auto with mp. Qed.

Section Accept.
Context (sched : list txValidateItem → list txValidateItem) (script_fuel : nat).
Abbreviation check_acceptance := (checkMempoolAcceptance sched script_fuel).
Abbreviation maybe_accept := (maybeAcceptTransaction sched script_fuel).

Lemma check_keeps cfg t isNew rateLimit rejectDup : pm_keeps maps (check_acceptance cfg t isNew rateLimit rejectDup).
Proof.
  unfold checkMempoolAcceptance.
  repeat ((apply pm_keeps_bind; [|intros ?]) || case_match); auto using relay_fee_keeps with mp.
Qed.

(** What acceptance has checked, for the result [r]. *)
Record accepted_by (cfg : Config) (t : MsgTx) (isNew rateLimit rejectDup : bool) (s : TxPool)
    (r : MempoolAcceptResult) : Prop := mkAccepted {
  ac_new : mp_pool s !! TxHash t = None;
  ac_orphan : rejectDup = true → mp_orphans s !! TxHash t = None;
  ac_sane : CheckTransactionSanity t = VOk tt;
  ac_coinbase : IsCoinBaseTx t = false;
  ac_view : ∃ v, fetchInputUtxos cfg s t = VOk v ∧ check_own_outputs (own_outpoints t) v = MOk (ar_utxoView r);
  ac_complete : missing_parents (ar_utxoView r) = [];
  ac_inputs : CheckTransactionInputs t (int32 (BestHeight cfg + 1)) (ar_utxoView r) (cfg_ChainParams cfg) = VOk (ar_TxFee r);
  ac_standard : validateStandardness cfg t (int32 (BestHeight cfg + 1)) (MedianTimePast cfg) (ar_utxoView r) = MOk tt;
  ac_locks : ∃ l, CalcSequenceLock cfg t (ar_utxoView r) = VOk l ∧
    SequenceLockActive l (int32 (BestHeight cfg + 1)) (MedianTimePast cfg) = true;
  ac_fee : ∃ s', validateRelayFeeMet cfg t (ar_TxFee r) (GetTxVirtualSize t) (ar_utxoView r)
    (int32 (BestHeight cfg + 1)) isNew rateLimit s = (MOk tt, s');
  ac_conflicts : ∃ isReplacement : bool, checkPoolDoubleSpend cfg s t = MOk isReplacement ∧
    if isReplacement then validateReplacement cfg s t (ar_TxFee r) = MOk (ar_Conflicts r) else ar_Conflicts r = ∅;
  ac_scripts : ValidateTransactionScripts sched script_fuel t (ar_utxoView r) StandardVerifyFlags = VOk tt }.

Lemma give_ok {A} (r : MRes A) s a s' : give r s = (MOk a, s') ↔ r = MOk a ∧ s = s'.
Proof. unfold give. split; [by intros [= -> ->]|by intros [-> ->]]. Qed.
Lemma refuse_if_ok b code u : refuse_if b code = MOk u ↔ b = false.
Proof. by destruct b, u. Qed.
Lemma of_rules_ok {A} (r : VRes A) a : of_rules r = MOk a ↔ r = VOk a.
Proof. destruct r; cbn; split; intros E; by simplify_eq. Qed.

Lemma check_accepts cfg t isNew rateLimit rejectDup s r s' :
  check_acceptance cfg t isNew rateLimit rejectDup s = (MOk r, s') → ar_MissingParents r = [] →
  accepted_by cfg t isNew rateLimit rejectDup s r.
Proof.
  unfold checkMempoolAcceptance.
  intros ([] & ? & [_ <-]%give_ok & Hx)%PM_bind_ok Hmiss. revert Hx.
  intros (? & ? & [= <- <-] & ([] & ? & [Hdup%refuse_if_ok <-]%give_ok & Hx)%PM_bind_ok)%PM_bind_ok. revert Hx.
  intros ([] & ? & [_ <-]%give_ok & ([] & ? & [Hsane%of_rules_ok <-]%give_ok & Hx)%PM_bind_ok)%PM_bind_ok. revert Hx.
  intros ([] & ? & [Hcb%refuse_if_ok <-]%give_ok & Hx)%PM_bind_ok. revert Hx.
  intros (isRep & ? & [Hrep <-]%give_ok & (v0 & ? & [Hv0%of_rules_ok <-]%give_ok & Hx)%PM_bind_ok)%PM_bind_ok. revert Hx.
  intros (v & ? & [Hv <-]%give_ok & Hx)%PM_bind_ok. revert Hx.
  destruct (missing_parents v) as [|m ms] eqn:Em; [|by intros [= <- <-]].
  intros (fee & ? & [Hfee%of_rules_ok <-]%give_ok & ([] & ? & [Hstd <-]%give_ok & Hx)%PM_bind_ok)%PM_bind_ok. revert Hx.
  intros (l & ? & [Hl%of_rules_ok <-]%give_ok & ([] & ? & [Hla%refuse_if_ok <-]%give_ok & Hx)%PM_bind_ok)%PM_bind_ok. revert Hx.
  intros ([] & ? & [_ <-]%give_ok & ([] & s2 & Hrelay & Hx)%PM_bind_ok)%PM_bind_ok. revert Hx.
  intros (conflicts & ? & Hc & ([] & ? & [Hscripts%of_rules_ok <-]%give_ok & Hx)%PM_bind_ok)%PM_bind_ok.
  injection Hx as <- <-. apply orb_false_elim in Hdup as [Hd1%bool_decide_eq_false Hd2].
  apply negb_false_iff in Hla.
  split; cbn; eauto.
  - by apply eq_None_not_Some.
  - intros ->. cbn in Hd2. apply bool_decide_eq_false in Hd2. by apply eq_None_not_Some.
  - exists isRep. split; [done|]. destruct isRep; [by apply give_ok in Hc as [? _]|by injection Hc as <-].
Qed.

(** The maps of relatives are keyed by the hashes. *)
Definition keyed (m : Relatives) : Prop := ∀ h t, m !! h = Some t → TxHash t = h.
Lemma keyed_insert t m : keyed m → keyed (<[TxHash t := t]> m).
Proof. intros Hm h x [[<- <-]|[_ Hx]]%lookup_insert_Some; [done|by apply Hm]. Qed.
Lemma keyed_union m m' : keyed m → keyed m' → keyed (m ∪ m').
Proof. intros Hm Hm' h x [Hx|[_ Hx]]%lookup_union_Some_raw; [by apply Hm|by apply Hm']. Qed.
Lemma keyed_empty : keyed ∅.
Proof. by intros h x ?%lookup_empty_Some. Qed.
Lemma relatives_keyed fuel step t cache :
  map_Forall (λ _ m, keyed m) cache →
  keyed (fst (relatives fuel step t cache)) ∧ map_Forall (λ _ m, keyed m) (snd (relatives fuel step t cache)).
Proof.
  revert t cache. induction fuel as [|fuel IH]; intros t cache Hc; [by split; [apply keyed_empty|]|].
  cbn [relatives]. generalize (step t) as nexts. intros nexts.
  assert (keyed ∅) as Hf by apply keyed_empty. revert Hf Hc. generalize (∅ : Relatives) as found. revert cache.
  induction nexts as [|n nexts IHn]; intros cache found Hf Hc; [done|]. cbn [relatives_loop].
  destruct (cache !! TxHash n) as [more|] eqn:Em.
  - apply IHn; [|done]. apply keyed_union; [by eapply Hc|by apply keyed_insert].
  - destruct (IH n cache Hc) as [H1 H2]. destruct (relatives fuel step n cache) as [more cache'].
    apply IHn; [by apply keyed_union; [|apply keyed_insert]|]. by apply map_Forall_insert_2.
Qed.
Lemma txConflicts_direct s t :
  keyed (txConflicts s t) ∧
  (∀ op x, op ∈ spent_outpoints t → mp_outpoints s !! op = Some x → is_Some (txConflicts s t !! TxHash x)).
Proof.
  unfold txConflicts. set (f := λ _ _, _). generalize (spent_outpoints t) as ops. intros ops.
  assert (∀ m, keyed m → keyed (foldl f m ops) ∧ (∀ h, is_Some (m !! h) → is_Some (foldl f m ops !! h)) ∧
    (∀ op x, op ∈ ops → mp_outpoints s !! op = Some x → is_Some (foldl f m ops !! TxHash x))) as Hg.
  { induction ops as [|op ops IH]; intros m Hm; cbn [foldl].
    { split_and!; try done. by intros op x ?%elem_of_nil. }
    assert (keyed (f m op) ∧ (∀ h, is_Some (m !! h) → is_Some (f m op !! h))) as [H1 H2].
    { unfold f. destruct (mp_outpoints s !! op) as [c|]; [|done]. split.
      - apply keyed_union; [|by apply keyed_insert]. unfold txDescendants. apply relatives_keyed. apply map_Forall_empty.
      - intros h Hh. apply lookup_union_is_Some. right. by rewrite lookup_insert_is_Some'; right. }
    destruct (IH (f m op) H1) as (I1 & I2 & I3). split_and!; [done|auto|].
    intros op' x [->|Hop]%elem_of_cons Hx; [|by eapply I3]. apply I2. unfold f. rewrite Hx.
    apply lookup_union_is_Some. right. rewrite lookup_insert_eq. eauto. }
  destruct (Hg ∅ keyed_empty) as (H1 & _ & H3). done.
Qed.
Lemma no_replacement_free cfg s t :
  checkPoolDoubleSpend cfg s t = MOk false → ∀ op, op ∈ spent_outpoints t → mp_outpoints s !! op = None.
Proof.
  unfold checkPoolDoubleSpend. generalize (spent_outpoints t) as ops.
  assert (∀ ops b, check_double_spends cfg s ops b = MOk false →
    b = false ∧ ∀ op, op ∈ ops → mp_outpoints s !! op = None) as Hg.
  { induction ops as [|o ops IH]; intros b; cbn [check_double_spends].
    { intros [= ->]. split; [done|]. by intros op ?%elem_of_nil. }
    destruct (mp_outpoints s !! o) as [c|] eqn:Eo.
    - destruct (_ || _); [done|]. intros Hx. by destruct (IH true Hx).
    - intros Hx. destruct (IH b Hx) as [-> I]. split; [done|]. intros op [->|?]%elem_of_cons; auto. }
  intros ops Hx. by apply Hg in Hx as [_ ?].
Qed.

Lemma replacement_conflicts cfg s t fee c : validateReplacement cfg s t fee = MOk c → c = txConflicts s t.
Proof.
  unfold validateReplacement. intros ([] & _ & ([] & _ & ([? ?] & _ & ([] & _ & ([] & _ & Hx)%MRes_bind_ok)%MRes_bind_ok)%MRes_bind_ok)%MRes_bind_ok)%MRes_bind_ok.
  by injection Hx as <-.
Qed.
Lemma remove_conflicts_ok c s :
  Env_ok → keyed c → pool_ok s →
  let s' := remove_conflicts c s in
  pool_ok s' ∧ orphan_half s' = orphan_half s ∧
  (∀ k, mp_pool s' !! k = if decide (is_Some (c !! k)) then None else mp_pool s !! k).
Proof.
  intros He Hk Hs. cbn zeta. unfold remove_conflicts. pose proof (range_keys_spec c s) as Hr.
  set (f := λ (s : TxPool) (h : Hash), match c !! h with Some x => removeTransaction x false s | None => s end).
  assert (∀ keys s, pool_ok s → (∀ h, h ∈ keys → is_Some (c !! h)) →
    pool_ok (fold_left f keys s) ∧ orphan_half (fold_left f keys s) = orphan_half s ∧
    (∀ k, mp_pool (fold_left f keys s) !! k = if decide (k ∈ keys) then None else mp_pool s !! k)) as Hg.
  { clear s Hs Hr. induction keys as [|h keys IH]; intros s Hs Hin; cbn [fold_left]; [by split_and!|].
    destruct (Hin h) as [x Hx]; [by left|]. unfold f at 2 4 6. rewrite Hx, removeTransaction_false, (Hk h x Hx).
    destruct (IH (drop_tx h s)) as (I1 & I2 & I3); [by apply drop_tx_ok|intros; apply Hin; by right|].
    split_and!; [done|by rewrite I2, drop_tx_orphans|]. intros k. rewrite I3, drop_tx_pool.
    destruct (decide (k ∈ keys)); [by rewrite decide_True by set_solver|]. destruct (decide (k = h)) as [->|].
    - by rewrite lookup_delete_eq, decide_True by set_solver.
    - rewrite lookup_delete_ne by done. by rewrite decide_False by set_solver. }
  destruct (Hg (range_keys c s) (read_env s)) as (G1 & G2 & G3); [by apply (pool_half_ok s)|intros h; by apply Hr|].
  split_and!; [done..|]. intros k. rewrite G3. specialize (Hr k He). do 2 case_decide; tauto.
Qed.

(** An accepted transaction replaces its conflicts. *)
Definition replaced (s s' : TxPool) (c : Relatives) (t : MsgTx) (d : TxDesc) : Prop :=
  td_Tx d = t ∧
  ∀ k, mp_pool s' !! k = if decide (k = TxHash t) then Some d else if decide (is_Some (c !! k)) then None else mp_pool s !! k.

Lemma maybe_accept_cases cfg t isNew rateLimit rejectDup s res s' :
  Env_ok → pool_ok s → maybe_accept cfg t isNew rateLimit rejectDup s = (res, s') →
  orphan_half s' = orphan_half s ∧ pool_ok s' ∧
  ((∃ r d, res = MOk ([], Some d) ∧ accepted_by cfg t isNew rateLimit rejectDup s r ∧
      replaced s s' (ar_Conflicts r) t d ∧ td_Fee d = ar_TxFee r) ∨
   (pool_half s' = pool_half s ∧ ∀ m d, res ≠ MOk (m, Some d))).
Proof.
  intros He Hs. unfold maybeAcceptTransaction, mbind at 1, PM_bind at 1.
  pose proof (check_keeps cfg t isNew rateLimit rejectDup s) as Hm.
  destruct (check_acceptance cfg t isNew rateLimit rejectDup s) as [[r|e|] s1] eqn:Ec; cbn in Hm;
    injection Hm as K1 K2 K3 K4.
  2, 3: intros [= <- <-]; split_and!; [by unfold orphan_half; f_equal|by apply (pool_half_ok s); unfold pool_half; f_equal|];
    right; (split; [by unfold pool_half; f_equal|done]).
  assert (pool_ok s1) as Hs1 by (apply (pool_half_ok s); [by unfold pool_half; f_equal|done]).
  destruct (ar_MissingParents r) as [|m ms] eqn:Em.
  2: { intros [= <- <-]. split_and!; [by unfold orphan_half; f_equal|done|]. right. split; [by unfold pool_half; f_equal|done]. }
  pose proof (check_accepts _ _ _ _ _ _ _ _ Ec Em) as Ha.
  destruct (ac_conflicts _ _ _ _ _ _ _ Ha) as (isRep & Hrep & Hc).
  destruct (txConflicts_direct s t) as [Hkt Hdir].
  assert (keyed (ar_Conflicts r) ∧ ∀ op x, op ∈ spent_outpoints t → mp_outpoints s !! op = Some x →
    is_Some (ar_Conflicts r !! TxHash x)) as [Hk Hd].
  { destruct isRep; [by rewrite (replacement_conflicts _ _ _ _ _ Hc)|]. rewrite Hc. split; [apply keyed_empty|].
    intros op x Hop Hx. by rewrite (no_replacement_free cfg s t Hrep op Hop) in Hx. }
  destruct (remove_conflicts_ok (ar_Conflicts r) s1 He Hk Hs1) as (C1 & C2 & C3).
  pose proof (add_tx_spec (ar_utxoView r) t (ar_bestHeight r) (ar_TxFee r) (remove_conflicts (ar_Conflicts r) s1)) as Hadd.
  pose proof (add_tx_ok (ar_utxoView r) t (ar_bestHeight r) (ar_TxFee r) _ C1) as Hok.
  change ((does (remove_conflicts (ar_Conflicts r)) ≫= ?k) s1) with (k tt (remove_conflicts (ar_Conflicts r) s1)).
  cbn beta. set (s2 := remove_conflicts _ s1) in *. destruct (addTransaction _ _ _ _ s2) as [d s3].
  cbn in Hadd, Hok. destruct Hadd as (A1 & A2 & A3 & A4). intros [= <- <-]. rewrite K1 in C3.
  assert (mp_pool s2 !! TxHash t = None) as Hn by (rewrite C3, (ac_new _ _ _ _ _ _ _ Ha); by case_decide).
  split_and!; [rewrite A4, C2; by unfold orphan_half; f_equal|apply Hok; [done|]|left].
  - intros op Hop. apply eq_None_not_Some. intros [x Hx]. apply (pk_out s2 C1) in Hx as [(dx & Hdx & Ex) Hopx].
    rewrite C3 in Hdx. case_decide as Hin; [done|]. destruct Hin. apply (Hd op x Hop). apply (pk_out s Hs).
    split; [by exists dx|done].
  - exists r, d. split_and!; [done..| |done]. split; [done|]. intros k. rewrite A3.
    destruct (decide (k = TxHash t)) as [->|]; [by rewrite lookup_insert_eq|]. rewrite lookup_insert_ne by done. apply C3.
Qed.

(** ** The invariant *)

(** The fees are amounts. *)
Definition fees_ok (s : TxPool) : Prop := map_Forall (λ _ d, 0 <= td_Fee d <= MaxSatoshi) (mp_pool s).
Lemma accepted_fee cfg t isNew rateLimit rejectDup s r :
  accepted_by cfg t isNew rateLimit rejectDup s r → 0 <= ar_TxFee r <= MaxSatoshi.
Proof.
  intros Ha. destruct (CheckTransactionInputs_ok t _ _ _ _ (proj1 (CheckTransactionSanity_ok t) (ac_sane _ _ _ _ _ _ _ Ha))
    (ac_coinbase _ _ _ _ _ _ _ Ha) (ac_inputs _ _ _ _ _ _ _ Ha)) as (_ & ? & _). done.
Qed.
Lemma replaced_fees cfg t isNew rateLimit rejectDup s s' r d :
  fees_ok s → accepted_by cfg t isNew rateLimit rejectDup s r → replaced s s' (ar_Conflicts r) t d →
  td_Fee d = ar_TxFee r → fees_ok s'.
Proof.
  intros Hf Ha [_ Hr] Hd k x. rewrite Hr. destruct (decide _); [intros [= <-]; rewrite Hd; by eapply accepted_fee|].
  case_decide; [done|]. apply Hf.
Qed.

Record mp_inv (max : Z) (s : TxPool) : Prop := mkInv {
  mi_pool : pool_ok s;
  mi_fees : fees_ok s;
  mi_orphans : orphans_ok ∅ s;
  mi_apart : ∀ h, is_Some (mp_pool s !! h) → mp_orphans s !! h = None;
  mi_bound : Z.of_nat (size (mp_orphans s)) <= Z.max 0 max }.

Lemma mp_inv_maps max s s' : maps s' = maps s → mp_inv max s → mp_inv max s'.
Proof.
  intros [= E1 E2 E3 E4] [A F B C D]. split; unfold fees_ok; rewrite ?E1, ?E3; try done.
  - apply (pool_half_ok s); [by unfold pool_half; f_equal|done].
  - apply (orphan_half_ok ∅ s); [by unfold orphan_half; f_equal|done].
Qed.
(** Removing orphans keeps the rest. *)
Lemma mp_inv_shrink max s s' : mp_inv max s → orphans_shrink ∅ s s' → mp_inv max s'.
Proof.
  intros [A F B C D] (S1 & S2 & S3). split; [by apply (pool_half_ok s)|by injection S3 as E _; unfold fees_ok; rewrite E|done|..].
  - intros h Hh. injection S3 as E _. rewrite E in Hh. apply eq_None_not_Some. intros [o Ho].
    specialize (C h Hh). by rewrite (lookup_weaken _ _ _ _ Ho S2) in C.
  - apply map_subseteq_size in S2. lia.
Qed.
(** Removing transactions keeps the rest. *)
Lemma mp_inv_pool max s s' :
  mp_inv max s → pool_ok s' → mp_pool s' ⊆ mp_pool s → orphan_half s' = orphan_half s → mp_inv max s'.
Proof.
  intros [A F B C D] Hp Hsub Ho. pose proof Ho as [= E1 _].
  split; rewrite ?E1; try done; [intros k x Hx; apply (F k); by eapply lookup_weaken|by apply (orphan_half_ok ∅ s)|].
  intros h [d Hd]. apply C. exists d. by eapply lookup_weaken.
Qed.

Lemma accept_new max cfg t isNew rateLimit s res s' :
  Env_ok → mp_inv max s → maybe_accept cfg t isNew rateLimit true s = (res, s') → mp_inv max s'.
Proof.
  intros He [A F B C D] Hm. destruct (maybe_accept_cases _ _ _ _ _ _ _ _ He A Hm) as (Ho & Hp & Hc). pose proof Ho as [= E1 _].
  split; rewrite ?E1; try done; [|by apply (orphan_half_ok ∅ s)|].
  { destruct Hc as [(r & d & _ & Ha & Hr & Hd)|[[= E _] _]]; [by eapply replaced_fees|by unfold fees_ok; rewrite E]. }
  intros h Hh. destruct Hc as [(r & d & _ & Ha & [_ Hr] & _)|[[= E _] _]]; [|rewrite E in Hh; by apply C].
  rewrite Hr in Hh. destruct (decide (h = TxHash t)) as [->|]; [by apply (ac_orphan _ _ _ _ _ _ _ Ha)|].
  case_decide; [by destruct Hh|by apply C].
Qed.
(** An orphan that is looked at: it is removed when it is accepted or
    refused. *)
Lemma accept_orphan max cfg t rr s res s' :
  Env_ok → mp_inv max s → maybe_accept cfg t true true false s = (res, s') →
  mp_inv max (removeOrphan t rr s') ∧ mp_orphans (removeOrphan t rr s') ⊆ mp_orphans s ∧
  mp_orphans (removeOrphan t rr s') !! TxHash t = None ∧ ((∀ m d, res ≠ MOk (m, Some d)) → mp_inv max s') ∧
  orphan_half s' = orphan_half s.
Proof.
  intros He [A F B C D] Hm. destruct (maybe_accept_cases _ _ _ _ _ _ _ _ He A Hm) as (Ho & Hp & Hc). pose proof Ho as [= E1 E2].
  assert (orphans_ok ∅ s') as B' by by apply (orphan_half_ok ∅ s).
  destruct (removeOrphan_ok t rr s' B') as [(S1 & S2 & S3) S4]. rewrite E1 in S2. split_and!; try done.
  - pose proof S3 as [= E _]. split; [by apply (pool_half_ok s')| |done| |apply map_subseteq_size in S2; lia].
    { unfold fees_ok. rewrite E.
      destruct Hc as [(r & d & _ & Ha & Hr & Hd)|[[= E' _] _]]; [by eapply replaced_fees|by rewrite E']. }
    intros h Hh. rewrite E in Hh. destruct (decide (h = TxHash t)) as [->|Hne]; [done|].
    apply eq_None_not_Some. intros [o Hx]. pose proof (lookup_weaken _ _ _ _ Hx S2) as Hx'.
    assert (is_Some (mp_pool s !! h)) as Hs; [|by rewrite (C h Hs) in Hx'].
    destruct Hc as [(r & d & _ & _ & [_ Hr] & _)|[[= E' _] _]]; [|by rewrite <- E'].
    rewrite Hr, decide_False in Hh by done. case_decide; [by destruct Hh|done].
  - intros Hres. apply (mp_inv_maps max s); [|done]. destruct Hc as [(r & d & -> & _)|[[= E3 E4] _]]; [by destruct (Hres [] d)|].
    unfold maps, pool_half, orphan_half. congruence.
Qed.

(** A step that keeps the invariant, and the orphans shrink. *)
Definition inv_shrink (max : Z) (s s' : TxPool) : Prop :=
  mp_inv max s → mp_inv max s' ∧ mp_orphans s' ⊆ mp_orphans s.
Lemma inv_shrink_trans max s1 s2 s3 : inv_shrink max s1 s2 → inv_shrink max s2 s3 → inv_shrink max s1 s3.
Proof. intros A B Hs. destruct (A Hs) as [H1 H2]. destruct (B H1) as [H3 H4]. split; [done|by etrans]. Qed.
Lemma inv_shrink_orphans max s s' : (orphans_ok ∅ s → orphans_shrink ∅ s s') → inv_shrink max s s'.
Proof. intros A Hs. specialize (A (mi_orphans _ _ Hs)). split; [by eapply mp_inv_shrink|apply A]. Qed.

Lemma try_orphans_ok max cfg op keys s res s' :
  Env_ok → mp_inv max s → try_orphans sched script_fuel cfg op keys s = (res, s') →
  mp_inv max s' ∧ mp_orphans s' ⊆ mp_orphans s ∧
  (∀ a, res = MOk (Some a) → (size (mp_orphans s') < size (mp_orphans s))%nat).
Proof.
  intros He. revert s. induction keys as [|h keys IH]; intros s Hs; cbn [try_orphans]; [by intros [= <- <-]|].
  destruct (_ ≫= _) as [t|] eqn:El; [|by apply IH].
  apply (ok_link _ _ (mi_orphans _ _ Hs)) in El as (_ & (o & Ho & <-) & _).
  pose proof (ok_hash _ _ (mi_orphans _ _ Hs) h o Ho) as Hh.
  destruct (maybe_accept cfg (o_tx o) true true false s) as [r s1] eqn:Em.
  destruct (accept_orphan max cfg (o_tx o) true s r s1 He Hs Em) as (A1 & A2 & A3 & A4 & A5).
  destruct (accept_orphan max cfg (o_tx o) false s r s1 He Hs Em) as (B1 & B2 & B3 & _ & _).
  pose proof A5 as [= E1 _]. destruct r as [[m [d|]]|e|].
  - intros [= <- <-]. split_and!; [done..|]. intros a _. apply (shrink_size _ _ h); [done|eauto|by rewrite <- Hh].
  - intros Hx. destruct (IH s1 (A4 ltac:(done)) Hx) as (I1 & I2 & I3). rewrite E1 in *. done.
  - by intros [= <- <-].
  - intros [= <- <-]. split_and!; [by apply A4|by rewrite E1|done].
Qed.
Lemma process_outputs_ok max cfg ops s res s' :
  Env_ok → mp_inv max s → process_outputs sched script_fuel cfg ops s = (res, s') →
  mp_inv max s' ∧ mp_orphans s' ⊆ mp_orphans s ∧
  (∀ l, res = MOk l → (size (mp_orphans s') + length l <= size (mp_orphans s))%nat).
Proof.
  intros He. revert s res s'. induction ops as [|op ops IH]; intros s res s' Hs; cbn [process_outputs].
  { intros [= <- <-]. split_and!; try done. intros l [= <-]. cbn. lia. }
  unfold mbind at 1, PM_bind at 1. cbn [looks]. set (m := match _ with Some _ => _ | None => _ end).
  assert (∀ r s1, m s = (r, s1) → mp_inv max s1 ∧ mp_orphans s1 ⊆ mp_orphans s ∧
    (∀ a, r = MOk (Some a) → (size (mp_orphans s1) < size (mp_orphans s))%nat)) as Hm.
  { subst m. intros r s1. destruct (mp_orphansByPrev s !! op) as [mm|]; [|by intros [= <- <-]].
    intros Hx. apply (try_orphans_ok max cfg op (range_keys mm s) (read_env s)); [done| |exact Hx].
    by apply (mp_inv_maps max s). }
  unfold mbind at 1, PM_bind at 1. destruct (m s) as [[a|e|] s1] eqn:Em; destruct (Hm _ _ eq_refl) as (M1 & M2 & M3).
  2, 3: by intros [= <- <-].
  unfold mbind at 1, PM_bind at 1. destruct (process_outputs _ _ cfg ops s1) as [[l|e|] s2] eqn:Ep;
    destruct (IH _ _ _ M1 Ep) as (I1 & I2 & I3); intros [= <- <-]; (split_and!; [done|by etrans|done || idtac]).
  intros l' [= <-]. specialize (I3 l eq_refl). apply map_subseteq_size in M2.
  destruct a as [a|]; cbn; [specialize (M3 a eq_refl)|]; lia.
Qed.
Lemma process_list_ok max cfg fuel l acc s res s' :
  Env_ok → mp_inv max s → process_list sched script_fuel fuel cfg l acc s = (res, s') →
  mp_inv max s' ∧ mp_orphans s' ⊆ mp_orphans s.
Proof.
  intros He. revert l acc s. induction fuel as [|fuel IH]; intros l acc s Hs; cbn [process_list]; [by intros [= <- <-]|].
  destruct l as [|t l]; [by intros [= <- <-]|]. unfold mbind, PM_bind.
  destruct (process_outputs _ _ cfg (own_outpoints t) s) as [[a|e|] s1] eqn:Ep;
    destruct (process_outputs_ok max _ _ _ _ _ He Hs Ep) as (P1 & P2 & _).
  2, 3: by intros [= <- <-].
  intros Hx. destruct (IH _ _ _ P1 Hx). split; [done|by etrans].
Qed.
(** Every transaction that is put on the list was an orphan and is none any
    more, so the loop ends: more fuel changes nothing. *)
Lemma process_list_ends max cfg fuel fuel' l acc s :
  Env_ok → mp_inv max s → (length l + size (mp_orphans s) < fuel)%nat → (fuel <= fuel')%nat →
  process_list sched script_fuel fuel' cfg l acc s = process_list sched script_fuel fuel cfg l acc s.
Proof.
  intros He. revert fuel' l acc s. induction fuel as [|fuel IH]; intros [|fuel'] l acc s Hs Hl Hf; try lia.
  cbn [process_list]. destruct l as [|t l]; [done|]. unfold mbind, PM_bind.
  destruct (process_outputs _ _ cfg (own_outpoints t) s) as [[a|e|] s1] eqn:Ep; [|done..].
  destruct (process_outputs_ok max _ _ _ _ _ He Hs Ep) as (P1 & P2 & P3). specialize (P3 a eq_refl).
  apply IH; [done| |lia]. rewrite length_app, length_map. cbn in Hl. lia.
Qed.
Lemma check_new cfg t isNew rateLimit rejectDup s r s' :
  check_acceptance cfg t isNew rateLimit rejectDup s = (MOk r, s') →
  mp_pool s !! TxHash t = None ∧ (rejectDup = true → mp_orphans s !! TxHash t = None).
Proof.
  unfold checkMempoolAcceptance. intros ([] & ? & [_ <-]%give_ok & Hx)%PM_bind_ok. revert Hx.
  intros (? & ? & [= <- <-] & ([] & ? & [Hdup%refuse_if_ok <-]%give_ok & _)%PM_bind_ok)%PM_bind_ok.
  apply orb_false_elim in Hdup as [Hd1%bool_decide_eq_false Hd2]. split; [by apply eq_None_not_Some|].
  intros ->. cbn in Hd2. apply bool_decide_eq_false in Hd2. by apply eq_None_not_Some.
Qed.
Lemma maybe_accept_new cfg t isNew rateLimit rejectDup s a s' :
  maybe_accept cfg t isNew rateLimit rejectDup s = (MOk a, s') →
  mp_pool s !! TxHash t = None ∧ (rejectDup = true → mp_orphans s !! TxHash t = None).
Proof. unfold maybeAcceptTransaction. intros (r & s1 & Hc & _)%PM_bind_ok. by eapply check_new. Qed.

Lemma processOrphans_ok max cfg t s res s' :
  Env_ok → mp_inv max s → processOrphans sched script_fuel cfg t s = (res, s') → mp_inv max s'.
Proof.
  intros He Hs. unfold processOrphans. unfold mbind at 1, PM_bind at 1. cbn [looks]. unfold mbind at 1, PM_bind at 1.
  destruct (process_list _ _ _ cfg [t] [] s) as [[l|e|] s1] eqn:Ep; destruct (process_list_ok max _ _ _ _ _ _ _ He Hs Ep) as [P1 _].
  2, 3: by intros [= <- <-].
  intros [= <- <-]. pose proof (removeOrphanDoubleSpends_ok t s1 (mi_orphans _ _ P1)) as Hd.
  apply (fold_left_inv (mp_inv max)); [|by apply (mp_inv_shrink max s1)].
  intros d s2 _ Hs2. apply (mp_inv_shrink max s2); [done|]. apply removeOrphanDoubleSpends_ok, Hs2.
Qed.
Lemma addOrphan_inv cfg t tag s :
  Env_ok → mp_inv (MaxOrphanTxs (cfg_Policy cfg)) s → mp_orphans s !! TxHash t = None → mp_pool s !! TxHash t = None →
  mp_inv (MaxOrphanTxs (cfg_Policy cfg)) (addOrphan cfg t tag s).
Proof.
  intros He [A F B C D] Hn Hp. destruct (addOrphan_ok cfg t tag s He B Hn) as (O1 & O2 & O3 & O4).
  pose proof O2 as [= E _]. split; [by apply (pool_half_ok s)|by unfold fees_ok; rewrite E|done| |by apply O4].
  intros h Hh. rewrite E in Hh. apply eq_None_not_Some. intros [o Ho].
  destruct (O3 h o Ho) as [->|Hx]; [by rewrite Hp in Hh; destruct Hh|]. by rewrite (C h Hh) in Hx.
Qed.
Lemma ProcessTransaction_ok cfg t allowOrphan rateLimit tag s res s' :
  Env_ok → mp_inv (MaxOrphanTxs (cfg_Policy cfg)) s →
  ProcessTransaction sched script_fuel cfg t allowOrphan rateLimit tag s = (res, s') →
  mp_inv (MaxOrphanTxs (cfg_Policy cfg)) s'.
Proof.
  intros He Hs. unfold ProcessTransaction. unfold mbind at 1, PM_bind at 1.
  destruct (maybe_accept cfg t true rateLimit true s) as [[[m d]|e|] s1] eqn:Em;
    pose proof (accept_new _ _ _ _ _ _ _ _ He Hs Em) as H1.
  2, 3: by intros [= <- <-].
  destruct m as [|m ms].
  - unfold mbind, PM_bind. destruct (processOrphans _ _ cfg t s1) as [[l|e|] s2] eqn:Ep; intros [= <- <-];
      by eapply processOrphans_ok.
  - destruct allowOrphan; [|by intros [= <- <-]]. cbn [negb].
    destruct (maybe_accept_new _ _ _ _ _ _ _ _ Em) as [N1 N2]. specialize (N2 eq_refl).
    destruct (maybe_accept_cases _ _ _ _ _ _ _ _ He (mi_pool _ _ Hs) Em) as ([= E1 _] & _ & [(? & ? & ? & _)|[[= E2 _] _]]); [done|].
    unfold maybeAddOrphan, mbind, PM_bind, give. destruct (refuse_if _ _); cbn; intros [= <- <-]; try done.
    apply addOrphan_inv; [done..|by rewrite E1|by rewrite E2].
Qed.
End Accept.

(** ** The operations of the pool, in any order *)

Inductive mp_op :=
  | OpProcessTransaction (cfg : Config) (t : MsgTx) (allowOrphan rateLimit : bool) (tag : Z)
  | OpMaybeAcceptTransaction (cfg : Config) (t : MsgTx) (isNew rateLimit : bool)
  | OpCheckMempoolAcceptance (cfg : Config) (t : MsgTx)
  | OpProcessOrphans (cfg : Config) (t : MsgTx)
  | OpRemoveTransaction (t : MsgTx) (removeRedeemers : bool)
  | OpRemoveDoubleSpends (t : MsgTx)
  | OpRemoveOrphan (t : MsgTx)
  | OpRemoveOrphansByTag (tag : Z).
Definition op_cfg (o : mp_op) : option Config :=
  match o with
  | OpProcessTransaction cfg _ _ _ _ | OpMaybeAcceptTransaction cfg _ _ _ | OpCheckMempoolAcceptance cfg _
  | OpProcessOrphans cfg _ => Some cfg
  | _ => None
  end.
Definition mp_run (sched : list txValidateItem → list txValidateItem) (script_fuel : nat) (o : mp_op) (s : TxPool) : TxPool :=
  match o with
  | OpProcessTransaction cfg t a r tag => snd (ProcessTransaction sched script_fuel cfg t a r tag s)
  | OpMaybeAcceptTransaction cfg t n r => snd (MaybeAcceptTransaction sched script_fuel cfg t n r s)
  | OpCheckMempoolAcceptance cfg t => snd (CheckMempoolAcceptance sched script_fuel cfg t s)
  | OpProcessOrphans cfg t => snd (ProcessOrphans sched script_fuel cfg t s)
  | OpRemoveTransaction t rr => RemoveTransaction t rr s
  | OpRemoveDoubleSpends t => RemoveDoubleSpends t s
  | OpRemoveOrphan t => RemoveOrphan t s
  | OpRemoveOrphansByTag tag => snd (RemoveOrphansByTag tag s)
  end.
(** The states of a pool whose policy allows [max] orphans. *)
Inductive mp_reachable (sched : list txValidateItem → list txValidateItem) (script_fuel : nat) (max : Z) : TxPool → Prop :=
  | reach_new t : mp_reachable sched script_fuel max (New t)
  | reach_op o s : mp_reachable sched script_fuel max s →
      (∀ cfg, op_cfg o = Some cfg → MaxOrphanTxs (cfg_Policy cfg) = max) →
      mp_reachable sched script_fuel max (mp_run sched script_fuel o s).

Lemma mp_inv_new max t : mp_inv max (New t).
Proof.
  split; [split|apply map_Forall_empty|split|..]; cbn; try done.
  - intros op x. split; [done|]. by intros [(d & Hd & _) _].
  - intros op h x. split; [done|]. by intros (_ & (o & Ho & _) & _).
  - rewrite map_size_empty. lia.
Qed.
Lemma mp_run_ok sched fuel max o s :
  Env_ok → (∀ cfg, op_cfg o = Some cfg → MaxOrphanTxs (cfg_Policy cfg) = max) →
  mp_inv max s → mp_inv max (mp_run sched fuel o s).
Proof.
  intros He Hp Hs. destruct o as [cfg t a r tag|cfg t n r|cfg t|cfg t|t rr|t|t|tag]; cbn [mp_run].
  - rewrite <- (Hp cfg eq_refl) in *. eapply ProcessTransaction_ok; [done|done|apply surjective_pairing].
  - eapply accept_new; [done|done|apply surjective_pairing].
  - by apply (mp_inv_maps max s); [apply check_keeps|].
  - eapply processOrphans_ok; [done|done|apply surjective_pairing].
  - destruct (remove_tx_ok (S (size (mp_pool s))) t rr s (mi_pool _ _ Hs)).
    by apply (mp_inv_pool max s); [..|apply remove_tx_orphans].
  - destruct (RemoveDoubleSpends_ok t s (mi_pool _ _ Hs)) as (? & ? & ?). by apply (mp_inv_pool max s).
  - apply (mp_inv_shrink max s); [done|]. apply removeOrphan_ok, Hs.
  - apply (mp_inv_shrink max s); [done|]. apply range_all_orphans_ok, Hs.
Qed.
Lemma mp_reachable_inv sched fuel max s : Env_ok → mp_reachable sched fuel max s → mp_inv max s.
Proof. intros He. induction 1 as [t|o s _ IH Hp]; [apply mp_inv_new|by apply mp_run_ok]. Qed.
End Facts.

(** C10. In every state that the operations of the pool lead to, in any order and
    with any answers of the chain: the pool and its index of spent outputs
    agree, so that no two transactions in the pool spend the same output; the
    orphans and their index agree, with no empty list left behind; no
    transaction is in the pool and an orphan at once; and there are at most as
    many orphans as the policy allows. *)
Theorem mempool_invariant `{Crypto} `{Keys} `{Env} sched script_fuel max s :
  Env_ok → mp_reachable sched script_fuel max s →
  (∀ h d, mp_pool s !! h = Some d → TxHash (td_Tx d) = h) ∧
  (∀ op t, mp_outpoints s !! op = Some t ↔ in_pool s t ∧ op ∈ spent_outpoints t) ∧
  (∀ t t' op, in_pool s t → in_pool s t' → op ∈ spent_outpoints t → op ∈ spent_outpoints t' → t = t') ∧
  (∀ op h t, mp_orphansByPrev s !! op ≫= (.!! h) = Some t ↔
     (∃ o, mp_orphans s !! h = Some o ∧ o_tx o = t) ∧ op ∈ spent_outpoints t) ∧
  (∀ op, mp_orphansByPrev s !! op ≠ Some ∅) ∧
  (∀ h, isTransactionInPool s h && isOrphanInPool s h = false) ∧
  Z.of_nat (size (mp_orphans s)) <= Z.max 0 max.
Proof.
  intros He Hr. pose proof (mp_reachable_inv _ _ _ _ He Hr) as Hs.
  destruct Hs as [A F B C D]. split_and!; [apply A|apply A| |..|apply B| |done].
  - intros. by apply (no_double_spend s _ _ op).
  - intros op h t. rewrite (ok_link _ _ B). set_solver.
  - intros h. unfold isTransactionInPool, isOrphanInPool. case_bool_decide as Hp; [|done].
    rewrite bool_decide_eq_false_2; [done|]. rewrite (C h Hp). by intros [].
Qed.

(** ** What an accepted transaction spends and pays *)

Section Accepted.
Context `{CR : Crypto} `{KS : Keys} `{EN : Env}.

(** An output of a transaction of the pool. *)
Definition pool_output (s : TxPool) (op : OutPoint) : Prop :=
  ∃ p out, in_pool s p ∧ op_Hash op = TxHash p ∧ TxOuts p !! Z.to_nat (op_Index op) = Some out.
Lemma add_from_pool_unspent s v prevOut op :
  pool_ok s → is_Some (unspent (add_from_pool s v prevOut) op) → is_Some (unspent v op) ∨ pool_output s op.
Proof.
  intros Hs. unfold add_from_pool. destruct (spendable_entry v prevOut); [by left|].
  destruct (mp_pool s !! op_Hash prevOut) as [d|] eqn:Ed; [|by left].
  destruct (pool_in_pool s _ d Hs Ed) as [Hin Hh]. unfold AddTxOut. destruct (_ <=? _); [by left|].
  destruct (TxOuts (td_Tx d) !! Z.to_nat (op_Index prevOut)) as [out|] eqn:Eo; [|by left].
  unfold addTxOut. destruct (IsUnspendable _); [by left|]. unfold unspent, set_entry. cbn [entries].
  destruct (decide (op = mkOutPoint (TxHash (td_Tx d)) (op_Index prevOut))) as [->|Hne].
  - intros _. right. exists (td_Tx d), out. done.
  - rewrite lookup_insert_ne by done. by left.
Qed.
Lemma fetchInputUtxos_unspent cfg s t v op :
  pool_ok s → fetchInputUtxos cfg s t = VOk v → is_Some (unspent v op) →
  ∃ v0, FetchUtxoView cfg t = VOk v0 ∧ (is_Some (unspent v0 op) ∨ pool_output s op).
Proof.
  intros Hs. unfold fetchInputUtxos. intros (v0 & Hv0 & [= <-])%VRes_bind_ok Hop. exists v0. split; [done|].
  revert Hop. generalize (spent_outpoints t) as ops. intros ops. revert v0 Hv0.
  assert (∀ v0, is_Some (unspent (fold_left (add_from_pool s) ops v0) op) → is_Some (unspent v0 op) ∨ pool_output s op) as Hg; [|eauto].
  induction ops as [|o ops IH]; intros v0 Hop; [by left|]. cbn in Hop. destruct (IH _ Hop) as [Hx|]; [|by right].
  by eapply add_from_pool_unspent.
Qed.
Lemma fetchInputUtxos_mono cfg s t v0 v op :
  FetchUtxoView cfg t = VOk v0 → fetchInputUtxos cfg s t = VOk v → is_Some (unspent v0 op) → is_Some (unspent v op).
Proof.
  intros Hv0. unfold fetchInputUtxos. rewrite Hv0. intros [= <-]. generalize (spent_outpoints t) as ops. intros ops.
  revert v0 Hv0. assert (∀ v0, is_Some (unspent v0 op) → is_Some (unspent (fold_left (add_from_pool s) ops v0) op)) as Hg; [|eauto].
  induction ops as [|o ops IH]; intros v0 Hop; [done|]. cbn. apply IH. unfold add_from_pool.
  destruct (spendable_entry v0 o); [done|]. destruct (mp_pool s !! op_Hash o) as [d|]; [|done].
  unfold AddTxOut. destruct (_ <=? _); [done|]. destruct (TxOuts (td_Tx d) !! _) as [out|]; [|done].
  unfold addTxOut. destruct (IsUnspendable _); [done|]. unfold unspent, set_entry in *. cbn [entries].
  destruct (decide (op = mkOutPoint (TxHash (td_Tx d)) (op_Index o))) as [->|Hne]; [|by rewrite lookup_insert_ne].
  rewrite lookup_insert_eq. destruct (IsCoinBaseTx (td_Tx d)); cbn; eauto.
Qed.
Lemma check_own_outputs_ok ops v v' :
  check_own_outputs ops v = MOk v' → ∀ op, is_Some (unspent v' op) → is_Some (unspent v op).
Proof.
  revert v. induction ops as [|o ops IH]; intros v; cbn [check_own_outputs]; [by intros [= <-]|].
  intros ([] & _ & Hx)%MRes_bind_ok op Hop. specialize (IH _ Hx op Hop). unfold unspent, RemoveEntry in *. cbn in IH.
  destruct (decide (op = o)) as [->|]; [rewrite lookup_delete_eq in IH; by destruct IH|]. by rewrite lookup_delete_ne in IH.
Qed.
Lemma check_own_outputs_new ops v v' : check_own_outputs ops v = MOk v' → ∀ op, op ∈ ops → unspent v op = None.
Proof.
  revert v. induction ops as [|o ops IH]; intros v; cbn [check_own_outputs]; [by intros _ op ?%elem_of_nil|].
  intros ([] & Ho%refuse_if_ok%bool_decide_eq_false & Hx)%MRes_bind_ok op Hop.
  assert (unspent v o = None) as Hn.
  { unfold spendable_entry, LookupEntry in Ho. unfold unspent. destruct (entries v !! o) as [e|]; [|done].
    destruct (IsSpent e); [done|]. by destruct Ho; eauto. }
  destruct (decide (op = o)) as [->|Hne]; [done|]. apply elem_of_cons in Hop as [?|Hop]; [done|].
  specialize (IH _ Hx op Hop). unfold unspent, RemoveEntry in IH. cbn in IH. by rewrite lookup_delete_ne in IH.
Qed.

(** What the transactions without the fee amount to, decayed until now. *)
Definition free_total (s : TxPool) : f64 :=
  f64_mul (mp_pennyTotal s) (math_Pow decay (f64_of_Z (Unix (now s) - mp_lastPennyUnix s))).
(** The rule for the fee: the minimum for the size, or the transaction is small
    and either is neither new nor limited, or has the priority that is asked of
    a new one (unless the policy asks none) and the free ones are within their
    limit. *)
Definition relay_fee_met (cfg : Config) (t : MsgTx) (fee : Z) (v : UtxoViewpoint) (isNew rateLimit : bool) (s : TxPool) : Prop :=
  calcMinRequiredTxRelayFee (GetTxVirtualSize t) (MinRelayTxFee (cfg_Policy cfg)) <= fee ∨
  (GetTxVirtualSize t < 49000 ∧
   ((isNew = false ∧ rateLimit = false) ∨
    ((isNew = true → DisableRelayPriority (cfg_Policy cfg) = true ∨
        f_le (CalcPriority t v (int32 (BestHeight cfg + 1))) MinHighPriority = false) ∧
     f_ge (free_total s) (free_limit cfg) = false))).
Lemma relay_fee_ok cfg t fee v isNew rateLimit s s' :
  validateRelayFeeMet cfg t fee (GetTxVirtualSize t) v (int32 (BestHeight cfg + 1)) isNew rateLimit s = (MOk tt, s') →
  relay_fee_met cfg t fee v isNew rateLimit s.
Proof.
  unfold validateRelayFeeMet, relay_fee_met. intros ([] & ? & [Hsz%refuse_if_ok <-]%give_ok & Hx)%PM_bind_ok. revert Hx.
  destruct (Z.leb_spec (calcMinRequiredTxRelayFee (GetTxVirtualSize t) (MinRelayTxFee (cfg_Policy cfg))) fee) as [?|Hlt]; [by left|].
  rewrite (proj2 (Z.ltb_lt fee _) Hlt), andb_true_r in Hsz. apply Z.leb_gt in Hsz. unfold DefaultBlockPrioritySize in Hsz.
  intros Hx. right. split; [lia|]. destruct (negb isNew && negb rateLimit) eqn:Hfree.
  { left. by destruct isNew, rateLimit. }
  right. apply PM_bind_ok in Hx as ([] & ? & [Hp%refuse_if_ok <-]%give_ok & Hx). split.
  - intros ->. destruct (DisableRelayPriority (cfg_Policy cfg)); [by left|]. cbn in Hp. by right.
  - apply PM_bind_ok in Hx as (nowUnix & s1 & [= <- <-] & Hx). apply PM_bind_ok in Hx as ([] & s1 & [= <-] & Hx).
    apply PM_bind_ok in Hx as ([] & s1 & [= <-] & Hx). apply PM_bind_ok in Hx as (total & s1 & [= <- <-] & Hx).
    apply PM_bind_ok in Hx as ([] & s1 & [Hl%refuse_if_ok _]%give_ok & _). exact Hl.
Qed.
End Accepted.

(** C12. A transaction that is accepted was not in the pool; it is sane and no
    coinbase; each of its inputs is an output that the chain has unspent or an
    output of a transaction in the pool, and none of its own outputs is unspent
    in the chain; its fee is what its inputs are worth over its outputs; this
    fee is no less than the minimum for its size, or the transaction is below
    49000 bytes and is let through without it: because it is neither new nor
    limited, or because it has a high priority when it is new (unless the
    policy asks none) and the free transactions of the last minutes are within
    their limit; its locks are over; its scripts
    verify under the standard rules; and it is in the pool afterwards. *)
Theorem accepted_transaction `{Crypto} `{Keys} `{Env} sched script_fuel max s cfg t isNew rateLimit d s' :
  Env_ok → mp_reachable sched script_fuel max s →
  MaybeAcceptTransaction sched script_fuel cfg t isNew rateLimit s = (MOk ([], Some d), s') →
  isTransactionInPool s (TxHash t) = false ∧ isOrphanInPool s (TxHash t) = false ∧
  sane t ∧ IsCoinBaseTx t = false ∧
  ∃ v0 v, FetchUtxoView cfg t = VOk v0 ∧
    (∀ op, op ∈ spent_outpoints t → is_Some (unspent v op) ∧ (is_Some (unspent v0 op) ∨ pool_output s op)) ∧
    (∀ op, op ∈ own_outpoints t → unspent v0 op = None) ∧
    td_Fee d = worth (spent_outpoints t) (unspent v) - out_values (TxOuts t) ∧ 0 <= td_Fee d <= MaxSatoshi ∧
    relay_fee_met cfg t (td_Fee d) v isNew rateLimit s ∧
    (∃ l, CalcSequenceLock cfg t v = VOk l ∧ SequenceLockActive l (int32 (BestHeight cfg + 1)) (MedianTimePast cfg) = true) ∧
    ValidateTransactionScripts sched script_fuel t v StandardVerifyFlags = VOk tt ∧
    mp_pool s' !! TxHash t = Some d ∧ td_Tx d = t.
Proof.
  intros He Hreach Hm. pose proof (mp_reachable_inv _ _ _ _ He Hreach) as Hinv. pose proof (mi_pool _ _ Hinv) as Hs.
  destruct (maybe_accept_cases _ _ _ _ _ _ _ _ _ _ He Hs Hm) as (_ & _ & [(r & d' & [= <-] & Ha & [Htx Hrep] & Hfee)|[_ Hn]]);
    [|by destruct (Hn [] d)].
  destruct Ha as [A1 A2 A3 A4 (v1 & Hv1 & Hown) A6 A7 A8 A9 (sp & A10) A11 A12]. specialize (A2 eq_refl).
  apply CheckTransactionSanity_ok in A3.
  destruct (CheckTransactionInputs_ok t _ _ _ _ A3 A4 A7) as (F1 & F2 & F3).
  unfold inputs in F1, F3. rewrite A4 in F1, F3. rewrite Hfee.
  split_and!; [unfold isTransactionInPool; by rewrite A1|unfold isOrphanInPool; by rewrite A2|done|done|].
  pose proof Hv1 as (v0 & Hv0 & _)%VRes_bind_ok. pose proof (check_own_outputs_ok _ _ _ Hown) as O1.
  exists v0, (ar_utxoView r). split_and!; try done; try apply F2.
  - intros op Hop. specialize (F3 op Hop). split; [done|].
    destruct (fetchInputUtxos_unspent cfg s t v1 op Hs Hv1 (O1 op F3)) as (v0' & Hv0' & Hx).
    rewrite Hv0 in Hv0'. by injection Hv0' as <-.
  - intros op Hop. apply eq_None_not_Some. intros Hx%(fetchInputUtxos_mono cfg s t v0 v1 op Hv0 Hv1).
    rewrite (check_own_outputs_new _ _ _ Hown op Hop) in Hx. by destruct Hx.
  - by eapply relay_fee_ok.
  - rewrite Hrep. by rewrite decide_True.
Qed.
