(* ===== verification/MempoolGraph.v ===== *)
(** * The memory pool: relatives, removal and replacement

    The searches over the transactions of the pool agree with reachability,
    removal with redeemers takes exactly a transaction and its descendants,
    and a replacement evicts exactly what it conflicts with, under the bounds
    of the policy.  All of it under the hypothesis that the transactions of
    the pool spend each other without a cycle, which a hash function without
    cycles ensures: [rank] orders them. *)

From Stdlib Require Import ZArith Lia.
From stdpp Require Import base numbers list strings gmap relations.
From S2P Require Import Prelude GoFloat ScriptNum WireBase WireTx ScriptStack ScriptToken Sighash WireMsg Taproot ScriptEngine ScriptExec ScriptStandard ChainCompress ChainUtxo ChainError ChainNode ChainParams ChainRules ChainConnect Mempool MempoolFacts.

Open Scope Z_scope.

(** ** A search with a cache *)

(** [m] holds exactly the transactions with [P]. *)
Definition collects `{Crypto} (m : Relatives) (P : MsgTx → Prop) : Prop := ∀ k b, m !! k = Some b ↔ P b ∧ TxHash b = k.

Section Search.
Context `{CR : Crypto}.
Context (node : MsgTx → Prop) (step : MsgTx → list MsgTx) (mu : MsgTx → nat).
Context (node_inj : ∀ a b, node a → node b → TxHash a = TxHash b → a = b).

Lemma collects_empty : collects ∅ (λ _, False).
Proof. intros k b. by split; [intros ?%lookup_empty_Some|intros [[] _]]. Qed.
Lemma collects_ext m P Q : collects m P → (∀ b, P b ↔ Q b) → collects m Q.
Proof. intros Hm HPQ k b. by rewrite (Hm k b), HPQ. Qed.
Lemma collects_insert m P x :
  collects m P → (∀ b, P b → node b) → node x → collects (<[TxHash x := x]> m) (λ b, b = x ∨ P b).
Proof.
  intros Hm HP Hx k b. rewrite lookup_insert_Some, (Hm k b). split.
  - intros [[<- <-]|[_ [? ?]]]; auto.
  - intros [Hb <-]. destruct (decide (TxHash x = TxHash b)) as [E|E].
    + left. split; [done|]. apply node_inj; [done| |done]. destruct Hb as [->|?]; auto.
    + right. destruct Hb as [->|?]; done.
Qed.
Lemma collects_union m m' P P' :
  collects m P → collects m' P' → (∀ b, P b → node b) → (∀ b, P' b → node b) → collects (m ∪ m') (λ b, P b ∨ P' b).
Proof.
  intros Hm Hm' HP HP' k b. rewrite lookup_union_Some_raw, (Hm' k b). split.
  - intros [[? ?]%Hm|[_ [? ?]]]; auto.
  - intros [Hb Hk]. destruct (m !! k) as [b'|] eqn:Em.
    + left. f_equal. apply Hm in Em as [Hb' Hk']. apply node_inj; [auto| |congruence]. destruct Hb; auto.
    + right. destruct Hb as [Hb|Hb]; [|done]. by rewrite (proj2 (Hm k b) (conj Hb Hk)) in Em.
Qed.

Context (step_node : ∀ a b, b ∈ step a → node b).
Context (step_mu : ∀ a b, node a → b ∈ step a → (mu b < mu a)%nat).

Definition edge (a b : MsgTx) : Prop := b ∈ step a.
Definition reached (t : MsgTx) (m : Relatives) : Prop := collects m (tc edge t).
Definition cache_ok (cache : gmap Hash Relatives) : Prop :=
  ∀ k m, cache !! k = Some m → ∃ t, node t ∧ TxHash t = k ∧ reached t m.

Lemma tc_node a b : tc edge a b → node b.
Proof. induction 1 as [a b Hab|a b c _ _ IH]; [by eapply step_node|done]. Qed.

(** The loop over the first steps [nexts]. *)
Lemma relatives_loop_ok rec (nexts : list MsgTx) :
  (∀ n cache, n ∈ nexts → cache_ok cache → reached n (fst (rec n cache)) ∧ cache_ok (snd (rec n cache))) →
  ∀ found cache (P : MsgTx → Prop),
    (∀ b, P b → node b) → collects found P → (∀ n, n ∈ nexts → node n) → cache_ok cache →
    collects (fst (relatives_loop rec nexts found cache)) (λ b, P b ∨ ∃ n, n ∈ nexts ∧ rtc edge n b) ∧
    cache_ok (snd (relatives_loop rec nexts found cache)).
Proof.
  induction nexts as [|n nexts IH]; intros Hrec found cache P HP Hf Hn Hc; cbn [relatives_loop].
  { split; [|done]. apply (collects_ext _ P); [done|]. set_solver. }
  set (r := match cache !! TxHash n with Some more => _ | None => _ end).
  assert (reached n (fst r) ∧ cache_ok (snd r)) as [Hr1 Hr2].
  { subst r. destruct (cache !! TxHash n) as [more|] eqn:Em.
    - split; [|done]. destruct (Hc _ _ Em) as (t & Ht & Hh & Hr). by rewrite (node_inj n t); [|apply Hn; left|..].
    - destruct (Hrec n cache) as [H1 H2]; [by left|done|]. destruct (rec n cache) as [more cache']. cbn in *. split; [done|].
      intros k m [[<- <-]|[_ Hx]]%lookup_insert_Some; [|by apply H2]. exists n. split_and!; [apply Hn; by left|done..]. }
  destruct r as [more cache']. cbn in Hr1, Hr2. assert (node n) as Hnn by (apply Hn; by left).
  destruct IH with (found := more ∪ <[TxHash n := n]> found) (cache := cache') (P := λ b, tc edge n b ∨ b = n ∨ P b) as [I1 I2].
  - intros n' c Hn'. apply Hrec. by right.
  - intros b [?|[->|?]]; [by eapply tc_node|done|by apply HP].
  - apply collects_union; [done|by apply collects_insert|apply tc_node|]. intros b [->|?]; [done|by apply HP].
  - intros x Hx. apply Hn. by right.
  - done.
  - split; [|done]. apply (collects_ext _ _ _ I1). intros b. setoid_rewrite elem_of_cons.
    split; [intros [[?%tc_rtc|[->|?]]|(x & ? & ?)]; [right; exists n; auto|right; exists n; auto using rtc_refl|by left|right; exists x; auto]|].
    intros [?|(x & [->|?] & Hb)]; [auto| |eauto]. apply rtc_tc in Hb as [->|?]; auto.
Qed.
Lemma relatives_ok fuel t cache :
  (0 < fuel)%nat → (∀ b, b ∈ step t → S (mu b) < fuel)%nat → cache_ok cache →
  reached t (fst (relatives fuel step t cache)) ∧ cache_ok (snd (relatives fuel step t cache)).
Proof.
  revert t cache. induction fuel as [|fuel IH]; intros t cache Hf Hmu Hc; [lia|]. cbn [relatives].
  destruct (relatives_loop_ok (relatives fuel step) (step t)) with (found := ∅ : Relatives) (cache := cache) (P := λ _ : MsgTx, False)
    as [L1 L2]; try done.
  - intros n c Hn Hc'. apply IH; [specialize (Hmu n Hn); lia| |done]. intros b Hb.
    specialize (Hmu n Hn). pose proof (step_mu n b (step_node t n Hn) Hb). lia.
  - apply collects_empty.
  - intros n Hn. by eapply step_node.
  - split; [|done]. apply (collects_ext _ _ _ L1). intros b. split.
    + intros [[]|(n & Hn & Hb)]. eapply tc_rtc_r; [by apply tc_once|done].
    + intros Hb. right. destruct Hb as [x b Hb|x n b Hn Hb]; [by exists b|]. exists n. split; [done|by apply tc_rtc].
Qed.
Lemma relatives_reached fuel t :
  (0 < fuel)%nat → (∀ b, b ∈ step t → S (mu b) < fuel)%nat → reached t (fst (relatives fuel step t ∅)).
Proof. intros Hf Hmu. apply relatives_ok; [done..|]. by intros k m ?%lookup_empty_Some. Qed.
End Search.

(** ** The graph of the pool *)

Lemma filter_smaller {A} (m : gmap Hash A) h (P Q : Hash * A → Prop) `{∀ x, Decision (P x), ∀ x, Decision (Q x)} :
  (∀ x, P x → Q x) → is_Some (m !! h) → (∀ a, Q (h, a)) → (∀ a, ¬ P (h, a)) →
  (size (filter P m) < size (filter Q m))%nat.
Proof.
  intros HPQ [a Ha] HQ HP. apply map_subset_size, map_subset_alt. split.
  - apply map_filter_subseteq_ext. intros. by apply HPQ.
  - exists h. split; [|exists a; by apply map_lookup_filter_Some].
    apply map_lookup_filter_None_2. right. intros x _. apply HP.
Qed.

Section Graph.
Context `{CR : Crypto} `{KS : Keys} `{EN : Env}.

(** [c] spends an output of [t]. *)
Definition child (s : TxPool) (t c : MsgTx) : Prop := c ∈ redeemers s t.
Definition parent_of (s : TxPool) (t p : MsgTx) : Prop := p ∈ parents s t.
Definition descendant (s : TxPool) : MsgTx → MsgTx → Prop := tc (child s).
Definition ancestor (s : TxPool) : MsgTx → MsgTx → Prop := tc (parent_of s).

(** Spending goes up in the order. *)
Definition ranked (rank : Hash → nat) (s : TxPool) : Prop :=
  ∀ t op, in_pool s t → op ∈ spent_outpoints t → is_Some (mp_pool s !! op_Hash op) → (rank (op_Hash op) < rank (TxHash t))%nat.

Lemma own_hash t op : op ∈ own_outpoints t → op_Hash op = TxHash t.
Proof.
  unfold own_outpoints, ChainUtxo.outpoints. intros (p & -> & Hp)%list_elem_of_fmap.
  apply elem_of_lookup_imap in Hp as (i & to & -> & _). done.
Qed.
Lemma child_spec s t c :
  pool_ok s → child s t c ↔ in_pool s c ∧ ∃ op, op ∈ own_outpoints t ∧ op ∈ spent_outpoints c.
Proof.
  intros Hs. unfold child, redeemers. rewrite list_elem_of_omap. split.
  - intros (op & Hop & Hx). apply (pk_out s Hs) in Hx as [? ?]. eauto.
  - intros (Hc & op & Ho & Hx). exists op. split; [done|]. by apply (pk_out s Hs).
Qed.
Lemma parent_spec s t p :
  pool_ok s → parent_of s t p ↔ in_pool s p ∧ ∃ op, op ∈ spent_outpoints t ∧ op_Hash op = TxHash p.
Proof.
  intros Hs. unfold parent_of, parents. rewrite list_elem_of_omap. split.
  - intros (op & Hop & (d & Hd & ->)%fmap_Some). destruct (pool_in_pool s _ d Hs Hd) as [? ?]. eauto.
  - intros ((d & Hd & <-) & op & Ho & Hh). exists op. split; [done|]. by rewrite Hh, Hd.
Qed.

Section Ranked.
Context (rank : Hash → nat) (s : TxPool) (Hs : pool_ok s) (Hr : ranked rank s).

Lemma child_rank t c : in_pool s t → child s t c → (rank (TxHash t) < rank (TxHash c))%nat.
Proof.
  intros (d & Hd & Ed) (Hc & op & Ho & Hx)%(child_spec s t c Hs). rewrite <- (own_hash t op Ho).
  apply Hr; [done..|]. rewrite (own_hash t op Ho). eauto.
Qed.
Lemma parent_rank t p : in_pool s t → parent_of s t p → (rank (TxHash p) < rank (TxHash t))%nat.
Proof.
  intros Ht ((d & Hd & Ed) & op & Ho & Hh)%(parent_spec s t p Hs). rewrite <- Hh. apply Hr; [done..|]. rewrite Hh. eauto.
Qed.

(** The transactions of the pool above and below a rank. *)
Definition above (r : nat) : nat := size (filter (λ p : Hash * TxDesc, r < rank p.1)%nat (mp_pool s)).
Definition below (r : nat) : nat := size (filter (λ p : Hash * TxDesc, rank p.1 < r)%nat (mp_pool s)).
Lemma above_lt h r : is_Some (mp_pool s !! h) → (r < rank h)%nat → (above (rank h) < above r)%nat.
Proof. clear Hs Hr. intros Hh Hlt. apply (filter_smaller _ h); cbn; [intros; lia|done|lia..]. Qed.
Lemma above_pool h : is_Some (mp_pool s !! h) → (above (rank h) < size (mp_pool s))%nat.
Proof.
  clear Hs Hr. intros Hh. rewrite <- (map_filter_id (λ _ : Hash * TxDesc, True) (mp_pool s)) at 1 by done.
  apply (filter_smaller _ h); cbn; [done|done|done|lia].
Qed.
Lemma below_lt h r : is_Some (mp_pool s !! h) → (rank h < r)%nat → (below (rank h) < below r)%nat.
Proof. clear Hs Hr. intros Hh Hlt. apply (filter_smaller _ h); cbn; [intros; lia|done|lia..]. Qed.
Lemma below_pool h : is_Some (mp_pool s !! h) → (below (rank h) < size (mp_pool s))%nat.
Proof.
  clear Hs Hr. intros Hh. rewrite <- (map_filter_id (λ _ : Hash * TxDesc, True) (mp_pool s)) at 1 by done.
  apply (filter_smaller _ h); cbn; [done|done|done|lia].
Qed.
Lemma in_pool_some t : in_pool s t → is_Some (mp_pool s !! TxHash t).
Proof. intros (d & Hd & _). eauto. Qed.

(** The searches find exactly the relatives. *)
Lemma txDescendants_spec t : collects (txDescendants s t) (descendant s t).
Proof.
  apply (relatives_reached (in_pool s) (redeemers s) (λ b, above (rank (TxHash b)))); [apply in_pool_inj|..|lia|].
  - intros a c Hc. by apply (child_spec s a c Hs) in Hc as [? _].
  - intros a c Ha Hc. pose proof (child_rank a c Ha Hc). apply (child_spec s a c Hs) in Hc as [Hc _].
    by apply above_lt; [apply in_pool_some|].
  - intros c Hc. apply (child_spec s t c Hs) in Hc as [Hc _]. pose proof (above_pool _ (in_pool_some c Hc)). lia.
Qed.
Lemma txAncestors_spec t : collects (txAncestors s t) (ancestor s t).
Proof.
  apply (relatives_reached (in_pool s) (parents s) (λ b, below (rank (TxHash b)))); [apply in_pool_inj|..|lia|].
  - intros a c Hc. by apply (parent_spec s a c Hs) in Hc as [? _].
  - intros a c Ha Hc. pose proof (parent_rank a c Ha Hc). apply (parent_spec s a c Hs) in Hc as [Hc _].
    by apply below_lt; [apply in_pool_some|].
  - intros c Hc. apply (parent_spec s t c Hs) in Hc as [Hc _]. pose proof (below_pool _ (in_pool_some c Hc)). lia.
Qed.
(** A conflict spends an input of [t] or descends from one that does. *)
Definition conflicting (t c : MsgTx) : Prop :=
  ∃ op x, op ∈ spent_outpoints t ∧ mp_outpoints s !! op = Some x ∧ (c = x ∨ descendant s x c).
Lemma descendant_in_pool t c : descendant s t c → in_pool s c.
Proof. apply (tc_node (in_pool s) (redeemers s)). intros a b Hb. by apply (child_spec s a b Hs) in Hb as [? _]. Qed.
Lemma conflicting_in_pool t c : conflicting t c → in_pool s c.
Proof. intros (op & x & _ & Hx & [->|Hc]); [by apply (pk_out s Hs) in Hx as [? _]|by eapply descendant_in_pool]. Qed.
Lemma txConflicts_spec t : collects (txConflicts s t) (conflicting t).
Proof.
  unfold txConflicts, conflicting. set (f := λ _ _, _). generalize (spent_outpoints t) as ops. intros ops.
  assert (∀ m P, collects m P → (∀ b, P b → in_pool s b) →
    collects (foldl f m ops) (λ c, P c ∨ ∃ op x, op ∈ ops ∧ mp_outpoints s !! op = Some x ∧ (c = x ∨ descendant s x c))) as Hg.
  { induction ops as [|op ops IH]; intros m P Hm HP; cbn [foldl]; [apply (collects_ext _ P); [done|set_solver]|].
    unfold f at 2. destruct (mp_outpoints s !! op) as [x|] eqn:Ex.
    - pose proof (proj1 (proj1 (pk_out s Hs op x) Ex)) as Hx.
      eapply collects_ext; [apply (IH _ (λ c, descendant s x c ∨ c = x ∨ P c))|].
      + apply (collects_union (in_pool s)); [apply in_pool_inj|apply txDescendants_spec| |apply descendant_in_pool|].
        * by apply (collects_insert (in_pool s)); [apply in_pool_inj|..].
        * intros b [->|?]; auto.
      + intros b [?|[->|?]]; eauto using descendant_in_pool.
      + intros b. setoid_rewrite elem_of_cons. split.
        * intros [[?|[->|?]]|(o & y & ? & ? & ?)]; eauto 10.
        * intros [?|(o & y & [->|?] & Ey & Hb)]; [auto| |eauto 10]. rewrite Ex in Ey. injection Ey as ->. destruct Hb as [->|?]; auto.
    - eapply collects_ext; [by apply (IH _ P)|]. intros b. setoid_rewrite elem_of_cons. split; [intros [?|(o & y & ? & ? & ?)]; eauto 10|].
      intros [?|(o & y & [->|?] & Ey & Hb)]; [auto|congruence|eauto 10]. }
  eapply collects_ext; [by apply (Hg _ _ collects_empty)|]. cbn. tauto.
Qed.

(** *** Signalling *)

Definition signals_itself (t : MsgTx) : Prop := Exists (λ ti, Sequence ti <= MaxRBFSequence) (TxIns t).
(** The transaction or one of its ancestors in the pool signals. *)
Definition signals (t : MsgTx) : Prop := signals_itself t ∨ ∃ a, ancestor s t a ∧ signals_itself a.
Definition input_signals (ti : TxIn) : Prop :=
  Sequence ti <= MaxRBFSequence ∨
  ∃ p, in_pool s p ∧ op_Hash (PreviousOutPoint ti) = TxHash p ∧ signals p.
Lemma signals_inputs_iff t : signals t ↔ Exists input_signals (TxIns t).
Proof.
  rewrite Exists_exists. unfold signals, signals_itself. setoid_rewrite Exists_exists. split.
  - intros [(ti & ? & ?)|(a & Ha & Hsig)]; [exists ti; split; [done|by left]|].
    assert (∃ p, parent_of s t p ∧ signals p) as (p & (Hp & op & Hop & Hh)%(parent_spec s t p Hs) & Hsp).
    { unfold signals, signals_itself. setoid_rewrite Exists_exists. destruct Ha as [x a Hxa|x y a Hxy Hya];
        [exists a; split; [done|by left]|exists y; split; [done|right; by exists a]]. }
    apply list_elem_of_fmap in Hop as (ti & -> & Hti). exists ti. split; [done|right]. eauto.
  - intros (ti & Hti & [?|(p & Hp & Hh & Hsp)]); [left; eauto|right].
    assert (parent_of s t p) as Hpar.
    { apply (parent_spec s t p Hs). split; [done|]. exists (PreviousOutPoint ti). split; [|done]. by apply list_elem_of_fmap_2. }
    unfold signals, signals_itself in Hsp. setoid_rewrite Exists_exists in Hsp.
    destruct Hsp as [Hsp|(a & Ha & Hsp)]; [exists p; split; [by apply tc_once|done]|exists a; split; [by eapply tc_l|done]].
Qed.
Definition silent (cache : gset Hash) : Prop := ∀ x, in_pool s x → TxHash x ∈ cache → ¬ signals x.
Lemma silent_empty : silent ∅.
Proof. intros x _ Hx. set_solver. Qed.
Definition signals_result (P : Prop) (r : bool * gset Hash) : Prop := if r.1 then P else ¬ P ∧ silent r.2.
Lemma signals_loop rec ins cache :
  (∀ ti p c, ti ∈ ins → in_pool s p → op_Hash (PreviousOutPoint ti) = TxHash p → silent c → signals_result (signals p) (rec p c)) →
  silent cache → signals_result (Exists input_signals ins) (signals_inputs rec s ins cache).
Proof.
  revert cache. induction ins as [|ti ins IH]; intros cache Hrec Hc; cbn [signals_inputs].
  { split; [|done]. by intros ?%Exists_nil. }
  destruct (Z.leb_spec (Sequence ti) MaxRBFSequence) as [Hle|Hgt]; [by constructor; left|].
  assert (∀ cache, ¬ input_signals ti → silent cache → signals_result (Exists input_signals (ti :: ins)) (signals_inputs rec s ins cache)) as Hgo.
  { intros c Hn Hsc. specialize (IH c (λ ti p c Hti, Hrec ti p c ltac:(by right)) Hsc). revert IH. unfold signals_result.
    destruct (signals_inputs rec s ins c) as [[] c']; cbn; [by right|]. intros [? ?]. split; [|done]. by intros [?|?]%Exists_cons. }
  destruct (mp_pool s !! op_Hash (PreviousOutPoint ti)) as [d|] eqn:Ed.
  - destruct (pool_in_pool s _ d Hs Ed) as [Hin Hh].
    assert (¬ signals (td_Tx d) → ¬ input_signals ti) as Hsil.
    { intros Hn [?|(p & Hp & Hph & Hsp)]; [lia|]. by rewrite (in_pool_inj s (td_Tx d) p) in Hn by congruence. }
    case_bool_decide as Hm; [apply Hgo; [apply Hsil, Hc; by rewrite ?Hh|done]|].
    pose proof (Hrec ti (td_Tx d) cache ltac:(by left) Hin (eq_sym Hh) Hc) as Hx. unfold signals_result in Hx.
    destruct (rec (td_Tx d) cache) as [[] c']; cbn in Hx; [constructor; right; eauto|].
    destruct Hx as [Hx1 Hx2]. apply Hgo; [by apply Hsil|]. intros x Hxin [E%elem_of_singleton|Hxc]%elem_of_union; [|by apply Hx2].
    by rewrite (in_pool_inj s x (td_Tx d)) by congruence.
  - apply Hgo; [|done]. intros [?|(p & (d & Hd & _) & Hh & _)]; [lia|congruence].
Qed.
Lemma signals_fuel_ok fuel t cache :
  (0 < fuel)%nat → (∀ p, parent_of s t p → S (below (rank (TxHash p))) < fuel)%nat → silent cache →
  signals_result (signals t) (signals_fuel fuel s t cache).
Proof.
  revert t cache. induction fuel as [|fuel IH]; intros t cache Hf Hfuel Hc; [lia|]. cbn [signals_fuel].
  assert (signals_result (Exists input_signals (TxIns t)) (signals_inputs (signals_fuel fuel s) s (TxIns t) cache)) as Hx.
  { apply signals_loop; [|done]. intros ti p c Hti Hp Hh Hsc.
    assert (parent_of s t p) as Hpar.
    { apply (parent_spec s t p Hs). split; [done|]. exists (PreviousOutPoint ti). split; [|done]. by apply list_elem_of_fmap_2. }
    specialize (Hfuel p Hpar). apply IH; [lia| |done]. intros q Hq. pose proof (parent_rank p q Hp Hq) as Hlt.
    apply (parent_spec s p q Hs) in Hq as [Hq _]. pose proof (below_lt _ _ (in_pool_some q Hq) Hlt). lia. }
  unfold signals_result in *. destruct (signals_inputs _ _ _ _) as [[] c']; cbn in *; by rewrite (signals_inputs_iff t).
Qed.
Lemma signalsReplacement_spec t : signalsReplacement s t = true ↔ signals t.
Proof.
  unfold signalsReplacement. pose proof (signals_fuel_ok (S (size (mp_pool s))) t ∅) as Hx. unfold signals_result in Hx.
  destruct (signals_fuel _ s t ∅) as [[] c']; cbn in *.
  - split; [intros _|done]. apply Hx; [lia| |apply silent_empty]. intros p (Hp & _)%(parent_spec s t p Hs).
    pose proof (below_pool _ (in_pool_some p Hp)). lia.
  - split; [done|]. intros Hsig. destruct Hx as [Hn _]; [lia| |apply silent_empty|done]. intros p (Hp & _)%(parent_spec s t p Hs).
    pose proof (below_pool _ (in_pool_some p Hp)). lia.
Qed.
End Ranked.

(** ** Removal with redeemers *)

(** What was in the pool and is no more. *)
Definition gone (s s' : TxPool) (k : Hash) : Prop := is_Some (mp_pool s !! k) ∧ mp_pool s' !! k = None.
Definition sub_pool (s s' : TxPool) : Prop := pool_ok s' ∧ mp_pool s' ⊆ mp_pool s.

Lemma in_pool_sub s s' t : sub_pool s s' → in_pool s' t ↔ in_pool s t ∧ ¬ gone s s' (TxHash t).
Proof.
  intros [_ Hsub]. split.
  - intros (d & Hd & Ed). split; [exists d; split; [by eapply lookup_weaken|done]|]. intros [_ Hn]. congruence.
  - intros [(d & Hd & Ed) Hg]. destruct (mp_pool s' !! TxHash t) as [d'|] eqn:E; [|destruct Hg; split; [eauto|done]].
    pose proof (lookup_weaken _ _ _ _ E Hsub) as E'. rewrite Hd in E'. injection E' as ->. by exists d'.
Qed.
Lemma ranked_sub rank s s' : sub_pool s s' → ranked rank s → ranked rank s'.
Proof.
  intros Hsub Hr t op Ht%(in_pool_sub s s' t Hsub) Ho [d Hd]. apply Hr; [apply Ht|done|].
  exists d. by eapply lookup_weaken; [|apply Hsub].
Qed.
Lemma above_sub rank s s' r : sub_pool s s' → (above rank s' r <= above rank s r)%nat.
Proof. intros [_ Hsub]. by apply map_subseteq_size, map_filter_subseteq_mono. Qed.

(** What is gone takes its redeemers with it. *)
Definition closed (s s' : TxPool) : Prop :=
  ∀ c c', in_pool s c → gone s s' (TxHash c) → child s c c' → gone s s' (TxHash c').
Lemma closed_descendant s s' c c' :
  pool_ok s → closed s s' → in_pool s c → gone s s' (TxHash c) → descendant s c c' → gone s s' (TxHash c').
Proof.
  intros Hs Hc Hin Hg Hd. induction Hd as [a b Hab|a b e Hab _ IH]; [by eapply Hc|].
  apply IH; [by apply (child_spec s a b Hs)|by eapply Hc].
Qed.
Lemma descendant_sub s s' c c' :
  pool_ok s → sub_pool s s' → closed s s' → descendant s' c c' ↔ descendant s c c' ∧ ¬ gone s s' (TxHash c').
Proof.
  intros Hs Hsub Hcl. assert (∀ a b, child s' a b ↔ child s a b ∧ ¬ gone s s' (TxHash b)) as Hch.
  { intros a b. rewrite (child_spec s' a b (proj1 Hsub)), (child_spec s a b Hs), (in_pool_sub s s' b Hsub). tauto. }
  split.
  - intros Hd. induction Hd as [a b [? ?]%Hch|a b e [? ?]%Hch _ [IH1 IH2]]; [split; [by apply tc_once|done]|].
    split; [by eapply tc_l|done].
  - intros [Hd Hg]. induction Hd as [a b Hab|a b e Hab Hbe IH]; [by apply tc_once, Hch|].
    eapply tc_l; [|by apply IH]. apply Hch. split; [done|]. intros Hb. apply Hg.
    apply (closed_descendant s s' b); [done..|by apply (child_spec s a b Hs)|done|done].
Qed.

(** A transaction or one of its descendants has the hash. *)
Definition family (s : TxPool) (t : MsgTx) (k : Hash) : Prop := k = TxHash t ∨ ∃ c, descendant s t c ∧ TxHash c = k.
Lemma family_in_pool s t k : pool_ok s → in_pool s t → family s t k → is_Some (mp_pool s !! k).
Proof.
  intros Hs Ht [->|(c & Hc & <-)]; [by apply in_pool_some|]. apply in_pool_some. by eapply descendant_in_pool.
Qed.

Section Removal.
Context (rank : Hash → nat).

Definition exact_removal (fuel : nat) : Prop :=
  ∀ t s, pool_ok s → ranked rank s → (0 < fuel)%nat → (∀ c, child s t c → S (above rank s (rank (TxHash c))) < fuel)%nat →
  ∀ k, gone s (remove_tx fuel t true s) k ↔ is_Some (mp_pool s !! k) ∧ family s t k.

(** One turn of the loop over the outputs. *)
Lemma remove_redeemer_exact fuel s s1 op :
  exact_removal fuel → pool_ok s → ranked rank s →
  (∀ c, mp_outpoints s !! op = Some c → above rank s (rank (TxHash c)) < fuel)%nat → sub_pool s s1 → closed s s1 →
  let s2 := match mp_outpoints s1 !! op with Some r => remove_tx fuel r true s1 | None => s1 end in
  sub_pool s s2 ∧ ∀ k, gone s s2 k ↔ gone s s1 k ∨ ∃ c, mp_outpoints s !! op = Some c ∧ family s c k.
Proof.
  intros Hex Hs Hr Hfuel Hsub Hcl. destruct (mp_outpoints s1 !! op) as [r|] eqn:Eop; cbn zeta.
  - apply (pk_out s1 (proj1 Hsub)) in Eop as [Hr1 Hop]. pose proof (proj1 (proj1 (in_pool_sub s s1 r Hsub) Hr1)) as Hrs.
    pose proof (proj2 (pk_out s Hs op r) (conj Hrs Hop)) as Eop. specialize (Hfuel r Eop).
    destruct (remove_tx_ok fuel r true s1 (proj1 Hsub)) as [Hok Hle]. set (s2 := remove_tx fuel r true s1) in *.
    assert (sub_pool s s2) as Hsub2 by (split; [done|etrans; [done|apply Hsub]]). split; [done|].
    assert (∀ k, gone s1 s2 k ↔ is_Some (mp_pool s1 !! k) ∧ family s1 r k) as Hg.
    { apply Hex; [apply Hsub|by eapply ranked_sub|lia|]. intros c Hc.
      pose proof (child_rank rank s1 (proj1 Hsub) (ranked_sub rank s s1 Hsub Hr) r c Hr1 Hc) as Hlt.
      pose proof (above_sub rank s s1 (rank (TxHash c)) Hsub).
      apply (child_spec s1 r c (proj1 Hsub)) in Hc as [Hc _]. apply (in_pool_sub s s1 c Hsub) in Hc as [Hc _].
      pose proof (above_lt rank s (TxHash c) (rank (TxHash r)) (in_pool_some s c Hc) Hlt). lia. }
    intros k. split.
    + intros [Hk Hn]. destruct (mp_pool s1 !! k) as [d|] eqn:E1; [right|by left]. exists r. split; [done|].
      destruct (proj1 (Hg k)) as [_ [->|(c & Hc & <-)]]; [by split; [eauto|]|by left|].
      right. exists c. split; [|done]. by apply (descendant_sub s s1 r c Hs Hsub Hcl) in Hc as [? _].
    + intros [[Hk Hn]|(c & Hc & Hf)].
      * split; [done|]. apply eq_None_not_Some. intros [d Hd]. by rewrite (lookup_weaken _ _ _ _ Hd Hle) in Hn.
      * rewrite Eop in Hc. injection Hc as <-. pose proof (family_in_pool s r k Hs Hrs Hf) as Hk. split; [done|].
        destruct (mp_pool s1 !! k) as [d|] eqn:E1.
        -- apply (proj2 (Hg k)). split; [eauto|]. destruct Hf as [->|(c & Hc & <-)]; [by left|right]. exists c. split; [|done].
           apply (descendant_sub s s1 r c Hs Hsub Hcl). split; [done|]. intros [_ Hn]. congruence.
        -- apply eq_None_not_Some. intros [d Hd]. by rewrite (lookup_weaken _ _ _ _ Hd Hle) in E1.
  - split; [done|]. intros k. split; [by left|]. intros [?|(c & Hc & Hf)]; [done|].
    apply (pk_out s Hs) in Hc as [Hin Hop]. assert (gone s s1 (TxHash c)) as Hg.
    { split; [by apply in_pool_some|]. apply eq_None_not_Some. intros Hx.
      assert (in_pool s1 c) as Hc1. { apply (in_pool_sub s s1 c Hsub). split; [done|]. intros [_ Hn]. rewrite Hn in Hx. by destruct Hx. }
      by rewrite (proj2 (pk_out s1 (proj1 Hsub) op c) (conj Hc1 Hop)) in Eop. }
    destruct Hf as [->|(c' & Hd & <-)]; [done|]. by apply (closed_descendant s s1 c).
Qed.
(** The whole loop. *)
Lemma remove_redeemers_exact fuel s ops :
  exact_removal fuel → pool_ok s → ranked rank s →
  (∀ op c, op ∈ ops → mp_outpoints s !! op = Some c → above rank s (rank (TxHash c)) < fuel)%nat →
  ∀ s1, sub_pool s s1 → closed s s1 →
  let s2 := fold_left (λ s op, match mp_outpoints s !! op with Some r => remove_tx fuel r true s | None => s end) ops s1 in
  sub_pool s s2 ∧
  ∀ k, gone s s2 k ↔ gone s s1 k ∨ ∃ op c, op ∈ ops ∧ mp_outpoints s !! op = Some c ∧ family s c k.
Proof.
  intros Hex Hs Hr. induction ops as [|op ops IH]; intros Hfuel s1 Hsub Hcl; cbn [fold_left].
  { split_and!; [done..|]. intros k. set_solver. }
  destruct (remove_redeemer_exact fuel s s1 op Hex Hs Hr (λ c, Hfuel op c ltac:(by left)) Hsub Hcl) as [S1 S2].
  set (s1' := match _ with Some r => _ | None => s1 end) in *. assert (closed s s1') as S3.
  { intros c c' Hc Hg Hcc. apply S2. apply S2 in Hg as [Hg|(x & Ex & Hf)]; [left; by eapply Hcl|right]. exists x. split; [done|].
    right. exists c'. split; [|done]. destruct Hf as [Eh|(y & Hy & Eh)].
    - apply tc_once. apply (pk_out s Hs) in Ex as [Hx _]. by rewrite (in_pool_inj s x c).
    - eapply tc_r; [exact Hy|]. by rewrite (in_pool_inj s y c); [|by eapply descendant_in_pool|..]. }
  destruct (IH ltac:(intros; eapply Hfuel; [by right|done]) s1' S1 S3) as [I1 I2]. split; [done|].
  intros k. rewrite I2, S2. setoid_rewrite elem_of_cons. split.
  - intros [[?|(c & ? & ?)]|(o & c & ? & ? & ?)]; [by left|right; exists op, c; auto|right; exists o, c; auto].
  - intros [?|(o & c & [->|?] & ? & ?)]; [by left; left|left; right; by exists c|right; by exists o, c].
Qed.
Lemma remove_tx_exact fuel : exact_removal fuel.
Proof.
  induction fuel as [|fuel IH]; intros t s Hs Hr Hf Hfuel k; [lia|]. cbn [remove_tx].
  destruct (remove_redeemers_exact fuel s (own_outpoints t) IH Hs Hr) with (s1 := s) as [[R1 R2] R3]; try done.
  - intros op c Hop Hc. assert (child s t c) as Hch by (apply list_elem_of_omap; eauto). specialize (Hfuel c Hch). lia.
  - intros c c' Hc [[d Hd] Hn]. congruence.
  - set (s2 := fold_left _ _ s) in *. unfold gone at 1. rewrite drop_tx_pool. split.
    + intros [Hk Hn]. split; [done|]. destruct (decide (k = TxHash t)) as [->|Hne]; [by left|right].
      rewrite lookup_delete_ne in Hn by done.
      destruct (proj1 (R3 k) (conj Hk Hn)) as [[? ?]|(op & c & Hop & Hc & Hfam)]; [by destruct Hk; congruence|].
      assert (child s t c) as Hch by (apply list_elem_of_omap; eauto).
      destruct Hfam as [->|(c' & Hc' & <-)]; [exists c; split; [by apply tc_once|done]|exists c'; split; [by eapply tc_l|done]].
    + intros [Hk Hfam]. split; [done|]. destruct (decide (k = TxHash t)) as [->|Hne]; [by rewrite lookup_delete_eq|].
      rewrite lookup_delete_ne by done. destruct Hfam as [?|(c & Hc & <-)]; [done|]. apply (R3 (TxHash c)). right.
      destruct Hc as [a b Hab|a b e Hab Hbe]; apply list_elem_of_omap in Hab as (op & Hop & Hx); exists op, b;
        (split_and!; [done..|]); [by left|right; by exists e].
Qed.
End Removal.

(** ** Replacement *)

Definition fee_of (s : TxPool) (k : Hash) : Z := match mp_pool s !! k with Some d => td_Fee d | None => 0 end.
Definition fees_of (s : TxPool) (ks : list Hash) : Z := foldr (λ k t, fee_of s k + t) 0 ks.
(** The transactions that are replaced pay a lower rate; the sum of their
    fees does not wrap. *)
Lemma check_conflicts_ok s l rate acc ps fee ps' :
  fees_ok s → 0 <= acc → acc + zlen l * MaxSatoshi < 2 ^ 63 →
  check_conflicts s l rate acc ps = MOk (fee, ps') →
  fee = acc + fees_of s (map fst l) ∧ (∀ k c, (k, c) ∈ l → ∃ d, mp_pool s !! k = Some d ∧ td_FeePerKB d < rate) ∧
  ∀ h, h ∈ ps' ↔ h ∈ ps ∨ ∃ k c, (k, c) ∈ l ∧ h ∈ map op_Hash (spent_outpoints c).
Proof.
  intros Hf. revert acc ps. induction l as [|[k c] l IH]; intros acc ps Ha Hm; cbn [check_conflicts].
  { intros [= <- <-]. split_and!; [cbn; lia|by intros ? ? ?%elem_of_nil|set_solver]. }
  destruct (mp_pool s !! k) as [d|] eqn:Ed; [|done]. intros ([] & Hr%refuse_if_ok%Z.leb_gt & Hx)%MRes_bind_ok.
  pose proof (Hf k d Ed) as Hd. cbn in Hd. cbn [length] in Hm. unfold MaxSatoshi, SatoshiPerBitcoin in *.
  rewrite wrap_s_id in Hx by (done || (change (64 - 1) with 63; lia)).
  apply IH in Hx as (-> & I2 & I3); [|lia|lia]. split_and!.
  - change (fees_of s (map fst ((k, c) :: l))) with (fee_of s k + fees_of s (map fst l)).
    assert (fee_of s k = td_Fee d) as -> by (unfold fee_of; by rewrite Ed). lia.
  - intros k' c' [[= -> ->]|Hin]%elem_of_cons; eauto.
  - intros h. rewrite I3. setoid_rewrite elem_of_cons. rewrite elem_of_union, elem_of_list_to_set. split.
    + intros [[?|?]|(k' & c' & ? & ?)]; [right; exists k, c; auto|by left|right; exists k', c'; auto].
    + intros [?|(k' & c' & [[= -> ->]|?] & ?)]; [by left; right|by left; left|right; eauto].
Qed.
Lemma minFee_range size rate : 0 <= calcMinRequiredTxRelayFee size rate <= MaxSatoshi.
Proof.
  unfold calcMinRequiredTxRelayFee. set (m := if _ && _ then _ else _).
  destruct (Z.ltb_spec m 0); [cbn; by vm_compute|]. destruct (Z.ltb_spec MaxSatoshi m); cbn; [by vm_compute|lia].
Qed.
Lemma double_spends_signal cfg s ops b r :
  check_double_spends cfg s ops b = MOk r →
  ∀ op x, op ∈ ops → mp_outpoints s !! op = Some x → r = true ∧ signalsReplacement s x = true ∧ RejectReplacement (cfg_Policy cfg) = false.
Proof.
  assert (∀ ops r, check_double_spends cfg s ops true = MOk r → r = true) as Ht.
  { intros ops'. induction ops' as [|o ops' IH]; intros r'; cbn [check_double_spends]; [by intros [= <-]|].
    destruct (mp_outpoints s !! o); [|apply IH]. intros ([] & _ & Hx)%MRes_bind_ok. by apply IH. }
  revert b. induction ops as [|o ops IH]; intros b; cbn [check_double_spends]; [by intros _ op x ?%elem_of_nil|].
  destruct (mp_outpoints s !! o) as [c|] eqn:Eo.
  - intros ([] & [Hr Hn%negb_false_iff]%refuse_if_ok%orb_false_iff & Hx)%MRes_bind_ok op x [->|Hop]%elem_of_cons Hc; [|by eapply IH].
    rewrite Eo in Hc. injection Hc as <-. split; [by eapply Ht|done].
  - intros Hx op x [->|Hop]%elem_of_cons Hc; [congruence|by eapply IH].
Qed.

(** What a validated replacement satisfies. *)
Record replacement_ok (cfg : Config) (s : TxPool) (t : MsgTx) (txFee : Z) (c : Relatives) : Prop := mkReplacementOk {
  ro_few : (size c <= 100)%nat;
  ro_parents : ∀ h, is_Some (txAncestors s t !! h) → c !! h = None;
  ro_rate : ∀ k x, c !! k = Some x → ∃ d, mp_pool s !! k = Some d ∧
    td_FeePerKB d < Z.quot (int64 (txFee * 1000)) (GetTxVirtualSize t);
  ro_fee : fees_of s (map fst (map_to_list c)) +
    calcMinRequiredTxRelayFee (GetTxVirtualSize t) (MinRelayTxFee (cfg_Policy cfg)) <= txFee;
  ro_inputs : ∀ op, op ∈ spent_outpoints t → is_Some (mp_pool s !! op_Hash op) →
    ∃ k x, c !! k = Some x ∧ op_Hash op ∈ map op_Hash (spent_outpoints x) }.

Lemma fees_of_range s ks : fees_ok s → 0 <= fees_of s ks <= zlen ks * MaxSatoshi.
Proof.
  intros Hf. induction ks as [|k ks IH]; [cbn; lia|]. change (fees_of s (k :: ks)) with (fee_of s k + fees_of s ks).
  assert (0 <= fee_of s k <= MaxSatoshi).
  { unfold fee_of. destruct (mp_pool s !! k) as [d|] eqn:E; [by apply (Hf k)|by vm_compute]. }
  cbn [length]. lia.
Qed.
Lemma existsb_false {A} (f : A → bool) l : existsb f l = false → ∀ x, x ∈ l → f x = false.
Proof.
  intros Hx x Hin. destruct (f x) eqn:E; [|done]. assert (existsb f l = true) as Ht; [|congruence].
  apply existsb_exists. exists x. split; [by apply list_elem_of_In|done].
Qed.
Lemma validateReplacement_ok cfg s t txFee c :
  fees_ok s → validateReplacement cfg s t txFee = MOk c → c = txConflicts s t ∧ replacement_ok cfg s t txFee c.
Proof.
  intros Hf. unfold validateReplacement.
  intros ([] & Hfew%refuse_if_ok%Z.ltb_ge & ([] & Hanc%refuse_if_ok & Hx)%MRes_bind_ok)%MRes_bind_ok. revert Hx.
  intros ([cf ps] & Hcc & ([] & Hfee%refuse_if_ok%Z.ltb_ge & ([] & Hin%refuse_if_ok & [= <-])%MRes_bind_ok)%MRes_bind_ok)%MRes_bind_ok.
  set (c := txConflicts s t) in *. split; [done|]. unfold MaxReplacementEvictions in Hfew.
  pose proof (length_map_to_list c) as Hlen.
  apply check_conflicts_ok in Hcc as (-> & Hrate & Hps); [|done|lia|rewrite Hlen; unfold MaxSatoshi, SatoshiPerBitcoin; lia].
  pose proof (fees_of_range s (map fst (map_to_list c)) Hf) as Hfr. rewrite length_map, Hlen in Hfr.
  pose proof (minFee_range (GetTxVirtualSize t) (MinRelayTxFee (cfg_Policy cfg))) as Hmin.
  rewrite wrap_s_id in Hfee by (done || (change (64 - 1) with 63; unfold MaxSatoshi, SatoshiPerBitcoin in *; lia)).
  split; [lia|..|lia|].
  - intros h [a Ha]. apply eq_None_not_Some. intros Hc.
    assert (h ∈ map fst (map_to_list (txAncestors s t))) as Hh.
    { apply list_elem_of_fmap. exists (h, a). split; [done|]. by apply elem_of_map_to_list. }
    pose proof (existsb_false _ _ Hanc h Hh) as E. cbn in E. by apply bool_decide_eq_false in E.
  - intros k x Hx. apply (Hrate k x). by apply elem_of_map_to_list.
  - intros op Hop Hp. pose proof (existsb_false _ _ Hin op Hop) as E. cbn in E. unfold isTransactionInPool in E.
    rewrite (bool_decide_eq_true_2 _ Hp), andb_true_r in E. apply bool_decide_eq_false, dec_stable in E.
    apply Hps in E as [?|(k & x & Hk & Hx)]; [set_solver|]. exists k, x. split; [by apply elem_of_map_to_list|done].
Qed.
Lemma elem_of_keys (m : Relatives) k : k ∈ map fst (map_to_list m) ↔ is_Some (m !! k).
Proof.
  rewrite list_elem_of_fmap. split.
  - intros ([k' x] & -> & Hx%elem_of_map_to_list). eauto.
  - intros [x Hx]. exists (k, x). split; [done|]. by apply elem_of_map_to_list.
Qed.
(** What leaves the pool when a transaction replaces its conflicts. *)
Lemma replaced_gone rank s s' t d :
  mp_pool s !! TxHash t = None → pool_ok s → ranked rank s → replaced s s' (txConflicts s t) t d →
  (∀ k, gone s s' k ↔ is_Some (txConflicts s t !! k)) ∧
  (∀ k, is_Some (txConflicts s t !! k) ↔ ∃ c, conflicting s t c ∧ TxHash c = k).
Proof.
  intros Hnew Hs Hrank [_ Hrep].
  assert (∀ k, is_Some (txConflicts s t !! k) ↔ ∃ c, conflicting s t c ∧ TxHash c = k) as Hconf.
  { intros k. unfold is_Some. by setoid_rewrite (txConflicts_spec rank s Hs Hrank t k). }
  split; [|done]. intros k. unfold gone. rewrite Hrep. split.
  - intros [[y Hy] Hnone]. destruct (decide (k = TxHash t)) as [->|]; [done|]. case_decide; [done|congruence].
  - intros Hk. pose proof (proj1 (Hconf k) Hk) as (c & Hcc & <-). apply conflicting_in_pool in Hcc; [|done].
    split; [by apply in_pool_some|]. rewrite decide_False; [by rewrite decide_True|].
    intros E. destruct Hcc as (y & Hy & _). by rewrite E, Hnew in Hy.
Qed.
End Graph.

(** C21. The searches over the pool, with their caches, agree with reachability:
    in every state that is reached, when spending has no cycle, the ancestors,
    descendants and conflicts that are found are exactly those of the graph,
    by their hashes, and a transaction signals replacement exactly when it or
    one of its unconfirmed ancestors has a sequence number that does. *)
Theorem mempool_searches `{Crypto} `{Keys} `{Env} sched script_fuel max rank s :
  Env_ok → mp_reachable sched script_fuel max s → ranked rank s →
  ∀ t, (∀ k a, txAncestors s t !! k = Some a ↔ ancestor s t a ∧ TxHash a = k) ∧
       (∀ k c, txDescendants s t !! k = Some c ↔ descendant s t c ∧ TxHash c = k) ∧
       (∀ k c, txConflicts s t !! k = Some c ↔ conflicting s t c ∧ TxHash c = k) ∧
       (signalsReplacement s t = true ↔ signals s t).
Proof.
  intros He Hr Hrank t. pose proof (mi_pool _ _ (mp_reachable_inv _ _ _ _ He Hr)) as Hs. split_and!.
  - by apply (txAncestors_spec rank).
  - by apply (txDescendants_spec rank).
  - by apply (txConflicts_spec rank).
  - by apply (signalsReplacement_spec rank).
Qed.

(** C13. Removing a transaction with its redeemers takes exactly the transaction
    and its descendants from the pool, and ends: when spending has no cycle the
    number of transactions in the pool is fuel enough.  Without redeemers only
    the transaction is taken. *)
Theorem remove_with_redeemers `{Crypto} `{Keys} `{Env} sched script_fuel max rank s :
  Env_ok → mp_reachable sched script_fuel max s → ranked rank s →
  ∀ t, (∀ k d, mp_pool (RemoveTransaction t true s) !! k = Some d ↔ mp_pool s !! k = Some d ∧ ¬ family s t k) ∧
       mp_pool (RemoveTransaction t false s) = delete (TxHash t) (mp_pool s).
Proof.
  intros He Hr Hrank t. pose proof (mi_pool _ _ (mp_reachable_inv _ _ _ _ He Hr)) as Hs. split; [|apply drop_tx_pool].
  intros k d. destruct (remove_tx_ok (S (size (mp_pool s))) t true s Hs) as [_ Hsub].
  assert (∀ k, gone s (RemoveTransaction t true s) k ↔ is_Some (mp_pool s !! k) ∧ family s t k) as Hg.
  { apply (remove_tx_exact rank); [done..|lia|]. intros c (Hc & _)%(child_spec s t c Hs).
    pose proof (above_pool rank s _ (in_pool_some s c Hc)). lia. }
  split.
  - intros Hd. split; [by eapply lookup_weaken|]. intros Hf. destruct (proj2 (Hg k)) as [_ Hn]; [|congruence].
    split; [|done]. exists d. by eapply lookup_weaken.
  - intros [Hd Hf]. destruct (mp_pool (RemoveTransaction t true s) !! k) as [d'|] eqn:E.
    + pose proof (lookup_weaken _ _ _ _ E Hsub). congruence.
    + destruct Hf. apply (Hg k). split; [eauto|done].
Qed.

(** C11. Replacement.  When a transaction that spends outputs which the pool has
    spent already is accepted: replacement is allowed, and every transaction
    that it conflicts with directly signals it; exactly the conflicting
    transactions and their descendants leave the pool, at most 100; the fee is
    at least the sum of the fees of what leaves and the minimum relay fee for
    the size; the rate is higher than that of each of them; no unconfirmed
    ancestor leaves; and every unconfirmed transaction that it spends is spent
    by one that leaves. *)
Theorem replacement `{Crypto} `{Keys} `{Env} sched script_fuel max rank s cfg t isNew rateLimit d s' :
  Env_ok → mp_reachable sched script_fuel max s → ranked rank s →
  MaybeAcceptTransaction sched script_fuel cfg t isNew rateLimit s = (MOk ([], Some d), s') →
  (∃ op, op ∈ spent_outpoints t ∧ is_Some (mp_outpoints s !! op)) →
  RejectReplacement (cfg_Policy cfg) = false ∧
  (∀ op x, op ∈ spent_outpoints t → mp_outpoints s !! op = Some x → signals s x) ∧
  (∃ evicted, NoDup evicted ∧ (length evicted <= 100)%nat ∧ (∀ k, k ∈ evicted ↔ gone s s' k) ∧
     (∀ k, k ∈ evicted ↔ ∃ c, conflicting s t c ∧ TxHash c = k) ∧
     fees_of s evicted + calcMinRequiredTxRelayFee (GetTxVirtualSize t) (MinRelayTxFee (cfg_Policy cfg)) <= td_Fee d ∧
     (∀ k, k ∈ evicted → ∃ x, mp_pool s !! k = Some x ∧ td_FeePerKB x < Z.quot (td_Fee d * 1000) (GetTxVirtualSize t))) ∧
  (∀ a, ancestor s t a → ¬ gone s s' (TxHash a)) ∧
  (∀ op, op ∈ spent_outpoints t → is_Some (mp_pool s !! op_Hash op) →
     ∃ c, conflicting s t c ∧ op_Hash op ∈ map op_Hash (spent_outpoints c)).
Proof.
  intros He Hreach Hrank Hm (op0 & Hop0 & [x0 Hx0]). pose proof (mp_reachable_inv _ _ _ _ He Hreach) as Hinv.
  pose proof (mi_pool _ _ Hinv) as Hs.
  destruct (maybe_accept_cases _ _ _ _ _ _ _ _ _ _ He Hs Hm) as (_ & _ & [(r & d' & [= <-] & Ha & Hrep & Hfee)|[_ Hn]]); [|by destruct (Hn [] d)].
  destruct (ac_conflicts _ _ _ _ _ _ _ _ _ Ha) as (isRep & Hds & Hc).
  pose proof (double_spends_signal _ _ _ _ _ Hds) as Hsig. destruct (Hsig op0 x0 Hop0 Hx0) as (-> & _ & Hrr).
  apply validateReplacement_ok in Hc as [Ec [R1 R2 R3 R4 R5]]; [|apply Hinv].
  pose proof (accepted_fee _ _ _ _ _ _ _ _ _ Ha) as Hrange.
  destruct (replaced_gone rank s s' t d (ac_new _ _ _ _ _ _ _ _ _ Ha) Hs Hrank ltac:(by rewrite <- Ec)) as [Hgone Hconf].
  rewrite <- Ec in Hgone, Hconf. split_and!; [done|..].
  - intros op x Hop Hx. apply (signalsReplacement_spec rank); [done..|]. by destruct (Hsig op x Hop Hx) as (_ & ? & _).
  - assert (∀ k, k ∈ map fst (map_to_list (ar_Conflicts r)) ↔ is_Some (ar_Conflicts r !! k)) as Hk by apply elem_of_keys.
    exists (map fst (map_to_list (ar_Conflicts r))). split_and!; [apply NoDup_fst_map_to_list| | | |by rewrite Hfee|].
    + by rewrite length_map, length_map_to_list.
    + intros k. by rewrite Hk, Hgone.
    + intros k. by rewrite Hk, Hconf.
    + intros k [x Hx]%Hk. rewrite Hfee. destruct (R3 k x Hx) as (y & Hy & Hlt). exists y. split; [done|].
      by rewrite wrap_s_id in Hlt by (done || (change (64 - 1) with 63; unfold MaxSatoshi, SatoshiPerBitcoin in *; lia)).
  - intros a Hanc Hg. apply Hgone in Hg. rewrite (R2 (TxHash a)) in Hg; [by destruct Hg|]. exists a.
    by apply (txAncestors_spec rank).
  - intros op Hop Hp. destruct (R5 op Hop Hp) as (k & x & Hk & Hin). exists x. split; [|done].
    rewrite Ec in Hk. by apply (txConflicts_spec rank) in Hk as [? _].
Qed.
