(* ===== verification/Mining.v ===== *)
(** * Mining: block templates

    btcd/mining/mining.go and policy.go.  The generator collects the
    transactions of a source in a priority queue (a heap, see GoHeap) as soon
    as all that they depend on is in the block, and takes them out until the
    queue is empty.  Prioritized items are shared between the queue and the
    map of dependers: they are in a store, and a pointer is an address in it.
    The source and the clock are an interface; the chain is that of
    ChainState, and it does not change while a template is made. *)

From Stdlib Require Import ZArith Lia Floats.SpecFloat.
From stdpp Require Import base numbers list strings gmap.
From S2P Require Import Prelude GoFloat GoHeap ScriptNum WireBase WireTx ScriptStack ScriptToken Sighash WireMsg Taproot ScriptEngine ScriptExec ScriptStandard ChainCompress ChainUtxo ChainStore ChainError ChainNode ChainParams ChainWork ChainThreshold ChainCache Merkle ChainRules ChainConnect ChainState Mempool.

Open Scope Z_scope.

(** ** Policy and source *)

Record MiningPolicy := mkMiningPolicy {
  BlockMinWeight : Z; BlockMaxWeight : Z; BlockMinSize : Z; BlockMaxSize : Z;   (* uint32 *)
  BlockPrioritySize : Z;                          (* uint32 *)
  TxMinFreeFee : Z }.

(** What the generator is told about a transaction. *)
Record MiningDesc := mkMiningDesc { md_Tx : MsgTx; md_Added : Z; md_Height : Z; md_Fee : Z; md_FeePerKB : Z }.

(** The source of transactions and the clock of the network, at the [n]-th
    question. *)
Class TxSource := {
  MiningDescs : list MiningDesc;
  HaveTransaction : nat → Hash → bool;
  AdjustedTime : nat → Z;                         (* seconds *)
  deps_order : nat → list Hash → list Hash }.     (* the order of a map iteration *)

Definition blockHeaderOverhead : Z := MaxBlockHeaderPayload + MaxVarIntPayload.
Definition CoinbaseFlags : list byte := ascii_bytes "/P2SH/btcd/".

(** ** The priority queue *)

Record txPrioItem := mkPrioItem {
  pi_tx : MsgTx; pi_fee : Z; pi_priority : f64; pi_feePerKB : Z; dependsOn : gset Hash }.
Definition new_item (tx : MsgTx) : txPrioItem := mkPrioItem tx 0 (f64_of_Z 0) 0 ∅.

(** The items by address. *)
Abbreviation Items := (list txPrioItem).
Definition f_eq (x y : f64) : bool := SFeqb x y.
Definition less_priority (x y : txPrioItem) : bool :=
  if f_eq (pi_priority x) (pi_priority y) then pi_feePerKB y <? pi_feePerKB x
  else f_gt (pi_priority x) (pi_priority y).
Definition less_fee (x y : txPrioItem) : bool :=
  if pi_feePerKB x =? pi_feePerKB y then f_gt (pi_priority x) (pi_priority y)
  else pi_feePerKB y <? pi_feePerKB x.
Definition by_address (less : txPrioItem → txPrioItem → bool) (items : Items) (a b : nat) : bool :=
  match items !! a, items !! b with Some x, Some y => less x y | _, _ => false end.
Definition txPQByPriority : Items → nat → nat → bool := by_address less_priority.
Definition txPQByFee : Items → nat → nat → bool := by_address less_fee.

Record txPriorityQueue := mkQueue { lessFunc : Items → nat → nat → bool; q_items : list nat }.
Definition queue_Push (items : Items) (a : nat) (pq : txPriorityQueue) : txPriorityQueue :=
  mkQueue (lessFunc pq) (heap_Push (lessFunc pq items) a (q_items pq)).
Definition queue_Pop (items : Items) (pq : txPriorityQueue) : option (nat * txPriorityQueue) :=
  '(a, l) ← heap_Pop (lessFunc pq items) (q_items pq); Some (a, mkQueue (lessFunc pq) l).
Definition SetLessFunc (items : Items) (less : Items → nat → nat → bool) (pq : txPriorityQueue) : txPriorityQueue :=
  mkQueue less (heap_Init (less items) (q_items pq)).
Definition newTxPriorityQueue (sortByFee : bool) : txPriorityQueue :=
  SetLessFunc [] (if sortByFee then txPQByFee else txPQByPriority) (mkQueue txPQByFee []).

Record BlockTemplate := mkTemplate {
  bt_Block : MsgBlock; bt_Fees : list Z; bt_SigOpCosts : list Z; bt_Height : Z;
  ValidPayAddress : bool; WitnessCommitment : option (list byte) }.

(** ** Views *)

(** The entries of a map are merged one by one, in any order: the keys are
    different. *)
Definition merge_entry (viewA : UtxoViewpoint) (p : OutPoint * option UtxoEntry) : UtxoViewpoint :=
  match entries viewA !! fst p with
  | Some entryA => if IsSpent entryA then put_fetched p viewA else viewA
  | None => put_fetched p viewA
  end.
Definition all_entries_of (v : UtxoViewpoint) : list (OutPoint * option UtxoEntry) :=
  map (λ p, (fst p, Some (snd p))) (map_to_list (entries v)) ++ map (λ op, (op, None)) (elements (nilEntries v)).
Definition mergeUtxoView (viewA viewB : UtxoViewpoint) : UtxoViewpoint :=
  fold_left merge_entry (all_entries_of viewB) viewA.

Section Mining.
Context `{CR : Crypto} `{KS : Keys} `{SO : TxSource}.
(** See ChainConnect and ChainCache. *)
Context (new_max : list Z → Z → Z).
Context (sched : list txValidateItem → list txValidateItem) (fuel : nat).
Context (policy : MiningPolicy) (params : Params).

Definition spendTransaction (utxoView : UtxoViewpoint) (tx : MsgTx) (height : Z) : UtxoViewpoint :=
  AddTxOuts tx height
    (fold_left (λ v op, match LookupEntry v op with Some e => set_entry op (Spend e) v | None => v end)
       (spent_outpoints tx) utxoView).

(** ** The coinbase *)

Definition run_builder (b : Res ScriptBuilder) : VRes (list byte) :=
  match b with
  | Ok b => match Script b with (s, None) => VOk s | (_, Some _) => VErr (OtherError "script builder") end
  | _ => VCrash
  end.
Definition standardCoinbaseScript (nextBlockHeight extraNonce : Z) : VRes (list byte) :=
  run_builder (
    b ← AddInt64 NewScriptBuilder nextBlockHeight;
    b ← AddInt64 b (int64 extraNonce);
    Ok (AddData b CoinbaseFlags)).

(** [pay] is what [PayToAddrScript] returns for the address, if there is
    one. *)
Definition createCoinbaseTx (coinbaseScript : list byte) (nextBlockHeight : Z) (pay : option (VRes (list byte))) : VRes MsgTx :=
  pkScript ← match pay with
             | Some script => script
             | None => run_builder (Ok (AddOp NewScriptBuilder OP_1))
             end;
  VOk (mkMsgTx 1 [mkTxIn (mkOutPoint zeroHash MaxPrevOutIndex) coinbaseScript [] MaxTxInSequenceNum]
         [mkTxOut (CalcBlockSubsidy nextBlockHeight params) pkScript] 0).

Definition MinimumMedianTime (best : BestState) : Z := best_MedianTime best + 1.
Definition medianAdjustedTime (best : BestState) (n : nat) : Z :=
  let newTimestamp := AdjustedTime n in
  let minTimestamp := MinimumMedianTime best in
  if newTimestamp <? minTimestamp then minTimestamp else newTimestamp.

(** ** The first pass: what is ready and what depends on what *)

Record Pick := mkPick {
  p_items : Items;
  dependers : gmap Hash (gmap Hash nat);
  p_queue : txPriorityQueue;
  blockUtxos : UtxoViewpoint;
  p_readings : nat }.
Definition set_items (f : Items → Items) (p : Pick) : Pick :=
  mkPick (f (p_items p)) (dependers p) (p_queue p) (blockUtxos p) (p_readings p).
Definition set_dependers (f : gmap Hash (gmap Hash nat) → gmap Hash (gmap Hash nat)) (p : Pick) : Pick :=
  mkPick (p_items p) (f (dependers p)) (p_queue p) (blockUtxos p) (p_readings p).
Definition set_queue (f : Items → txPriorityQueue → txPriorityQueue) (p : Pick) : Pick :=
  mkPick (p_items p) (dependers p) (f (p_items p) (p_queue p)) (blockUtxos p) (p_readings p).
Definition set_blockUtxos (f : UtxoViewpoint → UtxoViewpoint) (p : Pick) : Pick :=
  mkPick (p_items p) (dependers p) (p_queue p) (f (blockUtxos p)) (p_readings p).
Definition read_source (p : Pick) : Pick :=
  mkPick (p_items p) (dependers p) (p_queue p) (blockUtxos p) (S (p_readings p)).

Definition set_dependsOn (f : gset Hash → gset Hash) (it : txPrioItem) : txPrioItem :=
  mkPrioItem (pi_tx it) (pi_fee it) (pi_priority it) (pi_feePerKB it) (f (dependsOn it)).
(** The item at [a], of the transaction [h], depends on [originHash]. *)
Definition depend (a : nat) (h originHash : Hash) (p : Pick) : Pick :=
  set_items (alter (set_dependsOn (union {[originHash]})) a)
    (set_dependers (λ m, <[originHash := <[h := a]> (default ∅ (m !! originHash))]> m) p).
(** Whether all outputs are there; the dependencies up to one that is not
    stay. *)
Fixpoint link_inputs (ins : list TxIn) (a : nat) (h : Hash) (utxos : UtxoViewpoint) (p : Pick) : bool * Pick :=
  match ins with
  | [] => (true, p)
  | ti :: ins =>
      let op := PreviousOutPoint ti in
      match spendable_entry utxos op with
      | Some _ => link_inputs ins a h utxos p
      | None =>
          let have := HaveTransaction (p_readings p) (op_Hash op) in
          let p := read_source p in
          if negb have then (false, p) else link_inputs ins a h utxos (depend a h (op_Hash op) p)
      end
  end.

(** The outputs of the main chain that a transaction refers to. *)
Definition chain_FetchUtxoView (tx : MsgTx) : ChainM UtxoViewpoint :=
  with_cache (λ db, fetchUtxosFromCache new_max db
    (own_outpoints tx ++ (if IsCoinBaseTx tx then [] else spent_outpoints tx)) NewUtxoViewpoint).

(** The rest of an iteration, once the outputs are fetched. *)
Definition consider_fetched (nextBlockHeight : Z) (d : MiningDesc) (utxos : UtxoViewpoint) (p : Pick) : Pick :=
  let tx := md_Tx d in
  let a := length (p_items p) in
  match link_inputs (TxIns tx) a (TxHash tx) utxos (set_items (λ l, l ++ [new_item tx]) p) with
  | (false, p) => p
  | (true, p) =>
      let p := set_items (alter (λ it, mkPrioItem tx (md_Fee d) (CalcPriority tx utxos nextBlockHeight)
                                         (md_FeePerKB d) (dependsOn it)) a) p in
      let ready := match p_items p !! a with Some it => bool_decide (dependsOn it = ∅) | None => false end in
      let p := if ready then set_queue (λ items, queue_Push items a) p else p in
      set_blockUtxos (λ v, mergeUtxoView v utxos) p
  end.
Definition consider (nextBlockHeight : Z) (d : MiningDesc) (p : Pick) : CM Pick :=
  let tx := md_Tx d in
  if IsCoinBaseTx tx then mret p else
  let final := IsFinalizedTransaction tx nextBlockHeight (AdjustedTime (p_readings p)) in
  let p := read_source p in
  if negb final then mret p else
  utxos ← try (on_chain (chain_FetchUtxoView tx));
  match utxos with
  | VOk utxos => mret (consider_fetched nextBlockHeight d utxos p)
  | _ => mret p
  end.
Fixpoint consider_all (nextBlockHeight : Z) (ds : list MiningDesc) (p : Pick) : CM Pick :=
  match ds with
  | [] => mret p
  | d :: ds => p ← consider nextBlockHeight d p; consider_all nextBlockHeight ds p
  end.

(** ** The second pass: what goes into the block *)

Record Selection := mkSelection {
  sl_pick : Pick;
  sortedByFee : bool;
  blockTxns : list MsgTx;                         (* after the coinbase *)
  blockWeight : Z;                                (* uint32 *)
  blockSigOpCost : Z;
  totalFees : Z;
  txFees : list Z;                                (* after those of the coinbase *)
  txSigOpCosts : list Z;
  witnessIncluded : bool }.
Definition set_pick (f : Pick → Pick) (s : Selection) : Selection :=
  mkSelection (f (sl_pick s)) (sortedByFee s) (blockTxns s) (blockWeight s) (blockSigOpCost s) (totalFees s)
    (txFees s) (txSigOpCosts s) (witnessIncluded s).
Definition sort_by_fee (s : Selection) : Selection :=
  mkSelection (set_queue (λ items, SetLessFunc items txPQByFee) (sl_pick s)) true (blockTxns s) (blockWeight s)
    (blockSigOpCost s) (totalFees s) (txFees s) (txSigOpCosts s) (witnessIncluded s).
Definition include_witness (weightDiff : Z) (s : Selection) : Selection :=
  mkSelection (sl_pick s) (sortedByFee s) (blockTxns s) (uint32 (blockWeight s + uint32 weightDiff)) (blockSigOpCost s)
    (totalFees s) (txFees s) (txSigOpCosts s) true.

Definition letter_a : byte := 97.
(** How much a witness commitment adds to the weight of the coinbase. *)
Definition commitment_weight (coinbaseTx : MsgTx) : Z :=
  let coinbaseCopy :=
    mkMsgTx (Version coinbaseTx)
      (match TxIns coinbaseTx with
       | ti :: ins => mkTxIn (PreviousOutPoint ti) (SignatureScript ti) [replicate (Z.to_nat CoinbaseWitnessDataLen) letter_a] (Sequence ti) :: ins
       | [] => []
       end)
      (TxOuts coinbaseTx ++ [mkTxOut 0 (replicate CoinbaseWitnessPkScriptLength letter_a)]) (LockTime coinbaseTx) in
  GetTransactionWeight coinbaseCopy - GetTransactionWeight coinbaseTx.

(** The items that depend on the transaction [h], which is in the block. *)
Definition release (h : Hash) (p : Pick) (a : nat) : Pick :=
  let p := set_items (alter (set_dependsOn (λ d, d ∖ {[h]})) a) p in
  match p_items p !! a with
  | Some it => if bool_decide (dependsOn it = ∅) then set_queue (λ items, queue_Push items a) p else p
  | None => p
  end.
Definition release_all (h : Hash) (deps : gmap Hash nat) (p : Pick) : Pick :=
  let keys := deps_order (p_readings p) (map fst (map_to_list deps)) in
  fold_left (λ p k, match deps !! k with Some a => release h p a | None => p end) keys (read_source p).

Definition include (height : Z) (it : txPrioItem) (txWeight sigOpCost : Z) (s : Selection) : Selection :=
  let tx := pi_tx it in
  let p := set_blockUtxos (λ v, spendTransaction v tx height) (sl_pick s) in
  mkSelection (release_all (TxHash tx) (default ∅ (dependers p !! TxHash tx)) p) (sortedByFee s) (blockTxns s ++ [tx])
    (uint32 (blockWeight s + txWeight)) (int64 (blockSigOpCost s + sigOpCost)) (int64 (totalFees s + pi_fee it))
    (txFees s ++ [pi_fee it]) (txSigOpCosts s ++ [sigOpCost]) (witnessIncluded s).

(** A call whose error skips the transaction. *)
Definition or_skip {A} (r : VRes A) (s : Selection) (k : A → VRes Selection) : VRes Selection :=
  match r with VOk a => k a | VErr _ => VOk s | VCrash => VCrash end.

(** An iteration after the item at [a] was taken from the queue. *)
Definition try_item (nextBlockHeight : Z) (segwitActive : bool) (coinbaseTx : MsgTx) (a : nat) (it : txPrioItem)
    (s : Selection) : VRes Selection :=
  let tx := pi_tx it in
  if negb segwitActive && HasWitness tx then VOk s else
  let s := if segwitActive && negb (witnessIncluded s) && HasWitness tx
           then include_witness (commitment_weight coinbaseTx) s else s in
  let txWeight := uint32 (GetTransactionWeight tx) in
  let blockPlusTxWeight := uint32 (blockWeight s + txWeight) in
  if (blockPlusTxWeight <? blockWeight s) || (BlockMaxWeight policy <=? blockPlusTxWeight) then VOk s else
  or_skip (GetSigOpCost tx false (blockUtxos (sl_pick s)) true segwitActive) s (λ sigOpCost,
    if (int64 (blockSigOpCost s + sigOpCost) <? blockSigOpCost s) ||
       (MaxBlockSigOpsCost <? int64 (blockSigOpCost s + sigOpCost)) then VOk s else
    if sortedByFee s && (pi_feePerKB it <? TxMinFreeFee policy) && (BlockMinWeight policy <=? blockPlusTxWeight)
    then VOk s else
    let switch := negb (sortedByFee s) &&
      ((BlockPrioritySize policy <=? blockPlusTxWeight) || f_le (pi_priority it) MinHighPriority) in
    let s := if switch then sort_by_fee s else s in
    if switch && ((BlockPrioritySize policy <? blockPlusTxWeight) || f_lt (pi_priority it) MinHighPriority)
    then VOk (set_pick (set_queue (λ items, queue_Push items a)) s) else
    or_skip (CheckTransactionInputs tx nextBlockHeight (blockUtxos (sl_pick s)) params) s (λ _,
      or_skip (ValidateTransactionScripts sched fuel tx (blockUtxos (sl_pick s)) StandardVerifyFlags) s (λ _,
        VOk (include nextBlockHeight it txWeight sigOpCost s)))).

Fixpoint select (rounds : nat) (nextBlockHeight : Z) (segwitActive : bool) (coinbaseTx : MsgTx) (s : Selection)
    : VRes Selection :=
  match rounds with
  | O => VOk s
  | S rounds =>
      match queue_Pop (p_items (sl_pick s)) (p_queue (sl_pick s)) with
      | None => VOk s
      | Some (a, pq) =>
          match p_items (sl_pick s) !! a with
          | None => VCrash                        (* not reached *)
          | Some it =>
              s ← try_item nextBlockHeight segwitActive coinbaseTx a it (set_pick (set_queue (λ _ _, pq)) s);
              select rounds nextBlockHeight segwitActive coinbaseTx s
          end
      end
  end.
(** The items in the queue and the dependencies that are left bound the
    number of iterations; an item is put back once. *)
Definition select_rounds (p : Pick) : nat :=
  S (S (length (q_items (p_queue p)) + list_sum (map (λ it, size (dependsOn it)) (p_items p)))).

(** ** Templates *)

Definition set_coinbase_script (script : list byte) (tx : MsgTx) : MsgTx :=
  match TxIns tx with
  | ti :: ins => mkMsgTx (Version tx) (mkTxIn (PreviousOutPoint ti) script (Witness ti) (Sequence ti) :: ins) (TxOuts tx) (LockTime tx)
  | [] => tx
  end.
Definition set_coinbase_witness (w : list (list byte)) (tx : MsgTx) : MsgTx :=
  match TxIns tx with
  | ti :: ins => mkMsgTx (Version tx) (mkTxIn (PreviousOutPoint ti) (SignatureScript ti) w (Sequence ti) :: ins) (TxOuts tx) (LockTime tx)
  | [] => tx
  end.
Definition add_coinbase_value (v : Z) (tx : MsgTx) : MsgTx :=
  match TxOuts tx with
  | out :: outs => mkMsgTx (Version tx) (TxIns tx) (mkTxOut (int64 (Value out + v)) (PkScript out) :: outs) (LockTime tx)
  | [] => tx
  end.

Definition merkle_root_of (txs : list MsgTx) (witness : bool) : VRes Hash :=
  match CalcMerkleRoot txs witness with Ok root => VOk root | _ => VCrash end.

(** The coinbase with its commitment, and the commitment; [rest] are the other
    transactions of the block. *)
Definition AddWitnessCommitment (coinbaseTx : MsgTx) (rest : list MsgTx) : VRes (MsgTx * list byte) :=
  let witnessNonce := replicate (Z.to_nat CoinbaseWitnessDataLen) 0 in
  let coinbaseTx := set_coinbase_witness [witnessNonce] coinbaseTx in
  witnessMerkleRoot ← merkle_root_of (coinbaseTx :: rest) true;
  let witnessCommitment := DoubleHashH (witnessMerkleRoot ++ witnessNonce) in
  let commitmentOutput := mkTxOut 0 (WitnessMagicBytes ++ witnessCommitment) in
  VOk (mkMsgTx (Version coinbaseTx) (TxIns coinbaseTx) (TxOuts coinbaseTx ++ [commitmentOutput]) (LockTime coinbaseTx),
       witnessCommitment).

Definition BestSnapshot : CM BestState := reads s_snapshot.
Definition chain_ThresholdState (id : nat) : CM ThresholdState :=
  t ← reads (λ s, tip (bestChain (s_chain s))); on_chain (chain_deploymentState t id).
Definition CalcNextRequiredDifficulty (timestamp : Z) : CM Z := λ s,
  (calcNextRequiredDifficulty (chainParams (s_chain s)) (tip (bestChain (s_chain s))) timestamp, s).
Definition CalcNextBlockVersion : CM Z :=
  on_chain (λ b, let '(r, cs) := calcNextBlockVersion (chainParams b) (c_index b) (tip (bestChain b)) (deploymentCaches b) in
                 (r, set_caches cs b)).

Definition new_selection (p : Pick) (coinbaseTx : MsgTx) (coinbaseSigOpCost : Z) : Selection :=
  mkSelection p (BlockPrioritySize policy =? 0) []
    (uint32 (blockHeaderOverhead * WitnessScaleFactor + GetTransactionWeight coinbaseTx))
    coinbaseSigOpCost 0 [] [] false.

Definition NewBlockTemplate (payToAddress : option (VRes (list byte))) : CM BlockTemplate :=
  best ← BestSnapshot;
  let nextBlockHeight := int32 (best_Height best + 1) in
  coinbaseScript ← ret_res (standardCoinbaseScript nextBlockHeight 0);
  coinbaseTx ← ret_res (createCoinbaseTx coinbaseScript nextBlockHeight payToAddress);
  let coinbaseSigOpCost := int64 (CountSigOps coinbaseTx * WitnessScaleFactor) in
  p ← consider_all nextBlockHeight MiningDescs
        (mkPick [] ∅ (newTxPriorityQueue (BlockPrioritySize policy =? 0)) NewUtxoViewpoint 0);
  segwitState ← chain_ThresholdState DeploymentSegwit;
  s ← ret_res (select (select_rounds p) nextBlockHeight (is_active segwitState) coinbaseTx
                 (new_selection p coinbaseTx coinbaseSigOpCost));
  let coinbaseTx := add_coinbase_value (totalFees s) coinbaseTx in
  '(coinbaseTx, witnessCommitment) ←
    (if witnessIncluded s
     then ret_res ('(c, w) ← AddWitnessCommitment coinbaseTx (blockTxns s); VOk (c, Some w))
     else mret (coinbaseTx, None));
  let n := p_readings (sl_pick s) in
  let ts := medianAdjustedTime best n in
  reqDifficulty ← CalcNextRequiredDifficulty ts;
  nextBlockVersion ← CalcNextBlockVersion;
  let txs := coinbaseTx :: blockTxns s in
  root ← ret_res (merkle_root_of txs false);
  let msgBlock := mkMsgBlock (mkBlockHeader nextBlockVersion (best_Hash best) root ts reqDifficulty 0) txs in
  on_chain (CheckConnectBlockTemplate new_max sched fuel (AdjustedTime (S n)) (mkBlock msgBlock nextBlockHeight));;
  mret (mkTemplate msgBlock (int64 (- totalFees s) :: txFees s) (coinbaseSigOpCost :: txSigOpCosts s) nextBlockHeight
          (bool_decide (is_Some payToAddress)) witnessCommitment).

Definition set_header (f : BlockHeader → BlockHeader) (m : MsgBlock) : MsgBlock := mkMsgBlock (f (Header m)) (Transactions m).
Definition UpdateBlockTime (n : nat) (msgBlock : MsgBlock) : CM MsgBlock :=
  best ← BestSnapshot;
  let newTime := medianAdjustedTime best n in
  let msgBlock := set_header (λ h, mkBlockHeader (bh_Version h) (PrevBlock h) (MerkleRoot h) newTime (Bits h) (bh_Nonce h)) msgBlock in
  if ReduceMinDifficulty params then
    difficulty ← CalcNextRequiredDifficulty newTime;
    mret (set_header (λ h, mkBlockHeader (bh_Version h) (PrevBlock h) (MerkleRoot h) (bh_Timestamp h) difficulty (bh_Nonce h)) msgBlock)
  else mret msgBlock.

(** The block without transactions or without an input of the first one is
    indexed out of range. *)
Definition UpdateExtraNonce (msgBlock : MsgBlock) (blockHeight extraNonce : Z) : VRes MsgBlock :=
  coinbaseScript ← standardCoinbaseScript blockHeight extraNonce;
  if MaxCoinbaseScriptLen <? zlen coinbaseScript then VErr (OtherError "coinbase transaction script length is out of range") else
  match Transactions msgBlock with
  | [] => VCrash
  | tx :: txs =>
      match TxIns tx with
      | [] => VCrash
      | _ =>
          let txs := set_coinbase_script coinbaseScript tx :: txs in
          root ← merkle_root_of txs false;
          VOk (mkMsgBlock (let h := Header msgBlock in
                           mkBlockHeader (bh_Version h) (PrevBlock h) root (bh_Timestamp h) (Bits h) (bh_Nonce h)) txs)
      end
  end.
End Mining.

(** ** The memory pool is a source *)

Definition pool_MiningDescs `{Env} (s : TxPool) : list MiningDesc :=
  omap (λ h, (λ d, mkMiningDesc (td_Tx d) (td_Added d) (td_Height d) (td_Fee d) (td_FeePerKB d)) <$> mp_pool s !! h)
    (range_keys (mp_pool s) s).
Definition pool_source `{Crypto} `{Env} (s : TxPool) (time : nat → Z) : TxSource := {|
  MiningDescs := pool_MiningDescs s;
  HaveTransaction := λ _ h, haveTransaction s h;
  AdjustedTime := time;
  deps_order := λ n l, range_order (mp_readings s + S n) l |}.
