(* ===== verification/MiningFacts.v ===== *)
(** * Mining: what a template holds

    The selection of transactions ends, takes each at most once, and keeps to
    the limits of the policy; in their order the transactions spend only what
    is unspent; the queue gives out what sorts first. *)

From Stdlib Require Import ZArith Lia Floats.SpecFloat.
From stdpp Require Import base numbers list strings gmap.
From S2P Require Import Prelude GoFloat GoHeap ScriptNum WireBase WireTx ScriptStack ScriptToken Sighash WireMsg Taproot ScriptEngine ScriptExec ScriptStandard ChainCompress ChainUtxo ChainStore ChainStoreFacts ChainError ChainNode ChainParams ChainWork ChainThreshold ChainCache ChainCacheFacts Merkle ChainRules ChainConnect ChainSupply ChainState Mempool Mining.

Open Scope Z_scope.

(** ** The priority queue *)

(** Floats other than NaN are ordered as triples of integers. *)
Definition not_nan (x : f64) : Prop := x ≠ S754_nan.
Definition float_class (x : f64) : Z :=
  match x with
  | S754_infinity true => -2 | S754_finite true _ _ => -1 | S754_nan | S754_zero _ => 0
  | S754_finite false _ _ => 1 | S754_infinity false => 2
  end.
Definition float_exp (x : f64) : Z :=
  match x with S754_finite s _ e => if s then - e else e | _ => 0 end.
Definition float_mantissa (x : f64) : Z :=
  match x with S754_finite s m _ => if s then Z.neg m else Z.pos m | _ => 0 end.
Lemma SFcompare_key x y : not_nan x → not_nan y →
  SFcompare x y = Some match float_class x ?= float_class y with
                       | Eq => match float_exp x ?= float_exp y with Eq => float_mantissa x ?= float_mantissa y | c => c end
                       | c => c
                       end.
Proof.
  unfold not_nan. intros Hx Hy. destruct x as [sx|sx| |sx mx ex], y as [sy|sy| |sy my ey]; try done;
    destruct sx; try (by destruct sy); destruct sy; try done; cbn [SFcompare float_class float_exp float_mantissa].
  change (-1 ?= -1) with Eq. rewrite <- Z.compare_opp, (Z.compare_antisym (- ey)). by destruct (- ey ?= - ex).
Qed.

(** The order by four keys, the greatest first. *)
Definition before (k k' : Z * Z * Z * Z) : bool :=
  let '(a, b, c, d) := k in let '(a', b', c', d') := k' in
  (a' <? a) || ((a =? a') && ((b' <? b) || ((b =? b') && ((c' <? c) || ((c =? c') && (d' <? d)))))).
Definition fee_key (it : txPrioItem) : Z * Z * Z * Z :=
  let x := pi_priority it in (pi_feePerKB it, float_class x, float_exp x, float_mantissa x).
Definition priority_key (it : txPrioItem) : Z * Z * Z * Z :=
  let x := pi_priority it in (float_class x, float_exp x, float_mantissa x, pi_feePerKB it).
Definition key_of (byFee : bool) : txPrioItem → Z * Z * Z * Z := if byFee then fee_key else priority_key.
Definition less_of (byFee : bool) : Items → nat → nat → bool := if byFee then txPQByFee else txPQByPriority.

Lemma less_by_key (byFee : bool) x y : not_nan (pi_priority x) → not_nan (pi_priority y) →
  (if byFee then less_fee x y else less_priority x y) = before (key_of byFee x) (key_of byFee y).
Proof.
  intros Hx Hy. destruct byFee; unfold less_fee, less_priority, f_eq, f_gt, SFeqb, SFltb, key_of, fee_key, priority_key, before;
    rewrite ?(SFcompare_key (pi_priority x) (pi_priority y)), (SFcompare_key (pi_priority y) (pi_priority x)) by done;
    repeat match goal with |- context [?a ?= ?b] => destruct (Z.compare_spec a b) end; try destruct (_ =? _) eqn:?; lia.
Qed.

(** An address of an item whose priority is a number. *)
Definition listed (items : Items) (a : nat) : Prop := ∃ it, items !! a = Some it ∧ not_nan (pi_priority it).
#[export] Instance queue_order byFee items : WeakOrder (listed items) (less_of byFee items).
Proof.
  assert (∀ a b x y, items !! a = Some x → items !! b = Some y → not_nan (pi_priority x) → not_nan (pi_priority y) →
    less_of byFee items a b = before (key_of byFee x) (key_of byFee y)) as Hk.
  { intros a b x y Ha Hb Hx Hy. rewrite <- less_by_key by done. destruct byFee; unfold less_of, txPQByFee, txPQByPriority, by_address; by rewrite Ha, Hb. }
  split.
  - intros a b (x & Ha & Hx) (y & Hb & Hy). rewrite (Hk a b x y), (Hk b a y x) by done.
    destruct (key_of byFee x) as [[[? ?] ?] ?], (key_of byFee y) as [[[? ?] ?] ?]. unfold before. lia.
  - intros a b c (x & Ha & Hx) (y & Hb & Hy) (z & Hc & Hz). rewrite (Hk b a y x), (Hk c b z y), (Hk c a z x) by done.
    destruct (key_of byFee x) as [[[? ?] ?] ?], (key_of byFee y) as [[[? ?] ?] ?], (key_of byFee z) as [[[? ?] ?] ?]. unfold before. lia.
Qed.

(** The operations of the generator on its queue, and what it sees of them. *)
Inductive queue_op := QPush (a : nat) | QPop | QSort (byFee : bool).
Definition queue_step (items : Items) (o : queue_op) (pq : txPriorityQueue) : option nat * txPriorityQueue :=
  match o with
  | QPush a => (None, queue_Push items a pq)
  | QPop => match queue_Pop items pq with Some (a, pq) => (Some a, pq) | None => (None, pq) end
  | QSort byFee => (None, SetLessFunc items (less_of byFee) pq)
  end.
Fixpoint queue_run (items : Items) (os : list queue_op) (pq : txPriorityQueue) : list (option nat) * txPriorityQueue :=
  match os with
  | [] => ([], pq)
  | o :: os => let '(r, pq) := queue_step items o pq in let '(rs, pq) := queue_run items os pq in (r :: rs, pq)
  end.

(** The specification: a bag of addresses, of which one that no other sorts
    before is taken out. *)
Inductive bag_step (items : Items) : queue_op → option nat → bool * list nat → bool * list nat → Prop :=
  | bag_push a byFee l : bag_step items (QPush a) None (byFee, l) (byFee, a :: l)
  | bag_pop a byFee l l' : l ≡ₚ a :: l' → (∀ b, b ∈ l' → less_of byFee items b a = false) →
      bag_step items QPop (Some a) (byFee, l) (byFee, l')
  | bag_empty byFee : bag_step items QPop None (byFee, []) (byFee, [])
  | bag_sort byFee byFee' l : bag_step items (QSort byFee') None (byFee, l) (byFee', l).
Inductive bag_run (items : Items) : list queue_op → list (option nat) → bool * list nat → bool * list nat → Prop :=
  | bag_done b : bag_run items [] [] b b
  | bag_next o os r rs b1 b2 b3 : bag_step items o r b1 b2 → bag_run items os rs b2 b3 → bag_run items (o :: os) (r :: rs) b1 b3.

Definition queue_rel (items : Items) (pq : txPriorityQueue) (b : bool * list nat) : Prop :=
  lessFunc pq = less_of (fst b) ∧ q_items pq ≡ₚ snd b ∧ Forall (listed items) (q_items pq) ∧
  is_heap (less_of (fst b) items) (q_items pq).
Definition op_listed (items : Items) (o : queue_op) : Prop := match o with QPush a => listed items a | _ => True end.
Lemma queue_step_refines items o pq b :
  op_listed items o → queue_rel items pq b →
  ∃ b', bag_step items o (fst (queue_step items o pq)) b b' ∧ queue_rel items (snd (queue_step items o pq)) b'.
Proof.
  destruct b as [byFee l]. intros Ho (Hf & Hp & Hl & Hh). cbn [fst snd] in *. destruct o as [a| |byFee']; cbn [queue_step].
  - exists (byFee, a :: l). split; [constructor|]. unfold queue_rel, queue_Push. cbn [fst snd lessFunc q_items]. rewrite Hf.
    split_and!; [done|by rewrite heap_Push_perm, Hp|rewrite heap_Push_perm; by constructor|by apply (heap_Push_heap (listed items) (less_of byFee items))].
  - unfold queue_Pop. rewrite Hf. destruct (heap_Pop _ _) as [[a l']|] eqn:E; cbn.
    + pose proof (heap_Pop_perm _ _ _ _ E) as Hq. destruct (heap_Pop_heap (listed items) (less_of byFee items) _ _ _ Hl Hh E) as [Hh' Hmin].
      exists (byFee, l'). rewrite Hq in Hp, Hl. apply Forall_cons in Hl as [_ Hl'].
      split; [by constructor; [rewrite <- Hp|]|done].
    + apply heap_Pop_none in E. rewrite E in *. apply Permutation_nil in Hp as ->. exists (byFee, []). split; [constructor|].
      unfold queue_rel. rewrite Hf, E. done.
  - exists (byFee', l). split; [constructor|]. unfold queue_rel, SetLessFunc. cbn [fst snd lessFunc q_items].
    split_and!; [done|by rewrite heap_Init_perm|by rewrite heap_Init_perm|by apply (heap_Init_heap (listed items) (less_of byFee' items))].
Qed.

(** C17. The priority queue is a bag from which an item that no other sorts before
    is taken: by priority, then by fee, or the other way round, and the order
    can be changed.  The priorities are numbers. *)
Theorem priority_queue items byFee os :
  Forall (op_listed items) os →
  ∃ b, bag_run items os (fst (queue_run items os (newTxPriorityQueue byFee))) (byFee, []) b ∧
    q_items (snd (queue_run items os (newTxPriorityQueue byFee))) ≡ₚ snd b.
Proof.
  intros Ho. assert (queue_rel items (newTxPriorityQueue byFee) (byFee, [])) as Hr.
  { unfold queue_rel. destruct byFee; split_and!; try done; intros i j _ _ Hj; cbn in Hj; lia. }
  revert Hr. generalize (newTxPriorityQueue byFee) as pq, (byFee, @nil nat) as b.
  induction Ho as [|o os Ho _ IH]; intros pq b Hr; cbn [queue_run].
  - exists b. split; [constructor|apply Hr].
  - destruct (queue_step_refines items o pq b Ho Hr) as (b1 & Hs & Hr1). destruct (queue_step items o pq) as [r pq1].
    destruct (IH pq1 b1 Hr1) as (b2 & Hb & Hp). destruct (queue_run items os pq1) as [rs pq2].
    exists b2. split; [by econstructor|done].
Qed.

(** The contract of a source: each transaction once, and an iteration over a
    map visits each key once. *)
Class TxSourceOk `{CR : Crypto} `{SO : TxSource} : Prop := {
  descs_distinct : NoDup (map (TxHash ∘ md_Tx) MiningDescs);
  deps_order_perm n l : deps_order n l ≡ₚ l }.

Section Selection.
Context `{CR : Crypto} `{KS : Keys} `{SO : TxSource}.

Implicit Types (done : list Hash) (h : Hash) (p : Pick) (a : nat) (it : txPrioItem) (tx : MsgTx) (s : Selection).

Definition hash_of (it : txPrioItem) : Hash := TxHash (pi_tx it).
Definition queue_of (p : Pick) : list nat := q_items (p_queue p).
Definition waiting (items : Items) : nat := list_sum (map (λ it, size (dependsOn it)) items).

(** ** The items, the queue and the dependers *)

(** [done] are the transactions in the block. *)
Record pick_ok (done : list Hash) (p : Pick) : Prop := mkPickOk {
  po_hashes : NoDup (map hash_of (p_items p));
  po_nodup : NoDup (queue_of p);
  po_queue a : a ∈ queue_of p → ∃ it, p_items p !! a = Some it ∧ dependsOn it = ∅ ∧ hash_of it ∉ done;
  po_deps h k a : h ∉ done → (dependers p !! h ≫= (.!! k)) = Some a →
    ∃ it, p_items p !! a = Some it ∧ h ∈ dependsOn it ∧ hash_of it = k;
  po_done it : it ∈ p_items p → hash_of it ∈ done → dependsOn it = ∅ }.

Lemma same_address p done a b x y :
  pick_ok done p → p_items p !! a = Some x → p_items p !! b = Some y → hash_of x = hash_of y → a = b.
Proof.
  intros Hp Hx Hy Hh. apply (NoDup_lookup (map hash_of (p_items p)) a b (hash_of x) (po_hashes _ _ Hp)).
  - by rewrite list_lookup_fmap, Hx.
  - by rewrite list_lookup_fmap, Hy, Hh.
Qed.

Lemma map_alter_same {B} (g : txPrioItem → B) f a (items : Items) :
  (∀ it, items !! a = Some it → g (f it) = g it) → map g (alter f a items) = map g items.
Proof.
  revert a. induction items as [|it items IH]; intros [|a] Hg; [done|done| |]; cbn.
  - by rewrite Hg.
  - by rewrite IH.
Qed.
Lemma waiting_alter f a it (items : Items) :
  items !! a = Some it → (waiting (alter f a items) + size (dependsOn it) = waiting items + size (dependsOn (f it)))%nat.
Proof.
  unfold waiting. revert a. induction items as [|x items IH]; intros [|a]; cbn; [done|done| |].
  - intros [= ->]. lia.
  - intros Ha. specialize (IH a Ha). unfold alter, list_sum in *. lia.
Qed.
Lemma queue_push_perm (items : Items) a (pq : txPriorityQueue) : q_items (queue_Push items a pq) ≡ₚ a :: q_items pq.
Proof. apply heap_Push_perm. Qed.

Lemma push_queue a p : queue_of (set_queue (λ items, queue_Push items a) p) ≡ₚ a :: queue_of p.
Proof. apply queue_push_perm. Qed.
Lemma resort_queue less p : queue_of (set_queue (λ items, SetLessFunc items less) p) ≡ₚ queue_of p.
Proof. apply heap_Init_perm. Qed.

(** ** Releasing what depends on a transaction *)

Definition released (h : Hash) (it : txPrioItem) : txPrioItem := set_dependsOn (λ d, d ∖ {[h]}) it.
Lemma release_items h p a : p_items (release h p a) = alter (released h) a (p_items p).
Proof.
  unfold release, released. cbn. destruct (alter _ a (p_items p) !! a); [|done]. by case_bool_decide.
Qed.
Lemma release_ok done h p a it :
  pick_ok done p → h ∈ done → p_items p !! a = Some it → h ∈ dependsOn it →
  pick_ok done (release h p a) ∧
  (length (queue_of (release h p a)) + waiting (p_items (release h p a)) <= length (queue_of p) + waiting (p_items p))%nat.
Proof.
  intros Hp Hh Ha Hin.
  assert (hash_of it ∉ done) as Hnd.
  { intros Hd. apply (po_done _ _ Hp) in Hd; [set_solver|by eapply list_elem_of_lookup_2]. }
  assert (a ∉ queue_of p) as Hq.
  { intros (it' & Ha' & He & _)%(po_queue _ _ Hp). simplify_eq. set_solver. }
  assert (∀ b, p_items (release h p a) !! b = if decide (b = a) then Some (released h it) else p_items p !! b) as Hl.
  { intros b. rewrite release_items. case_decide as Hd; subst; [by rewrite list_lookup_alter_eq, Ha|by rewrite list_lookup_alter_ne by done]. }
  assert (waiting (p_items (release h p a)) + 1 <= waiting (p_items p))%nat as Hw.
  { rewrite release_items. pose proof (waiting_alter (released h) a it (p_items p) Ha) as Hwa.
    assert (size (dependsOn (released h it)) < size (dependsOn it))%nat; [|lia].
    apply subset_size. cbn. set_solver. }
  assert (dependers (release h p a) = dependers p) as Hdep.
  { unfold release. cbn. destruct (alter _ a (p_items p) !! a); [|done]. by case_bool_decide. }
  assert (queue_of (release h p a) ≡ₚ queue_of p ∨
          queue_of (release h p a) ≡ₚ a :: queue_of p ∧ dependsOn (released h it) = ∅) as Hqq.
  { unfold release. cbn. rewrite list_lookup_alter_eq, Ha. cbn. case_bool_decide as Hb; [right|by left].
    split; [apply queue_push_perm|done]. }
  split; [|destruct Hqq as [Hqq|[Hqq _]]; apply Permutation_length in Hqq; cbn in Hqq; lia].
  split.
  - rewrite release_items, map_alter_same by done. apply Hp.
  - destruct Hqq as [->|[-> _]]; [apply Hp|]. constructor; [done|apply Hp].
  - intros b Hb. assert (b ∈ queue_of p ∨ b = a ∧ dependsOn (released h it) = ∅) as [Hbq|[-> He]].
    { destruct Hqq as [Hqq|[Hqq He]]; rewrite Hqq in Hb; [by left|]. apply elem_of_cons in Hb as [->|]; [by right|by left]. }
    + destruct (po_queue _ _ Hp b Hbq) as (x & Hx & ?). exists x. rewrite Hl, decide_False; [done|]. by intros ->.
    + exists (released h it). by rewrite Hl, decide_True by done.
  - intros h' k b Hh'. rewrite Hdep. intros (x & Hx & Hxh & Hk)%(po_deps _ _ Hp); [|done]. rewrite Hl. case_decide as Hd; subst; [|by exists x].
    exists (released h it). simplify_eq. split_and!; [done| |done]. cbn. set_solver.
  - intros x [b Hb]%list_elem_of_lookup Hx. rewrite Hl in Hb. case_decide; simplify_eq; [done|].
    apply (po_done _ _ Hp); [by eapply list_elem_of_lookup_2|done].
Qed.

Definition load (p : Pick) : nat := (length (queue_of p) + waiting (p_items p))%nat.

Lemma release_fold done (h : Hash) (deps : gmap Hash nat) (keys : list Hash) p :
  pick_ok done p → h ∈ done → NoDup keys →
  (∀ k, k ∈ keys → ∃ a it, deps !! k = Some a ∧ p_items p !! a = Some it ∧ h ∈ dependsOn it ∧ hash_of it = k) →
  let p' := fold_left (λ p k, match deps !! k with Some a => release h p a | None => p end) keys p in
  pick_ok done p' ∧ (load p' <= load p)%nat ∧ blockUtxos p' = blockUtxos p.
Proof.
  intros Hp Hh Hnd. revert p Hp. induction Hnd as [|k keys Hk Hnd IH]; intros p Hp Hkeys; [done|]. cbn [fold_left].
  destruct (Hkeys k) as (a & it & -> & Ha & Hin & Hhash); [by left|]. destruct (release_ok done h p a it) as [Hp' Hl']; [done..|].
  assert (blockUtxos (release h p a) = blockUtxos p) as Hv.
  { unfold release. cbn. destruct (alter _ a (p_items p) !! a); [|done]. by case_bool_decide. }
  destruct (IH _ Hp') as (? & ? & Hu); [|unfold load in *; cbv zeta in *; rewrite Hu, Hv; split_and!; [done|lia|done]].
  intros k' Hk'. destruct (Hkeys k') as (b & x & Hb & Hx & Hxh & Hxk); [by right|]. exists b, x. split_and!; [done| |done|done].
  rewrite release_items, list_lookup_alter_ne; [done|]. intros ->. rewrite Ha in Hx. injection Hx as <-. apply Hk. by rewrite <- Hhash, Hxk.
Qed.

Lemma pick_ok_utxos f done p : pick_ok done p → pick_ok done (set_blockUtxos f p).
Proof. intros []. by split. Qed.
Lemma pick_ok_done done p a it :
  pick_ok done p → p_items p !! a = Some it → dependsOn it = ∅ → a ∉ queue_of p →
  pick_ok (done ++ [hash_of it]) p.
Proof.
  intros Hp Ha He Hq. split; [apply Hp|apply Hp|..].
  - intros b Hb. destruct (po_queue _ _ Hp b Hb) as (x & Hx & Hxe & Hxd). exists x. split_and!; [done..|].
    rewrite elem_of_app, list_elem_of_singleton. intros [?|Hh]; [done|]. rewrite (same_address p done b a x it) in Hb; done.
  - intros h k b Hh. apply Hp. set_solver.
  - intros x [b Hb]%list_elem_of_lookup [Hd|Hd%list_elem_of_singleton]%elem_of_app.
    + apply (po_done _ _ Hp); [by eapply list_elem_of_lookup_2|done].
    + assert (b = a) as -> by by apply (same_address p done b a x it). by simplify_eq.
Qed.
Lemma pick_ok_pop done p a pq :
  pick_ok done p → queue_Pop (p_items p) (p_queue p) = Some (a, pq) →
  pick_ok done (set_queue (λ _ _, pq) p) ∧ (a ∉ q_items pq) ∧ length (queue_of p) = S (length (q_items pq)) ∧
  ∃ it, p_items p !! a = Some it ∧ dependsOn it = ∅ ∧ hash_of it ∉ done.
Proof.
  intros Hp. unfold queue_Pop. destruct (heap_Pop _ _) as [[b l]|] eqn:E; [|done]. intros [= <- <-].
  apply heap_Pop_perm in E. change (q_items (p_queue p)) with (queue_of p) in E.
  pose proof (po_nodup _ _ Hp) as Hnd. rewrite E in Hnd. apply NoDup_cons in Hnd as [Hb Hnd]. split_and!.
  - split; [apply Hp|done| |apply Hp|apply Hp]. intros c Hc. apply (po_queue _ _ Hp). rewrite E. by right.
  - done.
  - by rewrite E.
  - apply (po_queue _ _ Hp). rewrite E. by left.
Qed.
Lemma pick_ok_push done p a it :
  pick_ok done p → p_items p !! a = Some it → dependsOn it = ∅ → hash_of it ∉ done → a ∉ queue_of p →
  pick_ok done (set_queue (λ items, queue_Push items a) p).
Proof.
  intros Hp Ha He Hd Hq. pose proof (push_queue a p) as Hqq.
  split; [apply Hp| | |apply Hp|apply Hp].
  - rewrite Hqq. constructor; [done|apply Hp].
  - intros b. rewrite Hqq. intros [->|Hb]%elem_of_cons; [by exists it|]. by apply (po_queue _ _ Hp).
Qed.
Lemma pick_ok_resort done p less :
  pick_ok done p → pick_ok done (set_queue (λ items, SetLessFunc items less) p) ∧ load (set_queue (λ items, SetLessFunc items less) p) = load p.
Proof.
  intros Hp. pose proof (resort_queue less p) as Hq.
  split; [|unfold load; by rewrite Hq]. split; [apply Hp| | |apply Hp|apply Hp].
  - rewrite Hq. apply Hp.
  - intros b. rewrite Hq. apply Hp.
Qed.

(** ** One iteration *)

Context (sched : list txValidateItem → list txValidateItem) (fuel : nat) (policy : MiningPolicy) (params : Params).
Context (height : Z) (segwit : bool) (coinbase : MsgTx).

(** The commitment is accounted for, when it has to be. *)
Definition widened s s1 : Prop :=
  s1 = s ∨ (segwit = true ∧ witnessIncluded s = false ∧ s1 = include_witness (commitment_weight coinbase) s).
Definition resorted s1 s2 : Prop := s2 = s1 ∨ (sortedByFee s1 = false ∧ s2 = sort_by_fee s1).
(** What is known of a transaction that is included. *)
Record includable (tx : MsgTx) (s : Selection) (cost : Z) : Prop := mkIncludable {
  inc_weight : blockWeight s <= uint32 (blockWeight s + uint32 (GetTransactionWeight tx)) < BlockMaxWeight policy;
  inc_sigops : GetSigOpCost tx false (blockUtxos (sl_pick s)) true segwit = VOk cost;
  inc_sigops_max : blockSigOpCost s <= int64 (blockSigOpCost s + cost) <= MaxBlockSigOpsCost;
  inc_inputs : is_Some (match CheckTransactionInputs tx height (blockUtxos (sl_pick s)) params with VOk f => Some f | _ => None end);
  inc_scripts : ValidateTransactionScripts sched fuel tx (blockUtxos (sl_pick s)) StandardVerifyFlags = VOk tt;
  inc_witness : HasWitness tx = true → segwit = true ∧ witnessIncluded s = true }.
Inductive tried (a : nat) (it : txPrioItem) (s : Selection) : Selection → Prop :=
  | tried_skip s1 s2 : widened s s1 → resorted s1 s2 → tried a it s s2
  | tried_back s1 : widened s s1 → sortedByFee s1 = false →
      tried a it s (set_pick (set_queue (λ items, queue_Push items a)) (sort_by_fee s1))
  | tried_include s1 s2 cost : widened s s1 → resorted s1 s2 → includable (pi_tx it) s2 cost →
      tried a it s (include height it (uint32 (GetTransactionWeight (pi_tx it))) cost s2).

Lemma or_skip_ok {B} (r : VRes B) s k s' :
  or_skip r s k = VOk s' → s' = s ∨ ∃ b, r = VOk b ∧ k b = VOk s'.
Proof. destruct r as [b|e|]; cbn; [right; eauto|intros [= <-]; by left|done]. Qed.

Lemma try_item_cases a it s s' :
  try_item sched fuel policy params height segwit coinbase a it s = VOk s' → tried a it s s'.
Proof.
  unfold try_item. cbv zeta. destruct (negb segwit && HasWitness (pi_tx it)) eqn:Ew0.
  { intros [= <-]. by apply (tried_skip a it s s s); left. }
  set (s1 := if segwit && negb (witnessIncluded s) && HasWitness (pi_tx it) then _ else s).
  assert (widened s s1) as Hw.
  { unfold s1. destruct (segwit && negb (witnessIncluded s) && HasWitness (pi_tx it)) eqn:E; [|by left]. apply andb_true_iff in E as [[E1 E2%negb_true_iff]%andb_true_iff _]. by right. }
  assert (HasWitness (pi_tx it) = true → segwit = true ∧ witnessIncluded s1 = true) as Hwi.
  { intros E. rewrite E in Ew0. rewrite andb_true_r in Ew0. apply negb_false_iff in Ew0. split; [done|]. unfold s1. rewrite E, Ew0. by destruct (witnessIncluded s) eqn:Ei. }
  destruct (_ || _) eqn:Ewt; [intros [= <-]; by apply (tried_skip a it s s1 s1); [|left]|].
  apply orb_false_iff in Ewt as [Ew1%Z.ltb_ge Ew2%Z.leb_gt].
  intros [->|(cost & Hc & Hk)]%or_skip_ok; [by apply (tried_skip a it s s1 s1); [|left]|]. revert Hk.
  destruct (_ || _) eqn:Eso; [intros [= <-]; by apply (tried_skip a it s s1 s1); [|left]|].
  apply orb_false_iff in Eso as [Es1%Z.ltb_ge Es2%Z.ltb_ge].
  destruct (sortedByFee s1 && _ && _); [intros [= <-]; by apply (tried_skip a it s s1 s1); [|left]|].
  set (sw := negb (sortedByFee s1) && _). set (s2 := if sw then sort_by_fee s1 else s1).
  assert (resorted s1 s2) as Hr.
  { unfold s2. destruct sw eqn:E; [|by left]. unfold sw in E. apply andb_true_iff in E as [E%negb_true_iff _]. by right. }
  destruct (sw && _) eqn:Eb.
  { intros [= <-]. unfold s2. apply andb_true_iff in Eb as [Eb _]. rewrite Eb. apply tried_back; [done|].
    unfold sw in Eb. by apply andb_true_iff in Eb as [E%negb_true_iff _]. }
  intros [->|(f & Hf & Hk)]%or_skip_ok; [by apply (tried_skip a it s s1 s2)|]. revert Hk.
  intros [->|([] & Hv & Hk)]%or_skip_ok; [by apply (tried_skip a it s s1 s2)|]. revert Hk. intros [= <-].
  apply (tried_include a it s s1 s2 cost); [done|done|].
  destruct Hr as [->|[_ ->]]; (split; [done|done|done|by rewrite Hf|done|done]).
Qed.

Definition sel_ok s : Prop := pick_ok (map TxHash (blockTxns s)) (sl_pick s).
Definition sel_load s : nat := (load (sl_pick s) + if sortedByFee s then 0 else 1)%nat.

Lemma widened_same s s1 : widened s s1 → sl_pick s1 = sl_pick s ∧ sortedByFee s1 = sortedByFee s ∧ blockTxns s1 = blockTxns s.
Proof. by intros [->|(_ & _ & ->)]. Qed.
Lemma resorted_ok s1 s2 :
  resorted s1 s2 → sel_ok s1 →
  sel_ok s2 ∧ (sel_load s2 <= sel_load s1)%nat ∧ p_items (sl_pick s2) = p_items (sl_pick s1) ∧
  queue_of (sl_pick s2) ≡ₚ queue_of (sl_pick s1) ∧ dependers (sl_pick s2) = dependers (sl_pick s1) ∧
  blockTxns s2 = blockTxns s1 ∧ blockUtxos (sl_pick s2) = blockUtxos (sl_pick s1).
Proof.
  intros [->|[Hf ->]] Hs; [done|]. destruct (pick_ok_resort _ _ txPQByFee Hs) as [H1 H2].
  split_and!; [done| |done|apply heap_Init_perm|done|done|done].
  unfold sel_load. cbn [sl_pick sortedByFee sort_by_fee]. rewrite H2, Hf. lia.
Qed.

Context (order_perm : ∀ n l, deps_order n l ≡ₚ l).

Lemma include_ok a it w c s :
  sel_ok s → p_items (sl_pick s) !! a = Some it → dependsOn it = ∅ → hash_of it ∉ map TxHash (blockTxns s) →
  a ∉ queue_of (sl_pick s) →
  sel_ok (include height it w c s) ∧ (sel_load (include height it w c s) <= sel_load s)%nat ∧
  blockUtxos (sl_pick (include height it w c s)) = spendTransaction (blockUtxos (sl_pick s)) (pi_tx it) height.
Proof.
  intros Hs Ha He Hd Hq. unfold include, sel_ok, sel_load. cbn [sl_pick blockTxns sortedByFee]. rewrite map_app. cbn [map].
  change (TxHash (pi_tx it)) with (hash_of it).
  set (p := set_blockUtxos (λ v, spendTransaction v (pi_tx it) height) (sl_pick s)).
  assert (pick_ok (map TxHash (blockTxns s) ++ [hash_of it]) p) as Hp.
  { apply pick_ok_utxos, (pick_ok_done _ _ a it); done. }
  unfold release_all. change (dependers p) with (dependers (sl_pick s)).
  set (deps := default ∅ (dependers (sl_pick s) !! hash_of it)).
  destruct (release_fold (map TxHash (blockTxns s) ++ [hash_of it]) (hash_of it) deps
    (deps_order (p_readings p) (map fst (map_to_list deps))) (read_source p)) as (H1 & H2 & H3).
  - by destruct Hp.
  - set_solver.
  - rewrite order_perm. apply NoDup_fst_map_to_list.
  - intros k. rewrite order_perm. intros ([k' b] & -> & Hb%elem_of_map_to_list)%list_elem_of_fmap. cbn.
    destruct (po_deps _ _ Hs (hash_of it) k' b) as (x & Hx & ? & ?); [done| |by exists b, x].
    unfold deps in Hb. destruct (dependers (sl_pick s) !! hash_of it); [done|]. cbn in Hb. by apply lookup_empty_Some in Hb.
  - cbv zeta in *. change (load (read_source p)) with (load (sl_pick s)) in H2. split_and!; [done|lia|done].
Qed.

Lemma tried_ok a it s s' :
  sel_ok s → p_items (sl_pick s) !! a = Some it → dependsOn it = ∅ → hash_of it ∉ map TxHash (blockTxns s) →
  a ∉ queue_of (sl_pick s) → tried a it s s' → sel_ok s' ∧ (sel_load s' <= sel_load s)%nat.
Proof.
  intros Hs Ha He Hd Hq Ht.
  assert (∀ s1, widened s s1 → sel_ok s1 ∧ sel_load s1 = sel_load s) as Hwid.
  { intros s1 (E1 & E2 & E3)%widened_same. unfold sel_ok, sel_load. by rewrite E1, E2, E3. }
  destruct Ht as [s1 s2 Hw Hr|s1 Hw Hf|s1 s2 cost Hw Hr Hi].
  - destruct (Hwid _ Hw) as [H1 H2]. destruct (resorted_ok _ _ Hr H1) as (? & ? & _). split; [done|lia].
  - destruct (Hwid _ Hw) as [H1 H2]. apply widened_same in Hw as (E1 & E2 & E3).
    destruct (pick_ok_resort _ _ txPQByFee H1) as [H3 H4]. unfold sel_ok. cbn [sl_pick blockTxns set_pick sort_by_fee]. split.
    + apply (pick_ok_push _ _ a it); [done|cbn; by rewrite E1|done|by rewrite E3|by rewrite resort_queue, E1].
    + unfold sel_load in *. cbn [sl_pick sortedByFee set_pick sort_by_fee]. rewrite <- H2, Hf, <- H4. unfold load.
      rewrite push_queue. cbn [length p_items set_queue]. lia.
  - destruct (Hwid _ Hw) as [H1 H2]. apply widened_same in Hw as (E1 & E2 & E3).
    destruct (resorted_ok _ _ Hr H1) as (H3 & H4 & H5 & H6 & _ & H7 & _).
    destruct (include_ok a it (uint32 (GetTransactionWeight (pi_tx it))) cost s2) as (? & ? & _);
      [done|by rewrite H5, E1|done|by rewrite H7, E3|by rewrite H6, E1|]. split; [done|lia].
Qed.

(** ** The selection *)

Inductive select_step s s' : Prop :=
  | select_one a pq it : queue_Pop (p_items (sl_pick s)) (p_queue (sl_pick s)) = Some (a, pq) →
      p_items (sl_pick s) !! a = Some it → tried a it (set_pick (set_queue (λ _ _, pq)) s) s' → select_step s s'.

Lemma select_step_ok s s' : sel_ok s → select_step s s' → sel_ok s' ∧ (sel_load s' < sel_load s)%nat.
Proof.
  intros Hs [a pq it Hpop Ha Ht]. destruct (pick_ok_pop _ _ _ _ Hs Hpop) as (Hp & Hq & Hl & it' & Ha' & He & Hd). simplify_eq.
  destruct (tried_ok a it (set_pick (set_queue (λ _ _, pq)) s) s' Hp Ha He Hd Hq Ht) as [? Hll]. split; [done|].
  assert (S (sel_load (set_pick (set_queue (λ _ _, pq)) s)) = sel_load s) as Hls; [|lia].
  unfold sel_load, load. cbn [sl_pick set_pick p_items sortedByFee].
  change (queue_of (set_queue (λ _ _, pq) (sl_pick s))) with (q_items pq).
  change (p_items (set_queue (λ _ _, pq) (sl_pick s))) with (p_items (sl_pick s)). rewrite Hl. lia.
Qed.
Lemma select_steps rounds s s' :
  select sched fuel policy params rounds height segwit coinbase s = VOk s' → rtc select_step s s'.
Proof.
  revert s. induction rounds as [|rounds IH]; intros s; cbn [select]; [by intros [= <-]|].
  destruct (queue_Pop _ _) as [[a pq]|] eqn:Hpop; [|by intros [= <-]]. destruct (p_items _ !! a) as [it|] eqn:Ha; [|done].
  rewrite VRes_bind_ok. intros (s1 & H1%try_item_cases & H2%IH). eapply rtc_l; [by econstructor|done].
Qed.
(** The number of rounds is no limit. *)
Lemma select_enough rounds s :
  sel_ok s → (sel_load s < rounds)%nat →
  (∀ k, select sched fuel policy params (rounds + k) height segwit coinbase s =
        select sched fuel policy params rounds height segwit coinbase s) ∧
  (∀ s', select sched fuel policy params rounds height segwit coinbase s = VOk s' → queue_of (sl_pick s') = []).
Proof.
  revert s. induction rounds as [|rounds IH]; intros s Hs Hl; [lia|]. cbn [select Nat.add].
  destruct (queue_Pop _ _) as [[a pq]|] eqn:Hpop.
  - destruct (p_items _ !! a) as [it|] eqn:Ha; [|done].
    destruct (try_item _ _ _ _ _ _ _ a it _) as [s1|e|] eqn:E1; cbn; [|done|done].
    apply try_item_cases in E1. destruct (select_step_ok s s1) as [? ?]; [done|by econstructor|]. apply IH; [done|lia].
  - split; [done|]. intros s' [= <-]. unfold queue_Pop in Hpop. destruct (heap_Pop _ _) as [[]|] eqn:E; [done|].
    by apply heap_Pop_none in E.
Qed.

(** ** The first pass *)

Lemma pick_ok_alter f a p :
  pick_ok [] p → a ∉ queue_of p →
  (∀ it, p_items p !! a = Some it → hash_of (f it) = hash_of it ∧ dependsOn it ⊆ dependsOn (f it)) →
  pick_ok [] (set_items (alter f a) p).
Proof.
  intros Hp Hq Hf. split; cbn [p_items set_items dependers]; [..|by intros it _ ?%elem_of_nil].
  - rewrite map_alter_same; [apply Hp|]. intros it Hit. by apply Hf.
  - apply Hp.
  - intros b Hb. rewrite list_lookup_alter_ne by by intros ->. by apply (po_queue _ _ Hp).
  - intros h k b Hh (it & Hit & ? & ?)%(po_deps _ _ Hp); [|done]. destruct (decide (b = a)) as [->|Hne].
    + rewrite list_lookup_alter_eq, Hit. destruct (Hf it Hit). eexists. split_and!; [done|set_solver|congruence].
    + rewrite list_lookup_alter_ne by done. by exists it.
Qed.
Lemma pick_ok_new tx p : pick_ok [] p → TxHash tx ∉ map hash_of (p_items p) → pick_ok [] (set_items (λ l, l ++ [new_item tx]) p).
Proof.
  intros Hp Hn. split; cbn [p_items set_items dependers]; [..|by intros it _ ?%elem_of_nil].
  - rewrite map_app. apply NoDup_app. split_and!; [apply Hp| |apply NoDup_singleton].
    intros x Hx Hy%list_elem_of_singleton. subst x. done.
  - apply Hp.
  - intros b (it & Hit & ?)%(po_queue _ _ Hp). exists it. split; [by apply lookup_app_l_Some|done].
  - intros h k b Hh (it & Hit & ?)%(po_deps _ _ Hp); [|done]. exists it. split; [by apply lookup_app_l_Some|done].
Qed.
Lemma depend_ok a h o p it :
  pick_ok [] p → a ∉ queue_of p → p_items p !! a = Some it → hash_of it = h → pick_ok [] (depend a h o p).
Proof.
  intros Hp Hq Ha Hh. assert (pick_ok [] (set_items (alter (set_dependsOn (union {[o]})) a) p)) as Hp1.
  { apply pick_ok_alter; [done|done|]. intros x Hx. split; [done|]. cbn. set_solver. }
  split; [apply Hp1|apply Hp1|apply Hp1| |apply Hp1]. cbn [depend dependers set_items set_dependers p_items].
  intros h' k b Hh'. destruct (decide (h' = o)) as [->|Hne].
  - rewrite lookup_insert_eq. cbn. destruct (decide (k = h)) as [->|Hk].
    + rewrite lookup_insert_eq. intros [= <-]. rewrite list_lookup_alter_eq, Ha. eexists. split_and!; [done|cbn; set_solver|done].
    + rewrite lookup_insert_ne by done. intros Hb. apply (po_deps _ _ Hp1); [done|].
      cbn. destruct (dependers p !! o); [done|]. cbn in Hb. by apply lookup_empty_Some in Hb.
  - rewrite lookup_insert_ne by done. intros Hb. by apply (po_deps _ _ Hp1).
Qed.

(** The new item at [a] is all that changes, apart from the readings. *)
Record linked (a : nat) (tx : MsgTx) (p p' : Pick) : Prop := mkLinked {
  lk_ok : pick_ok [] p';
  lk_queue : p_queue p' = p_queue p;
  lk_utxos : blockUtxos p' = blockUtxos p;
  lk_item : ∃ d, p_items p' !! a = Some (set_dependsOn d (new_item tx));
  lk_others b : b ≠ a → p_items p' !! b = p_items p !! b;
  lk_hashes : map hash_of (p_items p') = map hash_of (p_items p) }.
Lemma link_inputs_ok ins a tx v p0 p b p' :
  a ∉ queue_of p0 → linked a tx p0 p → link_inputs ins a (TxHash tx) v p = (b, p') → linked a tx p0 p'.
Proof.
  intros Hq. revert p. induction ins as [|ti ins IH]; intros p Hl; cbn [link_inputs]; [by intros [= _ <-]|].
  destruct (spendable_entry v (PreviousOutPoint ti)); [by apply IH|].
  assert (linked a tx p0 (read_source p)) as Hl1 by (destruct Hl as [Ho]; split; try done; by destruct Ho).
  destruct (negb _); [by intros [= _ <-]|]. apply IH. destruct Hl1 as [Ho Hqq Hv [d Hi] Hot Hha]. split.
  - eapply depend_ok; [done| |exact Hi|done]. unfold queue_of. by rewrite Hqq.
  - done.
  - done.
  - cbn [depend p_items set_items set_dependers]. rewrite list_lookup_alter_eq, Hi. by exists (λ x, union {[op_Hash (PreviousOutPoint ti)]} (d x)).
  - intros c Hc. cbn [depend p_items set_items set_dependers]. rewrite list_lookup_alter_ne by done. by apply Hot.
  - cbn [depend p_items set_items set_dependers]. by rewrite map_alter_same.
Qed.

Lemma link_inputs_stops ins a h v p p' :
  link_inputs ins a h v p = (false, p') →
  ∃ op n, op ∈ map PreviousOutPoint ins ∧ unspent v op = None ∧ HaveTransaction n (op_Hash op) = false.
Proof.
  revert p. induction ins as [|ti ins IH]; intros p; cbn [link_inputs map]; [done|].
  assert (∀ p1, link_inputs ins a h v p1 = (false, p') → ∃ op n, op ∈ PreviousOutPoint ti :: map PreviousOutPoint ins ∧
    unspent v op = None ∧ HaveTransaction n (op_Hash op) = false) as Hgo.
  { intros p1 (op & n & Hop & ?)%IH. exists op, n. split; [by right|done]. }
  destruct (spendable_entry v (PreviousOutPoint ti)) eqn:Es; [apply Hgo|].
  destruct (HaveTransaction _ _) eqn:Eh; cbn [negb]; [apply Hgo|]. intros _. exists (PreviousOutPoint ti), (p_readings p).
  split_and!; [by left| |done]. unfold spendable_entry, LookupEntry in Es. unfold unspent.
  destruct (entries v !! _) as [e|]; [|done]. by destruct (IsSpent e).
Qed.

(** ** Views *)

Lemma fits_in v L op x : fits v L [] → unspent v op = Some x → L op = Some x.
Proof. intros Hf Hx. destruct (Hf op x Hx) as [?|(tx & ?%elem_of_nil & _)]; [done|done]. Qed.
Lemma merge_fits v u L : fits v L [] → fits u L [] → fits (mergeUtxoView v u) L [].
Proof.
  intros Hv Hu. unfold mergeUtxoView.
  assert (∀ q, q ∈ all_entries_of u → match snd q with Some e => IsSpent e = false → L (fst q) = Some (stxo_of e) | None => True end) as Hq.
  { intros q [Hq|Hq]%elem_of_app; [|by apply list_elem_of_fmap in Hq as (op & -> & _)].
    apply list_elem_of_fmap in Hq as ([op e] & -> & He%elem_of_map_to_list). cbn. intros Hs. apply (fits_in u); [done|].
    unfold unspent. by rewrite He, Hs. }
  revert v Hv Hq. induction (all_entries_of u) as [|q l IH]; intros v Hv Hq; cbn [fold_left]; [done|]. apply IH.
  - assert (fits (put_fetched q v) L []) as Hp.
    { specialize (Hq q ltac:(by left)). destruct q as [op [e|]]; unfold put_fetched; cbn in *; [by apply fits_set|by apply fits_nil]. }
    unfold merge_entry. destruct (entries v !! fst q) as [e|]; [|done]. by destruct (IsSpent e).
  - intros q' Hq'. apply Hq. by right.
Qed.
Lemma spendTransaction_ledger v tx :
  IsCoinBaseTx tx = false → same (unspent (spendTransaction v tx height)) (ledger_tx height tx (unspent v)).
Proof.
  intros Hc op. unfold spendTransaction, ledger_tx. rewrite unspent_AddTxOuts. destruct (created height tx op); [done|].
  unfold inputs. rewrite Hc. fold (spent_outpoints tx). revert v. induction (spent_outpoints tx) as [|o l IH]; intros v; cbn [fold_left].
  { by rewrite decide_False by apply not_elem_of_nil. }
  rewrite IH. destruct (decide (op ∈ l)) as [Hin|Hin]; [by rewrite decide_True by by right|].
  unfold LookupEntry. destruct (entries v !! o) as [e|] eqn:He.
  - rewrite unspent_set, Spend_spent. destruct (decide (o = op)) as [->|Hne]; [by rewrite decide_True by by left|].
    rewrite decide_False; [done|]. by intros [->|]%elem_of_cons.
  - destruct (decide (op = o)) as [->|Hne].
    + rewrite decide_True by left. unfold unspent. by rewrite He.
    + rewrite decide_False; [done|]. by intros [->|]%elem_of_cons.
Qed.
Lemma spend_fits v tx L :
  IsCoinBaseTx tx = false → fits v L [] → fits (spendTransaction v tx height) (ledger_tx height tx L) [].
Proof.
  intros Hc Hf. apply (fits_step height tx [] v); [|by apply spendTransaction_ledger].
  intros op x Hx. left. by apply (fits_in v).
Qed.

(** ** What is considered *)

(** An input that the chain does not have unspent and whose transaction the
    source did not have when it was asked. *)
Definition input_missing (L : ledger) (tx : MsgTx) : Prop :=
  ∃ op n, op ∈ spent_outpoints tx ∧ L op = None ∧ HaveTransaction n (op_Hash op) = false.
Definition from_source (ds : list MiningDesc) (nextHeight : Z) (L : ledger) (tx : MsgTx) (fee : Z) : Prop :=
  ∃ d, d ∈ ds ∧ md_Tx d = tx ∧ IsCoinBaseTx tx = false ∧ (∃ n, IsFinalizedTransaction tx nextHeight (AdjustedTime n) = true) ∧
    (fee = md_Fee d ∨ fee = 0 ∧ input_missing L tx).
Record picked (ds : list MiningDesc) (nextHeight : Z) (L : ledger) (p : Pick) : Prop := mkPicked {
  pk_ok : pick_ok [] p;
  pk_items it : it ∈ p_items p → from_source ds nextHeight L (pi_tx it) (pi_fee it);
  pk_fits : fits (blockUtxos p) L [] }.

Lemma queue_in_range done p a : pick_ok done p → a ∈ queue_of p → (a < length (p_items p))%nat.
Proof. intros Hp (it & Hit & _)%(po_queue _ _ Hp). by eapply lookup_lt_Some. Qed.

Lemma consider_fetched_ok ds d nextHeight L v p :
  picked ds nextHeight L p → d ∈ ds → TxHash (md_Tx d) ∉ map hash_of (p_items p) → fits v L [] →
  (∀ op, op ∈ spent_outpoints (md_Tx d) → unspent v op = L op) →
  IsCoinBaseTx (md_Tx d) = false → (∃ n, IsFinalizedTransaction (md_Tx d) nextHeight (AdjustedTime n) = true) →
  picked ds nextHeight L (consider_fetched nextHeight d v p) ∧
  map hash_of (p_items (consider_fetched nextHeight d v p)) = map hash_of (p_items p) ++ [TxHash (md_Tx d)].
Proof.
  intros [Hp Hi Hf] Hd Hh Hv HvL Hc Hn. unfold consider_fetched. set (a := length (p_items p)). set (tx := md_Tx d) in *.
  set (p1 := set_items (λ l, l ++ [new_item tx]) p).
  assert (a ∉ queue_of p) as Hq. { intros Ha%(queue_in_range _ _ _ Hp). unfold a in Ha. lia. }
  assert (linked a tx p1 p1) as Hl1.
  { split; [by apply pick_ok_new|done|done| |done|done]. exists (λ x, x). unfold p1, a. cbn. by rewrite lookup_app_r, Nat.sub_diag by lia. }
  destruct (link_inputs (TxIns tx) a (TxHash tx) v p1) as [b p2] eqn:E.
  pose proof (link_inputs_ok _ _ _ _ p1 p1 _ _ Hq Hl1 E) as [Ho Hqq Hu [g Hg] Hot Hha].
  assert (map hash_of (p_items p2) = map hash_of (p_items p) ++ [TxHash tx]) as Hm by (rewrite Hha; unfold p1; cbn; by rewrite map_app).
  assert (a ∉ queue_of p2) as Hq2 by (unfold queue_of; by rewrite Hqq).
  assert (∀ c it, c ≠ a → p_items p2 !! c = Some it → from_source ds nextHeight L (pi_tx it) (pi_fee it)) as Hsrc.
  { intros c it Hca. rewrite (Hot c Hca). unfold p1. cbn. intros [Hx|[Hx1 Hx2]]%lookup_app_Some; [by apply Hi; eapply list_elem_of_lookup_2|].
    apply list_lookup_singleton_Some in Hx2 as [Hx2 _]. unfold a in Hca. lia. }
  destruct b.
  2: { split; [|done]. split; [done| |by rewrite Hu]. intros it [c Hx]%list_elem_of_lookup.
       destruct (decide (c = a)) as [->|Hca]; [|by apply (Hsrc c)]. simplify_eq. exists d. split_and!; [done|done|done|done|].
       right. split; [done|]. apply link_inputs_stops in E as (op & n & Hop & Hu' & Hh'). exists op, n.
       split_and!; [done|by rewrite <- HvL|done]. }
  set (f := λ it, mkPrioItem tx (md_Fee d) (CalcPriority tx v nextHeight) (md_FeePerKB d) (dependsOn it)).
  set (p3 := set_items (alter f a) p2). cbv zeta.
  assert (p_items p3 !! a = Some (f (set_dependsOn g (new_item tx)))) as Ha3 by (unfold p3; cbn; by rewrite list_lookup_alter_eq, Hg).
  assert (pick_ok [] p3) as Hp3. { apply pick_ok_alter; [done|done|]. intros it Hit. simplify_eq. split; done. }
  assert (map hash_of (p_items p3) = map hash_of (p_items p) ++ [TxHash tx]) as Hm3.
  { unfold p3. cbn. rewrite map_alter_same; [done|]. intros it Hit. by simplify_eq. }
  change (p_items (set_items (alter f a) p2)) with (p_items p3). rewrite Ha3.
  assert (∀ it, it ∈ p_items p3 → from_source ds nextHeight L (pi_tx it) (pi_fee it)) as Hi3.
  { intros it [c Hx]%list_elem_of_lookup. destruct (decide (c = a)) as [->|Hca].
    - simplify_eq. exists d. split_and!; [done|done|done|done|by left].
    - apply (Hsrc c); [done|]. unfold p3 in Hx. cbn in Hx. by rewrite list_lookup_alter_ne in Hx. }
  assert (fits (mergeUtxoView (blockUtxos p2) v) L []) as Hf3 by (apply merge_fits; [by rewrite Hu|done]).
  case_bool_decide as Hb; (split; [split|]); try done; apply pick_ok_utxos; [|done].
  apply (pick_ok_push _ _ a _ Hp3 Ha3 Hb); [apply not_elem_of_nil|done].
Qed.

Context (new_max : list Z → Z → Z).
(** The chain answers with the outputs of [L]. *)
Definition answers (L : ledger) (c : Chain) : Prop :=
  cache_ok (c_db (s_chain c)) (c_utxoCache (s_chain c)) ∧ same (cache_ledger (c_db (s_chain c)) (c_utxoCache (s_chain c))) L.

Lemma fetch_answers L tx c r c' :
  answers L c → Forall outpoint_fits (spent_outpoints tx) →
  try (on_chain (chain_FetchUtxoView new_max tx)) c = (VOk r, c') →
  answers L c' ∧ ∀ v, r = VOk v → fits v L [] ∧ (IsCoinBaseTx tx = false → ∀ op, op ∈ spent_outpoints tx → unspent v op = L op).
Proof.
  intros [Hc HL] Hfit. unfold try, on_chain, chain_FetchUtxoView, with_cache.
  set (ops := own_outpoints tx ++ _).
  assert (Forall outpoint_fits ops) as Hops.
  { apply Forall_app. split.
    - apply Forall_forall. intros op (q & -> & Hq)%list_elem_of_fmap. by apply (outpoints_fit tx).
    - destruct (IsCoinBaseTx tx); [constructor|done]. }
  destruct (fetch_keeps new_max (λ v, fits v L []) (c_db (s_chain c)) ops NewUtxoViewpoint (c_utxoCache (s_chain c)))
    as (v & u & He & Hf & Hu & HL'); [done|done| | |].
  - intros op o w _ _ _ Ho. apply fits_put. by rewrite Ho.
  - intros op x Hx. unfold unspent in Hx. cbn [entries NewUtxoViewpoint] in Hx. by rewrite lookup_empty in Hx.
  - rewrite He. intros [= <- <-]. split; [split; [done|]; cbn; by rewrite HL'|]. intros ? [= <-]. split; [done|].
    intros Hcb op Hop. rewrite (fetch_complete new_max _ _ _ _ _ _ Hc Hops He); [apply HL|].
    unfold ops. rewrite Hcb. apply elem_of_app. by right.
Qed.
Lemma consider_ok ds d nextHeight L p c p' c' :
  answers L c → picked ds nextHeight L p → d ∈ ds → TxHash (md_Tx d) ∉ map hash_of (p_items p) →
  Forall outpoint_fits (spent_outpoints (md_Tx d)) → consider new_max nextHeight d p c = (VOk p', c') →
  answers L c' ∧ picked ds nextHeight L p' ∧
  ∀ x, x ∈ map hash_of (p_items p') → x ∈ map hash_of (p_items p) ∨ x = TxHash (md_Tx d).
Proof.
  intros Hc Hp Hd Hh Hfit. unfold consider. destruct (IsCoinBaseTx (md_Tx d)) eqn:Ecb.
  { intros [= <- <-]. split_and!; [done|done|auto]. }
  assert (picked ds nextHeight L (read_source p)) as Hp1 by (destruct Hp as [Ho]; split; try done; by destruct Ho).
  destruct (negb _) eqn:Ef.
  { intros [= <- <-]. split_and!; [done|done|auto]. }
  apply negb_false_iff in Ef. unfold mbind, CM_bind.
  destruct (try _ c) as [[r|e|] c1] eqn:Et; [|done|done]. destruct (fetch_answers L _ _ _ _ Hc Hfit Et) as [Hc1 Hv].
  destruct r as [v|e|].
  - intros [= <- <-]. destruct (consider_fetched_ok ds d nextHeight L v (read_source p)) as [H1 H2];
      [done|done|done|by apply (Hv v)|by apply (Hv v)|done|eauto|]. split_and!; [done|done|]. intros x. rewrite H2.
    intros [?|?%list_elem_of_singleton]%elem_of_app; auto.
  - intros [= <- <-]. split_and!; [done|done|auto].
  - intros [= <- <-]. split_and!; [done|done|auto].
Qed.
Lemma consider_all_ok ds0 ds nextHeight L p c p' c' :
  answers L c → picked ds0 nextHeight L p → (∀ d, d ∈ ds → d ∈ ds0) → NoDup (map (TxHash ∘ md_Tx) ds) →
  (∀ d, d ∈ ds → TxHash (md_Tx d) ∉ map hash_of (p_items p)) →
  Forall (λ d, Forall outpoint_fits (spent_outpoints (md_Tx d))) ds →
  consider_all new_max nextHeight ds p c = (VOk p', c') → answers L c' ∧ picked ds0 nextHeight L p'.
Proof.
  intros Hc Hp Hds Hnd Hnew Hfit. revert p c Hc Hp Hnew. induction Hfit as [|d ds Hd Hfit IH]; intros p c Hc Hp Hnew; cbn [consider_all].
  { by intros [= <- <-]. }
  unfold mbind, CM_bind. destruct (consider new_max nextHeight d p c) as [[p1|e|] c1] eqn:E; [|done|done].
  destruct (consider_ok ds0 d nextHeight L p c p1 c1) as (Hc1 & Hp1 & Hh1); [done|done|apply Hds; by left|apply Hnew; by left|done|done|].
  cbn [map] in Hnd. apply NoDup_cons in Hnd as [Hdn Hnd]. apply IH; [intros; apply Hds; by right|done|done|done|].
  intros d' Hd' [?|Hx]%Hh1; [by apply (Hnew d'); [right|]|]. apply Hdn. apply list_elem_of_fmap. exists d'. split; [symmetry; exact Hx|done].
Qed.

(** ** What is selected *)

(** What stays of an item when its dependencies change. *)
Definition key (it : txPrioItem) : MsgTx * Z * f64 * Z := (pi_tx it, pi_fee it, pi_priority it, pi_feePerKB it).
Lemma release_fold_key h (deps : gmap Hash nat) (keys : list Hash) p :
  map key (p_items (fold_left (λ p k, match deps !! k with Some a => release h p a | None => p end) keys p)) = map key (p_items p).
Proof.
  revert p. induction keys as [|k keys IH]; intros p; cbn [fold_left]; [done|]. rewrite IH. destruct (deps !! k) as [a|]; [|done].
  by rewrite release_items, map_alter_same.
Qed.
Lemma tried_key a it s s' : tried a it s s' → map key (p_items (sl_pick s')) = map key (p_items (sl_pick s)).
Proof.
  assert (∀ s1 s2, widened s s1 → resorted s1 s2 → p_items (sl_pick s2) = p_items (sl_pick s)) as Hs.
  { intros s1 s2 (E & _)%widened_same [->|[_ ->]]; cbn; by rewrite E. }
  intros [s1 s2 Hw Hr|s1 Hw Hf|s1 s2 cost Hw Hr Hi]; [by rewrite (Hs _ _ Hw Hr)| |].
  - apply widened_same in Hw as (E & _). cbn. by rewrite E.
  - unfold include, release_all. cbn [sl_pick]. rewrite release_fold_key. cbn. by rewrite (Hs _ _ Hw Hr).
Qed.

(** Each transaction finds its inputs when those before it are applied. *)
Definition finds_inputs (txs : list MsgTx) (L : ledger) : Prop :=
  ∀ pre tx post, txs = pre ++ tx :: post → ∀ op, op ∈ inputs tx → is_Some (ledger_txs height pre L op).
Lemma finds_inputs_snoc txs tx L :
  finds_inputs txs L → (∀ op, op ∈ inputs tx → is_Some (ledger_txs height txs L op)) → finds_inputs (txs ++ [tx]) L.
Proof.
  intros Hf Ht pre x post E. destruct post as [|y post _] using rev_ind.
  - apply app_inj_tail in E as [<- <-]. done.
  - rewrite app_comm_cons, app_assoc in E. apply app_inj_tail in E as [-> _]. by apply (Hf pre x post).
Qed.
Lemma finds_inputs_spends txs L :
  finds_inputs txs L → Forall (λ tx, NoDup (inputs tx)) txs → spends_unspent height txs L.
Proof.
  intros Hf Hnd. revert L Hf. induction Hnd as [|tx txs Htx Hnd IH]; intros L Hf; cbn [spends_unspent]; [done|]. split_and!; [done| |].
  - by apply (Hf [] tx txs).
  - apply IH. intros pre x post -> op Hop. by apply (Hf (tx :: pre) x post).
Qed.
Lemma ledger_txs_snoc txs tx L : ledger_txs height (txs ++ [tx]) L = ledger_tx height tx (ledger_txs height txs L).
Proof. unfold ledger_txs. by rewrite fold_left_app. Qed.

(** [P] is what is known of the transactions and fees of the items. *)
Record sel_inv (P : MsgTx → Z → Prop) (L : ledger) s : Prop := mkSelInv {
  si_ok : sel_ok s;
  si_items : Forall (λ k : MsgTx * Z * f64 * Z, P k.1.1.1 k.1.1.2) (map key (p_items (sl_pick s)));
  si_fits : fits (blockUtxos (sl_pick s)) (ledger_txs height (blockTxns s) L) [];
  si_finds : finds_inputs (blockTxns s) L;
  si_distinct : NoDup (map TxHash (blockTxns s));
  si_txs : Forall2 P (blockTxns s) (txFees s) }.

Lemma CheckTransactionInputs_finds tx v :
  IsCoinBaseTx tx = false →
  is_Some (match CheckTransactionInputs tx height v params with VOk f => Some f | _ => None end) →
  ∀ op, op ∈ inputs tx → is_Some (unspent v op).
Proof.
  intros Hc. unfold CheckTransactionInputs, inputs. rewrite Hc.
  destruct (check_inputs _ _ _ _ _) as [t| |] eqn:E; cbn; [|by intros []..]. intros _. by apply check_inputs_ok in E as (_ & _ & ?).
Qed.

Lemma select_step_inv P L s s' :
  (∀ tx f, P tx f → IsCoinBaseTx tx = false) → sel_inv P L s → select_step s s' → sel_inv P L s'.
Proof.
  intros HP [H1 H2 H3 H4 H5 H6] Hst. destruct (select_step_ok s s' H1 Hst) as [Hs' _].
  destruct Hst as [a pq it Hpop Ha Ht]. pose proof (tried_key _ _ _ _ Ht) as Hkey. cbn in Hkey.
  destruct (pick_ok_pop _ _ _ _ H1 Hpop) as (Hp & Hq & _ & it' & Ha' & He & Hd). simplify_eq.
  set (s0 := set_pick (set_queue (λ _ _, pq)) s) in *.
  assert (∀ r, blockUtxos (sl_pick r) = blockUtxos (sl_pick s) → blockTxns r = blockTxns s → txFees r = txFees s →
    sel_ok r → map key (p_items (sl_pick r)) = map key (p_items (sl_pick s)) → sel_inv P L r) as Hsame.
  { intros r E1 E2 E3 Hr E4. split; [done|by rewrite E4|by rewrite E1, E2|by rewrite E2|by rewrite E2|by rewrite E2, E3]. }
  destruct Ht as [s1 s2 Hw Hr|s1 Hw Hf|s1 s2 cost Hw Hr Hi].
  - apply Hsame; [..|done|done]; destruct Hw as [->|(_ & _ & ->)], Hr as [->|[_ ->]]; done.
  - apply Hsame; [..|done|done]; destruct Hw as [->|(_ & _ & ->)]; done.
  - assert (sel_ok s1) as Hs1. { pose proof (widened_same _ _ Hw) as (E1 & _ & E3). unfold sel_ok. by rewrite E1, E3. }
    destruct (resorted_ok _ _ Hr Hs1) as (Hs2 & _ & G1 & G2 & _ & G3 & G4).
    assert (sl_pick s1 = sl_pick s0 ∧ blockTxns s1 = blockTxns s ∧ txFees s2 = txFees s) as (E1 & E2 & E3).
    { destruct Hw as [->|(_ & _ & ->)], Hr as [->|[_ ->]]; done. }
    rewrite E1 in G1, G2, G4. rewrite E2 in G3. change (blockUtxos (sl_pick s0)) with (blockUtxos (sl_pick s)) in G4.
    destruct (include_ok a it (uint32 (GetTransactionWeight (pi_tx it))) cost s2) as (_ & _ & Hu);
      [done|by rewrite G1|done|by rewrite G3|by rewrite G2|].
    assert (P (pi_tx it) (pi_fee it)) as HPit.
    { apply (proj1 (Forall_forall _ _) H2 (key it)). apply list_elem_of_fmap. exists it. split; [done|by eapply list_elem_of_lookup_2]. }
    pose proof (HP _ _ HPit) as Hcb. set (r := include _ _ _ _ _) in *.
    assert (blockTxns r = blockTxns s ++ [pi_tx it]) as Hb by (unfold r, include; cbn; by rewrite G3).
    assert (txFees r = txFees s ++ [pi_fee it]) as Hfe by (unfold r, include; cbn; by rewrite E3).
    split; [done|by rewrite Hkey|..].
    + rewrite Hu, Hb, ledger_txs_snoc, G4. by apply spend_fits.
    + rewrite Hb. apply finds_inputs_snoc; [done|]. intros op Hop.
      destruct (CheckTransactionInputs_finds _ _ Hcb (inc_inputs _ _ _ Hi) op Hop) as [x Hx]. rewrite G4 in Hx.
      exists x. by apply (fits_in (blockUtxos (sl_pick s))).
    + rewrite Hb, map_app. apply NoDup_app. split_and!; [done| |apply NoDup_singleton].
      intros x Hx Hy%list_elem_of_singleton. subst x. done.
    + rewrite Hb, Hfe. apply Forall2_app; [done|by constructor].
Qed.
Lemma select_inv P L rounds s s' :
  (∀ tx f, P tx f → IsCoinBaseTx tx = false) → sel_inv P L s →
  select sched fuel policy params rounds height segwit coinbase s = VOk s' → sel_inv P L s'.
Proof. intros HP Hs Hr%select_steps. induction Hr as [|s s1 s' Hst _ IH]; [done|]. apply IH. by apply (select_step_inv P L s). Qed.
End Selection.
