(* ===== verification/MiningLimits.v ===== *)
(** * Mining: the limits of a template, and the templates *)

From Stdlib Require Import ZArith Lia Floats.SpecFloat.
From stdpp Require Import base numbers list strings gmap.
From S2P Require Import Prelude GoFloat GoHeap ScriptNum WireBase WireTx WireTxFacts ScriptStack ScriptToken ScriptNumFacts ScriptTokenFacts Sighash WireMsg Taproot ScriptEngine ScriptExec ScriptStandard ChainCompress ChainUtxo ChainStore ChainStoreFacts ChainError ChainNode ChainParams ChainWork ChainThreshold ChainCache ChainCacheFacts Merkle MerkleFacts ChainRules ChainConnect ChainSupply ChainState ChainOrphanFacts Mempool MempoolFacts Mining MiningFacts.

Open Scope Z_scope.

(** ** Sums that do not wrap *)

Lemma uint32_no_wrap a b :
  0 <= a < 2 ^ 32 → 0 <= b < 2 ^ 32 → a <= uint32 (a + b) → uint32 (a + b) = a + b.
Proof.
  intros Ha Hb. destruct (Z.lt_ge_cases (a + b) (2 ^ 32)) as [Hlt|Hge].
  - intros _. apply wrap_u_id. lia.
  - unfold wrap_u. assert ((a + b) mod 2 ^ 32 = a + b - 2 ^ 32) as ->; [|lia]. symmetry. apply (Z.mod_unique _ _ 1); lia.
Qed.
Lemma int64_add a b : int64 (int64 a + b) = int64 (a + b).
Proof.
  unfold wrap_s. f_equal. replace ((a + 2 ^ (64 - 1)) mod 2 ^ 64 - 2 ^ (64 - 1) + b + 2 ^ (64 - 1))
    with ((a + 2 ^ (64 - 1)) mod 2 ^ 64 + b) by lia. rewrite Zplus_mod_idemp_l. f_equal. lia.
Qed.
Lemma total_app {A} (f : A → Z) l l' : total f (l ++ l') = total f l + total f l'.
Proof. induction l as [|x l IH]; cbn [app total]; lia. Qed.
Lemma VarInt_size_bounds n : 1 <= VarIntSerializeSize n <= 9.
Proof. unfold VarIntSerializeSize. repeat case_match; lia. Qed.

Lemma weight_nonneg tx : 0 <= GetTransactionWeight tx.
Proof.
  unfold GetTransactionWeight, SerializeSizeStripped, SerializeSize, WitnessScaleFactor.
  assert (0 <= baseSize tx) as Hb.
  { unfold baseSize. pose proof (VarInt_size_bounds (zlen (TxIns tx))). pose proof (VarInt_size_bounds (zlen (TxOuts tx))).
    assert (0 <= total TxIn_SerializeSize (TxIns tx)).
    { apply total_nonneg. intros ti. unfold TxIn_SerializeSize. pose proof (VarInt_size_bounds (zlen (SignatureScript ti))). lia. }
    assert (0 <= total TxOut_SerializeSize (TxOuts tx)); [|lia].
    apply total_nonneg. intros to. unfold TxOut_SerializeSize. pose proof (VarInt_size_bounds (zlen (PkScript to))). lia. }
  assert (0 <= total (λ ti, witness_SerializeSize (Witness ti)) (TxIns tx)); [|destruct (HasWitness tx); lia].
  apply total_nonneg. intros ti. unfold witness_SerializeSize. pose proof (VarInt_size_bounds (zlen (Witness ti))).
  assert (0 <= total (λ item, VarIntSerializeSize (zlen item) + zlen item) (Witness ti)); [|lia].
  apply total_nonneg. intros item. pose proof (VarInt_size_bounds (zlen item)). lia.
Qed.
Lemma block_weight msg :
  GetBlockWeight msg = 4 * (80 + VarIntSerializeSize (zlen (Transactions msg))) + total GetTransactionWeight (Transactions msg).
Proof.
  unfold GetBlockWeight, MsgBlock_SerializeSize, MsgBlock_SerializeSizeStripped, WitnessScaleFactor, blockHeaderLen.
  assert (total GetTransactionWeight (Transactions msg) =
    3 * total SerializeSizeStripped (Transactions msg) + total SerializeSize (Transactions msg)) as ->; [|lia].
  induction (Transactions msg) as [|tx txs IH]; cbn [total]; [done|]. rewrite IH. unfold GetTransactionWeight, WitnessScaleFactor. lia.
Qed.

(** ** The coinbase *)

(** A coinbase as it is created. *)
Definition coinbase_form (tx : MsgTx) : Prop :=
  ∃ script value pk, TxIns tx = [mkTxIn (mkOutPoint zeroHash MaxPrevOutIndex) script [] MaxTxInSequenceNum] ∧ TxOuts tx = [mkTxOut value pk].
Lemma commitment_weight_const tx : coinbase_form tx → commitment_weight tx = 224.
Proof.
  intros (script & value & pk & Hi & Ho). unfold commitment_weight. rewrite Hi, Ho.
  unfold GetTransactionWeight, SerializeSize, SerializeSizeStripped, baseSize, HasWitness, WitnessScaleFactor.
  rewrite Hi, Ho. cbn [TxIns TxOuts app total existsb Witness SignatureScript].
  unfold TxIn_SerializeSize, TxOut_SerializeSize, witness_SerializeSize. cbn [SignatureScript PkScript Witness length].
  change (negb (1 =? 0)%nat) with true. change (negb (0 =? 0)%nat) with false. cbn [orb total].
  rewrite !length_replicate. change (VarIntSerializeSize (Z.of_nat 2)) with 1. change (VarIntSerializeSize (Z.of_nat 1)) with 1.
  change (VarIntSerializeSize (Z.of_nat (Z.to_nat CoinbaseWitnessDataLen))) with 1.
  change (VarIntSerializeSize (Z.of_nat CoinbaseWitnessPkScriptLength)) with 1.
  change (Z.of_nat (Z.to_nat CoinbaseWitnessDataLen)) with 32. change (Z.of_nat CoinbaseWitnessPkScriptLength) with 38. lia.
Qed.

(** ** The limits *)

Section Limits.
Context `{CR : Crypto} `{KS : Keys} `{SO : TxSource}.
Context (sched : list txValidateItem → list txValidateItem) (fuel : nat) (policy : MiningPolicy) (params : Params).
Context (height : Z) (segwit : bool) (coinbase : MsgTx).
Context (base cost0 : Z).
Context (Hform : coinbase_form coinbase).
(** The weights are far below the size of the counter. *)
Context (Hbase : 0 <= base < 2 ^ 31) (Hmax : 0 <= BlockMaxWeight policy < 2 ^ 31).
Context (Hcost : 0 <= cost0 < 2 ^ 62).
Implicit Types (it : txPrioItem) (tx : MsgTx) (s : Selection).

Definition accounted s : Z := base + total GetTransactionWeight (blockTxns s).
Record sel_limits s : Prop := mkSelLimits {
  lm_weight : blockWeight s = accounted s + (if witnessIncluded s then 224 else 0);
  lm_weight_max : blockTxns s = [] ∨ accounted s < BlockMaxWeight policy;
  lm_sigops : blockSigOpCost s = cost0 + total (λ c, c) (txSigOpCosts s);
  lm_sigops_max : blockTxns s = [] ∧ txSigOpCosts s = [] ∨ blockSigOpCost s <= MaxBlockSigOpsCost;
  lm_costs : Forall2 (λ tx c, 0 <= c ∧ ∃ v, GetSigOpCost tx false v true segwit = VOk c) (blockTxns s) (txSigOpCosts s);
  lm_fees : totalFees s = int64 (total (λ f, f) (txFees s));
  lm_witness : Forall (λ tx, HasWitness tx = true → segwit = true ∧ witnessIncluded s = true) (blockTxns s) }.

Lemma GetSigOpCost_range tx v c : GetSigOpCost tx false v true segwit = VOk c → - 2 ^ 63 <= c < 2 ^ 63.
Proof.
  assert (∀ x, - 2 ^ 63 <= int64 x < 2 ^ 63) as Hr by (intros x; apply (wrap_s_range 64); lia).
  assert (∀ ins n r, - 2 ^ 63 <= n < 2 ^ 63 → witness_sigops ins v n = VOk r → - 2 ^ 63 <= r < 2 ^ 63) as Hw.
  { induction ins as [|ti ins IH]; intros n r Hn; cbn [witness_sigops]; [by intros [= <-]|].
    destruct (spendable_entry _ _); [|done]. by apply IH. }
  unfold GetSigOpCost. destruct (CountP2SHSigOps tx false v) as [n|e|]; [|intros [= <-]; lia|done].
  destruct (segwit && negb false); [by apply Hw|by intros [= <-]].
Qed.

Lemma widened_limits s s1 : sel_limits s → widened segwit coinbase s s1 → sel_limits s1.
Proof.
  intros [H1 H2 H3 H4 H5 H6 H7] [->|(Hs & Hw & ->)]; [done|]. split; try done.
  - cbn [blockWeight include_witness witnessIncluded]. rewrite commitment_weight_const by done. change (uint32 224) with 224.
    rewrite wrap_u_id; rewrite H1, Hw; unfold accounted; cbn [blockTxns include_witness]; [lia|].
    assert (0 <= total GetTransactionWeight (blockTxns s)) by (apply total_nonneg, weight_nonneg).
    destruct H2 as [->|H2]; unfold accounted in *; cbn [total] in *; lia.
  - cbn. eapply Forall_impl; [exact H7|]. intros tx Htx Hwt. split; [by apply Htx|done].
Qed.
Lemma resorted_limits s1 s2 : sel_limits s1 → resorted s1 s2 → sel_limits s2.
Proof. intros [H1 H2 H3 H4 H5 H6 H7] [->|[_ ->]]; by split. Qed.

Lemma include_limits it s cost :
  sel_limits s → includable sched fuel policy params height segwit (pi_tx it) s cost → GetTransactionWeight (pi_tx it) < 2 ^ 32 →
  sel_limits (include height it (uint32 (GetTransactionWeight (pi_tx it))) cost s).
Proof.
  intros [H1 H2 H3 H4 H5 H6 H7] [I1 I2 I3 _ _ I6] Hw. pose proof (weight_nonneg (pi_tx it)) as Hnn.
  rewrite (wrap_u_id 32 (GetTransactionWeight (pi_tx it))) in * by lia.
  assert (0 <= total GetTransactionWeight (blockTxns s)) as Ht by (apply total_nonneg, weight_nonneg).
  assert (0 <= total (λ c, c) (txSigOpCosts s)) as Hc.
  { clear - H5. induction H5 as [|tx c txs cs [Hc _] _ IH]; cbn [total]; lia. }
  assert (0 <= blockWeight s < 2 ^ 32) as Hbw.
  { rewrite H1. destruct H2 as [E|E]; unfold accounted in *; [rewrite E in *; cbn [total]|]; destruct (witnessIncluded s); lia. }
  assert (uint32 (blockWeight s + GetTransactionWeight (pi_tx it)) = blockWeight s + GetTransactionWeight (pi_tx it)) as Ew.
  { apply uint32_no_wrap; lia. }
  assert (0 <= blockSigOpCost s < 2 ^ 62) as Hbs.
  { rewrite H3. destruct H4 as [[_ E]|E]; [rewrite E; cbn [total]; lia|]. unfold MaxBlockSigOpsCost in E. lia. }
  pose proof (GetSigOpCost_range _ _ _ I2) as Hcr. unfold MaxBlockSigOpsCost in *.
  assert (0 <= cost ∧ int64 (blockSigOpCost s + cost) = blockSigOpCost s + cost) as [Hc0 Ec].
  { destruct (Z.lt_ge_cases cost 0) as [Hneg|Hpos].
    - rewrite wrap_s_id in I3 by lia. lia.
    - split; [done|]. apply int64_no_wrap; lia. }
  unfold include. cbv zeta. unfold accounted in *.
  split; cbn [blockWeight blockTxns witnessIncluded blockSigOpCost txSigOpCosts txFees totalFees accounted].
  - unfold accounted. cbn [blockTxns]. rewrite Ew, total_app. cbn [total]. lia.
  - right. unfold accounted. cbn [blockTxns]. rewrite total_app. cbn [total]. destruct (witnessIncluded s); lia.
  - rewrite Ec, total_app. cbn [total]. lia.
  - right. unfold MaxBlockSigOpsCost. lia.
  - apply Forall2_app; [done|]. repeat constructor; [done|eauto].
  - rewrite H6, int64_add, total_app. cbn [total]. f_equal. lia.
  - apply Forall_app. split; [done|]. apply Forall_singleton. done.
Qed.
Lemma select_step_limits s s' :
  sel_limits s → Forall (λ k : MsgTx * Z * f64 * Z, GetTransactionWeight k.1.1.1 < 2 ^ 32) (map key (p_items (sl_pick s))) →
  select_step sched fuel policy params height segwit coinbase s s' → sel_limits s'.
Proof.
  intros Hs Hk [a pq it _ Ha Ht].
  assert (sel_limits (set_pick (set_queue (λ _ _, pq)) s)) as Hs0 by (destruct Hs; by split).
  assert (GetTransactionWeight (pi_tx it) < 2 ^ 32) as Hw.
  { apply (proj1 (Forall_forall _ _) Hk (key it)). apply list_elem_of_fmap. exists it. split; [done|by eapply list_elem_of_lookup_2]. }
  destruct Ht as [s1 s2 Hwd Hr|s1 Hwd Hf|s1 s2 cost Hwd Hr Hi].
  - eapply resorted_limits; [|done]. by eapply widened_limits.
  - assert (sel_limits (sort_by_fee s1)) as [H1 H2 H3 H4 H5 H6 H7]; [|by split].
    eapply resorted_limits; [by eapply widened_limits|by right].
  - apply include_limits; [|done|done]. eapply resorted_limits; [by eapply widened_limits|done].
Qed.
Lemma select_limits s s' :
  rtc (select_step sched fuel policy params height segwit coinbase) s s' → sel_limits s →
  Forall (λ k : MsgTx * Z * f64 * Z, GetTransactionWeight k.1.1.1 < 2 ^ 32) (map key (p_items (sl_pick s))) → sel_limits s'.
Proof.
  induction 1 as [|s s1 s' Hst _ IH]; intros Hs Hk; [done|]. apply IH; [by apply (select_step_limits s)|].
  destruct Hst as [a pq it _ _ Ht]. apply tried_key in Ht. by rewrite Ht.
Qed.
End Limits.

(** *** The listed costs are those of the transactions *)

Section Costs.
Context `{CR : Crypto} `{KS : Keys} `{SO : TxSource} {OK : TxSourceOk}.
Context (sched : list txValidateItem → list txValidateItem) (fuel : nat) (policy : MiningPolicy) (params : Params).
Context (height : Z) (segwit : bool) (coinbase : MsgTx).

(** Each cost is that of its transaction, counted on a view that holds nothing
    but outputs that the chain and the transactions before it leave unspent. *)
Definition costs_found (L : ledger) (txs : list MsgTx) (costs : list Z) : Prop :=
  length costs = length txs ∧
  ∀ i tx c, txs !! i = Some tx → costs !! i = Some c →
    ∃ v, fits v (ledger_txs height (take i txs) L) [] ∧ GetSigOpCost tx false v true segwit = VOk c.

Lemma costs_found_snoc L txs costs tx c v :
  costs_found L txs costs → fits v (ledger_txs height txs L) [] → GetSigOpCost tx false v true segwit = VOk c →
  costs_found L (txs ++ [tx]) (costs ++ [c]).
Proof.
  intros [Hl Hf] Hv Hc. split; [by rewrite !length_app, Hl|]. intros i x y Hx Hy.
  apply lookup_app_Some in Hx as [Hx|[Hi Hx]].
  - pose proof (lookup_lt_Some _ _ _ Hx). rewrite lookup_app_l in Hy by lia. rewrite take_app_le by lia. by apply (Hf i).
  - apply list_lookup_singleton_Some in Hx as [Hi0 <-]. assert (i = length txs) as -> by lia.
    rewrite <- Hl, list_lookup_middle in Hy by done. injection Hy as <-. rewrite take_app_length. eauto.
Qed.

Lemma select_costs P L s s' :
  (∀ tx f, P tx f → IsCoinBaseTx tx = false) →
  rtc (select_step sched fuel policy params height segwit coinbase) s s' → sel_inv height P L s →
  costs_found L (blockTxns s) (txSigOpCosts s) → costs_found L (blockTxns s') (txSigOpCosts s').
Proof.
  intros HP. induction 1 as [|s s1 s' Hst _ IH]; intros Hs Hc; [done|].
  apply IH; [by eapply (select_step_inv sched fuel policy params height segwit coinbase deps_order_perm P)|].
  destruct Hst as [a pq it _ _ Ht]. destruct Ht as [r1 r2 Hw Hr|r1 Hw _|r1 r2 cost Hw Hr [_ Hi _ _ _ _]].
  - by destruct Hw as [->|(_ & _ & ->)], Hr as [->|[_ ->]].
  - by destruct Hw as [->|(_ & _ & ->)].
  - assert (blockUtxos (sl_pick r2) = blockUtxos (sl_pick s) ∧ blockTxns r2 = blockTxns s ∧ txSigOpCosts r2 = txSigOpCosts s)
      as (E1 & E2 & E3) by by destruct Hw as [->|(_ & _ & ->)], Hr as [->|[_ ->]].
    unfold include. cbv zeta. cbn [blockTxns txSigOpCosts]. rewrite E2, E3, E1 in *.
    apply (costs_found_snoc _ _ _ _ _ _ Hc (si_fits _ _ _ _ Hs) Hi).
Qed.
End Costs.

(** ** The coinbase that is finished *)

Lemma wrap_byte x : is_byte (wrap_u 8 x).
Proof. unfold is_byte, wrap_u. pose proof (Z.mod_pos_bound x (2 ^ 8) ltac:(lia)). lia. Qed.
Lemma AddData_bytes b data : Forall is_byte (b_script b) → Forall is_byte data → Forall is_byte (b_script (AddData b data)).
Proof.
  intros Hb Hd. unfold AddData. destruct (b_err b); [done|]. destruct (_ <? _); [done|]. destruct (MaxScriptElementSize <? _) eqn:E; [done|].
  apply Z.ltb_ge in E. unfold MaxScriptElementSize in E.
  destruct (addData_spec b data Hd) as (? & -> & op & d & -> & _ & _ & _ & _ & Hop & Hdb); [lia|]. cbn. apply Forall_app. split; [done|].
  constructor; [done|]. apply Forall_app. split; [apply le_put_bytes|done].
Qed.
Lemma AddInt64_bytes b n b' : - 2 ^ 63 < n < 2 ^ 63 → Forall is_byte (b_script b) → AddInt64 b n = Ok b' → Forall is_byte (b_script b').
Proof.
  intros Hn Hb. unfold AddInt64. destruct (b_err b); [by intros [= <-]|]. destruct (_ <? _); [by intros [= <-]|].
  destruct (n =? 0); [intros [= <-]; cbn; apply Forall_app; split; [done|by apply Forall_singleton]|].
  destruct (_ || _).
  - intros [= <-]. cbn. apply Forall_app. split; [done|]. apply Forall_singleton, wrap_byte.
  - destruct (Bytes_spec n Hn) as (v & -> & Hv & _). intros [= <-]. by apply AddData_bytes.
Qed.
Lemma coinbase_script_bytes h script :
  - 2 ^ 31 <= h < 2 ^ 31 → standardCoinbaseScript h 0 = VOk script → Forall is_byte script.
Proof.
  intros Hh. unfold standardCoinbaseScript, run_builder. destruct (AddInt64 NewScriptBuilder h) as [b1| |] eqn:E1; [|done|done].
  apply AddInt64_bytes in E1; [|lia|constructor]. cbn [mbind Res_bind].
  destruct (AddInt64 b1 _) as [b2| |] eqn:E2; [|done|done]. apply AddInt64_bytes in E2; [|done|done]. cbn [mbind Res_bind].
  unfold Script. destruct (b_err _); [done|]. intros [= <-]. apply AddData_bytes; [done|]. unfold CoinbaseFlags. vm_compute. repeat constructor; done.
Qed.
(** ** The height and the extra nonce *)

(** What a number adds to a script. *)
Definition pushed_int (n : Z) (w : list byte) : Prop :=
  (n = 0 ∧ w = [OP_0]) ∨ ((n = -1 ∨ 1 <= n <= 16) ∧ w = [OP_1 - 1 + n]) ∨
  (n ≠ -1 ∧ ¬ 0 <= n <= 16 ∧ ∃ v, w = zlen v :: v ∧ v ≠ [] ∧ Forall is_byte v ∧ checkMinimalDataEncoding v = None ∧ snum v = n).
Lemma pushed_int_inj n n' w : pushed_int n w → pushed_int n' w → n = n'.
Proof. unfold pushed_int, OP_0, OP_1. intros H H'. destruct_and?; destruct_or?; naive_solver lia. Qed.
Lemma snum_single b : is_byte b → (b <= 16 → snum [b] = b) ∧ (b = 0x81 → snum [b] = -1).
Proof.
  unfold is_byte. intros Hb. split; [|by intros ->]. intros Hl. unfold snum, magnitude, negative. cbn [last_byte List.last le_val].
  rewrite (proj2 (Z.leb_gt 128 b)) by lia. lia.
Qed.
Lemma AddInt64_pushes b n :
  b_err b = None → zlen (b_script b) <= 1000 → - 2 ^ 63 < n < 2 ^ 63 →
  ∃ w, AddInt64 b n = Ok (b_append b w) ∧ pushed_int n w ∧ zlen w <= 9.
Proof.
  intros He Hl Hn. unfold AddInt64, MaxScriptSize. rewrite He, (proj2 (Z.ltb_ge _ _)) by lia.
  destruct (n =? 0) eqn:E0; [exists [OP_0]; split_and!; [done|left; by split; [lia|]|done]|].
  destruct (_ || _) eqn:E1.
  { exists [OP_1 - 1 + n]. rewrite wrap_u_id by (unfold OP_1; lia). split_and!; [done|right; left; by split; [lia|]|done]. }
  destruct (Bytes_spec n Hn) as (v & -> & Hv & Hm & Hs). cbn [mbind Res_bind].
  assert (length v ≤ 8)%nat as Hlen by (apply minimal_length; [done|done|rewrite Hs; lia]).
  assert (v ≠ []) as Hne by (intros ->; subst n; done).
  exists (zlen v :: v). split_and!; [|right; right; split_and!; [lia|lia|by exists v]|cbn; lia].
  f_equal. unfold AddData, canonicalDataSize, addData, MaxScriptSize, MaxScriptElementSize, OP_PUSHDATA1, OP_DATA_1. rewrite He.
  destruct v as [|x [|y v]]; [done| |].
  - apply (proj1 (Forall_singleton is_byte x)) in Hv. destruct (snum_single x Hv) as [S1 S2]. unfold is_byte in Hv. cbn [length hd Z.of_nat] in *.
    destruct (x =? 0) eqn:X1; [lia|]. destruct (x <=? 16) eqn:X2; [lia|]. destruct (x =? 0x81) eqn:X3; [lia|]. cbn.
    change (Z.of_nat 1) with 1. cbn. by rewrite (proj2 (Z.ltb_ge _ _)) by lia.
  - set (d := x :: y :: v) in *. assert (2 <= zlen d) by (unfold d; cbn [length]; lia).
    rewrite !(proj2 (Z.eqb_neq (zlen d) _)) by lia. cbn [andb orb]. rewrite (proj2 (Z.ltb_lt (zlen d) 76)) by lia.
    by rewrite !(proj2 (Z.ltb_ge _ _)) by lia.
Qed.
Lemma coinbase_script_pushes h nonce :
  0 <= h < 2 ^ 31 → 0 <= nonce < 2 ^ 64 → nonce ≠ 2 ^ 63 →
  ∃ w u, standardCoinbaseScript h nonce = VOk (w ++ u ++ [zlen CoinbaseFlags] ++ CoinbaseFlags) ∧
    AddInt64 NewScriptBuilder h = Ok (b_append NewScriptBuilder w) ∧ pushed_int h w ∧ pushed_int (int64 nonce) u ∧
    zlen w <= 9 ∧ zlen u <= 9.
Proof.
  intros Hh Hn Hne. destruct (AddInt64_pushes NewScriptBuilder h) as (w & E1 & Hw & Hl); [done|done|lia|].
  pose proof (wrap_s_range 64 nonce ltac:(lia)) as Hr.
  assert (int64 nonce ≠ - 2 ^ 63) as Hm.
  { unfold wrap_s. Z.to_euclidean_division_equations. lia. }
  destruct (AddInt64_pushes (b_append NewScriptBuilder w) (int64 nonce)) as (u & E2 & Hu & Hl2); [done|cbn; lia|unfold int64 in *; lia|].
  exists w, u. split_and!; try done. unfold standardCoinbaseScript, run_builder. rewrite E1. cbn [mbind Res_bind]. rewrite E2. cbn [mbind Res_bind].
  unfold AddData. cbn [b_err b_append NewScriptBuilder]. change (canonicalDataSize CoinbaseFlags) with 12. unfold MaxScriptSize.
  cbn [b_script b_append NewScriptBuilder app]. rewrite (proj2 (Z.ltb_ge _ _)) by (rewrite length_app; lia).
  change (MaxScriptElementSize <? zlen CoinbaseFlags) with false.
  change (addData ?b CoinbaseFlags) with (b_append b ([zlen CoinbaseFlags] ++ CoinbaseFlags)). unfold Script. cbn [b_err b_script b_append app].
  by rewrite <- app_assoc.
Qed.
Lemma height_read h w rest ti ins tx :
  0 <= h < 2 ^ 31 → AddInt64 NewScriptBuilder h = Ok (b_append NewScriptBuilder w) → pushed_int h w →
  TxIns tx = ti :: ins → SignatureScript ti = w ++ rest → ExtractCoinbaseHeight tx = VOk h.
Proof.
  intros Hh Ew Hw Hi Hs. unfold ExtractCoinbaseHeight. rewrite Hi, Hs.
  destruct Hw as [[-> ->]|[[Hr ->]|(_ & Hr & v & -> & Hne & Hv & Hm & Hsn)]]; cbn [app].
  - done.
  - unfold OP_0, OP_1, OP_16. rewrite (proj2 (Z.eqb_neq _ _)), (proj2 (Z.leb_le 81 _)), (proj2 (Z.leb_le _ 96)) by lia. cbn [andb].
    f_equal. rewrite wrap_s_id; lia.
  - assert (length v ≤ 4)%nat as Hl by (apply minimal_length; [done|done|rewrite Hsn; lia]).
    assert (1 <= zlen v) as Hl1 by (destruct v; [done|cbn [length]; lia]). unfold OP_0, OP_1, OP_16.
    rewrite (proj2 (Z.eqb_neq _ _)), (proj2 (Z.leb_gt 81 _)) by lia. cbn [andb]. rewrite length_app, (proj2 (Z.ltb_ge _ _)) by lia.
    rewrite Nat2Z.id, take_app_length, (take_ge v 4) by lia.
    assert (le_val (v ++ replicate (4 - length v) 0) = h) as ->.
    { rewrite le_val_app. assert (∀ k, le_val (replicate k 0) = 0) as -> by (intros k; induction k; cbn [replicate le_val]; lia).
      pose proof (magnitude_nonneg v Hv). unfold snum, magnitude in *. destruct (negative v); lia. }
    rewrite (wrap_s_id 32) by lia. unfold compareScript. rewrite Ew. unfold Script. cbn [b_append b_script b_err NewScriptBuilder app].
    unfold HasPrefix. replace (zlen v :: v ++ rest) with ((zlen v :: v) ++ rest) by done. rewrite take_app_length, bool_decide_true by done. done.
Qed.
Section Finished.
Context `{CR : Crypto}.

Lemma add_value_form v tx : coinbase_form tx → coinbase_form (add_coinbase_value v tx) ∧
  GetTransactionWeight (add_coinbase_value v tx) = GetTransactionWeight tx ∧ TxIns (add_coinbase_value v tx) = TxIns tx.
Proof.
  intros (script & value & pk & Hi & Ho). unfold add_coinbase_value. rewrite Ho. split_and!; [|..|done].
  - exists script, (int64 (value + v)), pk. done.
  - unfold GetTransactionWeight, SerializeSize, SerializeSizeStripped, baseSize, HasWitness. cbn [TxIns TxOuts]. by rewrite Ho.
Qed.
Lemma AddWitnessCommitment_ok tx rest tx' w :
  coinbase_form tx → AddWitnessCommitment tx rest = VOk (tx', w) →
  GetTransactionWeight tx' = GetTransactionWeight tx + 224 ∧
  (∃ out, TxOuts tx' = TxOuts tx ++ [out] ∧ PkScript out = WitnessMagicBytes ++ w ∧ Value out = 0) ∧
  map SignatureScript (TxIns tx') = map SignatureScript (TxIns tx) ∧ map PreviousOutPoint (TxIns tx') = map PreviousOutPoint (TxIns tx).
Proof.
  intros Hf. pose proof (commitment_weight_const tx Hf) as Hc. destruct Hf as (script & value & pk & Hi & Ho).
  unfold AddWitnessCommitment. rewrite VRes_bind_ok. intros (root & _ & [= <- <-]).
  unfold set_coinbase_witness. rewrite Hi. cbn [TxIns TxOuts Version LockTime map SignatureScript PreviousOutPoint].
  split_and!; [|eexists; split_and!; done|done|done]. unfold commitment_weight in Hc. rewrite Hi in Hc.
  rewrite <- Hc. rewrite Zplus_minus. unfold GetTransactionWeight, SerializeSize, SerializeSizeStripped, baseSize, HasWitness.
  cbn [TxIns TxOuts total existsb SignatureScript Witness PreviousOutPoint length negb Nat.eqb orb]. rewrite !total_app, !length_app.
  unfold TxIn_SerializeSize, TxOut_SerializeSize, witness_SerializeSize. cbn [total SignatureScript PkScript Witness length].
  rewrite ?length_app, ?length_replicate.
  match goal with |- context [DoubleHashH ?m] => pose proof (sha256_size (sha256 m)) as [Hl _]; unfold DoubleHashH end.
  rewrite Hl. done.
Qed.
End Finished.

(** ** Templates *)

Section Templates.
Context `{CR : Crypto} `{KS : Keys} `{SO : TxSource} {OK : TxSourceOk}.
Context (new_max : list Z → Z → Z) (sched : list txValidateItem → list txValidateItem) (fuel : nat).
Context (policy : MiningPolicy) (params : Params) (pay : option (VRes (list byte))).

(** A script that pays to an address is one that the builder makes. *)
Definition pay_ok : Prop := ∀ pk, pay = Some (VOk pk) → Forall is_byte pk ∧ zlen pk <= MaxScriptSize.

Definition start_pick : Pick := mkPick [] ∅ (newTxPriorityQueue (BlockPrioritySize policy =? 0)) NewUtxoViewpoint 0.
(** The stages of a template. *)
Record template_of (c : Chain) (t : BlockTemplate) : Prop := mkTemplateOf {
  to_stages : ∃ script cb0 p c1 segwit s cb,
    standardCoinbaseScript (bt_Height t) 0 = VOk script ∧ createCoinbaseTx params script (bt_Height t) pay = VOk cb0 ∧
    consider_all new_max (bt_Height t) MiningDescs start_pick c = (VOk p, c1) ∧
    select sched fuel policy params (select_rounds p) (bt_Height t) segwit cb0
      (new_selection policy p cb0 (int64 (CountSigOps cb0 * WitnessScaleFactor))) = VOk s ∧
    (if witnessIncluded s
     then ∃ w, WitnessCommitment t = Some w ∧ AddWitnessCommitment (add_coinbase_value (totalFees s) cb0) (blockTxns s) = VOk (cb, w)
     else WitnessCommitment t = None ∧ cb = add_coinbase_value (totalFees s) cb0) ∧
    Transactions (bt_Block t) = cb :: blockTxns s ∧
    bt_Fees t = int64 (- totalFees s) :: txFees s ∧
    bt_SigOpCosts t = int64 (CountSigOps cb0 * WitnessScaleFactor) :: txSigOpCosts s;
  to_height : bt_Height t = int32 (best_Height (s_snapshot c) + 1);
  to_prev : PrevBlock (Header (bt_Block t)) = best_Hash (s_snapshot c);
  to_root : CalcMerkleRoot (Transactions (bt_Block t)) false = Ok (MerkleRoot (Header (bt_Block t)));
  to_time : best_MedianTime (s_snapshot c) < bh_Timestamp (Header (bt_Block t));
  to_checked : ∃ time c2 c3, CheckConnectBlockTemplate new_max sched fuel time (mkBlock (bt_Block t) (bt_Height t)) c2 = (VOk tt, c3) }.

Lemma NewBlockTemplate_inv c t c' :
  NewBlockTemplate new_max sched fuel policy params pay c = (VOk t, c') → template_of c t.
Proof.
  unfold NewBlockTemplate. rewrite CM_bind_ok. intros (best & c0 & [= <- <-] & H). cbv zeta in H. fold start_pick in H.
  apply CM_bind_ok in H as (script & c1 & [Hs <-]%ret_res_ok & H). apply CM_bind_ok in H as (cb0 & c1 & [Hcb <-]%ret_res_ok & H).
  apply CM_bind_ok in H as (p & c1 & Hp & H). apply CM_bind_ok in H as (st & c2 & _ & H).
  apply CM_bind_ok in H as (s & c3 & [Hsel <-]%ret_res_ok & H). apply CM_bind_ok in H as ([cb w] & c3 & Hw & H).
  apply CM_bind_ok in H as (bits & c4 & _ & H). apply CM_bind_ok in H as (ver & c5 & _ & H).
  apply CM_bind_ok in H as (root & c6 & [Hroot <-]%ret_res_ok & H). apply CM_bind_ok in H as ([] & c6 & Hchk & [= <- <-]).
  split; cbn [bt_Height bt_Block bt_Fees bt_SigOpCosts WitnessCommitment Header Transactions PrevBlock MerkleRoot bh_Timestamp]; [|done|done| | |].
  - exists script, cb0, p, c1, (is_active st), s, cb. split_and!; try done.
    destruct (witnessIncluded s).
    + apply ret_res_ok in Hw as [Hw _]. apply VRes_bind_ok in Hw as ([cb' w'] & Hw & [= <- <-]). by exists w'.
    + by injection Hw as <- <-.
  - unfold merkle_root_of in Hroot. destruct (CalcMerkleRoot _ _); [by injection Hroot as <-|done|done].
  - unfold medianAdjustedTime, MinimumMedianTime. destruct (_ <? _) eqn:E; [lia|]. apply Z.ltb_ge in E. lia.
  - unfold on_chain in Hchk. destruct (CheckConnectBlockTemplate _ _ _ _ _ _) as [r b] eqn:E. injection Hchk as -> _.
    eauto.
Qed.

Lemma start_picked h L : picked MiningDescs h L start_pick.
Proof.
  assert (queue_of start_pick = []) as Hq by (unfold start_pick, newTxPriorityQueue; by destruct (_ =? 0)).
  split; [split|..].
  - constructor.
  - rewrite Hq. constructor.
  - intros a. rewrite Hq. by intros ?%elem_of_nil.
  - intros h' k a _. cbn. done.
  - by intros it ?%elem_of_nil.
  - by intros it ?%elem_of_nil.
  - intros op x. unfold unspent. cbn [start_pick blockUtxos entries NewUtxoViewpoint]. by rewrite lookup_empty.
Qed.
Lemma new_selection_ok h L p cb cost :
  picked MiningDescs h L p →
  sel_inv h (from_source MiningDescs h L) L (new_selection policy p cb cost) ∧
  (sel_load (new_selection policy p cb cost) < select_rounds p)%nat.
Proof.
  intros [Hp Hi Hf]. split.
  - split; [done| |done| |constructor|constructor].
    + apply Forall_forall. intros k (it & -> & Hit)%list_elem_of_fmap. by apply Hi.
    + intros pre tx post E. by destruct pre.
  - unfold sel_load, load, select_rounds, new_selection. cbn [sl_pick sortedByFee]. unfold queue_of, waiting. destruct (_ =? 0); lia.
Qed.
Lemma template_sane t time c2 c3 :
  CheckConnectBlockTemplate new_max sched fuel time (mkBlock (bt_Block t) (bt_Height t)) c2 = (VOk tt, c3) →
  ∃ cb rest, Transactions (bt_Block t) = cb :: rest ∧ IsCoinBaseTx cb = true ∧ Forall sane (cb :: rest).
Proof.
  unfold CheckConnectBlockTemplate. intros (tp & c4 & _ & H)%ChainM_bind_ok. destruct tp as [tp|]; [|done].
  apply ChainM_bind_ok in H as (u & c5 & _ & H). apply ChainM_bind_ok in H as (pp & c6 & _ & H).
  apply ChainM_bind_ok in H as ([] & c7 & [Hs _]%lift_ok & _).
  destruct (checkBlockSanity_ok _ _ _ _ Hs) as (cb & rest & ? & ? & _ & ?). eauto.
Qed.

Lemma createCoinbaseTx_ok script h cb0 :
  pay_ok → createCoinbaseTx params script h pay = VOk cb0 →
  ∃ pk, Forall is_byte pk ∧ zlen pk <= MaxScriptSize ∧
    cb0 = mkMsgTx 1 [mkTxIn (mkOutPoint zeroHash MaxPrevOutIndex) script [] MaxTxInSequenceNum] [mkTxOut (CalcBlockSubsidy h params) pk] 0.
Proof.
  intros Hpay. unfold createCoinbaseTx. rewrite VRes_bind_ok. intros (pk & Hpk & [= <-]). exists pk.
  destruct pay as [[x|e|]|] eqn:E; try done.
  - injection Hpk as ->. by destruct (Hpay pk E).
  - vm_compute in Hpk. injection Hpk as <-. split_and!; [|done|done]. repeat constructor; done.
Qed.
Lemma coinbase_sizes cb0 script value pk :
  TxIns cb0 = [mkTxIn (mkOutPoint zeroHash MaxPrevOutIndex) script [] MaxTxInSequenceNum] → TxOuts cb0 = [mkTxOut value pk] →
  Forall is_byte script → Forall is_byte pk → zlen script <= 100 → zlen pk <= MaxScriptSize →
  GetTransactionWeight cb0 <= 50000 ∧ int64 (CountSigOps cb0 * WitnessScaleFactor) = CountSigOps cb0 * WitnessScaleFactor ∧
  0 <= CountSigOps cb0 * WitnessScaleFactor < 2 ^ 62.
Proof.
  intros Hi Ho Hs Hpk Hsl Hpl. unfold MaxScriptSize in *.
  destruct (sigops_bounds script Hs) as ((A1 & A2) & _). destruct (sigops_bounds pk Hpk) as ((B1 & B2) & _). unfold MaxPubKeysPerMultiSig in *.
  assert (0 <= CountSigOps cb0 * WitnessScaleFactor < 2 ^ 62) as Hc.
  { unfold CountSigOps, WitnessScaleFactor. rewrite Hi, Ho. cbn [total SignatureScript PkScript]. lia. }
  split_and!; [|apply wrap_s_id; lia|lia|lia].
  unfold GetTransactionWeight, SerializeSize, SerializeSizeStripped, baseSize, HasWitness, WitnessScaleFactor. rewrite Hi, Ho.
  cbn [total existsb Witness length negb Nat.eqb orb]. unfold TxIn_SerializeSize, TxOut_SerializeSize. cbn [SignatureScript PkScript].
  pose proof (VarInt_size_bounds (zlen script)). pose proof (VarInt_size_bounds (zlen pk)).
  change (VarIntSerializeSize (Z.of_nat 1)) with 1. lia.
Qed.
Lemma stages_picked h L c p c1 :
  answers L c → Forall (λ d, Forall outpoint_fits (spent_outpoints (md_Tx d))) MiningDescs →
  consider_all new_max h MiningDescs start_pick c = (VOk p, c1) → picked MiningDescs h L p.
Proof.
  intros Hc Hfit Hp. destruct (consider_all_ok deps_order_perm new_max MiningDescs MiningDescs h L start_pick c p c1) as [_ Hpk];
    [done|apply start_picked|done|apply descs_distinct|intros d _; apply not_elem_of_nil|done|done|done].
Qed.
(** The coinbase at the end has the script of the first one, its output with
    the fees, and the weight that was accounted for. *)
Lemma finished_coinbase cb0 s cb t :
  coinbase_form cb0 →
  (if witnessIncluded s
   then ∃ w, WitnessCommitment t = Some w ∧ AddWitnessCommitment (add_coinbase_value (totalFees s) cb0) (blockTxns s) = VOk (cb, w)
   else WitnessCommitment t = None ∧ cb = add_coinbase_value (totalFees s) cb0) →
  GetTransactionWeight cb = GetTransactionWeight cb0 + (if witnessIncluded s then 224 else 0) ∧
  map SignatureScript (TxIns cb) = map SignatureScript (TxIns cb0) ∧
  (∃ outs, TxOuts cb = TxOuts (add_coinbase_value (totalFees s) cb0) ++ outs ∧
     map PkScript outs = match WitnessCommitment t with Some w => [WitnessMagicBytes ++ w] | None => [] end) ∧
  (is_Some (WitnessCommitment t) ↔ witnessIncluded s = true).
Proof.
  intros Hf Hw. destruct (add_value_form (totalFees s) cb0 Hf) as (Hf' & Hwt & Hins). destruct (witnessIncluded s).
  - destruct Hw as (w & -> & Ha). destruct (AddWitnessCommitment_ok _ _ _ _ Hf' Ha) as (H1 & (out & H2 & H3 & _) & H4 & _).
    split_and!; [lia|by rewrite H4, Hins| |done]. exists [out]. split; [done|]. cbn. by rewrite H3.
  - destruct Hw as [-> ->]. split_and!; [lia|by rewrite Hins| |split; [by intros []|done]]. exists []. by rewrite app_nil_r.
Qed.
End Templates.


(** C14. A template.  It builds on the tip and is later than the median time, and
    its root is that of its transactions.  After the coinbase come different
    transactions of the source, none a coinbase, all final, with the fees that
    the source told (or no fee, for one with an input that the chain did not
    have and whose transaction the source did not have when it was asked).
    Each spends, once, outputs that the chain or the transactions before it
    leave unspent: in particular a transaction comes after those that it
    depends on. *)
Theorem template_spends `{CR : Crypto} `{KS : Keys} `{SO : TxSource} {OK : TxSourceOk} new_max sched fuel policy params pay L c t c' :
  answers L c → Forall (λ d, Forall outpoint_fits (spent_outpoints (md_Tx d))) MiningDescs →
  NewBlockTemplate new_max sched fuel policy params pay c = (VOk t, c') →
  PrevBlock (Header (bt_Block t)) = best_Hash (s_snapshot c) ∧
  best_MedianTime (s_snapshot c) < bh_Timestamp (Header (bt_Block t)) ∧
  CalcMerkleRoot (Transactions (bt_Block t)) false = Ok (MerkleRoot (Header (bt_Block t))) ∧
  ∃ cb txs fee fees, Transactions (bt_Block t) = cb :: txs ∧ bt_Fees t = fee :: fees ∧ IsCoinBaseTx cb = true ∧
    NoDup (map TxHash txs) ∧ Forall2 (from_source MiningDescs (bt_Height t) L) txs fees ∧
    spends_unspent (bt_Height t) txs L.
Proof.
  intros Hc Hfit Ht. pose proof (NewBlockTemplate_inv _ _ _ _ _ _ _ _ _ Ht) as [Hst Hh Hprev Hroot Htime (time & c2 & c3 & Hchk)].
  split_and!; [done..|]. destruct Hst as (script & cb0 & p & c1 & sw & s & cb & _ & _ & Hp & Hsel & _ & Htx & Hfees & _).
  pose proof (stages_picked new_max policy (bt_Height t) L c p c1 Hc Hfit Hp) as Hpk.
  destruct (new_selection_ok policy (bt_Height t) L p cb0 (int64 (CountSigOps cb0 * WitnessScaleFactor)) Hpk) as [Hinv _].
  destruct (select_inv sched fuel policy params (bt_Height t) sw cb0 deps_order_perm (from_source MiningDescs (bt_Height t) L) L
    (select_rounds p) (new_selection policy p cb0 (int64 (CountSigOps cb0 * WitnessScaleFactor))) s) as [_ _ _ Hfind Hnd Htxs];
    [by intros tx f (d & _ & _ & Hcb & _)|done|done|].
  destruct (template_sane _ _ _ _ _ _ _ Hchk) as (cb' & rest & Htx' & Hcb & Hsane). rewrite Htx in Htx'. injection Htx' as <- <-.
  apply Forall_cons in Hsane as [_ Hsane].
  exists cb, (blockTxns s), (int64 (- totalFees s)), (txFees s). split_and!; [done..|].
  apply finds_inputs_spends; [done|]. eapply Forall_impl; [exact Hsane|]. apply sane_inputs.
Qed.

(** C15. The limits of a template.  Unless it holds the coinbase alone, its weight
    is below the limit of the policy, but for the commitment to the witnesses,
    and its signature operations stay within those of a block: the listed costs
    are those that [GetSigOpCost] finds for the transactions, on views of the
    outputs that the chain and the transactions before leave unspent.  The
    coinbase pays the subsidy and the fees that are listed; when a
    transaction has a witness, the coinbase has the commitment. *)
Theorem template_limits `{CR : Crypto} `{KS : Keys} `{SO : TxSource} {OK : TxSourceOk} new_max sched fuel policy params pay L c t c' :
  answers L c → Forall (λ d, Forall outpoint_fits (spent_outpoints (md_Tx d))) MiningDescs →
  Forall (λ d, GetTransactionWeight (md_Tx d) < 2 ^ 32) MiningDescs → 0 <= BlockMaxWeight policy < 2 ^ 31 → pay_ok pay →
  NewBlockTemplate new_max sched fuel policy params pay c = (VOk t, c') →
  ∃ cb txs fees cost costs out outs segwit,
    Transactions (bt_Block t) = cb :: txs ∧ bt_SigOpCosts t = cost :: costs ∧ TxOuts cb = out :: outs ∧
    bt_Fees t = int64 (- int64 (total (λ f, f) fees)) :: fees ∧
    Value out = int64 (CalcBlockSubsidy (bt_Height t) params + int64 (total (λ f, f) fees)) ∧
    (txs = [] ∨ GetBlockWeight (bt_Block t) < BlockMaxWeight policy + (if WitnessCommitment t is Some _ then 224 else 0)) ∧
    (txs = [] ∨ cost + total (λ c, c) costs <= MaxBlockSigOpsCost) ∧
    Forall (λ c, 0 <= c) costs ∧ costs_found (bt_Height t) segwit L txs costs ∧
    map PkScript outs = match WitnessCommitment t with Some w => [WitnessMagicBytes ++ w] | None => [] end ∧
    Forall (λ tx, HasWitness tx = true → is_Some (WitnessCommitment t)) txs.
Proof.
  intros Hc Hfit Hwt Hmax Hpay Ht. pose proof (NewBlockTemplate_inv _ _ _ _ _ _ _ _ _ Ht) as [Hst Hh _ _ _ (time & c2 & c3 & Hchk)].
  destruct Hst as (script & cb0 & p & c1 & sw & s & cb & Hscript & Hcb0 & Hp & Hsel & Hw & Htx & Hfees & Hcosts).
  pose proof (stages_picked new_max policy (bt_Height t) L c p c1 Hc Hfit Hp) as Hpk.
  destruct (createCoinbaseTx_ok params pay script (bt_Height t) cb0 Hpay Hcb0) as (pk & Hpk1 & Hpk2 & Ecb0).
  assert (coinbase_form cb0) as Hform by (subst cb0; do 3 eexists; done).
  destruct (finished_coinbase cb0 s cb t Hform Hw) as (Hcw & Hcs & (outs & Houts & Hpks) & Hwi).
  destruct (template_sane _ _ _ _ _ _ _ Hchk) as (cb' & rest & Htx' & Hcb & Hsane). rewrite Htx in Htx'. injection Htx' as <- <-.
  assert (zlen script <= 100) as Hsl.
  { apply Forall_cons in Hsane as [Hs1 _]. pose proof (sane_script cb Hs1) as Hss. destruct (coinbase_one cb Hcb) as [ti Hti].
    rewrite Hti in Hss, Hcs. subst cb0. injection Hcs as <-. by apply Hss. }
  destruct (coinbase_sizes cb0 script (CalcBlockSubsidy (bt_Height t) params) pk) as (Hs1 & Hs2 & Hs3); [by subst cb0..| |done|done|done|].
  { apply (coinbase_script_bytes (bt_Height t)); [|done]. rewrite Hh. apply (wrap_s_range 32). lia. }
  rewrite Hs2 in Hsel, Hcosts. pose proof (weight_nonneg cb0) as Hnn.
  set (base := blockHeaderOverhead * WitnessScaleFactor + GetTransactionWeight cb0).
  assert (base = 356 + GetTransactionWeight cb0) as Hbase by done.
  assert (sel_limits policy sw base (CountSigOps cb0 * WitnessScaleFactor) s) as [L1 L2 L3 L4 L5 L6 L7].
  { eapply (select_limits sched fuel policy params (bt_Height t) sw cb0); [done|lia|done|lia|by eapply select_steps| |].
    - split; cbn [new_selection blockWeight blockTxns witnessIncluded blockSigOpCost txSigOpCosts txFees totalFees total];
        [|by left|lia|by left|constructor|done|constructor].
      rewrite wrap_u_id by lia. unfold accounted. cbn [blockTxns new_selection total]. lia.
    - apply Forall_forall. intros k (it & -> & Hit)%list_elem_of_fmap. change ((key it).1.1.1) with (pi_tx it).
      destruct (pk_items _ _ _ _ Hpk it Hit) as (d & Hd & <- & _).
      by apply (proj1 (Forall_forall _ _) Hwt d). }
  assert (TxOuts (add_coinbase_value (totalFees s) cb0) = [mkTxOut (int64 (CalcBlockSubsidy (bt_Height t) params + totalFees s)) pk]) as Ho by by subst cb0.
  rewrite Ho in Houts. exists cb, (blockTxns s), (txFees s). do 4 eexists. exists sw. rewrite <- L6.
  split_and!; [done|done|exact Houts|done|done|..].
  - destruct L2 as [->|L2]; [by left|right]. rewrite block_weight, Htx. cbn [total]. pose proof (VarInt_size_bounds (zlen (cb :: blockTxns s))).
    unfold accounted in L2. rewrite Hcw. destruct (WitnessCommitment t), (witnessIncluded s); try lia; naive_solver.
  - destruct L4 as [[-> _]|L4]; [by left|right]. lia.
  - clear - L5. induction L5 as [|? ? ? ? [? _]]; by constructor.
  - destruct (new_selection_ok policy (bt_Height t) L p cb0 (CountSigOps cb0 * WitnessScaleFactor) Hpk) as [Hinv _].
    eapply (select_costs sched fuel policy params (bt_Height t) sw cb0 (from_source MiningDescs (bt_Height t) L));
      [|by eapply select_steps|exact Hinv|by split].
    by intros tx f (d & _ & _ & Hcbx & _).
  - done.
  - eapply Forall_impl; [exact L7|]. intros tx Hx Hy. apply Hwi. by apply Hx.
Qed.

(** C16. The selection ends: from the first pass on, more rounds than the number
    that the items and their dependencies give change nothing, and when no
    call crashes the queue is empty at the end. *)
Theorem selection_terminates `{CR : Crypto} `{KS : Keys} `{SO : TxSource} {OK : TxSourceOk}
    new_max sched fuel policy params L c p c1 height segwit cb cost :
  answers L c → Forall (λ d, Forall outpoint_fits (spent_outpoints (md_Tx d))) MiningDescs →
  consider_all new_max height MiningDescs (start_pick policy) c = (VOk p, c1) →
  let run rounds := select sched fuel policy params rounds height segwit cb (new_selection policy p cb cost) in
  (∀ k, run (select_rounds p + k)%nat = run (select_rounds p)) ∧
  ∀ s, run (select_rounds p) = VOk s → q_items (p_queue (sl_pick s)) = [].
Proof.
  intros Hc Hfit Hp. pose proof (stages_picked new_max policy height L c p c1 Hc Hfit Hp) as Hpk.
  destruct (new_selection_ok policy height L p cb cost Hpk) as [Hinv Hl].
  apply (select_enough sched fuel policy params height segwit cb deps_order_perm); [apply Hinv|done].
Qed.

Lemma UpdateExtraNonce_coinbase `{CR : Crypto} m cb ti ins txs h nonce script m' :
  Transactions m = cb :: txs → TxIns cb = ti :: ins → standardCoinbaseScript h nonce = VOk script →
  UpdateExtraNonce m h nonce = VOk m' → Transactions m' = set_coinbase_script script cb :: txs.
Proof.
  intros Hm Hi Hs. unfold UpdateExtraNonce. rewrite Hs, Hm, Hi. cbn [mbind VRes_bind]. case_match; [done|].
  rewrite VRes_bind_ok. by intros (? & _ & [= <-]).
Qed.
(** C18. The extra nonce.  Updating it changes the script of the first input of
    the coinbase and the root in the header, which is that of the new
    transactions, and nothing else of the block; the script is no longer than
    the rules allow, and the rules read the height from it; different nonces
    make different blocks.  The nonce that is the smallest number when it is
    read as signed makes the code panic. *)
Theorem extra_nonce_roundtrip `{CR : Crypto} m cb ti ins txs height nonce :
  0 <= height < 2 ^ 31 → 0 <= nonce < 2 ^ 64 → Transactions m = cb :: txs → TxIns cb = ti :: ins → zlen txs < 2 ^ 61 →
  if decide (nonce = 2 ^ 63) then UpdateExtraNonce m height nonce = VCrash else
  ∃ m' script, UpdateExtraNonce m height nonce = VOk m' ∧
    let cb' := mkMsgTx (Version cb) (mkTxIn (PreviousOutPoint ti) script (Witness ti) (Sequence ti) :: ins) (TxOuts cb) (LockTime cb) in
    let h := Header m in
    m' = mkMsgBlock (mkBlockHeader (bh_Version h) (PrevBlock h) (MerkleRoot (Header m')) (bh_Timestamp h) (Bits h) (bh_Nonce h))
           (cb' :: txs) ∧
    CalcMerkleRoot (cb' :: txs) false = Ok (MerkleRoot (Header m')) ∧
    zlen script <= MaxCoinbaseScriptLen ∧ CheckSerializedHeight cb' height = VOk tt ∧
    ∀ nonce', 0 <= nonce' < 2 ^ 64 → nonce' ≠ 2 ^ 63 → UpdateExtraNonce m height nonce' = VOk m' → nonce' = nonce.
Proof.
  intros Hh Hn Hm Hi Hl. case_decide as Hd.
  { destruct (AddInt64_pushes NewScriptBuilder height) as (w & E1 & _ & Hw); [done|done|lia|].
    unfold UpdateExtraNonce, standardCoinbaseScript. rewrite E1, Hd. cbn [mbind Res_bind]. unfold AddInt64, MaxScriptSize. cbn [b_err b_script b_append NewScriptBuilder app].
    by rewrite (proj2 (Z.ltb_ge _ _)) by lia. }
  destruct (coinbase_script_pushes height nonce Hh Hn Hd) as (w & u & Hs & Ew & Hw & Hu & Lw & Lu).
  set (script := w ++ u ++ [zlen CoinbaseFlags] ++ CoinbaseFlags) in *.
  assert (zlen script <= MaxCoinbaseScriptLen) as Ls.
  { unfold script. rewrite !length_app. change (length [_]) with 1%nat. change (length CoinbaseFlags) with 11%nat. unfold MaxCoinbaseScriptLen. lia. }
  set (cb' := mkMsgTx (Version cb) (mkTxIn (PreviousOutPoint ti) script (Witness ti) (Sequence ti) :: ins) (TxOuts cb) (LockTime cb)).
  assert (set_coinbase_script script cb = cb') as Ecb by (unfold set_coinbase_script; by rewrite Hi).
  destruct (CalcMerkleRoot_ok false (cb' :: txs)) as (r & Hr & _); [done|cbn [length]; lia|].
  eexists _, script. split.
  { unfold UpdateExtraNonce. rewrite Hs, Hm, Hi. cbn [mbind VRes_bind]. rewrite (proj2 (Z.ltb_ge _ _)) by done.
    unfold merkle_root_of. rewrite Ecb, Hr. cbn [mbind VRes_bind]. done. }
  cbv zeta. cbn [Transactions Header MerkleRoot]. split_and!; [done|done|done| |].
  - unfold CheckSerializedHeight. rewrite (height_read height w (u ++ [zlen CoinbaseFlags] ++ CoinbaseFlags)
      (mkTxIn (PreviousOutPoint ti) script (Witness ti) (Sequence ti)) ins); [by cbn; rewrite Z.eqb_refl|done|done|done|done|done].
  - intros nonce' Hn' Hd' Hup. destruct (coinbase_script_pushes height nonce' Hh Hn' Hd') as (w' & u' & Hs' & Ew' & _ & Hu' & _).
    apply (UpdateExtraNonce_coinbase _ _ _ _ _ _ _ _ _ Hm Hi Hs') in Hup. cbn [Transactions] in Hup. unfold set_coinbase_script in Hup. rewrite Hi in Hup.
    injection Hup as E. rewrite Ew in Ew'. injection Ew' as <-. unfold script in E. apply app_inv_head, app_inv_tail in E as ->.
    pose proof (pushed_int_inj _ _ _ Hu Hu') as E. revert E Hn Hn'. unfold wrap_s. clear. intros.
    Z.to_euclidean_division_equations. lia.
Qed.

(** The memory pool keeps the contract. *)
Lemma pool_source_ok `{CR : Crypto} `{EN : Env} sched fuel max s time :
  Env_ok → mp_reachable sched fuel max s → @TxSourceOk CR (pool_source s time).
Proof.
  intros He Hr. pose proof (mi_pool _ _ (mp_reachable_inv _ _ _ _ He Hr)) as Hs. split; [|intros n l; apply He].
  cbn [MiningDescs pool_source]. unfold pool_MiningDescs.
  assert (NoDup (range_keys (mp_pool s) s)) as Hnd by (unfold range_keys; rewrite (He _ _); apply NoDup_fst_map_to_list).
  induction Hnd as [|h keys Hh _ IH]; cbn; [constructor|].
  destruct (mp_pool s !! h) as [d|] eqn:Hd; [|done]. cbn. constructor; [|done].
  intros (d' & E & (k & Hk & Hd')%list_elem_of_omap)%list_elem_of_fmap. destruct (mp_pool s !! k) as [dk|] eqn:Edk; [|done].
  injection Hd' as <-. cbn in E. rewrite (pk_hash s Hs h d Hd), (pk_hash s Hs k dk Edk) in E. by subst k.
Qed.
