(* ===== verification/ChainWitness.v ===== *)
(** * Block chain: the theorems on concrete blocks

    A chain with the genesis block of the main network, one output in the
    cache of unspent outputs, and blocks on top of it. *)

From Stdlib Require Import ZArith Lia.
From stdpp Require Import base numbers list strings gmap.
From S2P Require Import Prelude ScriptNum WireBase WireTx ScriptStack ScriptToken Sighash GoHash WireMsg Taproot ScriptEngine ScriptExec ScriptWitness ChainCompress ChainCompressFacts ChainUtxo ChainStore ChainStoreFacts ChainError Merkle ChainNode ChainNodeFacts ChainParams ChainWork ChainGenesis ChainThreshold ChainCache ChainCacheFacts ChainRules ChainConnect ChainSupply ChainUndoFacts ChainState ChainOrphanFacts ChainStateFacts.

Open Scope Z_scope.

(** The hash is that of the engine's cryptography. *)
#[local] Remove Hints go_Sha : typeclass_instances.

(** ** Keys

    A key is its uncompressed form; the second coordinate is its parity. *)

Definition ex_full (x : list byte) (p : Z) : list byte := 0x04 :: x ++ replicate 31 0 ++ [p].
Definition ex_parse (b : list byte) : option (list byte) :=
  match b with
  | k :: x =>
      if (k =? 4) && ((length x =? 64)%nat && bool_decide (drop 32 x = replicate 31 0 ++ [Z.land (last_byte x) 1]))
      then Some b
      else if ((k =? 2) || (k =? 3)) && (length x =? 32)%nat then Some (ex_full x (k - 2))
      else None
  | [] => None
  end.
Lemma ex_decompress x y (k : list byte) :
  length x = 32%nat → length y = 32%nat → ex_parse (0x04 :: x ++ y) = Some k →
  ∃ k', ex_parse (0x02 + Z.land (last_byte y) 1 :: x) = Some k' ∧ k' = 0x04 :: x ++ y.
Proof.
  intros Hx Hy. unfold ex_parse at 1. cbn [Z.eqb Pos.eqb andb orb]. rewrite drop_app_length' by lia.
  destruct (_ && _) eqn:Eg; [|done]. apply andb_prop in Eg as [_ Hd%bool_decide_eq_true]. intros _.
  assert (Hl : last_byte (x ++ y) = last_byte y).
  { revert Hd. generalize (Z.land (last_byte (x ++ y)) 1). intros q ->. unfold last_byte.
    by rewrite app_assoc, !List.last_last. }
  rewrite Hl in Hd. set (p := Z.land (last_byte y) 1) in *.
  assert (Hp : p = 0 ∨ p = 1).
  { assert (p = last_byte y mod 2) by exact (Z.land_ones (last_byte y) 1 ltac:(lia)).
    pose proof (Z.mod_pos_bound (last_byte y) 2 ltac:(lia)). lia. }
  exists (0x04 :: x ++ y). split; [|done]. unfold ex_parse, ex_full.
  assert (Hy' : y = replicate 31 0 ++ [p]) by done. rewrite Hx, Hy'. destruct Hp as [-> | ->]; reflexivity.
Qed.
#[export] Instance ex_Keys : Keys := {|
  Key := list byte; btcec_ParsePubKey := ex_parse; SerializeUncompressed := λ k, k;
  decompress_key := ex_decompress
|}.

(** ** A chain *)

Definition ex_max (_ : list Z) (_ : Z) : Z := 100.
Definition ex_pay : list byte := [0x51].
Definition ex_entry : UtxoEntry := mkUtxoEntry 5000 ex_pay 0 (Z.lor tfFresh tfModified).
Definition ex_db : utxo_db := mkUtxoDb ∅ None.
Definition ex_cache : utxoCache := mkCache [({[ex_out := Some ex_entry]}, 100)] 41 (replicate 32 0) 0.
Definition ex_genesis : blockNode := newBlockNode (Header genesisBlock) None.
Definition ex_chain : BlockChain :=
  mkChain MainNetParams (addNode ex_genesis newBlockIndex) [Some ex_genesis] [] None None
    (replicate 5 ∅) ex_cache ex_db.

Definition ex_coinbase (value : Z) : MsgTx :=
  mkMsgTx 1 [mkTxIn (mkOutPoint (replicate 32 0) 0xffffffff) [0x01; 0x01] [] 0xffffffff] [mkTxOut value ex_pay] 0.
Definition ex_spend (ops : list OutPoint) (outs : list Z) : MsgTx :=
  mkMsgTx 1 (map (λ op, mkTxIn op [] [] 0xffffffff) ops) (map (λ v, mkTxOut v ex_pay) outs) 0.
Definition ex_block (txs : list MsgTx) : Block :=
  mkBlock (mkMsgBlock (mkBlockHeader 4 (n_hash ex_genesis)
    (match CalcMerkleRoot txs false with Ok r => r | _ => [] end) 1700000000 0x1d00ffff 0) txs) 1.
Definition ex_node (b : Block) : blockNode := newBlockNode (Header (b_msg b)) (Some ex_genesis).
Definition ex_view : UtxoViewpoint := SetBestHash (n_hash ex_genesis) NewUtxoViewpoint.
Definition ex_connect (b : Block) : VRes (UtxoViewpoint * option (list SpentTxOut)) * BlockChain :=
  checkConnectBlock ex_max id 20 (ex_node b) b ex_view (Some []) ex_chain.
Definition accepted {A} (r : VRes A) : bool := match r with VOk _ => true | _ => false end.

Lemma ex_cache_ok : cache_ok ex_db ex_cache.
Proof.
  split.
  - split; [|done]. intros op _. done.
  - intros op _. exists None. split; [|done]. unfold in_db, dbFetchUtxoEntry. cbn [utxoSet ex_db]. by rewrite lookup_empty.
  - intros op o. cbn [ex_cache cachedEntries ms_get]. destruct (decide (op = ex_out)) as [->|Hne].
    + rewrite lookup_singleton_eq. intros [= <-]. split; [done|]. split; [done|]. split; [|done].
      intros _. unfold in_db, dbFetchUtxoEntry. cbn [utxoSet ex_db]. by rewrite lookup_empty.
    + rewrite lookup_singleton_ne by done. done.
Qed.
Lemma ex_ledger op : cache_ledger ex_db ex_cache op = if decide (op = ex_out) then Some (stxo_of ex_entry) else None.
Proof.
  unfold cache_ledger. cbn [ex_cache cachedEntries ms_get]. case_decide as Hd.
  - subst op. by rewrite lookup_singleton_eq.
  - rewrite lookup_singleton_ne by done. unfold db_ledger, dbFetchUtxoEntry. cbn [utxoSet ex_db]. by rewrite lookup_empty.
Qed.

(** A block that spends the output in two steps. *)
Definition ex_tx1 : MsgTx := ex_spend [ex_out] [3000; 1500].
Definition ex_tx2 : MsgTx := ex_spend [mkOutPoint (TxHash ex_tx1) 1] [1400].
Definition ex_good : Block := ex_block [ex_coinbase 5000000600; ex_tx1; ex_tx2].

Lemma ex_good_sane : checkBlockSanity (b_msg ex_good) mainPowLimit 1700000000 BFNoPoWCheck = VOk tt.
Proof. vm_compute. reflexivity. Qed.
Lemma ex_good_connected :
  ∃ v' st c', checkConnectBlock ex_max id 20 (ex_node ex_good) ex_good ex_view (Some []) ex_chain = (VOk (v', st), c').
Proof.
  assert (Ha : accepted (fst (checkConnectBlock ex_max id 20 (ex_node ex_good) ex_good ex_view (Some []) ex_chain)) = true)
    by (vm_compute; reflexivity).
  destruct (checkConnectBlock _ _ _ _ _ _ _ _) as [[[v' st]| |] c']; [eauto|discriminate Ha..].
Qed.
Lemma ex_good_fits : Forall (λ tx, Forall outpoint_fits (map PreviousOutPoint (TxIns tx))) (tail (block_txs ex_good)).
Proof. repeat constructor; vm_compute; (reflexivity || intros [=]). Qed.
Lemma ex_good_ordered : ordered (block_txs ex_good).
Proof. apply is_ordered_ok. vm_compute. reflexivity. Qed.
Lemma ex_holds : holds_at_most (cache_ledger (c_db ex_chain) (c_utxoCache ex_chain)) 5000.
Proof.
  change (holds_at_most (cache_ledger ex_db ex_cache) (value_of (Some (stxo_of ex_entry)))).
  assert (cache_ledger ex_db ex_cache ex_out = Some (stxo_of ex_entry)) as <- by (by rewrite ex_ledger, decide_True).
  apply holds_one_output; [intros op Hop; by rewrite ex_ledger, decide_False|]. by rewrite ex_ledger, decide_True.
Qed.
Lemma ex_good_height : b_height ex_good = n_height (ex_node ex_good).
Proof. vm_compute. reflexivity. Qed.
Lemma ex_view_empty : entries ex_view = ∅.
Proof. reflexivity. Qed.

Lemma no_inflation_witness :
  CalcBlockSubsidy (b_height ex_good) (chainParams ex_chain) = 5000000000 ∧
  spends_unspent (b_height ex_good) (block_txs ex_good) (cache_ledger (c_db ex_chain) (c_utxoCache ex_chain)) ∧
  holds_at_most (ledger_block ex_good (cache_ledger (c_db ex_chain) (c_utxoCache ex_chain)))
    (5000 + CalcBlockSubsidy (b_height ex_good) (chainParams ex_chain)).
Proof.
  split; [vm_compute; reflexivity|]. destruct ex_good_connected as (v' & st & c' & Ec).
  exact (no_inflation ex_max id 20 (ex_node ex_good) ex_good ex_view (Some []) ex_chain v' st c' mainPowLimit 1700000000
    BFNoPoWCheck 5000 ex_cache_ok ex_view_empty ex_good_height ex_good_fits ex_good_ordered ex_holds ex_good_sane Ec).
Defined.

(** ** A transaction before the one it spends *)

Definition ex_txB : MsgTx := ex_spend [ex_out] [3000; 1500].
Definition ex_txA : MsgTx := ex_spend [mkOutPoint (TxHash ex_txB) 0] [3000].
Definition ex_txC : MsgTx := ex_spend [mkOutPoint (TxHash ex_txB) 1] [1500].
Definition ex_forward : Block := ex_block [ex_coinbase 5000000500; ex_txA; ex_txB; ex_txC].

(** Accepted with the output that was spent still there, and not connected. *)
Definition forward_outcome (r : VRes (UtxoViewpoint * option (list SpentTxOut)) * BlockChain) : Prop :=
  match r with
  | (VOk (v, _), c) =>
      unspent v (mkOutPoint (TxHash ex_txB) 0) = Some (mkSpentTxOut 3000 ex_pay 1 false) ∧
      unspent v (mkOutPoint (TxHash ex_txA) 0) = Some (mkSpentTxOut 3000 ex_pay 1 false) ∧
      cache_connectTransactions ex_max (c_db c) ex_forward (c_utxoCache c) None = CErr "missing input"
  | _ => False
  end.

(** Below the height of BIP 34 [checkConnectBlock] looks up the outputs of
    the block first, which leaves a nil entry in the view for each; an input
    with such an entry is not fetched, and when a later transaction spends
    another output of the same transaction, all its outputs are added.  So
    a transaction that spends an output of a later one passes all checks,
    on the main network too, and the output it spent is unspent again
    afterwards; connecting the block to the cache then fails after the
    coinbase was added. *)
Theorem forward_spend_accepted :
  checkBlockSanity (b_msg ex_forward) mainPowLimit 1700000000 BFNoPoWCheck = VOk tt ∧
  is_ordered (block_txs ex_forward) = false ∧
  forward_outcome (ex_connect ex_forward).
Proof. vm_compute. split_and!; reflexivity. Qed.

(** ** Views and their undoing *)

Definition ex_old : UtxoEntry := mkUtxoEntry 5000 ex_pay 1 0.
Definition ex_full_view : UtxoViewpoint := set_entry ex_out ex_old ex_view.
Definition is_none {A} (o : option A) : bool := match o with None => true | Some _ => false end.
Definition spends_b (tx : MsgTx) (L : ledger) : bool :=
  forallb (λ op, match L op with Some s => negb (st_Height s =? 0) | None => false end) (inputs tx) &&
  forallb (λ op, is_none (L op)) (map fst (spendable tx)).
Lemma spends_b_ok tx L : spends_b tx L = true → spends_ok tx L.
Proof.
  unfold spends_b. rewrite andb_true_iff, !forallb_forall. intros [H1 H2]. split; intros op Hop%list_elem_of_In.
  - specialize (H1 op Hop). destruct (L op) as [s|]; [|done]. exists s. split; [done|]. by apply negb_true_iff, Z.eqb_neq in H1.
  - specialize (H2 op Hop). by destruct (L op).
Qed.
Lemma ex_block_fits : block_fits ex_good (unspent ex_full_view).
Proof.
  exists (ex_coinbase 5000000600), [ex_tx1; ex_tx2].
  split; [reflexivity|]. split; [reflexivity|]. split; [apply spends_b_ok; vm_compute; reflexivity|].
  split; [reflexivity|]. split; [apply spends_b_ok; vm_compute; reflexivity|].
  split; [reflexivity|]. split; [apply spends_b_ok; vm_compute; reflexivity|exact I].
Qed.
Lemma connect_block_witness :
  ∃ v' stxos, connectTransactions ex_good ex_full_view (Some []) = COk (v', Some stxos) ∧
    ∃ v'', disconnectTransactions (λ _, CErr "no database") ex_good stxos v' = COk v'' ∧
      same (unspent v'') (unspent ex_full_view).
Proof.
  destruct (connect_block_refines_and_undoes (λ _, CErr "no database") ex_good ex_full_view ex_block_fits)
    as (v' & stxos & Hc & _ & _ & v'' & Hd & Hs & _).
  exists v', stxos. split; [exact Hc|]. exists v''. split; [exact Hd|exact Hs].
Defined.

(** ** The cache *)

Lemma ex_in_db op : in_db ex_db op None.
Proof. unfold in_db, dbFetchUtxoEntry. cbn [utxoSet ex_db]. by rewrite lookup_empty. Qed.
Definition out_fits_b (p : OutPoint * TxOut) : bool :=
  (0 <=? Value (snd p)) && (Value (snd p) <? 2 ^ 60) && (zlen (PkScript (snd p)) <? 2 ^ 62).
Definition input_fits_b (L : ledger) (op : OutPoint) : bool :=
  (length (op_Hash op) =? HashSize)%nat && (0 <=? op_Index op) && (op_Index op <? 2 ^ 32) && negb (is_none (L op)).
Definition tx_fits_b (tx : MsgTx) (L : ledger) : bool :=
  bool_decide (NoDup (inputs tx)) && forallb (input_fits_b L) (inputs tx) && forallb out_fits_b (spendable tx).
Lemma tx_fits_b_ok tx L : tx_fits_b tx L = true → tx_fits ex_db 1 tx L.
Proof.
  unfold tx_fits_b. rewrite !andb_true_iff, !forallb_forall, bool_decide_eq_true. intros [[H1 H2] H3].
  split_and!; [done| |].
  - intros op Hop%list_elem_of_In. specialize (H2 op Hop). unfold input_fits_b in H2.
    rewrite !andb_true_iff, Nat.eqb_eq, Z.leb_le, Z.ltb_lt in H2. destruct H2 as [[[? ?] ?] Hs].
    split; [split; [done|unfold unsigned; cbn; lia]|]. by destruct (L op).
  - split; [split; done|]. intros p Hp%list_elem_of_In. specialize (H3 p Hp). unfold out_fits_b in H3.
    rewrite !andb_true_iff, Z.leb_le, !Z.ltb_lt in H3. destruct H3 as [[? ?] ?].
    split; [done|]. split; [done|apply ex_in_db].
Qed.
Lemma ex_txs_fit : txs_fit ex_db 1 (block_txs ex_good) (cache_ledger ex_db ex_cache).
Proof.
  split; [apply tx_fits_b_ok; vm_compute; reflexivity|].
  split; [apply tx_fits_b_ok; vm_compute; reflexivity|].
  split; [apply tx_fits_b_ok; vm_compute; reflexivity|exact I].
Qed.
Lemma utxo_cache_witness :
  ∃ s recs, cache_connectTransactions ex_max ex_db ex_good ex_cache (Some []) = COk (s, (λ l, l ++ recs) <$> Some []) ∧
    same (cache_ledger ex_db s) (ledger_block ex_good (cache_ledger ex_db ex_cache)).
Proof.
  destruct (utxo_cache_refines ex_max (λ _, 0) 1000 ex_db ex_cache ex_cache_ok) as (_ & Hc & _).
  destruct (Hc ex_good (Some []) ex_txs_fit) as (s & recs & He & _ & Hs). exists s, recs. split; [exact He|exact Hs].
Defined.

(** An output that the database holds. *)
Definition ex_stored_db : utxo_db :=
  mkUtxoDb (match dbPutUtxoEntry ex_out ex_old ∅ with COk b => b | _ => ∅ end) None.
Definition ex_empty_cache : utxoCache := mkCache [(∅, 100)] 0 (replicate 32 0) 0.
Lemma ex_out_fits : outpoint_fits ex_out.
Proof. split; [reflexivity|]. unfold unsigned. cbn. lia. Qed.
Lemma ex_stored_fetch op :
  outpoint_fits op → in_db ex_stored_db op (if decide (ex_out = op) then Some ex_old else None).
Proof.
  intros Hop. unfold in_db, ex_stored_db, dbPutUtxoEntry. cbn [utxoSet].
  destruct (utxo_roundtrip ex_old) as (b & Hs & Hne & Hd); [by repeat split|reflexivity|].
  change (IsSpent ex_old) with false. rewrite Hs. unfold mbind, ChainRes_bind.
  rewrite (fetch_insert ∅ ex_out op ex_old b ex_out_fits Hop Hne Hd). case_decide; [done|].
  unfold dbFetchUtxoEntry. by rewrite lookup_empty.
Qed.
Lemma ex_empty_cache_ok : cache_ok ex_stored_db ex_empty_cache.
Proof.
  split.
  - split; [|done]. by intros op [x Hx].
  - intros op Hop. eexists. split; [by apply ex_stored_fetch|]. by case_decide; [repeat split|].
  - intros op o Ho. discriminate Ho.
Qed.
Lemma recreated_output_witness :
  ∃ s1 s2, addTxIn ex_max ex_stored_db (ex_in []) ex_empty_cache None = COk (s1, None) ∧
    cache_ledger ex_stored_db s1 ex_out = None ∧
    addTxIn ex_max ex_stored_db (ex_in []) (cache_addTxOut ex_max ex_out (mkTxOut 7 ex_pay) false 9 s1) None = COk (s2, None) ∧
    cache_ledger ex_stored_db s2 ex_out = Some (stxo_of ex_old).
Proof.
  pose proof (ex_stored_fetch ex_out ex_out_fits) as Hf. rewrite decide_True in Hf by reflexivity.
  exact (recreated_output_returns ex_max ex_stored_db ex_empty_cache (ex_in []) (mkTxOut 7 ex_pay) false 9 ex_old
    ex_empty_cache_ok ex_out_fits eq_refl Hf eq_refl).
Defined.

(** The laws of the keys hold for these. *)
Lemma chain_storage_witness :
  decodeSpentTxOut (putSpentTxOut (stxo_of ex_old) ++ [7]) =
    COk (stxo_of ex_old, length (putSpentTxOut (stxo_of ex_old))).
Proof.
  destruct chain_storage_roundtrip as (Hs & _). apply Hs. split; [done|]. split; done.
Defined.

(** ** Block chain: a reorganization, a crash and an orphan on concrete blocks

    On the genesis block of the main network there is one block on one side
    and two on the other. *)

#[local] Remove Hints go_Sha : typeclass_instances.

(** ** The blocks *)

Definition ex_mined (prev : Hash) (time value : Z) : MsgBlock :=
  mkMsgBlock (mkBlockHeader 4 prev (match CalcMerkleRoot [ex_coinbase value] false with Ok r => r | _ => [] end)
    time 0x1d00ffff 0) [ex_coinbase value].
Definition msgA : MsgBlock := Eval vm_compute in ex_mined (n_hash ex_genesis) 1700000000 5000000000.
Definition msgB : MsgBlock := Eval vm_compute in ex_mined (n_hash ex_genesis) 1700000600 4000000000.
Definition nodeA : blockNode := Eval vm_compute in newBlockNode (Header msgA) (Some ex_genesis).
Definition nodeB : blockNode := Eval vm_compute in newBlockNode (Header msgB) (Some ex_genesis).
Definition msgC : MsgBlock := Eval vm_compute in ex_mined (n_hash nodeB) 1700001200 3000000000.
Definition nodeC : blockNode := Eval vm_compute in newBlockNode (Header msgC) (Some nodeB).
Definition node0 : blockNode := Eval vm_compute in ex_genesis.
Definition ex_blocks : gmap Hash MsgBlock :=
  {[n_hash node0 := genesisBlock; n_hash nodeA := msgA; n_hash nodeB := msgB; n_hash nodeC := msgC]}.

(** ** The state at the first block *)

Definition ex_index : blockIndex := addNode nodeC (addNode nodeB (addNode nodeA (addNode node0 newBlockIndex))).
Definition ex_empty : utxoCache := mkCache [(∅, 100)] 0 (replicate 32 0) 0.
Definition ex_state : Chain :=
  mkChainState
    (mkChain MainNetParams ex_index [Some node0] [] None None (replicate 5 ∅) ex_empty (mkUtxoDb ∅ (Some (n_hash node0))))
    (mkChainDb ex_blocks ∅ (ChainStore.mkIndex ∅ ∅) ∅
      (Some (serializeBestChainState (mkBestChainState (n_hash node0) 0 1 (ChainNode.workSum node0)))))
    (newBestState node0 285 1140 1 1 1231006505) [] false ∅ ∅ None [] 0.

Lemma nodes_made :
  nodeA = newBlockNode (Header msgA) (Some node0) ∧ nodeB = newBlockNode (Header msgB) (Some node0) ∧
  nodeC = newBlockNode (Header msgC) (Some nodeB).
Proof. vm_compute. done. Qed.
Lemma ex_linked : linked node0 ∧ linked nodeA ∧ linked nodeB ∧ linked nodeC.
Proof.
  destruct nodes_made as (HA & HB & HC). assert (H0 : linked node0) by constructor.
  assert (H1 : linked nodeB) by (rewrite HB; apply newBlockNode_linked; split; [exact H0|reflexivity]).
  split; [exact H0|]. split; [rewrite HA; apply newBlockNode_linked; split; [exact H0|reflexivity]|].
  split; [exact H1|]. rewrite HC. apply newBlockNode_linked. split; [exact H1|reflexivity].
Qed.

(** A block with a coinbase only fits any ledger that has not its outputs. *)
Lemma mined_valid value height L :
  IsCoinBaseTx (ex_coinbase value) = true → 0 <= value < 2 ^ 60 → 0 < height < 2 ^ 31 →
  (∀ op, op ∈ made [ex_coinbase value] → L op = None) →
  ∀ hdr, block_valid (mkBlock (mkMsgBlock hdr [ex_coinbase value]) height) L.
Proof.
  intros Hcb Hval Hh Hm hdr. split; [exists (ex_coinbase value), []; by split_and!|]. split; [|done]. split_and!.
  - unfold inputs. rewrite Hcb. constructor.
  - cbn [b_height]. split; [unfold height_ok; lia|]. split; [lia|]. intros p Hp. unfold spendable in Hp. apply list_elem_of_In, filter_In in Hp as [Hp _].
    apply list_elem_of_In, elem_of_lookup_imap in Hp as (i & to & -> & Hi). cbn [snd].
    apply list_elem_of_lookup_2, list_elem_of_singleton in Hi as ->. split; [unfold amount_ok; cbn; lia|done].
  - intros op. unfold inputs. rewrite Hcb. by intros ?%elem_of_nil.
  - intros op Hop. apply Hm. rewrite made_cons, elem_of_app. by left.
Qed.

(** ** The two chains are valid *)

Lemma ex_stored :
  ex_blocks !! n_hash nodeA = Some msgA ∧ ex_blocks !! n_hash nodeB = Some msgB ∧ ex_blocks !! n_hash nodeC = Some msgC.
Proof. vm_compute. done. Qed.
Lemma ex_hashes : BlockHash (Header msgA) = n_hash nodeA ∧ BlockHash (Header msgB) = n_hash nodeB ∧ BlockHash (Header msgC) = n_hash nodeC.
Proof. vm_compute. done. Qed.
Lemma ex_distinct : NoDup [n_hash node0; n_hash nodeA; n_hash nodeB; n_hash nodeC].
Proof. apply (bool_decide_eq_true_1 _). vm_compute. reflexivity. Qed.
Lemma upto_node0 a : upto a node0 → a = node0.
Proof. intros Ha. inversion Ha as [|n p Hp]; [done|]. discriminate Hp. Qed.
Lemma upto_nodeB a : upto a nodeB → a = nodeB ∨ a = node0.
Proof. intros Ha. inversion Ha as [|n p Hp Hu]; [by left|]. injection Hp as <-. right. by apply upto_node0. Qed.

Definition fresh_b (txs : list MsgTx) (L : ledger) : bool := forallb (λ op, is_none (L op)) (made txs).
Lemma fresh_b_ok txs L op : fresh_b txs L = true → op ∈ made txs → L op = None.
Proof. unfold fresh_b. rewrite forallb_forall. intros Hf Hop%list_elem_of_In. specialize (Hf op Hop). by destruct (L op). Qed.
Lemma ex_fresh : fresh_b (Transactions msgC) (node_ledger ex_blocks nodeB) = true.
Proof. vm_compute. reflexivity. Qed.

Lemma ledger0 op : node_ledger ex_blocks node0 op = None.
Proof. by rewrite node_ledger_first. Qed.

Lemma ex_valid0 : chain_valid ex_blocks node0.
Proof. by apply chain_first. Qed.
Lemma ex_next msg n p value :
  parent n = Some p → ex_blocks !! n_hash n = Some msg → BlockHash (Header msg) = n_hash n →
  Transactions msg = [ex_coinbase value] → 0 <= value < 2 ^ 60 → 0 < n_height n < 2 ^ 31 → IsCoinBaseTx (ex_coinbase value) = true →
  (∀ a op, upto a p → op ∈ made (Transactions msg) → node_ledger ex_blocks a op = None) →
  (∀ a, upto a p → n_hash a ≠ n_hash n) → valid_next ex_blocks n p msg.
Proof.
  intros Hp Hmsg Hh Htx Hval Hht Hcb Hfresh Hnew. split; [done|done| |done|done].
  destruct msg as [hdr txs]. cbn [Transactions] in *. subst txs. apply mined_valid; [done|done|done|].
  intros op Hop. apply Hfresh; [constructor|done].
Qed.
Lemma ex_validA : chain_valid ex_blocks nodeA.
Proof.
  apply (chain_next _ nodeA node0 msgA); [reflexivity|apply ex_valid0|].
  apply (ex_next msgA nodeA node0 5000000000); [reflexivity|apply ex_stored|apply ex_hashes|reflexivity|lia|cbn; lia|reflexivity| |].
  - intros a op ->%upto_node0 _. apply ledger0.
  - intros a ->%upto_node0 He. pose proof ex_distinct as Hd. rewrite He in Hd. apply NoDup_cons in Hd as [Hd _]. apply Hd. left.
Qed.
Lemma ex_nextB : valid_next ex_blocks nodeB node0 msgB.
Proof.
  apply (ex_next msgB nodeB node0 4000000000); [reflexivity|apply ex_stored|apply ex_hashes|reflexivity|lia|cbn; lia|reflexivity| |].
  - intros a op ->%upto_node0 _. apply ledger0.
  - intros a ->%upto_node0 He. pose proof ex_distinct as Hd. rewrite He in Hd. apply NoDup_cons in Hd as [Hd _]. apply Hd. right. left.
Qed.
Lemma ex_nextC : valid_next ex_blocks nodeC nodeB msgC.
Proof.
  apply (ex_next msgC nodeC nodeB 3000000000); [reflexivity|apply ex_stored|apply ex_hashes|reflexivity|lia|cbn; lia|reflexivity| |].
  - intros a op [->| ->]%upto_nodeB Hop; [|apply ledger0]. by apply (fresh_b_ok (Transactions msgC)); [apply ex_fresh|].
  - intros a Ha He. pose proof ex_distinct as Hd. apply NoDup_cons in Hd as [H0 Hd]. apply NoDup_cons in Hd as [_ Hd].
    apply NoDup_cons in Hd as [HB _]. destruct (upto_nodeB a Ha) as [->| ->]; [apply HB; rewrite He; left|].
    apply H0. rewrite He. right. right. left.
Qed.

(** ** Connecting the first block *)

Lemma ex_consistent0 : consistent node0 ex_state.
Proof.
  assert (Hdb : ∀ op, dbFetchUtxoEntry ∅ op = COk None) by (intros op; unfold dbFetchUtxoEntry; by rewrite lookup_empty).
  split.
  - apply empty_at.
    + intros op _. exists None. split; [apply Hdb|done].
    + split; [split; [by intros op [x Hx]|done]|done].
    + reflexivity.
    + intros op _. change (node_ledger (d_blocks (s_db ex_state)) node0 op) with (node_ledger ex_blocks node0 op).
      rewrite ledger0. unfold db_ledger. cbn [ex_state s_chain c_db utxoSet]. by rewrite Hdb.
  - split; try reflexivity.
    + apply ex_linked.
    + apply ex_valid0.
    + intros n p msg ->%upto_node0 Hp. discriminate Hp.
    + by exists 1, (ChainNode.workSum node0).
Qed.
Definition no_prune (_ : Z) (_ : gmap Hash MsgBlock) : VRes (list Hash * gmap Hash MsgBlock) := VCrash.
Definition no_index (_ : Block) (_ : list SpentTxOut) : VRes unit := VOk tt.
Definition no_legacy (_ : utxo_db) (_ : Hash) : ChainRes (option UtxoEntry) := COk None.
Definition now : Z := 1800000000.
Definition ex_stateA : Chain :=
  snd (attach_all ex_max (λ _, 0) 1000 no_prune no_index now now [(nodeA, mkBlock msgA 1)] ex_state).
Lemma ex_attached : accepted (fst (attach_all ex_max (λ _, 0) 1000 no_prune no_index now now [(nodeA, mkBlock msgA 1)] ex_state)) = true.
Proof. vm_compute. reflexivity. Qed.
Lemma ex_consistentA : consistent nodeA ex_stateA ∧ d_blocks (s_db ex_stateA) = ex_blocks.
Proof.
  pose proof ex_attached as Ha. unfold ex_stateA.
  destruct (attach_all ex_max (λ _, 0) 1000 no_prune no_index now now [(nodeA, mkBlock msgA 1)] ex_state) as [[[]|e|] s1] eqn:E;
    [|discriminate Ha..].
  apply (attach_all_at ex_max (λ _, 0) 1000 no_prune no_index now now node0 nodeA [nodeA] [mkBlock msgA 1]) in E.
  - exact E.
  - apply steps_next; [reflexivity|constructor].
  - apply ex_consistent0.
  - apply ex_linked.
  - apply ex_validA.
  - constructor; [|constructor]. exists msgA. split; [apply ex_stored|reflexivity].
Qed.

(** ** Replacing it by the two others *)

Lemma upto_nodeC a : upto a nodeC → a = nodeC ∨ a = nodeB ∨ a = node0.
Proof. intros Ha. inversion Ha as [|n p Hp Hu]; [by left|]. injection Hp as <-. right. by apply upto_nodeB. Qed.
Lemma ex_not_bad : ¬ known_bad ex_stateA nodeC.
Proof.
  intros (m & Hm & Hk). assert (Hall : forallb (λ m, negb (KnownInvalid (NodeStatus (c_index (s_chain ex_stateA)) m))) [nodeC; nodeB; node0] = true)
    by (vm_compute; reflexivity).
  cbn [forallb] in Hall. rewrite !andb_true_iff, !negb_true_iff in Hall. destruct Hall as (HC & HB & H0 & _).
  destruct (upto_nodeC m Hm) as [->|[->| ->]]; congruence.
Qed.
(** The chain that is offered: its blocks are well formed and none is marked
    as valid. *)
Lemma ex_sane : checkBlockSanity msgB (PowLimit MainNetParams) now BFNoPoWCheck = VOk tt ∧
  checkBlockSanity msgC (PowLimit MainNetParams) now BFNoPoWCheck = VOk tt.
Proof. vm_compute. done. Qed.
Lemma ex_formed n p msg :
  valid_next ex_blocks n p msg → checkBlockSanity msg (PowLimit MainNetParams) now BFNoPoWCheck = VOk tt →
  is_ordered (Transactions msg) = true → next_block ex_blocks n p msg.
Proof.
  intros [H1 H2 H3 H4 H5] Hs Ho. split; [done|done| |done|done]. split; [by eexists _, _, _|by apply is_ordered_ok|by eapply block_valid_inputs|].
  apply Forall_forall. intros tx. apply (txs_valid_outputs _ _ _ tx (proj2 H3)).
Qed.
Lemma ex_offered : offered nodeC ex_stateA.
Proof.
  destruct ex_consistentA as [_ Hb]. split; [apply ex_linked|]. rewrite Hb. split.
  - apply (stored_next _ nodeC nodeB msgC); [reflexivity| |apply ex_formed; [exact ex_nextC|exact (proj2 ex_sane)|vm_compute; reflexivity]].
    apply (stored_next _ nodeB node0 msgB); [reflexivity|by apply stored_first|apply ex_formed; [exact ex_nextB|exact (proj1 ex_sane)|vm_compute; reflexivity]].
  - assert (Hall : forallb (λ m, negb (KnownValid (NodeStatus (c_index (s_chain ex_stateA)) m))) [nodeC; nodeB; node0] = true)
      by (vm_compute; reflexivity).
    cbn [forallb] in Hall. rewrite !andb_true_iff, !negb_true_iff in Hall. destruct Hall as (HC & HB & H0 & _).
    intros m q msg Hm _ _ Hk. destruct (upto_nodeC m Hm) as [->|[->| ->]]; congruence.
Qed.
Definition ex_best : VRes bool * Chain :=
  connectBestChain ex_max (λ _, 0) 1000 id 20 no_prune no_index no_index no_legacy now now nodeC (mkBlock msgC 2) 0 ex_stateA.
Lemma ex_best_main : match fst ex_best with VOk r => r | _ => false end = true.
Proof. vm_compute. reflexivity. Qed.
Lemma ex_common : ∃ g, upto g nodeC ∧ upto g nodeA.
Proof.
  exists node0. split; [|eapply upto_next; [reflexivity|constructor]].
  eapply upto_next; [reflexivity|]. eapply upto_next; [reflexivity|constructor].
Qed.
Lemma ex_other : n_hash nodeB = n_hash nodeA → nodeB = nodeA.
Proof.
  intros He. pose proof ex_distinct as Hd. apply NoDup_cons in Hd as [_ Hd]. apply NoDup_cons in Hd as [Hd _].
  destruct Hd. rewrite He. left.
Qed.
Lemma best_chain_witness :
  ∃ s', ex_best = (VOk true, s') ∧ consistent nodeC s' ∧ chain_valid (d_blocks (s_db s')) nodeC.
Proof.
  pose proof ex_best_main as Hm. destruct ex_best as [[r|e|] s'] eqn:E; [|discriminate Hm..]. cbn in Hm. subst r.
  exists s'. split; [reflexivity|]. destruct ex_consistentA as [HA Hb].
  destruct (best_chain ex_max (λ _, 0) 1000 id 20 no_prune no_index no_index no_legacy now now nodeC nodeB nodeA msgC 0 ex_stateA true s')
    as [Hc|[_ Hbad]].
  - exact HA.
  - reflexivity.
  - exact ex_offered.
  - reflexivity.
  - rewrite Hb. apply ex_stored.
  - reflexivity.
  - intros Hfast. discriminate Hfast.
  - exact ex_other.
  - exact ex_common.
  - exact E.
  - exact Hc.
  - destruct (ex_not_bad Hbad).
Defined.

Lemma reorganization_witness :
  ∃ s', reorganizeChain ex_max (λ _, 0) 1000 id 20 no_prune no_index no_index no_legacy now now [nodeA] [nodeB; nodeC] ex_stateA = (VOk tt, s') ∧
    consistent nodeC s'.
Proof.
  assert (Hm : accepted (fst (reorganizeChain ex_max (λ _, 0) 1000 id 20 no_prune no_index no_index no_legacy now now [nodeA] [nodeB; nodeC] ex_stateA)) = true)
    by (vm_compute; reflexivity).
  destruct (reorganizeChain _ _ _ _ _ _ _ _ _ _ _ _ _ _) as [[[]|e|] s'] eqn:E; [|discriminate Hm..]. exists s'. split; [reflexivity|].
  destruct ex_consistentA as [HA Hb].
  apply (reorganization ex_max (λ _, 0) 1000 id 20 no_prune no_index no_index no_legacy now now node0 nodeA nodeC [nodeA] [nodeB; nodeC] ex_stateA).
  - exact HA.
  - exact ex_offered.
  - eapply down_next; [reflexivity|constructor].
  - apply steps_next; [reflexivity|]. apply steps_next; [reflexivity|constructor].
  - exact E.
Defined.

(** ** A crash *)

Lemma upto_nodeA a : upto a nodeA → a = nodeA ∨ a = node0.
Proof. intros Ha. inversion Ha as [|n p Hp Hu]; [by left|]. injection Hp as <-. right. by apply upto_node0. Qed.
Definition found_b (a : blockNode) : bool :=
  match LookupNode (c_index (s_chain ex_stateA)) (n_hash a) with Some n => node_eqb n a | None => false end && (length (n_hash a) =? HashSize)%nat.
Lemma found_b_ok a : found_b a = true → LookupNode (c_index (s_chain ex_stateA)) (n_hash a) = Some a ∧ length (n_hash a) = HashSize.
Proof.
  unfold found_b. rewrite andb_true_iff, Nat.eqb_eq. intros [Hn ?]. split; [|done].
  destruct (LookupNode _ _) as [n|]; [|done]. by apply node_eqb_eq in Hn as ->.
Qed.
Lemma ex_fork_found : ∀ a, upto a nodeA → LookupNode (c_index (s_chain ex_stateA)) (n_hash a) = Some a ∧ length (n_hash a) = HashSize.
Proof. intros a [->| ->]%upto_nodeA; apply found_b_ok; vm_compute; reflexivity. Qed.
Lemma crash_recovery_witness :
  let '(r, s') := InitConsistentState ex_max (λ _, 0) 1000 now (λ _, false) nodeA (restart ex_empty ex_stateA) in
  match r with VOk _ => consistent nodeA s' | _ => False end.
Proof.
  destruct (crash_recovery ex_max (λ _, 0) 1000 now (λ _, false) nodeA ex_empty ex_stateA) as [H1 H2].
  - split; [split; [by intros op [x Hx]|done]|done].
  - reflexivity.
  - exact ex_fork_found.
  - specialize (H2 (H1 (proj1 ex_consistentA))).
    destruct (InitConsistentState _ _ _ _ _ _ _) as [[x|e|] s']; destruct H2 as [_ H2].
    + exact (proj1 H2).
    + destruct H2 as [n Hn]. discriminate Hn.
    + exact H2.
Defined.

(** ** An orphan *)

Definition ex_orphan : Block := mkBlock msgC 2.
Definition ex_seen (b : Block) : Prop := b = ex_orphan.
Lemma ex_one_parent : one_parent ex_seen.
Proof. intros b b' -> ->. done. Qed.
Definition ex_order (m : gmap Hash orphanBlock) : list orphanBlock := map snd (map_to_list m).
Lemma ex_visits : visits_all ex_order.
Proof.
  intros m o. unfold ex_order. rewrite list_elem_of_fmap. split.
  - intros ([h o'] & -> & Hin%elem_of_map_to_list). by exists h.
  - intros [h Hh]. exists (h, o). split; [done|]. by apply elem_of_map_to_list.
Qed.
Lemma ex_pool s : orphan_part s = (∅, ∅, None) → pool_ok ex_seen s.
Proof.
  unfold orphan_part. intros [= H1 H2 H3]. split; [split|]; rewrite ?H1, ?H2, ?H3; try done.
  - intros p o. rewrite !lookup_empty. split; [by intros ?%elem_of_nil|by intros [_ ?]].
  - rewrite map_size_empty. split; [lia|]. intros [=].
Qed.

Lemma ex_unknown s h : orphan_part s = (∅, ∅, None) → s_orphans s !! h = None.
Proof. unfold orphan_part. intros [= -> _ _]. apply lookup_empty. Qed.

(** The block arrives before its parent. *)
Definition ex_young : Chain :=
  set_chain (set_index (λ _, addNode node0 newBlockIndex)) (set_db (set_blocks (λ _, {[n_hash node0 := genesisBlock]})) ex_state).
Definition ex_process : VRes (bool * bool) * Chain :=
  ProcessBlock ex_max (λ _, 0) 1000 id 20 no_prune no_index no_index no_legacy ex_order now now ex_orphan BFNoPoWCheck ex_young.
Lemma ex_process_size : size (s_orphans (snd ex_process)) = 1%nat.
Proof. vm_compute. reflexivity. Qed.
Lemma ex_young_pool : pool_ok ex_seen ex_young.
Proof. apply ex_pool. reflexivity. Qed.
Lemma orphan_pool_witness :
  size (s_orphans (snd ex_process)) = 1%nat ∧ pool_ok ex_seen (snd ex_process).
Proof.
  split; [exact ex_process_size|].
  destruct (orphan_pool ex_seen ex_order ex_max (λ _, 0) 1000 id 20 no_prune no_index no_index no_legacy now now ex_orphan BFNoPoWCheck ex_young
    ex_one_parent ex_visits ex_young_pool eq_refl) as [Hp _]. exact Hp.
Defined.

(** Its parent is known now. *)
Definition ex_waiting : Chain := snd (addOrphanBlock ex_order now ex_orphan ex_stateA).
Lemma ex_no_orphans : orphan_part ex_stateA = (∅, ∅, None).
Proof. vm_compute. reflexivity. Qed.
Lemma ex_waiting_ok : orphans_ok ex_seen ex_waiting ∧ s_orphans ex_waiting !! block_hash ex_orphan = Some (mkOrphan ex_orphan (now + 3600)).
Proof.
  pose proof ex_no_orphans as He.
  destruct (add_ok ex_seen ex_order now ex_orphan ex_stateA ex_one_parent ex_visits (ex_pool _ He)) as (s' & Ha & Hp & Hl).
  - exact (ex_unknown _ _ He).
  - reflexivity.
  - unfold ex_waiting. rewrite Ha. split; [exact (proj1 Hp)|exact Hl].
Qed.
Definition ex_accept : VRes unit * Chain :=
  processOrphans ex_max (λ _, 0) 1000 id 20 no_prune no_index no_index no_legacy now now (n_hash nodeB) BFFastAdd ex_waiting.
Lemma ex_accepted : accepted (fst ex_accept) = true.
Proof. vm_compute. reflexivity. Qed.
Lemma ex_parent : prev_hash ex_orphan = n_hash nodeB.
Proof. reflexivity. Qed.
Lemma orphans_processed_witness :
  ∃ s', ex_accept = (VOk tt, s') ∧ s_orphans s' !! block_hash ex_orphan = None.
Proof.
  pose proof ex_accepted as Ha. destruct ex_accept as [[[]|e|] s'] eqn:E; [|discriminate Ha..]. exists s'. split; [reflexivity|].
  destruct ex_waiting_ok as [Hok Hl].
  destruct (orphans_processed ex_seen ex_max (λ _, 0) 1000 id 20 no_prune no_index no_index no_legacy now now BFFastAdd (n_hash nodeB) ex_waiting
    ex_one_parent Hok) as [_ H2].
  specialize (H2 s' E (block_hash ex_orphan)). destruct (s_orphans s' !! block_hash ex_orphan) as [o|]; [|reflexivity].
  destruct (proj1 (H2 o) eq_refl) as [Ho Hd]. rewrite Hl in Ho. injection Ho as <-. destruct Hd.
  apply descends_child; [exact Hl|exact ex_parent].
Defined.
