(* ===== verification/MempoolWitness.v ===== *)
(** * The memory pool: the theorems on concrete transactions

    A chain with one unspent output, a transaction that spends it, its child,
    and a transaction that replaces both. *)

From Stdlib Require Import ZArith Lia.
From stdpp Require Import base numbers list strings gmap relations.
From S2P Require Import Prelude GoFloat ScriptNum WireBase WireTx ScriptStack ScriptToken Sighash GoHash WireMsg Taproot ScriptEngine ScriptExec ScriptStandard ScriptWitness ChainCompress ChainUtxo ChainStore ChainStoreFacts ChainError ChainNode ChainParams ChainRules ChainConnect ChainSupply ChainCache ChainCacheFacts ChainState Mempool MempoolFacts MempoolGraph Mining MiningFacts MiningLimits ChainWitness.

Open Scope Z_scope.

(** The hash is that of the engine's cryptography. *)
#[local] Remove Hints go_Sha : typeclass_instances.

#[export] Instance ex_Env : Env := {|
  clock := λ n, 1700000000 * second + Z.of_nat n; range_order := λ _ l, l; math_Pow := λ _ _, f64_of_Z 1 |}.
Lemma ex_Env_ok : Env_ok.
Proof. intros n l. reflexivity. Qed.

(** What the chain has of an output. *)
Definition ex_chain_entry (op : OutPoint) : option UtxoEntry :=
  if decide (op = ex_out) then Some (mkUtxoEntry 100000 ex_pay 0 0) else None.
Definition ex_fetch (t : MsgTx) : VRes UtxoViewpoint :=
  VOk (fold_left (λ v op, match ex_chain_entry op with Some e => set_entry op e v | None => set_nil op v end)
         (own_outpoints t ++ spent_outpoints t) NewUtxoViewpoint).
Definition ex_policy : Policy := mkPolicy 2 false true (f64_of_Z 15) 100 100000 80000 1000 false.
Definition ex_cfg : Config :=
  mkConfig ex_policy MainNetParams ex_fetch 100 1700000000 (λ _ _, VOk (mkSequenceLock (-1) (-1))) (λ _, VOk true).

Definition ex_mp_tx (op : OutPoint) (outs : list Z) : MsgTx :=
  mkMsgTx 1 [mkTxIn op [] [] 0] (map (λ v, mkTxOut v ex_pay) outs) 0.
Definition ex_parent : MsgTx := ex_mp_tx ex_out [50000; 40000].
Definition ex_child : MsgTx := ex_mp_tx (mkOutPoint (TxHash ex_parent) 0) [30000; 10000].
Definition ex_replacing : MsgTx := ex_mp_tx ex_out [30000; 20000].

Definition ex_mp_run : mp_op → TxPool → TxPool := mp_run id 20.
Definition ex_mp1 : TxPool := ex_mp_run (OpProcessTransaction ex_cfg ex_parent true true 0) (New 0).
Definition ex_mp2 : TxPool := ex_mp_run (OpProcessTransaction ex_cfg ex_child true true 0) ex_mp1.

Lemma ex_mp1_reachable : mp_reachable id 20 100 ex_mp1.
Proof. apply reach_op; [apply reach_new|]. by intros cfg [= <-]. Qed.
Lemma ex_mp2_reachable : mp_reachable id 20 100 ex_mp2.
Proof. apply reach_op; [apply ex_mp1_reachable|]. by intros cfg [= <-]. Qed.

(** The parent is below the child. *)
Definition ex_rank (h : Hash) : nat := if decide (h = TxHash ex_parent) then 0%nat else 1%nat.
Definition ranked_check (rank : Hash → nat) (s : TxPool) : bool :=
  forallb (λ '(h, d), forallb (λ op, negb (bool_decide (is_Some (mp_pool s !! op_Hash op))) || (rank (op_Hash op) <? rank h)%nat)
    (spent_outpoints (td_Tx d))) (map_to_list (mp_pool s)).
Lemma ranked_check_ok rank s : ranked_check rank s = true → ranked rank s.
Proof.
  unfold ranked_check. rewrite forallb_forall. intros Hc t op (d & Hd & <-) Hop Hx.
  assert (In (TxHash (td_Tx d), d) (map_to_list (mp_pool s))) as Hin by (apply list_elem_of_In, elem_of_map_to_list; exact Hd).
  apply Hc in Hin. rewrite forallb_forall in Hin. apply list_elem_of_In, Hin in Hop.
  rewrite bool_decide_eq_true_2 in Hop by exact Hx. apply Nat.ltb_lt. exact Hop.
Qed.
Lemma ex_mp2_check : ranked_check ex_rank ex_mp2 = true.
Proof. vm_compute. reflexivity. Qed.
Lemma ex_mp2_ranked : ranked ex_rank ex_mp2.
Proof. apply ranked_check_ok, ex_mp2_check. Qed.

Lemma ex_mp2_holds : isTransactionInPool ex_mp2 (TxHash ex_parent) = true ∧ isTransactionInPool ex_mp2 (TxHash ex_child) = true.
Proof. vm_compute. split; reflexivity. Qed.

(** Whether a transaction is accepted, and at which fee. *)
Definition accepted_at (r : MRes (list Hash * option TxDesc) * TxPool) : option Z :=
  match r with (MOk ([], Some d), _) => Some (td_Fee d) | _ => None end.
Lemma accepted_at_some r f : accepted_at r = Some f → ∃ d s', r = (MOk ([], Some d), s') ∧ td_Fee d = f.
Proof. unfold accepted_at. intros Hr. destruct r as [[[[|h l] [d|]]|e|] s']; try discriminate. injection Hr as <-. eauto. Qed.
Lemma ex_replacing_fee : accepted_at (MaybeAcceptTransaction id 20 ex_cfg ex_replacing true true ex_mp2) = Some 50000.
Proof. vm_compute. reflexivity. Qed.

(** The pool holds both transactions, and each output is spent once. *)
Lemma mempool_invariant_witness :
  isTransactionInPool ex_mp2 (TxHash ex_parent) = true ∧ isTransactionInPool ex_mp2 (TxHash ex_child) = true ∧
  ∀ h, isTransactionInPool ex_mp2 h && isOrphanInPool ex_mp2 h = false.
Proof.
  split; [exact (proj1 ex_mp2_holds)|split; [exact (proj2 ex_mp2_holds)|]].
  destruct (mempool_invariant id 20 100 ex_mp2 ex_Env_ok ex_mp2_reachable) as (_ & _ & _ & _ & _ & Hb & _). exact Hb.
Defined.

(** The replacing transaction is sane and in the pool. *)
Lemma accepted_transaction_witness :
  sane ex_replacing ∧
  ∃ d s', MaybeAcceptTransaction id 20 ex_cfg ex_replacing true true ex_mp2 = (MOk ([], Some d), s') ∧
    td_Fee d = 50000 ∧ mp_pool s' !! TxHash ex_replacing = Some d.
Proof.
  destruct (accepted_at_some _ _ ex_replacing_fee) as (d & s' & Hr & Hf).
  destruct (accepted_transaction id 20 100 ex_mp2 ex_cfg ex_replacing true true d s' ex_Env_ok ex_mp2_reachable Hr)
    as (_ & _ & Hs & _ & v0 & v & _ & _ & _ & _ & _ & _ & _ & _ & Hp & _).
  split; [exact Hs|]. exists d, s'. split; [exact Hr|split; [exact Hf|exact Hp]].
Defined.

Lemma ex_descendants : txDescendants ex_mp2 ex_parent !! TxHash ex_child = Some ex_child.
Proof. vm_compute. reflexivity. Qed.

(** The child is found as the descendant of its parent, and is one. *)
Lemma mempool_searches_witness :
  txDescendants ex_mp2 ex_parent !! TxHash ex_child = Some ex_child ∧ descendant ex_mp2 ex_parent ex_child.
Proof.
  destruct (mempool_searches id 20 100 ex_rank ex_mp2 ex_Env_ok ex_mp2_reachable ex_mp2_ranked ex_parent) as (_ & Hd & _).
  split; [exact ex_descendants|]. exact (proj1 (proj1 (Hd _ _) ex_descendants)).
Defined.

(** Removing the parent with its redeemers. *)
Lemma remove_with_redeemers_witness :
  isTransactionInPool (RemoveTransaction ex_parent true ex_mp2) (TxHash ex_child) = false ∧
  ∀ k d, mp_pool (RemoveTransaction ex_parent true ex_mp2) !! k = Some d ↔ mp_pool ex_mp2 !! k = Some d ∧ ¬ family ex_mp2 ex_parent k.
Proof.
  split; [vm_compute; reflexivity|].
  destruct (remove_with_redeemers id 20 100 ex_rank ex_mp2 ex_Env_ok ex_mp2_reachable ex_mp2_ranked ex_parent) as (Hd & _).
  exact Hd.
Defined.

Definition conflicts_check (s : TxPool) (t : MsgTx) : bool :=
  existsb (λ op, bool_decide (is_Some (mp_outpoints s !! op))) (spent_outpoints t).
Lemma conflicts_check_ok s t : conflicts_check s t = true → ∃ op, op ∈ spent_outpoints t ∧ is_Some (mp_outpoints s !! op).
Proof. unfold conflicts_check. rewrite existsb_exists. intros (op & Hi & Ho%bool_decide_eq_true). exists op. by rewrite list_elem_of_In. Qed.
Lemma ex_conflicts : conflicts_check ex_mp2 ex_replacing = true.
Proof. vm_compute. reflexivity. Qed.

(** The replacing transaction takes the place of the parent and the child. *)
Lemma replacement_witness :
  (∀ op x, op ∈ spent_outpoints ex_replacing → mp_outpoints ex_mp2 !! op = Some x → signals ex_mp2 x) ∧
  ∃ s' evicted, (∀ k, k ∈ evicted ↔ gone ex_mp2 s' k) ∧ (length evicted <= 100)%nat.
Proof.
  destruct (accepted_at_some _ _ ex_replacing_fee) as (d & s' & Hr & Hf).
  destruct (replacement id 20 100 ex_rank ex_mp2 ex_cfg ex_replacing true true d s' ex_Env_ok ex_mp2_reachable ex_mp2_ranked
    Hr (conflicts_check_ok _ _ ex_conflicts)) as (_ & Hs & (ev & _ & Hl & Hg & _) & _).
  split; [exact Hs|]. exists s', ev. split; [exact Hg|exact Hl].
Defined.

(** A two-of-two multisignature script. *)
Definition ex_g_key : list byte := 2 :: repeat 0x79 32.
Lemma standard_scripts_witness :
  ∃ script, MultiSigScript [ex_g_key; ex_g_key] 2 = Ok (script, None) ∧ GetScriptClass script = MultiSigTy ∧
    CalcMultiSigStats script = Ok (2, 2).
Proof.
  destruct standard_scripts_recognized as (_ & _ & _ & Hm & _).
  destruct (Hm [ex_g_key; ex_g_key] 2) as (script & H1 & H2 & H3 & _).
  - repeat constructor.
  - vm_compute. discriminate.
  - vm_compute. split; discriminate.
  - exists script. split; [exact H1|split; [exact H2|exact H3]].
Defined.

(** ** A template *)

(** A pool with two transactions, one of which spends an output of the
    other. *)
Definition ex_chain_fetch (t : MsgTx) : VRes UtxoViewpoint :=
  VOk (fold_left (λ v op, if decide (op = ex_out) then set_entry op (mkUtxoEntry 5000 ex_pay 0 0) v else set_nil op v)
         (own_outpoints t ++ spent_outpoints t) NewUtxoViewpoint).
Definition ex_mine_cfg : Config :=
  mkConfig ex_policy MainNetParams ex_chain_fetch 0 1700000000 (λ _ _, VOk (mkSequenceLock (-1) (-1))) (λ _, VOk true).
Definition ex_tx3 : MsgTx := ex_spend [mkOutPoint (TxHash ex_tx1) 1] [700; 600].
Definition ex_mine_pool : TxPool :=
  ex_mp_run (OpProcessTransaction ex_mine_cfg ex_tx3 true true 0)
    (ex_mp_run (OpProcessTransaction ex_mine_cfg ex_tx1 true true 0) (New 0)).
Lemma ex_mine_reachable : mp_reachable id 20 100 ex_mine_pool.
Proof. apply reach_op; [apply reach_op; [apply reach_new|]|]; by intros cfg [= <-]. Qed.
Definition ex_source : TxSource := pool_source ex_mine_pool (λ _, 1700000000).
Definition ex_source_ok : TxSourceOk := pool_source_ok id 20 100 ex_mine_pool (λ _, 1700000000) ex_Env_ok ex_mine_reachable.

Definition ex_mine_chain : Chain :=
  mkChainState ex_chain (s_db ex_state) (s_snapshot ex_state) [] false ∅ ∅ None [] 0.
Definition ex_mine_ledger : ledger := cache_ledger ex_db ex_cache.
Lemma ex_answers : answers ex_mine_ledger ex_mine_chain.
Proof. split; [exact ex_cache_ok|]. intros op. reflexivity. Qed.

Definition ex_mine_policy : MiningPolicy := mkMiningPolicy 0 3000000 0 750000 50000 1000.
Definition ex_template (pay : option (VRes (list byte))) : VRes BlockTemplate * Chain :=
  NewBlockTemplate (SO := ex_source) ex_max id 20 ex_mine_policy MainNetParams pay ex_mine_chain.
Definition fees_listed (r : VRes BlockTemplate * Chain) : option (list Z) :=
  match r with (VOk t, _) => Some (bt_Fees t) | _ => None end.
Lemma fees_listed_some r l : fees_listed r = Some l → ∃ t c, r = (VOk t, c) ∧ bt_Fees t = l.
Proof. destruct r as [[t| |] c]; [intros [= <-]; eauto|discriminate..]. Qed.
Lemma ex_template_fees : fees_listed (ex_template None) = Some [-700; 500; 200].
Proof. vm_compute. reflexivity. Qed.
Lemma ex_descs : map md_Tx (@MiningDescs ex_source) = [ex_tx1; ex_tx3].
Proof. vm_compute. reflexivity. Qed.
Lemma ex_descs_fit : Forall (λ d, Forall outpoint_fits (spent_outpoints (md_Tx d))) (@MiningDescs ex_source).
Proof.
  apply (Forall_map md_Tx (λ t, Forall outpoint_fits (spent_outpoints t))). rewrite ex_descs.
  repeat constructor; vm_compute; (reflexivity || intros [=]).
Qed.
Lemma ex_descs_small : Forall (λ d, GetTransactionWeight (md_Tx d) < 2 ^ 32) (@MiningDescs ex_source).
Proof.
  apply (Forall_map md_Tx (λ t, GetTransactionWeight t < 2 ^ 32)). rewrite ex_descs.
  repeat constructor; vm_compute; reflexivity.
Qed.

(** Both transactions are in the block, the one that is spent first. *)
Lemma template_spends_witness :
  ∃ t c' cb txs, ex_template None = (VOk t, c') ∧ bt_Fees t = [-700; 500; 200] ∧ Transactions (bt_Block t) = cb :: txs ∧
    NoDup (map TxHash txs) ∧ spends_unspent (bt_Height t) txs ex_mine_ledger.
Proof.
  destruct (fees_listed_some _ _ ex_template_fees) as (t & c' & Ht & Hf).
  destruct (@template_spends _ _ ex_source ex_source_ok ex_max id 20 ex_mine_policy MainNetParams None ex_mine_ledger ex_mine_chain t c'
    ex_answers ex_descs_fit Ht) as (_ & _ & _ & cb & txs & fee & fees & Htx & _ & _ & Hnd & _ & Hs).
  exists t, c', cb, txs. split; [exact Ht|split; [exact Hf|split; [exact Htx|split; [exact Hnd|exact Hs]]]].
Defined.

Lemma ex_pay_ok : pay_ok None.
Proof. intros pk [=]. Qed.
Lemma ex_max_weight : 0 <= BlockMaxWeight ex_mine_policy < 2 ^ 31.
Proof. vm_compute. split; [intros [=]|reflexivity]. Qed.
(** The coinbase takes the fees. *)
Lemma template_limits_witness :
  ∃ t c' cb txs fees out outs, ex_template None = (VOk t, c') ∧ Transactions (bt_Block t) = cb :: txs ∧ TxOuts cb = out :: outs ∧
    bt_Fees t = int64 (- int64 (total (λ f, f) fees)) :: fees ∧
    Value out = int64 (CalcBlockSubsidy (bt_Height t) MainNetParams + int64 (total (λ f, f) fees)).
Proof.
  destruct (fees_listed_some _ _ ex_template_fees) as (t & c' & Ht & Hf).
  destruct (@template_limits _ _ ex_source ex_source_ok ex_max id 20 ex_mine_policy MainNetParams None ex_mine_ledger ex_mine_chain t c'
    ex_answers ex_descs_fit ex_descs_small ex_max_weight ex_pay_ok Ht) as (cb & txs & fees & cost & costs & out & outs & sw & H1 & _ & H2 & H3 & H4 & _).
  exists t, c', cb, txs, fees, out, outs. split; [exact Ht|split; [exact H1|split; [exact H2|split; [exact H3|exact H4]]]].
Defined.

Definition ex_first_pass : VRes Pick * Chain :=
  @consider_all _ _ ex_source ex_max 1 (@MiningDescs ex_source) (start_pick ex_mine_policy) ex_mine_chain.
(** One item is ready, and one depends on it. *)
Definition rounds_of (r : VRes Pick * Chain) : option nat := match r with (VOk p, _) => Some (select_rounds p) | _ => None end.
Lemma rounds_of_some r n : rounds_of r = Some n → ∃ p c, r = (VOk p, c) ∧ select_rounds p = n.
Proof. destruct r as [[p| |] c]; [intros [= <-]; eauto|discriminate..]. Qed.
Lemma ex_rounds : rounds_of ex_first_pass = Some 4%nat.
Proof. vm_compute. reflexivity. Qed.
Lemma selection_terminates_witness :
  ∃ p c1, ex_first_pass = (VOk p, c1) ∧ select_rounds p = 4%nat ∧
    let run rounds := select (SO := ex_source) id 20 ex_mine_policy MainNetParams rounds 1 false ex_tx1 (new_selection ex_mine_policy p ex_tx1 0) in
    (∀ k, run (select_rounds p + k)%nat = run (select_rounds p)).
Proof.
  destruct (rounds_of_some _ _ ex_rounds) as (p & c1 & Hp & Hr).
  exists p, c1. split; [exact Hp|split; [exact Hr|]].
  exact (proj1 (@selection_terminates _ _ ex_source ex_source_ok ex_max id 20 ex_mine_policy MainNetParams ex_mine_ledger ex_mine_chain p c1 1 false ex_tx1 0
    ex_answers ex_descs_fit Hp)).
Defined.

(** Three items, by priority and then by fee. *)
Definition ex_item (priority feePerKB : Z) : txPrioItem := mkPrioItem ex_tx1 0 (f64_of_Z priority) feePerKB ∅.
Definition ex_items : Items := [ex_item 5 10; ex_item 7 20; ex_item 5 30].
Definition ex_ops : list queue_op := [QPush 0; QPush 1; QPush 2; QPop; QSort true; QPop; QPop; QPop].
Lemma ex_ops_listed : Forall (op_listed ex_items) ex_ops.
Proof. repeat constructor; eexists; (split; [reflexivity|vm_compute; discriminate]). Qed.
Lemma priority_queue_witness :
  fst (queue_run ex_items ex_ops (newTxPriorityQueue false)) = [None; None; None; Some 1%nat; None; Some 2%nat; Some 0%nat; None] ∧
  ∃ b, bag_run ex_items ex_ops (fst (queue_run ex_items ex_ops (newTxPriorityQueue false))) (false, []) b.
Proof.
  split; [vm_compute; reflexivity|]. destruct (priority_queue ex_items false ex_ops ex_ops_listed) as (b & Hb & _).
  exists b. exact Hb.
Defined.

(** The coinbase of the example has the height 1 in its script. *)
Lemma extra_nonce_witness :
  ∃ m' (script : list byte), UpdateExtraNonce (b_msg ex_good) 1 77 = VOk m' ∧
    zlen script <= MaxCoinbaseScriptLen ∧ bh_Nonce (Header m') = bh_Nonce (Header (b_msg ex_good)).
Proof.
  assert (0 <= 1 < 2 ^ 31) as H1 by lia. assert (0 <= 77 < 2 ^ 64) as H2 by lia. assert (zlen [ex_tx1; ex_tx2] < 2 ^ 61) as H3 by (vm_compute; reflexivity).
  pose proof (extra_nonce_roundtrip (b_msg ex_good) (ex_coinbase 5000000600) _ [] [ex_tx1; ex_tx2] 1 77 H1 H2 eq_refl eq_refl H3) as H.
  rewrite decide_False in H by lia. destruct H as (m' & script & Hu & Hm & _ & Hl & _). exists m', script. split; [exact Hu|split; [exact Hl|rewrite Hm; reflexivity]].
Defined.
