(* ===== verification/NodeWitness.v ===== *)
(** * The theorems about headers, messages and script trees on concrete data *)

From Stdlib Require Import ZArith Lia.
From stdpp Require Import base numbers list strings gmap.
From S2P Require Import Prelude ScriptNum WireBase WireTx WireTxFacts ScriptStack ScriptToken Sighash SighashFacts GoHash WireMsg WireFrame WireFrameFacts Taproot TaprootFacts ScriptEngine ScriptWitness ChainError Merkle MerkleFacts ChainNode ChainNodeFacts ChainParams ChainWork ChainWorkFacts ChainGenesis ChainThreshold ChainThresholdFacts.

Open Scope Z_scope.

(** ** Chains of headers *)

Definition ex_header (i : nat) : BlockHeader :=
  mkBlockHeader 0x20000001 (replicate 32 0) (replicate 32 0) (1700000000 + 600 * Z.of_nat i) 0x1c7fffff 0.
(** The node at a height; the hashes are those of the headers. *)
Fixpoint ex_tower (i : nat) : blockNode :=
  match i with
  | O => newBlockNode (ex_header 0) None
  | S j => newBlockNode (ex_header i) (Some (ex_tower j))
  end.
Lemma ex_tower_linked i : Z.of_nat i < 2 ^ 31 → linked (ex_tower i) ∧ n_height (ex_tower i) = Z.of_nat i.
Proof.
  induction i as [|i IH]; intros Hi; [split; [apply newBlockNode_linked; exact I|reflexivity]|].
  destruct IH as [Hl Hh]; [lia|]. cbn [ex_tower]. split; [apply newBlockNode_linked; split; [done|lia]|].
  cbn [newBlockNode n_height]. rewrite Hh. rewrite wrap_s_id by (cbn; lia). lia.
Qed.

Lemma ex_tower_bits i : n_bits (ex_tower i) = 0x1c7fffff.
Proof. by destruct i. Qed.

Definition ex_headers : list BlockHeader := map ex_header (seq 0 40).
Lemma ex_headers_chain : ∃ n, chain_node ex_headers = Some n.
Proof.
  pose proof (chain_node_ok ex_headers ltac:(vm_compute; discriminate)) as Hc.
  destruct (chain_node ex_headers) as [n|]; [by exists n|discriminate Hc].
Qed.
Lemma Ancestor_skips_witness :
  ∃ n, chain_node ex_headers = Some n ∧ n_height n = 39 ∧ Ancestor n 17 = chain_node (take 18 ex_headers).
Proof.
  destruct ex_headers_chain as [n En]. exists n. split; [exact En|].
  assert (Hlen : zlen ex_headers <= 2 ^ 31) by (vm_compute; discriminate).
  destruct (Ancestor_skips ex_headers n 17 Hlen En) as (Hh & _ & Ha). split; [exact Hh|exact Ha].
Defined.

Lemma chain_view_witness :
  setTip (Some (ex_tower 9)) (old_view (Some (ex_tower 5))) = view_of (ex_tower 9) ∧
  nodeByHeight (view_of (ex_tower 9)) 3 = Ancestor (ex_tower 9) 3.
Proof.
  destruct (ex_tower_linked 9 ltac:(reflexivity)) as [H9 Hh9]. destruct (ex_tower_linked 5 ltac:(reflexivity)) as [H5 Hh5].
  destruct (chain_view (ex_tower 9) (ex_tower 5) (Some (ex_tower 5)) 3 H9 H5 H5) as (H1 & _ & H2 & _);
    [rewrite Hh9; reflexivity|rewrite Hh5; reflexivity|]. split; assumption.
Defined.

Lemma retarget_bounds_witness :
  ∃ bits, calcNextRequiredDifficulty MainNetParams (Some (ex_tower 2015)) 1800000000 = VOk bits ∧
    CompactToBig bits <= mainPowLimit.
Proof.
  destruct (ex_tower_linked 2015 ltac:(reflexivity)) as [Hl Hh].
  destruct (retarget_bounds MainNetParams (ex_tower 2015) 1800000000) as (bits & Hc & Hb & _).
  - left.
  - reflexivity.
  - exact Hl.
  - rewrite Hh. reflexivity.
  - rewrite Hh. reflexivity.
  - rewrite ex_tower_bits. vm_compute. discriminate.
  - exists bits. split; assumption.
Defined.

Lemma main_net_lowest_difficulty_witness :
  calcNextRequiredDifficulty MainNetParams (Some (ex_tower 7)) 1800000000 = VOk 0x1d00ffff.
Proof.
  destruct (ex_tower_linked 7 ltac:(reflexivity)) as [Hl Hh].
  apply (main_net_lowest_difficulty (ex_tower 7) 1800000000 Hl); rewrite ?Hh; vm_compute; (reflexivity || discriminate).
Defined.

Lemma compact_roundtrip_witness :
  let t := CompactToBig (BigToCompact 1000000000) in
  0 < t <= 1000000000 ∧ BigToCompact t = BigToCompact 1000000000.
Proof.
  destruct (compact_roundtrip 1000000000 2000000000 ltac:(reflexivity) ltac:(discriminate) ltac:(reflexivity))
    as (H1 & _ & H2 & _). split; assumption.
Defined.

(** ** Merkle trees *)

Definition ex_tx_n (i : Z) : MsgTx :=
  mkMsgTx i [mkTxIn (mkOutPoint (replicate 32 i) 0) [] [] 0xffffffff] [mkTxOut i [0x51]] 0.
Definition ex_txs : list MsgTx := map ex_tx_n [1; 2; 3; 4; 5].
Lemma merkle_equivalence_witness :
  ∃ r merkles, merkle_root (leaves true ex_txs) = Some r ∧ CalcMerkleRoot ex_txs true = Ok r ∧
    BuildMerkleTreeStore ex_txs true = Ok merkles ∧ last merkles = Some (Some r).
Proof. apply (merkle_equivalence true ex_txs). reflexivity. Defined.
Lemma ex_txs_root : ∃ r, CalcMerkleRoot ex_txs false = Ok r.
Proof. eexists. vm_compute. reflexivity. Qed.
(** The same transactions with witnesses. *)
Definition ex_signed_n (i : Z) : MsgTx :=
  mkMsgTx i [mkTxIn (mkOutPoint (replicate 32 i) 0) [] [[i]] 0xffffffff] [mkTxOut i [0x51]] 0.
Definition ex_signed : list MsgTx := map ex_signed_n [1; 2; 3; 4; 5].
Lemma ex_signed_root r : CalcMerkleRoot ex_txs false = Ok r → CalcMerkleRoot ex_signed false = Ok r.
Proof. intros <-. vm_compute. reflexivity. Qed.
Lemma ex_merkle_apart : apart (merkle_messages ex_txs ++ merkle_messages ex_signed).
Proof. apply apart_checked. vm_compute. reflexivity. Qed.
Lemma merkle_root_commits_witness :
  (∃ r, CalcMerkleRoot ex_txs false = Ok r ∧ CalcMerkleRoot (map ex_tx_n [1; 2; 3; 4; 5; 5]) false = Ok r) ∧
  map SerializeNoWitness ex_txs = map SerializeNoWitness ex_signed.
Proof.
  destruct ex_txs_root as [r E].
  destruct (merkle_root_commits ex_txs ex_signed r eq_refl ltac:(reflexivity) E (ex_signed_root r E)) as [Hsame Hdup]. split.
  - exists r. split; [exact E|].
    apply (Hdup (map ex_tx_n [1; 2; 3; 4]) (ex_tx_n 5)); [reflexivity|discriminate|reflexivity].
  - exact (Hsame ex_merkle_apart).
Defined.

(** ** Deployments

    Blocks one window each, so that a deployment that all vote for is active
    after three of them. *)

Definition ex_params : Params :=
  mkParams simNetGenesisHash simNetPowLimit 0x207fffff false 0 0 0 100 210000 (hours 24 * 14) (minutes 10) 4
    true (minutes 20) [] 1 1 (Deployments SimNetParams).
Definition ex_nodes : list blockNode := map ex_tower (seq 0 6).
Definition ex_index : blockIndex := fold_right addNode newBlockIndex ex_nodes.
Definition ex_known (n : blockNode) : Prop := n ∈ ex_nodes.

Definition found_is (o : option blockNode) (n : blockNode) : bool := bool_decide (o = Some n).
Lemma found_is_ok o n : found_is o n = true → o = Some n.
Proof. unfold found_is. by intros ?%bool_decide_eq_true. Qed.
Definition parent_known (n : blockNode) : bool :=
  match parent n with Some p => existsb (found_is (Some p)) ex_nodes | None => true end.
Definition time_after (n : blockNode) : bool :=
  match parent n with
  | Some p => match CalcPastMedianTime (Some p) with VOk t => t <? n_timestamp n | _ => true end
  | None => true
  end.
Lemma ex_parents : forallb parent_known ex_nodes = true.
Proof. vm_compute. reflexivity. Qed.
Lemma ex_times : forallb time_after ex_nodes = true.
Proof. vm_compute. reflexivity. Qed.
Definition is_indexed (n : blockNode) : bool := found_is (LookupNode ex_index (n_hash n)) n.
Lemma ex_found : forallb is_indexed ex_nodes = true.
Proof. vm_compute. reflexivity. Qed.
Lemma ex_all (f : blockNode → bool) : forallb f ex_nodes = true → ∀ n, ex_known n → f n = true.
Proof. intros Hf n Hn. apply (proj1 (forallb_forall f ex_nodes) Hf). by apply list_elem_of_In. Qed.

Lemma ex_indexed n : ex_known n → LookupNode ex_index (n_hash n) = Some n.
Proof.
  intros Hn. apply (ex_all is_indexed ex_found) in Hn. exact (found_is_ok _ _ Hn).
Qed.
Lemma ex_no_zero : LookupNode ex_index zeroHash = None.
Proof. vm_compute. reflexivity. Qed.
#[export] Instance ex_Known : Known ex_known.
Proof.
  split.
  - intros n (i & -> & Hi)%list_elem_of_fmap. apply ex_tower_linked. apply elem_of_seq in Hi. lia.
  - intros n p Hn Hp. apply (ex_all parent_known ex_parents) in Hn. unfold parent_known in Hn.
    rewrite Hp in Hn. apply existsb_exists in Hn as (q & Hq & He). apply found_is_ok in He. injection He as ->.
    by apply list_elem_of_In.
  - intros n m Hn Hm He. apply ex_indexed in Hn, Hm. rewrite He in Hn. congruence.
Qed.
Lemma ex_valid : valid_times (ex_tower 5).
Proof.
  intros k a Ha p t Hp Ht.
  assert (Hk : ex_known a).
  { eapply (known_nth ex_known); [|exact Ha]. apply list_elem_of_fmap. exists 5%nat. split; [done|]. apply elem_of_seq. lia. }
  apply (ex_all time_after ex_times) in Hk.
  unfold time_after in Hk. rewrite Hp, Ht in Hk. by apply Z.ltb_lt.
Qed.
Lemma ex_known_5 : ex_known (ex_tower 5).
Proof. apply list_elem_of_fmap. exists 5%nat. split; [done|]. apply elem_of_seq. lia. Qed.

Definition ex_csv : ConsensusDeployment := always 0 0 0.
Lemma ex_active : deployment_state ex_params ex_index ex_csv (Some (ex_tower 3)) = ThresholdActive.
Proof. vm_compute. reflexivity. Qed.
Lemma active_is_final_witness :
  deployment_state ex_params ex_index ex_csv (Some (ex_tower 5)) = ThresholdActive.
Proof.
  apply (active_is_final ex_params ex_index ex_known ex_indexed ex_no_zero (conj eq_refl eq_refl) ex_csv (ex_tower 5) (ex_tower 3) 2
    ex_known_5 ex_valid eq_refl ex_active).
Defined.

Lemma deployment_states_witness :
  ∃ cs, deploymentState ex_params ex_index (Some (ex_tower 5)) DeploymentCSV (replicate 5 ∅) =
        (VOk (deployment_state ex_params ex_index ex_csv (Some (ex_tower 5))), cs).
Proof.
  destruct (deployment_states ex_params ex_index ex_known (conj eq_refl eq_refl)
    (Some (ex_tower 5)) (replicate 5 ∅)) as (Hd & _).
  - split; [exact ex_known_5|reflexivity].
  - repeat constructor; intros h st Hst; discriminate Hst.
  - destruct (Hd DeploymentCSV ex_csv eq_refl) as (cs & Hc & _). exists cs. exact Hc.
Defined.

(** ** Wire messages, digests and script trees: the theorems on concrete data *)

(** The hash is that of the engine's cryptography. *)
#[local] Remove Hints go_Sha : typeclass_instances.

(** ** Transactions *)

(** An input whose script fills all but 4,000,000 bytes of the buffer. *)
Definition ex_big_in : TxIn := mkTxIn ex_out (replicate (Z.to_nat 194305) 0) [] 0.
Lemma tx_decode_panics_witness :
  btcDecode WitnessEncoding (PutInt 4 1 ++ WriteVarInt 2 ++ writeTxIn ex_big_in ++ writeOutPoint ex_out ++
    WriteVarInt maxWitnessItemSize ++ []) = WPanic.
Proof.
  assert (Hop : outpoint_ok ex_out).
  { split; [split; [reflexivity|repeat constructor; discriminate]|]. unfold unsigned. cbn. lia. }
  assert (Hlen : zlen (replicate (Z.to_nat 194305) (0 : Z)) = 194305) by (rewrite length_replicate, Z2Nat.id; [reflexivity|discriminate]).
  apply (tx_decode_panics WitnessEncoding 1 ex_big_in ex_out []).
  - unfold signed. cbn. lia.
  - split; [|reflexivity]. split; [exact Hop|]. split; [|unfold unsigned; cbn; lia].
    split; [|split]; cbn [SignatureScript ex_big_in]; rewrite ?Hlen; [discriminate| |reflexivity].
    apply Forall_replicate. split; [discriminate|reflexivity].
  - unfold in_size. cbn [SignatureScript ex_big_in]. rewrite Hlen. reflexivity.
  - exact Hop.
Defined.

Definition ex_small_tx : MsgTx := mkMsgTx 2 [mkTxIn ex_out [] [] 10] [mkTxOut 5000 [0x51]] 100.
Lemma ex_small_ok : tx_ok WitnessEncoding ex_small_tx.
Proof.
  unfold tx_ok, signed, unsigned. split_and!; cbn; try lia; try done;
    repeat constructor; cbn; try lia; try done; repeat (constructor; try done); unfold unsigned; cbn; lia.
Qed.

(** The same input signed alone with its output, in two transactions. *)
Definition ex_more_tx : MsgTx :=
  mkMsgTx 2 [mkTxIn ex_out [] [] 10; mkTxIn (mkOutPoint (replicate 32 8) 3) [] [] 11]
    [mkTxOut 5000 [0x51]; mkTxOut 7 [0x51; 0x51]] 100.
Lemma ex_more_ok : tx_ok WitnessEncoding ex_more_tx.
Proof.
  unfold tx_ok, signed, unsigned. split_and!; cbn; try lia; try done;
    repeat constructor; cbn; try lia; try done; repeat (constructor; try done); unfold unsigned; cbn; lia.
Qed.
Definition ex_prev : PrevOutputFetcher := λ _, Some (mkTxOut 9000 [0x51]).
Definition SigHashSingleAnyone : Z := 0x83.
Definition ex_hashes (tx : MsgTx) : TxSigHashes :=
  match NewTxSigHashes tx ex_prev with Ok h => h | _ => mkTxSigHashes [] [] [] [] [] [] [] [] end.
Definition ex_digest (tx : MsgTx) : option (list byte) :=
  calcWitnessSignatureHashRaw [0x51] (ex_hashes tx) SigHashSingleAnyone tx 0 9000.
Lemma ex_small_hashes : NewTxSigHashes ex_small_tx ex_prev = Ok (ex_hashes ex_small_tx).
Proof. vm_compute. reflexivity. Qed.
Lemma ex_more_hashes : NewTxSigHashes ex_more_tx ex_prev = Ok (ex_hashes ex_more_tx).
Proof. vm_compute. reflexivity. Qed.
Lemma ex_same_digest : ∃ d, ex_digest ex_small_tx = Some d ∧ ex_digest ex_more_tx = Some d.
Proof. eexists. split; vm_compute; reflexivity. Qed.

Definition ex_hashed : list (list byte) :=
  digest_messages ex_small_tx 0 (mkTxIn ex_out [] [] 10) (ex_hashes ex_small_tx) [0x51] 9000 SigHashSingleAnyone ++
  digest_messages ex_more_tx 0 (mkTxIn ex_out [] [] 10) (ex_hashes ex_more_tx) [0x51] 9000 SigHashSingleAnyone.
Lemma ex_hashed_apart : apart ex_hashed.
Proof. apply apart_checked. vm_compute. reflexivity. Qed.
Lemma ex_hashed_nonzero : nonzero ex_hashed.
Proof. apply nonzero_checked. vm_compute. reflexivity. Qed.

Lemma witness_digest_witness :
  committed SigHashSingleAnyone ex_small_tx 0 (mkTxIn ex_out [] [] 10) 9000 [0x51] =
  committed SigHashSingleAnyone ex_more_tx 0 (mkTxIn ex_out [] [] 10) 9000 [0x51].
Proof.
  destruct ex_same_digest as (d & Hd & Hd').
  assert (Hs : short_bytes (2 ^ 63) [0x51]).
  { split; [discriminate|]. split; [repeat constructor; discriminate|reflexivity]. }
  assert (Ha : signed 8 9000) by (unfold signed; cbn; lia).
  assert (Hh : unsigned 4 SigHashSingleAnyone) by (split; [discriminate|reflexivity]).
  exact (witness_digest_binding ex_small_tx 0 (mkTxIn ex_out [] [] 10) ex_prev (ex_hashes ex_small_tx) (mkTxOut 9000 [0x51])
    [0x51] 9000 SigHashSingleAnyone ex_more_tx 0 (mkTxIn ex_out [] [] 10) ex_prev (ex_hashes ex_more_tx) (mkTxOut 9000 [0x51])
    [0x51] 9000 SigHashSingleAnyone d ex_small_ok ex_more_ok ex_small_hashes ex_more_hashes eq_refl eq_refl eq_refl eq_refl
    eq_refl eq_refl Hs Hs Ha Ha Hh Hh ex_hashed_apart ex_hashed_nonzero Hd Hd').
Defined.

(** ** Script trees *)

Definition ex_leaves : list TapLeaf := map (λ i, mkTapLeaf 0xc0 [0x51; i]) [1; 2; 3].
Lemma ex_leaves_distinct : NoDup (map leaf_TapHash ex_leaves).
Proof.
  assert (Hb : bool_decide (NoDup (map leaf_TapHash ex_leaves)) = true) by (vm_compute; reflexivity).
  by apply bool_decide_eq_true in Hb.
Qed.
Lemma taproot_tree_witness :
  ∃ tree root, AssembleTaprootScriptTree ex_leaves = Some tree ∧ RootNode tree = Some root ∧
    leafDescendants root ≡ₚ ex_leaves.
Proof.
  destruct (taproot_tree_complete ex_leaves ltac:(discriminate) ex_leaves_distinct) as (tree & root & H1 & H2 & H3 & _).
  exists tree, root. split; [exact H1|]. split; [exact H2|exact H3].
Defined.

(** A control block for the first of two leaves: its path is the hash of the
    other. *)
Definition ex_leaf : TapLeaf := mkTapLeaf 0xc0 [0x51].
Definition ex_other : TapLeaf := mkTapLeaf 0xc0 [0x52].
Definition ex_root : TapNode := TapBranch (Leaf ex_leaf) (Leaf ex_other).
Definition ex_control : list byte := 0xc0 :: replicate 32 5 ++ leaf_TapHash ex_other.
Definition control_ok (r : ControlBlock + ErrorCode) (proof : list byte) (root : Hash) : bool :=
  match r with
  | inl cb => (cb_LeafVersion cb =? 0xc0) && bool_decide (InclusionProof cb = proof) && bool_decide (RootHash cb [0x51] = root)
  | inr _ => false
  end.
Lemma control_ok_parsed r proof root :
  control_ok r proof root = true →
  ∃ cb, r = inl cb ∧ cb_LeafVersion cb = 0xc0 ∧ InclusionProof cb = proof ∧ RootHash cb [0x51] = root.
Proof.
  destruct r as [cb|e]; [|discriminate]. intros [[Hv%Z.eqb_eq Hi%bool_decide_eq_true]%andb_prop Hr%bool_decide_eq_true]%andb_prop.
  exists cb. split_and!; [reflexivity|exact Hv|exact Hi|exact Hr].
Qed.
Lemma ex_control_ok : control_ok (ParseControlBlock ex_control) (leaf_TapHash ex_other) (TapHash ex_root) = true.
Proof. vm_compute. reflexivity. Qed.
Lemma ex_root_apart : apart (tree_messages ex_root ++ proof_messages (mkTapLeaf 0xc0 [0x51]) (leaf_TapHash ex_other)).
Proof. apply apart_checked. vm_compute. reflexivity. Qed.
Lemma taproot_proof_witness : ∃ v, v = 0xc0 ∧ mkTapLeaf v [0x51] ∈ leafDescendants ex_root.
Proof.
  destruct (control_ok_parsed _ _ _ ex_control_ok) as (cb & Ep & Hv & Hi & Hr). exists (cb_LeafVersion cb). split; [exact Hv|].
  apply (taproot_proof_sound ex_root ex_control cb [0x51] Ep Hr); [reflexivity| |].
  - constructor; [reflexivity|constructor; [reflexivity|constructor]].
  - rewrite Hv, Hi. exact ex_root_apart.
Defined.

(** ** Messages *)

Definition ex_msgs : list Message := [MsgVerAck; MsgPing 5; MsgTx_ ex_small_tx].
Definition ex_net : Z := 0xd9b4bef9.
Definition ex_frame (m : Message) : list byte :=
  match WriteMessage 70016 ex_net WitnessEncoding m with WOk b => b | _ => [] end.
Lemma ex_msgs_ok : Forall (msg_ok 70016 WitnessEncoding) ex_msgs.
Proof.
  constructor; [exact I|]. constructor; [split; [split; [discriminate|reflexivity]|]|]; [by intros []|].
  constructor; [apply ex_small_ok|constructor].
Qed.
Lemma ex_frames : Forall2 (λ m b, WriteMessage 70016 ex_net WitnessEncoding m = WOk b) ex_msgs (map ex_frame ex_msgs).
Proof. repeat constructor; vm_compute; reflexivity. Qed.
Lemma ex_net_fits : unsigned 4 ex_net.
Proof. split; [discriminate|reflexivity]. Qed.
Lemma message_stream_witness :
  ∃ payloads, ReadMessages (length ex_msgs) 70016 ex_net WitnessEncoding (concat (map ex_frame ex_msgs) ++ [1; 2]) =
    (zip_with (λ m p, WOk (m, p)) ex_msgs payloads, [1; 2]).
Proof.
  destruct (message_stream 70016 ex_net WitnessEncoding ex_net_fits) as [Hs _].
  specialize (Hs ex_msgs (map ex_frame ex_msgs) [1; 2] ex_msgs_ok ex_frames). destruct Hs as (payloads & _ & Hr).
  exists payloads. exact Hr.
Defined.
